(* ===== verification/_CoqProject ===== *)
-Q . S2P
Prelude.v
BgpException.v
Folly.v
BgpStructs.v
MsgHeader.v
ControlMsgs.v
OpenMsg.v
Capabilities.v
Nlri.v
PathAttrs.v
PathAttrsSerializer.v
UpdateMsg.v
UpdateSerializer.v
UpdateRoundtrip.v
GroupPdu.v
Dispatch.v
FiberBgpParser.v
BgpPeer.v
BgpPeerInv.v
BgpPeerSpec.v
Threads.v
WatermarkQueue.v
BackPressuredQueue.v
ConsumerBitmap.v
ConsumerBitManager.v
ChangeTracker.v
ChangeTrackerInv.v
ChangeTrackerOps.v
ChangeTrackerSpec.v
RouteFilter.v
RouteInfo.v
RouteSelector.v
RibEntry.v
Ucmp.v
PathSelection.v
DeDuplicator.v
PathFields.v
PolicyEncoding.v
PolicyAction.v
PolicyMatch.v
PolicyEngine.v
PolicyEngineSpec.v
PolicyTerm.v
SwitchId.v
PolicyMask.v
PolicyCache.v
PolicyExamples.v
AdjRibCommon.v
AdjRibLoop.v
PackingList.v
AdjRibOut.v
AdjRibOutInv.v
AdjRibOutSpec.v
AdjRibOutExamples.v
PathConversion.v
AdjRibIn.v
AdjRibInInv.v
AdjRibInOps.v
AdjRibInSpec.v
AdjRibInExamples.v
MapSum.v
NexthopCache.v
InterfaceEntry.v
NetlinkWrapper.v
NetlinkSpec.v
NetlinkExamples.v
RibNexthop.v
RibCounters.v
Rib.v
RibSpec.v
RibPaths.v
FibFboss.v
RibFib.v
RibFibSel.v
RibFibInv.v
RibFibPrepare.v
RibFibStage.v
RibFibAck.v
RibFibSpec.v
RibExamples.v
