(* ===== verification/Prelude.v ===== *)
(** * Verification of BGP++

    BGP++ (neteng/fboss/bgp/cpp) is a BGP daemon.  Its message library (lib/) turns bytes
    received from a peer into OPEN, UPDATE, NOTIFICATION, KEEPALIVE and ROUTE-REFRESH
    structures, hands each to a callback, and serializes what the daemon sends.  A session
    per peer (lib/fibers/FiberBgpPeer.cpp) runs the finite state machine of the protocol
    over that library; its tasks and the Adj-RIBs talk through bounded queues (lib/coro/).
    Received paths end up as [RouteInfo] objects in the entry of their prefix (rib/RibEntry.h); the
    RIB selects the multipaths and the best path of a prefix with filters from routelib/ and
    derives the weights of its next hops (rib/RibBase.cpp).  Changes are then published to
    consumers, each of which owns a bit of the bitmaps of the change tracker
    (changeTracker/).  The RIB hands its choice to the forwarding agent (rib/FibFboss.cpp) and
    tells the peers once the agent has it; whether a next hop can be used comes from a cache
    that netlink events fill (nexthopTracker/).  On the way in from a peer and out to one, the attributes of a route
    pass a policy (policy/), whose outcomes are cached, and are adapted to the session
    (adjrib/).

    ** Files

    - [Prelude] (this file): results of code that may throw, unsigned and big-endian
      arithmetic, the generic list lemmas, the hint database [bgp].
    - [BgpException]: lib/BgpException.h, one constructor per exception class with the
      subcode and data that go into the NOTIFICATION answering it.
    - [Folly]: what the code uses of folly, a library outside the repository.  [FollyOps] is
      the record of operations every definition takes, [FollyLaws] the documented behaviour
      the theorems rely on, [folly_model] an instance that shows the laws can hold.
    - [BgpStructs]: constants and structs of lib/BgpStructs.h and if/BgpStructs.thrift.
    - [MsgHeader], [ControlMsgs], [OpenMsg]: header, NOTIFICATION, KEEPALIVE, ROUTE-REFRESH
      and OPEN, parser and serializer (lib/BgpMessageParser.cpp,
      lib/BgpMessageSerializer.cpp, lib/detail/BgpMessageParserUtils.cpp).
    - [Nlri]: [parseNlri], [parseMpNlri], [serializeNlri].
    - [PathAttrs], [PathAttrsSerializer]: [parsePathAttributes], one definition per
      attribute, and [serializePathAttrs].
    - [UpdateMsg], [UpdateSerializer], [UpdateRoundtrip]: [parseBgpUpdateRaw],
      [serializeBgpEndOfRib], [serializeBgpUpdate2] and the two against each other.
    - [Dispatch]: [parseBgpMessage] with its callbacks and catch clauses.
    - [Capabilities]: what a session announces and negotiates (lib/BgpUtil.cpp,
      lib/fibers/FiberBgpPeer.cpp), and hard reset notifications.
    - [FiberBgpParser]: lib/fibers/FiberBgpParser.cpp, from reads of the socket to messages.
    - [GroupPdu]: lib/fibers/BgpSerializer.h and adjrib/AdjRibGroupSerializer.cpp, an update
      serialized once for a group of peers and patched in place for each.
    - [BgpPeer], [BgpPeerInv], [BgpPeerSpec]: lib/fibers/FiberBgpPeer.cpp, one session as
      steps of its tasks, its invariant, and what it promises.
    - [Threads], [WatermarkQueue], [BackPressuredQueue]: interleavings of calls on a shared
      object, and the two bounded queues of lib/coro/.
    - [ConsumerBitmap], [ConsumerBitManager]: changeTracker/ConsumerBitmap.h and
      ConsumerBitManager.cpp.
    - [ChangeTracker], [ChangeTrackerInv], [ChangeTrackerOps], [ChangeTrackerSpec]:
      changeTracker/ChangeTracker.h, ChangeItem.h and Consumer.h, the list of changes with
      the positions of its consumers; its invariant; that every operation keeps it; and the
      queue per consumer it implements.
    - [RouteFilter], [RouteSelector]: routelib/, the filter classes and the selector, against
      the class [RouteBase] of what a route must offer.
    - [RouteInfo]: common/RouteInfo.cpp and what it reads of common/BgpPath.h, an instance of
      [RouteBase].
    - [RibEntry]: rib/RibEntry.cpp, the paths of one prefix by peer and received path id,
      their links to next hops and the ids they are advertised with.
    - [Ucmp]: C++ float and double as [SpecFloat], and [BgpUcmpQuantizer]
      (config/ConfigStructs.cpp).
    - [PathSelection]: rib/RouteFilterConfig.h, RouteInfoSelector.cpp and the phases of
      [RibBase::selectBestPath].
    - [DeDuplicator]: lib/DeDuplicator.h, unique attribute containers behind handles.
    - [PathFields]: common/BgpPath.h with the attributes a route carries and the link
      bandwidth in its extended communities.
    - [PolicyEncoding], [PolicyAction], [PolicyMatch]: policy/PolicyUtils.cpp,
      PolicyAction.cpp and PolicyMatch.cpp, what policies match and do.
    - [PolicyEngine], [PolicyEngineSpec]: policy/base/, the evaluation of a policy on groups
      of prefixes, and what it means for one prefix.
    - [PolicyTerm]: policy/PolicyTerm.cpp, Policy.cpp and PolicyManager.cpp, policies from
      their configuration; [SwitchId]: its validation of switch ids.
    - [PolicyMask], [PolicyCache]: policy/PolicyAttributesMask.h and
      adjrib/AdjRibPolicyCache.cpp, the attributes a policy depends on and the cache keyed by
      them; [PolicyExamples]: a configuration on which these theorems are applied.
    - [AdjRibCommon]: adjrib/AdjRibCommon.cpp, AdjRibUtil.cpp and the import checks of
      AdjRibIn.cpp; [AdjRibLoop]: routes that cross several speakers.
    - [PackingList], [AdjRibOut]: the prefixes that wait for a peer, and adjrib/AdjRibOut.cpp
      with PathIdGenerator.cpp and the filters it calls; [AdjRibOutInv], [AdjRibOutSpec]: its
      invariant and what it implies; [AdjRibOutExamples]: a session on which they are applied.
    - [PathConversion]: lib/BgpUtil.cpp, attributes of a message to a path.
    - [AdjRibIn]: adjrib/AdjRibIn.cpp with the entries, prefix set and session ends of
      AdjRib.cpp and the golden prefix policy of rib/RibPolicy.cpp; [AdjRibInInv],
      [AdjRibInOps], [AdjRibInSpec]: its invariant, that every operation keeps it, and what
      it implies; [AdjRibInExamples]: a peer with a graceful restart on which it is applied.
    - [NexthopCache]: nexthopTracker/NexthopCache.cpp, the status of next hops shared by its
      writers and the RIB; [InterfaceEntry]: InterfaceEntry.cpp and InterfacePrefixTable.h;
      [NetlinkWrapper], [NetlinkSpec], [NetlinkExamples]: NetlinkWrapper.cpp, the events of
      links, addresses and neighbours, what they leave in the cache, and runs.
    - [MapSum]: sums over finite maps.  [RibNexthop]: NexthopInfo.h and the table of next
      hops of rib/RibBase.cpp; [RibCounters]: rib/RibCounters.h.
    - [Rib]: the intake of routes of rib/RibBase.cpp with local routes and aggregates;
      [RibSpec]: what one route changes; [RibPaths]: what sequences of messages leave.
    - [FibFboss]: rib/FibFboss.cpp and FibProgrammingHolddown.cpp, the batch, the calls to
      the forwarding agent and their failures.
    - [RibFib]: the rest of the RIB's loop: path selection of changed entries, the FIB batch,
      acknowledgements, the messages to the peers, pauses and the first computation.
      [RibFibSel], [RibFibInv], [RibFibPrepare], [RibFibStage], [RibFibAck]: its invariant
      and that routes in, selection, staging and acknowledgement keep it; [RibFibSpec]: runs
      of RIB, FIB and agent together; [RibExamples]: runs on which all this is applied.

    ** How the code is modelled

    Code that may throw returns a [result] (or, in the RIB, an [option] whose [None] is a
    failed [CHECK], an exception leaving a [noexcept] function, or an undefined
    conversion).  Integers are [Z] with the wrap-around of their width written out ([uint],
    [sint]); bytes are integers below 256.  A parser threads the bytes left of its cursor, a
    serializer the buffer it writes into.  Objects held by [shared_ptr] are pointers into a
    store ([Heap]), so that a path shared by the entry, the selection and the association
    list of its next hop is one object.  Hash maps are finite maps; where the order of
    iteration can be observed it is an argument of the definition.  Build: little-endian
    host, release mode ([DCHECK] does nothing).  Texts of exceptions, logging, statistics
    and what a callback does itself are left out.  [rawAttrLen] is exact for messages of at
    most 4096 bytes.

    Loops without structural recursion take fuel: the label loop of an NLRI as many rounds
    as its length field, the loops over a cursor one round per byte left (each round reads
    at least one), the loops of [serializeBgpUpdate2] one round per prefix (each message
    holds at least one), the loop of the quantizer one round per step below the largest
    bandwidth, the loop of the stream parser one round per byte buffered, the walks of the
    change tracker one round per item of its list, the sending loop of the Adj-RIB-Out one
    round per prefix that waits.  The theorems show that this is enough; [announce_without_room_diverges]
    exhibits the one case found in which a loop of the code does not end.

    ** What is shown

    - Codec: what is serialized reads back, for every message and for the attributes, NLRI
      and split updates the serializer accepts ([..._roundtrip], [nlri_pack_parse]); any
      input leads to exactly one callback ([parse_message_total]), with the exceptions the
      code has; recorded next hop offsets are right.
    - Session: the states published are those of the finite state machine
      ([session_states_follow_fsm]), the parameters are the agreed ones, the end of a
      session is reported once and with the right verdict on graceful restart; the cuts
      between reads do not matter for a stream of messages whose parsers stop where they
      end ([chunking_irrelevant]); both ends negotiate the same ([negotiation_agrees]); a
      group's update reaches every peer with its own next hop ([group_pdu_delivers]), as long
      as no peer has its turn while the socket of another holds the shared buffers
      ([pending_write_overwritten] shows the other case).
    - Queues: in every interleaving nothing is lost, duplicated or reordered, bounds hold,
      and no wake-up is lost: while producers sleep without a token, every place of the queue
      is taken or claimed by a producer that is awake ([sleeping_producer_means_full]).
    - Change tracker: the bitmap functions refine operations on sets, the interval allocator
      hands out the lowest free position; for callers that address only consumers that are
      ready or at an item and move markers back only to targets behind them ([allowed]), no
      operation touches a deleted item ([tracker_operations_safe]) and publishing refines one
      queue per consumer ([publish_enqueues]; [publication_to_reset_consumer_stuck] shows the
      other case); runs of consumers deliver these queues, and drained consumers report every
      object.
    - Selection: [selected_routes_are_best] and its companions characterize what a list of
      filters selects, what it marks and what it records; [select_best_path_correct]
      composes them with the RIB entry through all phases of [selectBestPath], and
      [best_path_deterministic] shows when the outcome does not depend on hash order.
    - RIB entry: [update_path_correct] and [send_path_id_fresh] keep the invariants
      [entry_ok] and [path_ids_ok].
    - Weights: [ucmp_weights_proportional], [quantizer_correct].
    - Attributes: equal handles mean equal containers ([handles_compare_contents]); values
      packed into the link bandwidth read back ([encode_decode_values], [lbw_set_get]).
    - Policies: the engine refines the meaning of a policy for one prefix
      ([applyPolicy_refines]), decides every prefix once ([applyPolicy_decides]) and jumps
      where the validated configuration says ([validated_goto]); a policy depends on the
      attributes of its mask only ([policy_masked]), so the cache cannot be observed by calls
      with action data as created and addresses of their own family ([cache_transparent]).
    - Towards a peer: what crosses an EBGP session ([ebgp_export_clean]), and that a route
      does not come back ([ebgp_loop_refused], [reflection_loop_refused]).
    - Adj-RIB-Out: however messages, timers and sending interleave, the peer has what was
      decided last of every prefix that does not wait, and a prefix that waits does so once
      and with the latest attributes ([adj_rib_out_reaches_peer], [adj_rib_out_well_formed]);
      only routes the RIB announced whose own peer, AS path and communities let them go to
      the peer are there ([advertised_routes_allowed]); sending ends with the peer up to date
      and the pending End-of-RIB markers behind the updates ([send_updates_drains]).  Path ids are distinct short of
      2^32 next hops for a prefix ([idsBounded]).
    - Adj-RIB-In: whatever sessions, messages, timers, policy changes and steps of other
      peers come, the RIB has exactly the accepted routes ([adj_rib_in_reaches_rib]); an
      UPDATE leaves the received routes RFC 4271 asks for ([update_applied]); stale routes
      go ([stale_routes_go]); counters and the route limit hold
      ([received_routes_counted]).  This is shown for the graceful restart with a tree of
      stale routes ([optimized_restart_keeps_stale] shows what the other one does).  A timer
      that expires only schedules the withdrawal of stale routes; the runs push it at any
      later step, and the theorems say of which routes the RIB has lost hold because it came
      after they were accepted again ([late_stale_withdrawal_loses_route]).
    - Next hops: the cache follows the interfaces for every registered next hop whose
      evaluation has run and that was not registered on an old status of the cache
      ([nexthop_follows_interface]; [reregistered_nexthop_is_stale] shows the other case),
      and the RIB follows the cache, however updates and registrations interleave
      ([nexthop_infos_follow_cache]).
    - RIB: it holds what the peers announced last ([rib_paths_follow_messages]); aggregates
      are there when enough routes support them ([aggregates_follow_support]); whatever
      happens in between, the agent has the routes the RIB wants ([fib_mirrors_rib],
      [fib_catches_up]) and the peers were told the best paths the FIB has
      ([peers_follow_best_paths]), for the base class of the RIB and for prefixes that do
      not wait for the FIB.  A batch may be handed over while acknowledgements of earlier ones
      are unread, as in the code; the theorems ask of the run that no prefix is handed over
      again while an unread acknowledgement names it ([apart]), and
      [overlapping_batches_leave_route] shows what happens otherwise.
    - Where the code does not do what it means to, a theorem exhibits it:
      [labeled_default_route_misread], [short_route_refresh_escapes],
      [oversized_attrs_out_of_range], [empty_segment_accepted_not_serializable],
      [path_id_wraps], [best_path_depends_on_order], [ucmp_weight_overflow],
      [prepend_after_long_overwrite], [exact_match_ignores_regex], [lbw_top_bit_lost],
      [shared_data_refuses_next], [four_byte_asns_removed], [out_delay_keeps_one_path],
      [cached_next_hop_is_checked], [erased_entry_stays_counted],
      [add_path_not_announced_again], [reregistered_nexthop_is_stale] and others beside them.

    ** Not modelled

    Sockets, the thrift service, FSDB, statistics and the watchdog are input, output or
    monitoring.  Of a session the bounded egress queues of its back-pressure mode and wall
    clock stamps are left out; of the change tracker the coroutine no component calls.
    Of policies the hit counters, logs and the file reader, and of the matches those only RIB
    policies use.  Of the Adj-RIB-Out safe mode, packing timers and update groups; of the
    Adj-RIB-In the shutdown of the daemon and the queries of the service.
    Of the RIB the queries of the service, conditional local routes, the payload kept of
    programmed routes and the walks of hash maps in any order but one; of next hop tracking
    the FSDB watchers and the client of the OpenR agent.
    Not modelled at all: the policy-driven selection of data centers (rib/RibDC.cpp,
    rib/RibPolicy.cpp), the registry of sessions (lib/fibers/FiberBgpPeerManager.cpp), update
    groups (adjrib/AdjRibGroup.cpp) and the peer manager (peer/). *)

From stdpp Require Export base list numbers option strings.
From Stdlib Require Export ZArith Lia.

#[global] Open Scope Z_scope.

(** ** Automation

    [bgp] collects the facts about lengths, byte ranges and cursor reads that
    every component uses; [bgp_len] is the matching rewrite base. *)
Create HintDb bgp discriminated.
#[export] Hint Constants Transparent : bgp.

(** ** Results

    C++ code that may throw returns a [result]: a value, an exception, or
    [NoFuel] when a loop of the model ran out of its iteration budget.  A
    [NoFuel] is never caught: the termination theorems show where it cannot
    occur. *)
Inductive result (E A : Type) : Type :=
| Ok (a : A)
| Throw (e : E)
| NoFuel.
Arguments Ok {E A} a.
Arguments Throw {E A} e.
Arguments NoFuel {E A}.

Definition rbind {E A B} (r : result E A) (k : A -> result E B) : result E B :=
  match r with
  | Ok a => k a
  | Throw e => Throw e
  | NoFuel => NoFuel
  end.
Arguments rbind {E A B} !r k /.

(** A [try { ... } catch] block: [h] maps the exceptions it handles. *)
Definition rcatch {E A} (r : result E A) (h : E -> result E A) : result E A :=
  match r with
  | Throw e => h e
  | r => r
  end.
Arguments rcatch {E A} !r h /.

Declare Scope bgp_scope.
Delimit Scope bgp_scope with bgp.
Notation "'let*' x ':=' c 'in' k" := (rbind c (fun x => k))
  (at level 10, x name, c at level 100, k at level 200) : bgp_scope.
Notation "'let*' ' p ':=' c 'in' k" := (rbind c (fun p => k))
  (at level 10, p strict pattern, c at level 100, k at level 200)
  : bgp_scope.
#[global] Open Scope bgp_scope.

Section Results.
Context {E : Type}.

Lemma rbind_Ok_inv {A B} (r : result E A) (k : A -> result E B) b :
  rbind r k = Ok b -> exists a, r = Ok a /\ k a = Ok b.
Proof. destruct r; simpl; [eauto|done|done]. Qed.

Lemma rbind_Throw_inv {A B} (r : result E A) (k : A -> result E B) e :
  rbind r k = Throw e -> r = Throw e \/ exists a, r = Ok a /\ k a = Throw e.
Proof. destruct r; simpl; [eauto|naive_solver|done]. Qed.

Lemma rbind_not_NoFuel {A B} (r : result E A) (k : A -> result E B) :
  r <> NoFuel -> (forall a, r = Ok a -> k a <> NoFuel) -> rbind r k <> NoFuel.
Proof. destruct r; simpl; eauto. Qed.

(** [no_throw P r]: the result is not an exception satisfying [P]. *)
Definition no_throw {A} (P : E -> Prop) (r : result E A) : Prop :=
  forall e, r = Throw e -> ~ P e.

Lemma rbind_no_throw {A B} P (r : result E A) (k : A -> result E B) :
  no_throw P r -> (forall a, r = Ok a -> no_throw P (k a)) -> no_throw P (rbind r k).
Proof. unfold no_throw. destruct r; simpl; naive_solver. Qed.

(** [throws_in P r]: an exception, if any, satisfies [P]. *)
Definition throws_in {A} (P : E -> Prop) (r : result E A) : Prop :=
  forall e, r = Throw e -> P e.

Lemma throws_in_bind {A B} P (r : result E A) (k : A -> result E B) :
  throws_in P r -> (forall a, r = Ok a -> throws_in P (k a)) -> throws_in P (rbind r k).
Proof. unfold throws_in. destruct r; simpl; naive_solver. Qed.

Lemma throws_in_Ok {A} P (a : A) : throws_in P (Ok a : result E A).
Proof. by intros ? [=]. Qed.

Lemma throws_in_Throw {A} (P : E -> Prop) e : P e -> throws_in P (Throw e : result E A).
Proof. by intros ? ? [= <-]. Qed.

Lemma throws_in_weaken {A} (P Q : E -> Prop) (r : result E A) :
  (forall e, P e -> Q e) -> throws_in P r -> throws_in Q r.
Proof. unfold throws_in. eauto. Qed.
End Results.

(** [inv_ok H] splits a successful chain of binds into its steps. *)
Ltac inv_ok H :=
  lazymatch type of H with
  | rbind _ _ = Ok _ =>
      let a := fresh "v" in let H1 := fresh "Hstep" in
      apply rbind_Ok_inv in H as (a & H1 & H); try inv_ok H1; try inv_ok H
  | _ => idtac
  end.

(** Comparisons in the hypotheses as propositions. *)
Ltac zbool :=
  repeat match goal with
  | H : (_ <=? _) = true |- _ => apply Z.leb_le in H
  | H : (_ <=? _) = false |- _ => apply Z.leb_gt in H
  | H : (_ <? _) = true |- _ => apply Z.ltb_lt in H
  | H : (_ <? _) = false |- _ => apply Z.ltb_ge in H
  | H : (_ =? _) = true |- _ => apply Z.eqb_eq in H
  | H : (_ =? _) = false |- _ => apply Z.eqb_neq in H
  end.

(** ** Machine integers *)

(** Unsigned truncation to [w] bits, and the two's complement reading that
    [static_cast] to a signed type of [w] bits performs. *)
Definition uint (w : Z) (v : Z) : Z := v mod 2 ^ w.
Definition sint (w : Z) (v : Z) : Z :=
  let u := uint w v in if u <? 2 ^ (w - 1) then u else u - 2 ^ w.

Lemma uint_range w v : 0 <= w -> 0 <= uint w v < 2 ^ w.
Proof. intros. apply Z.mod_pos_bound. lia. Qed.

Lemma uint_id w v : 0 <= v < 2 ^ w -> uint w v = v.
Proof. apply Z.mod_small. Qed.

Lemma uint_sint w v : 0 < w -> uint w (sint w v) = uint w v.
Proof.
  intros Hw. unfold sint. set (u := uint w v).
  assert (0 <= u < 2 ^ w) by (apply uint_range; lia).
  case_match; [by apply uint_id|].
  unfold uint. rewrite <- (Z.mod_add _ 1) by lia. rewrite Z.mod_small; lia.
Qed.

Lemma sint_uint w v : 0 < w -> - 2 ^ (w - 1) <= v < 2 ^ (w - 1) -> sint w (uint w v) = v.
Proof.
  intros Hw Hv. assert (2 ^ w = 2 * 2 ^ (w - 1)) as Hp.
  { rewrite <- Z.pow_succ_r by lia. f_equal; lia. }
  unfold sint. rewrite (uint_id w (uint w v)) by (apply uint_range; lia).
  unfold uint. destruct (decide (0 <= v)).
  - rewrite Z.mod_small by lia. case_match; lia.
  - rewrite <- (Z.mod_add _ 1) by lia. rewrite Z.mod_small by lia. case_match; lia.
Qed.

(** ** Bytes and big-endian fields *)

Abbreviation bytes := (list Z).
Abbreviation blen bs := (Z.of_nat (length bs)).

Definition is_byte (b : Z) : Prop := 0 <= b < 256.
Definition wf_bytes (bs : bytes) : Prop := Forall is_byte bs.

Fixpoint be_encode (n : nat) (v : Z) : bytes :=
  match n with
  | O => []
  | S n' => (v / 256 ^ Z.of_nat n') mod 256 :: be_encode n' v
  end.

Definition be_decode (bs : bytes) : Z := fold_left (fun acc b => acc * 256 + b) bs 0.

(** Host-order (little-endian) access, [read<uint32_t>] / [write<uint32_t>]. *)
Definition le_encode (n : nat) (v : Z) : bytes := rev (be_encode n v).
Definition le_decode (bs : bytes) : Z := be_decode (rev bs).

Lemma length_be_encode n v : length (be_encode n v) = n.
Proof. induction n; simpl; congruence. Qed.

Lemma length_le_encode n v : length (le_encode n v) = n.
Proof. unfold le_encode. by rewrite length_rev, length_be_encode. Qed.

Lemma wf_be_encode n v : wf_bytes (be_encode n v).
Proof. induction n; constructor; [apply Z.mod_pos_bound; lia|done]. Qed.

Lemma be_decode_acc bs a :
  fold_left (fun acc b => acc * 256 + b) bs a = a * 256 ^ Z.of_nat (length bs) + be_decode bs.
Proof.
  unfold be_decode. revert a. induction bs as [|b bs IH]; intros a; simpl; [lia|].
  rewrite IH, (IH (0 * 256 + b)).
  replace (Z.of_nat (S (length bs))) with (Z.succ (Z.of_nat (length bs))) by lia.
  rewrite Z.pow_succ_r by lia. lia.
Qed.

Lemma be_decode_nil : be_decode [] = 0.
Proof. done. Qed.

Lemma be_decode_cons b bs :
  be_decode (b :: bs) = b * 256 ^ Z.of_nat (length bs) + be_decode bs.
Proof. unfold be_decode at 1. simpl. by rewrite be_decode_acc. Qed.

Lemma be_decode_encode n v : be_decode (be_encode n v) = v mod 256 ^ Z.of_nat n.
Proof.
  induction n as [|n IH]; [by rewrite Z.mod_1_r|].
  cbn [be_encode]. rewrite be_decode_cons, IH, length_be_encode.
  replace (Z.of_nat (S n)) with (Z.succ (Z.of_nat n)) by lia.
  rewrite Z.pow_succ_r, (Z.mul_comm 256), Z.rem_mul_r by lia. lia.
Qed.

Lemma be_decode_range bs : wf_bytes bs -> 0 <= be_decode bs < 256 ^ Z.of_nat (length bs).
Proof.
  induction 1 as [|b bs Hb _ IH]; [done|].
  rewrite be_decode_cons. simpl length. rewrite Nat2Z.inj_succ, Z.pow_succ_r by lia.
  unfold is_byte in Hb. nia.
Qed.

Lemma be_encode_mod n m v : (n <= m)%nat -> be_encode n (v mod 256 ^ Z.of_nat m) = be_encode n v.
Proof.
  intros Hm. induction n as [|n IH]; [done|]. cbn [be_encode]. rewrite IH by lia. f_equal.
  replace (Z.of_nat m) with (Z.of_nat n + Z.of_nat (m - n)) by lia.
  rewrite Z.pow_add_r, Z.rem_mul_r by lia.
  rewrite Z.mul_comm, Z.div_add, Z.div_small by (try apply Z.mod_pos_bound; lia).
  destruct (m - n)%nat as [|k] eqn:E; [lia|].
  rewrite Nat2Z.inj_succ, Z.pow_succ_r, Z.rem_mul_r by lia.
  rewrite Z.add_0_l, Z.mul_comm, Z.mod_add, Z.mod_mod by lia. done.
Qed.

Lemma be_encode_decode bs : wf_bytes bs -> be_encode (length bs) (be_decode bs) = bs.
Proof.
  induction 1 as [|b bs Hb Hwf IH]; [done|].
  pose proof (be_decode_range bs Hwf) as Hr. unfold is_byte in Hb.
  cbn [length be_encode]. rewrite be_decode_cons. f_equal.
  - rewrite Z.add_comm, Z.div_add, Z.div_small by lia. rewrite Z.add_0_l. apply Z.mod_small. lia.
  - rewrite <- (be_encode_mod _ (length bs)) by lia.
    rewrite Z.add_comm, Z.mod_add, Z.mod_small by lia. done.
Qed.

Lemma le_decode_encode n v : le_decode (le_encode n v) = v mod 256 ^ Z.of_nat n.
Proof. unfold le_decode, le_encode. rewrite rev_involutive. apply be_decode_encode. Qed.

(** ** Loops over a cursor

    [while (cursor.length()) { body }] with the loop-carried state [s].  The
    fuel is the number of readable bytes, which is enough for every body that
    consumes at least one byte per iteration ([while_readable_step]). *)
Section While.
Context {E St : Type}.
Variable body : bytes -> St -> result E (bytes * St).

Fixpoint while_fuel (fuel : nat) (cur : bytes) (s : St) : result E St :=
  match cur with
  | [] => Ok s
  | _ :: _ =>
      match fuel with
      | O => NoFuel
      | S fuel => let* '(cur', s') := body cur s in while_fuel fuel cur' s'
      end
  end.

Definition while_readable (cur : bytes) (s : St) : result E St :=
  while_fuel (length cur) cur s.

(** The body consumes input whenever it completes normally. *)
Definition consumes : Prop :=
  forall cur s cur' s', cur <> [] -> body cur s = Ok (cur', s') ->
    (length cur' < length cur)%nat.

Lemma while_readable_nil s : while_readable [] s = Ok s.
Proof. done. Qed.

Hypothesis Hcons : consumes.

Lemma while_fuel_enough n m cur s :
  (length cur <= n)%nat -> (length cur <= m)%nat ->
  while_fuel n cur s = while_fuel m cur s.
Proof.
  revert m cur s. induction n as [|n IH]; intros m [|b cur] s Hn Hm;
    [by destruct m|simpl in *; lia|by destruct m|].
  destruct m as [|m]; [simpl in *; lia|]. cbn [while_fuel].
  destruct (body (b :: cur) s) as [[cur' s']|e|] eqn:Hb; [|done|done].
  apply Hcons in Hb; [|done]. simpl in *. apply IH; lia.
Qed.

Lemma while_readable_step cur s : cur <> [] ->
  while_readable cur s = let* '(cur', s') := body cur s in while_readable cur' s'.
Proof.
  intros Hne. destruct cur as [|b cur]; [done|].
  unfold while_readable at 1. cbn [length while_fuel].
  destruct (body (b :: cur) s) as [[cur' s']|e|] eqn:Hb; [|done|done]. cbn [rbind].
  apply Hcons in Hb; [|done]. apply while_fuel_enough; simpl in *; lia.
Qed.

(** Loops whose body never runs out of fuel terminate. *)
Lemma while_readable_total cur s :
  (forall cur s, body cur s <> NoFuel) -> while_readable cur s <> NoFuel.
Proof.
  intros Hb. unfold while_readable.
  assert (Hlen : (length cur <= length cur)%nat) by lia. revert Hlen.
  generalize (length cur) at 2 3 as n. intros n. revert cur s.
  induction n as [|n IH]; intros [|b cur] s Hn; simpl in *; [done|lia|done|].
  apply rbind_not_NoFuel; [apply Hb|]. intros [cur' s'] Hok.
  apply IH. apply Hcons in Hok; [|done]. simpl in *. lia.
Qed.

(** An exception out of the loop is an exception out of some iteration. *)
Lemma while_readable_no_throw P cur s :
  (forall cur s, cur <> [] -> no_throw P (body cur s)) ->
  no_throw P (while_readable cur s).
Proof.
  intros Hb. unfold while_readable. generalize (length cur) as n. intros n.
  revert cur s. induction n as [|n IH]; intros [|b cur] s; simpl; try by intros ? ?.
  apply rbind_no_throw; [by apply Hb|]. intros [cur' s'] _. apply IH.
Qed.

Lemma while_readable_throws_in P cur s :
  (forall cur s, cur <> [] -> throws_in P (body cur s)) ->
  throws_in P (while_readable cur s).
Proof.
  intros Hb. unfold while_readable. generalize (length cur) as n. intros n.
  revert cur s. induction n as [|n IH]; intros [|b cur] s; simpl; try by intros ? ?.
  apply throws_in_bind; [by apply Hb|]. intros [cur' s'] _. apply IH.
Qed.
End While.
Arguments consumes {E St} body.

(** Reading back a concatenation of encoded items, one item per iteration. *)
Lemma while_readable_items {E St X} (body : bytes -> St -> result E (bytes * St))
    (enc : X -> bytes) (f : St -> X -> St) (ok : X -> Prop) :
  consumes body ->
  (forall x, ok x -> enc x <> []) ->
  (forall x rest s, ok x -> body (enc x ++ rest) s = Ok (rest, f s x)) ->
  forall xs s, Forall ok xs ->
    while_readable body (concat (map enc xs)) s = Ok (fold_left f xs s).
Proof.
  intros Hcons Hne Hbody xs. induction xs as [|x xs IH]; intros s Hok; [done|].
  apply Forall_cons in Hok as [Hx Hxs]. cbn [map concat fold_left].
  rewrite while_readable_step; [|done|].
  - rewrite Hbody by done. simpl. by apply IH.
  - intros Hnil. apply app_eq_nil in Hnil as [Hnil _]. by apply (Hne x).
Qed.

#[global] Opaque be_encode le_encode be_decode le_decode.
#[global] Arguments Z.mul : simpl never.
#[global] Arguments Z.pow : simpl never.
#[global] Arguments Z.modulo : simpl never.

Create Rewrite HintDb bgp_len.
#[export] Hint Rewrite @length_app @length_cons @length_nil length_be_encode length_le_encode
  @length_take @length_drop @length_replicate @length_map : bgp_len.

(** Arithmetic on lengths of concatenated fields. *)
Ltac len := autorewrite with bgp_len in *; lia.

Lemma be_decode_1 b : be_decode [b] = b.
Proof. done. Qed.

(** ** Lists *)

Definition nonempty {X} (l : list X) : bool := match l with [] => false | _ => true end.

Definition apply_if {X} (b : bool) (f : X -> X) (x : X) : X := if b then f x else x.

Lemma blen_concat_map {X} (enc : X -> bytes) n xs :
  (forall x, length (enc x) = n) -> blen (concat (map enc xs)) = Z.of_nat n * Z.of_nat (length xs).
Proof.
  intros Hn. induction xs as [|x xs IH]; cbn [map concat length]; [simpl; lia|].
  rewrite length_app, Hn. lia.
Qed.

Lemma fold_left_snoc {X} (xs acc : list X) : fold_left (fun a x => a ++ [x]) xs acc = acc ++ xs.
Proof.
  revert acc. induction xs as [|x xs IH]; intros acc; simpl; [by rewrite app_nil_r|].
  by rewrite IH, <- app_assoc.
Qed.

Lemma list_filter_all {X} (P : X -> Prop) `{forall x, Decision (P x)} l :
  Forall P l -> filter P l = l.
Proof.
  induction 1 as [|x l Hx _ IH]; [done|]. rewrite filter_cons_True by done. by rewrite IH.
Qed.

Lemma list_filter_none {X} (P : X -> Prop) `{forall x, Decision (P x)} l :
  Forall (fun x => ~ P x) l -> filter P l = [].
Proof.
  induction 1 as [|x l Hx _ IH]; [done|]. rewrite filter_cons_False by done. by rewrite IH.
Qed.

(** A field below a shifted one is added by [lor]. *)
Lemma lor_shiftl_add k a n :
  0 <= n -> 0 <= a < 2 ^ n -> Z.lor (Z.shiftl k n) a = k * 2 ^ n + a.
Proof.
  intros Hn Ha. rewrite <- Z.shiftl_mul_pow2 by done.
  assert (Hz : Z.land (Z.shiftl k n) a = 0).
  { apply Z.bits_inj'. intros i Hi. rewrite Z.land_spec, Z.bits_0.
    destruct (Z.lt_ge_cases i n) as [Hlt|Hge]; [by rewrite Z.shiftl_spec_low|].
    rewrite <- (Z.mod_small a (2 ^ n)) by done. rewrite Z.mod_pow2_bits_high by lia.
    apply andb_false_r. }
  rewrite <- Z.lxor_lor by done. symmetry. by apply Z.add_nocarry_lxor.
Qed.

Lemma bool_filter_id {X} (f : X -> bool) l :
  (forall x, List.In x l -> f x = true) -> List.filter f l = l.
Proof.
  induction l as [|x l IH]; intros Hf; simpl; [done|]. rewrite Hf by (by left).
  f_equal. apply IH. intros y Hy. apply Hf. by right.
Qed.

#[export] Instance bool_filter_perm {X} (f : X -> bool) : Proper ((≡ₚ) ==> (≡ₚ)) (List.filter f).
Proof.
  intros l l' Hl. induction Hl as [|x l l' Hl IH|x y l|l1 l2 l3 H1 IH1 H2 IH2]; simpl.
  - done.
  - destruct (f x); [by constructor|done].
  - destruct (f x), (f y); try done. apply Permutation_swap.
  - by etransitivity.
Qed.
