(* ===== verification/BgpException.v ===== *)
(** * Exceptions (lib/BgpException.h)

    The exception classes of the BGP library with the error subcodes they
    carry, and the exceptions of the language and of folly that the library
    lets through.  The human-readable message of an exception is not modelled;
    its subcode and its data bytes, which go into the NOTIFICATION that answers
    it, are. *)

From S2P Require Import Prelude.

(** BgpNotifErrCode *)
Inductive BgpNotifErrCode :=
| BN_MSG_HDR_ERR | BN_OPEN_MSG_ERR | BN_UPDATE_MSG_ERR | BN_HOLD_TIMER_EXPIRED
| BN_FSM_ERROR | BN_CEASE | BN_ROUTE_REFRESH_MSG_ERR.

Inductive BgpNotifMsgHdrErrSubCode :=
| BN_MH_CONNECTION_NOT_SYNCHRONIZED | BN_MH_BAD_MSG_LEN | BN_MH_BAD_MSG_TYPE.

Inductive BgpNotifOpenMsgErrSubCode :=
| BN_OM_UNSPECIFIC | BN_OM_UNSUPPORTED_VERSION_NUMBER | BN_OM_BAD_PEER_AS
| BN_OM_BAG_BGP_IDENTIFIER | BN_OM_UNSUPPORTED_OPTIONAL_PARAM
| BN_OM_AUTHENTICATION_FAILURE_DEPRECATED | BN_OM_UNACCEPTABLE_HOLD_TIME
| BN_OM_UNSUPPORTED_CAPABILITY.

Inductive BgpNotifUpdateMsgErrSubCode :=
| BN_UM_UNSPECIFIC | BN_UM_MALFORMED_ATTRIBUTE_LIST
| BN_UM_UNRECOGNIZED_WELL_KNOWN_ATTR | BN_UM_MISSING_WELL_KNOWN_ATTR
| BN_UM_ATTR_FLAGS_ERR | BN_UM_ATTR_LEN_ERR | BN_UM_INVALID_ORIGIN_ATTR
| BN_UM_DEPRECATED | BN_UM_INVALID_NEXT_HOP_ATTR | BN_UM_OPTIONAL_ATTR_ERROR
| BN_UM_INVALID_NETWORK_FIELD | BN_UM_MALFORMED_AS_PATH.

Inductive BgpNotificationRouteRefreshErrSubCode := BN_INVALID_MSG_LEN.

Inductive BgpSerializerExceptionCode :=
| AFI_MISMATCH | EXCEEDED_MAX_SIZE | MISSING_NLRI_INFO | UNKNOWN_BGP_UPDATE_TYPE
| INVALID_ASPATH_INFO | INVALID_NLRI_LABEL_INFO | PATHID_PATH_NOT_MATCH
| VERSION_ERROR | EXT_NH_ENCODING_NOT_SUPPORTTED.

(** The classes derive from [std::exception] independently of each other, so a
    [catch] of one of them never sees another. *)
Inductive Exn :=
| BgpException
| BgpHeaderException (subcode : BgpNotifMsgHdrErrSubCode) (data : bytes)
| BgpOpenMsgException (subcode : BgpNotifOpenMsgErrSubCode) (data : bytes)
| BgpUpdateMsgException (subcode : BgpNotifUpdateMsgErrSubCode) (data : bytes)
| BgpRouteRefreshMsgException (subcode : BgpNotificationRouteRefreshErrSubCode) (data : bytes)
| BgpFsmException
| BgpSerializerException (code : BgpSerializerExceptionCode)
(** [std::out_of_range], thrown by folly's cursors past the end of a buffer *)
| OutOfRange
(** [folly::IPAddressFormatException] *)
| IPAddressFormatException
(** [folly::InvalidAddressFamilyException] *)
| InvalidAddressFamilyException.

Abbreviation res := (result Exn).

#[export] Instance Exn_eq_dec : EqDecision Exn.
Proof. intros x y. unfold Decision. repeat decide equality. Defined.

(** [getCode()] of the exceptions that have one. *)
Definition getCode (e : Exn) : option BgpNotifErrCode :=
  match e with
  | BgpHeaderException _ _ => Some BN_MSG_HDR_ERR
  | BgpOpenMsgException _ _ => Some BN_OPEN_MSG_ERR
  | BgpUpdateMsgException _ _ => Some BN_UPDATE_MSG_ERR
  | BgpRouteRefreshMsgException _ _ => Some BN_ROUTE_REFRESH_MSG_ERR
  | _ => None
  end.

(** [catch (std::out_of_range const&) { throw e'; }] *)
Definition catch_out_of_range {A} (r : res A) (e' : Exn) : res A :=
  rcatch r (fun e => match e with OutOfRange => Throw e' | e => Throw e end).

Definition is_out_of_range (e : Exn) : Prop := e = OutOfRange.

Lemma catch_out_of_range_no_throw {A} (r : res A) e' :
  e' <> OutOfRange -> no_throw is_out_of_range (catch_out_of_range r e').
Proof.
  intros He' e Heq ->. destruct r as [|[]|]; simplify_eq/=.
Qed.

Lemma catch_out_of_range_not_NoFuel {A} (r : res A) e' :
  r <> NoFuel -> catch_out_of_range r e' <> NoFuel.
Proof. destruct r as [|[]|]; done. Qed.

Lemma catch_out_of_range_Ok {A} (r : res A) e' a :
  catch_out_of_range r e' = Ok a <-> r = Ok a.
Proof. destruct r as [|[]|]; naive_solver. Qed.

(** The exceptions an UPDATE parser may end with, before and after the
    [catch] that turns a read past the end into one of them. *)
Definition is_update_exn (e : Exn) : Prop := exists sc d, e = BgpUpdateMsgException sc d.
Definition update_or_oor (e : Exn) : Prop := e = OutOfRange \/ is_update_exn e.

Lemma is_update_exn_intro sc d : is_update_exn (BgpUpdateMsgException sc d).
Proof. by eexists _, _. Qed.
Lemma update_or_oor_update sc d : update_or_oor (BgpUpdateMsgException sc d).
Proof. right. apply is_update_exn_intro. Qed.
Lemma update_or_oor_oor : update_or_oor OutOfRange.
Proof. by left. Qed.
#[export] Hint Resolve is_update_exn_intro update_or_oor_update update_or_oor_oor : bgp.

Lemma catch_out_of_range_throws_in {A} (r : res A) sc d :
  throws_in update_or_oor r ->
  throws_in is_update_exn (catch_out_of_range r (BgpUpdateMsgException sc d)).
Proof.
  intros H e. specialize (H e). destruct r as [|[]|]; simpl; intros He; simplify_eq;
    auto with bgp; destruct (H eq_refl) as [|]; by simplify_eq.
Qed.

(** The classes [parseBgpMessage] has a [catch] clause for. *)
Definition caught_by_dispatch (e : Exn) : Prop :=
  match e with
  | BgpException | BgpHeaderException _ _ | BgpOpenMsgException _ _ | BgpUpdateMsgException _ _
  | BgpRouteRefreshMsgException _ _ | BgpFsmException => True
  | _ => False
  end.
Definition caught_or_oor (e : Exn) : Prop := e = OutOfRange \/ caught_by_dispatch e.

Lemma caught_or_oor_oor : caught_or_oor OutOfRange.
Proof. by left. Qed.
Lemma caught_or_oor_open sc d : caught_or_oor (BgpOpenMsgException sc d).
Proof. by right. Qed.
Lemma caught_or_oor_update sc d : caught_or_oor (BgpUpdateMsgException sc d).
Proof. by right. Qed.
Lemma caught_or_oor_header sc d : caught_or_oor (BgpHeaderException sc d).
Proof. by right. Qed.
#[export] Hint Resolve caught_or_oor_oor caught_or_oor_open caught_or_oor_update
  caught_or_oor_header : bgp.

Lemma catch_out_of_range_caught {A} (r : res A) e' :
  caught_by_dispatch e' -> throws_in caught_or_oor r ->
  throws_in caught_or_oor (catch_out_of_range r e').
Proof.
  intros He H e. specialize (H e). destruct r as [|[]|]; simpl; intros; simplify_eq; auto;
    by right.
Qed.
