(* ===== verification/Folly.v ===== *)
(** * The folly interface

    The message code reads through [folly::io::Cursor], writes through
    [folly::io::RWPrivateCursor] and handles addresses with
    [folly::IPAddress].  folly is a library outside the repository: its
    operations are the fields of [FollyOps], arguments of every definition that
    uses them, and what the code relies on of their documented behaviour is
    [FollyLaws].  [folly_model] is a concrete instance of both. *)

From Stdlib Require Import Ascii.
From S2P Require Import Prelude BgpException.

(** A [folly::IPAddress] value: unset, or a family with its bytes in network
    order. *)
Inductive IPAddress :=
| IPUnset
| IPV4 (octets : bytes)
| IPV6 (octets : bytes).

#[export] Instance IPAddress_eq_dec : EqDecision IPAddress.
Proof. solve_decision. Defined.

Definition isV4 (a : IPAddress) : bool := match a with IPV4 _ => true | _ => false end.
Definition isV6 (a : IPAddress) : bool := match a with IPV6 _ => true | _ => false end.
Definition ip_bytes (a : IPAddress) : bytes :=
  match a with IPUnset => [] | IPV4 o => o | IPV6 o => o end.

Definition wf_ip (a : IPAddress) : Prop :=
  match a with
  | IPUnset => True
  | IPV4 o => length o = 4%nat /\ wf_bytes o
  | IPV6 o => length o = 16%nat /\ wf_bytes o
  end.

(** Bit [i] of an address, counted from the most significant bit. *)
Definition octets_bit (o : bytes) (i : nat) : bool :=
  Z.testbit (nth (i / 8) o 0) (7 - Z.of_nat (i mod 8)).

(** A cursor over a contiguous buffer is the bytes it has left to read; a
    write cursor over a buffer of [cap] bytes is the bytes before it. *)
Class FollyOps := {
  (** [Cursor::pull], [Cursor::read<T>], [Cursor::readFixedString] *)
  cursor_pull : bytes -> nat -> res (bytes * bytes);
  (** [Cursor::skip] *)
  cursor_skip : bytes -> nat -> res bytes;
  (** [Cursor(cursor, n)]: the same position, bounded to [n] bytes *)
  cursor_bound : bytes -> nat -> res bytes;
  (** [IOBuf::wrapBuffer(cursor.data(), n)], unchecked *)
  wrap_buffer : bytes -> nat -> bytes;
  (** [RWPrivateCursor::push], [RWPrivateCursor::write<T>] *)
  rw_push : Z -> bytes -> bytes -> res bytes;
  (** [RWPrivateCursor::skip]: leaves the skipped bytes as they are *)
  rw_skip : Z -> bytes -> nat -> res bytes;
  (** writing through a cursor saved at position [off] *)
  rw_write_at : bytes -> nat -> bytes -> res bytes;
  (** [IPAddress::fromBinary] *)
  ip_fromBinary : bytes -> res IPAddress;
  (** [IPAddress::mask] *)
  ip_mask : IPAddress -> Z -> IPAddress;
  (** [IPAddress::str] and the constructor from a string *)
  ip_str : IPAddress -> string;
  ip_of_str : string -> res IPAddress
}.

Class FollyLaws (F : FollyOps) : Prop := {
  cursor_pull_ok bs n : (n <= length bs)%nat ->
    cursor_pull bs n = Ok (take n bs, drop n bs);
  cursor_pull_short bs n : (length bs < n)%nat -> cursor_pull bs n = Throw OutOfRange;
  cursor_skip_ok bs n : (n <= length bs)%nat -> cursor_skip bs n = Ok (drop n bs);
  cursor_skip_short bs n : (length bs < n)%nat -> cursor_skip bs n = Throw OutOfRange;
  cursor_bound_ok bs n : (n <= length bs)%nat -> cursor_bound bs n = Ok (take n bs);
  wrap_buffer_ok bs n : (n <= length bs)%nat -> wrap_buffer bs n = take n bs;
  rw_push_ok cap w bs : blen w + blen bs <= cap -> rw_push cap w bs = Ok (w ++ bs);
  rw_push_full cap w bs : cap < blen w + blen bs -> rw_push cap w bs = Throw OutOfRange;
  rw_skip_ok cap w n : blen w + Z.of_nat n <= cap ->
    exists hole, length hole = n /\ rw_skip cap w n = Ok (w ++ hole);
  rw_skip_full cap w n : cap < blen w + Z.of_nat n -> rw_skip cap w n = Throw OutOfRange;
  rw_write_at_ok w off bs : (off + length bs <= length w)%nat ->
    rw_write_at w off bs = Ok (take off w ++ bs ++ drop (off + length bs) w);
  ip_fromBinary_v4 o : length o = 4%nat -> ip_fromBinary o = Ok (IPV4 o);
  ip_fromBinary_v6 o : length o = 16%nat -> ip_fromBinary o = Ok (IPV6 o);
  ip_fromBinary_other o : length o <> 4%nat -> length o <> 16%nat ->
    ip_fromBinary o = Throw IPAddressFormatException;
  (** masking keeps the leading [n] bits and clears the rest *)
  ip_mask_v4 o n : length o = 4%nat -> wf_bytes o -> 0 <= n <= 32 ->
    exists o', ip_mask (IPV4 o) n = IPV4 o' /\ length o' = 4%nat /\ wf_bytes o' /\
      forall i, (i < 32)%nat -> octets_bit o' i = (Z.of_nat i <? n) && octets_bit o i;
  ip_mask_v6 o n : length o = 16%nat -> wf_bytes o -> 0 <= n <= 128 ->
    exists o', ip_mask (IPV6 o) n = IPV6 o' /\ length o' = 16%nat /\ wf_bytes o' /\
      forall i, (i < 128)%nat -> octets_bit o' i = (Z.of_nat i <? n) && octets_bit o i;
  (** the textual form of an address reads back as the address *)
  ip_of_str_str a : wf_ip a -> a <> IPUnset -> ip_of_str (ip_str a) = Ok a;
  ip_str_nonempty a : wf_ip a -> a <> IPUnset -> ip_str a <> EmptyString
}.

(** [IPAddress::fromLongHBO] *)
Definition ip_fromLongHBO (v : Z) : IPAddress := IPV4 (be_encode 4 v).

(** ** A concrete instance *)
Module FollyModel.
Definition pull (bs : bytes) (n : nat) : res (bytes * bytes) :=
  if decide (n <= length bs)%nat then Ok (take n bs, drop n bs) else Throw OutOfRange.
Definition skip (bs : bytes) (n : nat) : res bytes :=
  if decide (n <= length bs)%nat then Ok (drop n bs) else Throw OutOfRange.
Definition bound (bs : bytes) (n : nat) : res bytes :=
  if decide (n <= length bs)%nat then Ok (take n bs) else Throw OutOfRange.
Definition push (cap : Z) (w bs : bytes) : res bytes :=
  if decide (blen w + blen bs <= cap) then Ok (w ++ bs) else Throw OutOfRange.
Definition wskip (cap : Z) (w : bytes) (n : nat) : res bytes :=
  if decide (blen w + Z.of_nat n <= cap) then Ok (w ++ replicate n 0) else Throw OutOfRange.
Definition write_at (w : bytes) (off : nat) (bs : bytes) : res bytes :=
  Ok (take off w ++ bs ++ drop (off + length bs) w).
Definition fromBinary (o : bytes) : res IPAddress :=
  if decide (length o = 4%nat) then Ok (IPV4 o)
  else if decide (length o = 16%nat) then Ok (IPV6 o)
  else Throw IPAddressFormatException.

(** Clear the bits of octet [b] from its [k]-th most significant one on. *)
Definition mask_octet (k b : Z) : Z := Z.shiftl (Z.shiftr b (8 - k)) (8 - k).
Fixpoint mask_octets (n : Z) (o : bytes) : bytes :=
  match o with
  | [] => []
  | b :: o => mask_octet (Z.max 0 (Z.min 8 n)) b :: mask_octets (n - 8) o
  end.
Definition mask (a : IPAddress) (n : Z) : IPAddress :=
  match a with
  | IPUnset => IPUnset
  | IPV4 o => IPV4 (mask_octets n o)
  | IPV6 o => IPV6 (mask_octets n o)
  end.

Fixpoint octets_str (o : bytes) : string :=
  match o with
  | [] => EmptyString
  | b :: o => String (Ascii.ascii_of_N (Z.to_N b)) (octets_str o)
  end.
Fixpoint str_octets (s : string) : bytes :=
  match s with
  | EmptyString => []
  | String c s => Z.of_N (Ascii.N_of_ascii c) :: str_octets s
  end.
(** Any injective rendering will do. *)
Definition str (a : IPAddress) : string :=
  match a with
  | IPUnset => EmptyString
  | IPV4 o => String "4"%char (octets_str o)
  | IPV6 o => String "6"%char (octets_str o)
  end.
Definition of_str (s : string) : res IPAddress :=
  match s with
  | String "4"%char s => Ok (IPV4 (str_octets s))
  | String "6"%char s => Ok (IPV6 (str_octets s))
  | _ => Throw IPAddressFormatException
  end.

Lemma str_octets_str o : wf_bytes o -> str_octets (octets_str o) = o.
Proof.
  induction 1 as [|b o Hb _ IH]; [done|]. cbn [octets_str str_octets].
  rewrite IH, Ascii.N_ascii_embedding; unfold is_byte in *; [f_equal|]; lia.
Qed.

Lemma mask_octet_spec k b i : is_byte b -> 0 <= k <= 8 -> (i < 8)%nat ->
  Z.testbit (mask_octet k b) (7 - Z.of_nat i)
    = (Z.of_nat i <? k) && Z.testbit b (7 - Z.of_nat i).
Proof.
  intros Hb Hk Hi. unfold mask_octet.
  rewrite Z.shiftl_spec by lia. destruct (Z.ltb_spec (Z.of_nat i) k); simpl.
  - rewrite Z.shiftr_spec by lia. f_equal; lia.
  - apply Z.testbit_neg_r. lia.
Qed.

Lemma mask_octet_byte k b : is_byte b -> 0 <= k <= 8 -> is_byte (mask_octet k b).
Proof.
  unfold is_byte, mask_octet. intros Hb Hk.
  rewrite Z.shiftl_mul_pow2, Z.shiftr_div_pow2 by lia.
  assert (0 < 2 ^ (8 - k)) by lia.
  pose proof (Z.mul_div_le b (2 ^ (8 - k))). split; [|lia].
  pose proof (Z.div_pos b (2 ^ (8 - k))). nia.
Qed.

Lemma mask_octets_wf o : forall n, wf_bytes o ->
  length (mask_octets n o) = length o /\ wf_bytes (mask_octets n o).
Proof.
  induction o as [|b o IH]; intros n Hwf; [done|]. apply Forall_cons in Hwf as [Hb Hwf].
  destruct (IH (n - 8) Hwf) as [Hl Hw]. simpl. split; [congruence|].
  constructor; [apply mask_octet_byte; [done|lia]|done].
Qed.

Lemma mask_octets_bit o : forall n i, wf_bytes o -> (i < 8 * length o)%nat ->
  octets_bit (mask_octets n o) i = (Z.of_nat i <? n) && octets_bit o i.
Proof.
  induction o as [|b o IH]; intros n i Hwf Hi; [simpl in Hi; lia|].
  apply Forall_cons in Hwf as [Hb Hwf]. simpl length in Hi.
  destruct (decide (i < 8)%nat) as [Hlt|Hge].
  - unfold octets_bit. rewrite Nat.div_small, Nat.mod_small by lia. cbn [mask_octets nth].
    rewrite mask_octet_spec by (done || lia). f_equal.
    destruct (Z.ltb_spec (Z.of_nat i) n), (Z.ltb_spec (Z.of_nat i) (Z.max 0 (Z.min 8 n)));
      lia || done.
  - assert (Hstep : forall b' (l : bytes), octets_bit (b' :: l) i = octets_bit l (i - 8)).
    { intros b' l. unfold octets_bit. replace i with ((i - 8) + 1 * 8)%nat at 1 2 by lia.
      rewrite Nat.div_add, Nat.Div0.mod_add by lia. rewrite Nat.add_1_r. done. }
    cbn [mask_octets]. rewrite !Hstep, IH by (done || lia). f_equal.
    destruct (Z.ltb_spec (Z.of_nat i) n), (Z.ltb_spec (Z.of_nat (i - 8)) (n - 8)); lia || done.
Qed.
End FollyModel.

#[export] Instance folly_model : FollyOps := {|
  cursor_pull := FollyModel.pull;
  cursor_skip := FollyModel.skip;
  cursor_bound := FollyModel.bound;
  wrap_buffer bs n := take n bs;
  rw_push := FollyModel.push;
  rw_skip := FollyModel.wskip;
  rw_write_at := FollyModel.write_at;
  ip_fromBinary := FollyModel.fromBinary;
  ip_mask := FollyModel.mask;
  ip_str := FollyModel.str;
  ip_of_str := FollyModel.of_str
|}.

#[export] Instance folly_model_laws : FollyLaws folly_model.
Proof.
  split; simpl; unfold FollyModel.pull, FollyModel.skip, FollyModel.bound, FollyModel.push,
    FollyModel.wskip, FollyModel.write_at, FollyModel.fromBinary;
    intros; repeat case_decide; try done; try lia.
  - eexists. split; [|done]. apply length_replicate.
  - destruct (FollyModel.mask_octets_wf o n) as [Hl Hw]; [done|].
    eexists. split; [done|]. split; [congruence|]. split; [done|].
    intros. apply FollyModel.mask_octets_bit; [done|lia].
  - destruct (FollyModel.mask_octets_wf o n) as [Hl Hw]; [done|].
    eexists. split; [done|]. split; [congruence|]. split; [done|].
    intros. apply FollyModel.mask_octets_bit; [done|lia].
  - destruct a as [|o|o]; simpl in *; [done|..]; destruct_and!; by rewrite FollyModel.str_octets_str.
  - by destruct a.
Qed.

(** ** Typed reads and writes over the interface *)
Section Fields.
Context `{F : FollyOps}.

(** [cursor.read<uint8_t>()] *)
Definition read_u8 (cur : bytes) : res (Z * bytes) :=
  let* '(bs, cur) := cursor_pull cur 1 in Ok (be_decode bs, cur).
(** [cursor.readBE<uintN_t>()] for [N = 8 * n] *)
Definition readBE (n : nat) (cur : bytes) : res (Z * bytes) :=
  let* '(bs, cur) := cursor_pull cur n in Ok (be_decode bs, cur).
(** [cursor.read<uintN_t>()] in host order, on a little-endian host *)
Definition readHost (n : nat) (cur : bytes) : res (Z * bytes) :=
  let* '(bs, cur) := cursor_pull cur n in Ok (le_decode bs, cur).

(** [cursor.write<uint8_t>(v)], [cursor.writeBE<uintN_t>(v)] and
    [cursor.write<uint32_t>(v)]: the value is truncated to the width. *)
Definition write_u8 (cap : Z) (w : bytes) (v : Z) : res bytes :=
  rw_push cap w (be_encode 1 v).
Definition writeBE (n : nat) (cap : Z) (w : bytes) (v : Z) : res bytes :=
  rw_push cap w (be_encode n v).
Definition writeHost (n : nat) (cap : Z) (w : bytes) (v : Z) : res bytes :=
  rw_push cap w (le_encode n v).

Context {L : FollyLaws F}.

Lemma pull_app bs rest n : length bs = n -> cursor_pull (bs ++ rest) n = Ok (bs, rest).
Proof.
  intros <-. rewrite cursor_pull_ok by len. by rewrite take_app_length, drop_app_length.
Qed.

Lemma skip_app bs rest n : length bs = n -> cursor_skip (bs ++ rest) n = Ok rest.
Proof. intros <-. rewrite cursor_skip_ok by len. by rewrite drop_app_length. Qed.

Lemma wrap_app bs rest n : length bs = n -> wrap_buffer (bs ++ rest) n = bs.
Proof. intros <-. rewrite wrap_buffer_ok by len. by rewrite take_app_length. Qed.

Lemma read_u8_cons b rest : read_u8 (b :: rest) = Ok (b, rest).
Proof. unfold read_u8. change (b :: rest) with ([b] ++ rest). by rewrite pull_app. Qed.

Lemma readBE_encode n v rest :
  readBE n (be_encode n v ++ rest) = Ok (v mod 256 ^ Z.of_nat n, rest).
Proof.
  unfold readBE. rewrite pull_app by apply length_be_encode. simpl.
  by rewrite be_decode_encode.
Qed.

Lemma read_u8_encode v rest : read_u8 (be_encode 1 v ++ rest) = Ok (v mod 256, rest).
Proof. apply (readBE_encode 1). Qed.

Lemma readHost_encode n v rest :
  readHost n (le_encode n v ++ rest) = Ok (v mod 256 ^ Z.of_nat n, rest).
Proof.
  unfold readHost. rewrite pull_app by apply length_le_encode. simpl.
  by rewrite le_decode_encode.
Qed.

Lemma readBE_Ok_inv n cur v cur' : readBE n cur = Ok (v, cur') ->
  exists bs, cur = bs ++ cur' /\ length bs = n /\ v = be_decode bs.
Proof.
  unfold readBE. intros H. destruct (decide (n <= length cur)%nat).
  - rewrite cursor_pull_ok in H by done. simplify_eq/=. exists (take n cur).
    rewrite take_drop. split; [done|]. split; [len|done].
  - rewrite cursor_pull_short in H by lia. done.
Qed.

Lemma readHost_Ok_inv n cur v cur' : readHost n cur = Ok (v, cur') ->
  exists bs, cur = bs ++ cur' /\ length bs = n /\ v = le_decode bs.
Proof.
  unfold readHost. intros H. destruct (decide (n <= length cur)%nat).
  - rewrite cursor_pull_ok in H by done. simplify_eq/=. exists (take n cur).
    rewrite take_drop. split; [done|]. split; [len|done].
  - rewrite cursor_pull_short in H by lia. done.
Qed.

Lemma read_u8_Ok_inv cur v cur' : read_u8 cur = Ok (v, cur') -> cur = v :: cur'.
Proof.
  intros (bs & -> & Hl & ->)%(readBE_Ok_inv 1). destruct bs as [|b [|]]; done.
Qed.

Lemma read_u8_case cur :
  read_u8 cur = match cur with [] => Throw OutOfRange | b :: cur' => Ok (b, cur') end.
Proof.
  destruct cur; [|apply read_u8_cons].
  unfold read_u8. rewrite cursor_pull_short by (simpl; lia). done.
Qed.

Lemma readBE_case n cur :
  readBE n cur =
    if decide (n <= length cur)%nat then Ok (be_decode (take n cur), drop n cur)
    else Throw OutOfRange.
Proof.
  unfold readBE. case_decide; [by rewrite cursor_pull_ok|].
  rewrite cursor_pull_short by lia. done.
Qed.

Lemma cursor_skip_case n cur :
  cursor_skip cur n =
    if decide (n <= length cur)%nat then Ok (drop n cur) else Throw OutOfRange.
Proof. case_decide; [by rewrite cursor_skip_ok|]. rewrite cursor_skip_short by lia. done. Qed.

Lemma cursor_pull_case n cur :
  cursor_pull cur n =
    if decide (n <= length cur)%nat then Ok (take n cur, drop n cur) else Throw OutOfRange.
Proof. case_decide; [by rewrite cursor_pull_ok|]. rewrite cursor_pull_short by lia. done. Qed.

Lemma cursor_skip_Ok_inv n cur cur' : cursor_skip cur n = Ok cur' ->
  cur' = drop n cur /\ (n <= length cur)%nat.
Proof. rewrite cursor_skip_case. case_decide; naive_solver. Qed.
Lemma cursor_pull_Ok_inv n cur bs cur' : cursor_pull cur n = Ok (bs, cur') ->
  cur = bs ++ cur' /\ length bs = n.
Proof.
  rewrite cursor_pull_case. case_decide; intros ?; simplify_eq/=.
  rewrite take_drop. split; [done|len].
Qed.

(** Reads only run out of input, never out of fuel. *)
Lemma readBE_total n cur : readBE n cur <> NoFuel.
Proof. rewrite readBE_case. by case_decide. Qed.
Lemma readHost_total n cur : readHost n cur <> NoFuel.
Proof. unfold readHost. rewrite cursor_pull_case. by case_decide. Qed.
Lemma read_u8_total cur : read_u8 cur <> NoFuel.
Proof. rewrite read_u8_case. by destruct cur. Qed.
Lemma cursor_skip_total n cur : cursor_skip cur n <> NoFuel.
Proof. rewrite cursor_skip_case. by case_decide. Qed.
Lemma cursor_pull_total n cur : cursor_pull cur n <> NoFuel.
Proof. rewrite cursor_pull_case. by case_decide. Qed.

(** Reads fail only with [std::out_of_range]. *)
Section ReadThrows.
Variable P : Exn -> Prop.
Hypothesis HP : P OutOfRange.
Lemma readBE_throws_in n cur : throws_in P (readBE n cur).
Proof. rewrite readBE_case. case_decide; [apply throws_in_Ok|by apply throws_in_Throw]. Qed.
Lemma readHost_throws_in n cur : throws_in P (readHost n cur).
Proof.
  unfold readHost. rewrite cursor_pull_case.
  case_decide; [apply throws_in_Ok|by apply throws_in_Throw].
Qed.
Lemma read_u8_throws_in cur : throws_in P (read_u8 cur).
Proof. apply (readBE_throws_in 1). Qed.
Lemma cursor_skip_throws_in n cur : throws_in P (cursor_skip cur n).
Proof.
  rewrite cursor_skip_case. case_decide; [apply throws_in_Ok|by apply throws_in_Throw].
Qed.
Lemma cursor_pull_throws_in n cur : throws_in P (cursor_pull cur n).
Proof.
  rewrite cursor_pull_case. case_decide; [apply throws_in_Ok|by apply throws_in_Throw].
Qed.
End ReadThrows.

(** Backpatching a length field through a saved cursor. *)
Lemma write_at_hole p hole q bs : length hole = length bs ->
  rw_write_at (p ++ hole ++ q) (length p) bs = Ok (p ++ bs ++ q).
Proof.
  intros Hl. rewrite rw_write_at_ok by len.
  rewrite take_app_length. do 3 f_equal.
  rewrite drop_app_add, <- Hl. by rewrite drop_app_length.
Qed.
End Fields.

#[export] Hint Resolve readBE_total readHost_total read_u8_total cursor_skip_total
  cursor_pull_total : bgp.
#[export] Hint Resolve readBE_throws_in readHost_throws_in read_u8_throws_in
  cursor_skip_throws_in cursor_pull_throws_in @throws_in_Ok : bgp.

(** ** Writers

    A serializer step is a function from the bytes before the write cursor to
    the bytes before the advanced cursor.  [writes cap wr bs]: the step appends
    [bs] when it fits into the buffer, and otherwise the cursor throws. *)
Section Writers.
Context `{F : FollyOps}.

Definition writes (cap : Z) (wr : bytes -> res bytes) (bs : bytes) : Prop :=
  forall w, blen w <= cap ->
    wr w = if blen w + blen bs <=? cap then Ok (w ++ bs) else Throw OutOfRange.

(** Run a step for every element of a vector, in order. *)
Fixpoint for_each {X} (step : X -> bytes -> res bytes) (xs : list X) (w : bytes) : res bytes :=
  match xs with
  | [] => Ok w
  | x :: xs => let* w := step x w in for_each step xs w
  end.

(** Leave [n] bytes for a length field, run [k], and fill the field in with
    the number of bytes [k] wrote. *)
Definition with_length (cap : Z) (n : nat) (k : bytes -> res bytes) (w : bytes) : res bytes :=
  let* w0 := rw_skip cap w n in
  let* w1 := k w0 in
  rw_write_at w1 (length w) (be_encode n (blen w1 - blen w - Z.of_nat n)).

Lemma writes_ret cap : writes cap (fun w => Ok w) [].
Proof.
  intros w Hw. destruct (Z.leb_spec (blen w + blen (@nil Z)) cap); [|simpl in *; lia].
  by rewrite app_nil_r.
Qed.

Lemma writes_bind cap wr1 wr2 b1 b2 :
  writes cap wr1 b1 -> writes cap wr2 b2 ->
  writes cap (fun w => let* w := wr1 w in wr2 w) (b1 ++ b2).
Proof.
  intros H1 H2 w Hw. rewrite H1 by done. rewrite length_app.
  destruct (Z.leb_spec (blen w + blen b1) cap); cbn [rbind].
  - rewrite H2 by len. rewrite length_app, <- app_assoc.
    destruct (Z.leb_spec (Z.of_nat (length w + length b1) + blen b2) cap),
      (Z.leb_spec (blen w + Z.of_nat (length b1 + length b2)) cap); done || lia.
  - destruct (Z.leb_spec (blen w + Z.of_nat (length b1 + length b2)) cap); done || lia.
Qed.

Lemma writes_for_each {X} cap (step : X -> bytes -> res bytes) (enc : X -> bytes) xs :
  Forall (fun x => writes cap (step x) (enc x)) xs ->
  writes cap (for_each step xs) (concat (map enc xs)).
Proof.
  induction 1 as [|x xs Hx _ IH]; [apply writes_ret|]. by apply writes_bind.
Qed.

Lemma writes_if cap (b : bool) wr bs :
  (b = true -> writes cap wr bs) ->
  writes cap (fun w => if b then wr w else Ok w) (if b then bs else []).
Proof. destruct b; [by intros H; apply H|intros _; apply writes_ret]. Qed.

Lemma writes_ext cap wr wr' bs : (forall w, wr w = wr' w) -> writes cap wr bs -> writes cap wr' bs.
Proof. intros E H w Hw. rewrite <- E. by apply H. Qed.

Lemma writes_Ok cap wr bs w :
  writes cap wr bs -> blen w + blen bs <= cap -> wr w = Ok (w ++ bs).
Proof.
  intros H Hfit. rewrite H by lia. by destruct (Z.leb_spec (blen w + blen bs) cap); [|lia].
Qed.

Context {L : FollyLaws F}.

Lemma writes_push cap bs : writes cap (fun w => rw_push cap w bs) bs.
Proof.
  intros w Hw. destruct (Z.leb_spec (blen w + blen bs) cap).
  - by rewrite rw_push_ok. - by rewrite rw_push_full.
Qed.

Lemma writes_u8 cap v : writes cap (fun w => write_u8 cap w v) (be_encode 1 v).
Proof. apply writes_push. Qed.
Lemma writes_BE n cap v : writes cap (fun w => writeBE n cap w v) (be_encode n v).
Proof. apply writes_push. Qed.
Lemma writes_Host n cap v : writes cap (fun w => writeHost n cap w v) (le_encode n v).
Proof. apply writes_push. Qed.

Lemma writes_with_length cap n k bs :
  writes cap k bs -> writes cap (with_length cap n k) (be_encode n (blen bs) ++ bs).
Proof.
  intros Hk w Hw. unfold with_length. rewrite length_app, length_be_encode.
  destruct (Z.leb_spec (blen w + Z.of_nat (n + length bs)) cap).
  - destruct (rw_skip_ok cap w n) as (hole & Hh & ->); [lia|]. cbn [rbind].
    rewrite (writes_Ok _ _ _ _ Hk) by len. cbn [rbind].
    rewrite <- app_assoc, !length_app, Hh.
    replace (Z.of_nat (length w + (n + length bs)) - blen w - Z.of_nat n) with (blen bs) by lia.
    rewrite write_at_hole by len. done.
  - destruct (decide (blen w + Z.of_nat n <= cap)).
    + destruct (rw_skip_ok cap w n) as (hole & Hh & ->); [lia|]. cbn [rbind].
      rewrite Hk by len. rewrite length_app, Hh.
      destruct (Z.leb_spec (Z.of_nat (length w + n) + blen bs) cap); [lia|done].
    + rewrite rw_skip_full by lia. done.
Qed.
End Writers.

(** [solve_writes] proves [writes] of a sequence of steps whose output is
    written in the same shape; [writes] collects the facts on the steps of
    each serializer. *)
Create HintDb writes.
#[export] Hint Resolve writes_ret writes_push writes_u8 writes_BE writes_Host : writes.
Ltac solve_writes :=
  repeat first
    [ solve [eauto 2 with writes]
    | apply writes_bind
    | apply writes_with_length
    | apply writes_if; intros ?
    | apply writes_for_each ].

(** Case analysis of a step of a parser that completed normally: every read
    becomes a split of the input, every test is destructed. *)
Ltac inv_reads :=
  repeat match goal with
  | H : rbind _ _ = Ok _ |- _ =>
      let v := fresh "v" in let Hs := fresh "Hs" in
      apply rbind_Ok_inv in H as (v & Hs & H);
      repeat match goal with p : (_ * _)%type |- _ => destruct p end
  | H : catch_out_of_range _ _ = Ok _ |- _ => apply catch_out_of_range_Ok in H
  | H : readBE _ _ = Ok (_, _) |- _ =>
      let E := fresh "E" in apply readBE_Ok_inv in H as (? & E & ? & ?); subst
  | H : readHost _ _ = Ok (_, _) |- _ =>
      let E := fresh "E" in apply readHost_Ok_inv in H as (? & E & ? & ?); subst
  | H : read_u8 _ = Ok (_, _) |- _ => apply read_u8_Ok_inv in H; subst
  | H : cursor_skip _ _ = Ok _ |- _ => apply cursor_skip_Ok_inv in H as [? ?]; subst
  | H : cursor_pull _ _ = Ok (_, _) |- _ => apply cursor_pull_Ok_inv in H as [? ?]; subst
  | H : (if ?b then _ else _) = Ok _ |- _ => destruct b eqn:?
  | H : Throw _ = Ok _ |- _ => discriminate H
  | H : NoFuel = Ok _ |- _ => discriminate H
  | H : Ok _ = Ok _ |- _ => injection H; intros; clear H; subst
  end.

(** A loop body consumes input. *)
Ltac solve_consumes :=
  let Hne := fresh "Hne" in let H := fresh "H" in
  intros ? ? ? ? Hne H; cbv beta zeta in H; inv_reads; len.

(** A step never runs out of fuel. *)
Ltac solve_total :=
  repeat first
    [ discriminate
    | progress auto with bgp
    | apply rbind_not_NoFuel; [|intros ? ?]
    | apply catch_out_of_range_not_NoFuel
    | case_match
    | progress cbv zeta ].

(** Every exception of a step is in the class of the goal. *)
Ltac solve_throws :=
  repeat first
    [ progress auto with bgp
    | apply throws_in_Throw
    | apply throws_in_bind; [|intros ? ?]
    | case_match
    | progress cbv zeta ].

(** What is left of a well-formed input is well-formed. *)
Ltac solve_suffix :=
  unfold wf_bytes in *;
  repeat match goal with
  | H : Forall is_byte (_ ++ _) |- _ => apply Forall_app in H as [_ H]
  | H : Forall is_byte (_ :: _) |- _ => apply Forall_cons in H as [_ H]
  | |- Forall is_byte (drop _ _) => apply Forall_drop
  end; assumption.
