(* ===== verification/BgpStructs.v ===== *)
(** * Message structures and constants (lib/BgpStructs.h, if/BgpStructs.thrift)

    Thrift enums hold any integer of their underlying type once a
    [static_cast] has produced them, so the enums the parsers cast wire values
    into are integers with named constants. *)

From S2P Require Import Prelude BgpException Folly.

(** ** Constants *)
Definition kBgpMsgHeaderLen : Z := 19.
Definition kMaxBgpMsgLen : Z := 4096.
Definition kMinBgpUpdateMsgLen : Z := 23.
Definition kMaxBgpUpdateVarLen : Z := kMaxBgpMsgLen - kMinBgpUpdateMsgLen.
Definition kMaxV6PrefixLen : Z := 17.
Definition kMaxV4prefixLen : Z := 5.
Definition kMaxPathIdLen : Z := 4.
Definition kBgpMarker : bytes := replicate 16 255.
Lemma length_kBgpMarker : length kBgpMarker = 16%nat.
Proof. done. Qed.
#[export] Hint Rewrite length_kBgpMarker : bgp_len.
#[global] Opaque kBgpMarker.
Definition kBgpVersion : Z := 4.
Definition kGrRestartStateBit : Z := 0x8000.
Definition kGrNotificationBit : Z := 0x4000.
Definition kGrRestartTimeMask : Z := 0x0fff.

(** enum BgpMessageType *)
Definition BGP_MSG_TYPE_OPEN : Z := 1.
Definition BGP_MSG_TYPE_UPDATE : Z := 2.
Definition BGP_MSG_TYPE_NOTIFICATION : Z := 3.
Definition BGP_MSG_TYPE_KEEPALIVE : Z := 4.
Definition BGP_MSG_TYPE_ROUTE_REFRESH : Z := 5.

(** enum BgpAttrFlags *)
Definition BGP_ATTR_FLAG_OPTIONAL_TRANSITIVE : Z := 0xc0.
Definition BGP_ATTR_FLAG_OPTIONAL : Z := 0x80.
Definition BGP_ATTR_FLAG_TRANSITIVE : Z := 0x40.
Definition BGP_ATTR_FLAG_PARTIAL : Z := 0x20.
Definition BGP_ATTR_FLAG_EXTENDED : Z := 0x10.

(** enum class BgpAttrCode : uint8_t *)
Definition BGP_ATTR_ORIGIN : Z := 1.
Definition BGP_ATTR_AS_PATH : Z := 2.
Definition BGP_ATTR_NEXT_HOP : Z := 3.
Definition BGP_ATTR_MED : Z := 4.
Definition BGP_ATTR_LOCAL_PREF : Z := 5.
Definition BGP_ATTR_ATOMIC_AGGREGATE : Z := 6.
Definition BGP_ATTR_AGGREGATOR : Z := 7.
Definition BGP_ATTR_COMMUNITIES : Z := 8.
Definition BGP_ATTR_ORIGINATOR_ID : Z := 9.
Definition BGP_ATTR_CLUSTER_LIST : Z := 10.
Definition BGP_ATTR_MP_REACH_NLRI : Z := 14.
Definition BGP_ATTR_MP_UNREACH_NLRI : Z := 15.
Definition BGP_ATTR_EXTENDED_COMMUNITIES : Z := 16.
Definition BGP_ATTR_LINK_STATE : Z := 29.
Definition BGP_ATTR_LARGE_COMMUNITIES : Z := 32.

(** enum BgpUpdateAfi, BgpUpdateSafi, BgpAddPathSendRec, BgpCapability *)
Definition AFI_IPv4 : Z := 1.
Definition AFI_IPv6 : Z := 2.
Definition AFI_LS : Z := 16388.
Definition SAFI_UNICAST : Z := 1.
Definition SAFI_LABELED_UNICAST : Z := 4.
Definition SAFI_LS : Z := 71.
Definition RECEIVE : Z := 1.
Definition SEND : Z := 2.
Definition BOTH : Z := 3.
Definition BO_PARAM_CAPABILITIES : Z := 2.
Definition CAPA_MP_EXT : Z := 1.
Definition CAPA_ROUTE_REFRESH : Z := 2.
Definition CAPA_EXT_NH_ENCODING : Z := 5.
Definition CAPA_GR : Z := 64.
Definition CAPA_AS4_BYTE : Z := 65.
Definition CAPA_ADD_PATH : Z := 69.
Definition CAPA_ENHANCED_ROUTE_REFRESH : Z := 70.

(** [enumName(v) != nullptr]: the value has a name in its enum. *)
Definition named_afi (v : Z) : bool := (v =? AFI_IPv4) || (v =? AFI_IPv6) || (v =? AFI_LS).
Definition named_safi (v : Z) : bool :=
  (v =? SAFI_UNICAST) || (v =? SAFI_LABELED_UNICAST) || (v =? SAFI_LS).
Definition named_sor (v : Z) : bool := (v =? RECEIVE) || (v =? SEND) || (v =? BOTH).

(** ** Header and capabilities *)
Record BgpMessageHeader := mkHeader { hdr_length : Z; hdr_type : Z }.

Record BgpGrCapability :=
  mkGrCapa { gr_afi : Z; gr_safi : Z; gr_forwardingState : bool }.
Record BgpAddPathCapability :=
  mkAddPath { ap_afi : Z; ap_safi : Z; ap_sor : Z }.
Record BgpExtNHEncodingCapability :=
  mkExtNH { nh_nlriAfi : Z; nh_nlriSafi : Z; nh_nhAfi : Z }.

Record BgpCapabilities := mkCapabilities {
  mpExtV4Unicast : bool;
  mpExtV6Unicast : bool;
  mpExtV4LU : bool;
  mpExtV6LU : bool;
  as4byte : bool;
  capa_asn : Z;
  gracefulRestart : bool;
  isRestarting : bool;
  restartTime : Z;
  grCapabilities : list BgpGrCapability;
  mpExtLs : bool;
  mpExtExist : bool;
  addPathCapabilities : list BgpAddPathCapability;
  extNHEncodingCapabilities : list BgpExtNHEncodingCapability;
  enhancedRouteRefresh : bool;
  routeRefresh : bool;
  grNotification : bool
}.

Definition defaultCapabilities : BgpCapabilities :=
  mkCapabilities false false false false false 0 false false 0 [] false false [] [] false false
    false.

Record BgpOpenMsg := mkOpenMsg {
  open_version : Z;
  open_asn : Z;
  open_holdTime : Z;
  open_bgpID : Z;
  open_capabilities : BgpCapabilities
}.

(** The name the thrift runtime gives to value [v] of the subcode enum of an
    error code ([enumNameSafe]), the literal the parser starts from, or the text
    of a notification built by the session. *)
Inductive SubCodeStr :=
| NA
| EnumNameSafe (code : BgpNotifErrCode) (v : Z)
| Text (text : string).

Record BgpNotification := mkNotification {
  notif_errCode : BgpNotifErrCode;
  notif_errSubCode : Z;
  notif_errSubCodeStr : SubCodeStr;
  notif_data : bytes
}.

Definition errCode_value (c : BgpNotifErrCode) : Z :=
  match c with
  | BN_MSG_HDR_ERR => 1 | BN_OPEN_MSG_ERR => 2 | BN_UPDATE_MSG_ERR => 3
  | BN_HOLD_TIMER_EXPIRED => 4 | BN_FSM_ERROR => 5 | BN_CEASE => 6
  | BN_ROUTE_REFRESH_MSG_ERR => 7
  end.

Record BgpRouteRefresh := mkRouteRefresh { rr_afi : Z; rr_msgSubType : Z; rr_safi : Z }.

Record BgpEndOfRib := mkEndOfRib { isMpEor : bool; eor_afi : Z; eor_safi : Z }.

(** ** Path attributes *)
Record BgpAttrAsPathSegment := mkSegment {
  asSet : list Z;             (** std::set: ascending, no duplicates *)
  asSequence : list Z;
  asConfedSequence : list Z;
  asConfedSet : list Z        (** std::set *)
}.

Record BgpAttrAggregator := mkAggregator { agg_asn : Z; agg_ip : string }.
Record BgpAttrCommunity := mkCommunity { comm_asn : Z; comm_value : Z }.
Record BgpAttrExtCommunity := mkExtCommunity { firstWord : Z; secondWord : Z }.
Record BgpAttrLargeCommunity :=
  mkLargeCommunity { lc_asn : Z; localData1 : Z; localData2 : Z }.

(** The wire fields of the thrift struct; [pathNonStandardData],
    [topologyInfo] and [weight] are not part of a message and the codec does
    not touch them. *)
Record BgpAttributes := mkAttributes {
  origin : Z;
  asPath : list BgpAttrAsPathSegment;
  nexthop : string;
  med : Z;
  localPref : option Z;
  atomicAggregate : bool;
  aggregator : BgpAttrAggregator;
  communities : list BgpAttrCommunity;
  originatorId : Z;
  clusterList : list Z;
  extCommunities : list BgpAttrExtCommunity;
  largeCommunities : list BgpAttrLargeCommunity;
  isMedSet : bool
}.

Definition defaultAttributes : BgpAttributes :=
  mkAttributes 0 [] "" 0 None false (mkAggregator 0 "") [] 0 [] [] [] false.

(** ** Prefixes and UPDATE messages *)

(** [network::thrift::BinaryAddress] is its bytes. *)
Record IPPrefix := mkIPPrefix { prefixAddress : bytes; prefixLength : Z }.
Record RiggedIPPrefix :=
  mkRigged { rig_prefix : IPPrefix; rig_labels : list Z; rig_pathId : option Z }.
Record BgpNlri := mkNlri {
  nlri_afi : Z; nlri_safi : Z; nlri_prefixes : list RiggedIPPrefix; nlri_nexthop : bytes }.

Record BgpUpdate2 := mkUpdate2 {
  u_attrs : BgpAttributes;
  u_mpAnnounced : BgpNlri;
  u_mpWithdrawn : BgpNlri;
  u_v4Announced : list IPPrefix;
  u_v4Withdrawn : list IPPrefix;
  u_v4Nexthop : bytes;
  u_v4Announced2 : list RiggedIPPrefix;
  u_v4Withdrawn2 : list RiggedIPPrefix
}.

(** ** common/network/AddressUtil.h *)
Definition CIDRNetwork := (IPAddress * Z)%type.

Section AddressUtil.
Context `{F : FollyOps}.

Definition toBinaryAddress (addr : IPAddress) : bytes := ip_bytes addr.
Definition toIPAddress (addr : bytes) : res IPAddress := ip_fromBinary addr.
Definition toCIDRNetwork (prefix : IPPrefix) (mask : bool) : res CIDRNetwork :=
  let* ip := ip_fromBinary (prefixAddress prefix) in
  let maskLen := uint 8 (prefixLength prefix) in
  Ok (if mask then ip_mask ip maskLen else ip, maskLen).
Definition toIPPrefix (network : CIDRNetwork) : IPPrefix :=
  mkIPPrefix (toBinaryAddress (fst network)) (snd network).

(** Converting a network to its thrift form and back is the identity. *)
Lemma toCIDRNetwork_toIPPrefix `{L : !FollyLaws F} a n :
  wf_ip a -> a <> IPUnset -> 0 <= n < 256 ->
  toCIDRNetwork (toIPPrefix (a, n)) false = Ok (a, n).
Proof.
  intros Hwf Ha Hn. unfold toCIDRNetwork, toIPPrefix, toBinaryAddress. simpl.
  destruct a as [|o|o]; [done|..]; destruct Hwf as [Hl _]; simpl.
  - rewrite ip_fromBinary_v4 by done. simpl. by rewrite uint_id.
  - rewrite ip_fromBinary_v6 by done. simpl. by rewrite uint_id.
Qed.
End AddressUtil.

(** ** Pre-serialized updates

    [serializedGroupPDU] is a chain of [IOBuf]s that clones share: the chain is
    the list of the shared buffers, by their address. *)
Record UpdateDescriptor := mkDescriptor {
  serializedGroupPDU : option (list nat);
  d_v4Nexthop : IPAddress;
  d_v6Nexthop : IPAddress;
  d_nexthopOffsets : list (Z * Z * bool)
}.

(** [FiberBgpParser::BgpMessageT], the messages of a session; a socket error
    carries its description. *)
Inductive BgpMessageT :=
| MOpen (msg : BgpOpenMsg)
| MNotification (msg : BgpNotification)
| MKeepAlive
| MUpdate (msg : BgpUpdate2)
| MUpdateDescriptor (desc : UpdateDescriptor)
| MEndOfRib (msg : BgpEndOfRib)
| MSocketError (err : string)
| MRouteRefresh (msg : BgpRouteRefresh).
