(* ===== verification/MsgHeader.v ===== *)
(** * The common message header

    [BgpMessageParser2::parseBgpMsgHdr] and [consumeBgpMsgHdr]
    (lib/BgpMessageParser.cpp) and [BgpMessageSerializer::serializeBgpHeader]
    (lib/BgpMessageSerializer.cpp). *)

From S2P Require Import Prelude BgpException Folly BgpStructs.

Section Header.
Context `{F : FollyOps}.

(** [std::string(&errData, sizeof(errData))] with [errData = htons(v)] *)
Definition htons_data (v : Z) : bytes := be_encode 2 v.

Definition parseBgpMsgHdr (cursor : bytes) (msgType : option Z) : res BgpMessageHeader :=
  let msglen := blen cursor in
  if msglen <? kBgpMsgHeaderLen then
    Throw (BgpHeaderException BN_MH_BAD_MSG_LEN (htons_data msglen))
  else
  let* '(marker, cursor) := cursor_pull cursor 16 in
  if bool_decide (kBgpMarker <> marker) then
    Throw (BgpHeaderException BN_MH_CONNECTION_NOT_SYNCHRONIZED [])
  else
  let* '(hlen, cursor) := readBE 2 cursor in
  let* '(htype, _) := read_u8 cursor in
  if (hlen <? kBgpMsgHeaderLen) || (kMaxBgpMsgLen <? hlen) then
    Throw (BgpHeaderException BN_MH_BAD_MSG_LEN (htons_data hlen))
  else
  match msgType with
  | Some t => if negb (htype =? t) then Throw (BgpHeaderException BN_MH_BAD_MSG_TYPE [htype])
              else Ok (mkHeader hlen htype)
  | None => Ok (mkHeader hlen htype)
  end.

(** Also returns the advanced cursor. *)
Definition consumeBgpMsgHdr (cursor : bytes) (msgType : option Z)
    : res (BgpMessageHeader * bytes) :=
  let readable := blen cursor in
  let* hdr := parseBgpMsgHdr cursor msgType in
  let* cursor := cursor_skip cursor (Z.to_nat kBgpMsgHeaderLen) in
  if readable <? hdr_length hdr then
    Throw (BgpHeaderException BN_MH_BAD_MSG_LEN (htons_data (hdr_length hdr)))
  else Ok (hdr, cursor).

(** A message buffer with room left for the header. *)
Definition newMessageBuffer : res bytes :=
  rw_skip kMaxBgpMsgLen [] (Z.to_nat kBgpMsgHeaderLen).

(** [buf] holds everything between the head and the tail cursor; the header
    is written over its first bytes, and the message length is returned. *)
Definition serializeBgpHeader (buf : bytes) (msgType : Z) : res (Z * bytes) :=
  let msgLen := uint 16 (blen buf) in
  if kMaxBgpMsgLen <? msgLen then Throw (BgpSerializerException EXCEEDED_MAX_SIZE)
  else
  let* buf := rw_write_at buf 0 kBgpMarker in
  let* buf := rw_write_at buf 16 (be_encode 2 msgLen) in
  let* buf := rw_write_at buf 18 (be_encode 1 msgType) in
  Ok (msgLen, buf).

(** [serializeBgpHeader] followed by [buf->trimEnd(kMaxBgpMsgLen - len)]. *)
Definition finishMessage (buf : bytes) (msgType : Z) : res bytes :=
  let* '(msgLen, buf) := serializeBgpHeader buf msgType in
  Ok (take (Z.to_nat msgLen) buf).

(** The wire form of a message with body [body]. *)
Definition header_bytes (msgType : Z) (body : bytes) : bytes :=
  kBgpMarker ++ be_encode 2 (kBgpMsgHeaderLen + blen body) ++ be_encode 1 msgType.
Definition message_bytes (msgType : Z) (body : bytes) : bytes :=
  header_bytes msgType body ++ body.

Lemma length_header_bytes t body : length (header_bytes t body) = 19%nat.
Proof. unfold header_bytes. len. Qed.

Lemma length_message_bytes t body : length (message_bytes t body) = (19 + length body)%nat.
Proof. unfold message_bytes. rewrite length_app, length_header_bytes. done. Qed.

Context {L : FollyLaws F}.

Lemma newMessageBuffer_Ok : exists hole, length hole = 19%nat /\ newMessageBuffer = Ok hole.
Proof. unfold newMessageBuffer. by apply (rw_skip_ok kMaxBgpMsgLen []). Qed.

Lemma serializeBgpHeader_Ok hole body t :
  length hole = 19%nat -> kBgpMsgHeaderLen + blen body <= kMaxBgpMsgLen ->
  serializeBgpHeader (hole ++ body) t = Ok (kBgpMsgHeaderLen + blen body, message_bytes t body).
Proof.
  unfold serializeBgpHeader, message_bytes, header_bytes, kBgpMsgHeaderLen, kMaxBgpMsgLen.
  intros Hl Hlen. rewrite length_app, Hl, Nat2Z.inj_add, uint_id by lia.
  change (Z.of_nat 19) with 19.
  destruct (Z.ltb_spec 4096 (19 + blen body)); [lia|].
  rewrite <- (take_drop 16 hole), <- (take_drop 2 (drop 16 hole)).
  set (h1 := take 16 hole). set (h2 := take 2 (drop 16 hole)).
  set (h3 := drop 2 (drop 16 hole)). set (n := 19 + blen body).
  assert (Hh1 : length h1 = 16%nat) by (subst h1; len).
  assert (Hh2 : length h2 = 2%nat) by (subst h2; len).
  assert (Hh3 : length h3 = 1%nat) by (subst h3; len).
  rewrite <- !app_assoc.
  pose proof (write_at_hole [] h1 (h2 ++ h3 ++ body) kBgpMarker) as E1.
  cbn [app length] in E1. rewrite E1 by len. cbn [rbind].
  pose proof (write_at_hole kBgpMarker h2 (h3 ++ body) (be_encode 2 n)) as E2.
  rewrite length_kBgpMarker in E2. rewrite E2 by len. cbn [rbind].
  pose proof (write_at_hole (kBgpMarker ++ be_encode 2 n) h3 body (be_encode 1 t)) as E3.
  rewrite length_app, !length_be_encode, length_kBgpMarker, <- !app_assoc in E3.
  change (16 + 2)%nat with 18%nat in E3. rewrite E3 by len. done.
Qed.

Lemma finishMessage_Ok hole body t :
  length hole = 19%nat -> kBgpMsgHeaderLen + blen body <= kMaxBgpMsgLen ->
  finishMessage (hole ++ body) t = Ok (message_bytes t body).
Proof.
  intros Hl Hlen. unfold finishMessage. rewrite serializeBgpHeader_Ok by done. cbn [rbind].
  f_equal. apply firstn_all2. rewrite length_message_bytes. unfold kBgpMsgHeaderLen. lia.
Qed.

(** *** Parsing *)

(** The three fields of a buffer long enough to hold a header. *)
Lemma header_fields (cur : bytes) : (19 <= length cur)%nat ->
  exists marker lb tb rest, cur = marker ++ lb ++ tb :: rest /\
    length marker = 16%nat /\ length lb = 2%nat /\ rest = drop 19 cur.
Proof.
  intros Hl. exists (take 16 cur), (take 2 (drop 16 cur)).
  destruct (drop 18 cur) as [|tb rest] eqn:E.
  { apply (f_equal length) in E. rewrite length_drop in E. simpl in E. lia. }
  exists tb, rest. split; [|split; [len|split; [len|]]].
  - rewrite <- E. replace (drop 18 cur) with (drop 2 (drop 16 cur)) by (by rewrite drop_drop).
    by rewrite take_drop, take_drop.
  - change rest with (drop 1 (tb :: rest)). rewrite <- E. by rewrite drop_drop.
Qed.

(** The outcome of [parseBgpMsgHdr] on the fields of a complete header. *)
Lemma parseBgpMsgHdr_fields marker lb tb rest mt :
  length marker = 16%nat -> length lb = 2%nat ->
  parseBgpMsgHdr (marker ++ lb ++ tb :: rest) mt =
    let hlen := be_decode lb in
    if bool_decide (kBgpMarker <> marker) then
      Throw (BgpHeaderException BN_MH_CONNECTION_NOT_SYNCHRONIZED [])
    else if (hlen <? kBgpMsgHeaderLen) || (kMaxBgpMsgLen <? hlen) then
      Throw (BgpHeaderException BN_MH_BAD_MSG_LEN (htons_data hlen))
    else match mt with
         | Some t => if negb (tb =? t)
                     then Throw (BgpHeaderException BN_MH_BAD_MSG_TYPE [tb])
                     else Ok (mkHeader hlen tb)
         | None => Ok (mkHeader hlen tb)
         end.
Proof.
  intros Hm Hlb. unfold parseBgpMsgHdr.
  destruct (Z.ltb_spec (blen (marker ++ lb ++ tb :: rest)) kBgpMsgHeaderLen).
  { unfold kBgpMsgHeaderLen in *. len. }
  rewrite pull_app by done. cbn [rbind]. cbv zeta.
  destruct (bool_decide (kBgpMarker <> marker)); [done|].
  unfold readBE. rewrite pull_app by done. cbn [rbind].
  rewrite read_u8_cons. done.
Qed.

(** The only exception out of the header parser is [BgpHeaderException]. *)
Lemma parseBgpMsgHdr_result cur mt :
  (exists h, parseBgpMsgHdr cur mt = Ok h) \/
  (exists sc d, parseBgpMsgHdr cur mt = Throw (BgpHeaderException sc d)).
Proof.
  destruct (decide (19 <= length cur)%nat) as [Hl|Hl].
  - destruct (header_fields cur Hl) as (m & lb & tb & rest & -> & Hm & Hlb & _).
    rewrite parseBgpMsgHdr_fields by done. simpl.
    repeat case_match; eauto.
  - right. unfold parseBgpMsgHdr. destruct (Z.ltb_spec (blen cur) kBgpMsgHeaderLen); [eauto|].
    unfold kBgpMsgHeaderLen in *. lia.
Qed.

Lemma parseBgpMsgHdr_Ok_inv cur mt h : parseBgpMsgHdr cur mt = Ok h ->
  19 <= blen cur /\ kBgpMsgHeaderLen <= hdr_length h <= kMaxBgpMsgLen /\
  (forall t, mt = Some t -> hdr_type h = t).
Proof.
  intros Hp. destruct (decide (19 <= length cur)%nat) as [Hl|Hl].
  - split; [lia|].
    destruct (header_fields cur Hl) as (m & lb & tb & rest & -> & Hm & Hlb & _).
    rewrite parseBgpMsgHdr_fields in Hp by done. cbv zeta in Hp.
    case_bool_decide; [done|].
    destruct (Z.ltb_spec (be_decode lb) kBgpMsgHeaderLen); [done|].
    destruct (Z.ltb_spec kMaxBgpMsgLen (be_decode lb)); [done|]. simpl in Hp.
    destruct mt as [t|]; [|by simplify_eq/=].
    destruct (Z.eqb_spec tb t); simplify_eq/=. split; [done|]. by intros ? [= ->].
  - unfold parseBgpMsgHdr in Hp.
    destruct (Z.ltb_spec (blen cur) kBgpMsgHeaderLen); [done|].
    unfold kBgpMsgHeaderLen in *. lia.
Qed.

Lemma consumeBgpMsgHdr_result cur mt :
  (exists h cur', consumeBgpMsgHdr cur mt = Ok (h, cur')) \/
  (exists sc d, consumeBgpMsgHdr cur mt = Throw (BgpHeaderException sc d)).
Proof.
  unfold consumeBgpMsgHdr. destruct (parseBgpMsgHdr_result cur mt) as [(h & E)|(sc & d & E)];
    rewrite E; cbn [rbind]; [|eauto].
  apply parseBgpMsgHdr_Ok_inv in E as [Hl _]. rewrite cursor_skip_ok by (unfold kBgpMsgHeaderLen; lia).
  cbn [rbind]. case_match; eauto.
Qed.

Lemma consumeBgpMsgHdr_Ok_inv cur mt h cur' : consumeBgpMsgHdr cur mt = Ok (h, cur') ->
  kBgpMsgHeaderLen <= hdr_length h <= kMaxBgpMsgLen /\ hdr_length h <= blen cur /\
  blen cur' = blen cur - 19 /\ (forall t, mt = Some t -> hdr_type h = t).
Proof.
  unfold consumeBgpMsgHdr. intros Hc. apply rbind_Ok_inv in Hc as (h0 & E & Hc).
  apply parseBgpMsgHdr_Ok_inv in E as (Hl & Hb & Ht).
  rewrite cursor_skip_ok in Hc by (unfold kBgpMsgHeaderLen; lia). cbn [rbind] in Hc.
  destruct (Z.ltb_spec (blen cur) (hdr_length h0)); simplify_eq.
  split; [done|]. split; [done|]. split; [|done].
  rewrite length_drop. unfold kBgpMsgHeaderLen. lia.
Qed.

Lemma consumeBgpMsgHdr_suffix cur mt h cur' :
  consumeBgpMsgHdr cur mt = Ok (h, cur') -> wf_bytes cur -> wf_bytes cur'.
Proof.
  unfold consumeBgpMsgHdr. intros Hc Hwf. inv_reads. by apply Forall_drop.
Qed.

Lemma parse_message_bytes t body more mt :
  0 <= t < 256 -> kBgpMsgHeaderLen + blen body <= kMaxBgpMsgLen ->
  (mt = None \/ mt = Some t) ->
  parseBgpMsgHdr (message_bytes t body ++ more) mt =
    Ok (mkHeader (kBgpMsgHeaderLen + blen body) t).
Proof.
  intros Ht Hlen Hmt. unfold message_bytes, header_bytes.
  assert (E1 : be_encode 1 t = [t]).
  { rewrite <- (be_encode_decode [t]) by (repeat constructor; apply Ht). done. }
  rewrite E1, <- !app_assoc. cbn [app].
  rewrite parseBgpMsgHdr_fields by len. cbv zeta.
  rewrite be_decode_encode, Z.mod_small by (unfold kBgpMsgHeaderLen, kMaxBgpMsgLen in *; lia).
  rewrite bool_decide_eq_false_2 by (intros Hc; by apply Hc).
  destruct (Z.ltb_spec (kBgpMsgHeaderLen + blen body) kBgpMsgHeaderLen); [lia|].
  destruct (Z.ltb_spec kMaxBgpMsgLen (kBgpMsgHeaderLen + blen body)); [lia|].
  destruct Hmt as [-> | ->]; [done|]. by rewrite Z.eqb_refl.
Qed.

(** Consuming the header of a serialized message leaves exactly what follows it. *)
Lemma consume_message_bytes t body more mt :
  0 <= t < 256 -> kBgpMsgHeaderLen + blen body <= kMaxBgpMsgLen ->
  (mt = None \/ mt = Some t) ->
  consumeBgpMsgHdr (message_bytes t body ++ more) mt =
    Ok (mkHeader (kBgpMsgHeaderLen + blen body) t, body ++ more).
Proof.
  intros Ht Hlen Hmt. unfold consumeBgpMsgHdr. rewrite parse_message_bytes by done.
  cbn [rbind]. unfold message_bytes at 1. rewrite <- app_assoc, skip_app
    by apply length_header_bytes. cbn [rbind hdr_length].
  destruct (Z.ltb_spec (blen (message_bytes t body ++ more)) (kBgpMsgHeaderLen + blen body));
    [|done].
  rewrite length_app, length_message_bytes in *. unfold kBgpMsgHeaderLen in *. lia.
Qed.
End Header.
