(* ===== verification/ControlMsgs.v ===== *)
(** * NOTIFICATION, KEEPALIVE and ROUTE-REFRESH messages

    The parsers of lib/BgpMessageParser.cpp and the serializers of
    lib/BgpMessageSerializer.cpp for the messages other than OPEN and UPDATE. *)

From S2P Require Import Prelude BgpException Folly BgpStructs MsgHeader.

Section ControlMsgs.
Context `{F : FollyOps}.

(** ** NOTIFICATION *)

(** The [switch (code)] of [consumeBgpNotificationBody]: the error code and
    the name of the subcode, or an exception for a pair it does not know. *)
Definition checkNotifCodes (code subCode : Z) : res (BgpNotifErrCode * SubCodeStr) :=
  let bounded (c : BgpNotifErrCode) (last : Z) :=
    if last <? subCode then Throw BgpException
    else Ok (c, if 0 <? subCode then EnumNameSafe c subCode else NA) in
  if code =? 1 then bounded BN_MSG_HDR_ERR 3
  else if code =? 2 then bounded BN_OPEN_MSG_ERR 7
  else if code =? 3 then bounded BN_UPDATE_MSG_ERR 11
  else if code =? 6 then bounded BN_CEASE 9
  else if code =? 4 then Ok (BN_HOLD_TIMER_EXPIRED, NA)
  else if code =? 5 then Ok (BN_FSM_ERROR, NA)
  else if code =? 7 then
    if negb (subCode =? 0) then Throw BgpException
    else Ok (BN_ROUTE_REFRESH_MSG_ERR, EnumNameSafe BN_ROUTE_REFRESH_MSG_ERR subCode)
  else Throw BgpException.

Definition consumeBgpNotificationBody (cursor : bytes) : res BgpNotification :=
  let* '(code, cursor) := read_u8 cursor in
  let* '(subCode, cursor) := read_u8 cursor in
  let* '(errCode, str) := checkNotifCodes code subCode in
  let* '(data, _) := cursor_pull cursor (length cursor) in
  Ok (mkNotification errCode subCode str data).

Definition parseBgpNotificationRaw (buf : bytes) : res BgpNotification :=
  let* '(hdr, cursor) := consumeBgpMsgHdr buf (Some BGP_MSG_TYPE_NOTIFICATION) in
  if hdr_length hdr <? kBgpMsgHeaderLen + 2 then
    Throw (BgpHeaderException BN_MH_BAD_MSG_LEN (htons_data (hdr_length hdr)))
  else consumeBgpNotificationBody cursor.

(** [cap]: the size of the buffer under the cursor. *)
Definition serializeBgpNotificationBody (cap : Z) (notif : BgpNotification) (w : bytes)
    : res bytes :=
  let* w := write_u8 cap w (errCode_value (notif_errCode notif)) in
  let* w := write_u8 cap w (notif_errSubCode notif) in
  rw_push cap w (notif_data notif).

Definition serializeBgpNotification (notif : BgpNotification) : res bytes :=
  let* w := newMessageBuffer in
  let* w := serializeBgpNotificationBody kMaxBgpMsgLen notif w in
  finishMessage w BGP_MSG_TYPE_NOTIFICATION.

(** ** KEEPALIVE *)
Definition parseBgpKeepAliveRaw (buf : bytes) : res unit :=
  let* '(hdr, _) := consumeBgpMsgHdr buf (Some BGP_MSG_TYPE_KEEPALIVE) in
  if negb (hdr_length hdr =? kBgpMsgHeaderLen) then
    Throw (BgpHeaderException BN_MH_BAD_MSG_LEN (htons_data (hdr_length hdr)))
  else Ok tt.

Definition serializeBgpKeepAlive : res bytes :=
  let* w := newMessageBuffer in
  finishMessage w BGP_MSG_TYPE_KEEPALIVE.

(** ** ROUTE-REFRESH *)
Definition parseBgpRouteRefreshRaw (buf : bytes) : res BgpRouteRefresh :=
  let* '(hdr, cursor) := consumeBgpMsgHdr buf (Some BGP_MSG_TYPE_ROUTE_REFRESH) in
  let* '(afi, cursor) := readBE 2 cursor in
  let* '(msgSubType, cursor) := read_u8 cursor in
  let* '(safi, _) := read_u8 cursor in
  if negb (hdr_length hdr =? kBgpMsgHeaderLen + 4) && ((msgSubType =? 1) || (msgSubType =? 2))
  then Throw (BgpRouteRefreshMsgException BN_INVALID_MSG_LEN (htons_data (hdr_length hdr)))
  else Ok (mkRouteRefresh afi msgSubType safi).

Definition serializeBgpRouteRefreshBody (rr : BgpRouteRefresh) (w : bytes) : res bytes :=
  let* w := writeBE 2 kMaxBgpMsgLen w (rr_afi rr) in
  let* w := write_u8 kMaxBgpMsgLen w (rr_msgSubType rr) in
  write_u8 kMaxBgpMsgLen w (rr_safi rr).

Definition serializeBgpRouteRefresh (rr : BgpRouteRefresh) : res bytes :=
  let* w := newMessageBuffer in
  let* w := serializeBgpRouteRefreshBody rr w in
  finishMessage w BGP_MSG_TYPE_ROUTE_REFRESH.

(** ** Correctness *)
Context {L : FollyLaws F}.

(** Serializing a message: reserve the header, run the body writer, fill the
    header in.  It succeeds exactly when the message fits. *)
Lemma serialize_message wr bs t :
  writes kMaxBgpMsgLen wr bs ->
  (let* w := newMessageBuffer in let* w := wr w in finishMessage w t) =
    if kBgpMsgHeaderLen + blen bs <=? kMaxBgpMsgLen then Ok (message_bytes t bs)
    else Throw OutOfRange.
Proof.
  intros Hwr. destruct newMessageBuffer_Ok as (hole & Hh & ->). cbn [rbind].
  rewrite Hwr by (rewrite Hh; done). rewrite Hh.
  change (Z.of_nat 19) with kBgpMsgHeaderLen.
  destruct (Z.leb_spec (kBgpMsgHeaderLen + blen bs) kMaxBgpMsgLen); [|done].
  cbn [rbind]. by rewrite finishMessage_Ok.
Qed.

Definition notification_body (notif : BgpNotification) : bytes :=
  be_encode 1 (errCode_value (notif_errCode notif)) ++
  be_encode 1 (notif_errSubCode notif) ++ notif_data notif.

Lemma serializeBgpNotification_spec notif :
  serializeBgpNotification notif =
    if kBgpMsgHeaderLen + blen (notification_body notif) <=? kMaxBgpMsgLen
    then Ok (message_bytes BGP_MSG_TYPE_NOTIFICATION (notification_body notif))
    else Throw OutOfRange.
Proof. apply serialize_message. unfold serializeBgpNotificationBody, notification_body. solve_writes. Qed.

(** The codes and the subcode name agree with what the parser produces. *)
Definition valid_notification (notif : BgpNotification) : Prop :=
  checkNotifCodes (errCode_value (notif_errCode notif)) (notif_errSubCode notif) =
    Ok (notif_errCode notif, notif_errSubCodeStr notif) /\
  0 <= notif_errSubCode notif < 256.

Lemma errCode_value_byte c : 0 <= errCode_value c < 256.
Proof. destruct c; simpl; lia. Qed.

Lemma consumeBgpNotificationBody_body notif : valid_notification notif ->
  consumeBgpNotificationBody (notification_body notif) = Ok notif.
Proof.
  intros [Hc Hs]. unfold consumeBgpNotificationBody, notification_body.
  pose proof (errCode_value_byte (notif_errCode notif)).
  rewrite read_u8_encode, Z.mod_small by done. cbn [rbind].
  rewrite read_u8_encode, Z.mod_small by done. cbn [rbind]. rewrite Hc. cbn [rbind].
  rewrite cursor_pull_ok by lia. cbn [rbind]. rewrite take_ge by lia. by destruct notif.
Qed.

(** The codes the parser accepts are exactly those of the error code enum,
    and a rejected pair is always reported as a [BgpException]. *)
Lemma checkNotifCodes_result code sub :
  (exists c str, checkNotifCodes code sub = Ok (c, str) /\ errCode_value c = code) \/
  checkNotifCodes code sub = Throw BgpException.
Proof.
  unfold checkNotifCodes.
  repeat case_match; try (by right); left; eexists _, _; (split; [done|]); simpl; lia.
Qed.

Lemma consumeBgpNotificationBody_result cur : (2 <= length cur)%nat ->
  (exists n, consumeBgpNotificationBody cur = Ok n) \/
  consumeBgpNotificationBody cur = Throw BgpException.
Proof.
  intros Hl. destruct cur as [|c [|s cur]]; [simpl in Hl; lia|simpl in Hl; lia|].
  unfold consumeBgpNotificationBody. rewrite !read_u8_cons. cbn [rbind].
  rewrite read_u8_cons. cbn [rbind].
  destruct (checkNotifCodes_result c s) as [(ec & str & -> & _)| ->]; cbn [rbind]; [|by right].
  rewrite cursor_pull_ok by lia. cbn [rbind]. eauto.
Qed.

Lemma parseBgpNotificationRaw_result buf :
  (exists n, parseBgpNotificationRaw buf = Ok n) \/
  (exists sc d, parseBgpNotificationRaw buf = Throw (BgpHeaderException sc d)) \/
  parseBgpNotificationRaw buf = Throw BgpException.
Proof.
  unfold parseBgpNotificationRaw.
  destruct (consumeBgpMsgHdr_result buf (Some BGP_MSG_TYPE_NOTIFICATION))
    as [(h & cur & E)|(sc & d & E)]; rewrite E; cbn [rbind]; [|by eauto].
  apply consumeBgpMsgHdr_Ok_inv in E as (Hb & Hr & Hl & _).
  destruct (Z.ltb_spec (hdr_length h) (kBgpMsgHeaderLen + 2)); [by eauto|].
  destruct (consumeBgpNotificationBody_result cur) as [[n ->]| ->]; [|by eauto..].
  unfold kBgpMsgHeaderLen in *. lia.
Qed.

Lemma parseBgpKeepAliveRaw_result buf :
  parseBgpKeepAliveRaw buf = Ok tt \/
  (exists sc d, parseBgpKeepAliveRaw buf = Throw (BgpHeaderException sc d)).
Proof.
  unfold parseBgpKeepAliveRaw.
  destruct (consumeBgpMsgHdr_result buf (Some BGP_MSG_TYPE_KEEPALIVE))
    as [(h & cur & E)|(sc & d & E)]; rewrite E; cbn [rbind]; [case_match|]; eauto.
Qed.

(** ROUTE-REFRESH is the one parser whose reads are not guarded by a length
    check: a body shorter than four bytes makes the cursor throw. *)
Lemma parseBgpRouteRefreshRaw_result buf :
  (exists m, parseBgpRouteRefreshRaw buf = Ok m) \/
  (exists sc d, parseBgpRouteRefreshRaw buf = Throw (BgpHeaderException sc d)) \/
  (exists d, parseBgpRouteRefreshRaw buf =
               Throw (BgpRouteRefreshMsgException BN_INVALID_MSG_LEN d)) \/
  (blen buf < kBgpMsgHeaderLen + 4 /\ parseBgpRouteRefreshRaw buf = Throw OutOfRange).
Proof.
  unfold parseBgpRouteRefreshRaw.
  destruct (consumeBgpMsgHdr_result buf (Some BGP_MSG_TYPE_ROUTE_REFRESH))
    as [(h & cur & E)|(sc & d & E)]; rewrite E; cbn [rbind]; [|by eauto].
  apply consumeBgpMsgHdr_Ok_inv in E as (Hb & Hr & Hl & _).
  rewrite readBE_case. case_decide; cbn [rbind];
    [|right; right; right; split; [unfold kBgpMsgHeaderLen; lia|done]].
  rewrite read_u8_case. destruct (drop 2 cur) as [|st cur1] eqn:E1; cbn [rbind].
  { right; right; right; split; [|done]. apply (f_equal length) in E1.
    rewrite length_drop in E1. simpl in E1. unfold kBgpMsgHeaderLen. lia. }
  rewrite read_u8_case. destruct cur1 as [|sf cur2]; cbn [rbind].
  { right; right; right; split; [|done]. apply (f_equal length) in E1.
    rewrite length_drop in E1. simpl in E1. unfold kBgpMsgHeaderLen. lia. }
  case_match; eauto.
Qed.
End ControlMsgs.

(** A NOTIFICATION whose codes are valid and whose data fits in one message
    serializes to a message of 21 bytes plus the data, and the parser reads
    back exactly the notification: code, subcode, subcode name and data. *)
Theorem notification_roundtrip `{F : FollyOps} `{L : !FollyLaws F} notif :
  valid_notification notif -> blen (notif_data notif) <= 4075 ->
  exists buf, serializeBgpNotification notif = Ok buf /\
    blen buf = 21 + blen (notif_data notif) /\ parseBgpNotificationRaw buf = Ok notif.
Proof.
  intros Hv Hd. rewrite serializeBgpNotification_spec.
  assert (Hl : blen (notification_body notif) = 2 + blen (notif_data notif))
    by (unfold notification_body; len).
  destruct (Z.leb_spec (kBgpMsgHeaderLen + blen (notification_body notif)) kMaxBgpMsgLen);
    [|unfold kBgpMsgHeaderLen, kMaxBgpMsgLen in *; lia].
  eexists; split; [done|]. split; [rewrite length_message_bytes; lia|].
  unfold parseBgpNotificationRaw.
  rewrite <- (app_nil_r (message_bytes _ _)), consume_message_bytes
    by first [done | by right].
  cbn [rbind hdr_length]. rewrite app_nil_r.
  destruct (Z.ltb_spec (kBgpMsgHeaderLen + blen (notification_body notif)) (kBgpMsgHeaderLen + 2));
    [lia|]. by apply consumeBgpNotificationBody_body.
Qed.

Lemma notification_roundtrip_witness :
  exists buf, serializeBgpNotification
      (mkNotification BN_CEASE 4 (EnumNameSafe BN_CEASE 4) [1; 2]) = Ok buf /\
    blen buf = 21 + 2 /\
    parseBgpNotificationRaw buf = Ok (mkNotification BN_CEASE 4 (EnumNameSafe BN_CEASE 4) [1; 2]).
Proof. apply notification_roundtrip; vm_compute; done. Defined.

(** The KEEPALIVE message is the bare 19-byte header; the parser accepts it
    and rejects every header of type KEEPALIVE announcing another length with
    Bad Message Length. *)
Theorem keepalive_roundtrip `{F : FollyOps} `{L : !FollyLaws F} :
  serializeBgpKeepAlive = Ok (message_bytes BGP_MSG_TYPE_KEEPALIVE []) /\
  parseBgpKeepAliveRaw (message_bytes BGP_MSG_TYPE_KEEPALIVE []) = Ok tt /\
  forall body more, body <> [] -> blen body <= 4077 ->
    parseBgpKeepAliveRaw (message_bytes BGP_MSG_TYPE_KEEPALIVE body ++ more) =
      Throw (BgpHeaderException BN_MH_BAD_MSG_LEN (be_encode 2 (19 + blen body))).
Proof.
  split.
  { exact (serialize_message (fun w => Ok w) [] BGP_MSG_TYPE_KEEPALIVE (writes_ret _)). }
  assert (Hp : forall body more, blen body <= 4077 ->
    parseBgpKeepAliveRaw (message_bytes BGP_MSG_TYPE_KEEPALIVE body ++ more) =
      if negb (kBgpMsgHeaderLen + blen body =? kBgpMsgHeaderLen)
      then Throw (BgpHeaderException BN_MH_BAD_MSG_LEN (be_encode 2 (19 + blen body)))
      else Ok tt).
  { intros body more Hb. unfold parseBgpKeepAliveRaw. rewrite consume_message_bytes; [done|done| |by right].
    unfold kBgpMsgHeaderLen, kMaxBgpMsgLen. lia. }
  split; [rewrite <- (app_nil_r (message_bytes _ _)); by rewrite Hp|].
  intros body more Hne Hb. rewrite Hp by done.
  destruct (Z.eqb_spec (kBgpMsgHeaderLen + blen body) kBgpMsgHeaderLen); [|done].
  destruct body; [done|]. simpl in *; lia.
Qed.

Lemma keepalive_roundtrip_witness :
  parseBgpKeepAliveRaw (message_bytes BGP_MSG_TYPE_KEEPALIVE [7] ++ []) =
    Throw (BgpHeaderException BN_MH_BAD_MSG_LEN (be_encode 2 20)).
Proof. apply (keepalive_roundtrip (F := folly_model)); done. Defined.

(** A ROUTE-REFRESH message reads back as the AFI, subtype and SAFI it was
    built from, for every subtype. *)
Theorem route_refresh_roundtrip `{F : FollyOps} `{L : !FollyLaws F} rr :
  0 <= rr_afi rr < 2 ^ 16 -> 0 <= rr_msgSubType rr < 256 -> 0 <= rr_safi rr < 256 ->
  exists buf, serializeBgpRouteRefresh rr = Ok buf /\ blen buf = 23 /\
    parseBgpRouteRefreshRaw buf = Ok rr.
Proof.
  intros Ha Hs Hf.
  set (body := be_encode 2 (rr_afi rr) ++ be_encode 1 (rr_msgSubType rr) ++
               be_encode 1 (rr_safi rr)).
  assert (Hl : blen body = 4) by (subst body; len).
  assert (Hw : serializeBgpRouteRefresh rr = Ok (message_bytes BGP_MSG_TYPE_ROUTE_REFRESH body)).
  { unfold serializeBgpRouteRefresh. rewrite (serialize_message _ body); [by rewrite Hl|].
    unfold serializeBgpRouteRefreshBody. subst body. solve_writes. }
  eexists; split; [apply Hw|]. split; [rewrite length_message_bytes; lia|].
  unfold parseBgpRouteRefreshRaw.
  rewrite <- (app_nil_r (message_bytes _ _)), consume_message_bytes
    by first [rewrite Hl; done | done | by right]. cbn [rbind hdr_length].
  rewrite Hl, app_nil_r. subst body. rewrite <- (app_nil_r (be_encode 1 (rr_safi rr))).
  rewrite readBE_encode, Z.mod_small by done. cbn [rbind].
  rewrite read_u8_encode, Z.mod_small by done. cbn [rbind].
  rewrite read_u8_encode, Z.mod_small by done. cbn [rbind]. by destruct rr.
Qed.

Lemma route_refresh_roundtrip_witness :
  exists buf, serializeBgpRouteRefresh (mkRouteRefresh AFI_IPv6 1 SAFI_UNICAST) = Ok buf /\
    blen buf = 23 /\
    parseBgpRouteRefreshRaw buf = Ok (mkRouteRefresh AFI_IPv6 1 SAFI_UNICAST).
Proof. apply route_refresh_roundtrip; vm_compute; done. Defined.
