(* ===== verification/OpenMsg.v ===== *)
(** * OPEN messages

    [parseBgpOpenMsgRaw] (lib/BgpMessageParser.cpp), [parseBgpCapabilities]
    (lib/detail/BgpMessageParserUtils.cpp) and [serializeBgpOpenMsg]
    (lib/BgpMessageSerializer.cpp). *)

From S2P Require Import Prelude BgpException Folly BgpStructs MsgHeader ControlMsgs.

(** Field updates of [BgpCapabilities], as the parser makes them. *)
Definition set_mpExt (afi safi : Z) (c : BgpCapabilities) : BgpCapabilities :=
  let '(mkCapabilities v4 v6 v4lu v6lu a4 asn gr rs rt grc ls ex ap nh err rr gn) := c in
  mkCapabilities
    (if (afi =? AFI_IPv4) && (safi =? SAFI_UNICAST) then true else v4)
    (if (afi =? AFI_IPv6) && (safi =? SAFI_UNICAST) then true else v6)
    (if (afi =? AFI_IPv4) && (safi =? SAFI_LABELED_UNICAST) then true else v4lu)
    (if (afi =? AFI_IPv6) && (safi =? SAFI_LABELED_UNICAST) then true else v6lu)
    a4 asn gr rs rt grc ls true ap nh err rr gn.
Definition set_as4 (asn : Z) (c : BgpCapabilities) : BgpCapabilities :=
  let '(mkCapabilities v4 v6 v4lu v6lu _ _ gr rs rt grc ls ex ap nh err rr gn) := c in
  mkCapabilities v4 v6 v4lu v6lu true asn gr rs rt grc ls ex ap nh err rr gn.
Definition set_gr (restarting notif : bool) (time : Z) (grc : list BgpGrCapability)
    (c : BgpCapabilities) : BgpCapabilities :=
  let '(mkCapabilities v4 v6 v4lu v6lu a4 asn _ _ _ _ ls ex ap nh err rr _) := c in
  mkCapabilities v4 v6 v4lu v6lu a4 asn true restarting time grc ls ex ap nh err rr notif.
Definition set_addPath (ap : list BgpAddPathCapability) (c : BgpCapabilities) : BgpCapabilities :=
  let '(mkCapabilities v4 v6 v4lu v6lu a4 asn gr rs rt grc ls ex _ nh err rr gn) := c in
  mkCapabilities v4 v6 v4lu v6lu a4 asn gr rs rt grc ls ex ap nh err rr gn.
Definition set_extNH (nh : list BgpExtNHEncodingCapability) (c : BgpCapabilities)
    : BgpCapabilities :=
  let '(mkCapabilities v4 v6 v4lu v6lu a4 asn gr rs rt grc ls ex ap _ err rr gn) := c in
  mkCapabilities v4 v6 v4lu v6lu a4 asn gr rs rt grc ls ex ap nh err rr gn.
Definition set_routeRefresh (c : BgpCapabilities) : BgpCapabilities :=
  let '(mkCapabilities v4 v6 v4lu v6lu a4 asn gr rs rt grc ls ex ap nh err _ gn) := c in
  mkCapabilities v4 v6 v4lu v6lu a4 asn gr rs rt grc ls ex ap nh err true gn.
Definition set_enhancedRouteRefresh (c : BgpCapabilities) : BgpCapabilities :=
  let '(mkCapabilities v4 v6 v4lu v6lu a4 asn gr rs rt grc ls ex ap nh _ rr gn) := c in
  mkCapabilities v4 v6 v4lu v6lu a4 asn gr rs rt grc ls ex ap nh true rr gn.

Section OpenMsg.
Context `{F : FollyOps}.

Definition openUnspecific : Exn := BgpOpenMsgException BN_OM_UNSPECIFIC [].

(** ** Capabilities, one definition per [case] of the switch *)

Definition parseCapaMpExt (cLen : Z) (sub : bytes) (capa : BgpCapabilities)
    : res BgpCapabilities :=
  if negb (cLen =? 4) then Throw openUnspecific else
  let* '(afi, sub) := readBE 2 sub in
  let* sub := cursor_skip sub 1 in
  let* '(safi, _) := read_u8 sub in
  if ((afi =? AFI_IPv4) || (afi =? AFI_IPv6)) &&
     ((safi =? SAFI_UNICAST) || (safi =? SAFI_LABELED_UNICAST))
  then Ok (set_mpExt afi safi capa)
  else Throw openUnspecific.

Definition parseCapaAs4Byte (cLen : Z) (sub : bytes) (capa : BgpCapabilities)
    : res BgpCapabilities :=
  if negb (cLen =? 4) then Throw openUnspecific else
  let* '(asn, _) := readBE 4 sub in
  Ok (set_as4 asn capa).

Definition parseGrEntry (sub : bytes) (acc : list BgpGrCapability)
    : res (bytes * list BgpGrCapability) :=
  let* '(afi, sub) := readBE 2 sub in
  let* '(safi, sub) := read_u8 sub in
  if negb (named_afi afi) || negb (named_safi safi) then Throw openUnspecific else
  let* '(state, sub) := read_u8 sub in
  Ok (sub, acc ++ [mkGrCapa afi safi (negb (Z.shiftr state 7 =? 0))]).

Definition parseCapaGr (cLen : Z) (sub : bytes) (capa : BgpCapabilities)
    : res BgpCapabilities :=
  if cLen mod 4 <? 2 then Throw openUnspecific else
  let* '(value, sub) := readBE 2 sub in
  let* grc := while_readable parseGrEntry sub [] in
  Ok (set_gr (negb (Z.land value kGrRestartStateBit =? 0))
             (negb (Z.land value kGrNotificationBit =? 0))
             (Z.land value kGrRestartTimeMask) grc capa).

Definition parseAddPathEntry (sub : bytes) (acc : list BgpAddPathCapability)
    : res (bytes * list BgpAddPathCapability) :=
  let* '(afi, sub) := readBE 2 sub in
  let* '(safi, sub) := read_u8 sub in
  let* '(sor, sub) := read_u8 sub in
  if negb (named_sor sor) then Ok (sub, acc)
  else if negb (named_afi afi) || negb (named_safi safi) then Throw openUnspecific
  else Ok (sub, acc ++ [mkAddPath afi safi sor]).

Definition parseCapaAddPath (cLen : Z) (sub : bytes) (capa : BgpCapabilities)
    : res BgpCapabilities :=
  if negb (cLen mod 4 =? 0) then Throw openUnspecific else
  let* ap := while_readable parseAddPathEntry sub [] in
  Ok (set_addPath ap capa).

Definition parseExtNHEntry (sub : bytes) (acc : list BgpExtNHEncodingCapability)
    : res (bytes * list BgpExtNHEncodingCapability) :=
  let* '(nlriAfi, sub) := readBE 2 sub in
  let* '(nlriSafi, sub) := readBE 2 sub in
  let* '(nhAfi, sub) := readBE 2 sub in
  if negb (nlriAfi =? AFI_IPv4) then Ok (sub, acc)
  else if negb (named_safi nlriSafi) then Ok (sub, acc)
  else if negb (nhAfi =? AFI_IPv6) then Ok (sub, acc)
  else Ok (sub, acc ++ [mkExtNH nlriAfi nlriSafi nhAfi]).

Definition parseCapaExtNHEncoding (cLen : Z) (sub : bytes) (capa : BgpCapabilities)
    : res BgpCapabilities :=
  if negb (cLen mod 6 =? 0) then Throw openUnspecific else
  let* nh := while_readable parseExtNHEntry sub [] in
  Ok (set_extNH nh capa).

Definition parseCapaRouteRefresh (cLen : Z) (capa : BgpCapabilities) : res BgpCapabilities :=
  if negb (cLen =? 0) then Throw openUnspecific else Ok (set_routeRefresh capa).
Definition parseCapaEnhancedRouteRefresh (cLen : Z) (capa : BgpCapabilities)
    : res BgpCapabilities :=
  if negb (cLen =? 0) then Throw openUnspecific else Ok (set_enhancedRouteRefresh capa).

(** [switch (cCode)]; an unknown capability is logged and ignored. *)
Definition parseCapability (cCode cLen : Z) (sub : bytes) (capa : BgpCapabilities)
    : res BgpCapabilities :=
  if cCode =? CAPA_MP_EXT then parseCapaMpExt cLen sub capa
  else if cCode =? CAPA_AS4_BYTE then parseCapaAs4Byte cLen sub capa
  else if cCode =? CAPA_GR then parseCapaGr cLen sub capa
  else if cCode =? CAPA_ADD_PATH then parseCapaAddPath cLen sub capa
  else if cCode =? CAPA_EXT_NH_ENCODING then parseCapaExtNHEncoding cLen sub capa
  else if cCode =? CAPA_ROUTE_REFRESH then parseCapaRouteRefresh cLen capa
  else if cCode =? CAPA_ENHANCED_ROUTE_REFRESH then parseCapaEnhancedRouteRefresh cLen capa
  else Ok capa.

(** One iteration of the capability loop, with its try/catch. *)
Definition parseCapabilityTlv (cursor : bytes) (capa : BgpCapabilities)
    : res (bytes * BgpCapabilities) :=
  catch_out_of_range
    (let* '(cCode, cursor) := read_u8 cursor in
     let* '(cLen, cursor) := read_u8 cursor in
     if blen cursor <? cLen then Throw openUnspecific else
     let sub := wrap_buffer cursor (Z.to_nat cLen) in
     let* cursor := cursor_skip cursor (Z.to_nat cLen) in
     let* capa := parseCapability cCode cLen sub capa in
     Ok (cursor, capa))
    openUnspecific.

Definition parseBgpCapabilities (cursor : bytes) (capa : BgpCapabilities)
    : res BgpCapabilities :=
  while_readable parseCapabilityTlv cursor capa.

(** ** The OPEN message *)

(** One iteration of the optional parameter loop. *)
Definition parseOpenParam (paramCursor : bytes) (capa : BgpCapabilities)
    : res (bytes * BgpCapabilities) :=
  if blen paramCursor <? 2 then Throw openUnspecific else
  let* '(pType, paramCursor) := read_u8 paramCursor in
  let* '(pLen, paramCursor) := read_u8 paramCursor in
  if blen paramCursor <? pLen then Throw openUnspecific else
  let sub := wrap_buffer paramCursor (Z.to_nat pLen) in
  catch_out_of_range
    (let* paramCursor := cursor_skip paramCursor (Z.to_nat pLen) in
     if pType =? BO_PARAM_CAPABILITIES then
       let* capa := parseBgpCapabilities sub capa in
       Ok (paramCursor, capa)
     else Throw (BgpOpenMsgException BN_OM_UNSUPPORTED_OPTIONAL_PARAM [pType]))
    (BgpUpdateMsgException BN_UM_MALFORMED_ATTRIBUTE_LIST []).

Definition parseBgpOpenMsgRaw (buf : bytes) : res BgpOpenMsg :=
  let* '(hdr, cursor) := consumeBgpMsgHdr buf (Some BGP_MSG_TYPE_OPEN) in
  if hdr_length hdr <? kBgpMsgHeaderLen + 10 then
    Throw (BgpHeaderException BN_MH_BAD_MSG_LEN (htons_data (hdr_length hdr)))
  else
  let* '(v, cursor) := read_u8 cursor in
  let version := sint 8 v in
  if negb (version =? kBgpVersion) then
    Throw (BgpOpenMsgException BN_OM_UNSUPPORTED_VERSION_NUMBER [kBgpVersion])
  else
  let* '(asn, cursor) := readBE 2 cursor in
  let* '(holdTime, cursor) := readBE 2 cursor in
  if negb (holdTime =? 0) && (holdTime <? 3) then
    Throw (BgpOpenMsgException BN_OM_UNACCEPTABLE_HOLD_TIME [])
  else
  let* '(bgpID, cursor) := readBE 4 cursor in
  let* '(paramsLen, cursor) := read_u8 cursor in
  if blen cursor <? paramsLen then Throw openUnspecific else
  let paramCursor := wrap_buffer cursor (Z.to_nat paramsLen) in
  let* capa := while_readable parseOpenParam paramCursor defaultCapabilities in
  Ok (mkOpenMsg version asn holdTime bgpID capa).

(** ** Serialization *)

Abbreviation wu8 v := (fun w => write_u8 kMaxBgpMsgLen w v).
Abbreviation wbe n v := (fun w => writeBE n kMaxBgpMsgLen w v).

(** The AFI/SAFI pairs the multiprotocol capabilities announce. *)
Definition mpCaps (capa : BgpCapabilities) : list (Z * Z) :=
  (if mpExtV4Unicast capa then [(AFI_IPv4, SAFI_UNICAST)] else []) ++
  (if mpExtV6Unicast capa then [(AFI_IPv6, SAFI_UNICAST)] else []) ++
  (if mpExtV4LU capa then [(AFI_IPv4, SAFI_LABELED_UNICAST)] else []) ++
  (if mpExtV6LU capa then [(AFI_IPv6, SAFI_LABELED_UNICAST)] else []) ++
  (if mpExtLs capa then [(AFI_LS, SAFI_LS)] else []).

Definition writeMpCapa (c : Z * Z) (w : bytes) : res bytes :=
  let* w := wu8 CAPA_MP_EXT w in
  let* w := wu8 4 w in
  let* w := wbe 2 (fst c) w in
  let* w := wu8 0 w in
  wu8 (snd c) w.

Definition writeAs4 (capa : BgpCapabilities) (w : bytes) : res bytes :=
  let* w := wu8 CAPA_AS4_BYTE w in
  let* w := wu8 4 w in
  wbe 4 (capa_asn capa) w.

Definition grValue (capa : BgpCapabilities) : Z :=
  let v := Z.land (restartTime capa) kGrRestartTimeMask in
  let v := if isRestarting capa then Z.lor v kGrRestartStateBit else v in
  if grNotification capa then Z.lor v kGrNotificationBit else v.

Definition writeGrEntry (g : BgpGrCapability) (w : bytes) : res bytes :=
  let* w := wbe 2 (gr_afi g) w in
  let* w := wu8 (gr_safi g) w in
  wu8 (Z.shiftl (if gr_forwardingState g then 1 else 0) 7) w.

Definition writeGr (capa : BgpCapabilities) (w : bytes) : res bytes :=
  let* w := wu8 CAPA_GR w in
  let* w := wu8 (2 + 4 * Z.of_nat (length (grCapabilities capa))) w in
  let* w := wbe 2 (grValue capa) w in
  for_each writeGrEntry (grCapabilities capa) w.

Definition writeAddPathEntry (a : BgpAddPathCapability) (w : bytes) : res bytes :=
  let* w := wbe 2 (ap_afi a) w in
  let* w := wu8 (ap_safi a) w in
  wu8 (ap_sor a) w.

Definition writeAddPath (capa : BgpCapabilities) (w : bytes) : res bytes :=
  let* w := wu8 CAPA_ADD_PATH w in
  let* w := wu8 (4 * Z.of_nat (length (addPathCapabilities capa))) w in
  for_each writeAddPathEntry (addPathCapabilities capa) w.

Definition writeExtNHEntry (n : BgpExtNHEncodingCapability) (w : bytes) : res bytes :=
  let* w := wbe 2 (nh_nlriAfi n) w in
  let* w := wbe 2 (nh_nlriSafi n) w in
  wbe 2 (nh_nhAfi n) w.

Definition writeExtNH (capa : BgpCapabilities) (w : bytes) : res bytes :=
  let* w := wu8 CAPA_EXT_NH_ENCODING w in
  let* w := wu8 (6 * Z.of_nat (length (extNHEncodingCapabilities capa))) w in
  for_each writeExtNHEntry (extNHEncodingCapabilities capa) w.

Definition writeEmptyCapa (code : Z) (w : bytes) : res bytes :=
  let* w := wu8 code w in wu8 0 w.


Definition writeCapabilities (capa : BgpCapabilities) (w : bytes) : res bytes :=
  let* w := for_each writeMpCapa (mpCaps capa) w in
  let* w := if as4byte capa then writeAs4 capa w else Ok w in
  let* w := if gracefulRestart capa then writeGr capa w else Ok w in
  let* w := if nonempty (addPathCapabilities capa) then writeAddPath capa w else Ok w in
  let* w := if nonempty (extNHEncodingCapabilities capa) then writeExtNH capa w else Ok w in
  let* w := if routeRefresh capa then writeEmptyCapa CAPA_ROUTE_REFRESH w else Ok w in
  if enhancedRouteRefresh capa then writeEmptyCapa CAPA_ENHANCED_ROUTE_REFRESH w else Ok w.

Definition serializeBgpOpenBody (msg : BgpOpenMsg) (w : bytes) : res bytes :=
  let* w := wu8 (open_version msg) w in
  let* w := wbe 2 (open_asn msg) w in
  let* w := wbe 2 (open_holdTime msg) w in
  let* w := wbe 4 (open_bgpID msg) w in
  with_length kMaxBgpMsgLen 1
    (fun w => let* w := wu8 2 w in
              with_length kMaxBgpMsgLen 1 (writeCapabilities (open_capabilities msg)) w) w.

Definition serializeBgpOpenMsg (msg : BgpOpenMsg) : res bytes :=
  let* w := newMessageBuffer in
  let* w := serializeBgpOpenBody msg w in
  finishMessage w BGP_MSG_TYPE_OPEN.

(** ** Termination and exceptions of the parser *)
Context {L : FollyLaws F}.

Lemma parseGrEntry_consumes : consumes parseGrEntry.
Proof. unfold parseGrEntry. solve_consumes. Qed.
Lemma parseAddPathEntry_consumes : consumes parseAddPathEntry.
Proof. unfold parseAddPathEntry. solve_consumes. Qed.
Lemma parseExtNHEntry_consumes : consumes parseExtNHEntry.
Proof. unfold parseExtNHEntry. solve_consumes. Qed.
Lemma parseCapabilityTlv_consumes : consumes parseCapabilityTlv.
Proof. unfold parseCapabilityTlv. solve_consumes. Qed.
Lemma parseOpenParam_consumes : consumes parseOpenParam.
Proof. unfold parseOpenParam. solve_consumes. Qed.

Lemma parseCapability_total code cl sub capa : parseCapability code cl sub capa <> NoFuel.
Proof.
  unfold parseCapability, parseCapaMpExt, parseCapaAs4Byte, parseCapaGr, parseCapaAddPath,
    parseCapaExtNHEncoding, parseCapaRouteRefresh, parseCapaEnhancedRouteRefresh.
  solve_total; apply while_readable_total;
    auto using parseGrEntry_consumes, parseAddPathEntry_consumes, parseExtNHEntry_consumes;
    intros; unfold parseGrEntry, parseAddPathEntry, parseExtNHEntry; solve_total.
Qed.

Lemma parseBgpCapabilities_total cur capa : parseBgpCapabilities cur capa <> NoFuel.
Proof.
  apply while_readable_total; [apply parseCapabilityTlv_consumes|]. intros.
  unfold parseCapabilityTlv. solve_total. by apply parseCapability_total.
Qed.

Lemma parseOpenParam_total cur capa : parseOpenParam cur capa <> NoFuel.
Proof. unfold parseOpenParam. solve_total. by apply parseBgpCapabilities_total. Qed.

Lemma parseOpenParam_guarded cur capa : no_throw is_out_of_range (parseOpenParam cur capa).
Proof.
  unfold parseOpenParam. destruct cur as [|a [|b cur]]; [intros ? [=<-]; done..|].
  case_match; [by intros ? [= <-]|].
  rewrite !read_u8_cons. cbn [rbind]. rewrite read_u8_cons. cbn [rbind].
  case_match; [by intros ? [= <-]|]. by apply catch_out_of_range_no_throw.
Qed.

(** Every failure of [parseBgpOpenMsgRaw] is an exception that
    [parseBgpMessage] dispatches; none is a cursor overrun. *)
Lemma parseCapability_throws code cl sub capa :
  throws_in caught_or_oor (parseCapability code cl sub capa).
Proof.
  unfold parseCapability, parseCapaMpExt, parseCapaAs4Byte, parseCapaGr, parseCapaAddPath,
    parseCapaExtNHEncoding, parseCapaRouteRefresh, parseCapaEnhancedRouteRefresh, openUnspecific.
  solve_throws; apply while_readable_throws_in; intros;
    unfold parseGrEntry, parseAddPathEntry, parseExtNHEntry, openUnspecific; solve_throws.
Qed.

Lemma parseBgpCapabilities_throws cur capa :
  throws_in caught_or_oor (parseBgpCapabilities cur capa).
Proof.
  apply while_readable_throws_in. intros. unfold parseCapabilityTlv, openUnspecific.
  apply catch_out_of_range_caught; [done|]. solve_throws; apply parseCapability_throws.
Qed.

Lemma parseOpenParam_throws cur capa : throws_in caught_or_oor (parseOpenParam cur capa).
Proof.
  unfold parseOpenParam, openUnspecific. solve_throws;
    (apply catch_out_of_range_caught; [done|]); solve_throws; apply parseBgpCapabilities_throws.
Qed.

Lemma parseBgpOpenMsgRaw_throws buf : throws_in caught_or_oor (parseBgpOpenMsgRaw buf).
Proof.
  unfold parseBgpOpenMsgRaw, openUnspecific. apply throws_in_bind.
  - destruct (consumeBgpMsgHdr_result buf (Some BGP_MSG_TYPE_OPEN)) as [(h & c & ->)|(? & ? & ->)];
      [apply throws_in_Ok|by apply throws_in_Throw; right].
  - intros [h c] _. solve_throws.
    apply while_readable_throws_in. intros. apply parseOpenParam_throws.
Qed.

Lemma parseBgpOpenMsgRaw_safe buf :
  parseBgpOpenMsgRaw buf <> NoFuel /\ no_throw is_out_of_range (parseBgpOpenMsgRaw buf).
Proof.
  unfold parseBgpOpenMsgRaw.
  destruct (consumeBgpMsgHdr_result buf (Some BGP_MSG_TYPE_OPEN))
    as [(h & cur & E)|(sc & d & E)]; rewrite E; cbn [rbind]; [|split; [done|by intros ? [= <-]]].
  apply consumeBgpMsgHdr_Ok_inv in E as (Hb & Hr & Hl & _).
  destruct (Z.ltb_spec (hdr_length h) (kBgpMsgHeaderLen + 10)); [split; [done|by intros ? [= <-]]|].
  unfold kBgpMsgHeaderLen in *.
  rewrite read_u8_case. destruct cur as [|v cur]; [simpl in *; lia|]. cbn [rbind].
  simpl length in *. case_match; [split; [done|by intros ? [= <-]]|].
  rewrite readBE_case. case_decide; [|lia]. cbn [rbind].
  rewrite readBE_case. case_decide; [|len]. cbn [rbind].
  case_match; [split; [done|by intros ? [= <-]]|].
  rewrite readBE_case. case_decide; [|len]. cbn [rbind]. rewrite !drop_drop.
  rewrite read_u8_case. destruct (drop (2 + (2 + 4)) cur) as [|pl cur'] eqn:E1; cbn [rbind].
  { apply (f_equal length) in E1. rewrite length_drop in E1. simpl in E1. lia. }
  destruct (blen cur' <? pl); [split; [done|by intros ? [= <-]]|]. split.
  - apply rbind_not_NoFuel; [|done].
    apply while_readable_total; [apply parseOpenParam_consumes|apply parseOpenParam_total].
  - apply rbind_no_throw; [|by intros ? ? ? [=]].
    apply while_readable_no_throw. intros. apply parseOpenParam_guarded.
Qed.

(** ** Encoding of capabilities *)

Definition tlv (code : Z) (payload : bytes) : bytes :=
  be_encode 1 code ++ be_encode 1 (blen payload) ++ payload.
Definition mp_payload (c : Z * Z) : bytes :=
  be_encode 2 (fst c) ++ be_encode 1 0 ++ be_encode 1 (snd c).
Definition gr_entry (g : BgpGrCapability) : bytes :=
  be_encode 2 (gr_afi g) ++ be_encode 1 (gr_safi g) ++
  be_encode 1 (Z.shiftl (if gr_forwardingState g then 1 else 0) 7).
Definition gr_payload (capa : BgpCapabilities) : bytes :=
  be_encode 2 (grValue capa) ++ concat (map gr_entry (grCapabilities capa)).
Definition addPath_entry (a : BgpAddPathCapability) : bytes :=
  be_encode 2 (ap_afi a) ++ be_encode 1 (ap_safi a) ++ be_encode 1 (ap_sor a).
Definition extNH_entry (n : BgpExtNHEncodingCapability) : bytes :=
  be_encode 2 (nh_nlriAfi n) ++ be_encode 2 (nh_nlriSafi n) ++ be_encode 2 (nh_nhAfi n).

Definition capabilities_bytes (capa : BgpCapabilities) : bytes :=
  concat (map (fun c => tlv CAPA_MP_EXT (mp_payload c)) (mpCaps capa)) ++
  (if as4byte capa then tlv CAPA_AS4_BYTE (be_encode 4 (capa_asn capa)) else []) ++
  (if gracefulRestart capa then tlv CAPA_GR (gr_payload capa) else []) ++
  (if nonempty (addPathCapabilities capa)
   then tlv CAPA_ADD_PATH (concat (map addPath_entry (addPathCapabilities capa))) else []) ++
  (if nonempty (extNHEncodingCapabilities capa)
   then tlv CAPA_EXT_NH_ENCODING (concat (map extNH_entry (extNHEncodingCapabilities capa)))
   else []) ++
  (if routeRefresh capa then tlv CAPA_ROUTE_REFRESH [] else []) ++
  (if enhancedRouteRefresh capa then tlv CAPA_ENHANCED_ROUTE_REFRESH [] else []).

(** Entries of a fixed size. *)
Lemma length_gr_entry g : length (gr_entry g) = 4%nat.
Proof. unfold gr_entry. len. Qed.
Lemma length_addPath_entry a : length (addPath_entry a) = 4%nat.
Proof. unfold addPath_entry. len. Qed.
Lemma length_extNH_entry n : length (extNH_entry n) = 6%nat.
Proof. unfold extNH_entry. len. Qed.
Lemma blen_gr_payload capa :
  blen (gr_payload capa) = 2 + 4 * Z.of_nat (length (grCapabilities capa)).
Proof.
  unfold gr_payload. rewrite length_app, length_be_encode, Nat2Z.inj_add.
  rewrite (blen_concat_map _ 4) by apply length_gr_entry. lia.
Qed.

Lemma writes_tlv_parts wr code payload n :
  n = blen payload -> writes kMaxBgpMsgLen wr payload ->
  writes kMaxBgpMsgLen (fun w => let* w := wu8 code w in let* w := wu8 n w in wr w)
    (tlv code payload).
Proof. intros -> Hwr. unfold tlv. solve_writes. Qed.

Lemma writes_capabilities capa :
  writes kMaxBgpMsgLen (writeCapabilities capa) (capabilities_bytes capa).
Proof.
  unfold writeCapabilities, capabilities_bytes.
  apply writes_bind; [apply writes_for_each, Forall_forall; intros c _|].
  { apply writes_tlv_parts; [unfold mp_payload; len|]. unfold mp_payload. solve_writes. }
  apply writes_bind; [apply writes_if; intros _|].
  { apply writes_tlv_parts; [len|]. solve_writes. }
  apply writes_bind; [apply writes_if; intros _|].
  { apply writes_tlv_parts; [by rewrite blen_gr_payload|]. unfold gr_payload.
    apply writes_bind; [solve_writes|]. apply writes_for_each, Forall_forall. intros g _.
    unfold writeGrEntry, gr_entry. solve_writes. }
  apply writes_bind; [apply writes_if; intros _|].
  { apply writes_tlv_parts; [by rewrite (blen_concat_map _ 4) by apply length_addPath_entry|].
    apply writes_for_each, Forall_forall. intros a _.
    unfold writeAddPathEntry, addPath_entry. solve_writes. }
  apply writes_bind; [apply writes_if; intros _|].
  { apply writes_tlv_parts; [by rewrite (blen_concat_map _ 6) by apply length_extNH_entry|].
    apply writes_for_each, Forall_forall. intros n _.
    unfold writeExtNHEntry, extNH_entry. solve_writes. }
  apply writes_bind; apply writes_if; intros _; unfold writeEmptyCapa, tlv; solve_writes;
    rewrite app_nil_r; solve_writes.
Qed.

(** ** Reading capabilities back *)

Lemma parseCapabilityTlv_tlv code payload rest capa capa' :
  0 <= code < 256 -> blen payload < 256 ->
  parseCapability code (blen payload) payload capa = Ok capa' ->
  parseCapabilityTlv (tlv code payload ++ rest) capa = Ok (rest, capa').
Proof.
  intros Hc Hp Hcap. unfold parseCapabilityTlv, tlv. rewrite <- !app_assoc.
  rewrite read_u8_encode, Z.mod_small by done. cbn [rbind].
  rewrite read_u8_encode, Z.mod_small by lia. cbn [rbind].
  destruct (Z.ltb_spec (blen (payload ++ rest)) (blen payload)); [len|].
  rewrite Nat2Z.id, wrap_app, skip_app by done. cbn [rbind]. by rewrite Hcap.
Qed.


Lemma parseBgpCapabilities_tlv (b : bool) code payload rest capa f :
  (b = true -> 0 <= code < 256 /\ blen payload < 256 /\
     parseCapability code (blen payload) payload capa = Ok (f capa)) ->
  parseBgpCapabilities ((if b then tlv code payload else []) ++ rest) capa =
    parseBgpCapabilities rest (apply_if b f capa).
Proof.
  intros Ht. destruct b; [|done]. destruct Ht as (Hc & Hp & Hcap); [done|].
  unfold parseBgpCapabilities at 1.
  rewrite while_readable_step; [|apply parseCapabilityTlv_consumes|].
  - by rewrite (parseCapabilityTlv_tlv code payload rest capa (f capa)).
  - intros Hn. apply (f_equal length) in Hn. unfold tlv in Hn. len.
Qed.

(** What the peer must have put into its OPEN for the parser to give back
    the same structure: named AFI/SAFIs, values within their fields, and
    defaults where a capability is absent. *)
Definition wf_capabilities (c : BgpCapabilities) : Prop :=
  mpExtLs c = false /\
  mpExtExist c = mpExtV4Unicast c || mpExtV6Unicast c || mpExtV4LU c || mpExtV6LU c /\
  (if as4byte c then 0 <= capa_asn c < 2 ^ 32 else capa_asn c = 0) /\
  (if gracefulRestart c then 0 <= restartTime c <= kGrRestartTimeMask
   else isRestarting c = false /\ grNotification c = false /\ restartTime c = 0 /\
        grCapabilities c = []) /\
  Forall (fun g => named_afi (gr_afi g) = true /\ named_safi (gr_safi g) = true)
    (grCapabilities c) /\
  Forall (fun a => named_afi (ap_afi a) = true /\ named_safi (ap_safi a) = true /\
                   named_sor (ap_sor a) = true) (addPathCapabilities c) /\
  Forall (fun n => nh_nlriAfi n = AFI_IPv4 /\ named_safi (nh_nlriSafi n) = true /\
                   nh_nhAfi n = AFI_IPv6) (extNHEncodingCapabilities c).

Lemma named_afi_range v : named_afi v = true -> 0 <= v < 65536.
Proof. unfold named_afi, AFI_IPv4, AFI_IPv6, AFI_LS. lia. Qed.
Lemma named_safi_range v : named_safi v = true -> 0 <= v < 256.
Proof. unfold named_safi, SAFI_UNICAST, SAFI_LABELED_UNICAST, SAFI_LS. lia. Qed.
Lemma named_sor_range v : named_sor v = true -> 0 <= v < 256.
Proof. unfold named_sor, RECEIVE, SEND, BOTH. lia. Qed.


Lemma parse_gr_entries grc :
  Forall (fun g => named_afi (gr_afi g) = true /\ named_safi (gr_safi g) = true) grc ->
  while_readable parseGrEntry (concat (map gr_entry grc)) [] = Ok grc.
Proof.
  intros Hok. rewrite (while_readable_items _ gr_entry (fun a x => a ++ [x])
    (fun g => named_afi (gr_afi g) = true /\ named_safi (gr_safi g) = true));
    [by rewrite fold_left_snoc|apply parseGrEntry_consumes|..|done].
  - intros g _ Hn. apply (f_equal length) in Hn. by rewrite length_gr_entry in Hn.
  - intros [afi safi fs] rest acc [Ha Hs]. simpl in Ha, Hs.
    apply named_afi_range in Ha as Hra. apply named_safi_range in Hs as Hrs.
    unfold parseGrEntry, gr_entry. cbn [gr_afi gr_safi gr_forwardingState].
    rewrite <- !app_assoc, readBE_encode, Z.mod_small by done. cbn [rbind].
    rewrite read_u8_encode, Z.mod_small by done. cbn [rbind]. rewrite Ha, Hs. simpl.
    rewrite read_u8_encode. cbn [rbind]. by destruct fs.
Qed.

Lemma parse_addPath_entries aps :
  Forall (fun a => named_afi (ap_afi a) = true /\ named_safi (ap_safi a) = true /\
                   named_sor (ap_sor a) = true) aps ->
  while_readable parseAddPathEntry (concat (map addPath_entry aps)) [] = Ok aps.
Proof.
  intros Hok. rewrite (while_readable_items _ addPath_entry (fun a x => a ++ [x])
    (fun a => named_afi (ap_afi a) = true /\ named_safi (ap_safi a) = true /\
              named_sor (ap_sor a) = true));
    [by rewrite fold_left_snoc|apply parseAddPathEntry_consumes|..|done].
  - intros a _ Hn. apply (f_equal length) in Hn. by rewrite length_addPath_entry in Hn.
  - intros [afi safi sor] rest acc (Ha & Hs & Hr). simpl in Ha, Hs, Hr.
    apply named_afi_range in Ha as Hra. apply named_safi_range in Hs as Hrs.
    apply named_sor_range in Hr as Hrr.
    unfold parseAddPathEntry, addPath_entry. cbn [ap_afi ap_safi ap_sor].
    rewrite <- !app_assoc, readBE_encode, Z.mod_small by done. cbn [rbind].
    rewrite read_u8_encode, Z.mod_small by done. cbn [rbind].
    rewrite read_u8_encode, Z.mod_small by done. cbn [rbind]. by rewrite Ha, Hs, Hr.
Qed.

Lemma parse_extNH_entries nhs :
  Forall (fun n => nh_nlriAfi n = AFI_IPv4 /\ named_safi (nh_nlriSafi n) = true /\
                   nh_nhAfi n = AFI_IPv6) nhs ->
  while_readable parseExtNHEntry (concat (map extNH_entry nhs)) [] = Ok nhs.
Proof.
  intros Hok. rewrite (while_readable_items _ extNH_entry (fun a x => a ++ [x])
    (fun n => nh_nlriAfi n = AFI_IPv4 /\ named_safi (nh_nlriSafi n) = true /\
              nh_nhAfi n = AFI_IPv6));
    [by rewrite fold_left_snoc|apply parseExtNHEntry_consumes|..|done].
  - intros n _ Hn. apply (f_equal length) in Hn. by rewrite length_extNH_entry in Hn.
  - intros [afi safi nha] rest acc (Ha & Hs & Hn). simpl in Ha, Hs, Hn. subst afi nha.
    apply named_safi_range in Hs as Hrs.
    unfold parseExtNHEntry, extNH_entry. cbn [nh_nlriAfi nh_nlriSafi nh_nhAfi].
    rewrite <- !app_assoc, readBE_encode. cbn [rbind].
    rewrite readBE_encode, Z.mod_small by (change (256 ^ Z.of_nat 2) with 65536; lia).
    cbn [rbind]. rewrite readBE_encode. cbn [rbind]. by rewrite Hs.
Qed.

(** The flags of the graceful restart field are independent of the time:
    checked on each of the 4096 restart times. *)
Definition gr_value_of (t : Z) (rs gn : bool) : Z :=
  let v := Z.land t kGrRestartTimeMask in
  let v := if rs then Z.lor v kGrRestartStateBit else v in
  if gn then Z.lor v kGrNotificationBit else v.
Definition gr_fields_ok (t : Z) (rs gn : bool) : bool :=
  let v := gr_value_of t rs gn in
  (0 <=? v) && (v <? 65536) &&
  Bool.eqb (negb (Z.land v kGrRestartStateBit =? 0)) rs &&
  Bool.eqb (negb (Z.land v kGrNotificationBit =? 0)) gn &&
  (Z.land v kGrRestartTimeMask =? t).

Lemma gr_fields_all :
  forallb (fun t => gr_fields_ok t false false && gr_fields_ok t false true &&
                    gr_fields_ok t true false && gr_fields_ok t true true) (seqZ 0 4096) = true.
Proof. vm_compute. reflexivity. Qed.

Lemma grValue_fields capa : 0 <= restartTime capa <= kGrRestartTimeMask ->
  0 <= grValue capa < 65536 /\
  negb (Z.land (grValue capa) kGrRestartStateBit =? 0) = isRestarting capa /\
  negb (Z.land (grValue capa) kGrNotificationBit =? 0) = grNotification capa /\
  Z.land (grValue capa) kGrRestartTimeMask = restartTime capa.
Proof.
  intros Ht. change kGrRestartTimeMask with 4095 in Ht.
  assert (Hok : gr_fields_ok (restartTime capa) (isRestarting capa) (grNotification capa) = true).
  { pose proof gr_fields_all as Hall. rewrite forallb_forall in Hall.
    specialize (Hall (restartTime capa)). rewrite !andb_true_iff in Hall.
    destruct Hall as [[[H1 H2] H3] H4].
    - apply list_elem_of_In, elem_of_seqZ. lia.
    - destruct (isRestarting capa), (grNotification capa); done. }
  unfold gr_fields_ok in Hok. rewrite !andb_true_iff in Hok.
  change (gr_value_of (restartTime capa) (isRestarting capa) (grNotification capa))
    with (grValue capa) in Hok.
  destruct Hok as [[[[H1 H2] H3] H4] H5]. split; [lia|].
  split; [by apply eqb_prop|]. split; [by apply eqb_prop|]. lia.
Qed.

Lemma parse_gr_payload capa c : wf_capabilities capa -> gracefulRestart capa = true ->
  parseCapaGr (blen (gr_payload capa)) (gr_payload capa) c =
    Ok (set_gr (isRestarting capa) (grNotification capa) (restartTime capa)
          (grCapabilities capa) c).
Proof.
  intros (_ & _ & _ & Hgr & Hg & _) Hb. rewrite Hb in Hgr.
  destruct (grValue_fields capa Hgr) as (Hr & H1 & H2 & H3).
  unfold parseCapaGr. rewrite blen_gr_payload.
  rewrite (Z.mul_comm 4), Z.mod_add by lia. change (2 mod 4 <? 2) with false. cbv iota. unfold gr_payload.
  rewrite readBE_encode, Z.mod_small by done. cbn [rbind].
  rewrite parse_gr_entries by done. cbn [rbind]. by rewrite H1, H2, H3.
Qed.

Lemma parse_mp_flag (b : bool) afi safi rest c :
  (afi = AFI_IPv4 \/ afi = AFI_IPv6) -> (safi = SAFI_UNICAST \/ safi = SAFI_LABELED_UNICAST) ->
  parseBgpCapabilities
    (concat (map (fun c => tlv CAPA_MP_EXT (mp_payload c)) (if b then [(afi, safi)] else [])) ++
     rest) c =
  parseBgpCapabilities rest (apply_if b (set_mpExt afi safi) c).
Proof.
  intros Ha Hs. destruct b; [|done]. cbn [map concat]. rewrite app_nil_r.
  apply (parseBgpCapabilities_tlv true). intros _. split; [done|].
  split; [unfold mp_payload; len|]. unfold parseCapability. simpl (CAPA_MP_EXT =? CAPA_MP_EXT).
  replace (blen (mp_payload (afi, safi))) with 4 by (unfold mp_payload; len).
  unfold parseCapaMpExt, mp_payload. cbn [fst snd]. simpl (negb (4 =? 4)).
  rewrite readBE_encode. cbn [rbind]. rewrite skip_app by len. cbn [rbind].
  rewrite <- (app_nil_r (be_encode 1 safi)), read_u8_encode. cbn [rbind].
  by destruct Ha as [-> | ->], Hs as [-> | ->].
Qed.

Lemma parse_as4_flag capa rest c : wf_capabilities capa ->
  parseBgpCapabilities
    ((if as4byte capa then tlv CAPA_AS4_BYTE (be_encode 4 (capa_asn capa)) else []) ++ rest) c =
  parseBgpCapabilities rest (apply_if (as4byte capa) (set_as4 (capa_asn capa)) c).
Proof.
  intros (_ & _ & Has & _). apply parseBgpCapabilities_tlv. intros Hb. rewrite Hb in Has.
  split; [done|]. split; [len|]. unfold parseCapability. simpl (_ =? _).
  rewrite length_be_encode. unfold parseCapaAs4Byte. simpl (negb (_ =? _)).
  rewrite <- (app_nil_r (be_encode 4 _)), readBE_encode, Z.mod_small by done. done.
Qed.

Lemma parse_gr_flag capa rest c : wf_capabilities capa -> blen (gr_payload capa) < 256 ->
  parseBgpCapabilities
    ((if gracefulRestart capa then tlv CAPA_GR (gr_payload capa) else []) ++ rest) c =
  parseBgpCapabilities rest (apply_if (gracefulRestart capa)
    (set_gr (isRestarting capa) (grNotification capa) (restartTime capa) (grCapabilities capa)) c).
Proof.
  intros Hwf Hl. apply parseBgpCapabilities_tlv. intros Hb.
  split; [done|]. split; [done|]. by apply parse_gr_payload.
Qed.

Lemma parse_addPath_flag capa rest c (aps := addPathCapabilities capa) :
  wf_capabilities capa -> 4 * Z.of_nat (length aps) < 256 ->
  parseBgpCapabilities
    ((if nonempty aps then tlv CAPA_ADD_PATH (concat (map addPath_entry aps)) else []) ++ rest) c =
  parseBgpCapabilities rest (apply_if (nonempty aps) (set_addPath aps) c).
Proof.
  intros (_ & _ & _ & _ & _ & Hap & _) Hl. apply parseBgpCapabilities_tlv. intros _.
  rewrite (blen_concat_map _ 4) by apply length_addPath_entry.
  split; [done|]. split; [done|].
  unfold parseCapability, parseCapaAddPath. simpl (_ =? _).
  rewrite (Z.mul_comm (Z.of_nat 4)), Z.mod_mul by lia. cbn [Z.eqb negb].
  by rewrite parse_addPath_entries.
Qed.

Lemma parse_extNH_flag capa rest c (nhs := extNHEncodingCapabilities capa) :
  wf_capabilities capa -> 6 * Z.of_nat (length nhs) < 256 ->
  parseBgpCapabilities
    ((if nonempty nhs then tlv CAPA_EXT_NH_ENCODING (concat (map extNH_entry nhs)) else []) ++
     rest) c =
  parseBgpCapabilities rest (apply_if (nonempty nhs) (set_extNH nhs) c).
Proof.
  intros (_ & _ & _ & _ & _ & _ & Hnh) Hl. apply parseBgpCapabilities_tlv. intros _.
  rewrite (blen_concat_map _ 6) by apply length_extNH_entry.
  split; [done|]. split; [done|].
  unfold parseCapability, parseCapaExtNHEncoding. simpl (_ =? _).
  rewrite (Z.mul_comm (Z.of_nat 6)), Z.mod_mul by lia. cbn [Z.eqb negb].
  by rewrite parse_extNH_entries.
Qed.

Lemma capabilities_bytes_bounds capa : blen (capabilities_bytes capa) < 256 ->
  (gracefulRestart capa = true -> blen (gr_payload capa) < 256) /\
  4 * Z.of_nat (length (addPathCapabilities capa)) < 256 /\
  6 * Z.of_nat (length (extNHEncodingCapabilities capa)) < 256.
Proof.
  unfold capabilities_bytes. rewrite !length_app. intros Hl. split; [|split].
  - intros Hb. rewrite Hb in Hl. unfold tlv in Hl. len.
  - pose proof (blen_concat_map addPath_entry 4 (addPathCapabilities capa)
                  length_addPath_entry) as E.
    destruct (addPathCapabilities capa); [done|]. cbn [nonempty] in Hl.
    unfold tlv in Hl. rewrite !length_app in Hl. lia.
  - pose proof (blen_concat_map extNH_entry 6 (extNHEncodingCapabilities capa)
                  length_extNH_entry) as E.
    destruct (extNHEncodingCapabilities capa); [done|]. cbn [nonempty] in Hl.
    unfold tlv in Hl. rewrite !length_app in Hl. lia.
Qed.

(** Parsing the capabilities of [capa] into a fresh structure gives [capa]. *)
Lemma parse_capabilities_bytes capa :
  wf_capabilities capa -> blen (capabilities_bytes capa) < 256 ->
  parseBgpCapabilities (capabilities_bytes capa) defaultCapabilities = Ok capa.
Proof.
  intros Hwf Hlen. destruct (capabilities_bytes_bounds capa Hlen) as (Hlg & Hla & Hln).
  assert (Hgr' : forall rest c, parseBgpCapabilities
    ((if gracefulRestart capa then tlv CAPA_GR (gr_payload capa) else []) ++ rest) c =
    parseBgpCapabilities rest (apply_if (gracefulRestart capa) (set_gr (isRestarting capa)
      (grNotification capa) (restartTime capa) (grCapabilities capa)) c)).
  { intros. destruct (gracefulRestart capa) eqn:Hb; [|done].
    pose proof (parse_gr_flag capa rest c Hwf (Hlg eq_refl)) as E. by rewrite Hb in E. }
  pose proof Hwf as (Hls & Hex & Has & Hgr & _).
  unfold capabilities_bytes, mpCaps. rewrite Hls.
  rewrite !map_app, !concat_app, <- !app_assoc. cbn [map concat app].
  rewrite !parse_mp_flag by auto.
  rewrite parse_as4_flag, Hgr', parse_addPath_flag, parse_extNH_flag by done.
  rewrite (parseBgpCapabilities_tlv _ CAPA_ROUTE_REFRESH [] _ _ set_routeRefresh) by done.
  rewrite <- (app_nil_r (if enhancedRouteRefresh capa then _ else _)).
  rewrite (parseBgpCapabilities_tlv _ CAPA_ENHANCED_ROUTE_REFRESH [] _ _
             set_enhancedRouteRefresh) by done.
  unfold parseBgpCapabilities. rewrite while_readable_nil. f_equal. clear -Hls Hex Has Hgr.
  destruct capa as [v4 v6 v4l v6l a4 asn gr rs rt grc ls ex ap nh err rr gn]; simpl in *.
  subst ls ex. destruct a4, gr; destruct_and?; subst;
    destruct v4, v6, v4l, v6l, ap, nh, err, rr; done.
Qed.
End OpenMsg.

#[export] Hint Resolve writes_capabilities : writes.

(** The bytes of the OPEN body: the fixed part, then one optional parameter
    holding all capabilities. *)
Definition open_body (msg : BgpOpenMsg) : bytes :=
  let caps := capabilities_bytes (open_capabilities msg) in
  be_encode 1 (open_version msg) ++ be_encode 2 (open_asn msg) ++
  be_encode 2 (open_holdTime msg) ++ be_encode 4 (open_bgpID msg) ++
  be_encode 1 (blen (be_encode 1 2 ++ be_encode 1 (blen caps) ++ caps)) ++
  be_encode 1 2 ++ be_encode 1 (blen caps) ++ caps.

Definition wf_open (msg : BgpOpenMsg) : Prop :=
  open_version msg = 4 /\ 0 <= open_asn msg < 2 ^ 16 /\
  (open_holdTime msg = 0 \/ 3 <= open_holdTime msg < 2 ^ 16) /\
  0 <= open_bgpID msg < 2 ^ 32 /\ wf_capabilities (open_capabilities msg) /\
  blen (capabilities_bytes (open_capabilities msg)) <= 253.

Lemma serializeBgpOpenMsg_spec `{F : FollyOps} `{L : !FollyLaws F} msg :
  serializeBgpOpenMsg msg =
    if kBgpMsgHeaderLen + blen (open_body msg) <=? kMaxBgpMsgLen
    then Ok (message_bytes BGP_MSG_TYPE_OPEN (open_body msg)) else Throw OutOfRange.
Proof.
  apply serialize_message. unfold serializeBgpOpenBody, open_body.
  solve_writes.
Qed.

Lemma parseOpenParam_capabilities `{F : FollyOps} `{L : !FollyLaws F} capa :
  wf_capabilities capa -> blen (capabilities_bytes capa) <= 253 ->
  while_readable parseOpenParam
    (be_encode 1 2 ++ be_encode 1 (blen (capabilities_bytes capa)) ++ capabilities_bytes capa)
    defaultCapabilities = Ok capa.
Proof.
  intros Hwf Hl. set (caps := capabilities_bytes capa) in *.
  rewrite while_readable_step; [|apply parseOpenParam_consumes|].
  2: { intros Hn. apply (f_equal length) in Hn. rewrite !length_app, !length_be_encode in Hn.
       simpl in Hn. lia. }
  unfold parseOpenParam.
  destruct (Z.ltb_spec (blen (be_encode 1 2 ++ be_encode 1 (blen caps) ++ caps)) 2) as [Hlt|_].
  { rewrite !length_app, !length_be_encode in Hlt. lia. }
  rewrite read_u8_encode. cbn [rbind].
  rewrite read_u8_encode, (Z.mod_small (blen caps)) by lia. cbn [rbind].
  rewrite Z.ltb_irrefl, Nat2Z.id, wrap_buffer_ok, take_ge, cursor_skip_ok, drop_ge by lia.
  cbn [rbind]. change (2 mod 256 =? BO_PARAM_CAPABILITIES) with true. cbv iota.
  subst caps. rewrite parse_capabilities_bytes by (done || lia). done.
Qed.

(** C24. An OPEN message with well-formed fields and at most 253 bytes of
    capabilities serializes to one message, and parsing that message gives back
    the version, AS number, hold time, identifier and every capability
    (multiprotocol, 4-byte AS, graceful restart, add-path, extended next hop,
    route refresh). *)
Theorem open_roundtrip `{F : FollyOps} `{L : !FollyLaws F} msg :
  wf_open msg ->
  exists buf, serializeBgpOpenMsg msg = Ok buf /\ parseBgpOpenMsgRaw buf = Ok msg.
Proof.
  intros (Hv & Ha & Hh & Hid & Hwf & Hl). rewrite serializeBgpOpenMsg_spec.
  set (caps := capabilities_bytes (open_capabilities msg)) in *.
  assert (Hb : blen (open_body msg) = 12 + blen caps)
    by (unfold open_body; cbv zeta; fold caps; len).
  rewrite Hb. destruct (Z.leb_spec (kBgpMsgHeaderLen + (12 + blen caps)) kMaxBgpMsgLen);
    [|unfold kBgpMsgHeaderLen, kMaxBgpMsgLen in *; lia].
  eexists; split; [done|]. unfold parseBgpOpenMsgRaw.
  rewrite <- (app_nil_r (message_bytes _ _)), consume_message_bytes
    by first [by right | rewrite Hb; done | done].
  cbn [rbind hdr_length]. rewrite Hb, app_nil_r.
  destruct (Z.ltb_spec (kBgpMsgHeaderLen + (12 + blen caps)) (kBgpMsgHeaderLen + 10)); [lia|].
  unfold open_body. cbv zeta. fold caps. rewrite Hv.
  rewrite read_u8_encode. cbn [rbind]. change (negb (sint 8 (4 mod 256) =? kBgpVersion)) with false.
  cbv iota. rewrite readBE_encode, Z.mod_small by done. cbn [rbind].
  rewrite readBE_encode, Z.mod_small by (destruct Hh as [-> | Hh]; done || (cbn; lia)). cbn [rbind].
  destruct (negb (open_holdTime msg =? 0) && (open_holdTime msg <? 3)) eqn:Eh; [lia|].
  rewrite readBE_encode, Z.mod_small by done. cbn [rbind].
  rewrite read_u8_encode, Z.mod_small by len. cbn [rbind].
  rewrite Z.ltb_irrefl, Nat2Z.id, wrap_buffer_ok, take_ge by lia.
  unfold caps. rewrite parseOpenParam_capabilities by done. cbn [rbind]. f_equal.
  destruct msg; simpl in *; subst; done.
Qed.

Definition sample_open : BgpOpenMsg :=
  mkOpenMsg 4 65001 180 0x0a000001
    (mkCapabilities true true false false true 4200000001 true true 120
       [mkGrCapa AFI_IPv4 SAFI_UNICAST true; mkGrCapa AFI_IPv6 SAFI_UNICAST false]
       false true [mkAddPath AFI_IPv6 SAFI_UNICAST BOTH]
       [mkExtNH AFI_IPv4 SAFI_UNICAST AFI_IPv6] true true true).

Lemma open_roundtrip_witness :
  exists buf, serializeBgpOpenMsg sample_open = Ok buf /\ parseBgpOpenMsgRaw buf = Ok sample_open.
Proof.
  apply open_roundtrip. unfold wf_open, wf_capabilities, sample_open. simpl.
  repeat split; try lia; try (right; lia); try done; repeat constructor; done.
Defined.
