(* ===== verification/Capabilities.v ===== *)
(** * Capabilities of a session

    What the two ends of a session announce and what they may use together:
    [buildBgpCapabilities] (lib/fibers/FiberBgpPeer.cpp), the negotiation and the
    notification helpers of lib/BgpUtil.cpp.  Both ends run the negotiation with
    the arguments exchanged; the theorems show that they arrive at matching
    results. *)

From stdpp Require Import sorting.
From S2P Require Import Prelude BgpException Folly BgpStructs MsgHeader ControlMsgs OpenMsg.

(** ** What a peer announces *)

(** The fields of [PeeringParams] (config/ConfigStructs.h) the session reads;
    times are in seconds. *)
Record PeeringParams := mkPeeringParams {
  localAs : Z;
  remoteAs : Z;
  additionalRemoteAs : option Z;
  localBgpId : Z;
  holdTime : Z;
  grRestartTime : option Z;
  isAfiIpv4Configured : bool;
  isAfiIpv6Configured : bool;
  isAfiIpv4LUConfigured : bool;
  isAfiIpv6LUConfigured : bool;
  v4OverV6Nexthop : bool;
  addPath : option Z;
  isEnhancedRouteRefreshConfigured : bool;
  isRouteRefreshConfigured : bool;
  validateRemoteAs : bool
}.

Definition acceptsRemoteAs (p : PeeringParams) (asn : Z) : bool :=
  (remoteAs p =? asn) || bool_decide (additionalRemoteAs p = Some asn).

Definition buildBgpCapabilities (asn : Z) (isRestarting : bool) (restartTime : option Z)
    (mpExtV4Unicast mpExtV6Unicast v4OverV6Nexthop : bool) (addPath : option Z)
    (mpExtV4LU mpExtV6LU enhancedRouteRefresh routeRefresh grNotification : bool)
    : BgpCapabilities :=
  let gr := bool_decide (is_Some restartTime) in
  {| mpExtV4Unicast := mpExtV4Unicast;
     mpExtV6Unicast := mpExtV6Unicast;
     mpExtV4LU := mpExtV4LU;
     mpExtV6LU := mpExtV6LU;
     as4byte := true;
     capa_asn := asn;
     gracefulRestart := gr;
     isRestarting := gr && isRestarting;
     restartTime := default 0 restartTime;
     grCapabilities :=
       if gr then [mkGrCapa AFI_IPv4 SAFI_UNICAST true; mkGrCapa AFI_IPv6 SAFI_UNICAST true]
       else [];
     mpExtLs := false;
     mpExtExist := false;
     addPathCapabilities :=
       match addPath with
       | Some sor => [mkAddPath AFI_IPv4 SAFI_UNICAST sor; mkAddPath AFI_IPv6 SAFI_UNICAST sor]
       | None => []
       end;
     extNHEncodingCapabilities :=
       if v4OverV6Nexthop then
         (if mpExtV4Unicast then [mkExtNH AFI_IPv4 SAFI_UNICAST AFI_IPv6] else []) ++
         (if mpExtV4Unicast && mpExtV4LU
          then [mkExtNH AFI_IPv4 SAFI_LABELED_UNICAST AFI_IPv6] else [])
       else [];
     enhancedRouteRefresh := enhancedRouteRefresh;
     routeRefresh := routeRefresh;
     grNotification := gr && grNotification |}.

(** ** Extended next hop encoding *)

#[global] Instance ExtNH_eq_dec : EqDecision BgpExtNHEncodingCapability.
Proof. solve_decision. Defined.
#[global] Instance AddPathCapability_eq_dec : EqDecision BgpAddPathCapability.
Proof. solve_decision. Defined.

(** The [operator<] thrift generates: field by field. *)
Definition extNH_ltb (a b : BgpExtNHEncodingCapability) : bool :=
  if nh_nlriAfi a =? nh_nlriAfi b then
    if nh_nlriSafi a =? nh_nlriSafi b then nh_nhAfi a <? nh_nhAfi b
    else nh_nlriSafi a <? nh_nlriSafi b
  else nh_nlriAfi a <? nh_nlriAfi b.

Definition extNH_le (a b : BgpExtNHEncodingCapability) : Prop := extNH_ltb b a = false.
#[global] Instance extNH_le_dec : RelDecision extNH_le.
Proof. intros a b. unfold extNH_le. apply _. Defined.

(** [std::set_intersection] *)
Fixpoint set_intersection (l1 : list BgpExtNHEncodingCapability)
    : list BgpExtNHEncodingCapability -> list BgpExtNHEncodingCapability :=
  match l1 with
  | [] => fun _ => []
  | x :: l1' =>
      fix go l2 :=
        match l2 with
        | [] => []
        | y :: l2' =>
            if extNH_ltb x y then set_intersection l1' l2
            else if extNH_ltb y x then go l2'
            else x :: set_intersection l1' l2'
        end
  end.

(** [std::sort] on copies, then the intersection of the two. *)
Definition negotiateExtNHEncodingCapabilities (myC peerC : list BgpExtNHEncodingCapability)
    : list BgpExtNHEncodingCapability :=
  set_intersection (merge_sort extNH_le myC) (merge_sort extNH_le peerC).

(** ** Add-path *)

(** The [switch] on what the peer can do; the value is what we may do. *)
Definition negotiateSor (mine peer : Z) : option Z :=
  if peer =? BOTH then Some mine
  else if peer =? SEND then
    if (mine =? RECEIVE) || (mine =? BOTH) then Some RECEIVE else None
  else if peer =? RECEIVE then
    if (mine =? SEND) || (mine =? BOTH) then Some SEND else None
  else None.

(** The inner loop stops at the first entry of the family. *)
Fixpoint findFamily (afi safi : Z) (peerCapas : list BgpAddPathCapability)
    : option BgpAddPathCapability :=
  match peerCapas with
  | [] => None
  | c :: rest =>
      if (afi =? ap_afi c) && (safi =? ap_safi c) then Some c else findFamily afi safi rest
  end.

Definition negotiateOneAddPath (peerCapas : list BgpAddPathCapability)
    (myCapa : BgpAddPathCapability) : list BgpAddPathCapability :=
  match findFamily (ap_afi myCapa) (ap_safi myCapa) peerCapas with
  | Some peerCapa =>
      match negotiateSor (ap_sor myCapa) (ap_sor peerCapa) with
      | Some sor => [mkAddPath (ap_afi myCapa) (ap_safi myCapa) sor]
      | None => []
      end
  | None => []
  end.

Definition negotiateBgpAddPathCapabilities (myCapas peerCapas : list BgpAddPathCapability)
    : list BgpAddPathCapability :=
  concat (map (negotiateOneAddPath peerCapas) myCapas).

(** ** Negotiation *)

Definition negotiateCapabilities (myCapa peerCapa : BgpCapabilities) : BgpCapabilities :=
  {| mpExtV4Unicast :=
       mpExtV4Unicast myCapa && (mpExtV4Unicast peerCapa || negb (mpExtExist peerCapa));
     mpExtV6Unicast := mpExtV6Unicast myCapa && mpExtV6Unicast peerCapa;
     mpExtV4LU := mpExtV4LU myCapa && mpExtV4LU peerCapa;
     mpExtV6LU := mpExtV6LU myCapa && mpExtV6LU peerCapa;
     as4byte := as4byte myCapa && as4byte peerCapa;
     capa_asn := capa_asn myCapa;
     gracefulRestart := gracefulRestart myCapa && gracefulRestart peerCapa;
     isRestarting := isRestarting peerCapa;
     restartTime := restartTime myCapa;
     grCapabilities := grCapabilities myCapa;
     mpExtLs := mpExtLs myCapa && mpExtLs peerCapa;
     mpExtExist := mpExtExist myCapa;
     addPathCapabilities :=
       negotiateBgpAddPathCapabilities (addPathCapabilities myCapa)
         (addPathCapabilities peerCapa);
     extNHEncodingCapabilities :=
       negotiateExtNHEncodingCapabilities (extNHEncodingCapabilities myCapa)
         (extNHEncodingCapabilities peerCapa);
     enhancedRouteRefresh := enhancedRouteRefresh myCapa && enhancedRouteRefresh peerCapa;
     routeRefresh := routeRefresh myCapa && routeRefresh peerCapa;
     grNotification := grNotification myCapa && grNotification peerCapa |}.

Definition isGrNotificationNegotiated (negotiatedCapa : BgpCapabilities) : bool :=
  gracefulRestart negotiatedCapa && grNotification negotiatedCapa.

(** ** Notifications *)

Definition BN_CEASE_CONN_COLLISION_RES : Z := 7.
Definition BN_CEASE_HARD_RESET : Z := 9.
Definition kMinBgpNotificationBodyLen : Z := 2.

Definition buildBgpNotification (errCode : BgpNotifErrCode) (errSubCode : Z)
    (errSubCodeStr : SubCodeStr) (data : bytes) : BgpNotification :=
  mkNotification errCode errSubCode errSubCodeStr data.

Definition isBgpHardResetNotification (notif : BgpNotification) : bool :=
  (errCode_value (notif_errCode notif) =? errCode_value BN_CEASE) &&
  (notif_errSubCode notif =? BN_CEASE_HARD_RESET).

Section Notifications.
Context `{F : FollyOps}.

(** The nested notification is written into a buffer of its own size. *)
Definition buildBgpHardResetNotification (nested : BgpNotification) : res BgpNotification :=
  let len := kMinBgpNotificationBodyLen + blen (notif_data nested) in
  let* data := serializeBgpNotificationBody len nested [] in
  Ok (buildBgpNotification BN_CEASE BN_CEASE_HARD_RESET
        (EnumNameSafe BN_CEASE BN_CEASE_HARD_RESET) data).

Definition decodeBgpHardResetNotification (data : bytes) : res BgpNotification :=
  if blen data <? kMinBgpNotificationBodyLen then Throw BgpException
  else consumeBgpNotificationBody data.
End Notifications.

(** ** The two ends agree *)

(** What the peer knows of capabilities [c] after our OPEN: the parser sets
    [mpExtExist] when it meets a multiprotocol capability. *)
Definition announced (c : BgpCapabilities) : BgpCapabilities :=
  let '(mkCapabilities v4 v6 v4lu v6lu a4 asn gr rs rt grc ls _ ap nh err rr gn) := c in
  mkCapabilities v4 v6 v4lu v6lu a4 asn gr rs rt grc ls (bool_decide (mpCaps c <> [])) ap nh
    err rr gn.

Lemma extNH_ltb_antisym a b : extNH_ltb a b = false -> extNH_ltb b a = false -> a = b.
Proof.
  destruct a, b; unfold extNH_ltb; simpl. rewrite (Z.eqb_sym nh_nlriAfi0), (Z.eqb_sym nh_nlriSafi0).
  repeat case_match; intros; f_equal; lia.
Qed.

Lemma set_intersection_comm l1 l2 : set_intersection l1 l2 = set_intersection l2 l1.
Proof.
  revert l2. induction l1 as [|x l1 IH1]; [by destruct l2|].
  induction l2 as [|y l2 IH2]; [done|]. simpl.
  destruct (extNH_ltb x y) eqn:Exy, (extNH_ltb y x) eqn:Eyx.
  - exfalso. revert Exy Eyx. unfold extNH_ltb.
    rewrite (Z.eqb_sym (nh_nlriAfi y)), (Z.eqb_sym (nh_nlriSafi y)). repeat case_match; lia.
  - rewrite IH1. done.
  - apply IH2.
  - by rewrite (extNH_ltb_antisym x y), IH1.
Qed.

Lemma negotiateExtNH_comm a b :
  negotiateExtNHEncodingCapabilities a b = negotiateExtNHEncodingCapabilities b a.
Proof. apply set_intersection_comm. Qed.

Definition family (c : BgpAddPathCapability) : Z * Z := (ap_afi c, ap_safi c).

Lemma findFamily_Some afi safi l c :
  findFamily afi safi l = Some c -> c ∈ l /\ family c = (afi, safi).
Proof.
  induction l as [|d l IH]; simpl; [done|]. case_match eqn:E; intros Hf.
  - simplify_eq. unfold family. split; [left|f_equal; lia].
  - destruct (IH Hf). split; [by right|done].
Qed.

Lemma findFamily_elem l c : NoDup (map family l) -> c ∈ l ->
  findFamily (ap_afi c) (ap_safi c) l = Some c.
Proof.
  induction l as [|d l IH]; simpl; intros Hnd Hin; [by apply elem_of_nil in Hin|].
  apply NoDup_cons in Hnd as [Hd Hnd]. apply elem_of_cons in Hin as [->|Hin].
  - by rewrite !Z.eqb_refl.
  - case_match eqn:E; [|by apply IH]. exfalso. apply Hd. apply list_elem_of_fmap.
    exists c. split; [|done]. unfold family. f_equal; lia.
Qed.

(** An entry is negotiated when both ends list its family and the directions fit. *)
Lemma negotiated_addPath_iff mine peer c : NoDup (map family mine) ->
  c ∈ negotiateBgpAddPathCapabilities mine peer <->
  exists m p, findFamily (ap_afi c) (ap_safi c) mine = Some m /\
    findFamily (ap_afi c) (ap_safi c) peer = Some p /\
    negotiateSor (ap_sor m) (ap_sor p) = Some (ap_sor c).
Proof.
  intros Hnd. unfold negotiateBgpAddPathCapabilities. rewrite list_elem_of_In, in_concat.
  split.
  - intros (x & (m & <- & Hm)%in_map_iff & Hc). unfold negotiateOneAddPath in Hc.
    destruct (findFamily _ _ peer) as [p|] eqn:Ep; [|done].
    destruct (negotiateSor _ _) eqn:En; [|done]. destruct Hc as [<-|[]]. simpl.
    exists m, p. rewrite findFamily_elem by (done || by apply list_elem_of_In). done.
  - intros (m & p & Hm & Hp & Hs). apply findFamily_Some in Hm as [Hin [= Ha Hb]].
    exists (negotiateOneAddPath peer m). rewrite in_map_iff. split.
    + exists m. by rewrite <- list_elem_of_In.
    + unfold negotiateOneAddPath. rewrite Ha, Hb, Hp, Hs. left. by destruct c.
Qed.

(** The direction the other end sees: what one sends the other receives. *)
Definition mirrorSor (s : Z) : Z :=
  if s =? SEND then RECEIVE else if s =? RECEIVE then SEND else s.

Lemma negotiateSor_mirror m p s : named_sor m = true -> named_sor p = true ->
  negotiateSor m p = Some s -> negotiateSor p m = Some (mirrorSor s).
Proof.
  unfold named_sor, negotiateSor, mirrorSor, SEND, RECEIVE, BOTH. intros Hm Hp.
  repeat case_match; intros; simplify_eq; f_equal; lia.
Qed.

(** Every direction in the list is one of the enum, as the OPEN parser ensures,
    and no family is listed twice. *)
Definition wf_addPath (l : list BgpAddPathCapability) : Prop :=
  NoDup (map family l) /\ Forall (fun c => named_sor (ap_sor c) = true) l.

Lemma negotiated_addPath_mirror a b afi safi s : wf_addPath a -> wf_addPath b ->
  mkAddPath afi safi s ∈ negotiateBgpAddPathCapabilities a b ->
  mkAddPath afi safi (mirrorSor s) ∈ negotiateBgpAddPathCapabilities b a.
Proof.
  intros [Ha Hsa] [Hb Hsb]. rewrite !negotiated_addPath_iff by done. simpl.
  intros (m & p & Hm & Hp & Hn). exists p, m. split_and!; [done..|].
  rewrite Forall_forall in Hsa, Hsb.
  apply negotiateSor_mirror; [apply Hsa|apply Hsb|done]; by eapply findFamily_Some.
Qed.

Lemma mirrorSor_involutive s : named_sor s = true -> mirrorSor (mirrorSor s) = s.
Proof. unfold named_sor, mirrorSor, SEND, RECEIVE, BOTH. repeat case_match; lia. Qed.

Lemma mpCaps_negotiated a b :
  mpCaps (negotiateCapabilities a b) =
  (if mpExtV4Unicast a && (mpExtV4Unicast b || negb (mpExtExist b))
   then [(AFI_IPv4, SAFI_UNICAST)] else []) ++
  (if mpExtV6Unicast a && mpExtV6Unicast b then [(AFI_IPv6, SAFI_UNICAST)] else []) ++
  (if mpExtV4LU a && mpExtV4LU b then [(AFI_IPv4, SAFI_LABELED_UNICAST)] else []) ++
  (if mpExtV6LU a && mpExtV6LU b then [(AFI_IPv6, SAFI_LABELED_UNICAST)] else []) ++
  (if mpExtLs a && mpExtLs b then [(AFI_LS, SAFI_LS)] else []).
Proof. done. Qed.

Lemma announced_exist a : mpCaps a <> [] -> mpExtExist (announced a) = true.
Proof. destruct a. simpl. apply bool_decide_eq_true_2. Qed.

Lemma negotiated_families a b : mpCaps a <> [] -> mpCaps b <> [] ->
  mpCaps (negotiateCapabilities a (announced b)) = mpCaps (negotiateCapabilities b (announced a)).
Proof.
  intros Ha%announced_exist Hb%announced_exist. rewrite !mpCaps_negotiated, Ha, Hb.
  rewrite !orb_false_r. destruct a, b. simpl.
  by rewrite andb_comm, (andb_comm mpExtV6Unicast0), (andb_comm mpExtV4LU0),
    (andb_comm mpExtV6LU0), (andb_comm mpExtLs0).
Qed.

(** C33. The two ends of a session, each negotiating its own capabilities with
    the ones the other announced, agree: on every address family (when both
    announce one at all), on 4-byte AS numbers, graceful restart and its N bit,
    both kinds of route refresh and the list of extended next hop encodings;
    and one end may send several paths of a family exactly if the other end is
    ready to receive them. *)
Theorem negotiation_agrees a b :
  mpCaps a <> [] -> mpCaps b <> [] ->
  wf_addPath (addPathCapabilities a) -> wf_addPath (addPathCapabilities b) ->
  let na := negotiateCapabilities a (announced b) in
  let nb := negotiateCapabilities b (announced a) in
  mpCaps na = mpCaps nb /\ as4byte na = as4byte nb /\
  gracefulRestart na = gracefulRestart nb /\ grNotification na = grNotification nb /\
  routeRefresh na = routeRefresh nb /\ enhancedRouteRefresh na = enhancedRouteRefresh nb /\
  extNHEncodingCapabilities na = extNHEncodingCapabilities nb /\
  forall afi safi s, named_sor s = true ->
    mkAddPath afi safi s ∈ addPathCapabilities na <->
    mkAddPath afi safi (mirrorSor s) ∈ addPathCapabilities nb.
Proof.
  intros Ha Hb Hwa Hwb na nb.
  assert (E : addPathCapabilities (announced b) = addPathCapabilities b /\
              addPathCapabilities (announced a) = addPathCapabilities a)
    by (by destruct a, b).
  assert (Hadd : forall afi safi s, named_sor s = true ->
    mkAddPath afi safi s ∈ addPathCapabilities na <->
    mkAddPath afi safi (mirrorSor s) ∈ addPathCapabilities nb).
  { subst na nb. simpl. destruct E as [-> ->]. intros afi safi s Hs.
    split; intros H%negotiated_addPath_mirror; try done. by rewrite mirrorSor_involutive in H. }
  split_and!; [..|exact Hadd]; [by apply negotiated_families|..];
    subst na nb; cbn [as4byte gracefulRestart grNotification routeRefresh
      enhancedRouteRefresh extNHEncodingCapabilities negotiateCapabilities];
    [destruct a, b; apply andb_comm..|]. 
  rewrite negotiateExtNH_comm. by destruct a, b.
Qed.

Lemma negotiation_agrees_witness :
  let a := buildBgpCapabilities 65000 false (Some 120) true true true (Some BOTH) false false
             true true true in
  let b := buildBgpCapabilities 65001 false (Some 60) true false true (Some SEND) false false
             false true true in
  let na := negotiateCapabilities a (announced b) in
  let nb := negotiateCapabilities b (announced a) in
  addPathCapabilities na =
    [mkAddPath AFI_IPv4 SAFI_UNICAST RECEIVE; mkAddPath AFI_IPv6 SAFI_UNICAST RECEIVE] /\
  extNHEncodingCapabilities na = [mkExtNH AFI_IPv4 SAFI_UNICAST AFI_IPv6] /\
  mpCaps na = [(AFI_IPv4, SAFI_UNICAST)] /\ mpCaps na = mpCaps nb.
Proof.
  intros a b na nb. split_and!; [vm_compute; reflexivity..|].
  assert (Hw : forall s, named_sor s = true ->
    wf_addPath [mkAddPath AFI_IPv4 SAFI_UNICAST s; mkAddPath AFI_IPv6 SAFI_UNICAST s]).
  { intros s Hs. split; [|by repeat constructor].
    apply (bool_decide_unpack _). vm_compute. exact I. }
  apply (negotiation_agrees a b); [done|done|by apply Hw..].
Defined.

(** A notification wrapped for a hard reset is read back from its data. *)
Lemma hard_reset_roundtrip `{F : FollyOps} `{L : !FollyLaws F} nested :
  valid_notification nested ->
  exists n, buildBgpHardResetNotification nested = Ok n /\
    isBgpHardResetNotification n = true /\
    decodeBgpHardResetNotification (notif_data n) = Ok nested.
Proof.
  intros Hv. unfold buildBgpHardResetNotification.
  assert (Hw : writes (kMinBgpNotificationBodyLen + blen (notif_data nested))
    (serializeBgpNotificationBody (kMinBgpNotificationBodyLen + blen (notif_data nested)) nested)
    (notification_body nested))
    by (unfold serializeBgpNotificationBody, notification_body; solve_writes).
  assert (Hl : blen (notification_body nested) =
    kMinBgpNotificationBodyLen + blen (notif_data nested))
    by (unfold notification_body, kMinBgpNotificationBodyLen; len).
  rewrite Hw by (simpl; unfold kMinBgpNotificationBodyLen; lia). rewrite Hl. simpl length.
  destruct (Z.leb_spec (Z.of_nat 0 + (kMinBgpNotificationBodyLen + blen (notif_data nested)))
    (kMinBgpNotificationBodyLen + blen (notif_data nested))); [|lia].
  cbn [rbind]. eexists. split_and!; [done..|]. unfold decodeBgpHardResetNotification.
  cbn [buildBgpNotification notif_data]. rewrite app_nil_l, Hl.
  destruct (Z.ltb_spec (kMinBgpNotificationBodyLen + blen (notif_data nested))
    kMinBgpNotificationBodyLen); [lia|].
  by apply consumeBgpNotificationBody_body.
Qed.
