(* ===== verification/Nlri.v ===== *)
(** * Network layer reachability information

    [parseNlriPrefix], [parseNlri] and [parseMpNlri]
    (lib/detail/BgpMessageParserUtils.cpp) and [serializeNlri] and
    [getMaxPrefixLen] (lib/BgpMessageSerializer.cpp). *)

From S2P Require Import Prelude BgpException Folly BgpStructs.

Record BgpPrefix := mkBgpPrefix {
  bp_prefix : CIDRNetwork;
  bp_labels : list Z;
  bp_pathId : option Z
}.

Definition kWithdrawCompatibility : Z := 0x800000.
Definition kWithdrawCompatibility2 : Z := 0x000000.

(** The add-path direction negotiated for an address family; the last matching
    capability decides. *)
Definition parsePathIdEnabled (capabilities : BgpCapabilities) (afi safi : Z) : bool :=
  fold_left (fun r cap =>
      if (ap_afi cap =? afi) && (ap_safi cap =? safi)
      then (ap_sor cap =? RECEIVE) || (ap_sor cap =? BOTH) else r)
    (addPathCapabilities capabilities) false.

(** Bytes that hold [bits] bits. *)
Definition prefix_octets (bits : Z) : Z := (bits + 7) / 8.

Lemma prefix_octets_bound n m : 0 <= n <= 8 * m -> 0 <= prefix_octets n <= m /\ n <= 8 * prefix_octets n.
Proof. unfold prefix_octets. intros H. Z.div_mod_to_equations. lia. Qed.

Section Nlri.
Context `{F : FollyOps}.

(** ** Parsing *)

Definition parseNlriPrefix (cursor : bytes) (prefixLen : Z) (afi : Z) : res CIDRNetwork :=
  let n := prefix_octets prefixLen in
  if afi =? AFI_IPv4 then
    if 4 <? n then Throw (BgpUpdateMsgException BN_UM_INVALID_NETWORK_FIELD []) else
    let* '(data, _) := cursor_pull cursor (Z.to_nat n) in
    let* addr := ip_fromBinary (data ++ replicate (4 - Z.to_nat n) 0) in
    Ok (ip_mask addr prefixLen, prefixLen)
  else if afi =? AFI_IPv6 then
    if 16 <? n then Throw (BgpUpdateMsgException BN_UM_INVALID_NETWORK_FIELD []) else
    let* '(data, _) := cursor_pull cursor (Z.to_nat n) in
    let* addr := ip_fromBinary (data ++ replicate (16 - Z.to_nat n) 0) in
    Ok (ip_mask addr prefixLen, prefixLen)
  else Ok (IPUnset, prefixLen).

(** The loop body of [parseNlri]. *)
Definition parseNlriEntry (parsePathId : bool) (afi : Z) (cursor : bytes)
    (acc : list BgpPrefix) : res (bytes * list BgpPrefix) :=
  let* '(pathId, cursor) :=
    if parsePathId then
      if blen cursor <? 4 then Throw (BgpUpdateMsgException BN_UM_INVALID_NETWORK_FIELD [])
      else let* '(v, cursor) := readBE 4 cursor in Ok (Some (sint 32 v), cursor)
    else Ok (None, cursor) in
  if blen cursor =? 0 then Throw (BgpUpdateMsgException BN_UM_INVALID_NETWORK_FIELD []) else
  let* '(prefixLen, cursor) := read_u8 cursor in
  let n := prefix_octets prefixLen in
  if blen cursor <? n then Throw (BgpUpdateMsgException BN_UM_INVALID_NETWORK_FIELD []) else
  let prefixCursor := wrap_buffer cursor (Z.to_nat n) in
  let* cursor := cursor_skip cursor (Z.to_nat n) in
  let* prefix := parseNlriPrefix prefixCursor prefixLen afi in
  Ok (cursor, acc ++ [mkBgpPrefix prefix [] pathId]).

Definition parseNlri (cursor : bytes) (afi safi : Z) (capabilities : BgpCapabilities)
    : res (list BgpPrefix) :=
  while_readable (parseNlriEntry (parsePathIdEnabled capabilities afi safi) afi) cursor [].

(** The label stack loop of [parseMpNlri].  Every iteration subtracts 24 from
    [len], so [len] iterations are more than enough. *)
Fixpoint parseLabels (fuel : nat) (attrType len : Z) (cursor : bytes) (labels : list Z)
    : res (Z * bytes * list Z) :=
  if negb (24 <? len) then Ok (len, cursor, labels) else
  match fuel with
  | O => NoFuel
  | S fuel =>
      let* '(b2, cursor) := read_u8 cursor in
      let* '(b1, cursor) := read_u8 cursor in
      let* '(b0, cursor) := read_u8 cursor in
      let label := Z.shiftl b2 16 + Z.shiftl b1 8 + b0 in
      let len := len - 24 in
      if (attrType =? BGP_ATTR_MP_UNREACH_NLRI) &&
         ((label =? kWithdrawCompatibility) || (label =? kWithdrawCompatibility2))
      then Ok (len, cursor, labels)
      else
        let labels := labels ++ [Z.shiftr label 4] in
        if negb (Z.land label 1 =? 0) then Ok (len, cursor, labels)
        else parseLabels fuel attrType len cursor labels
  end.

(** The loop body for labeled unicast. *)
Definition parseLabeledEntry (parsePathId : bool) (afi attrType : Z) (attrBeingParsed : bytes)
    (cursor : bytes) (acc : list BgpPrefix) : res (bytes * list BgpPrefix) :=
  let* '(len, cursor) := read_u8 cursor in
  let* '(len, cursor, labels) := parseLabels (Z.to_nat len) attrType len cursor [] in
  let* '(pathId, cursor) :=
    if parsePathId then let* '(v, cursor) := readBE 4 cursor in Ok (Some (sint 32 v), cursor)
    else Ok (None, cursor) in
  let n := prefix_octets len in
  if blen cursor <? n then Throw (BgpUpdateMsgException BN_UM_UNSPECIFIC attrBeingParsed) else
  let prefixCursor := wrap_buffer cursor (Z.to_nat n) in
  let* cursor := cursor_skip cursor (Z.to_nat n) in
  let* prefix := parseNlriPrefix prefixCursor len afi in
  Ok (cursor, acc ++ [mkBgpPrefix prefix labels pathId]).

Definition parseMpNlri (cursor : bytes) (afi safi : Z) (capa : BgpCapabilities)
    (attrBeingParsed : bytes) (attrType : Z) : res (list BgpPrefix) :=
  if safi =? SAFI_UNICAST then
    if ((afi =? AFI_IPv6) && mpExtV6Unicast capa) || ((afi =? AFI_IPv4) && mpExtV4Unicast capa)
    then parseNlri cursor afi safi capa
    else Ok []
  else if safi =? SAFI_LABELED_UNICAST then
    if (negb (afi =? AFI_IPv6) || negb (mpExtV6LU capa)) &&
       (negb (afi =? AFI_IPv4) || negb (mpExtV4LU capa))
    then Ok []
    else while_readable
           (parseLabeledEntry (parsePathIdEnabled capa afi safi) afi attrType attrBeingParsed)
           cursor []
  else Throw (BgpUpdateMsgException BN_UM_OPTIONAL_ATTR_ERROR attrBeingParsed).

(** ** Serialization *)

Definition getMaxPrefixLen (hasPathId v4 : bool) : Z :=
  if v4 then (if hasPathId then kMaxV4prefixLen + kMaxPathIdLen else kMaxV4prefixLen)
  else (if hasPathId then kMaxV6PrefixLen + kMaxPathIdLen else kMaxV6PrefixLen).

(** The label stack, bottom of stack bit on the last label. *)
Fixpoint writeLabels (cap : Z) (labels : list Z) (w : bytes) : res bytes :=
  match labels with
  | [] => Ok w
  | l :: ls =>
      let label := uint 32 (Z.shiftl l 4) in
      let label := match ls with [] => Z.lor label 1 | _ => label end in
      let* w := write_u8 cap w (Z.land (Z.shiftr label 16) 0xff) in
      let* w := write_u8 cap w (Z.land (Z.shiftr label 8) 0xff) in
      let* w := write_u8 cap w (Z.land label 0xff) in
      writeLabels cap ls w
  end.

(** The loop body of [serializeNlri]. *)
Definition serializeOneNlri (cap afi safi : Z) (rp : RiggedIPPrefix) (w : bytes) : res bytes :=
  let* '(addr, plen) := toCIDRNetwork (rig_prefix rp) false in
  let labels := rig_labels rp in
  if (isV4 addr && negb (afi =? AFI_IPv4)) || (isV6 addr && negb (afi =? AFI_IPv6)) then
    Throw (BgpSerializerException AFI_MISMATCH)
  else
  if ((safi =? SAFI_LABELED_UNICAST) && bool_decide (labels = [])) ||
     ((safi =? SAFI_UNICAST) && negb (bool_decide (labels = []))) then
    Throw (BgpSerializerException INVALID_NLRI_LABEL_INFO)
  else
  let* w := match rig_pathId rp with
            | Some p => writeBE 4 cap w (uint 32 p)
            | None => Ok w
            end in
  let prefixLenBits :=
    uint 8 (if safi =? SAFI_LABELED_UNICAST then plen + 24 * Z.of_nat (length labels)
            else plen) in
  let* w := write_u8 cap w prefixLenBits in
  let* w := if safi =? SAFI_LABELED_UNICAST then writeLabels cap labels w else Ok w in
  rw_push cap w (take (Z.to_nat (prefix_octets plen)) (ip_bytes addr)).

(** Packs prefixes while there is room for one of the largest size.  The
    arguments are the prefixes from index [curPrefixCnt] on; the result is
    the buffer and the prefixes that were not packed. *)
Fixpoint serializeNlri (cap afi safi bufSize maxPrefixLen start : Z)
    (prefixes : list RiggedIPPrefix) (w : bytes) : res (bytes * list RiggedIPPrefix) :=
  match prefixes with
  | [] => Ok (w, [])
  | rp :: rest =>
      if blen w - start + (maxPrefixLen + 1) <? bufSize then
        let* w := serializeOneNlri cap afi safi rp w in
        serializeNlri cap afi safi bufSize maxPrefixLen start rest w
      else Ok (w, prefixes)
  end.

(** ** Termination and guarded reads *)
Context {L : FollyLaws F}.

Lemma ip_fromBinary_total o : ip_fromBinary o <> NoFuel.
Proof.
  destruct (decide (length o = 4%nat)); [by rewrite ip_fromBinary_v4|].
  destruct (decide (length o = 16%nat)); [by rewrite ip_fromBinary_v6|].
  by rewrite ip_fromBinary_other.
Qed.

Lemma parseNlriPrefix_total cur n afi : parseNlriPrefix cur n afi <> NoFuel.
Proof. unfold parseNlriPrefix. solve_total; apply ip_fromBinary_total. Qed.

Lemma parseNlriEntry_consumes pid afi : consumes (parseNlriEntry pid afi).
Proof. unfold parseNlriEntry. solve_consumes. Qed.

Lemma parseNlriEntry_total pid afi cur acc : parseNlriEntry pid afi cur acc <> NoFuel.
Proof. unfold parseNlriEntry. solve_total; apply parseNlriPrefix_total. Qed.

Lemma parseNlri_total cur afi safi capa : parseNlri cur afi safi capa <> NoFuel.
Proof.
  apply while_readable_total; [apply parseNlriEntry_consumes|apply parseNlriEntry_total].
Qed.

Lemma parseLabels_total fuel t n cur ls : n <= 24 * Z.of_nat fuel ->
  parseLabels fuel t n cur ls <> NoFuel.
Proof.
  revert n cur ls. induction fuel as [|fuel IH]; intros n cur ls Hn; cbn [parseLabels].
  { destruct (Z.ltb_spec 24 n); [lia|done]. }
  case_match; [done|]. solve_total. apply IH. lia.
Qed.

Lemma parseLabels_shrinks fuel t n cur ls n' cur' ls' :
  parseLabels fuel t n cur ls = Ok (n', cur', ls') -> (length cur' <= length cur)%nat.
Proof.
  revert n cur ls. induction fuel as [|fuel IH]; intros n cur ls H; cbn [parseLabels] in H.
  { case_match; by simplify_eq. }
  inv_reads; simpl; try lia. apply IH in H. lia.
Qed.

Lemma parseLabeledEntry_consumes pid afi t a : consumes (parseLabeledEntry pid afi t a).
Proof.
  unfold parseLabeledEntry. intros cur acc cur' acc' Hne H. inv_reads;
    match goal with Hl : parseLabels _ _ _ _ _ = Ok _ |- _ => apply parseLabels_shrinks in Hl end;
    len.
Qed.

Lemma parseNlriPrefix_guarded cur n afi :
  0 <= n -> prefix_octets n <= blen cur -> no_throw is_out_of_range (parseNlriPrefix cur n afi).
Proof.
  intros Hn Hl. unfold parseNlriPrefix.
  assert (0 <= prefix_octets n) by (apply Z.div_pos; lia).
  destruct (Z.eqb_spec afi AFI_IPv4).
  { destruct (Z.ltb_spec 4 (prefix_octets n)); [by intros ? [= <-]|].
    rewrite cursor_pull_ok by lia. cbn [rbind].
    rewrite ip_fromBinary_v4 by len. by intros ? [=]. }
  destruct (Z.eqb_spec afi AFI_IPv6); [|by intros ? [=]].
  destruct (Z.ltb_spec 16 (prefix_octets n)); [by intros ? [= <-]|].
  rewrite cursor_pull_ok by lia. cbn [rbind].
  rewrite ip_fromBinary_v6 by len. by intros ? [=].
Qed.

(** No read of [parseNlri] goes past the end of its cursor: every length is
    checked first.  (Bytes are non-negative.) *)
Lemma parseNlriEntry_guarded pid afi cur acc :
  wf_bytes cur -> no_throw is_out_of_range (parseNlriEntry pid afi cur acc).
Proof.
  intros Hwf. unfold parseNlriEntry.
  assert (Hpid : exists cur1,
    wf_bytes cur1 /\ ((exists p, (if pid then
        if blen cur <? 4 then Throw (BgpUpdateMsgException BN_UM_INVALID_NETWORK_FIELD [])
        else let* '(v, cursor) := readBE 4 cur in Ok (Some (sint 32 v), cursor)
      else Ok (None, cur)) = Ok (p, cur1)) \/
    (pid = true /\ blen cur < 4))).
  { destruct pid; [|eauto 6]. destruct (Z.ltb_spec (blen cur) 4); [eauto 6|].
    exists (drop 4 cur). split; [by apply Forall_drop|]. left.
    rewrite readBE_case. case_decide; [|lia]. cbn [rbind]. eauto. }
  destruct Hpid as (cur1 & Hwf1 & [[p ->]|[-> Hl]]); cbn [rbind].
  2: { destruct (Z.ltb_spec (blen cur) 4); [by intros ? [= <-]|lia]. }
  destruct cur1 as [|b cur1]; [by intros ? [= <-]|]. apply Forall_cons in Hwf1 as [Hb Hwf1].
  destruct (Z.eqb_spec (blen (b :: cur1)) 0); [by intros ? [= <-]|].
  rewrite read_u8_cons. cbn [rbind]. unfold is_byte in Hb.
  destruct (Z.ltb_spec (blen cur1) (prefix_octets b)); [by intros ? [= <-]|].
  assert (0 <= prefix_octets b) by (apply Z.div_pos; lia).
  rewrite cursor_skip_ok by lia. cbn [rbind].
  apply rbind_no_throw; [|by intros ? ? ? [=]].
  apply parseNlriPrefix_guarded; [lia|]. rewrite wrap_buffer_ok by lia. len.
Qed.

(** *** Exceptions *)
Lemma parseNlriPrefix_throws cur n afi :
  throws_in update_or_oor (parseNlriPrefix cur n afi).
Proof.
  unfold parseNlriPrefix. rewrite cursor_pull_case.
  destruct (Z.eqb_spec afi AFI_IPv4); [|destruct (Z.eqb_spec afi AFI_IPv6)]; cbv zeta;
    [case_match; [solve_throws|]; case_decide; cbn [rbind]; [|solve_throws]..|solve_throws].
  - rewrite ip_fromBinary_v4; [solve_throws|len].
  - rewrite ip_fromBinary_v6; [solve_throws|len].
Qed.

Lemma parseNlriEntry_throws pid afi cur acc :
  throws_in update_or_oor (parseNlriEntry pid afi cur acc).
Proof. unfold parseNlriEntry. solve_throws; apply parseNlriPrefix_throws. Qed.

Lemma parseNlriEntry_suffix pid afi cur acc cur' acc' :
  parseNlriEntry pid afi cur acc = Ok (cur', acc') -> wf_bytes cur -> wf_bytes cur'.
Proof. unfold parseNlriEntry. intros H Hwf. inv_reads; solve_suffix. Qed.

Lemma parseNlri_throws cur afi safi capa :
  throws_in update_or_oor (parseNlri cur afi safi capa).
Proof. apply while_readable_throws_in. intros. apply parseNlriEntry_throws. Qed.

Lemma parseLabels_throws fuel t n cur ls :
  throws_in update_or_oor (parseLabels fuel t n cur ls).
Proof.
  revert n cur ls. induction fuel as [|fuel IH]; intros n cur ls; cbn [parseLabels];
    case_match; [solve_throws|by intros ? [=]|solve_throws|]. solve_throws.
Qed.

Lemma parseLabeledEntry_throws pid afi t a cur acc :
  throws_in update_or_oor (parseLabeledEntry pid afi t a cur acc).
Proof.
  unfold parseLabeledEntry. solve_throws;
    solve [apply parseNlriPrefix_throws | apply parseLabels_throws].
Qed.

Lemma parseMpNlri_throws cur afi safi capa a t :
  throws_in update_or_oor (parseMpNlri cur afi safi capa a t).
Proof.
  unfold parseMpNlri. solve_throws; try apply parseNlri_throws;
    apply while_readable_throws_in; intros; apply parseLabeledEntry_throws.
Qed.

Lemma parseLabeledEntry_total pid afi t a cur acc :
  parseLabeledEntry pid afi t a cur acc <> NoFuel.
Proof.
  unfold parseLabeledEntry. solve_total; try apply parseNlriPrefix_total.
  apply parseLabels_total. lia.
Qed.

Lemma parseMpNlri_total cur afi safi capa a t : parseMpNlri cur afi safi capa a t <> NoFuel.
Proof.
  unfold parseMpNlri. solve_total; try apply parseNlri_total.
  all: apply while_readable_total; [apply parseLabeledEntry_consumes|].
  all: intros; apply parseLabeledEntry_total.
Qed.

(** ** Addresses and masks *)

Lemma byte_bits_eq a b : is_byte a -> is_byte b ->
  (forall i, (i < 8)%nat -> Z.testbit a (7 - Z.of_nat i) = Z.testbit b (7 - Z.of_nat i)) -> a = b.
Proof.
  unfold is_byte. intros Ha Hb H. apply Z.bits_inj'. intros k Hk.
  destruct (decide (k < 8)).
  - specialize (H (Z.to_nat (7 - k))). rewrite Z2Nat.id in H by lia.
    replace (7 - (7 - k)) with k in H by lia. apply H. lia.
  - rewrite !(fun x Hx => proj1 (Z.bounded_iff_bits_nonneg 8 x ltac:(lia) Hx)) by (simpl; lia).
    done.
Qed.

Lemma octets_bit_cons b o i :
  octets_bit (b :: o) i =
    if decide (i < 8)%nat then Z.testbit b (7 - Z.of_nat i) else octets_bit o (i - 8).
Proof.
  unfold octets_bit. case_decide.
  - by rewrite Nat.div_small, Nat.mod_small by lia.
  - replace i with ((i - 8) + 1 * 8)%nat at 1 2 by lia.
    rewrite Nat.div_add, Nat.Div0.mod_add by lia. by rewrite Nat.add_1_r.
Qed.

Lemma octets_bits_eq o : forall o', length o = length o' -> wf_bytes o -> wf_bytes o' ->
  (forall i, (i < 8 * length o)%nat -> octets_bit o i = octets_bit o' i) -> o = o'.
Proof.
  induction o as [|a o IH]; intros [|b o'] Hl Ha Hb H; simplify_eq/=; [done|].
  apply Forall_cons in Ha as [Ha Hwa]. apply Forall_cons in Hb as [Hb Hwb]. f_equal.
  - apply byte_bits_eq; [done..|]. intros i Hi. specialize (H i).
    rewrite !octets_bit_cons in H. case_decide; [apply H|]; lia.
  - apply IH; [done..|]. intros i Hi. specialize (H (i + 8)%nat).
    rewrite !octets_bit_cons in H. case_decide; [lia|].
    replace (i + 8 - 8)%nat with i in H by lia. apply H. lia.
Qed.

(** The octets a prefix of [n] bits is sent as, zero-padded again on the
    receiving side, agree with the address on the first [n] bits. *)
Lemma octets_bit_pad o m k i n : (m = length o)%nat ->
  Z.of_nat k = prefix_octets n -> (k <= m)%nat -> Z.of_nat i < n ->
  octets_bit (take k o ++ replicate (m - k) 0) i = octets_bit o i.
Proof.
  intros -> Hk Hle Hi. unfold octets_bit.
  assert (n <= 8 * Z.of_nat k) by (rewrite Hk; unfold prefix_octets; Z.div_mod_to_equations; lia).
  assert ((i / 8 < k)%nat) by (apply Nat.Div0.div_lt_upper_bound; lia).
  rewrite app_nth1 by len. f_equal. rewrite <- (take_drop k o) at 2.
  rewrite app_nth1 by len. done.
Qed.

Definition masked (a : IPAddress) (n : Z) : Prop := ip_mask a n = a.

(** Two addresses with the same leading [n] bits have the same network. *)
Lemma mask_pad_v4 o n : length o = 4%nat -> wf_bytes o -> 0 <= n <= 32 -> masked (IPV4 o) n ->
  ip_mask (IPV4 (take (Z.to_nat (prefix_octets n)) o ++
                 replicate (4 - Z.to_nat (prefix_octets n)) 0)) n = IPV4 o.
Proof.
  intros Hl Hw Hn Hm. unfold masked in Hm.
  assert (Hp : 0 <= prefix_octets n <= 4) by (apply prefix_octets_bound; lia).
  set (k := Z.to_nat (prefix_octets n)). set (o1 := take k o ++ replicate (4 - k) 0).
  destruct (ip_mask_v4 o n) as (o' & E & Hl' & Hw' & Hbits); [done..|].
  rewrite E in Hm. simplify_eq.
  destruct (ip_mask_v4 o1 n) as (o2 & -> & Hl2 & Hw2 & Hbits2); [|apply Forall_app; split|lia|].
  { subst o1 k. len. } { by apply Forall_take. } { by apply Forall_replicate. }
  f_equal. apply octets_bits_eq; [congruence|done..|]. intros i Hi. rewrite Hl2 in Hi.
  rewrite Hbits2 by lia. specialize (Hbits i ltac:(lia)).
  destruct (Z.ltb_spec (Z.of_nat i) n); [|by rewrite Hbits]. simpl.
  apply octets_bit_pad with (n := n); unfold k; lia.
Qed.

Lemma mask_pad_v6 o n : length o = 16%nat -> wf_bytes o -> 0 <= n <= 128 -> masked (IPV6 o) n ->
  ip_mask (IPV6 (take (Z.to_nat (prefix_octets n)) o ++
                 replicate (16 - Z.to_nat (prefix_octets n)) 0)) n = IPV6 o.
Proof.
  intros Hl Hw Hn Hm. unfold masked in Hm.
  assert (Hp : 0 <= prefix_octets n <= 16) by (apply prefix_octets_bound; lia).
  set (k := Z.to_nat (prefix_octets n)). set (o1 := take k o ++ replicate (16 - k) 0).
  destruct (ip_mask_v6 o n) as (o' & E & Hl' & Hw' & Hbits); [done..|].
  rewrite E in Hm. simplify_eq.
  destruct (ip_mask_v6 o1 n) as (o2 & -> & Hl2 & Hw2 & Hbits2); [|apply Forall_app; split|lia|].
  { subst o1 k. len. } { by apply Forall_take. } { by apply Forall_replicate. }
  f_equal. apply octets_bits_eq; [congruence|done..|]. intros i Hi. rewrite Hl2 in Hi.
  rewrite Hbits2 by lia. specialize (Hbits i ltac:(lia)).
  destruct (Z.ltb_spec (Z.of_nat i) n); [|by rewrite Hbits]. simpl.
  apply octets_bit_pad with (n := n); unfold k; lia.
Qed.

(** ** Unicast round trip *)

(** The address of a prefix of family [afi]. *)
Definition prefix_addr (afi : Z) (p : IPPrefix) : IPAddress :=
  if afi =? AFI_IPv4 then IPV4 (prefixAddress p) else IPV6 (prefixAddress p).

(** A canonical network of family [afi]: host bits are zero. *)
Definition wf_prefix (afi : Z) (p : IPPrefix) : Prop :=
  (afi = AFI_IPv4 /\ length (prefixAddress p) = 4%nat /\ 0 <= prefixLength p <= 32 \/
   afi = AFI_IPv6 /\ length (prefixAddress p) = 16%nat /\ 0 <= prefixLength p <= 128) /\
  wf_bytes (prefixAddress p) /\ masked (prefix_addr afi p) (prefixLength p).

Definition wf_pathId (enabled : bool) (pid : option Z) : Prop :=
  match pid with
  | Some p => enabled = true /\ - 2 ^ 31 <= p < 2 ^ 31
  | None => enabled = false
  end.

Definition wf_unicast (afi : Z) (pid : bool) (rp : RiggedIPPrefix) : Prop :=
  wf_prefix afi (rig_prefix rp) /\ rig_labels rp = [] /\ wf_pathId pid (rig_pathId rp).

Definition pathId_bytes (pid : option Z) : bytes :=
  match pid with Some p => be_encode 4 (uint 32 p) | None => [] end.
Definition prefix_bytes (p : IPPrefix) : bytes :=
  take (Z.to_nat (prefix_octets (prefixLength p))) (prefixAddress p).
Definition unicast_bytes (rp : RiggedIPPrefix) : bytes :=
  pathId_bytes (rig_pathId rp) ++ be_encode 1 (uint 8 (prefixLength (rig_prefix rp))) ++
  prefix_bytes (rig_prefix rp).

(** What the parser delivers for a serialized prefix. *)
Definition to_BgpPrefix (afi : Z) (rp : RiggedIPPrefix) : BgpPrefix :=
  mkBgpPrefix (prefix_addr afi (rig_prefix rp), prefixLength (rig_prefix rp))
    (rig_labels rp) (rig_pathId rp).

Lemma wf_prefix_facts afi p : wf_prefix afi p ->
  0 <= prefixLength p < 256 /\
  length (prefix_bytes p) = Z.to_nat (prefix_octets (prefixLength p)) /\
  0 <= prefix_octets (prefixLength p) <= 16 /\ prefix_octets (prefixLength p) <= blen (prefixAddress p).
Proof.
  intros [[(-> & Hl & Hn)|(-> & Hl & Hn)] _].
  - pose proof (prefix_octets_bound (prefixLength p) 4 ltac:(lia)). unfold prefix_bytes.
    rewrite length_take, Hl. lia.
  - pose proof (prefix_octets_bound (prefixLength p) 16 ltac:(lia)). unfold prefix_bytes.
    rewrite length_take, Hl. lia.
Qed.

Lemma toCIDRNetwork_wf afi p : wf_prefix afi p ->
  toCIDRNetwork p false = Ok (prefix_addr afi p, prefixLength p).
Proof.
  intros Hwf. destruct (wf_prefix_facts afi p Hwf) as [Hr _].
  unfold toCIDRNetwork, prefix_addr. destruct Hwf as [[(-> & Hl & Hn)|(-> & Hl & Hn)] _].
  - rewrite ip_fromBinary_v4 by done. cbn [rbind]. by rewrite uint_id.
  - rewrite ip_fromBinary_v6 by done. cbn [rbind]. by rewrite uint_id.
Qed.

Lemma parseNlriPrefix_prefix_bytes afi p : wf_prefix afi p ->
  parseNlriPrefix (prefix_bytes p) (prefixLength p) afi =
    Ok (prefix_addr afi p, prefixLength p).
Proof.
  intros Hwf. pose proof (wf_prefix_facts afi p Hwf) as (_ & Hlp & _).
  unfold parseNlriPrefix. set (n := prefixLength p) in *.
  destruct Hwf as [[(-> & Hl & Hn)|(-> & Hl & Hn)] [Hw Hm]]; unfold prefix_addr in *; simpl in *.
  - pose proof (prefix_octets_bound n 4 ltac:(lia)).
    destruct (Z.ltb_spec 4 (prefix_octets n)); [lia|].
    rewrite cursor_pull_ok by lia. cbn [rbind]. rewrite take_ge by lia.
    rewrite ip_fromBinary_v4 by (rewrite length_app, Hlp, length_replicate; lia). cbn [rbind].
    unfold prefix_bytes. by rewrite mask_pad_v4.
  - pose proof (prefix_octets_bound n 16 ltac:(lia)).
    destruct (Z.ltb_spec 16 (prefix_octets n)); [lia|].
    rewrite cursor_pull_ok by lia. cbn [rbind]. rewrite take_ge by lia.
    rewrite ip_fromBinary_v6 by (rewrite length_app, Hlp, length_replicate; lia). cbn [rbind].
    unfold prefix_bytes. by rewrite mask_pad_v6.
Qed.

Lemma parseNlriEntry_unicast pid afi rp rest acc : wf_unicast afi pid rp ->
  parseNlriEntry pid afi (unicast_bytes rp ++ rest) acc = Ok (rest, acc ++ [to_BgpPrefix afi rp]).
Proof.
  intros (Hp & Hlab & Hpid). destruct rp as [p ls pidv]; simpl in *; subst ls.
  destruct (wf_prefix_facts afi p Hp) as (Hn & Hlp & Hoct & _).
  unfold parseNlriEntry, unicast_bytes. cbn [rig_prefix rig_pathId]. rewrite <- !app_assoc.
  set (tl := be_encode 1 (uint 8 (prefixLength p)) ++ prefix_bytes p ++ rest).
  assert (Epid : (if pid then
        if blen (pathId_bytes pidv ++ tl) <? 4
        then Throw (BgpUpdateMsgException BN_UM_INVALID_NETWORK_FIELD [])
        else let* '(v, cursor) := readBE 4 (pathId_bytes pidv ++ tl) in
             Ok (Some (sint 32 v), cursor)
      else Ok (None, pathId_bytes pidv ++ tl)) = Ok (pidv, tl)).
  { destruct pidv as [q|]; simpl in Hpid.
    - destruct Hpid as [-> Hq]. cbn [pathId_bytes].
      destruct (Z.ltb_spec (blen (be_encode 4 (uint 32 q) ++ tl)) 4); [len|].
      rewrite readBE_encode, Z.mod_small by apply (uint_range 32 q ltac:(lia)). cbn [rbind].
      by rewrite sint_uint by lia.
    - by subst pid. }
  rewrite Epid. cbn [rbind].
  destruct (Z.eqb_spec (blen tl) 0); [subst tl; len|]. subst tl.
  rewrite uint_id, read_u8_encode, Z.mod_small by done. cbn [rbind].
  destruct (Z.ltb_spec (blen (prefix_bytes p ++ rest)) (prefix_octets (prefixLength p))); [len|].
  rewrite wrap_app, skip_app by done. cbn [rbind].
  by rewrite parseNlriPrefix_prefix_bytes.
Qed.

Lemma parseNlri_unicast afi safi capa rps :
  Forall (wf_unicast afi (parsePathIdEnabled capa afi safi)) rps ->
  parseNlri (concat (map unicast_bytes rps)) afi safi capa = Ok (map (to_BgpPrefix afi) rps).
Proof.
  intros Hok. unfold parseNlri.
  rewrite (while_readable_items _ unicast_bytes (fun a x => a ++ [to_BgpPrefix afi x])
             (wf_unicast afi (parsePathIdEnabled capa afi safi))); [|..|done].
  - assert (E : forall acc, fold_left (fun a x => a ++ [to_BgpPrefix afi x]) rps acc =
                            acc ++ map (to_BgpPrefix afi) rps); [|by rewrite E].
    induction rps as [|rp rps IH]; intros acc; simpl; [by rewrite app_nil_r|].
    rewrite IH by by apply Forall_cons in Hok as [_ ?]. by rewrite <- app_assoc.
  - apply parseNlriEntry_consumes.
  - intros rp _ Hn. apply (f_equal length) in Hn. unfold unicast_bytes in Hn. len.
  - intros. by apply parseNlriEntry_unicast.
Qed.

Lemma writes_unicast cap afi rp pid : wf_unicast afi pid rp ->
  writes cap (serializeOneNlri cap afi SAFI_UNICAST rp) (unicast_bytes rp).
Proof.
  intros (Hp & Hlab & Hpid). unfold unicast_bytes.
  assert (Hafi : (isV4 (prefix_addr afi (rig_prefix rp)) && negb (afi =? AFI_IPv4)) ||
                 (isV6 (prefix_addr afi (rig_prefix rp)) && negb (afi =? AFI_IPv6)) = false).
  { by destruct Hp as [[(-> & _)|(-> & _)] _]. }
  intros w Hw. unfold serializeOneNlri. rewrite (toCIDRNetwork_wf afi) by done. cbn [rbind].
  rewrite Hafi, Hlab. simpl (_ || _). cbv iota. revert w Hw.
  apply writes_bind; [destruct (rig_pathId rp); apply writes_BE || apply writes_ret|].
  apply writes_bind; [apply writes_u8|]. simpl (_ =? _).
  intros w Hw. cbn [rbind]. cbv iota.
  replace (ip_bytes (prefix_addr afi (rig_prefix rp))) with (prefixAddress (rig_prefix rp)).
  - by apply writes_push.
  - unfold prefix_addr. by destruct (afi =? AFI_IPv4).
Qed.

(** [getMaxPrefixLen] bounds the size of every unicast entry. *)
Lemma unicast_bytes_bound afi pid rp : wf_unicast afi pid rp ->
  blen (unicast_bytes rp) <= getMaxPrefixLen pid (afi =? AFI_IPv4).
Proof.
  intros (Hp & _ & Hpid). destruct (wf_prefix_facts _ _ Hp) as (_ & Hlp & _ & _).
  assert (Hpl : blen (pathId_bytes (rig_pathId rp)) = if pid then 4 else 0).
  { destruct (rig_pathId rp); simpl in *; [destruct Hpid as [-> _]; len|by subst]. }
  unfold unicast_bytes, getMaxPrefixLen, kMaxV4prefixLen, kMaxV6PrefixLen, kMaxPathIdLen.
  rewrite !length_app, Hlp, length_be_encode.
  destruct Hp as [[(-> & Hl & Hn)|(-> & Hl & Hn)] _]; simpl (_ =? _); cbv iota.
  - pose proof (prefix_octets_bound (prefixLength (rig_prefix rp)) 4 ltac:(lia)).
    destruct pid; lia.
  - pose proof (prefix_octets_bound (prefixLength (rig_prefix rp)) 16 ltac:(lia)).
    destruct pid; lia.
Qed.

(** ** Packing

    [serializeNlri] packs the longest run of prefixes it has room for; it
    never overflows the buffer, and it makes progress whenever there is room
    for one entry of the largest size. *)
Lemma serializeNlri_packs cap afi pid bufSize start maxLen rps :
  getMaxPrefixLen pid (afi =? AFI_IPv4) <= maxLen ->
  Forall (wf_unicast afi pid) rps -> start + bufSize <= cap ->
  forall w, blen w <= start + bufSize ->
  exists packed rest,
    serializeNlri cap afi SAFI_UNICAST bufSize maxLen start rps w =
      Ok (w ++ concat (map unicast_bytes packed), rest) /\
    rps = packed ++ rest /\
    blen w + blen (concat (map unicast_bytes packed)) <= start + bufSize /\
    (rps <> [] -> packed <> [] <-> blen w - start + (maxLen + 1) < bufSize) /\
    (rest <> [] -> start + bufSize <= blen w + blen (concat (map unicast_bytes packed)) + maxLen + 1).
Proof.
  intros Hmax. induction rps as [|rp rps IH]; intros Hok Hcap w Hw.
  { exists [], []. simpl. rewrite app_nil_r. split; [done|]. split; [done|]. split; [lia|done]. }
  apply Forall_cons in Hok as [Hrp Hok]. cbn [serializeNlri].
  destruct (Z.ltb_spec (blen w - start + (maxLen + 1)) bufSize) as [Hroom|Hfull].
  - pose proof (unicast_bytes_bound _ _ _ Hrp) as Hb.
    rewrite (writes_Ok cap _ (unicast_bytes rp) w); [|by eapply writes_unicast|lia]. cbn [rbind].
    destruct (IH Hok Hcap (w ++ unicast_bytes rp)) as (packed & rest & E & -> & Hl & _ & Hrest); [len|].
    exists (rp :: packed), rest. rewrite E. cbn [map concat]. rewrite app_assoc.
    split; [done|]. split; [done|]. split; [len|]. split; [done|].
    intros Hne. specialize (Hrest Hne). len.
  - exists [], (rp :: rps). simpl. rewrite app_nil_r.
    split; [done|]. split; [done|]. split; [lia|]. split; [|intros _; lia].
    intros _. split; [done|intros; lia].
Qed.

(** ** Labeled unicast *)

Definition wire_label (l : Z) (last : bool) : Z := l * 16 + (if last then 1 else 0).
Definition label_octets (v : Z) : bytes :=
  be_encode 1 (Z.land (Z.shiftr v 16) 0xff) ++ be_encode 1 (Z.land (Z.shiftr v 8) 0xff) ++
  be_encode 1 (Z.land v 0xff).
Fixpoint labels_bytes (ls : list Z) : bytes :=
  match ls with
  | [] => []
  | [l] => label_octets (wire_label l true)
  | l :: ls => label_octets (wire_label l false) ++ labels_bytes ls
  end.
Definition wf_label (l : Z) : Prop := 0 <= l < 2 ^ 20.

Lemma wire_label_low l : 0 <= l -> Z.lor (l * 16) 1 = l * 16 + 1.
Proof.
  intros Hl. pose proof (Z.add_lor_land (l * 16) 1) as E.
  replace (Z.land (l * 16) 1) with 0 in E; [lia|].
  change 1 with (Z.ones 1). rewrite Z.land_ones by lia. change (2 ^ 1) with 2.
  replace (l * 16) with (l * 8 * 2) by lia. by rewrite Z.mod_mul by lia.
Qed.

Lemma writes_labels cap ls : Forall wf_label ls ->
  writes cap (writeLabels cap ls) (labels_bytes ls).
Proof.
  unfold wf_label. induction 1 as [|l ls Hl _ IH]; [apply writes_ret|].
  cbn [writeLabels]. rewrite uint_id, Z.shiftl_mul_pow2 by (rewrite ?Z.shiftl_mul_pow2; lia).
  change (2 ^ 4) with 16.
  set (v := match ls with [] => Z.lor (l * 16) 1 | _ => l * 16 end).
  assert (E : labels_bytes (l :: ls) = label_octets v ++ labels_bytes ls).
  { subst v. destruct ls; cbn [labels_bytes]; unfold wire_label; [|by rewrite Z.add_0_r].
    by rewrite app_nil_r, wire_label_low by lia. }
  rewrite E. unfold label_octets. rewrite <- !app_assoc. solve_writes.
Qed.

Lemma read_label v rest : 0 <= v < 2 ^ 24 ->
  exists b2 b1 b0, label_octets v ++ rest = b2 :: b1 :: b0 :: rest /\
    Z.shiftl b2 16 + Z.shiftl b1 8 + b0 = v.
Proof.
  intros Hv. unfold label_octets. change 0xff with (Z.ones 8).
  rewrite !Z.land_ones, !Z.shiftr_div_pow2 by lia.
  change (2 ^ 8) with 256. change (2 ^ 16) with 65536.
  assert (E : forall x, be_encode 1 (x mod 256) = [x mod 256]).
  { intros x. rewrite <- (be_encode_decode [x mod 256]); [done|].
    repeat constructor; apply Z.mod_pos_bound; lia. }
  rewrite !E. eexists _, _, _. split; [done|].
  rewrite !Z.shiftl_mul_pow2 by lia. change (2 ^ 8) with 256. change (2 ^ 16) with 65536.
  Z.div_mod_to_equations. lia.
Qed.

(** The label stack reads back up to the bottom of stack, provided some
    prefix bits follow it. *)
Lemma parseLabels_labels ls plen rest :
  Forall wf_label ls -> ls <> [] -> 0 < plen ->
  forall fuel acc, (length ls <= fuel)%nat ->
  parseLabels fuel BGP_ATTR_MP_REACH_NLRI (plen + 24 * Z.of_nat (length ls))
    (labels_bytes ls ++ rest) acc = Ok (plen, rest, acc ++ ls).
Proof.
  intros Hok Hne Hp. induction ls as [|l ls IH]; [done|]. clear Hne. intros fuel acc Hf.
  apply Forall_cons in Hok as [Hl Hok]. unfold wf_label in Hl.
  destruct fuel as [|fuel]; [simpl in Hf; lia|]. cbn [parseLabels length].
  destruct (Z.ltb_spec 24 (plen + 24 * Z.of_nat (S (length ls)))); [|lia]. cbn [negb].
  assert (E : labels_bytes (l :: ls) =
              label_octets (wire_label l (bool_decide (ls = []))) ++ labels_bytes ls).
  { destruct ls; cbn [labels_bytes]; [by rewrite app_nil_r|done]. }
  rewrite E, <- app_assoc. set (v := wire_label l (bool_decide (ls = []))).
  assert (Hv : 0 <= v < 2 ^ 24) by (subst v; unfold wire_label; case_match; lia).
  destruct (read_label v (labels_bytes ls ++ rest) Hv) as (b2 & b1 & b0 & -> & Ev).
  rewrite read_u8_cons. cbn [rbind]. rewrite read_u8_cons. cbn [rbind].
  rewrite read_u8_cons. cbn [rbind]. rewrite Ev. simpl (_ =? BGP_ATTR_MP_UNREACH_NLRI).
  cbn [andb]. rewrite Z.shiftr_div_pow2 by lia. change 1 with (Z.ones 1).
  rewrite Z.land_ones by lia. change (2 ^ 1) with 2. change (2 ^ 4) with 16.
  assert (Hq : v / 16 = l) by (subst v; unfold wire_label; case_match; Z.div_mod_to_equations; lia).
  rewrite Hq. subst v. unfold wire_label. destruct ls as [|l' ls].
  - rewrite bool_decide_eq_true_2 by done.
    replace ((l * 16 + 1) mod 2) with 1 by (Z.div_mod_to_equations; lia). cbn [Z.eqb negb].
    do 2 f_equal. f_equal. simpl. lia.
  - rewrite bool_decide_eq_false_2 by done.
    replace ((l * 16 + 0) mod 2) with 0 by (Z.div_mod_to_equations; lia). cbn [Z.eqb negb].
    replace (plen + 24 * Z.of_nat (S (length (l' :: ls))) - 24)
      with (plen + 24 * Z.of_nat (length (l' :: ls))) by (simpl length; lia).
    rewrite IH by (done || simpl in *; lia). by rewrite <- app_assoc.
Qed.

(** A labeled prefix the MP_REACH round trip covers: no path identifier, a
    non-empty stack and at least one prefix bit, within the 8-bit length. *)
Definition wf_labeled (afi : Z) (rp : RiggedIPPrefix) : Prop :=
  wf_prefix afi (rig_prefix rp) /\ rig_labels rp <> [] /\ Forall wf_label (rig_labels rp) /\
  0 < prefixLength (rig_prefix rp) /\
  prefixLength (rig_prefix rp) + 24 * Z.of_nat (length (rig_labels rp)) < 256 /\
  rig_pathId rp = None.
Definition labeled_bytes (rp : RiggedIPPrefix) : bytes :=
  be_encode 1 (prefixLength (rig_prefix rp) + 24 * Z.of_nat (length (rig_labels rp))) ++
  labels_bytes (rig_labels rp) ++ prefix_bytes (rig_prefix rp).

Lemma writes_labeled cap afi rp : wf_labeled afi rp ->
  writes cap (serializeOneNlri cap afi SAFI_LABELED_UNICAST rp) (labeled_bytes rp).
Proof.
  intros (Hp & Hne & Hls & Hpos & Hlt & Hpid).
  assert (Hafi : (isV4 (prefix_addr afi (rig_prefix rp)) && negb (afi =? AFI_IPv4)) ||
                 (isV6 (prefix_addr afi (rig_prefix rp)) && negb (afi =? AFI_IPv6)) = false).
  { by destruct Hp as [[(-> & _)|(-> & _)] _]. }
  intros w Hw. unfold serializeOneNlri. rewrite (toCIDRNetwork_wf afi) by done. cbn [rbind].
  rewrite Hafi, Hpid, bool_decide_eq_false_2 by done. simpl (_ || _). cbv iota. cbn [rbind].
  rewrite uint_id by (simpl; lia). revert w Hw. unfold labeled_bytes.
  apply writes_bind; [apply writes_u8|]. apply writes_bind; [by apply writes_labels|].
  replace (ip_bytes (prefix_addr afi (rig_prefix rp))) with (prefixAddress (rig_prefix rp)).
  - apply writes_push.
  - unfold prefix_addr. by destruct (afi =? AFI_IPv4).
Qed.

Lemma parseLabeledEntry_labeled afi abp rp rest acc : wf_labeled afi rp ->
  parseLabeledEntry false afi BGP_ATTR_MP_REACH_NLRI abp (labeled_bytes rp ++ rest) acc =
    Ok (rest, acc ++ [to_BgpPrefix afi rp]).
Proof.
  intros (Hp & Hne & Hls & Hpos & Hlt & Hpid). destruct rp as [p ls pidv]; simpl in *; subst.
  destruct (wf_prefix_facts afi p Hp) as (Hn & Hlp & Hoct & _).
  unfold parseLabeledEntry, labeled_bytes. cbn [rig_prefix rig_labels]. rewrite <- !app_assoc.
  rewrite read_u8_encode, Z.mod_small by lia. cbn [rbind].
  rewrite parseLabels_labels by (done || lia). cbn [rbind].
  destruct (Z.ltb_spec (blen (prefix_bytes p ++ rest)) (prefix_octets (prefixLength p))); [len|].
  rewrite wrap_app, skip_app by done. cbn [rbind]. by rewrite parseNlriPrefix_prefix_bytes.
Qed.
End Nlri.

(** C26. Packing and reading back unicast NLRI: for every address family, and
    with or without path identifiers, [serializeNlri] writes a run of the
    prefixes that stays within the buffer and leaves the rest to the next message.
    It stops short of the end only when no more than one byte beyond the size of
    the largest entry (its length octet and path identifier included) is free; so
    it packs at least one entry exactly when the buffer is larger than the largest
    entry by more than one byte.  [parseNlri] reads exactly that run back,
    addresses, lengths and path identifiers included. *)
Theorem nlri_pack_parse `{F : FollyOps} `{L : !FollyLaws F} cap afi safi capa bufSize w rps :
  let pid := parsePathIdEnabled capa afi safi in
  let maxLen := getMaxPrefixLen pid (afi =? AFI_IPv4) in
  Forall (wf_unicast afi pid) rps -> 0 <= bufSize -> blen w + bufSize <= cap ->
  exists packed rest bs,
    serializeNlri cap afi SAFI_UNICAST bufSize maxLen (blen w) rps w = Ok (w ++ bs, rest) /\
    rps = packed ++ rest /\ blen bs <= bufSize /\
    (rps <> [] -> packed <> [] <-> maxLen + 1 < bufSize) /\
    (rest <> [] -> bufSize <= blen bs + maxLen + 1) /\
    parseNlri bs afi safi capa = Ok (map (to_BgpPrefix afi) packed).
Proof.
  intros pid maxLen Hok Hbuf Hcap.
  destruct (serializeNlri_packs cap afi pid bufSize (blen w) maxLen rps (Z.le_refl _) Hok Hcap w)
    as (packed & rest & E & Hsplit & Hl & Hprog & Hrest); [lia|].
  exists packed, rest, (concat (map unicast_bytes packed)).
  split; [apply E|]. split; [done|]. split; [lia|]. split_and!.
  - intros Hne. rewrite (Hprog Hne). fold maxLen. lia.
  - intros Hne. specialize (Hrest Hne). fold maxLen in Hrest. lia.
  - apply parseNlri_unicast. subst rps. by apply Forall_app in Hok as [? _].
Qed.

Definition sample_v4 : list RiggedIPPrefix :=
  [mkRigged (mkIPPrefix [10; 1; 0; 0] 16) [] None; mkRigged (mkIPPrefix [192; 168; 7; 128] 25) [] None].

(** Well-formedness of concrete data, by evaluation. *)
Ltac wf_concrete :=
  repeat match goal with
  | |- _ /\ _ => split
  | |- Forall _ [] => apply Forall_nil_2
  | |- Forall _ (_ :: _) => apply Forall_cons_2
  | |- masked _ _ => unfold masked; vm_compute; reflexivity
  | |- is_byte _ => unfold is_byte
  | |- wf_bytes _ => unfold wf_bytes
  | |- _ = _ => reflexivity
  | |- _ <= _ => vm_compute; discriminate
  | |- _ < _ => vm_compute; reflexivity
  | |- _ \/ _ => first [left; solve [wf_concrete] | right; solve [wf_concrete]]
  | |- _ <> _ => discriminate
  | |- _ => progress cbn beta iota delta
              [rig_prefix rig_labels rig_pathId prefixAddress prefixLength]
  end.

Lemma sample_v4_wf : Forall (wf_unicast AFI_IPv4 false) sample_v4.
Proof.
  unfold sample_v4, wf_unicast, wf_prefix, wf_pathId.
  cbn [rig_prefix rig_labels rig_pathId prefixAddress prefixLength]. wf_concrete.
Qed.

Lemma nlri_pack_parse_witness :
  let pid := parsePathIdEnabled defaultCapabilities AFI_IPv4 SAFI_UNICAST in
  let maxLen := getMaxPrefixLen pid (AFI_IPv4 =? AFI_IPv4) in
  exists packed rest bs,
    serializeNlri 100 AFI_IPv4 SAFI_UNICAST 90 maxLen (blen [7]) sample_v4 [7] =
      Ok ([7] ++ bs, rest) /\
    sample_v4 = packed ++ rest /\ blen bs <= 90 /\
    (sample_v4 <> [] -> packed <> [] <-> maxLen + 1 < 90) /\
    (rest <> [] -> 90 <= blen bs + maxLen + 1) /\
    parseNlri bs AFI_IPv4 SAFI_UNICAST defaultCapabilities =
      Ok (map (to_BgpPrefix AFI_IPv4) packed).
Proof.
  apply (nlri_pack_parse 100 AFI_IPv4 SAFI_UNICAST defaultCapabilities 90 [7] sample_v4).
  - exact sample_v4_wf.
  - vm_compute. discriminate.
  - vm_compute. discriminate.
Defined.

(** A labeled prefix announced in MP_REACH_NLRI (a label stack and at least
    one prefix bit, no path identifier) reads back with its labels, address and
    length. *)
Theorem labeled_nlri_roundtrip `{F : FollyOps} `{L : !FollyLaws F} cap afi abp rp rest :
  wf_labeled afi rp -> blen (labeled_bytes rp) <= cap ->
  serializeOneNlri cap afi SAFI_LABELED_UNICAST rp [] = Ok (labeled_bytes rp) /\
  parseLabeledEntry false afi BGP_ATTR_MP_REACH_NLRI abp (labeled_bytes rp ++ rest) [] =
    Ok (rest, [to_BgpPrefix afi rp]).
Proof.
  intros Hwf Hl. split; [|by apply parseLabeledEntry_labeled].
  rewrite (writes_Ok cap _ (labeled_bytes rp)); [done|by apply writes_labeled|simpl; lia].
Qed.

Lemma labeled_nlri_roundtrip_witness :
  let rp := mkRigged (mkIPPrefix [10; 1; 0; 0] 16) [100; 200] None in
  serializeOneNlri 100 AFI_IPv4 SAFI_LABELED_UNICAST rp [] = Ok (labeled_bytes rp) /\
  parseLabeledEntry false AFI_IPv4 BGP_ATTR_MP_REACH_NLRI [] (labeled_bytes rp ++ [9]) [] =
    Ok ([9], [to_BgpPrefix AFI_IPv4 rp]).
Proof.
  intros rp. apply (labeled_nlri_roundtrip 100 AFI_IPv4 [] rp [9]); [|vm_compute; done].
  unfold wf_labeled, wf_prefix, rp, wf_label.
  cbn [rig_prefix rig_labels rig_pathId prefixAddress prefixLength]. wf_concrete.
Defined.

(** The label loop of [parseMpNlri] runs while [len > 24], so the label of a
    labeled default route (length 24 + 0) is not read as a label: the prefix
    0.0.0.0/0 with label [l], serialized by [serializeNlri], reads back as a /24
    made of the three label octets, with no label. *)
Theorem labeled_default_route_misread `{F : FollyOps} `{L : !FollyLaws F} cap abp l :
  wf_label l -> 4 <= cap ->
  let rp := mkRigged (mkIPPrefix [0; 0; 0; 0] 0) [l] None in
  exists b2 b1 b0,
    serializeOneNlri cap AFI_IPv4 SAFI_LABELED_UNICAST rp [] = Ok [24; b2; b1; b0] /\
    parseLabeledEntry false AFI_IPv4 BGP_ATTR_MP_REACH_NLRI abp [24; b2; b1; b0] [] =
      Ok ([], [mkBgpPrefix (ip_mask (IPV4 [b2; b1; b0; 0]) 24, 24) [] None]).
Proof.
  intros Hl Hcap rp. unfold wf_label in Hl.
  assert (Hv : 0 <= wire_label l true < 2 ^ 24) by (unfold wire_label; lia).
  destruct (read_label (wire_label l true) [] Hv) as (b2 & b1 & b0 & E & _).
  rewrite app_nil_r in E. exists b2, b1, b0. split.
  - unfold serializeOneNlri, toCIDRNetwork. simpl rig_prefix. simpl prefixAddress.
    rewrite ip_fromBinary_v4 by done. cbn [rbind]. simpl (_ || _). cbv iota.
    pose proof (writes_bind cap (fun w => write_u8 cap w 24)
      (fun w => let* w := writeLabels cap [l] w in rw_push cap w []) _ _ (writes_u8 cap 24)
      (writes_bind cap _ _ _ _ (writes_labels cap [l] ltac:(repeat constructor; lia))
         (writes_push cap []))) as Hw.
    specialize (Hw [] ltac:(simpl; lia)). simpl labels_bytes in Hw. rewrite E in Hw.
    replace (be_encode 1 24) with [24] in Hw by by vm_compute.
    destruct (Z.leb_spec (blen (@nil Z) + blen ([24] ++ [b2; b1; b0] ++ [])) cap);
      [exact Hw|simpl in *; lia].
  - unfold parseLabeledEntry. rewrite read_u8_cons. cbn [rbind].
    simpl (parseLabels _ _ _ _ _). cbn [rbind].
    change (prefix_octets 24) with 3. simpl (blen _ <? 3). cbv iota.
    rewrite wrap_buffer_ok by (simpl; lia). rewrite cursor_skip_ok by (simpl; lia). cbn [rbind].
    unfold parseNlriPrefix. simpl (_ =? _). change (prefix_octets 24) with 3. simpl (4 <? 3).
    cbv iota. rewrite cursor_pull_ok by (simpl; lia). cbn [rbind].
    rewrite ip_fromBinary_v4 by done. done.
Qed.

Lemma labeled_default_route_misread_witness :
  let rp := mkRigged (mkIPPrefix [0; 0; 0; 0] 0) [100] None in
  exists b2 b1 b0,
    serializeOneNlri 4096 AFI_IPv4 SAFI_LABELED_UNICAST rp [] = Ok [24; b2; b1; b0] /\
    parseLabeledEntry false AFI_IPv4 BGP_ATTR_MP_REACH_NLRI [] [24; b2; b1; b0] [] =
      Ok ([], [mkBgpPrefix (ip_mask (IPV4 [b2; b1; b0; 0]) 24, 24) [] None]).
Proof. apply labeled_default_route_misread; [unfold wf_label|]; lia. Defined.
