(* ===== verification/PathAttrs.v ===== *)
(** * Path attributes

    The attribute part of an UPDATE: [UpdateMsgParsingState] with
    [parseAsPathAttr], [checkPathAttributeFlag] and [parsePathAttributes]
    (lib/detail/BgpMessageParserUtils.cpp), one definition per attribute case
    of the switch, and [serializePathAttrs] (lib/BgpMessageSerializer.cpp).
    [DCHECK]s are compiled out of a release build and have no counterpart. *)

From S2P Require Import Prelude BgpException Folly BgpStructs Nlri.

(** ** Parsing state *)
Record UpdateMsgParsingState := mkState {
  attrs : BgpAttributes;
  v4Announced : list BgpPrefix;
  v4Withdrawn : list BgpPrefix;
  mpAnnouncedAfi : Z;
  mpAnnouncedSafi : Z;
  mpAnnounced : list BgpPrefix;
  mpWithdrawnAfi : Z;
  mpWithdrawnSafi : Z;
  mpWithdrawn : list BgpPrefix;
  v4WithdrawnLen : Z;
  paLen : Z;
  eor : option BgpEndOfRib;
  v4Nexthop : IPAddress;
  mpNexthop : IPAddress;
  hasOriginAttr : bool;
  hasAsPathAttr : bool
}.

Definition initialState : UpdateMsgParsingState :=
  mkState defaultAttributes [] [] 0 0 [] 0 0 [] 0 0 None IPUnset IPUnset false false.

Definition set_attrs (f : BgpAttributes -> BgpAttributes) (s : UpdateMsgParsingState) :=
  mkState (f (attrs s)) (v4Announced s) (v4Withdrawn s) (mpAnnouncedAfi s) (mpAnnouncedSafi s)
    (mpAnnounced s) (mpWithdrawnAfi s) (mpWithdrawnSafi s) (mpWithdrawn s) (v4WithdrawnLen s)
    (paLen s) (eor s) (v4Nexthop s) (mpNexthop s) (hasOriginAttr s) (hasAsPathAttr s).
Definition set_v4Announced (l : list BgpPrefix) (s : UpdateMsgParsingState) :=
  mkState (attrs s) l (v4Withdrawn s) (mpAnnouncedAfi s) (mpAnnouncedSafi s)
    (mpAnnounced s) (mpWithdrawnAfi s) (mpWithdrawnSafi s) (mpWithdrawn s) (v4WithdrawnLen s)
    (paLen s) (eor s) (v4Nexthop s) (mpNexthop s) (hasOriginAttr s) (hasAsPathAttr s).
Definition set_v4Withdrawn (l : list BgpPrefix) (s : UpdateMsgParsingState) :=
  mkState (attrs s) (v4Announced s) l (mpAnnouncedAfi s) (mpAnnouncedSafi s)
    (mpAnnounced s) (mpWithdrawnAfi s) (mpWithdrawnSafi s) (mpWithdrawn s) (v4WithdrawnLen s)
    (paLen s) (eor s) (v4Nexthop s) (mpNexthop s) (hasOriginAttr s) (hasAsPathAttr s).
Definition set_v4WithdrawnLen (n : Z) (s : UpdateMsgParsingState) :=
  mkState (attrs s) (v4Announced s) (v4Withdrawn s) (mpAnnouncedAfi s) (mpAnnouncedSafi s)
    (mpAnnounced s) (mpWithdrawnAfi s) (mpWithdrawnSafi s) (mpWithdrawn s) n
    (paLen s) (eor s) (v4Nexthop s) (mpNexthop s) (hasOriginAttr s) (hasAsPathAttr s).
Definition set_paLen (n : Z) (s : UpdateMsgParsingState) :=
  mkState (attrs s) (v4Announced s) (v4Withdrawn s) (mpAnnouncedAfi s) (mpAnnouncedSafi s)
    (mpAnnounced s) (mpWithdrawnAfi s) (mpWithdrawnSafi s) (mpWithdrawn s) (v4WithdrawnLen s)
    n (eor s) (v4Nexthop s) (mpNexthop s) (hasOriginAttr s) (hasAsPathAttr s).
Definition set_mpAnnouncedFamily (afi safi : Z) (s : UpdateMsgParsingState) :=
  mkState (attrs s) (v4Announced s) (v4Withdrawn s) afi safi
    (mpAnnounced s) (mpWithdrawnAfi s) (mpWithdrawnSafi s) (mpWithdrawn s) (v4WithdrawnLen s)
    (paLen s) (eor s) (v4Nexthop s) (mpNexthop s) (hasOriginAttr s) (hasAsPathAttr s).
Definition set_mpAnnounced (nh : IPAddress) (l : list BgpPrefix) (s : UpdateMsgParsingState) :=
  mkState (attrs s) (v4Announced s) (v4Withdrawn s) (mpAnnouncedAfi s) (mpAnnouncedSafi s)
    l (mpWithdrawnAfi s) (mpWithdrawnSafi s) (mpWithdrawn s) (v4WithdrawnLen s)
    (paLen s) (eor s) (v4Nexthop s) nh (hasOriginAttr s) (hasAsPathAttr s).
Definition set_mpWithdrawnFamily (afi safi : Z) (s : UpdateMsgParsingState) :=
  mkState (attrs s) (v4Announced s) (v4Withdrawn s) (mpAnnouncedAfi s) (mpAnnouncedSafi s)
    (mpAnnounced s) afi safi (mpWithdrawn s) (v4WithdrawnLen s)
    (paLen s) (eor s) (v4Nexthop s) (mpNexthop s) (hasOriginAttr s) (hasAsPathAttr s).
Definition set_mpWithdrawn (l : list BgpPrefix) (s : UpdateMsgParsingState) :=
  mkState (attrs s) (v4Announced s) (v4Withdrawn s) (mpAnnouncedAfi s) (mpAnnouncedSafi s)
    (mpAnnounced s) (mpWithdrawnAfi s) (mpWithdrawnSafi s) l (v4WithdrawnLen s)
    (paLen s) (eor s) (v4Nexthop s) (mpNexthop s) (hasOriginAttr s) (hasAsPathAttr s).
Definition set_eor (e : BgpEndOfRib) (s : UpdateMsgParsingState) :=
  mkState (attrs s) (v4Announced s) (v4Withdrawn s) (mpAnnouncedAfi s) (mpAnnouncedSafi s)
    (mpAnnounced s) (mpWithdrawnAfi s) (mpWithdrawnSafi s) (mpWithdrawn s) (v4WithdrawnLen s)
    (paLen s) (Some e) (v4Nexthop s) (mpNexthop s) (hasOriginAttr s) (hasAsPathAttr s).
Definition set_v4Nexthop (nh : IPAddress) (s : UpdateMsgParsingState) :=
  mkState (attrs s) (v4Announced s) (v4Withdrawn s) (mpAnnouncedAfi s) (mpAnnouncedSafi s)
    (mpAnnounced s) (mpWithdrawnAfi s) (mpWithdrawnSafi s) (mpWithdrawn s) (v4WithdrawnLen s)
    (paLen s) (eor s) nh (mpNexthop s) (hasOriginAttr s) (hasAsPathAttr s).
Definition set_hasOrigin (s : UpdateMsgParsingState) :=
  mkState (attrs s) (v4Announced s) (v4Withdrawn s) (mpAnnouncedAfi s) (mpAnnouncedSafi s)
    (mpAnnounced s) (mpWithdrawnAfi s) (mpWithdrawnSafi s) (mpWithdrawn s) (v4WithdrawnLen s)
    (paLen s) (eor s) (v4Nexthop s) (mpNexthop s) true (hasAsPathAttr s).
Definition set_hasAsPath (s : UpdateMsgParsingState) :=
  mkState (attrs s) (v4Announced s) (v4Withdrawn s) (mpAnnouncedAfi s) (mpAnnouncedSafi s)
    (mpAnnounced s) (mpWithdrawnAfi s) (mpWithdrawnSafi s) (mpWithdrawn s) (v4WithdrawnLen s)
    (paLen s) (eor s) (v4Nexthop s) (mpNexthop s) (hasOriginAttr s) true.

(** Field updates of [BgpAttributes]. *)
Definition set_origin (v : Z) (a : BgpAttributes) :=
  mkAttributes v (asPath a) (nexthop a) (med a) (localPref a) (atomicAggregate a) (aggregator a)
    (communities a) (originatorId a) (clusterList a) (extCommunities a) (largeCommunities a)
    (isMedSet a).
Definition set_asPath (v : list BgpAttrAsPathSegment) (a : BgpAttributes) :=
  mkAttributes (origin a) v (nexthop a) (med a) (localPref a) (atomicAggregate a) (aggregator a)
    (communities a) (originatorId a) (clusterList a) (extCommunities a) (largeCommunities a)
    (isMedSet a).
Definition set_nexthop (v : string) (a : BgpAttributes) :=
  mkAttributes (origin a) (asPath a) v (med a) (localPref a) (atomicAggregate a) (aggregator a)
    (communities a) (originatorId a) (clusterList a) (extCommunities a) (largeCommunities a)
    (isMedSet a).
Definition set_med (v : Z) (a : BgpAttributes) :=
  mkAttributes (origin a) (asPath a) (nexthop a) v (localPref a) (atomicAggregate a)
    (aggregator a) (communities a) (originatorId a) (clusterList a) (extCommunities a)
    (largeCommunities a) (isMedSet a).
Definition set_isMedSet (b : bool) (a : BgpAttributes) :=
  mkAttributes (origin a) (asPath a) (nexthop a) (med a) (localPref a) (atomicAggregate a)
    (aggregator a) (communities a) (originatorId a) (clusterList a) (extCommunities a)
    (largeCommunities a) b.
Definition set_localPref (v : Z) (a : BgpAttributes) :=
  mkAttributes (origin a) (asPath a) (nexthop a) (med a) (Some v) (atomicAggregate a)
    (aggregator a) (communities a) (originatorId a) (clusterList a) (extCommunities a)
    (largeCommunities a) (isMedSet a).
Definition set_atomicAggregate (a : BgpAttributes) :=
  mkAttributes (origin a) (asPath a) (nexthop a) (med a) (localPref a) true
    (aggregator a) (communities a) (originatorId a) (clusterList a) (extCommunities a)
    (largeCommunities a) (isMedSet a).
Definition set_aggregator (v : BgpAttrAggregator) (a : BgpAttributes) :=
  mkAttributes (origin a) (asPath a) (nexthop a) (med a) (localPref a) (atomicAggregate a)
    v (communities a) (originatorId a) (clusterList a) (extCommunities a)
    (largeCommunities a) (isMedSet a).
Definition set_communities (v : list BgpAttrCommunity) (a : BgpAttributes) :=
  mkAttributes (origin a) (asPath a) (nexthop a) (med a) (localPref a) (atomicAggregate a)
    (aggregator a) v (originatorId a) (clusterList a) (extCommunities a)
    (largeCommunities a) (isMedSet a).
Definition set_originatorId (v : Z) (a : BgpAttributes) :=
  mkAttributes (origin a) (asPath a) (nexthop a) (med a) (localPref a) (atomicAggregate a)
    (aggregator a) (communities a) v (clusterList a) (extCommunities a)
    (largeCommunities a) (isMedSet a).
Definition set_clusterList (v : list Z) (a : BgpAttributes) :=
  mkAttributes (origin a) (asPath a) (nexthop a) (med a) (localPref a) (atomicAggregate a)
    (aggregator a) (communities a) (originatorId a) v (extCommunities a)
    (largeCommunities a) (isMedSet a).
Definition set_extCommunities (v : list BgpAttrExtCommunity) (a : BgpAttributes) :=
  mkAttributes (origin a) (asPath a) (nexthop a) (med a) (localPref a) (atomicAggregate a)
    (aggregator a) (communities a) (originatorId a) (clusterList a) v
    (largeCommunities a) (isMedSet a).
Definition set_largeCommunities (v : list BgpAttrLargeCommunity) (a : BgpAttributes) :=
  mkAttributes (origin a) (asPath a) (nexthop a) (med a) (localPref a) (atomicAggregate a)
    (aggregator a) (communities a) (originatorId a) (clusterList a) (extCommunities a)
    v (isMedSet a).

(** [kBgpAttr_Codes_TO_FLAGS] *)
Definition kBgpAttr_Codes_TO_FLAGS : list (Z * Z) :=
  [(BGP_ATTR_ORIGIN, BGP_ATTR_FLAG_TRANSITIVE);
   (BGP_ATTR_AS_PATH, BGP_ATTR_FLAG_TRANSITIVE);
   (BGP_ATTR_NEXT_HOP, BGP_ATTR_FLAG_TRANSITIVE);
   (BGP_ATTR_MED, BGP_ATTR_FLAG_OPTIONAL);
   (BGP_ATTR_LOCAL_PREF, BGP_ATTR_FLAG_TRANSITIVE);
   (BGP_ATTR_ATOMIC_AGGREGATE, BGP_ATTR_FLAG_TRANSITIVE);
   (BGP_ATTR_AGGREGATOR, BGP_ATTR_FLAG_OPTIONAL_TRANSITIVE);
   (BGP_ATTR_COMMUNITIES, BGP_ATTR_FLAG_OPTIONAL_TRANSITIVE);
   (BGP_ATTR_ORIGINATOR_ID, BGP_ATTR_FLAG_OPTIONAL);
   (BGP_ATTR_CLUSTER_LIST, BGP_ATTR_FLAG_OPTIONAL);
   (BGP_ATTR_MP_REACH_NLRI, BGP_ATTR_FLAG_OPTIONAL);
   (BGP_ATTR_MP_UNREACH_NLRI, BGP_ATTR_FLAG_OPTIONAL);
   (BGP_ATTR_EXTENDED_COMMUNITIES, BGP_ATTR_FLAG_OPTIONAL_TRANSITIVE);
   (BGP_ATTR_LINK_STATE, BGP_ATTR_FLAG_OPTIONAL);
   (BGP_ATTR_LARGE_COMMUNITIES, BGP_ATTR_FLAG_OPTIONAL_TRANSITIVE)].

Definition find_flags (attrType : Z) : option Z :=
  snd <$> find (fun kv => fst kv =? attrType) kBgpAttr_Codes_TO_FLAGS.

(** [std::set<int64_t>::insert] on the ascending list of the elements. *)
Fixpoint set_insert (x : Z) (s : list Z) : list Z :=
  match s with
  | [] => [x]
  | y :: s' => if x <? y then x :: s else if x =? y then s else y :: set_insert x s'
  end.

Section PathAttrs.
Context `{F : FollyOps}.

(** ** AS_PATH *)

Definition emptySegment : BgpAttrAsPathSegment := mkSegment [] [] [] [].

(** One AS number stored under the segment type it was announced with. *)
Definition addAsn (segmentType asn : Z) (seg : BgpAttrAsPathSegment)
    : res BgpAttrAsPathSegment :=
  if segmentType =? 1 then
    Ok (mkSegment (set_insert asn (asSet seg)) (asSequence seg) (asConfedSequence seg)
          (asConfedSet seg))
  else if segmentType =? 2 then
    Ok (mkSegment (asSet seg) (asSequence seg ++ [asn]) (asConfedSequence seg)
          (asConfedSet seg))
  else if segmentType =? 3 then
    Ok (mkSegment (asSet seg) (asSequence seg) (asConfedSequence seg ++ [asn])
          (asConfedSet seg))
  else if segmentType =? 4 then
    Ok (mkSegment (asSet seg) (asSequence seg) (asConfedSequence seg)
          (set_insert asn (asConfedSet seg)))
  else Throw (BgpUpdateMsgException BN_UM_MALFORMED_AS_PATH []).

Definition asnSize (as4 : bool) : nat := if as4 then 4%nat else 2%nat.

(** [while (asCnt--)] *)
Fixpoint parseAsns (as4 : bool) (segmentType : Z) (asCnt : nat) (cursor : bytes)
    (seg : BgpAttrAsPathSegment) : res (bytes * BgpAttrAsPathSegment) :=
  match asCnt with
  | O => Ok (cursor, seg)
  | S asCnt =>
      let* '(asn, cursor) := readBE (asnSize as4) cursor in
      let* seg := addAsn segmentType asn seg in
      parseAsns as4 segmentType asCnt cursor seg
  end.

(** The loop body of [parseAsPathAttr]. *)
Definition parseAsPathSegment (as4 : bool) (attrBeingParsed cursor : bytes)
    (acc : list BgpAttrAsPathSegment) : res (bytes * list BgpAttrAsPathSegment) :=
  if blen cursor <? 2 then
    Throw (BgpUpdateMsgException BN_UM_ATTR_LEN_ERR attrBeingParsed)
  else
  let* '(segmentType, cursor) := read_u8 cursor in
  let* '(asCnt, cursor) := read_u8 cursor in
  let expectedLength := if as4 then 4 * asCnt else 2 * asCnt in
  if blen cursor <? expectedLength then
    Throw (BgpUpdateMsgException BN_UM_ATTR_LEN_ERR attrBeingParsed)
  else
  let* '(cursor, seg) := parseAsns as4 segmentType (Z.to_nat asCnt) cursor emptySegment in
  Ok (cursor, acc ++ [seg]).

Definition parseAsPathAttr (cursor : bytes) (capa : BgpCapabilities) (attrBeingParsed : bytes)
    : res (list BgpAttrAsPathSegment) :=
  while_readable (parseAsPathSegment (as4byte capa) attrBeingParsed) cursor [].

(** ** The attribute switch *)

Definition parseOrigin (abp body : bytes) (st : UpdateMsgParsingState)
    : res UpdateMsgParsingState :=
  let* '(originCode, _) := read_u8 body in
  if 2 <? originCode then Throw (BgpUpdateMsgException BN_UM_INVALID_ORIGIN_ATTR abp)
  else Ok (set_hasOrigin (set_attrs (set_origin originCode) st)).

Definition parseNextHop (abp body : bytes) (st : UpdateMsgParsingState)
    : res UpdateMsgParsingState :=
  if negb (blen body =? 4) then Throw (BgpUpdateMsgException BN_UM_INVALID_NEXT_HOP_ATTR abp)
  else
  let* '(v, _) := readBE 4 body in
  let nh := ip_fromLongHBO v in
  Ok (set_attrs (set_nexthop (ip_str nh)) (set_v4Nexthop nh st)).

Definition parseAggregator (capa : BgpCapabilities) (abp body : bytes)
    (st : UpdateMsgParsingState) : res UpdateMsgParsingState :=
  let* '(asn, body) := readBE (asnSize (as4byte capa)) body in
  let* '(v, body) := readBE 4 body in
  let st := set_attrs (set_aggregator (mkAggregator asn (ip_str (ip_fromLongHBO v)))) st in
  if negb (blen body =? 0) then Throw (BgpUpdateMsgException BN_UM_OPTIONAL_ATTR_ERROR abp)
  else Ok st.

Definition parseCommunity (body : bytes) (acc : list BgpAttrCommunity)
    : res (bytes * list BgpAttrCommunity) :=
  let* '(asn, body) := readBE 2 body in
  let* '(value, body) := readBE 2 body in
  Ok (body, acc ++ [mkCommunity asn value]).

Definition parseClusterId (body : bytes) (acc : list Z) : res (bytes * list Z) :=
  let* '(v, body) := readHost 4 body in Ok (body, acc ++ [v]).

Definition parseExtCommunity (body : bytes) (acc : list BgpAttrExtCommunity)
    : res (bytes * list BgpAttrExtCommunity) :=
  let* '(w1, body) := readBE 4 body in
  let* '(w2, body) := readBE 4 body in
  Ok (body, acc ++ [mkExtCommunity w1 w2]).

Definition parseLargeCommunity (body : bytes) (acc : list BgpAttrLargeCommunity)
    : res (bytes * list BgpAttrLargeCommunity) :=
  let* '(asn, body) := readBE 4 body in
  let* '(d1, body) := readBE 4 body in
  let* '(d2, body) := readBE 4 body in
  Ok (body, acc ++ [mkLargeCommunity asn d1 d2]).

Definition parseOriginatorId (abp body : bytes) (st : UpdateMsgParsingState)
    : res UpdateMsgParsingState :=
  let* '(v, body) := readHost 4 body in
  let st := set_attrs (set_originatorId v) st in
  if negb (blen body =? 0) then Throw (BgpUpdateMsgException BN_UM_ATTR_LEN_ERR abp)
  else Ok st.

(** A 16-byte next hop, followed by a link-local one that is skipped when the
    announced length is 32. *)
Definition parseV6Nexthop (nextHopLen : Z) (body : bytes) : res (IPAddress * bytes) :=
  let* '(buf, body) := cursor_pull body 16 in
  let* nh := ip_fromBinary buf in
  let* body := if nextHopLen =? 32 then cursor_skip body 16 else Ok body in
  Ok (nh, body).

Definition parseMpReach (capa : BgpCapabilities) (abp body : bytes)
    (st : UpdateMsgParsingState) : res UpdateMsgParsingState :=
  let* '(afi, body) := readBE 2 body in
  let* '(safi, body) := read_u8 body in
  let st := set_mpAnnouncedFamily afi safi st in
  if afi =? AFI_IPv4 then
    let* '(nextHopLen, body) := read_u8 body in
    let extNhEncoding := 0 <? Z.of_nat (length (extNHEncodingCapabilities capa)) in
    if negb extNhEncoding && negb (nextHopLen =? 4) then
      Throw (BgpUpdateMsgException BN_UM_OPTIONAL_ATTR_ERROR abp)
    else if extNhEncoding && negb (nextHopLen =? 4) && negb (nextHopLen =? 16) &&
            negb (nextHopLen =? 32) then
      Throw (BgpUpdateMsgException BN_UM_OPTIONAL_ATTR_ERROR abp)
    else
    let* '(nh, body) :=
      if nextHopLen =? 4
      then let* '(v, body) := readBE 4 body in Ok (ip_fromLongHBO v, body)
      else parseV6Nexthop nextHopLen body in
    let* body := cursor_skip body 1 in
    let* l := parseMpNlri body AFI_IPv4 safi capa abp BGP_ATTR_MP_REACH_NLRI in
    Ok (set_mpAnnounced nh l st)
  else if afi =? AFI_IPv6 then
    let* '(nextHopLen, body) := read_u8 body in
    if negb (nextHopLen =? 16) && negb (nextHopLen =? 32) then
      Throw (BgpUpdateMsgException BN_UM_OPTIONAL_ATTR_ERROR abp)
    else
    let* '(nh, body) := parseV6Nexthop nextHopLen body in
    let* body := cursor_skip body 1 in
    let* l := parseMpNlri body AFI_IPv6 safi capa abp BGP_ATTR_MP_REACH_NLRI in
    Ok (set_mpAnnounced nh l st)
  else Ok st.

Definition parseMpUnreach (capa : BgpCapabilities) (abp body : bytes)
    (st : UpdateMsgParsingState) : res UpdateMsgParsingState :=
  let* '(afi, body) := readBE 2 body in
  let* '(safi, body) := read_u8 body in
  let st := set_mpWithdrawnFamily afi safi st in
  if (afi =? AFI_IPv4) || (afi =? AFI_IPv6) then
    if blen body =? 0 then Ok (set_eor (mkEndOfRib true afi safi) st)
    else
    let* l := parseMpNlri body afi safi capa abp BGP_ATTR_MP_UNREACH_NLRI in
    Ok (set_mpWithdrawn l st)
  else Throw (BgpUpdateMsgException BN_UM_OPTIONAL_ATTR_ERROR abp).

(** [switch (attrType)] *)
Definition parseAttrBody (capa : BgpCapabilities) (attrType : Z) (abp body : bytes)
    (st : UpdateMsgParsingState) : res UpdateMsgParsingState :=
  if attrType =? BGP_ATTR_ORIGIN then parseOrigin abp body st
  else if attrType =? BGP_ATTR_AS_PATH then
    let* p := parseAsPathAttr body capa abp in
    Ok (set_hasAsPath (set_attrs (set_asPath p) st))
  else if attrType =? BGP_ATTR_NEXT_HOP then parseNextHop abp body st
  else if attrType =? BGP_ATTR_MED then
    let* '(v, _) := readBE 4 body in
    Ok (set_attrs (fun a => set_isMedSet true (set_med v a)) st)
  else if attrType =? BGP_ATTR_LOCAL_PREF then
    let* '(v, _) := readBE 4 body in Ok (set_attrs (set_localPref v) st)
  else if attrType =? BGP_ATTR_ATOMIC_AGGREGATE then Ok (set_attrs set_atomicAggregate st)
  else if attrType =? BGP_ATTR_AGGREGATOR then parseAggregator capa abp body st
  else if attrType =? BGP_ATTR_COMMUNITIES then
    let* l := while_readable parseCommunity body (communities (attrs st)) in
    Ok (set_attrs (set_communities l) st)
  else if attrType =? BGP_ATTR_ORIGINATOR_ID then parseOriginatorId abp body st
  else if attrType =? BGP_ATTR_CLUSTER_LIST then
    let* l := while_readable parseClusterId body (clusterList (attrs st)) in
    Ok (set_attrs (set_clusterList l) st)
  else if attrType =? BGP_ATTR_MP_REACH_NLRI then parseMpReach capa abp body st
  else if attrType =? BGP_ATTR_MP_UNREACH_NLRI then parseMpUnreach capa abp body st
  else if attrType =? BGP_ATTR_EXTENDED_COMMUNITIES then
    let* l := while_readable parseExtCommunity body (extCommunities (attrs st)) in
    Ok (set_attrs (set_extCommunities l) st)
  else if attrType =? BGP_ATTR_LARGE_COMMUNITIES then
    let* l := while_readable parseLargeCommunity body (largeCommunities (attrs st)) in
    Ok (set_attrs (set_largeCommunities l) st)
  else Ok st.

(** ** The attribute loop *)

Definition has_flag (attrFlags flag : Z) : bool := negb (Z.land attrFlags flag =? 0).

Definition checkPathAttributeFlag (attrFlags attrType : Z) (attrBeingParsed : bytes)
    : res unit :=
  match find_flags attrType with
  | Some flags =>
      if negb (flags =? Z.land attrFlags 0xc0)
      then Throw (BgpUpdateMsgException BN_UM_ATTR_FLAGS_ERR attrBeingParsed)
      else Ok tt
  | None => Ok tt
  end.

(** The type, length and value octets of the attribute, as many as there are.
    The length is an [int16_t], which holds it: a message has at most 4096
    octets. *)
Definition rawAttr (cur1 cur : bytes) (attrBodyLen lengthSize : Z) : bytes :=
  let rawAttrLen :=
    if attrBodyLen <? blen cur then attrBodyLen + lengthSize + 1
    else blen cur + lengthSize + 1 in
  wrap_buffer cur1 (Z.to_nat (sint 16 rawAttrLen)).

(** The body of the loop, inside its [try] block. *)
Definition parsePathAttribute' (capa : BgpCapabilities) (paCursor : bytes)
    (st : UpdateMsgParsingState) : res (bytes * UpdateMsgParsingState) :=
  let* '(attrFlags, cur1) := read_u8 paCursor in
  let* '(attrType, cur) := read_u8 cur1 in
  let lengthSize := if has_flag attrFlags BGP_ATTR_FLAG_EXTENDED then 2 else 1 in
  let* '(attrBodyLen, cur) := readBE (Z.to_nat lengthSize) cur in
  let attrBeingParsed := attrFlags :: rawAttr cur1 cur attrBodyLen lengthSize in
  let* _ := checkPathAttributeFlag attrFlags attrType attrBeingParsed in
  if blen cur <? attrBodyLen then
    Throw (BgpUpdateMsgException BN_UM_MALFORMED_ATTRIBUTE_LIST [])
  else if negb (has_flag attrFlags BGP_ATTR_FLAG_OPTIONAL) &&
          negb (has_flag attrFlags BGP_ATTR_FLAG_TRANSITIVE) then
    Throw (BgpUpdateMsgException BN_UM_ATTR_FLAGS_ERR attrBeingParsed)
  else if (negb (has_flag attrFlags BGP_ATTR_FLAG_OPTIONAL) ||
           negb (has_flag attrFlags BGP_ATTR_FLAG_TRANSITIVE)) &&
          has_flag attrFlags BGP_ATTR_FLAG_PARTIAL then
    Throw (BgpUpdateMsgException BN_UM_ATTR_FLAGS_ERR attrBeingParsed)
  else
  let body := wrap_buffer cur (Z.to_nat attrBodyLen) in
  let* cur := cursor_skip cur (Z.to_nat attrBodyLen) in
  let* st := parseAttrBody capa attrType attrBeingParsed body st in
  Ok (cur, st).

Definition parsePathAttribute (capa : BgpCapabilities) (paCursor : bytes)
    (st : UpdateMsgParsingState) : res (bytes * UpdateMsgParsingState) :=
  catch_out_of_range (parsePathAttribute' capa paCursor st)
    (BgpUpdateMsgException BN_UM_MALFORMED_ATTRIBUTE_LIST []).

Definition parsePathAttributes (updateMsgCursor : bytes) (capa : BgpCapabilities)
    (st : UpdateMsgParsingState) : res (bytes * UpdateMsgParsingState) :=
  let st := set_attrs (set_isMedSet false) st in
  if blen updateMsgCursor <? 2 then
    Throw (BgpUpdateMsgException BN_UM_MALFORMED_ATTRIBUTE_LIST [])
  else
  let* '(n, cur) := readBE 2 updateMsgCursor in
  let st := set_paLen n st in
  if n =? 0 then Ok (cur, st)
  else if blen cur <? n then Throw (BgpUpdateMsgException BN_UM_MALFORMED_ATTRIBUTE_LIST [])
  else
  let paBuf := wrap_buffer cur (Z.to_nat n) in
  let* cur := cursor_skip cur (Z.to_nat n) in
  let* st := while_readable (parsePathAttribute capa) paBuf st in
  Ok (cur, st).

(** ** Termination and exceptions of the parser *)
Context {L : FollyLaws F}.

Lemma parseAsns_total as4 t n cur seg : parseAsns as4 t n cur seg <> NoFuel.
Proof.
  revert cur seg. induction n as [|n IH]; intros cur seg; cbn [parseAsns]; [done|].
  unfold addAsn. solve_total.
Qed.
Lemma parseAsns_throws as4 t n cur seg : throws_in update_or_oor (parseAsns as4 t n cur seg).
Proof.
  revert cur seg. induction n as [|n IH]; intros cur seg; cbn [parseAsns]; [solve_throws|].
  unfold addAsn. solve_throws.
Qed.
Lemma parseAsns_shrinks as4 t n cur seg cur' seg' :
  parseAsns as4 t n cur seg = Ok (cur', seg') -> (length cur' <= length cur)%nat.
Proof.
  revert cur seg. induction n as [|n IH]; intros cur seg H; cbn [parseAsns] in H; inv_reads;
    [done|]. apply IH in H. len.
Qed.
Hint Resolve parseAsns_total parseAsns_throws : bgp.

Lemma parseAsPathSegment_consumes as4 a : consumes (parseAsPathSegment as4 a).
Proof.
  unfold parseAsPathSegment. intros cur acc cur' acc' Hne H. inv_reads.
  match goal with Hl : parseAsns _ _ _ _ _ = Ok _ |- _ => apply parseAsns_shrinks in Hl end.
  len.
Qed.
Lemma parseAsPathAttr_total cur capa a : parseAsPathAttr cur capa a <> NoFuel.
Proof.
  apply while_readable_total; [apply parseAsPathSegment_consumes|].
  intros. unfold parseAsPathSegment. solve_total.
Qed.
Lemma parseAsPathAttr_throws cur capa a : throws_in update_or_oor (parseAsPathAttr cur capa a).
Proof.
  apply while_readable_throws_in. intros. unfold parseAsPathSegment. solve_throws.
Qed.

Lemma parseCommunity_consumes : consumes parseCommunity.
Proof. unfold parseCommunity. solve_consumes. Qed.
Lemma parseClusterId_consumes : consumes parseClusterId.
Proof. unfold parseClusterId. solve_consumes. Qed.
Lemma parseExtCommunity_consumes : consumes parseExtCommunity.
Proof. unfold parseExtCommunity. solve_consumes. Qed.
Lemma parseLargeCommunity_consumes : consumes parseLargeCommunity.
Proof. unfold parseLargeCommunity. solve_consumes. Qed.
Hint Resolve parseAsPathAttr_total parseAsPathAttr_throws parseMpNlri_total parseMpNlri_throws
  parseCommunity_consumes parseClusterId_consumes parseExtCommunity_consumes
  parseLargeCommunity_consumes : bgp.

Lemma parseV6Nexthop_total n body : parseV6Nexthop n body <> NoFuel.
Proof. unfold parseV6Nexthop. solve_total. apply ip_fromBinary_total. Qed.
Lemma parseV6Nexthop_throws n body : throws_in update_or_oor (parseV6Nexthop n body).
Proof.
  unfold parseV6Nexthop. rewrite cursor_pull_case. case_decide; cbn [rbind]; [|solve_throws].
  rewrite ip_fromBinary_v6 by len. solve_throws.
Qed.
Hint Resolve parseV6Nexthop_total parseV6Nexthop_throws : bgp.

Lemma parseAttrBody_total capa t a body st : parseAttrBody capa t a body st <> NoFuel.
Proof.
  unfold parseAttrBody, parseOrigin, parseNextHop, parseAggregator, parseOriginatorId,
    parseMpReach, parseMpUnreach.
  solve_total; apply while_readable_total; auto with bgp; intros;
    unfold parseCommunity, parseClusterId, parseExtCommunity, parseLargeCommunity; solve_total.
Qed.
Lemma parseAttrBody_throws capa t a body st :
  throws_in update_or_oor (parseAttrBody capa t a body st).
Proof.
  unfold parseAttrBody, parseOrigin, parseNextHop, parseAggregator, parseOriginatorId,
    parseMpReach, parseMpUnreach.
  solve_throws; apply while_readable_throws_in; intros;
    unfold parseCommunity, parseClusterId, parseExtCommunity, parseLargeCommunity; solve_throws.
Qed.
Hint Resolve parseAttrBody_total parseAttrBody_throws : bgp.

Lemma parsePathAttribute_consumes capa : consumes (parsePathAttribute capa).
Proof. unfold parsePathAttribute, parsePathAttribute'. solve_consumes. Qed.
Lemma parsePathAttribute_total capa cur st : parsePathAttribute capa cur st <> NoFuel.
Proof.
  unfold parsePathAttribute, parsePathAttribute', checkPathAttributeFlag. solve_total.
Qed.
Lemma parsePathAttribute_throws capa cur st :
  throws_in is_update_exn (parsePathAttribute capa cur st).
Proof.
  unfold parsePathAttribute. apply catch_out_of_range_throws_in.
  unfold parsePathAttribute', checkPathAttributeFlag. solve_throws.
Qed.

Lemma parsePathAttributes_total cur capa st : parsePathAttributes cur capa st <> NoFuel.
Proof.
  unfold parsePathAttributes. solve_total.
  apply while_readable_total; [apply parsePathAttribute_consumes|apply parsePathAttribute_total].
Qed.
Lemma parsePathAttributes_throws cur capa st : wf_bytes cur ->
  throws_in is_update_exn (parsePathAttributes cur capa st).
Proof.
  intros Hwf. unfold parsePathAttributes.
  destruct (Z.ltb_spec (blen cur) 2); [solve_throws|]. cbv zeta.
  rewrite readBE_case. case_decide; [|lia]. cbn [rbind].
  case_match; [solve_throws|]. case_match eqn:Hl; [solve_throws|].
  apply Z.ltb_ge in Hl.
  assert (0 <= be_decode (take 2 cur)) by (apply be_decode_range, Forall_take, Hwf).
  rewrite cursor_skip_ok by lia. cbn [rbind]. apply throws_in_bind; [|solve_throws].
  apply while_readable_throws_in. intros. apply parsePathAttribute_throws.
Qed.
End PathAttrs.
