(* ===== verification/PathAttrsSerializer.v ===== *)
(** * Serializing path attributes

    [serializePathAttrs] (lib/BgpMessageSerializer.cpp), one definition per
    attribute it writes, the wire form of an attribute list, and the theorem
    that [parsePathAttributes] reads it back. *)

From S2P Require Import Prelude BgpException Folly BgpStructs Nlri PathAttrs.
From Stdlib Require Import Sorted.

Section PathAttrsSerializer.
Context `{F : FollyOps}.
Variable cap : Z.

(** ** Operations *)

Definition writeAsn (as4 : bool) (asn : Z) (w : bytes) : res bytes :=
  writeBE (asnSize as4) cap w asn.

Definition writeAsns (as4 : bool) (segmentType : Z) (asns : list Z) (w : bytes) : res bytes :=
  let* w := write_u8 cap w segmentType in
  let* w := write_u8 cap w (Z.of_nat (length asns)) in
  for_each (writeAsn as4) asns w.

Definition usedSegmentTypes (seg : BgpAttrAsPathSegment) : Z :=
  (if nonempty (asSequence seg) then 1 else 0) + (if nonempty (asSet seg) then 1 else 0) +
  (if nonempty (asConfedSequence seg) then 1 else 0) +
  (if nonempty (asConfedSet seg) then 1 else 0).

Definition writeSegment (as4 : bool) (seg : BgpAttrAsPathSegment) (w : bytes) : res bytes :=
  if negb (usedSegmentTypes seg =? 1) then
    Throw (BgpSerializerException INVALID_ASPATH_INFO)
  else if nonempty (asSet seg) then writeAsns as4 1 (asSet seg) w
  else if nonempty (asSequence seg) then writeAsns as4 2 (asSequence seg) w
  else if nonempty (asConfedSequence seg) then writeAsns as4 3 (asConfedSequence seg) w
  else writeAsns as4 4 (asConfedSet seg) w.

Definition writeOrigin (a : BgpAttributes) (w : bytes) : res bytes :=
  let* w := write_u8 cap w BGP_ATTR_FLAG_TRANSITIVE in
  let* w := write_u8 cap w BGP_ATTR_ORIGIN in
  let* w := write_u8 cap w 1 in
  write_u8 cap w (origin a).

(** The segments are written behind a gap of two bytes, which receives the
    length once it is known. *)
Definition writeAsPathBody (as4 : bool) (segs : list BgpAttrAsPathSegment) (w : bytes)
    : res bytes :=
  let* w0 := rw_skip cap w 2 in
  let* w1 := for_each (writeSegment as4) segs w0 in
  let asPathLen := blen w1 - blen w - 2 in
  if 0xFFF <? asPathLen then Throw (BgpSerializerException EXCEEDED_MAX_SIZE)
  else rw_write_at w1 (length w) (be_encode 2 asPathLen).

Definition writeAsPath (as4 : bool) (a : BgpAttributes) (w : bytes) : res bytes :=
  let* w := write_u8 cap w (Z.lor BGP_ATTR_FLAG_TRANSITIVE BGP_ATTR_FLAG_EXTENDED) in
  let* w := write_u8 cap w BGP_ATTR_AS_PATH in
  writeAsPathBody as4 (asPath a) w.

Definition writeNextHopHeader (w : bytes) : res bytes :=
  let* w := write_u8 cap w BGP_ATTR_FLAG_TRANSITIVE in
  let* w := write_u8 cap w BGP_ATTR_NEXT_HOP in
  write_u8 cap w 4.

(** The first four octets of the address, copied. *)
Definition writeNextHop (v4Nexthop : bytes) (w : bytes) : res bytes :=
  let* nh := toIPAddress v4Nexthop in
  rw_push cap w (take 4 (ip_bytes nh)).

Definition writeMed (a : BgpAttributes) (w : bytes) : res bytes :=
  let* w := write_u8 cap w BGP_ATTR_FLAG_OPTIONAL in
  let* w := write_u8 cap w BGP_ATTR_MED in
  let* w := write_u8 cap w 4 in
  writeBE 4 cap w (med a).

Definition writeLocalPref (v : Z) (w : bytes) : res bytes :=
  let* w := write_u8 cap w BGP_ATTR_FLAG_TRANSITIVE in
  let* w := write_u8 cap w BGP_ATTR_LOCAL_PREF in
  let* w := write_u8 cap w 4 in
  writeBE 4 cap w v.

Definition writeAtomicAggregate (w : bytes) : res bytes :=
  let* w := write_u8 cap w BGP_ATTR_FLAG_TRANSITIVE in
  let* w := write_u8 cap w BGP_ATTR_ATOMIC_AGGREGATE in
  write_u8 cap w 0.

Definition writeAggregatorIp (ip : string) (w : bytes) : res bytes :=
  let* aggIp := ip_of_str ip in
  match aggIp with
  | IPV4 o => writeBE 4 cap w (be_decode o)
  | _ => Throw InvalidAddressFamilyException
  end.

Definition writeAggregator (as4 : bool) (g : BgpAttrAggregator) (w : bytes) : res bytes :=
  let* w := write_u8 cap w (Z.lor BGP_ATTR_FLAG_OPTIONAL BGP_ATTR_FLAG_TRANSITIVE) in
  let* w := write_u8 cap w BGP_ATTR_AGGREGATOR in
  let* w := write_u8 cap w (4 + Z.of_nat (asnSize as4)) in
  let* w := writeBE (asnSize as4) cap w (agg_asn g) in
  writeAggregatorIp (agg_ip g) w.

Definition writeCommunity (c : BgpAttrCommunity) (w : bytes) : res bytes :=
  let* w := writeBE 2 cap w (comm_asn c) in
  writeBE 2 cap w (comm_value c).

Definition writeCommunities (cs : list BgpAttrCommunity) (w : bytes) : res bytes :=
  let* w := write_u8 cap w (Z.lor (Z.lor BGP_ATTR_FLAG_OPTIONAL BGP_ATTR_FLAG_TRANSITIVE)
                              BGP_ATTR_FLAG_EXTENDED) in
  let* w := write_u8 cap w BGP_ATTR_COMMUNITIES in
  let* w := writeBE 2 cap w (4 * Z.of_nat (length cs)) in
  for_each writeCommunity cs w.

Definition writeOriginatorId (v : Z) (w : bytes) : res bytes :=
  let* w := write_u8 cap w BGP_ATTR_FLAG_OPTIONAL in
  let* w := write_u8 cap w BGP_ATTR_ORIGINATOR_ID in
  let* w := write_u8 cap w 4 in
  writeHost 4 cap w v.

Definition writeClusterList (cl : list Z) (w : bytes) : res bytes :=
  let* w := write_u8 cap w (Z.lor BGP_ATTR_FLAG_OPTIONAL BGP_ATTR_FLAG_EXTENDED) in
  let* w := write_u8 cap w BGP_ATTR_CLUSTER_LIST in
  let* w := writeBE 2 cap w (4 * Z.of_nat (length cl)) in
  for_each (fun v w => writeHost 4 cap w v) cl w.

Definition writeExtCommunity (c : BgpAttrExtCommunity) (w : bytes) : res bytes :=
  let* w := writeBE 4 cap w (firstWord c) in
  writeBE 4 cap w (secondWord c).

Definition writeExtCommunities (cs : list BgpAttrExtCommunity) (w : bytes) : res bytes :=
  let* w := write_u8 cap w (Z.lor (Z.lor BGP_ATTR_FLAG_OPTIONAL BGP_ATTR_FLAG_TRANSITIVE)
                              BGP_ATTR_FLAG_EXTENDED) in
  let* w := write_u8 cap w BGP_ATTR_EXTENDED_COMMUNITIES in
  let* w := writeBE 2 cap w (8 * Z.of_nat (length cs)) in
  for_each writeExtCommunity cs w.

Definition has_aggregator (a : BgpAttributes) : bool :=
  negb (agg_asn (aggregator a) =? 0) && negb (bool_decide (agg_ip (aggregator a) = ""%string)).

(** Everything after NEXT_HOP. *)
Definition writeOptionalAttrs (as4 : bool) (a : BgpAttributes) (w : bytes) : res bytes :=
  let* w := if isMedSet a then writeMed a w else Ok w in
  let* w := match localPref a with Some v => writeLocalPref v w | None => Ok w end in
  let* w := if atomicAggregate a then writeAtomicAggregate w else Ok w in
  let* w := if has_aggregator a then writeAggregator as4 (aggregator a) w else Ok w in
  let* w := if nonempty (communities a) then writeCommunities (communities a) w else Ok w in
  let* w := if negb (originatorId a =? 0) then writeOriginatorId (originatorId a) w
            else Ok w in
  let* w := if nonempty (clusterList a) then writeClusterList (clusterList a) w else Ok w in
  if nonempty (extCommunities a) then writeExtCommunities (extCommunities a) w else Ok w.

(** The second component is [*outNexthopOffsetInAttrs]. *)
Definition serializePathAttrs (update : BgpUpdate2) (as4 v4 : bool) (w : bytes)
    : res (bytes * option Z) :=
  let a := u_attrs update in
  let start := blen w in
  let* w := writeOrigin a w in
  let* w := writeAsPath as4 a w in
  let* '(w, off) :=
    if v4 then
      let* w := writeNextHopHeader w in
      let off := blen w - start in
      let* w := writeNextHop (u_v4Nexthop update) w in
      Ok (w, Some off)
    else Ok (w, None) in
  let* w := writeOptionalAttrs as4 a w in
  Ok (w, off).
End PathAttrsSerializer.

(** ** Wire form *)

Definition attr_tlv (flags code : Z) (body : bytes) : bytes :=
  be_encode 1 flags ++ be_encode 1 code ++
  be_encode (if has_flag flags BGP_ATTR_FLAG_EXTENDED then 2 else 1) (blen body) ++ body.

Definition segment_kind (seg : BgpAttrAsPathSegment) : Z * list Z :=
  if nonempty (asSet seg) then (1, asSet seg)
  else if nonempty (asSequence seg) then (2, asSequence seg)
  else if nonempty (asConfedSequence seg) then (3, asConfedSequence seg)
  else (4, asConfedSet seg).

Definition segment_bytes (as4 : bool) (seg : BgpAttrAsPathSegment) : bytes :=
  be_encode 1 (fst (segment_kind seg)) ++
  be_encode 1 (Z.of_nat (length (snd (segment_kind seg)))) ++
  concat (map (be_encode (asnSize as4)) (snd (segment_kind seg))).

Definition asPath_bytes (as4 : bool) (segs : list BgpAttrAsPathSegment) : bytes :=
  concat (map (segment_bytes as4) segs).

Definition community_bytes (c : BgpAttrCommunity) : bytes :=
  be_encode 2 (comm_asn c) ++ be_encode 2 (comm_value c).
Definition extCommunity_bytes (c : BgpAttrExtCommunity) : bytes :=
  be_encode 4 (firstWord c) ++ be_encode 4 (secondWord c).

Definition head_bytes (as4 : bool) (a : BgpAttributes) : bytes :=
  attr_tlv 0x40 BGP_ATTR_ORIGIN (be_encode 1 (origin a)) ++
  attr_tlv 0x50 BGP_ATTR_AS_PATH (asPath_bytes as4 (asPath a)).

Definition localPref_bytes (lp : option Z) : bytes :=
  match lp with Some v => attr_tlv 0x40 BGP_ATTR_LOCAL_PREF (be_encode 4 v) | None => [] end.

Definition scalar_bytes (a : BgpAttributes) : bytes :=
  (if isMedSet a then attr_tlv 0x80 BGP_ATTR_MED (be_encode 4 (med a)) else []) ++
  localPref_bytes (localPref a) ++
  (if atomicAggregate a then attr_tlv 0x40 BGP_ATTR_ATOMIC_AGGREGATE [] else []).

(** [o] are the four octets of the aggregator's address. *)
Definition list_bytes (as4 : bool) (o : bytes) (a : BgpAttributes) : bytes :=
  (if has_aggregator a
   then attr_tlv 0xc0 BGP_ATTR_AGGREGATOR
          (be_encode (asnSize as4) (agg_asn (aggregator a)) ++ be_encode 4 (be_decode o))
   else []) ++
  (if nonempty (communities a)
   then attr_tlv 0xd0 BGP_ATTR_COMMUNITIES (concat (map community_bytes (communities a)))
   else []) ++
  (if negb (originatorId a =? 0)
   then attr_tlv 0x80 BGP_ATTR_ORIGINATOR_ID (le_encode 4 (originatorId a)) else []) ++
  (if nonempty (clusterList a)
   then attr_tlv 0x90 BGP_ATTR_CLUSTER_LIST (concat (map (le_encode 4) (clusterList a)))
   else []) ++
  (if nonempty (extCommunities a)
   then attr_tlv 0xd0 BGP_ATTR_EXTENDED_COMMUNITIES
          (concat (map extCommunity_bytes (extCommunities a)))
   else []).

Definition optional_bytes (as4 : bool) (o : bytes) (a : BgpAttributes) : bytes :=
  scalar_bytes a ++ list_bytes as4 o a.

Definition nexthop_bytes (v4 : bool) (nh : bytes) : bytes :=
  if v4 then attr_tlv 0x40 BGP_ATTR_NEXT_HOP nh else [].

Definition attrs_bytes (as4 v4 : bool) (o nh : bytes) (a : BgpAttributes) : bytes :=
  head_bytes as4 a ++ nexthop_bytes v4 nh ++ optional_bytes as4 o a.

(** Offset of the next hop in the attributes: after its 3-octet header. *)
Definition nexthop_offset (as4 v4 : bool) (a : BgpAttributes) : option Z :=
  if v4 then Some (blen (head_bytes as4 a) + 3) else None.

(** ** Well-formed attributes: what the fields are documented to hold *)

Definition wf_asn (as4 : bool) (asn : Z) : Prop := 0 <= asn < 256 ^ Z.of_nat (asnSize as4).

(** Exactly one of the four members is used, with at most 255 AS numbers of the
    session's width; the sets are in the order of [std::set]. *)
Definition wf_segment (as4 : bool) (seg : BgpAttrAsPathSegment) : Prop :=
  usedSegmentTypes seg = 1 /\
  Forall (wf_asn as4) (snd (segment_kind seg)) /\
  (length (snd (segment_kind seg)) <= 255)%nat /\
  StronglySorted Z.lt (asSet seg) /\ StronglySorted Z.lt (asConfedSet seg).

Definition u32 (v : Z) : Prop := 0 <= v < 2 ^ 32.
Definition u16 (v : Z) : Prop := 0 <= v < 2 ^ 16.

Section WireForm.
Context `{F : FollyOps} `{L : !FollyLaws F}.

Definition wf_aggregator (as4 : bool) (o : bytes) (g : BgpAttrAggregator) : Prop :=
  g = mkAggregator 0 "" \/
  (wf_asn as4 (agg_asn g) /\ agg_asn g <> 0 /\ length o = 4%nat /\ wf_bytes o /\
   agg_ip g = ip_str (IPV4 o)).

Record wf_attrs (as4 : bool) (o : bytes) (a : BgpAttributes) : Prop := {
  wf_origin : 0 <= origin a <= 2;
  wf_asPath : Forall (wf_segment as4) (asPath a);
  wf_med : u32 (med a);
  wf_medSet : isMedSet a = false -> med a = 0;
  wf_localPref : forall v, localPref a = Some v -> u32 v;
  wf_agg : wf_aggregator as4 o (aggregator a);
  wf_communities :
    Forall (fun c => u16 (comm_asn c) /\ u16 (comm_value c)) (communities a);
  wf_originatorId : u32 (originatorId a);
  wf_clusterList : Forall u32 (clusterList a);
  wf_extCommunities :
    Forall (fun c => u32 (firstWord c) /\ u32 (secondWord c)) (extCommunities a)
}.

Lemma wf_attrs_communities as4 o a cs : wf_attrs as4 o a ->
  Forall (fun c => u16 (comm_asn c) /\ u16 (comm_value c)) cs ->
  wf_attrs as4 o (set_communities cs a).
Proof. intros [] Hcs. by split. Qed.

(** *** The serializer writes the wire form *)

Lemma writes_asns cap as4 t asns :
  writes cap (writeAsns cap as4 t asns)
    (be_encode 1 t ++ be_encode 1 (Z.of_nat (length asns)) ++
     concat (map (be_encode (asnSize as4)) asns)).
Proof.
  unfold writeAsns. solve_writes. apply Forall_true. intros. apply writes_BE.
Qed.

Lemma writes_segment cap as4 seg : usedSegmentTypes seg = 1 ->
  writes cap (writeSegment cap as4 seg) (segment_bytes as4 seg).
Proof.
  intros Hu. unfold writeSegment, segment_bytes, segment_kind. rewrite Hu. simpl negb. cbv iota.
  repeat (case_match; try apply writes_asns).
Qed.

Lemma writes_asPathBody cap as4 segs : cap <= kMaxBgpMsgLen ->
  Forall (fun s => usedSegmentTypes s = 1) segs ->
  writes cap (writeAsPathBody cap as4 segs)
    (be_encode 2 (blen (asPath_bytes as4 segs)) ++ asPath_bytes as4 segs).
Proof.
  intros Hcap Hok.
  assert (Hk : writes cap (for_each (writeSegment cap as4) segs) (asPath_bytes as4 segs)).
  { apply writes_for_each. eapply Forall_impl; [exact Hok|]. intros. by apply writes_segment. }
  intros w Hw. rewrite <- (writes_with_length cap 2 _ _ Hk w Hw).
  unfold writeAsPathBody, with_length.
  destruct (decide (blen w + 2 <= cap)).
  - destruct (rw_skip_ok cap w 2) as (hole & Hh & ->); [lia|]. cbn [rbind].
    rewrite Hk by len. case_match eqn:E; [|done]. cbn [rbind].
    unfold kMaxBgpMsgLen in *. apply Z.leb_le in E.
    destruct (Z.ltb_spec 0xFFF (blen ((w ++ hole) ++ asPath_bytes as4 segs) - blen w - 2));
      [len|done].
  - rewrite rw_skip_full by lia. done.
Qed.

(** Writing an attribute in parts. *)
Lemma writes_attr cap flags code wrlen body :
  writes cap wrlen
    (be_encode (if has_flag flags BGP_ATTR_FLAG_EXTENDED then 2 else 1) (blen body) ++ body) ->
  writes cap (fun w => let* w := write_u8 cap w flags in
                       let* w := write_u8 cap w code in wrlen w)
    (attr_tlv flags code body).
Proof. intros H. unfold attr_tlv. solve_writes. Qed.

Lemma writes_attr_len cap flags code n (v : Z) wr body :
  n = (if has_flag flags BGP_ATTR_FLAG_EXTENDED then 2%nat else 1%nat) -> v = blen body ->
  writes cap wr body ->
  writes cap (fun w => let* w := write_u8 cap w flags in
                       let* w := write_u8 cap w code in
                       let* w := writeBE n cap w v in wr w)
    (attr_tlv flags code body).
Proof. intros -> -> H. apply writes_attr. solve_writes. Qed.

Lemma writes_aggregatorIp cap ip o : length o = 4%nat -> wf_bytes o -> ip = ip_str (IPV4 o) ->
  writes cap (writeAggregatorIp cap ip) (be_encode 4 (be_decode o)).
Proof.
  intros Hl Hw -> w Hc. unfold writeAggregatorIp.
  rewrite ip_of_str_str by done. cbn [rbind]. by apply writes_BE.
Qed.

Lemma wf_aggregator_has as4 o a : wf_aggregator as4 o (aggregator a) -> has_aggregator a = true ->
  wf_asn as4 (agg_asn (aggregator a)) /\ length o = 4%nat /\ wf_bytes o /\
  agg_ip (aggregator a) = ip_str (IPV4 o).
Proof.
  intros [E|(? & _ & ? & ? & ?)] Hb; [|done]. unfold has_aggregator in Hb. by rewrite E in Hb.
Qed.

Lemma writes_optional cap as4 o a : wf_aggregator as4 o (aggregator a) ->
  writes cap (writeOptionalAttrs cap as4 a) (optional_bytes as4 o a).
Proof.
  intros Hagg. unfold writeOptionalAttrs, optional_bytes, scalar_bytes, list_bytes.
  rewrite <- !app_assoc.
  repeat apply writes_bind; try (apply writes_if; intros Hb).
  - apply (writes_attr_len cap _ _ 1); [done|len|apply writes_BE].
  - destruct (localPref a) as [v|]; [|apply writes_ret].
    apply (writes_attr_len cap _ _ 1); [done|len|apply writes_BE].
  - apply (writes_attr cap 0x40). rewrite app_nil_r. apply writes_u8.
  - destruct (wf_aggregator_has _ _ _ Hagg Hb) as (_ & Hl & Hw & Hip).
    apply (writes_attr_len cap 0xc0 _ 1); [done|len|].
    apply writes_bind; [apply writes_BE|by apply writes_aggregatorIp].
  - apply (writes_attr_len cap 0xd0 _ 2); [done|by rewrite (blen_concat_map _ 4)|].
    apply writes_for_each, Forall_true. intros c. unfold community_bytes, writeCommunity.
    solve_writes.
  - apply (writes_attr_len cap _ _ 1); [done|len|apply writes_Host].
  - apply (writes_attr_len cap 0x90 _ 2);
      [done|rewrite (blen_concat_map _ 4); [done|apply length_le_encode]|].
    apply writes_for_each, Forall_true. intros c. apply writes_Host.
  - apply (writes_attr_len cap 0xd0 _ 2); [done|by rewrite (blen_concat_map _ 8)|].
    apply writes_for_each, Forall_true. intros c. unfold extCommunity_bytes, writeExtCommunity.
    solve_writes.
Qed.

Lemma writes_head cap as4 a : cap <= kMaxBgpMsgLen ->
  Forall (fun s => usedSegmentTypes s = 1) (asPath a) ->
  writes cap (fun w => let* w := writeOrigin cap a w in writeAsPath cap as4 a w)
    (head_bytes as4 a).
Proof.
  intros Hcap Hok. apply writes_bind.
  - apply (writes_attr_len cap _ _ 1); [done|len|apply writes_u8].
  - apply (writes_attr cap 0x50). by apply writes_asPathBody.
Qed.

Lemma writes_nextHop cap nh : length nh = 4%nat ->
  writes cap (writeNextHop cap nh) nh.
Proof.
  intros Hl w Hw. unfold writeNextHop, toIPAddress. rewrite ip_fromBinary_v4 by done.
  cbn [rbind ip_bytes]. rewrite firstn_all2 by lia. by apply writes_push.
Qed.

Lemma attrs_bytes_nexthop as4 o nh a :
  attrs_bytes as4 true o nh a =
    (head_bytes as4 a ++
     (be_encode 1 0x40 ++ be_encode 1 BGP_ATTR_NEXT_HOP ++ be_encode 1 (blen nh))) ++
    (nh ++ optional_bytes as4 o a).
Proof.
  unfold attrs_bytes, nexthop_bytes, attr_tlv.
  change (has_flag 0x40 BGP_ATTR_FLAG_EXTENDED) with false. cbv iota.
  by rewrite <- !app_assoc.
Qed.

(** Either the attributes fit and are written, with the offset of the next hop,
    or the cursor throws. *)
Lemma serializePathAttrs_spec cap update as4 v4 o (a := u_attrs update) w :
  cap <= kMaxBgpMsgLen -> blen w <= cap ->
  Forall (fun s => usedSegmentTypes s = 1) (asPath a) -> wf_aggregator as4 o (aggregator a) ->
  (v4 = true -> length (u_v4Nexthop update) = 4%nat) ->
  let bs := attrs_bytes as4 v4 o (u_v4Nexthop update) a in
  serializePathAttrs cap update as4 v4 w =
    if blen w + blen bs <=? cap then Ok (w ++ bs, nexthop_offset as4 v4 a)
    else Throw OutOfRange.
Proof.
  intros Hcap Hw Hsegs Hagg Hnh bs. subst a bs. unfold serializePathAttrs. cbv zeta.
  set (a := u_attrs update) in *.
  pose proof (writes_head cap as4 a Hcap Hsegs) as Hh.
  pose proof (writes_optional cap as4 o a Hagg) as Ho.
  set (Hb := head_bytes as4 a) in *. set (O := optional_bytes as4 o a) in *.
  transitivity (let* w0 := (let* w := writeOrigin cap a w in writeAsPath cap as4 a w) in
    let* '(w, off) :=
      if v4 then
        let* w1 := writeNextHopHeader cap w0 in
        let* w2 := writeNextHop cap (u_v4Nexthop update) w1 in
        Ok (w2, Some (blen w1 - blen w))
      else Ok (w0, None) in
    let* w := writeOptionalAttrs cap as4 a w in Ok (w, off)).
  { destruct (writeOrigin cap a w); done. }
  rewrite (Hh w Hw). destruct v4.
  - rewrite attrs_bytes_nexthop. fold Hb O. specialize (Hnh eq_refl).
    set (N := be_encode 1 0x40 ++ be_encode 1 BGP_ATTR_NEXT_HOP ++ _).
    assert (HN : writes cap (writeNextHopHeader cap) N).
    { subst N. rewrite Hnh. unfold writeNextHopHeader. solve_writes. }
    assert (HlN : length N = 3%nat) by (subst N; len).
    pose proof (writes_nextHop cap _ Hnh) as Hn4. set (nh := u_v4Nexthop update) in *.
    destruct (Z.leb_spec (blen w + blen Hb) cap), (Z.leb_spec (blen w + blen ((Hb ++ N) ++ nh ++ O)) cap);
      cbn [rbind]; try done; try len.
    + rewrite (writes_Ok _ _ _ _ HN) by len. cbn [rbind].
      rewrite (writes_Ok _ _ _ _ Hn4) by len. cbn [rbind].
      rewrite (writes_Ok _ _ _ _ Ho) by len. cbn [rbind]. rewrite <- !app_assoc.
      do 2 f_equal. unfold nexthop_offset. f_equal. fold Hb. len.
    + rewrite HN by len. case_match eqn:E1; cbn [rbind]; [|done]. apply Z.leb_le in E1.
      rewrite Hn4 by len. case_match eqn:E2; cbn [rbind]; [|done]. apply Z.leb_le in E2.
      rewrite Ho by len. case_match eqn:E3; cbn [rbind]; [|done]. apply Z.leb_le in E3. len.
  - unfold attrs_bytes, nexthop_bytes. cbn [app]. fold Hb O.
    destruct (Z.leb_spec (blen w + blen Hb) cap), (Z.leb_spec (blen w + blen (Hb ++ O)) cap);
      cbn [rbind]; try done; try len.
    + rewrite (writes_Ok _ _ _ _ Ho) by len. cbn [rbind]. by rewrite <- app_assoc.
    + rewrite Ho by len. case_match eqn:E1; cbn [rbind]; [|done]. apply Z.leb_le in E1. len.
Qed.
End WireForm.

(** ** Reading the wire form back *)
Section ReadBack.
Context `{F : FollyOps} `{L : !FollyLaws F}.

Lemma set_insert_last x s : Forall (fun y => y < x) s -> set_insert x s = s ++ [x].
Proof.
  induction 1 as [|y s Hy _ IH]; [done|]. cbn [set_insert].
  destruct (Z.ltb_spec x y); [lia|]. destruct (Z.eqb_spec x y); [lia|]. by rewrite IH.
Qed.

(** Inserting an ascending sequence one by one rebuilds it. *)
Lemma fold_set_insert xs : forall s,
  StronglySorted Z.lt xs -> Forall (fun y => Forall (Z.lt y) xs) s ->
  fold_left (fun s x => set_insert x s) xs s = s ++ xs.
Proof.
  induction xs as [|x xs IH]; intros s Hs Hlt; cbn [fold_left]; [by rewrite app_nil_r|].
  apply StronglySorted_inv in Hs as [Hs Hx].
  assert (Hx' : Forall (fun y => y < x) s).
  { eapply Forall_impl; [exact Hlt|]. intros y Hy. by apply Forall_cons in Hy as [? _]. }
  rewrite set_insert_last by done. rewrite IH; [by rewrite <- app_assoc|done|].
  apply Forall_app. split; [|by repeat constructor].
  eapply Forall_impl; [exact Hlt|]. intros y Hy. by apply Forall_cons in Hy as [_ ?].
Qed.

Lemma parseAsns_encode as4 t asns rest : forall seg f,
  Forall (wf_asn as4) asns -> (forall asn seg, addAsn t asn seg = Ok (f seg asn)) ->
  parseAsns as4 t (length asns) (concat (map (be_encode (asnSize as4)) asns) ++ rest) seg =
    Ok (rest, fold_left f asns seg).
Proof.
  induction asns as [|asn asns IH]; intros seg f Hok Hf; [done|].
  apply Forall_cons in Hok as [Ha Hok]. cbn [length parseAsns map concat fold_left].
  rewrite <- app_assoc, readBE_encode, Z.mod_small by done. cbn [rbind].
  rewrite Hf. cbn [rbind]. by apply IH.
Qed.

(** A fold that only changes one field. *)
Lemma fold_left_field {S A X} (mk : S -> A) (f : A -> X -> A) (g : S -> X -> S) xs :
  (forall s x, f (mk s) x = mk (g s x)) ->
  forall s, fold_left f xs (mk s) = mk (fold_left g xs s).
Proof.
  intros Hfg. induction xs as [|x xs IH]; intros s; [done|].
  cbn [fold_left]. by rewrite Hfg, IH.
Qed.

Lemma fold_segment_set t asns : (t = 1 \/ t = 4) -> StronglySorted Z.lt asns ->
  exists f, (forall asn seg, addAsn t asn seg = Ok (f seg asn)) /\
    fold_left f asns emptySegment =
      (if t =? 1 then mkSegment asns [] [] [] else mkSegment [] [] [] asns).
Proof.
  intros [->| ->] Hs; (eexists; split; [intros; reflexivity|]); cbn [Z.eqb Pos.eqb];
    unfold emptySegment.
  - rewrite (fold_left_field (fun s => mkSegment s [] [] []) _ (fun s x => set_insert x s))
      by done. by rewrite fold_set_insert.
  - rewrite (fold_left_field (fun s => mkSegment [] [] [] s) _ (fun s x => set_insert x s))
      by done. by rewrite fold_set_insert.
Qed.

Lemma fold_segment_seq t asns : (t = 2 \/ t = 3) ->
  exists f, (forall asn seg, addAsn t asn seg = Ok (f seg asn)) /\
    fold_left f asns emptySegment =
      (if t =? 2 then mkSegment [] asns [] [] else mkSegment [] [] asns []).
Proof.
  intros [->| ->]; (eexists; split; [intros; reflexivity|]); cbn [Z.eqb Pos.eqb];
    unfold emptySegment.
  - rewrite (fold_left_field (fun s => mkSegment [] s [] []) _ (fun s x => s ++ [x])) by done.
    by rewrite fold_left_snoc.
  - rewrite (fold_left_field (fun s => mkSegment [] [] s []) _ (fun s x => s ++ [x])) by done.
    by rewrite fold_left_snoc.
Qed.

(** A well-formed segment is the one its type and numbers rebuild. *)
Lemma wf_segment_rebuild as4 seg : wf_segment as4 seg ->
  exists f, (forall asn s, addAsn (fst (segment_kind seg)) asn s = Ok (f s asn)) /\
    fold_left f (snd (segment_kind seg)) emptySegment = seg.
Proof.
  intros (Hu & _ & _ & Hs1 & Hs4). destruct seg as [s1 s2 s3 s4]. unfold segment_kind.
  cbn [asSet asSequence asConfedSequence asConfedSet] in *.
  destruct s1, s2, s3, s4; unfold usedSegmentTypes in Hu; cbn [nonempty fst snd] in *;
    try done.
  - apply (fold_segment_set 4); [by right|done].
  - apply (fold_segment_seq 3). by right.
  - apply (fold_segment_seq 2). by left.
  - apply (fold_segment_set 1); [by left|done].
Qed.

Lemma parseAsPathSegment_encode as4 abp seg rest acc : wf_segment as4 seg ->
  parseAsPathSegment as4 abp (segment_bytes as4 seg ++ rest) acc = Ok (rest, acc ++ [seg]).
Proof.
  intros Hwf. destruct (wf_segment_rebuild _ _ Hwf) as (f & Hf & Hfold).
  destruct Hwf as (_ & Hasn & Hlen & _). unfold parseAsPathSegment, segment_bytes.
  assert (Ht : 0 <= fst (segment_kind seg) < 256)
    by (unfold segment_kind; repeat case_match; simpl; lia).
  set (t := fst (segment_kind seg)) in *. set (asns := snd (segment_kind seg)) in *.
  rewrite <- !app_assoc. destruct (Z.ltb_spec (blen (be_encode 1 t ++ be_encode 1
    (Z.of_nat (length asns)) ++ concat (map (be_encode (asnSize as4)) asns) ++ rest)) 2); [len|].
  rewrite read_u8_encode, Z.mod_small by lia. cbn [rbind].
  rewrite read_u8_encode, Z.mod_small by lia. cbn [rbind].
  assert (Hl : blen (concat (map (be_encode (asnSize as4)) asns)) =
               Z.of_nat (asnSize as4) * Z.of_nat (length asns))
    by (apply blen_concat_map; intros; apply length_be_encode).
  match goal with |- context [if ?b then Throw _ else _] => destruct b eqn:E end.
  { apply Z.ltb_lt in E. rewrite length_app in E. destruct as4; cbn [asnSize] in *; lia. }
  rewrite Nat2Z.id, (parseAsns_encode _ _ _ _ _ f) by done. cbn [rbind]. by rewrite Hfold.
Qed.

Lemma parseAsPathAttr_encode capa abp segs : Forall (wf_segment (as4byte capa)) segs ->
  parseAsPathAttr (asPath_bytes (as4byte capa) segs) capa abp = Ok segs.
Proof.
  intros Hok. unfold parseAsPathAttr, asPath_bytes.
  rewrite (while_readable_items _ _ (fun acc x => acc ++ [x]) (wf_segment (as4byte capa)));
    [by rewrite fold_left_snoc|apply parseAsPathSegment_consumes| |
     intros; by apply parseAsPathSegment_encode|done].
  intros x _ Hnil%(f_equal length). unfold segment_bytes in Hnil. len.
Qed.

(** *** One attribute *)

(** Flags that match the attribute type, with or without the extended bit. *)
Definition good_flags (flags code : Z) : bool :=
  (match find_flags code with Some f => f =? Z.land flags 0xc0 | None => true end) &&
  (has_flag flags BGP_ATTR_FLAG_OPTIONAL || has_flag flags BGP_ATTR_FLAG_TRANSITIVE) &&
  negb (has_flag flags BGP_ATTR_FLAG_PARTIAL) && (0 <=? flags) && (flags <? 256) &&
  (0 <=? code) && (code <? 256).

(** The first length that does not fit into the length field. *)
Definition attr_limit (flags : Z) : Z :=
  if has_flag flags BGP_ATTR_FLAG_EXTENDED then 65536 else 256.

Lemma parsePathAttribute_tlv capa flags code body rest st st' :
  good_flags flags code = true ->
  blen body < attr_limit flags ->
  (forall abp, parseAttrBody capa code abp body st = Ok st') ->
  parsePathAttribute capa (attr_tlv flags code body ++ rest) st = Ok (rest, st').
Proof.
  unfold good_flags. rewrite !andb_true_iff, !Z.leb_le, !Z.ltb_lt.
  intros ((((((Hf & Hot) & Hp) & Hf0) & Hf1) & Hc0) & Hc1) Hl Hbody.
  unfold attr_limit in Hl.
  unfold parsePathAttribute. apply catch_out_of_range_Ok. unfold parsePathAttribute', attr_tlv.
  rewrite <- !app_assoc. rewrite read_u8_encode, Z.mod_small by lia. cbn [rbind].
  rewrite read_u8_encode, Z.mod_small by lia. cbn [rbind].
  set (x := has_flag flags BGP_ATTR_FLAG_EXTENDED) in *.
  replace (Z.to_nat (if x then 2 else 1)) with (if x then 2%nat else 1%nat) by by destruct x.
  rewrite readBE_encode, Z.mod_small by (destruct x; lia). cbn [rbind].
  unfold checkPathAttributeFlag. assert (Hchk : match find_flags code with
    | Some f => negb (f =? Z.land flags 0xc0) | None => false end = false)
    by (destruct (find_flags code); [by rewrite Hf|done]).
  destruct (find_flags code); [rewrite Hchk|]; cbn [rbind];
    (match goal with |- context [if ?b then _ else _] => destruct b eqn:E end;
      [apply Z.ltb_lt in E; len|]);
    rewrite <- negb_orb, Hot; apply negb_true_iff in Hp; rewrite Hp, andb_false_r; cbn [negb];
    rewrite wrap_app, skip_app by lia; cbn [rbind]; rewrite Hbody; done.
Qed.

(** The attribute loop on a chunk that is present or not: [f] is the state
    change of the attribute, which leaves the state as it is when the chunk is
    absent. *)
Lemma parse_attr_chunk capa (b : bool) flags code body rest st f :
  good_flags flags code = true ->
  (b = true -> blen body < attr_limit flags) ->
  (b = true -> forall abp, parseAttrBody capa code abp body st = Ok (f st)) ->
  (b = false -> f st = st) ->
  while_readable (parsePathAttribute capa) ((if b then attr_tlv flags code body else []) ++ rest) st
    = while_readable (parsePathAttribute capa) rest (f st).
Proof.
  intros Hg Hl Hb Hn. destruct b; [|by rewrite Hn].
  rewrite while_readable_step; [|apply parsePathAttribute_consumes|].
  - rewrite (parsePathAttribute_tlv _ _ _ _ _ _ (f st)); auto.
  - intros E%(f_equal length). unfold attr_tlv in E. len.
Qed.

(** *** The attribute list *)

Lemma parse_communities acc cs :
  Forall (fun c => u16 (comm_asn c) /\ u16 (comm_value c)) cs ->
  while_readable parseCommunity (concat (map community_bytes cs)) acc = Ok (acc ++ cs).
Proof.
  intros Hok. rewrite (while_readable_items _ _ (fun acc x => acc ++ [x])
    (fun c => u16 (comm_asn c) /\ u16 (comm_value c)));
    [by rewrite fold_left_snoc|apply parseCommunity_consumes| | |done].
  - intros x _ Hnil%(f_equal length). unfold community_bytes in Hnil. len.
  - intros [x y] rest s [Hx Hy]. unfold u16 in *. simpl in *.
    unfold parseCommunity, community_bytes. rewrite <- app_assoc, readBE_encode. cbn [rbind].
    rewrite readBE_encode. cbn [rbind comm_asn comm_value]. by rewrite !Z.mod_small by lia.
Qed.

Lemma parse_extCommunities acc cs :
  Forall (fun c => u32 (firstWord c) /\ u32 (secondWord c)) cs ->
  while_readable parseExtCommunity (concat (map extCommunity_bytes cs)) acc = Ok (acc ++ cs).
Proof.
  intros Hok. rewrite (while_readable_items _ _ (fun acc x => acc ++ [x])
    (fun c => u32 (firstWord c) /\ u32 (secondWord c)));
    [by rewrite fold_left_snoc|apply parseExtCommunity_consumes| | |done].
  - intros x _ Hnil%(f_equal length). unfold extCommunity_bytes in Hnil. len.
  - intros [x y] rest s [Hx Hy]. unfold u32 in *. simpl in *.
    unfold parseExtCommunity, extCommunity_bytes. rewrite <- app_assoc, readBE_encode. cbn [rbind].
    rewrite readBE_encode. cbn [rbind firstWord secondWord]. by rewrite !Z.mod_small by lia.
Qed.

Lemma parse_clusterList acc cl : Forall u32 cl ->
  while_readable parseClusterId (concat (map (le_encode 4) cl)) acc = Ok (acc ++ cl).
Proof.
  intros Hok. rewrite (while_readable_items _ _ (fun acc x => acc ++ [x]) u32);
    [by rewrite fold_left_snoc|apply parseClusterId_consumes| | |done].
  - intros x _ Hnil%(f_equal length). len.
  - intros x rest s Hx. unfold u32 in *. unfold parseClusterId.
    rewrite readHost_encode. cbn [rbind]. by rewrite Z.mod_small by lia.
Qed.

(** What the receiver of serialized attributes holds: NEXT_HOP in textual form
    when it was sent, and no large communities. *)
Definition received_attrs (v4 : bool) (nh : bytes) (a : BgpAttributes) : BgpAttributes :=
  set_largeCommunities [] (set_nexthop (if v4 then ip_str (IPV4 nh) else "") a).

Definition received_state (v4 : bool) (nh : bytes) (a : BgpAttributes)
    (st : UpdateMsgParsingState) : UpdateMsgParsingState :=
  let st := set_hasOrigin (set_hasAsPath (set_attrs (fun _ => received_attrs v4 nh a) st)) in
  if v4 then set_v4Nexthop (IPV4 nh) st else st.

Definition after_head (v4 : bool) (nh : bytes) (a : BgpAttributes) (st : UpdateMsgParsingState) :=
  let st := set_hasOrigin (set_attrs (set_origin (origin a)) st) in
  let st := set_hasAsPath (set_attrs (set_asPath (asPath a)) st) in
  if v4 then set_attrs (set_nexthop (ip_str (IPV4 nh))) (set_v4Nexthop (IPV4 nh) st) else st.

Lemma parse_head capa v4 nh a rest st :
  0 <= origin a <= 2 -> Forall (wf_segment (as4byte capa)) (asPath a) ->
  blen (asPath_bytes (as4byte capa) (asPath a)) < 65536 ->
  (v4 = true -> length nh = 4%nat /\ wf_bytes nh) ->
  while_readable (parsePathAttribute capa)
    (head_bytes (as4byte capa) a ++ nexthop_bytes v4 nh ++ rest) st =
  while_readable (parsePathAttribute capa) rest (after_head v4 nh a st).
Proof.
  intros Ho Hp Hl Hnh. unfold head_bytes, nexthop_bytes, after_head. rewrite <- !app_assoc.
  rewrite (parse_attr_chunk capa true 0x40 BGP_ATTR_ORIGIN _ _ _
    (fun st => set_hasOrigin (set_attrs (set_origin (origin a)) st))); [|done|intros _; unfold attr_limit; simpl; len| |done].
  2: { intros _ abp. unfold parseAttrBody, parseOrigin. simpl (_ =? _). cbv iota.
       rewrite <- (app_nil_r (be_encode 1 (origin a))), read_u8_encode, Z.mod_small by lia.
       cbn [rbind]. destruct (Z.ltb_spec 2 (origin a)); [lia|done]. }
  rewrite (parse_attr_chunk capa true 0x50 BGP_ATTR_AS_PATH _ _ _
    (fun st => set_hasAsPath (set_attrs (set_asPath (asPath a)) st))); [|done|intros _; unfold attr_limit; simpl; lia| |done].
  2: { intros _ abp. unfold parseAttrBody. simpl (_ =? _). cbv iota.
       by rewrite parseAsPathAttr_encode. }
  rewrite (parse_attr_chunk capa v4 0x40 BGP_ATTR_NEXT_HOP nh _ _ (fun st => if v4 then
    set_attrs (set_nexthop (ip_str (IPV4 nh))) (set_v4Nexthop (IPV4 nh) st) else st));
    [done|done| | |by intros ->]; intros ->; destruct (Hnh eq_refl) as [Hln Hwn].
  - rewrite Hln. unfold attr_limit; simpl; lia.
  - intros abp. unfold parseAttrBody, parseNextHop. simpl (_ =? BGP_ATTR_NEXT_HOP).
    simpl (_ =? BGP_ATTR_AS_PATH). simpl (_ =? BGP_ATTR_ORIGIN). cbv iota.
    rewrite Hln. cbn [Z.of_nat Z.eqb Pos.of_succ_nat Pos.succ Pos.eqb negb].
    unfold readBE. rewrite <- (app_nil_r nh), pull_app, app_nil_r by done. cbn [rbind].
    pose proof (be_encode_decode nh Hwn) as E. rewrite Hln in E.
    unfold ip_fromLongHBO. by rewrite E.
Qed.

Definition after_scalars (a : BgpAttributes) : UpdateMsgParsingState -> UpdateMsgParsingState :=
  set_attrs (fun b =>
    mkAttributes (origin b) (asPath b) (nexthop b) (med a) (localPref a) (atomicAggregate a)
      (aggregator b) (communities b) (originatorId b) (clusterList b) (extCommunities b)
      (largeCommunities b) (isMedSet a)).
Definition after_lists (a : BgpAttributes) : UpdateMsgParsingState -> UpdateMsgParsingState :=
  set_attrs (fun b =>
    mkAttributes (origin b) (asPath b) (nexthop b) (med b) (localPref b) (atomicAggregate b)
      (aggregator a) (communities a) (originatorId a) (clusterList a) (extCommunities a)
      (largeCommunities b) (isMedSet b)).

(** The attributes of the state still have their defaults, apart from the
    mandatory ones. *)
Definition scalar_defaults (b : BgpAttributes) : Prop :=
  b = mkAttributes (origin b) (asPath b) (nexthop b) 0 None false (aggregator b) (communities b)
        (originatorId b) (clusterList b) (extCommunities b) (largeCommunities b) false.
Definition list_defaults (b : BgpAttributes) : Prop :=
  b = mkAttributes (origin b) (asPath b) (nexthop b) (med b) (localPref b) (atomicAggregate b)
        (mkAggregator 0 "") [] 0 [] [] (largeCommunities b) (isMedSet b).

Lemma parseAttr_aggregator capa abp o g st :
  wf_asn (as4byte capa) (agg_asn g) -> length o = 4%nat -> wf_bytes o ->
  agg_ip g = ip_str (IPV4 o) ->
  parseAttrBody capa BGP_ATTR_AGGREGATOR abp
    (be_encode (asnSize (as4byte capa)) (agg_asn g) ++ be_encode 4 (be_decode o)) st =
  Ok (set_attrs (set_aggregator g) st).
Proof.
  intros Ha Hl Hw Hip. unfold parseAttrBody, parseAggregator. simpl (_ =? _). cbv iota.
  rewrite readBE_encode, Z.mod_small by done. cbn [rbind].
  rewrite <- (app_nil_r (be_encode 4 _)), readBE_encode. cbn [rbind].
  pose proof (be_decode_range o Hw) as Hr. rewrite Hl in Hr.
  rewrite Z.mod_small by done. pose proof (be_encode_decode o Hw) as E. rewrite Hl in E.
  unfold ip_fromLongHBO. rewrite E, <- Hip. by destruct g.
Qed.

Lemma parse_scalars capa as4 o a st :
  wf_attrs as4 o a -> scalar_defaults (attrs st) ->
  forall rest,
  while_readable (parsePathAttribute capa) (scalar_bytes a ++ rest) st =
  while_readable (parsePathAttribute capa) rest (after_scalars a st).
Proof.
  intros Hwf Hdef rest. destruct st as [b ? ? ? ? ? ? ? ? ? ? ? ? ? ? ?].
  unfold scalar_defaults in Hdef. cbn [attrs] in Hdef. rewrite Hdef. clear Hdef.
  unfold scalar_bytes in *. rewrite <- !app_assoc.
  destruct Hwf as [_ _ Hmed Hms Hlp _ _ _ _ _]. unfold u32 in Hmed.
  rewrite (parse_attr_chunk capa (isMedSet a) 0x80 BGP_ATTR_MED _ _ _
    (set_attrs (fun b => set_isMedSet (isMedSet a) (set_med (med a) b))));
    [|done|intros _; unfold attr_limit; simpl; len| |intros E; by rewrite E, Hms].
  2: { intros E abp. unfold parseAttrBody. simpl (_ =? _). cbv iota.
       rewrite <- (app_nil_r (be_encode 4 _)), readBE_encode, Z.mod_small by lia.
       cbn [rbind]. by rewrite E. }
  assert (Hlp' : localPref_bytes (localPref a) =
    if bool_decide (localPref a <> None)
    then attr_tlv 0x40 BGP_ATTR_LOCAL_PREF (be_encode 4 (default 0 (localPref a))) else [])
    by by destruct (localPref a).
  rewrite Hlp'.
  rewrite (parse_attr_chunk capa _ 0x40 BGP_ATTR_LOCAL_PREF _ _ _
    (set_attrs (fun b => match localPref a with Some v => set_localPref v b | None => b end)));
    [|done|intros _; unfold attr_limit; simpl; len| |intros E; by destruct (localPref a)].
  2: { intros E abp. unfold parseAttrBody. simpl (_ =? _). cbv iota.
       destruct (localPref a) as [v|] eqn:Ev; [|done]. specialize (Hlp v eq_refl).
       unfold u32 in Hlp. simpl default.
       rewrite <- (app_nil_r (be_encode 4 _)), readBE_encode, Z.mod_small by lia. done. }
  rewrite (parse_attr_chunk capa (atomicAggregate a) 0x40 BGP_ATTR_ATOMIC_AGGREGATE _ _ _
    (set_attrs (fun b => if atomicAggregate a then set_atomicAggregate b else b)));
    [|done|intros _; unfold attr_limit; simpl; len| |intros ->; by destruct (localPref a)].
  2: { intros E abp. unfold parseAttrBody. simpl (_ =? _). cbv iota. by rewrite E. }
  f_equal. unfold after_scalars, set_attrs, set_med, set_isMedSet. cbn.
  by destruct (localPref a), (atomicAggregate a).
Qed.

Lemma no_aggregator as4 o a : wf_aggregator as4 o (aggregator a) -> has_aggregator a = false ->
  aggregator a = mkAggregator 0 "".
Proof.
  intros [E|(_ & Hz & Hl & Hw & Hip)] Hb; [done|]. unfold has_aggregator in Hb.
  apply andb_false_iff in Hb as [Hb|Hb]; apply negb_false_iff in Hb.
  - by apply Z.eqb_eq in Hb.
  - apply bool_decide_eq_true in Hb. rewrite Hip in Hb.
    by apply ip_str_nonempty in Hb.
Qed.

Lemma parse_lists capa o a st :
  wf_attrs (as4byte capa) o a -> list_defaults (attrs st) ->
  blen (list_bytes (as4byte capa) o a) < 65536 ->
  forall rest,
  while_readable (parsePathAttribute capa) (list_bytes (as4byte capa) o a ++ rest) st =
  while_readable (parsePathAttribute capa) rest (after_lists a st).
Proof.
  intros Hwf Hdef Hl rest. destruct st as [b ? ? ? ? ? ? ? ? ? ? ? ? ? ? ?].
  unfold list_defaults in Hdef. cbn [attrs] in Hdef. rewrite Hdef. clear Hdef.
  unfold list_bytes in *. rewrite !length_app in Hl. rewrite <- !app_assoc.
  destruct Hwf as [_ _ _ _ _ Hagg Hcomm Hoid Hcl Hext]. unfold u32 in Hoid.
  rewrite (parse_attr_chunk capa (has_aggregator a) 0xc0 BGP_ATTR_AGGREGATOR _ _ _
    (set_attrs (set_aggregator (aggregator a)))); [|done| | |].
  2: { intros _. change (attr_limit 0xc0) with 256. rewrite length_app, !length_be_encode.
       destruct (as4byte capa); simpl; lia. }
  2: { intros E abp. destruct (wf_aggregator_has _ _ _ Hagg E) as (? & ? & ? & ?).
       by apply parseAttr_aggregator. }
  2: { intros E. by rewrite (no_aggregator _ _ _ Hagg E). }
  rewrite (parse_attr_chunk capa (nonempty (communities a)) 0xd0 BGP_ATTR_COMMUNITIES _ _ _
    (set_attrs (set_communities (communities a)))); [|done| | |].
  2: { intros E. rewrite E in Hl. unfold attr_tlv in Hl. change (attr_limit _) with 65536. len. }
  2: { intros E abp. unfold parseAttrBody. simpl (_ =? _). cbv iota.
       by rewrite parse_communities. }
  2: { by destruct (communities a). }
  rewrite (parse_attr_chunk capa (negb (originatorId a =? 0)) 0x80 BGP_ATTR_ORIGINATOR_ID _ _ _
    (set_attrs (set_originatorId (originatorId a)))); [|done|intros _; unfold attr_limit; simpl; len| |].
  2: { intros E abp. unfold parseAttrBody, parseOriginatorId. simpl (_ =? _). cbv iota.
       rewrite <- (app_nil_r (le_encode 4 _)), readHost_encode, Z.mod_small by lia. done. }
  2: { intros E%negb_false_iff%Z.eqb_eq. by rewrite E. }
  rewrite (parse_attr_chunk capa (nonempty (clusterList a)) 0x90 BGP_ATTR_CLUSTER_LIST _ _ _
    (set_attrs (set_clusterList (clusterList a)))); [|done| | |].
  2: { intros E. rewrite E in Hl. unfold attr_tlv in Hl. change (attr_limit _) with 65536. len. }
  2: { intros E abp. unfold parseAttrBody. simpl (_ =? _). cbv iota.
       by rewrite parse_clusterList. }
  2: { by destruct (clusterList a). }
  by rewrite (parse_attr_chunk capa (nonempty (extCommunities a)) 0xd0
    BGP_ATTR_EXTENDED_COMMUNITIES _ _ _ (set_attrs (set_extCommunities (extCommunities a))));
    [|done|intros E; rewrite E in Hl; unfold attr_tlv in Hl; change (attr_limit _) with 65536; len
     |intros E abp; unfold parseAttrBody; simpl (_ =? _); cbv iota;
      rewrite parse_extCommunities|destruct (extCommunities a)].
Qed.

Lemma attrs_bytes_parts as4 v4 o nh a :
  blen (asPath_bytes as4 (asPath a)) + blen (list_bytes as4 o a) + 8 <=
  blen (attrs_bytes as4 v4 o nh a).
Proof.
  unfold attrs_bytes, head_bytes, attr_tlv, optional_bytes.
  change (has_flag 0x40 BGP_ATTR_FLAG_EXTENDED) with false.
  change (has_flag 0x50 BGP_ATTR_FLAG_EXTENDED) with true. len.
Qed.

Lemma parse_attrs capa v4 o nh a rest st :
  wf_attrs (as4byte capa) o a -> attrs st = defaultAttributes ->
  (v4 = true -> length nh = 4%nat /\ wf_bytes nh) ->
  blen (attrs_bytes (as4byte capa) v4 o nh a) < 65536 ->
  while_readable (parsePathAttribute capa) (attrs_bytes (as4byte capa) v4 o nh a ++ rest) st =
  while_readable (parsePathAttribute capa) rest (received_state v4 nh a st).
Proof.
  intros Hwf Hst Hnh Hl.
  pose proof (attrs_bytes_parts (as4byte capa) v4 o nh a) as Hparts.
  unfold attrs_bytes, optional_bytes. rewrite <- !app_assoc.
  rewrite parse_head; [|apply Hwf..|lia|done].
  destruct st as [b ? ? ? ? ? ? ? ? ? ? ? ? ? ? ?]. cbn [attrs] in Hst. subst b.
  unfold after_head.
  rewrite (parse_scalars capa (as4byte capa) o); [|done|by destruct v4].
  rewrite parse_lists; [|done|by destruct v4|lia].
  f_equal. unfold received_state, received_attrs. by destruct v4, a.
Qed.
End ReadBack.

(** C2. The attributes [serializePathAttrs] writes are read back by
    [parsePathAttributes] of a peer with the same AS number width: every field
    that has a wire form survives (NEXT_HOP in its textual form), only large
    communities are lost.  The offset reported for the next hop is where its
    four octets are. *)
Theorem path_attrs_roundtrip `{F : FollyOps} `{L : !FollyLaws F} capa update v4 o rest :
  let a := u_attrs update in
  let nh := u_v4Nexthop update in
  let bs := attrs_bytes (as4byte capa) v4 o nh a in
  wf_attrs (as4byte capa) o a -> (v4 = true -> length nh = 4%nat /\ wf_bytes nh) ->
  blen bs <= kMaxBgpUpdateVarLen ->
  exists off,
    serializePathAttrs kMaxBgpUpdateVarLen update (as4byte capa) v4 [] = Ok (bs, off) /\
    (v4 = true -> exists n, off = Some n /\ take 4 (drop (Z.to_nat n) bs) = nh) /\
    parsePathAttributes (be_encode 2 (blen bs) ++ bs ++ rest) capa initialState =
      Ok (rest, set_paLen (blen bs) (received_state v4 nh a initialState)).
Proof.
  intros a nh bs Hwf Hnh Hl. unfold kMaxBgpUpdateVarLen, kMaxBgpMsgLen, kMinBgpUpdateMsgLen in *.
  exists (nexthop_offset (as4byte capa) v4 a). split; [|split].
  - rewrite (serializePathAttrs_spec _ _ _ _ o); [|unfold kMaxBgpMsgLen; simpl; lia|simpl; lia|
      |apply Hwf|intros Hv; apply Hnh, Hv].
    + fold a nh bs. case_match eqn:E; [done|]. apply Z.leb_gt in E. simpl in E. lia.
    + eapply Forall_impl; [apply Hwf|]. by intros s [? _].
  - intros ->. destruct (Hnh eq_refl) as [Hln _]. eexists. split; [reflexivity|].
    subst bs. rewrite attrs_bytes_nexthop. rewrite drop_app_length' by len.
    by rewrite take_app_length'.
  - pose proof (attrs_bytes_parts (as4byte capa) v4 o nh a) as Hparts. fold bs in Hparts.
    unfold parsePathAttributes. rewrite readBE_encode, Z.mod_small by lia.
    destruct (Z.ltb_spec (blen (be_encode 2 (blen bs) ++ bs ++ rest)) 2); [len|]. cbn [rbind].
    destruct (Z.eqb_spec (blen bs) 0); [lia|].
    destruct (Z.ltb_spec (blen (bs ++ rest)) (blen bs)); [len|].
    rewrite wrap_app, skip_app by lia. cbn [rbind].
    rewrite <- (app_nil_r bs). unfold bs at 1. rewrite parse_attrs; [|done..|fold bs; lia].
    rewrite app_nil_r. cbn [rbind while_readable while_fuel length]. by destruct v4.
Qed.

Definition sample_capa : BgpCapabilities :=
  mkCapabilities true true false false true 65001 false false 0 [] false true [] [] false true
    false.

Definition sample_attrs : BgpAttributes :=
  mkAttributes 2
    [mkSegment [] [65001; 4200000000] [] []; mkSegment [7; 9] [] [] []]
    "" 50 (Some 100) true (mkAggregator 65001 (ip_str (IPV4 [10; 0; 0; 1])))
    [mkCommunity 65001 666; mkCommunity 1 2] 0x0100000a [5; 6] [mkExtCommunity 1 2] [] true.

Lemma sample_attrs_wf : wf_attrs true [10; 0; 0; 1] sample_attrs.
Proof.
  split; unfold sample_attrs, wf_aggregator, wf_asn, u32, u16; cbn;
    try discriminate; try (intros v [= <-]); try lia.
  - repeat first [apply Forall_cons_2 | apply Forall_nil_2]; repeat split; cbn; try lia;
      repeat constructor; cbn; lia.
  - right. repeat split; try lia; try discriminate; repeat constructor; lia.
  - repeat first [apply Forall_cons_2 | apply Forall_nil_2]; cbn; lia.
  - repeat first [apply Forall_cons_2 | apply Forall_nil_2]; cbn; lia.
  - repeat first [apply Forall_cons_2 | apply Forall_nil_2]; cbn; lia.
Qed.

Definition sample_update : BgpUpdate2 :=
  mkUpdate2 sample_attrs (mkNlri 0 0 [] []) (mkNlri 0 0 [] []) [] [] [192; 0; 2; 1] [] [].

Lemma path_attrs_roundtrip_witness :
  let bs := attrs_bytes true true [10; 0; 0; 1] [192; 0; 2; 1] sample_attrs in
  exists off,
    serializePathAttrs kMaxBgpUpdateVarLen sample_update true true [] = Ok (bs, off) /\
    (true = true -> exists n, off = Some n /\ take 4 (drop (Z.to_nat n) bs) = [192; 0; 2; 1]) /\
    parsePathAttributes (be_encode 2 (blen bs) ++ bs ++ [1; 2]) sample_capa initialState =
      Ok ([1; 2],
          set_paLen (blen bs) (received_state true [192; 0; 2; 1] sample_attrs initialState)).
Proof.
  apply (path_attrs_roundtrip sample_capa sample_update true [10; 0; 0; 1] [1; 2]).
  - exact sample_attrs_wf.
  - intros _. split; [reflexivity|]. repeat constructor; lia.
  - vm_compute. discriminate.
Defined.

(** Attributes that do not fit into an UPDATE make [serializePathAttrs] end
    with the cursor's [std::out_of_range]; the check of the AS path length
    against 0xFFF cannot fire, since a buffer of [kMaxBgpUpdateVarLen] bytes is
    full before. *)
Theorem oversized_attrs_out_of_range `{F : FollyOps} `{L : !FollyLaws F} update as4 v4 o :
  wf_attrs as4 o (u_attrs update) -> (v4 = true -> length (u_v4Nexthop update) = 4%nat) ->
  (serializePathAttrs kMaxBgpUpdateVarLen update as4 v4 [] = Throw OutOfRange <->
   kMaxBgpUpdateVarLen < blen (attrs_bytes as4 v4 o (u_v4Nexthop update) (u_attrs update))) /\
  throws_in is_out_of_range (serializePathAttrs kMaxBgpUpdateVarLen update as4 v4 []).
Proof.
  intros Hwf Hnh.
  rewrite (serializePathAttrs_spec _ _ _ _ o); [|done|done| |apply Hwf|done].
  - cbv zeta. unfold is_out_of_range. cbn [length Z.of_nat Z.add].
    case_match eqn:E; [apply Z.leb_le in E|apply Z.leb_gt in E].
    + split; [|by intros ? [=]]. split; [done|lia].
    + split; [done|by intros ? [=]].
  - eapply Forall_impl; [apply Hwf|]. by intros s [? _].
Qed.

Definition oversized_update : BgpUpdate2 :=
  mkUpdate2 (set_communities (replicate 1100 (mkCommunity 1 2)) sample_attrs)
    (mkNlri 0 0 [] []) (mkNlri 0 0 [] []) [] [] [192; 0; 2; 1] [] [].

Lemma oversized_attrs_out_of_range_witness :
  serializePathAttrs kMaxBgpUpdateVarLen oversized_update true true [] = Throw OutOfRange.
Proof.
  apply (oversized_attrs_out_of_range oversized_update true true [10; 0; 0; 1]).
  - apply wf_attrs_communities; [exact sample_attrs_wf|].
    apply Forall_replicate. unfold u16. simpl. lia.
  - reflexivity.
  - vm_compute. reflexivity.
Defined.

(** The parser accepts an AS path segment of any of the four types with no AS
    number in it; the attributes it delivers cannot be serialized again:
    [serializePathAttrs] throws INVALID_ASPATH_INFO when it comes to the
    segment. *)
Theorem empty_segment_accepted_not_serializable `{F : FollyOps} `{L : !FollyLaws F} capa abp t
    update as4 v4 :
  1 <= t <= 4 -> asPath (u_attrs update) = [emptySegment] ->
  parseAsPathAttr [t; 0] capa abp = Ok (asPath (u_attrs update)) /\
  serializePathAttrs kMaxBgpUpdateVarLen update as4 v4 [] =
    Throw (BgpSerializerException INVALID_ASPATH_INFO).
Proof.
  intros Ht Hp. rewrite Hp. split.
  - unfold parseAsPathAttr. rewrite while_readable_step by (done || apply parseAsPathSegment_consumes).
    unfold parseAsPathSegment. simpl (blen _ <? 2). cbv iota.
    rewrite read_u8_cons. cbn [rbind]. rewrite read_u8_cons. cbn [rbind].
    rewrite Tauto.if_same. done.
  - change kMaxBgpUpdateVarLen with 4073.
    unfold serializePathAttrs, writeOrigin, writeAsPath. rewrite Hp.
    repeat (rewrite (writes_Ok _ _ _ _ (writes_u8 _ _)) by len; cbn [rbind]).
    unfold writeAsPathBody. match goal with |- context [rw_skip ?c ?w 2] =>
      destruct (rw_skip_ok c w 2) as (hole & Hh & ->) end; [len|done].
Qed.

Definition empty_segment_update : BgpUpdate2 :=
  mkUpdate2 (set_asPath [emptySegment] sample_attrs)
    (mkNlri 0 0 [] []) (mkNlri 0 0 [] []) [] [] [192; 0; 2; 1] [] [].

Lemma empty_segment_accepted_not_serializable_witness :
  parseAsPathAttr [2; 0] sample_capa [] = Ok (asPath (u_attrs empty_segment_update)) /\
  serializePathAttrs kMaxBgpUpdateVarLen empty_segment_update true true [] =
    Throw (BgpSerializerException INVALID_ASPATH_INFO).
Proof.
  apply (empty_segment_accepted_not_serializable sample_capa [] 2 empty_segment_update true true);
    [lia|reflexivity].
Defined.
