(* ===== verification/UpdateMsg.v ===== *)
(** * Parsing UPDATE messages

    [parseV4Withdrawn], [parseV4Announced] and [doSanityChecks] of
    [UpdateMsgParsingState] (lib/detail/BgpMessageParserUtils.cpp),
    [parseBgpUpdateRaw] (lib/BgpMessageParser.cpp) and [serializeBgpEndOfRib]
    (lib/BgpMessageSerializer.cpp). *)

From S2P Require Import Prelude BgpException Folly BgpStructs MsgHeader ControlMsgs Nlri PathAttrs PathAttrsSerializer.

(** [std::variant<std::shared_ptr<const BgpUpdate2>, BgpEndOfRib>] *)
Inductive UpdateOrEor :=
| IsUpdate (u : BgpUpdate2)
| IsEndOfRib (e : BgpEndOfRib).

Section UpdateMsg.
Context `{F : FollyOps}.

Definition parseV4Withdrawn (updateMsgCursor : bytes) (capabilities : BgpCapabilities)
    (st : UpdateMsgParsingState) : res (bytes * UpdateMsgParsingState) :=
  if blen updateMsgCursor <? 2 then
    Throw (BgpUpdateMsgException BN_UM_MALFORMED_ATTRIBUTE_LIST [])
  else
  let* '(n, cur) := readBE 2 updateMsgCursor in
  let st := set_v4WithdrawnLen n st in
  if n =? 0 then Ok (cur, st)
  else if blen cur <? n then Throw (BgpUpdateMsgException BN_UM_MALFORMED_ATTRIBUTE_LIST [])
  else
  let withdrawnBuf := wrap_buffer cur (Z.to_nat n) in
  let* cur := cursor_skip cur (Z.to_nat n) in
  let* l := catch_out_of_range (parseNlri withdrawnBuf AFI_IPv4 SAFI_UNICAST capabilities)
              (BgpUpdateMsgException BN_UM_INVALID_NETWORK_FIELD []) in
  Ok (cur, set_v4Withdrawn l st).

Definition parseV4Announced (updateMsgCursor : bytes) (capabilities : BgpCapabilities)
    (st : UpdateMsgParsingState) : res (bytes * UpdateMsgParsingState) :=
  if blen updateMsgCursor =? 0 then Ok (updateMsgCursor, st)
  else
  let* l := parseNlri updateMsgCursor AFI_IPv4 SAFI_UNICAST capabilities in
  let* cur := cursor_skip updateMsgCursor (length updateMsgCursor) in
  Ok (cur, set_v4Announced l st).

Definition doSanityChecks (st : UpdateMsgParsingState) : res unit :=
  let* _ :=
    if nonempty (v4Announced st) || nonempty (mpAnnounced st) then
      if negb (hasOriginAttr st) || negb (hasAsPathAttr st) then
        Throw (BgpUpdateMsgException BN_UM_MISSING_WELL_KNOWN_ATTR
                 [if hasOriginAttr st then BGP_ATTR_AS_PATH else BGP_ATTR_ORIGIN])
      else Ok tt
    else Ok tt in
  if nonempty (v4Announced st) && bool_decide (v4Nexthop st = IPUnset) then
    Throw (BgpUpdateMsgException BN_UM_MISSING_WELL_KNOWN_ATTR [BGP_ATTR_NEXT_HOP])
  else Ok tt.

(** The thrift forms of a parsed prefix: classical, with its path identifier,
    and with its labels too. *)
Definition classicPrefix (b : BgpPrefix) : IPPrefix :=
  mkIPPrefix (toBinaryAddress (fst (bp_prefix b))) (snd (bp_prefix b)).
Definition riggedPlain (b : BgpPrefix) : RiggedIPPrefix :=
  mkRigged (classicPrefix b) [] None.
Definition riggedPathId (b : BgpPrefix) : RiggedIPPrefix :=
  mkRigged (classicPrefix b) [] (bp_pathId b).
Definition riggedMp (b : BgpPrefix) : RiggedIPPrefix :=
  mkRigged (classicPrefix b) (bp_labels b) (bp_pathId b).

(** Some IPv4 add-path capability of any SAFI lets the peer send path
    identifiers. *)
Definition addPathReceive (capabilities : BgpCapabilities) : bool :=
  existsb (fun c => (ap_afi c =? AFI_IPv4) && ((ap_sor c =? RECEIVE) || (ap_sor c =? BOTH)))
    (addPathCapabilities capabilities).

Definition buildUpdate (capabilities : BgpCapabilities) (st : UpdateMsgParsingState)
    : BgpUpdate2 :=
  let addPathCap := addPathReceive capabilities in
  let rig := if addPathCap then riggedPathId else riggedPlain in
  mkUpdate2 (attrs st)
    (mkNlri (mpAnnouncedAfi st) (mpAnnouncedSafi st) (map riggedMp (mpAnnounced st))
       (toBinaryAddress (mpNexthop st)))
    (mkNlri (mpWithdrawnAfi st) (mpWithdrawnSafi st) (map riggedMp (mpWithdrawn st)) [])
    (if addPathCap then [] else map classicPrefix (v4Announced st))
    (if addPathCap then [] else map classicPrefix (v4Withdrawn st))
    (toBinaryAddress (v4Nexthop st))
    (map rig (v4Announced st))
    (map rig (v4Withdrawn st)).

(** The parser after the common header: [cur] is bounded to the message. *)
Definition parseUpdateBody (cur : bytes) (capabilities : BgpCapabilities) : res UpdateOrEor :=
  let* '(cur, st) := parseV4Withdrawn cur capabilities initialState in
  let* '(cur, st) := parsePathAttributes cur capabilities st in
  if (v4WithdrawnLen st =? 0) && (paLen st =? 0) then
    if negb (blen cur =? 0) then
      Throw (BgpUpdateMsgException BN_UM_MALFORMED_ATTRIBUTE_LIST [])
    else Ok (IsEndOfRib (mkEndOfRib false AFI_IPv4 SAFI_UNICAST))
  else
  let* '(cur, st) := parseV4Announced cur capabilities st in
  let* _ := doSanityChecks st in
  match eor st with
  | Some e => Ok (IsEndOfRib e)
  | None => Ok (IsUpdate (buildUpdate capabilities st))
  end.

Definition parseBgpUpdateRaw (buf : bytes) (capabilities : BgpCapabilities) : res UpdateOrEor :=
  let* '(hdr, cur) := consumeBgpMsgHdr buf (Some BGP_MSG_TYPE_UPDATE) in
  let* cur := cursor_bound cur (Z.to_nat (hdr_length hdr - kBgpMsgHeaderLen)) in
  if hdr_length hdr <? kBgpMsgHeaderLen + 4 then
    Throw (BgpHeaderException BN_MH_BAD_MSG_LEN (htons_data (hdr_length hdr)))
  else parseUpdateBody cur capabilities.

(** ** End of RIB *)

Definition writeMpEor (afi safi : Z) (w : bytes) : res bytes :=
  let* w := writeBE 2 kMaxBgpMsgLen w 7 in
  let* w := write_u8 kMaxBgpMsgLen w (Z.lor BGP_ATTR_FLAG_OPTIONAL BGP_ATTR_FLAG_EXTENDED) in
  let* w := write_u8 kMaxBgpMsgLen w BGP_ATTR_MP_UNREACH_NLRI in
  let* w := writeBE 2 kMaxBgpMsgLen w 3 in
  let* w := writeBE 2 kMaxBgpMsgLen w afi in
  write_u8 kMaxBgpMsgLen w safi.

Definition serializeBgpEndOfRib (afi safi : Z) : res bytes :=
  let* w := newMessageBuffer in
  let* w := writeBE 2 kMaxBgpMsgLen w 0 in
  let* w := if (afi =? AFI_IPv4) && (safi =? SAFI_UNICAST)
            then writeBE 2 kMaxBgpMsgLen w 0
            else writeMpEor afi safi w in
  finishMessage w BGP_MSG_TYPE_UPDATE.

(** ** Termination and exceptions *)
Context {L : FollyLaws F}.

Lemma parseNlri_guarded cur afi safi capa : wf_bytes cur ->
  throws_in is_update_exn (parseNlri cur afi safi capa).
Proof.
  intros Hwf e He. destruct (parseNlri_throws cur afi safi capa e He) as [->|]; [|done].
  exfalso. revert He. unfold parseNlri, while_readable. generalize (length cur) as n.
  generalize (@nil BgpPrefix) as acc. intros acc n. revert cur acc Hwf.
  induction n as [|n IH]; intros [|b cur] acc Hwf; cbn [while_fuel]; try done. intros He.
  apply rbind_Throw_inv in He as [He|([cur' acc'] & Hok & He)].
  - by apply (parseNlriEntry_guarded _ _ _ _ Hwf) in He.
  - refine (IH cur' acc' _ He). by apply parseNlriEntry_suffix in Hok.
Qed.

Lemma parseV4Withdrawn_total cur capa st : parseV4Withdrawn cur capa st <> NoFuel.
Proof. unfold parseV4Withdrawn. solve_total. apply parseNlri_total. Qed.

Lemma readBE_guarded n cur : (n <= length cur)%nat -> wf_bytes cur ->
  exists v, readBE n cur = Ok (v, drop n cur) /\ 0 <= v.
Proof.
  intros Hl Hwf. rewrite readBE_case. case_decide; [|done]. eexists. split; [done|].
  by apply be_decode_range, Forall_take.
Qed.

Lemma parseV4Withdrawn_throws cur capa st : wf_bytes cur ->
  throws_in is_update_exn (parseV4Withdrawn cur capa st).
Proof.
  intros Hwf. unfold parseV4Withdrawn. destruct (Z.ltb_spec (blen cur) 2); [solve_throws|].
  destruct (readBE_guarded 2 cur) as (n & -> & Hn); [lia|done|]. cbn [rbind]. cbv zeta.
  case_match; [solve_throws|]. case_match eqn:Hl; [solve_throws|]. apply Z.ltb_ge in Hl.
  rewrite cursor_skip_ok by lia. cbn [rbind]. apply throws_in_bind; [|solve_throws].
  apply catch_out_of_range_throws_in, parseNlri_throws.
Qed.

Lemma parseV4Announced_total cur capa st : parseV4Announced cur capa st <> NoFuel.
Proof. unfold parseV4Announced. solve_total. apply parseNlri_total. Qed.

Lemma parseV4Announced_throws cur capa st : wf_bytes cur ->
  throws_in is_update_exn (parseV4Announced cur capa st).
Proof.
  intros Hwf. unfold parseV4Announced. case_match; [solve_throws|].
  apply throws_in_bind; [by apply parseNlri_guarded|]. intros l _.
  rewrite cursor_skip_ok by lia. solve_throws.
Qed.

(** Both leave a suffix of their input. *)
Lemma parseV4Withdrawn_suffix cur capa st cur' st' :
  parseV4Withdrawn cur capa st = Ok (cur', st') -> wf_bytes cur -> wf_bytes cur'.
Proof.
  unfold parseV4Withdrawn. intros H Hwf. cbv zeta in H. inv_reads; solve_suffix.
Qed.
Lemma parsePathAttributes_suffix cur capa st cur' st' :
  parsePathAttributes cur capa st = Ok (cur', st') -> wf_bytes cur -> wf_bytes cur'.
Proof.
  unfold parsePathAttributes. intros H Hwf. cbv zeta in H. inv_reads; solve_suffix.
Qed.

Lemma parseUpdateBody_total cur capa : parseUpdateBody cur capa <> NoFuel.
Proof.
  unfold parseUpdateBody, doSanityChecks. apply rbind_not_NoFuel; [apply parseV4Withdrawn_total|].
  intros [c1 st1] _. apply rbind_not_NoFuel; [apply parsePathAttributes_total|].
  intros [c2 st2] _. repeat case_match; try done.
  apply rbind_not_NoFuel; [apply parseV4Announced_total|]. intros [c3 st3] _. solve_total.
Qed.

Lemma parseUpdateBody_throws cur capa : wf_bytes cur ->
  throws_in is_update_exn (parseUpdateBody cur capa).
Proof.
  intros Hwf. unfold parseUpdateBody, doSanityChecks.
  apply throws_in_bind; [by apply parseV4Withdrawn_throws|]. intros [c1 st1] E1.
  apply parseV4Withdrawn_suffix in E1; [|done].
  apply throws_in_bind; [by apply parsePathAttributes_throws|]. intros [c2 st2] E2.
  apply parsePathAttributes_suffix in E2; [|done].
  case_match; [solve_throws|]. apply throws_in_bind; [by apply parseV4Announced_throws|].
  intros [c3 st3] _. solve_throws.
Qed.

Lemma parseBgpUpdateRaw_result buf capa : wf_bytes buf ->
  (exists r, parseBgpUpdateRaw buf capa = Ok r) \/
  (exists sc d, parseBgpUpdateRaw buf capa = Throw (BgpHeaderException sc d)) \/
  (exists sc d, parseBgpUpdateRaw buf capa = Throw (BgpUpdateMsgException sc d)).
Proof.
  intros Hwf. unfold parseBgpUpdateRaw.
  destruct (consumeBgpMsgHdr_result buf (Some BGP_MSG_TYPE_UPDATE))
    as [(h & cur & E)|(sc & d & E)]; rewrite E; cbn [rbind]; [|by eauto].
  assert (Hwf' : wf_bytes cur) by by eapply consumeBgpMsgHdr_suffix.
  apply consumeBgpMsgHdr_Ok_inv in E as (Hb & Hr & Hl & _). unfold kBgpMsgHeaderLen in *.
  rewrite cursor_bound_ok by lia. cbn [rbind]. case_match; [by eauto|].
  destruct (parseUpdateBody (take (Z.to_nat (hdr_length h - 19)) cur) capa) as [r|e|] eqn:Eb;
    [by eauto| |by apply parseUpdateBody_total in Eb].
  apply parseUpdateBody_throws in Eb as (sc & d & ->); [by eauto|by apply Forall_take].
Qed.
End UpdateMsg.

Section UpdateMessages.
Context `{F : FollyOps} `{L : !FollyLaws F}.

(** A complete message, possibly followed by others, is parsed from its own
    bytes only. *)
Lemma parseBgpUpdateRaw_message body more capa :
  4 <= blen body -> kBgpMsgHeaderLen + blen body <= kMaxBgpMsgLen ->
  parseBgpUpdateRaw (message_bytes BGP_MSG_TYPE_UPDATE body ++ more) capa =
    parseUpdateBody body capa.
Proof.
  intros H4 Hmax. unfold parseBgpUpdateRaw.
  rewrite consume_message_bytes by (done || by right). cbn [rbind hdr_length].
  replace (Z.to_nat (kBgpMsgHeaderLen + blen body - kBgpMsgHeaderLen)) with (length body) by lia.
  rewrite cursor_bound_ok by len. cbn [rbind]. rewrite take_app_length.
  destruct (Z.ltb_spec (kBgpMsgHeaderLen + blen body) (kBgpMsgHeaderLen + 4)); [lia|done].
Qed.

(** No withdrawn routes. *)
Lemma parseV4Withdrawn_none rest capa st :
  parseV4Withdrawn (be_encode 2 0 ++ rest) capa st = Ok (rest, set_v4WithdrawnLen 0 st).
Proof.
  unfold parseV4Withdrawn. rewrite readBE_encode.
  destruct (Z.ltb_spec (blen (be_encode 2 0 ++ rest)) 2); [len|done].
Qed.

(** No path attributes. *)
Lemma parsePathAttributes_none rest capa st :
  parsePathAttributes (be_encode 2 0 ++ rest) capa st =
    Ok (rest, set_paLen 0 (set_attrs (set_isMedSet false) st)).
Proof.
  unfold parsePathAttributes. rewrite readBE_encode.
  destruct (Z.ltb_spec (blen (be_encode 2 0 ++ rest)) 2); [len|done].
Qed.

(** An attribute block holding [pa], followed by [rest]. *)
Lemma parsePathAttributes_block pa rest capa st :
  0 < blen pa < 65536 ->
  parsePathAttributes (be_encode 2 (blen pa) ++ pa ++ rest) capa st =
    let* st := while_readable (parsePathAttribute capa) pa
                 (set_paLen (blen pa) (set_attrs (set_isMedSet false) st)) in
    Ok (rest, st).
Proof.
  intros Hl. unfold parsePathAttributes. rewrite readBE_encode, Z.mod_small by lia.
  destruct (Z.ltb_spec (blen (be_encode 2 (blen pa) ++ pa ++ rest)) 2); [len|].
  cbn [rbind]. destruct (Z.eqb_spec (blen pa) 0); [lia|].
  destruct (Z.ltb_spec (blen (pa ++ rest)) (blen pa)); [len|].
  by rewrite wrap_app, skip_app by lia.
Qed.

Definition eor_body (afi safi : Z) : bytes :=
  be_encode 2 0 ++
  (if (afi =? AFI_IPv4) && (safi =? SAFI_UNICAST) then be_encode 2 0
   else be_encode 2 7 ++ be_encode 1 0x90 ++ be_encode 1 BGP_ATTR_MP_UNREACH_NLRI ++
        be_encode 2 3 ++ be_encode 2 afi ++ be_encode 1 safi).

Lemma serializeBgpEndOfRib_spec afi safi :
  serializeBgpEndOfRib afi safi = Ok (message_bytes BGP_MSG_TYPE_UPDATE (eor_body afi safi)).
Proof.
  assert (Hw : writes kMaxBgpMsgLen (fun w => let* w := writeBE 2 kMaxBgpMsgLen w 0 in
      if (afi =? AFI_IPv4) && (safi =? SAFI_UNICAST) then writeBE 2 kMaxBgpMsgLen w 0
      else writeMpEor afi safi w) (eor_body afi safi)).
  { unfold eor_body, writeMpEor. apply writes_bind; [apply writes_BE|].
    case_match; solve_writes. }
  pose proof (serialize_message _ _ BGP_MSG_TYPE_UPDATE Hw) as E.
  destruct (Z.leb_spec (kBgpMsgHeaderLen + blen (eor_body afi safi)) kMaxBgpMsgLen).
  - rewrite <- E. unfold serializeBgpEndOfRib.
    destruct newMessageBuffer as [w| |]; cbn [rbind]; [|done..].
    by destruct (writeBE 2 kMaxBgpMsgLen w 0).
  - unfold eor_body, kBgpMsgHeaderLen, kMaxBgpMsgLen in *. case_match; len.
Qed.

Lemma parse_mp_eor afi safi capa st :
  (afi = AFI_IPv4 \/ afi = AFI_IPv6) -> 0 <= safi < 256 ->
  while_readable (parsePathAttribute capa)
    (be_encode 1 0x90 ++ be_encode 1 BGP_ATTR_MP_UNREACH_NLRI ++
     be_encode 2 3 ++ be_encode 2 afi ++ be_encode 1 safi) st =
  Ok (set_eor (mkEndOfRib true afi safi) (set_mpWithdrawnFamily afi safi st)).
Proof.
  intros Hafi Hs.
  assert (Ha : 0 <= afi < 65536) by (destruct Hafi as [-> | ->]; unfold AFI_IPv4, AFI_IPv6; lia).
  set (body := be_encode 2 afi ++ be_encode 1 safi).
  assert (Hb : blen body = 3) by (subst body; len). rewrite <- Hb.
  change (be_encode 1 0x90 ++ _) with (attr_tlv 0x90 BGP_ATTR_MP_UNREACH_NLRI body).
  rewrite <- (app_nil_r (attr_tlv _ _ _)).
  rewrite (parse_attr_chunk capa true 0x90 _ _ _ _ (fun st =>
    set_eor (mkEndOfRib true afi safi) (set_mpWithdrawnFamily afi safi st)));
    [done|done|rewrite Hb; done| |done].
  intros _ abp. unfold parseAttrBody, parseMpUnreach. simpl (_ =? _). cbv iota. subst body.
  rewrite readBE_encode. cbn [rbind].
  rewrite <- (app_nil_r (be_encode 1 safi)), read_u8_encode. cbn [rbind].
  rewrite !Z.mod_small by lia. by destruct Hafi as [-> | ->].
Qed.
End UpdateMessages.

(** The End-of-RIB marker of every address family the code supports reads
    back as the marker of that family, in the classical form exactly for IPv4
    unicast; bytes of following messages in the buffer are not touched. *)
Theorem eor_roundtrip `{F : FollyOps} `{L : !FollyLaws F} afi safi capa more :
  afi = AFI_IPv4 \/ afi = AFI_IPv6 -> 0 <= safi < 256 ->
  exists bs, serializeBgpEndOfRib afi safi = Ok bs /\
    parseBgpUpdateRaw (bs ++ more) capa =
      Ok (IsEndOfRib (mkEndOfRib (negb ((afi =? AFI_IPv4) && (safi =? SAFI_UNICAST))) afi safi)).
Proof.
  intros Hafi Hs. eexists. split; [apply serializeBgpEndOfRib_spec|].
  assert (Hl : 4 <= blen (eor_body afi safi) <= 11) by (unfold eor_body; case_match; len).
  rewrite parseBgpUpdateRaw_message; [|lia|unfold kBgpMsgHeaderLen, kMaxBgpMsgLen; lia].
  unfold parseUpdateBody, eor_body. rewrite parseV4Withdrawn_none. cbn [rbind].
  case_match eqn:Eu.
  - apply andb_true_iff in Eu as [->%Z.eqb_eq ->%Z.eqb_eq].
    by rewrite <- (app_nil_r (be_encode 2 0)), parsePathAttributes_none.
  - set (pa := be_encode 1 0x90 ++ _). assert (Hpa : blen pa = 7) by (subst pa; len).
    replace 7 with (blen pa). rewrite <- (app_nil_r pa) at 2.
    rewrite parsePathAttributes_block by lia. subst pa. rewrite parse_mp_eor by done.
    cbn [rbind]. rewrite Hpa. done.
Qed.

Lemma eor_roundtrip_witness :
  exists bs, serializeBgpEndOfRib AFI_IPv6 SAFI_UNICAST = Ok bs /\
    parseBgpUpdateRaw (bs ++ [1]) defaultCapabilities =
      Ok (IsEndOfRib (mkEndOfRib true AFI_IPv6 SAFI_UNICAST)).
Proof.
  apply (eor_roundtrip AFI_IPv6 SAFI_UNICAST defaultCapabilities [1]);
    [right; reflexivity|unfold SAFI_UNICAST; lia].
Defined.
