(* ===== verification/UpdateSerializer.v ===== *)
(** * Serializing UPDATE messages

    [serializeBgpUpdate2] (lib/BgpMessageSerializer.cpp): an update is split
    into as many messages as its prefixes need, withdrawn prefixes first.  The
    result is the queue of messages, each with the next hop offset recorded for
    it; the returned [IOBuf] is the chain of these buffers and
    [*outNexthopOffsets] is [nexthopOffsets] of the queue. *)

From S2P Require Import Prelude BgpException Folly BgpStructs MsgHeader ControlMsgs Nlri PathAttrs PathAttrsSerializer UpdateMsg.

Definition kMpAnnouncedAttrLen : Z := 25.

(** A buffer of the queue, and the offset and family of the next hop in it. *)
Record QueuedMsg := mkQueued { q_bytes : bytes; q_nexthop : option (Z * bool) }.

Fixpoint nexthopOffsets (queueIndex : Z) (queue : list QueuedMsg) : list (Z * Z * bool) :=
  match queue with
  | [] => []
  | m :: queue =>
      match q_nexthop m with Some (off, v4) => [(queueIndex, off, v4)] | None => [] end ++
      nexthopOffsets (queueIndex + 1) queue
  end.

Section UpdateSerializer.
Context `{F : FollyOps}.
Abbreviation cap := kMaxBgpMsgLen.

(** [while (curPrefixCnt < prefixes.size())]: one message per iteration.  The
    loop has no bound of its own; [fuel] is the number of iterations followed. *)
Fixpoint emitMessages (step : list RiggedIPPrefix -> res (QueuedMsg * list RiggedIPPrefix))
    (fuel : nat) (prefixes : list RiggedIPPrefix) : res (list QueuedMsg) :=
  match prefixes with
  | [] => Ok []
  | _ :: _ =>
      match fuel with
      | O => NoFuel
      | S fuel =>
          let* '(m, rest) := step prefixes in
          let* queue := emitMessages step fuel rest in
          Ok (m :: queue)
      end
  end.

(** A fresh [BgpUpdateMsg] whose write cursor has skipped [n] bytes; the header
    is at 0, the withdrawn length at 19 and the attribute length at 21. *)
Definition newUpdateMsg (n : nat) : res bytes := rw_skip cap [] n.
Definition wlcursor : nat := 19.
Definition plcursor : nat := 21.

(** ** One message of each kind *)

Definition withdrawMsg (maxPrefixLen : Z) (prefixes : list RiggedIPPrefix)
    : res (QueuedMsg * list RiggedIPPrefix) :=
  let* w := newUpdateMsg 21 in
  let bufSize := kMaxBgpMsgLen - blen w - 2 in
  let* '(w1, rest) :=
    serializeNlri cap AFI_IPv4 SAFI_UNICAST bufSize maxPrefixLen (blen w) prefixes w in
  let ret := blen w1 - blen w in
  let* w1 := writeBE 2 cap w1 0 in
  let* w1 := rw_write_at w1 wlcursor (be_encode 2 ret) in
  let* m := finishMessage w1 BGP_MSG_TYPE_UPDATE in
  Ok (mkQueued m None, rest).

(** Backpatching of an MP attribute whose length field is at [mpl], of the
    attribute length and of the empty withdrawn length. *)
Definition patchLengths (mpl : nat) (w : bytes) : res bytes :=
  let* w := rw_write_at w mpl (be_encode 2 (blen w - Z.of_nat mpl - 2)) in
  let* w := rw_write_at w plcursor (be_encode 2 (blen w - Z.of_nat plcursor - 2)) in
  rw_write_at w wlcursor (be_encode 2 0).

Definition mpUnreachMsg (afi safi maxPrefixLen : Z) (prefixes : list RiggedIPPrefix)
    : res (QueuedMsg * list RiggedIPPrefix) :=
  let* w := newUpdateMsg 23 in
  let* w := write_u8 cap w (Z.lor BGP_ATTR_FLAG_OPTIONAL BGP_ATTR_FLAG_EXTENDED) in
  let* w := write_u8 cap w BGP_ATTR_MP_UNREACH_NLRI in
  let mplcursor := length w in
  let* w := rw_skip cap w 2 in
  let* w := writeBE 2 cap w afi in
  let* w := write_u8 cap w safi in
  let bufSize := kMaxBgpMsgLen - blen w in
  let* '(w, rest) := serializeNlri cap afi safi bufSize maxPrefixLen (blen w) prefixes w in
  let* w := patchLengths mplcursor w in
  let* m := finishMessage w BGP_MSG_TYPE_UPDATE in
  Ok (mkQueued m None, rest).

Definition writeMpNexthop (nexthop : bytes) (w : bytes) : res (bytes * (Z * bool)) :=
  let* nh := toIPAddress nexthop in
  match nh with
  | IPV4 o =>
      let* w1 := write_u8 cap w 4 in
      let* w2 := rw_push cap w1 (take 4 o) in
      Ok (w2, (blen w1, true))
  | IPV6 o =>
      let* w1 := write_u8 cap w 16 in
      let* w2 := rw_push cap w1 o in
      Ok (w2, (blen w1, false))
  | IPUnset => Throw InvalidAddressFamilyException
  end.

Definition mpReachMsg (attrBytes : bytes) (mp : BgpNlri) (maxPrefixLen : Z)
    (prefixes : list RiggedIPPrefix) : res (QueuedMsg * list RiggedIPPrefix) :=
  let* w := newUpdateMsg 23 in
  let* w := rw_push cap w attrBytes in
  let* w := write_u8 cap w (Z.lor BGP_ATTR_FLAG_OPTIONAL BGP_ATTR_FLAG_EXTENDED) in
  let* w := write_u8 cap w BGP_ATTR_MP_REACH_NLRI in
  let mplcursor := length w in
  let* w := rw_skip cap w 2 in
  let* w := writeBE 2 cap w (nlri_afi mp) in
  let* w := write_u8 cap w (nlri_safi mp) in
  let* '(w, off) := writeMpNexthop (nlri_nexthop mp) w in
  let* w := write_u8 cap w 0 in
  let bufSize := kMaxBgpMsgLen - blen w in
  let* '(w, rest) :=
    serializeNlri cap (nlri_afi mp) (nlri_safi mp) bufSize maxPrefixLen (blen w) prefixes w in
  let* w := patchLengths mplcursor w in
  let* m := finishMessage w BGP_MSG_TYPE_UPDATE in
  Ok (mkQueued m (Some off), rest).

Definition v4ReachMsg (attrBytes : bytes) (nexthopOffsetInAttrs maxPrefixLen : Z)
    (prefixes : list RiggedIPPrefix) : res (QueuedMsg * list RiggedIPPrefix) :=
  let* w := newUpdateMsg 23 in
  let off := blen w + nexthopOffsetInAttrs in
  let* w := rw_push cap w attrBytes in
  let bufSize := kMaxBgpMsgLen - blen w in
  let* '(w, rest) :=
    serializeNlri cap AFI_IPv4 SAFI_UNICAST bufSize maxPrefixLen (blen w) prefixes w in
  let* w := rw_write_at w plcursor (be_encode 2 (blen attrBytes)) in
  let* w := rw_write_at w wlcursor (be_encode 2 0) in
  let* m := finishMessage w BGP_MSG_TYPE_UPDATE in
  Ok (mkQueued m (Some (off, true)), rest).

(** ** The whole update *)

Definition hasPathId (prefixes : list RiggedIPPrefix) : bool :=
  match prefixes with rp :: _ => bool_decide (is_Some (rig_pathId rp)) | [] => false end.

(** The prefixes in their newer form, whichever of the two was filled in. *)
Definition effective (new : list RiggedIPPrefix) (old : list IPPrefix) : list RiggedIPPrefix :=
  if nonempty new then new else map (fun p => mkRigged p [] None) old.

Definition serializeMpAnnounced (update : BgpUpdate2) (as4 : bool) (fuel : nat)
    : res (list QueuedMsg) :=
  let mp := u_mpAnnounced update in
  let* '(attrBytes, _) := serializePathAttrs kMaxBgpUpdateVarLen update as4 false [] in
  let maxPrefixLen := getMaxPrefixLen (hasPathId (nlri_prefixes mp)) false in
  if kMaxBgpUpdateVarLen <? blen attrBytes + kMpAnnouncedAttrLen + maxPrefixLen then
    Throw (BgpSerializerException EXCEEDED_MAX_SIZE)
  else emitMessages (mpReachMsg attrBytes mp maxPrefixLen) fuel (nlri_prefixes mp).

Definition serializeV4Announced (update : BgpUpdate2) (as4 : bool)
    (prefixes : list RiggedIPPrefix) (fuel : nat) : res (list QueuedMsg) :=
  let* '(attrBytes, off) := serializePathAttrs kMaxBgpUpdateVarLen update as4 true [] in
  let maxPrefixLen := getMaxPrefixLen (hasPathId prefixes) true in
  if kMaxBgpUpdateVarLen <? blen attrBytes + maxPrefixLen then
    Throw (BgpSerializerException EXCEEDED_MAX_SIZE)
  else emitMessages (v4ReachMsg attrBytes (default 0 off) maxPrefixLen) fuel prefixes.

Definition checkExtNexthop (mp : BgpNlri) (extNhEncoding : bool) : res unit :=
  if nonempty (nlri_prefixes mp) then
    let* nh := toIPAddress (nlri_nexthop mp) in
    if negb extNhEncoding && ((nlri_afi mp =? AFI_IPv4) && isV6 nh) then
      Throw (BgpSerializerException EXT_NH_ENCODING_NOT_SUPPORTTED)
    else Ok tt
  else Ok tt.

Definition serializeBgpUpdate2 (fuel : nat) (update : BgpUpdate2) (as4 extNhEncoding : bool)
    : res (list QueuedMsg) :=
  if (nonempty (u_v4Announced2 update) && nonempty (u_v4Announced update)) ||
     (nonempty (u_v4Withdrawn2 update) && nonempty (u_v4Withdrawn update)) then
    Throw (BgpSerializerException VERSION_ERROR)
  else
  let v4Announced := effective (u_v4Announced2 update) (u_v4Announced update) in
  let v4Withdrawn := effective (u_v4Withdrawn2 update) (u_v4Withdrawn update) in
  let mpAnnounced := u_mpAnnounced update in
  let mpWithdrawn := u_mpWithdrawn update in
  if negb (nonempty v4Announced) && negb (nonempty v4Withdrawn) &&
     negb (nonempty (nlri_prefixes mpAnnounced)) &&
     negb (nonempty (nlri_prefixes mpWithdrawn)) then
    Throw (BgpSerializerException MISSING_NLRI_INFO)
  else
  let* _ := checkExtNexthop mpAnnounced extNhEncoding in
  let* q1 := emitMessages (withdrawMsg (getMaxPrefixLen (hasPathId v4Withdrawn) true)) fuel
               v4Withdrawn in
  let* q2 := emitMessages
               (mpUnreachMsg (nlri_afi mpWithdrawn) (nlri_safi mpWithdrawn)
                  (getMaxPrefixLen (hasPathId (nlri_prefixes mpWithdrawn)) false))
               fuel (nlri_prefixes mpWithdrawn) in
  let* q3 := if nonempty (nlri_prefixes mpAnnounced)
             then serializeMpAnnounced update as4 fuel else Ok [] in
  let* q4 := if nonempty v4Announced
             then serializeV4Announced update as4 v4Announced fuel else Ok [] in
  Ok (q1 ++ q2 ++ q3 ++ q4).
End UpdateSerializer.

(** ** What each message looks like on the wire *)

Definition nlri_bytes (rps : list RiggedIPPrefix) : bytes := concat (map unicast_bytes rps).

Definition withdraw_body (rps : list RiggedIPPrefix) : bytes :=
  be_encode 2 (blen (nlri_bytes rps)) ++ nlri_bytes rps ++ be_encode 2 0.

Definition attr_body (pa nlri : bytes) : bytes :=
  be_encode 2 0 ++ be_encode 2 (blen pa) ++ pa ++ nlri.

Definition mpUnreach_attr (afi : Z) (rps : list RiggedIPPrefix) : bytes :=
  attr_tlv 0x90 BGP_ATTR_MP_UNREACH_NLRI
    (be_encode 2 afi ++ be_encode 1 SAFI_UNICAST ++ nlri_bytes rps).

Definition mpReach_attr (afi : Z) (nh : bytes) (rps : list RiggedIPPrefix) : bytes :=
  attr_tlv 0x90 BGP_ATTR_MP_REACH_NLRI
    (be_encode 2 afi ++ be_encode 1 SAFI_UNICAST ++ be_encode 1 (blen nh) ++ nh ++
     be_encode 1 0 ++ nlri_bytes rps).

Section Messages.
Context `{F : FollyOps} `{L : !FollyLaws F}.

Lemma write_at_gap off p hole q bs : off = length p -> length hole = length bs ->
  rw_write_at (p ++ hole ++ q) off bs = Ok (p ++ bs ++ q).
Proof. intros ->. apply write_at_hole. Qed.

Lemma split_list (l : bytes) n m : length l = (n + m)%nat ->
  exists a b, l = a ++ b /\ length a = n /\ length b = m.
Proof.
  intros Hl. exists (take n l), (drop n l). rewrite take_drop. split; [done|]. split; len.
Qed.

(** A fresh buffer: header, withdrawn length and possibly attribute length. *)
Lemma newUpdateMsg_21 : exists h wl,
  newUpdateMsg 21 = Ok (h ++ wl) /\ length h = 19%nat /\ length wl = 2%nat.
Proof.
  unfold newUpdateMsg. destruct (rw_skip_ok kMaxBgpMsgLen [] 21) as (hole & Hh & ->);
    [unfold kMaxBgpMsgLen; simpl; lia|].
  destruct (split_list hole 19 2 Hh) as (h & wl & -> & ? & ?). by exists h, wl.
Qed.
Lemma newUpdateMsg_23 : exists h wl pl,
  newUpdateMsg 23 = Ok (h ++ wl ++ pl) /\
  length h = 19%nat /\ length wl = 2%nat /\ length pl = 2%nat.
Proof.
  unfold newUpdateMsg. destruct (rw_skip_ok kMaxBgpMsgLen [] 23) as (hole & Hh & ->);
    [unfold kMaxBgpMsgLen; simpl; lia|].
  destruct (split_list hole 19 4 Hh) as (h & r & -> & ? & Hr).
  destruct (split_list r 2 2 Hr) as (wl & pl & -> & ? & ?). by exists h, wl, pl.
Qed.

Lemma withdrawMsg_spec pid maxLen rps :
  getMaxPrefixLen pid true <= maxLen <= 21 -> Forall (wf_unicast AFI_IPv4 pid) rps ->
  rps <> [] ->
  exists packed rest,
    withdrawMsg maxLen rps =
      Ok (mkQueued (message_bytes BGP_MSG_TYPE_UPDATE (withdraw_body packed)) None, rest) /\
    rps = packed ++ rest /\ packed <> [] /\ blen (withdraw_body packed) <= 4077.
Proof.
  intros Hmax Hok Hne. unfold withdrawMsg.
  destruct newUpdateMsg_21 as (h & wl & -> & Hh & Hwl). cbn [rbind].
  assert (E21 : blen (h ++ wl) = 21) by len. unfold kMaxBgpMsgLen in *. rewrite E21.
  destruct (serializeNlri_packs 4096 AFI_IPv4 pid (4096 - 21 - 2) 21 maxLen rps) with (w := h ++ wl)
    as (packed & rest & -> & Hsplit & Hl & Hprog); [apply Hmax|done|lia|lia|].
  fold (nlri_bytes packed) in *. cbn [rbind].
  rewrite (writes_Ok _ _ _ _ (writes_BE 2 _ 0)) by len. cbn [rbind].
  replace (blen ((h ++ wl) ++ nlri_bytes packed) - 21) with (blen (nlri_bytes packed)) by len.
  unfold wlcursor. rewrite <- !app_assoc, write_at_gap by len. cbn [rbind].
  rewrite finishMessage_Ok; [|done|unfold kBgpMsgHeaderLen, kMaxBgpMsgLen; len].
  exists packed, rest. split; [done|]. split; [done|]. split; [apply Hprog; [done|lia]|].
  unfold withdraw_body. len.
Qed.

Lemma patchLengths_spec h wl pl p body n mpl :
  length h = 19%nat -> length wl = 2%nat -> length pl = 2%nat -> length n = 2%nat ->
  mpl = (23 + length p)%nat ->
  patchLengths mpl ((h ++ wl ++ pl) ++ p ++ n ++ body) =
    Ok (h ++ be_encode 2 0 ++ be_encode 2 (blen (p ++ n ++ body)) ++
        p ++ be_encode 2 (blen body) ++ body).
Proof.
  intros Hh Hwl Hpl Hn ->. unfold patchLengths, wlcursor, plcursor.
  rewrite (app_assoc (h ++ wl ++ pl) p), write_at_gap by len. cbn [rbind].
  rewrite <- !app_assoc.
  replace (blen (h ++ wl ++ pl ++ p ++ n ++ body) - Z.of_nat (23 + length p) - 2)
    with (blen body) by len.
  set (q := be_encode 2 (blen body) ++ body). rewrite (app_assoc h wl), write_at_gap by len.
  cbn [rbind]. rewrite <- !app_assoc, write_at_gap by len. subst q.
  repeat f_equal. len.
Qed.

Lemma mpUnreachMsg_spec afi pid maxLen rps :
  getMaxPrefixLen pid (afi =? AFI_IPv4) <= maxLen <= 21 -> Forall (wf_unicast afi pid) rps ->
  rps <> [] ->
  exists packed rest,
    mpUnreachMsg afi SAFI_UNICAST maxLen rps =
      Ok (mkQueued (message_bytes BGP_MSG_TYPE_UPDATE
            (attr_body (mpUnreach_attr afi packed) [])) None, rest) /\
    rps = packed ++ rest /\ packed <> [] /\
    blen (attr_body (mpUnreach_attr afi packed) []) <= 4077.
Proof.
  intros Hmax Hok Hne. unfold mpUnreachMsg.
  destruct newUpdateMsg_23 as (h & wl & pl & -> & Hh & Hwl & Hpl). cbn [rbind].
  unfold kMaxBgpMsgLen in *.
  do 2 (rewrite (writes_Ok _ _ _ _ (writes_u8 _ _)) by len; cbn [rbind]).
  match goal with |- context [rw_skip 4096 ?w 2] =>
    destruct (rw_skip_ok 4096 w 2) as (n & Hn & ->); [len|]; set (mpl := length w) end.
  cbn [rbind]. rewrite (writes_Ok _ _ _ _ (writes_BE 2 _ _)) by len. cbn [rbind].
  rewrite (writes_Ok _ _ _ _ (writes_u8 _ _)) by len. cbn [rbind].
  match goal with |- context [serializeNlri _ _ _ (4096 - blen ?w) _ _ _ _] =>
    set (w0 := w) end.
  assert (E30 : blen w0 = 30) by (subst w0; len). rewrite E30.
  destruct (serializeNlri_packs 4096 afi pid (4096 - 30) 30 maxLen rps) with (w := w0)
    as (packed & rest & -> & Hsplit & Hl & Hprog); [apply Hmax|done|lia|lia|].
  fold (nlri_bytes packed) in *. cbn [rbind].
  set (p := be_encode 1 0x90 ++ be_encode 1 BGP_ATTR_MP_UNREACH_NLRI).
  set (body := be_encode 2 afi ++ be_encode 1 SAFI_UNICAST ++ nlri_bytes packed).
  replace (w0 ++ nlri_bytes packed) with ((h ++ wl ++ pl) ++ p ++ n ++ body)
    by (subst w0 p body; rewrite <- !app_assoc; done).
  rewrite patchLengths_spec by first [done | subst mpl p; len]. cbn [rbind].
  assert (Eb : be_encode 2 0 ++ be_encode 2 (blen (p ++ n ++ body)) ++ p ++
               be_encode 2 (blen body) ++ body = attr_body (mpUnreach_attr afi packed) []).
  { unfold attr_body. rewrite app_nil_r. change (mpUnreach_attr afi packed) with
      (be_encode 1 0x90 ++ be_encode 1 BGP_ATTR_MP_UNREACH_NLRI ++ be_encode 2 (blen body) ++ body).
    replace (blen (p ++ n ++ body)) with (blen (p ++ be_encode 2 (blen body) ++ body)) by len.
    subst p. by rewrite <- !app_assoc. }
  rewrite Eb. assert (Hb : blen (attr_body (mpUnreach_attr afi packed) []) <= 4077)
    by (rewrite <- Eb; subst p body; len).
  rewrite finishMessage_Ok; [|done|unfold kBgpMsgHeaderLen, kMaxBgpMsgLen; lia].
  exists packed, rest. split; [done|]. split; [done|]. split; [apply Hprog; [done|lia]|done].
Qed.

(** Without room for a prefix of the largest size nothing is packed. *)
Lemma serializeNlri_full c afi safi bufSize maxLen start rps w :
  bufSize <= blen w - start + (maxLen + 1) ->
  serializeNlri c afi safi bufSize maxLen start rps w = Ok (w, rps).
Proof.
  intros Hf. destruct rps as [|rp rps]; [done|]. cbn [serializeNlri].
  destruct (Z.ltb_spec (blen w - start + (maxLen + 1)) bufSize); [lia|done].
Qed.

Lemma v4ReachMsg_spec pid maxLen ab off rps :
  getMaxPrefixLen pid true <= maxLen -> Forall (wf_unicast AFI_IPv4 pid) rps ->
  blen ab <= 4073 ->
  exists packed rest,
    v4ReachMsg ab off maxLen rps =
      Ok (mkQueued (message_bytes BGP_MSG_TYPE_UPDATE (attr_body ab (nlri_bytes packed)))
            (Some (23 + off, true)), rest) /\
    rps = packed ++ rest /\ blen (attr_body ab (nlri_bytes packed)) <= 4077 /\
    (rps <> [] -> blen ab + maxLen + 1 < 4073 -> packed <> []) /\
    (4073 <= blen ab + maxLen + 1 -> packed = []).
Proof.
  intros Hmax Hok Hab. unfold v4ReachMsg.
  destruct newUpdateMsg_23 as (h & wl & pl & -> & Hh & Hwl & Hpl). cbn [rbind].
  unfold kMaxBgpMsgLen in *. rewrite (writes_Ok _ _ _ _ (writes_push _ _)) by len. cbn [rbind].
  set (w0 := (h ++ wl ++ pl) ++ ab). assert (E : blen w0 = 23 + blen ab) by (subst w0; len).
  assert (Hs : exists packed rest,
    serializeNlri 4096 AFI_IPv4 SAFI_UNICAST (4096 - blen w0) maxLen (blen w0) rps w0 =
      Ok (w0 ++ nlri_bytes packed, rest) /\ rps = packed ++ rest /\
    blen w0 + blen (nlri_bytes packed) <= 4096 /\
    (rps <> [] -> blen ab + maxLen + 1 < 4073 -> packed <> []) /\
    (4073 <= blen ab + maxLen + 1 -> packed = [])).
  { destruct (decide (4073 <= blen ab + maxLen + 1)).
    - exists [], rps. rewrite serializeNlri_full by lia. cbn [nlri_bytes map concat].
      rewrite app_nil_r. split; [done|]. split; [done|]. split; [simpl; lia|]. split; [lia|done].
    - destruct (serializeNlri_packs 4096 AFI_IPv4 pid (4096 - blen w0) (blen w0) maxLen rps)
        with (w := w0) as (packed & rest & Es & Hsplit & Hl & Hprog); [done|done|lia|lia|].
      exists packed, rest. unfold nlri_bytes. split; [done|]. split; [done|]. split; [lia|].
      split; [|lia]. intros Hne _. apply Hprog; [done|lia]. }
  destruct Hs as (packed & rest & -> & Hsplit & Hl & Hprog & Hstuck). cbn [rbind].
  unfold plcursor, wlcursor. subst w0. rewrite <- !app_assoc.
  rewrite (app_assoc h wl), write_at_gap by len. cbn [rbind].
  rewrite <- !app_assoc, write_at_gap by len. cbn [rbind].
  change (be_encode 2 0 ++ be_encode 2 (blen ab) ++ ab ++ nlri_bytes packed)
    with (attr_body ab (nlri_bytes packed)).
  assert (Hb : blen (attr_body ab (nlri_bytes packed)) <= 4077) by (unfold attr_body; len).
  rewrite finishMessage_Ok; [|done|unfold kBgpMsgHeaderLen, kMaxBgpMsgLen; lia].
  exists packed, rest. cbn [rbind]. split; [|done]. repeat f_equal. len.
Qed.

Lemma writeMpNexthop_spec nh w :
  (length nh = 4%nat \/ length nh = 16%nat) -> blen w + 1 + blen nh <= kMaxBgpMsgLen ->
  writeMpNexthop nh w =
    Ok (w ++ be_encode 1 (blen nh) ++ nh, (blen w + 1, bool_decide (length nh = 4%nat))).
Proof.
  intros Hl Hfit. unfold writeMpNexthop, toIPAddress. destruct Hl as [Hl|Hl].
  - rewrite ip_fromBinary_v4 by done. cbn [rbind].
    rewrite (writes_Ok _ _ _ _ (writes_u8 _ _)) by len. cbn [rbind].
    rewrite firstn_all2 by lia. rewrite (writes_Ok _ _ _ _ (writes_push _ _)) by len.
    cbn [rbind]. rewrite <- app_assoc, Hl, length_app, length_be_encode.
    by replace (Z.of_nat (length w + 1)) with (blen w + 1) by lia.
  - rewrite ip_fromBinary_v6 by done. cbn [rbind].
    rewrite (writes_Ok _ _ _ _ (writes_u8 _ _)) by len. cbn [rbind].
    rewrite (writes_Ok _ _ _ _ (writes_push _ _)) by len.
    cbn [rbind]. rewrite <- app_assoc, Hl, length_app, length_be_encode.
    by replace (Z.of_nat (length w + 1)) with (blen w + 1) by lia.
Qed.

Lemma mpReachMsg_spec pid maxLen ab mp rps (nh := nlri_nexthop mp) (afi := nlri_afi mp) :
  nlri_safi mp = SAFI_UNICAST -> (length nh = 4%nat \/ length nh = 16%nat) ->
  getMaxPrefixLen pid (afi =? AFI_IPv4) <= maxLen -> Forall (wf_unicast afi pid) rps ->
  rps <> [] -> blen ab + 9 + blen nh + maxLen + 1 < 4073 -> 0 <= maxLen ->
  exists packed rest,
    mpReachMsg ab mp maxLen rps =
      Ok (mkQueued (message_bytes BGP_MSG_TYPE_UPDATE
            (attr_body (ab ++ mpReach_attr afi nh packed) []))
            (Some (23 + blen ab + 8, bool_decide (length nh = 4%nat))), rest) /\
    rps = packed ++ rest /\ packed <> [] /\
    blen (attr_body (ab ++ mpReach_attr afi nh packed) []) <= 4077.
Proof.
  intros Hsafi Hnh Hmax Hok Hne Hroom Hpos. unfold mpReachMsg. rewrite Hsafi. fold afi nh.
  destruct newUpdateMsg_23 as (h & wl & pl & -> & Hh & Hwl & Hpl). cbn [rbind].
  unfold kMaxBgpMsgLen in *. rewrite (writes_Ok _ _ _ _ (writes_push _ _)) by len. cbn [rbind].
  do 2 (rewrite (writes_Ok _ _ _ _ (writes_u8 _ _)) by len; cbn [rbind]).
  match goal with |- context [rw_skip 4096 ?w 2] =>
    destruct (rw_skip_ok 4096 w 2) as (n & Hn & ->); [len|]; set (mpl := length w) end.
  cbn [rbind]. rewrite (writes_Ok _ _ _ _ (writes_BE 2 _ _)) by len. cbn [rbind].
  rewrite (writes_Ok _ _ _ _ (writes_u8 _ _)) by len. cbn [rbind].
  rewrite writeMpNexthop_spec by (done || unfold kMaxBgpMsgLen; len). cbn [rbind].
  rewrite (writes_Ok _ _ _ _ (writes_u8 _ _)) by len. cbn [rbind].
  match goal with |- context [serializeNlri _ _ _ (4096 - blen ?w) _ _ _ _] =>
    set (w0 := w) end.
  assert (E : blen w0 = 32 + blen ab + blen nh) by (subst w0; len).
  destruct (serializeNlri_packs 4096 afi pid (4096 - blen w0) (blen w0) maxLen rps)
    with (w := w0) as (packed & rest & -> & Hsplit & Hl & Hprog); [done|done|lia|lia|].
  fold (nlri_bytes packed) in *. cbn [rbind].
  set (p := ab ++ be_encode 1 0x90 ++ be_encode 1 BGP_ATTR_MP_REACH_NLRI).
  set (body := be_encode 2 afi ++ be_encode 1 SAFI_UNICAST ++ be_encode 1 (blen nh) ++ nh ++
               be_encode 1 0 ++ nlri_bytes packed).
  replace (w0 ++ nlri_bytes packed) with ((h ++ wl ++ pl) ++ p ++ n ++ body)
    by (subst w0 p body; rewrite <- !app_assoc; done).
  rewrite patchLengths_spec by first [done | subst mpl p; len]. cbn [rbind].
  assert (Eb : be_encode 2 0 ++ be_encode 2 (blen (p ++ n ++ body)) ++ p ++
      be_encode 2 (blen body) ++ body = attr_body (ab ++ mpReach_attr afi nh packed) []).
  { unfold attr_body. rewrite app_nil_r. change (mpReach_attr afi nh packed) with
      (be_encode 1 0x90 ++ be_encode 1 BGP_ATTR_MP_REACH_NLRI ++ be_encode 2 (blen body) ++ body).
    replace (blen (p ++ n ++ body)) with (blen (p ++ be_encode 2 (blen body) ++ body)) by len.
    subst p. by rewrite <- !app_assoc. }
  rewrite Eb. assert (Hb : blen (attr_body (ab ++ mpReach_attr afi nh packed) []) <= 4077)
    by (rewrite <- Eb; subst p body; len).
  rewrite finishMessage_Ok; [|done|unfold kBgpMsgHeaderLen, kMaxBgpMsgLen; lia].
  exists packed, rest. cbn [rbind]. split.
  - do 4 f_equal. f_equal. len.
  - split; [done|]. split; [apply Hprog; [done|lia]|done].
Qed.
End Messages.

(** ** What the receiver makes of each message *)
Section Receive.
Context `{F : FollyOps} `{L : !FollyLaws F}.
Variable capa : BgpCapabilities.

Definition classic (rps : list RiggedIPPrefix) : list IPPrefix :=
  if addPathReceive capa then [] else map rig_prefix rps.
Definition noNlri : BgpNlri := mkNlri 0 0 [] [].

Definition withdraw_update (rps : list RiggedIPPrefix) : BgpUpdate2 :=
  mkUpdate2 defaultAttributes noNlri noNlri [] (classic rps) [] [] rps.
Definition mpUnreach_update (afi : Z) (rps : list RiggedIPPrefix) : BgpUpdate2 :=
  mkUpdate2 defaultAttributes noNlri (mkNlri afi SAFI_UNICAST rps []) [] [] [] [] [].
Definition mpReach_update (a : BgpAttributes) (afi : Z) (nh : bytes)
    (rps : list RiggedIPPrefix) : BgpUpdate2 :=
  mkUpdate2 (received_attrs false [] a) (mkNlri afi SAFI_UNICAST rps nh) noNlri [] [] [] [] [].
Definition v4_update (a : BgpAttributes) (nh : bytes) (rps : list RiggedIPPrefix)
    : BgpUpdate2 :=
  mkUpdate2 (received_attrs true nh a) noNlri noNlri (classic rps) [] nh rps [].

(** Multiprotocol unicast of this family was negotiated. *)
Definition mp_enabled (afi : Z) : Prop :=
  (afi = AFI_IPv4 /\ mpExtV4Unicast capa = true) \/
  (afi = AFI_IPv6 /\ mpExtV6Unicast capa = true).

Abbreviation pid afi := (parsePathIdEnabled capa afi SAFI_UNICAST).

(** Path identifiers are only read when add-path is enabled at all. *)
Lemma pid_addPath : pid AFI_IPv4 = true -> addPathReceive capa = true.
Proof.
  unfold parsePathIdEnabled, addPathReceive.
  assert (Hgen : forall l acc, fold_left (fun r c =>
      if (ap_afi c =? AFI_IPv4) && (ap_safi c =? SAFI_UNICAST)
      then (ap_sor c =? RECEIVE) || (ap_sor c =? BOTH) else r) l acc = true ->
    acc = true \/ existsb (fun c => (ap_afi c =? AFI_IPv4) &&
      ((ap_sor c =? RECEIVE) || (ap_sor c =? BOTH))) l = true).
  { induction l as [|c l IH]; intros acc; cbn [fold_left existsb]; [by left|].
    intros Hf. apply IH in Hf as [Hf|Hf]; [|by right; rewrite Hf, orb_true_r].
    destruct (ap_afi c =? AFI_IPv4); [|by left].
    destruct (ap_safi c =? SAFI_UNICAST); [right; cbn [andb] in *; by rewrite Hf|by left]. }
  intros Hf. by apply Hgen in Hf as [|].
Qed.

Lemma riggedMp_to_BgpPrefix afi b rp : wf_unicast afi b rp ->
  riggedMp (to_BgpPrefix afi rp) = rp.
Proof.
  intros ([Hf _] & Hlab & _). destruct rp as [[a n] ls p].
  unfold riggedMp, classicPrefix, to_BgpPrefix, prefix_addr, toBinaryAddress.
  cbn in *. by destruct (afi =? AFI_IPv4).
Qed.

Lemma map_riggedMp afi b rps : Forall (wf_unicast afi b) rps ->
  map riggedMp (map (to_BgpPrefix afi) rps) = rps.
Proof.
  induction 1 as [|rp rps Hrp _ IH]; [done|]. cbn [map].
  by rewrite IH, (riggedMp_to_BgpPrefix afi b rp).
Qed.

(** The classical lists: with the path identifier when add-path is on, and
    without one otherwise, when there is none. *)
Lemma map_rig rps : Forall (wf_unicast AFI_IPv4 (pid AFI_IPv4)) rps ->
  map (if addPathReceive capa then riggedPathId else riggedPlain)
    (map (to_BgpPrefix AFI_IPv4) rps) = rps /\
  map classicPrefix (map (to_BgpPrefix AFI_IPv4) rps) = map rig_prefix rps.
Proof.
  intros Hok. induction Hok as [|rp rps Hrp _ [IH1 IH2]]; [done|]. cbn [map].
  rewrite IH1, IH2. destruct Hrp as (_ & Hlab & Hpid).
  destruct rp as [[a n] ls p]. cbn in Hlab, Hpid. subst ls.
  unfold riggedPathId, riggedPlain, classicPrefix, to_BgpPrefix, prefix_addr, toBinaryAddress.
  cbn. split; [|done]. f_equal. destruct (addPathReceive capa) eqn:Ea; [done|].
  destruct p as [p|]; [|done]. destruct Hpid as [Hpid _]. apply pid_addPath in Hpid. congruence.
Qed.

Lemma nlri_bytes_nonempty rps : rps <> [] -> 0 < blen (nlri_bytes rps).
Proof.
  destruct rps as [|rp rps]; [done|]. intros _. unfold nlri_bytes. cbn [map concat].
  unfold unicast_bytes. len.
Qed.

Lemma parseMpNlri_unicast afi abp t rps : mp_enabled afi ->
  Forall (wf_unicast afi (pid afi)) rps ->
  parseMpNlri (nlri_bytes rps) afi SAFI_UNICAST capa abp t = Ok (map (to_BgpPrefix afi) rps).
Proof.
  intros Hmp Hok. unfold parseMpNlri. simpl (_ =? SAFI_UNICAST). cbv iota.
  destruct Hmp as [[-> ->]|[-> ->]]; simpl (_ || _); cbv iota;
    try rewrite orb_true_r; by apply parseNlri_unicast.
Qed.

Lemma receive_withdraw rps : Forall (wf_unicast AFI_IPv4 (pid AFI_IPv4)) rps -> rps <> [] ->
  blen (withdraw_body rps) < 65536 ->
  parseUpdateBody (withdraw_body rps) capa = Ok (IsUpdate (withdraw_update rps)).
Proof.
  intros Hok Hne Hl. pose proof (nlri_bytes_nonempty rps Hne) as Hpos.
  unfold withdraw_body in *. set (nl := nlri_bytes rps) in *.
  unfold parseUpdateBody, parseV4Withdrawn.
  destruct (Z.ltb_spec (blen (be_encode 2 (blen nl) ++ nl ++ be_encode 2 0)) 2); [len|].
  rewrite readBE_encode, Z.mod_small by len. cbn [rbind].
  destruct (Z.eqb_spec (blen nl) 0); [lia|].
  destruct (Z.ltb_spec (blen (nl ++ be_encode 2 0)) (blen nl)); [len|].
  rewrite wrap_app, skip_app by lia. cbn [rbind].
  unfold nl at 1, nlri_bytes. rewrite parseNlri_unicast by done.
  cbn [catch_out_of_range rcatch rbind].
  rewrite <- (app_nil_r (be_encode 2 0)), parsePathAttributes_none. cbn [rbind].
  set (st := set_paLen 0 _). change (v4WithdrawnLen st) with (blen nl).
  destruct (Z.eqb_spec (blen nl) 0); [lia|].
  change (parseV4Announced [] capa st) with (@Ok Exn _ (@nil Z, st)). cbn [andb rbind].
  change (doSanityChecks st) with (@Ok Exn _ tt). cbn [rbind].
  change (eor st) with (@None BgpEndOfRib). cbv iota. do 2 f_equal.
  destruct (map_rig rps Hok) as [E1 E2]. unfold withdraw_update, classic.
  transitivity (mkUpdate2 defaultAttributes noNlri noNlri []
    (if addPathReceive capa then [] else map classicPrefix (map (to_BgpPrefix AFI_IPv4) rps)) [] []
    (map (if addPathReceive capa then riggedPathId else riggedPlain)
       (map (to_BgpPrefix AFI_IPv4) rps))); [|by rewrite E1, E2].
  unfold buildUpdate. by destruct (addPathReceive capa).
Qed.

Lemma parse_mpUnreach_attr afi rps st : mp_enabled afi ->
  Forall (wf_unicast afi (pid afi)) rps -> rps <> [] -> blen (mpUnreach_attr afi rps) < 65536 ->
  while_readable (parsePathAttribute capa) (mpUnreach_attr afi rps) st =
    Ok (set_mpWithdrawn (map (to_BgpPrefix afi) rps)
          (set_mpWithdrawnFamily afi SAFI_UNICAST st)).
Proof.
  intros Hmp Hok Hne Hl. pose proof (nlri_bytes_nonempty rps Hne) as Hpos.
  assert (Ha : 0 <= afi < 65536) by (destruct Hmp as [[-> _]|[-> _]]; done).
  rewrite <- (app_nil_r (mpUnreach_attr afi rps)). unfold mpUnreach_attr in *.
  rewrite (parse_attr_chunk capa true 0x90 BGP_ATTR_MP_UNREACH_NLRI _ _ _ (fun st =>
    set_mpWithdrawn (map (to_BgpPrefix afi) rps) (set_mpWithdrawnFamily afi SAFI_UNICAST st)));
    [done|done| | |done].
  - intros _. change (attr_limit 0x90) with 65536. unfold attr_tlv in Hl. len.
  - intros _ abp. unfold parseAttrBody, parseMpUnreach. simpl (_ =? _). cbv iota.
    rewrite readBE_encode, Z.mod_small by lia. cbn [rbind].
    rewrite read_u8_encode. cbn [rbind]. change (SAFI_UNICAST mod 256) with SAFI_UNICAST.
    replace ((afi =? AFI_IPv4) || (afi =? AFI_IPv6)) with true
      by by destruct Hmp as [[-> _]|[-> _]].
    destruct (Z.eqb_spec (blen (nlri_bytes rps)) 0); [lia|].
    by rewrite parseMpNlri_unicast.
Qed.

(** An UPDATE without withdrawn routes whose attributes [pa] lead to state
    [st]: what remains is the announced NLRI. *)
Lemma receive_attr_body pa nl st :
  0 < blen pa < 65536 ->
  while_readable (parsePathAttribute capa) pa
    (set_paLen (blen pa) (set_attrs (set_isMedSet false) (set_v4WithdrawnLen 0 initialState)))
    = Ok st -> paLen st = blen pa ->
  parseUpdateBody (attr_body pa nl) capa =
    let* '(_, st) := parseV4Announced nl capa st in
    let* _ := doSanityChecks st in
    match eor st with
    | Some e => Ok (IsEndOfRib e)
    | None => Ok (IsUpdate (buildUpdate capa st))
    end.
Proof.
  intros Hpa Hw Hst. unfold parseUpdateBody, attr_body.
  rewrite parseV4Withdrawn_none. cbn [rbind].
  rewrite parsePathAttributes_block, Hw by done. cbn [rbind]. rewrite Hst.
  destruct (Z.eqb_spec (blen pa) 0); [lia|]. by rewrite andb_false_r.
Qed.

Lemma receive_mpUnreach afi rps : mp_enabled afi ->
  Forall (wf_unicast afi (pid afi)) rps -> rps <> [] ->
  blen (attr_body (mpUnreach_attr afi rps) []) <= 4077 ->
  parseUpdateBody (attr_body (mpUnreach_attr afi rps) []) capa =
    Ok (IsUpdate (mpUnreach_update afi rps)).
Proof.
  intros Hmp Hok Hne Hl.
  assert (Hpa : 0 < blen (mpUnreach_attr afi rps) < 65536)
    by (split; [unfold mpUnreach_attr, attr_tlv|unfold attr_body in Hl]; len).
  erewrite receive_attr_body; [|done|apply parse_mpUnreach_attr; [done..|lia]|done].
  set (st := set_mpWithdrawn _ _).
  change (parseV4Announced [] capa st) with (@Ok Exn _ (@nil Z, st)). cbn [rbind].
  change (doSanityChecks st) with (@Ok Exn _ tt). cbn [rbind].
  change (eor st) with (@None BgpEndOfRib). cbv iota. do 2 f_equal.
  transitivity (mkUpdate2 defaultAttributes noNlri
    (mkNlri afi SAFI_UNICAST (map riggedMp (map (to_BgpPrefix afi) rps)) []) [] [] [] [] []).
  - unfold buildUpdate. by destruct (addPathReceive capa).
  - unfold mpUnreach_update. by rewrite (map_riggedMp afi (pid afi)).
Qed.

(** Next hops the receiver accepts: a 4-byte one for IPv4, a 16-byte one for
    IPv6, and for IPv4 when extended next hop encoding was negotiated. *)
Definition nexthop_ok (afi : Z) (nh : bytes) : Prop :=
  wf_bytes nh /\
  ((afi = AFI_IPv4 /\ length nh = 4%nat) \/
   (length nh = 16%nat /\ (afi = AFI_IPv6 \/ extNHEncodingCapabilities capa <> []))).

Definition nexthop_ip (nh : bytes) : IPAddress :=
  if bool_decide (length nh = 4%nat) then IPV4 nh else IPV6 nh.

Lemma parseMpReach_body afi abp nh rps st : mp_enabled afi -> nexthop_ok afi nh ->
  Forall (wf_unicast afi (pid afi)) rps ->
  parseMpReach capa abp (be_encode 2 afi ++ be_encode 1 SAFI_UNICAST ++ be_encode 1 (blen nh) ++
    nh ++ be_encode 1 0 ++ nlri_bytes rps) st =
  Ok (set_mpAnnounced (nexthop_ip nh) (map (to_BgpPrefix afi) rps)
        (set_mpAnnouncedFamily afi SAFI_UNICAST st)).
Proof.
  intros Hmp [Hwf Hnh] Hok. unfold parseMpReach.
  assert (Ha : 0 <= afi < 65536) by (destruct Hmp as [[-> _]|[-> _]]; done).
  assert (Hln : length nh = 4%nat \/ length nh = 16%nat) by (destruct Hnh as [[? ?]|[? ?]]; auto).
  rewrite readBE_encode, Z.mod_small by lia. cbn [rbind].
  rewrite read_u8_encode. cbn [rbind]. change (SAFI_UNICAST mod 256) with SAFI_UNICAST.
  rewrite read_u8_encode, Z.mod_small by lia.
  assert (H16 : forall body, length nh = 16%nat ->
    parseV6Nexthop 16 (nh ++ body) = Ok (IPV6 nh, body)).
  { intros body H16. unfold parseV6Nexthop. rewrite pull_app by done. cbn [rbind].
    by rewrite ip_fromBinary_v6. }
  assert (Hskip : cursor_skip (be_encode 1 0 ++ nlri_bytes rps) 1 = Ok (nlri_bytes rps))
    by by rewrite skip_app.
  unfold nexthop_ip. cbn [rbind].
  destruct Hnh as [[-> H4]|[Hl16 Hext]].
  - rewrite H4. simpl (_ =? _). cbv iota. cbn [negb]. rewrite andb_false_r, andb_false_r.
    cbn [andb]. unfold readBE. rewrite pull_app by done. cbn [rbind]. rewrite Hskip. cbn [rbind].
    rewrite parseMpNlri_unicast by done. cbn [rbind]. rewrite bool_decide_eq_true_2 by done.
    pose proof (be_encode_decode nh Hwf) as E. rewrite H4 in E.
    unfold ip_fromLongHBO. by rewrite E.
  - rewrite Hl16, bool_decide_eq_false_2 by lia. change (Z.of_nat 16) with 16.
    assert (Hx : afi = AFI_IPv4 ->
      (0 <? Z.of_nat (length (extNHEncodingCapabilities capa))) = true).
    { intros ->. destruct Hext as [?|Hext]; [done|].
      destruct (extNHEncodingCapabilities capa); [done|]. apply Z.ltb_lt. simpl. lia. }
    destruct Hmp as [[-> Hm]|[-> Hm]]; simpl (_ =? _); cbv iota; rewrite ?Hx by done;
      cbn [negb andb]; rewrite H16 by done; cbn [rbind]; rewrite Hskip; cbn [rbind];
      rewrite parseMpNlri_unicast by (done || by (left + right)); done.
Qed.

Lemma receive_mpReach o a afi nh rps : mp_enabled afi -> nexthop_ok afi nh ->
  wf_attrs (as4byte capa) o a -> Forall (wf_unicast afi (pid afi)) rps -> rps <> [] ->
  blen (attr_body (attrs_bytes (as4byte capa) false o [] a ++ mpReach_attr afi nh rps) []) <= 4077 ->
  parseUpdateBody (attr_body (attrs_bytes (as4byte capa) false o [] a ++ mpReach_attr afi nh rps) [])
    capa = Ok (IsUpdate (mpReach_update a afi nh rps)).
Proof.
  intros Hmp Hnh Hwf Hok Hne Hl.
  set (ab := attrs_bytes (as4byte capa) false o [] a) in *.
  assert (Hpa : 0 < blen (ab ++ mpReach_attr afi nh rps) < 65536)
    by (split; [unfold mpReach_attr, attr_tlv|unfold attr_body in Hl]; len).
  set (st0 := set_paLen (blen (ab ++ mpReach_attr afi nh rps)) (set_attrs (set_isMedSet false)
                (set_v4WithdrawnLen 0 initialState))).
  assert (Hloop : while_readable (parsePathAttribute capa) (ab ++ mpReach_attr afi nh rps) st0 =
    Ok (set_mpAnnounced (nexthop_ip nh) (map (to_BgpPrefix afi) rps)
          (set_mpAnnouncedFamily afi SAFI_UNICAST (received_state false [] a st0)))).
  { unfold ab at 1. rewrite parse_attrs; [|done|done|done|fold ab; len].
    rewrite <- (app_nil_r (mpReach_attr afi nh rps)). unfold mpReach_attr.
    rewrite (parse_attr_chunk capa true 0x90 BGP_ATTR_MP_REACH_NLRI _ _ _ (fun st =>
      set_mpAnnounced (nexthop_ip nh) (map (to_BgpPrefix afi) rps)
          (set_mpAnnouncedFamily afi SAFI_UNICAST st))); [done|done| | |done].
    - intros _. change (attr_limit 0x90) with 65536.
      unfold mpReach_attr, attr_tlv in Hpa. len.
    - intros _ abp. by apply parseMpReach_body. }
  rewrite (receive_attr_body _ _ _ Hpa Hloop) by done.
  set (st := set_mpAnnounced _ _ _).
  change (parseV4Announced [] capa st) with (@Ok Exn _ (@nil Z, st)). cbn [rbind].
  assert (Hs : doSanityChecks st = Ok tt) by (destruct rps; done). rewrite Hs. cbn [rbind].
  change (eor st) with (@None BgpEndOfRib). cbv iota. do 2 f_equal.
  transitivity (mkUpdate2 (received_attrs false [] a)
    (mkNlri afi SAFI_UNICAST (map riggedMp (map (to_BgpPrefix afi) rps))
       (toBinaryAddress (nexthop_ip nh))) noNlri [] [] [] [] []).
  - unfold buildUpdate. by destruct (addPathReceive capa).
  - unfold mpReach_update, nexthop_ip, toBinaryAddress. rewrite (map_riggedMp afi (pid afi)) by done.
    by case_bool_decide.
Qed.

Lemma receive_v4 o a nh rps : length nh = 4%nat -> wf_bytes nh ->
  wf_attrs (as4byte capa) o a -> Forall (wf_unicast AFI_IPv4 (pid AFI_IPv4)) rps -> rps <> [] ->
  blen (attr_body (attrs_bytes (as4byte capa) true o nh a) (nlri_bytes rps)) <= 4077 ->
  parseUpdateBody (attr_body (attrs_bytes (as4byte capa) true o nh a) (nlri_bytes rps)) capa =
    Ok (IsUpdate (v4_update a nh rps)).
Proof.
  intros Hln Hnh Hwf Hok Hne Hl. pose proof (nlri_bytes_nonempty rps Hne) as Hpos.
  pose proof (attrs_bytes_parts (as4byte capa) true o nh a) as Hparts.
  set (ab := attrs_bytes (as4byte capa) true o nh a) in *.
  assert (Hpa : 0 < blen ab < 65536) by (unfold attr_body in Hl; len).
  set (st0 := set_paLen (blen ab) (set_attrs (set_isMedSet false)
                (set_v4WithdrawnLen 0 initialState))).
  assert (Hloop : while_readable (parsePathAttribute capa) ab st0 =
                  Ok (received_state true nh a st0)).
  { rewrite <- (app_nil_r ab). unfold ab. by rewrite parse_attrs; [..|fold ab; lia]. }
  rewrite (receive_attr_body _ _ _ Hpa Hloop) by done.
  unfold parseV4Announced. destruct (Z.eqb_spec (blen (nlri_bytes rps)) 0); [lia|].
  unfold nlri_bytes at 1. rewrite parseNlri_unicast by done. cbn [rbind].
  rewrite cursor_skip_ok by lia. cbn [rbind]. set (st := set_v4Announced _ _).
  assert (Hs : doSanityChecks st = Ok tt) by (destruct rps; done). rewrite Hs. cbn [rbind].
  change (eor st) with (@None BgpEndOfRib). cbv iota. do 2 f_equal.
  destruct (map_rig rps Hok) as [E1 E2]. unfold v4_update, classic.
  transitivity (mkUpdate2 (received_attrs true nh a) noNlri noNlri
    (if addPathReceive capa then [] else map classicPrefix (map (to_BgpPrefix AFI_IPv4) rps)) [] nh
    (map (if addPathReceive capa then riggedPathId else riggedPlain)
       (map (to_BgpPrefix AFI_IPv4) rps)) []); [|by rewrite E1, E2].
  unfold buildUpdate. by destruct (addPathReceive capa).
Qed.
End Receive.

(** ** The message loops *)
Section Loops.
Context `{F : FollyOps} `{L : !FollyLaws F}.

Lemma emitMessages_packs step (ok : list RiggedIPPrefix -> Prop)
    (R : list RiggedIPPrefix -> QueuedMsg -> Prop) :
  (forall ps, ok ps -> ps <> [] -> exists packed rest m,
     step ps = Ok (m, rest) /\ ps = packed ++ rest /\ packed <> [] /\ ok rest /\ R packed m) ->
  forall fuel ps, ok ps -> (length ps <= fuel)%nat ->
  exists chunks queue,
    emitMessages step fuel ps = Ok queue /\ concat chunks = ps /\ Forall2 R chunks queue.
Proof.
  intros Hstep. induction fuel as [|fuel IH]; intros ps Hok Hl; destruct ps as [|p ps];
    try (exists [], []; by repeat constructor); [simpl in Hl; lia|].
  destruct (Hstep (p :: ps)) as (packed & rest & m & E & Hs & Hne & Hrest & HR); [done..|].
  destruct (IH rest) as (chunks & queue & Eq & <- & HF); [done| |].
  { apply (f_equal length) in Hs. rewrite length_app in Hs.
    destruct packed; [done|]. simpl in *. lia. }
  exists (packed :: chunks), (m :: queue). cbn [emitMessages]. rewrite E. cbn [rbind].
  rewrite Eq. split; [done|]. split; [done|]. by constructor.
Qed.

(** A step that packs nothing is repeated for ever. *)
Lemma emitMessages_stuck step ps m : ps <> [] -> step ps = Ok (m, ps) ->
  forall fuel, emitMessages step fuel ps = NoFuel.
Proof.
  intros Hne Hs. induction fuel as [|fuel IH]; (destruct ps as [|p ps]; [done|]); [done|].
  cbn [emitMessages]. rewrite Hs. cbn [rbind]. by rewrite IH.
Qed.

Lemma hasPathId_wf afi b rps : Forall (wf_unicast afi b) rps -> rps <> [] -> hasPathId rps = b.
Proof.
  intros Hok Hne. destruct rps as [|rp rps]; [done|]. apply Forall_cons in Hok as [(_ & _ & Hp) _].
  unfold hasPathId. destruct (rig_pathId rp) as [p|]; simpl in Hp.
  - destruct Hp as [-> _]. by apply bool_decide_eq_true_2.
  - subst b. apply bool_decide_eq_false_2. by intros [].
Qed.

Lemma getMaxPrefixLen_bounds b v4 : getMaxPrefixLen b true <= getMaxPrefixLen b v4 <= 21 /\
  0 <= getMaxPrefixLen b v4 /\ getMaxPrefixLen b v4 <= getMaxPrefixLen b false.
Proof. destruct b, v4; vm_compute; repeat split; discriminate. Qed.
End Loops.
