(* ===== verification/UpdateRoundtrip.v ===== *)
(** * UPDATE messages end to end

    What [serializeBgpUpdate2] queues for an update is what the peer's
    [parseBgpUpdateRaw] turns back into it; and the case in which the loop that
    fills the queue does not terminate. *)

From S2P Require Import Prelude BgpException Folly BgpStructs MsgHeader ControlMsgs Nlri PathAttrs PathAttrsSerializer UpdateMsg UpdateSerializer.

Section Roundtrip.
Context `{F : FollyOps} `{L : !FollyLaws F}.
Variable capa : BgpCapabilities.
Abbreviation pid afi := (parsePathIdEnabled capa afi SAFI_UNICAST).
Abbreviation as4 := (as4byte capa).

(** The queued message is a legal BGP message that the peer parses to [u],
    whatever follows it in the stream. *)
Definition decodes (u : BgpUpdate2) (m : QueuedMsg) : Prop :=
  blen (q_bytes m) <= kMaxBgpMsgLen /\
  forall more, parseBgpUpdateRaw (q_bytes m ++ more) capa = Ok (IsUpdate u).

(** The offset recorded for the message is where the next hop is. *)
Definition nexthop_at (nh : bytes) (m : QueuedMsg) : Prop :=
  exists off, q_nexthop m = Some (off, bool_decide (length nh = 4%nat)) /\
    take (length nh) (drop (Z.to_nat off) (q_bytes m)) = nh.

(** The octets at the recorded offset may be replaced by another next hop [nh']
    of the same length: the peer then gets [upd nh']. *)
Definition rewritable (upd : bytes -> BgpUpdate2) (ok : bytes -> Prop) (nh : bytes)
    (m : QueuedMsg) : Prop :=
  exists pre post,
    m = mkQueued (pre ++ nh ++ post) (Some (blen pre, bool_decide (length nh = 4%nat))) /\
    forall nh', length nh' = length nh -> ok nh' ->
      decodes (upd nh') (mkQueued (pre ++ nh' ++ post) (q_nexthop m)).

Lemma rewritable_both upd (ok : bytes -> Prop) nh m :
  ok nh -> rewritable upd ok nh m -> decodes (upd nh) m /\ rewritable upd ok nh m.
Proof. intros Hok Hr. split; [|done]. destruct Hr as (pre & post & -> & H). by apply H. Qed.

Lemma rewritable_nexthop_at upd ok nh m : rewritable upd ok nh m -> nexthop_at nh m.
Proof.
  intros (pre & post & -> & _). eexists. split; [done|]. cbn [q_bytes].
  by rewrite Nat2Z.id, drop_app_length, take_app_length.
Qed.

Lemma decodes_message body nh u :
  4 <= blen body <= 4077 -> parseUpdateBody body capa = Ok (IsUpdate u) ->
  decodes u (mkQueued (message_bytes BGP_MSG_TYPE_UPDATE body) nh).
Proof.
  intros Hl Hp. unfold decodes. cbn [q_bytes]. split.
  - rewrite length_message_bytes. unfold kMaxBgpMsgLen. lia.
  - intros more. rewrite parseBgpUpdateRaw_message; [done|lia|].
    unfold kBgpMsgHeaderLen, kMaxBgpMsgLen. lia.
Qed.

Lemma withdraw_loop rps fuel :
  Forall (wf_unicast AFI_IPv4 (pid AFI_IPv4)) rps -> (length rps <= fuel)%nat ->
  exists chunks queue,
    emitMessages (withdrawMsg (getMaxPrefixLen (hasPathId rps) true)) fuel rps = Ok queue /\
    concat chunks = rps /\
    Forall2 (fun c m => decodes (withdraw_update capa c) m /\ q_nexthop m = None) chunks queue.
Proof.
  intros Hok Hl. destruct rps as [|rp rps]; [by exists [], []; destruct fuel|].
  rewrite (hasPathId_wf _ _ _ Hok) by done.
  apply (emitMessages_packs _ (Forall (wf_unicast AFI_IPv4 (pid AFI_IPv4)))); [|done..].
  intros ps Hps Hne.
  destruct (withdrawMsg_spec (pid AFI_IPv4) (getMaxPrefixLen (pid AFI_IPv4) true) ps)
    as (packed & rest & E & -> & Hp & Hb); [apply getMaxPrefixLen_bounds|done..|].
  apply Forall_app in Hps as [Hpk Hrest]. eexists packed, rest, _.
  split; [done|]. split; [done|]. split; [done|]. split; [done|].
  split; [|done]. apply decodes_message; [unfold withdraw_body in *; len|].
  apply receive_withdraw; [done..|lia].
Qed.

Lemma mpUnreach_loop afi rps fuel :
  (rps <> [] -> mp_enabled capa afi) -> Forall (wf_unicast afi (pid afi)) rps ->
  (length rps <= fuel)%nat ->
  exists chunks queue,
    emitMessages (mpUnreachMsg afi SAFI_UNICAST (getMaxPrefixLen (hasPathId rps) false)) fuel rps
      = Ok queue /\
    concat chunks = rps /\
    Forall2 (fun c m => decodes (mpUnreach_update afi c) m /\ q_nexthop m = None) chunks queue.
Proof.
  intros Hmp Hok Hl. destruct rps as [|rp rps]; [by exists [], []; destruct fuel|].
  specialize (Hmp ltac:(done)). rewrite (hasPathId_wf _ _ _ Hok) by done.
  apply (emitMessages_packs _ (Forall (wf_unicast afi (pid afi)))); [|done..].
  intros ps Hps Hne. destruct (getMaxPrefixLen_bounds (pid afi) (afi =? AFI_IPv4)) as (_ & _ & Hb1).
  destruct (getMaxPrefixLen_bounds (pid afi) false) as ([_ Hb2] & _ & _).
  destruct (mpUnreachMsg_spec afi (pid afi) (getMaxPrefixLen (pid afi) false) ps)
    as (packed & rest & E & -> & Hp & Hb); [done..|].
  apply Forall_app in Hps as [Hpk Hrest]. eexists packed, rest, _.
  split; [done|]. split; [done|]. split; [done|]. split; [done|].
  split; [|done]. apply decodes_message; [unfold attr_body in *; len|].
  by apply receive_mpUnreach.
Qed.

(** Where the next hop is in a message, as a function of the next hop. *)
Definition mpReach_pre (ab : bytes) (afi len1 len2 len3 n : Z) : bytes :=
  (kBgpMarker ++ be_encode 2 len3 ++ be_encode 1 BGP_MSG_TYPE_UPDATE) ++ be_encode 2 0 ++
  be_encode 2 len1 ++ ab ++ be_encode 1 0x90 ++ be_encode 1 BGP_ATTR_MP_REACH_NLRI ++
  be_encode 2 len2 ++ be_encode 2 afi ++ be_encode 1 SAFI_UNICAST ++ be_encode 1 n.

Lemma mpReach_split ab afi rps n : exists pre,
  blen pre = 23 + blen ab + 8 /\
  forall nh, length nh = n ->
    message_bytes BGP_MSG_TYPE_UPDATE (attr_body (ab ++ mpReach_attr afi nh rps) []) =
    pre ++ nh ++ be_encode 1 0 ++ nlri_bytes rps.
Proof.
  set (z := replicate n 0).
  exists (mpReach_pre ab afi (blen (ab ++ mpReach_attr afi z rps))
    (blen (be_encode 2 afi ++ be_encode 1 SAFI_UNICAST ++ be_encode 1 (blen z) ++ z ++
           be_encode 1 0 ++ nlri_bytes rps))
    (kBgpMsgHeaderLen + blen (attr_body (ab ++ mpReach_attr afi z rps) [])) (Z.of_nat n)).
  split; [unfold mpReach_pre; len|]. intros nh Hl.
  assert (Hz : length z = n) by apply length_replicate.
  unfold message_bytes, header_bytes, mpReach_pre.
  assert (E1 : blen (mpReach_attr afi z rps) = blen (mpReach_attr afi nh rps)).
  { unfold mpReach_attr, attr_tlv. change (has_flag 0x90 BGP_ATTR_FLAG_EXTENDED) with true.
    cbv iota. rewrite !length_app, !length_be_encode. lia. }
  assert (E2 : blen (ab ++ mpReach_attr afi z rps) = blen (ab ++ mpReach_attr afi nh rps))
    by (rewrite !length_app; lia).
  assert (E3 : blen (attr_body (ab ++ mpReach_attr afi z rps) []) =
               blen (attr_body (ab ++ mpReach_attr afi nh rps) []))
    by (unfold attr_body; rewrite !length_app, !length_be_encode; rewrite !length_app in E2; lia).
  rewrite E2, E3. unfold attr_body at 2. unfold mpReach_attr at 3, attr_tlv.
  change (has_flag 0x90 BGP_ATTR_FLAG_EXTENDED) with true. cbv iota.
  rewrite <- !app_assoc, app_nil_r. rewrite Hl, Hz.
  assert (E4 : blen (be_encode 2 afi ++ be_encode 1 SAFI_UNICAST ++ be_encode 1 (Z.of_nat n) ++
      z ++ be_encode 1 0 ++ nlri_bytes rps) =
    blen (be_encode 2 afi ++ be_encode 1 SAFI_UNICAST ++ be_encode 1 (Z.of_nat n) ++
      nh ++ be_encode 1 0 ++ nlri_bytes rps)) by (rewrite !length_app; lia).
  by rewrite E4.
Qed.

Lemma v4_split as4 o a nl n : exists pre post,
  blen pre = 23 + default 0 (nexthop_offset as4 true a) /\
  forall nh, length nh = n ->
    message_bytes BGP_MSG_TYPE_UPDATE (attr_body (attrs_bytes as4 true o nh a) nl) =
    pre ++ nh ++ post.
Proof.
  set (z := replicate n 0). assert (Hz : length z = n) by apply length_replicate.
  exists ((kBgpMarker ++
           be_encode 2 (kBgpMsgHeaderLen + blen (attr_body (attrs_bytes as4 true o z a) nl)) ++
           be_encode 1 BGP_MSG_TYPE_UPDATE) ++ be_encode 2 0 ++
          be_encode 2 (blen (attrs_bytes as4 true o z a)) ++ head_bytes as4 a ++
          be_encode 1 0x40 ++ be_encode 1 BGP_ATTR_NEXT_HOP ++ be_encode 1 (Z.of_nat n)),
    (optional_bytes as4 o a ++ nl).
  change (default 0 (nexthop_offset as4 true a)) with (blen (head_bytes as4 a) + 3).
  split; [len|]. intros nh Hl.
  assert (E1 : blen (attrs_bytes as4 true o z a) = blen (attrs_bytes as4 true o nh a)).
  { rewrite (attrs_bytes_nexthop _ _ z), (attrs_bytes_nexthop _ _ nh).
    rewrite !length_app, !length_be_encode. lia. }
  assert (E2 : blen (attr_body (attrs_bytes as4 true o z a) nl) =
               blen (attr_body (attrs_bytes as4 true o nh a) nl))
    by (unfold attr_body; rewrite !length_app, !length_be_encode; lia).
  rewrite E1, E2. unfold message_bytes, header_bytes. unfold attr_body at 2.
  rewrite attrs_bytes_nexthop at 3. by rewrite Hl, <- !app_assoc.
Qed.

Lemma serializeAttrs_Ok u v4 o : wf_attrs as4 o (u_attrs u) ->
  (v4 = true -> length (u_v4Nexthop u) = 4%nat) ->
  blen (attrs_bytes as4 v4 o (u_v4Nexthop u) (u_attrs u)) <= kMaxBgpUpdateVarLen ->
  serializePathAttrs kMaxBgpUpdateVarLen u as4 v4 [] =
    Ok (attrs_bytes as4 v4 o (u_v4Nexthop u) (u_attrs u), nexthop_offset as4 v4 (u_attrs u)).
Proof.
  intros Hwf Hnh Hl. rewrite (serializePathAttrs_spec _ _ _ _ o); [|done|done| |apply Hwf|done].
  - cbv zeta. change (blen (@nil Z)) with 0. rewrite Z.add_0_l.
    by rewrite (proj2 (Z.leb_le _ _) Hl).
  - eapply Forall_impl; [apply Hwf|]. by intros s [? _].
Qed.

Lemma mpReach_loop o u fuel (mp := u_mpAnnounced u) (a := u_attrs u)
    (rps := nlri_prefixes mp) (maxLen := getMaxPrefixLen (pid (nlri_afi mp)) false) :
  rps <> [] -> mp_enabled capa (nlri_afi mp) -> nlri_safi mp = SAFI_UNICAST ->
  nexthop_ok capa (nlri_afi mp) (nlri_nexthop mp) ->
  wf_attrs as4 o a -> Forall (wf_unicast (nlri_afi mp) (pid (nlri_afi mp))) rps ->
  blen (attrs_bytes as4 false o [] a) + kMpAnnouncedAttrLen + maxLen + 1 < kMaxBgpUpdateVarLen ->
  (length rps <= fuel)%nat ->
  exists chunks queue,
    serializeMpAnnounced u as4 fuel = Ok queue /\ concat chunks = rps /\
    Forall2 (fun c m => decodes (mpReach_update a (nlri_afi mp) (nlri_nexthop mp) c) m /\
      rewritable (fun nh => mpReach_update a (nlri_afi mp) nh c)
        (nexthop_ok capa (nlri_afi mp)) (nlri_nexthop mp) m) chunks queue.
Proof.
  intros Hne Hmp Hsafi Hnh Hwf Hok Hroom Hl. unfold serializeMpAnnounced.
  change (attrs_bytes as4 false o [] a)
    with (attrs_bytes as4 false o (u_v4Nexthop u) (u_attrs u)) in *.
  destruct (getMaxPrefixLen_bounds (pid (nlri_afi mp)) false) as ([_ Hb2] & Hb0 & _).
  destruct (getMaxPrefixLen_bounds (pid (nlri_afi mp)) (nlri_afi mp =? AFI_IPv4))
    as (_ & _ & Hb1). fold maxLen in Hb0, Hb1, Hb2.
  unfold kMaxBgpUpdateVarLen, kMaxBgpMsgLen, kMinBgpUpdateMsgLen, kMpAnnouncedAttrLen in Hroom.
  rewrite (serializeAttrs_Ok _ _ o) by (done || unfold kMaxBgpUpdateVarLen, kMaxBgpMsgLen,
    kMinBgpUpdateMsgLen; lia).
  cbn [rbind]. fold mp rps. rewrite (hasPathId_wf _ _ _ Hok) by done. fold maxLen.
  match goal with |- context [if ?b then _ else _] => destruct b eqn:E end.
  { apply Z.ltb_lt in E. unfold kMaxBgpUpdateVarLen, kMaxBgpMsgLen, kMinBgpUpdateMsgLen,
      kMpAnnouncedAttrLen in E. lia. }
  apply (emitMessages_packs _ (Forall (wf_unicast (nlri_afi mp) (pid (nlri_afi mp))))); [|done..].
  intros ps Hps Hpne.
  assert (Hln : length (nlri_nexthop mp) = 4%nat \/ length (nlri_nexthop mp) = 16%nat)
    by (destruct Hnh as [_ [[_ ?]|[? _]]]; auto).
  destruct (mpReachMsg_spec (pid (nlri_afi mp)) maxLen
    (attrs_bytes as4 false o (u_v4Nexthop u) (u_attrs u)) mp ps)
    as (packed & rest & Es & -> & Hp & Hb); [done..|lia|done|].
  apply Forall_app in Hps as [Hpk Hrest]. eexists packed, rest, _.
  split; [done|]. split; [done|]. split; [done|]. split; [done|].
  apply (rewritable_both (fun nh => mpReach_update (u_attrs u) (nlri_afi mp) nh packed)
    (nexthop_ok capa (nlri_afi mp))); [done|].
  set (ab := attrs_bytes as4 false o (u_v4Nexthop u) (u_attrs u)) in *.
  destruct (mpReach_split ab (nlri_afi mp) packed (length (nlri_nexthop mp)))
    as (pre & Hpre & Hsplit).
  exists pre, (be_encode 1 0 ++ nlri_bytes packed). split; [by rewrite Hsplit, Hpre|].
  intros nh' Hl' Hok'. rewrite <- Hsplit by done.
  assert (Hlen : blen (attr_body (ab ++ mpReach_attr (nlri_afi mp) nh' packed) []) =
                 blen (attr_body (ab ++ mpReach_attr (nlri_afi mp) (nlri_nexthop mp) packed) [])).
  { pose proof (f_equal length (Hsplit nh' Hl')) as E1.
    pose proof (f_equal length (Hsplit _ eq_refl)) as E2.
    rewrite length_message_bytes, !length_app in E1, E2. lia. }
  apply decodes_message; [unfold attr_body in *; len|].
  change ab with (attrs_bytes as4 false o [] (u_attrs u)) in *.
  apply (receive_mpReach capa o); try done. lia.
Qed.

Lemma v4_loop o u rps fuel (a := u_attrs u) (nh := u_v4Nexthop u)
    (maxLen := getMaxPrefixLen (pid AFI_IPv4) true) :
  rps <> [] -> length nh = 4%nat -> wf_bytes nh -> wf_attrs as4 o a ->
  Forall (wf_unicast AFI_IPv4 (pid AFI_IPv4)) rps ->
  blen (attrs_bytes as4 true o nh a) + maxLen + 1 < kMaxBgpUpdateVarLen ->
  (length rps <= fuel)%nat ->
  exists chunks queue,
    serializeV4Announced u as4 rps fuel = Ok queue /\ concat chunks = rps /\
    Forall2 (fun c m => decodes (v4_update capa a nh c) m /\
      rewritable (fun nh => v4_update capa a nh c) wf_bytes nh m) chunks queue.
Proof.
  intros Hne Hln Hnh Hwf Hok Hroom Hl. unfold serializeV4Announced.
  destruct (getMaxPrefixLen_bounds (pid AFI_IPv4) true) as (_ & Hb0 & _). fold maxLen in Hb0.
  unfold kMaxBgpUpdateVarLen, kMaxBgpMsgLen, kMinBgpUpdateMsgLen in Hroom. subst nh a.
  rewrite (serializeAttrs_Ok _ _ o) by (done || unfold kMaxBgpUpdateVarLen, kMaxBgpMsgLen,
    kMinBgpUpdateMsgLen; lia).
  cbn [rbind]. rewrite (hasPathId_wf _ _ _ Hok) by done. fold maxLen.
  match goal with |- context [if ?b then _ else _] => destruct b eqn:E end.
  { apply Z.ltb_lt in E. unfold kMaxBgpUpdateVarLen, kMaxBgpMsgLen, kMinBgpUpdateMsgLen in E.
    lia. }
  apply (emitMessages_packs _ (Forall (wf_unicast AFI_IPv4 (pid AFI_IPv4)))); [|done..].
  intros ps Hps Hpne.
  destruct (v4ReachMsg_spec (pid AFI_IPv4) maxLen
    (attrs_bytes as4 true o (u_v4Nexthop u) (u_attrs u))
    (default 0 (nexthop_offset as4 true (u_attrs u))) ps)
    as (packed & rest & Es & -> & Hb & Hprog & _); [done..|lia|].
  apply Forall_app in Hps as [Hpk Hrest]. eexists packed, rest, _.
  specialize (Hprog Hpne ltac:(lia)).
  split; [done|]. split; [done|]. split; [done|]. split; [done|].
  apply (rewritable_both (fun nh => v4_update capa (u_attrs u) nh packed)); [done|].
  destruct (v4_split as4 o (u_attrs u) (nlri_bytes packed) (length (u_v4Nexthop u)))
    as (pre & post & Hpre & Hsplit).
  exists pre, post. split; [by rewrite Hsplit, Hpre, bool_decide_eq_true_2|].
  intros nh' Hl' Hok'. rewrite <- Hsplit by done.
  assert (Hlen : blen (attr_body (attrs_bytes as4 true o nh' (u_attrs u)) (nlri_bytes packed)) =
    blen (attr_body (attrs_bytes as4 true o (u_v4Nexthop u) (u_attrs u)) (nlri_bytes packed))).
  { pose proof (f_equal length (Hsplit nh' Hl')) as E1.
    pose proof (f_equal length (Hsplit _ eq_refl)) as E2.
    rewrite length_message_bytes, !length_app in E1, E2. lia. }
  apply decodes_message; [unfold attr_body in *; len|].
  apply receive_v4; [congruence|done..|lia].
Qed.

(** ** The whole update *)

(** An update whose prefixes, attributes and next hops are what the session's
    capabilities admit.  [o] are the octets of the aggregator's address. *)
Record wf_update (o : bytes) (u : BgpUpdate2) : Prop := {
  wu_announced_version : u_v4Announced2 u = [] \/ u_v4Announced u = [];
  wu_withdrawn_version : u_v4Withdrawn2 u = [] \/ u_v4Withdrawn u = [];
  wu_announced : Forall (wf_unicast AFI_IPv4 (pid AFI_IPv4))
                   (effective (u_v4Announced2 u) (u_v4Announced u));
  wu_withdrawn : Forall (wf_unicast AFI_IPv4 (pid AFI_IPv4))
                   (effective (u_v4Withdrawn2 u) (u_v4Withdrawn u));
  wu_mpWithdrawn : nlri_prefixes (u_mpWithdrawn u) <> [] ->
    mp_enabled capa (nlri_afi (u_mpWithdrawn u)) /\ nlri_safi (u_mpWithdrawn u) = SAFI_UNICAST /\
    Forall (wf_unicast (nlri_afi (u_mpWithdrawn u)) (pid (nlri_afi (u_mpWithdrawn u))))
      (nlri_prefixes (u_mpWithdrawn u));
  wu_mpAnnounced : nlri_prefixes (u_mpAnnounced u) <> [] ->
    mp_enabled capa (nlri_afi (u_mpAnnounced u)) /\ nlri_safi (u_mpAnnounced u) = SAFI_UNICAST /\
    Forall (wf_unicast (nlri_afi (u_mpAnnounced u)) (pid (nlri_afi (u_mpAnnounced u))))
      (nlri_prefixes (u_mpAnnounced u)) /\
    nexthop_ok capa (nlri_afi (u_mpAnnounced u)) (nlri_nexthop (u_mpAnnounced u)) /\
    wf_attrs as4 o (u_attrs u);
  wu_v4 : effective (u_v4Announced2 u) (u_v4Announced u) <> [] ->
    length (u_v4Nexthop u) = 4%nat /\ wf_bytes (u_v4Nexthop u) /\ wf_attrs as4 o (u_attrs u);
  wu_some : effective (u_v4Announced2 u) (u_v4Announced u) <> [] \/
    effective (u_v4Withdrawn2 u) (u_v4Withdrawn u) <> [] \/
    nlri_prefixes (u_mpAnnounced u) <> [] \/ nlri_prefixes (u_mpWithdrawn u) <> []
}.

(** Room for the attributes and one prefix of the largest size per message. *)
Definition attrs_fit (o : bytes) (u : BgpUpdate2) : Prop :=
  (nlri_prefixes (u_mpAnnounced u) <> [] ->
   blen (attrs_bytes as4 false o [] (u_attrs u)) + kMpAnnouncedAttrLen +
   getMaxPrefixLen (pid (nlri_afi (u_mpAnnounced u))) false + 1 < kMaxBgpUpdateVarLen) /\
  (effective (u_v4Announced2 u) (u_v4Announced u) <> [] ->
   blen (attrs_bytes as4 true o (u_v4Nexthop u) (u_attrs u)) +
   getMaxPrefixLen (pid AFI_IPv4) true + 1 < kMaxBgpUpdateVarLen).

Definition prefix_count (u : BgpUpdate2) : nat :=
  (length (effective (u_v4Announced2 u) (u_v4Announced u)) +
   length (effective (u_v4Withdrawn2 u) (u_v4Withdrawn u)) +
   length (nlri_prefixes (u_mpAnnounced u)) + length (nlri_prefixes (u_mpWithdrawn u)))%nat.

Lemma nonempty_true {X} (l : list X) : nonempty l = true <-> l <> [].
Proof. by destruct l. Qed.

Lemma checkExtNexthop_ok mp ext :
  (nlri_prefixes mp <> [] -> nexthop_ok capa (nlri_afi mp) (nlri_nexthop mp)) ->
  (nonempty (extNHEncodingCapabilities capa) = true -> ext = true) ->
  checkExtNexthop mp ext = Ok tt.
Proof.
  intros Hnh Hext. unfold checkExtNexthop. case_match eqn:E; [|done].
  apply nonempty_true in E. destruct (Hnh E) as [_ Hcase]. unfold toIPAddress.
  destruct Hcase as [[-> Hl]|[Hl Hcase]].
  - rewrite ip_fromBinary_v4 by done. cbn [rbind isV6]. by rewrite !andb_false_r.
  - rewrite ip_fromBinary_v6 by done. cbn [rbind isV6].
    destruct Hcase as [-> |Hx]; [by rewrite andb_false_r|].
    by rewrite Hext by by apply nonempty_true.
Qed.

(** The checks at the start of [serializeBgpUpdate2] let a well-formed update
    through. *)
Lemma serialize_guards o u : wf_update o u ->
  (nonempty (u_v4Announced2 u) && nonempty (u_v4Announced u)) ||
  (nonempty (u_v4Withdrawn2 u) && nonempty (u_v4Withdrawn u)) = false /\
  negb (nonempty (effective (u_v4Announced2 u) (u_v4Announced u))) &&
  negb (nonempty (effective (u_v4Withdrawn2 u) (u_v4Withdrawn u))) &&
  negb (nonempty (nlri_prefixes (u_mpAnnounced u))) &&
  negb (nonempty (nlri_prefixes (u_mpWithdrawn u))) = false.
Proof.
  intros [Hva Hvw _ _ _ _ _ Hsome]. split.
  - destruct Hva as [-> | ->], Hvw as [-> | ->]; by rewrite ?andb_false_r.
  - rewrite <- !nonempty_true in Hsome.
    destruct Hsome as [-> |[-> |[-> | ->]]]; cbn [negb]; by rewrite ?andb_false_r.
Qed.

Lemma mpUnreach_part o u fuel (mw := u_mpWithdrawn u) : wf_update o u ->
  (length (nlri_prefixes mw) <= fuel)%nat ->
  exists chunks queue,
    emitMessages (mpUnreachMsg (nlri_afi mw) (nlri_safi mw)
      (getMaxPrefixLen (hasPathId (nlri_prefixes mw)) false)) fuel (nlri_prefixes mw) = Ok queue /\
    concat chunks = nlri_prefixes mw /\
    Forall2 (fun c m => decodes (mpUnreach_update (nlri_afi mw) c) m /\ q_nexthop m = None)
      chunks queue.
Proof.
  intros Hu Hl. destruct (decide (nlri_prefixes mw = [])) as [->|Hne];
    [by exists [], []; destruct fuel|].
  destruct (wu_mpWithdrawn _ _ Hu Hne) as (? & Hs & ?). fold mw in Hs. rewrite Hs.
  by apply mpUnreach_loop.
Qed.

Lemma mpReach_part o u fuel (ma := u_mpAnnounced u) : wf_update o u -> attrs_fit o u ->
  (length (nlri_prefixes ma) <= fuel)%nat ->
  exists chunks queue,
    (if nonempty (nlri_prefixes ma) then serializeMpAnnounced u as4 fuel else Ok []) = Ok queue /\
    concat chunks = nlri_prefixes ma /\
    Forall2 (fun c m => decodes (mpReach_update (u_attrs u) (nlri_afi ma) (nlri_nexthop ma) c) m /\
      rewritable (fun nh => mpReach_update (u_attrs u) (nlri_afi ma) nh c)
        (nexthop_ok capa (nlri_afi ma)) (nlri_nexthop ma) m) chunks queue.
Proof.
  intros Hu [Hfit _] Hl. case_match eqn:Hne; [apply nonempty_true in Hne|].
  - destruct (wu_mpAnnounced _ _ Hu Hne) as (? & ? & ? & ? & ?).
    apply (mpReach_loop o u fuel); auto.
  - exists [], []. by destruct (nlri_prefixes ma).
Qed.

Lemma v4_part o u fuel (va := effective (u_v4Announced2 u) (u_v4Announced u)) :
  wf_update o u -> attrs_fit o u -> (length va <= fuel)%nat ->
  exists chunks queue,
    (if nonempty va then serializeV4Announced u as4 va fuel else Ok []) = Ok queue /\
    concat chunks = va /\ (va = [] -> queue = []) /\
    Forall2 (fun c m => decodes (v4_update capa (u_attrs u) (u_v4Nexthop u) c) m /\
      rewritable (fun nh => v4_update capa (u_attrs u) nh c) wf_bytes (u_v4Nexthop u) m)
      chunks queue.
Proof.
  intros Hu [_ Hfit] Hl. case_match eqn:Hne; [apply nonempty_true in Hne|].
  - destruct (wu_v4 _ _ Hu Hne) as (? & ? & ?).
    destruct (v4_loop o u va fuel) as (chunks & queue & ? & ? & ?); auto; [apply Hu|].
    by exists chunks, queue.
  - exists [], []. by destruct va.
Qed.

(** The queue of an update: the four groups of messages. *)
Lemma serialize_update_queue o u ext fuel (a := u_attrs u) (mp := u_mpAnnounced u) :
  wf_update o u -> attrs_fit o u ->
  (nonempty (extNHEncodingCapabilities capa) = true -> ext = true) ->
  (prefix_count u <= fuel)%nat ->
  exists W MW MA VA q1 q2 q3 q4,
    serializeBgpUpdate2 fuel u as4 ext = Ok (q1 ++ q2 ++ q3 ++ q4) /\
    concat W = effective (u_v4Withdrawn2 u) (u_v4Withdrawn u) /\
    concat MW = nlri_prefixes (u_mpWithdrawn u) /\
    concat MA = nlri_prefixes mp /\
    concat VA = effective (u_v4Announced2 u) (u_v4Announced u) /\
    (effective (u_v4Announced2 u) (u_v4Announced u) = [] -> q4 = []) /\
    Forall2 (fun c m => decodes (withdraw_update capa c) m /\ q_nexthop m = None) W q1 /\
    Forall2 (fun c m => decodes (mpUnreach_update (nlri_afi (u_mpWithdrawn u)) c) m /\
                        q_nexthop m = None) MW q2 /\
    Forall2 (fun c m => decodes (mpReach_update a (nlri_afi mp) (nlri_nexthop mp) c) m /\
      rewritable (fun nh => mpReach_update a (nlri_afi mp) nh c)
        (nexthop_ok capa (nlri_afi mp)) (nlri_nexthop mp) m) MA q3 /\
    Forall2 (fun c m => decodes (v4_update capa a (u_v4Nexthop u) c) m /\
      rewritable (fun nh => v4_update capa a nh c) wf_bytes (u_v4Nexthop u) m) VA q4.
Proof.
  intros Hu Hfit Hext Hfuel. unfold prefix_count in Hfuel. unfold serializeBgpUpdate2.
  destruct (serialize_guards o u Hu) as [-> ->].
  rewrite checkExtNexthop_ok by (done || by intros Hne; apply (wu_mpAnnounced _ _ Hu)).
  cbn [rbind].
  destruct (withdraw_loop _ fuel (wu_withdrawn _ _ Hu)) as (W & q1 & -> & HW & HF1); [lia|].
  destruct (mpUnreach_part o u fuel Hu) as (MW & q2 & E2 & HMW & HF2); [lia|].
  destruct (mpReach_part o u fuel Hu Hfit) as (MA & q3 & E3 & HMA & HF3); [lia|].
  destruct (v4_part o u fuel Hu Hfit) as (VA & q4 & E4 & HVA & H4 & HF4); [lia|].
  cbn [rbind]. rewrite E2. cbn [rbind]. rewrite E3. cbn [rbind]. rewrite E4. cbn [rbind].
  exists W, MW, MA, VA, q1, q2, q3, q4. by repeat split.
Qed.
End Roundtrip.

(** The receiver gets the whole update from the queued messages, one update per
    message, each with its share of the prefixes. *)
Definition delivered `{F : FollyOps} (capa : BgpCapabilities) (u : BgpUpdate2)
    (queue : list QueuedMsg) : Prop :=
  exists W MW MA VA,
    concat W = effective (u_v4Withdrawn2 u) (u_v4Withdrawn u) /\
    concat MW = nlri_prefixes (u_mpWithdrawn u) /\
    concat MA = nlri_prefixes (u_mpAnnounced u) /\
    concat VA = effective (u_v4Announced2 u) (u_v4Announced u) /\
    Forall2 (decodes capa)
      (map (withdraw_update capa) W ++
       map (mpUnreach_update (nlri_afi (u_mpWithdrawn u))) MW ++
       map (mpReach_update (u_attrs u) (nlri_afi (u_mpAnnounced u))
              (nlri_nexthop (u_mpAnnounced u))) MA ++
       map (v4_update capa (u_attrs u) (u_v4Nexthop u)) VA) queue.

(** C1. A well-formed update ([wf_update]: unicast prefixes of the negotiated
    families, with path identifiers exactly where they are negotiated, one of the
    two versions of the IPv4 lists, attributes the codec knows) whose attributes
    leave room in each message for a largest prefix and two bytes ([attrs_fit];
    with less room the loop may not end, [announce_without_room_diverges]), sent
    with the extended next hop flag if that is negotiated: it is split over legal
    messages from which the peer, parsing one after the other, gets back every
    prefix exactly once, in order, with the next hop and the attributes it was
    announced with but for large communities, which are not serialized
    ([received_attrs]): the withdrawn IPv4 prefixes first, then the withdrawn and
    the announced multiprotocol ones, then the announced IPv4 ones.  One loop
    iteration per prefix is enough. *)
Theorem update_roundtrip `{F : FollyOps} `{L : !FollyLaws F} capa o u ext fuel :
  wf_update capa o u -> attrs_fit capa o u ->
  (nonempty (extNHEncodingCapabilities capa) = true -> ext = true) ->
  (prefix_count u <= fuel)%nat ->
  exists queue, serializeBgpUpdate2 fuel u (as4byte capa) ext = Ok queue /\
    delivered capa u queue.
Proof.
  intros Hu Hfit Hext Hfuel.
  destruct (serialize_update_queue capa o u ext fuel Hu Hfit Hext Hfuel)
    as (W & MW & MA & VA & q1 & q2 & q3 & q4 & E & HW & HMW & HMA & HVA & _ & HF1 & HF2 & HF3 & HF4).
  exists (q1 ++ q2 ++ q3 ++ q4). split; [done|]. exists W, MW, MA, VA.
  split; [done|]. split; [done|]. split; [done|]. split; [done|].
  repeat apply Forall2_app; apply Forall2_fmap_l;
    (eapply Forall2_impl; [eassumption|]); by intros ? ? [? _].
Qed.

Definition sample_v6 : list RiggedIPPrefix :=
  [mkRigged (mkIPPrefix [32; 1; 13; 184; 0; 0; 0; 0; 0; 0; 0; 0; 0; 0; 0; 0] 32) [] None].

Definition sample_full_update : BgpUpdate2 :=
  mkUpdate2 sample_attrs
    (mkNlri AFI_IPv6 SAFI_UNICAST sample_v6 [254; 128; 0; 0; 0; 0; 0; 0; 0; 0; 0; 0; 0; 0; 0; 1])
    (mkNlri AFI_IPv6 SAFI_UNICAST sample_v6 [])
    [] [mkIPPrefix [10; 0; 0; 0] 8] [192; 0; 2; 1] sample_v4 [].

Lemma sample_full_update_wf :
  wf_update sample_capa [10; 0; 0; 1] sample_full_update /\
  attrs_fit sample_capa [10; 0; 0; 1] sample_full_update.
Proof.
  assert (H6 : Forall (wf_unicast AFI_IPv6 false) sample_v6).
  { unfold sample_v6, wf_unicast, wf_prefix, wf_pathId. wf_concrete. }
  assert (Hnh : wf_bytes [254; 128; 0; 0; 0; 0; 0; 0; 0; 0; 0; 0; 0; 0; 0; 1]) by wf_concrete.
  assert (Hv4 : wf_bytes [192; 0; 2; 1]) by wf_concrete.
  split; [split|split].
  - by right.
  - by left.
  - exact sample_v4_wf.
  - change (effective _ _) with [mkRigged (mkIPPrefix [10; 0; 0; 0] 8) [] None].
    change (parsePathIdEnabled _ _ _) with false.
    unfold wf_unicast, wf_prefix, wf_pathId. wf_concrete.
  - intros _. split; [by right|]. split; [done|]. exact H6.
  - intros _. split; [by right|]. split; [done|]. split; [exact H6|]. split.
    + split; [exact Hnh|]. right. split; [done|]. by left.
    + exact sample_attrs_wf.
  - intros _. split; [done|]. split; [exact Hv4|exact sample_attrs_wf].
  - by left.
  - intros _. by vm_compute.
  - intros _. by vm_compute.
Qed.

Lemma update_roundtrip_witness :
  exists queue, serializeBgpUpdate2 10 sample_full_update true false = Ok queue /\
    delivered sample_capa sample_full_update queue.
Proof.
  apply (update_roundtrip sample_capa [10; 0; 0; 1] sample_full_update false 10).
  - apply sample_full_update_wf.
  - apply sample_full_update_wf.
  - discriminate.
  - vm_compute. lia.
Defined.

(** ** Next hop offsets *)

Lemma elem_of_nexthopOffsets queue : forall k i off b,
  (i, off, b) ∈ nexthopOffsets k queue <->
  exists j m, queue !! j = Some m /\ i = k + Z.of_nat j /\ q_nexthop m = Some (off, b).
Proof.
  induction queue as [|m queue IH]; intros k i off b; cbn [nexthopOffsets].
  { split; [by intros ?%elem_of_nil|by intros ([] & ? & ? & _)]. }
  rewrite elem_of_app, IH. split.
  - intros [Hm|(j & m' & Hj & -> & Hn)]; [|exists (S j), m'; split; [done|]; split; [lia|done]].
    destruct (q_nexthop m) as [[off' b']|] eqn:E; [|by apply elem_of_nil in Hm].
    apply list_elem_of_singleton in Hm as [= -> -> ->]. exists 0%nat, m. split; [done|].
    split; [lia|done].
  - intros ([|j] & m' & Hj & -> & Hn); cbn in Hj.
    + simplify_eq. left. rewrite Hn. apply list_elem_of_singleton. f_equal. f_equal. lia.
    + right. exists j, m'. split; [done|]. split; [lia|done].
Qed.

(** Every entry of [outNexthopOffsets] names a message of the queue and the
    position in it at which the octets of the next hop are, the IPv4 next hop of
    the update or the one of its multiprotocol announcement; a message that
    announces nothing has no entry. *)
Theorem nexthop_offsets_correct `{F : FollyOps} `{L : !FollyLaws F} capa o u ext fuel :
  wf_update capa o u -> attrs_fit capa o u ->
  (nonempty (extNHEncodingCapabilities capa) = true -> ext = true) ->
  (prefix_count u <= fuel)%nat ->
  exists queue, serializeBgpUpdate2 fuel u (as4byte capa) ext = Ok queue /\
    forall i off b, (i, off, b) ∈ nexthopOffsets 0 queue ->
      exists m nh, queue !! Z.to_nat i = Some m /\
        (nh = u_v4Nexthop u \/ nh = nlri_nexthop (u_mpAnnounced u)) /\
        b = bool_decide (length nh = 4%nat) /\
        take (length nh) (drop (Z.to_nat off) (q_bytes m)) = nh.
Proof.
  intros Hu Hfit Hext Hfuel.
  destruct (serialize_update_queue capa o u ext fuel Hu Hfit Hext Hfuel)
    as (W & MW & MA & VA & q1 & q2 & q3 & q4 & E & _ & _ & _ & _ & _ & HF1 & HF2 & HF3 & HF4).
  exists (q1 ++ q2 ++ q3 ++ q4). split; [done|]. intros i off b Hin.
  apply elem_of_nexthopOffsets in Hin as (j & m & Hj & -> & Hm).
  assert (Hnh : forall X R (l : list X) q nh, Forall2 R l q ->
    (forall c m, R c m -> nexthop_at nh m) -> m ∈ q -> b = bool_decide (length nh = 4%nat) /\
             take (length nh) (drop (Z.to_nat off) (q_bytes m)) = nh).
  { intros X R l q nh HF HR Hq. apply list_elem_of_lookup in Hq as [k Hk].
    destruct (Forall2_lookup_r _ _ _ _ _ HF Hk) as (x & _ & (off' & E' & Ht)%HR).
    rewrite Hm in E'. by simplify_eq. }
  assert (Hno : forall X R (l : list X) q, Forall2 (fun c m => R c m /\ q_nexthop m = None) l q ->
    m ∈ q -> False).
  { intros X R l q HF Hq. apply list_elem_of_lookup in Hq as [k Hk].
    destruct (Forall2_lookup_r _ _ _ _ _ HF Hk) as (x & _ & _ & E'). congruence. }
  apply list_elem_of_lookup_2 in Hj as Hin. rewrite !elem_of_app in Hin.
  rewrite Z.add_0_l, Nat2Z.id.
  destruct Hin as [Hq|[Hq|[Hq|Hq]]]; [by destruct (Hno _ _ _ _ HF1)|by destruct (Hno _ _ _ _ HF2)|..].
  - exists m, (nlri_nexthop (u_mpAnnounced u)). split; [done|]. split; [by right|].
    apply (Hnh _ _ _ _ _ HF3); [|done]. intros c m' [_ Hr]. by eapply rewritable_nexthop_at.
  - exists m, (u_v4Nexthop u). split; [done|]. split; [by left|].
    apply (Hnh _ _ _ _ _ HF4); [|done]. intros c m' [_ Hr]. by eapply rewritable_nexthop_at.
Qed.

Lemma nexthop_offsets_correct_witness :
  exists queue, serializeBgpUpdate2 10 sample_full_update true false = Ok queue /\
    forall i off b, (i, off, b) ∈ nexthopOffsets 0 queue ->
      exists m nh, queue !! Z.to_nat i = Some m /\
        (nh = u_v4Nexthop sample_full_update \/
         nh = nlri_nexthop (u_mpAnnounced sample_full_update)) /\
        b = bool_decide (length nh = 4%nat) /\
        take (length nh) (drop (Z.to_nat off) (q_bytes m)) = nh.
Proof.
  apply (nexthop_offsets_correct sample_capa [10; 0; 0; 1] sample_full_update false 10).
  - apply sample_full_update_wf.
  - apply sample_full_update_wf.
  - discriminate.
  - vm_compute. lia.
Defined.

(** ** No room for a prefix *)

(** The size check before the loop of [serializeBgpUpdate2] admits attributes
    that leave no room for the prefix which [serializeNlri] insists on, by one
    and two bytes: then no iteration packs a prefix, and the loop appends
    messages without prefixes for ever. *)
Theorem announce_without_room_diverges `{F : FollyOps} `{L : !FollyLaws F} capa o u ext fuel :
  wf_update capa o u -> effective (u_v4Announced2 u) (u_v4Announced u) <> [] ->
  effective (u_v4Withdrawn2 u) (u_v4Withdrawn u) = [] ->
  nlri_prefixes (u_mpAnnounced u) = [] -> nlri_prefixes (u_mpWithdrawn u) = [] ->
  kMaxBgpUpdateVarLen - 1 <=
    blen (attrs_bytes (as4byte capa) true o (u_v4Nexthop u) (u_attrs u)) +
    getMaxPrefixLen (parsePathIdEnabled capa AFI_IPv4 SAFI_UNICAST) true <= kMaxBgpUpdateVarLen ->
  serializeBgpUpdate2 fuel u (as4byte capa) ext = NoFuel.
Proof.
  intros Hu Hne Hvw Hma Hmw Hroom. unfold serializeBgpUpdate2.
  destruct (serialize_guards capa o u Hu) as [-> ->]. unfold checkExtNexthop.
  rewrite Hma, Hmw, Hvw. set (va := effective (u_v4Announced2 u) (u_v4Announced u)) in *.
  replace (nonempty va) with true by (symmetry; by apply nonempty_true).
  destruct (wu_v4 _ _ _ Hu Hne) as (Hln & Hnh & Hwf).
  pose proof (wu_announced _ _ _ Hu) as Hok. fold va in Hok.
  set (ab := attrs_bytes (as4byte capa) true o (u_v4Nexthop u) (u_attrs u)) in *.
  set (maxLen := getMaxPrefixLen (parsePathIdEnabled capa AFI_IPv4 SAFI_UNICAST) true) in *.
  unfold kMaxBgpUpdateVarLen, kMaxBgpMsgLen, kMinBgpUpdateMsgLen in Hroom.
  destruct (getMaxPrefixLen_bounds (parsePathIdEnabled capa AFI_IPv4 SAFI_UNICAST) true)
    as (_ & Hb0 & _). fold maxLen in Hb0.
  assert (Hv : serializeV4Announced u (as4byte capa) va fuel = NoFuel).
  { unfold serializeV4Announced. rewrite (serializeAttrs_Ok capa u true o) by
      (done || fold ab; unfold kMaxBgpUpdateVarLen, kMaxBgpMsgLen, kMinBgpUpdateMsgLen; lia).
    cbn [rbind]. rewrite (hasPathId_wf _ _ _ Hok) by done. fold ab maxLen.
    destruct (Z.ltb_spec kMaxBgpUpdateVarLen (blen ab + maxLen)).
    { unfold kMaxBgpUpdateVarLen, kMaxBgpMsgLen, kMinBgpUpdateMsgLen in *. lia. }
    destruct (v4ReachMsg_spec (parsePathIdEnabled capa AFI_IPv4 SAFI_UNICAST) maxLen ab
      (default 0 (nexthop_offset (as4byte capa) true (u_attrs u))) va)
      as (packed & rest & Es & Hsplit & _ & _ & Hstuck); [done|done|lia|].
    rewrite (Hstuck ltac:(lia)) in *. cbn [app] in Hsplit. subst rest.
    by eapply emitMessages_stuck. }
  destruct fuel; cbn [emitMessages nonempty rbind]; by rewrite Hv.
Qed.

Definition stuck_update : BgpUpdate2 :=
  mkUpdate2
    (set_communities (replicate 1012 (mkCommunity 1 2)) defaultAttributes)
    (mkNlri 0 0 [] []) (mkNlri 0 0 [] []) [] [] [192; 0; 2; 1] sample_v4 [].

Lemma announce_without_room_diverges_witness :
  serializeBgpUpdate2 1000 stuck_update true false = NoFuel.
Proof.
  apply (announce_without_room_diverges sample_capa [] stuck_update false 1000).
  - split.
    + by right.
    + by left.
    + exact sample_v4_wf.
    + constructor.
    + intros Hc. by destruct Hc.
    + intros Hc. by destruct Hc.
    + intros _. split; [done|]. split; [repeat constructor; lia|].
      apply wf_attrs_communities; [|apply Forall_replicate; unfold u16; cbn; lia].
      split; cbn; unfold u32; try lia; try done; try (by constructor).
    + by left.
  - discriminate.
  - reflexivity.
  - reflexivity.
  - reflexivity.
  - vm_compute. split; discriminate.
Defined.
