(* ===== verification/GroupPdu.v ===== *)
(** * Sending one message, and sending one update to a group

    [BgpSerializer] (lib/fibers/BgpSerializer.h and .cpp), the visitor that turns
    a queued message into bytes, and
    [AdjRibGroupSerializer::serializeUpdateAndCreateDescriptor]
    (adjrib/AdjRibGroupSerializer.cpp) with the per-peer step of
    [AdjRibOutGroup::distributeMessageToInSyncPeers] (adjrib/AdjRibGroup.cpp).  An
    update for a group is serialized once; the buffers are shared by all peers,
    and the next hop is written into them for each peer just before the write to
    its socket, which may hold them for a while. *)

From stdpp Require Import gmap.
From S2P Require Import Prelude BgpException Folly BgpStructs MsgHeader ControlMsgs OpenMsg.
From S2P Require Import Nlri PathAttrs PathAttrsSerializer UpdateMsg UpdateSerializer UpdateRoundtrip.

(** The data of the [IOBuf]s in use, by address; clones share it. *)
Abbreviation Buffers := (list bytes).

Section GroupPdu.
Context `{F : FollyOps}.

(** ** The serializer of one session *)

Definition isAddressFamilyAllowed (capa : BgpCapabilities) (afi safi : Z) : bool :=
  if (afi =? AFI_IPv4) && (safi =? SAFI_UNICAST) then mpExtV4Unicast capa
  else if (afi =? AFI_IPv6) && (safi =? SAFI_UNICAST) then mpExtV6Unicast capa
  else if (afi =? AFI_IPv4) && (safi =? SAFI_LABELED_UNICAST) then mpExtV4LU capa
  else if (afi =? AFI_IPv6) && (safi =? SAFI_LABELED_UNICAST) then mpExtV6LU capa
  else if (afi =? AFI_LS) && (safi =? SAFI_LS) then mpExtLs capa
  else false.

Definition validateBgpUpdate2 (update : BgpUpdate2) (capa : BgpCapabilities) : res unit :=
  if negb (mpExtV4Unicast capa) &&
     (nonempty (u_v4Announced update) || nonempty (u_v4Withdrawn update)) then
    Throw (BgpSerializerException AFI_MISMATCH)
  else
  let mpWithdrawn := u_mpWithdrawn update in
  if negb (isAddressFamilyAllowed capa (nlri_afi mpWithdrawn) (nlri_safi mpWithdrawn)) &&
     nonempty (nlri_prefixes mpWithdrawn) then Throw (BgpSerializerException AFI_MISMATCH)
  else
  let mpAnnounced := u_mpAnnounced update in
  if negb (isAddressFamilyAllowed capa (nlri_afi mpAnnounced) (nlri_safi mpAnnounced)) &&
     nonempty (nlri_prefixes mpAnnounced) then Throw (BgpSerializerException AFI_MISMATCH)
  else Ok tt.

Definition ip_octets (ip : IPAddress) : bytes :=
  match ip with IPUnset => [] | IPV4 o | IPV6 o => o end.

(** [std::memcpy(data + offset, nexthopBytes, nexthopSize)] *)
Definition overwrite (data : bytes) (offset : nat) (nh : bytes) : bytes :=
  take offset data ++ nh ++ drop (offset + length nh) data.

(** One round of the loop that mutates the next hops; [chain] stands for the
    cloned chain and the map from buffer index to buffer. *)
Definition mutateNexthop (chain : list nat) (v4Nexthop v6Nexthop : IPAddress) (st : Buffers)
    (entry : Z * Z * bool) : Buffers :=
  let '(bufferIndex, offset, isV4) := entry in
  match chain !! Z.to_nat bufferIndex with
  | Some target =>
      match st !! target with
      | Some data =>
          let nexthop := ip_octets (if isV4 then v4Nexthop else v6Nexthop) in
          if offset + blen nexthop <=? blen data
          then <[target := overwrite data (Z.to_nat offset) nexthop]> st
          else st
      | None => st
      end
  | None => st
  end.

(** [operator()(UpdateDescriptor const&)]: the buffers afterwards and the chain to
    write. *)
Definition serializeDescriptor (st : Buffers) (desc : UpdateDescriptor) : Buffers * list nat :=
  match serializedGroupPDU desc with
  | None => (st, [])
  | Some chain =>
      let offsets := d_nexthopOffsets desc in
      let needV4 := existsb (fun '(_, _, isV4) => isV4) offsets in
      let needV6 := existsb (fun '(_, _, isV4) => negb isV4) offsets in
      if negb (nonempty offsets) then (st, chain)
      else if needV4 && bool_decide (d_v4Nexthop desc = IPUnset) then (st, chain)
      else if needV6 && bool_decide (d_v6Nexthop desc = IPUnset) then (st, chain)
      else (foldl (mutateNexthop chain (d_v4Nexthop desc) (d_v6Nexthop desc)) st offsets, chain)
  end.

(** What a write of the chain would send now. *)
Definition readChain (st : Buffers) (chain : list nat) : option (list bytes) :=
  mapM (fun b => st !! b) chain.

(** New buffers get the next addresses. *)
Definition allocate (st : Buffers) (bufs : list bytes) : Buffers * list nat :=
  (st ++ bufs, seq (length st) (length bufs)).

(** The visitor: buffers and the chain to write.  A socket error is never queued
    for sending ([nullptr]). *)
Definition serializeMessage (fuel : nat) (caps : BgpCapabilities) (st : Buffers)
    (msg : BgpMessageT) : res (Buffers * list nat) :=
  let single (r : res bytes) := let* b := r in Ok (allocate st [b]) in
  match msg with
  | MOpen msg => single (serializeBgpOpenMsg msg)
  | MKeepAlive => single serializeBgpKeepAlive
  | MUpdate msg =>
      let* _ := validateBgpUpdate2 msg caps in
      let* queue := serializeBgpUpdate2 fuel msg (as4byte caps)
                      (nonempty (extNHEncodingCapabilities caps)) in
      Ok (allocate st (map q_bytes queue))
  | MEndOfRib msg => single (serializeBgpEndOfRib (eor_afi msg) (eor_safi msg))
  | MNotification msg => single (serializeBgpNotification msg)
  | MRouteRefresh msg => single (serializeBgpRouteRefresh msg)
  | MUpdateDescriptor desc => Ok (serializeDescriptor st desc)
  | MSocketError _ => Ok (st, [])
  end.

(** ** The update of a group *)

Definition emptyDescriptor : UpdateDescriptor := mkDescriptor None IPUnset IPUnset [].

(** The [try] block. *)
Definition buildDescriptor (fuel : nat) (st : Buffers) (message : BgpUpdate2)
    (as4byte extNhEncoding : bool) : res (Buffers * UpdateDescriptor) :=
  let* mpNexthop :=
    if nonempty (nlri_prefixes (u_mpAnnounced message))
    then toIPAddress (nlri_nexthop (u_mpAnnounced message)) else Ok IPUnset in
  let v6Nexthop := match mpNexthop with IPV6 o => IPV6 o | _ => IPUnset end in
  let v4Nexthop := match mpNexthop with IPV4 o => IPV4 o | _ => IPUnset end in
  let* queue := serializeBgpUpdate2 fuel message as4byte extNhEncoding in
  let '(st, chain) := allocate st (map q_bytes queue) in
  Ok (st, mkDescriptor (Some chain) v4Nexthop v6Nexthop (nexthopOffsets 0 queue)).

(** Any exception leads to the empty descriptor. *)
Definition serializeUpdateAndCreateDescriptor (fuel : nat) (st : Buffers) (message : BgpUpdate2)
    (as4byte extNhEncoding : bool) : res (Buffers * UpdateDescriptor) :=
  rcatch (buildDescriptor fuel st message as4byte extNhEncoding)
    (fun _ => Ok (st, emptyDescriptor)).

(** The descriptor a peer gets for an announcement. *)
Definition peerDescriptor (group : UpdateDescriptor) (peerNexthop : IPAddress) : UpdateDescriptor :=
  let '(mkDescriptor pdu v4 v6 offsets) := group in
  match peerNexthop with
  | IPV4 _ => mkDescriptor pdu peerNexthop v6 offsets
  | _ => mkDescriptor pdu v4 peerNexthop offsets
  end.

(** ** The sockets of a group

    A peer's send loop serializes the descriptor, which puts the next hop of the
    peer into the shared buffers, and hands the chain to its socket; the socket
    may take the bytes at once or keep the chain and take them later, a piece at a
    time, as the buffers then are.  The fiber of the peer waits meanwhile. *)
Record Sending := mkSending { s_chain : list nat; s_gone : bytes }.

Record GroupSend := mkGroupSend {
  gs_bufs : Buffers;
  gs_waiting : gmap nat Sending;
  gs_sent : list (nat * bytes)
}.

Inductive SendEvent := Turn (peer : nat) | Leave (peer k : nat).

(** The turn of a peer: [std::visit(visitor, msgVal)] and [sock_.write]; a chain
    whose first buffer is empty is not written. *)
Definition groupTurn (group : UpdateDescriptor) (nexthops : list IPAddress) (peer : nat) (w : GroupSend)
    : GroupSend :=
  match nexthops !! peer, gs_waiting w !! peer with
  | Some nh, None =>
      let '(bufs, chain) := serializeDescriptor (gs_bufs w) (peerDescriptor group nh) in
      match readChain bufs chain with
      | Some ((_ :: _) :: _) =>
          mkGroupSend bufs (<[peer := mkSending chain []]> (gs_waiting w)) (gs_sent w)
      | _ => mkGroupSend bufs (gs_waiting w) (gs_sent w)
      end
  | _, _ => w
  end.

(** The socket of a peer takes the next [k] bytes; the write is over with the
    last one. *)
Definition groupLeave (peer k : nat) (w : GroupSend) : GroupSend :=
  match gs_waiting w !! peer with
  | Some (mkSending chain gone) =>
      match readChain (gs_bufs w) chain with
      | Some bufs =>
          let gone := gone ++ take k (drop (length gone) (concat bufs)) in
          if (length (concat bufs) <=? length gone)%nat
          then mkGroupSend (gs_bufs w) (delete peer (gs_waiting w)) (gs_sent w ++ [(peer, gone)])
          else mkGroupSend (gs_bufs w) (<[peer := mkSending chain gone]> (gs_waiting w)) (gs_sent w)
      | None => w
      end
  | None => w
  end.

Definition groupStep (group : UpdateDescriptor) (nexthops : list IPAddress) (w : GroupSend)
    (e : SendEvent) : GroupSend :=
  match e with Turn peer => groupTurn group nexthops peer w | Leave peer k => groupLeave peer k w end.

Definition groupRun (group : UpdateDescriptor) (nexthops : list IPAddress) : GroupSend ->
    list SendEvent -> GroupSend := foldl (groupStep group nexthops).

(** The schedules in which no peer has its turn while a socket still holds a
    chain. *)
Fixpoint undisturbed (group : UpdateDescriptor) (nexthops : list IPAddress) (es : list SendEvent)
    (w : GroupSend) : bool :=
  match es with
  | [] => true
  | e :: es =>
      (match e with Turn _ => bool_decide (gs_waiting w = ∅) | Leave _ _ => true end) &&
      undisturbed group nexthops es (groupStep group nexthops w e)
  end.
End GroupPdu.

(** ** What the peers receive *)

(** The message with next hop [nh] at its recorded offset. *)
Definition fill (nh : bytes) (m : QueuedMsg) : bytes :=
  match q_nexthop m with
  | Some (off, _) => overwrite (q_bytes m) (Z.to_nat off) nh
  | None => q_bytes m
  end.

(** The message has no next hop, or one of [n] octets and family [v4]. *)
Definition has_hole (n : nat) (v4 : bool) (m : QueuedMsg) : Prop :=
  q_nexthop m = None \/
  exists pre x post, q_bytes m = pre ++ x ++ post /\ length x = n /\
    q_nexthop m = Some (blen pre, v4).

Lemma overwrite_hole pre x post nh : length x = length nh ->
  overwrite (pre ++ x ++ post) (length pre) nh = pre ++ nh ++ post.
Proof.
  intros Hl. unfold overwrite. rewrite take_app_length. do 2 f_equal.
  rewrite app_assoc, drop_app_length'; [done|]. rewrite length_app. lia.
Qed.

Lemma overwrite_fill n v4 m y nh off b : has_hole n v4 m -> length y = n -> length nh = n ->
  q_nexthop m = Some (off, b) ->
  0 <= off /\ b = v4 /\ off + blen nh <= blen (fill y m) /\
  overwrite (fill y m) (Z.to_nat off) nh = fill nh m.
Proof.
  intros [E|(pre & x & post & Eb & Hx & En)] Hy Hnh Eo; [congruence|].
  rewrite En in Eo. simplify_eq. unfold fill. rewrite En, Eb, Nat2Z.id, !overwrite_hole by lia.
  split_and!; [lia|done| |done]. rewrite !length_app. lia.
Qed.

(** The loop over the next hop offsets puts [nh] into every message, whatever
    next hop of that length the buffers held before. *)
Lemma mutate_all n (v4 : bool) v4nh v6nh (nh := ip_octets (if v4 then v4nh else v6nh))
    (old : Buffers) queue :
  length nh = n -> Forall (has_hole n v4) queue ->
  forall bufs0 bufs,
  Forall2 (fun m d => exists y, length y = n /\ d = fill y m) queue bufs ->
  foldl (mutateNexthop (seq (length old) (length bufs0 + length bufs)) v4nh v6nh)
    (old ++ bufs0 ++ bufs) (nexthopOffsets (blen bufs0) queue) =
  old ++ bufs0 ++ map (fill nh) queue.
Proof.
  intros Hn Hq. induction Hq as [|m queue Hm _ IH]; intros bufs0 bufs HF.
  { apply Forall2_nil_inv_l in HF as ->. done. }
  apply Forall2_cons_inv_l in HF as (d & bufs' & (y & Hy & ->) & HF & ->).
  cbn [nexthopOffsets map]. rewrite foldl_app.
  assert (Hfill : foldl (mutateNexthop (seq (length old) (length bufs0 + length (fill y m :: bufs')))
      v4nh v6nh) (old ++ bufs0 ++ fill y m :: bufs')
    (match q_nexthop m with Some (off, b) => [(blen bufs0, off, b)] | None => [] end) =
    old ++ bufs0 ++ fill nh m :: bufs').
  { destruct (q_nexthop m) as [[off b]|] eqn:En;
      [|cbn [foldl]; unfold fill; by rewrite En].
    destruct (overwrite_fill n v4 m y nh off b Hm Hy Hn En) as (Ho & -> & Hle & Ew).
    cbn [foldl]. unfold mutateNexthop. rewrite Nat2Z.id.
    rewrite lookup_seq_lt by (simpl; lia). fold nh.
    rewrite app_assoc, lookup_app_r by (rewrite length_app; lia).
    rewrite length_app, Nat.sub_diag. cbn [lookup list_lookup].
    destruct (Z.leb_spec (off + blen nh) (blen (fill y m))); [|lia].
    rewrite Ew, insert_app_r_alt by (rewrite length_app; lia).
    rewrite length_app, Nat.sub_diag. cbn [insert list_insert]. by rewrite <- app_assoc. }
  rewrite Hfill. specialize (IH (bufs0 ++ [fill nh m]) bufs' HF).
  rewrite <- !app_assoc in IH. cbn [app] in IH. rewrite length_app in IH. cbn [length] in *.
  rewrite Nat.add_succ_r, <- Nat.add_succ_l, <- Nat.add_1_r. rewrite Nat2Z.inj_add in IH.
  exact IH.
Qed.

Lemma readChain_seq old bufs : readChain (old ++ bufs) (seq (length old) (length bufs)) = Some bufs.
Proof.
  unfold readChain. apply mapM_Some_2, Forall2_same_length_lookup_2; [by rewrite length_seq|].
  intros i b d Hb Hd. apply lookup_seq in Hb as [-> _].
  rewrite lookup_app_r by lia. by replace (length old + i - length old)%nat with i by lia.
Qed.

Lemma hole_content n v4 m : has_hole n v4 m -> exists y, length y = n /\ q_bytes m = fill y m.
Proof.
  unfold fill. intros [-> |(pre & x & post & Eb & Hx & ->)].
  - exists (replicate n 0). by rewrite length_replicate.
  - exists x. split; [done|]. by rewrite Eb, Nat2Z.id, overwrite_hole.
Qed.

Lemma offsets_family n v4 queue k : Forall (has_hole n v4) queue ->
  Forall (fun '(_, _, b) => b = v4) (nexthopOffsets k queue).
Proof.
  intros Hq. apply Forall_forall. intros [[i off] b] Hin.
  apply elem_of_nexthopOffsets in Hin as (j & m & Hj & _ & Hm).
  rewrite Forall_forall in Hq. apply list_elem_of_lookup_2, Hq in Hj as [E|(? & ? & ? & _ & _ & E)];
    congruence.
Qed.

(** The address is of the family of the group's next hop. *)
Definition same_family (n : nat) (ip : IPAddress) : Prop :=
  match ip with IPUnset => False | IPV4 o => length o = 4%nat /\ n = 4%nat
              | IPV6 o => length o = 16%nat /\ n = 16%nat end.

Lemma serializeDescriptor_turn n queue old bufs g4 g6 ip :
  same_family n ip -> Forall (has_hole n (bool_decide (n = 4%nat))) queue ->
  Forall2 (fun m d => exists y, length y = n /\ d = fill y m) queue bufs ->
  let chain := seq (length old) (length bufs) in
  serializeDescriptor (old ++ bufs)
    (peerDescriptor (mkDescriptor (Some chain) g4 g6 (nexthopOffsets 0 queue)) ip) =
  (old ++ map (fill (ip_octets ip)) queue, chain).
Proof.
  intros Hip Hq HF chain. pose proof (offsets_family n _ queue 0 Hq) as Hfam.
  assert (Hall : forall b, b <> bool_decide (n = 4%nat) ->
    existsb (fun '(_, _, v4) => eqb v4 b) (nexthopOffsets 0 queue) = false).
  { intros b Hb. apply not_true_iff_false. rewrite existsb_exists.
    intros ([[i off] b'] & Hin & Hb'). rewrite Forall_forall in Hfam.
    apply list_elem_of_In, Hfam in Hin. apply eqb_prop in Hb'. congruence. }
  assert (Hneg : forall l : list (Z * Z * bool),
    existsb (fun '(_, _, v4) => negb v4) l = existsb (fun '(_, _, v4) => eqb v4 false) l /\
    existsb (fun '(_, _, v4) => v4) l = existsb (fun '(_, _, v4) => eqb v4 true) l).
  { intros l. split; induction l as [|[[? ?] []] l IH]; simpl; congruence. }
  assert (Hloop : forall v4nh v6nh,
    ip_octets (if bool_decide (n = 4%nat) then v4nh else v6nh) = ip_octets ip ->
    foldl (mutateNexthop chain v4nh v6nh) (old ++ bufs) (nexthopOffsets 0 queue) =
      old ++ map (fill (ip_octets ip)) queue).
  { intros v4nh v6nh E. rewrite <- E.
    apply (mutate_all n (bool_decide (n = 4%nat)) v4nh v6nh old queue) with (bufs0 := []); try done.
    rewrite E. destruct ip; simpl in *; destruct Hip; congruence. }
  unfold serializeDescriptor. destruct (Hneg (nexthopOffsets 0 queue)) as [E6 E4].
  destruct ip as [|o|o]; [done|..]; destruct Hip as [Ho ->];
    cbn [peerDescriptor serializedGroupPDU d_v4Nexthop d_v6Nexthop d_nexthopOffsets];
    rewrite E6, E4; [rewrite (Hall false) by done|rewrite (Hall true) by done];
    rewrite ?andb_false_r; cbn [andb];
    [rewrite <- (Hloop (IPV4 o) g6) by done|rewrite <- (Hloop g4 (IPV6 o)) by done];
    by destruct (nexthopOffsets 0 queue) as [|e l].
Qed.

(** What the runs without disturbance keep: at most one socket holds the chain,
    its buffers then have the next hop of that peer, and what has left is the
    update with the next hop of its peer. *)
Section Sockets.
Context (n : nat) (queue : list QueuedMsg) (old : Buffers) (g4 g6 : IPAddress) (ips : list IPAddress).
Hypothesis Hq : Forall (has_hole n (bool_decide (n = 4%nat))) queue.
Hypothesis Hips : Forall (same_family n) ips.
Hypothesis Hhead : exists m ms, queue = m :: ms /\ (q_nexthop m = None -> q_bytes m <> []).

Let chain := seq (length old) (length queue).
Let group := mkDescriptor (Some chain) g4 g6 (nexthopOffsets 0 queue).

Definition whole (ip : IPAddress) : bytes := concat (map (fill (ip_octets ip)) queue).

Record send_inv (w : GroupSend) : Prop := {
  si_bufs : exists bufs, gs_bufs w = old ++ bufs /\
    Forall2 (fun m d => exists y, length y = n /\ d = fill y m) queue bufs;
  si_waiting : gs_waiting w = ∅ \/ exists i ip gone rest, ips !! i = Some ip /\
    gs_waiting w = {[i := mkSending chain gone]} /\
    gs_bufs w = old ++ map (fill (ip_octets ip)) queue /\ whole ip = gone ++ rest /\ rest <> [];
  si_sent : Forall (fun '(i, bs) => exists ip, ips !! i = Some ip /\ bs = whole ip) (gs_sent w)
}.

Lemma filled_holes ip : same_family n ip ->
  Forall2 (fun m d => exists y, length y = n /\ d = fill y m) queue (map (fill (ip_octets ip)) queue).
Proof.
  intros Hip. apply Forall2_fmap_r, Forall_Forall2_diag, Forall_forall. intros m _.
  exists (ip_octets ip). split; [|done]. destruct ip; simpl in *; destruct Hip; congruence.
Qed.

Lemma read_filled ip : readChain (old ++ map (fill (ip_octets ip)) queue) chain =
  Some (map (fill (ip_octets ip)) queue).
Proof. unfold chain. rewrite <- (length_map (fill (ip_octets ip)) queue). apply readChain_seq. Qed.

Lemma fill_nonempty nh m : (q_nexthop m = None -> q_bytes m <> []) -> nh <> [] -> fill nh m <> [].
Proof.
  unfold fill, overwrite. destruct (q_nexthop m) as [[off b]|]; [|by auto].
  intros _ Hnh E. apply app_nil in E as [_ [? _]%app_nil]. done.
Qed.

Lemma groupTurn_spec i ip w : send_inv w -> gs_waiting w = ∅ -> ips !! i = Some ip ->
  groupTurn group ips i w =
    mkGroupSend (old ++ map (fill (ip_octets ip)) queue) {[i := mkSending chain []]} (gs_sent w) /\
  whole ip <> [].
Proof.
  intros [(bufs & Eb & HF) _ _] Hw Hi. unfold groupTurn. rewrite Hi, Hw, lookup_empty, Eb.
  pose proof (proj1 (Forall_lookup _ _) Hips _ _ Hi) as Hip.
  pose proof (serializeDescriptor_turn n queue old bufs g4 g6 ip Hip Hq HF) as E.
  cbv zeta in E. rewrite <- (Forall2_length _ _ _ HF) in E. fold chain in E. fold group in E.
  rewrite E, read_filled. destruct Hhead as (m & ms & Equeue & Hm).
  assert (Hnh : ip_octets ip <> []) by (destruct ip as [|[]|[]]; simpl in *; destruct Hip; done).
  assert (exists x d ds, map (fill (ip_octets ip)) queue = (x :: d) :: ds) as (x & d & ds & Ef).
  { rewrite Equeue. cbn [map]. destruct (fill (ip_octets ip) m) as [|x d] eqn:Ef; [|by eauto].
    by destruct (fill_nonempty (ip_octets ip) m). }
  unfold whole. rewrite Ef. by rewrite insert_empty.
Qed.

Lemma send_inv_turn i w : send_inv w -> gs_waiting w = ∅ -> send_inv (groupTurn group ips i w).
Proof.
  intros Hinv Hw. destruct (ips !! i) as [ip|] eqn:Hi; [|unfold groupTurn; by rewrite Hi].
  destruct (groupTurn_spec i ip w Hinv Hw Hi) as [-> Hne]. constructor; cbn [gs_bufs gs_waiting gs_sent].
  - eexists. split; [done|]. apply filled_holes. by eapply Forall_lookup_1.
  - right. by exists i, ip, [], (whole ip).
  - apply Hinv.
Qed.

Lemma send_inv_leave i k w : send_inv w -> send_inv (groupLeave i k w).
Proof.
  intros Hinv. pose proof Hinv as [Hb [Hw|(j & ip & gone & rest & Hj & Hw & Eb & Hwh & Hne)] Hs];
    unfold groupLeave; rewrite Hw; [by rewrite lookup_empty|].
  destruct (decide (j = i)) as [->|Hji]; [|by rewrite lookup_singleton_ne].
  rewrite lookup_singleton_eq, Eb, read_filled. fold (whole ip). rewrite Hwh, drop_app_length.
  case_match eqn:El.
  - apply Nat.leb_le in El. rewrite !length_app, length_take in El.
    constructor; cbn [gs_bufs gs_waiting gs_sent].
    + by rewrite <- Eb.
    + left. by rewrite delete_singleton_eq.
    + apply Forall_app. split; [done|]. constructor; [|constructor]. exists ip. split; [done|].
      rewrite take_ge by lia. done.
  - apply Nat.leb_gt in El. rewrite !length_app, length_take in El.
    constructor; cbn [gs_bufs gs_waiting gs_sent]; [by rewrite <- Eb| |done].
    right. exists i, ip, (gone ++ take k rest), (drop k rest). split; [done|].
    split; [by rewrite insert_singleton_eq|]. split; [done|].
    split; [by rewrite <- app_assoc, take_drop|]. intros E%(f_equal length). rewrite length_drop in E.
    simpl in E. lia.
Qed.

Lemma send_inv_run es : forall w, send_inv w -> undisturbed group ips es w = true ->
  send_inv (groupRun group ips w es).
Proof.
  induction es as [|e es IH]; intros w Hinv; cbn [undisturbed]; [done|].
  intros [He Hu]%andb_prop. apply IH; [|done].
  destruct e as [i|i k]; cbn [groupStep]; [|by apply send_inv_leave].
  apply send_inv_turn; [done|]. by apply bool_decide_eq_true in He.
Qed.

(** A turn at an idle group, whose socket takes everything. *)
Lemma send_turn_leave i ip w : send_inv w -> gs_waiting w = ∅ -> ips !! i = Some ip ->
  exists k, groupRun group ips w [Turn i; Leave i k] =
    mkGroupSend (old ++ map (fill (ip_octets ip)) queue) ∅ (gs_sent w ++ [(i, whole ip)]).
Proof.
  intros Hinv Hw Hi. exists (length (whole ip)). cbn [groupRun foldl groupStep].
  destruct (groupTurn_spec i ip w Hinv Hw Hi) as [-> _]. unfold groupLeave. cbn [gs_bufs gs_waiting gs_sent].
  rewrite lookup_singleton_eq, read_filled. fold (whole ip). cbn [length app]. rewrite drop_0, firstn_all.
  by rewrite Nat.leb_refl, delete_singleton_eq.
Qed.
End Sockets.

Definition set_mpNexthop (nh : bytes) (u : BgpUpdate2) : BgpUpdate2 :=
  let '(mkUpdate2 a (mkNlri afi safi ps _) mw va vw n4 va2 vw2) := u in
  mkUpdate2 a (mkNlri afi safi ps nh) mw va vw n4 va2 vw2.

Section Delivery.
Context `{F : FollyOps} `{L : !FollyLaws F}.

(** The queue of an update announced by multiprotocol attributes only: each
    message has a place for the next hop or needs none, and filling the places
    with another next hop gives messages from which the peer gets the update
    with that next hop. *)
Lemma group_queue capa o u ext fuel (mp := u_mpAnnounced u) (n := length (nlri_nexthop mp)) :
  wf_update capa o u -> attrs_fit capa o u ->
  (nonempty (extNHEncodingCapabilities capa) = true -> ext = true) ->
  (prefix_count u <= fuel)%nat -> effective (u_v4Announced2 u) (u_v4Announced u) = [] ->
  exists queue, serializeBgpUpdate2 fuel u (as4byte capa) ext = Ok queue /\
    Forall (has_hole n (bool_decide (n = 4%nat))) queue /\
    forall nh, length nh = n -> nexthop_ok capa (nlri_afi mp) nh ->
      delivered capa (set_mpNexthop nh u)
        (map (fun m => mkQueued (fill nh m) (q_nexthop m)) queue).
Proof.
  intros Hu Hfit Hext Hfuel Hva.
  destruct (serialize_update_queue capa o u ext fuel Hu Hfit Hext Hfuel)
    as (W & MW & MA & VA & q1 & q2 & q3 & q4 & E & HW & HMW & HMA & HVA & H4 & HF1 & HF2 & HF3 & HF4).
  rewrite H4 in * by done. apply Forall2_nil_inv_r in HF4 as ->. rewrite app_nil_r in E.
  assert (Hnone : forall X (R : X -> QueuedMsg -> Prop) (l : list X) q,
    Forall2 (fun c m => R c m /\ q_nexthop m = None) l q -> Forall (fun m => q_nexthop m = None) q).
  { intros X R l q HF. induction HF as [|? ? ? ? [_ ?]]; by constructor. }
  pose proof (Hnone _ _ _ _ HF1) as N1. pose proof (Hnone _ _ _ _ HF2) as N2.
  exists (q1 ++ q2 ++ q3). split; [done|]. split.
  - rewrite !Forall_app. split_and!; [eapply Forall_impl; [done|]; by left..|].
    clear -HF3. induction HF3 as [|c m l q [_ (pre & post & -> & _)] _ IH]; constructor; [|done].
    right. by exists pre, (nlri_nexthop mp), post.
  - intros nh Hl Hok.
    assert (Hid : forall q, Forall (fun m => q_nexthop m = None) q ->
      map (fun m => mkQueued (fill nh m) (q_nexthop m)) q = q).
    { intros q Hq. induction Hq as [|m q Em _ IH]; [done|]. cbn [map]. rewrite IH.
      destruct m as [b x]. simpl in Em. by subst x. }
    rewrite !map_app, !Hid by done. exists W, MW, MA, [].
    destruct u as [a [afi safi ps nh0] mw va vw n4 va2 vw2]. subst mp n. simpl in *.
    split_and!; [done..|]. rewrite app_nil_r.
    repeat apply Forall2_app; [apply Forall2_fmap_l; (eapply Forall2_impl; [eassumption|]);
      by intros ? ? [? _]..|].
    apply Forall2_fmap. eapply Forall2_impl; [exact HF3|].
    intros c m [_ (pre & post & -> & Hr)]. unfold fill. cbn [q_nexthop q_bytes].
    rewrite Nat2Z.id, overwrite_hole by done. by apply Hr.
Qed.
End Delivery.

(** The bytes are messages from which a peer gets the whole update with its own
    next hop. *)
Definition getsUpdate `{F : FollyOps} (capa : BgpCapabilities) (u : BgpUpdate2) (ip : IPAddress)
    (written : bytes) : Prop :=
  exists queue, written = concat (map q_bytes queue) /\
    delivered capa (set_mpNexthop (ip_octets ip) u) queue.

Lemma delivered_head `{F : FollyOps} `{L : !FollyLaws F} capa u queue :
  delivered capa u queue -> nlri_prefixes (u_mpAnnounced u) <> [] ->
  exists m ms, queue = m :: ms /\ q_bytes m <> [].
Proof.
  intros (W & MW & MA & VA & _ & _ & HMA & _ & HF) Hne.
  destruct queue as [|m ms].
  - apply Forall2_nil_inv_r in HF. apply app_nil in HF as [_ [_ [HF _]%app_nil]%app_nil].
    apply fmap_nil_inv in HF as ->. by rewrite <- HMA in Hne.
  - exists m, ms. split; [done|]. apply Forall2_cons_inv_r in HF as (x & l & [_ Hm] & _ & _).
    intros E. specialize (Hm []). rewrite E in Hm. done.
Qed.

(** C34. An update announced to a group is serialized once into buffers the peers
    share, and each peer's turn puts its own next hop there.  For an update that
    fits its messages, has no announcement outside of MP_REACH_NLRI and next hops
    of one family, and for schedules in which no peer has its turn while the
    socket of another still holds the buffers: whatever order the turns have, and
    in whatever pieces the sockets take the bytes, each write that is completed
    is the whole update with the next hop of the peer it goes to, every prefix
    once and in order; and a turn whose bytes the socket takes is completed. *)
Theorem group_pdu_delivers `{F : FollyOps} `{L : !FollyLaws F} capa o u ext fuel st ips :
  wf_update capa o u -> attrs_fit capa o u ->
  (nonempty (extNHEncodingCapabilities capa) = true -> ext = true) ->
  (prefix_count u <= fuel)%nat -> effective (u_v4Announced2 u) (u_v4Announced u) = [] ->
  nlri_prefixes (u_mpAnnounced u) <> [] ->
  Forall (fun ip => same_family (length (nlri_nexthop (u_mpAnnounced u))) ip /\
                    nexthop_ok capa (nlri_afi (u_mpAnnounced u)) (ip_octets ip)) ips ->
  exists st1 group,
    serializeUpdateAndCreateDescriptor fuel st u (as4byte capa) ext = Ok (st1, group) /\
    forall es, undisturbed group ips es (mkGroupSend st1 ∅ []) = true ->
    let w := groupRun group ips (mkGroupSend st1 ∅ []) es in
    Forall (fun '(peer, written) => exists ip, ips !! peer = Some ip /\ getsUpdate capa u ip written)
      (gs_sent w) /\
    (gs_waiting w = ∅ -> forall peer ip, ips !! peer = Some ip ->
       exists k written, getsUpdate capa u ip written /\
         gs_sent (groupRun group ips w [Turn peer; Leave peer k]) = gs_sent w ++ [(peer, written)]).
Proof.
  intros Hu Hfit Hext Hfuel Hva Hne Hips.
  destruct (group_queue capa o u ext fuel Hu Hfit Hext Hfuel Hva) as (queue & E & Hq & Hdel).
  destruct (wu_mpAnnounced _ _ _ Hu Hne) as (_ & _ & _ & Hnh & _).
  assert (Hhead : exists m ms, queue = m :: ms /\ (q_nexthop m = None -> q_bytes m <> [])).
  { destruct (delivered_head _ _ _ (Hdel _ eq_refl Hnh)) as (m & ms & Em & Hm);
      [by destruct u as [? [] ? ? ? ? ? ?]|].
    destruct queue as [|m' ms']; [done|]. cbn [map] in Em. injection Em as <- _.
    exists m', ms'. split; [done|]. unfold fill in Hm. intros Hn. by rewrite Hn in Hm. }
  unfold serializeUpdateAndCreateDescriptor, buildDescriptor.
  apply nonempty_true in Hne as ->.
  assert (exists ip0, toIPAddress (nlri_nexthop (u_mpAnnounced u)) = Ok ip0) as (ip0 & ->).
  { unfold toIPAddress. destruct Hnh as [_ [[_ Hl]|[Hl _]]].
    - eexists. by apply ip_fromBinary_v4.
    - eexists. by apply ip_fromBinary_v6. }
  cbn [rbind]. rewrite E. cbn [rbind allocate rcatch]. rewrite length_map.
  eexists _, _. split; [done|]. intros es Hes.
  match goal with |- context [gs_waiting ?x = ∅] => set (w := x) in * end.
  set (n := length (nlri_nexthop (u_mpAnnounced u))) in *.
  assert (Hfam : Forall (same_family n) ips) by (eapply Forall_impl; [exact Hips|]; by intros ip [? _]).
  assert (Hget : forall i ip, ips !! i = Some ip -> getsUpdate capa u ip (whole queue ip)).
  { intros i ip Hi. destruct (proj1 (Forall_lookup _ _) Hips _ _ Hi) as [Hf Hok].
    exists (map (fun m => mkQueued (fill (ip_octets ip) m) (q_nexthop m)) queue).
    rewrite map_map. split; [done|]. apply Hdel; [|done]. destruct ip; simpl in *; destruct Hf; congruence. }
  assert (Hinv : send_inv n queue st ips w).
  { apply send_inv_run; [done|done|done| |exact Hes]. constructor; [|by left|constructor].
    eexists. split; [done|]. apply Forall2_fmap_r, Forall_Forall2_diag. eapply Forall_impl; [exact Hq|].
    intros m Hm. by eapply hole_content. }
  split.
  - eapply Forall_impl; [apply Hinv|]. intros [i bs] (ip & Hi & ->). exists ip. eauto.
  - intros Hw i ip Hi. edestruct (send_turn_leave n queue st) as (k & Ek); [done..|].
    exists k, (whole queue ip). split; [by eauto|]. by rewrite Ek.
Qed.

Definition sample_mp_update : BgpUpdate2 :=
  mkUpdate2 sample_attrs
    (mkNlri AFI_IPv6 SAFI_UNICAST sample_v6 [254; 128; 0; 0; 0; 0; 0; 0; 0; 0; 0; 0; 0; 0; 0; 1])
    (mkNlri AFI_IPv6 SAFI_UNICAST [] []) [] [] [] [] [].

Lemma sample_mp_update_wf :
  wf_update sample_capa [10; 0; 0; 1] sample_mp_update /\
  attrs_fit sample_capa [10; 0; 0; 1] sample_mp_update.
Proof.
  destruct sample_full_update_wf as [[_ _ _ _ _ Hma _ _] [Hfit _]]. split.
  - split; [by left|by left|constructor|constructor|done|exact Hma|done|by right; right; left].
  - split; [exact Hfit|done].
Qed.

Definition sample_peers : list IPAddress :=
  [IPV6 [254; 128; 0; 0; 0; 0; 0; 0; 0; 0; 0; 0; 0; 0; 0; 7];
   IPV6 [254; 128; 0; 0; 0; 0; 0; 0; 0; 0; 0; 0; 0; 0; 0; 8]].

(** The second peer's turn comes first, and its socket takes the message in two
    pieces. *)
Definition sample_sends : list SendEvent := [Turn 1; Leave 1 30; Leave 1 1000; Turn 0; Leave 0 1000].

Lemma group_pdu_delivers_witness :
  exists st1 group b0 b1,
    serializeUpdateAndCreateDescriptor 10 [] sample_mp_update true false = Ok (st1, group) /\
    gs_sent (groupRun group sample_peers (mkGroupSend st1 ∅ []) sample_sends) = [(1%nat, b1); (0%nat, b0)] /\
    (exists ip, sample_peers !! 1%nat = Some ip /\ getsUpdate sample_capa sample_mp_update ip b1) /\
    (exists ip, sample_peers !! 0%nat = Some ip /\ getsUpdate sample_capa sample_mp_update ip b0).
Proof.
  destruct (group_pdu_delivers sample_capa [10; 0; 0; 1] sample_mp_update false 10 [] sample_peers)
    as (st1 & group & E & Hrun).
  - apply sample_mp_update_wf.
  - apply sample_mp_update_wf.
  - discriminate.
  - vm_compute. lia.
  - reflexivity.
  - discriminate.
  - assert (Hip : forall x, is_byte x ->
      let o := [254; 128; 0; 0; 0; 0; 0; 0; 0; 0; 0; 0; 0; 0; 0; x] in
      same_family 16 (IPV6 o) /\ nexthop_ok sample_capa AFI_IPv6 o).
    { intros x Hx o. split; [done|]. split; [|right; split; [done|by left]].
      repeat (constructor; [done || (unfold is_byte; lia)|]). constructor. }
    constructor; [apply Hip; unfold is_byte; lia|].
    constructor; [apply Hip; unfold is_byte; lia|constructor].
  - change (as4byte sample_capa) with true in E. exists st1, group.
    pose proof E as E'. vm_compute in E'. injection E' as <- <-.
    destruct (Hrun sample_sends) as [Hsent _]; [vm_compute; reflexivity|].
    eexists _, _. split; [exact E|]. split; [vm_compute; reflexivity|].
    vm_compute gs_sent in Hsent. rewrite !Forall_cons in Hsent. destruct Hsent as (H1 & H0 & _).
    split; [exact H1|exact H0].
Defined.

(** A write that its socket still holds when another peer has its turn sends what
    that peer should get: the next hop in the shared buffers is now the other
    one's. *)
Theorem pending_write_overwritten :
  exists st1 group bs,
    serializeUpdateAndCreateDescriptor 10 [] sample_mp_update true false = Ok (st1, group) /\
    undisturbed group sample_peers [Turn 0; Turn 1; Leave 0 1000] (mkGroupSend st1 ∅ []) = false /\
    gs_sent (groupRun group sample_peers (mkGroupSend st1 ∅ []) [Turn 0; Turn 1; Leave 0 1000]) =
      [(0%nat, bs)] /\
    gs_sent (groupRun group sample_peers (mkGroupSend st1 ∅ []) [Turn 1; Leave 1 1000]) = [(1%nat, bs)] /\
    gs_sent (groupRun group sample_peers (mkGroupSend st1 ∅ []) [Turn 0; Leave 0 1000]) <> [(0%nat, bs)].
Proof.
  do 3 eexists. split; [vm_compute; reflexivity|]. split; [vm_compute; reflexivity|].
  split; [vm_compute; reflexivity|]. split; [vm_compute; reflexivity|]. vm_compute. discriminate.
Qed.
