(* ===== verification/Dispatch.v ===== *)
(** * Message dispatch

    [BgpMessageParser2::parseBgpMessage] (lib/BgpMessageParser.cpp): parse the
    header, hand the buffer to the parser of its message type, and report the
    message or the exception through one call of [BgpMessageParserCallbacks]. *)

From S2P Require Import Prelude BgpException Folly BgpStructs MsgHeader ControlMsgs OpenMsg Nlri PathAttrs PathAttrsSerializer UpdateMsg.

(** The calls of the callback interface. *)
Inductive Callback :=
| rcvdBgpOpenMsg (msg : BgpOpenMsg)
| rcvdBgpUpdate (update : BgpUpdate2)
| rcvdBgpEndOfRib (eor : BgpEndOfRib)
| rcvdBgpNotification (notif : BgpNotification)
| rcvdBgpKeepAlive
| rcvdBgpRouteRefresh (rr : BgpRouteRefresh)
| handleBgpOpenMsgException (subcode : BgpNotifOpenMsgErrSubCode) (data : bytes)
| handleBgpUpdateMsgException (subcode : BgpNotifUpdateMsgErrSubCode) (data : bytes)
| handleBgpFsmException
| handleBgpHeaderException (subcode : BgpNotifMsgHdrErrSubCode) (data : bytes)
| handleBgpException
| handleBgpRouteRefreshMsgException (subcode : BgpNotificationRouteRefreshErrSubCode)
    (data : bytes).

Section Dispatch.
Context `{F : FollyOps}.

(** The body of the [try] block. *)
Definition dispatchMessage (buf : bytes) (capabilities : option BgpCapabilities)
    : res Callback :=
  let* hdr := parseBgpMsgHdr buf None in
  let t := hdr_type hdr in
  if t =? BGP_MSG_TYPE_OPEN then
    let* msg := parseBgpOpenMsgRaw buf in Ok (rcvdBgpOpenMsg msg)
  else if t =? BGP_MSG_TYPE_UPDATE then
    match capabilities with
    | None => Throw BgpFsmException
    | Some capabilities =>
        let* msg := parseBgpUpdateRaw buf capabilities in
        match msg with
        | IsUpdate u => Ok (rcvdBgpUpdate u)
        | IsEndOfRib e => Ok (rcvdBgpEndOfRib e)
        end
    end
  else if t =? BGP_MSG_TYPE_NOTIFICATION then
    let* msg := parseBgpNotificationRaw buf in Ok (rcvdBgpNotification msg)
  else if t =? BGP_MSG_TYPE_KEEPALIVE then
    let* _ := parseBgpKeepAliveRaw buf in Ok rcvdBgpKeepAlive
  else if t =? BGP_MSG_TYPE_ROUTE_REFRESH then
    let* msg := parseBgpRouteRefreshRaw buf in Ok (rcvdBgpRouteRefresh msg)
  else Throw BgpException.

(** The [catch] clauses. *)
Definition handleException (e : Exn) : res Callback :=
  match e with
  | BgpOpenMsgException sc d => Ok (handleBgpOpenMsgException sc d)
  | BgpUpdateMsgException sc d => Ok (handleBgpUpdateMsgException sc d)
  | BgpFsmException => Ok handleBgpFsmException
  | BgpHeaderException sc d => Ok (handleBgpHeaderException sc d)
  | BgpException => Ok handleBgpException
  | BgpRouteRefreshMsgException sc d => Ok (handleBgpRouteRefreshMsgException sc d)
  | e => Throw e
  end.

Definition parseBgpMessage (buf : bytes) (capabilities : option BgpCapabilities)
    : res Callback :=
  rcatch (dispatchMessage buf capabilities) handleException.

(** ** Properties *)
Context {L : FollyLaws F}.

Lemma handleException_caught e : caught_by_dispatch e -> exists cb, handleException e = Ok cb.
Proof. destruct e; simpl; naive_solver. Qed.

Lemma open_result buf :
  (exists m, parseBgpOpenMsgRaw buf = Ok m) \/
  (exists e, parseBgpOpenMsgRaw buf = Throw e /\ caught_by_dispatch e).
Proof.
  destruct (parseBgpOpenMsgRaw_safe buf) as [Hf Hoor].
  pose proof (parseBgpOpenMsgRaw_throws buf) as Ht.
  destruct (parseBgpOpenMsgRaw buf) as [m|e|] eqn:E; [by eauto| |done].
  right. exists e. split; [done|]. destruct (Ht e eq_refl) as [->|]; [|done].
  by destruct (Hoor OutOfRange eq_refl).
Qed.

(** Every buffer leads to one callback, or ends with [std::out_of_range] out of
    a ROUTE-REFRESH parser that was given fewer than 23 bytes. *)
Lemma dispatchMessage_result buf capabilities : wf_bytes buf ->
  (exists cb, dispatchMessage buf capabilities = Ok cb) \/
  (exists e, dispatchMessage buf capabilities = Throw e /\ caught_by_dispatch e) \/
  (dispatchMessage buf capabilities = Throw OutOfRange /\
   parseBgpRouteRefreshRaw buf = Throw OutOfRange /\ blen buf < kBgpMsgHeaderLen + 4).
Proof.
  intros Hwf. unfold dispatchMessage.
  destruct (parseBgpMsgHdr_result buf None) as [(h & ->)|(sc & d & ->)]; cbn [rbind];
    [|right; left; eexists; done].
  case_match.
  { destruct (open_result buf) as [(m & ->)|(e & -> & He)]; [by eauto|].
    right; left. by exists e. }
  case_match.
  { destruct capabilities as [capa|]; [|right; left; by eexists].
    destruct (parseBgpUpdateRaw_result buf capa Hwf) as [(r & ->)|[(sc & d & ->)|(sc & d & ->)]];
      cbn [rbind]; [destruct r; by eauto|right; left; by eexists..]. }
  case_match.
  { destruct (parseBgpNotificationRaw_result buf) as [(n & ->)|[(sc & d & ->)| ->]]; cbn [rbind];
      [by eauto|right; left; by eexists..]. }
  case_match.
  { destruct (parseBgpKeepAliveRaw_result buf) as [-> |(sc & d & ->)]; cbn [rbind];
      [by eauto|right; left; by eexists]. }
  case_match; [|right; left; by eexists].
  destruct (parseBgpRouteRefreshRaw_result buf) as [(m & ->)|[(sc & d & ->)|[(d & ->)|[Hl E]]]];
    cbn [rbind]; [by eauto|right; left; by eexists..|].
  right; right. by rewrite E.
Qed.
End Dispatch.

(** C25. Whatever bytes arrive, [parseBgpMessage] terminates; it makes one
    callback unless the message is a ROUTE-REFRESH of fewer than 23 bytes, for
    which the [std::out_of_range] of the cursor leaves the function. *)
Theorem parse_message_total `{F : FollyOps} `{L : !FollyLaws F} buf capabilities :
  wf_bytes buf ->
  (exists cb, parseBgpMessage buf capabilities = Ok cb) \/
  (parseBgpMessage buf capabilities = Throw OutOfRange /\
   parseBgpRouteRefreshRaw buf = Throw OutOfRange /\ blen buf < kBgpMsgHeaderLen + 4).
Proof.
  intros Hwf. unfold parseBgpMessage.
  destruct (dispatchMessage_result buf capabilities Hwf)
    as [(cb & ->)|[(e & -> & He)|(-> & E & Hl)]]; cbn [rcatch]; [by eauto| |by right].
  left. by apply handleException_caught.
Qed.

Lemma parse_message_total_witness :
  (exists cb, parseBgpMessage [1; 2; 3] None = Ok cb) \/
  (parseBgpMessage [1; 2; 3] None = Throw OutOfRange /\
   parseBgpRouteRefreshRaw [1; 2; 3] = Throw OutOfRange /\
   blen [1; 2; 3] < kBgpMsgHeaderLen + 4).
Proof. apply (parse_message_total [1; 2; 3] None). repeat constructor; lia. Defined.

(** A ROUTE-REFRESH message with a correct header and no body makes
    [parseBgpMessage] let [std::out_of_range] through: the body is read before
    its length is checked, and no [catch] clause names the exception. *)
Theorem short_route_refresh_escapes `{F : FollyOps} `{L : !FollyLaws F} capabilities body :
  blen body < 4 ->
  parseBgpMessage (message_bytes BGP_MSG_TYPE_ROUTE_REFRESH body) capabilities =
    Throw OutOfRange.
Proof.
  intros Hl. unfold parseBgpMessage, dispatchMessage, parseBgpRouteRefreshRaw.
  rewrite <- (app_nil_r (message_bytes _ _)).
  assert (Hm : kBgpMsgHeaderLen + blen body <= kMaxBgpMsgLen)
    by (unfold kBgpMsgHeaderLen, kMaxBgpMsgLen; lia).
  rewrite parse_message_bytes by (done || by left). cbn [rbind hdr_type].
  simpl (_ =? _). cbv iota. rewrite consume_message_bytes by (done || by right).
  cbn [rbind]. rewrite app_nil_r, readBE_case. case_decide; cbn [rbind]; [|done].
  rewrite read_u8_case. destruct (drop 2 body) as [|b rest] eqn:E; cbn [rbind]; [done|].
  rewrite read_u8_case. destruct rest as [|c rest]; cbn [rbind]; [done|].
  apply (f_equal length) in E. rewrite length_drop in E. simpl in E. lia.
Qed.

Lemma short_route_refresh_escapes_witness :
  parseBgpMessage (message_bytes BGP_MSG_TYPE_ROUTE_REFRESH []) None = Throw OutOfRange.
Proof. apply (short_route_refresh_escapes None []). reflexivity. Defined.
