(* ===== verification/FiberBgpParser.v ===== *)
(** * From the byte stream to messages

    [FiberBgpParser] (lib/fibers/FiberBgpParser.cpp): chunks read from the socket
    are appended to a buffer; every complete message in it is parsed, and the
    message or the exception is pushed to the queue of the session.  An OPEN
    message changes the capabilities later UPDATE messages are parsed with. *)

From S2P Require Import Prelude BgpException Folly BgpStructs MsgHeader ControlMsgs OpenMsg.
From S2P Require Import Nlri PathAttrs PathAttrsSerializer UpdateMsg Dispatch Capabilities.

(** [folly::Try<BgpMessageT>] *)
Inductive TryMsg :=
| TryValue (msg : BgpMessageT)
| TryException (e : Exn).

(** [buf_] is null when [None]; [parserCb_] holds a reference to
    [negotiatedCaps_] and the pending error. *)
Record FiberBgpParser := mkParser {
  buf_ : option bytes;
  negotiatedCaps_ : BgpCapabilities;
  pendingError_ : option TryMsg
}.

Definition newParser (myCaps : BgpCapabilities) : FiberBgpParser := mkParser None myCaps None.

Section Parser.
Context `{F : FollyOps}.

(** ** The callbacks: the capabilities and pending error after the call, and what
    it pushed *)
Definition parserCallback (cb : Callback) (caps : BgpCapabilities) (pending : option TryMsg)
    : BgpCapabilities * option TryMsg * list TryMsg :=
  match cb with
  | rcvdBgpOpenMsg msg =>
      (negotiateCapabilities caps (open_capabilities msg), pending, [TryValue (MOpen msg)])
  | rcvdBgpNotification msg => (caps, pending, [TryValue (MNotification msg)])
  | rcvdBgpKeepAlive => (caps, pending, [TryValue MKeepAlive])
  | rcvdBgpUpdate msg => (caps, pending, [TryValue (MUpdate msg)])
  | rcvdBgpEndOfRib msg => (caps, pending, [TryValue (MEndOfRib msg)])
  | rcvdBgpRouteRefresh msg => (caps, pending, [TryValue (MRouteRefresh msg)])
  | handleBgpException => (caps, Some (TryException BgpException), [])
  | handleBgpFsmException => (caps, Some (TryException BgpFsmException), [])
  | handleBgpHeaderException sc d => (caps, Some (TryException (BgpHeaderException sc d)), [])
  | handleBgpOpenMsgException sc d => (caps, Some (TryException (BgpOpenMsgException sc d)), [])
  | handleBgpUpdateMsgException sc d =>
      (caps, Some (TryException (BgpUpdateMsgException sc d)), [])
  | handleBgpRouteRefreshMsgException sc d =>
      (caps, Some (TryException (BgpRouteRefreshMsgException sc d)), [])
  end.

(** How the body of [processBgpMsgBuf] ended: after the loop, by the [return] of a
    header error, or by an exception of [parseBgpMessage]. *)
Inductive LoopExit := LoopDone | HeaderReturn | Thrown (e : Exn) | LoopNoFuel.

(** [while (cur.length() >= kBgpMsgHeaderLen)]; an iteration removes at least the
    19 bytes of a header. *)
Fixpoint parseLoop (fuel : nat) (buf : bytes) (caps : BgpCapabilities) (pending : option TryMsg)
    : bytes * BgpCapabilities * option TryMsg * list TryMsg * LoopExit :=
  if blen buf <? kBgpMsgHeaderLen then (buf, caps, pending, [], LoopDone)
  else
  match fuel with
  | O => (buf, caps, pending, [], LoopNoFuel)
  | S fuel =>
      match parseBgpMsgHdr buf None with
      | Throw e => (buf, caps, pending, [TryException e], HeaderReturn)
      | NoFuel => (buf, caps, pending, [], LoopNoFuel)
      | Ok msgHdr =>
          if blen buf <? hdr_length msgHdr then (buf, caps, pending, [], LoopDone)
          else
          match parseBgpMessage buf (Some caps) with
          | Throw e => (buf, caps, pending, [], Thrown e)
          | NoFuel => (buf, caps, pending, [], LoopNoFuel)
          | Ok cb =>
              let '(caps, pending, pushed) := parserCallback cb caps pending in
              (* takePendingError *)
              let pushed := pushed ++ option_list pending in
              let buf := drop (Z.to_nat (hdr_length msgHdr)) buf in
              let '(buf, caps, pending, more, exit) := parseLoop fuel buf caps None in
              (buf, caps, pending, pushed ++ more, exit)
          end
      end
  end.

(** The parser after the call, what was pushed to the queue, and the exception
    that left the function, if any. *)
Definition processBgpMsgBuf (p : FiberBgpParser) (chunk : bytes)
    : FiberBgpParser * list TryMsg * LoopExit :=
  let buf := default [] (buf_ p) ++ chunk in
  let '(buf, caps, pending, pushed, exit) :=
    parseLoop (length buf) buf (negotiatedCaps_ p) (pendingError_ p) in
  let buf := match exit with
             | LoopDone => if bool_decide (buf = []) then None else Some buf
             | _ => Some buf
             end in
  (mkParser buf caps pending, pushed, exit).

(** Successive reads from the socket; the reader stops at the first exception
    that leaves [processBgpMsgBuf]. *)
Fixpoint processChunks (p : FiberBgpParser) (chunks : list bytes)
    : FiberBgpParser * list TryMsg * LoopExit :=
  match chunks with
  | [] => (p, [], LoopDone)
  | c :: chunks =>
      let '(p, pushed, exit) := processBgpMsgBuf p c in
      match exit with
      | Thrown _ | LoopNoFuel => (p, pushed, exit)
      | _ => let '(p, more, exit) := processChunks p chunks in (p, pushed ++ more, exit)
      end
  end.

(** ** Locality: a parser reads no byte past its message *)
Context {L : FollyLaws F}.

(** [m] is one message: a header whose length field counts exactly its bytes. *)
Definition framed (m : bytes) : Prop :=
  exists h, parseBgpMsgHdr m None = Ok h /\ hdr_length h = blen m.

Definition message_type (m : bytes) : Z :=
  match parseBgpMsgHdr m None with Ok h => hdr_type h | _ => 0 end.

Lemma parseBgpMsgHdr_app m rest mt : (19 <= length m)%nat ->
  parseBgpMsgHdr (m ++ rest) mt = parseBgpMsgHdr m mt.
Proof.
  intros Hl. destruct (header_fields m Hl) as (mk & lb & tb & r & -> & Hm & Hlb & _).
  rewrite <- !app_assoc. cbn [app]. by rewrite !parseBgpMsgHdr_fields.
Qed.

Lemma framed_length m : framed m -> (19 <= length m)%nat.
Proof. intros (h & Hp & _). apply parseBgpMsgHdr_Ok_inv in Hp. lia. Qed.

Lemma framed_header m rest : framed m ->
  parseBgpMsgHdr (m ++ rest) None = Ok (mkHeader (blen m) (message_type m)).
Proof.
  intros Hf. rewrite parseBgpMsgHdr_app by by apply framed_length.
  unfold message_type. destruct Hf as (h & -> & <-). by destruct h.
Qed.

Lemma consume_framed m rest mt : framed m ->
  consumeBgpMsgHdr (m ++ rest) mt =
    let* '(h, cur) := consumeBgpMsgHdr m mt in Ok (h, cur ++ rest).
Proof.
  intros Hf. pose proof (framed_length m Hf) as Hl. unfold consumeBgpMsgHdr.
  rewrite parseBgpMsgHdr_app by done. unfold kBgpMsgHeaderLen.
  destruct (parseBgpMsgHdr m mt) as [h|e|] eqn:E; [|done|done]. cbn [rbind].
  rewrite !cursor_skip_ok by len. cbn [rbind]. rewrite drop_app_le by lia.
  assert (hdr_length h = blen m) as ->.
  { destruct Hf as (h' & Hp & <-). revert E Hp.
    destruct (header_fields m Hl) as (mk & lb & tb & r & -> & Hm & Hlb & _).
    rewrite !parseBgpMsgHdr_fields by done. cbv zeta. repeat case_match; naive_solver. }
  rewrite length_app. destruct (Z.ltb_spec (blen m + blen rest)%Z (blen m)); [lia|].
  destruct (Z.ltb_spec (Z.of_nat (length m + length rest)) (blen m)); [lia|].
  by destruct (Z.ltb_spec (blen m) (blen m)); [lia|].
Qed.

Lemma consume_framed_inv m mt h cur : framed m -> consumeBgpMsgHdr m mt = Ok (h, cur) ->
  hdr_length h = blen m /\ length cur = (length m - 19)%nat.
Proof.
  intros Hf Hc. pose proof (consumeBgpMsgHdr_Ok_inv _ _ _ _ Hc) as (_ & Hl & Hcur & _).
  split; [|lia]. unfold consumeBgpMsgHdr in Hc. inv_ok Hc.
  destruct Hf as (h' & Hp & <-). pose proof (parseBgpMsgHdr_Ok_inv _ _ _ Hstep) as [Hm _].
  destruct (header_fields m ltac:(lia)) as (mk & lb & tb & r & -> & Hlm & Hlb & _).
  rewrite !parseBgpMsgHdr_fields in * by done. cbv zeta in *.
  repeat case_match; naive_solver.
Qed.

Lemma readBE_app n cur rest v cur' :
  readBE n cur = Ok (v, cur') -> readBE n (cur ++ rest) = Ok (v, cur' ++ rest).
Proof.
  intros (bs & -> & Hl & ->)%readBE_Ok_inv. unfold readBE.
  by rewrite <- app_assoc, pull_app.
Qed.

Lemma read_u8_app cur rest v cur' :
  read_u8 cur = Ok (v, cur') -> read_u8 (cur ++ rest) = Ok (v, cur' ++ rest).
Proof. intros ->%read_u8_Ok_inv. apply read_u8_cons. Qed.

Lemma update_local m rest capa : framed m ->
  parseBgpUpdateRaw (m ++ rest) capa = parseBgpUpdateRaw m capa.
Proof.
  intros Hf. unfold parseBgpUpdateRaw. rewrite consume_framed by done.
  destruct (consumeBgpMsgHdr m _) as [[h cur]|e|] eqn:E; [|done|done]. cbn [rbind].
  apply consume_framed_inv in E as [Hh Hc]; [|done]. rewrite Hh.
  replace (Z.to_nat (blen m - kBgpMsgHeaderLen)) with (length cur)
    by (unfold kBgpMsgHeaderLen; lia).
  rewrite !cursor_bound_ok by len. by rewrite take_app_length, take_ge by lia.
Qed.

Lemma keepalive_local m rest : framed m ->
  parseBgpKeepAliveRaw (m ++ rest) = parseBgpKeepAliveRaw m.
Proof.
  intros Hf. unfold parseBgpKeepAliveRaw. rewrite consume_framed by done.
  by destruct (consumeBgpMsgHdr m _) as [[h cur]|e|].
Qed.

Lemma route_refresh_local m rest : framed m -> (23 <= length m)%nat ->
  parseBgpRouteRefreshRaw (m ++ rest) = parseBgpRouteRefreshRaw m.
Proof.
  intros Hf Hl. unfold parseBgpRouteRefreshRaw. rewrite consume_framed by done.
  destruct (consumeBgpMsgHdr m _) as [[h cur]|e|] eqn:E; [|done|done]. cbn [rbind].
  apply consume_framed_inv in E as [_ Hc]; [|done].
  destruct (readBE 2 cur) as [[afi c1]|e|] eqn:E1;
    [|rewrite readBE_case in E1; case_decide; [done|lia]..].
  rewrite (readBE_app _ _ rest _ _ E1). cbn [rbind].
  apply readBE_Ok_inv in E1 as (bs & -> & Hbs & _). rewrite length_app in Hc.
  destruct c1 as [|x [|y c1]]; [simpl in Hc; lia..|]. cbn [app].
  rewrite !read_u8_cons. cbn [rbind]. by rewrite !read_u8_cons.
Qed.

Lemma open_local m rest msg : framed m -> parseBgpOpenMsgRaw m = Ok msg ->
  parseBgpOpenMsgRaw (m ++ rest) = Ok msg.
Proof.
  intros Hf. unfold parseBgpOpenMsgRaw. rewrite consume_framed by done.
  destruct (consumeBgpMsgHdr m _) as [[h cur]|e|] eqn:E; [|done|done]. cbn [rbind].
  case_match; [done|]. intros Hp. apply rbind_Ok_inv in Hp as ([v c1] & E1 & Hp).
  rewrite (read_u8_app _ rest _ _ E1). cbn [rbind]. cbv zeta in *. case_match; [done|].
  apply rbind_Ok_inv in Hp as ([asn c2] & E2 & Hp). rewrite (readBE_app _ _ rest _ _ E2).
  cbn [rbind]. apply rbind_Ok_inv in Hp as ([ht c3] & E3 & Hp).
  rewrite (readBE_app _ _ rest _ _ E3). cbn [rbind]. case_match; [done|].
  apply rbind_Ok_inv in Hp as ([bid c4] & E4 & Hp). rewrite (readBE_app _ _ rest _ _ E4).
  cbn [rbind]. apply rbind_Ok_inv in Hp as ([pl c5] & E5 & Hp).
  rewrite (read_u8_app _ rest _ _ E5). cbn [rbind].
  destruct (Z.ltb_spec (blen c5) pl); [done|].
  destruct (Z.ltb_spec (blen (c5 ++ rest)) pl); [rewrite length_app in *; lia|].
  rewrite wrap_buffer_ok in * by len. by rewrite take_app_le by lia.
Qed.

(** The messages whose parser stops where they end: every message but a
    NOTIFICATION, a ROUTE-REFRESH without its four octets and an OPEN the parser
    rejects. *)
Definition bounded_message (m : bytes) : Prop :=
  framed m /\ wf_bytes m /\
  (message_type m = BGP_MSG_TYPE_OPEN -> exists msg, parseBgpOpenMsgRaw m = Ok msg) /\
  (message_type m = BGP_MSG_TYPE_ROUTE_REFRESH -> (23 <= length m)%nat) /\
  message_type m <> BGP_MSG_TYPE_NOTIFICATION.

Lemma bounded_message_local m rest caps : bounded_message m ->
  parseBgpMessage (m ++ rest) caps = parseBgpMessage m caps.
Proof.
  intros (Hf & _ & Ho & Hr & Hn). unfold parseBgpMessage. f_equal. unfold dispatchMessage.
  rewrite framed_header by done. rewrite <- (app_nil_r m) at 3. rewrite framed_header by done.
  cbn [rbind hdr_type]. cbv zeta.
  destruct (Z.eqb_spec (message_type m) BGP_MSG_TYPE_OPEN) as [E|_].
  { destruct (Ho E) as (msg & Hm). by rewrite (open_local m rest msg), Hm. }
  destruct (_ =? BGP_MSG_TYPE_UPDATE); [destruct caps; [by rewrite update_local|done]|].
  destruct (Z.eqb_spec (message_type m) BGP_MSG_TYPE_NOTIFICATION); [done|].
  destruct (_ =? BGP_MSG_TYPE_KEEPALIVE); [by rewrite keepalive_local|].
  destruct (Z.eqb_spec (message_type m) BGP_MSG_TYPE_ROUTE_REFRESH) as [E|_]; [|done].
  by rewrite route_refresh_local by auto.
Qed.

(** ** What a stream of messages delivers *)

(** The messages parsed one by one, each from its own bytes. *)
Fixpoint deliverMessages (caps : BgpCapabilities) (ms : list bytes)
    : BgpCapabilities * list TryMsg :=
  match ms with
  | [] => (caps, [])
  | m :: ms =>
      match parseBgpMessage m (Some caps) with
      | Ok cb =>
          let '(caps, pending, pushed) := parserCallback cb caps None in
          let '(caps, more) := deliverMessages caps ms in
          (caps, pushed ++ option_list pending ++ more)
      | _ => (caps, [])
      end
  end.

Lemma bounded_message_parses m caps : bounded_message m ->
  exists cb, parseBgpMessage m caps = Ok cb.
Proof.
  intros Hb. rewrite <- (bounded_message_local m [0; 0; 0; 0]) by done.
  destruct Hb as (Hf & Hwf & _). apply framed_length in Hf.
  unfold parseBgpMessage.
  destruct (dispatchMessage_result (m ++ [0; 0; 0; 0]) caps)
    as [(cb & ->)|[(e & -> & He)|(_ & _ & Hl)]].
  - apply Forall_app. split; [done|]. repeat constructor; lia.
  - by exists cb.
  - by apply handleException_caught.
  - exfalso. revert Hl. unfold kBgpMsgHeaderLen. rewrite length_app. simpl. lia.
Qed.

Lemma notification_parses m caps : framed m ->
  message_type m = BGP_MSG_TYPE_NOTIFICATION -> exists cb, parseBgpMessage m caps = Ok cb.
Proof.
  intros Hf Ht. unfold parseBgpMessage, dispatchMessage.
  pose proof (framed_header m [] Hf) as Hh. rewrite app_nil_r in Hh. rewrite Hh, Ht.
  cbn [rbind hdr_type Z.eqb BGP_MSG_TYPE_NOTIFICATION BGP_MSG_TYPE_OPEN BGP_MSG_TYPE_UPDATE Pos.eqb].
  destruct (parseBgpNotificationRaw_result m) as [(n & ->)|[(sc & d & ->)| ->]]; cbn [rbind rcatch];
    [by eauto|by apply handleException_caught..].
Qed.

(** Bytes that do not complete a message. *)
Definition incomplete (t : bytes) : Prop :=
  (length t < 19)%nat \/ exists h, parseBgpMsgHdr t None = Ok h /\ blen t < hdr_length h.

Lemma incomplete_prefix x y : incomplete (x ++ y) -> incomplete x.
Proof.
  intros [Hl|(h & Hp & Hl)]; rewrite length_app in Hl; [left; lia|].
  destruct (decide (19 <= length x)%nat) as [Hx|Hx]; [|left; lia].
  right. exists h. rewrite parseBgpMsgHdr_app in Hp by done. split; [done|lia].
Qed.

Lemma parseLoop_incomplete fuel t caps : incomplete t -> (length t <= fuel)%nat ->
  parseLoop fuel t caps None = (t, caps, None, [], LoopDone).
Proof.
  intros Hi Hf. destruct fuel as [|fuel]; cbn [parseLoop];
    destruct (Z.ltb_spec (blen t) kBgpMsgHeaderLen) as [|Hl]; try done;
    unfold kBgpMsgHeaderLen in Hl; [lia|].
  destruct Hi as [|(h & -> & Hh)]; [lia|]. by destruct (Z.ltb_spec (blen t) (hdr_length h)); [|lia].
Qed.

(** Streams of messages whose parsers stop where the messages end, and of part of
    another one; a NOTIFICATION may end the stream, as it ends the session. *)
Inductive readable : list bytes -> bytes -> Prop :=
| readable_tail t : incomplete t -> readable [] t
| readable_cons m ms t : bounded_message m -> readable ms t -> readable (m :: ms) t
| readable_last m : framed m -> message_type m = BGP_MSG_TYPE_NOTIFICATION -> readable [m] [].

(** A message of a readable stream is framed and parsed from its own bytes, and
    the rest of the stream is readable. *)
Lemma readable_message m ms t : readable (m :: ms) t ->
  framed m /\ readable ms t /\
  forall caps, (exists cb, parseBgpMessage m caps = Ok cb) /\
    parseBgpMessage (m ++ concat ms ++ t) caps = parseBgpMessage m caps.
Proof.
  intros H. inversion H as [|? ? ? Hm Hr|? Hf Ht]; subst.
  - split; [apply Hm|]. split; [done|]. intros caps. split; [by apply bounded_message_parses|].
    by apply bounded_message_local.
  - split; [done|]. split; [by constructor; left; simpl; lia|]. intros caps.
    split; [by apply notification_parses|]. by rewrite app_nil_r.
Qed.

Lemma parseLoop_messages ms : forall tail, readable ms tail ->
  forall fuel caps, (length (concat ms ++ tail) <= fuel)%nat ->
  parseLoop fuel (concat ms ++ tail) caps None =
    let '(caps, out) := deliverMessages caps ms in (tail, caps, None, out, LoopDone).
Proof.
  induction ms as [|m ms IH]; intros tail Hr fuel caps Hfuel.
  { inversion Hr; subst. by apply parseLoop_incomplete. }
  destruct (readable_message _ _ _ Hr) as (Hf & Hr' & Hp). destruct (Hp (Some caps)) as [(cb & Ecb) Eloc].
  cbn [concat deliverMessages] in *. rewrite <- app_assoc in *.
  pose proof (framed_length m Hf) as Hl.
  destruct fuel as [|fuel]; [rewrite length_app in Hfuel; lia|]. cbn [parseLoop].
  rewrite framed_header, Eloc, Ecb by done. cbn [hdr_length].
  destruct (Z.ltb_spec (blen (m ++ concat ms ++ tail)) kBgpMsgHeaderLen) as [H|_];
    [unfold kBgpMsgHeaderLen in H; rewrite length_app in H; lia|].
  destruct (Z.ltb_spec (blen (m ++ concat ms ++ tail)) (blen m)) as [H|_];
    [rewrite length_app in H; lia|].
  destruct (parserCallback cb caps None) as [[caps' pending] pushed].
  rewrite Nat2Z.id, drop_app_length, IH by (done || (rewrite length_app in Hfuel; lia)).
  destruct (deliverMessages caps' ms) as [caps'' more]. by rewrite app_assoc.
Qed.

Lemma app_split_le (x y m z : bytes) : x ++ y = m ++ z -> (length m <= length x)%nat ->
  exists k, x = m ++ k /\ k ++ y = z.
Proof.
  intros E Hl. exists (drop (length m) x).
  assert (Hm : take (length m) x = m).
  { rewrite <- (take_app_le x y) by done. rewrite E. apply take_app_length. }
  rewrite <- Hm at 1. rewrite take_drop. split; [done|].
  by rewrite <- drop_app_le, E, drop_app_length by done.
Qed.

(** Where a read ends: after some messages and part of another one. *)
Lemma stream_prefix ms : forall tail x y, readable ms tail -> x ++ y = concat ms ++ tail ->
  exists ms1 ms2 t, ms = ms1 ++ ms2 /\ x = concat ms1 ++ t /\ incomplete t /\ readable ms1 t /\
    readable ms2 tail /\ t ++ y = concat ms2 ++ tail.
Proof.
  induction ms as [|m ms IH]; cbn [concat]; intros tail x y Hr E.
  { inversion Hr; subst. assert (incomplete x) by (apply (incomplete_prefix x y); by rewrite E).
    exists [], [], x. split_and!; try done. by constructor. }
  destruct (readable_message _ _ _ Hr) as (Hf & Hr' & _).
  rewrite <- app_assoc in E. destruct (decide (length m <= length x)%nat) as [Hl|Hl].
  - destruct (app_split_le _ _ _ _ E Hl) as (k & -> & Ek).
    destruct (IH tail k y Hr' Ek) as (ms1 & ms2 & t & -> & -> & Hi & Hr1 & Hr2 & E').
    exists (m :: ms1), ms2, t. split_and!; [done|cbn [concat]; by rewrite app_assoc|done| |done|done].
    inversion Hr as [|? ? ? Hm _|? Hfm Ht]; subst; [by constructor|].
    match goal with H : [] = _ ++ _ |- _ => symmetry in H; apply app_nil in H as [-> ->] end. simpl in E'. apply app_nil in E' as [-> ->].
    by constructor.
  - destruct (app_split_le _ _ _ _ (eq_sym E)) as (k & -> & Ek); [lia|].
    assert (Hi : incomplete x).
    { destruct (decide (19 <= length x)%nat); [|left; lia]. right.
      destruct Hf as (h & Hp & Hh). rewrite parseBgpMsgHdr_app in Hp by done.
      exists h. split; [done|]. rewrite length_app in *. lia. }
    exists [], ((x ++ k) :: ms), x.
    split_and!; [done|done|done|by constructor|done|cbn [concat]; by rewrite <- app_assoc].
Qed.

Lemma deliverMessages_app ms1 ms2 t : readable ms1 t -> forall caps,
  deliverMessages caps (ms1 ++ ms2) =
    let '(caps, out1) := deliverMessages caps ms1 in
    let '(caps, out2) := deliverMessages caps ms2 in (caps, out1 ++ out2).
Proof.
  induction ms1 as [|m ms IH]; intros Hr caps; cbn [app deliverMessages].
  { by destruct (deliverMessages caps ms2). }
  destruct (readable_message _ _ _ Hr) as (_ & Hr' & Hp). destruct (Hp (Some caps)) as [(cb & ->) _].
  destruct (parserCallback cb caps None) as [[caps' pending] pushed]. rewrite IH by done.
  destruct (deliverMessages caps' ms) as [c1 o1], (deliverMessages c1 ms2) as [c2 o2].
  by rewrite !app_assoc.
Qed.

Definition keep (t : bytes) : option bytes := if bool_decide (t = []) then None else Some t.

Lemma default_keep t : default [] (keep t) = t.
Proof. unfold keep. by case_bool_decide; subst. Qed.

Lemma processChunks_stream chunks : forall t caps ms tail,
  readable ms tail -> t ++ concat chunks = concat ms ++ tail -> incomplete t ->
  processChunks (mkParser (keep t) caps None) chunks =
    let '(caps, out) := deliverMessages caps ms in
    (mkParser (keep tail) caps None, out, LoopDone).
Proof.
  induction chunks as [|c chunks IH]; intros t caps ms tail Hr E Hi; cbn [processChunks concat] in *.
  { rewrite app_nil_r in E.
    assert (ms = [] /\ t = tail) as [-> ->].
    { destruct ms as [|m ms]; [done|]. exfalso. destruct (readable_message _ _ _ Hr) as (Hf & _ & _).
      cbn [concat] in E. rewrite <- app_assoc in E. subst t.
      apply incomplete_prefix in Hi. pose proof (framed_length m Hf). destruct Hf as (h & Hp & Hh).
      destruct Hi as [|(h' & Hp' & Hl)]; [lia|].
      rewrite Hp in Hp'. simplify_eq. lia. }
    done. }
  unfold processBgpMsgBuf. cbn [buf_ negotiatedCaps_ pendingError_]. rewrite default_keep.
  rewrite app_assoc in E.
  destruct (stream_prefix ms tail (t ++ c) (concat chunks) Hr E)
    as (ms1 & ms2 & t1 & -> & -> & Hi1 & Hr1 & Hr2 & E1).
  rewrite parseLoop_messages by done. rewrite (deliverMessages_app ms1 ms2 t1 Hr1).
  destruct (deliverMessages caps ms1) as [caps1 out1].
  change (if bool_decide (t1 = []) then None else Some t1) with (keep t1).
  rewrite (IH t1 caps1 ms2 tail) by done.
  by destruct (deliverMessages caps1 ms2).
Qed.
End Parser.

(** C32. Chunking, for a stream that the receiver can take apart: well-framed
    messages one after the other, part of another at the end, where every OPEN
    is one the parser accepts, every ROUTE-REFRESH has its four octets, and a
    NOTIFICATION comes last and ends the stream (UPDATEs and messages of unknown
    types may be malformed).  However such a stream is cut into reads, the parser
    delivers the same messages and errors in the same order, each parsed from its
    own bytes alone and with the capabilities negotiated by the OPEN before it,
    and it keeps exactly the bytes of the incomplete message. *)
Theorem chunking_irrelevant `{F : FollyOps} `{L : !FollyLaws F} caps chunks ms tail :
  readable ms tail -> concat chunks = concat ms ++ tail ->
  processChunks (newParser caps) chunks =
    let '(caps', out) := deliverMessages caps ms in
    (mkParser (if bool_decide (tail = []) then None else Some tail) caps' None, out, LoopDone).
Proof.
  intros Hr E. change (newParser caps) with (mkParser (keep []) caps None).
  apply processChunks_stream; [done..|]. left. simpl. lia.
Qed.

Definition sample_keepalive : bytes := message_bytes BGP_MSG_TYPE_KEEPALIVE [].

Lemma sample_keepalive_bounded : bounded_message sample_keepalive.
Proof.
  split; [exists (mkHeader 19 4); by vm_compute|]. split_and!; try by vm_compute.
  apply (bool_decide_unpack _). by vm_compute.
Qed.

Definition sample_cease : bytes := message_bytes BGP_MSG_TYPE_NOTIFICATION [6; 4].

(** Two KEEPALIVEs and a NOTIFICATION in three reads, the first two of which end
    within a message. *)
Lemma chunking_irrelevant_witness :
  exists n, processChunks (newParser defaultCapabilities)
    [take 5 sample_keepalive; drop 5 sample_keepalive ++ sample_keepalive ++ take 20 sample_cease;
     drop 20 sample_cease] =
  (mkParser None defaultCapabilities None,
   [TryValue MKeepAlive; TryValue MKeepAlive; TryValue (MNotification n)], LoopDone) /\
  notif_errCode n = BN_CEASE /\ notif_errSubCode n = 4 /\ notif_data n = [].
Proof.
  eexists. split.
  - rewrite (chunking_irrelevant defaultCapabilities
      [take 5 sample_keepalive; drop 5 sample_keepalive ++ sample_keepalive ++ take 20 sample_cease;
       drop 20 sample_cease]
      [sample_keepalive; sample_keepalive; sample_cease] []).
    + vm_compute. reflexivity.
    + do 2 (apply readable_cons; [exact sample_keepalive_bounded|]).
      apply readable_last; [exists (mkHeader 21 3)|]; by vm_compute.
    + vm_compute. reflexivity.
  - vm_compute. split_and!; reflexivity.
Defined.

(** A NOTIFICATION takes every byte that follows it in the buffer as data. *)
Lemma notification_reads_past_its_end `{F : FollyOps} `{L : !FollyLaws F} n caps rest :
  valid_notification n -> blen (notif_data n) <= kMaxBgpMsgLen - 21 ->
  parseBgpMessage (message_bytes BGP_MSG_TYPE_NOTIFICATION (notification_body n) ++ rest) caps =
    Ok (rcvdBgpNotification
          (mkNotification (notif_errCode n) (notif_errSubCode n) (notif_errSubCodeStr n)
             (notif_data n ++ rest))).
Proof.
  intros Hv Hl. unfold kMaxBgpMsgLen in Hl.
  assert (Hb : blen (notification_body n) = 2 + blen (notif_data n))
    by (unfold notification_body; len).
  unfold parseBgpMessage, dispatchMessage, parseBgpNotificationRaw.
  rewrite parse_message_bytes, consume_message_bytes
    by first [done | by left | by right | unfold kBgpMsgHeaderLen, kMaxBgpMsgLen; lia].
  cbn [rbind hdr_type hdr_length Z.eqb BGP_MSG_TYPE_NOTIFICATION BGP_MSG_TYPE_OPEN
       BGP_MSG_TYPE_UPDATE Pos.eqb].
  destruct (Z.ltb_spec (kBgpMsgHeaderLen + blen (notification_body n)) (kBgpMsgHeaderLen + 2));
    [lia|].
  set (n' := mkNotification _ _ _ (notif_data n ++ rest)).
  assert (Hn : notification_body n ++ rest = notification_body n').
  { unfold notification_body. by rewrite <- !app_assoc. }
  rewrite Hn, consumeBgpNotificationBody_body; [done|]. by destruct Hv.
Qed.
