(* ===== verification/BgpPeer.v ===== *)
(** * The session of one peer

    [FiberBgpPeer] (lib/fibers/FiberBgpPeer.h and .cpp): the finite state machine
    of a BGP session together with the loops that feed it, each loop a task that
    blocks on a queue.  A step of the model is one turn of one of them: a read
    from the socket, a message taken by the ingress loop, a message moved by the
    egress loop or written by the send loop, a timer, a call of [stop], or [run]
    waking up on the error queue.  The queues are unbounded ([sendQueue_] and
    [iqueue_], that is without egress back-pressure); a blocked push of the
    bounded ones is a step that happens later.  Wall-clock stamps and the
    statistics of blocked queues are left out. *)

From S2P Require Import Prelude BgpException Folly BgpStructs MsgHeader ControlMsgs OpenMsg.
From S2P Require Import Nlri PathAttrs PathAttrsSerializer UpdateMsg UpdateSerializer Dispatch.
From S2P Require Import Capabilities FiberBgpParser GroupPdu.

Inductive BgpSessionState := IDLE | ACTIVE | CONNECT | OPEN_SENT | OPEN_CONFIRM | ESTABLISHED.

Inductive ResetReason :=
| OPEN_MSG_TIMER_EXPIRE | HOLD_TIMER_EXPIRE | SOCKET_ERR | PARSE_ERR | SESSION_ERR
| NOTIFICATION_RCVD | MANUAL_STOP.

#[global] Instance BgpSessionState_eq_dec : EqDecision BgpSessionState.
Proof. solve_decision. Defined.
#[global] Instance ResetReason_eq_dec : EqDecision ResetReason.
Proof. solve_decision. Defined.

(** ** The state *)

Record SocketMessageCounters := mkCounters {
  c_open : Z; c_update : Z; c_keepAlive : Z; c_notification : Z; c_routeRefresh : Z;
  c_endOfRib : Z
}.

(** Times are in seconds. *)
Record PeeringState := mkPeeringState {
  state : BgpSessionState;
  remoteBgpId : Z;
  ps_remoteAs : Z;
  ps_holdTime : Z;
  keepAliveTime : Z;
  remoteHoldTime : Z;
  remoteCapabilities : BgpCapabilities;
  negotiatedCapabilities : BgpCapabilities;
  resetReason : option ResetReason;
  peerDelete : bool;
  txMsgs : SocketMessageCounters;
  rxMsgs : SocketMessageCounters;
  lastNotificationSent : option BgpNotification;
  lastNotificationReceived : option BgpNotification
}.

(** The variant [BgpPeerError]; a stop carries the graceful restart flag and
    [peerDelete]. *)
Inductive BgpPeerError :=
| BgpOpenMsgTimerExpired
| BgpHoldTimerExpired
| BgpSocketError (err : string)
| BgpParserError
| BgpSessionError
| BgpNotificationError (notifyMsg : BgpNotification)
| BgpSessionStop (gracefulRestart peerDelete : bool).

(** [ObservableStateT] without the version number and the session info, which the
    peer leaves at their defaults. *)
Record ObservableStateT := mkObservable {
  os_remoteBgpId : Z; os_state : BgpSessionState; os_remoteAs : Z; os_peerDelete : bool
}.

(** What the Adj-RIB-In and the observers receive. *)
Inductive OutputMessageT :=
| OutUpdate (msg : BgpUpdate2)
| OutEndOfRib (msg : BgpEndOfRib)
| OutRouteRefresh (msg : BgpRouteRefresh)
| OutSessionStop (gracefulRestart : bool).

(** [InputMessageT], what the Adj-RIB-Out sends. *)
Inductive InputMessageT :=
| InUpdate (msg : BgpUpdate2)
| InDescriptor (desc : UpdateDescriptor)
| InEndOfRib (msg : BgpEndOfRib)
| InRouteRefresh (msg : BgpRouteRefresh)
| InNotification (msg : BgpNotification).

(** A timer does not exist ([None]), or does and will fire after that many
    milliseconds; the hold timer may also exist without being scheduled.
    [openMsgTimer_]: scheduled or not. *)
Record Timers := mkTimers {
  openMsgTimer_ : bool;
  holdTimer_ : option (option Z);
  keepAliveTimer_ : option Z;
  gracePeriod_ : Z;
  keepAliveJitter_ : Z
}.

(** [None] in a queue is the null that ends its consumer. *)
Record Queues := mkQueues {
  rcvdQueue_ : list (option TryMsg);
  rcvdClosed : bool;
  sendQueue_ : list (option BgpMessageT);
  sendClosed : bool;
  errorQueue_ : list BgpPeerError;
  observerStateQueue_ : list (option ObservableStateT);
  observerRcvdMessageQueue_ : list (option OutputMessageT);
  oqueue_ : option (list OutputMessageT);
  oqueueClosed : bool;
  iqueue_ : list (option InputMessageT)
}.

(** [run_done]: [run] is past the error that ended the session.  [alive] is false
    once an exception left a [noexcept] loop and ended the process. *)
Record FiberBgpPeer := mkPeer {
  peeringState_ : PeeringState;
  timers : Timers;
  queues : Queues;
  msgParser_ : FiberBgpParser;
  grNotification_ : bool;
  socketClosed_ : bool;
  reading : bool;
  sending : bool;
  egress : bool;
  run_done : option bool;
  alive : bool
}.

(** ** Updates of one field *)
Definition upd_ps (f : PeeringState -> PeeringState) (p : FiberBgpPeer) : FiberBgpPeer :=
  let '(mkPeer ps t q m g sc r s e d a) := p in mkPeer (f ps) t q m g sc r s e d a.
Definition upd_timers (f : Timers -> Timers) (p : FiberBgpPeer) : FiberBgpPeer :=
  let '(mkPeer ps t q m g sc r s e d a) := p in mkPeer ps (f t) q m g sc r s e d a.
Definition upd_queues (f : Queues -> Queues) (p : FiberBgpPeer) : FiberBgpPeer :=
  let '(mkPeer ps t q m g sc r s e d a) := p in mkPeer ps t (f q) m g sc r s e d a.
Definition set_parser (m' : FiberBgpParser) (p : FiberBgpPeer) : FiberBgpPeer :=
  let '(mkPeer ps t q m g sc r s e d a) := p in mkPeer ps t q m' g sc r s e d a.
Definition set_grNotification (g' : bool) (p : FiberBgpPeer) : FiberBgpPeer :=
  let '(mkPeer ps t q m g sc r s e d a) := p in mkPeer ps t q m g' sc r s e d a.
Definition set_reading (r' : bool) (p : FiberBgpPeer) : FiberBgpPeer :=
  let '(mkPeer ps t q m g sc r s e d a) := p in mkPeer ps t q m g sc r' s e d a.
Definition set_egress (e' : bool) (p : FiberBgpPeer) : FiberBgpPeer :=
  let '(mkPeer ps t q m g sc r s e d a) := p in mkPeer ps t q m g sc r s e' d a.
Definition set_crashed (p : FiberBgpPeer) : FiberBgpPeer :=
  let '(mkPeer ps t q m g sc r s e d a) := p in mkPeer ps t q m g sc r s e d false.
Definition set_run_done (gr : bool) (p : FiberBgpPeer) : FiberBgpPeer :=
  let '(mkPeer ps t q m g sc r s e d a) := p in mkPeer ps t q m g sc r s e (Some gr) a.

Definition set_sessionState (s' : BgpSessionState) (ps : PeeringState) : PeeringState :=
  let '(mkPeeringState s id asn ht ka rht rc nc rr pd tx rx ns nr) := ps in
  mkPeeringState s' id asn ht ka rht rc nc rr pd tx rx ns nr.
Definition set_resetReason (r : ResetReason) (ps : PeeringState) : PeeringState :=
  let '(mkPeeringState s id asn ht ka rht rc nc rr pd tx rx ns nr) := ps in
  mkPeeringState s id asn ht ka rht rc nc (Some r) pd tx rx ns nr.
Definition set_peerDelete (b : bool) (ps : PeeringState) : PeeringState :=
  let '(mkPeeringState s id asn ht ka rht rc nc rr pd tx rx ns nr) := ps in
  mkPeeringState s id asn ht ka rht rc nc rr b tx rx ns nr.
Definition set_txMsgs (c : SocketMessageCounters) (ps : PeeringState) : PeeringState :=
  let '(mkPeeringState s id asn ht ka rht rc nc rr pd tx rx ns nr) := ps in
  mkPeeringState s id asn ht ka rht rc nc rr pd c rx ns nr.
Definition set_rxMsgs (c : SocketMessageCounters) (ps : PeeringState) : PeeringState :=
  let '(mkPeeringState s id asn ht ka rht rc nc rr pd tx rx ns nr) := ps in
  mkPeeringState s id asn ht ka rht rc nc rr pd tx c ns nr.
Definition set_lastNotificationSent (n : BgpNotification) (ps : PeeringState) : PeeringState :=
  let '(mkPeeringState s id asn ht ka rht rc nc rr pd tx rx ns nr) := ps in
  mkPeeringState s id asn ht ka rht rc nc rr pd tx rx (Some n) nr.
Definition set_lastNotificationReceived (n : BgpNotification) (ps : PeeringState)
    : PeeringState :=
  let '(mkPeeringState s id asn ht ka rht rc nc rr pd tx rx ns nr) := ps in
  mkPeeringState s id asn ht ka rht rc nc rr pd tx rx ns (Some n).

(** ** Puts *)

Definition pushRcvd (l : list (option TryMsg)) (q : Queues) : Queues :=
  let '(mkQueues r rc s sc e os om o oc i) := q in
  mkQueues (if rc then r else r ++ l) rc s sc e os om o oc i.
Definition putSend (m : option BgpMessageT) (q : Queues) : Queues :=
  let '(mkQueues r rc s sc e os om o oc i) := q in
  mkQueues r rc (if sc then s else s ++ [m]) sc e os om o oc i.
Definition putError (err : BgpPeerError) (q : Queues) : Queues :=
  let '(mkQueues r rc s sc e os om o oc i) := q in mkQueues r rc s sc (e ++ [err]) os om o oc i.
Definition putState (st : option ObservableStateT) (q : Queues) : Queues :=
  let '(mkQueues r rc s sc e os om o oc i) := q in mkQueues r rc s sc e (os ++ [st]) om o oc i.
Definition putRcvdMessage (m : option OutputMessageT) (q : Queues) : Queues :=
  let '(mkQueues r rc s sc e os om o oc i) := q in mkQueues r rc s sc e os (om ++ [m]) o oc i.
(** Pushes to a closed back-pressured queue are dropped. *)
Definition pushOqueue (m : OutputMessageT) (q : Queues) : Queues :=
  let '(mkQueues r rc s sc e os om o oc i) := q in
  mkQueues r rc s sc e os om (if oc then o else option_map (fun l => l ++ [m]) o) oc i.
Definition pushIqueue (m : option InputMessageT) (q : Queues) : Queues :=
  let '(mkQueues r rc s sc e os om o oc i) := q in mkQueues r rc s sc e os om o oc (i ++ [m]).

(** ** Numbers *)

Definition BN_OM_BAD_PEER_AS_value : Z := 2.
Definition hdrSubCode_value (c : BgpNotifMsgHdrErrSubCode) : Z :=
  match c with
  | BN_MH_CONNECTION_NOT_SYNCHRONIZED => 1 | BN_MH_BAD_MSG_LEN => 2 | BN_MH_BAD_MSG_TYPE => 3
  end.
Definition openSubCode_value (c : BgpNotifOpenMsgErrSubCode) : Z :=
  match c with
  | BN_OM_UNSPECIFIC => 0 | BN_OM_UNSUPPORTED_VERSION_NUMBER => 1 | BN_OM_BAD_PEER_AS => 2
  | BN_OM_BAG_BGP_IDENTIFIER => 3 | BN_OM_UNSUPPORTED_OPTIONAL_PARAM => 4
  | BN_OM_AUTHENTICATION_FAILURE_DEPRECATED => 5 | BN_OM_UNACCEPTABLE_HOLD_TIME => 6
  | BN_OM_UNSUPPORTED_CAPABILITY => 7
  end.
Definition updateSubCode_value (c : BgpNotifUpdateMsgErrSubCode) : Z :=
  match c with
  | BN_UM_UNSPECIFIC => 0 | BN_UM_MALFORMED_ATTRIBUTE_LIST => 1
  | BN_UM_UNRECOGNIZED_WELL_KNOWN_ATTR => 2 | BN_UM_MISSING_WELL_KNOWN_ATTR => 3
  | BN_UM_ATTR_FLAGS_ERR => 4 | BN_UM_ATTR_LEN_ERR => 5 | BN_UM_INVALID_ORIGIN_ATTR => 6
  | BN_UM_DEPRECATED => 7 | BN_UM_INVALID_NEXT_HOP_ATTR => 8 | BN_UM_OPTIONAL_ATTR_ERROR => 9
  | BN_UM_INVALID_NETWORK_FIELD => 10 | BN_UM_MALFORMED_AS_PATH => 11
  end.
Definition routeRefreshSubCode_value (c : BgpNotificationRouteRefreshErrSubCode) : Z := 1.

(** [rand] is what [folly::Random::rand32] returns. *)
Definition generateJitter (timeMs jitterPercent capMs rand : Z) : Z :=
  if timeMs <=? 0 then 0
  else
  let jitterMax := Z.min capMs (timeMs * jitterPercent / 100) in
  if jitterMax <=? 0 then 0 else jitterMax - rand mod (2 * jitterMax).
Definition kDefaultJitterPercent : Z := 10.
Definition kDefaultJitterCapMs : Z := 1000.

Definition k2BytesAsnLimit : Z := 65535.
Definition kAsTrans : Z := 23456.

Definition zeroCounters : SocketMessageCounters := mkCounters 0 0 0 0 0 0.

(** [++counter] of the kind of the message; a [uint64_t]. *)
Definition countMessage (m : BgpMessageT) (c : SocketMessageCounters) : SocketMessageCounters :=
  let '(mkCounters o u k n r e) := c in
  match m with
  | MOpen _ => mkCounters (uint 64 (o + 1)) u k n r e
  | MUpdate _ | MUpdateDescriptor _ => mkCounters o (uint 64 (u + 1)) k n r e
  | MKeepAlive => mkCounters o u (uint 64 (k + 1)) n r e
  | MNotification _ => mkCounters o u k (uint 64 (n + 1)) r e
  | MRouteRefresh _ => mkCounters o u k n (uint 64 (r + 1)) e
  | MEndOfRib _ => mkCounters o u k n r (uint 64 (e + 1))
  | MSocketError _ => c
  end.

Section Peer.
Context `{F : FollyOps}.
Variable peeringParams_ : PeeringParams.
(** The capabilities we announce. *)
Variable caps_ : BgpCapabilities.

(** ** Helpers *)

Definition sendBgpMessage (m : BgpMessageT) (p : FiberBgpPeer) : FiberBgpPeer :=
  upd_queues (putSend (Some m)) p.
Definition reportError (e : BgpPeerError) (p : FiberBgpPeer) : FiberBgpPeer :=
  upd_queues (putError e) p.
Definition notifyPeer (code : BgpNotifErrCode) (sub : Z) (text : string) (data : bytes)
    (p : FiberBgpPeer) : FiberBgpPeer :=
  sendBgpMessage (MNotification (buildBgpNotification code sub (Text text) data)) p.
(** [observerStateQueue_.put({getRemoteBgpPeerId(), peeringState_.state, 0})] *)
Definition publishState (p : FiberBgpPeer) : FiberBgpPeer :=
  let ps := peeringState_ p in
  upd_queues (putState (Some (mkObservable (remoteBgpId ps) (state ps) 0 false))) p.

(** ** Timers *)

Definition resetOpenMsgTimer (t : Timers) : Timers :=
  let '(mkTimers _ h k g j) := t in mkTimers false h k g j.

Definition scheduleBgpHoldTimer (ps : PeeringState) (t : Timers) : Timers :=
  let grace := Z.min 1500 (keepAliveTime ps * (1000 / 5)) in
  let '(mkTimers o _ k _ j) := t in mkTimers o (Some (Some (ps_holdTime ps * 1000 + grace))) k grace j.

Definition resetHoldTimer (ps : PeeringState) (t : Timers) : Timers :=
  let '(mkTimers o h k g j) := t in mkTimers o (Some (Some (ps_holdTime ps * 1000 + g))) k g j.

Definition scheduleBgpKeepAliveTimer (rand : Z) (ps : PeeringState) (t : Timers) : Timers :=
  let jitter := generateJitter (keepAliveTime ps * 1000) kDefaultJitterPercent
                  kDefaultJitterCapMs rand in
  let '(mkTimers o h _ g _) := t in
  mkTimers o h (Some (keepAliveTime ps * 1000 + jitter)) g jitter.

Definition resetKeepAliveTimer (ps : PeeringState) (t : Timers) : Timers :=
  let '(mkTimers o h k g j) := t in
  mkTimers o h (match k with Some _ => Some (keepAliveTime ps * 1000 + j) | None => None end) g j.

(** ** Handlers of the ingress loop *)

Definition processOpenMsg (rand : Z) (msg : BgpOpenMsg) (p : FiberBgpPeer) : FiberBgpPeer :=
  match state (peeringState_ p) with
  | OPEN_SENT =>
      let p := upd_timers resetOpenMsgTimer p in
      let remoteAs := uint 32 (if as4byte (open_capabilities msg)
                               then capa_asn (open_capabilities msg) else open_asn msg) in
      if validateRemoteAs peeringParams_ && negb (acceptsRemoteAs peeringParams_ remoteAs) then
        reportError BgpSessionError
          (notifyPeer BN_OPEN_MSG_ERR BN_OM_BAD_PEER_AS_value "Peer has wrong ASN configured"
             (le_encode 4 remoteAs) p)
      else
      let p := sendBgpMessage MKeepAlive p in
      let holdTime := Z.min (open_holdTime msg) (holdTime peeringParams_) in
      let '(mkPeeringState s _ _ _ _ _ _ _ rr pd tx rx ns nr) := peeringState_ p in
      let ps := mkPeeringState s (uint 32 (open_bgpID msg)) remoteAs holdTime (holdTime / 3)
                  (open_holdTime msg) (open_capabilities msg)
                  (negotiateCapabilities caps_ (open_capabilities msg)) rr pd tx rx ns nr in
      let p := upd_ps (fun _ => ps) p in
      let p := if 0 <? holdTime
               then upd_timers (fun t => scheduleBgpKeepAliveTimer rand ps
                                           (scheduleBgpHoldTimer ps t)) p
               else p in
      publishState (upd_ps (set_sessionState OPEN_CONFIRM) p)
  | _ =>
      reportError BgpSessionError (notifyPeer BN_FSM_ERROR 0 "Unexpected state for OPEN" [] p)
  end.

Definition processKeepAliveMsg (p : FiberBgpPeer) : FiberBgpPeer :=
  match state (peeringState_ p) with
  | OPEN_CONFIRM =>
      let p := upd_ps (set_sessionState ESTABLISHED) p in
      publishState (set_grNotification
        (isGrNotificationNegotiated (negotiatedCapabilities (peeringState_ p))) p)
  | IDLE | ESTABLISHED => p
  | _ => reportError BgpSessionError (notifyPeer BN_FSM_ERROR 0 "Unexpected Keepalive" [] p)
  end.

(** [processBgpUpdateMsg], [processBgpEndOfRibMsg] and [processBgpRouteRefreshMsg]:
    to the Adj-RIB-In, if there is one, and to the observers, in any state. *)
Definition forwardMsg (m : OutputMessageT) (p : FiberBgpPeer) : FiberBgpPeer :=
  upd_queues (fun q => putRcvdMessage (Some m) (pushOqueue m q)) p.
Definition processBgpUpdateMsg (msg : BgpUpdate2) := forwardMsg (OutUpdate msg).
Definition processBgpEndOfRibMsg (msg : BgpEndOfRib) := forwardMsg (OutEndOfRib msg).
Definition processBgpRouteRefreshMsg (msg : BgpRouteRefresh) := forwardMsg (OutRouteRefresh msg).

Definition processBgpNotificationMsg (msg : BgpNotification) (p : FiberBgpPeer) : FiberBgpPeer :=
  match state (peeringState_ p) with
  | IDLE => p
  | _ => reportError (BgpNotificationError msg) (publishState (upd_ps (set_sessionState IDLE) p))
  end.

Definition processBgpSocketErrorMsg (err : string) (p : FiberBgpPeer) : FiberBgpPeer :=
  reportError (BgpSocketError err) p.

(** [ex.handle]: the first clause whose type fits; other exceptions are not
    answered. *)
Definition makeNotificationFromException (ex : Exn) (p : FiberBgpPeer) : FiberBgpPeer :=
  match ex with
  | BgpOpenMsgException sc data =>
      notifyPeer BN_OPEN_MSG_ERR (openSubCode_value sc) "Invalid open message from peer" data p
  | BgpHeaderException sc data =>
      notifyPeer BN_MSG_HDR_ERR (hdrSubCode_value sc) "Invalid header message from peer" data p
  | BgpUpdateMsgException sc data =>
      notifyPeer BN_UPDATE_MSG_ERR (updateSubCode_value sc) "Invalid update message from peer" data
        p
  | BgpRouteRefreshMsgException sc data =>
      sendBgpMessage (MNotification (mkNotification BN_ROUTE_REFRESH_MSG_ERR
        (routeRefreshSubCode_value sc) (Text "") data)) p
  | _ => p
  end.

(** The visitor of the ingress loop, with the counters. *)
Definition handleMessage (rand : Z) (m : BgpMessageT) (p : FiberBgpPeer) : FiberBgpPeer :=
  let count p := upd_ps (fun ps => set_rxMsgs (countMessage m (rxMsgs ps)) ps) p in
  match m with
  | MOpen msg => count (processOpenMsg rand msg p)
  | MUpdate msg => count (processBgpUpdateMsg msg p)
  | MUpdateDescriptor _ => p
  | MKeepAlive => count (processKeepAliveMsg p)
  | MEndOfRib msg => count (processBgpEndOfRibMsg msg p)
  | MNotification msg => count (processBgpNotificationMsg msg p)
  | MRouteRefresh msg => count (processBgpRouteRefreshMsg msg p)
  | MSocketError err => processBgpSocketErrorMsg err p
  end.

(** One turn of [processIngressBgpMessageLoop]; leaving the loop closes the queue
    it consumed. *)
Definition ingressTurn (rand : Z) (p : FiberBgpPeer) : option FiberBgpPeer :=
  let '(mkQueues r rc s sc e os om o oc i) := queues p in
  if rc then None
  else
  match r with
  | [] => None
  | item :: r =>
      let rest := upd_queues (fun _ => mkQueues r rc s sc e os om o oc i) p in
      let leave := upd_queues (fun q => let '(mkQueues r _ s sc e os om o oc i) := q in
                                        mkQueues r true s sc e os om o oc i) in
      Some match item with
           | None => leave (reportError BgpParserError rest)
           | Some (TryException ex) =>
               leave (makeNotificationFromException ex (reportError BgpParserError rest))
           | Some (TryValue m) => handleMessage rand m rest
           end
  end.

(** ** The other tasks *)

(** What [sock_.read] returned; no byte is the end of the stream. *)
Inductive ReadResult := ReadBytes (chunk : bytes) | ReadError (err : string).

(** One turn of [readSocketLoop], a [noexcept] function. *)
Definition readTurn (r : ReadResult) (p : FiberBgpPeer) : option FiberBgpPeer :=
  if negb (reading p) then None
  else
  let p := match holdTimer_ (timers p) with
           | Some _ => upd_timers (resetHoldTimer (peeringState_ p)) p
           | None => p
           end in
  let stop err := set_reading false
    (upd_queues (pushRcvd [Some (TryValue (MSocketError err)); None]) p) in
  Some match r with
       | ReadError err => stop err
       | ReadBytes [] => stop "detected EOF"%string
       | ReadBytes chunk =>
           let '(parser, pushed, exit) := processBgpMsgBuf (msgParser_ p) chunk in
           let p := set_parser parser (upd_queues (pushRcvd (map Some pushed)) p) in
           match exit with Thrown _ | LoopNoFuel => set_crashed p | _ => p end
       end.

Definition toMessage (m : InputMessageT) : BgpMessageT :=
  match m with
  | InUpdate m => MUpdate m
  | InDescriptor d => MUpdateDescriptor d
  | InEndOfRib m => MEndOfRib m
  | InRouteRefresh m => MRouteRefresh m
  | InNotification m => MNotification m
  end.

(** One turn of [processEgressBgpMessageLoop]. *)
Definition egressTurn (p : FiberBgpPeer) : option FiberBgpPeer :=
  let '(mkQueues r rc s sc e os om o oc i) := queues p in
  if negb (egress p) then None
  else
  match i with
  | [] => None
  | item :: i =>
      let rest := upd_queues (fun _ => mkQueues r rc s sc e os om o oc i) p in
      Some match item with
           | None => set_egress false (upd_queues (putSend None) rest)
           | Some m => sendBgpMessage (toMessage m) rest
           end
  end.

(** Leaving [sendSocketLoop]: the socket is closed, the queue cleared and closed. *)
Definition leaveSendLoop (p : FiberBgpPeer) : FiberBgpPeer :=
  let '(mkPeer ps t q m g _ r _ e d a) := p in
  let '(mkQueues rq rc _ _ er os om o oc i) := q in
  mkPeer ps t (mkQueues rq rc [] true er os om o oc i) m g true r false e d a.

(** One turn of [sendSocketLoop], a [noexcept] function: [fuel] for the loop over
    the prefixes, [st] the shared buffers, [wr] the error of the write, if any. *)
Definition sendTurn (fuel : nat) (st : Buffers) (wr : option string) (p : FiberBgpPeer)
    : option FiberBgpPeer :=
  let '(mkQueues r rc s sc e os om o oc i) := queues p in
  if negb (sending p) then None
  else
  match s with
  | [] => None
  | None :: s => Some (leaveSendLoop p)
  | Some m :: s =>
      let p := upd_queues (fun _ => mkQueues r rc s sc e os om o oc i) p in
      match serializeMessage fuel (negotiatedCapabilities (peeringState_ p)) st m with
      | Throw _ => Some (set_crashed p)
      | NoFuel => None
      | Ok (st, chain) =>
          if negb (nonempty (concat (default [] (readChain st chain)))) then Some p
          else
          match wr with
          | Some err => Some (leaveSendLoop (reportError (BgpSocketError err) p))
          | None =>
              let p := upd_timers (resetKeepAliveTimer (peeringState_ p)) p in
              let p := upd_ps (fun ps => set_txMsgs (countMessage m (txMsgs ps)) ps) p in
              Some match m with
                   | MNotification n => upd_ps (set_lastNotificationSent n) p
                   | _ => p
                   end
          end
      end
  end.

(** ** Timers *)

Definition openMsgTimerFires (p : FiberBgpPeer) : option FiberBgpPeer :=
  if openMsgTimer_ (timers p)
  then Some (reportError BgpOpenMsgTimerExpired (upd_timers resetOpenMsgTimer p))
  else None.

(** [readable]: bytes are waiting in the socket. *)
Definition holdTimerFires (readable : bool) (p : FiberBgpPeer) : option FiberBgpPeer :=
  match holdTimer_ (timers p) with
  | Some (Some _) =>
      let p := upd_timers (fun t => let '(mkTimers o _ k g j) := t in
                                    mkTimers o (Some None) k g j) p in
      Some (if readable then p
            else reportError BgpHoldTimerExpired
                   (notifyPeer BN_HOLD_TIMER_EXPIRED 0 "0" [] p))
  | _ => None
  end.

Definition keepAliveTimerFires (p : FiberBgpPeer) : option FiberBgpPeer :=
  match keepAliveTimer_ (timers p) with
  | Some _ => Some (upd_timers (resetKeepAliveTimer (peeringState_ p)) (sendBgpMessage MKeepAlive p))
  | None => None
  end.

(** ** Stopping *)

Definition stop (ceaseErrSubCode : option Z) (gracefulRestart peerDelete : bool)
    (p : FiberBgpPeer) : FiberBgpPeer :=
  let p := match ceaseErrSubCode with
           | Some sub => notifyPeer BN_CEASE sub "Cease Notification" [] p
           | None => p
           end in
  reportError (BgpSessionStop gracefulRestart peerDelete) p.

(** The handlers of [run]: the eligibility for graceful restart. *)
Definition processBgpNotificationError (n : BgpNotification) (p : FiberBgpPeer)
    : FiberBgpPeer * bool :=
  (upd_ps (fun ps => set_lastNotificationReceived n (set_resetReason NOTIFICATION_RCVD ps)) p,
   grNotification_ p && negb (isBgpHardResetNotification n)).

Definition processError (e : BgpPeerError) (p : FiberBgpPeer) : FiberBgpPeer * bool :=
  let reason r := upd_ps (set_resetReason r) p in
  match e with
  | BgpSessionStop gr del => (upd_ps (set_peerDelete del) (reason MANUAL_STOP), gr)
  | BgpSocketError _ => (reason SOCKET_ERR, true)
  | BgpHoldTimerExpired => (reason HOLD_TIMER_EXPIRE, grNotification_ p)
  | BgpNotificationError n => processBgpNotificationError n p
  | BgpOpenMsgTimerExpired => (reason OPEN_MSG_TIMER_EXPIRE, true)
  | BgpSessionError => (reason SESSION_ERR, false)
  | BgpParserError => (reason PARSE_ERR, false)
  end.

(** [run] from the error it waited for to the point where it joins the tasks. *)
Definition runWakes (p : FiberBgpPeer) : option FiberBgpPeer :=
  let '(mkQueues r rc s sc e os om o oc i) := queues p in
  match run_done p, e with
  | None, err :: e =>
      let p := upd_queues (fun _ => mkQueues r rc s sc e os om o oc i) p in
      let '(p, gracefulRestart) := processError err p in
      let p := upd_timers (fun t => let '(mkTimers _ _ _ g j) := t in
                                    mkTimers false None None g j) p in
      let p := upd_ps (set_sessionState IDLE) p in
      let ps := peeringState_ p in
      let p := upd_queues (fun q =>
        let q := putState (Some (mkObservable (remoteBgpId ps) (state ps) (ps_remoteAs ps)
                                   (peerDelete ps))) q in
        let q := putRcvdMessage None (putState None q) in
        let q := pushIqueue None q in
        (* oqueue_->close(), then forcePush *)
        let '(mkQueues r rc s sc e os om o oc i) := q in
        match o with
        | Some l => mkQueues r rc s sc e os om (Some (l ++ [OutSessionStop gracefulRestart])) true i
        | None => q
        end) p in
      Some (set_run_done gracefulRestart p)
  | _, _ => None
  end.

(** ** Starting *)

Definition openMsgOf : BgpOpenMsg :=
  let asn := if as4byte caps_ && (k2BytesAsnLimit <? localAs peeringParams_)
             then kAsTrans else localAs peeringParams_ in
  mkOpenMsg kBgpVersion asn (holdTime peeringParams_) (localBgpId peeringParams_) caps_.

Definition initialPeeringState : PeeringState :=
  mkPeeringState OPEN_SENT 0 0 0 0 0 defaultCapabilities defaultCapabilities None false
    zeroCounters zeroCounters None None.

(** The constructor and [run] up to the wait for an error; [None] when the hold
    time is refused. *)
Definition start (hasOqueue : bool) : option FiberBgpPeer :=
  let ht := holdTime peeringParams_ in
  if negb (ht =? 0) && (ht <? 3) then None
  else
  let q := mkQueues [] false [] false [] [] [] (if hasOqueue then Some [] else None) false [] in
  let p := mkPeer initialPeeringState (mkTimers (0 <? ht) None None 0 0) q (newParser caps_) false false
             true true true None true in
  Some (publishState (sendBgpMessage (MOpen openMsgOf) p)).

(** ** Steps *)

Inductive PeerEvent :=
| EvRead (r : ReadResult)
| EvIngress (rand : Z)
| EvAdjRib (m : InputMessageT)
| EvEgress
| EvSend (fuel : nat) (st : Buffers) (wr : option string)
| EvOpenTimer
| EvHoldTimer (readable : bool)
| EvKeepAliveTimer
| EvStop (ceaseErrSubCode : option Z) (gracefulRestart peerDelete : bool)
| EvRun.

Definition stepEvent (p : FiberBgpPeer) (ev : PeerEvent) : option FiberBgpPeer :=
  if negb (alive p) then None
  else
  match ev with
  | EvRead r => readTurn r p
  | EvIngress rand => ingressTurn rand p
  | EvAdjRib m => Some (upd_queues (pushIqueue (Some m)) p)
  | EvEgress => egressTurn p
  | EvSend fuel st wr => sendTurn fuel st wr p
  | EvOpenTimer => openMsgTimerFires p
  | EvHoldTimer readable => holdTimerFires readable p
  | EvKeepAliveTimer => keepAliveTimerFires p
  | EvStop c gr del => Some (stop c gr del p)
  | EvRun => runWakes p
  end.

Fixpoint steps (p : FiberBgpPeer) (evs : list PeerEvent) : option FiberBgpPeer :=
  match evs with
  | [] => Some p
  | ev :: evs => match stepEvent p ev with Some p' => steps p' evs | None => None end
  end.

Inductive reachable (hasOqueue : bool) : FiberBgpPeer -> Prop :=
| reach_start p : start hasOqueue = Some p -> reachable hasOqueue p
| reach_step p ev p' : reachable hasOqueue p -> stepEvent p ev = Some p' -> reachable hasOqueue p'.
End Peer.
