(* ===== verification/BgpPeerInv.v ===== *)
(** * The session: what always holds

    The invariant of [FiberBgpPeer] under every task, timer and call, and the
    theorems about the states a session goes through, the parameters two ends
    agreed on and how a session ends. *)

From S2P Require Import Prelude BgpException Folly BgpStructs MsgHeader ControlMsgs OpenMsg.
From S2P Require Import Nlri PathAttrs PathAttrsSerializer UpdateMsg UpdateSerializer Dispatch.
From S2P Require Import Capabilities FiberBgpParser GroupPdu BgpPeer.

(** ** The hold time of a parsed OPEN *)

Definition open_item_ok (item : option TryMsg) : Prop :=
  match item with
  | Some (TryValue (MOpen msg)) => open_holdTime msg = 0 \/ 3 <= open_holdTime msg
  | _ => True
  end.

Section ParsedOpen.
Context `{F : FollyOps}.

Lemma parsed_open_holdTime buf msg : parseBgpOpenMsgRaw buf = Ok msg ->
  open_holdTime msg = 0 \/ 3 <= open_holdTime msg.
Proof.
  intros Hp. unfold parseBgpOpenMsgRaw in Hp. apply rbind_Ok_inv in Hp as ([h cur] & _ & Hp).
  case_match; [done|]. apply rbind_Ok_inv in Hp as ([v c1] & _ & Hp). cbv zeta in Hp.
  case_match; [done|]. apply rbind_Ok_inv in Hp as ([asn c2] & _ & Hp).
  apply rbind_Ok_inv in Hp as ([ht c3] & _ & Hp).
  destruct (negb (ht =? 0) && (ht <? 3)) eqn:E; [done|].
  apply rbind_Ok_inv in Hp as ([bid c4] & _ & Hp).
  apply rbind_Ok_inv in Hp as ([pl c5] & _ & Hp). case_match; [done|].
  apply rbind_Ok_inv in Hp as (capa & _ & [= <-]). simpl. lia.
Qed.

Lemma parseBgpMessage_open buf caps msg : parseBgpMessage buf caps = Ok (rcvdBgpOpenMsg msg) ->
  parseBgpOpenMsgRaw buf = Ok msg.
Proof.
  unfold parseBgpMessage, dispatchMessage.
  destruct (parseBgpMsgHdr buf None) as [h|e|]; cbn [rbind rcatch];
    [|destruct e; by simpl|done].
  case_match.
  { destruct (parseBgpOpenMsgRaw buf) as [m|e|]; cbn [rbind rcatch];
      [by intros [= <-]|by destruct e|done]. }
  repeat case_match; simplify_eq/=;
    match goal with
    | |- rcatch (rbind ?r _) _ = _ -> _ =>
        destruct r as [x|e|]; cbn [rbind rcatch]; [try destruct x|destruct e|]; by simpl
    | _ => done
    end.
Qed.

Lemma parserCallback_open buf caps caps' cb pending caps'' pending' pushed :
  parseBgpMessage buf caps = Ok cb -> parserCallback cb caps' pending = (caps'', pending', pushed) ->
  open_item_ok pending -> Forall open_item_ok (map Some (pushed ++ option_list pending')).
Proof.
  intros Hp Hcb Hpend.
  assert (Hl : Forall open_item_ok (map Some (option_list pending)))
    by (destruct pending; repeat constructor; done).
  rewrite map_app. apply Forall_app.
  destruct cb; simplify_eq/=; split; try done; try (by repeat constructor).
  constructor; [|done]. simpl. eapply parsed_open_holdTime, parseBgpMessage_open, Hp.
Qed.

Lemma parseLoop_open fuel : forall buf caps pending buf' caps' pending' pushed exit,
  open_item_ok pending ->
  parseLoop fuel buf caps pending = (buf', caps', pending', pushed, exit) ->
  open_item_ok pending' /\ Forall open_item_ok (map Some pushed).
Proof.
  induction fuel as [|fuel IH]; intros buf caps pending buf' caps' pending' pushed exit Hpend;
    cbn [parseLoop]; (case_match; [intros [= <- <- <- <- <-]; by split|]).
  { intros [= <- <- <- <- <-]. by split. }
  destruct (parseBgpMsgHdr buf None) as [h|e|];
    [|intros [= <- <- <- <- <-]; split; [done|by repeat constructor]
     |intros [= <- <- <- <- <-]; by split].
  case_match; [intros [= <- <- <- <- <-]; by split|].
  destruct (parseBgpMessage buf (Some caps)) as [cb|e|] eqn:Ep;
    [|intros [= <- <- <- <- <-]; by split..].
  destruct (parserCallback cb caps pending) as [[caps1 pending1] pushed1] eqn:Ecb.
  destruct (parseLoop fuel _ caps1 None) as [[[[b2 c2] p2] o2] e2] eqn:El.
  intros [= <- <- <- <- <-]. destruct (IH _ _ None _ _ _ _ _ I El) as [Hp2 Ho2].
  split; [done|]. rewrite map_app. apply Forall_app. split; [|done].
  by eapply parserCallback_open.
Qed.

Lemma processBgpMsgBuf_open m chunk m' pushed exit : open_item_ok (pendingError_ m) ->
  processBgpMsgBuf m chunk = (m', pushed, exit) ->
  open_item_ok (pendingError_ m') /\ Forall open_item_ok (map Some pushed).
Proof.
  intros Hm. unfold processBgpMsgBuf.
  destruct (parseLoop _ _ _ _) as [[[[b2 c2] p2] o2] e2] eqn:El. intros [= <- <- <-].
  simpl. by eapply parseLoop_open.
Qed.
End ParsedOpen.

Section Inv.
Context `{F : FollyOps}.
Variable params : PeeringParams.
Variable caps : BgpCapabilities.

(** ** The invariant *)

Definition fsm_path (n : nat) : list BgpSessionState :=
  take n [OPEN_SENT; OPEN_CONFIRM; ESTABLISHED].

(** The session got [n] states ahead and then went idle [k] times. *)
Definition states_inv (n k : nat) (st : BgpSessionState) (done : option bool)
    (obs : list (option ObservableStateT)) : Prop :=
  (1 <= n <= 3)%nat /\
  (exists l, obs = map Some l ++ match done with Some _ => [None] | None => [] end /\
     map os_state l = fsm_path n ++ replicate k IDLE) /\
  match done with
  | None => (k = 0 /\ fsm_path n !! (n - 1) = Some st \/ k = 1 /\ st = IDLE)%nat
  | Some _ => ((k = 1 \/ k = 2) /\ st = IDLE)%nat
  end.

(** What holds of the parameters once an OPEN was accepted. *)
Definition agreed (ps : PeeringState) : Prop :=
  (validateRemoteAs params = true -> acceptsRemoteAs params (ps_remoteAs ps) = true) /\
  negotiatedCapabilities ps = negotiateCapabilities caps (remoteCapabilities ps) /\
  ps_holdTime ps = Z.min (remoteHoldTime ps) (holdTime params) /\
  (ps_holdTime ps = 0 \/ 3 <= ps_holdTime ps) /\
  keepAliveTime ps = ps_holdTime ps / 3.

(** The keep-alive interval is positive and shorter than half the hold time. *)
Definition interval_ok (ps : PeeringState) (ms : Z) : Prop :=
  0 < ms /\ 2 * ms < ps_holdTime ps * 1000.

Definition timers_inv (ps : PeeringState) (t : Timers) : Prop :=
  0 < ps_holdTime ps ->
  interval_ok ps (keepAliveTime ps * 1000 + keepAliveJitter_ t) /\
  (exists ms, keepAliveTimer_ t = Some ms /\ interval_ok ps ms) /\
  (exists x, holdTimer_ t = Some x) /\ 0 <= gracePeriod_ t <= 1500.

(** The Adj-RIB-In hears of the end exactly once, after everything else. *)
Definition oqueue_inv (done : option bool) (oq : option (list OutputMessageT)) (closed : bool)
    : Prop :=
  match oq with
  | None => True
  | Some l =>
      match done with
      | None => closed = false /\ Forall (fun m => forall gr, m <> OutSessionStop gr) l
      | Some gr => closed = true /\
          exists l', l = l' ++ [OutSessionStop gr] /\
            Forall (fun m => forall gr, m <> OutSessionStop gr) l'
      end
  end.

Record session_inv (n k : nat) (p : FiberBgpPeer) : Prop := {
  si_states : states_inv n k (state (peeringState_ p)) (run_done p)
                (observerStateQueue_ (queues p));
  si_agreed : (2 <= n)%nat -> agreed (peeringState_ p);
  si_fresh : (n < 2)%nat -> holdTimer_ (timers p) = None /\ keepAliveTimer_ (timers p) = None;
  si_timers : run_done p = None -> (2 <= n)%nat -> timers_inv (peeringState_ p) (timers p);
  si_rcvd : Forall open_item_ok (rcvdQueue_ (queues p));
  si_pending : open_item_ok (pendingError_ (msgParser_ p));
  si_oqueue : oqueue_inv (run_done p) (oqueue_ (queues p)) (oqueueClosed (queues p));
  si_gr : grNotification_ p = true ->
    n = 3%nat /\ isGrNotificationNegotiated (negotiatedCapabilities (peeringState_ p)) = true
}.

Lemma jitter_bound ms rand : 0 < ms ->
  - (ms / 10) <= generateJitter ms kDefaultJitterPercent kDefaultJitterCapMs rand <= ms / 10.
Proof.
  intros Hms. unfold generateJitter, kDefaultJitterPercent, kDefaultJitterCapMs.
  assert (E : ms * 10 / 100 = ms / 10).
  { replace 100 with (10 * 10) by lia. rewrite <- Z.div_div by lia. by rewrite Z.div_mul by lia. }
  rewrite E. assert (0 <= ms / 10) by (apply Z.div_pos; lia).
  case_match; zbool; [lia|]. case_match; zbool; [lia|].
  assert (0 < Z.min 1000 (ms / 10)) by lia.
  pose proof (Z.mod_pos_bound rand (2 * Z.min 1000 (ms / 10)) ltac:(lia)). lia.
Qed.

Lemma interval_bound ht rand : 3 <= ht ->
  0 < ht / 3 * 1000 + generateJitter (ht / 3 * 1000) kDefaultJitterPercent kDefaultJitterCapMs rand
    /\ 2 * (ht / 3 * 1000 + generateJitter (ht / 3 * 1000) kDefaultJitterPercent
                            kDefaultJitterCapMs rand) < ht * 1000.
Proof.
  intros Hht. assert (1 <= ht / 3) by (apply Z.div_le_lower_bound; lia).
  pose proof (Z.mul_div_le ht 3 ltac:(lia)).
  pose proof (jitter_bound (ht / 3 * 1000) rand ltac:(lia)) as Hj.
  assert (ht / 3 * 1000 / 10 = ht / 3 * 100).
  { replace (ht / 3 * 1000) with (ht / 3 * 100 * 10) by lia. apply Z.div_mul. lia. }
  lia.
Qed.

(** ** Frames: updates that the invariant does not see *)

Definition queues_frame (f : Queues -> Queues) : Prop :=
  forall q, observerStateQueue_ (f q) = observerStateQueue_ q /\ oqueue_ (f q) = oqueue_ q /\
    oqueueClosed (f q) = oqueueClosed q /\
    (Forall open_item_ok (rcvdQueue_ q) -> Forall open_item_ok (rcvdQueue_ (f q))).

Lemma inv_upd_queues n k f p : queues_frame f -> session_inv n k p -> session_inv n k (upd_queues f p).
Proof.
  intros Hf [Hs Ha Hfr Ht Hr Hp Ho Hg]. destruct p as [ps t q m g sc r s e d a]. simpl in *.
  destruct (Hf q) as (E1 & E2 & E3 & Hr').
  constructor; simpl; rewrite ?E1, ?E2, ?E3; auto.
Qed.

Definition core (ps : PeeringState) :=
  (state ps, ps_remoteAs ps, ps_holdTime ps, keepAliveTime ps, remoteHoldTime ps,
   remoteCapabilities ps, negotiatedCapabilities ps).

Lemma inv_upd_ps n k f p : (forall ps, core (f ps) = core ps) ->
  session_inv n k p -> session_inv n k (upd_ps f p).
Proof.
  intros Hf [Hs Ha Hfr Ht Hr Hp Ho Hg]. destruct p as [ps t q m g sc r s e d a]. simpl in *.
  pose proof (Hf ps) as [= E1 E2 E3 E4 E5 E6 E7].
  constructor; simpl; auto;
    unfold agreed, timers_inv, interval_ok in *; rewrite ?E1, ?E2, ?E3, ?E4, ?E5, ?E6, ?E7; auto.
Qed.

Lemma frame_putSend m : queues_frame (putSend m).
Proof. by intros []. Qed.
Lemma frame_putError e : queues_frame (putError e).
Proof. by intros []. Qed.
Lemma frame_pushIqueue m : queues_frame (pushIqueue m).
Proof. by intros []. Qed.
Lemma frame_pushRcvd l : Forall open_item_ok l -> queues_frame (pushRcvd l).
Proof.
  intros Hl []. simpl. split_and!; try done. intros Hr. case_match; [done|].
  by apply Forall_app.
Qed.

Lemma inv_send n k m p : session_inv n k p -> session_inv n k (sendBgpMessage m p).
Proof. apply inv_upd_queues, frame_putSend. Qed.
Lemma inv_error n k e p : session_inv n k p -> session_inv n k (reportError e p).
Proof. apply inv_upd_queues, frame_putError. Qed.
Lemma inv_notify n k c s t d p : session_inv n k p -> session_inv n k (notifyPeer c s t d p).
Proof. apply inv_send. Qed.

Lemma inv_crash n k p : session_inv n k p -> session_inv n k (set_crashed p).
Proof. intros [Hs Ha Hfr Ht Hr Hp Ho Hg]. destruct p. by constructor. Qed.
Lemma inv_egress n k b p : session_inv n k p -> session_inv n k (set_egress b p).
Proof. intros [Hs Ha Hfr Ht Hr Hp Ho Hg]. destruct p. by constructor. Qed.
Lemma inv_reading n k b p : session_inv n k p -> session_inv n k (set_reading b p).
Proof. intros [Hs Ha Hfr Ht Hr Hp Ho Hg]. destruct p. by constructor. Qed.
Lemma inv_parser n k m p : open_item_ok (pendingError_ m) ->
  session_inv n k p -> session_inv n k (set_parser m p).
Proof. intros Hm [Hs Ha Hfr Ht Hr Hp Ho Hg]. destruct p. by constructor. Qed.
Lemma inv_leaveSend n k p : session_inv n k p -> session_inv n k (leaveSendLoop p).
Proof. intros [Hs Ha Hfr Ht Hr Hp Ho Hg]. destruct p as [? ? []]. by constructor. Qed.

(** The timers after an update that keeps them running. *)
Lemma inv_upd_timers n k f p :
  (forall t, holdTimer_ t = None -> keepAliveTimer_ t = None ->
     holdTimer_ (f t) = None /\ keepAliveTimer_ (f t) = None) ->
  (forall t, timers_inv (peeringState_ p) t -> timers_inv (peeringState_ p) (f t)) ->
  session_inv n k p -> session_inv n k (upd_timers f p).
Proof.
  intros H1 H2 [Hs Ha Hfr Ht Hr Hp Ho Hg]. destruct p. simpl in *.
  constructor; simpl; auto. intros Hn. destruct (Hfr Hn). auto.
Qed.

Lemma inv_resetOpen n k p : session_inv n k p -> session_inv n k (upd_timers resetOpenMsgTimer p).
Proof. apply inv_upd_timers; by intros []. Qed.

Lemma inv_resetKeepAlive n k p :
  session_inv n k p -> session_inv n k (upd_timers (resetKeepAliveTimer (peeringState_ p)) p).
Proof.
  apply inv_upd_timers; intros []; simpl; [by intros -> ->|].
  intros Ht Hpos. destruct (Ht Hpos) as (Hi & (ms & E & Hms) & Hh & Hg). simpl in *.
  split_and!; try done; try lia. rewrite E. eauto.
Qed.

(** ** The handlers *)

Lemma state_of_path n st : (1 <= n <= 3)%nat -> fsm_path n !! (n - 1)%nat = Some st ->
  (n = 1%nat /\ st = OPEN_SENT) \/ (n = 2%nat /\ st = OPEN_CONFIRM) \/
  (n = 3%nat /\ st = ESTABLISHED).
Proof.
  intros Hn. destruct n as [|[|[|[|n]]]]; [lia|simpl..|lia]; intros [= <-]; auto.
Qed.

(** The position of a session from its state. *)
Lemma inv_position n k p : session_inv n k p ->
  match state (peeringState_ p) with
  | OPEN_SENT => n = 1%nat /\ k = 0%nat /\ run_done p = None
  | OPEN_CONFIRM => n = 2%nat /\ k = 0%nat /\ run_done p = None
  | ESTABLISHED => n = 3%nat /\ k = 0%nat /\ run_done p = None
  | IDLE => (1 <= k)%nat
  | _ => False
  end.
Proof.
  intros [(Hn & _ & Hst) _ _ _ _ _ _ _]. destruct (run_done p).
  - destruct Hst as [Hk ->]. lia.
  - destruct Hst as [[-> Hst]|[-> ->]]; [|lia].
    apply state_of_path in Hst as [[-> ->]|[[-> ->]|[-> ->]]]; done.
Qed.

Lemma inv_idle n k p : session_inv n k p -> state (peeringState_ p) <> IDLE ->
  session_inv n (S k) (publishState (upd_ps (set_sessionState IDLE) p)).
Proof.
  intros Hinv Hst. pose proof (inv_position n k p Hinv) as Hpos.
  assert (k = 0%nat /\ run_done p = None) as [-> Hd] by (by destruct (state (peeringState_ p)); naive_solver).
  destruct Hinv as [(Hn & (l & Hl & Hm) & _) Ha Hfr Ht Hr Hp Ho Hg].
  destruct p as [ps t q m g sc r s e d a]. destruct ps, q. simpl in *. subst d.
  constructor; simpl; [|exact Ha|exact Hfr|exact Ht|done..].
  split; [done|]. split; [|by right]. eexists (l ++ [_]). rewrite map_app, Hl, !app_nil_r. split; [done|].
  rewrite map_app, Hm. simpl. by rewrite app_nil_r.
Qed.

Hypothesis Hparams : holdTime params = 0 \/ 3 <= holdTime params.

(** An accepted OPEN moves the session from its first to its second state. *)
Lemma inv_open rand msg n k p :
  (open_holdTime msg = 0 \/ 3 <= open_holdTime msg) -> session_inv n k p ->
  exists n', session_inv n' k (processOpenMsg params caps rand msg p).
Proof.
  intros Hht Hinv. pose proof (inv_position n k p Hinv) as Hpos. unfold processOpenMsg.
  destruct (state (peeringState_ p)) eqn:Est; try (by exists n; apply inv_error, inv_notify).
  destruct Hpos as (-> & -> & Hd). cbv zeta. apply inv_resetOpen in Hinv.
  case_match eqn:Eas; [by exists 1%nat; apply inv_error, inv_notify|].
  apply (inv_send _ _ MKeepAlive) in Hinv. exists 2%nat.
  destruct Hinv as [(Hn & (l & Hl & Hm) & Hst) Ha Hfr Ht Hr Hp Ho Hg].
  destruct p as [[] [] [] m g sc r s e d a]. simpl in *. subst d.
  set (ht := Z.min (open_holdTime msg) (holdTime params)) in *.
  assert (Hmin : ht = 0 \/ 3 <= ht) by lia.
  assert (Hag : (validateRemoteAs params = true -> acceptsRemoteAs params
    (uint 32 (if as4byte (open_capabilities msg) then capa_asn (open_capabilities msg)
              else open_asn msg)) = true)).
  { intros Hv. rewrite Hv in Eas. simpl in Eas. by apply negb_false_iff. }
  assert (Hobs : forall o, states_inv 2 0 OPEN_CONFIRM None
    (observerStateQueue_ ++ [Some (mkObservable o OPEN_CONFIRM 0 false)])).
  { intros o. split; [lia|]. split; [|by left]. eexists (l ++ [_]).
    rewrite map_app, Hl, !app_nil_r. split; [done|]. by rewrite map_app, Hm. }
  destruct (Z.ltb_spec 0 ht); simpl; constructor; simpl; try (by intros []%Hg);
    try done; try (by intros ?; lia); try (intros _ _ Hpos'; simpl in *; lia).
  intros _ _ _. unfold interval_ok. simpl.
  pose proof (interval_bound ht rand ltac:(lia)) as [Hi1 Hi2].
  assert (0 <= ht / 3) by (apply Z.div_pos; lia).
  change (1000 / 5) with 200. split_and!; eauto; lia.
Qed.

Lemma inv_keepalive n k p : session_inv n k p ->
  exists n', session_inv n' k (processKeepAliveMsg p).
Proof.
  intros Hinv. pose proof (inv_position n k p Hinv) as Hpos. unfold processKeepAliveMsg.
  destruct (state (peeringState_ p)) eqn:Est; try done;
    [by exists n|by exists n; apply inv_error, inv_notify| |by exists n].
  destruct Hpos as (-> & -> & Hd). exists 3%nat.
  destruct Hinv as [(Hn & (l & Hl & Hm) & Hst) Ha Hfr Ht Hr Hp Ho Hg].
  destruct p as [[] t [] m g sc r s e d a]. simpl in *. subst d.
  constructor; simpl; try done; [|intros _; exact (Ha ltac:(lia))|lia
    |intros _ _; exact (Ht eq_refl ltac:(lia))].
  split; [lia|]. split; [|by left]. eexists (l ++ [_]).
  rewrite map_app, Hl, !app_nil_r. split; [done|]. by rewrite map_app, Hm.
Qed.

Lemma inv_forward n k m p : (forall gr, m <> OutSessionStop gr) ->
  session_inv n k p -> session_inv n k (forwardMsg m p).
Proof.
  intros Hm [Hs Ha Hfr Ht Hr Hp Ho Hg]. destruct p as [ps t [] pm g sc r s e d a]. simpl in *.
  constructor; simpl; try done. unfold oqueue_inv in *. destruct oqueue_; [|by destruct oqueueClosed].
  destruct d as [gr|]; destruct Ho as [-> Ho]; [done|]. split; [done|].
  apply Forall_app. split; [done|]. by repeat constructor.
Qed.

Lemma inv_notification n k msg p : session_inv n k p ->
  exists k', session_inv n k' (processBgpNotificationMsg msg p).
Proof.
  intros Hinv. unfold processBgpNotificationMsg.
  destruct (state (peeringState_ p)) eqn:E; [by exists k|..];
    exists (S k); apply inv_error, inv_idle; congruence.
Qed.

Lemma core_set_rxMsgs c ps : core (set_rxMsgs c ps) = core ps.
Proof. by destruct ps. Qed.

Lemma inv_count n k m p : session_inv n k p ->
  session_inv n k (upd_ps (fun ps => set_rxMsgs (countMessage m (rxMsgs ps)) ps) p).
Proof. apply inv_upd_ps. intros ps. apply core_set_rxMsgs. Qed.

Lemma inv_handle rand m n k p : open_item_ok (Some (TryValue m)) -> session_inv n k p ->
  exists n' k', session_inv n' k' (handleMessage params caps rand m p).
Proof.
  intros Hok Hinv. destruct m; simpl in *.
  - destruct (inv_open rand msg n k p Hok Hinv) as [n' H]. exists n', k. by apply inv_count.
  - destruct (inv_notification n k msg p Hinv) as [k' H]. exists n, k'. by apply inv_count.
  - destruct (inv_keepalive n k p Hinv) as [n' H]. exists n', k. by apply inv_count.
  - exists n, k. by apply inv_count, inv_forward.
  - by exists n, k.
  - exists n, k. by apply inv_count, inv_forward.
  - exists n, k. by apply inv_error.
  - exists n, k. by apply inv_count, inv_forward.
Qed.

Lemma inv_exception n k ex p : session_inv n k p ->
  session_inv n k (makeNotificationFromException ex p).
Proof. destruct ex; simpl; auto using inv_notify, inv_send. Qed.

Lemma inv_ingress rand n k p p' : session_inv n k p -> ingressTurn params caps rand p = Some p' ->
  exists n' k', session_inv n' k' p'.
Proof.
  intros Hinv. unfold ingressTurn. destruct (queues p) as [r rc s sc e os om o oc i] eqn:Eq.
  destruct rc; [done|]. destruct r as [|item r]; [done|]. intros [= <-].
  pose proof (si_rcvd _ _ _ Hinv) as Hr. rewrite Eq in Hr. apply Forall_cons in Hr as [Hi Hr].
  set (rest := upd_queues _ p).
  assert (Hrest : session_inv n k rest).
  { destruct Hinv as [Hs Ha Hfr Ht _ Hp Ho Hg]. destruct p. simpl in *. subst. by constructor. }
  clearbody rest. assert (Hleave : forall p1, session_inv n k p1 -> session_inv n k
    (upd_queues (fun q => let '(mkQueues r _ s sc e os om o oc i) := q in
                          mkQueues r true s sc e os om o oc i) p1))
    by (intros p1; apply inv_upd_queues; by intros []).
  destruct item as [[m|ex]|].
  - by apply (inv_handle rand m n k).
  - exists n, k. by apply Hleave, inv_exception, inv_error.
  - exists n, k. by apply Hleave, inv_error.
Qed.

Lemma inv_read r n k p p' : session_inv n k p -> readTurn r p = Some p' -> session_inv n k p'.
Proof.
  intros Hinv. unfold readTurn. destruct (reading p); [|done]. cbn [negb]. cbv zeta.
  assert (Hinv1 : session_inv n k match holdTimer_ (timers p) with
    | Some _ => upd_timers (resetHoldTimer (peeringState_ p)) p | None => p end).
  { destruct (holdTimer_ (timers p)) eqn:Eh; [|done].
    destruct Hinv as [Hs Ha Hfr Ht Hr Hp Ho Hg]. destruct p as [ps [] q m g sc rd s e d a].
    simpl in *. constructor; simpl; try done.
    - intros Hn. destruct (Hfr Hn). congruence.
    - intros Hd Hn Hpos. destruct (Ht Hd Hn Hpos) as (? & ? & ? & [? ?]). split_and!; eauto. }
  revert Hinv1. generalize (match holdTimer_ (timers p) with
    | Some _ => upd_timers (resetHoldTimer (peeringState_ p)) p | None => p end).
  clear Hinv p. intros p Hinv [= <-].
  assert (Hstop : forall err, session_inv n k (set_reading false
    (upd_queues (pushRcvd [Some (TryValue (MSocketError err)); None]) p))).
  { intros err. apply inv_reading, inv_upd_queues; [|done].
    apply frame_pushRcvd. by repeat constructor. }
  destruct r as [[|b chunk]|err]; [apply Hstop| |apply Hstop].
  destruct (processBgpMsgBuf (msgParser_ p) (b :: chunk)) as [[m' pushed] exit] eqn:E.
  destruct (processBgpMsgBuf_open _ _ _ _ _ (si_pending _ _ _ Hinv) E) as [Hpend Hpushed].
  assert (H : session_inv n k (set_parser m' (upd_queues (pushRcvd (map Some pushed)) p)))
    by (by apply inv_parser, inv_upd_queues; [|apply frame_pushRcvd|]).
  destruct exit; try done; by apply inv_crash.
Qed.

Lemma inv_egressTurn n k p p' : session_inv n k p -> egressTurn p = Some p' -> session_inv n k p'.
Proof.
  intros Hinv. unfold egressTurn. destruct (queues p) as [r rc s sc e os om o oc i] eqn:Eq.
  destruct (egress p); [|done]. destruct i as [|item i]; [done|]. intros [= <-].
  assert (Hrest : session_inv n k (upd_queues (fun _ => mkQueues r rc s sc e os om o oc i) p)).
  { destruct Hinv as [Hs Ha Hfr Ht Hr Hp Ho Hg]. destruct p. simpl in *. subst. by constructor. }
  destruct item; [by apply inv_send|]. by apply inv_egress, inv_upd_queues; [apply frame_putSend|].
Qed.

Lemma inv_sendTurn fuel st wr n k p p' : session_inv n k p -> sendTurn fuel st wr p = Some p' ->
  session_inv n k p'.
Proof.
  intros Hinv. unfold sendTurn. destruct (queues p) as [r rc s sc e os om o oc i] eqn:Eq.
  destruct (sending p); [|done]. destruct s as [|[m|] s]; [done| |by intros [= <-]; apply inv_leaveSend].
  assert (Hrest : session_inv n k (upd_queues (fun _ => mkQueues r rc s sc e os om o oc i) p)).
  { destruct Hinv as [Hs Ha Hfr Ht Hr Hp Ho Hg]. destruct p. simpl in *. subst. by constructor. }
  cbn [negb]. cbv zeta. revert Hrest.
  generalize (upd_queues (fun _ => mkQueues r rc s sc e os om o oc i) p). clear Hinv Eq p.
  intros p Hinv. destruct (serializeMessage _ _ _ _) as [[st' chain]|ex|];
    [|by intros [= <-]; apply inv_crash|done].
  case_match; [by intros [= <-]|]. destruct wr as [err|];
    [by intros [= <-]; apply inv_leaveSend, inv_error|].
  apply inv_resetKeepAlive in Hinv.
  eapply inv_upd_ps in Hinv; [|intros ps; instantiate (1 := fun ps =>
    set_txMsgs (countMessage m (txMsgs ps)) ps); by destruct ps].
  destruct m; intros [= <-]; try exact Hinv. apply inv_upd_ps; [|exact Hinv]. by intros [].
Qed.

Lemma inv_timers n k p p' : session_inv n k p ->
  openMsgTimerFires p = Some p' \/ (exists b, holdTimerFires b p = Some p') \/
  keepAliveTimerFires p = Some p' -> session_inv n k p'.
Proof.
  intros Hinv [H|[[b H]|H]].
  - unfold openMsgTimerFires in H. case_match; simplify_eq. by apply inv_error, inv_resetOpen.
  - unfold holdTimerFires in H. destruct (holdTimer_ (timers p)) as [[ms|]|] eqn:Eh; simplify_eq.
    set (f := fun t : Timers => _).
    assert (Hf : session_inv n k (upd_timers f p)).
    { destruct Hinv as [Hs Ha Hfr Ht Hr Hp Ho Hg]. destruct p as [ps [] q m g sc rd s e d a].
      simpl in *. subst. constructor; simpl; try done.
      - intros Hn. by destruct (Hfr Hn).
      - intros Hd Hn Hpos. destruct (Ht Hd Hn Hpos) as (? & ? & ? & [? ?]). split_and!; eauto. }
    destruct b; [done|]. by apply inv_error, inv_notify.
  - unfold keepAliveTimerFires in H. case_match; simplify_eq.
    apply (inv_send _ _ MKeepAlive), inv_resetKeepAlive in Hinv. by destruct p.
Qed.

Lemma processError_ps e p p1 gr : processError e p = (p1, gr) ->
  exists f, p1 = upd_ps f p /\ forall ps, core (f ps) = core ps.
Proof.
  destruct e; simpl; intros [= <- <-]; eexists; try (split; [reflexivity|by intros []]).
  destruct p. simpl. instantiate (1 := fun ps => set_peerDelete peerDelete (set_resetReason MANUAL_STOP ps)).
  split; [done|by intros []].
Qed.

Lemma inv_run n k p p' : session_inv n k p -> runWakes p = Some p' ->
  exists k', session_inv n k' p'.
Proof.
  intros Hinv. unfold runWakes. destruct (queues p) as [r rc s sc e os om o oc i] eqn:Eq.
  destruct (run_done p) eqn:Ed; [done|]. destruct e as [|err e]; [done|].
  set (p0 := upd_queues _ p).
  assert (H0 : session_inv n k p0).
  { destruct Hinv as [Hs Ha Hfr Ht Hr Hp Ho Hg]. destruct p. simpl in *. subst. by constructor. }
  assert (Hd0 : run_done p0 = None) by (by destruct p). clearbody p0. clear Hinv Eq Ed p r rc s sc e os om o oc i.
  destruct (processError err p0) as [p1 gr] eqn:Ep.
  apply processError_ps in Ep as (f & -> & Hcore).
  apply (inv_upd_ps _ _ f) in H0; [|done]. intros [= <-]. exists (S k).
  assert (Hd : run_done (upd_ps f p0) = None) by (by destruct p0).
  revert H0 Hd. generalize (upd_ps f p0). clear p0 Hd0 Hcore f. intros p Hinv Hd.
  pose proof Hinv as [(Hn & (l & Hl & Hm) & Hst) Ha Hfr Ht Hr Hp Ho Hg].
  destruct p as [[] [] [] m g sc rd s ee d a]. simpl in *. subst d. rewrite app_nil_r in Hl.
  assert (Hk : k = 0%nat \/ k = 1%nat) by naive_solver.
  assert (Hobs : forall o, os_state o = IDLE -> states_inv n (S k) IDLE (Some gr)
    ((observerStateQueue_ ++ [Some o]) ++ [None])).
  { intros o Hos. split; [done|]. split; [|split; [lia|done]]. exists (l ++ [o]). rewrite map_app, Hl. split; [done|].
    by rewrite map_app, Hm, replicate_S_end, app_assoc; simpl; rewrite Hos. }
  destruct oqueue_ as [lq|]; simpl; (constructor; simpl;
    [by apply Hobs|exact Ha|done|done|exact Hr|exact Hp| |exact Hg]); [|done].
  destruct Ho as [_ Ho]. split; [done|]. by exists lq.
Qed.

Lemma inv_start b p : start params caps b = Some p -> session_inv 1 0 p.
Proof.
  unfold start. case_match; [done|]. intros [= <-]. constructor; simpl; try done; try lia.
  - split; [lia|]. split; [|by left]. by eexists [_].
  - destruct b; simpl; [|done]. by split.
Qed.

Lemma inv_step n k p ev p' : session_inv n k p -> stepEvent params caps p ev = Some p' ->
  exists n' k', session_inv n' k' p'.
Proof.
  intros Hinv. unfold stepEvent. destruct (alive p); [|done]. cbn [negb]. destruct ev; intros Hs.
  - eauto using inv_read.
  - by eapply inv_ingress.
  - simplify_eq. exists n, k. by apply inv_upd_queues; [apply frame_pushIqueue|].
  - eauto using inv_egressTurn.
  - eauto using inv_sendTurn.
  - exists n, k. apply (inv_timers _ _ _ _ Hinv). by left.
  - exists n, k. apply (inv_timers _ _ _ _ Hinv). right. left. by exists readable.
  - exists n, k. apply (inv_timers _ _ _ _ Hinv). by do 2 right.
  - simplify_eq. exists n, k. unfold stop. apply inv_error. destruct ceaseErrSubCode; [|done].
    by apply inv_notify.
  - destruct (inv_run n k p p' Hinv Hs) as [k' ?]. eauto.
Qed.
End Inv.
