(* ===== verification/BgpPeerSpec.v ===== *)
(** * The session: what it promises

    The states observers see, the parameters the two ends use, and how a session
    ends; and what the handlers let through that they should not. *)

From S2P Require Import Prelude BgpException Folly BgpStructs MsgHeader ControlMsgs OpenMsg.
From S2P Require Import Nlri PathAttrs PathAttrsSerializer UpdateMsg UpdateSerializer Dispatch.
From S2P Require Import Capabilities FiberBgpParser GroupPdu BgpPeer BgpPeerInv.

Section Reach.
Context `{F : FollyOps}.
Variable params : PeeringParams.
Variable caps : BgpCapabilities.

Lemma reachable_inv b p : reachable params caps b p -> exists n k, session_inv params caps n k p.
Proof.
  assert (Hp : forall p, start params caps b = Some p ->
    holdTime params = 0 \/ 3 <= holdTime params).
  { intros p0. unfold start. case_match eqn:E; [done|]. intros _. lia. }
  assert (H : reachable params caps b p ->
    (holdTime params = 0 \/ 3 <= holdTime params) /\ exists n k, session_inv params caps n k p).
  { induction 1 as [p Hs|p ev p' _ [Hh (n & k & Hi)] Hs].
    - split; [by eapply Hp|]. exists 1%nat, 0%nat. by eapply inv_start.
    - split; [done|]. by eapply inv_step. }
  intros Hr. by destruct (H Hr).
Qed.

Lemma steps_reachable b evs : forall p p', reachable params caps b p ->
  steps params caps p evs = Some p' -> reachable params caps b p'.
Proof.
  induction evs as [|ev evs IH]; simpl; intros p p' Hr Hs; [by simplify_eq|].
  destruct (stepEvent params caps p ev) as [p1|] eqn:E; [|done].
  apply (IH p1); [|done]. by eapply reach_step.
Qed.

Lemma run_reachable b evs p p' : start params caps b = Some p ->
  steps params caps p evs = Some p' -> reachable params caps b p'.
Proof. intros Hs. apply steps_reachable. by constructor. Qed.

(** The verdict of [run] on the error that ended the session: whether the routes
    are kept for a graceful restart. *)
Definition restart_verdict (nbit : bool) (e : BgpPeerError) : bool :=
  match e with
  | BgpSessionStop gr _ => gr
  | BgpSocketError _ | BgpOpenMsgTimerExpired => true
  | BgpHoldTimerExpired => nbit
  | BgpNotificationError n => nbit && negb (isBgpHardResetNotification n)
  | BgpSessionError | BgpParserError => false
  end.

(** After the end of the session nothing reaches the Adj-RIB-In any more. *)
Lemma oqueue_frozen p ev p' gr : run_done p = Some gr -> oqueueClosed (queues p) = true ->
  stepEvent params caps p ev = Some p' -> oqueue_ (queues p') = oqueue_ (queues p).
Proof.
  assert (Hupd : forall f p, oqueue_ (queues (upd_ps f p)) = oqueue_ (queues p) /\
    queues (upd_ps f p) = queues p /\ forall g, queues (upd_timers g p) = queues p)
    by (by intros ? []).
  intros Hd Hc. unfold stepEvent. destruct (alive p); [|done]. cbn [negb].
  destruct p as [ps t q m g sc rd s e d a]. simpl in Hd, Hc. subst d.
  destruct q as [r rc sq sqc er os om o oc i]. simpl in Hc. subst oc. destruct ev; simpl.
  - unfold readTurn. simpl. destruct rd; [|done]. cbn [negb].
    destruct (holdTimer_ t); destruct r0 as [[|x chunk]|err]; intros [= <-]; try done;
      cbn [msgParser_ upd_timers];
      destruct (processBgpMsgBuf m (x :: chunk)) as [[m' pushed] []]; done.
  - unfold ingressTurn. simpl. destruct rc; [done|]. destruct r as [|item r]; [done|].
    intros [= <-]. destruct item as [[msg|ex]|]; [|by destruct ex|done].
    destruct msg; simpl; try done.
    + unfold processOpenMsg, notifyPeer, reportError, sendBgpMessage, publishState. simpl.
      destruct ps as [[] ? ? ? ? ? ? ? ? ? ? ? ? ?]; simpl; try done.
      repeat (case_match; simpl; try done).
    + unfold processBgpNotificationMsg. simpl. by destruct ps as [[] ? ? ? ? ? ? ? ? ? ? ? ? ?].
    + unfold processKeepAliveMsg. simpl. by destruct ps as [[] ? ? ? ? ? ? ? ? ? ? ? ? ?].
  - by intros [= <-].
  - unfold egressTurn. simpl. destruct e; [|done]. destruct i as [|[x|] i]; [done|..];
      by intros [= <-].
  - unfold sendTurn. simpl. destruct s; [|done]. destruct sq as [|[x|] sq]; [done| |by intros [= <-]].
    cbn [negb]. destruct (serializeMessage _ _ _ _) as [[st' chain]|ex|]; [|by intros [= <-]|done].
    case_match; [by intros [= <-]|]. destruct wr; [by intros [= <-]|].
    by destruct x; intros [= <-].
  - unfold openMsgTimerFires. simpl. case_match; [|done]. by intros [= <-].
  - unfold holdTimerFires. simpl. destruct (holdTimer_ t) as [[]|]; [|done..].
    destruct readable; by intros [= <-].
  - unfold keepAliveTimerFires. simpl. destruct (keepAliveTimer_ t); [|done]. by intros [= <-].
  - intros [= <-]. by destruct ceaseErrSubCode.
  - done.
Qed.
End Reach.

(** ** A session between two peers *)

Definition sample_params : PeeringParams :=
  mkPeeringParams 65000 65001 None 16843009 90 (Some 120) true true false false false None
    false true true.
Definition sample_caps : BgpCapabilities :=
  buildBgpCapabilities 65000 false (Some 120) true true false None false false false true true.
Definition sample_remote_open : BgpOpenMsg :=
  mkOpenMsg kBgpVersion 65001 60 33686018
    (buildBgpCapabilities 65001 false (Some 60) true true false None false false false true true).
Definition sample_open_bytes : bytes :=
  match serializeBgpOpenMsg sample_remote_open with Ok b => b | _ => [] end.

(** OPEN and KEEPALIVE of the peer arrive, cut in the middle. *)
Definition handshake : list PeerEvent :=
  [EvRead (ReadBytes (take 30 sample_open_bytes));
   EvRead (ReadBytes (drop 30 sample_open_bytes ++ sample_keepalive));
   EvIngress 7; EvIngress 0].

Definition sample_session (evs : list PeerEvent) : option FiberBgpPeer :=
  match start sample_params sample_caps true with
  | Some p => steps sample_params sample_caps p evs
  | None => None
  end.

Lemma sample_session_reachable evs p : sample_session evs = Some p ->
  reachable sample_params sample_caps true p.
Proof.
  unfold sample_session. destruct (start sample_params sample_caps true) as [p0|] eqn:E; [|done].
  by apply run_reachable.
Qed.

(** C3. Whatever arrives, fires or is called, and however the tasks interleave,
    the states a session publishes are those of the finite state machine in
    order: OPEN_SENT, then OPEN_CONFIRM, then ESTABLISHED, none skipped and none
    repeated, followed at the end by IDLE at most twice and then the null that
    ends the observers; the last state published is the current one. *)
Theorem session_states_follow_fsm `{F : FollyOps} params caps b p :
  reachable params caps b p ->
  exists n k l, (1 <= n <= 3)%nat /\ (k <= 2)%nat /\
    observerStateQueue_ (queues p) =
      map Some l ++ match run_done p with Some _ => [None] | None => [] end /\
    map os_state l = take n [OPEN_SENT; OPEN_CONFIRM; ESTABLISHED] ++ replicate k IDLE /\
    last (map os_state l) = Some (state (peeringState_ p)).
Proof.
  intros Hr. destruct (reachable_inv params caps b p Hr) as (n & k & Hinv).
  destruct (si_states _ _ _ _ _ Hinv) as (Hn & (l & Hl & Hm) & Hst).
  exists n, k, l. split; [done|]. unfold fsm_path in *.
  assert (Hlast : forall st k, last (take n [OPEN_SENT; OPEN_CONFIRM; ESTABLISHED] ++
    replicate (S k) st) = Some st).
  { intros st j. rewrite replicate_S_end, app_assoc. apply last_snoc. }
  destruct (run_done p).
  - destruct Hst as [[-> | ->] Hst]; (split; [lia|]); rewrite Hm, Hst; by split_and!.
  - destruct Hst as [[-> Hst]|[-> Hst]]; (split; [lia|]); rewrite Hm;
      (split; [done|]; split; [done|]).
    + simpl. rewrite app_nil_r. rewrite last_lookup, length_take. simpl length.
      by replace (Init.Nat.pred (n `min` 3)) with (n - 1)%nat by lia.
    + by rewrite Hst.
Qed.

Lemma session_states_follow_fsm_witness :
  exists p, sample_session handshake = Some p /\ state (peeringState_ p) = ESTABLISHED /\
  exists n k l, (1 <= n <= 3)%nat /\ (k <= 2)%nat /\
    observerStateQueue_ (queues p) =
      map Some l ++ match run_done p with Some _ => [None] | None => [] end /\
    map os_state l = take n [OPEN_SENT; OPEN_CONFIRM; ESTABLISHED] ++ replicate k IDLE /\
    last (map os_state l) = Some (state (peeringState_ p)).
Proof.
  eexists. split; [vm_compute; reflexivity|]. split; [reflexivity|].
  apply (session_states_follow_fsm sample_params sample_caps true).
  apply (sample_session_reachable handshake). vm_compute. reflexivity.
Defined.

(** C4. A session that got past OPEN_SENT has a peer with an accepted AS number
    (where the configuration asks for the check), uses exactly the capabilities both ends announced, and has the smaller of
    the two hold times, which is zero or at least three seconds.  With a hold
    time, the hold timer exists and the keep-alive timer fires after a positive
    time below half the hold time, jitter included. *)
Theorem session_parameters_agreed `{F : FollyOps} params caps b p :
  reachable params caps b p ->
  state (peeringState_ p) = OPEN_CONFIRM \/ state (peeringState_ p) = ESTABLISHED ->
  let ps := peeringState_ p in
  (validateRemoteAs params = true -> acceptsRemoteAs params (ps_remoteAs ps) = true) /\
  negotiatedCapabilities ps = negotiateCapabilities caps (remoteCapabilities ps) /\
  ps_holdTime ps = Z.min (remoteHoldTime ps) (holdTime params) /\
  (ps_holdTime ps = 0 \/
   3 <= ps_holdTime ps /\ (exists t, holdTimer_ (timers p) = Some t) /\
   exists ms, keepAliveTimer_ (timers p) = Some ms /\ 0 < ms /\ 2 * ms < ps_holdTime ps * 1000).
Proof.
  intros Hr Hst ps. destruct (reachable_inv params caps b p Hr) as (n & k & Hinv).
  pose proof (inv_position _ _ _ _ _ Hinv) as Hpos.
  assert (Hn : (2 <= n)%nat /\ run_done p = None).
  { destruct Hst as [Hst|Hst]; rewrite Hst in Hpos; destruct Hpos as (-> & _ & ->); split; done || lia. }
  destruct Hn as [Hn Hd].
  destruct (si_agreed _ _ _ _ _ Hinv Hn) as (Has & Hneg & Hmin & Hht & _).
  split_and!; try done. destruct Hht as [|Hht]; [by left|]. right.
  destruct (si_timers _ _ _ _ _ Hinv Hd Hn ltac:(lia)) as (_ & (ms & E & Hms) & Hh & _).
  split_and!; try done. exists ms. by destruct Hms.
Qed.

Lemma session_parameters_agreed_witness :
  exists p, sample_session handshake = Some p /\ state (peeringState_ p) = ESTABLISHED /\
    ps_holdTime (peeringState_ p) = 60 /\ keepAliveTimer_ (timers p) = Some 20993 /\
    negotiatedCapabilities (peeringState_ p) =
      negotiateCapabilities sample_caps (remoteCapabilities (peeringState_ p)).
Proof.
  eexists. split; [vm_compute; reflexivity|]. split_and!; [reflexivity..|].
  apply (session_parameters_agreed sample_params sample_caps true); [|by right].
  apply (sample_session_reachable handshake). vm_compute. reflexivity.
Defined.

(** The first error reported ends the session: [run] goes on, the session is
    idle, its timers are gone, and the routes are kept for a graceful restart
    exactly if the verdict on that error says so; after a hold timer expiry or a
    NOTIFICATION only if the session was established with the restart and N bits
    announced by both ends, and never after a hard reset. *)
Theorem session_end_verdict `{F : FollyOps} params caps b p e es :
  reachable params caps b p -> run_done p = None -> errorQueue_ (queues p) = e :: es ->
  exists p', runWakes p = Some p' /\
    run_done p' = Some (restart_verdict (grNotification_ p) e) /\
    state (peeringState_ p') = IDLE /\
    timers p' = mkTimers false None None (gracePeriod_ (timers p)) (keepAliveJitter_ (timers p)) /\
    (is_Some (oqueue_ (queues p)) -> oqueueClosed (queues p') = true) /\
    (grNotification_ p = true ->
       gracefulRestart caps && grNotification caps = true /\
       gracefulRestart (remoteCapabilities (peeringState_ p)) &&
       grNotification (remoteCapabilities (peeringState_ p)) = true).
Proof.
  intros Hr Hd He. destruct (reachable_inv params caps b p Hr) as (n & k & Hinv).
  assert (Hgr : grNotification_ p = true ->
    gracefulRestart caps && grNotification caps = true /\
    gracefulRestart (remoteCapabilities (peeringState_ p)) &&
    grNotification (remoteCapabilities (peeringState_ p)) = true).
  { intros Hg. destruct (si_gr _ _ _ _ _ Hinv Hg) as [-> Hneg].
    destruct (si_agreed _ _ _ _ _ Hinv ltac:(lia)) as (_ & E & _). rewrite E in Hneg.
    unfold isGrNotificationNegotiated in Hneg. simpl in Hneg.
    apply andb_prop in Hneg as [[-> ->]%andb_prop [-> ->]%andb_prop]. done. }
  destruct p as [[] [] [r rc s sc er os om o oc i] m g sc' rd s' eg d a]. simpl in *. subst d er.
  unfold runWakes. simpl.
  destruct e; simpl; eexists; (split; [reflexivity|]); destruct o; simpl; split_and!; try done;
    by intros [].
Qed.

(** The hold timer of an established session expires. *)
Definition holdExpires : list PeerEvent := handshake ++ [EvHoldTimer false].

Lemma session_end_verdict_witness :
  exists p, sample_session holdExpires = Some p /\
    errorQueue_ (queues p) = [BgpHoldTimerExpired] /\
    exists p', runWakes p = Some p' /\
      run_done p' = Some (restart_verdict (grNotification_ p) BgpHoldTimerExpired) /\
      run_done p' = Some true.
Proof.
  eexists. split; [vm_compute; reflexivity|]. split; [reflexivity|].
  match goal with |- exists p', runWakes ?p = _ /\ _ =>
    destruct (session_end_verdict sample_params sample_caps true p BgpHoldTimerExpired [])
      as (p' & E & Hd & _)
  end; [|reflexivity|reflexivity|].
  - apply (sample_session_reachable holdExpires). vm_compute. reflexivity.
  - exists p'. split; [exact E|]. split; [exact Hd|]. rewrite Hd. reflexivity.
Defined.

(** C31. The Adj-RIB-In is told of the end of a session once, with the verdict
    the session ended with, and after that nothing more is put into its queue,
    whatever still arrives on the socket. *)
Theorem adj_rib_told_once `{F : FollyOps} params caps b p gr l ev p' :
  reachable params caps b p -> run_done p = Some gr -> oqueue_ (queues p) = Some l ->
  stepEvent params caps p ev = Some p' ->
  (exists l', l = l' ++ [OutSessionStop gr] /\
     Forall (fun m => forall gr', m <> OutSessionStop gr') l') /\
  oqueue_ (queues p') = Some l.
Proof.
  intros Hr Hd Hl Hs. destruct (reachable_inv params caps b p Hr) as (n & k & Hinv).
  pose proof (si_oqueue _ _ _ _ _ Hinv) as Ho. rewrite Hd, Hl in Ho. destruct Ho as [Hc Ho].
  split; [done|]. rewrite <- Hl. by eapply oqueue_frozen.
Qed.

(** After the end an End-of-RIB of the peer is still in the queue of the parser. *)
Definition sample_eor : bytes :=
  match serializeBgpEndOfRib AFI_IPv4 SAFI_UNICAST with Ok m => m | _ => [] end.
Definition lateUpdate : list PeerEvent :=
  handshake ++ [EvRead (ReadBytes (sample_eor ++ sample_eor)); EvIngress 0; EvStop None true false; EvRun].

Lemma adj_rib_told_once_witness :
  exists p p', sample_session lateUpdate = Some p /\
    stepEvent sample_params sample_caps p (EvIngress 0) = Some p' /\
    oqueue_ (queues p') = Some [OutEndOfRib (mkEndOfRib false AFI_IPv4 SAFI_UNICAST); OutSessionStop true].
Proof.
  pose proof (sample_session_reachable lateUpdate _ ltac:(vm_compute; reflexivity)) as Hr.
  eexists _, _. split; [vm_compute; reflexivity|]. split; [vm_compute; reflexivity|].
  exact (proj2 (adj_rib_told_once _ _ _ _ true _ (EvIngress 0) _ Hr eq_refl eq_refl eq_refl)).
Defined.

(** ** What the handlers let through *)

(** A message is passed on to the Adj-RIB-In before the peer sent an OPEN. *)
Lemma update_before_open :
  exists p, sample_session [EvRead (ReadBytes sample_eor); EvIngress 0] = Some p /\
    state (peeringState_ p) = OPEN_SENT /\ remoteBgpId (peeringState_ p) = 0 /\
    oqueue_ (queues p) = Some [OutEndOfRib (mkEndOfRib false AFI_IPv4 SAFI_UNICAST)].
Proof. eexists. split; [vm_compute; reflexivity|]. split_and!; reflexivity. Qed.

(** A ROUTE-REFRESH header without a body ends the process: the exception of the
    cursor leaves the [noexcept] read loop. *)
Lemma short_route_refresh_crashes :
  exists p, sample_session
      [EvRead (ReadBytes (message_bytes BGP_MSG_TYPE_ROUTE_REFRESH []))] = Some p /\
    alive p = false.
Proof. eexists. split; [vm_compute; reflexivity|]. reflexivity. Qed.

(** The NOTIFICATION that answers a ROUTE-REFRESH of wrong length has a subcode
    that the parser of the same daemon rejects. *)
Lemma route_refresh_notification_rejected sc :
  checkNotifCodes (errCode_value BN_ROUTE_REFRESH_MSG_ERR) (routeRefreshSubCode_value sc) =
    Throw BgpException.
Proof. done. Qed.
