(* ===== verification/Threads.v ===== *)
(** * Interleaved threads

    The queues of lib/coro/ are shared by threads, fibers and coroutines that
    take turns at their locks and semaphores.  A thread is its program counter:
    where it stands in the body of an operation and the values it carries.  One
    step of a thread runs up to the next point at which another thread may
    intervene, and changes the shared object. *)

From stdpp Require Import list_numbers.
From stdpp Require Export relations.
From S2P Require Import Prelude.

#[global] Open Scope Z_scope.

Section Threads.
Context {Q PC Ev : Type}.
Variable advance : Q -> PC -> list (Q * PC * list Ev).
Variable start : PC -> bool.

Record Config := mkConfig { shared : Q; threads : list PC; history : list Ev }.

(** A call begins, or a thread makes one of the steps open to it. *)
Inductive step : Config -> Config -> Prop :=
| step_start q ts h pc :
    start pc = true -> step (mkConfig q ts h) (mkConfig q (ts ++ [pc]) h)
| step_thread q ts h i pc q' pc' ev :
    ts !! i = Some pc -> (q', pc', ev) ∈ advance q pc ->
    step (mkConfig q ts h) (mkConfig q' (<[i:=pc']> ts) (h ++ ev)).

Definition reachable (q0 : Q) : Config -> Prop := rtc step (mkConfig q0 [] []).

Lemma invariant_rule q0 (I : Config -> Prop) :
  I (mkConfig q0 [] []) -> (forall c c', I c -> step c c' -> I c') ->
  forall c, reachable q0 c -> I c.
Proof.
  intros Hinit Hstep c Hr. unfold reachable in Hr. revert Hinit.
  induction Hr as [|c1 c2 c3 Hs _ IH]; eauto.
Qed.

(** ** Executions

    A schedule says at each point which call begins or which thread takes its
    first open step. *)
Inductive Action := Start (pc : PC) | Run (i : nat).

Definition act (c : Config) (a : Action) : option Config :=
  match a with
  | Start pc =>
      if start pc then Some (mkConfig (shared c) (threads c ++ [pc]) (history c)) else None
  | Run i =>
      match threads c !! i with
      | Some pc =>
          match advance (shared c) pc with
          | (q, pc', ev) :: _ => Some (mkConfig q (<[i:=pc']> (threads c)) (history c ++ ev))
          | [] => None
          end
      | None => None
      end
  end.

Fixpoint exec (c : Config) (s : list Action) : option Config :=
  match s with
  | [] => Some c
  | a :: s => match act c a with Some c' => exec c' s | None => None end
  end.

Lemma act_step c a c' : act c a = Some c' -> step c c'.
Proof.
  destruct c as [q ts h], a as [pc|i]; simpl.
  - case_match; [|done]. intros [= <-]. by constructor.
  - destruct (ts !! i) as [pc|] eqn:Hi; [|done].
    destruct (advance q pc) as [|[[q' pc'] ev] l] eqn:Ha; [done|]. intros [= <-].
    eapply step_thread; [done|]. rewrite Ha. left.
Qed.

Lemma exec_rtc (P : Config -> Prop) s : forall c c', exec c s = Some c' ->
  (forall n c1, exec c (take n s) = Some c1 -> P c1) ->
  rtc (fun c1 c2 => step c1 c2 /\ P c2) c c'.
Proof.
  induction s as [|a s IH]; simpl; intros c c' H HP; [by simplify_eq|].
  destruct (act c a) as [c1|] eqn:Ha; [|done].
  apply rtc_l with c1; [split; [by eapply act_step|]|].
  - apply (HP 1%nat). simpl. by rewrite Ha.
  - apply IH; [done|]. intros n c2 Hn. apply (HP (S n)). simpl. by rewrite Ha.
Qed.

Lemma exec_reachable q0 s c : exec (mkConfig q0 [] []) s = Some c -> reachable q0 c.
Proof.
  intros H. apply (exec_rtc (fun _ => True)) in H; [|done].
  unfold reachable. clear s. induction H as [|c1 c2 c3 [] ? IH]; [done|by eapply rtc_l].
Qed.
End Threads.
Arguments Start {PC} pc.
Arguments Run {PC} i.
Arguments Config : clear implicits.
Arguments mkConfig {Q PC Ev} shared threads history.
Arguments shared {Q PC Ev} c.
Arguments threads {Q PC Ev} c.
Arguments history {Q PC Ev} c.

(** ** Counting threads

    [total f ts] adds up what the threads contribute, such as the number of
    those that stand at a given point. *)
Section Total.
Context {PC : Type}.
Implicit Types (f : PC -> nat) (ts : list PC).

Definition total f ts : nat := sum_list_with f ts.

Lemma total_app f ts1 ts2 : total f (ts1 ++ ts2) = (total f ts1 + total f ts2)%nat.
Proof. apply sum_list_with_app. Qed.

Lemma total_single f a : total f [a] = f a.
Proof. unfold total. simpl. lia. Qed.

Lemma total_insert f ts i a b : ts !! i = Some a ->
  (total f (<[i:=b]> ts) + f a = total f ts + f b)%nat.
Proof.
  unfold total. revert i. induction ts as [|x ts IH]; intros [|i] Hi; simplify_eq/=; [lia|].
  specialize (IH i Hi). lia.
Qed.

Lemma total_le f g ts : (forall pc, f pc <= g pc)%nat -> (total f ts <= total g ts)%nat.
Proof.
  intros H. unfold total. induction ts as [|x ts IH]; simpl; [done|]. specialize (H x). lia.
Qed.

Lemma total_elem f ts i a : ts !! i = Some a -> (f a <= total f ts)%nat.
Proof.
  unfold total. revert i. induction ts as [|x ts IH]; intros [|i] Hi; simplify_eq/=; [lia|].
  specialize (IH i Hi). lia.
Qed.
End Total.

(** [inv_advance H]: [H] is membership in the steps open to a thread, with the
    operations it calls unfolded. *)
Ltac inv_advance H :=
  simpl in H; repeat (case_match; simplify_eq/=);
  repeat match goal with
  | H : _ ∈ [] |- _ => by apply elem_of_nil in H
  | H : _ ∈ _ :: _ |- _ => apply elem_of_cons in H as [H|H]; simplify_eq/=
  end.
