(* ===== verification/WatermarkQueue.v ===== *)
(** * The bounded queue with watermarks

    [MPMCWatermarkQueue] (lib/coro/MPMCWatermarkQueue.h): a deque under a mutex,
    a semaphore counting what can be read, and a [blocked_] flag with hysteresis:
    set when the size reaches the high watermark, cleared, with a token for a
    waiting producer, when it falls to the low watermark. *)

From S2P Require Import Prelude Threads.

Section WatermarkQueue.
Context {T : Type}.
Variables capacity_ hiWm_ loWm_ : Z.

(** The semaphores are their number of tokens. *)
Record WatermarkQueue := mkWQ {
  queue_ : list T;
  blocked_ : bool;
  closed_ : bool;
  readSem_ : nat;
  writeSem_ : nat
}.

Definition newWatermarkQueue : WatermarkQueue := mkWQ [] false false 0 0.

(** Where a call stands.  [push]: the test of [closed_], the locked section, the
    signal.  [pop] and [get]: the wait for a token, the locked section.
    [waitToPush]: the test of [closed_], the wait, the second test, the locked
    test.  [close]: the store, the signal.  A coroutine suspended at a semaphore
    may be cancelled. *)
Inductive WqPC :=
| PushTest (v : T) | PushLocked (v : T) | PushSignal | PushRet (ok : bool)
| PopWait | PopLocked | PopRet (v : T) | PopUB
| CheckBlocked | WaitTest | WaitSem | WaitTest2 | WaitLocked | WaitRet (ok : bool)
| CloseStore | CloseSignal | CloseRet
| Cancelled.

Inductive WqEvent := Enqueued (v : T) | Dequeued (v : T).

(** The locked section of [push]; the value is what [push] returns. *)
Definition pushLocked (q : WatermarkQueue) (v : T) : WatermarkQueue * bool :=
  if capacity_ <=? blen (queue_ q) then (q, false)
  else
  let items := queue_ q ++ [v] in
  (mkWQ items (blocked_ q || (hiWm_ <=? blen items)) (closed_ q) (readSem_ q) (writeSem_ q),
   true).

(** [front()] of an empty deque is undefined behaviour ([None]). *)
Definition popNoLock (q : WatermarkQueue) : option (WatermarkQueue * T) :=
  match queue_ q with
  | [] => None
  | v :: rest =>
      Some (if blocked_ q && (blen rest <=? loWm_)
            then mkWQ rest false (closed_ q) (readSem_ q) (S (writeSem_ q))
            else mkWQ rest (blocked_ q) (closed_ q) (readSem_ q) (writeSem_ q), v)
  end.

Definition setSems (q : WatermarkQueue) (r w : nat) : WatermarkQueue :=
  mkWQ (queue_ q) (blocked_ q) (closed_ q) r w.

Definition wqAdvance (q : WatermarkQueue) (pc : WqPC) : list (WatermarkQueue * WqPC * list WqEvent) :=
  match pc with
  | PushTest v => [(q, if closed_ q then PushRet false else PushLocked v, [])]
  | PushLocked v =>
      let '(q', ok) := pushLocked q v in
      [(q', if ok then PushSignal else PushRet false, if ok then [Enqueued v] else [])]
  | PushSignal => [(setSems q (S (readSem_ q)) (writeSem_ q), PushRet true, [])]
  | PopWait =>
      match readSem_ q with
      | S n => [(setSems q n (writeSem_ q), PopLocked, [])]
      | O => []
      end ++ [(q, Cancelled, [])]
  | PopLocked =>
      match popNoLock q with
      | Some (q', v) => [(q', PopRet v, [Dequeued v])]
      | None => [(q, PopUB, [])]
      end
  | CheckBlocked => [(q, if blocked_ q then WaitTest else WaitRet true, [])]
  | WaitTest => [(q, if closed_ q then WaitRet false else WaitSem, [])]
  | WaitSem =>
      match writeSem_ q with
      | S n => [(setSems q (readSem_ q) n, WaitTest2, [])]
      | O => []
      end ++ [(q, Cancelled, [])]
  | WaitTest2 => [(q, if closed_ q then WaitRet false else WaitLocked, [])]
  | WaitLocked => [(q, if blocked_ q then WaitTest else WaitRet true, [])]
  | CloseStore =>
      [(mkWQ (queue_ q) (blocked_ q) true (readSem_ q) (writeSem_ q), CloseSignal, [])]
  | CloseSignal => [(setSems q (readSem_ q) (S (writeSem_ q)), CloseRet, [])]
  | PushRet _ | PopRet _ | PopUB | WaitRet _ | CloseRet | Cancelled => []
  end.

(** Calls of the public interface; a producer waits only after [isBlocked]. *)
Definition wqEntry (pc : WqPC) : bool :=
  match pc with
  | PushTest _ | PopWait | CheckBlocked | CloseStore => true
  | _ => false
  end.

Abbreviation config := (Config WatermarkQueue WqPC WqEvent).
Definition wq_reach : config -> Prop := reachable wqAdvance wqEntry newWatermarkQueue.

(** ** The invariant *)

Definition wq_at_pop (pc : WqPC) : nat := match pc with PopLocked => 1 | _ => 0 end.
Definition at_signal (pc : WqPC) : nat := match pc with PushSignal => 1 | _ => 0 end.
Definition wq_at_ub (pc : WqPC) : nat := match pc with PopUB => 1 | _ => 0 end.

(** The constructor's [CHECK_GT]s. *)
Hypothesis Hcap : hiWm_ < capacity_.
Hypothesis Hwm : loWm_ < hiWm_.
Hypothesis Hlo : 0 <= loWm_.

(** Every item is covered by a token, a consumer that took one, or a producer
    about to give one; the flag agrees with the watermarks. *)
Definition wq_inv (c : config) : Prop :=
  let q := shared c in
  blen (queue_ q) <= capacity_ /\
  (if blocked_ q then loWm_ < blen (queue_ q) else blen (queue_ q) < hiWm_) /\
  (readSem_ q + total wq_at_pop (threads c) + total at_signal (threads c) =
     length (queue_ q))%nat /\
  total wq_at_ub (threads c) = 0%nat.

Lemma wq_inv_step c c' : wq_inv c -> step wqAdvance wqEntry c c' -> wq_inv c'.
Proof.
  intros (Hle & Hb & Hsem & Hub) Hs. destruct Hs as [q ts h pc He|q ts h i pc q' pc' ev Hi Hadv].
  - unfold wq_inv in *. simpl in *. rewrite !total_app, !total_single.
    destruct pc; simpl in *; try done; split_and!; try done; lia.
  - unfold wq_inv in *. simpl in *.
    pose proof (total_insert wq_at_pop ts i pc pc' Hi) as H1.
    pose proof (total_insert at_signal ts i pc pc' Hi) as H2.
    pose proof (total_insert wq_at_ub ts i pc pc' Hi) as H3.
    pose proof (total_elem wq_at_pop ts i pc Hi) as H4.
    destruct q as [items bl cl rs ws]. simpl in *.
    destruct bl, pc; unfold wqAdvance, pushLocked, popNoLock in Hadv; inv_advance Hadv;
      rewrite ?length_app in *; simpl in *; split_and!; try done; try lia;
      repeat case_match; simplify_eq/=; zbool; try done; lia.
Qed.

Lemma wq_inv_reach c : wq_reach c -> wq_inv c.
Proof.
  apply invariant_rule; [|exact wq_inv_step]. unfold wq_inv. simpl.
  split_and!; try done; lia.
Qed.

(** ** First in, first out *)

Definition enqueued (h : list WqEvent) : list T :=
  omap (fun e => match e with Enqueued v => Some v | _ => None end) h.
Definition dequeued (h : list WqEvent) : list T :=
  omap (fun e => match e with Dequeued v => Some v | _ => None end) h.

Lemma wq_fifo_reach c : wq_reach c -> dequeued (history c) ++ queue_ (shared c) = enqueued (history c).
Proof.
  apply (invariant_rule wqAdvance wqEntry _
    (fun c => dequeued (history c) ++ queue_ (shared c) = enqueued (history c))); [done|].
  intros c1 c2 E Hs. destruct Hs as [|q ts h i pc q' pc' ev Hi Hadv]; [done|].
  unfold enqueued, dequeued in *. simpl in *. rewrite !omap_app, <- E.
  destruct q as [items bl cl rs ws].
  destruct pc; unfold wqAdvance, pushLocked, popNoLock in Hadv; inv_advance Hadv; rewrite ?app_nil_r, <- ?app_assoc; done.
Qed.

(** ** A producer that waits alone *)

Definition at_wait (pc : WqPC) : nat :=
  match pc with WaitTest | WaitSem | WaitTest2 | WaitLocked => 1 | _ => 0 end.
Definition at_suspend (pc : WqPC) : nat := match pc with WaitTest | WaitSem => 1 | _ => 0 end.
Definition at_sem (pc : WqPC) : nat := match pc with WaitSem => 1 | _ => 0 end.
Definition at_closing (pc : WqPC) : nat := match pc with CloseSignal => 1 | _ => 0 end.

(** Executions in which at most one producer waits at a time. *)
Definition reach_sole : config -> Prop :=
  rtc (fun c c' => step wqAdvance wqEntry c c' /\ (total at_wait (threads c') <= 1)%nat)
    (mkConfig newWatermarkQueue [] []).

Definition sole_inv (c : config) : Prop :=
  let q := shared c in
  ((0 < total at_suspend (threads c))%nat -> blocked_ q = true \/ (0 < writeSem_ q)%nat) /\
  (closed_ q = true -> (0 < total at_sem (threads c))%nat ->
     (0 < writeSem_ q + total at_closing (threads c))%nat) /\
  (total at_wait (threads c) <= 1)%nat.

Lemma sole_inv_step c c' : sole_inv c -> step wqAdvance wqEntry c c' ->
  (total at_wait (threads c') <= 1)%nat -> sole_inv c'.
Proof.
  intros (Hs & Hcl & Hw0) Hstep H1.
  assert (Hle : forall ts, (total at_sem ts <= total at_suspend ts <= total at_wait ts)%nat).
  { intros ts. split; apply total_le; intros []; simpl; lia. }
  destruct Hstep as [q ts h pc He|q ts h i pc q' pc' ev Hi Hadv]; unfold sole_inv in *; simpl in *.
  - rewrite !total_app, !total_single in *.
    destruct pc; simpl in *; try done; split_and!; intros;
      first [lia | apply Hs; lia | cut (0 < writeSem_ q + total at_closing ts)%nat; [lia|apply Hcl; [done|lia]]].
  - pose proof (total_insert at_wait ts i pc pc' Hi) as Hw.
    pose proof (total_insert at_suspend ts i pc pc' Hi) as Hsu.
    pose proof (total_insert at_sem ts i pc pc' Hi) as Hse.
    pose proof (total_insert at_closing ts i pc pc' Hi) as Hc.
    destruct q as [items bl cl rs ws]. simpl in *. pose proof (Hle ts).
    pose proof (Hle (<[i:=pc']> ts)).
    destruct pc; unfold wqAdvance, pushLocked, popNoLock in Hadv; inv_advance Hadv;
      split_and!; intros; simplify_eq/=;
      try solve [lia | by left | right; lia | done
        | destruct Hs as [->|]; [lia|by left|right; lia]
        | specialize (Hcl eq_refl); lia ].
Qed.
End WatermarkQueue.
Arguments WatermarkQueue : clear implicits.
Arguments WqPC : clear implicits.
Arguments WqEvent : clear implicits.


(** Three pushes, one pop, with capacity 4 and watermarks 3 and 1. *)
Definition wq_schedule : list (Action (PC := WqPC Z)) :=
  [Start (PushTest 1); Start (PushTest 2); Start PopWait; Run 1; Run 0; Run 1; Run 0;
   Run 0; Run 2; Run 1; Run 2; Start (PushTest 3); Run 3; Run 3].


(** A producer that tests [isBlocked] first and waits alone is never left
    behind: as long as it is suspended without a token the queue is blocked, so
    the pop that unblocks the queue wakes it; and once the queue is closed there
    is a token for it, or the closing call is about to give one. *)
Theorem sole_producer_woken {T} (capacity hiWm loWm : Z) (c : Config (WatermarkQueue T) (WqPC T) (WqEvent T)) i :
  reach_sole capacity hiWm loWm c -> threads c !! i = Some WaitSem ->
  let q := shared c in
  (writeSem_ q = 0%nat -> blocked_ q = true) /\
  (closed_ q = true -> (0 < writeSem_ q)%nat \/ exists j, threads c !! j = Some CloseSignal).
Proof.
  intros Hr Hi q.
  assert (Hinv : sole_inv c).
  { assert (H0 : sole_inv (T:=T) (mkConfig newWatermarkQueue [] [])).
    { unfold sole_inv. simpl. split_and!; intros; lia. }
    revert H0. unfold reach_sole in Hr. induction Hr as [|c1 c2 c3 [Hs Hw] _ IH]; [done|].
    intros H0. apply IH; [done|]. by eapply sole_inv_step. }
  destruct Hinv as (Hs & Hcl & _).
  pose proof (total_elem at_suspend _ _ _ Hi) as H1.
  pose proof (total_elem at_sem _ _ _ Hi) as H2. simpl in H1, H2. split.
  - intros H0. destruct Hs as [?|?]; [lia|done|]. subst q. lia.
  - intros Hc. specialize (Hcl Hc ltac:(lia)).
    destruct (decide (writeSem_ q = 0%nat)) as [E|E]; [|left; lia]. right.
    assert (Hp : (0 < total at_closing (threads c))%nat) by (subst q; lia).
    revert Hp. generalize (threads c). induction l as [|pc l IH]; unfold total; simpl; [lia|].
    intros Hp. destruct (decide (at_closing pc = 0%nat)) as [Hpc|Hpc].
    + destruct IH as [j Hj]; [unfold total; lia|]. by exists (S j).
    + exists 0%nat. by destruct pc.
Qed.

(** One producer fills the queue to the high watermark and waits. *)
Definition waiting_schedule : list (Action (PC := WqPC Z)) :=
  [Start (PushTest 1); Run 0; Run 0; Run 0; Start CheckBlocked; Run 1; Run 1].

Lemma sole_producer_woken_witness :
  exists c, exec (wqAdvance 2 1 0) wqEntry (mkConfig newWatermarkQueue [] []) waiting_schedule = Some c /\
    threads c !! 1%nat = Some WaitSem /\ writeSem_ (shared c) = 0%nat /\
    blocked_ (shared c) = true.
Proof.
  eexists. split; [vm_compute; reflexivity|]. split_and!; [vm_compute; reflexivity..|].
  eapply (sole_producer_woken 2 1 0 _ 1); [|vm_compute; reflexivity..].
  apply (exec_rtc _ _ _ waiting_schedule); [vm_compute; reflexivity|].
  intros n c1 Hn. do 8 (destruct n as [|n]; [vm_compute in Hn; simplify_eq; vm_compute; lia|]).
  rewrite take_ge in Hn by (simpl; lia). vm_compute in Hn. simplify_eq. vm_compute. lia.
Defined.

(** Two producers wait; [close] gives one token, so one of them stays suspended
    with nobody left to wake it: every other call has returned. *)
Definition two_waiters_schedule : list (Action (PC := WqPC Z)) :=
  [Start (PushTest 1); Run 0; Run 0; Run 0; Start CheckBlocked; Run 1; Run 1;
   Start CheckBlocked; Run 2; Run 2; Start CloseStore; Run 3; Run 3; Run 1; Run 1].

Lemma close_wakes_one_waiter :
  exists c, wq_reach (T:=Z) 2 1 0 c /\ closed_ (shared c) = true /\
    threads c = [PushRet true; WaitRet false; WaitSem; CloseRet] /\
    wqAdvance 2 1 0 (shared c) WaitSem = [(shared c, Cancelled, [])].
Proof.
  eexists. split; [apply (exec_reachable _ _ _ two_waiters_schedule); vm_compute; reflexivity|].
  split_and!; reflexivity.
Qed.
