(* ===== verification/BackPressuredQueue.v ===== *)
(** * The back-pressured queue

    [BackPressuredQueue] (lib/coro/BackPressuredQueue.h): a producer that finds
    the data queue full enters its request in a counter and waits at a semaphore;
    each pop that sees a request takes it off the counter and gives one token.  A
    woken producer tries again, in competition with the others.  Closing the
    queue wakes everybody and makes pushes drop their data. *)

From S2P Require Import Prelude Threads.

Section BackPressuredQueue.
Context {T : Type}.
Variable capacity_ : nat.

Record BackPressuredQueue := mkBPQ {
  dataQueue_ : list T;
  closed_ : bool;
  dataQueueReadSem_ : nat;
  pushRequestQueue_ : nat;
  pushRequestQueueSize_ : nat
}.

Definition newBackPressuredQueue : BackPressuredQueue := mkBPQ [] false 0 0 0.

(** Where a call stands: the request of a push, its wait, the signal to the
    consumers; [forcePush]; the wait of a pop, its locked section, the signal to
    a producer; [close] with the signals still to give; [open].  The push of a
    coroutine may be cancelled while it waits, and so may a pop. *)
Inductive BpqPC :=
| PushRequest (v : T) | PushWait (v : T) | PushSignal | PushRet (pushed : bool)
| ForceLocked (v : T) | ForceSignal | ForceRet
| PopWait | PopLocked | PopSignal (v : T) | PopRet (v : T) | PopUB
| CloseLocked | CloseSignal (n : nat) | OpenLocked | DoneRet
| Cancelled.

Inductive BpqEvent := Accepted (v : T) | Forced (v : T) | Dropped (v : T) | Popped (v : T).

(** (granted, pushed) *)
Definition requestPushToDataQueue (q : BackPressuredQueue) (v : T)
    : BackPressuredQueue * (bool * bool) :=
  let '(mkBPQ dq cl rs pr n) := q in
  if cl then (q, (true, false))
  else if (length dq <? capacity_)%nat then (mkBPQ (dq ++ [v]) cl rs pr n, (true, true))
  else (mkBPQ dq cl rs pr (S n), (false, false)).

(** The value and [wakeUpPushRequest]; [front()] of an empty deque is undefined. *)
Definition popDataQueue (q : BackPressuredQueue) : option (BackPressuredQueue * (T * bool)) :=
  let '(mkBPQ dq cl rs pr n) := q in
  match dq with
  | [] => None
  | v :: dq =>
      Some (match n with
            | O => (mkBPQ dq cl rs pr n, (v, false))
            | S n => (mkBPQ dq cl rs pr n, (v, true))
            end)
  end.

Definition forcePushLocked (q : BackPressuredQueue) (v : T) : BackPressuredQueue :=
  let '(mkBPQ dq cl rs pr n) := q in mkBPQ (dq ++ [v]) cl rs pr n.

(** The signals [close] has to give, read under the lock. *)
Definition closeLocked (q : BackPressuredQueue) : BackPressuredQueue * nat :=
  let '(mkBPQ dq cl rs pr n) := q in (mkBPQ dq true rs pr 0, n).

Definition signalData (q : BackPressuredQueue) : BackPressuredQueue :=
  let '(mkBPQ dq cl rs pr n) := q in mkBPQ dq cl (S rs) pr n.
Definition signalPush (q : BackPressuredQueue) : BackPressuredQueue :=
  let '(mkBPQ dq cl rs pr n) := q in mkBPQ dq cl rs (S pr) n.

Definition bpqAdvance (q : BackPressuredQueue) (pc : BpqPC)
    : list (BackPressuredQueue * BpqPC * list BpqEvent) :=
  match pc with
  | PushRequest v =>
      match requestPushToDataQueue q v with
      | (q', (true, true)) => [(q', PushSignal, [Accepted v])]
      | (q', (true, false)) => [(q', PushRet false, [Dropped v])]
      | (q', (false, _)) => [(q', PushWait v, [])]
      end
  | PushWait v =>
      match pushRequestQueue_ q with
      | S n => [(mkBPQ (dataQueue_ q) (closed_ q) (dataQueueReadSem_ q) n
                   (pushRequestQueueSize_ q), PushRequest v, [])]
      | O => []
      end ++ [(q, Cancelled, [])]
  | PushSignal => [(signalData q, PushRet true, [])]
  | ForceLocked v => [(forcePushLocked q v, ForceSignal, [Forced v])]
  | ForceSignal => [(signalData q, ForceRet, [])]
  | PopWait =>
      match dataQueueReadSem_ q with
      | S n => [(mkBPQ (dataQueue_ q) (closed_ q) n (pushRequestQueue_ q)
                   (pushRequestQueueSize_ q), PopLocked, [])]
      | O => []
      end ++ [(q, Cancelled, [])]
  | PopLocked =>
      match popDataQueue q with
      | Some (q', (v, wake)) => [(q', if wake then PopSignal v else PopRet v, [Popped v])]
      | None => [(q, PopUB, [])]
      end
  | PopSignal v => [(signalPush q, PopRet v, [])]
  | CloseLocked => let '(q', n) := closeLocked q in [(q', CloseSignal n, [])]
  | CloseSignal (S n) => [(signalPush q, CloseSignal n, [])]
  | CloseSignal O => [(q, DoneRet, [])]
  | OpenLocked =>
      [(mkBPQ (dataQueue_ q) false (dataQueueReadSem_ q) (pushRequestQueue_ q)
          (pushRequestQueueSize_ q), DoneRet, [])]
  | PushRet _ | ForceRet | PopRet _ | PopUB | DoneRet | Cancelled => []
  end.

Definition bpqEntry (pc : BpqPC) : bool :=
  match pc with
  | PushRequest _ | ForceLocked _ | PopWait | CloseLocked | OpenLocked => true
  | _ => false
  end.

Abbreviation config := (Config BackPressuredQueue BpqPC BpqEvent).
Definition bpq_reach : config -> Prop := reachable bpqAdvance bpqEntry newBackPressuredQueue.

(** ** What the threads contribute *)

Definition bpq_at_pop (pc : BpqPC) : nat := match pc with PopLocked => 1 | _ => 0 end.
Definition at_data_signal (pc : BpqPC) : nat :=
  match pc with PushSignal | ForceSignal => 1 | _ => 0 end.
Definition bpq_at_ub (pc : BpqPC) : nat := match pc with PopUB => 1 | _ => 0 end.
(** Producers asleep at the semaphore, producers about to try, and tokens on
    their way to the semaphore. *)
Definition asleep (pc : BpqPC) : nat := match pc with PushWait _ => 1 | _ => 0 end.
Definition awake (pc : BpqPC) : nat := match pc with PushRequest _ => 1 | _ => 0 end.
Definition token_due (pc : BpqPC) : nat :=
  match pc with PopSignal _ => 1 | CloseSignal n => n | _ => 0 end.

Definition forced_count (h : list BpqEvent) : nat :=
  length (omap (fun e => match e with Forced v => Some v | _ => None end) h).

(** Items are covered by tokens; requests cover sleepers; while a request is
    outstanding the room of the queue is taken, or someone is on the way to
    take it. *)
Definition bpq_inv (c : config) : Prop :=
  let q := shared c in
  let tokens := (pushRequestQueue_ q + total token_due (threads c))%nat in
  (dataQueueReadSem_ q + total bpq_at_pop (threads c) + total at_data_signal (threads c) =
     length (dataQueue_ q))%nat /\
  total bpq_at_ub (threads c) = 0%nat /\
  (length (dataQueue_ q) <= capacity_ + forced_count (history c))%nat /\
  (total asleep (threads c) <= pushRequestQueueSize_ q + tokens)%nat /\
  (closed_ q = true -> pushRequestQueueSize_ q = 0%nat) /\
  ((0 < pushRequestQueueSize_ q)%nat ->
     (capacity_ <= length (dataQueue_ q) + tokens + total awake (threads c))%nat).

Lemma bpq_inv_step c c' : bpq_inv c -> step bpqAdvance bpqEntry c c' -> bpq_inv c'.
Proof.
  intros (Hsem & Hub & Hle & Hsl & Hcl & Hfull) Hs.
  destruct Hs as [q ts h pc He|q ts h i pc q' pc' ev Hi Hadv]; unfold bpq_inv in *; simpl in *.
  - rewrite !total_app, !total_single.
    destruct pc; simpl in *; try done; split_and!; intros; first [lia | auto].
  - pose proof (total_insert bpq_at_pop ts i pc pc' Hi) as H1.
    pose proof (total_insert at_data_signal ts i pc pc' Hi) as H2.
    pose proof (total_insert bpq_at_ub ts i pc pc' Hi) as H3.
    pose proof (total_insert asleep ts i pc pc' Hi) as H4.
    pose proof (total_insert awake ts i pc pc' Hi) as H5.
    pose proof (total_insert token_due ts i pc pc' Hi) as H6.
    pose proof (total_elem bpq_at_pop ts i pc Hi) as H7.
    unfold forced_count in *. rewrite omap_app, length_app.
    destruct q as [dq cl rs pr n]. simpl in *.
    destruct pc; unfold bpqAdvance, requestPushToDataQueue, popDataQueue, closeLocked in Hadv;
      inv_advance Hadv; rewrite ?length_app in *; simpl in *;
      repeat match goal with
      | H : (_ <? _)%nat = true |- _ => apply Nat.ltb_lt in H
      | H : (_ <? _)%nat = false |- _ => apply Nat.ltb_ge in H
      end;
      split_and!; intros; first [lia | solve [auto] | specialize (Hcl ltac:(done)); lia].
Qed.

Lemma bpq_inv_reach c : bpq_reach c -> bpq_inv c.
Proof.
  apply invariant_rule; [|exact bpq_inv_step]. unfold bpq_inv, forced_count. simpl.
  split_and!; intros; done || lia.
Qed.

(** ** First in, first out *)

Definition entered (h : list BpqEvent) : list T :=
  omap (fun e => match e with Accepted v | Forced v => Some v | _ => None end) h.
Definition popped (h : list BpqEvent) : list T :=
  omap (fun e => match e with Popped v => Some v | _ => None end) h.

Lemma bpq_fifo_reach c : bpq_reach c -> popped (history c) ++ dataQueue_ (shared c) = entered (history c).
Proof.
  apply (invariant_rule bpqAdvance bpqEntry _
    (fun c => popped (history c) ++ dataQueue_ (shared c) = entered (history c))); [done|].
  intros c1 c2 E Hs. destruct Hs as [|q ts h i pc q' pc' ev Hi Hadv]; [done|].
  unfold entered, popped in *. simpl in *. rewrite !omap_app, <- E.
  destruct q as [dq cl rs pr n].
  destruct pc; unfold bpqAdvance, requestPushToDataQueue, popDataQueue, closeLocked in Hadv;
    inv_advance Hadv; rewrite ?app_nil_r, <- ?app_assoc; done.
Qed.
End BackPressuredQueue.
Arguments BackPressuredQueue : clear implicits.
Arguments BpqPC : clear implicits.
Arguments BpqEvent : clear implicits.

(** C36. Whatever coroutines and fibers push, force, pop, close, reopen and are
    cancelled, in any interleaving: the data queue exceeds its capacity by no
    more than the forced pushes, a consumer that got a token never finds it
    empty, and what was popped followed by what is queued is what was accepted,
    in order. *)
Theorem back_pressured_queue_safe {T} (capacity : nat)
    (c : Config (BackPressuredQueue T) (BpqPC T) (BpqEvent T)) :
  bpq_reach capacity c ->
  let q := shared c in
  (length (dataQueue_ q) <= capacity + forced_count (history c))%nat /\
  (forall i, threads c !! i <> Some PopUB) /\
  popped (history c) ++ dataQueue_ q = entered (history c).
Proof.
  intros Hr q. destruct (bpq_inv_reach _ c Hr) as (_ & Hub & Hle & _).
  split_and!; [done| |by eapply bpq_fifo_reach].
  intros i Hi. pose proof (total_elem bpq_at_ub _ _ _ Hi). simpl in *. lia.
Qed.

(** Two producers at a queue of one item, then a pop. *)
Definition bpq_schedule : list (Action (PC := BpqPC Z)) :=
  [Start (PushRequest 1); Start (PushRequest 2); Run 0; Run 1; Run 0; Start PopWait; Run 2;
   Run 2; Run 2; Run 1; Run 1].

Lemma back_pressured_queue_safe_witness :
  exists c, exec (bpqAdvance 1) bpqEntry (mkConfig newBackPressuredQueue [] []) bpq_schedule = Some c /\
    popped (history c) = [1] /\ dataQueue_ (shared c) = [2] /\
    popped (history c) ++ dataQueue_ (shared c) = entered (history c).
Proof.
  eexists. split; [vm_compute; reflexivity|]. split_and!; [vm_compute; reflexivity..|].
  apply (back_pressured_queue_safe 1).
  apply (exec_reachable _ _ _ bpq_schedule). vm_compute. reflexivity.
Defined.

(** Tokens at the producers' semaphore and on their way to it. *)
Definition wake_tokens {T} (c : Config (BackPressuredQueue T) (BpqPC T) (BpqEvent T)) : nat :=
  (pushRequestQueue_ (shared c) + total token_due (threads c))%nat.

(** C37. No wake-up is lost: while more producers sleep than there are tokens
    at their semaphore or due to it, the queue is open, every place of it is
    taken or claimed, by one of these tokens or by a producer that is about to
    try its push, and the next pop owes the sleepers another token.  In
    particular the queue is full when there is no token and no producer about to
    try.  This holds also after cancelled pushes and after closing and
    reopening. *)
Theorem sleeping_producer_means_full {T} (capacity : nat)
    (c : Config (BackPressuredQueue T) (BpqPC T) (BpqEvent T)) :
  bpq_reach capacity c -> (wake_tokens c < total asleep (threads c))%nat ->
  closed_ (shared c) = false /\
  (capacity <= length (dataQueue_ (shared c)) + wake_tokens c + total awake (threads c))%nat /\
  (forall q' v wakes, popDataQueue (shared c) = Some (q', (v, wakes)) -> wakes = true).
Proof.
  unfold wake_tokens. intros Hr Hlt.
  destruct (bpq_inv_reach _ c Hr) as (_ & _ & _ & Hsl & Hcl & Hfull).
  split_and!; [| |].
  - destruct (closed_ (shared c)) eqn:E; [|done]. specialize (Hcl eq_refl). lia.
  - specialize (Hfull ltac:(lia)). lia.
  - intros q' v wakes Hp. destruct (shared c) as [dq cl rs pr n]. simpl in *.
    destruct dq; [done|]. destruct n; simplify_eq/=; [lia|done].
Qed.

(** Three producers at a queue of one item; the first pushes, the others sleep,
    a pop wakes one of them, which has not tried yet: the place that is free is
    the one it claims. *)
Definition sleeping_schedule : list (Action (PC := BpqPC Z)) :=
  [Start (PushRequest 1); Start (PushRequest 2); Start (PushRequest 3); Run 0; Run 1; Run 2; Run 0;
   Start PopWait; Run 3; Run 3; Run 3; Run 1].

Lemma sleeping_producer_means_full_witness :
  exists c, exec (bpqAdvance 1) bpqEntry (mkConfig newBackPressuredQueue [] []) sleeping_schedule = Some c /\
    threads c !! 2%nat = Some (PushWait 3) /\ threads c !! 1%nat = Some (PushRequest 2) /\
    dataQueue_ (shared c) = [] /\ closed_ (shared c) = false /\
    (1 <= length (dataQueue_ (shared c)) + wake_tokens c + total awake (threads c))%nat.
Proof.
  eexists. split; [vm_compute; reflexivity|]. do 3 (split; [vm_compute; reflexivity|]).
  edestruct (sleeping_producer_means_full (T := Z) 1) as (Hopen & Hroom & _);
    [apply (exec_reachable _ _ _ sleeping_schedule); vm_compute; reflexivity
    |apply Nat.ltb_lt; vm_compute; reflexivity|].
  exact (conj Hopen Hroom).
Defined.
