(* ===== verification/ConsumerBitmap.v ===== *)
(** * Consumer bitmaps (changeTracker/ConsumerBitmap.h)

    A bitmap is a [std::vector<uint64_t>], here the list of its words; bit
    [position] is bit [position mod 64] of word [position / 64].  [bit_of] reads
    a bitmap as a set of positions, and the theorems say what each function does
    to that set. *)

From S2P Require Import Prelude.

Abbreviation ConsumerBitmap := (list Z).

Definition kBitsPerWord : Z := 64.
Definition maxWord : Z := 2 ^ 64 - 1.

Definition word_index (position : Z) : nat := Z.to_nat (position / kBitsPerWord).
Definition bit_offset (position : Z) : Z := position mod kBitsPerWord.

(** [bitmap.resize(n, v)] *)
Definition resize (n : nat) (v : Z) (bitmap : ConsumerBitmap) : ConsumerBitmap :=
  take n bitmap ++ replicate (n - length bitmap) v.

Definition setBit (bitmap : ConsumerBitmap) (position : Z) : ConsumerBitmap :=
  let index := word_index position in
  let bitOffset := bit_offset position in
  let bitmap := if (length bitmap <=? index)%nat then resize (index + 1) 0 bitmap else bitmap in
  if (index <? length bitmap)%nat then
    alter (fun w => Z.lor w (Z.shiftl 1 bitOffset)) index bitmap
  else bitmap.

Definition clearBit (bitmap : ConsumerBitmap) (position : Z) : ConsumerBitmap :=
  let index := word_index position in
  let bitOffset := bit_offset position in
  if (index <? length bitmap)%nat then
    alter (fun w => Z.land w (Z.lxor maxWord (Z.shiftl 1 bitOffset))) index bitmap
  else bitmap.

Definition isBitSet (bitmap : ConsumerBitmap) (position : Z) : bool :=
  let index := word_index position in
  let bitOffset := bit_offset position in
  if (length bitmap <=? index)%nat then false
  else negb (Z.land (nth index bitmap 0) (Z.shiftl 1 bitOffset) =? 0).

Definition isAllBitsCleared (bitmap : ConsumerBitmap) : bool :=
  forallb (fun bits => bits =? 0) bitmap.

Definition clearAllBits (bitmap : ConsumerBitmap) : ConsumerBitmap :=
  map (fun _ => 0) bitmap.

Definition createFullBitmap (numConsumers : Z) : ConsumerBitmap :=
  let numWords := Z.to_nat ((numConsumers + kBitsPerWord - 1) / kBitsPerWord) in
  let bitmap := resize numWords maxWord [] in
  let remainingBits := numConsumers mod kBitsPerWord in
  if (0 <? remainingBits) && (0 <? numWords)%nat then
    <[(numWords - 1)%nat := Z.shiftl 1 remainingBits - 1]> bitmap
  else bitmap.

(** The two copying loops, element by element. *)
Definition orBitmaps (bitmap1 bitmap2 : ConsumerBitmap) : ConsumerBitmap :=
  let result := resize (Nat.max (length bitmap1) (length bitmap2)) 0 [] in
  let result := imap (fun i w => default w (bitmap1 !! i)) result in
  imap (fun i w => Z.lor w (default 0 (bitmap2 !! i))) result.

(** ** The set a bitmap stands for *)

Definition wf_bitmap (bitmap : ConsumerBitmap) : Prop := Forall (fun w => 0 <= w <= maxWord) bitmap.

Definition bit_of (bitmap : ConsumerBitmap) (position : Z) : bool :=
  Z.testbit (nth (word_index position) bitmap 0) (bit_offset position).

Lemma bit_offset_range p : 0 <= bit_offset p < 64.
Proof. apply Z.mod_pos_bound. done. Qed.

Lemma position_eq p q : 0 <= p -> 0 <= q ->
  p = q <-> word_index p = word_index q /\ bit_offset p = bit_offset q.
Proof.
  unfold word_index, bit_offset, kBitsPerWord. intros Hp Hq. split; [by intros ->|].
  intros [Hi Ho]. assert (p / 64 = q / 64).
  { apply Z2Nat.inj; [apply Z.div_pos; lia..|done]. }
  rewrite (Z.div_mod p 64), (Z.div_mod q 64) by lia. lia.
Qed.

Lemma testbit_mask w k : 0 <= k -> negb (Z.land w (Z.shiftl 1 k) =? 0) = Z.testbit w k.
Proof.
  intros Hk. destruct (Z.testbit w k) eqn:E.
  - apply negb_true_iff, Z.eqb_neq. intros H0.
    assert (Hb : Z.testbit (Z.land w (Z.shiftl 1 k)) k = true).
    { rewrite Z.land_spec, E, Z.shiftl_spec by lia. by rewrite Z.sub_diag. }
    rewrite H0, Z.testbit_0_l in Hb. done.
  - apply negb_false_iff, Z.eqb_eq. apply Z.bits_inj'. intros n Hn.
    rewrite Z.land_spec, Z.testbit_0_l, Z.shiftl_spec by lia.
    destruct (decide (n = k)) as [->|Hne]; [by rewrite E|].
    destruct (Z.testbit 1 (n - k)) eqn:E1; [|by rewrite andb_false_r].
    exfalso. destruct (decide (n < k)); [by rewrite Z.testbit_neg_r in E1 by lia|].
    change 1 with (2 ^ 0) in E1. rewrite Z.pow2_bits_eqb in E1 by lia.
    apply Z.eqb_eq in E1. lia.
Qed.

Lemma shiftl_1_testbit k n : 0 <= k -> 0 <= n -> Z.testbit (Z.shiftl 1 k) n = (n =? k).
Proof.
  intros Hk Hn. rewrite Z.shiftl_1_l, Z.pow2_bits_eqb by lia. apply Z.eqb_sym.
Qed.

(** [isBitSet] reads the bit: its range check only avoids the access. *)
Lemma isBitSet_bit_of bitmap p : isBitSet bitmap p = bit_of bitmap p.
Proof.
  unfold isBitSet, bit_of. cbv zeta. pose proof (bit_offset_range p).
  destruct (Nat.leb_spec (length bitmap) (word_index p)).
  - rewrite nth_overflow by lia. by rewrite Z.testbit_0_l.
  - apply testbit_mask. lia.
Qed.

Lemma nth_alter (f : Z -> Z) i j (l : list Z) : (i < length l)%nat ->
  nth j (alter f i l) 0 = if decide (i = j) then f (nth j l 0) else nth j l 0.
Proof.
  intros Hi. rewrite !nth_lookup. case_decide as E.
  - subst j. rewrite list_lookup_alter_eq. destruct (lookup_lt_is_Some_2 l i Hi) as [x ->]. done.
  - by rewrite list_lookup_alter_ne.
Qed.

Lemma nth_resize n v j (l : list Z) : (length l <= n)%nat ->
  nth j (resize n v l) 0 =
    if decide (j < length l)%nat then nth j l 0 else if decide (j < n)%nat then v else 0.
Proof.
  intros Hn. unfold resize. rewrite take_ge by lia. repeat case_decide.
  - by rewrite app_nth1.
  - rewrite app_nth2, nth_lookup by lia. by rewrite lookup_replicate_2 by lia.
  - rewrite nth_overflow; [done|]. rewrite length_app, length_replicate. lia.
Qed.

Lemma position_eqb p q : 0 <= p -> 0 <= q ->
  (q =? p) = bool_decide (word_index p = word_index q) && (bit_offset q =? bit_offset p).
Proof.
  intros Hp Hq. destruct (Z.eqb_spec q p) as [->|Hne].
  - by rewrite bool_decide_eq_true_2, Z.eqb_refl.
  - case_bool_decide as Hi; [|done]. destruct (Z.eqb_spec (bit_offset q) (bit_offset p)); [|done].
    destruct Hne. by apply position_eq.
Qed.

Lemma bit_of_setBit bitmap p q : 0 <= p -> 0 <= q ->
  bit_of (setBit bitmap p) q = (q =? p) || bit_of bitmap q.
Proof.
  intros Hp Hq. pose proof (bit_offset_range p). pose proof (bit_offset_range q).
  unfold setBit, bit_of. cbv zeta.
  set (b1 := if (length bitmap <=? word_index p)%nat then _ else bitmap).
  assert (Hl : (word_index p < length b1)%nat /\ forall j, nth j b1 0 = nth j bitmap 0).
  { subst b1. destruct (Nat.leb_spec (length bitmap) (word_index p)); [|done]. split.
    - unfold resize. rewrite length_app, length_replicate, length_take. lia.
    - intros j. rewrite nth_resize by lia. repeat case_decide; [done|..];
        by rewrite nth_overflow by lia. }
  destruct Hl as [Hl Hn]. destruct (Nat.ltb_spec (word_index p) (length b1)); [|lia].
  rewrite nth_alter, Hn, position_eqb by done.
  case_decide as E; [rewrite bool_decide_eq_true_2 by done|by rewrite bool_decide_eq_false_2].
  rewrite Z.lor_spec, shiftl_1_testbit by lia. by rewrite orb_comm.
Qed.

Lemma bit_of_clearBit bitmap p q : 0 <= p -> 0 <= q ->
  bit_of (clearBit bitmap p) q = negb (q =? p) && bit_of bitmap q.
Proof.
  intros Hp Hq. pose proof (bit_offset_range p). pose proof (bit_offset_range q).
  unfold clearBit, bit_of. cbv zeta. rewrite position_eqb by done.
  destruct (Nat.ltb_spec (word_index p) (length bitmap)).
  - rewrite nth_alter by done.
    case_decide as E; [rewrite bool_decide_eq_true_2 by done|by rewrite bool_decide_eq_false_2].
    rewrite Z.land_spec, Z.lxor_spec, shiftl_1_testbit by lia.
    change maxWord with (Z.ones 64). rewrite Z.ones_spec_low by lia. cbn [andb xorb].
    by rewrite andb_comm.
  - case_bool_decide as E; [|done]. rewrite <- E, nth_overflow by lia.
    by rewrite Z.testbit_0_l, andb_false_r.
Qed.

Lemma bit_of_orBitmaps b1 b2 q : bit_of (orBitmaps b1 b2) q = bit_of b1 q || bit_of b2 q.
Proof.
  unfold bit_of, orBitmaps. cbv zeta. set (i := word_index q). rewrite <- Z.lor_spec. f_equal.
  rewrite !nth_lookup, !list_lookup_imap. unfold resize. rewrite take_nil. cbn [app length].
  rewrite Nat.sub_0_r.
  destruct (decide (i < Nat.max (length b1) (length b2))%nat) as [Hi|Hi].
  - rewrite lookup_replicate_2 by done. reflexivity.
  - by rewrite !lookup_ge_None_2 by (rewrite ?length_replicate; lia).
Qed.

Lemma testbit_word w : 0 <= w <= maxWord -> (w =? 0) = false ->
  exists k, 0 <= k < 64 /\ Z.testbit w k = true.
Proof.
  intros Hw Hne%Z.eqb_neq. exists (Z.log2 w). split; [|apply Z.bit_log2; lia].
  split; [apply Z.log2_nonneg|]. apply Z.log2_lt_pow2; unfold maxWord in *; lia.
Qed.

Lemma nonzero_word_bit bitmap i x : wf_bitmap bitmap -> bitmap !! i = Some x -> (x =? 0) = false ->
  exists q, 0 <= q /\ bit_of bitmap q = true.
Proof.
  intros Hwf Hi E. assert (Hx : 0 <= x <= maxWord) by exact (proj1 (Forall_lookup _ _) Hwf i x Hi).
  destruct (testbit_word x Hx E) as (k & Hk & Hb).
  exists (Z.of_nat i * 64 + k). split; [lia|]. unfold bit_of.
  assert (Hw : word_index (Z.of_nat i * 64 + k) = i).
  { unfold word_index, kBitsPerWord. rewrite Z.add_comm, Z.div_add, Z.div_small by lia. lia. }
  assert (Ho : bit_offset (Z.of_nat i * 64 + k) = k).
  { unfold bit_offset, kBitsPerWord. rewrite Z.add_comm, Z.mod_add, Z.mod_small by lia. done. }
  by rewrite Hw, Ho, nth_lookup, Hi.
Qed.

Lemma not_cleared_bit bitmap : wf_bitmap bitmap -> isAllBitsCleared bitmap = false ->
  exists q, 0 <= q /\ bit_of bitmap q = true.
Proof.
  intros Hwf Hc. assert (H : exists i x, bitmap !! i = Some x /\ (x =? 0) = false).
  { clear Hwf. induction bitmap as [|w bitmap IH]; [done|]. simpl in Hc.
    destruct (w =? 0) eqn:E; [|by exists 0%nat, w]. destruct (IH Hc) as (i & x & ? & ?). by exists (S i), x. }
  destruct H as (i & x & Hi & Hx). by apply (nonzero_word_bit bitmap i x).
Qed.

Lemma isAllBitsCleared_spec bitmap : wf_bitmap bitmap ->
  isAllBitsCleared bitmap = true <-> forall q, 0 <= q -> bit_of bitmap q = false.
Proof.
  intros Hwf. split.
  - unfold isAllBitsCleared. rewrite forallb_forall. intros Hall q Hq. unfold bit_of.
    destruct (nth_in_or_default (word_index q) bitmap 0) as [Hin| ->]; [|apply Z.testbit_0_l].
    apply Hall in Hin. apply Z.eqb_eq in Hin. rewrite Hin. apply Z.testbit_0_l.
  - intros Hall. destruct (isAllBitsCleared bitmap) eqn:E; [done|].
    destruct (not_cleared_bit bitmap Hwf E) as (q & Hq & Hb). specialize (Hall q Hq). congruence.
Qed.

(** The words stay 64-bit words. *)
Lemma word_bits w : 0 <= w <= maxWord <-> 0 <= w /\ forall l, 64 <= l -> Z.testbit w l = false.
Proof.
  unfold maxWord. split; intros [H0 H]; (split; [done|]).
  - apply Z.bounded_iff_bits_nonneg; lia.
  - apply Z.bounded_iff_bits_nonneg in H; lia.
Qed.

Lemma word_lor w v : 0 <= w <= maxWord -> 0 <= v <= maxWord -> 0 <= Z.lor w v <= maxWord.
Proof.
  rewrite !word_bits. intros [? Hw] [? Hv]. split; [by apply Z.lor_nonneg|].
  intros l Hl. by rewrite Z.lor_spec, Hw, Hv.
Qed.

Lemma word_land w v : 0 <= w <= maxWord -> 0 <= v -> 0 <= Z.land w v <= maxWord.
Proof.
  rewrite !word_bits. intros [? Hw] Hv. split; [apply Z.land_nonneg; by left|].
  intros l Hl. by rewrite Z.land_spec, Hw.
Qed.

Lemma word_shiftl k : 0 <= k < 64 -> 0 <= Z.shiftl 1 k <= maxWord.
Proof.
  intros Hk. apply word_bits. split; [by apply Z.shiftl_nonneg|].
  intros l Hl. rewrite shiftl_1_testbit by lia. lia.
Qed.

Lemma wf_alter f i bitmap : (forall w, 0 <= w <= maxWord -> 0 <= f w <= maxWord) ->
  wf_bitmap bitmap -> wf_bitmap (alter f i bitmap).
Proof. intros Hf Hwf. apply Forall_alter; [done|]. intros w _ Hw. by apply Hf. Qed.

Lemma wf_setBit bitmap p : wf_bitmap bitmap -> wf_bitmap (setBit bitmap p).
Proof.
  intros Hwf. unfold setBit. set (b' := if (_ <=? _)%nat then _ else _).
  assert (Hb : wf_bitmap b').
  { subst b'. case_match; [|done]. unfold resize. apply Forall_app. split; [by apply Forall_take|].
    apply Forall_replicate. unfold maxWord. lia. }
  case_match; [|done]. apply wf_alter; [|done]. intros w Hw.
  apply word_lor; [done|]. apply word_shiftl, bit_offset_range.
Qed.

Lemma wf_clearBit bitmap p : wf_bitmap bitmap -> wf_bitmap (clearBit bitmap p).
Proof.
  intros Hwf. unfold clearBit. case_match; [|done]. apply wf_alter; [|done]. intros w Hw.
  apply word_land; [done|]. apply Z.lxor_nonneg. pose proof (word_shiftl _ (bit_offset_range p)).
  unfold maxWord. lia.
Qed.

Lemma wf_orBitmaps b1 b2 : wf_bitmap b1 -> wf_bitmap b2 -> wf_bitmap (orBitmaps b1 b2).
Proof.
  intros H1 H2. apply Forall_lookup. intros i w. unfold orBitmaps. rewrite !list_lookup_imap.
  destruct (resize _ 0 [] !! i) as [v|] eqn:E; [|done]. simpl. intros [= <-].
  assert (Hv : v = 0).
  { unfold resize in E. rewrite firstn_nil in E. simpl in E. by apply lookup_replicate in E as [-> _]. }
  subst v. apply word_lor.
  - destruct (b1 !! i) eqn:E1; simpl; [exact (proj1 (Forall_lookup _ _) H1 i _ E1)|unfold maxWord; lia].
  - destruct (b2 !! i) eqn:E2; simpl; [exact (proj1 (Forall_lookup _ _) H2 i _ E2)|unfold maxWord; lia].
Qed.

Lemma bit_of_full n q : 0 <= n -> 0 <= q -> bit_of (createFullBitmap n) q = (q <? n).
Proof.
  intros Hn Hq. unfold createFullBitmap, bit_of. cbv zeta.
  set (words := Z.to_nat ((n + kBitsPerWord - 1) / kBitsPerWord)).
  pose proof (bit_offset_range q) as Ho.
  assert (Hw : Z.of_nat words = (n + 63) / 64).
  { subst words. unfold kBitsPerWord. rewrite Z2Nat.id; [f_equal; lia|apply Z.div_pos; lia]. }
  assert (Hqd : q = 64 * Z.of_nat (word_index q) + bit_offset q).
  { unfold word_index, bit_offset, kBitsPerWord. rewrite Z2Nat.id by (apply Z.div_pos; lia).
    apply Z.div_mod. lia. }
  set (i := word_index q) in *. set (k := bit_offset q) in *.
  unfold kBitsPerWord. set (r := n mod 64).
  assert (Hr : n = 64 * (n / 64) + r /\ 0 <= r < 64)
    by (subst r; split; [apply Z.div_mod; lia|apply Z.mod_pos_bound; lia]).
  assert (Hres : forall j, nth j (resize words maxWord []) 0 =
                   if decide (j < words)%nat then maxWord else 0).
  { intros j. rewrite nth_resize by (simpl; lia). case_decide; [simpl in *; lia|done]. }
  assert (Hones : Z.testbit maxWord k = true)
    by (change maxWord with (Z.ones 64); apply Z.ones_spec_low; lia).
  destruct ((0 <? r) && (0 <? words)%nat) eqn:E.
  - apply andb_true_iff in E as [E1%Z.ltb_lt E2%Nat.ltb_lt].
    assert (Hwn : Z.of_nat words = n / 64 + 1) by (rewrite Hw; Z.div_mod_to_equations; lia).
    rewrite nth_lookup. destruct (decide (i = (words - 1)%nat)) as [Hi|Hi].
    + rewrite Hi, list_lookup_insert_eq; [|unfold resize; rewrite length_app, length_replicate;
        simpl; lia]. cbn [from_option id].
      assert (Hm : Z.testbit (Z.shiftl 1 r - 1) k = (k <? r)).
      { rewrite Z.shiftl_1_l. replace (2 ^ r - 1) with (Z.ones r) by (rewrite Z.ones_equiv; lia).
        apply Z.testbit_ones_nonneg; lia. }
      rewrite Hm. destruct (Z.ltb_spec k r), (Z.ltb_spec q n); lia || done.
    + rewrite list_lookup_insert_ne by done. rewrite <- nth_lookup, Hres. case_decide.
      * rewrite Hones. destruct (Z.ltb_spec q n); [done|lia].
      * rewrite Z.testbit_0_l. destruct (Z.ltb_spec q n); [lia|done].
  - rewrite Hres. assert (Hr0 : r = 0).
    { apply andb_false_iff in E as [E%Z.ltb_ge|E%Nat.ltb_ge]; [lia|].
      assert (words = 0%nat) by lia. Z.div_mod_to_equations. lia. }
    assert (Hwn : Z.of_nat words = n / 64) by (rewrite Hw; Z.div_mod_to_equations; lia).
    case_decide.
    + rewrite Hones. destruct (Z.ltb_spec q n); [done|lia].
    + rewrite Z.testbit_0_l. destruct (Z.ltb_spec q n); [lia|done].
Qed.

Lemma bit_of_clearAll bitmap q : bit_of (clearAllBits bitmap) q = false.
Proof.
  unfold bit_of, clearAllBits. set (i := word_index q). rewrite nth_lookup, list_lookup_fmap.
  destruct (bitmap !! i); cbn; apply Z.testbit_0_l.
Qed.

(** The bitmap functions implement set operations on consumer positions:
    [isBitSet] is membership, [setBit] inserts and [clearBit] removes exactly one
    position whatever the size of the vector, [orBitmaps] is union,
    [clearAllBits] the empty set and [createFullBitmap n] the first [n]
    positions. *)
Theorem bitmap_refines_set bitmap bitmap2 n p q :
  0 <= n -> 0 <= p -> 0 <= q ->
  isBitSet bitmap q = bit_of bitmap q /\
  isBitSet (setBit bitmap p) q = (q =? p) || bit_of bitmap q /\
  isBitSet (clearBit bitmap p) q = negb (q =? p) && bit_of bitmap q /\
  isBitSet (orBitmaps bitmap bitmap2) q = bit_of bitmap q || bit_of bitmap2 q /\
  isBitSet (clearAllBits bitmap) q = false /\
  isBitSet (createFullBitmap n) q = (q <? n).
Proof.
  intros Hn Hp Hq. rewrite !isBitSet_bit_of.
  rewrite bit_of_setBit, bit_of_clearBit, bit_of_orBitmaps, bit_of_clearAll, bit_of_full by done.
  done.
Qed.

Lemma bitmap_refines_set_witness :
  isBitSet [5] 130 = bit_of [5] 130 /\
  isBitSet (setBit [5] 200) 130 = (130 =? 200) || bit_of [5] 130 /\
  isBitSet (clearBit [5] 200) 130 = negb (130 =? 200) && bit_of [5] 130 /\
  isBitSet (orBitmaps [5] [1; 2; 3]) 130 = bit_of [5] 130 || bit_of [1; 2; 3] 130 /\
  isBitSet (clearAllBits [5]) 130 = false /\
  isBitSet (createFullBitmap 150) 130 = (130 <? 150).
Proof. apply (bitmap_refines_set [5] [1; 2; 3] 150 200 130); lia. Defined.

(** [isAllBitsCleared] holds exactly of the bitmaps that stand for the empty
    set. *)
Theorem all_bits_cleared_iff_empty bitmap :
  wf_bitmap bitmap ->
  isAllBitsCleared bitmap = true <-> (forall q, 0 <= q -> isBitSet bitmap q = false).
Proof.
  intros Hwf. rewrite isAllBitsCleared_spec by done.
  split; intros Hall q Hq; [rewrite isBitSet_bit_of|rewrite <- isBitSet_bit_of]; auto.
Qed.

Lemma all_bits_cleared_iff_empty_witness :
  isAllBitsCleared [0; 4] = true <-> (forall q, 0 <= q -> isBitSet [0; 4] q = false).
Proof.
  apply (all_bits_cleared_iff_empty [0; 4]). repeat constructor; unfold maxWord; lia.
Defined.
