(* ===== verification/ConsumerBitManager.v ===== *)
(** * Allocation of consumer bits (changeTracker/ConsumerBitManager.cpp)

    [availableIntervals_] is a [std::set] of pairs, here the list of its elements
    in ascending (lexicographic) order; iterators are the elements they point
    to.  The invariant says that the intervals are in range, disjoint and never
    adjacent, and that the counter agrees with them; the free set of positions
    is what the operations are specified by. *)

From S2P Require Import Prelude.

Abbreviation interval := (Z * Z)%type.

(** Lexicographic [operator<] of [std::pair]. *)
Definition pair_lt (x y : interval) : bool :=
  (fst x <? fst y) || ((fst x =? fst y) && (snd x <? snd y)).

(** ** The operations of [std::set] the manager uses *)

Fixpoint insert_interval (x : interval) (s : list interval) : list interval :=
  match s with
  | [] => [x]
  | y :: s' => if pair_lt x y then x :: s
               else if pair_lt y x then y :: insert_interval x s' else s
  end.
Definition erase_interval (x : interval) (s : list interval) : list interval :=
  filter (fun y => y <> x) s.
(** [upper_bound]: the first element greater than [x]; [lower_bound]: the first
    one not less than [x]. *)
Definition upper_bound (x : interval) (s : list interval) : option interval :=
  find (fun y => pair_lt x y) s.
Definition lower_bound (x : interval) (s : list interval) : option interval :=
  find (fun y => negb (pair_lt y x)) s.
(** The element before the one [upper_bound] ([lower_bound]) returns: the last
    one that is not greater than (is less than) [x]. *)
Definition before_upper (x : interval) (s : list interval) : option interval :=
  last (filter (fun y => pair_lt x y = false) s).
Definition before_lower (x : interval) (s : list interval) : option interval :=
  last (filter (fun y => pair_lt y x = true) s).

Inductive ConsumerBitError := SUCCESS | INVALID_BIT_TOO_BIG | INVALID_BIT_ALREADY_FREED.

Record ConsumerBitManager := mkManager {
  maxBits : Z;
  numBitsInUse : Z;
  availableIntervals : list interval
}.

(** The constructor; [maxBits - 1] is a [size_t]. *)
Definition newManager (maxBits : Z) : ConsumerBitManager :=
  mkManager maxBits 0 [(0, uint 64 (maxBits - 1))].

(** [None] is [std::runtime_error("No bit positions available")]. *)
Definition getConsumerBit (m : ConsumerBitManager) : option (Z * ConsumerBitManager) :=
  match availableIntervals m with
  | [] => None
  | (start, end_) :: _ =>
      let s := erase_interval (start, end_) (availableIntervals m) in
      let s := if start =? end_ then s else insert_interval (start + 1, end_) s in
      Some (start, mkManager (maxBits m) (numBitsInUse m + 1) s)
  end.

Definition contains (b : Z) (x : interval) : bool := (fst x <=? b) && (b <=? snd x).

(** The iterator [findInterval] returns, [None] for [end()]. *)
Definition findInterval (bitPosition : Z) (s : list interval) : option interval :=
  match lower_bound (bitPosition, 0) s with
  | Some x => if contains bitPosition x then Some x
              else match before_lower (bitPosition, 0) s with
                   | Some y => if contains bitPosition y then Some y else None
                   | None => None
                   end
  | None => match before_lower (bitPosition, 0) s with
            | Some y => if contains bitPosition y then Some y else None
            | None => None
            end
  end.

Definition isBitInUse (bitPosition : Z) (m : ConsumerBitManager) : bool :=
  if maxBits m <=? bitPosition then false
  else match findInterval bitPosition (availableIntervals m) with
       | Some _ => false
       | None => true
       end.

(** The interval set after [bitPosition] has become free. *)
Definition freeInterval (bitPosition : Z) (s : list interval) : list interval :=
  let upperIt := upper_bound (bitPosition, bitPosition) s in
  let lowerIt := before_upper (bitPosition, bitPosition) s in
  let '(s, lowerStart, mergedWithLower) :=
    match lowerIt with
    | Some (start, end_) =>
        if end_ + 1 =? bitPosition
        then (insert_interval (start, bitPosition) (erase_interval (start, end_) s), start, true)
        else (s, start, false)
    | None => (s, 0, false)
    end in
  let '(s, mergedWithUpper) :=
    match upperIt with
    | Some (upperStart, upperEnd) =>
        if upperStart =? bitPosition + 1 then
          let s := erase_interval (upperStart, upperEnd) s in
          if mergedWithLower then
            (if bool_decide ((lowerStart, bitPosition) ∈ s)
             then insert_interval (lowerStart, upperEnd)
                    (erase_interval (lowerStart, bitPosition) s)
             else s, true)
          else (insert_interval (bitPosition, upperEnd) s, true)
        else (s, false)
    | None => (s, false)
    end in
  if negb mergedWithLower && negb mergedWithUpper
  then insert_interval (bitPosition, bitPosition) s else s.

Definition freeConsumerBit (bitPosition : Z) (m : ConsumerBitManager)
    : ConsumerBitError * ConsumerBitManager :=
  if maxBits m <=? bitPosition then (INVALID_BIT_TOO_BIG, m)
  else if negb (isBitInUse bitPosition m) then (INVALID_BIT_ALREADY_FREED, m)
  else (SUCCESS, mkManager (maxBits m) (numBitsInUse m - 1)
                   (freeInterval bitPosition (availableIntervals m))).

Definition getNumBitsInUse (m : ConsumerBitManager) : Z := numBitsInUse m.
Definition getNumBitsAvailable (m : ConsumerBitManager) : Z := maxBits m - numBitsInUse m.
Definition getMaxBits (m : ConsumerBitManager) : Z := maxBits m.

(** ** Invariant *)

(** The intervals start at [lo] or later and are separated by at least one used
    position. *)
Fixpoint canonical (lo hi : Z) (s : list interval) : Prop :=
  match s with
  | [] => True
  | (a, b) :: s => lo <= a <= b /\ b < hi /\ canonical (b + 2) hi s
  end.

Definition free (s : list interval) (b : Z) : Prop := exists x, x ∈ s /\ fst x <= b <= snd x.

Fixpoint size (s : list interval) : Z :=
  match s with [] => 0 | (a, b) :: s => b - a + 1 + size s end.

Definition manager_ok (m : ConsumerBitManager) : Prop :=
  canonical 0 (maxBits m) (availableIntervals m) /\
  numBitsInUse m = maxBits m - size (availableIntervals m).

Lemma canonical_weaken lo lo' hi s : lo' <= lo -> canonical lo hi s -> canonical lo' hi s.
Proof. destruct s as [|[a b] s]; [done|]. simpl. intuition lia. Qed.

Lemma canonical_elem lo hi s x : canonical lo hi s -> x ∈ s ->
  lo <= fst x <= snd x /\ snd x < hi.
Proof.
  revert lo. induction s as [|[a b] s IH]; intros lo Hc Hx; [by apply elem_of_nil in Hx|].
  destruct Hc as (Hab & Hb & Hc). apply elem_of_cons in Hx as [->|Hx]; [simpl; lia|].
  apply (IH (b + 2)) in Hx; [lia|done].
Qed.

(** A canonical list split at a used position. *)
Lemma canonical_app lo hi s1 s2 :
  canonical lo hi (s1 ++ s2) <->
  canonical lo hi s1 /\
  match last s1 with
  | Some (_, b) => canonical (b + 2) hi s2
  | None => canonical lo hi s2
  end.
Proof.
  revert lo. induction s1 as [|[a b] s1 IH]; intros lo; [simpl; tauto|].
  cbn [app canonical]. rewrite IH. destruct s1 as [|y s1]; [simpl; tauto|].
  change (last ((a, b) :: y :: s1)) with (last (y :: s1)).
  destruct (last (y :: s1)) as [[? ?]|] eqn:E; [tauto|].
  by apply last_None in E.
Qed.

Lemma canonical_split lo hi s p : canonical lo hi s -> ~ free s p ->
  exists s1 s2, s = s1 ++ s2 /\ (forall x, x ∈ s1 -> snd x < p) /\ (forall x, x ∈ s2 -> p < fst x).
Proof.
  revert lo. induction s as [|[a b] s IH]; intros lo Hc Hf.
  { exists [], []. split; [done|]. split; by intros x ?%elem_of_nil. }
  destruct Hc as (Hab & Hb & Hc). destruct (decide (b < p)) as [Hlt|Hge].
  - destruct (IH (b + 2) Hc) as (s1 & s2 & -> & H1 & H2).
    { intros (x & Hx & Hin). apply Hf. exists x. split; [by right|done]. }
    exists ((a, b) :: s1), s2. split; [done|]. split; [|done].
    intros x [->|Hx]%elem_of_cons; [done|auto].
  - exists [], ((a, b) :: s). split; [done|]. split; [by intros x ?%elem_of_nil|].
    intros x [->|Hx]%elem_of_cons.
    + simpl. destruct (decide (p < a)); [done|]. destruct Hf. exists (a, b). split; [by left|].
      simpl. lia.
    + pose proof (canonical_elem _ _ _ _ Hc Hx).
      destruct (decide (p < a)); [lia|]. destruct Hf. exists (a, b). split; [by left|]. simpl. lia.
Qed.

(** ** The set operations on a split list *)

Lemma pair_lt_irrefl x : pair_lt x x = false.
Proof. unfold pair_lt. rewrite Z.eqb_refl, !Z.ltb_irrefl. done. Qed.

Lemma pair_lt_asym x y : pair_lt x y = true -> pair_lt y x = false.
Proof.
  unfold pair_lt. destruct x as [a b], y as [c d]; simpl.
  destruct (Z.ltb_spec a c), (Z.eqb_spec a c), (Z.ltb_spec b d), (Z.ltb_spec c a),
    (Z.eqb_spec c a), (Z.ltb_spec d b); simpl; done || lia.
Qed.

Lemma insert_split x s1 s2 :
  (forall y, y ∈ s1 -> pair_lt y x = true) -> (forall y, y ∈ s2 -> pair_lt x y = true) ->
  insert_interval x (s1 ++ s2) = s1 ++ x :: s2.
Proof.
  intros H1 H2. induction s1 as [|y s1 IH]; cbn [app insert_interval].
  - destruct s2 as [|z s2]; [done|]. cbn [insert_interval]. by rewrite H2 by by left.
  - assert (Hy : pair_lt y x = true) by (apply H1; by left).
    rewrite (pair_lt_asym _ _ Hy), Hy. f_equal. apply IH. intros z Hz. apply H1. by right.
Qed.

Lemma erase_not_in x s : x ∉ s -> erase_interval x s = s.
Proof.
  intros Hx. apply list_filter_all. apply Forall_forall. intros y Hy ->. done.
Qed.

Lemma erase_split x s1 s2 : x ∉ s1 -> x ∉ s2 -> erase_interval x (s1 ++ x :: s2) = s1 ++ s2.
Proof.
  intros H1 H2. unfold erase_interval. rewrite filter_app, filter_cons_False by naive_solver.
  change (erase_interval x s1 ++ erase_interval x s2 = s1 ++ s2).
  by rewrite !erase_not_in.
Qed.

Lemma upper_split p s1 s2 :
  (forall x, x ∈ s1 -> fst x <= snd x /\ snd x < p) -> (forall x, x ∈ s2 -> p < fst x) ->
  upper_bound (p, p) (s1 ++ s2) = head s2 /\ before_upper (p, p) (s1 ++ s2) = last s1.
Proof.
  intros H1 H2.
  assert (Hf1 : forall x, x ∈ s1 -> pair_lt (p, p) x = false).
  { intros x Hx. destruct (H1 x Hx). unfold pair_lt. simpl.
    destruct (Z.ltb_spec p (fst x)), (Z.eqb_spec p (fst x)); simpl; lia || done. }
  assert (Hf2 : forall x, x ∈ s2 -> pair_lt (p, p) x = true).
  { intros x Hx. specialize (H2 x Hx). unfold pair_lt. simpl.
    destruct (Z.ltb_spec p (fst x)); [done|lia]. }
  split.
  - unfold upper_bound. clear H1. induction s1 as [|y s1 IH]; cbn [app find].
    + destruct s2 as [|z s2]; [done|]. cbn [find head]. by rewrite Hf2 by by left.
    + rewrite Hf1 by by left. apply IH. intros x Hx. apply Hf1. by right.
  - unfold before_upper. rewrite filter_app.
    rewrite list_filter_all by (apply Forall_forall; auto).
    rewrite (list_filter_none _ s2); [by rewrite app_nil_r|].
    apply Forall_forall. intros x Hx. rewrite Hf2 by done. done.
Qed.

Lemma free_app s1 s2 q : free (s1 ++ s2) q <-> free s1 q \/ free s2 q.
Proof.
  unfold free. setoid_rewrite elem_of_app. split.
  - intros (x & [Hx|Hx] & Hq); [left|right]; by exists x.
  - intros [(x & Hx & Hq)|(x & Hx & Hq)]; exists x; auto.
Qed.
Lemma free_single a b q : free [(a, b)] q <-> a <= q <= b.
Proof.
  unfold free. split.
  - by intros (x & ->%list_elem_of_singleton & Hq).
  - intros Hq. exists (a, b). split; [by apply list_elem_of_singleton|done].
Qed.
Lemma free_cons a b s q : free ((a, b) :: s) q <-> a <= q <= b \/ free s q.
Proof. change ((a, b) :: s) with ([(a, b)] ++ s). by rewrite free_app, free_single. Qed.
Lemma size_app s1 s2 : size (s1 ++ s2) = size s1 + size s2.
Proof. induction s1 as [|[a b] s1 IH]; simpl; lia. Qed.

(** Elements around a used position. *)
Definition around (p : Z) (s1 s2 : list interval) : Prop :=
  (forall x, x ∈ s1 -> fst x <= snd x /\ snd x < p) /\
  (forall x, x ∈ s2 -> p < fst x /\ fst x <= snd x).

Lemma around_lt p s1 s2 a b : around p s1 s2 -> (forall x, x ∈ s1 -> fst x < a) ->
  a <= p <= b -> forall d, insert_interval (a, d) (s1 ++ s2) = s1 ++ (a, d) :: s2.
Proof.
  intros [H1 H2] Ha Hp d. apply insert_split; intros y Hy; unfold pair_lt; simpl.
  - specialize (Ha y Hy). destruct (Z.ltb_spec (fst y) a); [done|lia].
  - destruct (H2 y Hy). destruct (Z.ltb_spec a (fst y)); [done|lia].
Qed.

Lemma around_app p s1 s2 x : around p (s1 ++ [x]) s2 -> around p s1 s2.
Proof. intros [H1 H2]. split; [|done]. intros y Hy. apply H1, elem_of_app. by left. Qed.
Lemma around_cons p s1 s2 x : around p s1 (x :: s2) -> around p s1 s2.
Proof. intros [H1 H2]. split; [done|]. intros y Hy. apply H2. by right. Qed.

(** What freeing [p] makes of the intervals around it. *)
Definition merge_lower (p : Z) (s1 : list interval) : list interval * Z :=
  match last s1 with
  | Some (a, b) => if b + 1 =? p then (removelast s1, a) else (s1, p)
  | None => (s1, p)
  end.
Definition merge_upper (p : Z) (s2 : list interval) : list interval * Z :=
  match s2 with
  | (c, d) :: s2' => if c =? p + 1 then (s2', d) else (s2, p)
  | [] => (s2, p)
  end.
Definition merge_free (p : Z) (s1 s2 : list interval) : list interval :=
  let '(s1', lo) := merge_lower p s1 in
  let '(s2', hi) := merge_upper p s2 in
  s1' ++ (lo, hi) :: s2'.

Lemma canonical_before lo hi s1 s2 a b : canonical lo hi (s1 ++ (a, b) :: s2) ->
  forall x, x ∈ s1 -> snd x + 2 <= a.
Proof.
  revert lo. induction s1 as [|[c d] s1 IH]; intros lo Hc x Hx; [by apply elem_of_nil in Hx|].
  destruct Hc as (_ & _ & Hc). apply elem_of_cons in Hx as [->|Hx]; [|by eapply IH].
  assert (Hin : (a, b) ∈ s1 ++ (a, b) :: s2) by (apply elem_of_app; right; by left).
  apply (canonical_elem _ _ _ _ Hc Hin).
Qed.

Lemma canonical_after lo hi s1 s2 a b : canonical lo hi (s1 ++ (a, b) :: s2) ->
  forall x, x ∈ s2 -> b + 2 <= fst x.
Proof.
  intros Hc x Hx. apply canonical_app in Hc as [_ Hc].
  assert (Hc' : canonical (b + 2) hi s2).
  { case_match; [case_match|]; by destruct Hc as (_ & _ & ?). }
  apply (canonical_elem _ _ _ _ Hc' Hx).
Qed.

Lemma canonical_around lo hi s1 s2 p : canonical lo hi (s1 ++ s2) ->
  (forall x, x ∈ s1 -> snd x < p) -> (forall x, x ∈ s2 -> p < fst x) -> around p s1 s2.
Proof.
  intros Hc H1 H2. split; intros x Hx.
  - assert (Hin : x ∈ s1 ++ s2) by (apply elem_of_app; by left).
    pose proof (canonical_elem _ _ _ _ Hc Hin). specialize (H1 x Hx). lia.
  - assert (Hin : x ∈ s1 ++ s2) by (apply elem_of_app; by right).
    pose proof (canonical_elem _ _ _ _ Hc Hin). specialize (H2 x Hx). lia.
Qed.

(** The upper half of [freeInterval]: [lo] is where the interval that ends at
    [p] starts, if the lower interval was extended. *)
Lemma free_upper_merged p lo s1 c d s2 :
  around p s1 ((c, d) :: s2) -> (forall x, x ∈ s1 -> fst x < lo) -> lo <= p ->
  (forall x, x ∈ s2 -> d < fst x) ->
  let s := erase_interval (c, d) (s1 ++ (lo, p) :: (c, d) :: s2) in
  s = s1 ++ (lo, p) :: s2 /\
  insert_interval (lo, d) (erase_interval (lo, p) s) = s1 ++ (lo, d) :: s2.
Proof.
  intros Har Hlo Hp Hd. pose proof Har as [H1 H2].
  assert (Hc : p < c /\ c <= d) by (apply (H2 (c, d)); by left).
  assert (E : erase_interval (c, d) (s1 ++ (lo, p) :: (c, d) :: s2) = s1 ++ (lo, p) :: s2).
  { change (s1 ++ (lo, p) :: (c, d) :: s2) with (s1 ++ [(lo, p)] ++ (c, d) :: s2).
    rewrite app_assoc, erase_split; [by rewrite <- app_assoc|..].
    - intros [Hin|Hin]%elem_of_app; [destruct (H1 _ Hin); simpl in *; lia|].
      apply list_elem_of_singleton in Hin. simplify_eq. lia.
    - intros Hin. specialize (Hd _ Hin). simpl in Hd. lia. }
  cbv zeta. rewrite E. split; [done|]. rewrite erase_split.
  - apply (around_lt p s1 s2 lo p); [by apply around_cons in Har|done|lia].
  - intros Hin. specialize (Hlo _ Hin). simpl in Hlo. lia.
  - intros Hin. specialize (Hd _ Hin). simpl in Hd. lia.
Qed.

Lemma freeInterval_merge lo hi s1 s2 p : canonical lo hi (s1 ++ s2) -> around p s1 s2 ->
  freeInterval p (s1 ++ s2) = merge_free p s1 s2.
Proof.
  intros Hc Har. pose proof Har as [H1 H2]. unfold freeInterval, merge_free, merge_lower, merge_upper.
  destruct (upper_split p s1 s2) as [-> ->]; [done|intros x Hx; by apply H2|].
  destruct s1 as [|[a b] s1' _] using rev_ind; [|rewrite last_snoc].
  - cbn [app last]. destruct s2 as [|[c d] s2]; [done|]. cbn [head].
    destruct (Z.eqb_spec c (p + 1)) as [->|Hne]; cbn [negb andb].
    + pose proof (erase_split (p + 1, d) [] s2) as Ers. cbn [app] in Ers.
      rewrite Ers; [|by apply not_elem_of_nil|].
      * apply (around_lt p [] s2 p p); [by apply around_cons in Har| |lia].
        by intros x ?%elem_of_nil.
      * intros Hin. pose proof (canonical_after lo hi [] s2 (p + 1) d Hc _ Hin). simpl in *.
        destruct (H2 (p + 1, d)) as [_ ?]; [by left|]. simpl in *. lia.
    + apply (around_lt p [] ((c, d) :: s2) p p); [done|by intros x ?%elem_of_nil|lia].
  - rewrite <- app_assoc in *. cbn [app] in *.
    assert (Hab : a <= b /\ b < p) by (apply (H1 (a, b)), elem_of_app; right; by left).
    pose proof (canonical_before lo hi s1' s2 a b Hc) as Hbef.
    pose proof (canonical_after lo hi s1' s2 a b Hc) as Haft.
    pose proof (around_app _ _ _ _ Har) as Har'.
    assert (Hlt : forall x, x ∈ s1' -> fst x < a).
    { intros x Hx. specialize (Hbef x Hx). destruct (proj1 Har' x Hx). lia. }
    destruct (Z.eqb_spec (b + 1) p) as [Hb|Hb].
    + rewrite removelast_last.
      rewrite erase_split; [|intros Hin; specialize (Hlt _ Hin); simpl in Hlt; lia
                            |intros Hin; specialize (Haft _ Hin); simpl in Haft; lia].
      rewrite (around_lt p s1' s2 a p Har' Hlt) by lia.
      destruct s2 as [|[c d] s2]; [done|]. cbn [head].
      destruct (Z.eqb_spec c (p + 1)) as [->|Hne]; [|done].
      assert (Hd : forall x, x ∈ s2 -> d < fst x).
      { intros x Hx. change (s1' ++ (a, b) :: (p + 1, d) :: s2)
          with (s1' ++ [(a, b)] ++ (p + 1, d) :: s2) in Hc. rewrite app_assoc in Hc.
        pose proof (canonical_after _ _ _ _ _ _ Hc x Hx). lia. }
      destruct (free_upper_merged p a s1' (p + 1) d s2 Har' Hlt ltac:(lia) Hd) as [E1 E2].
      cbv zeta in E1, E2. rewrite bool_decide_eq_true_2.
      * cbn [negb andb]. exact E2.
      * rewrite E1. apply elem_of_app. right. by left.
    + assert (Hall : forall x, x ∈ s1' ++ [(a, b)] -> fst x < p).
      { intros x Hx. destruct (H1 x Hx). lia. }
      destruct s2 as [|[c d] s2]; cbn [head].
      * cbn [negb andb].
        change (s1' ++ [(a, b)]) with (s1' ++ [(a, b)] ++ []) at 1. rewrite app_assoc.
        rewrite (around_lt p _ [] p p Har Hall) by lia. by rewrite <- app_assoc.
      * destruct (Z.eqb_spec c (p + 1)) as [->|Hne]; cbn [negb andb].
        -- change (s1' ++ (a, b) :: (p + 1, d) :: s2)
             with (s1' ++ [(a, b)] ++ (p + 1, d) :: s2). rewrite app_assoc.
           rewrite erase_split.
           ++ apply around_cons in Har. rewrite (around_lt p _ _ p p Har Hall) by lia. done.
           ++ intros Hin. specialize (Hall _ Hin). simpl in Hall. lia.
           ++ intros Hin.
              change (s1' ++ (a, b) :: (p + 1, d) :: s2)
                with (s1' ++ [(a, b)] ++ (p + 1, d) :: s2) in Hc. rewrite app_assoc in Hc.
              pose proof (canonical_after _ _ _ _ _ _ Hc _ Hin). simpl in *.
              destruct (H2 (p + 1, d)) as [_ ?]; [by left|]. simpl in *. lia.
        -- change (s1' ++ (a, b) :: (c, d) :: s2)
             with (s1' ++ [(a, b)] ++ (c, d) :: s2). rewrite app_assoc.
           by rewrite (around_lt p _ _ p p Har Hall) by lia.
Qed.

Lemma canonical_suffix lo hi s1 s2 lo' : canonical lo hi (s1 ++ s2) ->
  (forall x, x ∈ s2 -> lo' <= fst x) -> canonical lo' hi s2.
Proof.
  intros Hc H2. apply canonical_app in Hc as [_ Hc]. destruct s2 as [|[c d] s2]; [done|].
  specialize (H2 (c, d) ltac:(by left)). simpl in H2.
  case_match; [case_match|]; cbn [canonical] in *; intuition lia.
Qed.

Lemma merge_upper_ok lo hi s1 s2 p : canonical lo hi (s1 ++ s2) -> around p s1 s2 -> p < hi ->
  exists s2' hi', merge_upper p s2 = (s2', hi') /\ p <= hi' < hi /\ canonical (hi' + 2) hi s2' /\
    size s2' + (hi' - p) = size s2 /\
    forall q, free s2' q \/ p < q <= hi' <-> free s2 q.
Proof.
  intros Hc [H1 H2] Hp. unfold merge_upper. destruct s2 as [|[c d] s2].
  - exists [], p. split; [done|]. split; [lia|]. split; [done|]. split; [simpl; lia|].
    intros q. split; [intros [?|?]; [done|lia]|by left].
  - destruct (H2 (c, d)) as [Hpc Hcd]; [by left|]. simpl in Hpc, Hcd.
    assert (Hd : d < hi).
    { assert (Hin : (c, d) ∈ s1 ++ (c, d) :: s2) by (apply elem_of_app; right; by left).
      apply (canonical_elem _ _ _ _ Hc Hin). }
    destruct (Z.eqb_spec c (p + 1)) as [->|Hne].
    + exists s2, d. split; [done|]. split; [lia|]. split.
      { pose proof Hc as Hc'. change (s1 ++ (p + 1, d) :: s2) with (s1 ++ [(p + 1, d)] ++ s2) in Hc'.
        rewrite app_assoc in Hc'. apply (canonical_suffix _ _ _ _ _ Hc').
        intros x Hx. pose proof (canonical_after _ _ _ _ _ _ Hc x Hx). lia. }
      split; [simpl; lia|]. intros q. rewrite free_cons. intuition lia.
    + exists ((c, d) :: s2), p. split; [done|]. split; [lia|]. split.
      { apply (canonical_suffix _ _ _ _ _ Hc). intros x [->|Hx]%elem_of_cons; [simpl; lia|].
        pose proof (canonical_after _ _ _ _ _ _ Hc x Hx). lia. }
      split; [lia|]. intros q. split; [intros [?|?]; [done|lia]|by left].
Qed.

Lemma merge_lower_ok lo hi s1 s2 p : canonical lo hi (s1 ++ s2) -> around p s1 s2 -> lo <= p ->
  exists s1' lo', merge_lower p s1 = (s1', lo') /\ lo <= lo' <= p /\
    (forall x, x ∈ s1' -> snd x + 2 <= lo') /\
    canonical lo hi s1' /\ size s1' + (p - lo') = size s1 /\
    forall q, free s1' q \/ lo' <= q < p <-> free s1 q.
Proof.
  intros Hc [H1 H2] Hp. pose proof (proj1 (proj1 (canonical_app _ _ _ _) Hc)) as Hc1. unfold merge_lower.
  destruct s1 as [|[a b] s1' _] using rev_ind.
  - exists [], p. split; [done|]. split; [lia|]. split; [by intros x ?%elem_of_nil|].
    split; [done|]. split; [simpl; lia|]. intros q. split; [intros [?|?]; [done|lia]|by left].
  - rewrite last_snoc, removelast_last.
    destruct (H1 (a, b)) as [Hab Hbp]; [apply elem_of_app; right; by left|]. simpl in Hab, Hbp.
    pose proof (canonical_before lo hi s1' [] a b Hc1) as Hbef.
    pose proof (canonical_elem _ _ _ (a, b) Hc1 ltac:(apply elem_of_app; right; by left)) as Hel.
    simpl in Hel. destruct (Z.eqb_spec (b + 1) p) as [Hb|Hb].
    + exists s1', a. split; [done|]. split; [lia|]. split; [done|].
      apply canonical_app in Hc1 as [Hc1 _]. split; [done|].
      rewrite size_app. split; [simpl; lia|]. intros q. rewrite free_app, free_single.
      intuition lia.
    + exists (s1' ++ [(a, b)]), p. split; [done|]. split; [lia|]. split.
      { intros x [Hx|Hx]%elem_of_app; [specialize (Hbef x Hx); lia|].
        apply list_elem_of_singleton in Hx as ->. simpl. lia. }
      split; [done|]. split; [lia|]. intros q. split; [intros [?|?]; [done|lia]|by left].
Qed.

(** Freeing a used position keeps the list canonical and adds that position. *)
Lemma merge_free_ok lo hi s1 s2 p :
  canonical lo hi (s1 ++ s2) -> around p s1 s2 -> lo <= p < hi ->
  canonical lo hi (merge_free p s1 s2) /\
  size (merge_free p s1 s2) = size (s1 ++ s2) + 1 /\
  forall q, free (merge_free p s1 s2) q <-> free (s1 ++ s2) q \/ q = p.
Proof.
  intros Hc Har Hp. unfold merge_free.
  destruct (merge_upper_ok _ _ _ _ _ Hc Har) as (s2' & hi' & -> & Hhi' & Hc2 & Hsz2 & Hfr2); [lia|].
  destruct (merge_lower_ok _ _ _ _ _ Hc Har)
    as (s1' & lo' & -> & Hlo' & Hbef & Hc1 & Hsz1 & Hfr1); [lia|].
  split; [|split].
  - apply canonical_app. split; [done|]. destruct (last s1') as [[a b]|] eqn:E; cbn [canonical].
    + apply last_Some in E as [l ->].
      specialize (Hbef (a, b) ltac:(apply elem_of_app; right; by left)). simpl in Hbef.
      split; [lia|]. split; [lia|done].
    + split; [lia|]. split; [lia|done].
  - rewrite !size_app. simpl. lia.
  - intros q. rewrite !free_app, free_cons, <- Hfr1, <- Hfr2. intuition lia.
Qed.

(** ** Lookup *)

Lemma findInterval_Some b s x : findInterval b s = Some x -> x ∈ s /\ fst x <= b <= snd x.
Proof.
  assert (Hcon : forall y, contains b y = true -> fst y <= b <= snd y).
  { intros y [?%Z.leb_le ?%Z.leb_le]%andb_true_iff. done. }
  assert (Hl : forall y, lower_bound (b, 0) s = Some y -> y ∈ s).
  { intros y Hy. unfold lower_bound in Hy. apply find_some in Hy as [Hy _].
    by apply list_elem_of_In. }
  assert (Hb : forall y, before_lower (b, 0) s = Some y -> y ∈ s).
  { intros y Hy. unfold before_lower in Hy. apply last_Some_elem_of in Hy.
    by apply list_elem_of_filter in Hy as [_ ?]. }
  unfold findInterval. destruct (lower_bound (b, 0) s) as [y|], (before_lower (b, 0) s) as [z|];
    intros E; repeat (case_match; simplify_eq); try discriminate; split; auto.
Qed.

Lemma findInterval_free lo hi b s : 0 <= lo -> canonical lo hi s -> 0 <= b ->
  findInterval b s = None <-> ~ free s b.
Proof.
  intros Hlo Hc Hb0. split.
  - intros Hn ([xa xb] & Hx & Hin). simpl in Hin.
    apply list_elem_of_split in Hx as (l1 & l2 & ->).
    pose proof (canonical_before _ _ _ _ _ _ Hc) as Hbef.
    pose proof (canonical_after _ _ _ _ _ _ Hc) as Haft.
    assert (Hel : forall y, y ∈ l1 ++ (xa, xb) :: l2 -> lo <= fst y <= snd y)
      by (intros y Hy; apply (canonical_elem _ _ _ _ Hc Hy)).
    assert (Hl1 : forall y, y ∈ l1 -> pair_lt y (b, 0) = true).
    { intros y Hy. specialize (Hbef y Hy). specialize (Hel y ltac:(apply elem_of_app; by left)).
      unfold pair_lt. simpl. destruct (Z.ltb_spec (fst y) b); [done|lia]. }
    assert (Hl2 : forall y, y ∈ l2 -> pair_lt y (b, 0) = false).
    { intros y Hy. specialize (Haft y Hy). unfold pair_lt. simpl.
      destruct (Z.ltb_spec (fst y) b); [lia|]. destruct (Z.eqb_spec (fst y) b); [lia|done]. }
    assert (Hcx : contains b (xa, xb) = true)
      by (unfold contains; simpl; apply andb_true_iff; rewrite !Z.leb_le; lia).
    assert (Hfind : forall l, (forall y, y ∈ l1 -> pair_lt y (b, 0) = true) ->
      lower_bound (b, 0) (l1 ++ l) = lower_bound (b, 0) l).
    { intros l. unfold lower_bound. clear. induction l1 as [|y l1 IH]; intros H; [done|].
      cbn [app find]. rewrite H by by left. cbn [negb]. apply IH. intros z Hz. apply H. by right. }
    unfold findInterval in Hn. rewrite Hfind in Hn by done. unfold lower_bound in Hn.
    cbn [find] in Hn. destruct (pair_lt (xa, xb) (b, 0)) eqn:Ex; cbn [negb] in Hn.
    + assert (Hbl : before_lower (b, 0) (l1 ++ (xa, xb) :: l2) = Some (xa, xb)).
      { unfold before_lower. rewrite filter_app, filter_cons_True by done.
        rewrite (list_filter_none _ l2); [by rewrite last_snoc|].
        apply Forall_forall. intros y Hy. by rewrite Hl2. }
      rewrite Hbl, Hcx in Hn. by repeat case_match.
    + by rewrite Hcx in Hn.
  - intros Hf. destruct (findInterval b s) as [x|] eqn:E; [|done].
    apply findInterval_Some in E as [Hx Hin]. destruct Hf. by exists x.
Qed.

Lemma isBitInUse_spec m b : manager_ok m -> 0 <= b < maxBits m ->
  isBitInUse b m = true <-> ~ free (availableIntervals m) b.
Proof.
  intros [Hc _] Hb. unfold isBitInUse. destruct (Z.leb_spec (maxBits m) b); [lia|].
  rewrite <- (findInterval_free 0 (maxBits m)) by (done || lia).
  by destruct (findInterval b (availableIntervals m)).
Qed.

(** [in_use m b]: the position is allocated. *)
Definition in_use (m : ConsumerBitManager) (b : Z) : Prop := isBitInUse b m = true.

Lemma size_nonneg lo hi s : canonical lo hi s -> 0 <= size s.
Proof.
  revert lo. induction s as [|[a b] s IH]; intros lo Hc; [done|].
  destruct Hc as (Hab & _ & Hc). apply IH in Hc. simpl. lia.
Qed.

Lemma newManager_ok n : 1 <= n <= 2 ^ 64 -> manager_ok (newManager n).
Proof.
  intros Hn. unfold manager_ok, newManager. cbn [maxBits availableIntervals numBitsInUse].
  rewrite uint_id by lia. simpl. lia.
Qed.

Lemma get_None m : getConsumerBit m = None -> availableIntervals m = [].
Proof. unfold getConsumerBit. by destruct (availableIntervals m) as [|[? ?] ?]. Qed.

Lemma get_step m b m' : manager_ok m -> getConsumerBit m = Some (b, m') ->
  maxBits m' = maxBits m /\ manager_ok m' /\ free (availableIntervals m) b /\
  (forall q, free (availableIntervals m) q -> b <= q) /\
  (forall q, free (availableIntervals m') q <-> free (availableIntervals m) q /\ q <> b).
Proof.
  intros [Hc Hn] Hg. unfold getConsumerBit in Hg.
  destruct (availableIntervals m) as [|[s e] l] eqn:El; [done|].
  destruct Hc as (Hse & He & Hc). simplify_eq.
  assert (Hl : forall x, x ∈ l -> e + 2 <= fst x) by (intros x Hx; apply (canonical_elem _ _ _ _ Hc Hx)).
  assert (Hnotin : (b, e) ∉ l) by (intros Hin; specialize (Hl _ Hin); simpl in Hl; lia).
  pose proof (erase_split (b, e) [] l ltac:(by apply not_elem_of_nil) Hnotin) as Ers.
  cbn [app] in Ers. rewrite Ers.
  assert (Hfl : forall q, free l q -> e + 2 <= q).
  { intros q (x & Hx & Hq). specialize (Hl x Hx). lia. }
  split; [done|]. split; [|split; [|split]].
  - split; cbn [maxBits availableIntervals numBitsInUse].
    + destruct (Z.eqb_spec b e) as [->|Hne]; [by apply (canonical_weaken (e + 2)); [lia|]|].
      pose proof (insert_split (b + 1, e) [] l) as Ei. cbn [app] in Ei. rewrite Ei.
      * cbn [canonical]. split; [lia|]. by split.
      * by intros y ?%elem_of_nil.
      * intros y Hy. specialize (Hl y Hy). unfold pair_lt. simpl.
        destruct (Z.ltb_spec (b + 1) (fst y)); [done|lia].
    + rewrite Hn. destruct (Z.eqb_spec b e) as [->|Hne]; [simpl; lia|].
      pose proof (insert_split (b + 1, e) [] l) as Ei. cbn [app] in Ei. rewrite Ei;
        [simpl; lia|by intros y ?%elem_of_nil|].
      intros y Hy. specialize (Hl y Hy). unfold pair_lt. simpl.
      destruct (Z.ltb_spec (b + 1) (fst y)); [done|lia].
  - apply free_cons. left. lia.
  - intros q [Hq|Hq]%free_cons; [lia|]. specialize (Hfl q Hq). lia.
  - intros q. cbn [availableIntervals]. rewrite free_cons.
    destruct (Z.eqb_spec b e) as [->|Hne].
    + split; [intros Hq; specialize (Hfl q Hq); split; [by right|lia]|].
      intros [[Hq|Hq] Hqe]; [lia|done].
    + pose proof (insert_split (b + 1, e) [] l) as Ei. cbn [app] in Ei. rewrite Ei.
      * rewrite free_cons. split; [intros [?|Hq]; [|specialize (Hfl q Hq)]; intuition lia|].
        intuition lia.
      * by intros y ?%elem_of_nil.
      * intros y Hy. specialize (Hl y Hy). unfold pair_lt. simpl.
        destruct (Z.ltb_spec (b + 1) (fst y)); [done|lia].
Qed.

Lemma free_step m b : manager_ok m -> 0 <= b < maxBits m -> isBitInUse b m = true ->
  let m' := mkManager (maxBits m) (numBitsInUse m - 1) (freeInterval b (availableIntervals m)) in
  manager_ok m' /\
  forall q, free (availableIntervals m') q <-> free (availableIntervals m) q \/ q = b.
Proof.
  intros Hok Hb Hu. apply isBitInUse_spec in Hu; [|done|done]. destruct Hok as [Hc Hn].
  destruct (canonical_split _ _ _ _ Hc Hu) as (s1 & s2 & E & H1 & H2). rewrite E in *.
  pose proof (canonical_around _ _ _ _ _ Hc H1 H2) as Har.
  rewrite (freeInterval_merge _ _ _ _ _ Hc Har).
  destruct (merge_free_ok _ _ _ _ _ Hc Har Hb) as (Hc' & Hs' & Hf').
  split; [|done]. split; [done|]. cbn [numBitsInUse maxBits availableIntervals]. lia.
Qed.

(** Allocation: a manager in a consistent state either reports that every
    position is in use, or hands out the lowest free position; afterwards exactly
    that position has changed from free to used and the state is consistent. *)
Theorem get_consumer_bit_correct m :
  manager_ok m ->
  match getConsumerBit m with
  | None => forall q, 0 <= q < maxBits m -> in_use m q
  | Some (b, m') =>
      manager_ok m' /\ 0 <= b < maxBits m /\ ~ in_use m b /\
      (forall q, 0 <= q < b -> in_use m q) /\
      (forall q, 0 <= q < maxBits m -> in_use m' q <-> in_use m q \/ q = b) /\
      getNumBitsInUse m' = getNumBitsInUse m + 1
  end.
Proof.
  intros Hok. destruct (getConsumerBit m) as [[b m']|] eqn:E; unfold in_use.
  - destruct (get_step m b m' Hok E) as (Hmax & Hok' & Hb & Hmin & Hiff).
    assert (Hbr : 0 <= b < maxBits m).
    { destruct Hb as (x & Hx & Hin). destruct Hok as [Hc _].
      pose proof (canonical_elem _ _ _ _ Hc Hx). lia. }
    split; [done|]. split; [done|].
    split; [by intros Hu; apply isBitInUse_spec in Hu|].
    split; [|split].
    + intros q Hq. rewrite isBitInUse_spec by (done || lia). intros Hf. specialize (Hmin q Hf). lia.
    + intros q Hq. rewrite !isBitInUse_spec, Hiff by (done || lia).
      destruct (decide (q = b)) as [->|]; [|intuition]. split; [by right|]. intros _ [_ ?]. done.
    + unfold getConsumerBit in E. by repeat case_match; simplify_eq.
  - intros q Hq. rewrite isBitInUse_spec, (get_None m) by done.
    by intros (x & ?%elem_of_nil & _).
Qed.

Lemma get_consumer_bit_correct_witness :
  let m := newManager 8 in
  match getConsumerBit m with
  | None => forall q, 0 <= q < maxBits m -> in_use m q
  | Some (b, m') =>
      manager_ok m' /\ 0 <= b < maxBits m /\ ~ in_use m b /\
      (forall q, 0 <= q < b -> in_use m q) /\
      (forall q, 0 <= q < maxBits m -> in_use m' q <-> in_use m q \/ q = b) /\
      getNumBitsInUse m' = getNumBitsInUse m + 1
  end.
Proof. apply (get_consumer_bit_correct (newManager 8)), newManager_ok. lia. Defined.

(** Release: a position outside the range or already free is refused without
    any change; a used position becomes free, exactly that one, and the state
    stays consistent: neighbouring free intervals are merged. *)
Theorem free_consumer_bit_correct m b :
  manager_ok m -> 0 <= b ->
  let '(err, m') := freeConsumerBit b m in
  manager_ok m' /\
  match err with
  | SUCCESS => b < maxBits m /\ in_use m b /\
      (forall q, 0 <= q < maxBits m -> in_use m' q <-> in_use m q /\ q <> b) /\
      getNumBitsAvailable m' = getNumBitsAvailable m + 1
  | INVALID_BIT_TOO_BIG => maxBits m <= b /\ m' = m
  | INVALID_BIT_ALREADY_FREED => b < maxBits m /\ ~ in_use m b /\ m' = m
  end.
Proof.
  intros Hok Hb. unfold freeConsumerBit, in_use.
  destruct (Z.leb_spec (maxBits m) b) as [Hbig|Hlt]; [done|].
  destruct (isBitInUse b m) eqn:Hu; cbn [negb]; [|done].
  destruct (free_step m b Hok) as [Hok' Hiff]; [lia|done|]. split; [done|].
  split; [done|]. split; [done|]. split.
  - intros q Hq. rewrite !isBitInUse_spec, Hiff by (done || simpl; lia).
    destruct (decide (q = b)) as [->|]; [|intuition].
    split; [intros Hn; destruct Hn; by right|by intros [_ ?]].
  - unfold getNumBitsAvailable. simpl. lia.
Qed.

Lemma free_consumer_bit_correct_witness :
  let m := mkManager 8 4 [(1, 2); (6, 7)] in
  let '(err, m') := freeConsumerBit 5 m in
  manager_ok m' /\
  match err with
  | SUCCESS => 5 < maxBits m /\ in_use m 5 /\
      (forall q, 0 <= q < maxBits m -> in_use m' q <-> in_use m q /\ q <> 5) /\
      getNumBitsAvailable m' = getNumBitsAvailable m + 1
  | INVALID_BIT_TOO_BIG => maxBits m <= 5 /\ m' = m
  | INVALID_BIT_ALREADY_FREED => 5 < maxBits m /\ ~ in_use m 5 /\ m' = m
  end.
Proof.
  apply (free_consumer_bit_correct (mkManager 8 4 [(1, 2); (6, 7)]) 5);
    [unfold manager_ok; simpl; lia|lia].
Defined.

(** Freeing the position that was allocated last and allocating again hands
    out that same position, even when other positions are free. *)
Theorem freed_bit_reused_at_once m b m' :
  manager_ok m -> getConsumerBit m = Some (b, m') ->
  exists m'', freeConsumerBit b m' = (SUCCESS, m'') /\
    exists m3, getConsumerBit m'' = Some (b, m3).
Proof.
  intros Hok E. destruct (get_step m b m' Hok E) as (Hmax & Hok' & Hb & Hmin & Hiff).
  assert (Hbr : 0 <= b < maxBits m').
  { rewrite Hmax. destruct Hb as (x & Hx & Hin). destruct Hok as [Hc _].
    pose proof (canonical_elem _ _ _ _ Hc Hx). lia. }
  assert (Hu : isBitInUse b m' = true).
  { apply isBitInUse_spec; [done|done|]. rewrite Hiff. by intros [_ ?]. }
  unfold freeConsumerBit. destruct (Z.leb_spec (maxBits m') b); [lia|]. rewrite Hu. cbn [negb].
  eexists. split; [done|]. destruct (free_step m' b Hok' Hbr Hu) as [Hok'' Hiff''].
  set (m'' := mkManager _ _ _) in *.
  destruct (getConsumerBit m'') as [[b3 m3]|] eqn:E3.
  - destruct (get_step m'' b3 m3 Hok'' E3) as (_ & _ & Hb3 & Hmin3 & _).
    assert (b3 <= b) by (apply Hmin3, Hiff''; by right).
    assert (b <= b3).
    { apply Hiff'' in Hb3 as [Hb3|Hb3]; [|lia]. apply Hiff in Hb3 as [Hb3 _]. by apply Hmin. }
    replace b3 with b by lia. eauto.
  - apply get_None in E3. assert (Hf : free (availableIntervals m'') b) by (apply Hiff''; by right).
    rewrite E3 in Hf. by destruct Hf as (x & ?%elem_of_nil & _).
Qed.

Lemma freed_bit_reused_at_once_witness :
  exists m'', freeConsumerBit 0 (mkManager 8 1 [(1, 7)]) = (SUCCESS, m'') /\
    exists m3, getConsumerBit m'' = Some (0, m3).
Proof.
  apply (freed_bit_reused_at_once (newManager 8) 0 (mkManager 8 1 [(1, 7)]));
    [apply newManager_ok; lia|reflexivity].
Defined.
