(* ===== verification/ChangeTracker.v ===== *)
(** * The change tracker (changeTracker/ChangeTracker.h, Consumer.h, ChangeItem.h,
    TrackableObject.h)

    The producer publishes changes of objects; every object has at most one
    change item, the items are linked in one intrusive list, and each item has
    the bitmap of the consumers that still owe it.  A consumer has a marker (the
    item it is at, null at the end of the list) and is linked into the list of
    pending consumers of an item, or into the set of ready consumers.

    The heap is explicit.  Objects, items and consumers are addresses; an item
    that [clearChangeItem] deletes leaves the heap, its address is never used
    again, and every access to an item goes through [deref], which answers
    [UseAfterFree] for a deleted one.  The consumers are owned by shared
    pointers and never deleted here: an address the store has no entry for is a
    consumer that was constructed with bit position -1 and has not registered.
    [pendingConsumerHook] is the item whose pending list the consumer is linked
    into.  The set [readyConsumers_] is a hash set, of which the model uses only
    the elements.  The callbacks do not call back into the tracker; the
    producer's is the list of the objects it was called with, a consumer's is a
    function with a state of its own.  Log lines and the staleness clock
    ([recordMarkerAdvance]) are left out. *)

From stdpp Require Import gmap fin_sets.
From S2P Require Import Prelude ConsumerBitmap ConsumerBitManager.

(** ** Data *)

Inductive ProcessResult := CONTINUE | YIELD.

Record ChangeItem := mkItem {
  trackableObject : nat;
  consumerBitmap : ConsumerBitmap;
  pendingConsumers : list nat
}.

Record Consumer := mkConsumer {
  bitPosition_ : Z;
  marker_ : option nat;
  isInReadyList_ : bool;
  pendingConsumerHook : option nat
}.

(** [static_cast<size_t>(-1)], the position of a consumer that is not registered. *)
Definition npos : Z := 2 ^ 64 - 1.

Definition newConsumer : Consumer := mkConsumer npos None false None.

Record ChangeTracker := mkTracker {
  items : gmap nat ChangeItem;
  nextItem_ : nat;
  changeItem_ : gmap nat nat;
  changeList_ : list nat;
  store : gmap nat Consumer;
  consumers_ : list (option nat);
  readyConsumers_ : gset nat;
  consumerBitManager_ : ConsumerBitManager;
  cachedConsumerBitmap_ : ConsumerBitmap;
  processed : list nat
}.

(** The constructor; [n] is the capacity of the bit manager. *)
Definition newTracker (n : Z) : ChangeTracker :=
  mkTracker ∅ 0 ∅ [] ∅ [] ∅ (newManager n) [] [].

Inductive tracker_exn := UseAfterFree | NoBitAvailable | InvalidArgument.
Abbreviation tracked A := (result tracker_exn A).

(** ** Fields *)

Definition set_items (t : ChangeTracker) x :=
  mkTracker x (nextItem_ t) (changeItem_ t) (changeList_ t) (store t) (consumers_ t)
    (readyConsumers_ t) (consumerBitManager_ t) (cachedConsumerBitmap_ t) (processed t).
Definition set_list (t : ChangeTracker) x :=
  mkTracker (items t) (nextItem_ t) (changeItem_ t) x (store t) (consumers_ t)
    (readyConsumers_ t) (consumerBitManager_ t) (cachedConsumerBitmap_ t) (processed t).
Definition set_store (t : ChangeTracker) x :=
  mkTracker (items t) (nextItem_ t) (changeItem_ t) (changeList_ t) x (consumers_ t)
    (readyConsumers_ t) (consumerBitManager_ t) (cachedConsumerBitmap_ t) (processed t).
Definition set_ready (t : ChangeTracker) x :=
  mkTracker (items t) (nextItem_ t) (changeItem_ t) (changeList_ t) (store t) (consumers_ t)
    x (consumerBitManager_ t) (cachedConsumerBitmap_ t) (processed t).
Definition set_registry (t : ChangeTracker) cs m b :=
  mkTracker (items t) (nextItem_ t) (changeItem_ t) (changeList_ t) (store t) cs
    (readyConsumers_ t) m b (processed t).
Definition set_processed (t : ChangeTracker) x :=
  mkTracker (items t) (nextItem_ t) (changeItem_ t) (changeList_ t) (store t) (consumers_ t)
    (readyConsumers_ t) (consumerBitManager_ t) (cachedConsumerBitmap_ t) x.

Definition consumer (t : ChangeTracker) (c : nat) : Consumer := default newConsumer (store t !! c).

Definition getBitPosition (t : ChangeTracker) (c : nat) : Z := bitPosition_ (consumer t c).
Definition getMarker (t : ChangeTracker) (c : nat) : option nat := marker_ (consumer t c).
Definition isInReadyList (t : ChangeTracker) (c : nat) : bool := isInReadyList_ (consumer t c).
Definition hook (t : ChangeTracker) (c : nat) : option nat := pendingConsumerHook (consumer t c).

Definition set_consumer (c : nat) (C : Consumer) (t : ChangeTracker) : ChangeTracker :=
  set_store t (<[c := C]> (store t)).
Definition setBitPosition (c : nat) (b : Z) (t : ChangeTracker) : ChangeTracker :=
  set_consumer c (mkConsumer b (getMarker t c) (isInReadyList t c) (hook t c)) t.
Definition setMarker (c : nat) (m : option nat) (t : ChangeTracker) : ChangeTracker :=
  set_consumer c (mkConsumer (getBitPosition t c) m (isInReadyList t c) (hook t c)) t.
Definition setInReadyList (c : nat) (r : bool) (t : ChangeTracker) : ChangeTracker :=
  set_consumer c (mkConsumer (getBitPosition t c) (getMarker t c) r (hook t c)) t.
Definition set_hook (c : nat) (h : option nat) (t : ChangeTracker) : ChangeTracker :=
  set_consumer c (mkConsumer (getBitPosition t c) (getMarker t c) (isInReadyList t c) h) t.

Definition deref (t : ChangeTracker) (p : nat) : tracked ChangeItem :=
  match items t !! p with Some it => Ok it | None => Throw UseAfterFree end.

Definition set_item (p : nat) (it : ChangeItem) (t : ChangeTracker) : ChangeTracker :=
  set_items t (<[p := it]> (items t)).
Definition with_bitmap (it : ChangeItem) (b : ConsumerBitmap) : ChangeItem :=
  mkItem (trackableObject it) b (pendingConsumers it).
Definition with_pending (it : ChangeItem) (l : list nat) : ChangeItem :=
  mkItem (trackableObject it) (consumerBitmap it) l.

(** ** ChangeItem *)

Definition allConsumersProcessed (it : ChangeItem) : bool := isAllBitsCleared (consumerBitmap it).

Definition markConsumerProcessed (p : nat) (consumerId : Z) (t : ChangeTracker) : tracked ChangeTracker :=
  let* it := deref t p in
  Ok (set_item p (with_bitmap it (clearBit (consumerBitmap it) consumerId)) t).

Definition setConsumerBitMap (p : nat) (bitmap : ConsumerBitmap) (t : ChangeTracker) : tracked ChangeTracker :=
  let* it := deref t p in Ok (set_item p (with_bitmap it bitmap) t).

(** [pendingConsumers.erase(iterator_to(consumer))]: the consumer leaves the list
    it is linked into. *)
Definition removePendingConsumer (p c : nat) (t : ChangeTracker) : tracked ChangeTracker :=
  let* _ := deref t p in
  match hook t c with
  | None => Ok t
  | Some q =>
      let* it := deref t q in
      Ok (set_hook c None
            (set_item q (with_pending it (filter (fun d => d <> c) (pendingConsumers it))) t))
  end.

(** [if (!pendingConsumerHook.is_linked()) item->pendingConsumers.push_back(consumer)] *)
Definition pushPendingConsumer (p c : nat) (t : ChangeTracker) : tracked ChangeTracker :=
  let* it := deref t p in
  match hook t c with
  | Some _ => Ok t
  | None => Ok (set_hook c (Some p)
                  (set_item p (with_pending it (pendingConsumers it ++ [c])) t))
  end.

(** The element after [p]; [None] for the last one and for one that is not in the
    list. *)
Fixpoint next_in (p : nat) (l : list nat) : option nat :=
  match l with
  | [] => None
  | q :: l' => if decide (q = p) then head l' else next_in p l'
  end.

Definition get_next (p : nat) (t : ChangeTracker) : tracked (option nat) :=
  let* _ := deref t p in Ok (next_in p (changeList_ t)).

Definition erase_list (p : nat) (t : ChangeTracker) : ChangeTracker :=
  set_list t (filter (fun q => q <> p) (changeList_ t)).
Definition item_is_linked (p : nat) (t : ChangeTracker) : bool := bool_decide (p ∈ changeList_ t).

(** ** TrackableObject *)

Definition isOnChangeList (t : ChangeTracker) (o : nat) : bool :=
  match changeItem_ t !! o with Some _ => true | None => false end.

(** [setChangeItem(make_unique<ChangeItem>(o, bitmap))]: a new address. *)
Definition createChangeItem (o : nat) (bitmap : ConsumerBitmap) (t : ChangeTracker)
    : nat * ChangeTracker :=
  let p := nextItem_ t in
  (p, mkTracker (<[p := mkItem o bitmap []]> (items t)) (S p) (<[o := p]> (changeItem_ t))
        (changeList_ t) (store t) (consumers_ t) (readyConsumers_ t) (consumerBitManager_ t)
        (cachedConsumerBitmap_ t) (processed t)).

(** The object's [unique_ptr] deletes the item. *)
Definition clearChangeItem (o : nat) (t : ChangeTracker) : ChangeTracker :=
  match changeItem_ t !! o with
  | None => t
  | Some p =>
      mkTracker (delete p (items t)) (nextItem_ t) (delete o (changeItem_ t))
        (changeList_ t) (store t) (consumers_ t) (readyConsumers_ t) (consumerBitManager_ t)
        (cachedConsumerBitmap_ t) (processed t)
  end.

(** ** ChangeTracker *)

Definition addToReadyConsumers (c : nat) (t : ChangeTracker) : ChangeTracker :=
  if isInReadyList t c then t
  else setInReadyList c true (set_ready t ({[c]} ∪ readyConsumers_ t)).

Definition removeFromReadyConsumers (c : nat) (t : ChangeTracker) : ChangeTracker :=
  if isInReadyList t c then setInReadyList c false (set_ready t (readyConsumers_ t ∖ {[c]}))
  else t.

(** The [while (!pendingConsumers.empty())] loop. *)
Fixpoint movePending (fuel : nat) (p : nat) (nextItem : option nat) (t : ChangeTracker)
    : tracked ChangeTracker :=
  match fuel with
  | O => NoFuel
  | S fuel =>
      let* it := deref t p in
      match pendingConsumers it with
      | [] => Ok t
      | c :: rest =>
          let t := set_hook c None (set_item p (with_pending it rest) t) in
          let t := setMarker c nextItem t in
          let* t := match nextItem with
                    | Some n => pushPendingConsumer n c t
                    | None => Ok (addToReadyConsumers c t)
                    end in
          movePending fuel p nextItem t
      end
  end.

Definition updateItemPendingConsumers (p : nat) (t : ChangeTracker) : tracked ChangeTracker :=
  let* it := deref t p in
  let* nextItem := get_next p t in
  movePending (S (length (pendingConsumers it))) p nextItem t.

Definition getFullConsumerBitmap (t : ChangeTracker) : ConsumerBitmap := cachedConsumerBitmap_ t.

Definition changeListHasOnlyOneItem (t : ChangeTracker) : bool :=
  match changeList_ t with [_] => true | _ => false end.

Definition shouldSkipChangePublication (o : nat) (bitmap : ConsumerBitmap) (t : ChangeTracker) : bool :=
  (getNumBitsInUse (consumerBitManager_ t) =? 0) ||
  (negb (isOnChangeList t o) && isAllBitsCleared bitmap).

(** One consumer of the loop of [notifyReadyConsumers]; no coroutine is suspended
    in polled mode, so [resume] does nothing. *)
Definition notifyReadyConsumer (p c : nat) (t : ChangeTracker) : tracked ChangeTracker :=
  let t := setMarker c (Some p) t in
  let* t := pushPendingConsumer p c t in
  Ok (setInReadyList c false t).

Fixpoint notifyEach (p : nat) (cs : list nat) (t : ChangeTracker) : tracked ChangeTracker :=
  match cs with
  | [] => Ok t
  | c :: cs => let* t := notifyReadyConsumer p c t in notifyEach p cs t
  end.

Definition notifyReadyConsumers (p : nat) (t : ChangeTracker) : tracked ChangeTracker :=
  let* t := notifyEach p (elements (readyConsumers_ t)) t in
  Ok (set_ready t ∅).

Definition callProducer (o : nat) (t : ChangeTracker) : ChangeTracker :=
  set_processed t (processed t ++ [o]).

(** The part of [publishChange] on an object that has an item already. *)
Definition moveToEnd (p : nat) (bitmap : ConsumerBitmap) (t : ChangeTracker) : tracked ChangeTracker :=
  let* t := if item_is_linked p t then
              let* t := if changeListHasOnlyOneItem t then Ok t
                        else updateItemPendingConsumers p t in
              Ok (erase_list p t)
            else Ok t in
  let* it := deref t p in
  setConsumerBitMap p (orBitmaps (consumerBitmap it) bitmap) t.

Definition publishChange (o : option nat) (bitmap : ConsumerBitmap) (t : ChangeTracker)
    : tracked ChangeTracker :=
  match o with
  | None => Ok t
  | Some o =>
      if shouldSkipChangePublication o bitmap t then Ok (callProducer o t)
      else
        let* '(p, t) := match changeItem_ t !! o with
                        | Some p => let* t := moveToEnd p bitmap t in Ok (p, t)
                        | None => Ok (createChangeItem o bitmap t)
                        end in
        notifyReadyConsumers p (set_list t (changeList_ t ++ [p]))
  end.

(** The overload that addresses every registered consumer. *)
Definition publishChangeToAll (o : option nat) (t : ChangeTracker) : tracked ChangeTracker :=
  publishChange o (getFullConsumerBitmap t) t.

Definition isConsumerSetOnTrackableObject (o c : option nat) (t : ChangeTracker) : tracked bool :=
  match o, c with
  | Some o, Some c =>
      match changeItem_ t !! o with
      | None => Ok false
      | Some p => let* it := deref t p in Ok (isBitSet (consumerBitmap it) (getBitPosition t c))
      end
  | _, _ => Ok false
  end.

Definition notifyProducer (p : nat) (t : ChangeTracker) : tracked ChangeTracker :=
  let* t := updateItemPendingConsumers p t in
  let t := if item_is_linked p t then erase_list p t else t in
  let* it := deref t p in
  let o := trackableObject it in
  Ok (callProducer o (clearChangeItem o t)).

Definition checkAndNotifyProducer (p : nat) (t : ChangeTracker) : tracked ChangeTracker :=
  let* it := deref t p in
  if allConsumersProcessed it then notifyProducer p t else Ok t.

(** The loop of [consumerResetChangeList]. *)
Fixpoint resetWalk (fuel : nat) (consumerId : Z) (item : option nat) (t : ChangeTracker)
    : tracked ChangeTracker :=
  match item with
  | None => Ok t
  | Some p =>
      match fuel with
      | O => NoFuel
      | S fuel =>
          let* next_item := get_next p t in
          let* t := markConsumerProcessed p consumerId t in
          let* t := checkAndNotifyProducer p t in
          resetWalk fuel consumerId next_item t
      end
  end.

Definition consumerResetChangeList (c : option nat) (t : ChangeTracker) : tracked ChangeTracker :=
  match c with
  | None => Ok t
  | Some c =>
      match getMarker t c with
      | None => Ok t
      | Some p =>
          let* t := removePendingConsumer p c t in
          let* t := resetWalk (S (length (changeList_ t))) (getBitPosition t c) (Some p) t in
          Ok (setMarker c None t)
      end
  end.

Definition registerConsumer (c : option nat) (t : ChangeTracker) : tracked (Z * ChangeTracker) :=
  match c with
  | None => Ok (npos, t)
  | Some c =>
      let pos := getBitPosition t c in
      if negb (pos =? npos) then Ok (pos, t)
      else match getConsumerBit (consumerBitManager_ t) with
           | None => Throw NoBitAvailable
           | Some (position, m) =>
               let i := Z.to_nat position in
               let cs := if (length (consumers_ t) <=? i)%nat
                         then consumers_ t ++ replicate (S i - length (consumers_ t)) None
                         else consumers_ t in
               let t := set_registry t (<[i := Some c]> cs) m
                          (setBit (cachedConsumerBitmap_ t) position) in
               Ok (position, addToReadyConsumers c t)
           end
  end.

Definition unregisterConsumer (consumerId : Z) (t : ChangeTracker) : tracked ChangeTracker :=
  if blen (consumers_ t) <=? consumerId then Ok t
  else match consumers_ t !! Z.to_nat consumerId with
       | Some (Some c) =>
           let t := set_registry t (<[Z.to_nat consumerId := None]> (consumers_ t))
                      (snd (freeConsumerBit consumerId (consumerBitManager_ t)))
                      (clearBit (cachedConsumerBitmap_ t) consumerId) in
           consumerResetChangeList (Some c) (removeFromReadyConsumers c t)
       | _ => Ok t
       end.

(** The loop of [joinConsumer]. *)
Fixpoint joinWalk (fuel : nat) (b : Z) (item : option nat) (t : ChangeTracker) : tracked ChangeTracker :=
  match item with
  | None => Ok t
  | Some p =>
      match fuel with
      | O => NoFuel
      | S fuel =>
          let* it := deref t p in
          let t := set_item p (with_bitmap it (setBit (consumerBitmap it) b)) t in
          let* next := get_next p t in
          joinWalk fuel b next t
      end
  end.

Definition joinConsumer (existingConsumer newConsumer : nat) (t : ChangeTracker) : tracked ChangeTracker :=
  let b := getBitPosition t newConsumer in
  if (blen (consumers_ t) <=? b) ||
     negb (bool_decide (consumers_ t !! Z.to_nat b = Some (Some newConsumer)))
  then Throw InvalidArgument
  else match getMarker t newConsumer with
       | Some _ => Ok t
       | None =>
           match getMarker t existingConsumer with
           | None => Ok t
           | Some p =>
               let t := setMarker newConsumer (Some p) (removeFromReadyConsumers newConsumer t) in
               let* t := pushPendingConsumer p newConsumer t in
               joinWalk (S (length (changeList_ t))) b (Some p) t
           end
       end.

(** ** Consumer *)

Definition registerWithTracker (c : nat) (t : ChangeTracker) : tracked ChangeTracker :=
  let* '(pos, t) := registerConsumer (Some c) t in Ok (setBitPosition c pos t).

Definition deregisterFromTracker (c : nat) (t : ChangeTracker) : tracked ChangeTracker :=
  let* t := unregisterConsumer (getBitPosition t c) t in
  Ok (setMarker c None (setBitPosition c npos t)).

Definition next (c : nat) (t : ChangeTracker) : option nat := getMarker t c.
Definition begin (c : nat) (t : ChangeTracker) : option nat := next c t.

(** The loop of [markProcessed] that skips the items of other consumers. *)
Fixpoint skipUnowned (fuel : nat) (b : Z) (item : option nat) (t : ChangeTracker)
    : tracked (option nat) :=
  match item with
  | None => Ok None
  | Some p =>
      match fuel with
      | O => NoFuel
      | S fuel =>
          let* it := deref t p in
          if isBitSet (consumerBitmap it) b then Ok (Some p)
          else let* next := get_next p t in skipUnowned fuel b next t
      end
  end.

Definition markProcessed (c : nat) (item : option nat) (t : ChangeTracker) : tracked ChangeTracker :=
  match item with
  | None => Ok t
  | Some p =>
      let b := getBitPosition t c in
      let* t := removePendingConsumer p c t in
      let* nextItem := get_next p t in
      let* nextItem := skipUnowned (S (length (changeList_ t))) b nextItem t in
      let* t := markConsumerProcessed p b t in
      let t := setMarker c nextItem t in
      let t := match nextItem with None => addToReadyConsumers c t | Some _ => t end in
      checkAndNotifyProducer p t
  end.

Definition end_ (c : nat) (t : ChangeTracker) : tracked ChangeTracker :=
  match getMarker t c with
  | Some p => pushPendingConsumer p c t
  | None => Ok t
  end.

(** The loop of [attachToMarkerAhead]; the result is the item it stops at. *)
Fixpoint ackWalk (fuel : nat) (b : Z) (target item : option nat) (t : ChangeTracker)
    : tracked (option nat * ChangeTracker) :=
  match item with
  | None => Ok (None, t)
  | Some p =>
      if decide (item = target) then Ok (item, t)
      else match fuel with
           | O => NoFuel
           | S fuel =>
               let* nextItem := get_next p t in
               let* it := deref t p in
               let* t := if isBitSet (consumerBitmap it) b then
                           let* t := markConsumerProcessed p b t in checkAndNotifyProducer p t
                         else Ok t in
               ackWalk fuel b target nextItem t
           end
  end.

Definition attachToMarkerAhead (source target : option nat) (t : ChangeTracker) : tracked ChangeTracker :=
  match source, target with
  | Some s, Some g =>
      if getBitPosition t s =? npos then Ok t
      else
        let targetMarker := getMarker t g in
        match getMarker t s with
        | None => Ok (addToReadyConsumers s t)
        | Some startItem =>
            if decide (Some startItem = targetMarker) then Ok t
            else
              let b := getBitPosition t s in
              let* t := removePendingConsumer startItem s t in
              let* '(item, t) := ackWalk (S (length (changeList_ t))) b targetMarker (Some startItem) t in
              let t := setMarker s item t in
              match item with
              | None => Ok (addToReadyConsumers s t)
              | Some _ => end_ s t
              end
        end
  | _, _ => Ok t
  end.

(** The [for] loop of [attachToMarkerBehind]. *)
Fixpoint ownWalk (fuel : nat) (b : Z) (sourceMarker item : option nat) (t : ChangeTracker)
    : tracked ChangeTracker :=
  match item with
  | None => Ok t
  | Some p =>
      match fuel with
      | O => NoFuel
      | S fuel =>
          let* it := deref t p in
          let t := set_item p (with_bitmap it (setBit (consumerBitmap it) b)) t in
          if decide (item = sourceMarker) then Ok t
          else let* next := get_next p t in ownWalk fuel b sourceMarker next t
      end
  end.

Definition attachToMarkerBehind (source target : option nat) (t : ChangeTracker) : tracked ChangeTracker :=
  match source, target with
  | Some s, Some g =>
      if getBitPosition t s =? npos then Ok t
      else
        let targetMarker := getMarker t g in
        let sourceMarker := getMarker t s in
        let b := getBitPosition t s in
        let* t := ownWalk (S (length (changeList_ t))) b sourceMarker targetMarker t in
        let* t := match sourceMarker with
                  | Some p => removePendingConsumer p s t
                  | None => Ok (removeFromReadyConsumers s t)
                  end in
        let t := setMarker s targetMarker t in
        let* t := match targetMarker with
                  | Some _ => end_ s t
                  | None => Ok (addToReadyConsumers s t)
                  end in
        consumerResetChangeList (Some g) t
  | _, _ => Ok t
  end.

(** The callback [processChangeItemCallback_] of a consumer: a function of a state
    of its own and of the changed object. *)
Section Iterate.
Context {S_ : Type}.
Variable processChangeItemCallback_ : S_ -> nat -> ProcessResult * S_.

(** The loop of [iterateChangesUntilExcluding]. *)
Fixpoint iterateLoop (fuel : nat) (c : nat) (untilMarker item : option nat) (s : S_)
    (t : ChangeTracker) : tracked (ProcessResult * S_ * ChangeTracker) :=
  match item with
  | None => Ok (CONTINUE, s, t)
  | Some p =>
      if decide (item = untilMarker) then Ok (CONTINUE, s, t)
      else match fuel with
           | O => NoFuel
           | S fuel =>
               let* it := deref t p in
               match processChangeItemCallback_ s (trackableObject it) with
               | (YIELD, s) => Ok (YIELD, s, t)
               | (CONTINUE, s) =>
                   let* t := markProcessed c item t in
                   iterateLoop fuel c untilMarker (next c t) s t
               end
           end
  end.

(** The result says whether the run warned that it passed the boundary. *)
Definition iterateChangesUntilExcluding (c : nat) (untilMarker : option nat) (s : S_)
    (t : ChangeTracker) : tracked (bool * S_ * ChangeTracker) :=
  let* owned := match untilMarker with
                | None => Ok true
                | Some u => let* it := deref t u in
                            Ok (isBitSet (consumerBitmap it) (getBitPosition t c))
                end in
  if negb owned then Ok (false, s, t)
  else
    let* t := match getMarker t c with
              | Some p => removePendingConsumer p c t
              | None => Ok t
              end in
    let* '(r, s, t) := iterateLoop (S (length (changeList_ t))) c untilMarker (begin c t) s t in
    let* t := end_ c t in
    let warn := match r with
                | CONTINUE => negb (bool_decide (getMarker t c = untilMarker))
                | YIELD => false
                end in
    Ok (warn, s, t).

Definition iterateChangesToEnd (c : nat) (s : S_) (t : ChangeTracker)
    : tracked (bool * S_ * ChangeTracker) :=
  iterateChangesUntilExcluding c None s t.
End Iterate.
