(* ===== verification/ChangeTrackerInv.v ===== *)
(** * The invariant of the change tracker

    What a consistent tracker looks like ([tracker_ok]), and that every operation
    of ChangeTracker.v runs to its end on a consistent tracker, touches no
    deleted item and leaves it consistent.  The operations take a consumer off
    its pending list while they work on it, and clear the last bit of an item
    before they delete it; [core x e] is the invariant with the consumer [x]
    and the item [e] excepted. *)

From stdpp Require Import gmap fin_sets.
From S2P Require Import Prelude ConsumerBitmap ConsumerBitManager ChangeTracker.

(** ** Views *)

Definition bitAt (t : ChangeTracker) (p : nat) (b : Z) : bool :=
  match items t !! p with Some it => bit_of (consumerBitmap it) b | None => false end.
Definition pend (t : ChangeTracker) (p : nat) : list nat :=
  match items t !! p with Some it => pendingConsumers it | None => [] end.
Definition objAt (t : ChangeTracker) (p : nat) : option nat := trackableObject <$> items t !! p.

(** The items in front of a marker: all of them for the null marker. *)
Fixpoint before_in (p : nat) (l : list nat) : list nat :=
  match l with
  | [] => []
  | q :: l' => if decide (q = p) then [] else q :: before_in p l'
  end.
Definition before (m : option nat) (l : list nat) : list nat :=
  match m with Some p => before_in p l | None => l end.

Lemma before_in_app p l1 l2 : p ∉ l1 -> before_in p (l1 ++ l2) = l1 ++ before_in p l2.
Proof.
  induction l1 as [|q l1 IH]; intros Hp; [done|]. apply not_elem_of_cons in Hp as [Hq Hp].
  simpl. rewrite decide_False by done. by rewrite IH.
Qed.

Lemma before_split p l1 l2 : p ∉ l1 -> before (Some p) (l1 ++ p :: l2) = l1.
Proof. intros Hp. simpl. rewrite before_in_app by done. simpl. by rewrite decide_True, app_nil_r. Qed.

Lemma next_in_split p l1 l2 : p ∉ l1 -> next_in p (l1 ++ p :: l2) = head l2.
Proof.
  induction l1 as [|q l1 IH]; intros Hp; simpl; [by rewrite decide_True|].
  apply not_elem_of_cons in Hp as [Hq Hp]. rewrite decide_False by done. by apply IH.
Qed.

Lemma nodup_split p (l : list nat) : NoDup l -> p ∈ l ->
  exists l1 l2, l = l1 ++ p :: l2 /\ (p ∉ l1) /\ (p ∉ l2).
Proof.
  intros Hnd Hp. apply list_elem_of_split in Hp as (l1 & l2 & ->). exists l1, l2.
  apply NoDup_app in Hnd as (_ & H1 & H2). apply NoDup_cons in H2 as [H2 _].
  split_and!; [done| |done]. intros H. apply (H1 p H). left.
Qed.

Lemma filter_neq_notin p (l : list nat) : p ∉ l -> filter (fun q => q <> p) l = l.
Proof.
  induction l as [|q l IH]; intros Hp; [done|]. apply not_elem_of_cons in Hp as [Hq Hp].
  rewrite filter_cons_True by done. by rewrite IH.
Qed.

Lemma filter_neq_split (p : nat) (l1 l2 : list nat) : p ∉ l1 -> p ∉ l2 ->
  filter (fun q => q <> p) (l1 ++ p :: l2) = l1 ++ l2.
Proof.
  intros H1 H2. rewrite filter_app, filter_cons_False by (intros H; by destruct H).
  by rewrite !filter_neq_notin.
Qed.

Lemma before_next p l : NoDup l -> p ∈ l -> before (next_in p l) l = before (Some p) l ++ [p].
Proof.
  intros Hnd Hp. destruct (nodup_split p l Hnd Hp) as (l1 & l2 & -> & H1 & H2).
  rewrite next_in_split, before_split by done. destruct l2 as [|q l2]; [done|]. cbn [head].
  change (l1 ++ p :: q :: l2) with (l1 ++ [p] ++ q :: l2). rewrite app_assoc, before_split; [done|].
  apply NoDup_app in Hnd as (_ & Hd & Hnd). apply not_elem_of_app. split.
  - intros Hq. apply (Hd q Hq). right. left.
  - rewrite list_elem_of_singleton. intros ->. apply H2. left.
Qed.

Lemma before_next_erase p l : NoDup l -> p ∈ l ->
  before (next_in p l) (filter (fun q => q <> p) l) = before (Some p) l.
Proof.
  intros Hnd Hp. destruct (nodup_split p l Hnd Hp) as (l1 & l2 & -> & H1 & H2).
  rewrite next_in_split, before_split, filter_neq_split by done.
  destruct l2 as [|q l2]; [by rewrite app_nil_r|]. cbn [head]. apply before_split.
  apply NoDup_app in Hnd as (_ & Hd & _). intros Hq. apply (Hd q Hq). right. left.
Qed.

Lemma before_erase p m l : m <> Some p ->
  before m (filter (fun q => q <> p) l) = filter (fun q => q <> p) (before m l).
Proof.
  intros Hm. destruct m as [r|]; [|done]. simpl. induction l as [|q l IH]; [done|].
  destruct (decide (q = p)) as [->|Hq].
  - rewrite filter_cons_False by (intros H; by destruct H). rewrite IH. simpl.
    rewrite decide_False by congruence. by rewrite filter_cons_False by (intros H; by destruct H).
  - rewrite filter_cons_True by done. simpl. destruct (decide (q = r)); [done|].
    rewrite filter_cons_True by done. by rewrite IH.
Qed.

Lemma before_incl m l q : q ∈ before m l -> q ∈ l.
Proof.
  destruct m as [r|]; [|done]. simpl. induction l as [|p l IH]; [done|]. simpl.
  destruct (decide (p = r)); [by intros ?%elem_of_nil|].
  intros [->|?]%elem_of_cons; [left|right; auto].
Qed.

Lemma before_app_in p l l' : p ∈ l -> before (Some p) (l ++ l') = before (Some p) l.
Proof.
  intros Hp. simpl. induction l as [|q l IH]; [by apply elem_of_nil in Hp|]. simpl.
  destruct (decide (q = p)); [done|]. apply elem_of_cons in Hp as [->|Hp]; [done|]. by rewrite IH.
Qed.

Lemma next_in_Some p l n : NoDup l -> next_in p l = Some n -> n ∈ l /\ n <> p.
Proof.
  intros Hnd Hn. induction l as [|q l IH]; [done|]. simpl in Hn. apply NoDup_cons in Hnd as [Hq Hnd].
  destruct (decide (q = p)) as [->|].
  - destruct l as [|r l]; [done|]. simpl in Hn. simplify_eq. split; [do 2 constructor|].
    intros ->. apply Hq. left.
  - destruct (IH Hnd Hn). split; [by right|done].
Qed.

(** ** The invariant *)

Record shape (t : ChangeTracker) : Prop := {
  sh_nodup : NoDup (changeList_ t);
  sh_items : forall p, p ∈ changeList_ t <-> is_Some (items t !! p);
  sh_obj : forall o p, changeItem_ t !! o = Some p <->
             exists it, items t !! p = Some it /\ trackableObject it = o;
  sh_wf : forall p it, items t !! p = Some it -> wf_bitmap (consumerBitmap it);
  sh_fresh : forall p, p ∈ changeList_ t -> (p < nextItem_ t)%nat
}.

Record pended (t : ChangeTracker) : Prop := {
  pd_hook : forall p c, c ∈ pend t p <-> hook t c = Some p;
  pd_nodup : forall p, NoDup (pend t p);
  pd_ready : forall c, c ∈ readyConsumers_ t <-> isInReadyList t c = true
}.

(** A consumer between two operations: it is linked at its marker, has nothing to
    do in front of it, and is at the end of the list when it is ready. *)
Record placed (t : ChangeTracker) (c : nat) : Prop := {
  pl_hook : hook t c = getMarker t c;
  pl_marker : forall p, getMarker t c = Some p -> p ∈ changeList_ t;
  pl_behind : forall p, p ∈ before (getMarker t c) (changeList_ t) ->
                bitAt t p (getBitPosition t c) = false;
  pl_ready : isInReadyList t c = true -> getMarker t c = None
}.

(** Every item is owed by somebody, and only by registered consumers. *)
Record owned (e : option nat) (t : ChangeTracker) : Prop := {
  ow_some : forall p, p ∈ changeList_ t -> Some p <> e -> exists b, 0 <= b /\ bitAt t p b = true;
  ow_reg : forall p b, 0 <= b -> bitAt t p b = true ->
             b <> npos /\ exists c, getBitPosition t c = b
}.

Record core (x e : option nat) (t : ChangeTracker) : Prop := {
  co_shape : shape t;
  co_pended : pended t;
  co_placed : forall c, Some c <> x -> placed t c;
  co_owned : owned e t
}.

Record registry (t : ChangeTracker) : Prop := {
  rg_manager : manager_ok (consumerBitManager_ t);
  rg_max : maxBits (consumerBitManager_ t) <= npos;
  rg_slot : forall i c, consumers_ t !! i = Some (Some c) ->
              Z.of_nat i < maxBits (consumerBitManager_ t) /\ getBitPosition t c = Z.of_nat i;
  rg_pos : forall c, getBitPosition t c <> npos ->
             0 <= getBitPosition t c /\
             consumers_ t !! Z.to_nat (getBitPosition t c) = Some (Some c);
  rg_use : forall q, 0 <= q < maxBits (consumerBitManager_ t) ->
             in_use (consumerBitManager_ t) q <-> exists c, getBitPosition t c = q;
  rg_cached_wf : wf_bitmap (cachedConsumerBitmap_ t);
  rg_cached : forall q, 0 <= q ->
                bit_of (cachedConsumerBitmap_ t) q = true <-> q <> npos /\ exists c, getBitPosition t c = q;
  rg_idle : forall c, getBitPosition t c = npos -> getMarker t c = None /\ isInReadyList t c = false
}.

Definition tracker_ok (t : ChangeTracker) : Prop := core None None t /\ registry t.

(** ** How the views change *)

Lemma consumer_set c C t d : consumer (set_consumer c C t) d = if decide (d = c) then C else consumer t d.
Proof.
  unfold consumer, set_consumer, set_store. simpl. destruct (decide (d = c)) as [->|].
  - by rewrite lookup_insert_eq.
  - by rewrite lookup_insert_ne.
Qed.

Lemma pos_set c C t d : getBitPosition (set_consumer c C t) d =
  if decide (d = c) then bitPosition_ C else getBitPosition t d.
Proof. unfold getBitPosition. rewrite consumer_set. by case_match. Qed.
Lemma marker_set c C t d : getMarker (set_consumer c C t) d =
  if decide (d = c) then marker_ C else getMarker t d.
Proof. unfold getMarker. rewrite consumer_set. by case_match. Qed.
Lemma flag_set c C t d : isInReadyList (set_consumer c C t) d =
  if decide (d = c) then isInReadyList_ C else isInReadyList t d.
Proof. unfold isInReadyList. rewrite consumer_set. by case_match. Qed.
Lemma hook_set c C t d : hook (set_consumer c C t) d =
  if decide (d = c) then pendingConsumerHook C else hook t d.
Proof. unfold hook. rewrite consumer_set. by case_match. Qed.

Lemma bitAt_set_item p it t q b : bitAt (set_item p it t) q b =
  if decide (q = p) then bit_of (consumerBitmap it) b else bitAt t q b.
Proof.
  unfold bitAt, set_item, set_items. simpl. destruct (decide (q = p)) as [->|].
  - by rewrite lookup_insert_eq.
  - by rewrite lookup_insert_ne.
Qed.
Lemma pend_set_item p it t q : pend (set_item p it t) q =
  if decide (q = p) then pendingConsumers it else pend t q.
Proof.
  unfold pend, set_item, set_items. simpl. destruct (decide (q = p)) as [->|].
  - by rewrite lookup_insert_eq.
  - by rewrite lookup_insert_ne.
Qed.

(** Setters of one kind leave the views of the other kind alone. *)
Lemma bitAt_set_consumer c C t p b : bitAt (set_consumer c C t) p b = bitAt t p b.
Proof. done. Qed.
Lemma pend_set_consumer c C t p : pend (set_consumer c C t) p = pend t p.
Proof. done. Qed.
Lemma consumer_set_item p it t c : consumer (set_item p it t) c = consumer t c.
Proof. done. Qed.
Lemma hook_set_item p it t c : hook (set_item p it t) c = hook t c.
Proof. done. Qed.
Lemma flag_set_item p it t c : isInReadyList (set_item p it t) c = isInReadyList t c.
Proof. done. Qed.
Lemma marker_set_item p it t c : getMarker (set_item p it t) c = getMarker t c.
Proof. done. Qed.
Lemma pos_set_item p it t c : getBitPosition (set_item p it t) c = getBitPosition t c.
Proof. done. Qed.

Create Rewrite HintDb views.
#[export] Hint Rewrite bitAt_set_consumer pend_set_consumer consumer_set_item hook_set_item
  flag_set_item marker_set_item pos_set_item : views.
#[export] Hint Rewrite pos_set marker_set flag_set hook_set bitAt_set_item pend_set_item : views.

Lemma if_decide_refl {A} (c : nat) (a b : A) : (if decide (c = c) then a else b) = a.
Proof. by rewrite decide_True. Qed.
#[export] Hint Rewrite @if_decide_refl : views.

Ltac views :=
  unfold setMarker, setBitPosition, setInReadyList, set_hook;
  repeat (progress autorewrite with views; cbn [bitPosition_ marker_ isInReadyList_ pendingConsumerHook
    consumerBitmap pendingConsumers trackableObject with_bitmap with_pending]).

(** Operations that leave the consumers alone, or the items. *)
Lemma deref_Some t p it : items t !! p = Some it -> deref t p = Ok it.
Proof. unfold deref. by intros ->. Qed.

Lemma shape_deref t p : shape t -> p ∈ changeList_ t -> exists it, items t !! p = Some it.
Proof. intros Hs Hp. by apply (sh_items t Hs) in Hp as [it ?]; exists it. Qed.

(** ** Frames *)

Definition strip (it : ChangeItem) : nat * ConsumerBitmap := (trackableObject it, consumerBitmap it).
Arguments strip : simpl never.

(** Only markers, hooks, the ready set and pending lists may differ. *)
Record frame (t t' : ChangeTracker) : Prop := {
  fr_items : forall q, strip <$> items t' !! q = strip <$> items t !! q;
  fr_next : nextItem_ t' = nextItem_ t;
  fr_obj : changeItem_ t' = changeItem_ t;
  fr_list : changeList_ t' = changeList_ t;
  fr_proc : processed t' = processed t;
  fr_cons : consumers_ t' = consumers_ t;
  fr_man : consumerBitManager_ t' = consumerBitManager_ t;
  fr_cached : cachedConsumerBitmap_ t' = cachedConsumerBitmap_ t;
  fr_pos : forall c, getBitPosition t' c = getBitPosition t c
}.

#[export] Instance frame_preorder : PreOrder frame.
Proof.
  split; [by intros t; constructor|].
  intros t1 t2 t3 [] []. constructor; intros; by repeat match goal with H : _ |- _ => rewrite H end.
Qed.

Lemma frame_item t t' p it' : frame t t' -> items t' !! p = Some it' ->
  exists it, items t !! p = Some it /\ strip it = strip it'.
Proof.
  intros Hf Hp. pose proof (fr_items _ _ Hf p) as E. rewrite Hp in E.
  destruct (items t !! p) as [it|]; [|done]. injection E as E. exists it. split; [done|]. unfold strip. congruence.
Qed.

Lemma frame_item_inv t t' p it : frame t t' -> items t !! p = Some it ->
  exists it', items t' !! p = Some it' /\ strip it = strip it'.
Proof.
  intros Hf Hp. pose proof (fr_items _ _ Hf p) as E. rewrite Hp in E.
  destruct (items t' !! p) as [it'|]; [|done]. injection E as E. exists it'. split; [done|]. unfold strip. congruence.
Qed.

Lemma frame_is_Some t t' p : frame t t' -> is_Some (items t !! p) <-> is_Some (items t' !! p).
Proof.
  intros Hf. rewrite <- (fmap_is_Some strip), <- (fmap_is_Some strip (items t' !! p)).
  by rewrite (fr_items _ _ Hf).
Qed.

Lemma frame_bitAt t t' p b : frame t t' -> bitAt t' p b = bitAt t p b.
Proof.
  intros Hf. unfold bitAt. pose proof (fr_items _ _ Hf p) as E.
  destruct (items t !! p), (items t' !! p); simpl in E; [|done|done|done].
  unfold strip in E. simplify_eq. by f_equal.
Qed.

Lemma frame_objAt t t' p : frame t t' -> objAt t' p = objAt t p.
Proof.
  intros Hf. unfold objAt. pose proof (fr_items _ _ Hf p) as E.
  destruct (items t !! p), (items t' !! p); simpl in *; unfold strip in E; congruence.
Qed.

Lemma shape_frame t t' : frame t t' -> shape t -> shape t'.
Proof.
  intros Hf Hs. constructor.
  - rewrite (fr_list _ _ Hf). apply Hs.
  - intros p. rewrite (fr_list _ _ Hf), (sh_items t Hs). by apply frame_is_Some.
  - intros o p. rewrite (fr_obj _ _ Hf), (sh_obj t Hs). split.
    + intros (it & Hp & <-). destruct (frame_item_inv _ _ _ _ Hf Hp) as (it' & ? & E).
      exists it'. split; [done|]. unfold strip in E. congruence.
    + intros (it & Hp & <-). destruct (frame_item _ _ _ _ Hf Hp) as (it' & ? & E).
      exists it'. split; [done|]. unfold strip in E. congruence.
  - intros p it Hp. destruct (frame_item _ _ _ _ Hf Hp) as (it' & Hp' & E).
    apply (sh_wf t Hs) in Hp'. unfold strip in E. by simplify_eq; congruence.
  - intros p. rewrite (fr_list _ _ Hf), (fr_next _ _ Hf). apply Hs.
Qed.

Lemma owned_frame e t t' : frame t t' -> owned e t -> owned e t'.
Proof.
  intros Hf Ho. constructor.
  - intros p. rewrite (fr_list _ _ Hf). intros Hp He. destruct (ow_some e t Ho p Hp He) as (b & ? & ?).
    exists b. by rewrite (frame_bitAt _ _ _ _ Hf).
  - intros p b Hb. rewrite (frame_bitAt _ _ _ _ Hf). intros H.
    destruct (ow_reg e t Ho p b Hb H) as (? & c & ?). split; [done|]. exists c.
    by rewrite (fr_pos _ _ Hf).
Qed.

(** Where a consumer stands depends on its own record and on the list only. *)
Lemma placed_frame t t' c : frame t t' -> consumer t' c = consumer t c -> placed t c -> placed t' c.
Proof.
  intros Hf Hc [? ? ? ?]. unfold hook, getMarker, getBitPosition, isInReadyList in *.
  constructor; unfold hook, getMarker, getBitPosition, isInReadyList; rewrite Hc; try done.
  - by rewrite (fr_list _ _ Hf).
  - intros p. rewrite (fr_list _ _ Hf), (frame_bitAt _ _ _ _ Hf). auto.
Qed.

Lemma frame_consumer c C t : bitPosition_ C = getBitPosition t c -> frame t (set_consumer c C t).
Proof.
  intros HC. constructor; try done. intros d. views. by case_decide; subst.
Qed.

Lemma frame_pending p it l t : items t !! p = Some it -> frame t (set_item p (with_pending it l) t).
Proof.
  intros Hp. constructor; try done. intros q. simpl. destruct (decide (q = p)) as [->|].
  - by rewrite lookup_insert_eq, Hp.
  - by rewrite lookup_insert_ne.
Qed.

Lemma frame_ready r t : frame t (set_ready t r).
Proof. by constructor. Qed.

(** ** Pending lists *)

(** Only the record of [c] has changed, to [C]. *)
Definition only (c : nat) (C : Consumer) (t t' : ChangeTracker) : Prop :=
  forall d, consumer t' d = if decide (d = c) then C else consumer t d.

Lemma only_ne c C t t' d : only c C t t' -> d <> c -> consumer t' d = consumer t d.
Proof. intros H Hd. rewrite H. by rewrite decide_False. Qed.
Lemma only_eq c C t t' : only c C t t' -> consumer t' c = C.
Proof. intros H. rewrite H. by rewrite decide_True. Qed.

Lemma only_set c C t t1 : store t1 = store t -> only c C t (set_consumer c C t1).
Proof. intros E d. rewrite consumer_set. unfold consumer. by rewrite E. Qed.

Lemma only_trans c C1 C2 t1 t2 t3 : only c C1 t1 t2 -> only c C2 t2 t3 -> only c C2 t1 t3.
Proof. intros H1 H2 d. rewrite H2, H1. by case_decide. Qed.

Definition detached (C : Consumer) : Consumer :=
  mkConsumer (bitPosition_ C) (marker_ C) (isInReadyList_ C) None.
Definition linked_at (p : nat) (C : Consumer) : Consumer :=
  mkConsumer (bitPosition_ C) (marker_ C) (isInReadyList_ C) (Some p).

Lemma pend_Some t p c : c ∈ pend t p -> exists it, items t !! p = Some it /\ c ∈ pendingConsumers it.
Proof. unfold pend. destruct (items t !! p); [eauto|by intros ?%elem_of_nil]. Qed.

Lemma removePending_ok p c t : pended t -> is_Some (items t !! p) ->
  exists t', removePendingConsumer p c t = Ok t' /\ frame t t' /\ pended t' /\
             readyConsumers_ t' = readyConsumers_ t /\ only c (detached (consumer t c)) t t'.
Proof.
  intros Hp [it Hit]. unfold removePendingConsumer. rewrite (deref_Some _ _ _ Hit). simpl.
  destruct (hook t c) as [q|] eqn:Eh.
  - destruct (pend_Some t q c) as (it' & Hq & Hc); [by apply Hp|].
    rewrite (deref_Some _ _ _ Hq). simpl. eexists. split; [done|].
    set (t1 := set_item q _ t). split_and!; [|constructor|done|].
    + trans t1; [by apply frame_pending|]. by apply frame_consumer.
    + intros r d. subst t1. views. pose proof (pd_hook t Hp r d) as Hpd. unfold pend in Hpd.
      destruct (decide (r = q)) as [->|]; [rewrite Hq in Hpd; simpl in *;
        rewrite list_elem_of_filter|fold (pend t r) in Hpd];
        (destruct (decide (d = c)) as [->|]; rewrite ?Hpd; clear Hpd; naive_solver).
    + intros r. subst t1. views. case_decide; [apply NoDup_filter|apply Hp].
      pose proof (pd_nodup t Hp q) as Hnd. unfold pend in Hnd. by rewrite Hq in Hnd.
    + intros d. subst t1. views. rewrite (pd_ready t Hp d). by case_decide; subst.
    + by apply only_set.
  - exists t. split; [done|]. split_and!; [done|done|done|]. intros d. case_decide; [|done]. subst.
    unfold hook in Eh. unfold detached. rewrite <- Eh. by destruct (consumer t c).
Qed.

Lemma pushPending_ok p c t : pended t -> is_Some (items t !! p) -> hook t c = None ->
  exists t', pushPendingConsumer p c t = Ok t' /\ frame t t' /\ pended t' /\
             readyConsumers_ t' = readyConsumers_ t /\ only c (linked_at p (consumer t c)) t t'.
Proof.
  intros Hp [it Hit] Hh. unfold pushPendingConsumer. rewrite (deref_Some _ _ _ Hit), Hh. simpl.
  eexists. split; [done|]. set (t1 := set_item p _ t).
  assert (Hpe : pend t p = pendingConsumers it) by (unfold pend; by rewrite Hit).
  split_and!; [|constructor|done|].
  - trans t1; [by apply frame_pending|]. by apply frame_consumer.
  - intros r d. subst t1. views. pose proof (pd_hook t Hp r d) as Hpd.
    destruct (decide (r = p)) as [->|]; [rewrite <- Hpe, elem_of_app, list_elem_of_singleton|];
      destruct (decide (d = c)) as [->|]; rewrite ?Hpd; naive_solver.
  - intros r. subst t1. views. case_decide; [|apply Hp]. subst r. rewrite <- Hpe.
    apply NoDup_app. split_and!; [apply Hp| |by apply NoDup_singleton].
    intros d Hd ->%list_elem_of_singleton. apply Hp in Hd. congruence.
  - intros d. subst t1. views. rewrite (pd_ready t Hp d). by case_decide; subst.
  - by apply only_set.
Qed.

Definition ready_at (r : bool) (C : Consumer) : Consumer :=
  mkConsumer (bitPosition_ C) (marker_ C) r (pendingConsumerHook C).

Lemma only_same c t t' : only c (consumer t c) t t' -> forall d, consumer t' d = consumer t d.
Proof. intros H d. rewrite H. by case_decide; subst. Qed.

Lemma pended_consumers t t' : items t' = items t ->
  (forall d, hook t' d = hook t d) ->
  (forall d, d ∈ readyConsumers_ t' <-> isInReadyList t' d = true) -> pended t -> pended t'.
Proof.
  intros Hi Hh Hr Hp. constructor; [|intros p; unfold pend; rewrite Hi; apply Hp|done].
  intros p d. unfold pend. rewrite Hh, Hi. apply Hp.
Qed.

Lemma addToReady_ok c t : pended t ->
  frame t (addToReadyConsumers c t) /\ pended (addToReadyConsumers c t) /\
  items (addToReadyConsumers c t) = items t /\
  only c (ready_at true (consumer t c)) t (addToReadyConsumers c t).
Proof.
  intros Hp. unfold addToReadyConsumers. destruct (isInReadyList t c) eqn:Ef.
  - split_and!; [done|done|done|]. intros d. case_decide; [|done]. subst.
    unfold isInReadyList in Ef. unfold ready_at. rewrite <- Ef. by destruct (consumer t c).
  - split_and!; [|apply (pended_consumers t); [done| | |done]|done|by apply only_set].
    + trans (set_ready t ({[c]} ∪ readyConsumers_ t)); [apply frame_ready|]. by apply frame_consumer.
    + intros d. views. by case_decide; subst.
    + intros d. views. simpl. rewrite elem_of_union, elem_of_singleton, (pd_ready t Hp d).
      case_decide; subst; naive_solver.
Qed.

Lemma removeFromReady_ok c t : pended t ->
  frame t (removeFromReadyConsumers c t) /\ pended (removeFromReadyConsumers c t) /\
  items (removeFromReadyConsumers c t) = items t /\
  only c (ready_at false (consumer t c)) t (removeFromReadyConsumers c t).
Proof.
  intros Hp. unfold removeFromReadyConsumers. destruct (isInReadyList t c) eqn:Ef.
  - split_and!; [|apply (pended_consumers t); [done| | |done]|done|by apply only_set].
    + trans (set_ready t (readyConsumers_ t ∖ {[c]})); [apply frame_ready|]. by apply frame_consumer.
    + intros d. views. by case_decide; subst.
    + intros d. views. simpl. rewrite elem_of_difference, elem_of_singleton, (pd_ready t Hp d).
      case_decide; subst; naive_solver.
  - split_and!; [done|done|done|]. intros d. case_decide; [|done]. subst.
    unfold isInReadyList in Ef. unfold ready_at. rewrite <- Ef. by destruct (consumer t c).
Qed.

Definition marked_at (m : option nat) (C : Consumer) : Consumer :=
  mkConsumer (bitPosition_ C) m (isInReadyList_ C) (pendingConsumerHook C).

Lemma setMarker_ok c m t : pended t ->
  frame t (setMarker c m t) /\ pended (setMarker c m t) /\
  only c (marked_at m (consumer t c)) t (setMarker c m t).
Proof.
  intros Hp. split_and!; [by apply frame_consumer| |by apply only_set].
  apply (pended_consumers t); [done| | |done].
  - intros d. views. by case_decide; subst.
  - intros d. views. rewrite (pd_ready t Hp d). by case_decide; subst.
Qed.

(** Where [movePending] puts a consumer. *)
Definition moved_to (n : option nat) (C : Consumer) : Consumer :=
  mkConsumer (bitPosition_ C) n (match n with None => true | Some _ => isInReadyList_ C end) n.

Definition live_target (t : ChangeTracker) (p : nat) (n : option nat) : Prop :=
  forall m, n = Some m -> is_Some (items t !! m) /\ m <> p.

Lemma movePending_step p n c rest it t :
  pended t -> items t !! p = Some it -> pendingConsumers it = c :: rest -> live_target t p n ->
  exists t', (let t1 := setMarker c n (set_hook c None (set_item p (with_pending it rest) t)) in
              match n with
              | Some m => pushPendingConsumer m c t1
              | None => Ok (addToReadyConsumers c t1)
              end) = Ok t' /\
    frame t t' /\ pended t' /\ pend t' p = rest /\ only c (moved_to n (consumer t c)) t t'.
Proof.
  intros Hp Hit Hpe Hn. set (t1 := setMarker _ _ _). cbv zeta.
  assert (Hppe : pend t p = c :: rest) by (unfold pend; by rewrite Hit).
  assert (Hnd : NoDup (c :: rest)) by (rewrite <- Hppe; apply Hp).
  assert (Hhc : hook t c = Some p) by (apply Hp; rewrite Hppe; left).
  apply NoDup_cons in Hnd as [Hcr Hnd].
  assert (Hf1 : frame t t1).
  { trans (set_item p (with_pending it rest) t); [by apply frame_pending|].
    etrans; by apply frame_consumer. }
  assert (Ho1 : only c (mkConsumer (getBitPosition t c) n (isInReadyList t c) None) t t1).
  { eapply only_trans; [by apply only_set|]. intros d. subst t1. unfold setMarker.
    rewrite consumer_set. by case_decide; [subst; views|]. }
  assert (Hp1 : pended t1).
  { subst t1. constructor.
    - intros r d. views. pose proof (pd_hook t Hp r d) as Hpd.
      destruct (decide (r = p)) as [->|]; [rewrite Hppe, elem_of_cons in Hpd|];
        (destruct (decide (d = c)) as [->|]; [rewrite Hhc in Hpd|]; clear Hp Hn; naive_solver).
    - intros r. views. case_decide; [done|apply Hp].
    - intros d. views. rewrite (pd_ready t Hp d). by repeat case_decide; subst. }
  assert (Hpr : pend t1 p = rest) by (subst t1; by views).
  destruct n as [m|].
  - destruct (Hn m eq_refl) as [Hm Hmp].
    destruct (pushPending_ok m c t1) as (t' & Hpush & Hf' & Hp' & _ & Ho');
      [done|by apply (frame_is_Some t)|unfold hook; by rewrite (only_eq _ _ _ _ Ho1)|].
    exists t'. split_and!; [done|by trans t1|done| |].
    + unfold pushPendingConsumer in Hpush. destruct (proj1 (frame_is_Some t t1 m Hf1) Hm) as [itm Hitm].
      rewrite (deref_Some _ _ _ Hitm) in Hpush. simpl in Hpush.
      destruct (hook t1 c); simplify_eq; [done|]. views. by rewrite decide_False by done.
    + rewrite (only_eq _ _ _ _ Ho1) in Ho'. by eapply only_trans.
  - destruct (addToReady_ok c t1 Hp1) as (Hf' & Hp' & Hi' & Ho').
    eexists. split; [done|]. split_and!; [by trans t1|done|unfold pend in *; by rewrite Hi'|].
    rewrite (only_eq _ _ _ _ Ho1) in Ho'. by eapply only_trans.
Qed.

Lemma movePending_ok p n t : pended t -> is_Some (items t !! p) -> live_target t p n ->
  exists t', movePending (S (length (pend t p))) p n t = Ok t' /\ frame t t' /\ pended t' /\
    forall d, consumer t' d = if decide (d ∈ pend t p) then moved_to n (consumer t d) else consumer t d.
Proof.
  remember (pend t p) as l eqn:El. revert t El. induction l as [|c rest IH]; intros t El Hp Hs Hn.
  - destruct Hs as [it Hit]. exists t. cbn [movePending length]. rewrite (deref_Some _ _ _ Hit). simpl.
    unfold pend in El. rewrite Hit in El. rewrite <- El.
    by split_and!.
  - destruct Hs as [it Hit]. assert (Hpe : pendingConsumers it = c :: rest).
    { unfold pend in El. by rewrite Hit in El. }
    destruct (movePending_step p n c rest it t Hp Hit Hpe Hn) as (t1 & Hst & Hf1 & Hp1 & Hr1 & Ho1).
    cbv zeta in Hst.
    destruct (IH t1) as (t' & Hmv & Hf' & Hp' & Hc'); [done|done| | |].
    + apply (frame_is_Some t); [done|by exists it].
    + intros m ->. destruct (Hn m eq_refl) as [Hm Hmp]. split; [|done]. by apply (frame_is_Some t t1).
    + exists t'. split_and!; [|by trans t1|done|].
      * change (length (c :: rest)) with (S (length rest)).
        remember (S (length rest)) as f. cbn [movePending]. rewrite (deref_Some _ _ _ Hit). simpl.
        rewrite Hpe. rewrite Hst. simpl. done.
      * intros d. rewrite Hc', Ho1. assert (Hnd : NoDup (c :: rest)) by (rewrite El; apply Hp).
        apply NoDup_cons in Hnd as [Hcr _].
        destruct (decide (d = c)) as [->|Hdc].
        -- rewrite decide_False by done. by rewrite decide_True by left.
        -- destruct (decide (d ∈ rest)); [by rewrite decide_True by (by right)|].
           rewrite decide_False; [done|]. by rewrite elem_of_cons; intros [?|?].
Qed.

(** The marker a consumer has after item [p] of the list [l] lost its pending
    consumers. *)
Definition passed (p : nat) (l : list nat) (t : ChangeTracker) (d : nat) : Consumer :=
  if decide (hook t d = Some p) then moved_to (next_in p l) (consumer t d) else consumer t d.

Lemma live_next t p : shape t -> live_target t p (next_in p (changeList_ t)).
Proof.
  intros Hs m Hm. destruct (next_in_Some p _ m (sh_nodup t Hs) Hm) as [Hin Hne]. split; [|done].
  by apply (sh_items t Hs).
Qed.

Lemma updateItemPending_ok p t : shape t -> pended t -> p ∈ changeList_ t ->
  exists t', updateItemPendingConsumers p t = Ok t' /\ frame t t' /\ pended t' /\
    forall d, consumer t' d = passed p (changeList_ t) t d.
Proof.
  intros Hs Hp Hin. destruct (shape_deref t p Hs Hin) as [it Hit].
  destruct (movePending_ok p (next_in p (changeList_ t)) t Hp (mk_is_Some _ _ Hit) (live_next t p Hs))
    as (t' & Hmv & Hf & Hp' & Hc).
  exists t'. unfold updateItemPendingConsumers, get_next. rewrite (deref_Some _ _ _ Hit). simpl.
  unfold pend in Hmv at 1. rewrite Hit in Hmv. split_and!; [done|done|done|].
  intros d. rewrite Hc. unfold passed. pose proof (pd_hook t Hp p d).
  destruct (decide (d ∈ pend t p)), (decide (hook t d = Some p)); tauto.
Qed.

(** ** Deleting an item *)

Record same_registry (t t' : ChangeTracker) : Prop := {
  sr_cons : consumers_ t' = consumers_ t;
  sr_man : consumerBitManager_ t' = consumerBitManager_ t;
  sr_cached : cachedConsumerBitmap_ t' = cachedConsumerBitmap_ t;
  sr_pos : forall c, getBitPosition t' c = getBitPosition t c
}.

#[export] Instance same_registry_preorder : PreOrder same_registry.
Proof.
  split; [by intros t; constructor|].
  intros t1 t2 t3 [] []. constructor; intros; by repeat match goal with H : _ |- _ => rewrite H end.
Qed.

Lemma frame_same_registry t t' : frame t t' -> same_registry t t'.
Proof. intros []. by constructor. Qed.

Lemma passed_pos p l t d : bitPosition_ (passed p l t d) = getBitPosition t d.
Proof. unfold passed. by case_decide. Qed.

Record gone (p o : nat) (t t' : ChangeTracker) : Prop := {
  go_reg : same_registry t t';
  go_list : changeList_ t' = filter (fun q => q <> p) (changeList_ t);
  go_items : forall q, strip <$> items t' !! q = if decide (q = p) then None else strip <$> items t !! q;
  go_obj : changeItem_ t' = delete o (changeItem_ t);
  go_next : nextItem_ t' = nextItem_ t;
  go_proc : processed t' = processed t ++ [o];
  go_cons : forall d, consumer t' d = passed p (changeList_ t) t d
}.

Lemma notifyProducer_ok p o t : shape t -> pended t -> p ∈ changeList_ t -> objAt t p = Some o ->
  exists t', notifyProducer p t = Ok t' /\ pended t' /\ gone p o t t'.
Proof.
  intros Hs Hp Hin Ho. destruct (updateItemPending_ok p t Hs Hp Hin) as (t1 & Hup & Hf & Hp1 & Hc).
  assert (Hin1 : p ∈ changeList_ t1) by (by rewrite (fr_list _ _ Hf)).
  pose proof (shape_frame _ _ Hf Hs) as Hs1. destruct (shape_deref t1 p Hs1 Hin1) as [it Hit].
  assert (Eo : trackableObject it = o).
  { rewrite <- (frame_objAt _ _ _ Hf) in Ho. unfold objAt in Ho. rewrite Hit in Ho. by simplify_eq/=. }
  assert (Eci : changeItem_ t1 !! o = Some p) by (apply (sh_obj t1 Hs1); by exists it).
  assert (Hpe : pend t1 p = []).
  { apply elem_of_nil_inv. intros d Hd. apply Hp1 in Hd. revert Hd. unfold hook. rewrite Hc.
    unfold passed. case_decide; [|done]. simpl. intros Hn. by apply (live_next t p Hs) in Hn as [_ ?]. }
  unfold notifyProducer. rewrite Hup. simpl. unfold item_is_linked. rewrite bool_decide_true by done.
  change (deref (erase_list p t1) p) with (deref t1 p). rewrite (deref_Some _ _ _ Hit). simpl.
  unfold clearChangeItem. change (changeItem_ (erase_list p t1)) with (changeItem_ t1).
  rewrite Eo, Eci. eexists. split; [done|]. split; [|constructor].
  - constructor.
    + intros r d. pose proof (pd_hook t1 Hp1 r d) as Hpd. unfold pend in *. simpl.
      destruct (decide (r = p)) as [->|]; [|by rewrite lookup_delete_ne].
      rewrite lookup_delete_eq. rewrite Hit in Hpe, Hpd. by rewrite Hpe in Hpd.
    + intros r. unfold pend. simpl. destruct (decide (r = p)) as [->|];
        [rewrite lookup_delete_eq; constructor|rewrite lookup_delete_ne by done; apply Hp1].
    + apply Hp1.
  - trans t1; [by apply frame_same_registry|by constructor].
  - simpl. by rewrite (fr_list _ _ Hf).
  - intros q. simpl. case_decide; [subst; by rewrite lookup_delete_eq|].
    rewrite lookup_delete_ne by done. apply Hf.
  - simpl. by rewrite (fr_obj _ _ Hf).
  - simpl. by rewrite (fr_next _ _ Hf).
  - simpl. by rewrite (fr_proc _ _ Hf).
  - intros d. rewrite <- Hc. done.
Qed.

Section Gone.
Variables (p o : nat) (t t' : ChangeTracker).
Hypothesis (Hs : shape t) (Hin : p ∈ changeList_ t) (Ho : objAt t p = Some o) (Hg : gone p o t t').

Lemma gone_lookup q : q <> p -> strip <$> items t' !! q = strip <$> items t !! q.
Proof. intros Hq. rewrite (go_items _ _ _ _ Hg). by rewrite decide_False. Qed.

Lemma gone_bitAt q b : bitAt t' q b = if decide (q = p) then false else bitAt t q b.
Proof.
  unfold bitAt. pose proof (go_items _ _ _ _ Hg q) as E. case_decide.
  - by destruct (items t' !! q).
  - destruct (items t !! q), (items t' !! q); simpl in E; [|done|done|done].
    unfold strip in E. by simplify_eq; f_equal.
Qed.

Lemma gone_objAt q : objAt t' q = if decide (q = p) then None else objAt t q.
Proof.
  unfold objAt. pose proof (go_items _ _ _ _ Hg q) as E. case_decide.
  - by destruct (items t' !! q).
  - destruct (items t !! q), (items t' !! q); simpl in *; unfold strip in E; congruence.
Qed.

Lemma gone_Some q it : items t' !! q = Some it ->
  q <> p /\ exists it0, items t !! q = Some it0 /\ strip it0 = strip it.
Proof.
  intros H. pose proof (go_items _ _ _ _ Hg q) as E. rewrite H in E. case_decide; [done|].
  split; [done|]. destruct (items t !! q) as [it0|]; [|done]. injection E as E. exists it0.
  split; [done|]. unfold strip. congruence.
Qed.

Lemma shape_gone : shape t'.
Proof.
  constructor.
  - rewrite (go_list _ _ _ _ Hg). apply NoDup_filter, Hs.
  - intros q. rewrite (go_list _ _ _ _ Hg), list_elem_of_filter, (sh_items t Hs).
    rewrite <- !(fmap_is_Some strip), (go_items _ _ _ _ Hg). case_decide; [subst|naive_solver].
    split; [by intros [? _]|by intros [? ?]].
  - intros o' q. rewrite (go_obj _ _ _ _ Hg), lookup_delete_Some, (sh_obj t Hs). split.
    + intros (Hne & it & Hq & <-). assert (Hqp : q <> p).
      { intros ->. unfold objAt in Ho. rewrite Hq in Ho. by simplify_eq/=. }
      pose proof (gone_lookup q Hqp) as E. rewrite Hq in E.
      destruct (items t' !! q) as [it'|]; [|done]. injection E as E1 E2. by exists it'.
    + intros (it & Hq & <-). apply gone_Some in Hq as (Hqp & it0 & Hq0 & E).
      unfold strip in E. injection E as E _. split; [|by exists it0].
      intros Eo. apply Hqp. unfold objAt in Ho.
      destruct (items t !! p) as [itp|] eqn:Ep; [|done]. injection Ho as Ho.
      assert (changeItem_ t !! o = Some q) by (apply (sh_obj t Hs); exists it0; split; congruence).
      assert (changeItem_ t !! o = Some p) by (apply (sh_obj t Hs); by exists itp).
      congruence.
  - intros q it Hq. apply gone_Some in Hq as (_ & it0 & Hq0 & E). unfold strip in E.
    apply (sh_wf t Hs) in Hq0. by replace (consumerBitmap it) with (consumerBitmap it0) by congruence.
  - intros q. rewrite (go_list _ _ _ _ Hg), list_elem_of_filter, (go_next _ _ _ _ Hg).
    intros [_ ?]. by apply Hs.
Qed.

Lemma placed_gone d : placed t d -> placed t' d.
Proof.
  intros [Hh Hm Hb Hr]. assert (Hc : consumer t' d = passed p (changeList_ t) t d) by apply Hg.
  assert (Hpos : getBitPosition t' d = getBitPosition t d) by apply Hg.
  unfold passed in Hc. destruct (decide (hook t d = Some p)) as [Hd|Hd].
  - assert (Hmk : getMarker t' d = next_in p (changeList_ t)) by (unfold getMarker; by rewrite Hc).
    constructor; rewrite ?Hmk.
    + unfold hook. by rewrite Hc.
    + intros q Hq. rewrite (go_list _ _ _ _ Hg). apply list_elem_of_filter.
      apply next_in_Some in Hq; [tauto|apply Hs].
    + intros q. rewrite (go_list _ _ _ _ Hg), before_next_erase by (done || apply Hs).
      rewrite Hpos, gone_bitAt. case_decide; [done|]. intros Hq. apply Hb. by rewrite <- Hh, Hd.
    + unfold isInReadyList. rewrite Hc. simpl. destruct (next_in p (changeList_ t)); [|done].
      intros Hf. specialize (Hr Hf). congruence.
  - constructor; unfold hook, getMarker, isInReadyList in *; rewrite ?Hc; try done.
    + intros q Hq. rewrite (go_list _ _ _ _ Hg). apply list_elem_of_filter. split; [congruence|auto].
    + intros q. rewrite (go_list _ _ _ _ Hg), before_erase by congruence.
      rewrite list_elem_of_filter. intros [Hqp Hq]. rewrite gone_bitAt, decide_False by done.
      rewrite Hpos. auto.
Qed.

Lemma owned_gone : owned (Some p) t -> (forall b, 0 <= b -> bitAt t p b = false) -> owned None t'.
Proof.
  intros [Hsome Hreg] Hclear. constructor.
  - intros q. rewrite (go_list _ _ _ _ Hg), list_elem_of_filter. intros [Hqp Hq] _.
    destruct (Hsome q Hq) as (b & Hb & Hbit); [congruence|]. exists b. split; [done|].
    by rewrite gone_bitAt, decide_False.
  - intros q b Hb. rewrite gone_bitAt. case_decide; [done|]. intros H'.
    destruct (Hreg q b Hb H') as (? & c & ?). split; [done|]. exists c. by rewrite (sr_pos _ _ (go_reg _ _ _ _ Hg)).
Qed.
End Gone.

(** ** Acknowledging items *)

Definition on (t : ChangeTracker) (o : nat) : Prop := is_Some (changeItem_ t !! o).

(** From [t] to [t'] the bits [P] were cleared and the items that lost their last
    bit deleted; their objects [new] were reported to the producer.  A consumer
    that is not linked, or linked at an item that is still there, was not
    touched ([x] apart). *)
Record acked (x : option nat) (P : nat -> Z -> bool) (t t' : ChangeTracker) : Prop := {
  ak_reg : same_registry t t';
  ak_idle : forall d, Some d <> x -> hook t d = None -> consumer t' d = consumer t d;
  ak_stay : forall d q, Some d <> x -> hook t d = Some q -> is_Some (items t' !! q) ->
              consumer t' d = consumer t d;
  ak_bit : forall q b, 0 <= b -> bitAt t' q b = bitAt t q b && negb (P q b);
  ak_list : changeList_ t' = filter (fun q => is_Some (items t' !! q)) (changeList_ t);
  ak_obj : forall q o, objAt t' q = Some o -> objAt t q = Some o;
  ak_next : nextItem_ t' = nextItem_ t;
  ak_proc : exists new, processed t' = processed t ++ new /\
              (forall o, on t o <-> on t' o \/ o ∈ new) /\ (forall o, o ∈ new -> ~ on t' o)
}.

Lemma acked_trans x P Q t1 t2 t3 : acked x P t1 t2 -> acked x Q t2 t3 ->
  acked x (fun q b => P q b || Q q b) t1 t3.
Proof.
  intros H1 H2. constructor.
  - etrans; [apply H1|apply H2].
  - intros d Hd Hh. pose proof (ak_idle _ _ _ _ H1 d Hd Hh) as E1.
    rewrite (ak_idle _ _ _ _ H2 d Hd); [done|]. unfold hook in *. by rewrite E1.
  - intros d q Hd Hh Hq. assert (E1 : consumer t2 d = consumer t1 d).
    { apply (ak_stay _ _ _ _ H1 d q Hd Hh). destruct Hq as [it Hq].
      assert (Ho : objAt t3 q = Some (trackableObject it)) by (unfold objAt; by rewrite Hq).
      apply (ak_obj _ _ _ _ H2) in Ho. unfold objAt in Ho. destruct (items t2 !! q); [eauto|done]. }
    rewrite (ak_stay _ _ _ _ H2 d q Hd); [done| |done]. unfold hook in *. by rewrite E1.
  - intros q b Hb. rewrite (ak_bit _ _ _ _ H2), (ak_bit _ _ _ _ H1) by done.
    by destruct (bitAt t1 q b), (P q b), (Q q b).
  - rewrite (ak_list _ _ _ _ H2) at 1. rewrite (ak_list _ _ _ _ H1), list_filter_filter.
    apply list_filter_iff. intros q. split; [tauto|]. intros [it Hq]. split; [by exists it|].
    assert (Hob : objAt t3 q = Some (trackableObject it)) by (unfold objAt; by rewrite Hq).
    apply (ak_obj _ _ _ _ H2) in Hob. unfold objAt in Hob. destruct (items t2 !! q); [eauto|done].
  - intros q o Ho. by apply H1, H2.
  - by rewrite (ak_next _ _ _ _ H2), (ak_next _ _ _ _ H1).
  - destruct (ak_proc _ _ _ _ H1) as (n1 & E1 & I1 & D1), (ak_proc _ _ _ _ H2) as (n2 & E2 & I2 & D2).
    exists (n1 ++ n2). split_and!.
    + by rewrite E2, E1, app_assoc.
    + intros o. rewrite I1, I2, elem_of_app. tauto.
    + intros o [Ho|Ho]%elem_of_app Hon; [|by apply (D2 o)].
      apply (D1 o Ho). apply I2. by left.
Qed.

Lemma acked_ext x P Q t t' : (forall q b, 0 <= b -> bitAt t q b = true -> P q b = Q q b) ->
  acked x P t t' -> acked x Q t t'.
Proof.
  intros HPQ H. constructor; try apply H. intros q b Hb. rewrite (ak_bit _ _ _ _ H) by done.
  destruct (bitAt t q b) eqn:E; [|done]. by rewrite HPQ.
Qed.

Lemma filter_ext_in (P Q : nat -> Prop) `{!forall q, Decision (P q), !forall q, Decision (Q q)} (l : list nat) :
  (forall q, q ∈ l -> P q <-> Q q) -> filter P l = filter Q l.
Proof.
  induction l as [|q l IH]; intros Hl; [done|]. specialize (IH ltac:(intros; apply Hl; by right)).
  destruct (decide (P q)) as [HP|HP]; pose proof (Hl q ltac:(left)) as Hq.
  - rewrite !filter_cons_True by tauto. by rewrite IH.
  - by rewrite !filter_cons_False by tauto.
Qed.

Lemma filter_live t (l : list nat) : (forall q, q ∈ l -> is_Some (items t !! q)) ->
  filter (fun q => is_Some (items t !! q)) l = l.
Proof.
  induction l as [|q l IH]; intros H; [done|]. rewrite filter_cons_True by (apply H; left).
  by rewrite IH by (intros; apply H; by right).
Qed.

Lemma acked_frame x t t' : shape t -> frame t t' ->
  (forall d, Some d <> x -> consumer t' d = consumer t d) ->
  acked x (fun _ _ => false) t t'.
Proof.
  intros Hs Hf Hc. constructor.
  - by apply frame_same_registry.
  - auto.
  - auto.
  - intros q b _. by rewrite (frame_bitAt _ _ _ _ Hf), andb_true_r.
  - rewrite (fr_list _ _ Hf). symmetry. apply filter_live. intros q Hq.
    apply (frame_is_Some t); [done|]. by apply Hs.
  - intros q o. by rewrite (frame_objAt _ _ _ Hf).
  - apply Hf.
  - exists []. rewrite app_nil_r. split_and!; [apply Hf| |by intros o ?%elem_of_nil].
    intros o. unfold on. rewrite (fr_obj _ _ Hf), elem_of_nil. tauto.
Qed.

Lemma acked_gone x p o t t' : shape t -> p ∈ changeList_ t -> objAt t p = Some o ->
  (forall b, 0 <= b -> bitAt t p b = false) -> gone p o t t' -> acked x (fun _ _ => false) t t'.
Proof.
  intros Hs Hin Ho Hb Hg. pose proof (shape_gone p o t t' Hs Ho Hg) as Hs'. constructor.
  - apply Hg.
  - intros d _ Hh. rewrite (go_cons _ _ _ _ Hg). unfold passed. by rewrite decide_False by congruence.
  - intros d q _ Hh [it Hq]. rewrite (go_cons _ _ _ _ Hg). unfold passed.
    apply (gone_Some p o t t' Hg) in Hq as [Hqp _]. by rewrite decide_False by congruence.
  - intros q b Hq. rewrite (gone_bitAt p o t t' Hg), andb_true_r. case_decide; [subst|done].
    by rewrite Hb.
  - rewrite (go_list _ _ _ _ Hg). apply filter_ext_in. intros q Hq.
    rewrite <- (sh_items t' Hs'), (go_list _ _ _ _ Hg), list_elem_of_filter. tauto.
  - intros q o'. rewrite (gone_objAt p o t t' Hg). by case_decide.
  - apply Hg.
  - exists [o]. split_and!; [apply Hg| |].
    + intros o'. unfold on. rewrite (go_obj _ _ _ _ Hg), list_elem_of_singleton.
      destruct (decide (o' = o)) as [->|]; [|rewrite lookup_delete_ne by done; tauto].
      rewrite lookup_delete_eq. split; [by right|]. intros _.
      unfold objAt in Ho. destruct (items t !! p) as [it|] eqn:Ep; [|done]. simpl in Ho.
      exists p. apply (sh_obj t Hs). exists it. naive_solver.
    + intros o' ->%list_elem_of_singleton. unfold on. rewrite (go_obj _ _ _ _ Hg), lookup_delete_eq.
      by intros [].
Qed.

Lemma cleared_spec t p it : shape t -> items t !! p = Some it ->
  allConsumersProcessed it = true <-> forall b, 0 <= b -> bitAt t p b = false.
Proof.
  intros Hs Hit. unfold allConsumersProcessed, bitAt. rewrite Hit.
  apply isAllBitsCleared_spec. by apply (sh_wf t Hs p).
Qed.

(** Changing the bitmap of an item. *)
Section Rebit.
Variables (p : nat) (it : ChangeItem) (bm : ConsumerBitmap) (t : ChangeTracker).
Hypothesis (Hit : items t !! p = Some it) (Hbm : wf_bitmap bm).
Let t' := set_item p (with_bitmap it bm) t.

Lemma rebit_objAt q : objAt t' q = objAt t q.
Proof.
  unfold objAt, t'. simpl. destruct (decide (q = p)) as [->|].
  - by rewrite lookup_insert_eq, Hit.
  - by rewrite lookup_insert_ne.
Qed.

Lemma rebit_is_Some q : is_Some (items t' !! q) <-> is_Some (items t !! q).
Proof.
  pose proof (rebit_objAt q) as E. unfold objAt in E.
  rewrite <- (fmap_is_Some trackableObject), E. apply fmap_is_Some.
Qed.

Lemma rebit_shape : shape t -> shape t'.
Proof.
  intros Hs. constructor; try apply Hs.
  - intros q. rewrite rebit_is_Some. apply Hs.
  - intros o q. change (changeItem_ t') with (changeItem_ t). rewrite (sh_obj t Hs).
    assert (H : forall u, (exists it0, items u !! q = Some it0 /\ trackableObject it0 = o) <-> objAt u q = Some o).
    { intros u. unfold objAt. rewrite fmap_Some. naive_solver. }
    by rewrite !H, rebit_objAt.
  - intros q it0. unfold t'. simpl. destruct (decide (q = p)) as [->|].
    + rewrite lookup_insert_eq. by intros [= <-].
    + rewrite lookup_insert_ne by done. apply Hs.
Qed.

Lemma rebit_pended : pended t -> pended t'.
Proof.
  intros Hp. assert (E : forall q, pend t' q = pend t q).
  { intros q. subst t'. views. case_decide; [subst; unfold pend; by rewrite Hit|done]. }
  constructor; [|intros q; rewrite E; apply Hp|apply Hp]. intros q c. rewrite E. apply Hp.
Qed.

Lemma rebit_bitAt q b : bitAt t' q b = if decide (q = p) then bit_of bm b else bitAt t q b.
Proof. apply bitAt_set_item. Qed.

Lemma rebit_placed c : (forall b, 0 <= b -> bit_of bm b = true -> bitAt t p b = true) ->
  0 <= getBitPosition t c -> placed t c -> placed t' c.
Proof.
  intros Hle Hpos [? ? Hb ?]. constructor; try done. intros q Hq. rewrite rebit_bitAt.
  change (getBitPosition t' c) with (getBitPosition t c). case_decide; [subst q|by apply Hb].
  apply Hb in Hq. destruct (bit_of bm (getBitPosition t c)) eqn:E; [|done].
  apply Hle in E; [congruence|done].
Qed.
End Rebit.

(** The bit [b] of item [p]. *)
Definition the_bit (p : nat) (b : Z) : nat -> Z -> bool := fun q b' => bool_decide (q = p) && (b' =? b).

Definition positions_ok (t : ChangeTracker) : Prop := forall c, 0 <= getBitPosition t c.

Lemma mark_ok x p b t : core x None t -> positions_ok t -> 0 <= b -> p ∈ changeList_ t ->
  exists t', markConsumerProcessed p b t = Ok t' /\ core x (Some p) t' /\
    acked x (the_bit p b) t t' /\ changeList_ t' = changeList_ t /\
    (forall d, consumer t' d = consumer t d).
Proof.
  intros [Hs Hp Hpl Ho] Hpos Hb Hin. destruct (shape_deref t p Hs Hin) as [it Hit].
  unfold markConsumerProcessed. rewrite (deref_Some _ _ _ Hit). simpl.
  set (bm := clearBit (consumerBitmap it) b). eexists. split; [done|].
  assert (Hwf : wf_bitmap bm) by (by apply wf_clearBit, (sh_wf t Hs p)).
  assert (Hbit : forall b', 0 <= b' -> bit_of bm b' = bitAt t p b' && negb (b' =? b)).
  { intros b' Hb'. unfold bm, bitAt. rewrite bit_of_clearBit, Hit, (Z.eqb_sym b') by done.
    by rewrite andb_comm. }
  split_and!; [|constructor|done|done].
  - constructor.
    + by apply rebit_shape.
    + by apply rebit_pended.
    + intros c Hc. apply rebit_placed; [|apply Hpos|by apply Hpl].
      intros b' Hb'. rewrite Hbit by done. by intros [? _]%andb_prop.
    + constructor.
      * intros q Hq Hqe. destruct (ow_some _ _ Ho q Hq ltac:(done)) as (b' & ? & ?). exists b'.
        rewrite bitAt_set_item, decide_False by congruence. done.
      * intros q b' Hb'. rewrite bitAt_set_item. case_decide.
        -- subst. cbn [consumerBitmap with_bitmap]. rewrite Hbit by done. intros [? _]%andb_prop. by apply (ow_reg _ _ Ho p).
        -- by apply (ow_reg _ _ Ho q).
  - by constructor.
  - done.
  - done.
  - intros q b' Hb'. rewrite bitAt_set_item. unfold the_bit. case_decide.
    + subst. cbn [consumerBitmap with_bitmap]. by rewrite Hbit, bool_decide_true.
    + by rewrite bool_decide_false, andb_true_r.
  - symmetry. apply filter_live. intros q Hq. apply (rebit_is_Some p it bm t Hit). by apply Hs.
  - intros q o. by rewrite (rebit_objAt p it bm t Hit).
  - done.
  - exists []. rewrite app_nil_r. split_and!; [done| |by intros o ?%elem_of_nil].
    intros o. rewrite elem_of_nil. unfold on. simpl. tauto.
Qed.

Lemma check_ok x p t : core x (Some p) t -> p ∈ changeList_ t ->
  (forall c, x = Some c -> hook t c = None) ->
  exists t', checkAndNotifyProducer p t = Ok t' /\ core x None t' /\
    acked x (fun _ _ => false) t t' /\
    (changeList_ t' = changeList_ t \/ changeList_ t' = filter (fun q => q <> p) (changeList_ t)) /\
    (forall c, x = Some c -> consumer t' c = consumer t c).
Proof.
  intros [Hs Hp Hpl Ho] Hin Hx. destruct (shape_deref t p Hs Hin) as [it Hit].
  unfold checkAndNotifyProducer. rewrite (deref_Some _ _ _ Hit). simpl.
  pose proof (cleared_spec t p it Hs Hit) as Hc. destruct (allConsumersProcessed it) eqn:Eall.
  - assert (Hobj : objAt t p = Some (trackableObject it)) by (unfold objAt; by rewrite Hit).
    assert (Hb : forall b, 0 <= b -> bitAt t p b = false) by (by apply Hc).
    destruct (notifyProducer_ok p _ t Hs Hp Hin Hobj) as (t' & Hn & Hp' & Hg).
    exists t'. split_and!; [done| |by eapply acked_gone|right; apply Hg|].
    + constructor; [by eapply shape_gone|done| |by eapply owned_gone].
      intros c Hcx. eapply placed_gone; [done..|by apply Hpl].
    + intros c Hcx. rewrite (go_cons _ _ _ _ Hg). unfold passed.
      rewrite decide_False; [done|]. rewrite (Hx c Hcx). done.
  - exists t. split_and!; [done| |by apply acked_frame|by left|done].
    constructor; [done..|]. constructor; [|apply Ho]. intros q Hq _.
    destruct (decide (q = p)) as [->|]; [|apply (ow_some _ _ Ho q Hq); congruence].
    unfold bitAt. rewrite Hit. apply not_cleared_bit; [by apply (sh_wf t Hs p)|done].
Qed.

(** ** Walks along the list *)

Lemma head_elem (l2 : list nat) l1 p : head l2 = Some p -> p ∈ l1 ++ l2.
Proof. destruct l2 as [|q l2]; [done|]. simpl. intros [= ->]. apply elem_of_app. right. left. Qed.

(** A marker cuts the list. *)
Lemma marker_split m l : (forall p, m = Some p -> p ∈ l) ->
  exists l2, l = before m l ++ l2 /\ m = head l2.
Proof.
  intros Hm. destruct m as [p|]; [|exists []; by rewrite app_nil_r].
  specialize (Hm p eq_refl). simpl. induction l as [|q l IH]; [by apply elem_of_nil in Hm|]. simpl.
  destruct (decide (q = p)) as [->|]; [by exists (p :: l)|].
  apply elem_of_cons in Hm as [->|Hm]; [done|]. destruct (IH Hm) as (l2 & E & ?).
  exists l2. simpl. by rewrite <- E.
Qed.

Lemma before_head (l1 l2 : list nat) : NoDup (l1 ++ l2) -> before (head l2) (l1 ++ l2) = l1.
Proof.
  intros Hnd. destruct l2 as [|p l2]; [apply app_nil_r|]. apply before_split.
  apply NoDup_app in Hnd as (_ & H & _). intros Hp. apply (H p Hp). left.
Qed.

(** What is left of the list after the item between [l1] and [l2] was, or was not,
    deleted. *)
Lemma erase_or_keep (l l' l1 l2 : list nat) p : NoDup l -> l = l1 ++ p :: l2 ->
  l' = l \/ l' = filter (fun q => q <> p) l ->
  next_in p l = head l2 /\ exists l1', l' = l1' ++ l2 /\ forall q, q ∈ l1' -> q ∈ l1 \/ q = p.
Proof.
  intros Hnd -> Hl'. destruct (nodup_split p _ Hnd ltac:(apply elem_of_app; right; left)) as (k1 & k2 & E & H1 & H2).
  apply NoDup_app in Hnd as (_ & Hd & Hnd2). apply NoDup_cons in Hnd2 as [Hp2 _].
  assert (Hp1 : p ∉ l1) by (intros H; apply (Hd p H); left).
  rewrite next_in_split by done. split; [done|]. destruct Hl' as [->| ->].
  - exists (l1 ++ [p]). rewrite <- app_assoc. split; [done|].
    intros q. rewrite elem_of_app, list_elem_of_singleton. tauto.
  - exists l1. rewrite filter_neq_split by done. split; [done|]. by left.
Qed.

Lemma positions_same t t' : same_registry t t' -> positions_ok t -> positions_ok t'.
Proof. intros Hr Hp c. rewrite (sr_pos _ _ Hr). apply Hp. Qed.

Lemma ack_ok c p b t : core (Some c) None t -> hook t c = None -> positions_ok t -> 0 <= b ->
  p ∈ changeList_ t ->
  exists t1 t', markConsumerProcessed p b t = Ok t1 /\ checkAndNotifyProducer p t1 = Ok t' /\
    core (Some c) None t' /\ acked (Some c) (the_bit p b) t t' /\ consumer t' c = consumer t c /\
    (changeList_ t' = changeList_ t \/ changeList_ t' = filter (fun q => q <> p) (changeList_ t)).
Proof.
  intros Hco Hh Hpos Hb Hin. destruct (mark_ok (Some c) p b t) as (t1 & Hm & Hco1 & Hak1 & Hl1 & Hc1); [done..|].
  destruct (check_ok (Some c) p t1) as (t' & Hck & Hco' & Hak' & Hl' & Hc');
    [done|by rewrite Hl1|intros d [= <-]; unfold hook; by rewrite Hc1|].
  exists t1, t'. rewrite <- Hl1. split_and!; [done|done|done| |by rewrite (Hc' c eq_refl)|done].
  eapply acked_ext; [|by eapply acked_trans]. intros q b' _ _. simpl. by rewrite orb_false_r.
Qed.

(** The bit [b] of every item. *)
Definition bit_everywhere (b : Z) : nat -> Z -> bool := fun _ b' => b' =? b.

Lemma resetWalk_ok c b l2 : forall fuel l1 t, core (Some c) None t -> hook t c = None ->
  positions_ok t -> 0 <= b -> changeList_ t = l1 ++ l2 -> (length l2 <= fuel)%nat ->
  (forall q, q ∈ l1 -> bitAt t q b = false) ->
  exists t', resetWalk fuel b (head l2) t = Ok t' /\ core (Some c) None t' /\
    acked (Some c) (bit_everywhere b) t t' /\ consumer t' c = consumer t c.
Proof.
  induction l2 as [|p l2 IH]; intros fuel l1 t Hco Hh Hpos Hb Hl Hf Hclr.
  - exists t. rewrite app_nil_r in Hl. split_and!; [by destruct fuel|done| |done].
    eapply acked_ext; [|apply acked_frame; [apply Hco|done|done]]. intros q b' _ Hq. simpl.
    unfold bit_everywhere. destruct (Z.eqb_spec b' b) as [->|]; [|done].
    rewrite Hclr in Hq; [done|]. rewrite <- Hl. apply (sh_items t (co_shape _ _ _ Hco)).
    unfold bitAt in Hq. destruct (items t !! q); [eauto|done].
  - destruct fuel as [|fuel]; [simpl in Hf; lia|]. simpl in Hf.
    assert (Hin : p ∈ changeList_ t) by (rewrite Hl; apply elem_of_app; right; left).
    destruct (shape_deref t p (co_shape _ _ _ Hco) Hin) as [it Hit].
    destruct (ack_ok c p b t Hco Hh Hpos Hb Hin) as (t1 & t2 & Hm & Hck & Hco2 & Hak2 & Hc2 & Hl2).
    destruct (erase_or_keep _ _ l1 l2 p (sh_nodup t (co_shape _ _ _ Hco)) Hl Hl2) as (Hn & l1' & El & Hl1').
    destruct (IH fuel l1' t2) as (t' & Hw & Hco' & Hak' & Hc'); try done.
    + unfold hook. by rewrite Hc2.
    + eapply positions_same; [apply Hak2|done].
    + lia.
    + intros q [Hq| ->]%Hl1'; rewrite (ak_bit _ _ _ _ Hak2) by done; unfold the_bit.
      * by rewrite Hclr.
      * by rewrite bool_decide_true, Z.eqb_refl, andb_false_r.
    + exists t'. split_and!; [|done| |congruence].
      * cbn [resetWalk head]. unfold get_next. rewrite (deref_Some _ _ _ Hit). simpl. rewrite Hn, Hm. simpl.
        by rewrite Hck.
      * eapply acked_ext; [|by eapply acked_trans]. intros q b' _ _. unfold the_bit, bit_everywhere. simpl.
        by destruct (bool_decide (q = p)), (b' =? b).
Qed.

(** ** Taking a consumer off its item and putting it back *)

Lemma core_except x e t : core None e t -> core x e t.
Proof. intros [? ? Hpl ?]. constructor; [done..| |done]. intros c _. by apply Hpl. Qed.

Lemma core_only c e C t t' : core (Some c) e t -> frame t t' -> pended t' -> only c C t t' ->
  core (Some c) e t'.
Proof.
  intros [Hs _ Hpl Ho] Hf Hp' Hon. constructor; [by eapply shape_frame|done| |by eapply owned_frame].
  intros d Hd. eapply placed_frame; [done| |by apply Hpl]. apply (only_ne _ _ _ _ _ Hon). congruence.
Qed.

Lemma core_place c t : core (Some c) None t -> placed t c -> core None None t.
Proof.
  intros [Hs Hp Hpl Ho] Hc. constructor; [done..| |done]. intros d _.
  destruct (decide (d = c)) as [->|]; [done|]. apply Hpl. congruence.
Qed.

Lemma detach_ok c p t : core None None t -> getMarker t c = Some p ->
  exists t', removePendingConsumer p c t = Ok t' /\ core (Some c) None t' /\ frame t t' /\
    only c (detached (consumer t c)) t t'.
Proof.
  intros Hco Hm. pose proof (co_placed _ _ _ Hco c ltac:(done)) as Hc.
  assert (Hin : p ∈ changeList_ t) by (by apply (pl_marker t c Hc)).
  destruct (removePending_ok p c t) as (t' & Hr & Hf & Hp' & _ & Hon);
    [apply Hco|by apply (sh_items t (co_shape _ _ _ Hco))|].
  exists t'. split_and!; [done| |done|done]. eapply core_only; [|done..]. by apply core_except.
Qed.

(** [acked] when nothing but [c] was touched. *)
Lemma acked_only c C t t' : shape t -> frame t t' -> only c C t t' ->
  acked (Some c) (fun _ _ => false) t t'.
Proof.
  intros Hs Hf Hon. apply acked_frame; [done..|]. intros d Hd.
  apply (only_ne _ _ _ _ _ Hon). congruence.
Qed.

Lemma acked_before x P Q t1 t2 t3 : (forall q b, Q q b = false) -> acked x Q t1 t2 -> acked x P t2 t3 -> acked x P t1 t3.
Proof.
  intros HQ H1 H2. eapply acked_ext; [|by eapply acked_trans]. intros q b _ _. simpl. by rewrite HQ.
Qed.

Lemma acked_after x P Q t1 t2 t3 : (forall q b, Q q b = false) -> acked x P t1 t2 -> acked x Q t2 t3 -> acked x P t1 t3.
Proof.
  intros HQ H1 H2. eapply acked_ext; [|by eapply acked_trans]. intros q b _ _. simpl.
  by rewrite HQ, orb_false_r.
Qed.

Lemma bitAt_live x e t q b : core x e t -> bitAt t q b = true -> q ∈ changeList_ t.
Proof.
  intros Hco Hb. apply (sh_items t (co_shape _ _ _ Hco)). unfold bitAt in Hb.
  destruct (items t !! q); [eauto|done].
Qed.

Definition reset_consumer (C : Consumer) : Consumer :=
  mkConsumer (bitPosition_ C) None (isInReadyList_ C) None.

Lemma consumerReset_ok c t : core None None t -> positions_ok t ->
  exists t', consumerResetChangeList (Some c) t = Ok t' /\ core None None t' /\
    acked (Some c) (bit_everywhere (getBitPosition t c)) t t' /\
    consumer t' c = reset_consumer (consumer t c).
Proof.
  intros Hco Hpos. pose proof (co_placed _ _ _ Hco c ltac:(done)) as Hc.
  unfold consumerResetChangeList. destruct (getMarker t c) as [p|] eqn:Em.
  - destruct (detach_ok c p t Hco Em) as (t1 & Hr & Hco1 & Hf1 & Hon1). rewrite Hr. cbn [rbind].
    pose proof (only_eq _ _ _ _ Hon1) as Hc1.
    destruct (marker_split (Some p) (changeList_ t)) as (l2 & El & Ehd);
      [intros q [= <-]; by apply (pl_marker t c Hc)|].
    assert (Hb1 : getBitPosition t1 c = getBitPosition t c) by (apply (fr_pos _ _ Hf1)). rewrite Hb1.
    destruct (resetWalk_ok c (getBitPosition t c) l2 (S (length (changeList_ t1))) (before (Some p) (changeList_ t)) t1)
      as (t2 & Hw & Hco2 & Hak2 & Hc2); try done.
    + unfold hook. by rewrite Hc1.
    + intros d. rewrite (fr_pos _ _ Hf1). apply Hpos.
    + by rewrite (fr_list _ _ Hf1).
    + rewrite (fr_list _ _ Hf1), El, length_app. lia.
    + intros q Hq. rewrite (frame_bitAt _ _ _ _ Hf1). apply (pl_behind t c Hc). by rewrite Em.
    + rewrite Ehd, Hw. cbn [rbind]. eexists. split; [done|].
      destruct (setMarker_ok c None t2) as (Hf3 & Hp3 & Hon3); [apply Hco2|].
      assert (Hc3 : consumer (setMarker c None t2) c = reset_consumer (consumer t c)).
      { rewrite (only_eq _ _ _ _ Hon3), Hc2, Hc1. done. }
      assert (Hak : acked (Some c) (bit_everywhere (getBitPosition t c)) t (setMarker c None t2)).
      { eapply acked_before; [|by eapply acked_only; [apply Hco|done..]|]; [done|].
        eapply acked_after; [|done|by eapply acked_only; [apply Hco2|done..]]. done. }
      split_and!; [|done|done].
      apply core_place with c; [by eapply core_only|]. constructor;
        unfold hook, getMarker, getBitPosition, isInReadyList; rewrite Hc3; try done.
      cbn [reset_consumer marker_ bitPosition_ before]. intros q _.
      change (bitPosition_ (consumer t c)) with (getBitPosition t c).
      rewrite (ak_bit _ _ _ _ Hak) by apply Hpos. unfold bit_everywhere.
      by rewrite Z.eqb_refl, andb_false_r.
  - exists t. split_and!; [done|done| |].
    + eapply acked_ext; [|apply acked_frame; [apply Hco|done|done]]. intros q b _ Hq. simpl.
      unfold bit_everywhere. destruct (Z.eqb_spec b (getBitPosition t c)) as [->|]; [|done].
      rewrite (pl_behind t c Hc) in Hq; [done|]. rewrite Em. by eapply bitAt_live.
    + pose proof (pl_hook t c Hc) as Hh. unfold hook, getMarker in *. unfold reset_consumer.
      destruct (consumer t c); simpl in *. congruence.
Qed.

(** ** Registration *)

Lemma registry_same t t' : same_registry t t' ->
  (forall c, getBitPosition t c = npos -> consumer t' c = consumer t c) -> registry t -> registry t'.
Proof.
  intros [Ec Em Eb Ep] Hi []. constructor; rewrite ?Ec, ?Em, ?Eb; try done.
  - intros i c. rewrite Ep. auto.
  - intros c. rewrite Ep. auto.
  - intros q Hq. rewrite rg_use0 by done. split; intros [c Hc]; exists c; by rewrite ?Ep in *.
  - intros q Hq. rewrite rg_cached0 by done. split; intros [? [c Hc]]; (split; [done|]); exists c; by rewrite ?Ep in *.
  - intros c. rewrite Ep. intros Hc. unfold getMarker, isInReadyList. rewrite Hi by done. by apply rg_idle0.
Qed.

Lemma registry_positions t : registry t -> positions_ok t.
Proof.
  intros Hr c. destruct (decide (getBitPosition t c = npos)) as [->|Hn]; [done|].
  by apply (rg_pos t Hr).
Qed.

Lemma registry_inj t c d : registry t -> getBitPosition t c <> npos ->
  getBitPosition t c = getBitPosition t d -> c = d.
Proof.
  intros Hr Hc E. destruct (rg_pos t Hr c Hc) as [_ H1].
  rewrite E in Hc. destruct (rg_pos t Hr d Hc) as [_ H2]. rewrite E in H1. congruence.
Qed.

(** An unregistered consumer is not linked, so that no walk touches it. *)
Lemma registry_acked c P t t' : core None None t -> acked (Some c) P t t' -> getBitPosition t c <> npos ->
  registry t -> registry t'.
Proof.
  intros Hco Hak Hc Hr. apply (registry_same t); [apply Hak| |done]. intros d Hd.
  apply (ak_idle _ _ _ _ Hak); [congruence|].
  rewrite (pl_hook t d (co_placed _ _ _ Hco d ltac:(done))). by apply (rg_idle t Hr).
Qed.

Lemma core_set_registry x e cs m b t : core x e t -> core x e (set_registry t cs m b).
Proof.
  intros [Hs Hp Hpl Ho]. constructor.
  - destruct Hs. by constructor.
  - destruct Hp. by constructor.
  - intros c Hc. destruct (Hpl c Hc). by constructor.
  - destruct Ho. by constructor.
Qed.

(** Registration takes a free position and makes the consumer ready. *)
Lemma register_slots t i c l : l = (if (length (consumers_ t) <=? i)%nat
    then consumers_ t ++ replicate (S i - length (consumers_ t)) None else consumers_ t) ->
  forall j d, <[i := Some c]> l !! j = Some (Some d) <->
    (j = i /\ d = c) \/ (j <> i /\ consumers_ t !! j = Some (Some d)).
Proof.
  intros -> j d. destruct (decide (j = i)) as [->|Hj].
  - rewrite list_lookup_insert_eq; [naive_solver|]. destruct (Nat.leb_spec (length (consumers_ t)) i); [|done].
    rewrite length_app, length_replicate. lia.
  - rewrite list_lookup_insert_ne by done. destruct (Nat.leb_spec (length (consumers_ t)) i); [|naive_solver].
    rewrite lookup_app. destruct (consumers_ t !! j) as [o|] eqn:E; [naive_solver|].
    destruct (replicate _ None !! _) as [o|] eqn:E2; [|naive_solver].
    apply lookup_replicate in E2 as [-> _]. naive_solver.
Qed.

Lemma in_use_free m q : manager_ok m -> 0 <= q < maxBits m -> in_use m q <-> ~ free (availableIntervals m) q.
Proof. apply isBitInUse_spec. Qed.

Lemma tracker_ok_same t t' : frame t t' -> pended t' -> (forall d, consumer t' d = consumer t d) ->
  tracker_ok t -> tracker_ok t'.
Proof.
  intros Hf Hp Hc [[Hs _ Hpl Ho] Hr]. split.
  - constructor; [by eapply shape_frame|done| |by eapply owned_frame].
    intros d Hd. eapply placed_frame; [done..|by apply Hpl].
  - apply (registry_same t); [by apply frame_same_registry|by intros|done].
Qed.

Lemma setBitPosition_pended c b t : pended t -> pended (setBitPosition c b t).
Proof.
  intros Hp. apply (pended_consumers t); [done| | |done].
  - intros d. views. by case_decide; subst.
  - intros d. views. rewrite (pd_ready t Hp d). by case_decide; subst.
Qed.

Section Register.
Variables (c : nat) (b : Z) (m : ConsumerBitManager) (cs : list (option nat)) (t : ChangeTracker).
Hypothesis Hok : tracker_ok t.
Hypothesis Hfresh : getBitPosition t c = npos.
Hypothesis Hget : getConsumerBit (consumerBitManager_ t) = Some (b, m).
Hypothesis Hcs : cs = (if (length (consumers_ t) <=? Z.to_nat b)%nat
    then consumers_ t ++ replicate (S (Z.to_nat b) - length (consumers_ t)) None else consumers_ t).
Let t1 := set_registry t (<[Z.to_nat b := Some c]> cs) m (setBit (cachedConsumerBitmap_ t) b).
Let t' := setBitPosition c b (addToReadyConsumers c t1).

Lemma register_consumers : only c (mkConsumer b None true None) t t'.
Proof.
  destruct Hok as [Hco Hr]. destruct (addToReady_ok c t1) as (_ & _ & _ & Hon).
  { apply (co_pended None None), core_set_registry, Hco. }
  eapply only_trans; [exact Hon|]. intros d. unfold t', setBitPosition. rewrite consumer_set.
  case_decide; [|done]. subst d. unfold getMarker, isInReadyList, hook. rewrite (only_eq _ _ _ _ Hon). simpl.
  destruct (rg_idle t Hr c Hfresh) as [Hm _]. pose proof (pl_hook t c (co_placed _ _ _ Hco c ltac:(done))) as Hh.
  unfold hook, getMarker in *. change (consumer t1 c) with (consumer t c). by rewrite Hh, Hm.
Qed.

Lemma register_bit : 0 <= b < maxBits (consumerBitManager_ t) /\ ~ in_use (consumerBitManager_ t) b /\
  maxBits m = maxBits (consumerBitManager_ t) /\ manager_ok m /\
  (forall q, 0 <= q < maxBits m -> in_use m q <-> in_use (consumerBitManager_ t) q \/ q = b).
Proof.
  destruct Hok as [_ Hr]. pose proof (rg_manager t Hr) as Hm.
  destruct (get_step _ _ _ Hm Hget) as (Hmax & Hok' & Hb & _ & Hiff).
  assert (Hbr : 0 <= b < maxBits (consumerBitManager_ t)).
  { destruct Hb as (x & Hx & Hin). destruct Hm as [Hc _]. pose proof (canonical_elem _ _ _ _ Hc Hx). lia. }
  split_and!; try done; try lia.
  - rewrite in_use_free by done. tauto.
  - intros q Hq. rewrite !in_use_free, Hiff by (done || lia). destruct (decide (q = b)); tauto.
Qed.

Lemma register_pos d : getBitPosition t' d = if decide (d = c) then b else getBitPosition t d.
Proof. unfold getBitPosition. rewrite register_consumers. by case_decide. Qed.

Lemma register_new_bit d : getBitPosition t d <> b.
Proof.
  destruct Hok as [_ Hr], register_bit as (Hb & Hu & _). intros Hd. apply Hu.
  apply (rg_use t Hr); [done|]. by exists d.
Qed.

Lemma register_core : core None None t'.
Proof.
  destruct Hok as [Hco Hr], register_bit as (Hb & _).
  assert (Hco1 : core None None t1) by by apply core_set_registry.
  destruct (addToReady_ok c t1) as (Hf & Hp & Hi & _); [apply Hco1|].
  assert (Hbit : forall q b', bitAt t' q b' = bitAt t q b') by (intros; apply (frame_bitAt _ _ _ _ Hf)).
  assert (Hl : changeList_ t' = changeList_ t) by apply (fr_list _ _ Hf).
  constructor.
  - assert (Hs : shape (addToReadyConsumers c t1)) by (eapply shape_frame; [done|apply Hco1]).
    destruct Hs. by constructor.
  - by apply setBitPosition_pended.
  - intros d _. pose proof (register_consumers d) as Hd. case_decide.
    + subst d. constructor; unfold hook, getMarker, isInReadyList, getBitPosition; rewrite Hd; try done.
      simpl. intros q Hq. rewrite Hbit. destruct (bitAt t q b) eqn:E; [|done].
      apply (ow_reg _ _ (co_owned _ _ _ Hco)) in E as (_ & d & Hd'); [|lia]. by apply register_new_bit in Hd'.
    + destruct (co_placed _ _ _ Hco d ltac:(done)). unfold hook, getMarker, isInReadyList, getBitPosition in *.
      constructor; unfold hook, getMarker, isInReadyList, getBitPosition; rewrite Hd, ?Hl; try done.
      intros q Hq. rewrite Hbit. auto.
  - constructor.
    + intros q. rewrite Hl. intros Hq He. destruct (ow_some _ _ (co_owned _ _ _ Hco) q Hq He) as (b' & ? & ?).
      exists b'. by rewrite Hbit.
    + intros q b' Hb'. rewrite Hbit. intros H. destruct (ow_reg _ _ (co_owned _ _ _ Hco) q b' Hb' H) as (? & d & Hd).
      split; [done|]. exists d. rewrite register_pos. case_decide; [subst d; congruence|done].
Qed.

Lemma register_registry : registry t'.
Proof.
  destruct Hok as [Hco Hr], register_bit as (Hb & Hu & Hmax & Hm & Huse).
  pose proof (rg_max t Hr) as Hnp.
  assert (Hreg : consumers_ t' = <[Z.to_nat b := Some c]> cs /\ consumerBitManager_ t' = m /\
                 cachedConsumerBitmap_ t' = setBit (cachedConsumerBitmap_ t) b).
  { destruct (addToReady_ok c t1) as (Hf & _); [apply (co_pended None None), core_set_registry, Hco|].
    destruct Hf. simpl in *. done. }
  destruct Hreg as (Ec & Em & Eb). pose proof (register_slots t (Z.to_nat b) c cs Hcs) as Hslot.
  constructor; rewrite ?Ec, ?Em, ?Eb.
  - done.
  - lia.
  - intros i d [[-> ->]|[Hi Hd]]%Hslot; rewrite register_pos.
    + rewrite decide_True by done. lia.
    + destruct (rg_slot t Hr i d Hd) as [? Hpd]. rewrite Hmax. case_decide; [|done].
      subst d. rewrite Hfresh in Hpd. lia.
  - intros d. rewrite register_pos. case_decide.
    + subst d. intros _. split; [lia|]. apply Hslot. by left.
    + intros Hd. destruct (rg_pos t Hr d Hd) as [H0 Hs]. split; [done|]. apply Hslot. right.
      split; [|done]. intros E. apply (register_new_bit d). lia.
  - intros q Hq. rewrite Huse, (rg_use t Hr) by lia. split.
    + intros [[d Hd]| ->]; [|exists c; by rewrite register_pos, decide_True].
      exists d. rewrite register_pos. case_decide; [subst d; lia|done].
    + intros [d Hd]. rewrite register_pos in Hd. case_decide; [by right|left; by exists d].
  - apply wf_setBit, Hr.
  - intros q Hq. rewrite bit_of_setBit, orb_true_iff, (rg_cached t Hr) by lia. rewrite Z.eqb_eq. split.
    + intros [->|[? [d Hd]]]; [split; [lia|]; exists c; by rewrite register_pos, decide_True|].
      split; [done|]. exists d. rewrite register_pos. case_decide; [subst d; congruence|done].
    + intros [? [d Hd]]. rewrite register_pos in Hd. case_decide; [by left|right; eauto].
  - intros d. unfold getMarker, isInReadyList. rewrite register_pos, register_consumers. case_decide; [lia|].
    apply (rg_idle t Hr).
Qed.
End Register.

Lemma register_ok c t : tracker_ok t ->
  match registerWithTracker c t with
  | Ok t' => tracker_ok t' /\ getBitPosition t' c <> npos /\
             (forall q b, bitAt t' q b = bitAt t q b) /\ changeList_ t' = changeList_ t /\
             (forall d, d <> c -> consumer t' d = consumer t d)
  | Throw e => e = NoBitAvailable /\
               forall q, 0 <= q < maxBits (consumerBitManager_ t) -> exists d, getBitPosition t d = q
  | NoFuel => False
  end.
Proof.
  intros Hok. unfold registerWithTracker, registerConsumer. pose proof Hok as [Hco Hr].
  destruct (Z.eqb_spec (getBitPosition t c) npos) as [Hn|Hn]; cbn [negb rbind].
  - destruct (getConsumerBit (consumerBitManager_ t)) as [[b m]|] eqn:E; cbn [rbind].
    + pose proof (register_bit b m t Hok E) as (Hb & _). pose proof (rg_max t Hr).
      set (cs := if (_ <=? _)%nat then _ else _). split_and!.
      * split; [by eapply register_core|by eapply register_registry].
      * rewrite (register_pos c b m cs t Hok Hn). rewrite decide_True by done. lia.
      * intros q b'. destruct (addToReady_ok c (set_registry t (<[Z.to_nat b:=Some c]> cs) m (setBit (cachedConsumerBitmap_ t) b)))
          as (Hf & _); [apply (co_pended None None), core_set_registry, Hco|]. apply (frame_bitAt _ _ _ _ Hf).
      * destruct (addToReady_ok c (set_registry t (<[Z.to_nat b:=Some c]> cs) m (setBit (cachedConsumerBitmap_ t) b)))
          as (Hf & _); [apply (co_pended None None), core_set_registry, Hco|]. apply (fr_list _ _ Hf).
      * intros d Hd. apply (only_ne _ _ _ _ _ (register_consumers c b m cs t Hok Hn) Hd).
    + split; [done|]. intros q Hq. apply (rg_use t Hr); [done|].
      apply in_use_free; [apply Hr|done|]. rewrite (get_None _ E). by intros (x & ?%elem_of_nil & _).
  - assert (Hc : forall d, consumer (setBitPosition c (getBitPosition t c) t) d = consumer t d).
    { apply (only_same c). intros d. unfold setBitPosition. rewrite consumer_set.
      case_decide; [|done]. subst. unfold getBitPosition, getMarker, isInReadyList, hook. by destruct (consumer t c). }
    split_and!; [|by unfold getBitPosition in *; rewrite Hc|done|done|by intros].
    apply (tracker_ok_same t); [by apply frame_consumer|apply setBitPosition_pended, Hco|done|done].
Qed.
