(* ===== verification/ChangeTrackerOps.v ===== *)
(** * The operations of the change tracker keep its invariant

    For every operation of ChangeTracker.v: on a consistent tracker it returns,
    and what it did to the bitmaps, the list and the producer's log. *)

From stdpp Require Import gmap fin_sets.
From S2P Require Import Prelude ConsumerBitmap ConsumerBitManager ChangeTracker ChangeTrackerInv.

(** Items of [t] that left the list were reported to the producer. *)
Record reported (t t' : ChangeTracker) (new : list nat) : Prop := {
  rp_log : processed t' = processed t ++ new;
  rp_on : forall o, on t o <-> on t' o \/ o ∈ new;
  rp_new : forall o, o ∈ new -> ~ on t' o
}.

Lemma acked_reported x P t t' : acked x P t t' -> exists new, reported t t' new.
Proof. intros H. destruct (ak_proc _ _ _ _ H) as (new & ? & ? & ?). by exists new. Qed.

(** ** Leaving *)

Section Deregister.
Variables (c : nat) (t : ChangeTracker).
Hypothesis Hok : tracker_ok t.
Hypothesis Hreg : getBitPosition t c <> npos.
Let b := getBitPosition t c.
Let t1 := set_registry t (<[Z.to_nat b := None]> (consumers_ t))
            (snd (freeConsumerBit b (consumerBitManager_ t))) (clearBit (cachedConsumerBitmap_ t) b).
Let t2 := removeFromReadyConsumers c t1.

Lemma deregister_slot : 0 <= b < maxBits (consumerBitManager_ t) /\
  consumers_ t !! Z.to_nat b = Some (Some c).
Proof.
  destruct Hok as [_ Hr]. destruct (rg_pos t Hr c Hreg) as [H0 Hs]. split; [|done].
  destruct (rg_slot t Hr _ _ Hs). unfold b. lia.
Qed.

Lemma deregister_detach : core None None t2 /\ (forall q b', bitAt t2 q b' = bitAt t q b') /\
  changeList_ t2 = changeList_ t /\ changeItem_ t2 = changeItem_ t /\ processed t2 = processed t /\
  same_registry t1 t2 /\ only c (ready_at false (consumer t c)) t t2.
Proof.
  destruct Hok as [Hco _]. assert (Hco1 : core None None t1) by by apply core_set_registry.
  destruct (removeFromReady_ok c t1) as (Hf & Hp & _ & Hon); [apply Hco1|]. fold t2 in Hf, Hp, Hon.
  split_and!; [|intros; apply (frame_bitAt _ _ _ _ Hf)|apply Hf|apply Hf|apply Hf|by apply frame_same_registry|done].
  apply core_place with c; [eapply core_only; [by apply core_except|done..]|].
  destruct (co_placed _ _ _ Hco1 c ltac:(done)) as [H1 H2 H3 _].
  pose proof (only_eq _ _ _ _ Hon) as Hc. unfold hook, getMarker, getBitPosition in *.
  constructor; unfold hook, getMarker, getBitPosition, isInReadyList; rewrite Hc; try done.
  - by rewrite (fr_list _ _ Hf).
  - intros q. rewrite (fr_list _ _ Hf), (frame_bitAt _ _ _ _ Hf). apply H3.
Qed.

Lemma deregister_manager : let m := snd (freeConsumerBit b (consumerBitManager_ t)) in
  maxBits m = maxBits (consumerBitManager_ t) /\ manager_ok m /\
  forall q, 0 <= q < maxBits m -> in_use m q <-> in_use (consumerBitManager_ t) q /\ q <> b.
Proof.
  destruct Hok as [_ Hr], deregister_slot as [Hb _]. pose proof (rg_manager t Hr) as Hm.
  assert (Hu : in_use (consumerBitManager_ t) b) by (apply (rg_use t Hr); [done|by exists c]).
  cbv zeta. unfold freeConsumerBit. destruct (Z.leb_spec (maxBits (consumerBitManager_ t)) b); [lia|].
  unfold in_use in Hu. rewrite Hu. cbn [negb snd maxBits]. destruct (free_step _ _ Hm Hb Hu) as [Hm' Hf']. split; [done|]. split; [done|].
  intros q Hq. rewrite !in_use_free, Hf' by done. tauto.
Qed.

(** The state when [unregisterConsumer] returns, and the two assignments after it. *)
Variable t3 : ChangeTracker.
Hypothesis Hco3 : core None None t3.
Hypothesis Hak3 : acked (Some c) (bit_everywhere b) t2 t3.
Hypothesis Hc3 : consumer t3 c = reset_consumer (consumer t2 c).
Let t' := setMarker c None (setBitPosition c npos t3).

Lemma deregister_reg3 : consumers_ t3 = <[Z.to_nat b := None]> (consumers_ t) /\
  consumerBitManager_ t3 = snd (freeConsumerBit b (consumerBitManager_ t)) /\
  cachedConsumerBitmap_ t3 = clearBit (cachedConsumerBitmap_ t) b /\
  forall d, getBitPosition t3 d = getBitPosition t d.
Proof.
  destruct deregister_detach as (_ & _ & _ & _ & _ & Hsr & Hon). pose proof (ak_reg _ _ _ _ Hak3) as Hsr3.
  destruct Hsr as [E1 E2 E3 E4], Hsr3 as [F1 F2 F3 F4].
  split_and!; [by rewrite F1, E1|by rewrite F2, E2|by rewrite F3, E3|].
  intros d. by rewrite F4, E4.
Qed.

Lemma deregister_consumers : only c newConsumer t3 t'.
Proof.
  destruct deregister_detach as (_ & _ & _ & _ & _ & _ & Hon).
  intros d. unfold t', setMarker, setBitPosition. rewrite !consumer_set. case_decide; [|done].
  subst d. views. unfold isInReadyList, hook. rewrite Hc3, (only_eq _ _ _ _ Hon). done.
Qed.

Lemma deregister_pos d : getBitPosition t' d = if decide (d = c) then npos else getBitPosition t d.
Proof.
  destruct deregister_reg3 as (_ & _ & _ & Hp). unfold getBitPosition. rewrite deregister_consumers.
  case_decide; [done|]. apply Hp.
Qed.

Lemma deregister_bit q b' : 0 <= b' -> bitAt t' q b' = bitAt t q b' && negb (b' =? b).
Proof.
  intros Hb. change (bitAt t' q b') with (bitAt t3 q b'). rewrite (ak_bit _ _ _ _ Hak3) by done.
  destruct deregister_detach as (_ & Hbit & _). by rewrite Hbit.
Qed.

Lemma deregister_core : core None None t'.
Proof.
  destruct Hok as [Hco Hr]. pose proof Hco3 as [Hs3 Hp3 Hpl3 Ho3]. constructor.
  - destruct Hs3. by constructor.
  - apply setMarker_ok. by apply setBitPosition_pended.
  - intros d _. pose proof (deregister_consumers d) as Hd. case_decide.
    + subst d. constructor; unfold hook, getMarker, isInReadyList, getBitPosition; rewrite Hd; try done.
      simpl. intros q _. destruct (bitAt t' q npos) eqn:E; [|done].
      change (bitAt t' q npos) with (bitAt t3 q npos) in E.
      by destruct (ow_reg _ _ Ho3 q npos ltac:(done) E).
    + destruct (Hpl3 d ltac:(done)). unfold hook, getMarker, isInReadyList, getBitPosition in *.
      constructor; unfold hook, getMarker, isInReadyList, getBitPosition; by rewrite Hd.
  - constructor; [apply Ho3|]. intros q b' Hb' Hq.
    destruct (ow_reg _ _ Ho3 q b' Hb' Hq) as (? & d & Hd). split; [done|]. exists d.
    rewrite deregister_pos. destruct deregister_reg3 as (_ & _ & _ & Hp). rewrite Hp in Hd.
    case_decide; [|done]. subst d. rewrite deregister_bit in Hq by done. fold b in Hd.
    rewrite <- Hd, Z.eqb_refl, andb_false_r in Hq. done.
Qed.

Lemma deregister_registry : registry t'.
Proof.
  destruct Hok as [Hco Hr], deregister_slot as [Hb Hslot], deregister_manager as (Hmax & Hm & Huse).
  destruct deregister_reg3 as (Ec & Em & Eb & Hp3). pose proof (rg_max t Hr) as Hnp.
  change (consumers_ t3) with (consumers_ t') in Ec.
  change (consumerBitManager_ t3) with (consumerBitManager_ t') in Em.
  change (cachedConsumerBitmap_ t3) with (cachedConsumerBitmap_ t') in Eb.
  constructor; rewrite ?Ec, ?Em, ?Eb, ?Hmax.
  - done.
  - done.
  - intros i d Hi. destruct (decide (i = Z.to_nat b)) as [->|].
    + rewrite list_lookup_insert_eq in Hi; [done|]. by eapply lookup_lt_Some.
    + rewrite list_lookup_insert_ne in Hi by done. destruct (rg_slot t Hr i d Hi) as [? Hd].
      split; [done|]. rewrite deregister_pos. case_decide; [|done]. subst d. fold b in Hd. lia.
  - intros d. rewrite deregister_pos. case_decide; [done|]. intros Hd.
    destruct (rg_pos t Hr d Hd) as [? Hs]. split; [done|]. rewrite list_lookup_insert_ne; [done|].
    intros E. assert (Hbd : b = getBitPosition t d) by lia.
    by apply (registry_inj t c d Hr Hreg) in Hbd.
  - intros q Hq. rewrite Huse, (rg_use t Hr) by lia. split.
    + intros [[d Hd] Hqb]. exists d. rewrite deregister_pos. case_decide; [subst d; fold b in Hd; lia|done].
    + intros [d Hd]. rewrite deregister_pos in Hd. case_decide; [lia|]. split; [by exists d|].
      intros ->. symmetry in Hd. by apply (registry_inj t c d Hr Hreg) in Hd.
  - apply wf_clearBit, Hr.
  - intros q Hq. rewrite bit_of_clearBit, andb_true_iff, (rg_cached t Hr) by lia.
    rewrite negb_true_iff, Z.eqb_neq. split.
    + intros [Hqb [? [d Hd]]]. split; [done|]. exists d. rewrite deregister_pos.
      case_decide; [subst d; fold b in Hd; lia|done].
    + intros [? [d Hd]]. rewrite deregister_pos in Hd. case_decide; [lia|]. split; [|split; [done|by exists d]].
      intros Eq. assert (Hbd : b = getBitPosition t d) by lia.
      by apply (registry_inj t c d Hr Hreg) in Hbd.
  - intros d. rewrite deregister_pos. unfold getMarker, isInReadyList. rewrite deregister_consumers.
    case_decide; [done|]. intros Hd. destruct deregister_detach as (Hco2 & _ & _ & _ & _ & _ & Hon).
    destruct (rg_idle t Hr d Hd) as [Hmk Hfl]. unfold getMarker, isInReadyList in *.
    assert (E2 : consumer t2 d = consumer t d) by (by apply (only_ne _ _ _ _ _ Hon)).
    rewrite (ak_idle _ _ _ _ Hak3 d); [by rewrite E2|congruence|].
    pose proof (pl_hook t d (co_placed _ _ _ Hco d ltac:(done))) as Hh. unfold hook, getMarker in *. congruence.
Qed.
End Deregister.

Lemma deregister_ok c t : tracker_ok t ->
  exists t' new, deregisterFromTracker c t = Ok t' /\ tracker_ok t' /\ getBitPosition t' c = npos /\
    (forall q b, 0 <= b -> bitAt t' q b = bitAt t q b && negb (b =? getBitPosition t c)) /\
    reported t t' new.
Proof.
  intros Hok. pose proof Hok as [Hco Hr]. unfold deregisterFromTracker, unregisterConsumer.
  destruct (decide (getBitPosition t c = npos)) as [Hn|Hn].
  - assert (Hun : (if blen (consumers_ t) <=? getBitPosition t c then Ok t
       else match consumers_ t !! Z.to_nat (getBitPosition t c) with
            | Some (Some c0) => consumerResetChangeList (Some c0) (removeFromReadyConsumers c0
                (set_registry t (<[Z.to_nat (getBitPosition t c):=None]> (consumers_ t))
                  (snd (freeConsumerBit (getBitPosition t c) (consumerBitManager_ t)))
                  (clearBit (cachedConsumerBitmap_ t) (getBitPosition t c))))
            | _ => Ok t end) = (Ok t : tracked ChangeTracker)).
    { case_match; [done|]. destruct (consumers_ t !! _) as [[d|]|] eqn:E; [|done|done].
      destruct (rg_slot t Hr _ _ E) as [Hlt _]. pose proof (rg_max t Hr). rewrite Hn in Hlt.
      unfold npos in *. lia. }
    rewrite Hun. cbn [rbind]. set (t' := setMarker _ _ _).
    assert (Hc : forall d, consumer t' d = consumer t d).
    { apply (only_same c). intros d. unfold t', setMarker, setBitPosition. rewrite !consumer_set.
      case_decide; [|done]. views. unfold getBitPosition, getMarker, isInReadyList, hook in *.
      destruct (rg_idle t Hr c Hn) as [Hm _]. unfold getMarker in Hm. rewrite <- Hn, <- Hm. by destruct (consumer t c). }
    exists t', []. split_and!; [done| |unfold getBitPosition in *; by rewrite Hc| |].
    + apply (tracker_ok_same t); [|by apply setMarker_ok, setBitPosition_pended, Hco|done|done].
      constructor; try done. intros d. unfold getBitPosition. by rewrite Hc.
    + intros q b Hb. change (bitAt t' q b) with (bitAt t q b). rewrite Hn.
      destruct (bitAt t q b) eqn:E; [|done]. destruct (ow_reg _ _ (co_owned _ _ _ Hco) q b Hb E) as [Hnb _].
      apply Z.eqb_neq in Hnb. by rewrite Hnb.
    + constructor; [by rewrite app_nil_r| |by intros o ?%elem_of_nil].
      intros o. rewrite elem_of_nil. unfold on. simpl. tauto.
  - destruct (deregister_slot c t Hok Hn) as [Hb Hs].
    assert (Hlen : (blen (consumers_ t) <=? getBitPosition t c) = false).
    { apply lookup_lt_Some in Hs. apply Z.leb_gt. lia. }
    rewrite Hlen, Hs. set (t2 := removeFromReadyConsumers c _).
    destruct (deregister_detach c t Hok) as (Hco2 & Hb2 & Hl2 & Hi2 & Hp2 & Hsr2 & Hon2).
    destruct (consumerReset_ok c t2 Hco2) as (t3 & Hrs & Hco3 & Hak3 & Hc3).
    { intros d. rewrite (sr_pos _ _ Hsr2). apply (registry_positions t Hr). }
    assert (Eb : getBitPosition t2 c = getBitPosition t c) by (apply (sr_pos _ _ Hsr2)).
    rewrite Eb in Hak3. rewrite Hrs. cbn [rbind].
    destruct (acked_reported _ _ _ _ Hak3) as (new & [Hlog Hon Hnew]).
    eexists _, new. split; [done|]. split_and!.
    + split; [by eapply deregister_core|by eapply deregister_registry].
    + rewrite (deregister_pos c t Hok t3 Hak3 Hc3). by rewrite decide_True.
    + intros q b' Hb'. by apply (deregister_bit c t Hok t3 Hak3).
    + constructor; [by rewrite <- Hp2| |done]. intros o. unfold on in *. rewrite <- Hi2. apply Hon.
Qed.

(** ** Joining *)

(** From [t] to [t'] the bit [b] of the items [l] was set, and nothing else was
    done. *)
Record bits_set (b : Z) (l : list nat) (t t' : ChangeTracker) : Prop := {
  bs_store : store t' = store t;
  bs_list : changeList_ t' = changeList_ t;
  bs_obj : changeItem_ t' = changeItem_ t;
  bs_cons : consumers_ t' = consumers_ t;
  bs_man : consumerBitManager_ t' = consumerBitManager_ t;
  bs_cached : cachedConsumerBitmap_ t' = cachedConsumerBitmap_ t;
  bs_proc : processed t' = processed t;
  bs_shape : shape t -> shape t';
  bs_pended : pended t -> pended t';
  bs_objAt : forall q, objAt t' q = objAt t q;
  bs_bit : forall q b', 0 <= b' -> bitAt t' q b' = bitAt t q b' || bool_decide (q ∈ l /\ b' = b)
}.

Lemma bits_set_nil b t : bits_set b [] t t.
Proof.
  constructor; try done. intros q b' _. rewrite bool_decide_false, orb_false_r; [done|].
  by intros [?%elem_of_nil _].
Qed.

Lemma bits_set_cons b p l t1 t2 t3 : bits_set b [p] t1 t2 -> bits_set b l t2 t3 ->
  bits_set b (p :: l) t1 t3.
Proof.
  intros [] []. constructor; try congruence; try tauto.
  intros q b' Hb. rewrite bs_bit1, bs_bit0, <- orb_assoc by done. f_equal.
  destruct (decide (b' = b)) as [->|]; [|rewrite !bool_decide_false by tauto; done].
  rewrite <- bool_decide_or. apply bool_decide_ext. rewrite list_elem_of_singleton, elem_of_cons. tauto.
Qed.

Lemma setBit_step b p it t : 0 <= b -> items t !! p = Some it -> wf_bitmap (consumerBitmap it) ->
  bits_set b [p] t (set_item p (with_bitmap it (setBit (consumerBitmap it) b)) t).
Proof.
  intros Hb Hit Hwf. constructor; try done.
  - by apply rebit_shape; [|apply wf_setBit].
  - by apply rebit_pended.
  - intros q. by apply rebit_objAt.
  - intros q b' Hb'. rewrite bitAt_set_item. case_decide as Hq.
    + subst q. cbn [consumerBitmap with_bitmap]. rewrite bit_of_setBit by done. unfold bitAt. rewrite Hit.
      rewrite orb_comm. f_equal. destruct (Z.eqb_spec b' b) as [->|].
      * by rewrite bool_decide_true by (by split; [left|]).
      * by rewrite bool_decide_false by (by intros [_ ?]).
    + rewrite bool_decide_false, orb_false_r; [done|]. by intros [?%list_elem_of_singleton _].
Qed.

Lemma joinWalk_ok b l2 : 0 <= b -> forall fuel l1 t, shape t -> changeList_ t = l1 ++ l2 ->
  (length l2 <= fuel)%nat ->
  exists t', joinWalk fuel b (head l2) t = Ok t' /\ bits_set b l2 t t'.
Proof.
  intros Hb. induction l2 as [|p l2 IH]; intros fuel l1 t Hs Hl Hf.
  - exists t. split; [by destruct fuel|apply bits_set_nil].
  - destruct fuel as [|fuel]; [simpl in Hf; lia|]. simpl in Hf.
    assert (Hin : p ∈ changeList_ t) by (rewrite Hl; apply elem_of_app; right; left).
    destruct (shape_deref t p Hs Hin) as [it Hit]. cbn [joinWalk head]. rewrite (deref_Some _ _ _ Hit).
    cbn [rbind]. set (t1 := set_item p _ t).
    assert (Hst : bits_set b [p] t t1) by (apply setBit_step; [done..|by apply (sh_wf t Hs p)]).
    assert (Hs1 : shape t1) by by apply Hst.
    destruct (shape_deref t1 p Hs1) as [it1 Hit1]; [done|].
    unfold get_next. rewrite (deref_Some _ _ _ Hit1). cbn [rbind].
    destruct (erase_or_keep _ _ l1 l2 p (sh_nodup t Hs) Hl (or_introl eq_refl)) as (Hn & _).
    change (changeList_ t1) with (changeList_ t). rewrite Hn.
    destruct (IH fuel (l1 ++ [p]) t1) as (t' & Hw & Hset); [done|by rewrite <- app_assoc|lia|].
    exists t'. split; [done|]. by eapply bits_set_cons.
Qed.

Lemma bits_set_consumer b l t t' d : bits_set b l t t' -> consumer t' d = consumer t d.
Proof. intros H. unfold consumer. by rewrite (bs_store _ _ _ _ H). Qed.

Lemma bits_set_registry b l t t' : bits_set b l t t' -> same_registry t t'.
Proof.
  intros H. constructor; try apply H. intros c. unfold getBitPosition. by erewrite bits_set_consumer.
Qed.

(** Setting the bit of a registered consumer [c], which is put right afterwards,
    disturbs no other consumer. *)
Lemma bits_set_core c l t t' : core (Some c) None t -> registry t -> getBitPosition t c <> npos ->
  bits_set (getBitPosition t c) l t t' -> core (Some c) None t'.
Proof.
  intros [Hs Hp Hpl Ho] Hr Hc Hb. pose proof (fun d => bits_set_consumer _ _ _ _ d Hb) as Hcons.
  constructor; [by apply Hb|by apply Hb| |constructor].
  - intros d Hd. destruct (Hpl d Hd) as [H1 H2 H3 H4].
    unfold hook, getMarker, isInReadyList, getBitPosition in *.
    constructor; unfold hook, getMarker, isInReadyList, getBitPosition; rewrite ?Hcons, ?(bs_list _ _ _ _ Hb); try done.
    intros q Hq. rewrite (bs_bit _ _ _ _ Hb) by apply (registry_positions t Hr d).
    rewrite H3 by done. apply bool_decide_eq_false_2. intros [_ E]. apply Hd. f_equal.
    symmetry. by apply (registry_inj t).
  - intros q. rewrite (bs_list _ _ _ _ Hb). intros Hq He. destruct (ow_some _ _ Ho q Hq He) as (b & ? & Hbq).
    exists b. by rewrite (bs_bit _ _ _ _ Hb), Hbq.
  - intros q b Hb0. rewrite (bs_bit _ _ _ _ Hb) by done. rewrite orb_true_iff, bool_decide_eq_true.
    unfold getBitPosition. setoid_rewrite Hcons. intros [H|[_ ->]]; [by apply (ow_reg _ _ Ho q)|].
    split; [done|]. by exists c.
Qed.

(** Nothing behind [c]'s own marker [m] has its bit when only items from [m] on
    got it. *)
Lemma link_ok c p t : core (Some c) None t -> p ∈ changeList_ t -> getMarker t c = Some p ->
  hook t c = None -> isInReadyList t c = false ->
  (forall q, q ∈ before (Some p) (changeList_ t) -> bitAt t q (getBitPosition t c) = false) ->
  exists t', pushPendingConsumer p c t = Ok t' /\ core None None t' /\ frame t t' /\
    only c (linked_at p (consumer t c)) t t'.
Proof.
  intros Hco Hin Hm Hh Hfl Hb.
  destruct (pushPending_ok p c t) as (t' & Hpu & Hf & Hp' & _ & Hon);
    [apply Hco|by apply (sh_items t (co_shape _ _ _ Hco))|done|].
  exists t'. split_and!; [done| |done|done]. apply core_place with c; [by eapply core_only|].
  pose proof (only_eq _ _ _ _ Hon) as Hc. unfold hook, getMarker, isInReadyList, getBitPosition in *.
  constructor; unfold hook, getMarker, isInReadyList, getBitPosition; rewrite Hc; simpl.
  - done.
  - intros q. rewrite Hm, (fr_list _ _ Hf). by intros [= <-].
  - rewrite Hm. intros q. rewrite (fr_list _ _ Hf), (frame_bitAt _ _ _ _ Hf). apply Hb.
  - congruence.
Qed.

Lemma registered_slot t c : registry t -> getBitPosition t c <> npos ->
  (blen (consumers_ t) <=? getBitPosition t c) ||
  negb (bool_decide (consumers_ t !! Z.to_nat (getBitPosition t c) = Some (Some c))) = false.
Proof.
  intros Hr Hc. destruct (rg_pos t Hr c Hc) as [H0 Hs]. rewrite bool_decide_true by done.
  rewrite orb_false_r. apply Z.leb_gt. apply lookup_lt_Some in Hs. lia.
Qed.

Lemma unregistered_slot t c : registry t -> getBitPosition t c = npos ->
  (blen (consumers_ t) <=? getBitPosition t c) ||
  negb (bool_decide (consumers_ t !! Z.to_nat (getBitPosition t c) = Some (Some c))) = true.
Proof.
  intros Hr Hc. destruct (bool_decide _) eqn:E; [|by rewrite orb_true_r].
  apply bool_decide_eq_true in E. destruct (rg_slot t Hr _ _ E) as [H _].
  pose proof (rg_max t Hr). rewrite Hc in H. unfold npos in *. lia.
Qed.

(** A consumer whose bit is set from its marker on only. *)
Lemma replace_bits c l t t' : core None None t -> registry t -> getBitPosition t c <> npos ->
  bits_set (getBitPosition t c) l t t' ->
  (forall q, q ∈ l -> q ∉ before (getMarker t c) (changeList_ t)) ->
  core None None t' /\ registry t'.
Proof.
  intros Hco Hr Hc Hb Hl. pose proof (fun d => bits_set_consumer _ _ _ _ d Hb) as Hcons. split.
  - apply core_place with c; [by eapply bits_set_core; [by apply core_except|..]|].
    destruct (co_placed _ _ _ Hco c ltac:(done)) as [H1 H2 H3 H4].
    unfold hook, getMarker, isInReadyList, getBitPosition in *.
    constructor; unfold hook, getMarker, isInReadyList, getBitPosition; rewrite ?Hcons, ?(bs_list _ _ _ _ Hb); try done.
    intros q Hq. rewrite (bs_bit _ _ _ _ Hb) by apply (registry_positions t Hr c). rewrite H3 by done.
    apply bool_decide_eq_false_2. intros [Hin _]. by apply (Hl q).
  - apply (registry_same t); [by eapply bits_set_registry|by intros|done].
Qed.

Lemma suffix_not_before (l1 l2 : list nat) q : NoDup (l1 ++ l2) -> q ∈ l2 -> q ∉ l1.
Proof. intros Hnd H2 H1. apply NoDup_app in Hnd as (_ & H & _). by apply (H q). Qed.

(** The new consumer gets the items from the existing one's marker on. *)
Lemma join_ok e n t : tracker_ok t ->
  match joinConsumer e n t with
  | Throw x => x = InvalidArgument /\ getBitPosition t n = npos
  | NoFuel => False
  | Ok t' => getBitPosition t n <> npos /\ tracker_ok t' /\ changeList_ t' = changeList_ t /\
      changeItem_ t' = changeItem_ t /\ processed t' = processed t /\
      (forall q, objAt t' q = objAt t q) /\
      (forall d, getBitPosition t' d = getBitPosition t d) /\
      match getMarker t n, getMarker t e with
      | None, Some p =>
          getMarker t' n = Some p /\
          forall q b, 0 <= b -> bitAt t' q b =
            bitAt t q b || bool_decide ((q ∈ changeList_ t /\ q ∉ before (Some p) (changeList_ t)) /\
                                        b = getBitPosition t n)
      | _, _ => t' = t
      end
  end.
Proof.
  intros Hok. pose proof Hok as [Hco Hr]. unfold joinConsumer.
  destruct (decide (getBitPosition t n = npos)) as [Hn|Hn]; [by rewrite unregistered_slot|].
  rewrite registered_slot by done. destruct (getMarker t n) as [|] eqn:Emn; [by split_and!|].
  destruct (getMarker t e) as [p|] eqn:Eme; [|by split_and!].
  pose proof (co_placed _ _ _ Hco n ltac:(done)) as Hpn.
  assert (Hin : p ∈ changeList_ t) by (by apply (pl_marker t e (co_placed _ _ _ Hco e ltac:(done)))).
  destruct (removeFromReady_ok n t) as (Hf1 & Hp1 & _ & Ho1); [apply Hco|].
  set (t1 := removeFromReadyConsumers n t) in *.
  destruct (setMarker_ok n (Some p) t1 Hp1) as (Hf2 & Hp2 & Ho2). set (t2 := setMarker n (Some p) t1) in *.
  assert (Hf12 : frame t t2) by by trans t1. pose proof (only_trans _ _ _ _ _ _ Ho1 Ho2) as Ho12.
  rewrite (only_eq _ _ _ _ Ho1) in Ho12. pose proof (only_eq _ _ _ _ Ho12) as Hc2.
  destruct (link_ok n p t2) as (t3 & Hpu & Hco3 & Hf3 & Ho3).
  { by eapply core_only; [by apply core_except|..]. }
  { by rewrite (fr_list _ _ Hf12). }
  { unfold getMarker. by rewrite Hc2. }
  { unfold hook. rewrite Hc2. simpl. pose proof (pl_hook t n Hpn) as Hh. unfold hook in Hh. congruence. }
  { unfold isInReadyList. by rewrite Hc2. }
  { intros q _. rewrite (fr_pos _ _ Hf12), (frame_bitAt _ _ _ _ Hf12).
    destruct (bitAt t q (getBitPosition t n)) eqn:E; [|done]. rewrite (pl_behind t n Hpn) in E; [done|].
    rewrite Emn. by eapply bitAt_live. }
  rewrite Hpu. cbn [rbind]. assert (Hf : frame t t3) by by trans t2.
  pose proof (only_trans _ _ _ _ _ _ Ho12 Ho3) as Ho. rewrite Hc2 in Ho. pose proof (only_eq _ _ _ _ Ho) as Hc3.
  assert (Hr3 : registry t3).
  { apply (registry_same t); [by apply frame_same_registry| |done]. intros d Hd. apply (only_ne _ _ _ _ _ Ho). congruence. }
  destruct (marker_split (Some p) (changeList_ t)) as (l2 & El & Ehd); [by intros q [= <-]|].
  destruct (joinWalk_ok (getBitPosition t n) l2 (registry_positions t Hr n) (S (length (changeList_ t3)))
    (before (Some p) (changeList_ t)) t3) as (t4 & Hw & Hset).
  { apply Hco3. } { by rewrite (fr_list _ _ Hf). } { rewrite (fr_list _ _ Hf), El, length_app. lia. }
  rewrite <- Ehd in Hw. rewrite Hw.
  assert (Hpos3 : getBitPosition t3 n = getBitPosition t n) by apply (fr_pos _ _ Hf).
  assert (Hm3 : getMarker t3 n = Some p) by (unfold getMarker; by rewrite Hc3).
  assert (Hnb : forall q, q ∈ l2 -> q ∉ before (Some p) (changeList_ t)).
  { intros q. apply suffix_not_before. rewrite <- El. apply Hco. }
  destruct (replace_bits n l2 t3 t4) as [Hco4 Hr4]; [done|done|by rewrite Hpos3|by rewrite Hpos3|
    by rewrite Hm3, (fr_list _ _ Hf)|].
  split_and!; [done|done|by rewrite (bs_list _ _ _ _ Hset), (fr_list _ _ Hf)
    |by rewrite (bs_obj _ _ _ _ Hset), (fr_obj _ _ Hf)|by rewrite (bs_proc _ _ _ _ Hset), (fr_proc _ _ Hf)| | | |].
  - intros q. by rewrite (bs_objAt _ _ _ _ Hset), (frame_objAt _ _ _ Hf).
  - intros d. rewrite <- (fr_pos _ _ Hf d). apply (bits_set_registry _ _ _ _ Hset).
  - unfold getMarker in *. by rewrite (bits_set_consumer _ _ _ _ n Hset).
  - intros q b Hb. rewrite (bs_bit _ _ _ _ Hset), (frame_bitAt _ _ _ _ Hf) by done. f_equal.
    apply bool_decide_ext. split; intros [H ->]; (split; [|done]).
    + split; [rewrite El; apply elem_of_app; by right|by apply Hnb].
    + destruct H as [H1 H2]. rewrite El in H1. by apply elem_of_app in H1 as [|].
Qed.

(** ** Iterating *)

Lemma skipUnowned_ok b t l2 : shape t -> forall fuel l1, changeList_ t = l1 ++ l2 ->
  (length l2 <= fuel)%nat ->
  exists k1 k2, l2 = k1 ++ k2 /\ skipUnowned fuel b (head l2) t = Ok (head k2) /\
    (forall q, q ∈ k1 -> bitAt t q b = false) /\ (forall q, head k2 = Some q -> bitAt t q b = true).
Proof.
  intros Hs. induction l2 as [|p l2 IH]; intros fuel l1 Hl Hf.
  - exists [], []. split_and!; [done|by destruct fuel|by intros q ?%elem_of_nil|done].
  - destruct fuel as [|fuel]; [simpl in Hf; lia|]. simpl in Hf.
    assert (Hin : p ∈ changeList_ t) by (rewrite Hl; apply elem_of_app; right; left).
    destruct (shape_deref t p Hs Hin) as [it Hit]. cbn [skipUnowned head]. rewrite (deref_Some _ _ _ Hit).
    cbn [rbind]. rewrite isBitSet_bit_of. assert (Hb : bitAt t p b = bit_of (consumerBitmap it) b).
    { unfold bitAt. by rewrite Hit. }
    rewrite <- Hb. destruct (bitAt t p b) eqn:E.
    + exists [], (p :: l2). split_and!; [done|done|by intros q ?%elem_of_nil|by intros q [= <-]].
    + destruct (IH fuel (l1 ++ [p])) as (k1 & k2 & -> & Hsk & H1 & H2); [by rewrite <- app_assoc|lia|].
      exists (p :: k1), k2. split_and!; [done| | |done].
      * unfold get_next. rewrite (deref_Some _ _ _ Hit). cbn [rbind].
        destruct (erase_or_keep _ _ l1 (k1 ++ k2) p (sh_nodup t Hs) Hl (or_introl eq_refl)) as (Hn & _).
        by rewrite Hn.
      * by intros q [->|Hq]%elem_of_cons; [|apply H1].
Qed.

(** The consumer [c] in the middle of a run: off its item, at the head of [l2],
    with nothing left to do in [l1]. *)
Record iterating (c : nat) (l1 l2 : list nat) (t : ChangeTracker) : Prop := {
  ir_core : core (Some c) None t;
  ir_hook : hook t c = None;
  ir_marker : getMarker t c = head l2;
  ir_list : changeList_ t = l1 ++ l2;
  ir_clear : forall q, q ∈ l1 -> bitAt t q (getBitPosition t c) = false;
  ir_ready : isInReadyList t c = true -> l2 = []
}.

Lemma markProcessed_ok c p l1 l2 t : iterating c l1 (p :: l2) t -> positions_ok t ->
  exists t' l1' k1 k2, markProcessed c (Some p) t = Ok t' /\ l2 = k1 ++ k2 /\
    (forall q, q ∈ k1 -> bitAt t q (getBitPosition t c) = false) /\
    (forall q, head k2 = Some q -> bitAt t q (getBitPosition t c) = true) /\
    iterating c l1' k2 t' /\ acked (Some c) (the_bit p (getBitPosition t c)) t t'.
Proof.
  intros [Hco Hh Hm Hl Hclr Hrd] Hpos. set (b := getBitPosition t c).
  pose proof (co_shape _ _ _ Hco) as Hs.
  assert (Hin : p ∈ changeList_ t) by (rewrite Hl; apply elem_of_app; right; left).
  destruct (shape_deref t p Hs Hin) as [it Hit].
  destruct (erase_or_keep _ _ l1 l2 p (sh_nodup t Hs) Hl (or_introl eq_refl)) as (Hn & _).
  destruct (skipUnowned_ok b t l2 Hs (S (length (changeList_ t))) (l1 ++ [p])) as (k1 & k2 & El2 & Hsk & H1 & H2).
  { by rewrite <- app_assoc. } { rewrite Hl, length_app. simpl. lia. }
  destruct (mark_ok (Some c) p b t Hco Hpos (Hpos c) Hin) as (t1 & Hmk & Hco1 & Hak1 & Hl1 & Hc1).
  destruct (setMarker_ok c (head k2) t1) as (Hf2 & Hp2 & Ho2); [apply Hco1|].
  set (t2 := setMarker c (head k2) t1) in *.
  set (t3 := match head k2 with None => addToReadyConsumers c t2 | Some _ => t2 end).
  set (C3 := mkConsumer b (head k2) (match head k2 with None => true | Some _ => isInReadyList t c end) None).
  assert (H3 : frame t1 t3 /\ pended t3 /\ only c C3 t1 t3).
  { destruct (addToReady_ok c t2 Hp2) as (Hf3 & Hp3 & _ & Ho3). rewrite (only_eq _ _ _ _ Ho2) in Ho3.
    rewrite Hc1 in Ho2. rewrite Hc1 in Ho3. unfold hook in Hh.
    unfold t3, C3. destruct (head k2).
    - split_and!; [done|done|]. unfold marked_at in Ho2. by rewrite Hh in Ho2.
    - split_and!; [by trans t2|done|]. eapply only_trans; [done|]. unfold ready_at, marked_at in Ho3. simpl in Ho3.
      by rewrite Hh in Ho3. }
  destruct H3 as (Hf3 & Hp3 & Ho3). pose proof (only_eq _ _ _ _ Ho3) as HC3.
  destruct (check_ok (Some c) p t3) as (t4 & Hck & Hco4 & Hak4 & Hl4 & Hc4).
  { by eapply core_only. } { by rewrite (fr_list _ _ Hf3), Hl1. }
  { intros d [= <-]. unfold hook. by rewrite HC3. }
  specialize (Hc4 c eq_refl). rewrite (fr_list _ _ Hf3), Hl1 in Hl4. rewrite HC3 in Hc4.
  destruct (erase_or_keep _ _ l1 l2 p (sh_nodup t Hs) Hl Hl4) as (_ & l1' & El' & Hl1').
  assert (Hak : acked (Some c) (the_bit p b) t t4).
  { eapply acked_after; [|done|]; [by intros|]. eapply acked_before; [|eapply acked_only; [apply Hco1|done..]|done]. done. }
  exists t4, (l1' ++ k1), k1, k2. split_and!; [|done|done|done| |done].
  - unfold markProcessed, removePendingConsumer. rewrite (deref_Some _ _ _ Hit). cbn [rbind]. rewrite Hh. cbn [rbind].
    unfold get_next. rewrite (deref_Some _ _ _ Hit). cbn [rbind]. rewrite Hn. fold b. rewrite Hsk. cbn [rbind].
    rewrite Hmk. cbn [rbind]. exact Hck.
  - constructor; [done|unfold hook; by rewrite Hc4|unfold getMarker; by rewrite Hc4|by rewrite El', El2, app_assoc| |].
    + unfold getBitPosition. rewrite Hc4. cbn [bitPosition_ C3].
      intros q [Hq|Hq]%elem_of_app; rewrite (ak_bit _ _ _ _ Hak) by apply (Hpos c).
      * apply Hl1' in Hq as [Hq| ->]; [by rewrite (Hclr q Hq : bitAt t q b = false)|].
        unfold the_bit. by rewrite bool_decide_true, Z.eqb_refl, andb_false_r.
      * by rewrite H1.
    + unfold isInReadyList. rewrite Hc4. unfold C3. cbn [isInReadyList_]. destruct k2; [done|]. cbn [head].
      intros Hf. by specialize (Hrd Hf).
Qed.

(** What the run visits: the item at the marker, then those with the consumer's
    bit. *)
Definition visits (t : ChangeTracker) (c : nat) (l : list nat) : list nat :=
  match l with
  | [] => []
  | p :: l => p :: filter (fun q => bitAt t q (getBitPosition t c) = true) l
  end.

Definition objs (t : ChangeTracker) (l : list nat) : list nat := omap (objAt t) l.

Lemma objs_cons t q l : objs t (q :: l) =
  match objAt t q with Some o => o :: objs t l | None => objs t l end.
Proof. done. Qed.

Lemma frame_objs t t' l : frame t t' -> objs t' l = objs t l.
Proof.
  intros Hf. induction l as [|q l IH]; [done|]. by rewrite !objs_cons, (frame_objAt _ _ _ Hf), IH.
Qed.

Lemma filter_none (f : nat -> bool) (l : list nat) : (forall q, q ∈ l -> f q = false) ->
  filter (fun q => f q = true) l = [].
Proof.
  induction l as [|q l IH]; intros H; [done|].
  rewrite filter_cons_False by (rewrite (H q) by left; done). apply IH. intros; apply H. by right.
Qed.

Lemma visits_step t t' c p k1 k2 :
  NoDup (p :: k1 ++ k2) -> positions_ok t -> getBitPosition t' c = getBitPosition t c ->
  acked (Some c) (the_bit p (getBitPosition t c)) t t' ->
  (forall q, q ∈ k1 -> bitAt t q (getBitPosition t c) = false) ->
  (forall q, head k2 = Some q -> bitAt t q (getBitPosition t c) = true) ->
  visits t c (p :: k1 ++ k2) = p :: visits t' c k2.
Proof.
  intros Hnd Hpos Epos Hak H1 H2. simpl. f_equal. rewrite filter_app, filter_none by done. cbn [app].
  apply NoDup_cons in Hnd as [Hp Hnd].
  destruct k2 as [|n k2]; [done|]. rewrite filter_cons_True by (by apply H2). simpl. f_equal.
  apply filter_ext_in. intros q Hq. rewrite Epos, (ak_bit _ _ _ _ Hak) by apply Hpos.
  unfold the_bit. rewrite bool_decide_false; [by rewrite andb_true_r|].
  intros ->. apply Hp. apply elem_of_app. right. by right.
Qed.

Lemma acked_objs x P t t' l : core x None t' -> acked x P t t' ->
  (forall q, q ∈ l -> q ∈ changeList_ t') -> objs t' l = objs t l.
Proof.
  intros Hco Hak Hl. induction l as [|q l IH]; [done|].
  specialize (IH ltac:(intros; apply Hl; by right)).
  assert (Hq : q ∈ changeList_ t') by (apply Hl; left).
  apply (sh_items t' (co_shape _ _ _ Hco)) in Hq as [it Hq].
  assert (Ho : objAt t' q = Some (trackableObject it)) by (unfold objAt; by rewrite Hq).
  by rewrite !objs_cons, Ho, (ak_obj _ _ _ _ Hak q _ Ho), IH.
Qed.

Section Iterate.
Context {S_ : Type}.
Variable cb : S_ -> nat -> ProcessResult * S_.

(** The callback on a sequence of objects: how many it consumed before the end of
    the sequence or the first [YIELD]. *)
Fixpoint deliver (s : S_) (os : list nat) : ProcessResult * S_ * nat :=
  match os with
  | [] => (CONTINUE, s, O)
  | o :: os => match cb s o with
               | (YIELD, s) => (YIELD, s, O)
               | (CONTINUE, s) => let '(r, s, k) := deliver s os in (r, s, S k)
               end
  end.

(** The bits of [c] on the items [l]. *)
Definition bits_of (b : Z) (l : list nat) : nat -> Z -> bool :=
  fun q b' => bool_decide (q ∈ l) && (b' =? b).

Lemma iterateLoop_ok c u W : forall fuel l1 l2 s t,
  iterating c l1 l2 t -> positions_ok t -> visits t c l2 = W -> (length W <= fuel)%nat ->
  exists r s' k t' l1' l2',
    iterateLoop cb fuel c u (getMarker t c) s t = Ok (r, s', t') /\
    deliver s (objs t (before u W)) = (r, s', k) /\
    iterating c l1' l2' t' /\ head l2' = head (drop k W) /\
    acked (Some c) (bits_of (getBitPosition t c) (take k W)) t t'.
Proof.
  induction W as [|p W IH]; intros fuel l1 l2 s t Hir Hpos HW Hf.
  - destruct l2; [|done]. exists CONTINUE, s, O, t, l1, []. rewrite (ir_marker _ _ _ _ Hir).
    split_and!; [by destruct fuel|by destruct u|done|done|]. apply acked_frame; [apply Hir|done|done].
  - destruct l2 as [|p' l2]; [done|]. injection HW as -> HW. rewrite (ir_marker _ _ _ _ Hir). cbn [head].
    destruct (decide (u = Some p)) as [->|Hu].
    { exists CONTINUE, s, O, t, l1, (p :: l2).
      split_and!; [destruct fuel; simpl; by rewrite decide_True|simpl; by rewrite decide_True|done|done|].
      apply acked_frame; [apply Hir|done|done]. }
    destruct fuel as [|fuel]; [simpl in Hf; lia|]. simpl in Hf.
    pose proof (ir_core _ _ _ _ Hir) as Hco. pose proof (co_shape _ _ _ Hco) as Hs.
    assert (Hin : p ∈ changeList_ t) by (rewrite (ir_list _ _ _ _ Hir); apply elem_of_app; right; left).
    destruct (shape_deref t p Hs Hin) as [it Hit].
    assert (Eb : before u (p :: W) = p :: before u W).
    { destruct u as [v|]; [|done]. simpl. by rewrite decide_False by congruence. }
    assert (Eo : objs t (before u (p :: W)) = trackableObject it :: objs t (before u W)).
    { rewrite Eb. unfold objs. simpl. unfold objAt at 1. by rewrite Hit. }
    rewrite Eo. cbn [iterateLoop deliver]. rewrite decide_False by congruence. rewrite (deref_Some _ _ _ Hit).
    cbn [rbind]. destruct (cb s (trackableObject it)) as [[] s1].
    + destruct (markProcessed_ok c p l1 l2 t Hir Hpos) as (t1 & l1' & k1 & k2 & Hmk & El2 & H1 & H2 & Hir1 & Hak1).
      rewrite Hmk. cbn [rbind]. pose proof (ak_reg _ _ _ _ Hak1) as Hsr.
      assert (Epos : getBitPosition t1 c = getBitPosition t c) by apply Hsr.
      assert (HW1 : visits t1 c k2 = W).
      { assert (Hnd : NoDup (p :: k1 ++ k2)).
        { rewrite <- El2. pose proof (sh_nodup t Hs) as Hnd. rewrite (ir_list _ _ _ _ Hir) in Hnd.
          by apply NoDup_app in Hnd as (_ & _ & ?). }
        pose proof (visits_step t t1 c p k1 k2 Hnd Hpos Epos Hak1 H1 H2) as Hv. injection Hv as Hv.
        rewrite <- Hv, <- El2. exact HW. }
      destruct (IH fuel l1' k2 s1 t1 Hir1) as (r & s' & k & t' & m1 & m2 & Hlp & Hd & Hir' & Hhd & Hak');
        [by eapply positions_same|done|lia|].
      assert (Eobj : objs t1 (before u W) = objs t (before u W)).
      { eapply acked_objs; [apply Hir1|done|]. intros q Hq%before_incl. rewrite (ir_list _ _ _ _ Hir1).
        apply elem_of_app. right. rewrite <- HW1 in Hq. destruct k2; [done|]. simpl in Hq.
        apply elem_of_cons in Hq as [->|[_ Hq]%list_elem_of_filter]; [left|by right]. }
      rewrite Eobj in Hd. exists r, s', (S k), t', m1, m2. rewrite Hd.
      split_and!; [done|done|done|done|]. rewrite Epos in Hak'.
      eapply acked_ext; [|by eapply acked_trans]. intros q b _ _. simpl. unfold the_bit, bits_of.
      destruct (b =? getBitPosition t c); [|by rewrite !andb_false_r]. rewrite !andb_true_r, <- bool_decide_or.
      apply bool_decide_ext. by rewrite elem_of_cons.
    + exists YIELD, s1, O, t, l1, (p :: l2). split_and!; [done|done|done|done|].
      apply acked_frame; [apply Hir|done|done].
Qed.

Lemma deliver_continue s os r s' k : deliver s os = (r, s', k) ->
  (k <= length os)%nat /\ (r = CONTINUE -> k = length os).
Proof.
  revert s s' k. induction os as [|o os IH]; intros s s' k Hd; simpl in Hd; [by simplify_eq|].
  destruct (cb s o) as [[] s1]; [|by simplify_eq/=; split; [lia|]].
  destruct (deliver s1 os) as [[r1 s2] k1] eqn:E. simplify_eq. apply IH in E as [? ?]. simpl.
  split; [lia|]. intros Hr. f_equal. auto.
Qed.
End Iterate.

(** The part of the list from a marker on. *)
Definition from (m : option nat) (l : list nat) : list nat := drop (length (before m l)) l.

Lemma before_from m l : l = before m l ++ from m l.
Proof.
  unfold from. destruct m as [p|]; [|simpl; by rewrite drop_all, app_nil_r]. simpl.
  induction l as [|q l IH]; [done|]. simpl. case_decide; [done|]. simpl. by rewrite <- IH.
Qed.

Lemma from_head m l : (forall p, m = Some p -> p ∈ l) -> head (from m l) = m.
Proof.
  intros Hm. destruct (marker_split m l Hm) as (l2 & El & ->). pose proof (before_from (head l2) l) as E.
  rewrite El in E at 1. apply app_inv_head in E. by rewrite <- E.
Qed.

(** The items a run of [c] on [t] visits, in order. *)
Definition work (t : ChangeTracker) (c : nat) : list nat :=
  visits t c (from (getMarker t c) (changeList_ t)).

Lemma objs_length t l : shape t -> (forall q, q ∈ l -> q ∈ changeList_ t) -> length (objs t l) = length l.
Proof.
  intros Hs Hl. induction l as [|q l IH]; [done|]. rewrite objs_cons.
  destruct (shape_deref t q Hs) as [it Hit]; [apply Hl; left|]. unfold objAt. rewrite Hit. simpl.
  rewrite IH; [done|]. intros; apply Hl; by right.
Qed.

Lemma visits_incl t c l q : q ∈ visits t c l -> q ∈ l.
Proof.
  destruct l as [|p l]; [done|]. simpl. intros [->|[_ ?]%list_elem_of_filter]%elem_of_cons; [left|by right].
Qed.

Lemma frame_visits t t' c l : frame t t' -> visits t' c l = visits t c l.
Proof.
  intros Hf. destruct l as [|p l]; [done|]. simpl. f_equal. apply filter_ext_in. intros q _.
  by rewrite (fr_pos _ _ Hf), (frame_bitAt _ _ _ _ Hf).
Qed.

Lemma visits_length t c l : (length (visits t c l) <= length l)%nat.
Proof.
  destruct l as [|p l]; [done|]. simpl. pose proof (length_filter (fun q => bitAt t q (getBitPosition t c) = true) l). lia.
Qed.

Lemma work_length t c : (length (work t c) <= length (changeList_ t))%nat.
Proof.
  unfold work. etrans; [apply visits_length|]. rewrite (before_from (getMarker t c) (changeList_ t)) at 2.
  rewrite length_app. lia.
Qed.

(** The end of a run: the consumer is linked at its marker again. *)
Lemma end_ok c l1 l2 t : iterating c l1 l2 t ->
  exists t', end_ c t = Ok t' /\ core None None t' /\ frame t t' /\
    (forall d, d <> c -> consumer t' d = consumer t d) /\ getMarker t' c = getMarker t c.
Proof.
  intros [Hco Hh Hm Hl Hclr Hrd]. unfold end_. rewrite Hm.
  destruct l2 as [|n l2]; simpl in Hm |- *.
  - exists t. split_and!; [done| |done|done|done]. apply core_place with c; [done|].
    constructor; [by rewrite Hm, Hh|by rewrite Hm| |done].
    rewrite Hm. simpl. intros q. rewrite Hl, app_nil_r. apply Hclr.
  - destruct (link_ok c n t) as (t' & Hpu & Hco' & Hf & Ho); [done| |done|done| | |].
    + rewrite Hl. apply elem_of_app. right. left.
    + destruct (isInReadyList t c); [|done]. by specialize (Hrd eq_refl).
    + rewrite Hl. intros q. pose proof (sh_nodup _ (co_shape _ _ _ Hco)) as Hnd.
      rewrite Hl in Hnd. pose proof (before_head l1 (n :: l2) Hnd) as Hbh.
      change (before (Some n) (l1 ++ n :: l2)) with (before (head (n :: l2)) (l1 ++ n :: l2)).
      rewrite Hbh. apply Hclr.
    + exists t'. split_and!; [done|done|done|intros d Hd; by apply (only_ne _ _ _ _ _ Ho)|].
      unfold getMarker in *. by rewrite (only_eq _ _ _ _ Ho).
Qed.

(** The beginning: the consumer is taken off its item. *)
Lemma begin_ok c p t : core None None t -> getMarker t c = Some p ->
  exists t', removePendingConsumer p c t = Ok t' /\ frame t t' /\
    iterating c (before (getMarker t c) (changeList_ t)) (from (getMarker t c) (changeList_ t)) t' /\
    only c (detached (consumer t c)) t t'.
Proof.
  intros Hco Em. pose proof (co_placed _ _ _ Hco c ltac:(done)) as Hc.
  destruct (detach_ok c p t Hco Em) as (t1 & Hrm & Hco1 & Hf1 & Hon1).
  pose proof (only_eq _ _ _ _ Hon1) as Hc1. exists t1. split_and!; [done|done| |done].
  constructor; [done|unfold hook; by rewrite Hc1| | | |].
  - rewrite from_head by apply (pl_marker t c Hc). unfold getMarker. by rewrite Hc1.
  - rewrite (fr_list _ _ Hf1). apply before_from.
  - intros q Hq. rewrite (fr_pos _ _ Hf1), (frame_bitAt _ _ _ _ Hf1). by apply (pl_behind t c Hc).
  - unfold isInReadyList. rewrite Hc1. simpl. intros Hfl. apply (pl_ready t c Hc) in Hfl. congruence.
Qed.

Lemma work_incl t c q : q ∈ work t c -> q ∈ changeList_ t.
Proof.
  intros Hq%visits_incl. rewrite (before_from (getMarker t c)). apply elem_of_app. by right.
Qed.

Lemma work_owned t c q : placed t c -> q ∈ changeList_ t -> bitAt t q (getBitPosition t c) = true ->
  q ∈ work t c.
Proof.
  intros Hp Hq Hb. rewrite (before_from (getMarker t c)) in Hq. apply elem_of_app in Hq as [Hq|Hq].
  - rewrite (pl_behind t c Hp q Hq) in Hb. done.
  - unfold work. destruct (from _ _) as [|p l]; [by apply elem_of_nil in Hq|]. simpl.
    apply elem_of_cons in Hq as [->|Hq]; [left|]. right. by apply list_elem_of_filter.
Qed.

Section IterateOk.
Context {S_ : Type}.
Variable cb : S_ -> nat -> ProcessResult * S_.

Lemma iterate_stop u (W : list nat) k r : (forall v, u = Some v -> v ∈ W) ->
  (r = CONTINUE -> k = length (before u W)) ->
  match r with CONTINUE => negb (bool_decide (head (drop k W) = u)) | YIELD => false end = false.
Proof.
  intros Hu Hk. destruct r; [|done]. rewrite (Hk eq_refl). fold (from u W).
  rewrite from_head by done. by rewrite bool_decide_true.
Qed.

Lemma iterate_ok c u s t : tracker_ok t ->
  (forall v, u = Some v -> v ∈ changeList_ t) ->
  (forall v, u = Some v -> bitAt t v (getBitPosition t c) = true) ->
  exists r s' k t', iterateChangesUntilExcluding cb c u s t = Ok (false, s', t') /\
    deliver cb s (objs t (before u (work t c))) = (r, s', k) /\
    tracker_ok t' /\ getMarker t' c = head (drop k (work t c)) /\
    acked (Some c) (bits_of (getBitPosition t c) (take k (work t c))) t t'.
Proof.
  intros Hok Hu Hub. pose proof Hok as [Hco Hr]. pose proof (co_placed _ _ _ Hco c ltac:(done)) as Hc.
  assert (Hui : forall v, u = Some v -> v ∈ work t c) by (intros v Hv; apply work_owned; auto).
  unfold iterateChangesUntilExcluding.
  assert (Hown : match u with
                 | None => Ok true
                 | Some v => let* it := deref t v in Ok (isBitSet (consumerBitmap it) (getBitPosition t c))
                 end = (Ok true : tracked bool)).
  { destruct u as [v|]; [|done]. destruct (shape_deref t v (co_shape _ _ _ Hco) (Hu v eq_refl)) as [it Hit].
    specialize (Hub v eq_refl). rewrite (deref_Some _ _ _ Hit). cbn [rbind]. rewrite isBitSet_bit_of.
    unfold bitAt in Hub. by rewrite Hit in Hub; rewrite Hub. }
  rewrite Hown. cbn [rbind negb]. unfold begin, next.
  destruct (getMarker t c) as [p|] eqn:Em.
  - destruct (begin_ok c p t Hco Em) as (t1 & Hrm & Hf1 & Hir & Hon1). rewrite Hrm. cbn [rbind].
    assert (HW : visits t1 c (from (getMarker t c) (changeList_ t)) = work t c) by by apply frame_visits.
    assert (Hpos1 : positions_ok t1).
    { eapply positions_same; [by apply frame_same_registry|by apply registry_positions]. }
    destruct (iterateLoop_ok cb c u (work t c) (S (length (changeList_ t1))) _ _ s t1 Hir Hpos1 HW)
      as (r & s' & k & t2 & l1 & l2 & Hlp & Hd & Hir2 & Hhd & Hak2).
    { rewrite (fr_list _ _ Hf1). apply le_S, work_length. }
    rewrite Hlp. cbn [rbind].
    assert (Eobj : objs t1 (before u (work t c)) = objs t (before u (work t c))) by by apply frame_objs.
    rewrite Eobj in Hd. rewrite (fr_pos _ _ Hf1) in Hak2.
    assert (Hak12 : acked (Some c) (bits_of (getBitPosition t c) (take k (work t c))) t t2).
    { eapply acked_before; [|eapply acked_only; [apply Hco|done..]|done]. done. }
    assert (Hm2 : getMarker t2 c = head (drop k (work t c))) by (by rewrite (ir_marker _ _ _ _ Hir2)).
    destruct (end_ok c l1 l2 t2 Hir2) as (t3 & He & Hco3 & Hf3 & Hne3 & Hm3). rewrite He. cbn [rbind].
    rewrite Hm3, Hm2. exists r, s', k, t3.
    assert (Hak : acked (Some c) (bits_of (getBitPosition t c) (take k (work t c))) t t3).
    { eapply acked_after; [|done|apply acked_frame; [apply Hir2|done|]]; [done|].
      intros d Hd0. apply Hne3. congruence. }
    rewrite (iterate_stop u (work t c) k r Hui).
    + split; [done|]. split; [done|]. split; [split; [done|]|by rewrite Hm3, Hm2].
      apply (registry_acked c _ t t3 Hco Hak); [|done].
      intros Hn. apply (rg_idle t Hr) in Hn as [? _]. congruence.
    + intros ->. apply deliver_continue in Hd as [_ Hk]. rewrite (Hk eq_refl). apply objs_length; [apply Hco|].
      intros q Hq%before_incl. by eapply work_incl.
  - assert (EW : work t c = []) by (unfold work; rewrite Em; unfold from; simpl; by rewrite drop_all).
    assert (Hun : u = None). { destruct u as [v|]; [|done]. specialize (Hui v eq_refl). rewrite EW in Hui. by apply elem_of_nil in Hui. }
    subst u. exists CONTINUE, s, O, t. cbn [rbind]. rewrite Em. simpl. unfold end_. rewrite Em. cbn [rbind].
    rewrite Em, bool_decide_true by done. rewrite EW. split_and!; [done|done|done|done|].
    apply acked_frame; [apply Hco|done|done].
Qed.
End IterateOk.

(** ** Publishing *)

Lemma push_set_ready p c r t : pushPendingConsumer p c (set_ready t r) =
  (let* t' := pushPendingConsumer p c t in Ok (set_ready t' r)).
Proof.
  unfold pushPendingConsumer. change (deref (set_ready t r) p) with (deref t p).
  destruct (deref t p) as [it|x|]; [|done|done]. cbn [rbind].
  change (hook (set_ready t r) c) with (hook t c). by destruct (hook t c).
Qed.

(** Where [notifyReadyConsumers] puts a consumer. *)
Definition notified (p : nat) (C : Consumer) : Consumer :=
  mkConsumer (bitPosition_ C) (Some p) false (Some p).

Lemma notifyReady_step p c cs t : pended (set_ready t ({[c]} ∪ list_to_set cs)) ->
  is_Some (items t !! p) -> (c ∉ cs) -> hook t c = None ->
  exists t', notifyReadyConsumer p c t = Ok t' /\ frame t t' /\ pended (set_ready t' (list_to_set cs)) /\
    only c (notified p (consumer t c)) t t'.
Proof.
  intros Hp Hit Hc Hh. set (r := {[c]} ∪ list_to_set cs) in *.
  destruct (setMarker_ok c (Some p) (set_ready t r) Hp) as (Hf1 & Hp1 & Ho1).
  set (u1 := setMarker c (Some p) (set_ready t r)) in *.
  destruct (pushPending_ok p c u1) as (u2 & Hpu & Hf2 & Hp2 & Hr2 & Ho2); [done|done| |].
  { unfold hook. rewrite (only_eq _ _ _ _ Ho1). exact Hh. }
  destruct (removeFromReady_ok c u2 Hp2) as (Hf3 & Hp3 & _ & Ho3).
  unfold notifyReadyConsumer. change u1 with (set_ready (setMarker c (Some p) t) r) in Hpu.
  rewrite push_set_ready in Hpu. destruct (pushPendingConsumer p c (setMarker c (Some p) t)) as [t2|x|]; [|done|done].
  cbn [rbind] in *. simplify_eq. eexists. split; [done|].
  assert (Hfl : isInReadyList (set_ready t2 r) c = true).
  { apply (pd_ready _ Hp2). simpl. unfold r. set_solver. }
  unfold removeFromReadyConsumers in *. rewrite Hfl in *.
  assert (Er : readyConsumers_ (set_ready t2 r) ∖ {[c]} = list_to_set cs) by (simpl; unfold r; set_solver).
  rewrite Er in *. split_and!.
  - assert (Hf12 : frame (set_ready t r) (set_ready t2 r)) by (by trans u1).
    constructor; try apply Hf12. intros d. views. pose proof (fr_pos _ _ Hf12 d) as E.
    change (getBitPosition t2 d = getBitPosition t d) in E. by case_decide; subst.
  - exact Hp3.
  - pose proof (only_trans _ _ _ _ _ _ (only_trans _ _ _ _ _ _ Ho1 Ho2) Ho3) as Ho.
    rewrite (only_eq _ _ _ _ Ho2), (only_eq _ _ _ _ Ho1) in Ho. exact Ho.
Qed.

Lemma notifyEach_ok p cs : forall t, pended (set_ready t (list_to_set cs)) -> is_Some (items t !! p) ->
  NoDup cs -> (forall c, c ∈ cs -> hook t c = None) ->
  exists t', notifyEach p cs t = Ok t' /\ frame t t' /\ pended (set_ready t' ∅) /\
    forall d, consumer t' d = if decide (d ∈ cs) then notified p (consumer t d) else consumer t d.
Proof.
  induction cs as [|c cs IH]; intros t Hp Hit Hnd Hh.
  - exists t. split_and!; [done|done|done|]. intros d. by rewrite decide_False by apply not_elem_of_nil.
  - apply NoDup_cons in Hnd as [Hc Hnd].
    destruct (notifyReady_step p c cs t) as (t1 & Hn & Hf1 & Hp1 & Ho1); [done|done|done|apply Hh; left|].
    destruct (IH t1) as (t' & Hn' & Hf' & Hp' & Hc'); [done|by apply (frame_is_Some t)|done| |].
    { intros d Hd. unfold hook. rewrite (only_ne _ _ _ _ _ Ho1); [apply Hh; by right|]. by intros ->. }
    exists t'. cbn [notifyEach]. rewrite Hn. cbn [rbind]. split_and!; [done|by trans t1|done|].
    intros d. rewrite Hc', Ho1. destruct (decide (d = c)) as [->|Hdc].
    + rewrite decide_False by done. by rewrite decide_True by left.
    + destruct (decide (d ∈ cs)); [by rewrite decide_True by (by right)|].
      rewrite decide_False; [done|]. by intros [?|?]%elem_of_cons.
Qed.

Lemma notifyReadyConsumers_ok p t : pended t -> is_Some (items t !! p) ->
  (forall c, c ∈ readyConsumers_ t -> hook t c = None) ->
  exists t', notifyReadyConsumers p t = Ok t' /\ frame t t' /\ pended t' /\
    forall d, consumer t' d = if isInReadyList t d then notified p (consumer t d) else consumer t d.
Proof.
  intros Hp Hit Hh. unfold notifyReadyConsumers.
  destruct (notifyEach_ok p (elements (readyConsumers_ t)) t) as (t' & Hn & Hf & Hp' & Hc).
  - rewrite list_to_set_elements_L. by destruct t.
  - done.
  - apply NoDup_elements.
  - intros c Hc%elem_of_elements. by apply Hh.
  - rewrite Hn. cbn [rbind]. eexists. split; [done|]. split_and!.
    + by trans t'.
    + done.
    + intros d. change (consumer (set_ready t' ∅) d) with (consumer t' d). rewrite Hc.
      pose proof (pd_ready t Hp d) as Hr. rewrite <- elem_of_elements in Hr.
      destruct (isInReadyList t d); case_decide; naive_solver.
Qed.

(** The state [publishChange] hands to [notifyReadyConsumers]: [p] was appended to
    [l], where every consumer stands right except that the ready ones do not
    know of [p] yet. *)
Record standing (p : nat) (l : list nat) (t : ChangeTracker) (d : nat) : Prop := {
  st_hook : hook t d = getMarker t d;
  st_marker : forall q, getMarker t d = Some q -> q ∈ l ++ [p];
  st_behind : forall q, q ∈ before (getMarker t d) l -> bitAt t q (getBitPosition t d) = false;
  st_ready : isInReadyList t d = true -> getMarker t d = None;
  st_idle : getMarker t d = None -> isInReadyList t d = false -> bitAt t p (getBitPosition t d) = false
}.

Record appended (p : nat) (l : list nat) (t : ChangeTracker) : Prop := {
  ap_shape : shape t;
  ap_pended : pended t;
  ap_owned : owned None t;
  ap_list : changeList_ t = l ++ [p];
  ap_standing : forall d, standing p l t d
}.

Lemma before_append p m l : p ∉ l -> (forall q, m = Some q -> q ∈ l ++ [p]) -> m <> None ->
  before m (l ++ [p]) = before m l.
Proof.
  intros Hp Hm Hn. destruct m as [q|]; [|done]. specialize (Hm q eq_refl).
  destruct (decide (q ∈ l)) as [Hq|Hq]; [by apply before_app_in|].
  apply elem_of_app in Hm as [|Hm]; [done|]. apply list_elem_of_singleton in Hm as ->. simpl.
  rewrite before_in_app by done. simpl. rewrite decide_True by done.
  rewrite <- (app_nil_r l) at 2. by rewrite before_in_app.
Qed.

Lemma appended_notin p l t : appended p l t -> p ∉ l.
Proof.
  intros Ha Hp. pose proof (sh_nodup _ (ap_shape _ _ _ Ha)) as Hnd. rewrite (ap_list _ _ _ Ha) in Hnd.
  apply NoDup_app in Hnd as (_ & H & _). apply (H p Hp). left.
Qed.

Lemma publish_finish p l t : appended p l t -> registry t ->
  exists t', notifyReadyConsumers p t = Ok t' /\ tracker_ok t' /\ frame t t' /\
    forall d, isInReadyList t d = false -> consumer t' d = consumer t d.
Proof.
  intros Ha Hr. pose proof (ap_shape _ _ _ Ha) as Hs. pose proof (ap_pended _ _ _ Ha) as Hp.
  pose proof (appended_notin _ _ _ Ha) as Hnp.
  destruct (notifyReadyConsumers_ok p t Hp) as (t' & Hn & Hf & Hp' & Hc).
  { apply (sh_items t Hs). rewrite (ap_list _ _ _ Ha). apply elem_of_app. right. left. }
  { intros c Hc%(pd_ready t Hp). destruct (ap_standing _ _ _ Ha c) as [-> _ _ H _]. auto. }
  exists t'. split; [done|]. split; [split|split; [done|]].
  - constructor; [by eapply shape_frame|done| |by eapply owned_frame; [|apply Ha]]. intros d _.
    destruct (ap_standing _ _ _ Ha d) as [H1 H2 H3 H4 H5]. specialize (Hc d).
    unfold hook, getMarker, isInReadyList, getBitPosition in *.
    constructor; unfold hook, getMarker, isInReadyList, getBitPosition; rewrite ?(fr_list _ _ Hf), ?(ap_list _ _ _ Ha);
      destruct (isInReadyList_ (consumer t d)) eqn:Efl; rewrite Hc; try done.
    + simpl. intros q [= <-]. apply elem_of_app. right. left.
    + cbn [notified marker_ bitPosition_]. rewrite before_append; [|done| |done].
      * intros q Hq. rewrite (frame_bitAt _ _ _ _ Hf). apply H3. rewrite (H4 eq_refl). simpl.
        simpl in Hq. rewrite <- (app_nil_r l), before_in_app, app_nil_r in Hq; done.
      * intros q [= <-]. apply elem_of_app. right. left.
    + intros q Hq. rewrite (frame_bitAt _ _ _ _ Hf).
      destruct (marker_ (consumer t d)) as [m|] eqn:Em.
      * apply H3. by rewrite <- (before_append p); [..|done].
      * simpl in Hq. apply elem_of_app in Hq as [Hq|Hq]; [by apply H3|].
        apply list_elem_of_singleton in Hq as ->. auto.
    + by rewrite Efl.
  - apply (registry_same t); [by apply frame_same_registry| |done]. intros c Hcn. rewrite Hc.
    by destruct (rg_idle t Hr c Hcn) as [_ ->].
  - intros d Hd. rewrite Hc. by rewrite Hd.
Qed.

(** The consumers a publication may be addressed to: registered, and ready or at
    an item. *)
Definition addressable (t : ChangeTracker) (bm : ConsumerBitmap) : Prop :=
  wf_bitmap bm /\ forall b, 0 <= b -> bit_of bm b = true ->
    b <> npos /\ exists c, getBitPosition t c = b /\ (getMarker t c <> None \/ isInReadyList t c = true).

Lemma addressable_idle t bm d : registry t -> addressable t bm -> getMarker t d = None ->
  isInReadyList t d = false -> bit_of bm (getBitPosition t d) = false.
Proof.
  intros Hr [_ Ha] Hm Hf. destruct (bit_of bm (getBitPosition t d)) eqn:E; [|done].
  destruct (Ha _ (registry_positions t Hr d) E) as (Hn & c & Hc & Hact).
  assert (d = c) as ->; [|destruct Hact; congruence]. by apply (registry_inj t).
Qed.

(** *** A new item *)

Lemma publish_new o bm t : tracker_ok t -> addressable t bm -> changeItem_ t !! o = None ->
  isAllBitsCleared bm = false ->
  let p := nextItem_ t in
  let t2 := set_list (snd (createChangeItem o bm t)) (changeList_ t ++ [p]) in
  appended p (changeList_ t) t2 /\ registry t2.
Proof.
  intros [Hco Hr] Ha Ho Hne p t2. pose proof (co_shape _ _ _ Hco) as Hs.
  assert (Hp : items t !! p = None).
  { destruct (items t !! p) eqn:E; [|done]. assert (p ∈ changeList_ t) as H by (apply Hs; eauto).
    apply (sh_fresh t Hs) in H. unfold p in H. lia. }
  assert (Hpl : p ∉ changeList_ t) by (rewrite (sh_items t Hs), Hp; by intros []).
  assert (Hlk : forall q, items t2 !! q = if decide (q = p) then Some (mkItem o bm []) else items t !! q).
  { intros q. unfold t2. simpl. case_decide; [subst; by rewrite lookup_insert_eq|by rewrite lookup_insert_ne]. }
  assert (Hbit : forall q b, bitAt t2 q b = if decide (q = p) then bit_of bm b else bitAt t q b).
  { intros q b. unfold bitAt. rewrite Hlk. by case_decide. }
  split; [constructor|by apply (registry_same t)].
  - constructor.
    + simpl. apply NoDup_app. split_and!; [apply Hs| |apply NoDup_singleton].
      intros q Hq ->%list_elem_of_singleton. done.
    + intros q. rewrite Hlk. simpl. rewrite elem_of_app, list_elem_of_singleton, (sh_items t Hs).
      fold p. case_decide; [subst; naive_solver|]. naive_solver.
    + intros o' q. rewrite Hlk. simpl. fold p. destruct (decide (o' = o)) as [->|].
      * rewrite lookup_insert_eq. case_decide; [subst; naive_solver|]. split; [naive_solver|].
        intros Hq. apply (sh_obj t Hs) in Hq. congruence.
      * rewrite lookup_insert_ne by done. rewrite (sh_obj t Hs). case_decide; [subst q|done].
        rewrite Hp. naive_solver.
    + intros q it. rewrite Hlk. case_decide; [intros [= <-]; apply Ha|apply Hs].
    + intros q. simpl. intros [Hq|Hq]%elem_of_app.
      * apply (sh_fresh t Hs) in Hq. lia.
      * apply list_elem_of_singleton in Hq. subst q. unfold p. lia.
  - constructor; [|intros q|apply Hco].
    + intros q c. unfold pend. rewrite Hlk. case_decide; [|apply Hco]. subst q. simpl. rewrite elem_of_nil.
      split; [done|]. intros Hh. change (hook t2 c) with (hook t c) in Hh.
      apply (pd_hook t (co_pended _ _ _ Hco)) in Hh. unfold pend in Hh. rewrite Hp in Hh. by apply elem_of_nil in Hh.
    + unfold pend. rewrite Hlk. case_decide; [constructor|apply Hco].
  - constructor.
    + intros q Hq _. setoid_rewrite Hbit. case_decide; [by apply not_cleared_bit; [apply Ha|]|].
      apply (ow_some _ _ (co_owned _ _ _ Hco)); [|done]. simpl in Hq.
      apply elem_of_app in Hq as [|Hq]; [done|]. by apply list_elem_of_singleton in Hq.
    + intros q b Hb. rewrite Hbit. case_decide; [|by apply (ow_reg _ _ (co_owned _ _ _ Hco) q)].
      intros Hbm. destruct (proj2 Ha b Hb Hbm) as (? & c & ? & _). split; [done|]. by exists c.
  - done.
  - intros d. destruct (co_placed _ _ _ Hco d ltac:(done)) as [H1 H2 H3 H4]. constructor; try done.
    + intros q Hq. apply elem_of_app. left. by apply H2.
    + intros q Hq. rewrite Hbit. change (getBitPosition t2 d) with (getBitPosition t d).
      rewrite decide_False; [by apply H3|]. intros ->. by apply before_incl in Hq.
    + intros Hm Hf. rewrite Hbit, decide_True by done. exact (addressable_idle t bm d Hr Ha Hm Hf).
Qed.

(** *** An item that is in the list already *)

(** Consumers that waited at [p] are where they should be without [p]. *)
Lemma passed_standing p t t' d : shape t -> p ∈ changeList_ t -> placed t d ->
  consumer t' d = passed p (changeList_ t) t d ->
  (forall q, q <> p -> bitAt t' q (getBitPosition t d) = bitAt t q (getBitPosition t d)) ->
  (getMarker t d = None -> isInReadyList t d = false -> bitAt t' p (getBitPosition t d) = false) ->
  standing p (filter (fun q => q <> p) (changeList_ t)) t' d.
Proof.
  intros Hs Hin [Hh Hm Hb Hr] Hc Hbit Hidle. unfold passed in Hc.
  assert (Hpos : getBitPosition t' d = getBitPosition t d).
  { unfold getBitPosition. rewrite Hc. by case_decide. }
  destruct (decide (hook t d = Some p)) as [Hd|Hd].
  - assert (Hmk : getMarker t' d = next_in p (changeList_ t)) by (unfold getMarker; by rewrite Hc).
    constructor; rewrite ?Hmk, ?Hpos.
    + unfold hook. by rewrite Hc.
    + intros q Hq. apply elem_of_app. left. apply list_elem_of_filter.
      apply next_in_Some in Hq; [tauto|apply Hs].
    + intros q. rewrite before_next_erase by (done || apply Hs). intros Hq. rewrite Hbit.
      * apply Hb. by rewrite <- Hh, Hd.
      * intros ->. destruct (nodup_split p _ (sh_nodup t Hs) Hin) as (l1 & l2 & E & H1 & H2).
        rewrite E, before_split in Hq by done. done.
    + unfold isInReadyList. rewrite Hc. simpl. destruct (next_in p (changeList_ t)); [|done].
      intros Hf. specialize (Hr Hf). congruence.
    + intros Hn. unfold isInReadyList. rewrite Hc. simpl. by rewrite Hn.
  - constructor; unfold hook, getMarker, isInReadyList, getBitPosition in *; rewrite ?Hc; try done; try by auto.
    + intros q Hq. apply elem_of_app. left. apply list_elem_of_filter. split; [congruence|auto].
    + intros q. rewrite before_erase by congruence. rewrite list_elem_of_filter. intros [Hqp Hq].
      rewrite Hbit by done. auto.
Qed.

Lemma singleton_standing p t t' d : changeList_ t = [p] -> placed t d -> consumer t' d = consumer t d ->
  (getMarker t d = None -> isInReadyList t d = false -> bitAt t' p (getBitPosition t d) = false) ->
  standing p [] t' d.
Proof.
  intros Hl [Hh Hm Hb Hr] Hc Hidle. unfold hook, getMarker, isInReadyList, getBitPosition in *.
  constructor; unfold hook, getMarker, isInReadyList, getBitPosition; rewrite ?Hc; try done; try by auto.
  - intros q Hq. apply Hm in Hq. by rewrite Hl in Hq.
  - intros q Hq. apply before_incl in Hq. by apply elem_of_nil in Hq.
Qed.

Lemma publish_moved p t : tracker_ok t -> p ∈ changeList_ t -> exists t1,
  (if item_is_linked p t then
     let* t := if changeListHasOnlyOneItem t then Ok t else updateItemPendingConsumers p t in
     Ok (erase_list p t)
   else Ok t) = Ok (erase_list p t1) /\ frame t t1 /\ pended t1 /\
  (forall d, getBitPosition t d = npos -> consumer t1 d = consumer t d) /\
  forall t' d, consumer t' d = consumer t1 d ->
    (forall q, q <> p -> bitAt t' q (getBitPosition t d) = bitAt t q (getBitPosition t d)) ->
    (getMarker t d = None -> isInReadyList t d = false -> bitAt t' p (getBitPosition t d) = false) ->
    standing p (filter (fun q => q <> p) (changeList_ t)) t' d.
Proof.
  intros [Hco Hr] Hin. unfold item_is_linked. rewrite bool_decide_true by done.
  destruct (changeListHasOnlyOneItem t) eqn:E1; cbn [rbind].
  - exists t. split_and!; [done|done|apply Hco|done|]. intros t' d Hc _ Hi.
    assert (Hl : changeList_ t = [p]).
    { unfold changeListHasOnlyOneItem in E1. destruct (changeList_ t) as [|q [|]]; [done| |done].
      apply list_elem_of_singleton in Hin. by subst. }
    rewrite Hl. change [p] with ([] ++ p :: []). rewrite filter_neq_split by apply not_elem_of_nil.
    apply (singleton_standing p t); [done|by apply (co_placed _ _ _ Hco)|done|done].
  - destruct (updateItemPending_ok p t (co_shape _ _ _ Hco) (co_pended _ _ _ Hco) Hin) as (t1 & Hu & Hf & Hp & Hc).
    rewrite Hu. cbn [rbind]. exists t1. split_and!; [done|done|done| |].
    + intros d Hd. rewrite Hc. unfold passed. rewrite decide_False; [done|].
      rewrite (pl_hook t d (co_placed _ _ _ Hco d ltac:(done))). destruct (rg_idle t Hr d Hd) as [-> _]. done.
    + intros t' d Hc' Hb Hi. apply passed_standing; [apply Hco|done|by apply (co_placed _ _ _ Hco)|by rewrite Hc'|done|done].
Qed.

Lemma publish_old o p bm t : tracker_ok t -> addressable t bm -> changeItem_ t !! o = Some p ->
  exists t1, moveToEnd p bm t = Ok t1 /\
    let t2 := set_list t1 (changeList_ t1 ++ [p]) in
    appended p (filter (fun q => q <> p) (changeList_ t)) t2 /\ registry t2 /\
    changeItem_ t2 = changeItem_ t /\ processed t2 = processed t /\
    (forall q, objAt t2 q = objAt t q) /\ (forall d, getBitPosition t2 d = getBitPosition t d) /\
    forall q b, bitAt t2 q b = bitAt t q b || (bool_decide (q = p) && bit_of bm b).
Proof.
  intros Hok Ha Ho. pose proof Hok as [Hco Hr]. pose proof (co_shape _ _ _ Hco) as Hs.
  assert (Hin : p ∈ changeList_ t).
  { apply (sh_items t Hs). apply (sh_obj t Hs) in Ho as (it & ? & _). eauto. }
  destruct (publish_moved p t Hok Hin) as (t1 & Hmv & Hf & Hp1 & Hid & Hst).
  pose proof (shape_frame _ _ Hf Hs) as Hs1.
  destruct (shape_deref t1 p Hs1) as [it Hit]; [by rewrite (fr_list _ _ Hf)|].
  unfold moveToEnd. rewrite Hmv. cbn [rbind]. change (deref (erase_list p t1) p) with (deref t1 p).
  rewrite (deref_Some _ _ _ Hit). cbn [rbind]. unfold setConsumerBitMap.
  change (deref (erase_list p t1) p) with (deref t1 p). rewrite (deref_Some _ _ _ Hit). cbn [rbind].
  set (bm' := orBitmaps (consumerBitmap it) bm). eexists. split; [done|].
  assert (Hwf : wf_bitmap bm') by (apply wf_orBitmaps; [by apply (sh_wf t1 Hs1 p)|apply Ha]).
  set (u := set_item p (with_bitmap it bm') t1).
  set (t2 := set_list _ _). cbv zeta.
  assert (Hsu : shape u) by by apply rebit_shape. assert (Hpu : pended u) by by apply rebit_pended.
  assert (Hl2 : changeList_ t2 = filter (fun q => q <> p) (changeList_ t) ++ [p]).
  { unfold t2. simpl. by rewrite (fr_list _ _ Hf). }
  assert (Hbit : forall q b, bitAt t2 q b = bitAt t q b || (bool_decide (q = p) && bit_of bm b)).
  { intros q b. change (bitAt t2 q b) with (bitAt u q b). unfold u. rewrite bitAt_set_item. case_decide.
    - subst q. cbn [consumerBitmap with_bitmap]. unfold bm'. rewrite bit_of_orBitmaps, bool_decide_true by done.
      rewrite <- (frame_bitAt _ _ _ _ Hf). unfold bitAt. by rewrite Hit.
    - rewrite bool_decide_false by done. by rewrite orb_false_r, (frame_bitAt _ _ _ _ Hf). }
  assert (Hmem : forall q, q ∈ changeList_ t2 <-> q ∈ changeList_ t).
  { intros q. rewrite Hl2, elem_of_app, list_elem_of_filter, list_elem_of_singleton.
    destruct (decide (q = p)) as [->|]; tauto. }
  split_and!; [constructor| |apply (fr_obj _ _ Hf)|apply (fr_proc _ _ Hf)| |apply (fr_pos _ _ Hf)|done].
  - constructor; [|intros q; rewrite Hmem|apply Hsu|apply Hsu|intros q; rewrite Hmem].
    + rewrite Hl2. apply NoDup_app. split_and!; [apply NoDup_filter, Hs| |apply NoDup_singleton].
      intros q [? _]%list_elem_of_filter ?%list_elem_of_singleton. done.
    + rewrite <- (fr_list _ _ Hf). apply (sh_items u Hsu).
    + rewrite <- (fr_list _ _ Hf). apply (sh_fresh u Hsu).
  - destruct Hpu. by constructor.
  - constructor.
    + intros q Hq%Hmem _. destruct (ow_some _ _ (co_owned _ _ _ Hco) q Hq ltac:(done)) as (b & ? & Hb).
      exists b. by rewrite Hbit, Hb.
    + intros q b Hb. rewrite Hbit, orb_true_iff, andb_true_iff. setoid_rewrite (fr_pos _ _ Hf : forall d, getBitPosition t2 d = _).
      intros [H|[_ H]]; [by apply (ow_reg _ _ (co_owned _ _ _ Hco) q)|].
      destruct (proj2 Ha b Hb H) as (? & c & ? & _). split; [done|]. by exists c.
  - done.
  - intros d. apply Hst; [done| |].
    + intros q Hq. rewrite Hbit, bool_decide_false by done. apply orb_false_r.
    + intros Hm Hfl. rewrite Hbit, bool_decide_true by done. rewrite (addressable_idle t bm d) by done.
      rewrite orb_false_r. apply (pl_behind t d (co_placed _ _ _ Hco d ltac:(done))). by rewrite Hm.
  - apply (registry_same t); [|done|done]. destruct Hf. by constructor.
  - intros q. change (objAt t2 q) with (objAt u q). rewrite <- (frame_objAt _ _ _ Hf). by apply rebit_objAt.
Qed.

Lemma publish_ok o bm t : tracker_ok t -> addressable t bm ->
  exists t', publishChange (Some o) bm t = Ok t' /\ tracker_ok t' /\
    if shouldSkipChangePublication o bm t then t' = callProducer o t
    else exists p, changeItem_ t' = <[o := p]> (changeItem_ t) /\
      objAt t' p = Some o /\
      changeList_ t' = filter (fun q => q <> p) (changeList_ t) ++ [p] /\
      processed t' = processed t /\
      (forall d, getBitPosition t' d = getBitPosition t d) /\
      (forall q, q <> p -> objAt t' q = objAt t q) /\
      (forall q o', objAt t q = Some o' -> o' = o <-> q = p) /\
      forall q b, bitAt t' q b = bitAt t q b || (bool_decide (q = p) && bit_of bm b).
Proof.
  intros Hok Ha. pose proof Hok as [Hco Hr]. pose proof (co_shape _ _ _ Hco) as Hs.
  unfold publishChange. destruct (shouldSkipChangePublication o bm t) eqn:Esk.
  { exists (callProducer o t). split_and!; [done| |done]. destruct Hok as [Hc1 Hr1].
    split; [|destruct Hr1; by constructor]. destruct Hc1 as [[] [] Hpl []]. constructor; [by constructor..| |by constructor].
    intros d Hd. destruct (Hpl d Hd). by constructor. }
  apply orb_false_iff in Esk as [_ Esk]. unfold isOnChangeList in Esk.
  destruct (changeItem_ t !! o) as [p|] eqn:Ep.
  - destruct (publish_old o p bm t Hok Ha Ep) as (t1 & Hmv & Hap & Hr2 & E1 & E2 & E3 & E4 & E5).
    rewrite Hmv. cbn [rbind]. destruct (publish_finish _ _ _ Hap Hr2) as (t' & Hn & Hok' & Hf & _).
    exists t'. split; [done|]. split; [done|]. exists p.
    pose proof (sh_obj t Hs o p) as Hob. destruct (proj1 Hob Ep) as (it & Hit & Eo).
    split_and!.
    + by rewrite (fr_obj _ _ Hf), E1, insert_id.
    + rewrite (frame_objAt _ _ _ Hf), E3. unfold objAt. rewrite Hit. simpl. by rewrite Eo.
    + by rewrite (fr_list _ _ Hf), (ap_list _ _ _ Hap).
    + by rewrite (fr_proc _ _ Hf), E2.
    + intros d. by rewrite (fr_pos _ _ Hf), E4.
    + intros q _. by rewrite (frame_objAt _ _ _ Hf), E3.
    + intros q o' Hq. unfold objAt in Hq. apply fmap_Some in Hq as (it' & ? & ?).
      assert (changeItem_ t !! o' = Some q) by (apply (sh_obj t Hs); by exists it').
      split; [congruence|]. intros ->. congruence.
    + intros q b. by rewrite (frame_bitAt _ _ _ _ Hf), E5.
  - simpl in Esk. cbn [rbind createChangeItem].
    destruct (publish_new o bm t Hok Ha Ep Esk) as [Hap Hr2].
    destruct (publish_finish _ _ _ Hap Hr2) as (t' & Hn & Hok' & Hf & _).
    exists t'. split; [done|]. split; [done|]. exists (nextItem_ t).
    assert (Hnp : items t !! nextItem_ t = None).
    { destruct (items t !! nextItem_ t) eqn:E; [|done].
      assert (nextItem_ t ∈ changeList_ t) as H by (apply Hs; eauto). apply (sh_fresh t Hs) in H. lia. }
    assert (Hni : nextItem_ t ∉ changeList_ t) by (rewrite (sh_items t Hs), Hnp; by intros []).
    split_and!.
    + by rewrite (fr_obj _ _ Hf).
    + rewrite (frame_objAt _ _ _ Hf). unfold objAt. simpl. by rewrite lookup_insert_eq.
    + rewrite (fr_list _ _ Hf). simpl. by rewrite filter_neq_notin.
    + by rewrite (fr_proc _ _ Hf).
    + intros d. by rewrite (fr_pos _ _ Hf).
    + intros q Hq. rewrite (frame_objAt _ _ _ Hf). unfold objAt. simpl. by rewrite lookup_insert_ne.
    + intros q o' Hq. unfold objAt in Hq. apply fmap_Some in Hq as (it' & ? & ?).
      assert (changeItem_ t !! o' = Some q) by (apply (sh_obj t Hs); by exists it').
      split; congruence.
    + intros q b. rewrite (frame_bitAt _ _ _ _ Hf). unfold bitAt. simpl. destruct (decide (q = nextItem_ t)) as [->|].
      * by rewrite lookup_insert_eq, Hnp, bool_decide_true.
      * by rewrite lookup_insert_ne, bool_decide_false, orb_false_r.
Qed.

(** ** Moving a consumer to another's marker *)

Lemma addToReady_core c t : core None None t -> getMarker t c = None -> core None None (addToReadyConsumers c t).
Proof.
  intros Hco Hm. destruct (addToReady_ok c t) as (Hf & Hp & _ & Ho); [apply Hco|].
  apply core_place with c; [eapply core_only; [by apply core_except|done..]|].
  destruct (co_placed _ _ _ Hco c ltac:(done)) as [H1 H2 H3 _]. pose proof (only_eq _ _ _ _ Ho) as Hc.
  unfold hook, getMarker, getBitPosition in *.
  constructor; unfold hook, getMarker, getBitPosition; rewrite Hc; try done.
  - by rewrite (fr_list _ _ Hf).
  - intros q. rewrite (fr_list _ _ Hf), (frame_bitAt _ _ _ _ Hf). apply H3.
Qed.

(** The end of both moves: the consumer is linked at its new marker, or ready. *)
Lemma settle_ok c l1 l2 t : iterating c l1 l2 t ->
  exists t', (match head l2 with Some _ => end_ c t | None => Ok (addToReadyConsumers c t) end) = Ok t' /\
    core None None t' /\ frame t t' /\ (forall d, d <> c -> consumer t' d = consumer t d) /\
    getMarker t' c = head l2.
Proof.
  intros Hir. pose proof (ir_marker _ _ _ _ Hir) as Hm.
  destruct (end_ok c l1 l2 t Hir) as (t' & He & Hco & Hf & Hne & Hm').
  destruct (head l2) as [p|] eqn:Eh; [exists t'; split_and!; [done..|congruence]|].
  unfold end_ in He. rewrite Hm in He. injection He as <-.
  destruct (addToReady_ok c t) as (Hf2 & _ & _ & Ho); [apply Hco|]. eexists. split; [done|].
  split_and!; [by apply addToReady_core|done|intros d Hd; by apply (only_ne _ _ _ _ _ Ho)|].
  unfold getMarker in *. by rewrite (only_eq _ _ _ _ Ho).
Qed.

Lemma ackWalk_ok c b g l2 : forall fuel l1 t, core (Some c) None t -> hook t c = None ->
  positions_ok t -> 0 <= b -> changeList_ t = l1 ++ l2 -> (length l2 <= fuel)%nat ->
  (forall q, q ∈ l1 -> bitAt t q b = false) ->
  exists t' l1' k1 k2, ackWalk fuel b g (head l2) t = Ok (head k2, t') /\
    l2 = k1 ++ k2 /\ k1 = before g l2 /\ core (Some c) None t' /\ changeList_ t' = l1' ++ k2 /\
    (forall q, q ∈ l1' -> bitAt t' q b = false) /\
    acked (Some c) (bits_of b k1) t t' /\ consumer t' c = consumer t c.
Proof.
  induction l2 as [|p l2 IH]; intros fuel l1 t Hco Hh Hpos Hb Hl Hf Hclr.
  - exists t, l1, [], []. split_and!; [by destruct fuel|done|by destruct g|done|done|done| |done].
    apply acked_frame; [apply Hco|done|done].
  - assert (Hin : p ∈ changeList_ t) by (rewrite Hl; apply elem_of_app; right; left).
    destruct (shape_deref t p (co_shape _ _ _ Hco) Hin) as [it Hit].
    destruct (decide (Some p = g)) as [<-|Hg].
    { exists t, l1, [], (p :: l2). split_and!; [|done| |done|done|done| |done].
      - cbn [head]. destruct fuel; simpl; by rewrite decide_True.
      - simpl. by rewrite decide_True.
      - apply acked_frame; [apply Hco|done|done]. }
    destruct fuel as [|fuel]; [simpl in Hf; lia|]. simpl in Hf.
    assert (Hstep : exists t1, (if isBitSet (consumerBitmap it) b
                then let* t := markConsumerProcessed p b t in checkAndNotifyProducer p t else Ok t) = Ok t1 /\
              core (Some c) None t1 /\ acked (Some c) (the_bit p b) t t1 /\ consumer t1 c = consumer t c /\
              (changeList_ t1 = changeList_ t \/ changeList_ t1 = filter (fun q => q <> p) (changeList_ t))).
    { rewrite isBitSet_bit_of. assert (Eb : bitAt t p b = bit_of (consumerBitmap it) b) by (unfold bitAt; by rewrite Hit).
      rewrite <- Eb. destruct (bitAt t p b) eqn:E.
      - destruct (ack_ok c p b t Hco Hh Hpos Hb Hin) as (t1 & t2 & Hm & Hck & Hco2 & Hak2 & Hc2 & Hl2).
        exists t2. rewrite Hm. cbn [rbind]. done.
      - exists t. split_and!; [done|done| |done|by left].
        eapply acked_ext; [|apply acked_frame; [apply Hco|done|done]]. intros q b' _ Hq. unfold the_bit.
        destruct (decide (q = p)) as [->|]; [|by rewrite bool_decide_false].
        destruct (Z.eqb_spec b' b) as [->|]; [congruence|by rewrite andb_false_r]. }
    destruct Hstep as (t1 & Hst & Hco1 & Hak1 & Hc1 & Hl1).
    destruct (erase_or_keep _ _ l1 l2 p (sh_nodup t (co_shape _ _ _ Hco)) Hl Hl1) as (Hn & l1' & El & Hl1').
    destruct (IH fuel l1' t1) as (t' & m1 & k1 & k2 & Hw & El2 & Ek & Hco' & Hl' & Hcl' & Hak' & Hc'); try done.
    + unfold hook. by rewrite Hc1.
    + eapply positions_same; [apply Hak1|done].
    + lia.
    + intros q [Hq| ->]%Hl1'; rewrite (ak_bit _ _ _ _ Hak1) by done; unfold the_bit.
      * by rewrite Hclr.
      * by rewrite bool_decide_true, Z.eqb_refl, andb_false_r.
    + exists t', m1, (p :: k1), k2. split_and!; [|by rewrite El2| |done|done|done| |congruence].
      * cbn [ackWalk head]. rewrite decide_False by done. unfold get_next. rewrite (deref_Some _ _ _ Hit).
        cbn [rbind]. rewrite Hst. cbn [rbind]. by rewrite Hn.
      * destruct g as [v|]; [|by rewrite Ek]. simpl. rewrite decide_False by congruence. by rewrite Ek.
      * eapply acked_ext; [|by eapply acked_trans]. intros q b' _ _. simpl. unfold the_bit, bits_of.
        destruct (b' =? b); [|by rewrite !andb_false_r]. rewrite !andb_true_r, <- bool_decide_or.
        apply bool_decide_ext. by rewrite elem_of_cons.
Qed.

(** The items a fast-forward of [s] to [g] skips. *)
Definition skipped (t : ChangeTracker) (s g : nat) : list nat :=
  before (getMarker t g) (from (getMarker t s) (changeList_ t)).

Lemma attachAhead_ok s g t : tracker_ok t -> getBitPosition t s <> npos ->
  exists t', attachToMarkerAhead (Some s) (Some g) t = Ok t' /\ tracker_ok t' /\
    acked (Some s) (bits_of (getBitPosition t s) (skipped t s g)) t t' /\
    getMarker t' s = head (from (getMarker t g) (from (getMarker t s) (changeList_ t))).
Proof.
  intros Hok Hs. pose proof Hok as [Hco Hr]. unfold attachToMarkerAhead, skipped.
  destruct (Z.eqb_spec (getBitPosition t s) npos) as [|_]; [done|].
  pose proof (co_placed _ _ _ Hco s ltac:(done)) as Hps.
  destruct (getMarker t s) as [p|] eqn:Em.
  - assert (Hin : p ∈ changeList_ t) by (by apply (pl_marker t s Hps)).
    assert (Hfh : head (from (Some p) (changeList_ t)) = Some p) by (apply from_head; by intros q [= <-]).
    destruct (from (Some p) (changeList_ t)) as [|p' rest] eqn:Efr; [done|]. injection Hfh as ->.
    case_decide as Eg.
    { rewrite <- Eg. exists t. simpl. unfold from. simpl. rewrite !decide_True by done.
      split; [done|]. split; [done|]. split; [|done]. apply acked_frame; [apply Hco|done|done]. }
    destruct (begin_ok s p t Hco Em) as (t1 & Hrm & Hf1 & Hir & Hon1). rewrite Hrm. cbn [rbind].
    rewrite Em, Efr in Hir. pose proof (only_eq _ _ _ _ Hon1) as Hc1.
    assert (Hpos1 : positions_ok t1).
    { eapply positions_same; [by apply frame_same_registry|by apply registry_positions]. }
    assert (Ep1 : getBitPosition t1 s = getBitPosition t s) by apply (fr_pos _ _ Hf1).
    destruct (ackWalk_ok s (getBitPosition t s) (getMarker t g) (p :: rest) (S (length (changeList_ t1)))
      (before (Some p) (changeList_ t)) t1) as (t2 & l1' & k1 & k2 & Hw & El & Ek & Hco2 & Hl2 & Hcl2 & Hak2 & Hc2).
    { apply Hir. } { apply Hir. } { done. } { apply (registry_positions t Hr). } { apply Hir. }
    { rewrite (ir_list _ _ _ _ Hir), length_app. simpl. lia. }
    { intros q Hq. rewrite <- Ep1. by apply (ir_clear _ _ _ _ Hir). }
    change (head (p :: rest)) with (Some p) in Hw. rewrite Hw. cbn [rbind].
    assert (Efg : from (getMarker t g) (p :: rest) = k2).
    { unfold from. rewrite <- Ek, El. by rewrite drop_app_length. }
    rewrite Efg, <- Ek.
    destruct (setMarker_ok s (head k2) t2) as (Hf3 & Hp3 & Ho3); [apply Hco2|].
    set (t3 := setMarker s (head k2) t2) in *. pose proof (only_eq _ _ _ _ Ho3) as Hc3. rewrite Hc2, Hc1 in Hc3.
    assert (Hir3 : iterating s l1' k2 t3).
    { constructor; [by eapply core_only|unfold hook; by rewrite Hc3|unfold getMarker; by rewrite Hc3
        |by rewrite (fr_list _ _ Hf3)| |].
      - unfold getBitPosition. rewrite Hc3. simpl. intros q Hq. rewrite (frame_bitAt _ _ _ _ Hf3). by apply Hcl2.
      - unfold isInReadyList. rewrite Hc3. simpl. intros Hfl. apply (pl_ready t s Hps) in Hfl. congruence. }
    assert (Hak3 : acked (Some s) (bits_of (getBitPosition t s) k1) t t3).
    { eapply acked_before; [|eapply acked_only; [apply Hco|done..]|]; [done|].
      eapply acked_after; [|done|eapply acked_only; [apply Hco2|done..]]. done. }
    destruct (settle_ok s l1' k2 t3 Hir3) as (t4 & He & Hco4 & Hf4 & Hne4 & Hm4).
    assert (Hak4 : acked (Some s) (bits_of (getBitPosition t s) k1) t t4).
    { eapply acked_after; [|done|apply acked_frame; [apply Hir3|done|]]; [done|]. intros d Hd. apply Hne4. congruence. }
    exists t4. split; [exact He|]. split; [split; [done|by apply (registry_acked s _ t t4 Hco Hak4)]|done].
  - assert (Efr : from None (changeList_ t) = []) by (unfold from; simpl; by rewrite drop_all).
    rewrite Efr. destruct (addToReady_ok s t) as (Hf & _ & _ & Ho); [apply Hco|].
    assert (Hak : acked (Some s) (fun _ _ => false) t (addToReadyConsumers s t)) by (by eapply acked_only; [apply Hco|..]).
    eexists. split; [done|]. split; [split; [by apply addToReady_core|by apply (registry_acked s _ t _ Hco Hak)]|].
    assert (Eb : before (getMarker t g) [] = []) by by destruct (getMarker t g). rewrite Eb.
    split; [eapply acked_ext; [|done]; by intros|]. unfold getMarker in Em |- *. rewrite (only_eq _ _ _ _ Ho). simpl. rewrite Em.
    unfold from. by rewrite drop_nil.
Qed.

Lemma ownWalk_ok b sm l2 : 0 <= b -> forall fuel l1 t, shape t -> changeList_ t = l1 ++ l2 ->
  (length l2 <= fuel)%nat ->
  exists t' l, ownWalk fuel b sm (head l2) t = Ok t' /\ bits_set b l t t' /\ (forall q, q ∈ l -> q ∈ l2) /\
    (forall q, q ∈ before sm l2 -> q ∈ l) /\ (forall p, sm = Some p -> p ∈ l2 -> p ∈ l).
Proof.
  intros Hb. induction l2 as [|p l2 IH]; intros fuel l1 t Hs Hl Hf.
  - exists t, []. split_and!; [by destruct fuel|apply bits_set_nil|done|by destruct sm|by intros p _ ?%elem_of_nil].
  - destruct fuel as [|fuel]; [simpl in Hf; lia|]. simpl in Hf.
    assert (Hin : p ∈ changeList_ t) by (rewrite Hl; apply elem_of_app; right; left).
    destruct (shape_deref t p Hs Hin) as [it Hit]. cbn [ownWalk head]. rewrite (deref_Some _ _ _ Hit).
    cbn [rbind]. set (t1 := set_item p _ t).
    assert (Hst : bits_set b [p] t t1) by (apply setBit_step; [done..|by apply (sh_wf t Hs p)]).
    case_decide as Esm.
    { exists t1, [p]. subst sm. split_and!; [done|done|intros q ->%list_elem_of_singleton; left| |].
      - simpl. rewrite decide_True by done. by intros q ?%elem_of_nil.
      - intros q [= ->] _. left. }
    assert (Hs1 : shape t1) by by apply Hst.
    destruct (shape_deref t1 p Hs1) as [it1 Hit1]; [done|].
    unfold get_next. rewrite (deref_Some _ _ _ Hit1). cbn [rbind].
    destruct (erase_or_keep _ _ l1 l2 p (sh_nodup t Hs) Hl (or_introl eq_refl)) as (Hn & _).
    change (changeList_ t1) with (changeList_ t). rewrite Hn.
    destruct (IH fuel (l1 ++ [p]) t1) as (t' & l & Hw & Hset & H1 & H2 & H3); [done|by rewrite <- app_assoc|lia|].
    exists t', (p :: l). split_and!; [done|by eapply bits_set_cons| | |].
    + intros q [->|Hq]%elem_of_cons; [left|right; auto].
    + destruct sm as [v|]; simpl; [rewrite decide_False by congruence|];
        intros q [->|Hq]%elem_of_cons; [left|right; auto|left|right; by apply H2].
    + intros q -> [->|Hq]%elem_of_cons; [done|right; by apply H3].
Qed.

(** [g] is at or behind [s]. *)
Definition at_or_behind (t : ChangeTracker) (g s : nat) : Prop :=
  forall q, q ∈ before (getMarker t g) (changeList_ t) -> q ∈ before (getMarker t s) (changeList_ t).

(** The source leaves its item, or the ready set. *)
Lemma leave_ok s t t1 : placed t s -> core (Some s) None t1 -> changeList_ t1 = changeList_ t ->
  consumer t1 s = consumer t s ->
  exists t2, (match getMarker t s with
              | Some p => removePendingConsumer p s t1
              | None => Ok (removeFromReadyConsumers s t1)
              end) = Ok t2 /\ frame t1 t2 /\ pended t2 /\
    only s (mkConsumer (getBitPosition t s) (getMarker t s) false None) t1 t2.
Proof.
  intros Hps Hco1 Hl Hc1. destruct (getMarker t s) as [p|] eqn:Em.
  - destruct (removePending_ok p s t1) as (t2 & Hrm & Hf2 & Hp2 & _ & Ho2); [apply Hco1| |].
    { apply (sh_items t1 (co_shape _ _ _ Hco1)). rewrite Hl. by apply (pl_marker t s Hps). }
    exists t2. split_and!; [done|done|done|]. rewrite Hc1 in Ho2. unfold detached in Ho2.
    assert (Efl : isInReadyList t s = false).
    { destruct (isInReadyList t s) eqn:E; [|done]. apply (pl_ready t s Hps) in E. congruence. }
    unfold isInReadyList, getMarker in Efl, Em. by rewrite Efl, Em in Ho2.
  - destruct (removeFromReady_ok s t1) as (Hf2 & Hp2 & _ & Ho2); [apply Hco1|].
    eexists. split; [done|]. split_and!; [done|done|]. rewrite Hc1 in Ho2. unfold ready_at in Ho2.
    pose proof (pl_hook t s Hps) as Hh. unfold hook, getMarker in *. by rewrite Hh, Em in Ho2.
Qed.

(** Steps 1 and 2: source owns the items from target's marker up to its own, and
    is linked at target's marker. *)
Lemma rewind_ok s g t : tracker_ok t -> getBitPosition t s <> npos -> at_or_behind t g s ->
  exists t5 (l : list nat), (let* t1 := ownWalk (S (length (changeList_ t))) (getBitPosition t s) (getMarker t s) (getMarker t g) t in
     let* t2 := match getMarker t s with
                | Some p => removePendingConsumer p s t1
                | None => Ok (removeFromReadyConsumers s t1) end in
     let t3 := setMarker s (getMarker t g) t2 in
     match getMarker t g with Some _ => end_ s t3 | None => Ok (addToReadyConsumers s t3) end) = Ok t5 /\
    tracker_ok t5 /\ same_registry t t5 /\ getMarker t5 s = getMarker t g /\
    (forall q b, 0 <= b -> bitAt t5 q b = bitAt t q b || bool_decide (q ∈ l /\ b = getBitPosition t s)) /\
    (forall q, q ∈ before (getMarker t s) (from (getMarker t g) (changeList_ t)) -> q ∈ l) /\
    (forall p, getMarker t s = Some p -> p ∈ from (getMarker t g) (changeList_ t) -> p ∈ l).
Proof.
  intros Hok Hs Hbeh. pose proof Hok as [Hco Hr].
  pose proof (co_placed _ _ _ Hco s ltac:(done)) as Hps. pose proof (co_placed _ _ _ Hco g ltac:(done)) as Hpg.
  unfold at_or_behind in Hbeh. set (b := getBitPosition t s) in *. set (gm := getMarker t g) in *.
  pose proof (before_from gm (changeList_ t)) as El.
  destruct (ownWalk_ok b (getMarker t s) (from gm (changeList_ t)) (registry_positions t Hr s)
    (S (length (changeList_ t))) (before gm (changeList_ t)) t) as (t1 & l & Hw & Hset & Hl1 & Hl2 & Hl3).
  { apply Hco. } { done. } { rewrite El at 2. rewrite length_app. lia. }
  rewrite (from_head gm) in Hw by apply (pl_marker t g Hpg). rewrite Hw. cbn [rbind].
  pose proof (fun d => bits_set_consumer _ _ _ _ d Hset) as Hc1.
  assert (Hco1 : core (Some s) None t1) by (eapply bits_set_core; [by apply core_except|done..]).
  destruct (leave_ok s t t1 Hps Hco1 (bs_list _ _ _ _ Hset) (Hc1 s)) as (t2 & Hrm & Hf2 & Hp2 & Ho2).
  rewrite Hrm. cbn [rbind]. cbv zeta.
  destruct (setMarker_ok s gm t2 Hp2) as (Hf3 & Hp3 & Ho3). set (t3 := setMarker s gm t2) in *.
  rewrite (only_eq _ _ _ _ Ho2) in Ho3. pose proof (only_trans _ _ _ _ _ _ Ho2 Ho3) as Ho13.
  pose proof (only_eq _ _ _ _ Ho13) as Hc3. assert (Hf13 : frame t1 t3) by by trans t2.
  assert (Hir : iterating s (before gm (changeList_ t)) (from gm (changeList_ t)) t3).
  { constructor; [by eapply core_only|unfold hook; by rewrite Hc3| |by rewrite (fr_list _ _ Hf13), (bs_list _ _ _ _ Hset)|
      |unfold isInReadyList; by rewrite Hc3].
    - rewrite from_head by apply (pl_marker t g Hpg). unfold getMarker. by rewrite Hc3.
    - unfold getBitPosition. rewrite Hc3. simpl. intros q Hq.
      rewrite (frame_bitAt _ _ _ _ Hf13), (bs_bit _ _ _ _ Hset) by apply (registry_positions t Hr).
      rewrite (pl_behind t s Hps) by (by apply Hbeh). apply bool_decide_eq_false_2. intros [Hin _]. apply Hl1 in Hin.
      apply (suffix_not_before (before gm (changeList_ t)) (from gm (changeList_ t)) q); [|done|done].
      rewrite <- El. apply Hco. }
  destruct (settle_ok s _ _ t3 Hir) as (t5 & He & Hco5 & Hf5 & Hne5 & Hm5).
  rewrite (from_head gm) in He, Hm5 by apply (pl_marker t g Hpg). exists t5, l. split; [done|].
  assert (Hf15 : frame t1 t5) by by trans t3.
  assert (Hsr : same_registry t t5) by (trans t1; [by eapply bits_set_registry|by apply frame_same_registry]).
  split_and!; [|done|done| |done|done].
  - split; [done|]. apply (registry_same t); [done| |done]. intros d Hd.
    assert (Hds : d <> s) by (intros ->; by apply Hs). by rewrite Hne5, (only_ne _ _ _ _ _ Ho13) by done.
  - intros q b' Hb'. by rewrite (frame_bitAt _ _ _ _ Hf15), (bs_bit _ _ _ _ Hset).
Qed.

Lemma attachBehind_ok s g t : tracker_ok t -> getBitPosition t s <> npos -> s <> g -> at_or_behind t g s ->
  exists t', attachToMarkerBehind (Some s) (Some g) t = Ok t' /\ tracker_ok t' /\
    getMarker t' s = getMarker t g /\ getMarker t' g = None /\
    (forall q, bitAt t' q (getBitPosition t g) = false) /\
    (forall q, q ∈ changeList_ t -> q ∉ before (getMarker t g) (changeList_ t) ->
       q ∈ before (getMarker t s) (changeList_ t) -> bitAt t' q (getBitPosition t s) = true).
Proof.
  intros Hok Hs Hsg Hbeh. pose proof Hok as [Hco Hr].
  pose proof (co_placed _ _ _ Hco s ltac:(done)) as Hps. pose proof (co_placed _ _ _ Hco g ltac:(done)) as Hpg.
  destruct (rewind_ok s g t Hok Hs Hbeh) as (t5 & l & Hrw & [Hco5 Hr5] & Hsr5 & Hm5 & Hbit5 & Hl2 & Hl3).
  assert (Hsplit : attachToMarkerBehind (Some s) (Some g) t = consumerResetChangeList (Some g) t5).
  { unfold attachToMarkerBehind. destruct (Z.eqb_spec (getBitPosition t s) npos) as [|_]; [done|].
    destruct (ownWalk _ _ _ _ t) as [t1| |]; [|done..]. cbn [rbind] in *.
    destruct (match getMarker t s with Some p => removePendingConsumer p s t1 | None => Ok (removeFromReadyConsumers s t1) end)
      as [t2| |]; [|done..]. cbn [rbind] in *. cbv zeta in Hrw. by rewrite Hrw. }
  rewrite Hsplit. set (b := getBitPosition t s) in *. set (gm := getMarker t g) in *.
  pose proof (before_from gm (changeList_ t)) as El.
  destruct (consumerReset_ok g t5 Hco5 (registry_positions t5 Hr5)) as (t6 & Hrs & Hco6 & Hak6 & Hc6).
  rewrite Hrs. exists t6. split; [done|]. rewrite (sr_pos _ _ Hsr5) in Hak6.
  assert (Hr6 : registry t6).
  { destruct (decide (getBitPosition t g = npos)) as [Hg|Hg].
    - destruct (rg_idle t5 Hr5 g) as [Hmg _]; [by rewrite (sr_pos _ _ Hsr5)|].
      unfold consumerResetChangeList in Hrs. rewrite Hmg in Hrs. by injection Hrs as <-.
    - apply (registry_acked g _ t5 t6 Hco5 Hak6); [by rewrite (sr_pos _ _ Hsr5)|done]. }
  assert (Hown : forall q, q ∈ l -> bitAt t6 q b = true).
  { intros q Hq. rewrite (ak_bit _ _ _ _ Hak6), Hbit5 by apply (registry_positions t Hr s).
    rewrite (bool_decide_true (q ∈ l /\ b = b)) by done. rewrite orb_true_r. unfold bit_everywhere.
    apply negb_true_iff, Z.eqb_neq. intros E. apply Hsg. by apply (registry_inj t). }
  split; [done|]. split; [|split; [unfold getMarker; by rewrite Hc6|split]].
  - assert (Ec : consumer t6 s = consumer t5 s); [|by unfold getMarker in *; rewrite Ec].
    pose proof (pl_hook t5 s (co_placed _ _ _ Hco5 s ltac:(done))) as Hh5. rewrite Hm5 in Hh5.
    assert (Hhd : head (from gm (changeList_ t)) = gm) by apply from_head, (pl_marker t g Hpg).
    destruct gm as [pg|] eqn:Egm; [|by apply (ak_idle _ _ _ _ Hak6); [congruence|]].
    apply (ak_stay _ _ _ _ Hak6 s pg); [congruence|done|].
    apply (sh_items t6 (co_shape _ _ _ Hco6)), (bitAt_live None None t6 pg b Hco6), Hown.
    destruct (from (Some pg) (changeList_ t)) as [|p' rest]; [done|]. injection Hhd as ->.
    destruct (decide (getMarker t s = Some pg)) as [E|E]; [apply (Hl3 pg E); left|]. apply Hl2.
    destruct (getMarker t s) as [ps|]; simpl; [rewrite decide_False by congruence|]; left.
  - intros q. rewrite (ak_bit _ _ _ _ Hak6) by apply (registry_positions t Hr). unfold bit_everywhere.
    by rewrite Z.eqb_refl, andb_false_r.
  - intros q Hq Hnb Hbs. apply Hown, Hl2. rewrite El in Hbs.
    destruct (getMarker t s) as [ps|] eqn:Eps; simpl in Hbs |- *.
    + rewrite before_in_app in Hbs; [by apply elem_of_app in Hbs as [|]|].
      intros Hps'%Hbeh. pose proof (pl_marker t s Hps ps Eps) as Hpsin.
      destruct (nodup_split ps _ (sh_nodup t (co_shape _ _ _ Hco)) Hpsin) as (k1 & k2 & E & Hk1 & _).
      rewrite Eps, E, before_split in Hps' by done. done.
    + by apply elem_of_app in Hbs as [|].
Qed.
