(* ===== verification/ChangeTrackerSpec.v ===== *)
(** * What the change tracker promises

    The safety of every sequence of operations, the refinement of the list with
    its bitmaps and markers to one queue per consumer, what a run of a consumer
    delivers, and that changes are reported once everybody has run. *)

From stdpp Require Import gmap fin_sets.
From S2P Require Import Prelude ConsumerBitmap ConsumerBitManager ChangeTracker.
From S2P Require Import ChangeTrackerInv ChangeTrackerOps.

(** ** Sequences of operations *)

(** The answers a callback will give, one per call; [CONTINUE] when they are used
    up. *)
Definition scripted (script : list ProcessResult) (_ : nat) : ProcessResult * list ProcessResult :=
  match script with
  | [] => (CONTINUE, [])
  | r :: script => (r, script)
  end.

Inductive operation :=
| Register (c : nat)
| Deregister (c : nat)
| Publish (o : nat) (bitmap : ConsumerBitmap)
| PublishToAll (o : nat)
| IterateUntil (c : nat) (boundary : option nat) (script : list ProcessResult)
| Join (existing new : nat)
| ResetConsumer (c : nat)
| AttachAhead (source target : nat)
| AttachBehind (source target : nat).

Definition run (op : operation) (t : ChangeTracker) : tracked ChangeTracker :=
  match op with
  | Register c => registerWithTracker c t
  | Deregister c => deregisterFromTracker c t
  | Publish o bitmap => publishChange (Some o) bitmap t
  | PublishToAll o => publishChangeToAll (Some o) t
  | IterateUntil c u script =>
      let* '(_, _, t) := iterateChangesUntilExcluding scripted c u script t in Ok t
  | Join e n => joinConsumer e n t
  | ResetConsumer c => consumerResetChangeList (Some c) t
  | AttachAhead s g => attachToMarkerAhead (Some s) (Some g) t
  | AttachBehind s g => attachToMarkerBehind (Some s) (Some g) t
  end.

(** What the callers owe: publications go to registered consumers that are ready
    or at an item (a consumer reset at an item is neither), a boundary is an item of
    the list, and [attachToMarkerBehind] is called with a target that is at or behind
    the source. *)
Definition allowed (t : ChangeTracker) (op : operation) : Prop :=
  match op with
  | Publish _ bitmap => addressable t bitmap
  | PublishToAll _ => addressable t (getFullConsumerBitmap t)
  | IterateUntil _ (Some u) _ => u ∈ changeList_ t
  | AttachBehind s g => s <> g /\ at_or_behind t g s
  | _ => True
  end.

Inductive reachable (n : Z) : ChangeTracker -> Prop :=
| reachable_new : reachable n (newTracker n)
| reachable_step t op t' : reachable n t -> allowed t op -> run op t = Ok t' -> reachable n t'.

Lemma newTracker_ok n : 1 <= n <= npos -> tracker_ok (newTracker n).
Proof.
  intros Hn. split.
  - constructor.
    + constructor; [constructor| | |done|by intros p ?%elem_of_nil].
      * intros p. cbn [items changeList_ newTracker]. rewrite lookup_empty, elem_of_nil. split; [done|by intros []].
      * intros o p. cbn [items changeItem_ newTracker]. rewrite !lookup_empty. split; [done|by intros (? & ? & _)].
    + constructor.
      * intros p c. unfold pend, hook, consumer. simpl. rewrite !lookup_empty. simpl. by rewrite elem_of_nil.
      * intros p. unfold pend. simpl. rewrite lookup_empty. constructor.
      * intros c. unfold isInReadyList, consumer. simpl. rewrite lookup_empty. simpl. set_solver.
    + intros c _. constructor; unfold hook, getMarker, isInReadyList, consumer; simpl; try done.
    + constructor; simpl; [by intros p ?%elem_of_nil|]. intros p b _. unfold bitAt. simpl. by rewrite lookup_empty.
  - assert (Hn' : 1 <= n <= 2 ^ 64 - 1) by done. constructor; simpl; try done.
    + apply newManager_ok. lia.
    + tauto.
    + intros q Hq. assert (Hpos : forall c, getBitPosition (newTracker n) c = npos) by done.
      setoid_rewrite Hpos. rewrite in_use_free; [|apply newManager_ok; lia|done]. simpl.
      rewrite free_single, uint_id by lia. split; [lia|]. intros [_ Hq']. unfold npos in Hq'. lia.
    + constructor.
    + intros q Hq. assert (Hpos : forall c, getBitPosition (newTracker n) c = npos) by done.
      setoid_rewrite Hpos. unfold bit_of. simpl. split; [by destruct (word_index q); rewrite Z.testbit_0_l|].
      intros [? [_ ?]]. congruence.
Qed.

Lemma iterate_refuses {S_} (cb : S_ -> nat -> ProcessResult * S_) c u s t : tracker_ok t -> u ∈ changeList_ t ->
  bitAt t u (getBitPosition t c) = false ->
  iterateChangesUntilExcluding cb c (Some u) s t = Ok (false, s, t).
Proof.
  intros [Hco _] Hu Hb. destruct (shape_deref t u (co_shape _ _ _ Hco) Hu) as [it Hit].
  unfold iterateChangesUntilExcluding. rewrite (deref_Some _ _ _ Hit). cbn [rbind].
  unfold bitAt in Hb. rewrite Hit in Hb. by rewrite isBitSet_bit_of, Hb.
Qed.

(** Exceptions the callers see. *)
Definition documented (e : tracker_exn) : Prop := e = NoBitAvailable \/ e = InvalidArgument.

Lemma run_ok op t : tracker_ok t -> allowed t op ->
  match run op t with
  | Ok t' => tracker_ok t'
  | Throw e => documented e
  | NoFuel => False
  end.
Proof.
  intros Hok Ha. pose proof Hok as [Hco Hr]. destruct op; cbn [run allowed] in *.
  - pose proof (register_ok c t Hok) as H. destruct (registerWithTracker c t); [by destruct H|left; by destruct H|done].
  - by destruct (deregister_ok c t Hok) as (t' & new & -> & H & _).
  - by destruct (publish_ok o bitmap t Hok Ha) as (t' & -> & H & _).
  - by destruct (publish_ok o _ t Hok Ha) as (t' & Hp & H & _); unfold publishChangeToAll; rewrite Hp.
  - destruct boundary as [u|].
    + destruct (bitAt t u (getBitPosition t c)) eqn:E; [|by rewrite iterate_refuses].
      destruct (iterate_ok scripted c (Some u) script t Hok) as (r & s' & k & t' & -> & _ & H & _);
        [by intros v [= <-]..|done].
    + by destruct (iterate_ok scripted c None script t Hok) as (r & s' & k & t' & -> & _ & H & _).
  - pose proof (join_ok existing new t Hok) as H. destruct (joinConsumer existing new t); [by destruct H as (_ & ? & _)|right; by destruct H|done].
  - destruct (consumerReset_ok c t Hco (registry_positions t Hr)) as (t' & Hrs & Hco' & Hak & _). rewrite Hrs. split; [done|].
    destruct (decide (getBitPosition t c = npos)) as [Hn|Hn]; [|by apply (registry_acked c _ t t' Hco Hak)].
    destruct (rg_idle t Hr c Hn) as [Hm _]. unfold consumerResetChangeList in Hrs. rewrite Hm in Hrs. by injection Hrs as <-.
  - destruct (decide (getBitPosition t source = npos)) as [Hn|Hn].
    + unfold attachToMarkerAhead. by rewrite Hn.
    + by destruct (attachAhead_ok source target t Hok Hn) as (t' & -> & H & _).
  - destruct (decide (getBitPosition t source = npos)) as [Hn|Hn].
    + unfold attachToMarkerBehind. by rewrite Hn.
    + destruct Ha as [Hne Hb]. by destruct (attachBehind_ok source target t Hok Hn Hne Hb) as (t' & -> & H & _).
Qed.

Lemma reachable_ok n t : 1 <= n <= npos -> reachable n t -> tracker_ok t.
Proof.
  intros Hn Ht. induction Ht as [|t op t' _ IH Ha Hr]; [by apply newTracker_ok|].
  pose proof (run_ok op t IH Ha) as H. by rewrite Hr in H.
Qed.

(** ** One queue per consumer *)

(** The objects a consumer still owes, oldest publication first. *)
Definition owed (t : ChangeTracker) (c : nat) : list nat :=
  objs t (filter (fun q => bitAt t q (getBitPosition t c) = true) (changeList_ t)).

Lemma objs_app t l1 l2 : objs t (l1 ++ l2) = objs t l1 ++ objs t l2.
Proof. apply omap_app. Qed.

Lemma objs_ext t t' l : (forall q, q ∈ l -> objAt t' q = objAt t q) -> objs t' l = objs t l.
Proof.
  induction l as [|q l IH]; intros H; [done|].
  rewrite !objs_cons, H, IH by (left || (intros; apply H; by right)). done.
Qed.

Lemma bitAt_objAt x e t q b : core x e t -> bitAt t q b = true -> exists o, objAt t q = Some o.
Proof.
  intros _ Hb. unfold bitAt in Hb. unfold objAt. destruct (items t !! q) as [it|]; [|done]. by exists (trackableObject it).
Qed.

(** Acknowledging items shortens queues and nothing else. *)
Lemma owed_acked x P t t' d : core None None t' -> positions_ok t -> acked x P t t' ->
  owed t' d = objs t (filter (fun q => bitAt t q (getBitPosition t d) && negb (P q (getBitPosition t d)) = true)
                        (changeList_ t)).
Proof.
  intros Hco Hpos Hak. unfold owed. rewrite (sr_pos _ _ (ak_reg _ _ _ _ Hak)), (ak_list _ _ _ _ Hak), list_filter_filter.
  rewrite (filter_ext_in _ (fun q => bitAt t q (getBitPosition t d) && negb (P q (getBitPosition t d)) = true)).
  - apply objs_ext. intros q [Hq _]%list_elem_of_filter. rewrite <- (ak_bit _ _ _ _ Hak) in Hq by apply Hpos.
    destruct (bitAt_objAt _ _ _ _ _ Hco Hq) as [o Ho]. rewrite Ho. symmetry. by apply (ak_obj _ _ _ _ Hak).
  - intros q _. rewrite (ak_bit _ _ _ _ Hak) by apply Hpos. split; [tauto|]. intros Hq. split; [done|].
    rewrite <- (ak_bit _ _ _ _ Hak) in Hq by apply Hpos. apply (sh_items t' (co_shape _ _ _ Hco)).
    by eapply bitAt_live.
Qed.

(** What publishing [o] to the consumers [to] means for a queue. *)
Definition enqueue (to_c : bool) (o : nat) (queue : list nat) : list nat :=
  if to_c || bool_decide (o ∈ queue) then filter (fun x => x <> o) queue ++ [o] else queue.

Lemma owed_elem t c o : shape t -> o ∈ owed t c <->
  exists q, objAt t q = Some o /\ bitAt t q (getBitPosition t c) = true.
Proof.
  intros Hs. unfold owed, objs. rewrite list_elem_of_omap. setoid_rewrite list_elem_of_filter. split.
  - intros (q & [Hb _] & Ho). by exists q.
  - intros (q & Ho & Hb). exists q. split; [|done]. split; [done|]. apply (sh_items t Hs).
    unfold bitAt in Hb. destruct (items t !! q); [eauto|done].
Qed.

Lemma objs_without t p o l : (forall q o', q ∈ l -> objAt t q = Some o' -> o' = o <-> q = p) ->
  objs t (filter (fun q => q <> p) l) = filter (fun x => x <> o) (objs t l).
Proof.
  intros H. induction l as [|q l IH]; [done|]. specialize (IH ltac:(intros; apply H; [by right|done])).
  rewrite objs_cons. destruct (objAt t q) as [x|] eqn:E; [pose proof (H q x ltac:(left) E) as Hx|];
    (destruct (decide (q = p)) as [Hq|Hq]; [rewrite filter_cons_False by tauto|rewrite filter_cons_True, objs_cons, E by done]).
  - by rewrite filter_cons_False by tauto.
  - by rewrite filter_cons_True, IH by tauto.
  - done.
  - done.
Qed.

Lemma filter_comm (P Q : nat -> Prop) `{!forall q, Decision (P q), !forall q, Decision (Q q)} (l : list nat) :
  filter P (filter Q l) = filter Q (filter P l).
Proof. rewrite !list_filter_filter. apply list_filter_iff. tauto. Qed.

Lemma shape_obj_inj t p q o : shape t -> objAt t p = Some o -> objAt t q = Some o -> p = q.
Proof.
  intros Hs Hp Hq. unfold objAt in *. apply fmap_Some in Hp as (i1 & ? & ?), Hq as (i2 & ? & ?).
  assert (changeItem_ t !! o = Some p) by (apply (sh_obj t Hs); by exists i1).
  assert (changeItem_ t !! o = Some q) by (apply (sh_obj t Hs); by exists i2). congruence.
Qed.

Lemma owed_published o bm p t t' c : tracker_ok t -> objAt t' p = Some o ->
  changeList_ t' = filter (fun q => q <> p) (changeList_ t) ++ [p] ->
  getBitPosition t' c = getBitPosition t c -> (forall q, q <> p -> objAt t' q = objAt t q) ->
  (forall q o', objAt t q = Some o' -> o' = o <-> q = p) ->
  (forall q b, bitAt t' q b = bitAt t q b || (bool_decide (q = p) && bit_of bm b)) ->
  owed t' c = enqueue (bit_of bm (getBitPosition t c)) o (owed t c).
Proof.
  intros [Hco Hr] Ho Hl Hpos Hobj Huniq Hbit. set (b := getBitPosition t c).
  assert (Hin : o ∈ owed t c <-> bitAt t p b = true).
  { rewrite owed_elem by apply Hco. split.
    - intros (q & Hq & ?). by rewrite <- (proj1 (Huniq q o Hq) eq_refl).
    - intros Hb. destruct (bitAt_objAt _ _ _ _ _ Hco Hb) as [o' Ho']. exists p. split; [|done].
      by rewrite <- (proj2 (Huniq p o' Ho') eq_refl). }
  assert (Hold : objs t' (filter (fun q => bitAt t' q b = true) (filter (fun q => q <> p) (changeList_ t))) =
                 filter (fun x => x <> o) (owed t c)).
  { unfold owed. rewrite <- (objs_without t p) by (intros q o' _; apply Huniq).
    rewrite (filter_comm (fun q => q <> p)). rewrite (filter_ext_in _ (fun q => bitAt t q b = true)).
    - apply objs_ext. intros q [_ [Hq _]%list_elem_of_filter]%list_elem_of_filter. by apply Hobj.
    - intros q [Hq _]%list_elem_of_filter. by rewrite Hbit, bool_decide_false, orb_false_r. }
  unfold owed at 1. rewrite Hpos, Hl, filter_app, objs_app. fold b. rewrite Hold. unfold enqueue.
  assert (Ep : bitAt t' p b = bit_of bm b || bool_decide (o ∈ owed t c)).
  { rewrite Hbit, bool_decide_true, orb_comm by done. simpl. f_equal. symmetry.
    destruct (bitAt t p b); [by apply bool_decide_eq_true, Hin|]. apply bool_decide_eq_false. by intros ?%Hin. }
  rewrite <- Ep. destruct (bitAt t' p b) eqn:E.
  - rewrite filter_cons_True, objs_cons, Ho by done. done.
  - rewrite filter_cons_False, app_nil_r by (rewrite E; done). apply filter_neq_notin.
    rewrite Hin. intros Hb. by rewrite Hbit, Hb in E.
Qed.

(** Without consumers there is nothing to track. *)
Lemma size_le lo hi s : canonical lo hi s -> lo <= hi + 1 -> size s <= Z.max 0 (hi - lo).
Proof.
  revert lo. induction s as [|[a e] s IH]; intros lo Hc Hlo; simpl; [lia|].
  destruct Hc as (Hae & He & Hc). specialize (IH _ Hc ltac:(lia)). lia.
Qed.

Lemma size_lt lo hi s b : canonical lo hi s -> lo <= b < hi -> ~ free s b -> size s < hi - lo.
Proof.
  revert lo. induction s as [|[a e] s IH]; intros lo Hc Hb Hf; simpl; [lia|].
  destruct Hc as (Hae & He & Hc). rewrite free_cons in Hf.
  assert (~ (a <= b <= e)) by tauto.
  destruct (decide (b = e + 1)) as [->|]; [pose proof (size_le _ _ _ Hc ltac:(lia)); lia|].
  destruct (decide (b < a)); [pose proof (size_le _ _ _ Hc ltac:(lia)); lia|].
  specialize (IH _ Hc ltac:(lia) ltac:(tauto)). lia.
Qed.

Lemma none_in_use t c : registry t -> getNumBitsInUse (consumerBitManager_ t) = 0 -> getBitPosition t c = npos.
Proof.
  intros Hr H0. destruct (decide (getBitPosition t c = npos)) as [|Hc]; [done|]. exfalso.
  destruct (rg_pos t Hr c Hc) as [Hp Hs]. destruct (rg_slot t Hr _ _ Hs) as [Hlt _].
  assert (Hu : in_use (consumerBitManager_ t) (getBitPosition t c)) by (apply (rg_use t Hr); [lia|by exists c]).
  apply in_use_free in Hu; [|apply Hr|lia]. destruct (rg_manager t Hr) as [Hcan Hn].
  assert (Hrange : 0 <= getBitPosition t c < maxBits (consumerBitManager_ t)) by lia.
  pose proof (size_lt _ _ _ _ Hcan Hrange Hu). unfold getNumBitsInUse in H0. lia.
Qed.

Lemma owed_on t c o : shape t -> o ∈ owed t c -> on t o.
Proof.
  intros Hs Ho. apply owed_elem in Ho as (q & Ho & _); [|done]. unfold objAt in Ho.
  apply fmap_Some in Ho as (it & ? & ?). exists q. apply (sh_obj t Hs). by exists it.
Qed.

Lemma on_owed t o : tracker_ok t -> on t o -> exists c, o ∈ owed t c.
Proof.
  intros [Hco Hr] [p Hp]. apply (sh_obj t (co_shape _ _ _ Hco)) in Hp as (it & Hit & <-).
  destruct (ow_some _ _ (co_owned _ _ _ Hco) p) as (b & Hb & Hbit);
    [by apply (sh_items t (co_shape _ _ _ Hco)); exists it|done|].
  destruct (ow_reg _ _ (co_owned _ _ _ Hco) p b Hb Hbit) as (_ & c & Hc). exists c.
  apply owed_elem; [apply Hco|]. exists p. unfold objAt. by rewrite Hit, Hc.
Qed.

Lemma skip_spec o bm t : tracker_ok t -> addressable t bm -> shouldSkipChangePublication o bm t = true ->
  ~ on t o /\ forall c, bit_of bm (getBitPosition t c) = false.
Proof.
  intros Hok [Hwf Ha] Hsk. pose proof Hok as [Hco Hr]. apply orb_true_iff in Hsk as [H0|Hsk].
  - apply Z.eqb_eq in H0. split.
    + intros Hon. destruct (on_owed t o Hok Hon) as [c Hc]. apply owed_elem in Hc as (q & _ & Hb); [|apply Hco].
      destruct (ow_reg _ _ (co_owned _ _ _ Hco) q _ (registry_positions t Hr c) Hb) as [Hn _].
      by apply Hn, none_in_use.
    + intros c. destruct (bit_of bm (getBitPosition t c)) eqn:E; [|done].
      destruct (Ha _ (registry_positions t Hr c) E) as [Hn _]. by destruct Hn; apply none_in_use.
  - apply andb_true_iff in Hsk as [Hon Hcl]. split.
    + intros [p Hp]. unfold isOnChangeList in Hon. by rewrite Hp in Hon.
    + intros c. apply (isAllBitsCleared_spec bm); [done|done|]. apply (registry_positions t Hr).
Qed.

(** ** A run of a consumer *)

(** The object at the marker when the consumer does not owe it: the code calls
    the callback for it all the same. *)
Definition foreign (t : ChangeTracker) (c : nat) : list nat :=
  match getMarker t c with
  | Some p => if bitAt t p (getBitPosition t c) then [] else objs t [p]
  | None => []
  end.

Definition owed_items (t : ChangeTracker) (c : nat) : list nat :=
  filter (fun q => bitAt t q (getBitPosition t c) = true) (changeList_ t).

Lemma work_owed t c : placed t c ->
  work t c = match getMarker t c with
             | Some p => if bitAt t p (getBitPosition t c) then owed_items t c else p :: owed_items t c
             | None => []
             end /\ (getMarker t c = None -> owed_items t c = []).
Proof.
  intros Hp. assert (Eo : owed_items t c = filter (fun q => bitAt t q (getBitPosition t c) = true)
                                              (from (getMarker t c) (changeList_ t))).
  { unfold owed_items. rewrite (before_from (getMarker t c) (changeList_ t)) at 1.
    by rewrite filter_app, filter_none by apply (pl_behind t c Hp). }
  rewrite Eo. unfold work.
  pose proof (from_head (getMarker t c) (changeList_ t) (pl_marker t c Hp)) as Hh.
  destruct (from (getMarker t c) (changeList_ t)) as [|p l]; simpl in Hh; rewrite <- Hh; [done|].
  split; [|done]. simpl visits. destruct (bitAt t p (getBitPosition t c)) eqn:E.
  - by rewrite filter_cons_True.
  - by rewrite filter_cons_False by (rewrite E; done).
Qed.

Lemma owed_items_owed t c : owed t c = objs t (owed_items t c).
Proof. done. Qed.

Lemma work_objs t c : placed t c -> objs t (work t c) = foreign t c ++ owed t c.
Proof.
  intros Hp. destruct (work_owed t c Hp) as [-> Hn]. unfold foreign. rewrite owed_items_owed.
  destruct (getMarker t c) as [p|]; [|by rewrite Hn]. case_match; [done|]. by rewrite <- objs_app.
Qed.

Lemma filter_not_taken j (l : list nat) : NoDup l -> filter (fun q => q ∉ take j l) l = drop j l.
Proof.
  revert j. induction l as [|q l IH]; intros j Hnd; [by rewrite drop_nil|].
  apply NoDup_cons in Hnd as [Hq Hnd]. destruct j as [|j].
  - simpl take. rewrite (filter_ext_in _ (fun _ => True)); [|intros x _; split; [done|by intros _ ?%elem_of_nil]].
    simpl drop. generalize (q :: l). clear. intros l. induction l as [|x l IH]; [done|].
    by rewrite filter_cons_True, IH.
  - simpl. rewrite filter_cons_False by (intros H; apply H; left). rewrite <- (IH j Hnd).
    apply filter_ext_in. intros x Hx. rewrite elem_of_cons. split; [tauto|]. intros H [->|?]; done.
Qed.

Lemma objs_drop t j l : shape t -> (forall q, q ∈ l -> q ∈ changeList_ t) ->
  objs t (drop j l) = drop j (objs t l).
Proof.
  intros Hs. revert j. induction l as [|q l IH]; intros j Hl; [by destruct j|].
  destruct j as [|j]; [done|]. rewrite objs_cons.
  destruct (shape_deref t q Hs) as [it Hit]; [apply Hl; left|]. unfold objAt. rewrite Hit. simpl.
  apply IH. intros; apply Hl; by right.
Qed.

(** The first [k] items of the run are what the queue loses. *)
Lemma owed_consumed t t' c k : tracker_ok t -> core None None t' ->
  acked (Some c) (bits_of (getBitPosition t c) (take k (work t c))) t t' ->
  owed t' c = drop (k - length (foreign t c)) (owed t c) /\
  forall d, d <> c -> owed t' d = owed t d.
Proof.
  intros [Hco Hr] Hco' Hak. pose proof (co_placed _ _ _ Hco c ltac:(done)) as Hc.
  pose proof (registry_positions t Hr) as Hpos. split.
  - rewrite (owed_acked _ _ _ _ c Hco' Hpos Hak).
    rewrite (filter_ext_in _ (fun q => q ∉ take k (work t c) /\ bitAt t q (getBitPosition t c) = true)).
    2:{ intros q _. unfold bits_of. rewrite Z.eqb_refl, andb_true_r, andb_true_iff, negb_true_iff, bool_decide_eq_false. tauto. }
    rewrite <- list_filter_filter. fold (owed_items t c).
    assert (Hnd : NoDup (owed_items t c)) by (apply NoDup_filter, Hco).
    assert (Hlive : forall q, q ∈ owed_items t c -> q ∈ changeList_ t) by (by intros q [_ ?]%list_elem_of_filter).
    rewrite owed_items_owed, <- objs_drop by (done || apply Hco). f_equal.
    destruct (work_owed t c Hc) as [-> Hn]. unfold foreign.
    destruct (getMarker t c) as [p|] eqn:Em; [|by rewrite (Hn eq_refl), !drop_nil].
    destruct (bitAt t p (getBitPosition t c)) eqn:Eb.
    + simpl. rewrite Nat.sub_0_r. by apply filter_not_taken.
    + assert (Hlen : length (objs t [p]) = 1%nat).
      { apply objs_length; [apply Hco|]. intros q ->%list_elem_of_singleton. by apply (pl_marker t c Hc). }
      rewrite Hlen. assert (Hp : p ∉ owed_items t c) by (intros [H _]%list_elem_of_filter; congruence).
      destruct k as [|k]; simpl.
      * rewrite (filter_ext_in _ (fun q => q ∉ take 0 (owed_items t c))) by done. by apply filter_not_taken.
      * rewrite Nat.sub_0_r, <- (filter_not_taken k) by done. apply filter_ext_in. intros q Hq.
        rewrite elem_of_cons. split; [tauto|]. intros H [->|?]; done.
  - intros d Hd. rewrite (owed_acked _ _ _ _ d Hco' Hpos Hak). unfold owed. f_equal. apply filter_ext_in. intros q _.
    unfold bits_of. destruct (Z.eqb_spec (getBitPosition t d) (getBitPosition t c)) as [E|]; [|by rewrite andb_false_r, andb_true_r].
    destruct (bitAt t q (getBitPosition t d)) eqn:Eb; [|done]. exfalso. apply Hd.
    destruct (ow_reg _ _ (co_owned _ _ _ Hco) q _ (Hpos d) Eb) as [Hn _]. by apply (registry_inj t).
Qed.

(** ** The theorems *)

(** C27. Safety, for callers that keep to [allowed]: publications address only
    registered consumers that are ready or at an item (none that was reset at
    an item and not attached again), a boundary is an item of the list, and
    [attachToMarkerBehind] gets a target at or behind its source.  In every state
    reachable from a new tracker by registrations, such publications, runs of
    consumers (with any answers of their callbacks), joins, resets and moves, the
    next such operation returns without touching a deleted change item and
    without looping, or throws one of the two documented exceptions; every
    consumer's marker is an item of the list, and nothing in front of the marker
    has the consumer's bit. *)
Theorem tracker_operations_safe n t op :
  1 <= n <= npos -> reachable n t -> allowed t op ->
  match run op t with
  | Ok t' =>
      forall c p, (getMarker t' c = Some p -> p ∈ changeList_ t' /\ c ∈ pend t' p) /\
        (p ∈ before (getMarker t' c) (changeList_ t') -> bitAt t' p (getBitPosition t' c) = false)
  | Throw e => documented e
  | NoFuel => False
  end.
Proof.
  intros Hn Ht Ha. pose proof (run_ok op t (reachable_ok n t Hn Ht) Ha) as H.
  destruct (run op t) as [t'|e|]; [|done|done]. destruct H as [Hco _]. intros c p.
  destruct (co_placed _ _ _ Hco c ltac:(done)) as [Hh Hm Hb _]. split; [|apply Hb].
  intros Hc. split; [by apply Hm|]. apply (pd_hook t' (co_pended _ _ _ Hco)). by rewrite Hh.
Qed.

Fixpoint run_all (ops : list operation) (t : ChangeTracker) : tracked ChangeTracker :=
  match ops with
  | [] => Ok t
  | op :: ops => let* t := run op t in run_all ops t
  end.

(** The words 2 and 3 as sets of positions. *)
Lemma small_bits w b : (w = 2 \/ w = 3) -> 0 <= b -> bit_of [w] b = true -> b = 1 \/ (b = 0 /\ w = 3).
Proof.
  intros Hw Hb Hbit. unfold bit_of in Hbit.
  destruct (word_index b) as [|[|]] eqn:Ew; [|by rewrite Z.testbit_0_l in Hbit..].
  assert (Hlt : b < 64).
  { unfold word_index, kBitsPerWord in Ew. pose proof (Z.div_mod b 64 ltac:(lia)).
    pose proof (Z.mod_pos_bound b 64 ltac:(lia)). assert (0 <= b / 64) by (apply Z.div_pos; lia). lia. }
  unfold bit_offset, kBitsPerWord in Hbit. rewrite Z.mod_small in Hbit by lia. simpl nth in Hbit.
  destruct (decide (b <= 1)) as [H1|H1].
  - assert (b = 0 \/ b = 1) as [->| ->] by lia; destruct Hw as [->| ->]; auto. done.
  - rewrite Z.bits_above_log2 in Hbit; [done|lia|]. destruct Hw as [->| ->]; simpl; lia.
Qed.

Lemma addressable_small w t : (w = 2 \/ w = 3) -> getBitPosition t 1 = 1 -> isInReadyList t 1 = true \/ getMarker t 1 <> None ->
  getBitPosition t 0 = 0 -> isInReadyList t 0 = true \/ getMarker t 0 <> None -> addressable t [w].
Proof.
  intros Hw H1 R1 H0 R0. split; [constructor; [unfold maxWord; lia|constructor]|].
  intros b Hb Hbit. destruct (small_bits w b Hw Hb Hbit) as [->|[-> _]]; (split; [done|]).
  - exists 1%nat. split; [done|tauto].
  - exists 0%nat. split; [done|tauto].
Qed.

(** A run that keeps to [allowed]. *)
Fixpoint allowed_all (ops : list operation) (t : ChangeTracker) : Prop :=
  match ops with
  | [] => True
  | op :: ops => allowed t op /\ match run op t with Ok t => allowed_all ops t | _ => True end
  end.

Lemma reachable_all n ops : forall t t', reachable n t -> allowed_all ops t -> run_all ops t = Ok t' ->
  reachable n t'.
Proof.
  induction ops as [|op ops IH]; intros t t' Hr; cbn [allowed_all run_all]; [by intros _ [= <-]|].
  intros [Ha Hall] E. destruct (run op t) as [t1| |] eqn:E1; [|done..]. cbn [rbind] in E.
  eapply IH; [by eapply (reachable_step _ t op)|done|done].
Qed.

(** Two consumers, two publications to both, and the second consumer runs up to
    the second item. *)
Definition moved_ops : list operation :=
  [Register 0; Register 1; Publish 7 [3]; Publish 8 [3]; IterateUntil 1 (Some 1%nat) [CONTINUE]].

Lemma moved_allowed : allowed_all moved_ops (newTracker 4096).
Proof.
  repeat (cbn [moved_ops allowed_all];
    match goal with
    | |- allowed _ (Register _) /\ _ => split; [exact I|]
    | |- allowed _ (Publish _ [3]) /\ _ =>
        split; [apply addressable_small; [by right|vm_compute; reflexivity| |vm_compute; reflexivity|];
                first [by left | by right]|]
    | |- allowed _ (IterateUntil _ _ _) /\ _ => split; [right; left|]
    end;
    match goal with
    | |- match ?x with _ => _ end =>
        let y := eval vm_compute in x in replace x with y by (vm_compute; reflexivity); cbv iota beta
    end).
  exact I.
Qed.

(** The second consumer is moved back to the first. *)
Lemma tracker_operations_safe_witness :
  exists t t', run_all moved_ops (newTracker 4096) = Ok t /\ run (AttachBehind 1 0) t = Ok t' /\
    getMarker t 1 = Some 1%nat /\ getMarker t' 1 = Some 0%nat /\
    forall c p, (getMarker t' c = Some p -> p ∈ changeList_ t' /\ c ∈ pend t' p) /\
      (p ∈ before (getMarker t' c) (changeList_ t') -> bitAt t' p (getBitPosition t' c) = false).
Proof.
  destruct (run_all moved_ops (newTracker 4096)) as [t| |] eqn:E; [|by vm_compute in E..].
  destruct (run (AttachBehind 1 0) t) as [t'| |] eqn:E'; [|vm_compute in E; injection E as <-; by vm_compute in E'..].
  exists t, t'. split; [done|]. split; [done|].
  pose proof (tracker_operations_safe 4096 t (AttachBehind 1 0)) as H. rewrite E' in H.
  assert (Ha : allowed t (AttachBehind 1 0)).
  { vm_compute in E. injection E as <-. split; [done|]. by intros q ?%elem_of_nil. }
  assert (Hm : getMarker t 1 = Some 1%nat /\ getMarker t' 1 = Some 0%nat).
  { clear H Ha. vm_compute in E. injection E as <-. vm_compute in E'. injection E' as <-. done. }
  split; [apply Hm|]. split; [apply Hm|]. apply H; [unfold npos; lia| |exact Ha].
  exact (reachable_all _ _ _ _ (reachable_new _) moved_allowed E).
Defined.

(** C28. Publishing to registered consumers that are ready or at an item refines
    one queue per consumer: the object moves to the end of the queue of every
    consumer that is addressed or owed it already, the other queues stay as they
    are, and the producer is told at once exactly when nobody owes the object.
    A consumer that was reset at an item and not attached again may not be
    addressed: it has no place in the list and is never told. *)
Theorem publish_enqueues o bitmap t :
  tracker_ok t -> addressable t bitmap ->
  exists t', publishChange (Some o) bitmap t = Ok t' /\ tracker_ok t' /\
    (forall c, owed t' c = enqueue (bit_of bitmap (getBitPosition t c)) o (owed t c)) /\
    ((exists c, o ∈ owed t' c) /\ processed t' = processed t \/
     (forall c, o ∉ owed t' c) /\ processed t' = processed t ++ [o]).
Proof.
  intros Hok Ha. destruct (publish_ok o bitmap t Hok Ha) as (t' & Hp & Hok' & Hres).
  exists t'. split; [done|]. split; [done|].
  destruct (shouldSkipChangePublication o bitmap t) eqn:Esk.
  - subst t'. destruct (skip_spec o bitmap t Hok Ha Esk) as [Hon Hb].
    assert (Hno : forall c, o ∉ owed t c) by (intros c Hc; apply Hon; eapply owed_on; [apply Hok|done]).
    split; [|by right]. intros c. unfold enqueue. rewrite Hb, bool_decide_false by apply Hno. done.
  - destruct Hres as (p & Hci & Ho & Hl & Hpr & Hpos & Hobj & Huniq & Hbit). split.
    + intros c. by eapply owed_published.
    + left. split; [|done]. apply on_owed; [done|]. exists p. rewrite Hci. by rewrite lookup_insert_eq.
Qed.

Lemma publish_enqueues_witness :
  match run_all [Register 0; Register 1] (newTracker 4096) with
  | Ok t => exists t', publishChange (Some 7%nat) [2] t = Ok t' /\ tracker_ok t' /\
      (forall c, owed t' c = enqueue (bit_of [2] (getBitPosition t c)) 7 (owed t c)) /\
      ((exists c, 7%nat ∈ owed t' c) /\ processed t' = processed t \/
       (forall c, 7%nat ∉ owed t' c) /\ processed t' = processed t ++ [7%nat])
  | _ => False
  end.
Proof.
  destruct (run_all [Register 0; Register 1] (newTracker 4096)) as [t| |] eqn:E; [|by vm_compute in E..].
  apply (publish_enqueues 7 [2] t).
  - apply (reachable_ok 4096); [unfold npos; lia|].
    cbn [run_all] in E. destruct (run (Register 0) (newTracker 4096)) as [t0| |] eqn:E0; [|done..].
    cbn [rbind] in E. destruct (run (Register 1) t0) as [t1| |] eqn:E1; [|done..]. simplify_eq/=.
    eapply (reachable_step _ t0 (Register 1)); [|done|done].
    eapply (reachable_step _ _ (Register 0)); [apply reachable_new|done|done].
  - vm_compute in E. injection E as <-. split.
    + repeat constructor; unfold maxWord; lia.
    + intros b Hb Hbit. assert (b = 1) as ->.
      { unfold bit_of in Hbit. destruct (word_index b) as [|[|]] eqn:Ew; [|by rewrite Z.testbit_0_l in Hbit..].
        assert (Hw : b < 64). { unfold word_index, kBitsPerWord in Ew. pose proof (Z.div_mod b 64 ltac:(lia)). pose proof (Z.mod_pos_bound b 64 ltac:(lia)). assert (0 <= b / 64) by (apply Z.div_pos; lia). lia. }
        unfold bit_offset, kBitsPerWord in Hbit. rewrite Z.mod_small in Hbit by lia. simpl nth in Hbit.
        change 2 with (Z.shiftl 1 1) in Hbit. rewrite shiftl_1_testbit in Hbit by lia. lia. }
      split; [done|]. exists 1%nat. split; [done|]. by right.
Defined.

(** Why [allowed] asks for it: a consumer that was reset while it was at an item
    has no marker and is not in the ready set; a publication to it is never
    delivered, and its item stays on the list however often the consumer runs. *)
Theorem publication_to_reset_consumer_stuck :
  exists t t' w,
    run_all [Register 0; Publish 6 [1]; ResetConsumer 0; Publish 7 [1]] (newTracker 4096) = Ok t /\
    iterateChangesToEnd (fun (s : list nat) o => (CONTINUE, s ++ [o])) 0 [] t = Ok (w, [], t') /\
    changeList_ t' = [1%nat] /\ bitAt t' 1 (getBitPosition t' 0) = true /\
    getMarker t' 0 = None /\ isInReadyList t' 0 = false /\ processed t' = [6%nat].
Proof. do 3 eexists. split; [vm_compute; reflexivity|]. split_and!; vm_compute; reflexivity. Qed.


(** A run with a boundary never warns that it passed the boundary: it does
    nothing when the boundary item is not the consumer's, and otherwise it calls
    the callback only for items in front of the boundary and stops at the item
    the callback yields on or at the boundary, which the consumer still owes. *)
Theorem iterate_stops_at_boundary {S_} (cb : S_ -> nat -> ProcessResult * S_) c u s t :
  tracker_ok t -> u ∈ changeList_ t ->
  if bitAt t u (getBitPosition t c) then
    exists r s' k t', iterateChangesUntilExcluding cb c (Some u) s t = Ok (false, s', t') /\ tracker_ok t' /\
      deliver cb s (objs t (before (Some u) (work t c))) = (r, s', k) /\
      bitAt t' u (getBitPosition t' c) = true /\
      (r = CONTINUE -> getMarker t' c = Some u)
  else iterateChangesUntilExcluding cb c (Some u) s t = Ok (false, s, t).
Proof.
  intros Hok Hu. destruct (bitAt t u (getBitPosition t c)) eqn:Eb; [|by apply iterate_refuses].
  pose proof Hok as [Hco Hr]. pose proof (co_placed _ _ _ Hco c ltac:(done)) as Hc.
  destruct (iterate_ok cb c (Some u) s t Hok) as (r & s' & k & t' & Hit & Hd & Hok' & Hm & Hak);
    [by intros v [= <-]..|].
  assert (Huw : u ∈ work t c) by by apply work_owned.
  assert (Hlen : length (objs t (before (Some u) (work t c))) = length (before (Some u) (work t c))).
  { apply objs_length; [apply Hco|]. intros q Hq%before_incl. by eapply work_incl. }
  assert (Hnd : NoDup (work t c)).
  { unfold work. pose proof (sh_nodup t (co_shape _ _ _ Hco)) as Hnd. rewrite (before_from (getMarker t c)) in Hnd.
    apply NoDup_app in Hnd as (_ & _ & Hnd). destruct (from _ _) as [|p l]; [constructor|].
    apply NoDup_cons in Hnd as [Hp Hnd]. simpl. constructor; [|by apply NoDup_filter].
    by intros [_ ?]%list_elem_of_filter. }
  destruct (nodup_split u _ Hnd Huw) as (w1 & w2 & Ew & Hu1 & Hu2). rewrite Ew, before_split in Hlen, Hd by done.
  destruct (deliver_continue _ _ _ _ _ _ Hd) as [Hk1 Hk2]. rewrite Hlen in Hk1, Hk2.
  exists r, s', k, t'. split; [done|]. split; [done|]. split; [by rewrite Ew, before_split|]. split.
  - rewrite (sr_pos _ _ (ak_reg _ _ _ _ Hak)), (ak_bit _ _ _ _ Hak), Eb by apply (registry_positions t Hr).
    unfold bits_of. rewrite bool_decide_false; [done|]. rewrite Ew, take_app_le by done.
    intros Hin. apply Hu1. by eapply elem_of_take in Hin as (i & Hi & _); eapply list_elem_of_lookup_2.
  - intros Hrc. rewrite Hm, Ew, (Hk2 Hrc). by rewrite drop_app_length.
Qed.

(** Two registered consumers; object 7 is published to consumer 1 only. *)
Definition two_consumers : tracked ChangeTracker :=
  run_all [Register 0; Register 1; Publish 7 [2]; Publish 8 [3]] (newTracker 4096).

Lemma two_consumers_ok : match two_consumers with Ok t => tracker_ok t | _ => False end.
Proof.
  assert (H2 : match run_all [Register 0; Register 1] (newTracker 4096) with Ok t => tracker_ok t | _ => False end).
  { pose proof (run_ok (Register 0) (newTracker 4096) (newTracker_ok 4096 ltac:(done)) I) as H. cbn [run_all].
    destruct (run (Register 0) (newTracker 4096)) as [t| |] eqn:E; [|by vm_compute in E..]. cbn [rbind].
    pose proof (run_ok (Register 1) t H I) as H1. destruct (run (Register 1) t) as [t1| |] eqn:E1; [done| |done].
    vm_compute in E. injection E as <-. by vm_compute in E1. }
  unfold two_consumers. change [Register 0; Register 1; Publish 7 [2]; Publish 8 [3]]
    with ([Register 0; Register 1] ++ [Publish 7 [2]; Publish 8 [3]]).
  assert (Happ : forall l1 l2 t, run_all (l1 ++ l2) t = let* t := run_all l1 t in run_all l2 t).
  { induction l1 as [|op l1 IH]; intros l2 t; [done|]. simpl. destruct (run op t); [apply IH|done|done]. }
  rewrite Happ. destruct (run_all [Register 0; Register 1] (newTracker 4096)) as [t| |] eqn:E; [|done..].
  cbn [rbind run_all run]. destruct (publish_ok 7 [2] t H2) as (t1 & E1 & Ht1 & _).
  { vm_compute in E. injection E as <-. apply addressable_small; [by left|done|by left|done|by left]. }
  rewrite E1. cbn [rbind]. destruct (publish_ok 8 [3] t1 Ht1) as (t2 & E2 & Ht2 & _).
  { vm_compute in E. injection E as <-. vm_compute in E1. injection E1 as <-.
    apply addressable_small; [by right|done|by right|done|by right]. }
  by rewrite E2.
Qed.


Lemma iterate_stops_at_boundary_witness :
  match two_consumers with
  | Ok t => exists r s' k t', iterateChangesUntilExcluding scripted 1 (Some 1%nat) [] t = Ok (false, s', t') /\
      tracker_ok t' /\ deliver scripted [] (objs t (before (Some 1%nat) (work t 1))) = (r, s', k) /\
      bitAt t' 1 (getBitPosition t' 1) = true /\ (r = CONTINUE -> getMarker t' 1 = Some 1%nat)
  | _ => False
  end.
Proof.
  pose proof two_consumers_ok as H. destruct two_consumers as [t| |] eqn:E; [|done..].
  assert (Hin : 1%nat ∈ changeList_ t /\ bitAt t 1 (getBitPosition t 1) = true).
  { vm_compute in E. injection E as <-. split; [right; left|done]. }
  pose proof (iterate_stops_at_boundary scripted 1 1 [] t H (proj1 Hin)) as Hs. by rewrite (proj2 Hin) in Hs.
Defined.

(** The callback is called for an object that was published to somebody else: a
    publication moves every ready consumer to the new item, and
    [iterateChangesUntilExcluding] does not look at the bit of the first item. *)
Theorem unaddressed_change_delivered :
  exists t t' w, run_all [Register 0; Register 1; Publish 7 [2]] (newTracker 4096) = Ok t /\
    owed t 0 = [] /\
    iterateChangesToEnd (fun (s : list nat) o => (CONTINUE, s ++ [o])) 0 [] t = Ok (w, [7%nat], t').
Proof. do 3 eexists. split; [vm_compute; reflexivity|]. split; vm_compute; reflexivity. Qed.

(** ** Everybody runs *)

Definition accept (_ : unit) (_ : nat) : ProcessResult * unit := (CONTINUE, tt).

Fixpoint drain (cs : list nat) (t : ChangeTracker) : tracked ChangeTracker :=
  match cs with
  | [] => Ok t
  | c :: cs => let* '(_, _, t) := iterateChangesToEnd accept c tt t in drain cs t
  end.

Lemma deliver_accept s os : deliver accept s os = (CONTINUE, tt, length os).
Proof. revert s. induction os as [|o os IH]; intros []; [done|]. simpl. by rewrite IH. Qed.

Lemma reported_trans t1 t2 t3 n1 n2 : reported t1 t2 n1 -> reported t2 t3 n2 -> reported t1 t3 (n1 ++ n2).
Proof.
  intros [L1 O1 N1] [L2 O2 N2]. constructor.
  - by rewrite L2, L1, app_assoc.
  - intros o. rewrite O1, O2, elem_of_app. tauto.
  - intros o [H|H]%elem_of_app Hon; [|by apply (N2 o)]. apply (N1 o H). apply O2. by left.
Qed.

Lemma drain_ok cs : forall t, tracker_ok t ->
  exists t' new, drain cs t = Ok t' /\ tracker_ok t' /\ reported t t' new /\
    (forall d, getBitPosition t' d = getBitPosition t d) /\
    forall d, owed t' d = if decide (d ∈ cs) then [] else owed t d.
Proof.
  induction cs as [|c cs IH]; intros t Hok.
  - exists t, []. split_and!; [done|done| |done|].
    + constructor; [by rewrite app_nil_r| |by intros o ?%elem_of_nil]. intros o. rewrite elem_of_nil. tauto.
    + intros d. by rewrite decide_False by apply not_elem_of_nil.
  - destruct (iterate_ok accept c None tt t Hok) as (r & s' & k & t1 & Hit & Hd & Hok1 & Hm & Hak); [done..|].
    pose proof Hok as [Hco _]. pose proof (co_placed _ _ _ Hco c ltac:(done)) as Hc.
    cbn [before] in Hd. rewrite work_objs, deliver_accept in Hd by done. injection Hd as <- <- <-.
    destruct (owed_consumed t t1 c _ Hok (proj1 Hok1) Hak) as [Ho Hoth].
    destruct (acked_reported _ _ _ _ Hak) as [n1 Hr1].
    destruct (IH t1 Hok1) as (t' & n2 & Hdr & Hok' & Hr2 & Hpos & Hq).
    exists t', (n1 ++ n2). cbn [drain]. unfold iterateChangesToEnd. rewrite Hit. cbn [rbind].
    split_and!; [done|done|by eapply reported_trans|intros d; rewrite Hpos; apply Hak|].
    intros d. rewrite Hq. destruct (decide (d = c)) as [->|Hdc].
    + rewrite (decide_True (P := c ∈ c :: cs)) by left. case_decide; [done|]. rewrite Ho, drop_ge; [done|].
      rewrite length_app. lia.
    + rewrite Hoth by done. destruct (decide (d ∈ cs)); [by rewrite decide_True by (by right)|].
      rewrite decide_False; [done|]. by intros [?|?]%elem_of_cons.
Qed.



(** ** Joining *)

Lemma filter_suffix (l : list nat) m :
  NoDup l -> filter (fun q => q ∈ l /\ q ∉ before m l) l = from m l.
Proof.
  intros Hnd. trans (filter (fun q => q ∈ l /\ q ∉ before m l) (before m l ++ from m l));
    [by rewrite <- before_from|]. rewrite filter_app.
  assert (H1 : filter (fun q => q ∈ l /\ q ∉ before m l) (before m l) = []).
  { destruct (filter _ (before m l)) as [|q k] eqn:E; [done|].
    assert (Hq : q ∈ filter (fun q => q ∈ l /\ q ∉ before m l) (before m l)) by (rewrite E; left).
    apply list_elem_of_filter in Hq as [[_ ?] ?]. done. }
  rewrite H1. cbn [app]. rewrite (filter_ext_in _ (fun _ => True)).
  - induction (from m l) as [|q k IH]; [done|]. by rewrite filter_cons_True, IH.
  - intros q Hq. split; [done|]. intros _. split; [rewrite (before_from m l); apply elem_of_app; by right|].
    apply (suffix_not_before _ (from m l)); [by rewrite <- before_from|done].
Qed.

(** Joining: a registered consumer that is at the end of the list takes the
    position of an existing one, its queue is every object from that position to
    the end of the list, and the other queues do not change; a consumer that is
    not registered is refused with [std::invalid_argument]. *)
Theorem join_adopts_position e n t :
  tracker_ok t -> getMarker t n = None ->
  if decide (getBitPosition t n = npos) then joinConsumer e n t = Throw InvalidArgument
  else exists t', joinConsumer e n t = Ok t' /\ tracker_ok t' /\ getMarker t' n = getMarker t e /\
    owed t' n = objs t (from (getMarker t e) (changeList_ t)) /\
    (forall d, d <> n -> owed t' d = owed t d).
Proof.
  intros Hok Hm. pose proof Hok as [Hco Hr]. pose proof (join_ok e n t Hok) as Hj.
  destruct (joinConsumer e n t) as [t'|x|]; [|by destruct Hj as [-> Hn]; rewrite decide_True|done].
  destruct Hj as (Hn & Hok' & Hl & _ & _ & Hobj & Hpos & Hj). rewrite decide_False by done.
  exists t'. split; [done|]. split; [done|]. rewrite Hm in Hj.
  assert (Hnone : owed_items t n = []) by (by apply (work_owed t n (co_placed _ _ _ Hco n ltac:(done)))).
  destruct (getMarker t e) as [p|] eqn:Eme.
  - destruct Hj as [Hmk Hbit]. split; [done|]. unfold owed. rewrite Hl. split.
    + rewrite Hpos. rewrite (objs_ext t t') by (intros; apply Hobj). f_equal.
      rewrite <- filter_suffix by apply Hco. apply filter_ext_in. intros q Hq.
      rewrite Hbit by apply (registry_positions t Hr). rewrite orb_true_iff, bool_decide_eq_true.
      split; [|tauto]. intros [Hb|[H _]]; [|done]. exfalso.
      assert (Hin : q ∈ owed_items t n) by by apply list_elem_of_filter. rewrite Hnone in Hin. by apply elem_of_nil in Hin.
    + intros d Hd. rewrite Hpos. rewrite (objs_ext t t') by (intros; apply Hobj). f_equal. apply filter_ext_in. intros q Hq.
      rewrite Hbit by apply (registry_positions t Hr). rewrite orb_true_iff, bool_decide_eq_true.
      split; [|by left]. intros [Hb|[_ Hb]]; [done|]. destruct Hd. symmetry. by apply (registry_inj t).
  - subst t'. split; [done|]. split; [|done]. rewrite owed_items_owed, Hnone. unfold from. simpl. by rewrite drop_all.
Qed.

Lemma join_adopts_position_witness :
  match two_consumers with
  | Ok t => match run (Register 2) t with
            | Ok t => exists t', joinConsumer 1 2 t = Ok t' /\ tracker_ok t' /\ getMarker t' 2 = getMarker t 1 /\
                owed t' 2 = objs t (from (getMarker t 1) (changeList_ t)) /\
                (forall d, d <> 2%nat -> owed t' d = owed t d)
            | _ => False
            end
  | _ => False
  end.
Proof.
  pose proof two_consumers_ok as H.
  assert (Hf : match two_consumers with
               | Ok t => match run (Register 2) t with
                         | Ok t2 => (getBitPosition t2 2 =? 2) && bool_decide (getMarker t2 2 = None)
                         | _ => false
                         end
               | _ => false
               end = true) by (vm_compute; reflexivity).
  destruct two_consumers as [t| |]; [|done..]. pose proof (run_ok (Register 2) t H I) as H2.
  destruct (run (Register 2) t) as [t2| |]; [|done..].
  apply andb_true_iff in Hf as [Hp Hm]. apply Z.eqb_eq in Hp. apply bool_decide_eq_true in Hm.
  pose proof (join_adopts_position 1 2 t2 H2 Hm) as Hj. rewrite decide_False in Hj; [done|].
  rewrite Hp. done.
Defined.
