(* ===== verification/RouteFilter.v ===== *)
(** * Route filters

    routelib/RouteFilter.h, RouteFilter.cpp and RouteBase.h: the metrics of a
    route, the four kinds of filter and the factory that builds a filter from its
    configuration.

    A [std::shared_ptr<RouteBase>] is a pointer into a store; a filter reads the
    pointed-to routes through the virtual getters of [RouteBase], here the class
    of that name.  [None] is the end of the process by [XLOG(FATAL)] or [CHECK]. *)

From stdpp Require Import gmap.
From S2P Require Import Prelude.

(** ** Configuration *)

Inductive RouteMetric :=
| BGP_LOCAL_PREFERENCE | BGP_AS_PATH_LEN | BGP_ORIGIN_CODE | BGP_MED_VALUE | DELETED_ROUTE
| CONTROLLER_COMMUNITY | BGP_ROUTER_ID | BGP_PEER_ASN | CONTROLLER_COMMUNITY_METRO | PREFIX_LENGTH
| PERF_DETOUR_ROUTE_OVERRIDE | ALREADY_PREFERRED_ROUTE | EXTERNAL_ROUTE | LOCAL_ROUTE | BGP_PEER_IP
| BGP_CLUSTER_LIST_LEN | CONFED_EXTERNAL_ROUTE | BGP_AS_PATH_LEN_WITH_CONFED | BGP_PEER_NEXTHOP
| BGP_WEIGHT_VALUE | IGP_COST.

#[export] Instance RouteMetric_eq_dec : EqDecision RouteMetric.
Proof. solve_decision. Defined.

Inductive HighestLowestRouteFilterAction := CHOOSE_HIGHEST | CHOOSE_LOWEST.
Inductive MembershipRouteFilterAction := CHOOSE_MEMBER | CHOOSE_NONMEMBER.

Inductive RouteFilterOpts :=
| RangedRouteFilterOpts (minValue maxValue : Z)
| HighestLowestRouteFilterOpts (action : HighestLowestRouteFilterAction)
| MembershipRouteFilterOpts (action : MembershipRouteFilterAction) (metricValues : list Z)
| RecoverEquivalentRouteFilterOpts (tiebreakerConfigs : list RouteFilterConfig)
with RouteFilterConfig := mkConfig (metric : RouteMetric) (opts : RouteFilterOpts).

Definition cfg_metric (c : RouteFilterConfig) : RouteMetric := let 'mkConfig m _ := c in m.

(** ** Routes *)

Abbreviation ptr := positive.

(** The virtual functions of [RouteBase] the library calls.  [None] where the call can
    end the process: the controller preferences are [CHECK(false)] in [RouteInfo], an
    address without a family has no integer value, the local preference may be unset. *)
Class RouteBase (R : Type) := {
  getBgpPrefixLength : R -> Z;
  getBgpLocalPreference : R -> option Z;
  getBgpAsPathLen : R -> Z;
  getBgpAsPathLenWithConfed : R -> Z;
  getBgpOriginCode : R -> Z;
  getBgpMedValue : R -> Z;
  getBgpWeightValue : R -> Z;
  getIsRoutePreferred : R -> bool;
  setRoutePreferred : R -> R;
  clearRoutePreferred : R -> R;
  getBgpRouterId : R -> Z;
  getBgpPeerIPAsInt : R -> option Z;
  getBgpNexthopAsInt : R -> option Z;
  getIsRouteExternal : R -> bool;
  getIsRouteConfedExternal : R -> bool;
  getIsRouteDeleted : R -> bool;
  getOriginAsnAndPeerAsn : R -> Z * Z;
  getBgpClusterListLen : R -> Z;
  getRouterLevelPreferenceFromControllerCommunities : R -> option Z;
  getMetroLevelPreferenceFromControllerCommunities : R -> option Z;
  getIgpCostValue : R -> Z;
  clearBestPathFilterCriteria : R -> R;
  setBestPathFilterCriteria : RouteFilterConfig -> R -> R
}.

(** [Rule]: every getter's result is converted to [__uint128_t]. *)
Abbreviation Rule R := (R -> option Z).

(** The filter classes. *)
Inductive RouteFilter (R : Type) :=
| mkFilter (routeFilterConfig_ : RouteFilterConfig) (rule_ : Rule R) (class_ : FilterClass R)
with FilterClass (R : Type) :=
| RangedRouteFilter (minValue_ maxValue_ : Z)
| HighestLowestRouteFilter (action_ : HighestLowestRouteFilterAction)
| MembershipRouteFilter (action_ : MembershipRouteFilterAction) (metricValues_ : list Z)
| RecoverEquivalentRouteFilter (tiebreakers_ : list (RouteFilter R)).
Arguments mkFilter {R}.
Arguments RangedRouteFilter {R}.
Arguments HighestLowestRouteFilter {R}.
Arguments MembershipRouteFilter {R}.
Arguments RecoverEquivalentRouteFilter {R}.

Definition f_config {R} (f : RouteFilter R) : RouteFilterConfig := let 'mkFilter c _ _ := f in c.
Definition f_rule {R} (f : RouteFilter R) : Rule R := let 'mkFilter _ r _ := f in r.
Definition f_class {R} (f : RouteFilter R) : FilterClass R := let 'mkFilter _ _ k := f in k.
Definition getRouteMetric {R} (f : RouteFilter R) : RouteMetric := cfg_metric (f_config f).

(** ** The factory *)

Section Factory.
Context {R : Type} `{RouteBase R}.

Definition u128 (v : Z) : Z := uint 128 v.
Definition rule_of (g : R -> Z) : Rule R := fun r => Some (u128 (g r)).
Definition rule_of_bool (g : R -> bool) : Rule R := rule_of (fun r => Z.b2z (g r)).
Definition rule_of_option (g : R -> option Z) : Rule R := fun r => u128 <$> g r.

(** The switch of [RouteFilter::fromRouteFilterConfig]; the default case is fatal. *)
Definition metric_rule (metric : RouteMetric) : option (Rule R) :=
  match metric with
  | BGP_LOCAL_PREFERENCE => Some (rule_of_option getBgpLocalPreference)
  | BGP_AS_PATH_LEN => Some (rule_of getBgpAsPathLen)
  | BGP_AS_PATH_LEN_WITH_CONFED => Some (rule_of getBgpAsPathLenWithConfed)
  | BGP_ORIGIN_CODE => Some (rule_of getBgpOriginCode)
  | BGP_MED_VALUE => Some (rule_of getBgpMedValue)
  | DELETED_ROUTE => Some (rule_of_bool getIsRouteDeleted)
  | CONTROLLER_COMMUNITY =>
      Some (rule_of_option getRouterLevelPreferenceFromControllerCommunities)
  | BGP_ROUTER_ID => Some (rule_of getBgpRouterId)
  | BGP_PEER_ASN => Some (rule_of (fun r => snd (getOriginAsnAndPeerAsn r)))
  | CONTROLLER_COMMUNITY_METRO =>
      Some (rule_of_option getMetroLevelPreferenceFromControllerCommunities)
  | PREFIX_LENGTH => Some (rule_of getBgpPrefixLength)
  | ALREADY_PREFERRED_ROUTE => Some (rule_of_bool getIsRoutePreferred)
  | EXTERNAL_ROUTE => Some (rule_of_bool getIsRouteExternal)
  | BGP_PEER_IP => Some (rule_of_option getBgpPeerIPAsInt)
  | BGP_PEER_NEXTHOP => Some (rule_of_option getBgpNexthopAsInt)
  | BGP_CLUSTER_LIST_LEN => Some (rule_of getBgpClusterListLen)
  | CONFED_EXTERNAL_ROUTE => Some (rule_of_bool getIsRouteConfedExternal)
  | BGP_WEIGHT_VALUE => Some (rule_of getBgpWeightValue)
  | IGP_COST => Some (rule_of getIgpCostValue)
  | PERF_DETOUR_ROUTE_OVERRIDE | LOCAL_ROUTE => None
  end.

Fixpoint fromRouteFilterConfig (c : RouteFilterConfig) : option (RouteFilter R) :=
  match c with
  | mkConfig metric opts =>
      match metric_rule metric with
      | Some rule => createRouteFilter c opts rule
      | None => None
      end
  end
with createRouteFilter (c : RouteFilterConfig) (opts : RouteFilterOpts) (rule : Rule R)
    {struct opts} : option (RouteFilter R) :=
  match opts with
  | RangedRouteFilterOpts minValue maxValue =>
      Some (mkFilter c rule (RangedRouteFilter minValue maxValue))
  | HighestLowestRouteFilterOpts action =>
      Some (mkFilter c rule (HighestLowestRouteFilter action))
  | MembershipRouteFilterOpts action metricValues =>
      Some (mkFilter c rule (MembershipRouteFilter action metricValues))
  | RecoverEquivalentRouteFilterOpts tiebreakerConfigs =>
      (fix fromRouteFilterConfigVec (cs : list RouteFilterConfig) acc :=
         match cs with
         | [] => Some (mkFilter c rule (RecoverEquivalentRouteFilter (rev acc)))
         | c' :: cs' => match fromRouteFilterConfig c' with
                        | Some f => fromRouteFilterConfigVec cs' (f :: acc)
                        | None => None
                        end
         end) tiebreakerConfigs []
  end.
End Factory.

(** ** Filtering *)

Section Filtering.
Context {R : Type} `{RouteBase R}.
(** The routes the pointers refer to. *)
Variable h : ptr -> R.

Abbreviation AcceptedAndRejectedRoutes := (list ptr * list ptr)%type.
(** [folly::Optional] of a pointer to the map of first rejections. *)
Abbreviation FilterMap := (option (gmap ptr RouteFilterConfig)).

Definition getRouteWeights (f : RouteFilter R) (routes : list ptr) : option (list Z) :=
  mapM (fun p => f_rule f (h p)) routes.

Definition captureRejectedFilter (c : RouteFilterConfig) (filterMap : FilterMap) (p : ptr)
    : FilterMap :=
  match filterMap with
  | Some fm => match fm !! p with None => Some (<[p := c]> fm) | Some _ => Some fm end
  | None => None
  end.

(** The loop shared by the filters: route [i] is accepted or rejected by its weight. *)
Fixpoint partitionRoutes (c : RouteFilterConfig) (keep : Z -> bool) (routes : list ptr)
    (weights : list Z) (filterMap : FilterMap) : AcceptedAndRejectedRoutes * FilterMap :=
  match routes, weights with
  | p :: routes', w :: weights' =>
      if keep w then
        let '(acc, rej, fm) := partitionRoutes c keep routes' weights' filterMap in
        (p :: acc, rej, fm)
      else
        let '(acc, rej, fm) :=
          partitionRoutes c keep routes' weights' (captureRejectedFilter c filterMap p) in
        (acc, p :: rej, fm)
  | _, _ => ([], [], filterMap)
  end.

(** [*std::max_element] and [*std::min_element] of a non-empty range *)
Definition targetWeight (action : HighestLowestRouteFilterAction) (w : Z) (ws : list Z) : Z :=
  match action with
  | CHOOSE_HIGHEST => fold_left Z.max ws w
  | CHOOSE_LOWEST => fold_left Z.min ws w
  end.

(** [unordered_set<int64_t>::find] converts the weight to [int64_t]. *)
Definition isMember (metricValues : list Z) (w : Z) : bool :=
  bool_decide (sint 64 w ∈ metricValues).

Definition membershipKeep (action : MembershipRouteFilterAction) (metricValues : list Z) (w : Z)
    : bool :=
  match action with
  | CHOOSE_MEMBER => isMember metricValues w
  | CHOOSE_NONMEMBER => negb (isMember metricValues w)
  end.

(** The recovery loop: every accepted route brings back the rejected routes with its
    metric value; the routes still rejected go to the next iteration. *)
Fixpoint recoverRoutes (rule : Rule R) (routes : list ptr) (weights : list Z)
    (rejected : list ptr) : option AcceptedAndRejectedRoutes :=
  match routes, weights with
  | p :: routes', w :: weights' =>
      ws ← mapM (fun q => rule (h q)) rejected;
      let same := fst <$> filter (fun qv => qv.2 = w) (zip rejected ws) in
      let remaining := fst <$> filter (fun qv => qv.2 <> w) (zip rejected ws) in
      '(acc, rej) ← recoverRoutes rule routes' weights' remaining;
      Some (p :: same ++ acc, rej)
  | _, _ => Some ([], rejected)
  end.

(** The virtual [filter]. *)
Fixpoint filterRoutes (f : RouteFilter R) (previous : AcceptedAndRejectedRoutes)
    (filterMap : FilterMap) {struct f} : option (AcceptedAndRejectedRoutes * FilterMap) :=
  match f with
  | mkFilter c rule class_ =>
      match class_ with
      | HighestLowestRouteFilter action =>
          weights ← mapM (fun p => rule (h p)) previous.1;
          match weights with
          | [] => Some ([], [], filterMap)
          | w :: ws =>
              Some (partitionRoutes c (fun v => v =? targetWeight action w ws)
                      previous.1 weights filterMap)
          end
      | RangedRouteFilter minValue maxValue =>
          weights ← mapM (fun p => rule (h p)) previous.1;
          Some (partitionRoutes c (fun v => (u128 minValue <=? v) && (v <=? u128 maxValue))
                  previous.1 weights filterMap)
      | MembershipRouteFilter action metricValues =>
          weights ← mapM (fun p => rule (h p)) previous.1;
          Some (partitionRoutes c (membershipKeep action metricValues)
                  previous.1 weights filterMap)
      | RecoverEquivalentRouteFilter tiebreakers =>
          let rejected := match tiebreakers with [] => previous.2 | _ => [] end in
          '(prevRoutes, rejectedRoutes, fm) ←
            (fix run (ts : list (RouteFilter R)) (prev : AcceptedAndRejectedRoutes)
                 (rejected : list ptr) (fm : FilterMap) :=
               match ts with
               | [] => Some (prev, rejected, fm)
               | t :: ts' =>
                   match filterRoutes t prev fm with
                   | Some (prev', fm') => run ts' prev' (prev'.2 ++ rejected) fm'
                   | None => None
                   end
               end) tiebreakers previous rejected filterMap;
          weights ← mapM (fun p => rule (h p)) prevRoutes.1;
          result ← recoverRoutes rule prevRoutes.1 weights rejectedRoutes;
          Some (result, fm)
      end
  end.

Definition comparable (f : RouteFilter R) : bool :=
  match f_class f with HighestLowestRouteFilter _ => true | _ => false end.

(** [compare]: fatal unless the filter is comparable. *)
Definition compare (f : RouteFilter R) (ri1 ri2 : ptr) : option bool :=
  match f_class f with
  | HighestLowestRouteFilter action =>
      w1 ← f_rule f (h ri1);
      w2 ← f_rule f (h ri2);
      Some (match action with CHOOSE_HIGHEST => w1 <? w2 | CHOOSE_LOWEST => w2 <? w1 end)
  | _ => None
  end.
End Filtering.

(** ** What a filter keeps *)

Section FilterFacts.
Context {R : Type} `{RouteBase R}.
Variable h : ptr -> R.

(** The rule of [f] gives a value on every route of the list. *)
Definition ruled (f : RouteFilter R) (routes : list ptr) : Prop :=
  Forall (fun p => is_Some (f_rule f (h p))) routes.

Definition weight (f : RouteFilter R) (p : ptr) : Z := default 0 (f_rule f (h p)).

(** Ranged and membership filters look at one route at a time, highest-lowest filters
    compare it with the others. *)
Definition absolute (f : RouteFilter R) : bool :=
  match f_class f with RangedRouteFilter _ _ | MembershipRouteFilter _ _ => true | _ => false end.

Definition flat (f : RouteFilter R) : bool := absolute f || comparable f.

Definition passes (f : RouteFilter R) (p : ptr) : bool :=
  match f_class f with
  | RangedRouteFilter minValue maxValue =>
      (u128 minValue <=? weight f p) && (weight f p <=? u128 maxValue)
  | MembershipRouteFilter action metricValues => membershipKeep action metricValues (weight f p)
  | _ => true
  end.

(** [better f q p]: the filter prefers [q] to [p]. *)
Definition better (f : RouteFilter R) (q p : ptr) : bool :=
  match f_class f with
  | HighestLowestRouteFilter CHOOSE_HIGHEST => weight f p <? weight f q
  | HighestLowestRouteFilter CHOOSE_LOWEST => weight f q <? weight f p
  | _ => false
  end.

(** The routes a flat filter keeps among [routes]. *)
Definition kept (f : RouteFilter R) (routes : list ptr) (p : ptr) : bool :=
  if absolute f then passes f p else forallb (fun q => negb (better f q p)) routes.

(** The map after the routes of a list that fail a test were recorded under [c]. *)
Definition captured (c : RouteFilterConfig) (keep : ptr -> bool) (routes : list ptr)
    (m : gmap ptr RouteFilterConfig) (p : ptr) : option RouteFilterConfig :=
  match m !! p with
  | Some c' => Some c'
  | None => if bool_decide (p ∈ routes) && negb (keep p) then Some c else None
  end.

Lemma mapM_weights f routes :
  ruled f routes -> mapM (fun p => f_rule f (h p)) routes = Some (map (weight f) routes).
Proof.
  intros Hr. apply mapM_Some. induction Hr as [|p l [w Hw] _ IH]; simpl; constructor; [|done].
  unfold weight. by rewrite Hw.
Qed.

Lemma capture_cons c keep p routes m q :
  keep p = false ->
  captured c keep (p :: routes) m q =
  captured c keep routes (match m !! p with None => <[p := c]> m | Some _ => m end) q.
Proof.
  intros Hk. unfold captured. destruct (decide (q = p)) as [->|Hne].
  - rewrite bool_decide_eq_true_2 by left. rewrite Hk. simpl.
    destruct (m !! p) eqn:E; [by rewrite E|]. by rewrite lookup_insert_eq.
  - assert ((match m !! p with None => <[p := c]> m | Some _ => m end) !! q = m !! q) as ->.
    { case_match; [done|]. by rewrite lookup_insert_ne. }
    rewrite (bool_decide_ext (q ∈ p :: routes) (q ∈ routes)); [done|].
    rewrite elem_of_cons. tauto.
Qed.

Lemma partitionRoutes_spec c (wf : ptr -> Z) (keep : Z -> bool) routes fm :
  exists fm', partitionRoutes c keep routes (map wf routes) fm
    = ((List.filter (fun p => keep (wf p)) routes, List.filter (fun p => negb (keep (wf p))) routes), fm')
  /\ match fm with
     | None => fm' = None
     | Some m => exists m', fm' = Some m' /\
         forall p, m' !! p = captured c (fun p => keep (wf p)) routes m p
     end.
Proof.
  revert fm. induction routes as [|p routes IH]; intros fm.
  { exists fm. split; [done|]. destruct fm as [m|]; [|done]. exists m. split; [done|].
    intros p. unfold captured. rewrite bool_decide_eq_false_2 by apply not_elem_of_nil.
    by destruct (m !! p). }
  simpl. destruct (keep (wf p)) eqn:Hk; cbn [negb].
  - destruct (IH fm) as (fm' & -> & Hfm). exists fm'. split; [done|].
    destruct fm as [m|]; [|done]. destruct Hfm as (m' & -> & Hm). exists m'. split; [done|].
    intros q. rewrite Hm. unfold captured. destruct (m !! q); [done|].
    destruct (decide (q = p)) as [->|Hne].
    + rewrite Hk. simpl. by rewrite !andb_false_r.
    + rewrite (bool_decide_ext (q ∈ p :: routes) (q ∈ routes)); [done|].
      rewrite elem_of_cons. tauto.
  - destruct (IH (captureRejectedFilter c fm p)) as (fm' & -> & Hfm). exists fm'. split; [done|].
    destruct fm as [m|]; [|done]. unfold captureRejectedFilter in Hfm.
    assert ((match m !! p with None => Some (<[p := c]> m) | Some _ => Some m end)
            = Some (match m !! p with None => <[p := c]> m | Some _ => m end)) as E
      by (by destruct (m !! p)).
    rewrite E in Hfm. destruct Hfm as (m' & -> & Hm). exists m'. split; [done|].
    intros q. rewrite Hm. by rewrite <- capture_cons.
Qed.

(** The weight chosen by a highest-lowest filter is that of a best route. *)
Lemma targetWeight_spec action w ws :
  (targetWeight action w ws ∈ w :: ws) /\
  forall v, v ∈ w :: ws ->
    match action with
    | CHOOSE_HIGHEST => v <= targetWeight action w ws
    | CHOOSE_LOWEST => targetWeight action w ws <= v
    end.
Proof.
  revert w. induction ws as [|u ws IH]; intros w.
  { destruct action; simpl; (split; [by left|]); intros v ->%list_elem_of_singleton; lia. }
  destruct action; simpl; [pose proof (IH (Z.max w u)) as [Hin Hle]|pose proof (IH (Z.min w u)) as [Hin Hle]];
    unfold targetWeight in *; (split; [|intros v Hv]).
  - apply elem_of_cons in Hin as [->|Hin]; [|by right; right].
    destruct (Z.max_spec w u) as [[_ ->]|[_ ->]]; [right; left|left].
  - apply elem_of_cons in Hv as [->|Hv]; [|apply elem_of_cons in Hv as [->|Hv]].
    + specialize (Hle (Z.max w u) ltac:(left)). lia.
    + specialize (Hle (Z.max w u) ltac:(left)). lia.
    + apply Hle. by right.
  - apply elem_of_cons in Hin as [->|Hin]; [|by right; right].
    destruct (Z.min_spec w u) as [[_ ->]|[_ ->]]; [left|right; left].
  - apply elem_of_cons in Hv as [->|Hv]; [|apply elem_of_cons in Hv as [->|Hv]].
    + specialize (Hle (Z.min w u) ltac:(left)). lia.
    + specialize (Hle (Z.min w u) ltac:(left)). lia.
    + apply Hle. by right.
Qed.

Lemma target_kept f action p0 routes p :
  f_class f = HighestLowestRouteFilter action -> p ∈ p0 :: routes ->
  (weight f p =? targetWeight action (weight f p0) (map (weight f) routes))
  = kept f (p0 :: routes) p.
Proof.
  intros Hc Hp. destruct (targetWeight_spec action (weight f p0) (map (weight f) routes)) as [Hin Hle].
  set (t := targetWeight _ _ _) in *.
  change (weight f p0 :: map (weight f) routes) with (weight f <$> p0 :: routes) in *.
  apply list_elem_of_fmap in Hin as (q0 & Ht & Hq0).
  assert (forall q, q ∈ p0 :: routes -> weight f q ∈ weight f <$> p0 :: routes) as Hw
    by (intros q Hq; apply list_elem_of_fmap; eauto).
  unfold kept, absolute, better. rewrite Hc. apply eq_true_iff_eq. rewrite forallb_forall, Z.eqb_eq.
  split.
  - intros E q Hq%list_elem_of_In. specialize (Hle _ (Hw q Hq)). rewrite E.
    destruct action; rewrite negb_true_iff; apply Z.ltb_ge; lia.
  - intros Hall. specialize (Hall q0 ltac:(by apply list_elem_of_In)). specialize (Hle _ (Hw p Hp)).
    rewrite Ht in *. destruct action; rewrite negb_true_iff, Z.ltb_ge in Hall; lia.
Qed.

Lemma List_filter_ext_in {A} (P Q : A -> bool) l :
  (forall x, x ∈ l -> P x = Q x) -> List.filter P l = List.filter Q l.
Proof. intros HPQ. apply List.filter_ext_in. intros x Hx%list_elem_of_In. auto. Qed.

Lemma captured_ext c (k1 k2 : ptr -> bool) routes m p :
  (forall q, q ∈ routes -> k1 q = k2 q) -> captured c k1 routes m p = captured c k2 routes m p.
Proof.
  intros Hk. unfold captured. destruct (m !! p); [done|].
  case_bool_decide; [by rewrite Hk|done].
Qed.

(** A flat filter splits the accepted routes by [kept], in order, and records its
    configuration for those it drops. *)
Lemma filterRoutes_flat f routes rejected fm :
  flat f = true -> ruled f routes ->
  exists fm', filterRoutes h f (routes, rejected) fm
    = Some ((List.filter (kept f routes) routes,
             List.filter (fun p => negb (kept f routes p)) routes), fm')
  /\ match fm with
     | None => fm' = None
     | Some m => exists m', fm' = Some m' /\
         forall p, m' !! p = captured (f_config f) (kept f routes) routes m p
     end.
Proof.
  intros Hf Hr. destruct f as [c rule k]. unfold flat, absolute, comparable in Hf; simpl in Hf.
  pose proof (mapM_weights _ _ Hr) as HM. simpl in HM.
  set (f := mkFilter c rule k) in *.
  assert (Hgen : forall keep, (forall p, p ∈ routes -> keep (weight f p) = kept f routes p) ->
    exists fm', Some (partitionRoutes c keep routes (map (weight f) routes) fm)
    = Some ((List.filter (kept f routes) routes,
             List.filter (fun p => negb (kept f routes p)) routes), fm')
    /\ match fm with
       | None => fm' = None
       | Some m => exists m', fm' = Some m' /\
           forall p, m' !! p = captured c (kept f routes) routes m p
       end).
  { intros keep Hk. destruct (partitionRoutes_spec c (weight f) keep routes fm) as (fm' & -> & Hfm).
    exists fm'. split.
    - do 3 f_equal; apply List_filter_ext_in; intros p Hp; by rewrite Hk.
    - destruct fm as [m|]; [|done]. destruct Hfm as (m' & -> & Hm). exists m'. split; [done|].
      intros p. rewrite Hm. by apply captured_ext. }
  destruct k as [minV maxV|action|action vals|ts]; simpl in Hf; [| | |done];
    unfold f at 1; cbn [filterRoutes fst]; rewrite HM; cbn [mbind option_bind].
  - apply Hgen. intros p _. done.
  - destruct routes as [|p0 routes]; [cbn|cbn [map]].
    + exists fm. split; [done|]. destruct fm as [m|]; [|done]. exists m. split; [done|].
      intros p. unfold captured. rewrite bool_decide_eq_false_2 by apply not_elem_of_nil.
      by destruct (m !! p).
    + apply (Hgen (fun v => v =? _)). intros p Hp. by apply (target_kept f).
  - apply Hgen. intros p _. done.
Qed.
End FilterFacts.
