(* ===== verification/RouteInfo.v ===== *)
(** * The routes of the RIB

    common/RouteInfo.h and RouteInfo.cpp, with what they use of common/BgpPath.h,
    common/Structs.h, common/FeatureFlags.h and nexthopTracker/NexthopStatus.h:
    one path for a prefix, learned from a peer, and its instance of [RouteBase]. *)

From stdpp Require Import gmap strings.
From Stdlib Require Import SpecFloat.
From S2P Require Import Prelude BgpException Folly BgpStructs RouteFilter.

(** ** Feature flags *)

Record BgpBestpathFeatures := mkFeatures {
  enableMedComparison : bool;
  enableMedMissingAsWorst : bool;
  enableWeightComparison : bool;
  enableNextHopTracking : bool;
  nextHopTrackingUseOpenrIgpCost : bool;
  enableEiBgpMultipath : bool
}.

(** ** Next hops *)

Record NexthopStatus := mkNexthopStatus {
  ns_nexthop : IPAddress;
  ns_isReachable : bool;
  ns_igpCost : option Z;
  ns_isConnected : option bool;
  ns_excludeNexthopWithoutCost : bool
}.

Definition newNexthopStatus (nexthop : IPAddress) (isReachable : bool) (igpCost : option Z)
    (isConnected : option bool) (excludeNexthopWithoutCost : bool) : NexthopStatus :=
  mkNexthopStatus nexthop isReachable (if isReachable then igpCost else None) isConnected
    excludeNexthopWithoutCost.

Definition ns_isResolvedForSelection (s : NexthopStatus) : bool :=
  ns_isReachable s &&
  (match ns_igpCost s with Some _ => true | None => false end
   || negb (ns_excludeNexthopWithoutCost s)).

(** ** Peers and paths *)

Inductive BgpSessionType := EBGP | IBGP | ConfedEBGP.
#[export] Instance BgpSessionType_eq_dec : EqDecision BgpSessionType.
Proof. solve_decision. Defined.

Record TinyPeerInfo := mkPeer {
  peer_addr : IPAddress;
  peer_asn : Z;
  peer_routerId : Z;
  peer_sessionType : BgpSessionType;
  peer_isRrClient : bool;
  peer_isRedistributePeer : bool;
  peer_ucmpWeight : option spec_float;
  peer_description : string
}.

Definition kLocalRoutePeerAddr : IPAddress := IPV4 [0; 0; 0; 0].

(** The fields of a published [BgpPath] that selection reads; [path_lbw] is the value
    of the non-transitive link bandwidth community. *)
Record BgpPath := mkPath {
  path_origin : Z;
  path_asPath : list BgpAttrAsPathSegment;
  path_nexthop : IPAddress;
  path_isMedSet : bool;
  path_med : Z;
  path_localPref : option Z;
  path_originatorId : Z;
  path_clusterList : list Z;
  path_weight : Z;
  path_lbw : option spec_float;
  path_topologyInfo : option (gmap string Z)
}.

Definition kMedMax : Z := 2 ^ 32 - 1.

(** What the functions of this file read besides the route: the feature flags and the
    objects [nexthopInfo_] may point to. *)
Class RibContext := {
  features : BgpBestpathFeatures;
  nexthopInfos : ptr -> NexthopStatus
}.

Section BgpPathGetters.
Context `{RibContext}.

Definition getMedNotSetValue : Z := if enableMedMissingAsWorst features then kMedMax else 0.

Definition getMed (p : BgpPath) : Z :=
  if negb (path_isMedSet p) then getMedNotSetValue else path_med p.

(** [BgpPath::getBgpAsPathLenWithConfed] *)
Definition segmentLenWithConfed (segment : BgpAttrAsPathSegment) : Z :=
  if nonempty (asSet segment) || nonempty (asConfedSet segment) then 1
  else if nonempty (asSequence segment) then blen (asSequence segment)
  else blen (asConfedSequence segment).

Definition pathLenWithConfed (p : BgpPath) : Z :=
  fold_left (fun len segment => len + segmentLenWithConfed segment) (path_asPath p) 0.
End BgpPathGetters.

(** ** RouteInfo *)

(** [RouteStateFlags] *)
Definition NONE : Z := 0x00.
Definition DELETED : Z := 0x01.
Definition PREFERRED : Z := 0x02.
Definition LOCAL : Z := 0x04.
Definition EXTERNAL : Z := 0x08.
Definition CONFED_EXTERNAL : Z := 0x10.

Definition has_state (status flag : Z) : bool := Z.land status flag =? flag.
Definition set_state (status flag : Z) : Z := Z.lor status flag.
Definition clear_state (status flag : Z) : Z := Z.land status (uint 32 (Z.lnot flag)).

(** [attrs] is the address of a published, hence immutable, [BgpPath] with its value. *)
Record RouteInfo := mkRouteInfo {
  ri_prefix : CIDRNetwork;
  ri_peer : TinyPeerInfo;
  ri_attrs : ptr * BgpPath;
  ri_receivedPathId : Z;
  ri_pathIdToSend : option Z;
  ri_installToFib : bool;
  ri_status : Z;
  ri_bestPathFilterConfig : option RouteFilterConfig;
  ri_ucmpWeight : option spec_float;
  ri_nexthopInfo : option ptr
}.

Definition ri_set_status (v : Z) (r : RouteInfo) : RouteInfo :=
  mkRouteInfo (ri_prefix r) (ri_peer r) (ri_attrs r) (ri_receivedPathId r) (ri_pathIdToSend r)
    (ri_installToFib r) v (ri_bestPathFilterConfig r) (ri_ucmpWeight r) (ri_nexthopInfo r).
Definition ri_set_pathIdToSend (v : option Z) (r : RouteInfo) : RouteInfo :=
  mkRouteInfo (ri_prefix r) (ri_peer r) (ri_attrs r) (ri_receivedPathId r) v
    (ri_installToFib r) (ri_status r) (ri_bestPathFilterConfig r) (ri_ucmpWeight r)
    (ri_nexthopInfo r).
Definition ri_set_bestPathFilterConfig (v : option RouteFilterConfig) (r : RouteInfo) : RouteInfo :=
  mkRouteInfo (ri_prefix r) (ri_peer r) (ri_attrs r) (ri_receivedPathId r) (ri_pathIdToSend r)
    (ri_installToFib r) (ri_status r) v (ri_ucmpWeight r) (ri_nexthopInfo r).
Definition setNexthopInfo (v : option ptr) (r : RouteInfo) : RouteInfo :=
  mkRouteInfo (ri_prefix r) (ri_peer r) (ri_attrs r) (ri_receivedPathId r) (ri_pathIdToSend r)
    (ri_installToFib r) (ri_status r) (ri_bestPathFilterConfig r) (ri_ucmpWeight r) v.

(** The constructor; [CHECK]s that the path has a local preference.  The time of
    the last modification is not kept. *)
Definition newRouteInfo (prefix : CIDRNetwork) (peer : TinyPeerInfo) (attrs : ptr * BgpPath)
    (receivedPathId : Z) (pathIdToSend : option Z) (installToFib : bool) : option RouteInfo :=
  match path_localPref attrs.2 with
  | None => None
  | Some _ =>
      let status :=
        if bool_decide (peer_addr peer = kLocalRoutePeerAddr) then set_state NONE LOCAL
        else if bool_decide (peer_sessionType peer = EBGP) then set_state NONE EXTERNAL
        else if bool_decide (peer_sessionType peer = ConfedEBGP)
        then set_state NONE CONFED_EXTERNAL
        else NONE in
      let ucmpWeight :=
        match path_lbw attrs.2 with
        | Some lbw => if SFleb (S754_zero false) lbw then Some lbw else None
        | None => None
        end in
      Some (mkRouteInfo prefix peer attrs receivedPathId pathIdToSend installToFib status
              None ucmpWeight None)
  end.

Definition getUcmpWeight (r : RouteInfo) : spec_float :=
  match ri_ucmpWeight r with Some v => v | None => S754_zero false end.

Section RouteInfoGetters.
Context `{RibContext}.

Definition ri_path (r : RouteInfo) : BgpPath := snd (ri_attrs r).

(** [RouteInfo::getBgpAsPathLen]: confederation segments do not count. *)
Definition segmentLen (segment : BgpAttrAsPathSegment) : Z :=
  if nonempty (asSet segment) then 1
  else if nonempty (asSequence segment) then blen (asSequence segment)
  else 0.

Definition asPathLen (r : RouteInfo) : Z :=
  fold_left (fun len segment => len + segmentLen segment) (path_asPath (ri_path r)) 0.

(** [RouteInfo::getOriginAsnAndPeerAsn] *)
Definition originAsnAndPeerAsn (r : RouteInfo) : Z * Z :=
  let asPath := concat (map (fun s => asSet s ++ asSequence s) (path_asPath (ri_path r))) in
  (default 0 (last asPath), default 0 (head asPath)).

(** [RouteInfo::getBgpRouterId]: 64-bit arithmetic *)
Definition routerIdValue (r : RouteInfo) : Z :=
  let originatorId := if negb (path_originatorId (ri_path r) =? 0)
                      then path_originatorId (ri_path r) else peer_routerId (ri_peer r) in
  uint 64 (Z.shiftl originatorId 32 + peer_routerId (ri_peer r)).

(** [RouteInfo::transformIP2Int]: the octets, the first one most significant.  An unset
    address throws out of the [noexcept] callers. *)
Fixpoint orBytes (bytes : list Z) (ipBytes : Z) : Z :=
  match bytes with
  | [] => ipBytes
  | byteValue :: rest =>
      orBytes rest (Z.lor ipBytes (Z.shiftl byteValue (8 * blen rest)))
  end.

Definition transformIP2Int (addr : IPAddress) : option Z :=
  match addr with
  | IPV4 o | IPV6 o => Some (orBytes o 0)
  | IPUnset => None
  end.

Definition igpCostValue (r : RouteInfo) : Z :=
  match ri_nexthopInfo r with
  | Some n => default (2 ^ 32 - 1) (ns_igpCost (nexthopInfos n))
  | None => 2 ^ 32 - 1
  end.

Definition getIsRouteLocal (r : RouteInfo) : bool := has_state (ri_status r) LOCAL.

Definition isNexthopReachable (r : RouteInfo) : bool :=
  if getIsRouteLocal r then true
  else match ri_nexthopInfo r with Some n => ns_isReachable (nexthopInfos n) | None => false end.

Definition hasIgpCost (r : RouteInfo) : bool :=
  match ri_nexthopInfo r with
  | Some n => match ns_igpCost (nexthopInfos n) with Some _ => true | None => false end
  | None => false
  end.

Definition isResolvedForSelection (r : RouteInfo) : bool :=
  if getIsRouteLocal r then true
  else match ri_nexthopInfo r with
       | Some n => ns_isResolvedForSelection (nexthopInfos n)
       | None => false
       end.

Definition RouteInfo_RouteBase : RouteBase RouteInfo := {|
  getBgpPrefixLength r := snd (ri_prefix r);
  getBgpLocalPreference r := path_localPref (ri_path r);
  getBgpAsPathLen := asPathLen;
  getBgpAsPathLenWithConfed r := pathLenWithConfed (ri_path r);
  getBgpOriginCode r := path_origin (ri_path r);
  getBgpMedValue r := getMed (ri_path r);
  getBgpWeightValue r := path_weight (ri_path r);
  getIsRoutePreferred r := has_state (ri_status r) PREFERRED;
  setRoutePreferred r := ri_set_status (set_state (ri_status r) PREFERRED) r;
  clearRoutePreferred r := ri_set_status (clear_state (ri_status r) PREFERRED) r;
  getBgpRouterId := routerIdValue;
  getBgpPeerIPAsInt r := transformIP2Int (peer_addr (ri_peer r));
  getBgpNexthopAsInt r := transformIP2Int (path_nexthop (ri_path r));
  getIsRouteExternal r := has_state (ri_status r) EXTERNAL;
  getIsRouteConfedExternal r := has_state (ri_status r) CONFED_EXTERNAL;
  getIsRouteDeleted r := has_state (ri_status r) DELETED;
  getOriginAsnAndPeerAsn := originAsnAndPeerAsn;
  getBgpClusterListLen r := blen (path_clusterList (ri_path r));
  getRouterLevelPreferenceFromControllerCommunities _ := None;
  getMetroLevelPreferenceFromControllerCommunities _ := None;
  getIgpCostValue := igpCostValue;
  clearBestPathFilterCriteria := ri_set_bestPathFilterConfig None;
  setBestPathFilterCriteria c := ri_set_bestPathFilterConfig (Some c)
|}.
End RouteInfoGetters.

#[export] Existing Instance RouteInfo_RouteBase.

(** ** Facts about the getters *)

Lemma lor_append k b n : 0 <= n -> is_byte b -> Z.lor (k * 2 ^ (n + 8)) (Z.shiftl b n) = (k * 256 + b) * 2 ^ n.
Proof.
  intros Hn Hb. unfold is_byte in Hb.
  replace (k * 2 ^ (n + 8)) with (Z.shiftl (Z.shiftl k 8) n)
    by (rewrite !Z.shiftl_mul_pow2, Z.pow_add_r by lia; lia).
  rewrite <- Z.shiftl_lor, (Z.shiftl_mul_pow2 _ n) by lia. f_equal.
  assert (Hl : Z.land (Z.shiftl k 8) b = 0).
  { apply Z.bits_inj'. intros i Hi. rewrite Z.land_spec, Z.bits_0, Z.shiftl_spec by lia.
    destruct (decide (i < 8)); [by rewrite Z.testbit_neg_r by lia|].
    rewrite (Z.bits_above_log2 b i), andb_false_r; [done|lia|].
    destruct (decide (b = 0)) as [->|]; [simpl; lia|]. apply Z.log2_lt_pow2; [lia|].
    apply Z.lt_le_trans with (2 ^ 8); [lia|]. apply Z.pow_le_mono_r; lia. }
  pose proof (Z.add_lor_land (Z.shiftl k 8) b) as E. rewrite Hl in E.
  rewrite Z.shiftl_mul_pow2 in * by lia. lia.
Qed.

Lemma orBytes_be_decode o k :
  wf_bytes o -> orBytes o (k * 2 ^ (8 * blen o)) = k * 2 ^ (8 * blen o) + be_decode o.
Proof.
  revert k. induction o as [|b o IH]; intros k Hw; [by rewrite be_decode_nil, Z.add_0_r|].
  inversion Hw as [|?? Hb Ho]; subst. cbn [orBytes].
  replace (8 * blen (b :: o)) with (8 * blen o + 8) by (simpl length; lia).
  rewrite lor_append, IH, be_decode_cons by (done || lia).
  rewrite Z.pow_add_r by lia. replace 256 with (2 ^ 8) by lia. rewrite <- Z.pow_mul_r by lia. lia.
Qed.

(** The integer of an address is its octets read as a big-endian number. *)
Lemma transformIP2Int_octets a :
  wf_ip a -> a <> IPUnset -> transformIP2Int a = Some (be_decode (ip_bytes a)).
Proof.
  destruct a as [|o|o]; [done|..]; intros [_ Hw] _; simpl;
    by rewrite <- (Z.mul_0_l (2 ^ (8 * blen o))), orBytes_be_decode, Z.add_0_l.
Qed.

Lemma be_decode_inj o1 o2 :
  length o1 = length o2 -> wf_bytes o1 -> wf_bytes o2 -> be_decode o1 = be_decode o2 -> o1 = o2.
Proof.
  intros Hl H1 H2 E. rewrite <- (be_encode_decode o1), <- (be_encode_decode o2) by done.
  by rewrite Hl, E.
Qed.

(** Two addresses of one family have the same integer only if they are equal. *)
Lemma transformIP2Int_inj a1 a2 :
  wf_ip a1 -> wf_ip a2 -> isV4 a1 = isV4 a2 -> isV6 a1 = isV6 a2 ->
  transformIP2Int a1 = transformIP2Int a2 -> a1 = a2.
Proof.
  intros H1 H2 H4 H6 E. destruct (decide (a1 = IPUnset)) as [->|N1].
  { by destruct a2. }
  destruct (decide (a2 = IPUnset)) as [->|N2]; [by destruct a1|].
  rewrite !transformIP2Int_octets in E by done. injection E as E.
  destruct a1 as [|o1|o1], a2 as [|o2|o2]; try done; simpl in *;
    destruct H1, H2; f_equal; apply be_decode_inj; congruence || done.
Qed.

(** ** Sample routes *)

Definition sample_context : RibContext := {|
  features := mkFeatures true true true false false false;
  nexthopInfos _ := newNexthopStatus IPUnset false None None true |}.

Definition sample_path (localPref med : Z) (asns : list Z) : BgpPath :=
  mkPath 0 [mkSegment [] asns [] []] (IPV4 [10; 0; 0; 1]) true med (Some localPref) 0 [] 0 None None.

Definition sample_peer (last routerId : Z) : TinyPeerInfo :=
  mkPeer (IPV4 [192; 0; 2; last]) 65000 routerId EBGP false false None "".

(** A local preference, a MED, an AS path and the last octet of the peer. *)
Definition sample_route (localPref med : Z) (asns : list Z) (last : Z) : RouteInfo :=
  mkRouteInfo (IPV4 [10; 1; 0; 0], 16) (sample_peer last last)
    (1%positive, sample_path localPref med asns) 0 None true EXTERNAL None None None.

(** Three routes: the first two tie, the third has a lower local preference. *)
Definition sample_heap (p : ptr) : RouteInfo :=
  match p with
  | 1%positive => sample_route 100 0 [65001; 65002] 1
  | 2%positive => sample_route 100 0 [65003; 65004] 2
  | _ => sample_route 90 0 [65001] 3
  end.
