(* ===== verification/RouteSelector.v ===== *)
(** * Route selection

    routelib/RouteSelector.h, RouteSelector.cpp and RouteFilterConfig.h: a selector is
    a list of filters; it runs them one after the other and can mark the outcome on
    the routes. *)

From stdpp Require Import gmap.
From S2P Require Import Prelude RouteFilter RouteInfo.

(** ** Configurations *)

Definition getMembershipFilterConfig (metric : RouteMetric) (action : MembershipRouteFilterAction)
    (filterValues : list Z) : RouteFilterConfig :=
  mkConfig metric (MembershipRouteFilterOpts action filterValues).

Definition getHighestLowestRouteFilterConfig (metric : RouteMetric)
    (action : HighestLowestRouteFilterAction) : RouteFilterConfig :=
  mkConfig metric (HighestLowestRouteFilterOpts action).

Definition getRecoverEquivalentRouteFilterConfig (metric : RouteMetric)
    (tiebreakerConfigs : list RouteFilterConfig) : RouteFilterConfig :=
  mkConfig metric (RecoverEquivalentRouteFilterOpts tiebreakerConfigs).

Definition getRouteFilterConfigs (metricAndHighests : list (RouteMetric * bool))
    : list RouteFilterConfig :=
  mkConfig DELETED_ROUTE (MembershipRouteFilterOpts CHOOSE_MEMBER [0]) ::
  map (fun mh : RouteMetric * bool =>
         mkConfig mh.1 (HighestLowestRouteFilterOpts
                          (if mh.2 then CHOOSE_HIGHEST else CHOOSE_LOWEST)))
      metricAndHighests.

Definition kRouterFilterConfigsBase : list RouteFilterConfig :=
  [getMembershipFilterConfig DELETED_ROUTE CHOOSE_MEMBER [0];
   getHighestLowestRouteFilterConfig PREFIX_LENGTH CHOOSE_HIGHEST;
   getHighestLowestRouteFilterConfig CONTROLLER_COMMUNITY CHOOSE_HIGHEST;
   getHighestLowestRouteFilterConfig BGP_LOCAL_PREFERENCE CHOOSE_HIGHEST;
   getHighestLowestRouteFilterConfig BGP_AS_PATH_LEN CHOOSE_LOWEST;
   getHighestLowestRouteFilterConfig BGP_ORIGIN_CODE CHOOSE_LOWEST;
   getHighestLowestRouteFilterConfig BGP_MED_VALUE CHOOSE_LOWEST;
   getHighestLowestRouteFilterConfig EXTERNAL_ROUTE CHOOSE_HIGHEST].

Definition kRouterFilterConfigsNoMultipath : list RouteFilterConfig :=
  kRouterFilterConfigsBase ++
  [getHighestLowestRouteFilterConfig BGP_ROUTER_ID CHOOSE_LOWEST;
   getHighestLowestRouteFilterConfig BGP_PEER_IP CHOOSE_LOWEST].

Definition kRouterFilterConfigs : list RouteFilterConfig :=
  kRouterFilterConfigsBase ++
  [getRecoverEquivalentRouteFilterConfig BGP_PEER_ASN
     [getHighestLowestRouteFilterConfig BGP_ROUTER_ID CHOOSE_LOWEST;
      getHighestLowestRouteFilterConfig BGP_PEER_IP CHOOSE_LOWEST]].

Definition kMetroFilterConfigs : list RouteFilterConfig :=
  [getMembershipFilterConfig DELETED_ROUTE CHOOSE_MEMBER [0];
   getHighestLowestRouteFilterConfig PREFIX_LENGTH CHOOSE_HIGHEST;
   getHighestLowestRouteFilterConfig CONTROLLER_COMMUNITY_METRO CHOOSE_HIGHEST;
   getHighestLowestRouteFilterConfig BGP_LOCAL_PREFERENCE CHOOSE_HIGHEST;
   getHighestLowestRouteFilterConfig BGP_AS_PATH_LEN CHOOSE_LOWEST;
   getHighestLowestRouteFilterConfig BGP_ORIGIN_CODE CHOOSE_LOWEST;
   getHighestLowestRouteFilterConfig BGP_MED_VALUE CHOOSE_LOWEST].

(** ** The selector *)

Section Selector.
Context {R : Type} `{RouteBase R}.

(** [filters_] *)
Abbreviation RouteSelector := (list (RouteFilter R)).

Definition newRouteSelector (configs : list RouteFilterConfig) : option RouteSelector :=
  mapM fromRouteFilterConfig configs.

(** The filter loop of [applyFilters]; it is left when there are no routes at all. *)
Fixpoint runFilters (h : ptr -> R) (filters : RouteSelector) (routes : list ptr)
    (current : list ptr * list ptr) (filterMap : option (gmap ptr RouteFilterConfig))
    : option (list ptr * list ptr * option (gmap ptr RouteFilterConfig)) :=
  match filters with
  | [] => Some (current, filterMap)
  | f :: filters' =>
      match routes with
      | [] => Some (current, filterMap)
      | _ => '(next, fm) ← filterRoutes h f current filterMap;
             runFilters h filters' routes next fm
      end
  end.

Definition applyFilters (h : ptr -> R) (filters : RouteSelector) (routes : list ptr)
    (filterMap : option (gmap ptr RouteFilterConfig))
    : option (list ptr * list ptr * option (gmap ptr RouteFilterConfig)) :=
  '(filtered, fm) ← runFilters h filters routes (routes, []) filterMap;
  Some ((filtered.1, List.filter (fun p => negb (bool_decide (p ∈ filtered.1))) routes), fm).

(** Writing through a pointer. *)
Definition update (h : ptr -> R) (p : ptr) (f : R -> R) : ptr -> R :=
  fun q => if bool_decide (q = p) then f (h q) else h q.

Definition update_all (h : ptr -> R) (ps : list ptr) (f : ptr -> R -> R) : ptr -> R :=
  fold_left (fun h p => update h p (f p)) ps h.

Fixpoint markRoutes (preferred : bool) (ps : list ptr) (changed : bool) (h : ptr -> R)
    : bool * (ptr -> R) :=
  match ps with
  | [] => (changed, h)
  | p :: ps' =>
      markRoutes preferred ps' (changed || xorb preferred (getIsRoutePreferred (h p)))
        (update h p (if preferred then setRoutePreferred else clearRoutePreferred))
  end.

(** Fatal with an [ALREADY_PREFERRED_ROUTE] filter. *)
Definition markPreferredRoutes (filters : RouteSelector) (routes : list ptr) (h : ptr -> R)
    : option (bool * (ptr -> R)) :=
  if existsb (fun f => bool_decide (getRouteMetric f = ALREADY_PREFERRED_ROUTE)) filters then None
  else
  '(filtered, _) ← applyFilters h filters routes None;
  let '(changed, h) := markRoutes true filtered.1 false h in
  Some (markRoutes false filtered.2 changed h).

Definition selectRoutes (h : ptr -> R) (filters : RouteSelector) (routes : list ptr)
    : option (list ptr) :=
  '(filtered, _) ← applyFilters h filters routes None;
  Some filtered.1.

Definition selectRoutesAndSetRejectionFilter (filters : RouteSelector) (routes : list ptr)
    (h : ptr -> R) : option (list ptr * (ptr -> R)) :=
  let h := update_all h routes (fun _ => clearBestPathFilterCriteria) in
  '(filtered, fm) ← applyFilters h filters routes (Some ∅);
  Some (filtered.1,
        update_all h routes
          (fun p r => match default ∅ fm !! p with
                      | Some c => setBestPathFilterCriteria c r
                      | None => r
                      end)).

Fixpoint compareRoutes (h : ptr -> R) (filters : RouteSelector) (ri1 ri2 : ptr) : option bool :=
  match filters with
  | [] => Some false
  | f :: filters' =>
      if negb (comparable f) then compareRoutes h filters' ri1 ri2
      else
      b ← compare h f ri1 ri2;
      if b : bool then Some true
      else
      b' ← compare h f ri2 ri1;
      if b' : bool then Some false else compareRoutes h filters' ri1 ri2
  end.
End Selector.

(** ** What a list of flat filters selects *)

Section Selection.
Context {R : Type} `{RouteBase R}.
Variable h : ptr -> R.
Implicit Types (f : RouteFilter R) (fs : list (RouteFilter R)).

(** Every rule of the list has a value on every route. *)
Definition all_ruled fs (routes : list ptr) : Prop := Forall (fun f => ruled h f routes) fs.

Fixpoint survivors fs (routes : list ptr) : list ptr :=
  match fs with
  | [] => routes
  | f :: fs' => survivors fs' (List.filter (kept h f routes) routes)
  end.

Lemma List_elem_of_filter {A} (P : A -> bool) x l : x ∈ List.filter P l <-> x ∈ l /\ P x = true.
Proof. by rewrite list_elem_of_In, List.filter_In, <- list_elem_of_In. Qed.

Lemma survivors_app fs1 fs2 routes :
  survivors (fs1 ++ fs2) routes = survivors fs2 (survivors fs1 routes).
Proof. revert routes. induction fs1; intros; [done|]. simpl. auto. Qed.

Lemma List_filter_sublist {A} (P : A -> bool) l : List.filter P l `sublist_of` l.
Proof. induction l as [|x l IH]; simpl; [constructor|]. by case_match; constructor. Qed.

Lemma survivors_sublist fs routes : survivors fs routes `sublist_of` routes.
Proof.
  revert routes. induction fs as [|f fs IH]; intros routes; [done|].
  simpl. etrans; [apply IH|apply List_filter_sublist].
Qed.

Lemma ruled_sublist f l k : l `sublist_of` k -> ruled h f k -> ruled h f l.
Proof.
  intros Hs. unfold ruled. rewrite !Forall_forall. intros Hk p Hp. apply Hk.
  eapply elem_of_submseteq; [done|]. by apply sublist_submseteq.
Qed.

(** The configuration of the filter of [fs] that drops [p]. *)
Fixpoint rejected_by fs (routes : list ptr) (p : ptr) : option RouteFilterConfig :=
  match fs with
  | [] => None
  | f :: fs' => if bool_decide (p ∈ routes) && negb (kept h f routes p) then Some (f_config f)
                else rejected_by fs' (List.filter (kept h f routes) routes) p
  end.

Lemma survivors_nil fs : survivors fs [] = [].
Proof. apply sublist_nil_r, survivors_sublist. Qed.

Lemma rejected_by_nil fs p : rejected_by fs [] p = None.
Proof.
  induction fs as [|f fs IH]; [done|]. cbn [rejected_by List.filter].
  by rewrite bool_decide_eq_false_2 by apply not_elem_of_nil.
Qed.

Lemma runFilters_flat fs all routes rejected fm :
  forallb flat fs = true -> all_ruled fs routes -> (all = [] -> routes = []) ->
  exists rejected' fm', runFilters h fs all (routes, rejected) fm
    = Some (survivors fs routes, rejected', fm')
  /\ match fm with
     | None => fm' = None
     | Some m => exists m', fm' = Some m' /\
         forall p, m' !! p = match m !! p with Some c => Some c | None => rejected_by fs routes p end
     end.
Proof.
  revert routes rejected fm. induction fs as [|f fs IH]; intros routes rejected fm Hf Hr Hall.
  { exists rejected, fm. split; [done|]. destruct fm as [m|]; [|done]. exists m. split; [done|].
    intros p. simpl. by destruct (m !! p). }
  simpl in Hf. apply andb_prop in Hf as [Hf Hfs]. inversion Hr as [|?? Hr1 Hr2]; subst.
  assert (Hsub : List.filter (kept h f routes) routes `sublist_of` routes)
    by apply List_filter_sublist.
  assert (Hr2' : all_ruled fs (List.filter (kept h f routes) routes)).
  { eapply Forall_impl; [exact Hr2|]. intros f' Hf'. eapply ruled_sublist; eauto. }
  destruct all as [|a all].
  - rewrite Hall by done. exists rejected, fm. rewrite survivors_nil. split; [done|].
    destruct fm as [m|]; [|done]. exists m. split; [done|]. intros p. rewrite rejected_by_nil.
    by destruct (m !! p).
  - cbn [runFilters survivors]. destruct (filterRoutes_flat h f routes rejected fm Hf Hr1)
      as (fm1 & -> & Hfm1). cbn [mbind option_bind].
    destruct (IH (List.filter (kept h f routes) routes)
                 (List.filter (fun p => negb (kept h f routes p)) routes) fm1 Hfs Hr2')
      as (rej' & fm' & -> & Hfm'); [done|].
    exists rej', fm'. split; [done|]. destruct fm as [m|]; [|by subst fm1].
    destruct Hfm1 as (m1 & -> & Hm1). destruct Hfm' as (m' & -> & Hm').
    exists m'. split; [done|]. intros p. rewrite Hm', Hm1. unfold captured.
    destruct (m !! p); [done|]. cbn [rejected_by]. by destruct (bool_decide _ && negb _).
Qed.

Lemma applyFilters_flat fs routes fm :
  forallb flat fs = true -> all_ruled fs routes ->
  exists fm', applyFilters h fs routes fm
    = Some ((survivors fs routes,
             List.filter (fun p => negb (bool_decide (p ∈ survivors fs routes))) routes), fm')
  /\ match fm with
     | None => fm' = None
     | Some m => exists m', fm' = Some m' /\
         forall p, m' !! p = match m !! p with Some c => Some c | None => rejected_by fs routes p end
     end.
Proof.
  intros Hf Hr. destruct (runFilters_flat fs routes routes [] fm Hf Hr) as (rej & fm' & E & Hm);
    [done|].
  exists fm'. unfold applyFilters. rewrite E. done.
Qed.

Lemma selectRoutes_flat fs routes :
  forallb flat fs = true -> all_ruled fs routes ->
  selectRoutes h fs routes = Some (survivors fs routes).
Proof.
  intros Hf Hr. destruct (applyFilters_flat fs routes None Hf Hr) as (fm' & E & _).
  unfold selectRoutes. by rewrite E.
Qed.

(** *** The order behind comparable filters *)

Definition score f (p : ptr) : Z :=
  match f_class f with
  | HighestLowestRouteFilter CHOOSE_HIGHEST => - weight h f p
  | HighestLowestRouteFilter CHOOSE_LOWEST => weight h f p
  | _ => 0
  end.

Lemma better_score f q p : better h f q p = (score f q <? score f p).
Proof.
  unfold better, score. destruct (f_class f) as [| [] | |]; try done.
  apply eq_true_iff_eq. rewrite !Z.ltb_lt. lia.
Qed.

(** The first filter that tells [p] and [q] apart prefers [q]. *)
Fixpoint outranked fs (p q : ptr) : bool :=
  match fs with
  | [] => false
  | f :: fs' => (score f q <? score f p) || ((score f q =? score f p) && outranked fs' p q)
  end.

Lemma compare_better f p q :
  comparable f = true -> ruled h f [p; q] -> compare h f p q = Some (better h f q p).
Proof.
  intros Hc Hr. inversion Hr as [|?? [w1 E1] Hr']; subst. inversion Hr' as [|?? [w2 E2] _]; subst.
  unfold comparable in Hc. unfold compare, better, weight.
  destruct (f_class f) as [|[]| |]; try done; by rewrite E1, E2.
Qed.

Lemma compareRoutes_outranked fs p q :
  all_ruled fs [p; q] -> compareRoutes h fs p q = Some (outranked fs p q).
Proof.
  intros Hr. induction fs as [|f fs IH]; [done|]. inversion Hr as [|?? Hf Hfs]; subst.
  cbn [compareRoutes outranked]. destruct (comparable f) eqn:Hc; cbn [negb].
  - assert (Hf' : ruled h f [q; p]).
    { inversion Hf as [|?? H1 H2]; subst. inversion H2; subst. by repeat constructor. }
    rewrite !compare_better by done. cbn [mbind option_bind]. rewrite !better_score.
    destruct (Z.ltb_spec (score f q) (score f p)); [done|].
    destruct (Z.ltb_spec (score f p) (score f q)).
    + destruct (Z.eqb_spec (score f q) (score f p)); [lia|done].
    + destruct (Z.eqb_spec (score f q) (score f p)); [by apply IH|lia].
  - rewrite IH by done. unfold comparable in Hc. unfold score.
    by destruct (f_class f).
Qed.

Lemma outranked_irrefl fs p : outranked fs p p = false.
Proof. induction fs; [done|]. simpl. by rewrite Z.ltb_irrefl, IHfs, andb_false_r. Qed.

Ltac lex_cases :=
  repeat match goal with
  | |- context [?a <? ?b] => destruct (Z.ltb_spec a b)
  | |- context [?a =? ?b] => destruct (Z.eqb_spec a b)
  | H : context [?a <? ?b] |- _ => destruct (Z.ltb_spec a b)
  | H : context [?a =? ?b] |- _ => destruct (Z.eqb_spec a b)
  end; simpl in *; try lia; try done.

Lemma outranked_asym fs p q : outranked fs p q = true -> outranked fs q p = false.
Proof. induction fs as [|f fs IH]; [done|]. simpl. intros. lex_cases. auto. Qed.

Lemma outranked_trans fs p q r :
  outranked fs p q = true -> outranked fs q r = true -> outranked fs p r = true.
Proof. induction fs as [|f fs IH]; [done|]. simpl. intros. lex_cases. auto. Qed.

Lemma outranked_neg_trans fs p q r :
  outranked fs p q = false -> outranked fs q r = false -> outranked fs p r = false.
Proof. induction fs as [|f fs IH]; [done|]. simpl. intros. lex_cases. auto. Qed.

(** No route of the list outranks [p]. *)
Definition maximal fs (routes : list ptr) (p : ptr) : bool :=
  forallb (fun q => negb (outranked fs p q)) routes.

Lemma maximal_spec fs routes p :
  maximal fs routes p = true <-> forall q, q ∈ routes -> outranked fs p q = false.
Proof.
  unfold maximal. rewrite forallb_forall. split; intros Hm q Hq.
  - apply negb_true_iff, Hm. by apply list_elem_of_In.
  - apply list_elem_of_In in Hq. by rewrite Hm.
Qed.

Lemma kept_comparable f routes p :
  comparable f = true ->
  kept h f routes p = true <-> forall q, q ∈ routes -> score f p <= score f q.
Proof.
  intros Hc. unfold kept.
  assert (absolute f = false) as ->
    by (unfold absolute, comparable in *; by destruct (f_class f)).
  rewrite forallb_forall. split; intros Hk q Hq.
  - apply list_elem_of_In in Hq. specialize (Hk q Hq).
    rewrite negb_true_iff, better_score, Z.ltb_ge in Hk. lia.
  - apply list_elem_of_In in Hq. rewrite better_score. specialize (Hk q Hq).
    apply negb_true_iff, Z.ltb_ge. lia.
Qed.

Lemma List_filter_filter {A} (P Q : A -> bool) l :
  List.filter P (List.filter Q l) = List.filter (fun x => Q x && P x) l.
Proof.
  induction l as [|x l IH]; [done|]. simpl. destruct (Q x); simpl; [|done].
  destruct (P x); by rewrite IH.
Qed.

Lemma List_filter_true {A} (P : A -> bool) l : (forall x, P x = true) -> List.filter P l = l.
Proof. intros HP. induction l as [|x l IH]; [done|]. simpl. rewrite HP. by f_equal. Qed.

Lemma survivors_maximal fs routes :
  forallb comparable fs = true -> survivors fs routes = List.filter (maximal fs routes) routes.
Proof.
  revert routes. induction fs as [|f fs IH]; intros routes Hf.
  { assert (Hall : forall p, maximal [] routes p = true) by (intros p; by apply maximal_spec).
    symmetry. by apply List_filter_true. }
  simpl in Hf. apply andb_prop in Hf as [Hf Hfs]. simpl. rewrite IH, List_filter_filter by done.
  apply List_filter_ext_in. intros p Hp. apply eq_true_iff_eq.
  rewrite andb_true_iff, !maximal_spec, kept_comparable by done. simpl. split.
  - intros [Hk Hm] q Hq. pose proof (Hk q Hq).
    destruct (Z.ltb_spec (score f q) (score f p)); [lia|].
    destruct (Z.eqb_spec (score f q) (score f p)) as [E|]; [|done].
    apply Hm. apply List_elem_of_filter. split; [done|].
    apply kept_comparable; [done|]. intros r Hr. rewrite E. auto.
  - intros Hm. assert (Hk : forall q, q ∈ routes -> score f p <= score f q).
    { intros q Hq. specialize (Hm q Hq). destruct (Z.ltb_spec (score f q) (score f p)); [done|lia]. }
    split; [done|]. intros q [Hq Hkq]%List_elem_of_filter. specialize (Hm q Hq).
    rewrite kept_comparable in Hkq by done. specialize (Hkq p Hp). specialize (Hk q Hq).
    destruct (Z.eqb_spec (score f q) (score f p)); [|lia].
    destruct (outranked fs p q); [|done]. by rewrite orb_true_r in Hm.
Qed.

(** *** Absolute filters first *)

Definition eligible fs (p : ptr) : bool := forallb (fun f => passes h f p) fs.

Lemma survivors_absolute fs routes :
  forallb absolute fs = true -> survivors fs routes = List.filter (eligible fs) routes.
Proof.
  revert routes. induction fs as [|f fs IH]; intros routes Hf; [by rewrite List_filter_true|].
  simpl in Hf. apply andb_prop in Hf as [Hf Hfs]. simpl. rewrite IH, List_filter_filter by done.
  apply List_filter_ext_in. intros p _. unfold kept. by rewrite Hf.
Qed.

Lemma outranked_absolute fs1 fs2 p q :
  forallb absolute fs1 = true -> outranked (fs1 ++ fs2) p q = outranked fs2 p q.
Proof.
  intros Hf. induction fs1 as [|f fs1 IH]; [done|]. simpl in *. apply andb_prop in Hf as [Hf Hfs].
  assert (forall r, score f r = 0) as Hs
    by (intros r; unfold absolute, score in *; by destruct (f_class f)).
  by rewrite !Hs, IH.
Qed.

Lemma flat_parts fs1 fs2 :
  forallb absolute fs1 = true -> forallb comparable fs2 = true ->
  forallb flat (fs1 ++ fs2) = true.
Proof.
  rewrite forallb_app, !forallb_forall. intros H1 H2. apply andb_true_intro.
  rewrite !forallb_forall. split; intros f Hf; unfold flat; [by rewrite H1|].
  by rewrite H2, orb_true_r.
Qed.

Lemma survivors_spec fs1 fs2 routes :
  forallb absolute fs1 = true -> forallb comparable fs2 = true ->
  survivors (fs1 ++ fs2) routes =
  List.filter (fun p => eligible fs1 p && maximal fs2 (List.filter (eligible fs1) routes) p) routes.
Proof.
  intros H1 H2. rewrite survivors_app, (survivors_absolute fs1), (survivors_maximal fs2) by done.
  apply List_filter_filter.
Qed.

Lemma elem_of_survivors fs1 fs2 routes p :
  forallb absolute fs1 = true -> forallb comparable fs2 = true ->
  p ∈ survivors (fs1 ++ fs2) routes <->
  p ∈ routes /\ eligible fs1 p = true /\
  forall q, q ∈ routes -> eligible fs1 q = true -> outranked (fs1 ++ fs2) p q = false.
Proof.
  intros H1 H2. rewrite survivors_spec by done.
  rewrite List_elem_of_filter, andb_true_iff, maximal_spec.
  split; intros (Hp & He & Hm); (split; [done|]); (split; [done|]); intros q Hq.
  - intros Hq'. rewrite outranked_absolute by done. by apply Hm, List_elem_of_filter.
  - apply List_elem_of_filter in Hq as [Hq Hq']. rewrite <- (outranked_absolute fs1) by done. auto.
Qed.

Lemma all_ruled_pair fs routes p q :
  all_ruled fs routes -> p ∈ routes -> q ∈ routes -> all_ruled fs [p; q].
Proof.
  intros Hr Hp Hq. eapply Forall_impl; [exact Hr|]. intros f Hf. unfold ruled in *.
  rewrite Forall_forall in Hf. by repeat constructor; apply Hf.
Qed.

(** A finite non-empty list has a route nothing outranks. *)
Lemma maximal_exists fs routes :
  routes <> [] -> exists p, p ∈ routes /\ forall q, q ∈ routes -> outranked fs p q = false.
Proof.
  intros Hne. induction routes as [|a l IH]; [done|]. destruct (decide (l = [])) as [->|Hl].
  { exists a. split; [by left|]. intros q ->%list_elem_of_singleton. apply outranked_irrefl. }
  destruct (IH Hl) as (p & Hp & Hm). destruct (outranked fs p a) eqn:E.
  - exists a. split; [by left|]. intros q [->|Hq]%elem_of_cons; [apply outranked_irrefl|].
    apply outranked_neg_trans with p; [|by apply Hm]. by apply outranked_asym.
  - exists p. split; [by right|]. by intros q [->|Hq]%elem_of_cons; [|apply Hm].
Qed.

Lemma survivors_nonempty fs1 fs2 routes p0 :
  forallb absolute fs1 = true -> forallb comparable fs2 = true ->
  p0 ∈ routes -> eligible fs1 p0 = true -> survivors (fs1 ++ fs2) routes <> [].
Proof.
  intros H1 H2 Hp He Hnil.
  destruct (maximal_exists (fs1 ++ fs2) (List.filter (eligible fs1) routes)) as (p & Hin & Hm).
  { intros E. apply (not_elem_of_nil p0). rewrite <- E. by apply List_elem_of_filter. }
  apply List_elem_of_filter in Hin as [Hin Hep]. apply (not_elem_of_nil p). rewrite <- Hnil.
  apply elem_of_survivors; [done..|]. split; [done|]. split; [done|].
  intros q Hq Heq. by apply Hm, List_elem_of_filter.
Qed.

Lemma List_filter_Permutation {A} (P Q : A -> bool) l k :
  l ≡ₚ k -> (forall x, P x = Q x) -> List.filter P l ≡ₚ List.filter Q k.
Proof.
  intros Hp HPQ. rewrite (List_filter_ext_in Q P) by done. clear HPQ.
  induction Hp as [|x l k _ IH|x y l|l k k' _ IH1 _ IH2]; simpl.
  - done.
  - destruct (P x); [by constructor|done].
  - destruct (P x), (P y); try done. constructor.
  - by etrans.
Qed.

Lemma forallb_Permutation {A} (P : A -> bool) l k : l ≡ₚ k -> forallb P l = forallb P k.
Proof.
  intros Hp. apply eq_true_iff_eq. rewrite !forallb_forall.
  by split; intros Hf x Hx; apply Hf; rewrite <- list_elem_of_In in *; rewrite Hp || rewrite <- Hp.
Qed.

(** The selection does not depend on the order of the routes. *)
Lemma survivors_Permutation fs1 fs2 routes routes' :
  forallb absolute fs1 = true -> forallb comparable fs2 = true -> routes ≡ₚ routes' ->
  survivors (fs1 ++ fs2) routes ≡ₚ survivors (fs1 ++ fs2) routes'.
Proof.
  intros H1 H2 Hp. rewrite !survivors_spec by done. apply List_filter_Permutation; [done|].
  intros p. f_equal. unfold maximal. apply forallb_Permutation.
  by apply List_filter_Permutation.
Qed.
End Selection.

(** ** Recovering filters keep every route once *)

Section Partition.
Context {R : Type} `{RouteBase R}.
Variable h : ptr -> R.

(** The tiebreaker loop of [RecoverEquivalentRouteFilter::filter]. *)
Definition runTiebreakers :=
  fix run (ts : list (RouteFilter R)) (prev : list ptr * list ptr) (rejected : list ptr)
      (fm : option (gmap ptr RouteFilterConfig)) :=
    match ts with
    | [] => Some (prev, rejected, fm)
    | t :: ts' =>
        match filterRoutes h t prev fm with
        | Some (prev', fm') => run ts' prev' (prev'.2 ++ rejected) fm'
        | None => None
        end
    end.

Lemma filterRoutes_recover c rule ts previous fm :
  filterRoutes h (mkFilter c rule (RecoverEquivalentRouteFilter ts)) previous fm =
  ('(prevRoutes, rejectedRoutes, fm) ←
      runTiebreakers ts previous (match ts with [] => previous.2 | _ => [] end) fm;
   weights ← mapM (fun p => rule (h p)) prevRoutes.1;
   result ← recoverRoutes h rule prevRoutes.1 weights rejectedRoutes;
   Some (result, fm)).
Proof. reflexivity. Qed.

(** Filters whose tiebreakers, if they recover, are flat, and whose rules have a value. *)
Definition shallow (f : RouteFilter R) (routes : list ptr) : Prop :=
  ruled h f routes /\
  match f_class f with
  | RecoverEquivalentRouteFilter ts => forallb flat ts = true /\ all_ruled h ts routes
  | _ => True
  end.

Lemma List_filter_complement {A} (P : A -> bool) l :
  List.filter P l ++ List.filter (fun x => negb (P x)) l ≡ₚ l.
Proof.
  induction l as [|x l IH]; [done|]. simpl. destruct (P x); simpl; [by constructor|].
  rewrite <- Permutation_middle. by constructor.
Qed.

Lemma ruled_submseteq f l k : l ⊆+ k -> ruled h f k -> ruled h f l.
Proof.
  intros Hs. unfold ruled. rewrite !Forall_forall. intros Hk p Hp. apply Hk.
  by eapply elem_of_submseteq.
Qed.

Lemma all_ruled_submseteq fs l k : l ⊆+ k -> all_ruled h fs k -> all_ruled h fs l.
Proof. intros Hs Hk. eapply Forall_impl; [exact Hk|]. intros f. by apply ruled_submseteq. Qed.

Lemma runTiebreakers_flat ts acc rej rejected fm :
  forallb flat ts = true -> all_ruled h ts acc ->
  exists prev' rejected' fm',
    runTiebreakers ts (acc, rej) rejected fm = Some (prev', rejected', fm') /\
    prev'.1 ++ rejected' ≡ₚ acc ++ rejected.
Proof.
  revert acc rej rejected fm. induction ts as [|t ts IH]; intros acc rej rejected fm Hf Hr.
  { by eexists _, _, _. }
  simpl in Hf. apply andb_prop in Hf as [Hf Hfs]. inversion Hr as [|?? Hr1 Hr2]; subst.
  cbn [runTiebreakers]. destruct (filterRoutes_flat h t acc rej fm Hf Hr1) as (fm1 & -> & _).
  set (P := kept h t acc). cbn [snd].
  destruct (IH (List.filter P acc) (List.filter (fun p => negb (P p)) acc)
              (List.filter (fun p => negb (P p)) acc ++ rejected) fm1 Hfs)
    as (prev' & rejected' & fm' & -> & Hp).
  { eapply all_ruled_submseteq; [|done]. apply sublist_submseteq, List_filter_sublist. }
  eexists _, _, _. split; [done|]. rewrite Hp, (assoc_L (++)).
  by rewrite List_filter_complement.
Qed.

Lemma mapM_ruled f routes :
  ruled h f routes -> exists ws, mapM (fun p => f_rule f (h p)) routes = Some ws /\
                                 length ws = length routes.
Proof.
  intros Hr. rewrite (mapM_weights h f) by done. eexists. split; [done|]. by rewrite length_map.
Qed.

Lemma split_by_value (rejected : list ptr) (ws : list Z) w :
  length ws = length rejected ->
  (fst <$> filter (fun qv : ptr * Z => qv.2 = w) (zip rejected ws)) ++
  (fst <$> filter (fun qv : ptr * Z => qv.2 <> w) (zip rejected ws)) ≡ₚ rejected.
Proof.
  intros Hl. rewrite <- fmap_app, filter_app_complement.
  by rewrite fst_zip by lia.
Qed.

Lemma recoverRoutes_perm f routes ws rejected :
  ruled h f rejected -> length ws = length routes ->
  exists acc rej, recoverRoutes h (f_rule f) routes ws rejected = Some (acc, rej) /\
    acc ++ rej ≡ₚ routes ++ rejected.
Proof.
  revert ws rejected. induction routes as [|p routes IH]; intros [|w ws] rejected Hr Hl; try done.
  { by eexists _, _. }
  cbn [recoverRoutes]. destruct (mapM_ruled f rejected Hr) as (vs & -> & Hvs). cbn [mbind option_bind].
  pose proof (split_by_value rejected vs w Hvs) as Hsplit.
  set (same := fst <$> filter (fun qv : ptr * Z => qv.2 = w) _) in *.
  set (remaining := fst <$> filter (fun qv : ptr * Z => qv.2 <> w) _) in *.
  destruct (IH ws remaining) as (acc & rej & -> & Hp).
  { eapply ruled_submseteq; [|done]. rewrite <- Hsplit. apply submseteq_inserts_l. done. }
  { simpl in Hl. lia. }
  eexists _, _. split; [done|]. simpl. constructor.
  rewrite <- (assoc_L (++)), Hp, <- Hsplit. rewrite !(assoc_L (++)).
  by rewrite (Permutation_app_comm same routes).
Qed.

Lemma filterRoutes_shallow f acc rej fm :
  shallow f (acc ++ rej) ->
  exists acc' rej' fm', filterRoutes h f (acc, rej) fm = Some (acc', rej', fm') /\
    acc' ++ rej' ⊆+ acc ++ rej.
Proof.
  intros [Hr Hc]. destruct (flat f) eqn:Hf.
  - destruct (filterRoutes_flat h f acc rej fm Hf) as (fm' & -> & _).
    { eapply ruled_submseteq; [|done]. by apply submseteq_inserts_r. }
    eexists _, _, _. split; [done|]. rewrite List_filter_complement. by apply submseteq_inserts_r.
  - destruct f as [c rule [| | |ts]]; try done. simpl in Hc. destruct Hc as [Hts Htr].
    rewrite filterRoutes_recover.
    destruct (runTiebreakers_flat ts acc rej (match ts with [] => rej | _ => [] end) fm Hts)
      as ([acc1 rej1] & rejected & fm' & E & Hp).
    { eapply all_ruled_submseteq; [|done]. by apply submseteq_inserts_r. }
    cbn [snd]. rewrite E. cbn [mbind option_bind fst] in *.
    assert (Hsub : acc1 ++ rejected ⊆+ acc ++ rej).
    { rewrite Hp. destruct ts; [done|]. rewrite app_nil_r. by apply submseteq_inserts_r. }
    destruct (mapM_ruled _ acc1 (ruled_submseteq _ acc1 _ ltac:(etrans; [|exact Hsub]; by apply submseteq_inserts_r) Hr))
      as (ws & Ews & Hl).
    simpl in Ews. rewrite Ews. cbn [mbind option_bind].
    destruct (recoverRoutes_perm (mkFilter c rule (RecoverEquivalentRouteFilter ts)) acc1 ws rejected)
      as (acc' & rej' & Erec & Hp').
    { eapply ruled_submseteq; [|exact Hr]. etrans; [|exact Hsub]. by apply submseteq_inserts_l. }
    { done. }
    simpl in Erec. rewrite Erec. eexists _, _, _. split; [done|]. by rewrite Hp'.
Qed.

Lemma runFilters_shallow fs all acc rej fm :
  Forall (fun f => shallow f (acc ++ rej)) fs ->
  exists acc' rej' fm', runFilters h fs all (acc, rej) fm = Some (acc', rej', fm') /\
    acc' ++ rej' ⊆+ acc ++ rej.
Proof.
  revert acc rej fm. induction fs as [|f fs IH]; intros acc rej fm Hs; [by eexists _, _, _|].
  cbn [runFilters]. destruct all; [by eexists _, _, _|]. inversion Hs as [|?? Hf Hfs]; subst.
  destruct (filterRoutes_shallow f acc rej fm Hf) as (acc1 & rej1 & fm1 & -> & Hsub).
  cbn [mbind option_bind]. destruct (IH acc1 rej1 fm1) as (acc' & rej' & fm' & -> & Hsub').
  { eapply Forall_impl; [exact Hfs|]. intros g [Hg Hgc]. split; [by eapply ruled_submseteq|].
    destruct (f_class g); try done. destruct Hgc. split; [done|]. by eapply all_ruled_submseteq. }
  eexists _, _, _. split; [done|]. by etrans.
Qed.
Lemma submseteq_NoDup (l k : list ptr) : NoDup k -> l ⊆+ k -> NoDup l.
Proof. intros Hk [k' E]%submseteq_Permutation. rewrite E in Hk. by apply NoDup_app in Hk as []. Qed.

Lemma applyFilters_shallow fs routes fm :
  Forall (fun f => shallow f routes) fs -> NoDup routes ->
  exists acc rej fm', applyFilters h fs routes fm = Some ((acc, rej), fm') /\
    acc ++ rej ≡ₚ routes /\ rej `sublist_of` routes.
Proof.
  intros Hs Hd. destruct (runFilters_shallow fs routes routes [] fm) as (acc & rej & fm' & E & Hsub).
  { by rewrite app_nil_r. }
  rewrite app_nil_r in Hsub.
  assert (Hacc : acc ⊆+ routes) by (etrans; [|exact Hsub]; by apply submseteq_inserts_r).
  eexists acc, _, fm'. unfold applyFilters. rewrite E. cbn [mbind option_bind fst].
  split; [done|]. split; [|apply List_filter_sublist].
  apply NoDup_Permutation; [|done|].
  - apply NoDup_app. split; [by eapply submseteq_NoDup|]. split.
    + intros p Hp [_ Hn]%List_elem_of_filter. by rewrite bool_decide_eq_true_2 in Hn.
    + eapply sublist_NoDup; [exact Hd|]. apply List_filter_sublist.
  - intros p. rewrite elem_of_app, List_elem_of_filter. split.
    + intros [Hp|[Hp _]]; [by eapply elem_of_submseteq|done].
    + intros Hp. destruct (decide (p ∈ acc)); [by left|]. right.
      by rewrite bool_decide_eq_false_2.
Qed.

End Partition.

(** ** Writing the outcome to the routes *)

(** What marking relies on of a route. *)
Class RouteBaseLaws (R : Type) `{RouteBase R} : Prop := {
  preferred_set (r : R) : getIsRoutePreferred (setRoutePreferred r) = true;
  preferred_clear (r : R) : getIsRoutePreferred (clearRoutePreferred r) = false
}.

Section Marking.
Context {R : Type} `{RouteBase R}.

Lemma update_all_spec (f : ptr -> R -> R) ps h q :
  NoDup ps -> update_all h ps f q = if bool_decide (q ∈ ps) then f q (h q) else h q.
Proof.
  intros Hd. revert h. induction Hd as [|p ps Hn _ IH]; intros h; [done|].
  unfold update_all in *. simpl. rewrite IH. unfold update.
  destruct (decide (q = p)) as [->|Hne].
  - rewrite bool_decide_eq_false_2 by done. rewrite !bool_decide_eq_true_2; [done|left|done].
  - rewrite (bool_decide_eq_false_2 (q = p)) by done.
    rewrite (bool_decide_ext (q ∈ p :: ps) (q ∈ ps)); [done|]. rewrite elem_of_cons. tauto.
Qed.

Lemma existsb_ext_elem {A} (P Q : A -> bool) l :
  (forall x, x ∈ l -> P x = Q x) -> existsb P l = existsb Q l.
Proof.
  intros HPQ. induction l as [|x l IH]; [done|]. simpl. rewrite HPQ by left. f_equal.
  apply IH. intros y Hy. apply HPQ. by right.
Qed.

Lemma existsb_none {A} (P : A -> bool) l : Forall (fun x => P x = false) l -> existsb P l = false.
Proof. induction 1 as [|x l Hx _ IH]; [done|]. simpl. by rewrite Hx. Qed.

Lemma markRoutes_spec b ps changed (h : ptr -> R) :
  NoDup ps ->
  exists h', markRoutes b ps changed h
    = (changed || existsb (fun p => xorb b (getIsRoutePreferred (h p))) ps, h') /\
  forall q, h' q = if bool_decide (q ∈ ps)
                   then (if b then setRoutePreferred else clearRoutePreferred) (h q) else h q.
Proof.
  intros Hd. revert changed h. induction Hd as [|p ps Hn _ IH]; intros changed h.
  { exists h. split; [simpl; by rewrite orb_false_r|]. intros q. by rewrite bool_decide_eq_false_2 by apply not_elem_of_nil. }
  cbn [markRoutes]. edestruct IH as (h' & -> & Hh'). exists h'. split.
  - f_equal. simpl. rewrite <- orb_assoc. do 2 f_equal.
    apply existsb_ext_elem. intros q Hq. unfold update.
    by rewrite bool_decide_eq_false_2 by (by intros ->).
  - intros q. rewrite Hh'. unfold update. destruct (decide (q = p)) as [->|Hne].
    + rewrite bool_decide_eq_false_2 by done. rewrite !bool_decide_eq_true_2; [done|left|done].
    + rewrite (bool_decide_eq_false_2 (q = p)) by done.
      rewrite (bool_decide_ext (q ∈ p :: ps) (q ∈ ps)); [done|]. rewrite elem_of_cons. tauto.
Qed.

(** Marking the accepted routes and then unmarking the rejected ones. *)
Lemma mark_both acc rej (h : ptr -> R) :
  NoDup (acc ++ rej) ->
  exists changed h',
    (let '(c, h1) := markRoutes true acc false h in markRoutes false rej c h1) = (changed, h') /\
    (forall p, h' p = if bool_decide (p ∈ acc) then setRoutePreferred (h p)
                      else if bool_decide (p ∈ rej) then clearRoutePreferred (h p) else h p) /\
    (changed = true <->
     exists p, (p ∈ acc /\ getIsRoutePreferred (h p) = false) \/
               (p ∈ rej /\ getIsRoutePreferred (h p) = true)).
Proof.
  intros (Ha & Hdis & Hrej)%NoDup_app.
  assert (Hdis' : forall p, p ∈ rej -> p ∉ acc) by (intros p ? ?; by eapply Hdis).
  destruct (markRoutes_spec true acc false h Ha) as (h1 & -> & Hh1).
  edestruct (markRoutes_spec false rej) as (h2 & -> & Hh2); [done|].
  eexists _, h2. split; [done|]. split.
  { intros p. rewrite Hh2, Hh1. destruct (decide (p ∈ acc)) as [Hp|Hp].
    - rewrite (bool_decide_eq_false_2 (p ∈ rej)) by (by apply Hdis). done.
    - by rewrite (bool_decide_eq_false_2 (p ∈ acc)). }
  cbn [orb]. rewrite orb_true_iff, !existsb_exists. cbn [xorb].
  setoid_rewrite <- list_elem_of_In. split.
  - intros [(p & Hp & Hb)|(p & Hp & Hb)]; exists p; [left|right]; (split; [done|]).
    + by apply negb_true_iff.
    + rewrite Hh1, bool_decide_eq_false_2 in Hb by auto. by destruct (getIsRoutePreferred (h p)).
  - intros (p & [[Hp Hb]|[Hp Hb]]); [left|right]; exists p; (split; [done|]).
    + by apply negb_true_iff.
    + rewrite Hh1, bool_decide_eq_false_2 by auto. by rewrite Hb.
Qed.
End Marking.

(** ** Theorems *)

Section Extensionality.
Context {R : Type} `{RouteBase R}.
Variables h1 h2 : ptr -> R.

(** Two stores on which the rules of the filters agree. *)
Definition same_rules (fs : list (RouteFilter R)) : Prop :=
  Forall (fun f => forall p, f_rule f (h1 p) = f_rule f (h2 p)) fs.

Lemma kept_ext f routes p :
  (forall p, f_rule f (h1 p) = f_rule f (h2 p)) -> kept h1 f routes p = kept h2 f routes p.
Proof.
  intros Hf. assert (Hw : forall q, weight h1 f q = weight h2 f q)
    by (intros q; unfold weight; by rewrite Hf).
  unfold kept, passes, better. destruct (f_class f) as [| [] | |] eqn:E;
    unfold absolute; rewrite E, ?Hw; try done;
    (induction routes as [|q l IH]; [done|]; simpl; by rewrite Hw, IH).
Qed.

Lemma survivors_ext fs routes :
  same_rules fs -> survivors h1 fs routes = survivors h2 fs routes.
Proof.
  intros Hs. revert routes. induction Hs as [|f fs Hf _ IH]; intros routes; [done|]. simpl.
  rewrite IH. f_equal. apply List_filter_ext_in. intros p _. by apply kept_ext.
Qed.

Lemma all_ruled_ext fs routes : same_rules fs -> all_ruled h2 fs routes -> all_ruled h1 fs routes.
Proof.
  intros Hs. unfold all_ruled, ruled. induction Hs as [|f fs Hf _ IH]; [done|].
  intros [H1 H2]%Forall_cons. constructor; [|by apply IH].
  eapply Forall_impl; [exact H1|]. intros p. by rewrite Hf.
Qed.

Lemma rejected_by_ext fs routes p :
  same_rules fs -> rejected_by h1 fs routes p = rejected_by h2 fs routes p.
Proof.
  intros Hs. revert routes. induction Hs as [|f fs Hf _ IH]; intros routes; [done|].
  cbn [rejected_by]. rewrite (kept_ext f) by done.
  rewrite (List_filter_ext_in (kept h1 f routes) (kept h2 f routes)); [by rewrite IH|].
  intros q _. by apply kept_ext.
Qed.
End Extensionality.

Lemma rejected_by_spec {R} `{RouteBase R} (h : ptr -> R) fs routes p :
  p ∈ routes ->
  match rejected_by h fs routes p with
  | None => p ∈ survivors h fs routes
  | Some c => exists fs1 f fs2, fs = fs1 ++ (f :: fs2) /\ c = f_config f /\
      p ∈ survivors h fs1 routes /\ (p ∉ survivors h (fs1 ++ [f]) routes) /\
      (p ∉ survivors h fs routes)
  end.
Proof.
  revert routes. induction fs as [|f fs IH]; intros routes Hp; [done|]. cbn [rejected_by].
  rewrite bool_decide_eq_true_2 by done. cbn [andb]. destruct (kept h f routes p) eqn:E; cbn [negb].
  - specialize (IH (List.filter (kept h f routes) routes)
                  ltac:(by apply List_elem_of_filter)).
    destruct (rejected_by h fs _ p); [|done].
    destruct IH as (fs1 & g & fs2 & -> & -> & H1 & H2 & H3). by exists (f :: fs1), g, fs2.
  - assert (Hn : p ∉ List.filter (kept h f routes) routes)
      by (intros [_ ?]%List_elem_of_filter; congruence).
    exists [], f, fs. split; [done|]. split; [done|]. split; [done|]. split; [done|].
    intros Hin. apply Hn. cbn [survivors] in Hin. eapply elem_of_submseteq; [exact Hin|].
    apply sublist_submseteq, survivors_sublist.
Qed.


#[local] Existing Instance sample_context.


(** On routes for which every rule has a value, [compareRoutes] is a strict weak
    order: a route is not preferred to itself, preference is asymmetric and
    transitive, and so is being tied or worse. *)
Theorem compare_routes_strict_weak_order {R} `{RouteBase R} (h : ptr -> R) fs p q r :
  all_ruled h fs [p; q; r] ->
  compareRoutes h fs p p = Some false /\
  (compareRoutes h fs p q = Some true -> compareRoutes h fs q p = Some false) /\
  (compareRoutes h fs p q = Some true -> compareRoutes h fs q r = Some true ->
   compareRoutes h fs p r = Some true) /\
  (compareRoutes h fs p q = Some false -> compareRoutes h fs q r = Some false ->
   compareRoutes h fs p r = Some false).
Proof.
  intros Hr. assert (Hin : forall x y, x ∈ [p; q; r] -> y ∈ [p; q; r] ->
    compareRoutes h fs x y = Some (outranked h fs x y)).
  { intros x y Hx Hy. apply compareRoutes_outranked. by eapply all_ruled_pair. }
  assert (p ∈ [p; q; r] /\ q ∈ [p; q; r] /\ r ∈ [p; q; r]) as (Hp & Hq & Hr')
    by (rewrite !elem_of_cons; tauto).
  rewrite !Hin by done. split; [by rewrite outranked_irrefl|].
  split; [intros [= E]; by rewrite outranked_asym|].
  split; intros [= E1] [= E2]; f_equal; [by eapply outranked_trans|by eapply outranked_neg_trans].
Qed.

Lemma compare_routes_strict_weak_order_witness :
  let fs := [mkFilter (getHighestLowestRouteFilterConfig BGP_LOCAL_PREFERENCE CHOOSE_HIGHEST)
               (rule_of_option getBgpLocalPreference) (HighestLowestRouteFilter CHOOSE_HIGHEST)] in
  compareRoutes sample_heap fs 3%positive 1%positive = Some true /\
  compareRoutes sample_heap fs 1%positive 3%positive = Some false.
Proof.
  intros fs. split; [reflexivity|].
  destruct (compare_routes_strict_weak_order sample_heap fs 3%positive 1%positive 2%positive)
    as (_ & Hasym & _); [by repeat constructor; eexists|].
  apply Hasym. reflexivity.
Defined.

(** [applyFilters] splits the routes: with filters whose tiebreakers do not recover
    routes themselves, every route given is accepted or rejected, and only once. *)
Theorem apply_filters_partitions {R} `{RouteBase R} (h : ptr -> R) fs routes fm :
  Forall (fun f => shallow h f routes) fs -> NoDup routes ->
  exists acc rej fm', applyFilters h fs routes fm = Some ((acc, rej), fm') /\
    acc ++ rej ≡ₚ routes /\ rej `sublist_of` routes.
Proof. apply applyFilters_shallow. Qed.

(** Accepting one route by router id and recovering those of the same peer AS. *)
Definition sample_recover : list (RouteFilter RouteInfo) :=
  [mkFilter (getRecoverEquivalentRouteFilterConfig BGP_PEER_ASN
       [getHighestLowestRouteFilterConfig BGP_ROUTER_ID CHOOSE_LOWEST])
     (rule_of (fun r => snd (getOriginAsnAndPeerAsn r)))
     (RecoverEquivalentRouteFilter
       [mkFilter (getHighestLowestRouteFilterConfig BGP_ROUTER_ID CHOOSE_LOWEST)
          (rule_of getBgpRouterId) (HighestLowestRouteFilter CHOOSE_LOWEST)])].

Lemma apply_filters_partitions_witness :
  exists acc rej fm', applyFilters sample_heap sample_recover [1; 2; 3]%positive None
    = Some ((acc, rej), fm') /\
    acc ++ rej ≡ₚ [1; 2; 3]%positive /\ rej `sublist_of` [1; 2; 3]%positive.
Proof.
  apply (apply_filters_partitions sample_heap); [|by apply (bool_decide_unpack _)].
  repeat constructor; by eexists.
Defined.

(** [markPreferredRoutes] leaves exactly the selected routes marked as preferred,
    changes no other route, and returns whether the mark of any route changed. *)
Theorem mark_preferred_routes_correct {R} `{RouteBaseLaws R} (h : ptr -> R) fs routes :
  Forall (fun f => shallow h f routes /\ getRouteMetric f <> ALREADY_PREFERRED_ROUTE) fs ->
  NoDup routes ->
  exists sel changed h', selectRoutes h fs routes = Some sel /\
    markPreferredRoutes fs routes h = Some (changed, h') /\
    (forall p, p ∈ routes -> getIsRoutePreferred (h' p) = bool_decide (p ∈ sel)) /\
    (forall p, p ∉ routes -> h' p = h p) /\
    (changed = true <->
     exists p, p ∈ routes /\ getIsRoutePreferred (h' p) <> getIsRoutePreferred (h p)).
Proof.
  intros Hs Hd.
  destruct (applyFilters_shallow h fs routes None) as (acc & rej & fm' & E & Hp & _);
    [by eapply Forall_impl; [exact Hs|]; intros f [? _]|done|].
  assert (Hd' : NoDup (acc ++ rej)) by (by rewrite Hp).
  destruct (mark_both acc rej h Hd') as (changed & h' & Em & Hh' & Hc).
  assert (Hin : forall p, p ∈ routes <-> p ∈ acc \/ p ∈ rej)
    by (intros p; by rewrite <- Hp, elem_of_app).
  assert (Hpref : forall p, p ∈ routes -> getIsRoutePreferred (h' p) = bool_decide (p ∈ acc)).
  { intros p Hpin. rewrite Hh'. case_bool_decide as Ha; [apply preferred_set|].
    rewrite bool_decide_eq_true_2; [apply preferred_clear|]. apply Hin in Hpin. tauto. }
  exists acc, changed, h'. split; [unfold selectRoutes; by rewrite E|]. split.
  { unfold markPreferredRoutes. rewrite existsb_none, E.
    - cbn [mbind option_bind fst snd]. destruct (markRoutes true acc false h). by rewrite Em.
    - eapply Forall_impl; [exact Hs|]. intros f [_ Hm]. by apply bool_decide_eq_false_2. }
  split; [done|]. split.
  { intros p Hn. rewrite Hin in Hn. rewrite Hh', !bool_decide_eq_false_2 by tauto. done. }
  rewrite Hc. split.
  - intros (p & Hpb). exists p. assert (Hpin : p ∈ routes) by (apply Hin; tauto). split; [done|].
    rewrite Hpref by done. destruct Hpb as [[Hpa ->]|[Hpr ->]]; [by rewrite bool_decide_eq_true_2|].
    rewrite bool_decide_eq_false_2; [done|]. intros Hpa.
    apply NoDup_app in Hd' as (_ & Hdis & _). by eapply Hdis.
  - intros (p & Hpin & Hb). exists p. rewrite Hpref in Hb by done. apply Hin in Hpin.
    case_bool_decide; destruct (getIsRoutePreferred (h p)); try done; tauto.
Qed.

#[export] Instance RouteInfo_laws `{RibContext} : RouteBaseLaws RouteInfo.
Proof.
  split; intros r; simpl; unfold has_state, set_state, clear_state.
  - apply Z.eqb_eq, Z.bits_inj'. intros i Hi. rewrite Z.land_spec, Z.lor_spec.
    by destruct (Z.testbit PREFERRED i); rewrite ?orb_true_r, ?andb_false_r.
  - rewrite <- Z.land_assoc. change (Z.land (uint 32 (Z.lnot PREFERRED)) PREFERRED) with 0.
    by rewrite Z.land_0_r.
Qed.

Lemma mark_preferred_routes_correct_witness :
  exists sel changed h', selectRoutes sample_heap sample_recover [1; 2; 3]%positive = Some sel /\
    markPreferredRoutes sample_recover [1; 2; 3]%positive sample_heap = Some (changed, h') /\
    (forall p, p ∈ [1; 2; 3]%positive -> getIsRoutePreferred (h' p) = bool_decide (p ∈ sel)) /\
    (forall p, p ∉ [1; 2; 3]%positive -> h' p = sample_heap p) /\
    (changed = true <->
     exists p, p ∈ [1; 2; 3]%positive /\
       getIsRoutePreferred (h' p) <> getIsRoutePreferred (sample_heap p)).
Proof.
  apply (mark_preferred_routes_correct sample_heap); [|by apply (bool_decide_unpack _)].
  repeat constructor; try (by eexists); done.
Defined.

(** [selectRoutesAndSetRejectionFilter] selects the same routes as [selectRoutes].
    Afterwards a selected route has no rejection criterion, any other route carries the
    configuration of the one filter that dropped it: the filters before it kept the
    route, it and all that follow did not. *)
Theorem rejection_filter_recorded {R} `{RouteBase R} (h : ptr -> R) fs routes :
  forallb flat fs = true -> all_ruled h fs routes -> NoDup routes ->
  (forall f r, f ∈ fs -> f_rule f (clearBestPathFilterCriteria r) = f_rule f r) ->
  exists sel h', selectRoutesAndSetRejectionFilter fs routes h = Some (sel, h') /\
    selectRoutes h fs routes = Some sel /\
    (forall p, p ∉ routes -> h' p = h p) /\
    (forall p, p ∈ sel -> h' p = clearBestPathFilterCriteria (h p)) /\
    (forall p, p ∈ routes -> p ∉ sel ->
       exists fs1 f fs2 before after, fs = fs1 ++ (f :: fs2) /\
         selectRoutes h fs1 routes = Some before /\ p ∈ before /\
         selectRoutes h (fs1 ++ [f]) routes = Some after /\ (p ∉ after) /\
         h' p = setBestPathFilterCriteria (f_config f) (clearBestPathFilterCriteria (h p))).
Proof.
  intros Hf Hr Hd Hclear.
  set (h1 := update_all h routes (fun _ => clearBestPathFilterCriteria)).
  assert (Hh1 : forall p, h1 p = if bool_decide (p ∈ routes) then clearBestPathFilterCriteria (h p)
                                 else h p)
    by (intros p; unfold h1; by rewrite update_all_spec).
  assert (Hsame : same_rules h1 h fs).
  { apply Forall_forall. intros f Hin p. rewrite Hh1. by case_bool_decide; [apply Hclear|]. }
  assert (Hr1 : all_ruled h1 fs routes) by (by eapply all_ruled_ext).
  destruct (applyFilters_flat h1 fs routes (Some ∅) Hf Hr1) as (fm & E & m & -> & Hm).
  setoid_rewrite lookup_empty in Hm.
  eexists _, _. unfold selectRoutesAndSetRejectionFilter. fold h1. rewrite E.
  cbn [mbind option_bind fst default from_option id]. split; [done|].
  rewrite (selectRoutes_flat h), (survivors_ext h1 h) by done. split; [done|].
  assert (Hsub : forall p, p ∈ survivors h fs routes -> p ∈ routes).
  { intros p Hp. eapply elem_of_submseteq; [done|]. apply sublist_submseteq, survivors_sublist. }
  split; [intros p Hp|split; [intros p Hp|intros p Hp Hn]]; rewrite update_all_spec by done.
  - by rewrite bool_decide_eq_false_2, Hh1, bool_decide_eq_false_2.
  - rewrite bool_decide_eq_true_2, Hm, (rejected_by_ext h1 h) by auto.
    pose proof (rejected_by_spec h fs routes p (Hsub p Hp)) as Hs.
    destruct (rejected_by h fs routes p); [by destruct Hs as (?&?&?&_&_&_&_&?)|].
    by rewrite Hh1, bool_decide_eq_true_2 by auto.
  - rewrite bool_decide_eq_true_2, Hm, (rejected_by_ext h1 h) by done.
    pose proof (rejected_by_spec h fs routes p Hp) as Hs.
    destruct (rejected_by h fs routes p); [|done].
    destruct Hs as (fs1 & f & fs2 & -> & -> & Hb & Ha & _).
    rewrite forallb_app in Hf. apply andb_prop in Hf as [Hf1 Hf2]. simpl in Hf2.
    apply andb_prop in Hf2 as [Hf2 _]. apply Forall_app in Hr as [Hr1' [Hr2 _]%Forall_cons].
    exists fs1, f, fs2, (survivors h fs1 routes), (survivors h (fs1 ++ [f]) routes).
    split; [done|]. split; [by apply selectRoutes_flat|]. split; [done|].
    split; [apply selectRoutes_flat; [by rewrite forallb_app, Hf1; simpl; rewrite Hf2|]|].
    + apply Forall_app. by split; [|apply Forall_singleton].
    + split; [done|]. by rewrite Hh1, bool_decide_eq_true_2.
Qed.

Definition sample_filters : list (RouteFilter RouteInfo) :=
  [mkFilter (getMembershipFilterConfig DELETED_ROUTE CHOOSE_MEMBER [0])
     (rule_of_bool getIsRouteDeleted) (MembershipRouteFilter CHOOSE_MEMBER [0]);
   mkFilter (getHighestLowestRouteFilterConfig BGP_LOCAL_PREFERENCE CHOOSE_HIGHEST)
     (rule_of_option getBgpLocalPreference) (HighestLowestRouteFilter CHOOSE_HIGHEST)].

Lemma rejection_filter_recorded_witness :
  exists h', selectRoutesAndSetRejectionFilter sample_filters [1; 2; 3]%positive sample_heap
    = Some ([1; 2]%positive, h') /\
    exists f, f ∈ sample_filters /\
      h' 3%positive = ri_set_bestPathFilterConfig (Some (f_config f))
                        (ri_set_bestPathFilterConfig None (sample_heap 3%positive)).
Proof.
  destruct (rejection_filter_recorded sample_heap sample_filters [1; 2; 3]%positive)
    as (sel & h' & E & Esel & _ & _ & Hrej).
  - reflexivity.
  - by repeat constructor; eexists.
  - by apply (bool_decide_unpack _).
  - intros f r. unfold sample_filters. rewrite !elem_of_cons, elem_of_nil.
    by intros [->|[->|[]]].
  - assert (sel = [1; 2]%positive) as -> by (vm_compute in Esel; congruence).
    exists h'. split; [done|].
    destruct (Hrej 3%positive) as (fs1 & f & fs2 & ? & ? & Hfs & _ & _ & _ & _ & Hh).
    + by apply (bool_decide_unpack _).
    + by apply (bool_decide_unpack _).
    + exists f. split; [|done]. rewrite Hfs. apply elem_of_app. right. by left.
Defined.
