(* ===== verification/RibEntry.v ===== *)
(** * The entry of a prefix in the RIB

    rib/RibEntry.h, RibEntry.cpp and [findLargestFreePathIdInterval] of rib/Utils.cpp:
    the paths of one prefix by peer and received path id, and the path ids they are
    advertised with.  Routes are objects of a store shared with the association lists
    of the next hops (nexthopTracker/NexthopInfo.h, NexthopAssociationList.h). *)

From stdpp Require Import gmap sorting strings.
From Stdlib Require Import SpecFloat.
From S2P Require Import Prelude BgpException Folly BgpStructs RouteFilter RouteInfo.

#[export] Instance IPAddress_countable : Countable IPAddress.
Proof.
  apply (inj_countable'
    (fun a => match a with IPUnset => None | IPV4 o => Some (true, o) | IPV6 o => Some (false, o) end)
    (fun x => match x with None => IPUnset | Some (true, o) => IPV4 o | Some (false, o) => IPV6 o end)).
  by intros [].
Defined.

(** [BgpPeerId]: compared by address and BGP identifier *)
Abbreviation BgpPeerId := (IPAddress * Z)%type.

Definition kMinPathIDToSend : Z := 0.
Definition kMaxPathIDToSend : Z := 2 ^ 32 - 1.

(** [TinyPeerInfo::operator==]; the weights are compared as floats. *)
Definition peer_eqb (a b : TinyPeerInfo) : bool :=
  bool_decide (peer_addr a = peer_addr b) && (peer_asn a =? peer_asn b) &&
  (peer_routerId a =? peer_routerId b) &&
  bool_decide (peer_sessionType a = peer_sessionType b) &&
  Bool.eqb (peer_isRrClient a) (peer_isRrClient b) &&
  Bool.eqb (peer_isRedistributePeer a) (peer_isRedistributePeer b) &&
  match peer_ucmpWeight a, peer_ucmpWeight b with
  | Some x, Some y => SFeqb x y
  | None, None => true
  | _, _ => false
  end &&
  bool_decide (peer_description a = peer_description b).

(** ** The store *)

Record Heap := mkHeap {
  hp_routes : ptr -> RouteInfo;
  hp_next : ptr;                       (** the next object to be allocated *)
  hp_assoc : ptr -> list ptr           (** [routeInfoList_] of each [NexthopInfo] *)
}.

Definition upd {A} (f : ptr -> A) (p : ptr) (a : A) : ptr -> A :=
  fun q => if bool_decide (q = p) then a else f q.

Definition set_route (p : ptr) (r : RouteInfo) (w : Heap) : Heap :=
  mkHeap (upd (hp_routes w) p r) (hp_next w) (hp_assoc w).

Definition make_shared (r : RouteInfo) (w : Heap) : ptr * Heap :=
  (hp_next w, mkHeap (upd (hp_routes w) (hp_next w) r) (Pos.succ (hp_next w)) (hp_assoc w)).

(** [nextHopListHook_.is_linked()]: the hook is linked and unlinked together with
    [nexthopInfo_]. *)
Definition is_linked (r : RouteInfo) : bool :=
  match ri_nexthopInfo r with Some _ => true | None => false end.

(** [NexthopInfo::linkRouteInfo] *)
Definition linkRouteInfo (n p : ptr) (w : Heap) : Heap :=
  if is_linked (hp_routes w p) then w
  else
  mkHeap (upd (hp_routes w) p (setNexthopInfo (Some n) (hp_routes w p))) (hp_next w)
    (upd (hp_assoc w) n (hp_assoc w n ++ [p])).

(** [NexthopInfo::unlinkRouteInfo] *)
Definition unlinkRouteInfo (n p : ptr) (w : Heap) : bool * Heap :=
  if negb (is_linked (hp_routes w p)) then (false, w)
  else
  (true, mkHeap (upd (hp_routes w) p (setNexthopInfo None (hp_routes w p))) (hp_next w)
           (upd (hp_assoc w) n (filter (fun q => q <> p) (hp_assoc w n)))).

(** [RouteInfo::unlinkFromNexthopInfo] *)
Definition unlinkFromNexthopInfo (p : ptr) (w : Heap) : bool * Heap :=
  match ri_nexthopInfo (hp_routes w p) with
  | None => (false, w)
  | Some n => unlinkRouteInfo n p w
  end.

(** ** RibEntry *)

(** The floating-point weights, with the value last advertised of each, and what is
    derived from them.  The maps are held through pointers to constant objects. *)
Record Weights := mkWeights {
  aggregateReceivedUcmpWeight : spec_float;
  advertisedAggregateReceivedUcmpWeight : spec_float;
  aggregateLocalUcmpWeight : spec_float;
  advertisedAggregateLocalUcmpWeight : spec_float;
  ribPolicyUcmpWeight : spec_float;
  advertisedRibPolicyUcmpWeight : spec_float;
  isPartialDrain : bool;
  advertisedIsPartialDrain : bool;
  weightedNexthops : option (gmap IPAddress Z);
  nexthopsAndTopoInfo : option (gmap IPAddress (gmap string Z));
  isUcmpActive : bool
}.

(** The FIB state, the drain thresholds, the time of installation and the advertised
    next hop map of the class are not part of the record. *)
Record RibEntry := mkEntry {
  re_prefix : CIDRNetwork;
  re_routeInfos : gmap BgpPeerId (gmap Z ptr);
  re_allPathsCount : Z;                (** uint32_t *)
  re_needPathSelection : bool;
  re_inactivePathCount : Z;
  re_multipaths : gmap Z ptr;
  re_advertisedMultipaths : gmap Z ptr;
  re_bestpath : option ptr;
  re_advertisedBestpath : option ptr;
  re_installToFib : bool;
  re_freePathIdInterval : Z * Z;
  re_weights : Weights
}.

Definition newWeights : Weights :=
  mkWeights (S754_zero false) (S754_zero false) (S754_zero false) (S754_zero false)
    (S754_zero false) (S754_zero false) false false None None false.

Definition newRibEntry (prefix : CIDRNetwork) : RibEntry :=
  mkEntry prefix ∅ 0 true 0 ∅ ∅ None None true (kMinPathIDToSend, kMaxPathIDToSend) newWeights.

Definition set_paths (m : gmap BgpPeerId (gmap Z ptr)) (count : Z) (e : RibEntry) : RibEntry :=
  mkEntry (re_prefix e) m count true (re_inactivePathCount e) (re_multipaths e)
    (re_advertisedMultipaths e) (re_bestpath e) (re_advertisedBestpath e) (re_installToFib e)
    (re_freePathIdInterval e) (re_weights e).

Definition set_freePathIdInterval (i : Z * Z) (e : RibEntry) : RibEntry :=
  mkEntry (re_prefix e) (re_routeInfos e) (re_allPathsCount e) (re_needPathSelection e)
    (re_inactivePathCount e) (re_multipaths e) (re_advertisedMultipaths e) (re_bestpath e)
    (re_advertisedBestpath e) (re_installToFib e) i (re_weights e).

Definition set_weights (v : Weights) (e : RibEntry) : RibEntry :=
  mkEntry (re_prefix e) (re_routeInfos e) (re_allPathsCount e) (re_needPathSelection e)
    (re_inactivePathCount e) (re_multipaths e) (re_advertisedMultipaths e) (re_bestpath e)
    (re_advertisedBestpath e) (re_installToFib e) (re_freePathIdInterval e) v.

Definition set_needPathSelection (v : bool) (e : RibEntry) : RibEntry :=
  mkEntry (re_prefix e) (re_routeInfos e) (re_allPathsCount e) v
    (re_inactivePathCount e) (re_multipaths e) (re_advertisedMultipaths e) (re_bestpath e)
    (re_advertisedBestpath e) (re_installToFib e) (re_freePathIdInterval e) (re_weights e).

Definition set_inactivePathCount (v : Z) (e : RibEntry) : RibEntry :=
  mkEntry (re_prefix e) (re_routeInfos e) (re_allPathsCount e) (re_needPathSelection e)
    v (re_multipaths e) (re_advertisedMultipaths e) (re_bestpath e)
    (re_advertisedBestpath e) (re_installToFib e) (re_freePathIdInterval e) (re_weights e).

Definition set_multipaths (v : gmap Z ptr) (e : RibEntry) : RibEntry :=
  mkEntry (re_prefix e) (re_routeInfos e) (re_allPathsCount e) (re_needPathSelection e)
    (re_inactivePathCount e) v (re_advertisedMultipaths e) (re_bestpath e)
    (re_advertisedBestpath e) (re_installToFib e) (re_freePathIdInterval e) (re_weights e).

Definition set_advertisedMultipaths (v : gmap Z ptr) (e : RibEntry) : RibEntry :=
  mkEntry (re_prefix e) (re_routeInfos e) (re_allPathsCount e) (re_needPathSelection e)
    (re_inactivePathCount e) (re_multipaths e) v (re_bestpath e)
    (re_advertisedBestpath e) (re_installToFib e) (re_freePathIdInterval e) (re_weights e).

Definition set_bestpath (v : option ptr) (installToFib : bool) (e : RibEntry) : RibEntry :=
  mkEntry (re_prefix e) (re_routeInfos e) (re_allPathsCount e) (re_needPathSelection e)
    (re_inactivePathCount e) (re_multipaths e) (re_advertisedMultipaths e) v
    (re_advertisedBestpath e) installToFib (re_freePathIdInterval e) (re_weights e).

Definition set_advertisedBestpath (v : option ptr) (e : RibEntry) : RibEntry :=
  mkEntry (re_prefix e) (re_routeInfos e) (re_allPathsCount e) (re_needPathSelection e)
    (re_inactivePathCount e) (re_multipaths e) (re_advertisedMultipaths e) (re_bestpath e)
    v (re_installToFib e) (re_freePathIdInterval e) (re_weights e).

(** [getRouteInfo] *)
Definition getRouteInfo (peer : BgpPeerId) (receivedPathId : Z) (e : RibEntry) : option ptr :=
  re_routeInfos e !! peer ≫= fun m => m !! receivedPathId.

(** [getAllPaths]; the hash maps are read in the order of [map_to_list], which stands for
    an order the code does not choose. *)
Definition getAllPaths (e : RibEntry) : list ptr :=
  concat (map (fun kv : BgpPeerId * gmap Z ptr => map snd (map_to_list kv.2))
            (map_to_list (re_routeInfos e))).

Definition getAllPathsCnt (e : RibEntry) : Z := re_allPathsCount e.

Definition sf_neb (a b : spec_float) : bool := negb (SFeqb a b).

Definition commitBestpath (e : RibEntry) : bool * RibEntry :=
  let v := re_weights e in
  let ret := negb (bool_decide (re_advertisedBestpath e = re_bestpath e))
    || sf_neb (advertisedAggregateReceivedUcmpWeight v) (aggregateReceivedUcmpWeight v)
    || sf_neb (advertisedAggregateLocalUcmpWeight v) (aggregateLocalUcmpWeight v)
    || sf_neb (advertisedRibPolicyUcmpWeight v) (ribPolicyUcmpWeight v)
    || xorb (advertisedIsPartialDrain v) (isPartialDrain v) in
  let e := set_weights
    (mkWeights (aggregateReceivedUcmpWeight v) (aggregateReceivedUcmpWeight v)
       (aggregateLocalUcmpWeight v) (aggregateLocalUcmpWeight v)
       (ribPolicyUcmpWeight v) (ribPolicyUcmpWeight v) (isPartialDrain v) (isPartialDrain v)
       (weightedNexthops v) (nexthopsAndTopoInfo v) (isUcmpActive v)) e in
  match re_advertisedBestpath e, re_bestpath e with
  | None, None => (false, e)
  | _, _ => (ret, set_advertisedBestpath (re_bestpath e) e)
  end.

Definition multipathChanged (e : RibEntry) : bool :=
  negb (bool_decide (re_advertisedMultipaths e = re_multipaths e)).

Definition commitMultipaths (e : RibEntry) : bool * RibEntry :=
  (multipathChanged e, set_advertisedMultipaths (re_multipaths e) e).

(** ** updatePath *)

Section UpdatePath.
(** [unlinkRouteInfoFn]: the callback of the RIB, if any *)
Variable unlinkRouteInfoFn : option (ptr -> Heap -> bool * Heap).

Definition unlinkRouteInfoFromNexthop (p : ptr) (w : Heap) : Heap :=
  snd (match unlinkRouteInfoFn with
       | Some fn => fn p w
       | None => unlinkFromNexthopInfo p w
       end).

Definition linkRouteInfoToNexthop (p : ptr) (nexthopInfo : option ptr) (w : Heap) : Heap :=
  match nexthopInfo with Some n => linkRouteInfo n p w | None => w end.

(** Withdrawal *)
Definition withdrawPath (peerId : BgpPeerId) (receivedPathId : Z) (w : Heap) (e : RibEntry)
    : bool * Heap * RibEntry :=
  match re_routeInfos e !! peerId with
  | None => (false, w, e)
  | Some paths =>
      match paths !! receivedPathId with
      | None => (false, w, e)
      | Some p =>
          let w := unlinkRouteInfoFromNexthop p w in
          let paths := delete receivedPathId paths in
          (true, w,
           set_paths (if bool_decide (paths = ∅) then delete peerId (re_routeInfos e)
                      else <[peerId := paths]> (re_routeInfos e))
             (uint 32 (re_allPathsCount e - 1)) e)
      end
  end.

(** Announcement.  [None]: a [CHECK] of the [RouteInfo] constructor failed. *)
Definition announcePath (peer : TinyPeerInfo) (attrs : ptr * BgpPath) (installToFib : bool)
    (receivedPathId : Z) (nexthopInfo : option ptr) (w : Heap) (e : RibEntry)
    : option (bool * Heap * RibEntry) :=
  let peerId := (peer_addr peer, peer_routerId peer) in
  let iter := re_routeInfos e !! peerId in
  let found := iter ≫= fun m => m !! receivedPathId in
  match found with
  | Some old =>
      let r := hp_routes w old in
      if bool_decide (fst (ri_attrs r) = fst attrs) && peer_eqb (ri_peer r) peer
      then Some (false, w, e)
      else
      new ← newRouteInfo (re_prefix e) peer attrs receivedPathId (ri_pathIdToSend r) installToFib;
      let '(p, w) := make_shared new w in
      let w := linkRouteInfoToNexthop p nexthopInfo w in
      let w := unlinkRouteInfoFromNexthop old w in
      Some (true, w,
            set_paths (<[peerId := <[receivedPathId := p]> (default ∅ iter)]> (re_routeInfos e))
              (re_allPathsCount e) e)
  | None =>
      new ← newRouteInfo (re_prefix e) peer attrs receivedPathId None installToFib;
      let '(p, w) := make_shared new w in
      let w := linkRouteInfoToNexthop p nexthopInfo w in
      Some (true, w,
            set_paths (<[peerId := <[receivedPathId := p]> (default ∅ iter)]> (re_routeInfos e))
              (uint 32 (re_allPathsCount e + 1)) e)
  end.

Definition updatePath (peer : TinyPeerInfo) (attrs : option (ptr * BgpPath)) (installToFib : bool)
    (receivedPathId : Z) (nexthopInfo : option ptr) (w : Heap) (e : RibEntry)
    : option (bool * Heap * RibEntry) :=
  match attrs with
  | None => Some (withdrawPath (peer_addr peer, peer_routerId peer) receivedPathId w e)
  | Some a => announcePath peer a installToFib receivedPathId nexthopInfo w e
  end.
End UpdatePath.

(** ** Path ids *)

(** The ids of the routes that lie in the range *)
Definition usedIdsOf (minPathId maxPathId : Z) (w : Heap) (e : RibEntry) : list Z :=
  omap (fun p => match ri_pathIdToSend (hp_routes w p) with
                 | Some i => if (minPathId <=? i) && (i <=? maxPathId) then Some i else None
                 | None => None
                 end) (getAllPaths e).

(** The loop over consecutive ids: [(left, right, maxGap)] *)
Fixpoint widestGap (usedIds : list Z) (best : Z * Z * Z) : Z * Z :=
  match usedIds with
  | a :: ((b :: _) as rest) =>
      let thisGap := b - a - 1 in
      let '(_, maxGap) := best in
      widestGap rest (if maxGap <? thisGap then (uint 32 (a + 1), uint 32 (b - 1), thisGap) else best)
  | _ => fst best
  end.

(** [XCHECK]s [minPathId < maxPathId] *)
Definition findLargestFreePathIdInterval (minPathId maxPathId : Z) (w : Heap) (e : RibEntry)
    : option (Z * Z) :=
  if negb (minPathId <? maxPathId) then None
  else
  Some (widestGap
          (merge_sort Z.le ([minPathId - 1; maxPathId + 1] ++ usedIdsOf minPathId maxPathId w e))
          (minPathId, maxPathId, -1)).

Definition getPathIdToSend (w : Heap) (e : RibEntry) : option (Z * RibEntry) :=
  interval ←
    (if snd (re_freePathIdInterval e) <? fst (re_freePathIdInterval e)
     then findLargestFreePathIdInterval kMinPathIDToSend kMaxPathIDToSend w e
     else Some (re_freePathIdInterval e));
  Some (fst interval, set_freePathIdInterval (uint 32 (fst interval + 1), snd interval) e).

Definition getOrAssignSendPathId (p : ptr) (w : Heap) (e : RibEntry)
    : option (Z * Heap * RibEntry) :=
  match ri_pathIdToSend (hp_routes w p) with
  | Some i => Some (i, w, e)
  | None =>
      '(i, e) ← getPathIdToSend w e;
      Some (i, set_route p (ri_set_pathIdToSend (Some i) (hp_routes w p)) w, e)
  end.

(** ** The paths as one collection *)

Section Paths.
Implicit Types (m : gmap BgpPeerId (gmap Z ptr)) (x : gmap Z ptr).

Definition vals x : list ptr := map snd (map_to_list x).
Definition paths_of m : list ptr := concat (map (fun kv => vals kv.2) (map_to_list m)).

Lemma vals_split x i : vals x ≡ₚ option_list (x !! i) ++ vals (delete i x).
Proof.
  destruct (x !! i) as [p|] eqn:E; simpl.
  - unfold vals. rewrite <- (map_to_list_delete x i p) by done. done.
  - by rewrite delete_id.
Qed.

Lemma vals_insert x i p : vals (<[i := p]> x) ≡ₚ p :: vals (delete i x).
Proof. rewrite (vals_split _ i), lookup_insert_eq, delete_insert_eq. done. Qed.

Lemma paths_split m k : paths_of m ≡ₚ vals (default ∅ (m !! k)) ++ paths_of (delete k m).
Proof.
  destruct (m !! k) as [x|] eqn:E; simpl.
  - unfold paths_of. rewrite <- (map_to_list_delete m k x) by done. done.
  - by rewrite delete_id.
Qed.

Lemma paths_insert m k x : paths_of (<[k := x]> m) ≡ₚ vals x ++ paths_of (delete k m).
Proof. rewrite (paths_split _ k), lookup_insert_eq, delete_insert_eq. done. Qed.

(** The paths other than that of peer [k] with id [i] *)
Definition other_paths m (k : BgpPeerId) (i : Z) : list ptr :=
  vals (delete i (default ∅ (m !! k))) ++ paths_of (delete k m).

Lemma paths_at m k i :
  paths_of m ≡ₚ option_list (m !! k ≫= fun x => x !! i) ++ other_paths m k i.
Proof.
  unfold other_paths. rewrite (paths_split m k), (vals_split _ i), <- (assoc_L (++)).
  destruct (m !! k); simpl; [done|]. by rewrite lookup_empty.
Qed.

Lemma paths_put m k i p :
  paths_of (<[k := <[i := p]> (default ∅ (m !! k))]> m) ≡ₚ p :: other_paths m k i.
Proof. by rewrite paths_insert, vals_insert. Qed.

Lemma paths_drop m k i x :
  m !! k = Some x ->
  paths_of (if bool_decide (delete i x = ∅) then delete k m else <[k := delete i x]> m)
  ≡ₚ other_paths m k i.
Proof.
  intros E. unfold other_paths. rewrite E. simpl. case_bool_decide as Hx; [by rewrite Hx|].
  by rewrite paths_insert.
Qed.

Lemma elem_of_paths m p : p ∈ paths_of m <-> exists k i, (m !! k ≫= fun x => x !! i) = Some p.
Proof.
  split.
  - unfold paths_of. intros Hp. apply list_elem_of_In, in_concat in Hp as (l & Hl & Hp).
    apply in_map_iff in Hl as ([k x] & <- & Hkx). apply list_elem_of_In, elem_of_map_to_list in Hkx.
    simpl in Hp. unfold vals in Hp. apply in_map_iff in Hp as ([i q] & Hq & Hiq). simpl in Hq. subst q.
    apply list_elem_of_In, elem_of_map_to_list in Hiq. exists k, i. by rewrite Hkx.
  - intros (k & i & E). rewrite (paths_at m k i), E. by left.
Qed.
End Paths.

Lemma getAllPaths_paths e : getAllPaths e = paths_of (re_routeInfos e).
Proof. done. Qed.

(** ** Invariant of an entry *)

Record entry_ok (w : Heap) (e : RibEntry) : Prop := {
  eo_nonempty : forall k x, re_routeInfos e !! k = Some x -> x <> ∅;
  eo_count : re_allPathsCount e = uint 32 (Z.of_nat (length (getAllPaths e)));
  eo_nodup : NoDup (getAllPaths e);
  eo_alloc : forall p, p ∈ getAllPaths e -> (p < hp_next w)%positive;
  eo_keyed : forall k i p, getRouteInfo k i e = Some p ->
    (peer_addr (ri_peer (hp_routes w p)), peer_routerId (ri_peer (hp_routes w p))) = k /\
    ri_receivedPathId (hp_routes w p) = i /\ ri_prefix (hp_routes w p) = re_prefix e
}.

Lemma newRibEntry_ok w prefix : entry_ok w (newRibEntry prefix).
Proof.
  split; try done.
  - constructor.
  - by intros p ?%elem_of_nil.
Qed.

(** What the entry needs of the callback: it clears [nexthopInfo_] of the route and
    touches no other route. *)
Definition unlinks (fn : option (ptr -> Heap -> bool * Heap)) : Prop :=
  forall p w, let w' := unlinkRouteInfoFromNexthop fn p w in
  hp_next w' = hp_next w /\ hp_routes w' p = setNexthopInfo None (hp_routes w p) /\
  forall q, q <> p -> hp_routes w' q = hp_routes w q.

Lemma upd_eq {A} (f : ptr -> A) p a : upd f p a p = a.
Proof. unfold upd. by rewrite bool_decide_eq_true_2. Qed.
Lemma upd_ne {A} (f : ptr -> A) p q a : q <> p -> upd f p a q = f q.
Proof. intros. unfold upd. by rewrite bool_decide_eq_false_2. Qed.

(** Without a callback the entry unlinks the route itself. *)
Lemma unlinks_default : unlinks None.
Proof.
  intros p w. unfold unlinkRouteInfoFromNexthop, unlinkFromNexthopInfo.
  destruct (ri_nexthopInfo (hp_routes w p)) as [n|] eqn:E; simpl.
  - unfold unlinkRouteInfo, is_linked. rewrite E. simpl. split; [done|]. rewrite upd_eq.
    split; [done|]. intros q Hq. by rewrite upd_ne.
  - split; [done|]. split; [|done]. destruct (hp_routes w p). simpl in *. by subst.
Qed.

(** The fields of a route the entry relies on, which linking does not touch. *)
Definition same_route (r r' : RouteInfo) : Prop :=
  setNexthopInfo None r = setNexthopInfo None r'.

Lemma same_route_fields r r' :
  same_route r r' -> ri_prefix r = ri_prefix r' /\ ri_peer r = ri_peer r' /\
  ri_attrs r = ri_attrs r' /\ ri_receivedPathId r = ri_receivedPathId r' /\
  ri_pathIdToSend r = ri_pathIdToSend r' /\ ri_status r = ri_status r' /\
  ri_installToFib r = ri_installToFib r'.
Proof. destruct r, r'. unfold same_route. simpl. by intros [= -> -> -> -> -> -> ->]. Qed.

Lemma lookup_put (m : gmap BgpPeerId (gmap Z ptr)) k i p k' i' :
  (<[k := <[i := p]> (default ∅ (m !! k))]> m !! k' ≫= fun x => x !! i') =
  if bool_decide ((k', i') = (k, i)) then Some p else m !! k' ≫= fun x => x !! i'.
Proof.
  destruct (decide (k' = k)) as [->|Hk].
  - rewrite lookup_insert_eq. simpl. destruct (decide (i' = i)) as [->|Hi].
    + by rewrite lookup_insert_eq, bool_decide_eq_true_2.
    + rewrite lookup_insert_ne, bool_decide_eq_false_2 by congruence.
      destruct (m !! k); simpl; [done|]. by rewrite lookup_empty.
  - by rewrite lookup_insert_ne, bool_decide_eq_false_2 by congruence.
Qed.

Lemma lookup_drop (m : gmap BgpPeerId (gmap Z ptr)) k i x k' i' :
  m !! k = Some x ->
  ((if bool_decide (delete i x = ∅) then delete k m else <[k := delete i x]> m) !! k'
     ≫= fun x => x !! i') =
  if bool_decide ((k', i') = (k, i)) then None else m !! k' ≫= fun x => x !! i'.
Proof.
  intros E. destruct (decide (k' = k)) as [->|Hk].
  - assert (Hdel : delete i x !! i' = if bool_decide ((k, i') = (k, i)) then None else x !! i').
    { destruct (decide (i' = i)) as [->|Hi].
      - by rewrite lookup_delete_eq, bool_decide_eq_true_2.
      - by rewrite lookup_delete_ne, bool_decide_eq_false_2 by congruence. }
    rewrite E. simpl. rewrite <- Hdel. clear Hdel. case_bool_decide as Hx.
    + by rewrite lookup_delete_eq, Hx, lookup_empty.
    + by rewrite lookup_insert_eq.
  - rewrite (bool_decide_eq_false_2 ((k', i') = (k, i))) by congruence.
    case_bool_decide; [by rewrite lookup_delete_ne|by rewrite lookup_insert_ne].
Qed.

Lemma elem_of_option {A} (o : option A) x : x ∈ option_list o <-> o = Some x.
Proof.
  destruct o; simpl; [rewrite list_elem_of_singleton|rewrite elem_of_nil]; split; congruence || done.
Qed.

Lemma other_paths_sub e k i p : p ∈ other_paths (re_routeInfos e) k i -> p ∈ getAllPaths e.
Proof. rewrite getAllPaths_paths, (paths_at _ k i), elem_of_app. by right. Qed.

(** Storing a fresh route under [(k, i)] keeps the invariant. *)
Lemma put_ok w w' e k i p :
  entry_ok w e -> p = hp_next w -> hp_next w' = Pos.succ p ->
  (forall q, q ∈ other_paths (re_routeInfos e) k i -> same_route (hp_routes w' q) (hp_routes w q)) ->
  (peer_addr (ri_peer (hp_routes w' p)), peer_routerId (ri_peer (hp_routes w' p))) = k ->
  ri_receivedPathId (hp_routes w' p) = i -> ri_prefix (hp_routes w' p) = re_prefix e ->
  entry_ok w' (set_paths (<[k := <[i := p]> (default ∅ (re_routeInfos e !! k))]> (re_routeInfos e))
                 (uint 32 (1 + Z.of_nat (length (other_paths (re_routeInfos e) k i)))) e).
Proof.
  intros [Hne Hc Hd Ha Hk] Ep Hnext Hsame H1 H2 H3.
  pose proof (paths_put (re_routeInfos e) k i p) as Hp.
  rewrite getAllPaths_paths, (paths_at _ k i) in Hd. apply NoDup_app in Hd as (_ & _ & Hd).
  split; rewrite ?getAllPaths_paths; cbn [re_routeInfos re_allPathsCount set_paths re_prefix].
  - intros k' x Hx. destruct (decide (k' = k)) as [->|].
    + rewrite lookup_insert_eq in Hx. injection Hx as <-. apply insert_non_empty.
    + rewrite lookup_insert_ne in Hx by done. by eapply Hne.
  - rewrite Hp. cbn [length]. f_equal. lia.
  - rewrite Hp. constructor; [|done]. intros Hin%other_paths_sub%Ha. lia.
  - intros q. rewrite Hp, elem_of_cons. intros [->|Hin%other_paths_sub%Ha]; lia.
  - intros k' i' q. unfold getRouteInfo. cbn [re_routeInfos set_paths]. rewrite lookup_put.
    case_bool_decide as E; [intros [= <-]; by injection E as -> ->|]. intros Hq.
    assert (Hq' : q ∈ other_paths (re_routeInfos e) k i).
    { pose proof (Hk _ _ _ Hq) as (Hq1 & Hq2 & _).
      assert (Hin : q ∈ paths_of (re_routeInfos e)) by (apply elem_of_paths; eauto).
      rewrite (paths_at _ k i), elem_of_app in Hin. destruct Hin as [Hin|Hin]; [|done].
      apply elem_of_option in Hin. pose proof (Hk _ _ _ Hin) as (Hr1 & Hr2 & _). congruence. }
    destruct (same_route_fields _ _ (Hsame q Hq')) as (-> & -> & _ & -> & _).
    by apply Hk.
Qed.

(** Removing the route under [(k, i)] keeps the invariant. *)
Lemma drop_ok w w' e k i x p :
  entry_ok w e -> re_routeInfos e !! k = Some x -> x !! i = Some p -> hp_next w' = hp_next w ->
  (forall q, q <> p -> hp_routes w' q = hp_routes w q) ->
  entry_ok w' (set_paths (if bool_decide (delete i x = ∅) then delete k (re_routeInfos e)
                          else <[k := delete i x]> (re_routeInfos e))
                 (uint 32 (re_allPathsCount e - 1)) e).
Proof.
  intros [Hne Hc Hd Ha Hk] Ex Ei Hnext Hsame.
  pose proof (paths_drop (re_routeInfos e) k i x Ex) as Hp.
  pose proof (paths_at (re_routeInfos e) k i) as Hat. rewrite Ex in Hat. simpl in Hat.
  rewrite Ei in Hat. simpl in Hat. rewrite getAllPaths_paths in *. rewrite Hat in Hd.
  apply NoDup_cons in Hd as [Hnp Hd].
  split; rewrite ?getAllPaths_paths; cbn [re_routeInfos re_allPathsCount set_paths re_prefix].
  - intros k' y Hy. clear Hp. case_bool_decide as Hx.
    + destruct (decide (k' = k)) as [->|]; [by rewrite lookup_delete_eq in Hy|].
      rewrite lookup_delete_ne in Hy by done. by eapply Hne.
    + destruct (decide (k' = k)) as [->|]; [rewrite lookup_insert_eq in Hy; by injection Hy as <-|].
      rewrite lookup_insert_ne in Hy by done. by eapply Hne.
  - rewrite Hp, Hc, Hat. cbn [length]. unfold uint. rewrite Zminus_mod_idemp_l. f_equal. lia.
  - by rewrite Hp.
  - intros q. rewrite Hp, Hnext. intros Hq. apply Ha. rewrite Hat. by right.
  - intros k' i' q. unfold getRouteInfo. cbn [re_routeInfos set_paths].
    rewrite lookup_drop by done. clear Hp. case_bool_decide as E; [done|]. intros Hq.
    rewrite Hsame; [by apply Hk|].
    intros ->. pose proof (Hk _ _ _ Hq) as (H1 & H2 & _).
    assert (Hq' : getRouteInfo k i e = Some p) by (unfold getRouteInfo; by rewrite Ex).
    pose proof (Hk _ _ _ Hq') as (H3 & H4 & _). congruence.
Qed.

(** Creating, linking and storing a route, and releasing the one it replaces. *)
Lemma link_new w n r :
  ri_nexthopInfo r = None ->
  let '(p, w1) := make_shared r w in
  let w2 := linkRouteInfoToNexthop p n w1 in
  p = hp_next w /\ hp_next w2 = Pos.succ p /\ hp_routes w2 p = setNexthopInfo n r /\
  forall q, q <> p -> hp_routes w2 q = hp_routes w q.
Proof.
  intros Hr. unfold make_shared, linkRouteInfoToNexthop. destruct n as [n|].
  - unfold linkRouteInfo, is_linked. simpl. rewrite upd_eq, Hr. simpl. rewrite upd_eq.
    split; [done|]. split; [done|]. split; [done|]. intros q Hq. by rewrite !upd_ne.
  - simpl. rewrite upd_eq. split; [done|]. split; [done|]. split.
    + destruct r. simpl in *. by subst.
    + intros q Hq. by rewrite upd_ne.
Qed.

Lemma newRouteInfo_fields prefix peer attrs i pid inst :
  path_localPref attrs.2 <> None ->
  exists r, newRouteInfo prefix peer attrs i pid inst = Some r /\
    ri_prefix r = prefix /\ ri_peer r = peer /\ ri_attrs r = attrs /\ ri_receivedPathId r = i /\
    ri_pathIdToSend r = pid /\ ri_installToFib r = inst /\ ri_nexthopInfo r = None.
Proof. intros Hl. unfold newRouteInfo. destruct (path_localPref attrs.2); [|done]. by eexists. Qed.

(** The route stored for an announcement: its peer, attributes and next hop, and the
    path id of the route it replaces. *)
Definition announced (w' : Heap) (p : ptr) (peer : TinyPeerInfo) (a : ptr * BgpPath)
    (installToFib : bool) (receivedPathId : Z) (nexthopInfo : option ptr) (old : option RouteInfo)
    : Prop :=
  let r := hp_routes w' p in
  ri_peer r = peer /\ ri_attrs r = a /\ ri_receivedPathId r = receivedPathId /\
  ri_installToFib r = installToFib /\ ri_nexthopInfo r = nexthopInfo /\
  ri_pathIdToSend r = old ≫= ri_pathIdToSend.

Lemma announce_put fn w e peer a inst i n old :
  unlinks fn -> entry_ok w e -> path_localPref a.2 <> None ->
  getRouteInfo (peer_addr peer, peer_routerId peer) i e = old ->
  let k := (peer_addr peer, peer_routerId peer) in
  exists p r w1 w2,
    newRouteInfo (re_prefix e) peer a i (old ≫= fun o => ri_pathIdToSend (hp_routes w o)) inst = Some r /\
    make_shared r w = (p, w1) /\
    w2 = match old with
         | Some o => unlinkRouteInfoFromNexthop fn o (linkRouteInfoToNexthop p n w1)
         | None => linkRouteInfoToNexthop p n w1
         end /\
    announced w2 p peer a inst i n (hp_routes w <$> old) /\
    (forall q, q ∈ other_paths (re_routeInfos e) k i -> same_route (hp_routes w2 q) (hp_routes w q)) /\
    entry_ok w2 (set_paths (<[k := <[i := p]> (default ∅ (re_routeInfos e !! k))]> (re_routeInfos e))
                   (uint 32 (1 + Z.of_nat (length (other_paths (re_routeInfos e) k i)))) e).
Proof.
  intros Hfn Hok Hl Hold k.
  destruct (newRouteInfo_fields (re_prefix e) peer a i
              (old ≫= fun o => ri_pathIdToSend (hp_routes w o)) inst Hl)
    as (r & Er & F1 & F2 & F3 & F4 & F5 & F6 & F7).
  pose proof (link_new w n r F7) as Hlink. destruct (make_shared r w) as [p w1] eqn:Em.
  destruct Hlink as (Ep & Hnext & Hp & Hq).
  assert (Halloc : forall q, q ∈ getAllPaths e -> q <> p).
  { intros q Hin ->. apply (eo_alloc _ _ Hok) in Hin. lia. }
  set (w2 := match old with
             | Some o => unlinkRouteInfoFromNexthop fn o (linkRouteInfoToNexthop p n w1)
             | None => linkRouteInfoToNexthop p n w1
             end).
  assert (Hw2 : hp_next w2 = Pos.succ p /\ hp_routes w2 p = setNexthopInfo n r /\
                forall q, q ∈ other_paths (re_routeInfos e) k i -> same_route (hp_routes w2 q) (hp_routes w q)).
  { unfold w2. destruct old as [o|].
    - destruct (Hfn o (linkRouteInfoToNexthop p n w1)) as (G1 & G2 & G3).
      assert (Ho : o <> p).
      { apply Halloc. rewrite getAllPaths_paths. apply elem_of_paths. eauto. }
      rewrite G1, G3 by done. split; [done|]. split; [done|]. intros q Hin.
      destruct (decide (q = o)) as [->|Hne].
      + rewrite G2, Hq by done. unfold same_route. by destruct (hp_routes w o).
      + rewrite G3, Hq by (done || by eapply Halloc, other_paths_sub). done.
    - split; [done|]. split; [done|]. intros q Hin. rewrite Hq; [done|]. by eapply Halloc, other_paths_sub. }
  destruct Hw2 as (Hn2 & Hp2 & Hsame).
  exists p, r, w1, w2. split; [done|]. split; [done|]. split; [done|]. split.
  { unfold announced. rewrite Hp2. simpl. rewrite F2, F3, F4, F5, F6. by destruct old. }
  split; [done|]. apply (put_ok w); try done; rewrite Hp2; simpl; by rewrite ?F2, ?F4, ?F1.
Qed.

(** ** Path ids in use *)

Definition ids_of (w : Heap) (l : list ptr) : list Z :=
  omap (fun p => ri_pathIdToSend (hp_routes w p)) l.

(** The ids in use are distinct, and none of them is in the free interval. *)
Record path_ids_ok (w : Heap) (e : RibEntry) : Prop := {
  pi_nodup : NoDup (ids_of w (getAllPaths e));
  pi_range : forall i, i ∈ ids_of w (getAllPaths e) -> 0 <= i < 2 ^ 32;
  pi_left : 0 <= fst (re_freePathIdInterval e) < 2 ^ 32;
  pi_right : 0 <= snd (re_freePathIdInterval e) < 2 ^ 32;
  pi_free : forall i, fst (re_freePathIdInterval e) <= i <= snd (re_freePathIdInterval e) ->
    i ∉ ids_of w (getAllPaths e)
}.

Lemma newRibEntry_ids_ok w prefix : path_ids_ok w (newRibEntry prefix).
Proof. split; try (intros; apply not_elem_of_nil); try by intros i ?%elem_of_nil. constructor. all: done. Qed.

Lemma ids_of_same w w' l :
  (forall q, q ∈ l -> ri_pathIdToSend (hp_routes w' q) = ri_pathIdToSend (hp_routes w q)) ->
  ids_of w' l = ids_of w l.
Proof.
  induction l as [|q l IH]; [done|]. intros H. unfold ids_of in *. simpl.
  rewrite H by left. destruct (ri_pathIdToSend _); [f_equal|]; apply IH; intros; apply H; by right.
Qed.

Lemma path_ids_ok_sub w e w' e' :
  path_ids_ok w e -> re_freePathIdInterval e' = re_freePathIdInterval e ->
  ids_of w' (getAllPaths e') ⊆+ ids_of w (getAllPaths e) -> path_ids_ok w' e'.
Proof.
  intros [H1 H2 H3 H4 H5] E Hsub.
  assert (Hin : forall i, i ∈ ids_of w' (getAllPaths e') -> i ∈ ids_of w (getAllPaths e)).
  { intros i Hi. by eapply elem_of_submseteq. }
  split; rewrite ?E; auto.
  - apply submseteq_Permutation in Hsub as [k Hk]. rewrite Hk in H1. apply NoDup_app in H1. tauto.
  - intros i Hi Hi'. by eapply H5, Hin.
Qed.

Lemma ids_of_perm w l l' : l ≡ₚ l' -> ids_of w l ≡ₚ ids_of w l'.
Proof. intros H. unfold ids_of. by rewrite H. Qed.

(** The ids in use before, with those of the path at [(k, i)] apart *)
Lemma ids_at w e k i :
  ids_of w (getAllPaths e) ≡ₚ
  option_list (getRouteInfo k i e ≫= fun o => ri_pathIdToSend (hp_routes w o)) ++
  ids_of w (other_paths (re_routeInfos e) k i).
Proof.
  rewrite getAllPaths_paths. rewrite (ids_of_perm w _ _ (paths_at (re_routeInfos e) k i)).
  unfold ids_of at 1. rewrite omap_app. unfold getRouteInfo.
  destruct (_ ≫= fun x => x !! i) as [o|]; [|done].
  simpl. by destruct (ri_pathIdToSend (hp_routes w o)).
Qed.

Lemma put_ids_ok w w2 e k i p c :
  path_ids_ok w e ->
  ri_pathIdToSend (hp_routes w2 p) = getRouteInfo k i e ≫= (fun o => ri_pathIdToSend (hp_routes w o)) ->
  (forall q, q ∈ other_paths (re_routeInfos e) k i -> same_route (hp_routes w2 q) (hp_routes w q)) ->
  path_ids_ok w2 (set_paths (<[k := <[i := p]> (default ∅ (re_routeInfos e !! k))]> (re_routeInfos e)) c e).
Proof.
  intros Hok Hp Hq. apply (path_ids_ok_sub w e); [done|done|].
  rewrite getAllPaths_paths. cbn [re_routeInfos set_paths].
  rewrite (ids_of_perm w2 _ _ (paths_put _ k i p)), (ids_at w e k i), <- Hp.
  rewrite <- (ids_of_same w w2 (other_paths _ k i)).
  - unfold ids_of. simpl. by destruct (ri_pathIdToSend (hp_routes w2 p)).
  - intros q Hin. by destruct (same_route_fields _ _ (Hq q Hin)) as (_ & _ & _ & _ & -> & _).
Qed.

Lemma drop_ids_ok w w' e k i x p c :
  entry_ok w e -> path_ids_ok w e -> re_routeInfos e !! k = Some x -> x !! i = Some p ->
  (forall q, q <> p -> hp_routes w' q = hp_routes w q) ->
  path_ids_ok w' (set_paths (if bool_decide (delete i x = ∅) then delete k (re_routeInfos e)
                             else <[k := delete i x]> (re_routeInfos e)) c e).
Proof.
  intros Hok Hids Ex Ei Hq. apply (path_ids_ok_sub w e); [done|done|].
  rewrite getAllPaths_paths. cbn [re_routeInfos set_paths].
  rewrite (ids_of_perm w' _ _ (paths_drop _ k i x Ex)), (ids_at w e k i).
  rewrite (ids_of_same w w'); [by apply submseteq_inserts_l|].
  intros q Hin. rewrite Hq; [done|]. intros ->. pose proof (eo_nodup _ _ Hok) as Hd.
  rewrite getAllPaths_paths, (paths_at _ k i), Ex in Hd. simpl in Hd. rewrite Ei in Hd.
  simpl in Hd. by apply NoDup_cons in Hd as [? _].
Qed.

(** The number of paths with a path at [(k, i)] *)
Lemma count_put w e k i :
  entry_ok w e ->
  uint 32 (1 + Z.of_nat (length (other_paths (re_routeInfos e) k i))) =
  match getRouteInfo k i e with
  | Some _ => re_allPathsCount e
  | None => uint 32 (re_allPathsCount e + 1)
  end.
Proof.
  intros Hok. pose proof (Permutation_length (paths_at (re_routeInfos e) k i)) as Hlen.
  rewrite (eo_count _ _ Hok), getAllPaths_paths, Hlen, length_app.
  unfold getRouteInfo. destruct (_ ≫= _); simpl length.
  - f_equal. lia.
  - unfold uint. rewrite Zplus_mod_idemp_l. f_equal. lia.
Qed.

(** [updatePath] on an entry in a consistent state.  A withdrawal removes the path of
    the peer and path id if there is one, an announcement stores the new path, with the
    path id it was advertised under before; no other path changes.  The result tells
    whether anything changed, in which case path selection is requested.  The entry
    stays consistent: its path count is right, no peer is left without paths, and the
    path ids in use stay distinct and outside the free interval. *)
Theorem update_path_correct fn w e peer attrs installToFib rid nh :
  unlinks fn -> entry_ok w e ->
  match attrs with Some a => path_localPref a.2 <> None | None => True end ->
  let k := (peer_addr peer, peer_routerId peer) in
  let old := getRouteInfo k rid e in
  exists changed w' e',
    updatePath fn peer attrs installToFib rid nh w e = Some (changed, w', e') /\
    entry_ok w' e' /\
    (path_ids_ok w e -> path_ids_ok w' e') /\
    (if changed : bool then re_needPathSelection e' = true else w' = w /\ e' = e) /\
    (forall k' i', (k', i') <> (k, rid) -> getRouteInfo k' i' e' = getRouteInfo k' i' e) /\
    match attrs with
    | None => getRouteInfo k rid e' = None /\ changed = bool_decide (old <> None)
    | Some a => exists p, getRouteInfo k rid e' = Some p /\
        if changed then announced w' p peer a installToFib rid nh (hp_routes w <$> old)
        else old = Some p /\ fst (ri_attrs (hp_routes w p)) = fst a /\ peer_eqb (ri_peer (hp_routes w p)) peer = true
    end.
Proof.
  intros Hfn Hok Hl k old. destruct attrs as [a|]; cbn [updatePath].
  - destruct (announce_put fn w e peer a installToFib rid nh old Hfn Hok Hl eq_refl)
      as (p & r & w1 & w2 & Er & Em & Ew & Ha & Hsame & Hok2). fold k in Ha, Hsame, Hok2.
    assert (Hids : forall c, path_ids_ok w e -> path_ids_ok w2 (set_paths
        (<[k := <[rid := p]> (default ∅ (re_routeInfos e !! k))]> (re_routeInfos e)) c e)).
    { intros c Hi. apply (put_ids_ok w); [done| |done]. destruct Ha as (_ & _ & _ & _ & _ & ->).
      fold old. by destruct old. }
    rewrite (count_put w e k rid Hok) in Hok2. fold old in Hok2.
    assert (Hrest : forall c k' i', getRouteInfo k' i' (set_paths
        (<[k := <[rid := p]> (default ∅ (re_routeInfos e !! k))]> (re_routeInfos e)) c e) =
        if bool_decide ((k', i') = (k, rid)) then Some p else getRouteInfo k' i' e).
    { intros c k' i'. apply lookup_put. }
    unfold announcePath. fold k. change (re_routeInfos e !! k ≫= _) with old.
    destruct old as [o|] eqn:Eold; cbn [mbind option_bind] in Er.
    + destruct (bool_decide (fst (ri_attrs (hp_routes w o)) = fst a) &&
                peer_eqb (ri_peer (hp_routes w o)) peer) eqn:Esame.
      * apply andb_true_iff in Esame as [E1%bool_decide_eq_true_1 E2].
        exists false, w, e. repeat (split; [done|]). by exists o.
      * rewrite Er. cbn [mbind option_bind]. rewrite Em. eexists true, _, _. split; [done|].
        rewrite <- Ew. split; [done|]. split; [by apply Hids|]. split; [done|]. split.
        -- intros k' i' Hne. rewrite Hrest. by rewrite bool_decide_eq_false_2.
        -- exists p. rewrite Hrest, bool_decide_eq_true_2 by done. done.
    + rewrite Er. cbn [mbind option_bind]. rewrite Em. eexists true, _, _. split; [done|].
      rewrite <- Ew. split; [done|]. split; [by apply Hids|]. split; [done|]. split.
      * intros k' i' Hne. rewrite Hrest. by rewrite bool_decide_eq_false_2.
      * exists p. rewrite Hrest, bool_decide_eq_true_2 by done. done.
  - clear Hl. unfold withdrawPath. fold k. unfold old, getRouteInfo.
    destruct (re_routeInfos e !! k) as [x|] eqn:Ex; cbn [mbind option_bind].
    + destruct (x !! rid) as [p|] eqn:Ep.
      * destruct (Hfn p w) as (G1 & _ & G3). eexists true, _, _. split; [done|].
        split; [by eapply drop_ok|]. split; [intros; by eapply drop_ids_ok|]. split; [done|]. cbn [re_routeInfos set_paths]. split.
        -- intros k' i' Hne. rewrite lookup_drop by done. by rewrite bool_decide_eq_false_2.
        -- rewrite lookup_drop, bool_decide_eq_true_2 by done. by rewrite bool_decide_eq_true_2.
      * exists false, w, e. repeat (split; [done|]). rewrite Ex. simpl. by rewrite Ep.
    + exists false, w, e. repeat (split; [done|]). by rewrite Ex.
Qed.


Definition sample_store : Heap := mkHeap sample_heap 4%positive (fun _ => []).

Lemma update_path_correct_witness :
  exists changed w' e',
    updatePath None (sample_peer 7 7) (Some (9%positive, sample_path 100 0 [65001])) true 1 (Some 5%positive)
      sample_store (newRibEntry (IPV4 [10; 1; 0; 0], 16)) = Some (changed, w', e') /\
    entry_ok w' e'.
Proof.
  destruct (update_path_correct None sample_store (newRibEntry (IPV4 [10; 1; 0; 0], 16))
              (sample_peer 7 7) (Some (9%positive, sample_path 100 0 [65001])) true 1 (Some 5%positive)
              unlinks_default (newRibEntry_ok _ _)) as (c & w' & e' & H1 & H2 & _); [done|].
  by exists c, w', e'.
Defined.

(** ** The widest gap *)

(** [a] and [b] are consecutive in the list *)
Fixpoint gap_at (l : list Z) (a b : Z) : Prop :=
  match l with
  | x :: ((y :: _) as rest) => (a = x /\ b = y) \/ gap_at rest a b
  | _ => False
  end.

Lemma widestGap_spec l : forall a x y g,
  let R := widestGap (a :: l) (x, y, g) in
  (R = (x, y) /\ forall c d, gap_at (a :: l) c d -> d - c - 1 <= g) \/
  exists c d, gap_at (a :: l) c d /\ R = (uint 32 (c + 1), uint 32 (d - 1)) /\ g < d - c - 1 /\
    forall c' d', gap_at (a :: l) c' d' -> d' - c' - 1 <= d - c - 1.
Proof.
  induction l as [|b l IH]; intros a x y g; [by left|].
  cbn [widestGap gap_at]. destruct (g <? b - a - 1) eqn:E.
  - apply Z.ltb_lt in E. right.
    destruct (IH b (uint 32 (a + 1)) (uint 32 (b - 1)) (b - a - 1))
      as [[HR Hmax]|(c & d & Hg & HR & Hlt & Hmax)].
    + exists a, b. split; [by left|]. split; [exact HR|]. split; [lia|].
      intros c' d' [[-> ->]|H]; [lia|]. by apply Hmax.
    + exists c, d. split; [by right|]. split; [exact HR|]. split; [lia|].
      intros c' d' [[-> ->]|H]; [lia|]. by apply Hmax.
  - apply Z.ltb_ge in E. destruct (IH b x y g) as [[HR Hmax]|(c & d & Hg & HR & Hlt & Hmax)].
    + left. split; [exact HR|]. intros c d [[-> ->]|H]; [lia|]. by apply Hmax.
    + right. exists c, d. split; [by right|]. split; [exact HR|]. split; [lia|].
      intros c' d' [[-> ->]|H]; [lia|]. by apply Hmax.
Qed.

Lemma gap_sorted l c d :
  StronglySorted Z.le l -> gap_at l c d -> c ∈ l /\ d ∈ l /\ forall i, c < i < d -> i ∉ l.
Proof.
  induction 1 as [|a l Hs IH Ha]; [done|]. destruct l as [|b l]; [done|].
  cbn [gap_at]. intros [[-> ->]|Hg].
  - split; [by left|]. split; [by right; left|]. intros i Hi Hin.
    apply elem_of_cons in Hin as [->|Hin]; [lia|].
    apply StronglySorted_inv in Hs as [_ Hb]. rewrite Forall_forall in Hb.
    apply elem_of_cons in Hin as [->|Hin%Hb]; lia.
  - destruct (IH Hg) as (Hc & Hd & Hi). split; [by right|]. split; [by right|].
    intros i Hii Hin. apply elem_of_cons in Hin as [->|Hin]; [|by eapply Hi].
    rewrite Forall_forall in Ha. apply Ha in Hc. lia.
Qed.

(** A run of free ids lies between two consecutive used ones. *)
Lemma gap_around l : forall a lo hi z,
  a < lo -> lo <= hi -> z ∈ l -> hi < z -> (forall i, lo <= i <= hi -> i ∉ l) ->
  exists c d, gap_at (a :: l) c d /\ c < lo /\ hi < d.
Proof.
  induction l as [|b l IH]; intros a lo hi z Ha Hlh Hz Hhz Hfree; [by apply elem_of_nil in Hz|].
  destruct (Z_lt_ge_dec b lo) as [Hb|Hb].
  - destruct (IH b lo hi z) as (c & d & H1 & H2 & H3); try done.
    + apply elem_of_cons in Hz as [->|?]; [lia|done].
    + intros i Hi Hin. apply (Hfree i Hi). by right.
    + exists c, d. split; [by right|]. done.
  - exists a, b. split; [by left|]. split; [done|].
    destruct (Z_le_gt_dec b hi); [|lia]. exfalso. apply (Hfree b); [lia|]. by left.
Qed.

(** The ids of the list in a range, the range delimited by guard posts. *)
Lemma widestGap_guarded lo hi used :
  0 <= lo < hi -> hi < 2 ^ 32 -> (forall i, i ∈ used -> lo <= i <= hi) ->
  (exists i, lo <= i <= hi /\ i ∉ used) ->
  let '(l, r) := widestGap (merge_sort Z.le ([lo - 1; hi + 1] ++ used)) (lo, hi, -1) in
  lo <= l <= r /\ r <= hi /\ (forall i, l <= i <= r -> i ∉ used) /\
  forall l' r', lo <= l' <= r' -> r' <= hi -> (forall i, l' <= i <= r' -> i ∉ used) -> r' - l' <= r - l.
Proof.
  intros Hlo Hhi Hused (f & Hf & Hfree). set (posts := [lo - 1; hi + 1] ++ used).
  pose proof (merge_sort_Permutation Z.le posts) as Hp.
  pose proof (StronglySorted_merge_sort Z.le posts) as Hs.
  assert (Hin : forall i, i ∈ merge_sort Z.le posts <-> i = lo - 1 \/ i = hi + 1 \/ i ∈ used).
  { intros i. rewrite Hp. unfold posts. cbn [app]. rewrite !elem_of_cons. tauto. }
  destruct (merge_sort Z.le posts) as [|a s]; [by specialize (Hin (lo - 1)) as [_ ?%elem_of_nil]; auto|].
  assert (Ea : a = lo - 1).
  { pose proof (proj1 (Hin a) ltac:(by left)) as Ha. apply StronglySorted_inv in Hs as [_ Hs].
    rewrite Forall_forall in Hs. specialize (Hin (lo - 1)) as [_ Hin].
    specialize (Hin (or_introl eq_refl)). apply elem_of_cons in Hin as [->|Hin%Hs]; [done|].
    destruct Ha as [?|[?|?%Hused]]; lia. }
  assert (Hz : hi + 1 ∈ s).
  { pose proof (proj2 (Hin (hi + 1)) ltac:(auto)) as H. apply elem_of_cons in H as [?|?]; [lia|done]. }
  assert (Haround : forall l' r', lo <= l' <= r' -> r' <= hi -> (forall i, l' <= i <= r' -> i ∉ used) ->
            exists c d, gap_at (a :: s) c d /\ c < l' /\ r' < d).
  { intros l' r' H1 H2 H3. apply (gap_around s a l' r' (hi + 1)); try (done || lia).
    intros i Hi His. pose proof (proj1 (Hin i) ltac:(by right)) as [?|[?|?]]; [lia|lia|by eapply H3]. }
  destruct (Haround f f) as (c0 & d0 & Hg0 & Hc0 & Hd0); [lia|lia|intros i Hi; by replace i with f by lia|].
  pose proof (widestGap_spec s a lo hi (-1)) as [[_ Hmax]|(c & d & Hg & HR & Hlt & Hmax)];
    [specialize (Hmax _ _ Hg0); lia|].
  destruct (gap_sorted _ _ _ Hs Hg) as (Hc & Hd & Hgap).
  assert (Hcd : 1 <= d - c - 1) by (specialize (Hmax _ _ Hg0); lia).
  assert (lo - 1 <= c) by (apply Hin in Hc as [?|[?|?%Hused]]; lia).
  assert (d <= hi + 1) by (apply Hin in Hd as [?|[?|?%Hused]]; lia).
  rewrite HR. unfold uint. rewrite !Z.mod_small by lia.
  split; [lia|]. split; [lia|]. split.
  - intros i Hi Hu. apply (Hgap i); [lia|]. apply Hin. auto.
  - intros l' r' H1 H2 H3. destruct (Haround l' r' H1 H2 H3) as (c' & d' & Hg' & ? & ?).
    specialize (Hmax _ _ Hg'). lia.
Qed.

Lemma usedIdsOf_ids lo hi w e i :
  i ∈ usedIdsOf lo hi w e <-> lo <= i <= hi /\ i ∈ ids_of w (getAllPaths e).
Proof.
  unfold usedIdsOf, ids_of. rewrite !list_elem_of_omap. split.
  - intros (p & Hp & E). destruct (ri_pathIdToSend (hp_routes w p)) as [j|] eqn:Ej; [|done].
    destruct ((lo <=? j) && (j <=? hi)) eqn:Eb; [|done]. injection E as ->.
    apply andb_true_iff in Eb as [?%Z.leb_le ?%Z.leb_le]. split; [done|]. by exists p.
  - intros [Hi (p & Hp & E)]. exists p. split; [done|]. rewrite E.
    rewrite (proj2 (Z.leb_le _ _)), (proj2 (Z.leb_le _ _)) by lia. done.
Qed.

Lemma findLargest_spec lo hi w e :
  0 <= lo < hi -> hi < 2 ^ 32 ->
  (exists i, lo <= i <= hi /\ i ∉ ids_of w (getAllPaths e)) ->
  exists l r, findLargestFreePathIdInterval lo hi w e = Some (l, r) /\
    lo <= l <= r /\ r <= hi /\
    (forall i, l <= i <= r -> i ∉ ids_of w (getAllPaths e)) /\
    forall l' r', lo <= l' <= r' -> r' <= hi ->
      (forall i, l' <= i <= r' -> i ∉ ids_of w (getAllPaths e)) -> r' - l' <= r - l.
Proof.
  intros Hlo Hhi (f & Hf & Hfree). unfold findLargestFreePathIdInterval.
  rewrite (proj2 (Z.ltb_lt lo hi)) by lia. cbn [negb].
  pose proof (widestGap_guarded lo hi (usedIdsOf lo hi w e) Hlo Hhi) as H.
  destruct (widestGap _ _) as [l r]. destruct H as (H1 & H2 & H3 & H4).
  { intros i Hi%usedIdsOf_ids. tauto. }
  { exists f. split; [done|]. rewrite usedIdsOf_ids. tauto. }
  exists l, r. split; [done|]. split; [done|]. split; [done|]. split.
  - intros i Hi Hin. apply (H3 i Hi). rewrite usedIdsOf_ids. split; [lia|done].
  - intros l' r' G1 G2 G3. apply H4; try done. intros i Hi. rewrite usedIdsOf_ids.
    intros [_ Hin]. by eapply G3.
Qed.

(** [findLargestFreePathIdInterval] returns a run of ids of the range that no path of
    the entry is advertised with, and no run of free ids of the range is longer, as long
    as some id of the range is free. *)
Theorem largest_free_interval_is_widest lo hi w e :
  0 <= lo < hi -> hi < 2 ^ 32 ->
  (exists i, lo <= i <= hi /\ i ∉ ids_of w (getAllPaths e)) ->
  exists l r, findLargestFreePathIdInterval lo hi w e = Some (l, r) /\
    lo <= l <= r /\ r <= hi /\
    (forall i, l <= i <= r -> i ∉ ids_of w (getAllPaths e)) /\
    forall l' r', lo <= l' <= r' -> r' <= hi ->
      (forall i, l' <= i <= r' -> i ∉ ids_of w (getAllPaths e)) -> r' - l' <= r - l.
Proof. apply findLargest_spec. Qed.

Lemma largest_free_interval_is_widest_witness :
  exists l r, findLargestFreePathIdInterval 0 10 sample_store (newRibEntry (IPV4 [10; 1; 0; 0], 16)) = Some (l, r) /\
    0 <= l <= r /\ r <= 10.
Proof.
  destruct (largest_free_interval_is_widest 0 10 sample_store (newRibEntry (IPV4 [10; 1; 0; 0], 16)))
    as (l & r & H1 & H2 & H3 & _); [lia|lia| |by exists l, r].
  exists 0. split; [lia|]. apply not_elem_of_nil.
Defined.

(** Fewer ids than the range has leave one free. *)
Lemma free_id_exists (ids : list Z) n :
  0 < n -> Z.of_nat (length ids) < n -> exists i, 0 <= i < n /\ i ∉ ids.
Proof.
  intros Hn Hlen.
  destruct (Forall_Exists_dec (fun i => i ∈ ids) (fun i => i ∉ ids)
              (fun i => decide (i ∈ ids)) (seqZ 0 n)) as [H|H].
  - rewrite Forall_forall in H. pose proof (NoDup_submseteq _ ids (NoDup_seqZ 0 n) H) as Hsub.
    apply submseteq_length in Hsub. rewrite length_seqZ in Hsub. lia.
  - apply Exists_exists in H as (i & Hi & Hni). apply elem_of_seqZ in Hi. exists i. split; [lia|done].
Qed.

(** The interval [getPathIdToSend] takes the id from *)
Lemma getPathIdToSend_spec w e :
  path_ids_ok w e -> Z.of_nat (length (ids_of w (getAllPaths e))) < 2 ^ 32 ->
  exists l r, getPathIdToSend w e = Some (l, set_freePathIdInterval (uint 32 (l + 1), r) e) /\
    0 <= l <= r /\ r < 2 ^ 32 /\ forall i, l <= i <= r -> i ∉ ids_of w (getAllPaths e).
Proof.
  intros [_ _ Hl Hr Hfree] Hlen. unfold getPathIdToSend.
  destruct (re_freePathIdInterval e) as [l r]; cbn [fst snd] in *. destruct (r <? l) eqn:E.
  - destruct (free_id_exists (ids_of w (getAllPaths e)) (2 ^ 32)) as (i & Hi & Hni); [lia|done|].
    destruct (findLargest_spec kMinPathIDToSend kMaxPathIDToSend w e) as (l' & r' & -> & H1 & H2 & H3 & _);
      unfold kMinPathIDToSend, kMaxPathIDToSend in *; [lia|lia|exists i; split; [lia|done]|].
    exists l', r'. split; [done|]. split; [lia|]. split; [lia|]. done.
  - apply Z.ltb_ge in E. exists l, r. split; [done|]. split; [lia|]. split; [lia|]. done.
Qed.

Lemma ids_of_assign w (l : list ptr) p i r :
  NoDup l -> p ∈ l -> ri_pathIdToSend (hp_routes w p) = None -> ri_pathIdToSend r = Some i ->
  ids_of (set_route p r w) l ≡ₚ i :: ids_of w l.
Proof.
  intros Hd Hp Hnone Hr. apply elem_of_Permutation in Hp as [l' Hl'].
  rewrite Hl' in Hd. apply NoDup_cons in Hd as [Hnot _].
  rewrite (ids_of_perm _ _ _ Hl'), (ids_of_perm w _ _ Hl'). unfold ids_of. simpl.
  rewrite upd_eq, Hr, Hnone. apply Permutation_skip. change (ids_of (set_route p r w) l' ≡ₚ ids_of w l').
  rewrite (ids_of_same w); [done|]. intros q Hq. simpl. rewrite upd_ne; [done|]. by intros ->.
Qed.

(** Taking the first id [l] of a free run up to [r] for a path without an id *)
Lemma assign_ids_ok p l r w e :
  entry_ok w e -> path_ids_ok w e -> p ∈ getAllPaths e -> ri_pathIdToSend (hp_routes w p) = None ->
  0 <= l <= r -> r < 2 ^ 32 -> (forall i, l <= i <= r -> i ∉ ids_of w (getAllPaths e)) ->
  let w' := set_route p (ri_set_pathIdToSend (Some l) (hp_routes w p)) w in
  NoDup (ids_of w' (getAllPaths e)) /\
  (l <> kMaxPathIDToSend -> path_ids_ok w' (set_freePathIdInterval (uint 32 (l + 1), r) e)).
Proof.
  intros Hok Hids Hp Ej Hl Hr Hfree w'.
  pose proof (ids_of_assign w (getAllPaths e) p l
                (ri_set_pathIdToSend (Some l) (hp_routes w p)) (eo_nodup _ _ Hok) Hp Ej eq_refl) as Hperm.
  fold w' in Hperm. assert (Hnew : l ∉ ids_of w (getAllPaths e)) by (apply Hfree; lia).
  assert (Hnd : NoDup (ids_of w' (getAllPaths e))).
  { rewrite Hperm. constructor; [done|apply (pi_nodup _ _ Hids)]. }
  split; [exact Hnd|]. unfold kMaxPathIDToSend. intros Hmax.
  split; change (getAllPaths (set_freePathIdInterval _ e)) with (getAllPaths e);
    cbn [re_freePathIdInterval set_freePathIdInterval fst snd]; try done; try lia.
  - intros i. rewrite Hperm, elem_of_cons. intros [->|Hi]; [lia|by apply (pi_range _ _ Hids)].
  - unfold uint. rewrite Z.mod_small; lia.
  - unfold uint. rewrite Z.mod_small by lia. intros i Hi. rewrite Hperm, elem_of_cons.
    intros [->|Hin]; [lia|]. apply (Hfree i); [lia|done].
Qed.

(** [getOrAssignSendPathId] on a path of a consistent entry with fewer than 2^32 ids in
    use: a path that has an id keeps it; a path without one gets an id that no other path
    of the entry is advertised with.  No other path changes, and unless the id is the last
    one of the range the ids in use stay distinct and outside the free interval. *)
Theorem send_path_id_fresh p w e :
  entry_ok w e -> path_ids_ok w e -> p ∈ getAllPaths e ->
  Z.of_nat (length (ids_of w (getAllPaths e))) < 2 ^ 32 ->
  exists i w' e', getOrAssignSendPathId p w e = Some (i, w', e') /\
    0 <= i < 2 ^ 32 /\
    ri_pathIdToSend (hp_routes w' p) = Some i /\
    (forall q, q <> p -> hp_routes w' q = hp_routes w q) /\
    re_routeInfos e' = re_routeInfos e /\
    NoDup (ids_of w' (getAllPaths e')) /\
    match ri_pathIdToSend (hp_routes w p) with
    | Some j => i = j /\ w' = w /\ e' = e
    | None => (i ∉ ids_of w (getAllPaths e)) /\ (i <> kMaxPathIDToSend -> path_ids_ok w' e')
    end.
Proof.
  intros Hok Hids Hp Hlen. unfold getOrAssignSendPathId.
  destruct (ri_pathIdToSend (hp_routes w p)) as [j|] eqn:Ej.
  - exists j, w, e. split; [done|]. split; [apply (pi_range _ _ Hids)|].
    { unfold ids_of. apply list_elem_of_omap. by exists p. }
    repeat (split; [done|]). split; [apply (pi_nodup _ _ Hids)|done].
  - destruct (getPathIdToSend_spec w e Hids Hlen) as (l & r & E & Hl & Hr & Hfree).
    rewrite E. cbn [mbind option_bind].
    eexists l, _, _. split; [done|]. split; [lia|]. cbn [hp_routes set_route]. rewrite upd_eq.
    split; [done|]. split; [intros q Hq; by rewrite upd_ne|]. split; [done|].
    destruct (assign_ids_ok p l r w e Hok Hids Hp Ej Hl Hr Hfree) as [Hnd Hnext].
    split; [exact Hnd|]. split; [apply Hfree; lia|exact Hnext].
Qed.

(** What the invariant reads of the store *)
Lemma entry_ok_same w w' e e' :
  entry_ok w e -> re_routeInfos e' = re_routeInfos e -> re_allPathsCount e' = re_allPathsCount e ->
  re_prefix e' = re_prefix e -> hp_next w' = hp_next w ->
  (forall p, ri_peer (hp_routes w' p) = ri_peer (hp_routes w p) /\
     ri_receivedPathId (hp_routes w' p) = ri_receivedPathId (hp_routes w p) /\
     ri_prefix (hp_routes w' p) = ri_prefix (hp_routes w p)) ->
  entry_ok w' e'.
Proof.
  intros [H1 H2 H3 H4 H5] Em Ec Ep En Hr.
  split; rewrite ?getAllPaths_paths, ?Em, ?Ec, ?Ep, ?En; try done.
  intros k i p Hg. destruct (Hr p) as (-> & -> & ->). apply H5. unfold getRouteInfo in *. by rewrite <- Em.
Qed.

(** An entry with one path, advertised with no id yet *)
Definition sample_key : BgpPeerId := (IPV4 [192; 0; 2; 1], 1).
Definition sample_entry : RibEntry :=
  set_paths {[ sample_key := {[ 0 := 1%positive ]} ]} 1 (newRibEntry (IPV4 [10; 1; 0; 0], 16)).
Definition sample_store1 : Heap := mkHeap sample_heap 2%positive (fun _ => []).

Lemma sample_entry_ok : entry_ok sample_store1 sample_entry.
Proof.
  pose proof (put_ok (mkHeap sample_heap 1%positive (fun _ => [])) sample_store1
                (newRibEntry (IPV4 [10; 1; 0; 0], 16)) sample_key 0 1%positive (newRibEntry_ok _ _)) as H.
  apply H; try done.
Qed.

Lemma sample_entry_ids_ok : path_ids_ok sample_store1 sample_entry.
Proof.
  apply (path_ids_ok_sub sample_store1 (newRibEntry (IPV4 [10; 1; 0; 0], 16)));
    [apply newRibEntry_ids_ok|done|]. done.
Qed.

Lemma send_path_id_fresh_witness :
  exists i w' e', getOrAssignSendPathId 1%positive sample_store1 sample_entry = Some (i, w', e') /\
    0 <= i < 2 ^ 32 /\ ri_pathIdToSend (hp_routes w' 1%positive) = Some i.
Proof.
  destruct (send_path_id_fresh 1%positive sample_store1 sample_entry)
    as (i & w' & e' & H1 & H2 & H3 & _); [apply sample_entry_ok|apply sample_entry_ids_ok| |done|].
  - vm_compute. by left.
  - by exists i, w', e'.
Defined.

(** At the end of the range [getPathIdToSend] wraps: when the free interval holds the last
    id only, taking it leaves the whole range as free interval, and the next path gets
    id 0 even while another path is advertised with it. *)
Theorem path_id_wraps o p q w e :
  re_freePathIdInterval e = (kMaxPathIDToSend, kMaxPathIDToSend) ->
  p <> q -> o <> q -> ri_pathIdToSend (hp_routes w o) = Some 0 ->
  ri_pathIdToSend (hp_routes w p) = None -> ri_pathIdToSend (hp_routes w q) = None ->
  exists w1 e1 w2 e2,
    getOrAssignSendPathId p w e = Some (kMaxPathIDToSend, w1, e1) /\
    re_freePathIdInterval e1 = (kMinPathIDToSend, kMaxPathIDToSend) /\
    getOrAssignSendPathId q w1 e1 = Some (0, w2, e2) /\
    ri_pathIdToSend (hp_routes w2 o) = Some 0 /\ ri_pathIdToSend (hp_routes w2 q) = Some 0.
Proof.
  intros Ei Hpq Hoq Ho Hp Hq. unfold getOrAssignSendPathId, getPathIdToSend.
  rewrite Hp, Ei. cbn [fst snd]. rewrite Z.ltb_irrefl. cbn [mbind option_bind fst snd].
  do 4 eexists. split; [done|]. split; [done|]. cbn [hp_routes set_route].
  rewrite upd_ne, Hq by done. cbn -[upd].
  assert (Hop : o <> p) by (intros ->; congruence).
  split; [done|]. cbn [hp_routes set_route]. by rewrite upd_eq, !upd_ne.
Qed.

Lemma path_id_wraps_witness :
  let w := set_route 1%positive (ri_set_pathIdToSend (Some 0) (sample_heap 1%positive)) sample_store in
  let e := set_freePathIdInterval (kMaxPathIDToSend, kMaxPathIDToSend) sample_entry in
  exists w1 e1 w2 e2,
    getOrAssignSendPathId 2%positive w e = Some (kMaxPathIDToSend, w1, e1) /\
    getOrAssignSendPathId 3%positive w1 e1 = Some (0, w2, e2).
Proof.
  intros w e.
  destruct (path_id_wraps 1%positive 2%positive 3%positive w e)
    as (w1 & e1 & w2 & e2 & H1 & _ & H2 & _); [done..|]. by exists w1, e1, w2, e2.
Defined.
