(* ===== verification/Ucmp.v ===== *)
(** * Floating-point weights and their quantizer

    What the RIB uses of C++ [float] and [double], and [BgpUcmpQuantizer] of
    config/ConfigStructs.h and ConfigStructs.cpp, which rounds an aggregate bandwidth
    to one of a set of configured values. *)

From stdpp Require Import gmap sorting.
From Stdlib Require Import SpecFloat.
From S2P Require Import Prelude.

(** ** float and double *)

Definition f32_of_Z (n : Z) : spec_float := binary_normalize 24 128 n 0 false.
Definition f64_of_Z (n : Z) : spec_float := binary_normalize 53 1024 n 0 false.
Definition f32_add : spec_float -> spec_float -> spec_float := SFadd 24 128.
Definition f32_mul : spec_float -> spec_float -> spec_float := SFmul 24 128.
Definition f32_div : spec_float -> spec_float -> spec_float := SFdiv 24 128.
Definition f64_sub : spec_float -> spec_float -> spec_float := SFsub 53 1024.
Definition f64_mul : spec_float -> spec_float -> spec_float := SFmul 53 1024.
Definition f64_div : spec_float -> spec_float -> spec_float := SFdiv 53 1024.

(** The value towards zero *)
Definition sf_trunc (x : spec_float) : option Z :=
  match x with
  | S754_zero _ => Some 0
  | S754_finite s m e =>
      let v := if 0 <=? e then Z.pos m * 2 ^ e else Z.pos m / 2 ^ (- e) in
      Some (if s then - v else v)
  | _ => None
  end.

(** [std::round]: to the nearest integer, halves away from zero *)
Definition sf_round (x : spec_float) : option Z :=
  match x with
  | S754_zero _ => Some 0
  | S754_finite s m e =>
      let v := if 0 <=? e then Z.pos m * 2 ^ e
               else (2 * Z.pos m + 2 ^ (- e)) / 2 ^ (1 - e) in
      Some (if s then - v else v)
  | _ => None
  end.

(** Conversion to an unsigned integer; undefined when the value does not fit. *)
Definition to_unsigned (width : Z) (v : option Z) : option Z :=
  n ← v;
  if (0 <=? n) && (n <? 2 ^ width) then Some n else None.

(** [std::min] *)
Definition sf_min (a b : spec_float) : spec_float := if SFltb b a then b else a.

(** ** BgpUcmpQuantizer *)

(** [quantizedBpsMap] in the order of its keys *)
Record BgpUcmpQuantizer := mkQuantizer {
  minStepBps : Z;
  errorPctThreshold : spec_float;
  fixedQuantizedBpsList : list Z;
  quantizedBpsMap : list (Z * Z)
}.

(** [static_cast<double>(output_bps) / input_bps - 1 >= errorPctThreshold] *)
Definition exceeds (threshold : spec_float) (output_bps input_bps : Z) : bool :=
  SFleb threshold (f64_sub (f64_div (f64_of_Z output_bps) (f64_of_Z input_bps)) (f64_of_Z 1)).

(** The loop of the constructor, one round per unit of fuel. *)
Fixpoint quantizeDown (fuel : nat) (minStep : Z) (threshold : spec_float) (fixed : list Z)
    (input_bps output_bps : Z) (m : list (Z * Z)) : option (list (Z * Z)) :=
  match fuel with
  | O => None
  | S fuel =>
      if negb (0 <? input_bps) then Some m
      else
      let output_bps :=
        if bool_decide (input_bps ∈ fixed) || exceeds threshold output_bps input_bps
        then input_bps else output_bps in
      let m := (input_bps, output_bps) :: m in
      if input_bps <? minStep then Some m
      else quantizeDown fuel minStep threshold fixed (input_bps - minStep) output_bps m
  end.

(** The constructor; [CHECK]s that the list is not empty. *)
Definition newBgpUcmpQuantizer (minStep : Z) (threshold : spec_float) (fixed : list Z)
    : option BgpUcmpQuantizer :=
  match fixed with
  | [] => None
  | b :: rest =>
      let top := fold_left Z.max rest b in
      m ← quantizeDown (Z.to_nat (top / minStep) + 2) minStep threshold fixed top top [];
      Some (mkQuantizer minStep threshold fixed m)
  end.

(** The search of [quantize]: [pre] is the last entry before the rest of the map. *)
Fixpoint nearestEntry (inputBps : Z) (pre : option (Z * Z)) (m : list (Z * Z)) : option (Z * Z) :=
  match m with
  | [] => pre
  | lower :: m' =>
      if inputBps <=? lower.1 then
        match pre with
        | None => Some lower
        | Some p => if inputBps - p.1 <? lower.1 - inputBps then Some p else Some lower
        end
      else nearestEntry inputBps (Some lower) m'
  end.

(** [None]: the map is empty, or the bandwidth does not fit in 64 bits. *)
Definition quantize (q : BgpUcmpQuantizer) (inputBytesPerSec : spec_float) : option spec_float :=
  if bool_decide (quantizedBpsMap q = []) then None
  else
  n ← to_unsigned 64 (sf_trunc inputBytesPerSec);
  entry ← nearestEntry (uint 64 (n * 8)) None (quantizedBpsMap q);
  Some (f32_div (f32_of_Z entry.2) (f32_of_Z 8)).

(** ** The search *)

Definition ascending (m : list (Z * Z)) : Prop := StronglySorted (fun a b => a.1 < b.1) m.

Lemma nearestEntry_spec x pre m :
  ascending (option_list pre ++ m) -> (pre <> None \/ m <> []) ->
  (forall p, pre = Some p -> p.1 < x) ->
  exists e, nearestEntry x pre m = Some e /\ e ∈ option_list pre ++ m /\
    forall e', e' ∈ option_list pre ++ m -> Z.abs (x - e.1) <= Z.abs (x - e'.1).
Proof.
  revert pre. induction m as [|lower m IH]; intros pre Hs Hne Hpre.
  - destruct pre as [p|]; [|by destruct Hne]. exists p. split; [done|]. split; [by left|].
    intros e' ->%list_elem_of_singleton. lia.
  - cbn [nearestEntry]. destruct (Z.leb_spec x lower.1) as [Hle|Hgt].
    + assert (Hm : forall e', e' ∈ m -> lower.1 < e'.1).
      { destruct pre; simpl in Hs; [apply StronglySorted_inv in Hs as [Hs _]|];
          apply StronglySorted_inv in Hs as [_ Hf]; rewrite Forall_forall in Hf; auto. }
      destruct pre as [p|].
      * specialize (Hpre p eq_refl). simpl.
        destruct (Z.ltb_spec (x - p.1) (lower.1 - x));
          eexists; (split; [done|]); (split; [rewrite !elem_of_cons; tauto|]);
          intros e'; rewrite !elem_of_cons; intros [->|[->|?%Hm]]; lia.
      * exists lower. split; [done|]. split; [by left|].
        intros e'. simpl. rewrite elem_of_cons. intros [->|?%Hm]; lia.
    + destruct (IH (Some lower)) as (e & E & Hin & Hmin).
      * destruct pre; simpl in *; [by apply StronglySorted_inv in Hs as [? _]|done].
      * by left.
      * intros p [= <-]. lia.
      * exists e. split; [done|]. simpl in *. split.
        { apply elem_of_app. right. done. }
        intros e' [He'|He']%elem_of_app; [|by apply Hmin]. destruct pre as [p|]; [|by apply elem_of_nil in He'].
        apply list_elem_of_singleton in He' as ->. specialize (Hmin lower ltac:(left)).
        simpl in Hs. apply StronglySorted_inv in Hs as [_ Hf]. rewrite Forall_forall in Hf.
        specialize (Hf lower ltac:(left)). specialize (Hpre p eq_refl). lia.
Qed.

(** ** The map *)

(** The output is the input, or larger by less than the threshold. *)
Definition entry_sound (threshold : spec_float) (fixed : list Z) (e : Z * Z) : Prop :=
  0 < e.1 <= e.2 /\ (e.2 = e.1 \/ (exceeds threshold e.2 e.1 = false /\ e.1 ∉ fixed)).

Lemma quantizeDown_spec fuel step threshold fixed input output m :
  0 < step -> 0 < input <= output -> (Z.to_nat (input / step) < fuel)%nat ->
  ascending m -> Forall (fun e => input < e.1) m -> Forall (entry_sound threshold fixed) m ->
  exists m', quantizeDown fuel step threshold fixed input output m = Some m' /\
    ascending m' /\ Forall (entry_sound threshold fixed) m' /\
    (forall e, e ∈ m -> e ∈ m') /\
    (forall i, 0 <= i -> 0 < input - i * step -> exists o, (input - i * step, o) ∈ m').
Proof.
  intros Hstep. revert input output m. induction fuel as [|fuel IH]; intros input output m Hin Hfuel Hs Hgt Hok;
    [lia|].
  cbn [quantizeDown]. rewrite (proj2 (Z.ltb_lt 0 input)) by lia. cbn [negb].
  set (out := if bool_decide (input ∈ fixed) || exceeds threshold output input
              then input else output).
  assert (Hout : entry_sound threshold fixed (input, out) /\ input <= out).
  { unfold out, entry_sound. simpl. destruct (bool_decide _ || _) eqn:E; [lia|].
    apply orb_false_iff in E as [E1%bool_decide_eq_false_1 E2]. split; [|lia]. split; [lia|]. by right. }
  destruct Hout as [Hout Hle].
  assert (Hs' : ascending ((input, out) :: m)) by (constructor; [done|]; exact Hgt).
  assert (Hok' : Forall (entry_sound threshold fixed) ((input, out) :: m)) by (by constructor).
  destruct (Z.ltb_spec input step) as [Hlt|Hge].
  - eexists. split; [done|]. split; [done|]. split; [done|]. split; [by right|].
    intros i Hi Hpos. assert (i = 0) as -> by nia. exists out. rewrite Z.mul_0_l, Z.sub_0_r. left.
  - assert (Hdiv : (input - step) / step = input / step - 1).
    { replace (input - step) with (input + (-1) * step) by lia. rewrite Z.div_add by lia. lia. }
    assert (1 <= input / step) by (apply Z.div_le_lower_bound; lia).
    destruct (Z_lt_ge_dec 0 (input - step)) as [Hp|Hp].
    + destruct (IH (input - step) out ((input, out) :: m)) as (m' & -> & H1 & H2 & H3 & H4); try done.
      * lia.
      * rewrite Hdiv. lia.
      * constructor; [simpl; lia|]. eapply Forall_impl; [exact Hgt|]. simpl. lia.
      * exists m'. split; [done|]. split; [done|]. split; [done|]. split; [intros e He; apply H3; by right|].
        intros i Hi Hpos. destruct (decide (i = 0)) as [->|].
        { exists out. rewrite Z.mul_0_l, Z.sub_0_r. apply H3. left. }
        destruct (H4 (i - 1)) as [o Ho]; [lia|lia|]. exists o.
        by replace (input - i * step) with (input - step - (i - 1) * step) by lia.
    + destruct fuel as [|fuel]; [lia|]. cbn [quantizeDown]. rewrite (proj2 (Z.ltb_ge 0 _)) by lia. cbn [negb].
      eexists. split; [done|]. split; [done|]. split; [done|]. split; [by right|].
      intros i Hi Hpos. assert (i = 0) as -> by nia. exists out. rewrite Z.mul_0_l, Z.sub_0_r. left.
Qed.

Lemma fold_max_spec l b : (fold_left Z.max l b ∈ b :: l) /\ forall x, x ∈ b :: l -> x <= fold_left Z.max l b.
Proof.
  revert b. induction l as [|a l IH]; intros b; simpl.
  { split; [by left|]. intros x ->%list_elem_of_singleton. lia. }
  destruct (IH (Z.max b a)) as [H1 H2]. split.
  - apply elem_of_cons in H1 as [->|H1]; [|by right; right].
    destruct (Z.max_spec b a) as [[_ ->]|[_ ->]]; [right; left|left].
  - intros x. rewrite !elem_of_cons. pose proof (H2 (Z.max b a) ltac:(left)).
    intros [->|[->|Hx]]; [lia|lia|]. apply H2. by right.
Qed.

(** A quantizer built from a positive step and positive bandwidths rounds an aggregate
    bandwidth to the value of the closest step; that value is at least the step and exceeds
    it by less than the threshold, unless it is the step itself.  A configured bandwidth
    that lies on a step is rounded to itself. *)
Theorem quantizer_correct step threshold fixed x n :
  0 < step -> fixed <> [] -> Forall (fun b => 0 < b) fixed ->
  to_unsigned 64 (sf_trunc x) = Some n -> n * 8 < 2 ^ 64 ->
  exists q k o, newBgpUcmpQuantizer step threshold fixed = Some q /\
    quantize q x = Some (f32_div (f32_of_Z o) (f32_of_Z 8)) /\
    (k, o) ∈ quantizedBpsMap q /\ entry_sound threshold fixed (k, o) /\
    (forall e, e ∈ quantizedBpsMap q -> Z.abs (n * 8 - k) <= Z.abs (n * 8 - e.1)) /\
    (forall b, b ∈ fixed -> (exists b0 i, b0 ∈ fixed /\ Forall (fun b' => b' <= b0) fixed /\ b = b0 - i * step) ->
       (b, b) ∈ quantizedBpsMap q).
Proof.
  intros Hstep Hne Hpos Hn Hn8. destruct fixed as [|b0 rest]; [done|]. set (fixed := b0 :: rest) in *.
  destruct (fold_max_spec rest b0) as [Htop Hmax]. set (top := fold_left Z.max rest b0) in *.
  fold fixed in Htop, Hmax. rewrite Forall_forall in Hpos. pose proof (Hpos _ Htop) as Htop0.
  destruct (quantizeDown_spec (Z.to_nat (top / step) + 2) step threshold fixed top top [])
    as (m & E & Hs & Hok & _ & Hcov); [lia|lia|lia|constructor|constructor|constructor|].
  rewrite Forall_forall in Hok.
  destruct (Hcov 0) as [o0 Ho0]; [lia|lia|].
  assert (Hn0 : 0 <= n).
  { unfold to_unsigned in Hn. destruct (sf_trunc x); simpl in Hn; [|done].
    case_match eqn:E1; [|done]. injection Hn as ->. lia. }
  assert (Hm : m <> []) by (intros ->; by apply elem_of_nil in Ho0).
  destruct (nearestEntry_spec (n * 8) None m) as ([k o] & En & Hin & Hmin); [done|by right|done|].
  exists (mkQuantizer step threshold fixed m), k, o.
  split; [unfold newBgpUcmpQuantizer, fixed; fold top; fold fixed; by rewrite E|]. simpl in *.
  split.
  { unfold quantize. simpl. rewrite bool_decide_eq_false_2 by done. rewrite Hn. cbn [mbind option_bind].
    unfold uint. rewrite Z.mod_small by lia. by rewrite En. }
  split; [done|]. split; [by apply Hok|]. split; [done|].
  intros b Hb (b1 & i & Hb1 & Hall & ->).
  assert (b1 = top) as ->.
  { rewrite Forall_forall in Hall. specialize (Hall top Htop). specialize (Hmax b1 Hb1). lia. }
  pose proof (Hpos _ Hb) as Hb0. specialize (Hmax _ Hb).
  destruct (Hcov i) as [o' Ho']; [nia|done|].
  destruct (Hok _ Ho') as [_ [Heq|[_ Hnin]]]; simpl in *; [by rewrite Heq in Ho'|done].
Qed.

(** 100G and 40G in steps of 10G, 5% error, 50G of traffic *)
Lemma quantizer_correct_witness :
  exists q k o, newBgpUcmpQuantizer (10 ^ 10) (f64_div (f64_of_Z 5) (f64_of_Z 100)) [10 ^ 11; 4 * 10 ^ 10] = Some q /\
    quantize q (f32_of_Z 6250000000) = Some (f32_div (f32_of_Z o) (f32_of_Z 8)) /\
    (k, o) ∈ quantizedBpsMap q.
Proof.
  destruct (quantizer_correct (10 ^ 10) (f64_div (f64_of_Z 5) (f64_of_Z 100)) [10 ^ 11; 4 * 10 ^ 10]
              (f32_of_Z 6250000000) 6249999872) as (q & k & o & H1 & H2 & H3 & _).
  - lia.
  - done.
  - repeat constructor.
  - vm_compute. reflexivity.
  - lia.
  - exact (ex_intro _ q (ex_intro _ k (ex_intro _ o (conj H1 (conj H2 H3))))).
Defined.
