(* ===== verification/PathSelection.v ===== *)
(** * Path selection

    [RouteInfoFilter], [RouteInfoSelector] and rib/RouteFilterConfig.h, and the phases of
    [RibBase::selectBestPath] (rib/RibBase.cpp): which paths of a prefix are its
    multipaths, which one is its best path, and the weights of the next hops.  [None]
    stands for a failed [CHECK], an exception that leaves a [noexcept] function, or a
    conversion whose value does not fit. *)

From stdpp Require Import gmap sorting strings.
From Stdlib Require Import SpecFloat.
From S2P Require Import Prelude BgpException Folly BgpStructs RouteFilter RouteInfo RouteSelector RibEntry Ucmp.

(** ** The selectors of the RIB *)

Section Selectors.
Context `{RibContext}.

Definition infoFilterFromConfig (c : RouteFilterConfig) : option (RouteFilter RouteInfo) :=
  match c with
  | mkConfig metric opts =>
      if bool_decide (metric = LOCAL_ROUTE)
      then createRouteFilter c opts (rule_of_bool getIsRouteLocal)
      else fromRouteFilterConfig c
  end.

Definition newRouteInfoSelector (configs : list RouteFilterConfig)
    : option (list (RouteFilter RouteInfo)) :=
  mapM infoFilterFromConfig configs.

(** [RouteInfoSelector::selectRoutes] *)
Definition selectRouteInfos (filters : list (RouteFilter RouteInfo)) (routes : list ptr) (w : Heap)
    : option (list ptr * Heap) :=
  '(sel, h) ← selectRoutesAndSetRejectionFilter filters routes (hp_routes w);
  Some (sel, mkHeap h (hp_next w) (hp_assoc w)).

Definition getBaseRouteFilterConfigsMultiPath (countConfedsInAsPathLen : bool)
    : list RouteFilterConfig :=
  [getMembershipFilterConfig DELETED_ROUTE CHOOSE_MEMBER [0]] ++
  (if enableWeightComparison features
   then [getHighestLowestRouteFilterConfig BGP_WEIGHT_VALUE CHOOSE_HIGHEST] else []) ++
  [getHighestLowestRouteFilterConfig BGP_LOCAL_PREFERENCE CHOOSE_HIGHEST;
   getHighestLowestRouteFilterConfig LOCAL_ROUTE CHOOSE_HIGHEST] ++
  (if negb countConfedsInAsPathLen
   then [getHighestLowestRouteFilterConfig BGP_AS_PATH_LEN CHOOSE_LOWEST]
   else [getHighestLowestRouteFilterConfig BGP_AS_PATH_LEN_WITH_CONFED CHOOSE_LOWEST]) ++
  [getHighestLowestRouteFilterConfig BGP_ORIGIN_CODE CHOOSE_LOWEST] ++
  (if enableMedComparison features
   then [getHighestLowestRouteFilterConfig BGP_MED_VALUE CHOOSE_LOWEST] else []) ++
  (if negb (enableEiBgpMultipath features)
   then [getHighestLowestRouteFilterConfig EXTERNAL_ROUTE CHOOSE_HIGHEST] else []) ++
  (if enableNextHopTracking features
   then [getHighestLowestRouteFilterConfig IGP_COST CHOOSE_LOWEST] else []) ++
  [getHighestLowestRouteFilterConfig CONFED_EXTERNAL_ROUTE CHOOSE_HIGHEST].

Definition getRouteFilterConfigsBestPath (countConfedsInAsPathLen : bool) : list RouteFilterConfig :=
  (if negb countConfedsInAsPathLen
   then [getHighestLowestRouteFilterConfig BGP_AS_PATH_LEN CHOOSE_HIGHEST]
   else [getHighestLowestRouteFilterConfig BGP_AS_PATH_LEN_WITH_CONFED CHOOSE_HIGHEST]) ++
  [getHighestLowestRouteFilterConfig BGP_ROUTER_ID CHOOSE_LOWEST;
   getHighestLowestRouteFilterConfig BGP_CLUSTER_LIST_LEN CHOOSE_LOWEST;
   getHighestLowestRouteFilterConfig BGP_PEER_IP CHOOSE_LOWEST;
   getHighestLowestRouteFilterConfig BGP_PEER_NEXTHOP CHOOSE_LOWEST].

(** ** The phases *)

Record PathSelectionInput := mkInput {
  oldBestpath : option ptr;
  oldAggregateReceivedUcmpWeight : spec_float;
  oldAggregateLocalUcmpWeight : spec_float;
  oldMultipathWeightedNexthops : option (gmap IPAddress Z);
  oldNexthopAndTopoInfo : option (gmap IPAddress (gmap string Z))
}.

Definition set_aggregates (received local : spec_float)
    (topo : option (gmap IPAddress (gmap string Z))) (v : Weights) : Weights :=
  mkWeights received (advertisedAggregateReceivedUcmpWeight v) local
    (advertisedAggregateLocalUcmpWeight v) (ribPolicyUcmpWeight v)
    (advertisedRibPolicyUcmpWeight v) (isPartialDrain v) (advertisedIsPartialDrain v)
    (weightedNexthops v) topo (isUcmpActive v).

Definition set_weightedNexthops (m : option (gmap IPAddress Z)) (v : Weights) : Weights :=
  mkWeights (aggregateReceivedUcmpWeight v) (advertisedAggregateReceivedUcmpWeight v)
    (aggregateLocalUcmpWeight v) (advertisedAggregateLocalUcmpWeight v) (ribPolicyUcmpWeight v)
    (advertisedRibPolicyUcmpWeight v) (isPartialDrain v) (advertisedIsPartialDrain v)
    m (nexthopsAndTopoInfo v) (isUcmpActive v).

Definition set_isUcmpActive (b : bool) (v : Weights) : Weights :=
  mkWeights (aggregateReceivedUcmpWeight v) (advertisedAggregateReceivedUcmpWeight v)
    (aggregateLocalUcmpWeight v) (advertisedAggregateLocalUcmpWeight v) (ribPolicyUcmpWeight v)
    (advertisedRibPolicyUcmpWeight v) (isPartialDrain v) (advertisedIsPartialDrain v)
    (weightedNexthops v) (nexthopsAndTopoInfo v) b.

Definition snapshotAndResetForPathSelection (e : RibEntry) : PathSelectionInput * RibEntry :=
  let v := re_weights e in
  (mkInput (re_bestpath e) (aggregateReceivedUcmpWeight v) (aggregateLocalUcmpWeight v)
     (weightedNexthops v) (nexthopsAndTopoInfo v),
   set_weights (set_aggregates (S754_zero false) (S754_zero false) None v)
     (set_needPathSelection false e)).

(** A candidate: with next hop tracking, the next hop is resolved. *)
Definition is_candidate (r : RouteInfo) : bool :=
  negb (enableNextHopTracking features && negb (isResolvedForSelection r)).

(** [iteration]: the paths of the entry in the order the hash maps yield them *)
Definition prePathSelectionFiltering (iteration : list ptr) (w : Heap) (e : RibEntry)
    : list ptr * RibEntry :=
  (List.filter (fun p => is_candidate (hp_routes w p)) iteration,
   set_inactivePathCount
     (uint 32 (blen (List.filter (fun p => negb (is_candidate (hp_routes w p))) iteration))) e).

Fixpoint assignSendPathIds (paths : list ptr) (w : Heap) (e : RibEntry) : option (Heap * RibEntry) :=
  match paths with
  | [] => Some (w, e)
  | p :: paths' =>
      '(_, w, e) ← getOrAssignSendPathId p w e;
      assignSendPathIds paths' w e
  end.

(** [XCHECK]s that some path is selected. *)
Definition multiPathSelection (multipathSelector : list (RouteFilter RouteInfo)) (routes : list ptr)
    (w : Heap) (e : RibEntry) : option (list ptr * Heap * RibEntry) :=
  '(selectedPaths, w) ← selectRouteInfos multipathSelector routes w;
  match selectedPaths with
  | [] => None
  | _ =>
      '(w, e) ← assignSendPathIds selectedPaths w e;
      Some (selectedPaths, w, e)
  end.

(** [CHECK]s that some path is selected. *)
Definition bestPathSelection (bestpathSelector : list (RouteFilter RouteInfo))
    (selectedPaths : list ptr) (w : Heap) (e : RibEntry) : option (Heap * RibEntry) :=
  '(bestpath, w) ← selectRouteInfos bestpathSelector selectedPaths w;
  match bestpath with
  | [] => None
  | p :: _ => Some (w, set_bestpath (Some p) (ri_installToFib (hp_routes w p)) e)
  end.

Definition BpsPerKBps : spec_float := f32_of_Z 1000.
Definition BpsPerMBps : spec_float := f32_mul BpsPerKBps (f32_of_Z 1000).
Definition BpsPerGBps : spec_float := f32_mul BpsPerMBps (f32_of_Z 1000).

(** The loop of [accumulateAggregateWeightsAndTopoInfo] *)
Record Accumulated := mkAccumulated {
  acc_topo : gmap IPAddress (gmap string Z);
  missingReceivedUcmpWeight : bool;
  missingLocalUcmpWeight : bool;
  acc_received : spec_float;
  acc_local : spec_float;
  lbwMultiplier : spec_float
}.

(** [emplace] keeps the value of a key that is present. *)
Definition emplace {V} (k : IPAddress) (v : V) (m : gmap IPAddress V) : gmap IPAddress V :=
  match m !! k with Some _ => m | None => <[k := v]> m end.

Definition accumulatePath (a : Accumulated) (r : RouteInfo) : Accumulated :=
  let receivedUcmpWeight := getUcmpWeight r in
  let localUcmpWeight := peer_ucmpWeight (ri_peer r) in
  let receivedLbwBps := f32_mul receivedUcmpWeight (f32_of_Z 8) in
  mkAccumulated
    (match path_topologyInfo (ri_path r) with
     | Some topoInfo => emplace (path_nexthop (ri_path r)) topoInfo (acc_topo a)
     | None => acc_topo a
     end)
    (missingReceivedUcmpWeight a || SFeqb receivedUcmpWeight (S754_zero false))
    (missingLocalUcmpWeight a || match localUcmpWeight with Some _ => false | None => true end)
    (f32_add (acc_received a) receivedUcmpWeight)
    (f32_add (acc_local a) (default (S754_zero false) localUcmpWeight))
    (if SFltb BpsPerGBps receivedLbwBps then sf_min (lbwMultiplier a) BpsPerGBps
     else if SFltb BpsPerMBps receivedLbwBps then sf_min (lbwMultiplier a) BpsPerMBps
     else f32_of_Z 1).

(** The result: [lbwMultiplier] and [topoInfoChanged]. *)
Definition accumulateAggregateWeightsAndTopoInfo (selectedPaths : list ptr)
    (oldTopo : option (gmap IPAddress (gmap string Z))) (quantizer : option BgpUcmpQuantizer)
    (w : Heap) (e : RibEntry) : option (spec_float * bool * RibEntry) :=
  let v := re_weights e in
  let a := fold_left accumulatePath (map (hp_routes w) selectedPaths)
             (mkAccumulated ∅ false false (aggregateReceivedUcmpWeight v)
                (aggregateLocalUcmpWeight v) BpsPerGBps) in
  let complete := bool_decide (size (acc_topo a) = length selectedPaths) in
  let topo := if complete then Some (acc_topo a) else nexthopsAndTopoInfo v in
  let topoInfoChanged := complete && negb (bool_decide (oldTopo = Some (acc_topo a))) in
  let received := if missingReceivedUcmpWeight a then S754_zero false else acc_received a in
  local ←
    (if missingLocalUcmpWeight a then Some (S754_zero false)
     else match quantizer with
          | Some q => quantize q (acc_local a)
          | None => Some (acc_local a)
          end);
  Some (lbwMultiplier a, topoInfoChanged, set_weights (set_aggregates received local topo v) e).

(** [round(getUcmpWeight() * 8 / lbwMultiplier)] as [uint32_t] *)
Definition ucmpWeightOf (lbwMultiplier : spec_float) (r : RouteInfo) : option Z :=
  to_unsigned 32 (sf_round (f32_div (f32_mul (getUcmpWeight r) (f32_of_Z 8)) lbwMultiplier)).

(** The first loop of [buildAndNormalizeWeightedNexthops] *)
Record Built := mkBuilt {
  bl_multipaths : gmap Z ptr;
  bl_nhWt : gmap IPAddress Z;
  bl_total : Z;                        (** uint64_t *)
  bl_gcd : Z
}.

Fixpoint buildWeightedNexthops (setUcmpWeights : bool) (mult : spec_float) (selectedPaths : list ptr)
    (w : Heap) (b : Built) : option Built :=
  match selectedPaths with
  | [] => Some b
  | path :: rest =>
      pathId ← ri_pathIdToSend (hp_routes w path);
      let multipaths := match bl_multipaths b !! pathId with
                        | Some _ => bl_multipaths b
                        | None => <[pathId := path]> (bl_multipaths b)
                        end in
      let r := hp_routes w (default path (multipaths !! pathId)) in
      if setUcmpWeights then
        ucmpWeight ← ucmpWeightOf mult r;
        buildWeightedNexthops setUcmpWeights mult rest w
          (mkBuilt multipaths (emplace (path_nexthop (ri_path r)) ucmpWeight (bl_nhWt b))
             (uint 64 (bl_total b + ucmpWeight)) (Z.gcd (bl_gcd b) ucmpWeight))
      else
        buildWeightedNexthops setUcmpWeights mult rest w
          (mkBuilt multipaths (emplace (path_nexthop (ri_path r)) 0 (bl_nhWt b))
             (bl_total b) (bl_gcd b))
  end.

(** The second loop, on one weight *)
Definition normalizeWeight (ucmpWidth total weightMultiplier ucmpWeight : Z) : option Z :=
  let ucmpWeight := ucmpWeight / Z.max weightMultiplier 1 in
  if ucmpWidth <? total
  then to_unsigned 32
         (sf_round (f64_div (f64_mul (f64_of_Z (uint 32 (ucmpWeight * ucmpWidth))) (f64_of_Z 1))
                      (f64_of_Z total)))
  else Some ucmpWeight.

(** The second loop; a weight of zero erases the next hop. *)
Definition normalizeNexthops (ucmpWidth total weightMultiplier : Z) (m : gmap IPAddress Z)
    : option (gmap IPAddress Z) :=
  let normalize := normalizeWeight ucmpWidth total weightMultiplier in
  if bool_decide (map_Forall (fun _ v => is_Some (normalize v)) m)
  then Some (omap (fun v => match normalize v with
                            | Some x => if x =? 0 then None else Some x
                            | None => None
                            end) m)
  else None.

Definition buildAndNormalizeWeightedNexthops (selectedPaths : list ptr) (computeUcmp : bool)
    (ucmpWidth : Z) (mult : spec_float) (w : Heap) (e : RibEntry)
    : option (gmap IPAddress Z * RibEntry) :=
  let setUcmpWeights := computeUcmp && SFltb (S754_zero false) (aggregateReceivedUcmpWeight (re_weights e)) in
  b ← buildWeightedNexthops setUcmpWeights mult selectedPaths w (mkBuilt ∅ ∅ 0 0);
  let e := set_multipaths (bl_multipaths b) e in
  if setUcmpWeights then
    m ← normalizeNexthops ucmpWidth (bl_total b / Z.max (bl_gcd b) 1) (bl_gcd b) (bl_nhWt b);
    let unique : gset Z := list_to_set (map snd (map_to_list m)) in
    Some (m, set_weights (set_isUcmpActive (bool_decide (1 < size unique)%nat) (re_weights e)) e)
  else Some (bl_nhWt b, set_weights (set_isUcmpActive false (re_weights e)) e).

Definition computeChangePair (input : PathSelectionInput) (topoInfoChanged : bool)
    (newNhWtMap : gmap IPAddress Z) (e : RibEntry) : bool * bool * RibEntry :=
  let nhChanged := negb (bool_decide (oldMultipathWeightedNexthops input = Some newNhWtMap)) in
  let e := if nhChanged then set_weights (set_weightedNexthops (Some newNhWtMap) (re_weights e)) e
           else e in
  let multipathChanged := nhChanged || topoInfoChanged in
  match oldBestpath input, re_bestpath e with
  | None, None => (false, multipathChanged, e)
  | _, _ =>
      (negb (bool_decide (oldBestpath input = re_bestpath e))
       || sf_neb (aggregateReceivedUcmpWeight (re_weights e)) (oldAggregateReceivedUcmpWeight input)
       || sf_neb (aggregateLocalUcmpWeight (re_weights e)) (oldAggregateLocalUcmpWeight input),
       multipathChanged, e)
  end.

(** The pair: best path changed, multipaths changed *)
Definition selectBestPath (multipathSelector bestpathSelector : list (RouteFilter RouteInfo))
    (computeUcmp : bool) (ucmpWidth : Z) (quantizer : option BgpUcmpQuantizer)
    (iteration : list ptr) (w : Heap) (e : RibEntry) : option (bool * bool * Heap * RibEntry) :=
  let '(input, e) := snapshotAndResetForPathSelection e in
  let '(routes, e) := prePathSelectionFiltering iteration w e in
  match routes with
  | [] =>
      let e := set_weights (set_weightedNexthops None (re_weights e))
                 (set_multipaths ∅ (set_bestpath None true e)) in
      Some (negb (bool_decide (oldBestpath input = None)),
            negb (bool_decide (oldMultipathWeightedNexthops input = None)), w, e)
  | _ =>
      '(selectedPaths, w, e) ← multiPathSelection multipathSelector routes w e;
      '(mult, topoInfoChanged, e) ←
        accumulateAggregateWeightsAndTopoInfo selectedPaths (oldNexthopAndTopoInfo input) quantizer w e;
      '(w, e) ← bestPathSelection bestpathSelector selectedPaths w e;
      '(newNhWtMap, e) ← buildAndNormalizeWeightedNexthops selectedPaths computeUcmp ucmpWidth mult w e;
      let '(bestpathChanged, multipathChanged, e) :=
        computeChangePair input topoInfoChanged newNhWtMap e in
      Some (bestpathChanged, multipathChanged, w, e)
  end.
End Selectors.

(** ** What selection reads and writes of a route *)

Section Facts.
Context `{RibContext}.

(** A route without its rejection criterion and path id, which no rule reads *)
Definition core (r : RouteInfo) : RouteInfo :=
  ri_set_bestPathFilterConfig None (ri_set_pathIdToSend None r).

Definition blind (fs : list (RouteFilter RouteInfo)) : Prop :=
  Forall (fun f => forall r, f_rule f r = f_rule f (core r)) fs.

Definition same_core (h1 h2 : ptr -> RouteInfo) : Prop := forall p, core (h1 p) = core (h2 p).

Lemma same_core_trans h1 h2 h3 : same_core h1 h2 -> same_core h2 h3 -> same_core h1 h3.
Proof. intros H1 H2 p. by rewrite H1. Qed.

Lemma same_core_rules fs h1 h2 : blind fs -> same_core h1 h2 -> same_rules h1 h2 fs.
Proof.
  intros Hb Hc. eapply Forall_impl; [exact Hb|]. intros f Hf p. by rewrite Hf, Hc, <- Hf.
Qed.

Lemma core_fields r r' :
  core r = core r' -> ri_prefix r = ri_prefix r' /\ ri_peer r = ri_peer r' /\
  ri_attrs r = ri_attrs r' /\ ri_receivedPathId r = ri_receivedPathId r' /\
  ri_installToFib r = ri_installToFib r' /\ ri_status r = ri_status r' /\
  ri_nexthopInfo r = ri_nexthopInfo r'.
Proof. destruct r, r'. unfold core. simpl. by intros [= -> -> -> -> -> -> ->]. Qed.

(** The routes every rule of the selectors has a value on *)
Definition rankable (r : RouteInfo) : Prop :=
  is_Some (path_localPref (ri_path r)) /\ is_Some (transformIP2Int (peer_addr (ri_peer r))) /\
  is_Some (transformIP2Int (path_nexthop (ri_path r))).

Definition ruled_by (fs : list (RouteFilter RouteInfo)) : Prop :=
  Forall (fun f => forall r, rankable r -> is_Some (f_rule f r)) fs.

Lemma ruled_by_all fs h routes :
  ruled_by fs -> Forall (fun p => rankable (h p)) routes -> all_ruled h fs routes.
Proof.
  intros Hf Hr. eapply Forall_impl; [exact Hf|]. intros f Hf'. eapply Forall_impl; [exact Hr|].
  intros p. apply Hf'.
Qed.

(** A selector: filters that judge a route alone, then filters that compare *)
Record selector_ok (fs1 fs2 : list (RouteFilter RouteInfo)) : Prop := {
  so_absolute : forallb absolute fs1 = true;
  so_comparable : forallb comparable fs2 = true;
  so_blind : blind (fs1 ++ fs2);
  so_ruled : ruled_by (fs1 ++ fs2)
}.

Ltac decide_rules :=
  unfold blind, ruled_by; cbn [app];
  repeat (apply Forall_cons; split;
    [intros r; first [reflexivity | intros (?&?&?); simpl; unfold rule_of_option;
                                    first [by eexists | by apply fmap_is_Some]] |]);
  apply Forall_nil; exact I.

(** The multipath selector: deleted routes are ineligible, the rest is ranked. *)
Lemma multipath_selector cc :
  exists fs1 fs2, newRouteInfoSelector (getBaseRouteFilterConfigsMultiPath cc) = Some (fs1 ++ fs2) /\
    selector_ok fs1 fs2 /\
    forall h p, eligible h fs1 p = negb (getIsRouteDeleted (h p)).
Proof.
  unfold getBaseRouteFilterConfigsMultiPath.
  destruct (enableWeightComparison features), cc, (enableMedComparison features),
    (enableEiBgpMultipath features), (enableNextHopTracking features);
    eexists [_], _; (split; [reflexivity|]);
    (split; [split; [reflexivity|reflexivity|decide_rules|decide_rules]|]);
    intros h p; cbn -[has_state]; by destruct (has_state (ri_status (h p)) DELETED).
Qed.

Lemma bestpath_selector cc :
  exists fs, newRouteInfoSelector (getRouteFilterConfigsBestPath cc) = Some fs /\ selector_ok [] fs /\
    forall h p q, Forall (fun f => score h f p = score h f q) fs ->
      default 0 (u128 <$> transformIP2Int (peer_addr (ri_peer (h p)))) =
      default 0 (u128 <$> transformIP2Int (peer_addr (ri_peer (h q)))) /\
      default 0 (u128 <$> transformIP2Int (path_nexthop (ri_path (h p)))) =
      default 0 (u128 <$> transformIP2Int (path_nexthop (ri_path (h q)))).
Proof.
  unfold getRouteFilterConfigsBestPath.
  destruct cc; eexists; (split; [reflexivity|]);
    (split; [split; [reflexivity|reflexivity|decide_rules|decide_rules]|]);
    intros h p q (_ & _ & _ & Hp & Hn & _)%Forall_fold_right; by split.
Qed.

(** Selection leaves everything of a route but its rejection criterion. *)
Definition same_marks (w w' : Heap) : Prop :=
  hp_next w' = hp_next w /\ hp_assoc w' = hp_assoc w /\
  forall p, ri_set_bestPathFilterConfig None (hp_routes w' p)
            = ri_set_bestPathFilterConfig None (hp_routes w p).

Lemma same_marks_core w w' : same_marks w w' -> same_core (hp_routes w') (hp_routes w).
Proof.
  intros (_ & _ & Hr) p. specialize (Hr p). destruct (hp_routes w' p), (hp_routes w p).
  unfold core. simpl in *. by injection Hr as -> -> -> -> -> -> -> -> ->.
Qed.

Lemma same_marks_id w w' p :
  same_marks w w' -> ri_pathIdToSend (hp_routes w' p) = ri_pathIdToSend (hp_routes w p).
Proof.
  intros (_ & _ & Hr). specialize (Hr p). apply (f_equal ri_pathIdToSend) in Hr.
  by destruct (hp_routes w' p), (hp_routes w p).
Qed.

Lemma selectRouteInfos_spec fs routes w :
  forallb flat fs = true -> blind fs -> all_ruled (hp_routes w) fs routes -> NoDup routes ->
  exists w', selectRouteInfos fs routes w = Some (survivors (hp_routes w) fs routes, w') /\
    same_marks w w'.
Proof.
  intros Hf Hb Hr Hd. unfold selectRouteInfos, selectRoutesAndSetRejectionFilter.
  set (h1 := update_all (hp_routes w) routes (fun _ => clearBestPathFilterCriteria)).
  assert (Hh1 : forall p, h1 p = if bool_decide (p ∈ routes) then clearBestPathFilterCriteria (hp_routes w p)
                                 else hp_routes w p)
    by (intros p; unfold h1; by rewrite update_all_spec).
  assert (Hc : same_core h1 (hp_routes w)).
  { intros p. rewrite Hh1. by case_bool_decide; [destruct (hp_routes w p)|]. }
  pose proof (same_core_rules fs _ _ Hb Hc) as Hsame.
  destruct (applyFilters_flat h1 fs routes (Some ∅) Hf) as (fm & E & _);
    [by eapply all_ruled_ext|].
  rewrite E. cbn [mbind option_bind fst]. rewrite (survivors_ext h1 (hp_routes w)) by done.
  eexists. split; [done|]. split; [done|]. split; [done|]. intros p. cbn [hp_routes].
  rewrite update_all_spec, Hh1 by done. case_bool_decide; [|done].
  by case_match; destruct (hp_routes w p).
Qed.

(** *** Path ids of the multipaths *)

(** What [getOrAssignSendPathId] changes while the free interval is not used up *)
Lemma getOrAssign_interval p w e :
  fst (re_freePathIdInterval e) <= snd (re_freePathIdInterval e) ->
  exists i, getOrAssignSendPathId p w e =
    match ri_pathIdToSend (hp_routes w p) with
    | Some j => Some (j, w, e)
    | None => Some (i, set_route p (ri_set_pathIdToSend (Some i) (hp_routes w p)) w,
                    set_freePathIdInterval (uint 32 (i + 1), snd (re_freePathIdInterval e)) e)
    end /\ i = fst (re_freePathIdInterval e).
Proof.
  intros Hle. eexists. split; [|done]. unfold getOrAssignSendPathId, getPathIdToSend.
  destruct (ri_pathIdToSend (hp_routes w p)); [done|].
  by rewrite (proj2 (Z.ltb_ge _ _)) by lia.
Qed.

(** Routes after ids were assigned: ids in use are kept. *)
Definition ids_extend (w w' : Heap) : Prop :=
  hp_next w' = hp_next w /\ hp_assoc w' = hp_assoc w /\
  forall p, exists v, hp_routes w' p = ri_set_pathIdToSend v (hp_routes w p) /\
    forall i, ri_pathIdToSend (hp_routes w p) = Some i -> v = Some i.

Lemma ids_extend_refl w : ids_extend w w.
Proof.
  split; [done|]. split; [done|]. intros p. exists (ri_pathIdToSend (hp_routes w p)).
  by destruct (hp_routes w p).
Qed.

Lemma ids_extend_trans w1 w2 w3 : ids_extend w1 w2 -> ids_extend w2 w3 -> ids_extend w1 w3.
Proof.
  intros (N1 & A1 & R1) (N2 & A2 & R2). split; [congruence|]. split; [congruence|].
  intros p. destruct (R1 p) as (v1 & E1 & K1), (R2 p) as (v2 & E2 & K2). exists v2.
  rewrite E1 in *. split; [by rewrite E2; destruct (hp_routes w1 p)|].
  intros i Hi. apply K2. rewrite (K1 i Hi). by destruct (hp_routes w1 p).
Qed.

Lemma ids_extend_assign w p i :
  ri_pathIdToSend (hp_routes w p) = None ->
  ids_extend w (set_route p (ri_set_pathIdToSend (Some i) (hp_routes w p)) w).
Proof.
  intros Hn. split; [done|]. split; [done|]. intros q. simpl.
  destruct (decide (q = p)) as [->|Hq].
  - rewrite upd_eq. exists (Some i). split; [done|]. by rewrite Hn.
  - rewrite upd_ne by done. exists (ri_pathIdToSend (hp_routes w q)). by destruct (hp_routes w q).
Qed.

Lemma ids_extend_core w w' : ids_extend w w' -> same_core (hp_routes w') (hp_routes w).
Proof. intros (_ & _ & Hr) p. destruct (Hr p) as (v & -> & _). by destruct (hp_routes w p). Qed.

Lemma same_core_entry_ok w w' e e' :
  entry_ok w e -> re_routeInfos e' = re_routeInfos e -> re_allPathsCount e' = re_allPathsCount e ->
  re_prefix e' = re_prefix e -> hp_next w' = hp_next w ->
  same_core (hp_routes w') (hp_routes w) -> entry_ok w' e'.
Proof.
  intros Hok E1 E2 E3 E4 Hc. eapply entry_ok_same; try done. intros p.
  destruct (core_fields _ _ (Hc p)) as (? & ? & _ & ? & _). done.
Qed.

Lemma assign_spec paths w e :
  entry_ok w e -> path_ids_ok w e -> (forall p, p ∈ paths -> p ∈ getAllPaths e) ->
  fst (re_freePathIdInterval e) + blen paths <= snd (re_freePathIdInterval e) ->
  exists w' v, assignSendPathIds paths w e = Some (w', set_freePathIdInterval v e) /\
    ids_extend w w' /\ path_ids_ok w' (set_freePathIdInterval v e) /\
    forall p, p ∈ paths -> is_Some (ri_pathIdToSend (hp_routes w' p)).
Proof.
  revert w e. induction paths as [|p paths IH]; intros w e Hok Hids Hsub Hroom.
  { exists w, (re_freePathIdInterval e). split; [by destruct e|]. split; [apply ids_extend_refl|].
    split; [by destruct e|]. by intros p ?%elem_of_nil. }
  cbn [length] in Hroom. pose proof (pi_left _ _ Hids) as Hl. pose proof (pi_right _ _ Hids) as Hr.
  assert (Hp : p ∈ getAllPaths e) by (apply Hsub; left).
  destruct (getOrAssign_interval p w e) as (i & E & Ei); [lia|].
  cbn [assignSendPathIds]. rewrite E. destruct (ri_pathIdToSend (hp_routes w p)) as [j|] eqn:Ej;
    cbn [mbind option_bind].
  - destruct (IH w e Hok Hids) as (w' & v & -> & He & Hok' & Hall); [intros; apply Hsub; by right|lia|].
    exists w', v. split; [done|]. split; [done|]. split; [done|].
    intros q [->|Hq]%elem_of_cons; [|by apply Hall]. destruct He as (_ & _ & He).
    destruct (He p) as (x & -> & Hx). rewrite (Hx j Ej). by destruct (hp_routes w p); eexists.
  - set (w1 := set_route p _ w). set (e1 := set_freePathIdInterval _ e).
    destruct (assign_ids_ok p i (snd (re_freePathIdInterval e)) w e) as [_ Hids1]; try done;
      [lia|lia|intros k Hk; apply (pi_free _ _ Hids); lia|].
    pose proof (ids_extend_assign w p i Ej) as Hx1. fold w1 in Hx1, Hids1. fold e1 in Hids1.
    destruct (IH w1 e1) as (w' & v & E' & He & Hok' & Hall).
    + apply (same_core_entry_ok w w1 e e1); try done. by apply ids_extend_core.
    + apply Hids1. unfold kMaxPathIDToSend. lia.
    + intros q Hq. apply Hsub. by right.
    + unfold e1. cbn [re_freePathIdInterval set_freePathIdInterval fst snd]. unfold uint.
      rewrite Z.mod_small; lia.
    + exists w', v. rewrite E'. split; [done|]. split; [by eapply ids_extend_trans|]. split; [done|].
      intros q [->|Hq]%elem_of_cons; [|by apply Hall]. destruct He as (_ & _ & He).
      destruct (He p) as (x & -> & Hx). rewrite (Hx i); [by destruct (hp_routes w1 p); eexists|].
      unfold w1. simpl. by rewrite upd_eq.
Qed.

(** *** Next hops and multipaths *)

Section Build.
Variables (setUcmpWeights : bool) (mult : spec_float) (w : Heap) (wt : ptr -> Z).

Definition nexthop_of (p : ptr) : IPAddress := path_nexthop (ri_path (hp_routes w p)).

(** The weight of the first of the paths with the next hop *)
Definition weight_at (sel : list ptr) (nh : IPAddress) : option Z :=
  head (omap (fun p => if bool_decide (nexthop_of p = nh) then Some (wt p) else None) sel).

(** [wt] gives the weights of the paths. *)
Definition weighs (sel : list ptr) : Prop :=
  forall p, p ∈ sel -> if setUcmpWeights then ucmpWeightOf mult (hp_routes w p) = Some (wt p) else wt p = 0.

Lemma emplace_lookup (m : gmap IPAddress Z) k v nh :
  emplace k v m !! nh = match m !! nh with
                        | Some x => Some x
                        | None => if bool_decide (k = nh) then Some v else None
                        end.
Proof.
  unfold emplace. destruct (m !! k) eqn:E.
  - destruct (decide (k = nh)) as [->|]; [by rewrite E|].
    rewrite bool_decide_eq_false_2 by done. by destruct (m !! nh).
  - destruct (decide (k = nh)) as [->|].
    + by rewrite lookup_insert_eq, E, bool_decide_eq_true_2.
    + rewrite lookup_insert_ne, bool_decide_eq_false_2 by done. by destruct (m !! nh).
Qed.

Definition sum_weights (sel : list ptr) : Z := foldr (fun p n => wt p + n) 0 sel.

Lemma build_spec sel b :
  weighs sel -> (forall p, p ∈ sel -> is_Some (ri_pathIdToSend (hp_routes w p))) ->
  NoDup (ids_of w sel) -> (forall i, i ∈ ids_of w sel -> bl_multipaths b !! i = None) ->
  exists b', buildWeightedNexthops setUcmpWeights mult sel w b = Some b' /\
    (forall i p, bl_multipaths b' !! i = Some p <->
       bl_multipaths b !! i = Some p \/ (p ∈ sel /\ ri_pathIdToSend (hp_routes w p) = Some i)) /\
    (forall nh, bl_nhWt b' !! nh = match bl_nhWt b !! nh with Some v => Some v | None => weight_at sel nh end) /\
    if setUcmpWeights
    then bl_gcd b' = fold_left Z.gcd (map wt sel) (bl_gcd b) /\
         bl_total b' = fold_left (fun t p => uint 64 (t + wt p)) sel (bl_total b)
    else bl_gcd b' = bl_gcd b /\ bl_total b' = bl_total b.
Proof.
  revert b. induction sel as [|p sel IH]; intros b Hw Hids Hnd Hfree.
  { exists b. split; [done|]. split.
    { intros i p. rewrite elem_of_nil. tauto. }
    split; [intros nh; unfold weight_at; simpl; by destruct (bl_nhWt b !! nh)|].
    by destruct setUcmpWeights. }
  destruct (Hids p ltac:(left)) as [i Ei]. unfold ids_of in Hnd, Hfree. simpl in Hnd, Hfree.
  rewrite Ei in Hnd, Hfree. apply NoDup_cons in Hnd as [Hni Hnd].
  assert (Hnone : bl_multipaths b !! i = None) by (apply Hfree; left).
  cbn [buildWeightedNexthops]. rewrite Ei. cbn [mbind option_bind]. rewrite Hnone.
  rewrite lookup_insert_eq. cbn [default from_option id].
  set (b1 := mkBuilt (<[i := p]> (bl_multipaths b)) (emplace (nexthop_of p) (wt p) (bl_nhWt b))
               (if setUcmpWeights then uint 64 (bl_total b + wt p) else bl_total b)
               (if setUcmpWeights then Z.gcd (bl_gcd b) (wt p) else bl_gcd b)).
  destruct (IH b1) as (b' & E & Hmp & Hnh & Hrest).
  { intros q Hq. apply Hw. by right. }
  { intros q Hq. apply Hids. by right. }
  { done. }
  { intros j Hj. unfold b1. simpl. rewrite lookup_insert_ne; [apply Hfree; by right|].
    intros ->. by apply Hni. }
  exists b'. split.
  { pose proof (Hw p ltac:(left)) as Hp. revert E. unfold b1, nexthop_of.
    destruct setUcmpWeights; rewrite Hp; by cbn [mbind option_bind]. }
  split; [|split].
  - intros j q. rewrite Hmp. unfold b1. cbn [bl_multipaths]. rewrite lookup_insert_Some, elem_of_cons.
    split.
    + intros [[[<- <-]|[_ ?]]|[? ?]]; [|by left|right; tauto]. right. split; [by left|done].
    + intros [Hj|[[->|Hq] Hj]].
      * left. right. split; [|done]. intros ->. congruence.
      * left. left. split; congruence.
      * by right.
  - intros nh. rewrite Hnh. unfold b1. cbn [bl_nhWt]. rewrite emplace_lookup.
    destruct (bl_nhWt b !! nh); [done|]. unfold weight_at at 2. simpl. by case_bool_decide.
  - unfold b1 in Hrest. by destruct setUcmpWeights.
Qed.

Lemma total_sum sel t :
  (forall p, p ∈ sel -> 0 <= wt p) -> 0 <= t -> t + sum_weights sel < 2 ^ 64 ->
  fold_left (fun t p => uint 64 (t + wt p)) sel t = t + sum_weights sel.
Proof.
  revert t. induction sel as [|p sel IH]; intros t Hw Ht Hlt; cbn in *; [lia|].
  assert (0 <= sum_weights sel).
  { clear -Hw. induction sel as [|q sel IH]; cbn; [lia|].
    pose proof (Hw q ltac:(right; left)). specialize (IH ltac:(intros r Hr; apply Hw; apply elem_of_cons in Hr as [->|?]; [left|by right; right])).
    unfold sum_weights in IH. lia. }
  fold (sum_weights sel) in *. pose proof (Hw p ltac:(left)).
  unfold uint at 2. rewrite Z.mod_small by lia. rewrite IH; [lia|intros q Hq; apply Hw; by right|lia|lia].
Qed.
End Build.

(** *** The phases together *)

Lemma path_ids_ok_same w w' e e' :
  path_ids_ok w e -> re_routeInfos e' = re_routeInfos e ->
  re_freePathIdInterval e' = re_freePathIdInterval e ->
  (forall p, ri_pathIdToSend (hp_routes w' p) = ri_pathIdToSend (hp_routes w p)) -> path_ids_ok w' e'.
Proof.
  intros Hok Em Ei Hr. apply (path_ids_ok_sub w e); [done|done|].
  rewrite !getAllPaths_paths, Em. by rewrite (ids_of_same w w') by auto.
Qed.

Lemma survivors_NoDup (h : ptr -> RouteInfo) fs routes : NoDup routes -> NoDup (survivors h fs routes).
Proof. intros Hd. eapply sublist_NoDup; [exact Hd|]. apply survivors_sublist. Qed.

Lemma survivors_sub (h : ptr -> RouteInfo) fs routes p : p ∈ survivors h fs routes -> p ∈ routes.
Proof.
  intros Hp. eapply elem_of_submseteq; [done|]. apply sublist_submseteq, survivors_sublist.
Qed.

Lemma multiPath_spec fs1 fs2 routes p0 w e :
  selector_ok fs1 fs2 -> entry_ok w e -> path_ids_ok w e -> NoDup routes ->
  (forall p, p ∈ routes -> p ∈ getAllPaths e /\ rankable (hp_routes w p)) ->
  p0 ∈ routes -> eligible (hp_routes w) fs1 p0 = true ->
  fst (re_freePathIdInterval e) + blen routes <= snd (re_freePathIdInterval e) ->
  let sel := survivors (hp_routes w) (fs1 ++ fs2) routes in
  exists w' v, multiPathSelection (fs1 ++ fs2) routes w e = Some (sel, w', set_freePathIdInterval v e) /\
    sel <> [] /\ hp_next w' = hp_next w /\ same_core (hp_routes w') (hp_routes w) /\
    path_ids_ok w' (set_freePathIdInterval v e) /\
    forall p, p ∈ sel -> is_Some (ri_pathIdToSend (hp_routes w' p)).
Proof.
  intros [Ha Hc Hb Hr] Hok Hids Hd Hroutes Hp0 He Hroom sel.
  assert (Hne : sel <> []) by (by eapply survivors_nonempty).
  destruct (selectRouteInfos_spec (fs1 ++ fs2) routes w) as (w1 & E1 & Hm1); try done.
  { by apply flat_parts. }
  { apply ruled_by_all; [done|]. apply Forall_forall. intros p Hp. by apply Hroutes. }
  pose proof (same_marks_core _ _ Hm1) as Hc1. destruct Hm1 as (Hn1 & Ha1 & Hm1).
  destruct (assign_spec sel w1 e) as (w2 & v & E2 & Hx & Hids2 & Hall).
  - by apply (same_core_entry_ok w w1 e e).
  - apply (path_ids_ok_same w w1 e e); try done. intros p. by apply (same_marks_id w w1).
  - intros p Hp. by apply Hroutes, (survivors_sub (hp_routes w) (fs1 ++ fs2)).
  - assert (length sel <= length routes)%nat by apply sublist_length, survivors_sublist. lia.
  - exists w2, v. unfold multiPathSelection. rewrite E1. cbn [mbind option_bind]. fold sel.
    rewrite E2. cbn [mbind option_bind].
    split; [by destruct sel|]. split; [done|]. split; [by destruct Hx as (-> & _)|].
    split; [|done]. eapply same_core_trans; [by apply ids_extend_core|done].
Qed.

Lemma bestPath_spec fs sel w e :
  selector_ok [] fs -> NoDup sel -> sel <> [] -> (forall p, p ∈ sel -> rankable (hp_routes w p)) ->
  exists best w', bestPathSelection fs sel w e
      = Some (w', set_bestpath (Some best) (ri_installToFib (hp_routes w best)) e) /\
    head (survivors (hp_routes w) fs sel) = Some best /\ same_marks w w'.
Proof.
  intros [_ Hc Hb Hr] Hd Hne Hrank. cbn [app] in *.
  assert (Hs : survivors (hp_routes w) fs sel <> []).
  { destruct sel as [|p0 sel]; [done|]. by eapply (survivors_nonempty _ [] fs); [..|left|]. }
  destruct (selectRouteInfos_spec fs sel w) as (w' & E & Hm); try done.
  { by apply (flat_parts [] fs). }
  { apply ruled_by_all; [done|]. by apply Forall_forall. }
  destruct (survivors (hp_routes w) fs sel) as [|best rest]; [done|]. exists best, w'.
  unfold bestPathSelection. rewrite E. cbn [mbind option_bind].
  destruct (core_fields _ _ (same_marks_core _ _ Hm best)) as (_ & _ & _ & _ & -> & _). done.
Qed.

(** The best path is one no other is preferred to. *)
Lemma best_is_maximal (h : ptr -> RouteInfo) fs sel best :
  selector_ok [] fs -> (forall p, p ∈ sel -> rankable (h p)) -> head (survivors h fs sel) = Some best ->
  best ∈ sel /\ forall q, q ∈ sel -> compareRoutes h fs best q = Some false.
Proof.
  intros [_ Hc _ Hr] Hrank Hh. cbn [app] in *.
  assert (Hin : best ∈ survivors h fs sel).
  { destruct (survivors h fs sel); [done|]. injection Hh as ->. left. }
  apply (elem_of_survivors h [] fs) in Hin as (Hin & _ & Hm); [|done..].
  split; [done|]. intros q Hq. rewrite compareRoutes_outranked; [f_equal; by apply Hm|].
  apply ruled_by_all; [done|]. repeat constructor; by apply Hrank.
Qed.

Lemma set_weights_id e : set_weights (re_weights e) e = e.
Proof. by destruct e. Qed.

Lemma computeChangePair_spec input topo m e :
  weightedNexthops (re_weights e) = oldMultipathWeightedNexthops input ->
  exists bc mc v, computeChangePair input topo m e = (bc, mc, set_weights v e) /\
    weightedNexthops v = Some m /\ (oldBestpath input <> re_bestpath e -> bc = true).
Proof.
  intros Hold. unfold computeChangePair.
  set (e1 := if negb _ then _ else e).
  assert (He1 : exists v, e1 = set_weights v e /\ weightedNexthops v = Some m).
  { unfold e1. case_bool_decide as E; cbn [negb].
    - exists (re_weights e). by rewrite set_weights_id, Hold.
    - by eexists. }
  destruct He1 as (v & -> & Hv). cbn [re_bestpath set_weights].
  assert (Hbc : oldBestpath input <> re_bestpath e ->
                negb (bool_decide (oldBestpath input = re_bestpath e)) = true).
  { intros Hne. by rewrite bool_decide_eq_false_2. }
  destruct (oldBestpath input) eqn:E1, (re_bestpath e) eqn:E2;
    (eexists _, _, v; split; [reflexivity|]; split; [done|]);
    intros Hne; try done; by rewrite (Hbc Hne).
Qed.

Lemma accumulate_spec sel oldTopo w e :
  exists mult tc v, accumulateAggregateWeightsAndTopoInfo sel oldTopo None w e = Some (mult, tc, set_weights v e) /\
    weightedNexthops v = weightedNexthops (re_weights e).
Proof.
  unfold accumulateAggregateWeightsAndTopoInfo.
  destruct (missingLocalUcmpWeight _); cbn [mbind option_bind]; by eexists _, _, _.
Qed.

(** The next hops of the paths, all with weight zero *)
Definition equal_nexthops (w : Heap) (sel : list ptr) (m : gmap IPAddress Z) : Prop :=
  forall nh v, m !! nh = Some v <-> v = 0 /\ exists p, p ∈ sel /\ path_nexthop (ri_path (hp_routes w p)) = nh.

Lemma weight_at_zero w sel nh v :
  weight_at w (fun _ => 0) sel nh = Some v <->
  v = 0 /\ exists p, p ∈ sel /\ path_nexthop (ri_path (hp_routes w p)) = nh.
Proof.
  unfold weight_at, nexthop_of. induction sel as [|p sel IH]; simpl.
  - split; [done|]. by intros [_ (p & ?%elem_of_nil & _)].
  - case_bool_decide as E; simpl.
    + split; [|by intros [-> _]]. intros [= <-]. split; [done|]. exists p. split; [left|done].
    + rewrite IH. split; intros [-> (q & Hq & Hnh)]; (split; [done|]).
      * exists q. split; [by right|done].
      * apply elem_of_cons in Hq as [->|Hq]; [done|]. by exists q.
Qed.

Lemma build_equal sel width mult w e :
  (forall p, p ∈ sel -> is_Some (ri_pathIdToSend (hp_routes w p))) -> NoDup (ids_of w sel) ->
  exists m mp v, buildAndNormalizeWeightedNexthops sel false width mult w e
      = Some (m, set_weights v (set_multipaths mp e)) /\
    weightedNexthops v = weightedNexthops (re_weights e) /\ equal_nexthops w sel m /\
    forall i p, mp !! i = Some p <-> p ∈ sel /\ ri_pathIdToSend (hp_routes w p) = Some i.
Proof.
  intros Hids Hnd. unfold buildAndNormalizeWeightedNexthops. cbn [andb].
  destruct (build_spec false mult w (fun _ => 0) sel (mkBuilt ∅ ∅ 0 0)) as (b & -> & Hmp & Hnh & _); try done.
  cbn [mbind option_bind]. eexists _, _, _. split; [reflexivity|]. split; [done|]. split.
  - intros nh v. rewrite Hnh. cbn [bl_nhWt]. rewrite lookup_empty. apply weight_at_zero.
  - intros i p. rewrite Hmp. cbn [bl_multipaths]. rewrite lookup_empty. split; [by intros [?|?]|by right].
Qed.

Lemma ids_of_subset_NoDup w e sel :
  path_ids_ok w e -> NoDup sel -> (forall p, p ∈ sel -> p ∈ getAllPaths e) -> NoDup (ids_of w sel).
Proof.
  intros Hok Hd Hsub. pose proof (NoDup_submseteq _ _ Hd Hsub) as Hs.
  apply submseteq_Permutation in Hs as [k Hk]. pose proof (pi_nodup _ _ Hok) as Hnd.
  rewrite (ids_of_perm w _ _ Hk) in Hnd. unfold ids_of in *. rewrite omap_app in Hnd.
  apply NoDup_app in Hnd. tauto.
Qed.

(** What a run of [selectBestPath] leaves behind: [sel] are the multipaths. *)
Record selected (w : Heap) (e : RibEntry) (w' : Heap) (e' : RibEntry) (best : option ptr)
    (sel : list ptr) : Prop := {
  sd_entry : entry_ok w' e';
  sd_ids : path_ids_ok w' e';
  sd_core : same_core (hp_routes w') (hp_routes w);
  sd_paths : re_routeInfos e' = re_routeInfos e;
  sd_done : re_needPathSelection e' = false;
  sd_best : re_bestpath e' = best;
  sd_install : re_installToFib e' = match best with Some p => ri_installToFib (hp_routes w p) | None => true end;
  sd_has_id : forall p, p ∈ sel -> is_Some (ri_pathIdToSend (hp_routes w' p));
  sd_multipaths : forall i p, re_multipaths e' !! i = Some p <->
    p ∈ sel /\ ri_pathIdToSend (hp_routes w' p) = Some i;
  sd_nexthops : match best with
                | Some _ => exists m, weightedNexthops (re_weights e') = Some m /\ equal_nexthops w sel m
                | None => weightedNexthops (re_weights e') = None
                end
}.

Lemma equal_nexthops_core w w' sel m :
  same_core (hp_routes w') (hp_routes w) -> equal_nexthops w' sel m -> equal_nexthops w sel m.
Proof.
  intros Hc He nh v. rewrite (He nh v). unfold ri_path.
  split; intros [Hv (p & Hp & E)]; (split; [done|]); exists p; (split; [done|]);
    destruct (core_fields _ _ (Hc p)) as (_ & _ & Ea & _); congruence.
Qed.

Definition candidates (w : Heap) (iteration : list ptr) : list ptr :=
  List.filter (fun p => is_candidate (hp_routes w p)) iteration.

Lemma selected_core w w1 e e1 w' e' best sel :
  same_core (hp_routes w1) (hp_routes w) -> re_routeInfos e1 = re_routeInfos e ->
  selected w1 e1 w' e' best sel -> selected w e w' e' best sel.
Proof.
  intros Hc Em [H1 H2 H3 H4 H5 H6 H7 H8 H9 H10]. split; try done.
  - by eapply same_core_trans.
  - by rewrite H4.
  - rewrite H7. destruct best as [p|]; [|done]. by destruct (core_fields _ _ (Hc p)) as (_ & _ & _ & _ & -> & _).
  - destruct best; [|done]. destruct H10 as (m & Em' & Hm). exists m. split; [done|].
    by apply (equal_nexthops_core w w1).
Qed.

Section SelectBestPath.
Variables (fs1 fs2 bfs : list (RouteFilter RouteInfo)) (w : Heap).
Hypothesis Hmps : selector_ok fs1 fs2.
Hypothesis Hbps : selector_ok [] bfs.

(** The best path, the next hops and the change pair, on multipaths that have their ids *)
Lemma later_phases_spec sel width input w1 e2 :
  sel <> [] -> NoDup sel -> (forall p, p ∈ sel -> p ∈ getAllPaths e2) ->
  (forall p, p ∈ sel -> rankable (hp_routes w1 p)) ->
  (forall p, p ∈ sel -> is_Some (ri_pathIdToSend (hp_routes w1 p))) ->
  entry_ok w1 e2 -> path_ids_ok w1 e2 -> re_needPathSelection e2 = false ->
  weightedNexthops (re_weights e2) = oldMultipathWeightedNexthops input ->
  exists bc mc w' e',
    ('(mult, topoInfoChanged, e) ←
       accumulateAggregateWeightsAndTopoInfo sel (oldNexthopAndTopoInfo input) None w1 e2;
     '(w, e) ← bestPathSelection bfs sel w1 e;
     '(newNhWtMap, e) ← buildAndNormalizeWeightedNexthops sel false width mult w e;
     let '(bestpathChanged, multipathChanged, e) := computeChangePair input topoInfoChanged newNhWtMap e in
     Some (bestpathChanged, multipathChanged, w, e)) = Some (bc, mc, w', e') /\
    selected w1 e2 w' e' (head (survivors (hp_routes w1) bfs sel)) sel /\
    re_inactivePathCount e' = re_inactivePathCount e2 /\
    (oldBestpath input <> re_bestpath e' -> bc = true).
Proof.
  intros Hne Hd Hin Hrank Hhas Hok Hids Hneed Hold.
  destruct (accumulate_spec sel (oldNexthopAndTopoInfo input) w1 e2) as (mult & tc & v3 & E3 & Hv3).
  rewrite E3. cbn [mbind option_bind]. set (e3 := set_weights v3 e2) in *.
  destruct (bestPath_spec bfs sel w1 e3) as (best & w4 & E4 & Hbest & Hm4); try done.
  rewrite E4. cbn [mbind option_bind].
  assert (Hid4 : forall p, ri_pathIdToSend (hp_routes w4 p) = ri_pathIdToSend (hp_routes w1 p))
    by (intros p; by apply same_marks_id).
  assert (Hids4 : path_ids_ok w4 e2) by (by apply (path_ids_ok_same w1 w4 e2 e2)).
  set (e4 := set_bestpath _ _ e3).
  destruct (build_equal sel width mult w4 e4) as (m & mp & v5 & E5 & Hv5 & Hnh & Hmp).
  { intros p Hp. rewrite Hid4. by apply Hhas. }
  { by apply (ids_of_subset_NoDup w4 e2). }
  rewrite E5. cbn [mbind option_bind]. set (e5 := set_weights v5 _).
  destruct (computeChangePair_spec input tc m e5) as (bc & mc & v6 & E6 & Hv6 & Hbc).
  { unfold e5. cbn [re_weights set_weights]. rewrite Hv5. unfold e4, e3.
    cbn [re_weights set_weights set_bestpath]. by rewrite Hv3. }
  rewrite E6. exists bc, mc, w4, (set_weights v6 e5). split; [reflexivity|].
  pose proof (same_marks_core _ _ Hm4) as Hc4.
  rewrite Hbest. split; [|split; [done|exact Hbc]]. split; try done.
  - apply (same_core_entry_ok w1 w4 e2); try done. by destruct Hm4 as (Hn4 & _).
  - by apply (path_ids_ok_same w4 w4 e2).
  - intros p Hp. rewrite Hid4. by apply Hhas.
  - exists m. split; [exact Hv6|]. by apply (equal_nexthops_core w1 w4).
Qed.

Variables (e : RibEntry) (iteration : list ptr).
Hypothesis Hok : entry_ok w e.
Hypothesis Hids : path_ids_ok w e.
Hypothesis Hiter : iteration ≡ₚ getAllPaths e.
Hypothesis Hrank : forall p, p ∈ iteration -> rankable (hp_routes w p) /\ eligible (hp_routes w) fs1 p = true.
Hypothesis Hroom : fst (re_freePathIdInterval e) + blen iteration <= snd (re_freePathIdInterval e).

Lemma candidates_in p : p ∈ candidates w iteration -> p ∈ iteration.
Proof. unfold candidates. rewrite List_elem_of_filter. tauto. Qed.

Lemma candidates_NoDup : NoDup (candidates w iteration).
Proof.
  eapply sublist_NoDup; [|apply List_filter_sublist]. rewrite Hiter. apply (eo_nodup _ _ Hok).
Qed.

Lemma inactive_count :
  blen (List.filter (fun p => negb (is_candidate (hp_routes w p))) iteration)
  = blen iteration - blen (candidates w iteration).
Proof.
  unfold candidates.
  pose proof (Permutation_length (List_filter_complement (fun p => is_candidate (hp_routes w p)) iteration)) as Hl.
  rewrite length_app in Hl. lia.
Qed.

Lemma selectBestPath_spec width :
  let sel := survivors (hp_routes w) (fs1 ++ fs2) (candidates w iteration) in
  exists bc mc w' e',
    selectBestPath (fs1 ++ fs2) bfs false width None iteration w e = Some (bc, mc, w', e') /\
    selected w e w' e' (head (survivors (hp_routes w) bfs sel)) sel /\
    re_inactivePathCount e' = uint 32 (blen iteration - blen (candidates w iteration)) /\
    (re_bestpath e <> re_bestpath e' -> bc = true).
Proof.
  intros sel. unfold selectBestPath. cbn [snapshotAndResetForPathSelection prePathSelectionFiltering].
  rewrite inactive_count. set (e1 := set_inactivePathCount _ _). fold (candidates w iteration).
  assert (Hok1 : entry_ok w e1) by (by apply (same_core_entry_ok w w e e1)).
  assert (Hids1 : path_ids_ok w e1) by (by apply (path_ids_ok_same w w e e1)).
  assert (Hcand : forall p, p ∈ candidates w iteration -> p ∈ iteration) by apply candidates_in.
  pose proof candidates_NoDup as Hd.
  assert (Hlen : (length (candidates w iteration) <= length iteration)%nat)
    by apply sublist_length, List_filter_sublist.
  destruct (candidates w iteration) as [|p0 cs] eqn:Ec.
  - assert (sel = []) as -> by apply survivors_nil. rewrite survivors_nil.
    eexists _, _, _, _. split; [reflexivity|]. split; [|split; [done|]].
    + split; try done.
      * by apply (same_core_entry_ok w w e).
      * by apply (path_ids_ok_same w w e).
      * by intros p ?%elem_of_nil.
      * intros i p. cbn [re_multipaths set_multipaths set_weights].
        rewrite lookup_empty, elem_of_nil. by split; [|intros [? _]].
    + cbn. intros Hne. by rewrite bool_decide_eq_false_2.
  - destruct (multiPath_spec fs1 fs2 (p0 :: cs) p0 w e1) as (w1 & v & E1 & Hne & Hn1 & Hc1 & Hids2 & Hhas);
      try done.
    { intros p Hp%Hcand. split; [|by apply Hrank]. change (getAllPaths e1) with (getAllPaths e).
      by rewrite <- Hiter. }
    { left. }
    { apply Hrank, Hcand. left. }
    { change (re_freePathIdInterval e1) with (re_freePathIdInterval e). lia. }
    fold sel in E1, Hne, Hhas. rewrite E1. cbn [mbind option_bind].
    assert (Hin : forall p, p ∈ sel -> p ∈ iteration).
    { intros p Hp. apply Hcand. by eapply survivors_sub. }
    destruct (later_phases_spec sel width
                (mkInput (re_bestpath e) (aggregateReceivedUcmpWeight (re_weights e))
                   (aggregateLocalUcmpWeight (re_weights e)) (weightedNexthops (re_weights e))
                   (nexthopsAndTopoInfo (re_weights e))) w1 (set_freePathIdInterval v e1))
      as (bc & mc & w' & e' & E & Hsel & Hcount & Hbc); try done.
    { by apply survivors_NoDup. }
    { intros p Hp. change (getAllPaths _) with (getAllPaths e). rewrite <- Hiter. auto. }
    { intros p Hp. destruct (Hrank p (Hin p Hp)) as [Hr _]. unfold rankable, ri_path in *.
      destruct (core_fields _ _ (Hc1 p)) as (_ & -> & -> & _). done. }
    { by apply (same_core_entry_ok w w1 e1). }
    exists bc, mc, w', e'. split; [exact E|].
    rewrite (survivors_ext (hp_routes w1) (hp_routes w)) in Hsel
      by (apply same_core_rules; [by destruct Hbps|done]).
    split; [|split; [by rewrite Hcount|exact Hbc]].
    by eapply selected_core; [| |exact Hsel].
Qed.
End SelectBestPath.
End Facts.

(** ** Properties *)

Section Properties.
Context `{RibContext}.

(** A prefix whose paths can be ranked: no path is marked deleted, and the entry has as
    many free path ids as it has paths. *)
Record selectable (w : Heap) (e : RibEntry) (iteration : list ptr) : Prop := {
  sl_entry : entry_ok w e;
  sl_ids : path_ids_ok w e;
  sl_iteration : iteration ≡ₚ getAllPaths e;
  sl_rankable : forall p, p ∈ iteration -> rankable (hp_routes w p) /\ getIsRouteDeleted (hp_routes w p) = false;
  sl_room : fst (re_freePathIdInterval e) + blen iteration <= snd (re_freePathIdInterval e)
}.

Lemma selectBestPath_selects cc cc' mps bps width iteration w e :
  newRouteInfoSelector (getBaseRouteFilterConfigsMultiPath cc) = Some mps ->
  newRouteInfoSelector (getRouteFilterConfigsBestPath cc') = Some bps ->
  selectable w e iteration ->
  let sel := survivors (hp_routes w) mps (candidates w iteration) in
  exists bc mc w' e',
    selectBestPath mps bps false width None iteration w e = Some (bc, mc, w', e') /\
    selected w e w' e' (head (survivors (hp_routes w) bps sel)) sel /\
    re_inactivePathCount e' = uint 32 (blen iteration - blen (candidates w iteration)) /\
    (re_bestpath e <> re_bestpath e' -> bc = true) /\
    selectRoutes (hp_routes w) mps (candidates w iteration) = Some sel /\
    (candidates w iteration <> [] -> sel <> []) /\
    selector_ok [] bps /\ forall p, p ∈ sel -> rankable (hp_routes w p).
Proof.
  intros Em Eb [Hok Hids Hiter Hrank Hroom] sel.
  destruct (multipath_selector cc) as (fs1 & fs2 & Em' & Hmps & He).
  destruct (bestpath_selector cc') as (bfs & Eb' & Hbps & _).
  rewrite Em' in Em. injection Em as <-. rewrite Eb' in Eb. injection Eb as <-.
  assert (Hcand : forall p, p ∈ candidates w iteration -> p ∈ iteration).
  { intros p. unfold candidates. rewrite List_elem_of_filter. tauto. }
  destruct (selectBestPath_spec fs1 fs2 bfs w) with (e := e) (iteration := iteration) (width := width)
    as (bc & mc & w' & e' & E & Hsel & Hc & Hbc); try done.
  { intros p Hp. destruct (Hrank p Hp) as [? Hdel]. split; [done|]. by rewrite He, Hdel. }
  exists bc, mc, w', e'. split; [done|]. split; [done|]. split; [done|]. split; [done|]. split.
  { apply selectRoutes_flat; [destruct Hmps; by apply flat_parts|]. destruct Hmps.
    apply ruled_by_all; [done|]. apply Forall_forall. intros p Hp. by apply Hrank, Hcand. }
  split; [|split; [done|]].
  - intros Hne. destruct (candidates w iteration) as [|p0 cs] eqn:Ec; [done|].
    destruct Hmps. eapply (survivors_nonempty _ fs1 fs2 _ p0); try done; [left|].
    rewrite He. destruct (Hrank p0) as [_ ->]; [apply Hcand; left|done].
  - intros p Hp. by apply Hrank, Hcand, (survivors_sub (hp_routes w) (fs1 ++ fs2)).
Qed.

(** C20. [selectBestPath] without weights, with the selectors the RIB builds, in any order of
    iteration of the hash maps.  It returns; path selection is no longer requested.  With
    no candidate the entry has no best path and no multipaths.  Otherwise the multipaths
    are exactly the paths the multipath filters select among the candidates, at least one,
    each under the distinct path id it is advertised with; the best path is one of them to
    which the best path filters prefer none of the others; the next hops are those of the
    multipaths.  A changed best path is reported, and the entry stays consistent. *)
Theorem select_best_path_correct cc cc' mps bps width iteration w e :
  newRouteInfoSelector (getBaseRouteFilterConfigsMultiPath cc) = Some mps ->
  newRouteInfoSelector (getRouteFilterConfigsBestPath cc') = Some bps ->
  selectable w e iteration ->
  exists bc mc w' e' sel,
    selectBestPath mps bps false width None iteration w e = Some (bc, mc, w', e') /\
    selectRoutes (hp_routes w) mps (candidates w iteration) = Some sel /\
    selected w e w' e' (re_bestpath e') sel /\
    re_inactivePathCount e' = uint 32 (blen iteration - blen (candidates w iteration)) /\
    (re_bestpath e <> re_bestpath e' -> bc = true) /\
    match re_bestpath e' with
    | None => candidates w iteration = [] /\ sel = []
    | Some best => best ∈ sel /\ forall q, q ∈ sel -> compareRoutes (hp_routes w) bps best q = Some false
    end.
Proof.
  intros Em Eb Hs.
  destruct (selectBestPath_selects cc cc' mps bps width iteration w e Em Eb Hs)
    as (bc & mc & w' & e' & E & Hsel & Hc & Hbc & Esel & Hne & Hbps & Hrank).
  eexists bc, mc, w', e', _. split; [done|]. split; [done|]. pose proof (sd_best _ _ _ _ _ _ Hsel) as Hb.
  split; [by rewrite Hb|]. split; [done|]. split; [done|]. rewrite Hb.
  destruct (head _) as [best|] eqn:Eh; [by apply best_is_maximal|].
  assert (Hnil : survivors (hp_routes w) mps (candidates w iteration) = []).
  { destruct (survivors (hp_routes w) mps (candidates w iteration)) as [|p s] eqn:Es; [done|].
    destruct Hbps as [_ Hcmp _ _]. cbn [app] in *.
    pose proof (survivors_nonempty (hp_routes w) [] bps (p :: s) p eq_refl Hcmp ltac:(left) eq_refl) as Hx.
    cbn [app] in Hx. by destruct (survivors _ bps (p :: s)). }
  split; [|done]. destruct (candidates w iteration); [done|]. by destruct Hne.
Qed.

(** Two paths of one prefix that the last tie breakers tell apart: different peers or
    different next hops. *)
Definition distinguished (r1 r2 : RouteInfo) : Prop :=
  transformIP2Int (peer_addr (ri_peer r1)) <> transformIP2Int (peer_addr (ri_peer r2)) \/
  transformIP2Int (path_nexthop (ri_path r1)) <> transformIP2Int (path_nexthop (ri_path r2)).

Lemma u128_ip a v : wf_ip a -> transformIP2Int a = Some v -> u128 v = v.
Proof.
  intros Hwf E. assert (Ha : a <> IPUnset) by (by intros ->).
  rewrite transformIP2Int_octets in E by done. injection E as <-.
  unfold u128, uint. apply Z.mod_small. destruct a as [|o|o]; [done|..]; destruct Hwf as [Hl Hw];
    pose proof (be_decode_range o Hw) as Hr; rewrite Hl in Hr; simpl ip_bytes; lia.
Qed.

Lemma same_scores_not_distinguished r1 r2 :
  rankable r1 -> rankable r2 ->
  wf_ip (peer_addr (ri_peer r1)) /\ wf_ip (path_nexthop (ri_path r1)) ->
  wf_ip (peer_addr (ri_peer r2)) /\ wf_ip (path_nexthop (ri_path r2)) ->
  default 0 (u128 <$> transformIP2Int (peer_addr (ri_peer r1))) =
  default 0 (u128 <$> transformIP2Int (peer_addr (ri_peer r2))) /\
  default 0 (u128 <$> transformIP2Int (path_nexthop (ri_path r1))) =
  default 0 (u128 <$> transformIP2Int (path_nexthop (ri_path r2))) ->
  ~ distinguished r1 r2.
Proof.
  intros (_ & [a1 A1] & [b1 B1]) (_ & [a2 A2] & [b2 B2]) [W1 W2] [W3 W4] [E1 E2].
  unfold distinguished. rewrite A1, A2, B1, B2 in *. simpl in E1, E2.
  rewrite (u128_ip _ _ W1 A1), (u128_ip _ _ W3 A2) in E1.
  rewrite (u128_ip _ _ W2 B1), (u128_ip _ _ W4 B2) in E2. subst. tauto.
Qed.

Lemma tied_scores (h : ptr -> RouteInfo) fs p q :
  outranked h fs p q = false -> outranked h fs q p = false ->
  Forall (fun f => score h f p = score h f q) fs.
Proof.
  induction fs as [|f fs IH]; [constructor|]. simpl. intros H1 H2.
  apply orb_false_iff in H1 as [H1%Z.ltb_ge H1'], H2 as [H2%Z.ltb_ge H2'].
  assert (E : score h f p = score h f q) by lia. rewrite E, Z.eqb_refl in *. constructor; auto.
Qed.

(** Two best paths of the same multipaths are the same path. *)
Lemma best_unique cc bps (h : ptr -> RouteInfo) (sel : list ptr) b1 b2 :
  newRouteInfoSelector (getRouteFilterConfigsBestPath cc) = Some bps ->
  (forall p, p ∈ sel -> rankable (h p) /\ wf_ip (peer_addr (ri_peer (h p))) /\ wf_ip (path_nexthop (ri_path (h p)))) ->
  (forall p q, p ∈ sel -> q ∈ sel -> p <> q -> distinguished (h p) (h q)) ->
  b1 ∈ sel -> b2 ∈ sel -> compareRoutes h bps b1 b2 = Some false -> compareRoutes h bps b2 b1 = Some false ->
  b1 = b2.
Proof.
  intros Eb Hr Hdist H1 H2 C1 C2. destruct (bestpath_selector cc) as (fs & Eb' & Hok & Htie).
  rewrite Eb' in Eb. injection Eb as <-. destruct Hok as [_ _ _ Hru]. cbn [app] in Hru.
  rewrite compareRoutes_outranked in C1, C2
    by (apply ruled_by_all; [done|]; repeat constructor; by apply Hr).
  injection C1 as C1. injection C2 as C2. destruct (decide (b1 = b2)) as [|Hne]; [done|exfalso].
  destruct (Hr b1 H1) as [R1 W1], (Hr b2 H2) as [R2 W2].
  eapply (same_scores_not_distinguished (h b1) (h b2)); eauto. by apply Htie, tied_scores.
Qed.

(** The outcome of [selectBestPath] does not depend on the order in which the hash maps
    are iterated: two runs in different orders select the same multipaths and the same best
    path, when any two paths of the prefix come from different peers or have different next
    hops. *)
Theorem best_path_deterministic cc cc' mps bps width it1 it2 w e :
  newRouteInfoSelector (getBaseRouteFilterConfigsMultiPath cc) = Some mps ->
  newRouteInfoSelector (getRouteFilterConfigsBestPath cc') = Some bps ->
  selectable w e it1 -> it2 ≡ₚ it1 ->
  (forall p, p ∈ it1 -> wf_ip (peer_addr (ri_peer (hp_routes w p))) /\ wf_ip (path_nexthop (ri_path (hp_routes w p)))) ->
  (forall p q, p ∈ it1 -> q ∈ it1 -> p <> q -> distinguished (hp_routes w p) (hp_routes w q)) ->
  exists bc1 mc1 w1 e1 bc2 mc2 w2 e2,
    selectBestPath mps bps false width None it1 w e = Some (bc1, mc1, w1, e1) /\
    selectBestPath mps bps false width None it2 w e = Some (bc2, mc2, w2, e2) /\
    re_bestpath e1 = re_bestpath e2 /\
    forall p, (exists i, re_multipaths e1 !! i = Some p) <-> (exists i, re_multipaths e2 !! i = Some p).
Proof.
  intros Em Eb Hs1 Hperm Hwf Hdist.
  assert (Hs2 : selectable w e it2).
  { destruct Hs1 as [? ? Hi Hr Hroom]. split; try done.
    - by rewrite Hperm.
    - intros p. rewrite Hperm. apply Hr.
    - by rewrite (Permutation_length Hperm). }
  destruct (selectBestPath_selects cc cc' mps bps width it1 w e Em Eb Hs1)
    as (bc1 & mc1 & w1 & e1 & E1 & Sel1 & _ & _ & _ & _ & Hbps & Hr1).
  destruct (selectBestPath_selects cc cc' mps bps width it2 w e Em Eb Hs2)
    as (bc2 & mc2 & w2 & e2 & E2 & Sel2 & _ & _ & _ & _ & _ & Hr2).
  exists bc1, mc1, w1, e1, bc2, mc2, w2, e2. split; [done|]. split; [done|].
  set (s1 := survivors _ mps (candidates w it1)) in *. set (s2 := survivors _ mps (candidates w it2)) in *.
  assert (Hs : s1 ≡ₚ s2).
  { destruct (multipath_selector cc) as (fs1 & fs2 & Em' & [? ? _ _] & _). rewrite Em' in Em.
    injection Em as <-. apply survivors_Permutation; [done..|]. by apply List_filter_Permutation. }
  assert (Hin : forall p, p ∈ s1 -> p ∈ it1).
  { intros p Hp%survivors_sub. unfold candidates in Hp. apply List_elem_of_filter in Hp. tauto. }
  rewrite (sd_best _ _ _ _ _ _ Sel1), (sd_best _ _ _ _ _ _ Sel2). split.
  - pose proof (so_comparable _ _ Hbps) as Hcmp.
    pose proof (survivors_Permutation (hp_routes w) [] bps s1 s2 eq_refl Hcmp Hs) as Hbest. cbn [app] in Hbest.
    destruct (head (survivors _ bps s1)) as [b1|] eqn:H1, (head (survivors _ bps s2)) as [b2|] eqn:H2.
    + f_equal. apply best_is_maximal in H1 as [I1 M1], H2 as [I2 M2]; try done.
      apply (best_unique cc' bps (hp_routes w) s1); auto.
      * by rewrite Hs.
      * apply M1. by rewrite Hs.
      * apply M2. by rewrite <- Hs.
    + destruct (survivors _ bps s2); [|done]. apply Permutation_nil_r in Hbest. by rewrite Hbest in H1.
    + destruct (survivors _ bps s1); [|done]. apply Permutation_nil_l in Hbest. by rewrite <- Hbest in H2.
    + done.
  - assert (Hmp : forall w' e' b sel p, selected w e w' e' b sel ->
              (exists i, re_multipaths e' !! i = Some p) <-> p ∈ sel).
    { intros w' e' b sel p Hsel. setoid_rewrite (sd_multipaths _ _ _ _ _ _ Hsel). split; [by intros (i & Hp & _)|].
      intros Hp. destruct (sd_has_id _ _ _ _ _ _ Hsel p Hp) as [i Hi]. by exists i. }
    intros p. rewrite (Hmp _ _ _ _ p Sel1), (Hmp _ _ _ _ p Sel2). by rewrite Hs.
Qed.

Lemma normalizeNexthops_reduced width total g m :
  total <= width ->
  exists m', normalizeNexthops width total g m = Some m' /\
    forall nh, m' !! nh = (m !! nh) ≫= fun v => if v / Z.max g 1 =? 0 then None else Some (v / Z.max g 1).
Proof.
  intros Hle. unfold normalizeNexthops.
  assert (Hn : forall v, normalizeWeight width total g v = Some (v / Z.max g 1)).
  { intros v. unfold normalizeWeight. by rewrite (proj2 (Z.ltb_ge _ _)) by lia. }
  rewrite bool_decide_eq_true_2 by (intros nh v _; rewrite Hn; by eexists).
  eexists. split; [done|]. intros nh. rewrite lookup_omap. destruct (m !! nh); [|done].
  simpl. by rewrite Hn.
Qed.

Lemma fold_gcd_divides l g : (fold_left Z.gcd l g | g) /\ forall x, x ∈ l -> (fold_left Z.gcd l g | x).
Proof.
  revert g. induction l as [|a l IH]; intros g; simpl.
  { split; [done|]. by intros x ?%elem_of_nil. }
  destruct (IH (Z.gcd g a)) as [H1 H2]. split.
  - etrans; [exact H1|apply Z.gcd_divide_l].
  - intros x [->|Hx]%elem_of_cons; [etrans; [exact H1|apply Z.gcd_divide_r]|by apply H2].
Qed.

Lemma ucmpWeightOf_range mult r v : ucmpWeightOf mult r = Some v -> 0 <= v < 2 ^ 32.
Proof.
  unfold ucmpWeightOf, to_unsigned. destruct (sf_round _); simpl; [|done].
  case_match eqn:E; [|done]. intros [= <-]. lia.
Qed.

Lemma weight_at_elem w wt sel nh v :
  weight_at w wt sel nh = Some v -> exists p, p ∈ sel /\ nexthop_of w p = nh /\ wt p = v.
Proof.
  unfold weight_at. induction sel as [|p sel IH]; simpl; [done|]. case_bool_decide as E; simpl.
  - intros [= <-]. exists p. split; [left|done].
  - intros (q & Hq & ?)%IH. exists q. split; [by right|done].
Qed.

(** With UCMP on, when the weights of the multipaths divided by their greatest common
    divisor fit in the configured width, every next hop gets exactly that quotient of the
    weight of the first path with it: the proportions are kept.  A next hop of weight zero
    is left out. *)
Theorem ucmp_weights_proportional sel width mult w wt e :
  SFltb (S754_zero false) (aggregateReceivedUcmpWeight (re_weights e)) = true ->
  weighs true mult w wt sel ->
  (forall p, p ∈ sel -> is_Some (ri_pathIdToSend (hp_routes w p))) -> NoDup (ids_of w sel) ->
  let g := fold_left Z.gcd (map wt sel) 0 in
  0 < g -> sum_weights wt sel < 2 ^ 64 -> sum_weights wt sel / g <= width ->
  exists m v mp, buildAndNormalizeWeightedNexthops sel true width mult w e
      = Some (m, set_weights v (set_multipaths mp e)) /\
    (forall nh x, m !! nh = Some x -> x <> 0 /\ weight_at w wt sel nh = Some (g * x)) /\
    (forall nh y, weight_at w wt sel nh = Some y -> y <> 0 -> exists x, m !! nh = Some x /\ y = g * x) /\
    (forall i p, mp !! i = Some p <-> p ∈ sel /\ ri_pathIdToSend (hp_routes w p) = Some i).
Proof.
  intros Hagg Hw Hids Hnd g Hg Hsum Hwidth. unfold buildAndNormalizeWeightedNexthops. rewrite Hagg. cbn [andb].
  destruct (build_spec true mult w wt sel (mkBuilt ∅ ∅ 0 0)) as (b & -> & Hmp & Hnh & Eg & Et); try done.
  cbn [mbind option_bind]. cbn [bl_gcd bl_total] in Eg, Et. fold g in Eg. rewrite Eg.
  rewrite total_sum, Z.add_0_l in Et; [|intros p Hp; by eapply ucmpWeightOf_range, Hw|done|lia].
  replace (Z.max g 1) with g by lia.
  destruct (normalizeNexthops_reduced width (bl_total b / g) g (bl_nhWt b)) as (m & -> & Hm);
    [rewrite Et; lia|].
  replace (Z.max g 1) with g in Hm by lia.
  assert (Hdiv : forall nh y, weight_at w wt sel nh = Some y -> y = g * (y / g)).
  { intros nh y (p & Hp & _ & <-)%weight_at_elem.
    destruct (proj2 (fold_gcd_divides (map wt sel) 0) (wt p)) as [k Hk].
    { apply list_elem_of_fmap. by exists p. }
    fold g in Hk. rewrite Hk, Z.div_mul by lia. lia. }
  cbn [mbind option_bind]. eexists m, _, _. split; [reflexivity|].
  assert (Hl : forall nh, m !! nh = weight_at w wt sel nh ≫= fun v => if v / g =? 0 then None else Some (v / g)).
  { intros nh. rewrite Hm, Hnh. cbn [bl_nhWt]. by rewrite lookup_empty. }
  split; [|split].
  - intros nh x. rewrite Hl. destruct (weight_at w wt sel nh) as [y|] eqn:Ey; [|done]. simpl.
    destruct (Z.eqb_spec (y / g) 0); [done|]. intros [= <-]. split; [done|]. f_equal. by apply (Hdiv nh).
  - intros nh y Ey Hy. rewrite Hl, Ey. simpl. pose proof (Hdiv _ _ Ey).
    destruct (Z.eqb_spec (y / g) 0); [nia|]. by exists (y / g).
  - intros i p. rewrite Hmp. cbn [bl_multipaths]. rewrite lookup_empty. split; [by intros [?|?]|by right].
Qed.

(** The multiplier is the smallest unit of any multipath: one path of at most 1 Mbps makes it
    one bit per second, and then the weight of a 100 Gbps path does not fit in 32 bits, so
    that its conversion is undefined. *)
Theorem ucmp_weight_overflow sel oldTopo w e p q :
  p ∈ sel ->
  SFltb BpsPerGBps (f32_mul (getUcmpWeight (hp_routes w p)) (f32_of_Z 8)) = false ->
  SFltb BpsPerMBps (f32_mul (getUcmpWeight (hp_routes w p)) (f32_of_Z 8)) = false ->
  getUcmpWeight (hp_routes w q) = f32_of_Z 12500000000 ->
  (exists tc e', accumulateAggregateWeightsAndTopoInfo sel oldTopo None w e = Some (f32_of_Z 1, tc, e')) /\
  ucmpWeightOf (f32_of_Z 1) (hp_routes w q) = None.
Proof.
  intros Hp Hfast Hslow Hq. split; [|unfold ucmpWeightOf; rewrite Hq; vm_compute; reflexivity].
  assert (Hone : forall rs a, lbwMultiplier a = f32_of_Z 1 -> lbwMultiplier (fold_left accumulatePath rs a) = f32_of_Z 1).
  { induction rs as [|r rs IH]; intros a Ha; simpl; [done|]. apply IH. cbn [accumulatePath lbwMultiplier].
    rewrite Ha. do 2 (case_match; [reflexivity|]). reflexivity. }
  assert (Hmult : forall l a, p ∈ l -> lbwMultiplier (fold_left accumulatePath (map (hp_routes w) l) a) = f32_of_Z 1).
  { induction l as [|x l IH]; intros a Hin; [by apply elem_of_nil in Hin|].
    apply elem_of_cons in Hin as [<-|Hin]; [|by apply IH]. simpl. apply Hone. cbn [accumulatePath lbwMultiplier].
    by rewrite Hfast, Hslow. }
  unfold accumulateAggregateWeightsAndTopoInfo. rewrite Hmult by done.
  destruct (missingLocalUcmpWeight _); cbn [mbind option_bind]; by eexists _, _.
Qed.
End Properties.

(** ** Samples *)

#[local] Existing Instance sample_context.

Definition sample_selectors : option (list (RouteFilter RouteInfo)) * option (list (RouteFilter RouteInfo)) :=
  (newRouteInfoSelector (getBaseRouteFilterConfigsMultiPath false),
   newRouteInfoSelector (getRouteFilterConfigsBestPath false)).
Definition sample_mps : list (RouteFilter RouteInfo) := default [] (fst sample_selectors).
Definition sample_bps : list (RouteFilter RouteInfo) := default [] (snd sample_selectors).

Lemma sample_mps_built : newRouteInfoSelector (getBaseRouteFilterConfigsMultiPath false) = Some sample_mps.
Proof. reflexivity. Qed.
Lemma sample_bps_built : newRouteInfoSelector (getRouteFilterConfigsBestPath false) = Some sample_bps.
Proof. reflexivity. Qed.

(** A second path, of another peer or with another path id *)
Definition sample_store2 (h : ptr -> RouteInfo) : Heap := mkHeap h 3%positive (fun _ => []).
Definition sample_add (k : BgpPeerId) (i : Z) : RibEntry :=
  set_paths (<[k := <[i := 2%positive]> (default ∅ (re_routeInfos sample_entry !! k))]>
               (re_routeInfos sample_entry)) 2 sample_entry.

Lemma sample_add_ok (h : ptr -> RouteInfo) k i :
  h 1%positive = sample_heap 1%positive ->
  (peer_addr (ri_peer (h 2%positive)), peer_routerId (ri_peer (h 2%positive))) = k ->
  ri_receivedPathId (h 2%positive) = i -> ri_prefix (h 2%positive) = (IPV4 [10; 1; 0; 0], 16) ->
  other_paths (re_routeInfos sample_entry) k i = [1%positive] ->
  entry_ok (sample_store2 h) (sample_add k i).
Proof.
  intros H1 Hk Hi Hp Ho.
  pose proof (put_ok sample_store1 (sample_store2 h) sample_entry k i 2%positive sample_entry_ok
                eq_refl eq_refl) as H. rewrite Ho in H. apply H; try done.
  intros q ->%list_elem_of_singleton. simpl. by rewrite H1.
Qed.

(** Two paths of one peer that differ in the received path id only *)
Definition tied_heap (p : ptr) : RouteInfo :=
  match p with
  | 1%positive => sample_route 100 0 [65001; 65002] 1
  | _ => mkRouteInfo (IPV4 [10; 1; 0; 0], 16) (sample_peer 1 1)
           (2%positive, sample_path 100 0 [65001; 65002]) 1 None true EXTERNAL None None None
  end.

Lemma no_ids_ok w e :
  ids_of w (getAllPaths e) = [] -> re_freePathIdInterval e = (kMinPathIDToSend, kMaxPathIDToSend) ->
  path_ids_ok w e.
Proof.
  intros E Ei. split; rewrite ?E, ?Ei; try done.
  - constructor.
  - by intros i ?%elem_of_nil.
  - intros i _. apply not_elem_of_nil.
Qed.

Lemma sample_selectable (h : ptr -> RouteInfo) k i :
  h 1%positive = sample_heap 1%positive ->
  entry_ok (sample_store2 h) (sample_add k i) ->
  getAllPaths (sample_add k i) ≡ₚ [1; 2]%positive ->
  ids_of (sample_store2 h) (getAllPaths (sample_add k i)) = [] ->
  rankable (h 2%positive) -> getIsRouteDeleted (h 2%positive) = false ->
  selectable (sample_store2 h) (sample_add k i) [1; 2]%positive.
Proof.
  intros H1 Hok Hp Hids Hr Hd. split; try done.
  - by apply no_ids_ok.
  - intros p [->|[->|[]%elem_of_nil]%elem_of_cons]%elem_of_cons; simpl; [|done].
    rewrite H1. split; [|reflexivity]. by repeat split; eexists.
Qed.

Definition key2 : BgpPeerId := (IPV4 [192; 0; 2; 2], 2).

Lemma two_peers_selectable : selectable (sample_store2 sample_heap) (sample_add key2 0) [1; 2]%positive.
Proof.
  apply sample_selectable; try done. by apply sample_add_ok.
Qed.

Lemma tied_selectable : selectable (sample_store2 tied_heap) (sample_add sample_key 1) [1; 2]%positive.
Proof.
  apply sample_selectable; try done.
  - by apply sample_add_ok.
  - vm_compute. apply Permutation_swap.
Qed.

Lemma select_best_path_correct_witness :
  exists bc mc w' e' sel,
    selectBestPath sample_mps sample_bps false 64 None [1; 2]%positive
      (sample_store2 sample_heap) (sample_add key2 0) = Some (bc, mc, w', e') /\
    selected (sample_store2 sample_heap) (sample_add key2 0) w' e' (re_bestpath e') sel.
Proof.
  destruct (select_best_path_correct false false sample_mps sample_bps 64 [1; 2]%positive
              (sample_store2 sample_heap) (sample_add key2 0) sample_mps_built sample_bps_built two_peers_selectable)
    as (bc & mc & w' & e' & sel & H1 & _ & H2 & _).
  exact (ex_intro _ bc (ex_intro _ mc (ex_intro _ w' (ex_intro _ e' (ex_intro _ sel (conj H1 H2)))))).
Defined.

Lemma best_path_deterministic_witness :
  exists bc1 mc1 w1 e1 bc2 mc2 w2 e2,
    selectBestPath sample_mps sample_bps false 64 None [1; 2]%positive
      (sample_store2 sample_heap) (sample_add key2 0) = Some (bc1, mc1, w1, e1) /\
    selectBestPath sample_mps sample_bps false 64 None [2; 1]%positive
      (sample_store2 sample_heap) (sample_add key2 0) = Some (bc2, mc2, w2, e2) /\
    re_bestpath e1 = re_bestpath e2 /\
    forall p, (exists i, re_multipaths e1 !! i = Some p) <-> (exists i, re_multipaths e2 !! i = Some p).
Proof.
  apply (best_path_deterministic false false sample_mps sample_bps 64 [1; 2]%positive [2; 1]%positive
           (sample_store2 sample_heap) (sample_add key2 0) sample_mps_built sample_bps_built two_peers_selectable).
  - apply Permutation_swap.
  - intros p [->|[->|[]%elem_of_nil]%elem_of_cons]%elem_of_cons; by repeat constructor.
  - intros p q [->|[->|[]%elem_of_nil]%elem_of_cons]%elem_of_cons
      [->|[->|[]%elem_of_nil]%elem_of_cons]%elem_of_cons Hne; try done; by left.
Defined.

Lemma run_best (run : option (bool * bool * Heap * RibEntry)) b :
  (fun x => re_bestpath (snd x)) <$> run = Some b ->
  exists bc mc w' e', run = Some (bc, mc, w', e') /\ re_bestpath e' = b.
Proof. destruct run as [[[[bc mc] w'] e']|]; [|done]. intros [= <-]. by exists bc, mc, w', e'. Qed.

(** The outcome can depend on the order of iteration: two paths of one peer with the same
    next hop, received with different path ids, are told apart by no tie breaker, and the
    best path is the one the hash map yields first. *)
Theorem best_path_depends_on_order :
  exists w e it1 it2 bc1 mc1 w1 e1 bc2 mc2 w2 e2,
    selectable w e it1 /\ it2 ≡ₚ it1 /\
    selectBestPath sample_mps sample_bps false 64 None it1 w e = Some (bc1, mc1, w1, e1) /\
    selectBestPath sample_mps sample_bps false 64 None it2 w e = Some (bc2, mc2, w2, e2) /\
    re_bestpath e1 = Some 1%positive /\ re_bestpath e2 = Some 2%positive.
Proof.
  destruct (run_best (selectBestPath sample_mps sample_bps false 64 None [1; 2]%positive
              (sample_store2 tied_heap) (sample_add sample_key 1)) (Some 1%positive))
    as (bc1 & mc1 & w1 & e1 & E1 & B1); [vm_compute; reflexivity|].
  destruct (run_best (selectBestPath sample_mps sample_bps false 64 None [2; 1]%positive
              (sample_store2 tied_heap) (sample_add sample_key 1)) (Some 2%positive))
    as (bc2 & mc2 & w2 & e2 & E2 & B2); [vm_compute; reflexivity|].
  exists (sample_store2 tied_heap), (sample_add sample_key 1), [1; 2]%positive, [2; 1]%positive,
    bc1, mc1, w1, e1, bc2, mc2, w2, e2.
  exact (conj tied_selectable (conj (Permutation_swap _ _ _) (conj E1 (conj E2 (conj B1 B2))))).
Qed.

(** The weights of two paths: 100 Gbps and 100 kbps *)
Definition weighted_heap (p : ptr) : RouteInfo :=
  mkRouteInfo (IPV4 [10; 1; 0; 0], 16) (sample_peer 1 1) (1%positive, sample_path 100 0 [65001])
    0 (Some (Z.pos p)) true EXTERNAL None
    (Some (if bool_decide (p = 1%positive) then f32_of_Z 12500000000 else f32_of_Z 12500)) None.

Lemma ucmp_weight_overflow_witness :
  (exists tc e', accumulateAggregateWeightsAndTopoInfo [1; 2]%positive None None
     (sample_store2 weighted_heap) sample_entry = Some (f32_of_Z 1, tc, e')) /\
  ucmpWeightOf (f32_of_Z 1) (weighted_heap 1%positive) = None.
Proof.
  apply (ucmp_weight_overflow [1; 2]%positive None (sample_store2 weighted_heap) sample_entry
           2%positive 1%positive); [right; left|vm_compute; reflexivity..].
Defined.

(** One path of 100 Gbps *)
Lemma ucmp_weights_proportional_witness :
  let e := set_weights (set_aggregates (f32_of_Z 12500000000) (S754_zero false) None newWeights) sample_entry in
  exists m v mp, buildAndNormalizeWeightedNexthops [1]%positive true 64 BpsPerGBps
      (sample_store2 weighted_heap) e = Some (m, set_weights v (set_multipaths mp e)) /\
    m !! IPV4 [10; 0; 0; 1] = Some 1.
Proof.
  intros e.
  destruct (ucmp_weights_proportional [1]%positive 64 BpsPerGBps (sample_store2 weighted_heap) (fun _ => 100) e)
    as (m & v & mp & E & _ & Hm & _).
  - vm_compute. reflexivity.
  - intros p ->%list_elem_of_singleton. vm_compute. reflexivity.
  - intros p ->%list_elem_of_singleton. by eexists.
  - apply (bool_decide_unpack _). vm_compute. reflexivity.
  - vm_compute. reflexivity.
  - vm_compute. reflexivity.
  - vm_compute. discriminate.
  - destruct (Hm (IPV4 [10; 0; 0; 1]) 100) as (x & Hx & Hy); [vm_compute; reflexivity|lia|].
    exists m, v, mp. split; [exact E|]. rewrite Hx. f_equal.
    change (100 = 100 * x) in Hy. lia.
Defined.
