(* ===== verification/DeDuplicator.v ===== *)
(** * Shared attribute containers

    lib/DeDuplicator.h: a path keeps its AS path, communities and the like as
    handles on immutable objects that a global table keeps unique, so that equal
    containers are one object and comparing handles compares contents.  The empty
    container is the null handle, and a commutative container is sorted first. *)

From stdpp Require Import list sorting relations.
From S2P Require Import Prelude.
Local Open Scope nat_scope.

Section DeDuplicator.
Context {X : Type} `{EqDecision X} (R : relation X) `{!RelDecision R}.
Variable commutative : bool.

(** [DeDuplicatedAttribute::preprocessPtr]: the object to track, or null. *)
Definition preprocessPtr (obj : list X) : option (list X) :=
  match obj with
  | [] => None
  | _ => Some (if commutative then merge_sort R obj else obj)
  end.

(** [tracked_] with the addresses of its objects, and the handles clients hold. *)
Record DeDuplicator := mkDeDuplicator {
  tracked_ : list (nat * list X);
  nextAddress : nat;
  handles : list (option nat)
}.

Definition noHandles : DeDuplicator := mkDeDuplicator [] 0 [].

Definition find_tracked (obj : list X) (l : list (nat * list X)) : option nat :=
  fst <$> head (filter (fun e => snd e = obj) l).

(** [DeDuplicator::get] *)
Definition dedup_get (object : option (list X)) (d : DeDuplicator) : option nat * DeDuplicator :=
  match object with
  | None => (None, d)
  | Some obj =>
      match find_tracked obj (tracked_ d) with
      | Some a => (Some a, d)
      | None =>
          (Some (nextAddress d),
           mkDeDuplicator ((nextAddress d, obj) :: tracked_ d) (S (nextAddress d)) (handles d))
      end
  end.

(** A client constructs an attribute from a container. *)
Definition newAttribute (obj : list X) (d : DeDuplicator) : DeDuplicator :=
  let '(h, d) := dedup_get (preprocessPtr obj) d in
  mkDeDuplicator (tracked_ d) (nextAddress d) (h :: handles d).

(** Handle [i] is copied, or destroyed. *)
Definition copyAttribute (i : nat) (d : DeDuplicator) : option DeDuplicator :=
  h ← handles d !! i;
  Some (mkDeDuplicator (tracked_ d) (nextAddress d) (h :: handles d)).
Definition destroyAttribute (i : nat) (d : DeDuplicator) : DeDuplicator :=
  mkDeDuplicator (tracked_ d) (nextAddress d) (delete i (handles d)).

(** [DeDuplicator::clean]: forgets the objects only the table refers to. *)
Definition clean (d : DeDuplicator) : DeDuplicator :=
  mkDeDuplicator (filter (fun e => Some (fst e) ∈ handles d) (tracked_ d)) (nextAddress d)
    (handles d).

(** [DeDuplicatedAttribute::get] *)
Definition attribute_get (h : option nat) (d : DeDuplicator) : list X :=
  match h with
  | None => []
  | Some a => default [] (snd <$> head (filter (fun e => fst e = a) (tracked_ d)))
  end.

Inductive dedup_step (d : DeDuplicator) : DeDuplicator -> Prop :=
| step_new obj : dedup_step d (newAttribute obj d)
| step_copy i d' : copyAttribute i d = Some d' -> dedup_step d d'
| step_destroy i : dedup_step d (destroyAttribute i d)
| step_clean : dedup_step d (clean d).

(** ** The table keeps objects unique *)

Record unique (d : DeDuplicator) : Prop := {
  uq_addr : NoDup (fst <$> tracked_ d);
  uq_obj : NoDup (snd <$> tracked_ d);
  uq_next : forall a, a ∈ fst <$> tracked_ d -> a < nextAddress d;
  uq_live : forall a, Some a ∈ handles d -> a ∈ fst <$> tracked_ d;
  uq_nonempty : [] ∉ snd <$> tracked_ d
}.

Lemma find_tracked_Some obj l a :
  find_tracked obj l = Some a -> (a, obj) ∈ l.
Proof.
  unfold find_tracked. intros Hf.
  destruct (filter (fun e => snd e = obj) l) as [|[b o] t] eqn:E; simplify_eq/=.
  assert (Hin : (a, o) ∈ filter (fun e => snd e = obj) l) by (rewrite E; left).
  apply list_elem_of_filter in Hin as [Ho Hin]. simpl in Ho. by subst.
Qed.

Lemma find_tracked_None obj l :
  find_tracked obj l = None -> obj ∉ snd <$> l.
Proof.
  unfold find_tracked. intros Hf Hin. apply list_elem_of_fmap in Hin as ([a o] & -> & Hin).
  assert (Hin' : (a, o) ∈ filter (fun e => snd e = snd (a, o)) l)
    by (by apply list_elem_of_filter).
  destruct (filter _ l); [by apply elem_of_nil in Hin'|done].
Qed.

Lemma preprocess_nonempty obj o : preprocessPtr obj = Some o -> o <> [].
Proof.
  destruct obj as [|x obj]; simpl; [done|]. intros [= <-]. destruct commutative; [|done].
  intros Hs. pose proof (merge_sort_Permutation R (x :: obj)) as Hp. rewrite Hs in Hp.
  by apply Permutation_nil_cons in Hp.
Qed.

Lemma unique_new obj d : unique d -> unique (newAttribute obj d).
Proof.
  intros [Ha Ho Hn Hl He]. unfold newAttribute, dedup_get.
  destruct (preprocessPtr obj) as [o|] eqn:Hp; [destruct (find_tracked o (tracked_ d)) as [a|] eqn:Hf|].
  - apply find_tracked_Some in Hf. split; simpl; try done. intros b Hb.
    apply elem_of_cons in Hb as [[= ->]|Hb]; [|by apply Hl].
    apply list_elem_of_fmap. by exists (a, o).
  - apply find_tracked_None in Hf. split; simpl.
    + constructor; [|done]. intros Hin. apply Hn in Hin. lia.
    + by constructor.
    + intros a Hin. apply elem_of_cons in Hin as [->|Hin]; [lia|]. apply Hn in Hin. lia.
    + intros a Hin. apply elem_of_cons in Hin as [[= ->]|Hin]; [left|right; by apply Hl].
    + apply not_elem_of_cons. split; [|done]. apply preprocess_nonempty in Hp. congruence.
  - split; simpl; try done. intros a Hin. apply elem_of_cons in Hin as [|Hin]; [done|by apply Hl].
Qed.

Lemma unique_clean d : unique d -> unique (clean d).
Proof.
  intros [Ha Ho Hn Hl He].
  pose proof (sublist_filter (fun e => Some (fst e) ∈ handles d) (tracked_ d)) as Hs.
  pose proof (fmap_sublist fst _ _ Hs) as Hs1. pose proof (fmap_sublist snd _ _ Hs) as Hs2.
  split; simpl; eauto using sublist_NoDup, elem_of_sublist.
  intros a Hin. pose proof (Hl a Hin) as Ht. apply list_elem_of_fmap in Ht as (e & -> & Ht).
  apply list_elem_of_fmap. exists e. split; [done|]. by apply list_elem_of_filter.
Qed.

Lemma unique_step d d' : unique d -> dedup_step d d' -> unique d'.
Proof.
  intros Hu Hs. destruct Hs as [obj|i d' Hc|i|]; [by apply unique_new| | |by apply unique_clean].
  - unfold copyAttribute in Hc. destruct (handles d !! i) as [h|] eqn:Hh; simplify_eq/=.
    destruct Hu. split; simpl; try done. intros a [<-|Hin]%elem_of_cons; [|auto].
    apply uq_live0. by eapply list_elem_of_lookup_2.
  - destruct Hu. split; simpl; try done. intros a Hin. apply uq_live0.
    eapply elem_of_sublist; [exact Hin|apply sublist_delete].
Qed.

Lemma unique_reachable d : rtc dedup_step noHandles d -> unique d.
Proof.
  intros Hr. assert (H0 : unique noHandles)
    by (split; simpl; [constructor|constructor|set_solver|set_solver|set_solver]).
  revert H0. induction Hr as [|d d' d'' Hs Hr IH]; intros Hu; [done|].
  by eapply IH, unique_step.
Qed.

Lemma tracked_get d a :
  unique d -> a ∈ fst <$> tracked_ d -> (a, attribute_get (Some a) d) ∈ tracked_ d.
Proof.
  intros [Ha _ _ _ _] Hin. apply list_elem_of_fmap in Hin as ([b o] & -> & Hin). simpl.
  assert (Hin' : (b, o) ∈ filter (fun e => fst e = b) (tracked_ d))
    by (by apply list_elem_of_filter).
  destruct (filter (fun e => fst e = b) (tracked_ d)) as [|[b' o'] t] eqn:E;
    [by apply elem_of_nil in Hin'|]. simpl.
  assert (Hin2 : (b', o') ∈ filter (fun e => fst e = b) (tracked_ d)) by (rewrite E; left).
  by apply list_elem_of_filter in Hin2 as [<- ?].
Qed.

Lemma tracked_same d a b :
  unique d -> a ∈ fst <$> tracked_ d -> b ∈ fst <$> tracked_ d ->
  attribute_get (Some a) d = attribute_get (Some b) d -> a = b.
Proof.
  intros Hu Ha Hb Heq. pose proof (tracked_get d a Hu Ha) as Ta.
  pose proof (tracked_get d b Hu Hb) as Tb. rewrite <- Heq in Tb.
  apply list_elem_of_lookup in Ta as [i Hi]. apply list_elem_of_lookup in Tb as [j Hj].
  assert (i = j) as ->; [|congruence].
  apply (NoDup_lookup _ _ _ (attribute_get (Some a) d) (uq_obj d Hu));
    rewrite list_lookup_fmap; [by rewrite Hi|by rewrite Hj].
Qed.

Lemma tracked_not_empty d a :
  unique d -> a ∈ fst <$> tracked_ d -> attribute_get (Some a) d <> [].
Proof.
  intros Hu Ha He. apply (uq_nonempty d Hu). apply list_elem_of_fmap.
  exists (a, attribute_get (Some a) d). split; [done|by apply tracked_get].
Qed.

(** However clients create, copy and drop attributes, and however often
    the table is cleaned in between, two handles in use are equal exactly when
    the containers they stand for are: comparing pointers compares contents. *)
Theorem handles_compare_contents (d : DeDuplicator) (h1 h2 : option nat)
    (Hr : rtc dedup_step noHandles d) (H1 : h1 ∈ handles d) (H2 : h2 ∈ handles d) :
  h1 = h2 <-> attribute_get h1 d = attribute_get h2 d.
Proof.
  pose proof (unique_reachable d Hr) as Hu. split; [by intros ->|]. intros Heq.
  destruct h1 as [a|], h2 as [b|]; [f_equal| | |done].
  - by apply (tracked_same d a b Hu); [apply Hu..|].
  - by apply (tracked_not_empty d a Hu (uq_live d Hu a H1)) in Heq.
  - by destruct (tracked_not_empty d b Hu (uq_live d Hu b H2)).
Qed.

(** A new attribute stands for its container, sorted if it is commutative. *)
Lemma newAttribute_get obj d :
  unique d ->
  exists h hs, handles (newAttribute obj d) = h :: hs /\
    attribute_get h (newAttribute obj d) = default [] (preprocessPtr obj).
Proof.
  intros Hu. pose proof (unique_new obj d Hu) as Hu'. unfold newAttribute, dedup_get in *.
  destruct (preprocessPtr obj) as [o|]; [|by eexists _, _].
  destruct (find_tracked o (tracked_ d)) as [a|] eqn:Hf; eexists _, _; (split; [reflexivity|]).
  - apply find_tracked_Some in Hf.
    assert (Ha : a ∈ fst <$> tracked_ d) by (apply list_elem_of_fmap; by exists (a, o)).
    pose proof (tracked_get d a Hu Ha) as Ht. simpl in Ht |- *.
    apply list_elem_of_lookup in Hf as [i Hi]. apply list_elem_of_lookup in Ht as [j Hj].
    assert (i = j) as ->; [|congruence].
    apply (NoDup_lookup _ _ _ a (uq_addr d Hu)); rewrite list_lookup_fmap;
      [by rewrite Hi|by rewrite Hj].
  - simpl. rewrite filter_cons_True by done. done.
Qed.
End DeDuplicator.

(** Commutative containers with the same elements are the same attribute. *)
Lemma preprocess_permutation {X} `{EqDecision X} (R : relation X) `{!RelDecision R, !Total R,
    !Transitive R, !AntiSymm (=) R} (l1 l2 : list X) :
  preprocessPtr R true l1 = preprocessPtr R true l2 <-> l1 ≡ₚ l2.
Proof.
  assert (Hs : merge_sort R l1 = merge_sort R l2 <-> l1 ≡ₚ l2).
  { split; intros H.
    - by rewrite <- (merge_sort_Permutation R l1), H, merge_sort_Permutation.
    - apply (Sorted_unique R); [apply (Sorted_merge_sort _)..|].
      by rewrite !merge_sort_Permutation. }
  destruct l1 as [|x l1], l2 as [|y l2]; simpl; [done|..].
  - split; [done|]. by intros ?%Permutation_nil_cons.
  - split; [done|]. by intros ?%symmetry%Permutation_nil_cons.
  - rewrite <- Hs. split; [by intros [=]|by intros ->].
Qed.

Lemma handles_compare_contents_witness :
  let d := newAttribute Z.le true [3%Z; 1%Z] (newAttribute Z.le true [1%Z; 3%Z] noHandles) in
  handles d = [Some 0; Some 0] /\ attribute_get (Some 0) d = attribute_get (Some 0) d.
Proof.
  split; [reflexivity|]. apply (handles_compare_contents Z.le true); [|by left|by left|reflexivity].
  eapply rtc_l; [apply (step_new _ _ _ [1%Z; 3%Z])|].
  eapply rtc_l; [apply (step_new _ _ _ [3%Z; 1%Z])|]. apply rtc_refl.
Defined.
