(* ===== verification/PathFields.v ===== *)
(** * The attributes of a path

    common/BgpPath.h and BgpPath.cpp with the structures of lib/BgpStructs.h they
    are made of: the attributes policies and the Adj-RIBs read and change, the
    extended communities and the link bandwidth carried in one of them.  A
    deduplicated container is its contents (DeDuplicator.v); a [float] is its
    IEEE 754 bit pattern. *)

From stdpp Require Import gmap sorting strings pretty.
From Stdlib Require Import SpecFloat.
From S2P Require Import Prelude BgpException Folly BgpStructs RouteFilter RouteInfo Ucmp DeDuplicator.

(** ** Equality and order of the elements *)

#[export] Instance BgpAttrAsPathSegment_eq_dec : EqDecision BgpAttrAsPathSegment.
Proof. solve_decision. Defined.
#[export] Instance BgpAttrCommunity_eq_dec : EqDecision BgpAttrCommunity.
Proof. solve_decision. Defined.
#[export] Instance BgpAttrExtCommunity_eq_dec : EqDecision BgpAttrExtCommunity.
Proof. solve_decision. Defined.

(** [operator<] of the communities, as the order it comes from: the two numbers
    lexicographically. *)
Definition word_pair_le (a b : Z * Z) : Prop := a.1 < b.1 \/ (a.1 = b.1 /\ a.2 <= b.2).
Definition comm_le (a b : BgpAttrCommunity) : Prop :=
  word_pair_le (comm_asn a, comm_value a) (comm_asn b, comm_value b).
Definition ext_le (a b : BgpAttrExtCommunity) : Prop :=
  word_pair_le (firstWord a, secondWord a) (firstWord b, secondWord b).

#[export] Instance word_pair_le_dec : RelDecision word_pair_le.
Proof. intros a b. unfold word_pair_le. apply _. Defined.
#[export] Instance comm_le_dec : RelDecision comm_le.
Proof. intros a b. unfold comm_le. apply _. Defined.
#[export] Instance ext_le_dec : RelDecision ext_le.
Proof. intros a b. unfold ext_le. apply _. Defined.

(** ** Floats by their bits *)

Definition f32_of_bits (w : Z) : spec_float :=
  let s := Z.testbit w 31 in
  let e := Z.land (Z.shiftr w 23) 0xff in
  let m := Z.land w 0x7fffff in
  if e =? 0xff then (if m =? 0 then S754_infinity s else S754_nan)
  else if e =? 0 then
    match m with Z.pos p => S754_finite s p (-149) | _ => S754_zero s end
  else match m + 2 ^ 23 with Z.pos p => S754_finite s p (e - 150) | _ => S754_nan end.

Definition f32_to_bits (x : spec_float) : Z :=
  let sign (s : bool) := if s then 2 ^ 31 else 0 in
  match x with
  | S754_zero s => sign s
  | S754_infinity s => sign s + 0x7f800000
  | S754_nan => 0x7fc00000
  | S754_finite s m e =>
      sign s + (if Z.pos m <? 2 ^ 23 then Z.pos m else (e + 149) * 2 ^ 23 + Z.pos m)
  end.

Definition FLT_MAX : Z := 0x7f7fffff.

Definition f32_ltb (a b : Z) : bool := SFltb (f32_of_bits a) (f32_of_bits b).
Definition f32_eqb (a b : Z) : bool := SFeqb (f32_of_bits a) (f32_of_bits b).

(** ** Extended communities: [BgpExtCommunityBaseTypeC] and its subclasses *)

Definition kBgpExtCommASNonTransitiveType : Z := 0x40.
Definition kBgpExtCommASTransitiveType : Z := 0x00.
Definition kBgpExtCommASTransitiveType2 : Z := 0x02.
Definition kBgpExtCommIPv4TransitiveType : Z := 0x01.
Definition kBgpExtCommIPv4NonTransitiveType : Z := 0x41.
Definition kBgpExtCommOpaqueTransitiveType : Z := 0x03.
Definition kBgpExtCommOpaqueNonTransitiveType : Z := 0x43.
Definition LINK_BW_COMMUNITY_SUBTYPE : Z := 0x4.
Definition ROUTE_TARGET_COMMUNITY_SUBTYPE : Z := 0x2.
Definition ROUTE_ORIGIN_COMMUNITY_SUBTYPE : Z := 0x3.

Definition ext_getType (c : BgpAttrExtCommunity) : Z := uint 8 (Z.shiftr (firstWord c) 24).

(** The types whose class overrides [getSubType]. *)
Definition hasSubType (type : Z) : bool :=
  bool_decide (type ∈ [kBgpExtCommASNonTransitiveType; kBgpExtCommASTransitiveType;
    kBgpExtCommASTransitiveType2; kBgpExtCommIPv4NonTransitiveType;
    kBgpExtCommIPv4TransitiveType; kBgpExtCommOpaqueNonTransitiveType;
    kBgpExtCommOpaqueTransitiveType]).

Definition getSubType (c : BgpAttrExtCommunity) : option Z :=
  if hasSubType (ext_getType c) then Some (uint 8 (Z.shiftr (firstWord c) 16)) else None.

Definition isTransitive (c : BgpAttrExtCommunity) : bool := Z.land (ext_getType c) 0x40 =? 0.

Definition isRouteTarget (c : BgpAttrExtCommunity) : bool :=
  (ext_getType c <=? kBgpExtCommASTransitiveType2) &&
  bool_decide (getSubType c = Some ROUTE_TARGET_COMMUNITY_SUBTYPE).
Definition isRouteOrigin (c : BgpAttrExtCommunity) : bool :=
  (ext_getType c <=? kBgpExtCommASTransitiveType2) &&
  bool_decide (getSubType c = Some ROUTE_ORIGIN_COMMUNITY_SUBTYPE).
Definition isLinkBandwidthCommunity (c : BgpAttrExtCommunity) : bool :=
  bool_decide (getSubType c = Some LINK_BW_COMMUNITY_SUBTYPE).
Definition isNonTransitiveLinkBandwidthCommunity (c : BgpAttrExtCommunity) : bool :=
  (ext_getType c =? kBgpExtCommASNonTransitiveType) &&
  bool_decide (getSubType c = Some LINK_BW_COMMUNITY_SUBTYPE).
Definition isTransitiveLinkBandwidthCommunity (c : BgpAttrExtCommunity) : bool :=
  (ext_getType c =? kBgpExtCommASTransitiveType) &&
  bool_decide (getSubType c = Some LINK_BW_COMMUNITY_SUBTYPE).

(** [BgpExtCommunityLinkBandWidthTypeC::rawValueHigh] *)
Definition rawValueHigh (asn : Z) : Z :=
  Z.lor (Z.lor (Z.shiftl kBgpExtCommASNonTransitiveType 24)
           (Z.shiftl LINK_BW_COMMUNITY_SUBTYPE 16)) asn.

(** [BgpExtCommunityAsSpecificExtTypeC::getAsn] *)
Definition ext_getAsn (c : BgpAttrExtCommunity) : Z := Z.land (firstWord c) 0xffff.

#[global] Arguments isNonTransitiveLinkBandwidthCommunity : simpl never.
#[global] Arguments isTransitiveLinkBandwidthCommunity : simpl never.
#[global] Arguments rawValueHigh : simpl never.
#[global] Arguments f32_ltb : simpl never.

(** ** The path *)

(** [BgpAttributesC] *)
Record BgpAttributesC := mkAttributesC {
  ac_origin : Z;
  ac_asPath : list BgpAttrAsPathSegment;
  ac_med : Z;
  ac_isMedSet : bool;
  ac_localPref : option Z;
  ac_atomicAggregate : bool;
  ac_aggregator : Z * IPAddress;
  ac_communities : list BgpAttrCommunity;
  ac_originatorId : Z;
  ac_clusterList : list Z;
  ac_extCommunities : list BgpAttrExtCommunity;
  ac_weight : Z
}.

(** [BgpPathFields], with the fields of [BgpPathC] *)
Record BgpPathFields := mkPathFields {
  pf_attrs : BgpAttributesC;
  pf_nexthop : IPAddress;
  pf_topologyInfo : option (gmap string Z);
  pf_backupAddr : option IPAddress
}.

Definition BGP_ORIGIN_IGP : Z := 0.
Definition BGP_ORIGIN_EGP : Z := 1.
Definition BGP_ORIGIN_INCOMPLETE : Z := 2.

Definition defaultAttributesC : BgpAttributesC :=
  mkAttributesC BGP_ORIGIN_INCOMPLETE [] 0 false None false (0, IPUnset) [] 0 [] [] 0.
Definition defaultPathFields : BgpPathFields :=
  mkPathFields defaultAttributesC IPUnset None None.

Definition mapAttrs (f : BgpAttributesC -> BgpAttributesC) (p : BgpPathFields) : BgpPathFields :=
  mkPathFields (f (pf_attrs p)) (pf_nexthop p) (pf_topologyInfo p) (pf_backupAddr p).

(** ** Setters *)

Definition setOrigin (v : Z) : BgpPathFields -> BgpPathFields := mapAttrs (fun a =>
  mkAttributesC v (ac_asPath a) (ac_med a) (ac_isMedSet a) (ac_localPref a) (ac_atomicAggregate a)
    (ac_aggregator a) (ac_communities a) (ac_originatorId a) (ac_clusterList a)
    (ac_extCommunities a) (ac_weight a)).
Definition setAsPath (v : list BgpAttrAsPathSegment) : BgpPathFields -> BgpPathFields := mapAttrs (fun a =>
  mkAttributesC (ac_origin a) v (ac_med a) (ac_isMedSet a) (ac_localPref a) (ac_atomicAggregate a)
    (ac_aggregator a) (ac_communities a) (ac_originatorId a) (ac_clusterList a)
    (ac_extCommunities a) (ac_weight a)).
Definition setMed (v : Z) : BgpPathFields -> BgpPathFields := mapAttrs (fun a =>
  mkAttributesC (ac_origin a) (ac_asPath a) v true (ac_localPref a) (ac_atomicAggregate a)
    (ac_aggregator a) (ac_communities a) (ac_originatorId a) (ac_clusterList a)
    (ac_extCommunities a) (ac_weight a)).
Definition setLocalPref (v : option Z) : BgpPathFields -> BgpPathFields := mapAttrs (fun a =>
  mkAttributesC (ac_origin a) (ac_asPath a) (ac_med a) (ac_isMedSet a) v (ac_atomicAggregate a)
    (ac_aggregator a) (ac_communities a) (ac_originatorId a) (ac_clusterList a)
    (ac_extCommunities a) (ac_weight a)).
Definition setAtomicAggregate (v : bool) : BgpPathFields -> BgpPathFields := mapAttrs (fun a =>
  mkAttributesC (ac_origin a) (ac_asPath a) (ac_med a) (ac_isMedSet a) (ac_localPref a) v
    (ac_aggregator a) (ac_communities a) (ac_originatorId a) (ac_clusterList a)
    (ac_extCommunities a) (ac_weight a)).
Definition setAggregator (v : Z * IPAddress) : BgpPathFields -> BgpPathFields := mapAttrs (fun a =>
  mkAttributesC (ac_origin a) (ac_asPath a) (ac_med a) (ac_isMedSet a) (ac_localPref a)
    (ac_atomicAggregate a) v (ac_communities a) (ac_originatorId a) (ac_clusterList a)
    (ac_extCommunities a) (ac_weight a)).
Definition setCommunities (v : list BgpAttrCommunity) : BgpPathFields -> BgpPathFields := mapAttrs (fun a =>
  mkAttributesC (ac_origin a) (ac_asPath a) (ac_med a) (ac_isMedSet a) (ac_localPref a)
    (ac_atomicAggregate a) (ac_aggregator a) (default [] (preprocessPtr comm_le true v))
    (ac_originatorId a) (ac_clusterList a) (ac_extCommunities a) (ac_weight a)).
Definition setOriginatorId (v : Z) : BgpPathFields -> BgpPathFields := mapAttrs (fun a =>
  mkAttributesC (ac_origin a) (ac_asPath a) (ac_med a) (ac_isMedSet a) (ac_localPref a)
    (ac_atomicAggregate a) (ac_aggregator a) (ac_communities a) v (ac_clusterList a)
    (ac_extCommunities a) (ac_weight a)).
Definition setClusterList (v : list Z) : BgpPathFields -> BgpPathFields := mapAttrs (fun a =>
  mkAttributesC (ac_origin a) (ac_asPath a) (ac_med a) (ac_isMedSet a) (ac_localPref a)
    (ac_atomicAggregate a) (ac_aggregator a) (ac_communities a) (ac_originatorId a) v
    (ac_extCommunities a) (ac_weight a)).
Definition setExtCommunities (v : list BgpAttrExtCommunity) : BgpPathFields -> BgpPathFields := mapAttrs (fun a =>
  mkAttributesC (ac_origin a) (ac_asPath a) (ac_med a) (ac_isMedSet a) (ac_localPref a)
    (ac_atomicAggregate a) (ac_aggregator a) (ac_communities a) (ac_originatorId a)
    (ac_clusterList a) (default [] (preprocessPtr ext_le true v)) (ac_weight a)).
Definition setWeight (v : Z) : BgpPathFields -> BgpPathFields := mapAttrs (fun a =>
  mkAttributesC (ac_origin a) (ac_asPath a) (ac_med a) (ac_isMedSet a) (ac_localPref a)
    (ac_atomicAggregate a) (ac_aggregator a) (ac_communities a) (ac_originatorId a)
    (ac_clusterList a) (ac_extCommunities a) v).
Definition setNexthop (v : IPAddress) (p : BgpPathFields) : BgpPathFields :=
  mkPathFields (pf_attrs p) v (pf_topologyInfo p) (pf_backupAddr p).
Definition setTopologyInfo (v : option (gmap string Z)) (p : BgpPathFields) : BgpPathFields :=
  mkPathFields (pf_attrs p) (pf_nexthop p) v (pf_backupAddr p).
Definition setBackupAddr (v : option IPAddress) (p : BgpPathFields) : BgpPathFields :=
  mkPathFields (pf_attrs p) (pf_nexthop p) (pf_topologyInfo p) v.

(** ** Getters *)

Definition getOrigin (p : BgpPathFields) : Z := ac_origin (pf_attrs p).
Definition getAsPath (p : BgpPathFields) : list BgpAttrAsPathSegment := ac_asPath (pf_attrs p).
Definition getCommunities (p : BgpPathFields) : list BgpAttrCommunity := ac_communities (pf_attrs p).
Definition getExtCommunities (p : BgpPathFields) : list BgpAttrExtCommunity :=
  ac_extCommunities (pf_attrs p).
Definition getWeight (p : BgpPathFields) : Z := ac_weight (pf_attrs p).

Section Med.
Context `{RibContext}.

(** [BgpPath::getMed]: an unset MED reads as the worst or the best one. *)
Definition pf_getMed (p : BgpPathFields) : Z :=
  if ac_isMedSet (pf_attrs p) then ac_med (pf_attrs p) else getMedNotSetValue.

Definition unSetMed : BgpPathFields -> BgpPathFields := mapAttrs (fun a =>
  mkAttributesC (ac_origin a) (ac_asPath a) getMedNotSetValue false (ac_localPref a)
    (ac_atomicAggregate a) (ac_aggregator a) (ac_communities a) (ac_originatorId a)
    (ac_clusterList a) (ac_extCommunities a) (ac_weight a)).
End Med.

(** [BgpPath::getBgpAsPathLen] and [getBgpAsPathLenWithConfed] *)
Definition getBgpAsPathLen (p : BgpPathFields) : Z :=
  fold_left (fun len segment => len + segmentLen segment) (getAsPath p) 0.
Definition getBgpAsPathLenWithConfed (p : BgpPathFields) : Z :=
  fold_left (fun len segment => len + segmentLenWithConfed segment) (getAsPath p) 0.

(** ** The link bandwidth community *)

Definition hasNonTransitiveLbwExtCommunity (p : BgpPathFields) : bool :=
  existsb isNonTransitiveLinkBandwidthCommunity (getExtCommunities p).

Definition pruneNonTransitiveLbwExtCommunity (p : BgpPathFields) : BgpPathFields :=
  if existsb isNonTransitiveLinkBandwidthCommunity (getExtCommunities p) then
    setExtCommunities
      (List.filter (fun c => negb (isNonTransitiveLinkBandwidthCommunity c)) (getExtCommunities p)) p
  else p.

Definition pruneTransitiveLbwExtCommunity (p : BgpPathFields) : BgpPathFields :=
  if existsb isTransitiveLinkBandwidthCommunity (getExtCommunities p) then
    setExtCommunities
      (List.filter (fun c => negb (isTransitiveLinkBandwidthCommunity c)) (getExtCommunities p)) p
  else p.

(** [setNonTransitiveRawLbwExtCommunity]; [setNonTransitiveLbwExtCommunity] is the
    same on the bits of the float. *)
Definition setNonTransitiveRawLbwExtCommunity (asn rawLbw : Z) (p : BgpPathFields) : BgpPathFields :=
  let p := pruneNonTransitiveLbwExtCommunity p in
  setExtCommunities (getExtCommunities p ++ [mkExtCommunity (rawValueHigh (uint 16 asn)) rawLbw]) p.
Definition setNonTransitiveLbwExtCommunity (asn lbwValue : Z) (p : BgpPathFields) : BgpPathFields :=
  setNonTransitiveRawLbwExtCommunity asn lbwValue p.

(** The body of the loop of [getNonTransitiveLbwExtCommunity]. *)
Definition lowerLbw (acc : option BgpAttrExtCommunity * Z) (c : BgpAttrExtCommunity)
    : option BgpAttrExtCommunity * Z :=
  if isNonTransitiveLinkBandwidthCommunity c then
    let lbwValue := secondWord c in
    if f32_ltb lbwValue 0 || f32_ltb acc.2 lbwValue then acc else (Some c, lbwValue)
  else acc.

Definition getNonTransitiveLbwExtCommunity (p : BgpPathFields) : option BgpAttrExtCommunity :=
  (fold_left lowerLbw (getExtCommunities p) (None, FLT_MAX)).1.

(** [getNonTransitiveRawLbw]; the float of [getNonTransitiveLbw] has the same bits. *)
Definition getNonTransitiveRawLbwValue (p : BgpPathFields) : option Z :=
  secondWord <$> getNonTransitiveLbwExtCommunity p.
Definition getNonTransitiveRawLbw (p : BgpPathFields) : option (Z * Z) :=
  (fun c => (ext_getAsn c, secondWord c)) <$> getNonTransitiveLbwExtCommunity p.

(** ** The AS path as a string *)

Definition addToPath (asPathsStr delta : string) : string :=
  if decide (asPathsStr = "") then delta else asPathsStr +:+ "_" +:+ delta.
Definition joinAsns (asns : list Z) : string := String.concat "_" (pretty <$> asns).
Definition inParens (isConfed : bool) (s : string) : string :=
  if isConfed then "(" +:+ s +:+ ")" else s.

Definition addAsInSet (asPathsStr : string) (asSet : list Z) (isConfed : bool) : string :=
  addToPath asPathsStr ("{" +:+ inParens isConfed (joinAsns asSet) +:+ "}").
Definition addAsInSequence (asPathsStr : string) (asSequence : list Z) (isConfed : bool) : string :=
  addToPath asPathsStr (inParens isConfed (joinAsns asSequence)).

Definition addSegmentStr (asPathsStr : string) (asSeg : BgpAttrAsPathSegment) : string :=
  if nonempty (asSet asSeg) then addAsInSet asPathsStr (asSet asSeg) false
  else if nonempty (asSequence asSeg) then addAsInSequence asPathsStr (asSequence asSeg) false
  else if nonempty (asConfedSet asSeg) then addAsInSet asPathsStr (asConfedSet asSeg) true
  else if nonempty (asConfedSequence asSeg) then
    addAsInSequence asPathsStr (asConfedSequence asSeg) true
  else asPathsStr.

Definition getFullBgpAsPathAsString (p : BgpPathFields) : list string :=
  [fold_left addSegmentStr (getAsPath p) ""].

(** ** Sorting *)

#[export] Instance comm_le_trans : Transitive comm_le.
Proof. intros [] [] []. unfold comm_le, word_pair_le. simpl. lia. Qed.
#[export] Instance comm_le_total : Total comm_le.
Proof. intros [] []. unfold comm_le, word_pair_le. simpl. lia. Qed.
#[export] Instance comm_le_antisymm : AntiSymm (=) comm_le.
Proof. intros [] []. unfold comm_le, word_pair_le. simpl. intros. f_equal; lia. Qed.
#[export] Instance ext_le_trans : Transitive ext_le.
Proof. intros [] [] []. unfold ext_le, word_pair_le. simpl. lia. Qed.
#[export] Instance ext_le_total : Total ext_le.
Proof. intros [] []. unfold ext_le, word_pair_le. simpl. lia. Qed.
#[export] Instance ext_le_antisymm : AntiSymm (=) ext_le.
Proof. intros [] []. unfold ext_le, word_pair_le. simpl. intros. f_equal; lia. Qed.

Lemma preprocess_perm {X} `{EqDecision X} (R : relation X) `{!RelDecision R} (l : list X) :
  default [] (preprocessPtr R true l) ≡ₚ l.
Proof. destruct l; [done|]. simpl. apply merge_sort_Permutation. Qed.

(** ** Link bandwidth: what is set is what is read *)

Lemma f32_nonneg_finite w :
  0 <= w < 0x7f800000 -> f32_ltb w 0 = false /\ f32_ltb FLT_MAX w = false.
Proof.
  intros Hw. unfold f32_ltb, SFltb.
  assert (Hs : Z.testbit w 31 = false) by (apply (Z.bits_above_log2 w 31); [lia|];
    destruct (Z.eq_dec w 0) as [->|]; [simpl; lia|]; apply Z.log2_lt_pow2; lia).
  change (f32_of_bits 0) with (S754_zero false).
  change (f32_of_bits FLT_MAX) with (S754_finite false 16777215 104).
  unfold f32_of_bits. rewrite Hs.
  change 0xff with (Z.ones 8). change 0x7fffff with (Z.ones 23). rewrite !Z.land_ones by lia.
  rewrite Z.shiftr_div_pow2 by lia. change (Z.ones 8) with 255.
  assert (He : 0 <= w / 2 ^ 23 < 255) by (split; [apply Z.div_pos; lia|apply Z.div_lt_upper_bound; lia]).
  rewrite (Z.mod_small (w / 2 ^ 23)) by lia.
  pose proof (Z.mod_pos_bound w (2 ^ 23) ltac:(lia)) as Hm.
  rewrite (proj2 (Z.eqb_neq (w / 2 ^ 23) 255)) by lia.
  destruct (w / 2 ^ 23 =? 0) eqn:E0.
  - destruct (w mod 2 ^ 23); done.
  - destruct (w mod 2 ^ 23 + 2 ^ 23) as [|m|] eqn:Em; [done| |done]. split; [done|]. unfold SFcompare.
    destruct (Z.compare_spec 104 (w / 2 ^ 23 - 150)); try done; [|lia].
    change (PosDef.Pos.compare_cont Eq 16777215 m) with (16777215 ?= m)%positive.
    destruct (Pos.compare_spec 16777215 m); try done; lia.
Qed.

Lemma rawValueHigh_eq asn : 0 <= asn < 2 ^ 16 -> rawValueHigh asn = 0x4004 * 2 ^ 16 + asn.
Proof. intros Ha. unfold rawValueHigh. apply (lor_shiftl_add 0x4004 asn 16); lia. Qed.

Lemma rawValueHigh_fields asn raw :
  0 <= asn < 2 ^ 16 ->
  isNonTransitiveLinkBandwidthCommunity (mkExtCommunity (rawValueHigh asn) raw) = true /\
  ext_getAsn (mkExtCommunity (rawValueHigh asn) raw) = asn.
Proof.
  intros Ha. pose proof (rawValueHigh_eq asn Ha) as Hr.
  assert (Ht : ext_getType (mkExtCommunity (rawValueHigh asn) raw) = 0x40).
  { unfold ext_getType, uint. simpl firstWord. rewrite Hr, Z.shiftr_div_pow2 by lia.
    replace ((0x4004 * 2 ^ 16 + asn) / 2 ^ 24) with 0x40; [done|].
    apply (Z.div_unique_pos _ _ _ (0x04 * 2 ^ 16 + asn)); lia. }
  split.
  - unfold isNonTransitiveLinkBandwidthCommunity, getSubType. rewrite Ht.
    change (hasSubType 0x40) with true. change (0x40 =? kBgpExtCommASNonTransitiveType) with true.
    cbn [andb firstWord]. apply bool_decide_true. f_equal. unfold uint. rewrite Hr, Z.shiftr_div_pow2 by lia.
    replace ((0x4004 * 2 ^ 16 + asn) / 2 ^ 16) with 0x4004; [done|].
    apply (Z.div_unique_pos _ _ _ asn); lia.
  - unfold ext_getAsn. simpl firstWord. rewrite Hr. change 0xffff with (Z.ones 16).
    rewrite Z.land_ones by lia. symmetry. apply (Z.mod_unique_pos _ _ 0x4004); lia.
Qed.

Lemma lowerLbw_others l acc :
  Forall (fun c => isNonTransitiveLinkBandwidthCommunity c = false) l ->
  fold_left lowerLbw l acc = acc.
Proof.
  intros Hl. revert acc. induction Hl as [|c l Hc _ IH]; intros acc; [done|].
  simpl. unfold lowerLbw at 2. rewrite Hc. apply IH.
Qed.

(** The single link bandwidth community of a list is found wherever it is. *)
Lemma lowerLbw_single l others c :
  l ≡ₚ others ++ [c] ->
  Forall (fun c => isNonTransitiveLinkBandwidthCommunity c = false) others ->
  isNonTransitiveLinkBandwidthCommunity c = true ->
  (fold_left lowerLbw l (None, FLT_MAX)).1 =
    if f32_ltb (secondWord c) 0 || f32_ltb FLT_MAX (secondWord c) then None else Some c.
Proof.
  intros Hl Ho Hc.
  assert (Hin : c ∈ l) by (rewrite Hl, elem_of_app; right; left).
  apply list_elem_of_split in Hin as (l1 & l2 & ->).
  assert (Hp : l1 ++ l2 ≡ₚ others).
  { apply (Permutation_cons_inv (a := c)). rewrite Permutation_middle, Hl. solve_Permutation. }
  rewrite <- Hp, Forall_app in Ho. destruct Ho as [H1 H2].
  rewrite fold_left_app, (lowerLbw_others l1) by done. cbn [fold_left].
  rewrite (lowerLbw_others l2) by done. unfold lowerLbw. rewrite Hc. cbn [snd fst].
  by destruct (f32_ltb (secondWord c) 0 || f32_ltb FLT_MAX (secondWord c)).
Qed.

Definition isOtherExtCommunity (c : BgpAttrExtCommunity) : bool :=
  negb (isNonTransitiveLinkBandwidthCommunity c).
#[global] Arguments isOtherExtCommunity : simpl never.

Lemma prune_others p :
  getExtCommunities (pruneNonTransitiveLbwExtCommunity p) ≡ₚ
    List.filter isOtherExtCommunity (getExtCommunities p).
Proof.
  unfold pruneNonTransitiveLbwExtCommunity.
  destruct (existsb isNonTransitiveLinkBandwidthCommunity (getExtCommunities p)) eqn:E.
  - apply preprocess_perm.
  - assert (Hf : forall c, List.In c (getExtCommunities p) -> isOtherExtCommunity c = true).
    { intros c Hc. unfold isOtherExtCommunity. destruct (isNonTransitiveLinkBandwidthCommunity c) eqn:Hx; [|done].
      assert (existsb isNonTransitiveLinkBandwidthCommunity (getExtCommunities p) = true)
        by (apply existsb_exists; by exists c). congruence. }
    by rewrite bool_filter_id.
Qed.

(** Setting the link bandwidth replaces it: what is read back is the
    community set, for every value whose bits are a finite non-negative [float],
    the other extended communities are kept, and nothing else of the path
    changes. *)
Theorem lbw_set_get (p : BgpPathFields) (asn raw : Z)
    (Hasn : 0 <= asn < 2 ^ 16) (Hraw : 0 <= raw < 0x7f800000) :
  let p' := setNonTransitiveRawLbwExtCommunity asn raw p in
  getNonTransitiveRawLbw p' = Some (asn, raw) /\
  List.filter isOtherExtCommunity (getExtCommunities p') ≡ₚ
    List.filter isOtherExtCommunity (getExtCommunities p) /\
  setExtCommunities [] p' = setExtCommunities [] p.
Proof.
  intros p'. set (c := mkExtCommunity (rawValueHigh asn) raw).
  destruct (rawValueHigh_fields asn raw Hasn) as [Hc Ha]. fold c in Hc, Ha.
  assert (Hu : uint 16 asn = asn) by (unfold uint; apply Z.mod_small; lia).
  assert (Hp' : getExtCommunities p' ≡ₚ List.filter isOtherExtCommunity (getExtCommunities p) ++ [c]).
  { unfold p', setNonTransitiveRawLbwExtCommunity. rewrite Hu. fold c.
    etransitivity; [apply preprocess_perm|]. by rewrite prune_others. }
  split_and!.
  - unfold getNonTransitiveRawLbw, getNonTransitiveLbwExtCommunity.
    rewrite (lowerLbw_single _ _ c Hp'); [|apply Forall_forall|done].
    + destruct (f32_nonneg_finite raw Hraw) as [H1 H2]. simpl secondWord. rewrite H1, H2.
      simpl. by rewrite Ha.
    + intros x Hx. apply list_elem_of_In, filter_In in Hx as [_ Hx].
      by apply negb_true_iff in Hx.
  - rewrite Hp', List.filter_app. cbn [List.filter].
    assert (Ho : isOtherExtCommunity c = false) by (unfold isOtherExtCommunity; by rewrite Hc).
    rewrite Ho.
    rewrite app_nil_r, bool_filter_id; [done|]. by intros x [_ Hx]%filter_In.
  - unfold p', setNonTransitiveRawLbwExtCommunity, pruneNonTransitiveLbwExtCommunity.
    by destruct (existsb _ _).
Qed.

Lemma lbw_set_get_witness :
  getNonTransitiveRawLbw (setNonTransitiveRawLbwExtCommunity 65001 0x4b3ebc20 defaultPathFields)
    = Some (65001, 0x4b3ebc20).
Proof. apply (lbw_set_get defaultPathFields 65001 0x4b3ebc20); lia. Defined.

(** A value with the top bit set reads as a negative [float] and is not found. *)
Lemma lbw_top_bit_lost :
  getNonTransitiveRawLbw (setNonTransitiveRawLbwExtCommunity 65001 0x80000001 defaultPathFields)
    = None.
Proof. vm_compute. reflexivity. Qed.
