(* ===== verification/PolicyEncoding.v ===== *)
(** * Values packed into a link bandwidth community

    policy/PolicyUtils.cpp: a policy can carry several small numbers in the 32
    bits of the link bandwidth, each in the field an encoding scheme gives it.
    [None] is a failed [XCHECK] or an undefined shift. *)

From stdpp Require Import gmap strings.
From Stdlib Require Import SpecFloat.
From S2P Require Import Prelude Ucmp.

(** ** Encoding schemes (nsf_policy.thrift) *)

Inductive NsfTeWeightEncoding :=
| l2_encoding (rack_id plane_id remote_rack_capacity spine_capacity local_rack_capacity : Z)
| fpf_l2_encoding (rack_id spine_id remote_rack_capacity : Z).

(** The fields in order: name, width and whether it is a capacity. *)
Definition scheme_fields (s : NsfTeWeightEncoding) : list (string * Z * bool) :=
  match s with
  | l2_encoding r p c sc lc =>
      [("rack_id", r, false); ("plane_id", p, false); ("remote_rack_capacity", c, true);
       ("spine_capacity", sc, false); ("local_rack_capacity", lc, false)]
  | fpf_l2_encoding r s c =>
      [("rack_id", r, false); ("spine_id", s, false); ("remote_rack_capacity", c, false)]
  end.

(** Widths are [i32] and become [size_t]. *)
Definition encodingSchemeToVector (s : NsfTeWeightEncoding) : list Z :=
  (fun f => uint 64 f.1.2) <$> scheme_fields s.

(** ** Decoding *)

(** The loop over the bits [i, endingIdx) of a field.  A shift of 32 or more is
    undefined, so 33 rounds are enough. *)
Fixpoint decodeBits (rounds : nat) (encodedLbw startingIdx endingIdx i value : Z) : option Z :=
  if i <? endingIdx then
    if i <? 32 then
      match rounds with
      | O => None
      | S rounds =>
          decodeBits rounds encodedLbw startingIdx endingIdx (i + 1)
            (Z.lor value (Z.shiftr (Z.land encodedLbw (Z.shiftl 1 i)) startingIdx))
      end
    else None
  else Some value.

Definition decodeField (encodedLbw startingIdx endingIdx : Z) : option Z :=
  decodeBits 33 encodedLbw startingIdx endingIdx startingIdx 0.

Fixpoint decodeFields (encodedLbw startingIdx : Z) (fields : list (string * Z * bool))
    : option (gmap string Z) :=
  match fields with
  | [] => Some ∅
  | (name, width, _) :: fields =>
      let endingIdx := uint 64 (startingIdx + width) in
      value ← decodeField encodedLbw startingIdx endingIdx;
      ret ← decodeFields encodedLbw endingIdx fields;
      Some (<[name := value]> ret)
  end.

Definition decodeValues (encodedLbw : Z) (s : NsfTeWeightEncoding) : option (gmap string Z) :=
  decodeFields encodedLbw 0 (scheme_fields s).

(** The product of the capacities, as a [float]. *)
Fixpoint aggregateFields (encodedLbw startingIdx : Z) (ret : spec_float)
    (fields : list (string * Z * bool)) : option spec_float :=
  match fields with
  | [] => Some ret
  | (_, width, is_ucmp_capacity) :: fields =>
      let endingIdx := uint 64 (startingIdx + width) in
      ret ← (if is_ucmp_capacity : bool then
               value ← decodeField encodedLbw startingIdx endingIdx;
               Some (f32_mul ret (f32_of_Z value))
             else Some ret);
      aggregateFields encodedLbw endingIdx ret fields
  end.

Definition decodeAndAggregateCapacity (encodedLbw : Z) (s : NsfTeWeightEncoding)
    : option spec_float :=
  aggregateFields encodedLbw 0 (f32_of_Z 1) (scheme_fields s).

(** ** Encoding *)

(** [1 << n] on [int], read as a [size_t]. *)
Definition shl_one (n : Z) : option Z :=
  if (0 <=? n) && (n <? 31) then Some (2 ^ n)
  else if n =? 31 then Some (uint 64 (- 2 ^ 31)) else None.

(** A shift of a [uint32_t]. *)
Definition shl32 (v n : Z) : option Z :=
  if (0 <=? n) && (n <? 32) then Some (uint 32 (Z.shiftl v n)) else None.

Definition encodeValue (encodedLbw val id : Z) (lengths : list Z) : option Z :=
  if blen lengths <=? id then None
  else
  let width := nth (Z.to_nat id) lengths 0 in
  limit ← shl_one width;
  if negb (val <? limit) then None
  else
  let startingIdx := uint 64 (foldr Z.add 0 (take (Z.to_nat id) lengths)) in
  ones ← shl32 (uint 32 (-1)) width;
  let mask := uint 32 (Z.lnot ones) in
  field ← shl32 mask startingIdx;
  let encodedLbw := Z.land encodedLbw (uint 32 (Z.lnot field)) in
  Some (uint 32 (Z.lor encodedLbw (Z.shiftl (Z.land val mask) startingIdx))).

(** ** Bits *)

(** The fields of a scheme fit in 32 bits, and none takes 31 or more. *)
Definition fits (lengths : list Z) : Prop :=
  Forall (fun w => 0 <= w < 31) lengths /\ foldr Z.add 0 lengths <= 32.

Definition startOf (lengths : list Z) (i : nat) : Z := foldr Z.add 0 (take i lengths).

Lemma sum_nonneg l : Forall (fun w => 0 <= w < 31) l -> 0 <= foldr Z.add 0 l.
Proof. induction 1; simpl; lia. Qed.

Lemma start_fits lengths i w :
  fits lengths -> lengths !! i = Some w ->
  0 <= startOf lengths i /\ startOf lengths i + w <= 32 /\ 0 <= w < 31 /\
  startOf lengths (S i) = startOf lengths i + w.
Proof.
  intros [Hw Hs] Hi.
  assert (HS : startOf lengths (S i) = startOf lengths i + w).
  { unfold startOf. rewrite (take_S_r _ _ _ Hi), foldr_app. simpl. clear.
    induction (take i lengths) as [|x l IH]; simpl; lia. }
  pose proof (sum_nonneg (take i lengths) (Forall_take _ _ _ Hw)) as H1.
  pose proof (sum_nonneg (drop (S i) lengths) (Forall_drop _ _ _ Hw)) as H2.
  assert (Hsum : foldr Z.add 0 lengths = startOf lengths (S i) + foldr Z.add 0 (drop (S i) lengths)).
  { rewrite <- (take_drop (S i) lengths) at 1. rewrite foldr_app. unfold startOf.
    generalize (foldr Z.add 0 (drop (S i) lengths)). clear. intros z.
    induction (take (S i) lengths) as [|x l IH]; simpl; lia. }
  rewrite Forall_lookup in Hw. specialize (Hw i w Hi). unfold startOf in *. lia.
Qed.

Lemma start_mono lengths i j : fits lengths -> (i <= j)%nat -> startOf lengths i <= startOf lengths j.
Proof.
  intros Hf Hij. induction Hij as [|m Hm IH]; [lia|].
  destruct (lengths !! m) as [w|] eqn:E.
  - destruct (start_fits lengths m w Hf E) as (_ & _ & Hw & ->). lia.
  - apply lookup_ge_None in E. unfold startOf in *.
    rewrite (take_ge lengths (S m)) by lia. rewrite (take_ge lengths m) in IH by lia. done.
Qed.

Lemma fields_disjoint lengths i j wi wj :
  fits lengths -> lengths !! i = Some wi -> lengths !! j = Some wj -> i <> j ->
  startOf lengths i + wi <= startOf lengths j \/ startOf lengths j + wj <= startOf lengths i.
Proof.
  intros Hf Hi Hj Hne.
  destruct (start_fits lengths i wi Hf Hi) as (_ & _ & _ & HSi).
  destruct (start_fits lengths j wj Hf Hj) as (_ & _ & _ & HSj).
  destruct (Nat.lt_ge_cases i j).
  - left. rewrite <- HSi. apply start_mono; [done|lia].
  - right. rewrite <- HSj. apply start_mono; [done|lia].
Qed.

Lemma decodeBits_spec rounds e s t : forall i v,
  0 <= s -> s <= i -> i <= t -> t <= 32 -> Z.of_nat rounds >= 33 - i ->
  exists v', decodeBits rounds e s t i v = Some v' /\
    forall k, 0 <= k -> Z.testbit v' k =
      Z.testbit v k || ((i <=? s + k) && (s + k <? t) && Z.testbit e (s + k)).
Proof.
  induction rounds as [|rounds IH]; intros i v Hs Hi Ht Ht32 Hr; [lia|].
  cbn [decodeBits]. destruct (Z.ltb_spec i t) as [Hlt|Hge].
  - rewrite (proj2 (Z.ltb_lt i 32)) by lia.
    destruct (IH (i + 1) (Z.lor v (Z.shiftr (Z.land e (Z.shiftl 1 i)) s))) as (v' & -> & Hv');
      [lia..|]. eexists; split; [done|]. intros k Hk. rewrite Hv' by done.
    rewrite Z.lor_spec, Z.shiftr_spec, Z.land_spec, Z.shiftl_1_l, Z.pow2_bits_eqb by lia.
    replace (k + s) with (s + k) by lia. rewrite <- orb_assoc. f_equal.
    destruct (Z.testbit e (s + k)); [|by rewrite !andb_false_r].
    destruct (Z.eqb_spec i (s + k)), (Z.leb_spec (i + 1) (s + k)), (Z.leb_spec i (s + k)),
      (Z.ltb_spec (s + k) t); simpl; try done; lia.
  - eexists; split; [done|]. intros k Hk.
    destruct (Z.leb_spec i (s + k)), (Z.ltb_spec (s + k) t); simpl; try lia;
      by rewrite orb_false_r.
Qed.

Lemma decodeField_spec e s t :
  0 <= s <= t -> t <= 32 ->
  exists v, decodeField e s t = Some v /\
    forall k, 0 <= k -> Z.testbit v k = (s + k <? t) && Z.testbit e (s + k).
Proof.
  intros Hs Ht. destruct (decodeBits_spec 33 e s t s 0) as (v & Hv & Hb); [lia..|].
  exists v. split; [done|]. intros k Hk. rewrite Hb by done. rewrite Z.bits_0. simpl.
  by rewrite (proj2 (Z.leb_le s (s + k))) by lia.
Qed.

Lemma uint_testbit w v k :
  0 <= w -> 0 <= k -> Z.testbit (uint w v) k = (k <? w) && Z.testbit v k.
Proof.
  intros Hw Hk. unfold uint. destruct (Z.ltb_spec k w).
  - by rewrite Z.mod_pow2_bits_low by lia.
  - by rewrite Z.mod_pow2_bits_high by lia.
Qed.

Lemma testbit_small v w k : 0 <= v < 2 ^ w -> 0 <= w <= k -> Z.testbit v k = false.
Proof.
  intros Hv Hk. rewrite <- (Z.mod_small v (2 ^ w)) by done. apply Z.mod_pow2_bits_high. lia.
Qed.

(** The mask of a field of width [w], and the field at [s]. *)
Lemma mask_testbit w k :
  0 <= w < 32 -> 0 <= k ->
  Z.testbit (uint 32 (Z.lnot (uint 32 (Z.shiftl (uint 32 (-1)) w)))) k = (k <? w).
Proof.
  intros Hw Hk. rewrite uint_testbit, Z.lnot_spec, uint_testbit, Z.shiftl_spec by lia.
  destruct (Z.ltb_spec k w); [rewrite Z.testbit_neg_r by lia|rewrite uint_testbit, Z.bits_m1 by lia];
    destruct (Z.ltb_spec k 32), (Z.ltb_spec (k - w) 32); simpl; try done; lia.
Qed.

Lemma field_testbit m w s k :
  (forall k, 0 <= k -> Z.testbit m k = (k <? w)) -> 0 <= w -> 0 <= s -> s + w <= 32 -> 0 <= k ->
  Z.testbit (uint 32 (Z.shiftl m s)) k = (s <=? k) && (k <? s + w).
Proof.
  intros Hm Hw Hs Hsw Hk. rewrite uint_testbit, Z.shiftl_spec by lia.
  destruct (Z.leb_spec s k); [rewrite Hm by lia|rewrite Z.testbit_neg_r by lia];
    destruct (Z.ltb_spec k 32), (Z.ltb_spec (k - s) w), (Z.ltb_spec k (s + w)); simpl; try done; lia.
Qed.

Lemma encodeValue_spec e val id lengths w :
  fits lengths -> 0 <= e < 2 ^ 32 -> lengths !! id = Some w -> 0 < w -> 0 <= val < 2 ^ w ->
  exists e', encodeValue e val (Z.of_nat id) lengths = Some e' /\ 0 <= e' < 2 ^ 32 /\
    forall k, 0 <= k -> Z.testbit e' k =
      if (startOf lengths id <=? k) && (k <? startOf lengths id + w)
      then Z.testbit val (k - startOf lengths id) else Z.testbit e k.
Proof.
  intros Hf He Hid Hw0 Hval. destruct (start_fits lengths id w Hf Hid) as (Hs0 & Hs32 & Hw & _).
  pose proof (lookup_lt_Some _ _ _ Hid) as Hlt. unfold encodeValue.
  rewrite (proj2 (Z.leb_gt (blen lengths) (Z.of_nat id))) by lia. rewrite Nat2Z.id.
  rewrite (nth_lookup_Some _ _ 0 _ Hid). unfold shl_one.
  rewrite (proj2 (Z.leb_le 0 w)), (proj2 (Z.ltb_lt w 31)) by lia. cbn [andb mbind option_bind].
  rewrite (proj2 (Z.ltb_lt val _)) by lia. cbn [negb]. fold (startOf lengths id).
  assert (Hu : uint 64 (startOf lengths id) = startOf lengths id)
    by (unfold uint; apply Z.mod_small; lia).
  rewrite Hu. set (s := startOf lengths id) in *. unfold shl32.
  rewrite (proj2 (Z.leb_le 0 w)), (proj2 (Z.ltb_lt w 32)) by lia. cbn [andb mbind option_bind].
  rewrite (proj2 (Z.leb_le 0 s)), (proj2 (Z.ltb_lt s 32)) by lia. cbn [andb mbind option_bind].
  set (m := uint 32 (Z.lnot (uint 32 (Z.shiftl (uint 32 (-1)) w)))).
  assert (Hm : forall k, 0 <= k -> Z.testbit m k = (k <? w)) by (intros; apply mask_testbit; lia).
  eexists; split; [reflexivity|]. split; [apply Z.mod_pos_bound; lia|]. intros k Hk.
  rewrite uint_testbit, Z.lor_spec, Z.land_spec, uint_testbit, Z.lnot_spec by lia.
  rewrite (field_testbit m w s k), Z.shiftl_spec by (done || lia).
  destruct (Z.leb_spec s k).
  - rewrite Z.land_spec, Hm by lia.
    destruct (Z.ltb_spec k 32); [|rewrite (testbit_small e 32 k) by lia];
      destruct (Z.ltb_spec (k - s) w), (Z.ltb_spec k (s + w)); simpl; try lia;
      rewrite ?andb_false_r, ?andb_true_r, ?orb_false_r; done.
  - rewrite (Z.testbit_neg_r _ (k - s)) by lia. rewrite (proj2 (Z.ltb_lt k 32)) by lia. simpl.
    by rewrite orb_false_r, andb_true_r.
Qed.

(** ** Round trip *)

Lemma encode_decode_fields (lengths : list Z) (e val : Z) (id j : nat) (w wj : Z)
    (Hfits : fits lengths) (He : 0 <= e < 2 ^ 32) (Hid : lengths !! id = Some w)
    (Hj : lengths !! j = Some wj) (Hw : 0 < w) (Hval : 0 <= val < 2 ^ w) :
  exists e', encodeValue e val (Z.of_nat id) lengths = Some e' /\ 0 <= e' < 2 ^ 32 /\
    decodeField e' (startOf lengths j) (startOf lengths j + wj) =
      if decide (j = id) then Some val
      else decodeField e (startOf lengths j) (startOf lengths j + wj).
Proof.
  destruct (encodeValue_spec e val id lengths w Hfits He Hid Hw Hval) as (e' & He' & Hr & Hb).
  exists e'. split; [done|]. split; [done|].
  destruct (start_fits lengths j wj Hfits Hj) as (Hs0 & Hs32 & Hwj & _).
  destruct (decodeField_spec e' (startOf lengths j) (startOf lengths j + wj)) as (v & -> & Hv);
    [lia..|].
  destruct (decodeField_spec e (startOf lengths j) (startOf lengths j + wj)) as (v0 & -> & Hv0);
    [lia..|].
  destruct (start_fits lengths id w Hfits Hid) as (Hi0 & Hi32 & Hwi & _).
  destruct (decide (j = id)) as [->|Hne]; f_equal; apply Z.bits_inj'; intros k Hk;
    rewrite Hv, Hb by lia.
  - simplify_eq. destruct (Z.leb_spec (startOf lengths id) (startOf lengths id + k)); [|lia]. simpl.
    replace (startOf lengths id + k - startOf lengths id) with k by lia.
    destruct (Z.ltb_spec (startOf lengths id + k) (startOf lengths id + w)); [done|].
    simpl. symmetry. apply (testbit_small val w); lia.
  - rewrite Hv0 by done.
    destruct (Z.ltb_spec (startOf lengths j + k) (startOf lengths j + wj)); [|done]. simpl.
    assert (Hdisj : startOf lengths j + wj <= startOf lengths id \/
                    startOf lengths id + w <= startOf lengths j)
      by (apply (fields_disjoint lengths j id); done).
    destruct (Z.leb_spec (startOf lengths id) (startOf lengths j + k)),
      (Z.ltb_spec (startOf lengths j + k) (startOf lengths id + w)); simpl; try done; lia.
Qed.

Definition widths (fields : list (string * Z * bool)) : list Z := (fun f => f.1.2) <$> fields.
Definition names (fields : list (string * Z * bool)) : list string := (fun f => f.1.1) <$> fields.

Lemma decodeFields_spec e fields : forall st,
  0 <= st -> Forall (fun w => 0 <= w < 31) (widths fields) ->
  st + foldr Z.add 0 (widths fields) <= 32 -> NoDup (names fields) ->
  exists m, decodeFields e st fields = Some m /\
    (forall j n w c, fields !! j = Some (n, w, c) ->
       m !! n = decodeField e (st + startOf (widths fields) j) (st + startOf (widths fields) j + w)) /\
    (forall n, n ∉ names fields -> m !! n = None).
Proof.
  induction fields as [|[[n w] c] fields IH]; intros st Hst Hw Hsum Hnd.
  - exists ∅. by split_and!.
  - inversion Hw as [|? ? Hw1 Hws]; subst. apply NoDup_cons in Hnd as [Hn Hnd].
    pose proof (sum_nonneg _ Hws) as Hp. cbn in Hsum.
    destruct (IH (st + w)) as (m & Hm & Hl & Ho); [lia|done|unfold widths; lia|done|].
    assert (Hu : uint 64 (st + w) = st + w) by (unfold uint; apply Z.mod_small; unfold widths in *; lia).
    destruct (decodeField_spec e st (st + w)) as (v & Hv & _); [lia|unfold widths in *; lia|].
    exists (<[n := v]> m). cbn [decodeFields]. rewrite Hu, Hv. simpl. rewrite Hm. simpl.
    split_and!; [done| |].
    + intros [|j] n' w' c' Hj.
      * simplify_eq/=. rewrite lookup_insert_eq. unfold startOf. simpl. by rewrite Z.add_0_r.
      * simpl in Hj. rewrite lookup_insert_ne.
        -- rewrite (Hl j n' w' c' Hj). unfold startOf. simpl. by rewrite !Z.add_assoc.
        -- intros ->. apply Hn. apply list_elem_of_fmap. exists (n', w', c').
           split; [done|]. by eapply list_elem_of_lookup_2.
    + intros n' Hn'. apply not_elem_of_cons in Hn' as [Hne Hn']. simpl in Hne.
      by rewrite lookup_insert_ne by done; apply Ho.
Qed.

Lemma names_distinct s : NoDup (names (scheme_fields s)).
Proof. destruct s; apply (bool_decide_unpack _); reflexivity. Qed.

Lemma scheme_widths s :
  Forall (fun w => 0 <= w < 31) (widths (scheme_fields s)) ->
  encodingSchemeToVector s = widths (scheme_fields s).
Proof.
  unfold encodingSchemeToVector, widths.
  induction (scheme_fields s) as [|f l IH]; intros Hw; [done|]. inversion Hw; subst.
  rewrite !fmap_cons, IH by done. f_equal. unfold uint. apply Z.mod_small. lia.
Qed.

(** With a scheme whose fields fit in 32 bits, encoding a value into field
    number [id] succeeds, and decoding then gives that value under the field's
    name and every other field as before. *)
Theorem encode_decode_values (s : NsfTeWeightEncoding) (e val : Z) (id : nat) (name : string)
    (w : Z) (c : bool)
    (Hfits : fits (widths (scheme_fields s))) (He : 0 <= e < 2 ^ 32)
    (Hid : scheme_fields s !! id = Some (name, w, c)) (Hw : 0 < w) (Hval : 0 <= val < 2 ^ w) :
  exists e' m,
    encodeValue e val (Z.of_nat id) (encodingSchemeToVector s) = Some e' /\
    decodeValues e s = Some m /\
    decodeValues e' s = Some (<[name := val]> m).
Proof.
  pose proof Hfits as [Hws Hsum]. rewrite scheme_widths by done.
  assert (Hlw : forall j n w c, scheme_fields s !! j = Some (n, w, c) ->
            widths (scheme_fields s) !! j = Some w)
    by (intros j n' w' c' Hj; unfold widths; by rewrite list_lookup_fmap, Hj).
  destruct (encodeValue_spec e val id _ w Hfits He (Hlw _ _ _ _ Hid) Hw Hval) as (e' & He' & _ & _).
  destruct (decodeFields_spec e (scheme_fields s) 0) as (m & Hm & Hl & Ho);
    [lia|done|lia|apply names_distinct|].
  destruct (decodeFields_spec e' (scheme_fields s) 0) as (m' & Hm' & Hl' & Ho');
    [lia|done|lia|apply names_distinct|].
  exists e', m. split; [done|]. split; [done|]. unfold decodeValues. rewrite Hm'. f_equal.
  apply map_eq. intros n. destruct (decide (n ∈ names (scheme_fields s))) as [Hin|Hout].
  - apply list_elem_of_fmap in Hin as ([[n' wj] cj] & -> & Hin).
    apply list_elem_of_lookup in Hin as [j Hj]. simpl.
    destruct (encode_decode_fields _ e val id j w wj Hfits He (Hlw _ _ _ _ Hid) (Hlw _ _ _ _ Hj)
      Hw Hval) as (e'' & He'' & _ & Hdec). simplify_eq.
    rewrite (Hl' _ _ _ _ Hj), Z.add_0_l, Hdec.
    destruct (decide (j = id)) as [->|Hne]; simplify_map_eq; [done|].
    rewrite lookup_insert_ne, (Hl _ _ _ _ Hj); [done|]. intros ->. apply Hne.
    apply (NoDup_lookup _ _ _ n' (names_distinct s)); unfold names; rewrite list_lookup_fmap;
      [by rewrite Hj|by rewrite Hid].
  - rewrite Ho', lookup_insert_ne, Ho; [done|done| |done]. intros ->. apply Hout.
    apply list_elem_of_fmap. exists (n, w, c). split; [done|]. by eapply list_elem_of_lookup_2.
Qed.

Lemma encode_decode_values_witness :
  exists e' m,
    encodeValue 0xffff 9 2 (encodingSchemeToVector (l2_encoding 8 4 8 6 5)) = Some e' /\
    decodeValues 0xffff (l2_encoding 8 4 8 6 5) = Some m /\
    decodeValues e' (l2_encoding 8 4 8 6 5) = Some (<["remote_rack_capacity" := 9]> m).
Proof.
  apply (encode_decode_values (l2_encoding 8 4 8 6 5) 0xffff 9 2 "remote_rack_capacity" 8 true);
    [split; apply (bool_decide_unpack _); reflexivity|lia|reflexivity|lia|lia].
Defined.

(** A value that does not fit its field stops the process. *)
Lemma encodeValue_too_large :
  encodeValue 0 256 0 (encodingSchemeToVector (l2_encoding 8 4 8 6 5)) = None.
Proof. reflexivity. Qed.

(** A field of 31 bits accepts a value of 32 bits and keeps 31 of them. *)
Lemma encodeValue_truncates : encodeValue 0 (2 ^ 31 + 5) 0 [31] = Some 5.
Proof. reflexivity. Qed.
