(* ===== verification/PolicyAction.v ===== *)
(** * What policies do to the attributes

    The actions of policy/PolicyAction.cpp on a path and on the action data of the
    evaluation, with the helpers of policy/PolicyUtils.cpp.  An action is the
    object its constructor builds from the configuration (PolicyTerm.v); [None] is
    a failed [CHECK] or an exception in a function that may not throw. *)

From stdpp Require Import gmap strings pretty.
From Stdlib Require Import SpecFloat.
From S2P Require Import Prelude BgpException Folly BgpStructs PathAttrs RouteFilter RouteInfo Ucmp.
From S2P Require Import DeDuplicator PathFields PolicyEncoding.

(** ** Libraries the policies use: boost::regex, and folly's conversions *)

Class PolicyLibs := {
  regex : Type;
  (** [None] is [regex_error], [None] of a search is an exception *)
  regex_compile : string -> option regex;
  regex_match : string -> regex -> bool;
  regex_search : string -> regex -> option bool;
  (** [folly::split(':', s, std::vector<uint16_t>&)] *)
  split_u16 : string -> option (list Z);
  (** [folly::IPAddress(s)] *)
  ip_parse : string -> option IPAddress
}.

(** ** Action data *)

(** [float] fields are their bits. *)
Record LbwActionData := mkLbwActionData {
  originalAsnLbw : option (Z * Z);
  lbw_asn : Z;
  linkBandwidthBps : option Z;
  aggregateReceivedUcmpWeight : option Z;
  aggregateLocalUcmpWeight : option Z;
  ribPolicyUcmpWeight : option Z
}.

Record BgpPolicyActionData := mkActionData {
  switchId : option Z;
  multiPathSize : option Z;
  lbwActionData : option LbwActionData;
  isMedSetByPolicy : bool;
  isLbwRejected : bool;
  isNexthopSetByPolicy : bool
}.

Definition setMedFlag (d : BgpPolicyActionData) : BgpPolicyActionData :=
  mkActionData (switchId d) (multiPathSize d) (lbwActionData d) true (isLbwRejected d)
    (isNexthopSetByPolicy d).
Definition rejectLbw (d : BgpPolicyActionData) : BgpPolicyActionData :=
  mkActionData (switchId d) (multiPathSize d) (lbwActionData d) (isMedSetByPolicy d) true
    (isNexthopSetByPolicy d).
Definition setNexthopFlag (d : BgpPolicyActionData) : BgpPolicyActionData :=
  mkActionData (switchId d) (multiPathSize d) (lbwActionData d) (isMedSetByPolicy d)
    (isLbwRejected d) true.

(** ** Actions *)

Inductive CommunityActionType := COMM_ADD | COMM_SET | COMM_REMOVE.
Inductive ExtCommunityActionType := EXT_ADD | EXT_SET | EXT_REMOVE.
Inductive LbwExtCommunityActionType :=
| LBW_DISABLE | LBW_SET_LINK_BPS | LBW_ACCEPT | LBW_DECODE_ALL | LBW_BEST_PATH
| LBW_AGGREGATE_LOCAL | LBW_AGGREGATE_RECEIVED | LBW_ENCODE_AGGREGATE_RECEIVED_OVERWRITE
| LBW_ENCODE_MULTIPATH | LBW_ENCODE_SWITCH_ID | LBW_DECODE_AGGREGATE_CAPACITY_OVERWRITE.

Section Actions.
Context `{L : PolicyLibs}.

Inductive PolicyAction :=
| SetAsPathPrependAction (asn repeat_times : Z)
| CommunityAction (type : CommunityActionType) (communities_ : list BgpAttrCommunity)
    (communityRegexs_ : list regex) (listNames : list string)
| LbwExtCommunityAction (type : LbwExtCommunityActionType)
    (encoding_scheme : option NsfTeWeightEncoding) (encoding_id : option Z)
| ExtCommunityAction (type : ExtCommunityActionType) (ext_communities_ : list BgpAttrExtCommunity)
| SetLocalPreference (local_pref : Z)
| SetOrigin (origin : Z)
| SetNexthop (nexthop : IPAddress)
| AddBackupAddr (backupAddr : IPAddress)
| SetAsPath (overwriteList_ : list Z)
| SetMed (med_value : Z)
| SetWeight (weight_value : Z)
| AsPathToAsSet.

(** ** Communities *)

Definition hasCommunity (communities : list BgpAttrCommunity) (c : BgpAttrCommunity) : bool :=
  bool_decide (c ∈ communities).
Definition hasExtCommunity (communities : list BgpAttrExtCommunity) (c : BgpAttrExtCommunity) : bool :=
  bool_decide (c ∈ communities).

Definition addCommunities (current toAdd : list BgpAttrCommunity) : list BgpAttrCommunity :=
  fold_left (fun out c => if hasCommunity out c then out else out ++ [c]) toAdd current.
Definition addExtCommunities (current toAdd : list BgpAttrExtCommunity) : list BgpAttrExtCommunity :=
  fold_left (fun out c => if hasExtCommunity out c then out else out ++ [c]) toAdd current.

Definition removeCommunities (input toRemove : list BgpAttrCommunity) : list BgpAttrCommunity :=
  List.filter (fun c => negb (hasCommunity toRemove c)) input.
Definition removeExtCommunities (input toRemove : list BgpAttrExtCommunity) : list BgpAttrExtCommunity :=
  List.filter (fun c => negb (hasExtCommunity toRemove c)) input.

Definition communityStr (c : BgpAttrCommunity) : string :=
  pretty (comm_asn c) +:+ ":" +:+ pretty (comm_value c).

Definition removeCommunitiesMatchingRegexs (input : list BgpAttrCommunity) (regexs : list regex)
    : list BgpAttrCommunity :=
  List.filter (fun c => negb (existsb (regex_match (communityStr c)) regexs)) input.

Definition applyCommunityAction (type : CommunityActionType) (communities : list BgpAttrCommunity)
    (regexs : list regex) (p : BgpPathFields) : BgpPathFields :=
  match type with
  | COMM_ADD => setCommunities (addCommunities (getCommunities p) communities) p
  | COMM_SET => setCommunities communities p
  | COMM_REMOVE =>
      let cs := getCommunities p in
      let cs := if nonempty regexs then removeCommunitiesMatchingRegexs cs regexs else cs in
      let cs := if nonempty communities then removeCommunities cs communities else cs in
      setCommunities cs p
  end.

Definition applyExtCommunityAction (type : ExtCommunityActionType)
    (communities : list BgpAttrExtCommunity) (p : BgpPathFields) : BgpPathFields :=
  match type with
  | EXT_ADD => setExtCommunities (addExtCommunities (getExtCommunities p) communities) p
  | EXT_REMOVE => setExtCommunities (removeExtCommunities (getExtCommunities p) communities) p
  | EXT_SET => setExtCommunities communities p
  end.

(** ** The AS path *)

Definition kMaxAsPathSegmentSize : Z := 255.

Definition applyAsPathPrepend (prependAsn prependLength : Z) (p : BgpPathFields)
    : option BgpPathFields :=
  let insertAsns (n : Z) (l : list Z) : option (list Z) :=
    if n <? 0 then None else Some (replicate (Z.to_nat n) prependAsn ++ l) in
  '(newAsPath, prependLength) ← (
    match getAsPath p with
    | firstSegment :: rest =>
        if nonempty (asSequence firstSegment) then
          let firstSegmentToOccupy :=
            Z.min prependLength (kMaxAsPathSegmentSize - blen (asSequence firstSegment)) in
          seq ← insertAsns firstSegmentToOccupy (asSequence firstSegment);
          Some (mkSegment (asSet firstSegment) seq (asConfedSequence firstSegment)
                  (asConfedSet firstSegment) :: rest, prependLength - firstSegmentToOccupy)
        else Some (getAsPath p, prependLength)
    | [] => Some ([], prependLength)
    end);
  newAsPath ← (if 0 <? prependLength then
                 seq ← insertAsns prependLength [];
                 Some (mkSegment [] seq [] [] :: newAsPath)
               else Some newAsPath);
  Some (setAsPath newAsPath p).

(** The loop of [AsPathToAsSet::applyAction]; [None] is its early return. *)
Fixpoint compressSegments (segs out : list BgpAttrAsPathSegment) (outputAsSet : list Z)
    : option (list BgpAttrAsPathSegment * list Z) :=
  match segs with
  | [] => Some (out, outputAsSet)
  | seg :: segs =>
      if nonempty (asConfedSequence seg) || nonempty (asConfedSet seg) then
        if nonempty outputAsSet then None else compressSegments segs (out ++ [seg]) outputAsSet
      else
        compressSegments segs out
          (fold_left (fun s x => set_insert x s) (asSequence seg)
             (fold_left (fun s x => set_insert x s) (asSet seg) outputAsSet))
  end.

Definition applyAsPathToAsSet (p : BgpPathFields) : BgpPathFields :=
  match compressSegments (getAsPath p) [] [] with
  | None => p
  | Some (out, outputAsSet) =>
      setAsPath (if nonempty outputAsSet then out ++ [mkSegment outputAsSet [] [] []] else out) p
  end.

(** ** Link bandwidth *)

Definition restoreLbw (original : option (Z * Z)) (p : BgpPathFields) : BgpPathFields :=
  match original with
  | Some (asn, lbw) => setNonTransitiveLbwExtCommunity asn lbw p
  | None => pruneNonTransitiveLbwExtCommunity p
  end.

(** The encoded value to work on, restored from the action data if the path has
    none: the path and the value. *)
Definition currentRawLbw (original : option (Z * Z)) (p : BgpPathFields)
    : BgpPathFields * option Z :=
  match getNonTransitiveRawLbwValue p, original with
  | None, Some (asn, lbw) =>
      let p := setNonTransitiveLbwExtCommunity asn lbw p in (p, getNonTransitiveRawLbwValue p)
  | v, _ => (p, v)
  end.

Definition zeroOrMissing (v : option Z) : bool :=
  match v with None => true | Some v => v =? 0 end.

Definition encodeInto (lbw : LbwActionData) (scheme : option NsfTeWeightEncoding) (id val : option Z)
    (p : BgpPathFields) (d : BgpPolicyActionData) : option (BgpPathFields * BgpPolicyActionData) :=
  s ← scheme;
  encodingId ← id;
  let '(p, cur) := currentRawLbw (originalAsnLbw lbw) p in
  v ← val;
  encodedLbw ← encodeValue (default 0 cur) v (uint 64 encodingId) (encodingSchemeToVector s);
  Some (setNonTransitiveRawLbwExtCommunity (lbw_asn lbw) encodedLbw p,
        if encodedLbw =? 0 then rejectLbw d else d).

Definition setOrPrune (asn : Z) (v : option Z) (p : BgpPathFields) : BgpPathFields :=
  match v with
  | Some w => setNonTransitiveLbwExtCommunity asn w p
  | None => pruneNonTransitiveLbwExtCommunity p
  end.

Definition applyLbwAction (type : LbwExtCommunityActionType) (scheme : option NsfTeWeightEncoding)
    (id : option Z) (lbw : LbwActionData) (p : BgpPathFields) (d : BgpPolicyActionData)
    : option (BgpPathFields * BgpPolicyActionData) :=
  match type with
  | LBW_DISABLE => Some (pruneNonTransitiveLbwExtCommunity p, d)
  | LBW_ACCEPT =>
      let p := restoreLbw (originalAsnLbw lbw) p in
      Some (p, match scheme with
               | Some _ => if zeroOrMissing (getNonTransitiveRawLbwValue p) then rejectLbw d else d
               | None => d
               end)
  | LBW_DECODE_ALL =>
      match originalAsnLbw lbw with
      | Some (asn, v) =>
          let p := setNonTransitiveLbwExtCommunity asn v p in
          let encodedLbw := getNonTransitiveRawLbwValue p in
          if zeroOrMissing encodedLbw then Some (p, rejectLbw d)
          else
          s ← scheme;
          e ← encodedLbw;
          values ← decodeValues e s;
          Some (setTopologyInfo (Some values) p, d)
      | None => Some (pruneNonTransitiveLbwExtCommunity p, rejectLbw d)
      end
  | LBW_SET_LINK_BPS =>
      v ← linkBandwidthBps lbw;
      Some (setNonTransitiveLbwExtCommunity (lbw_asn lbw) v p, d)
  | LBW_BEST_PATH =>
      match aggregateReceivedUcmpWeight lbw with
      | None => Some (pruneNonTransitiveLbwExtCommunity p, d)
      | Some _ => Some (restoreLbw (originalAsnLbw lbw) p, d)
      end
  | LBW_AGGREGATE_RECEIVED =>
      Some (setOrPrune (lbw_asn lbw) (aggregateReceivedUcmpWeight lbw) p, d)
  | LBW_AGGREGATE_LOCAL =>
      Some (setOrPrune (lbw_asn lbw) (aggregateLocalUcmpWeight lbw) p, d)
  | LBW_ENCODE_AGGREGATE_RECEIVED_OVERWRITE =>
      match aggregateReceivedUcmpWeight lbw with
      | None => Some (pruneNonTransitiveLbwExtCommunity p, rejectLbw d)
      | Some w =>
          if f32_eqb w 0 then Some (pruneNonTransitiveLbwExtCommunity p, rejectLbw d)
          else
          s ← scheme;
          encodingId ← id;
          val ← to_unsigned 64 (sf_trunc (f32_of_bits w));
          encodedLbw ← encodeValue 0 val (uint 64 encodingId) (encodingSchemeToVector s);
          Some (setNonTransitiveRawLbwExtCommunity (lbw_asn lbw) encodedLbw p, d)
      end
  | LBW_ENCODE_SWITCH_ID => encodeInto lbw scheme id (switchId d) p d
  | LBW_ENCODE_MULTIPATH => encodeInto lbw scheme id (multiPathSize d) p d
  | LBW_DECODE_AGGREGATE_CAPACITY_OVERWRITE =>
      let '(p, cur) := currentRawLbw (originalAsnLbw lbw) p in
      capacity ← (match cur with
                  | Some e => s ← scheme; f32_to_bits <$> decodeAndAggregateCapacity e s
                  | None => Some 0
                  end);
      Some (setNonTransitiveLbwExtCommunity (lbw_asn lbw) capacity p,
            if zeroOrMissing cur then rejectLbw d else d)
  end.

(** ** [applyAction] *)

Definition policyOrigin (origin : Z) : option Z :=
  if origin =? 1 then Some BGP_ORIGIN_IGP
  else if origin =? 2 then Some BGP_ORIGIN_EGP
  else if origin =? 3 then Some BGP_ORIGIN_INCOMPLETE else None.

Definition overwrittenPath (overwriteList : list Z) : list BgpAttrAsPathSegment :=
  if nonempty overwriteList then [mkSegment [] (uint 32 <$> overwriteList) [] []] else [].

Definition applyPolicyAction (act : PolicyAction) (p : BgpPathFields)
    (data : option BgpPolicyActionData) : option (BgpPathFields * option BgpPolicyActionData) :=
  match act with
  | SetAsPathPrependAction asn n => p ← applyAsPathPrepend (uint 32 asn) n p; Some (p, data)
  | CommunityAction type cs rs _ => Some (applyCommunityAction type cs rs p, data)
  | LbwExtCommunityAction type scheme id =>
      d ← data;
      match lbwActionData d with
      | None => Some (p, data)
      | Some lbw => '(p, d) ← applyLbwAction type scheme id lbw p d; Some (p, Some d)
      end
  | ExtCommunityAction type cs => Some (applyExtCommunityAction type cs p, data)
  | SetLocalPreference v => Some (setLocalPref (Some (uint 32 v)) p, data)
  | SetOrigin o => v ← policyOrigin o; Some (setOrigin v p, data)
  | SetNexthop ip => Some (setNexthop ip p, setNexthopFlag <$> data)
  | AddBackupAddr ip => Some (setBackupAddr (Some ip) p, data)
  | SetAsPath l => Some (setAsPath (overwrittenPath l) p, data)
  | SetMed v => d ← data; Some (setMed (uint 32 v) p, Some (setMedFlag d))
  | SetWeight v => Some (setWeight (uint 16 v) p, data)
  | AsPathToAsSet => Some (applyAsPathToAsSet p, data)
  end.
End Actions.
#[global] Arguments PolicyAction {L} : assert.

(** ** Prepending *)

(** All AS numbers of a path in order, and the shape of a segment: one of its
    four containers is in use, with at most 255 elements. *)
Definition segmentAsns (s : BgpAttrAsPathSegment) : list Z :=
  asSet s ++ asSequence s ++ asConfedSequence s ++ asConfedSet s.
Definition pathAsns (segs : list BgpAttrAsPathSegment) : list Z := segs ≫= segmentAsns.

Definition oneKind (s : BgpAttrAsPathSegment) : Prop :=
  (asSequence s = [] \/ (asSet s = [] /\ asConfedSequence s = [] /\ asConfedSet s = [])) /\
  blen (segmentAsns s) <= kMaxAsPathSegmentSize.

Definition asPathLenOf (segs : list BgpAttrAsPathSegment) : Z :=
  fold_left (fun len segment => len + segmentLen segment) segs 0.

Lemma asPathLen_cons s segs : asPathLenOf (s :: segs) = segmentLen s + asPathLenOf segs.
Proof.
  assert (Hg : forall a, fold_left (fun len segment => len + segmentLen segment) segs a
            = a + fold_left (fun len segment => len + segmentLen segment) segs 0).
  { induction segs as [|s' segs IH]; intros a; cbn [fold_left]; [lia|].
    rewrite (IH (a + segmentLen s')), (IH (0 + segmentLen s')). lia. }
  unfold asPathLenOf. cbn [fold_left]. by rewrite Hg.
Qed.

Lemma getAsPath_set v p : getAsPath (setAsPath v p) = v.
Proof. done. Qed.

Lemma prepend_front asn n segs :
  0 < n <= 255 -> Forall oneKind segs ->
  let s := mkSegment [] (replicate (Z.to_nat n) asn) [] [] in
  pathAsns (s :: segs) = replicate (Z.to_nat n) asn ++ pathAsns segs /\
  asPathLenOf (s :: segs) = asPathLenOf segs + n /\ Forall oneKind (s :: segs).
Proof.
  intros Hn Hk s. split_and!.
  - unfold pathAsns. simpl. unfold segmentAsns. simpl. by rewrite app_nil_r.
  - rewrite asPathLen_cons. unfold segmentLen. simpl.
    destruct (Z.to_nat n) as [|m] eqn:E; [lia|]. cbn [replicate nonempty].
    rewrite length_cons, length_replicate. lia.
  - constructor; [|done]. split; [by right|]. unfold segmentAsns. simpl.
    rewrite app_nil_r, length_replicate. unfold kMaxAsPathSegmentSize. lia.
Qed.

Lemma prepend_spec (p : BgpPathFields) (asn n : Z)
    (Hn : 0 < n <= 255) (Hk : Forall oneKind (getAsPath p)) :
  exists p', applyAsPathPrepend asn n p = Some p' /\
    pathAsns (getAsPath p') = replicate (Z.to_nat n) asn ++ pathAsns (getAsPath p) /\
    getBgpAsPathLen p' = getBgpAsPathLen p + n /\
    Forall oneKind (getAsPath p') /\
    setAsPath [] p' = setAsPath [] p.
Proof.
  unfold applyAsPathPrepend, getBgpAsPathLen. fold (asPathLenOf (getAsPath p)).
  assert (Hfront : exists p', Some (setAsPath (mkSegment [] (replicate (Z.to_nat n) asn) [] [] ::
              getAsPath p) p) = Some p' /\
    pathAsns (getAsPath p') = replicate (Z.to_nat n) asn ++ pathAsns (getAsPath p) /\
    asPathLenOf (getAsPath p') = asPathLenOf (getAsPath p) + n /\
    Forall oneKind (getAsPath p') /\ setAsPath [] p' = setAsPath [] p).
  { eexists; split; [done|]. destruct (prepend_front asn n (getAsPath p) Hn Hk) as (H1 & H2 & H3).
    by split_and!. }
  assert (Hpos : (0 <? n) = true) by lia. assert (Hneg : (n <? 0) = false) by lia.
  destruct (getAsPath p) as [|first rest] eqn:Ep.
  { cbn [mbind option_bind]. rewrite Hpos, Hneg. cbn [mbind option_bind].
    rewrite (app_nil_r (replicate (Z.to_nat n) asn)). exact Hfront. }
  destruct (nonempty (asSequence first)) eqn:Ene.
  2:{ cbn [mbind option_bind]. rewrite Hpos, Hneg. cbn [mbind option_bind].
    rewrite (app_nil_r (replicate (Z.to_nat n) asn)). exact Hfront. }
  clear Hfront. inversion Hk as [|? ? Hf Hrest]; subst. destruct Hf as [Hone Hlen].
  destruct Hone as [Hnil|(Es & Ec & Ecs)]; [by rewrite Hnil in Ene|].
  unfold segmentAsns in Hlen. rewrite Es, Ec, Ecs, !app_nil_r in Hlen. simpl in Hlen.
  set (k := Z.min n (kMaxAsPathSegmentSize - blen (asSequence first))).
  unfold kMaxAsPathSegmentSize in *.
  assert (Hk0 : (k <? 0) = false) by lia. rewrite Hk0. cbn [mbind option_bind].
  set (seg := mkSegment (asSet first) (replicate (Z.to_nat k) asn ++ asSequence first)
                (asConfedSequence first) (asConfedSet first)).
  assert (Hseg : oneKind seg /\ segmentAsns seg = replicate (Z.to_nat k) asn ++ segmentAsns first /\
                 segmentLen seg = segmentLen first + k).
  { unfold oneKind, segmentAsns, segmentLen, kMaxAsPathSegmentSize. simpl.
    rewrite Es, Ec, Ecs, !app_nil_r. simpl. rewrite length_app, length_replicate, Ene.
    split_and!; [by right|lia|done|]. destruct (replicate (Z.to_nat k) asn ++ asSequence first) eqn:E.
    - apply app_eq_nil in E as [_ E]. by rewrite E in Ene.
    - simpl. lia. }
  destruct Hseg as (Hone & Hasns & Hsl).
  destruct (Z.ltb_spec 0 (n - k)) as [Hlt|Hle].
  - rewrite (proj2 (Z.ltb_ge (n - k) 0)) by lia. cbn [mbind option_bind].
    rewrite (app_nil_r (replicate (Z.to_nat (n - k)) asn)). eexists; split; [done|].
    rewrite getAsPath_set.
    destruct (prepend_front asn (n - k) (seg :: rest)) as (H1 & H2 & H3); [lia|by constructor|].
    split_and!; [|..|done|done].
    + rewrite H1. unfold pathAsns. simpl. rewrite Hasns, !app_assoc.
      do 2 f_equal. rewrite <- replicate_add. f_equal. lia.
    + change (asPathLenOf (mkSegment [] (replicate (Z.to_nat (n - k)) asn) [] [] :: seg :: rest)
              = asPathLenOf (first :: rest) + n).
      rewrite H2, !asPathLen_cons, Hsl. lia.
  - assert (k = n) as Hkn by lia. cbn [mbind option_bind]. eexists; split; [done|].
    rewrite getAsPath_set. split_and!; [| |by constructor|done].
    + unfold pathAsns. simpl. by rewrite Hasns, Hkn, !app_assoc.
    + change (asPathLenOf (seg :: rest) = asPathLenOf (first :: rest) + n).
      rewrite !asPathLen_cons, Hsl. lia.
Qed.

(** Prepending an AS number up to 255 times to a path whose segments hold
    at most 255 puts exactly that many in front of all AS numbers of the path and
    makes the path that much longer; no segment exceeds 255, whatever part of the
    numbers goes into the first segment, and nothing else of the path changes. *)
Theorem prepend_correct (p : BgpPathFields) (asn n : Z)
    (Hn : 0 < n <= 255) (Hk : Forall oneKind (getAsPath p)) :
  exists p', applyAsPathPrepend asn n p = Some p' /\
    pathAsns (getAsPath p') = replicate (Z.to_nat n) asn ++ pathAsns (getAsPath p) /\
    getBgpAsPathLen p' = getBgpAsPathLen p + n /\
    Forall oneKind (getAsPath p') /\
    setAsPath [] p' = setAsPath [] p.
Proof. exact (prepend_spec p asn n Hn Hk). Qed.

Definition sample_long_path : BgpPathFields :=
  setAsPath [mkSegment [] (replicate 253 (65001 : Z)) [] []] defaultPathFields.

Lemma prepend_correct_witness :
  exists p', applyAsPathPrepend 65002 4 sample_long_path = Some p' /\
    map (fun s => blen (asSequence s)) (getAsPath p') = [2; 255] /\
    getBgpAsPathLen p' = 257.
Proof.
  assert (H : Forall oneKind (getAsPath sample_long_path))
    by (constructor; [split; [by right|apply Z.leb_le; reflexivity]|constructor]).
  destruct (prepend_correct sample_long_path 65002 4 ltac:(lia) H) as (p' & Hp' & _ & Hl & _).
  exists p'. split; [done|]. split; [|rewrite Hl; reflexivity].
  vm_compute in Hp'. injection Hp' as <-. reflexivity.
Defined.

(** A segment of more than 255 AS numbers, which an overwrite can build, makes
    the count to insert negative: the insertion throws. *)
Lemma prepend_after_long_overwrite :
  applyAsPathPrepend 65002 1
    (setAsPath (overwrittenPath (replicate 256 (65001 : Z))) defaultPathFields) = None.
Proof. reflexivity. Qed.
