(* ===== verification/PolicyMatch.v ===== *)
(** * What policies match

    The matches of policy/PolicyMatch.cpp on the attributes of a path and on a
    prefix, with [PrefixTree] (policy/base/PolicyMatchBase.cpp) and
    [CompareNumValue].  A match is the object its constructor builds from the
    configuration (PolicyTerm.v). *)

From stdpp Require Import gmap strings pretty.
From Stdlib Require Import Ascii.
From S2P Require Import Prelude BgpException Folly BgpStructs RouteFilter RouteInfo PathFields PolicyAction.

(** ** Comparisons *)

Inductive PolicyComparisonOperator := OP_EQ | OP_GE | OP_LE | OP_NE | OP_GT | OP_LT.

(** The arguments are [int]. *)
Definition CompareNumValue (op : PolicyComparisonOperator) (value_to_compare value : Z) : bool :=
  let value := sint 32 value in
  match op with
  | OP_EQ => value_to_compare =? value
  | OP_GE => value_to_compare <=? value
  | OP_LE => value <=? value_to_compare
  | OP_NE => negb (value_to_compare =? value)
  | OP_GT => value_to_compare <? value
  | OP_LT => value <? value_to_compare
  end.

Definition CompareNumericValue : Type := PolicyComparisonOperator * Z.

(** ** Prefix trees *)

(** facebook::network::RadixTree, re2 and the text of an address. *)
Class PrefixLibs := {
  re2 : Type;
  re2_new : string -> re2;
  FullMatch : string -> re2 -> bool;
  (** [IPAddress::createNetwork], [None] on a malformed text *)
  createNetwork : string -> option CIDRNetwork;
  toFullyQualified : IPAddress -> string;
  tree : Type -> Type;
  emptyTree : forall {V}, tree V;
  tree_insert : forall {V}, CIDRNetwork -> V -> tree V -> tree V;
  tree_entries : forall {V}, tree V -> list (CIDRNetwork * V);
  (** the nodes with values from the root to the longest match; [None] without one *)
  longestMatchWithTrail : forall {V}, tree V -> CIDRNetwork -> option (list (CIDRNetwork * V))
}.

Section PrefixTree.
Context `{PrefixLibs}.

Inductive PrefixLenOrRegexComp :=
| PrefixLenRanges (ranges : list CompareNumericValue)
| PrefixRegex (r : re2).

Record PrefixTree := mkPrefixTree {
  radixTree_ : tree (list PrefixLenOrRegexComp);
  origOrder_ : list (CIDRNetwork * (Z * bool));
  needCheckOrder_ : bool;
  prefixListNames_ : list string
}.

Definition compMatches (prefix : CIDRNetwork) (c : PrefixLenOrRegexComp) : bool :=
  match c with
  | PrefixLenRanges ranges => forallb (fun r => CompareNumValue r.1 r.2 prefix.2) ranges
  | PrefixRegex r => FullMatch (toFullyQualified prefix.1 +:+ "/" +:+ pretty prefix.2) r
  end.

(** The conditions of the trail that hold, with their node. *)
Definition trailMatches (trail : list (CIDRNetwork * list PrefixLenOrRegexComp))
    (prefix : CIDRNetwork) : list CIDRNetwork :=
  trail ≫= (fun '(node, comps) => (fun _ => node) <$> List.filter (compMatches prefix) comps).

Definition rankOf (t : PrefixTree) (node : CIDRNetwork) : option (Z * bool) :=
  snd <$> head (filter (fun e => e.1 = node) (origOrder_ t)).

(** The front of the matches sorted by rank. *)
Definition bestRank (ranks : list (Z * bool)) : option (Z * bool) :=
  match ranks with
  | [] => None
  | r :: rs => Some (fold_left (fun best r => if r.1 <? best.1 then r else best) rs r)
  end.

Definition prefixTreeMatch (t : PrefixTree) (prefix : CIDRNetwork) : bool :=
  match longestMatchWithTrail (radixTree_ t) prefix with
  | None => false
  | Some trail =>
      let matched := trailMatches trail prefix in
      if negb (needCheckOrder_ t) || negb (nonempty (origOrder_ t)) then nonempty matched
      else match bestRank (omap (rankOf t) matched) with
           | Some (_, match_) => match_
           | None => false
           end
  end.
End PrefixTree.

(** ** Matches on attributes *)

Inductive BooleanOperator := BOOL_AND | BOOL_OR | BOOL_NOT.
#[export] Instance BooleanOperator_eq_dec : EqDecision BooleanOperator.
Proof. solve_decision. Defined.
Definition isOr (op : BooleanOperator) : bool := bool_decide (op = BOOL_OR).

Section Matches.
Context `{L : PolicyLibs}.

Record CommunityMatch := mkCommunityMatch {
  cm_boolean_operator : BooleanOperator;
  cm_exact_match : option bool;
  communityStrings_ : gset string;
  communityStringsDoNotMatch_ : gset string;
  cm_regexs : list regex;
  cm_listNames : list string
}.

Record AsPathMatch := mkAsPathMatch {
  ap_boolean_operator : BooleanOperator;
  asPathRegexs_ : list regex;
  ap_listNames : list string
}.

Inductive PolicyMatch :=
| MatchCommunity (m : CommunityMatch)
| MatchCommunityCount (v : CompareNumericValue)
| MatchOrigin (origin : Z)
| MatchAsPath (m : AsPathMatch)
| MatchAsPathLen (vs : list CompareNumericValue)
| MatchAsPathLenWithConfed (vs : list CompareNumericValue)
| MatchWeight (v : CompareNumericValue)
| MatchAlways.

(** [ConvertAttrCommunitiesToStringSet] *)
Definition communityStringSet (cs : list BgpAttrCommunity) : gset string :=
  list_to_set (communityStr <$> cs).

Definition ExactMatch (m : CommunityMatch) (fromAttr : gset string) : bool :=
  forallb (fun comm => bool_decide (comm ∈ communityStrings_ m) ||
                       existsb (regex_match comm) (cm_regexs m)) (elements fromAttr).

Definition communityMatchAny (m : CommunityMatch) (p : BgpPathFields) : bool :=
  let fromAttr := communityStringSet (getCommunities p) in
  let isMatch :=
    existsb (fun comm => bool_decide (comm ∈ fromAttr)) (elements (communityStrings_ m)) ||
    existsb (fun comm => negb (bool_decide (comm ∈ fromAttr)))
      (elements (communityStringsDoNotMatch_ m)) ||
    existsb (fun comm => existsb (regex_match comm) (cm_regexs m)) (elements fromAttr) in
  if isMatch && default false (cm_exact_match m) then ExactMatch m fromAttr else isMatch.

Definition communityMatchAll (m : CommunityMatch) (p : BgpPathFields) : bool :=
  let fromAttr := communityStringSet (getCommunities p) in
  let isMatch := bool_decide (communityStrings_ m ⊆ fromAttr) &&
                 bool_decide (fromAttr ## communityStringsDoNotMatch_ m) in
  if isMatch then
    let isMatch := forallb (fun r => existsb (fun comm => regex_match comm r) (elements fromAttr))
                     (cm_regexs m) in
    if default false (cm_exact_match m) then ExactMatch m fromAttr else isMatch
  else false.

Definition communityMatch (m : CommunityMatch) (p : BgpPathFields) : bool :=
  if negb (nonempty (getCommunities p)) then
    negb (nonempty (cm_regexs m)) && bool_decide (communityStrings_ m = ∅)
  else if isOr (cm_boolean_operator m) then communityMatchAny m p else communityMatchAll m p.

(** An exception of the search ends the match with [false]. *)
Fixpoint asPathSearchAny (rs : list regex) (s : string) : bool :=
  match rs with
  | [] => false
  | r :: rs =>
      match regex_search s r with
      | None => false
      | Some true => true
      | Some false => asPathSearchAny rs s
      end
  end.
Definition asPathSearchAll (rs : list regex) (s : string) : bool :=
  forallb (fun r => default false (regex_search s r)) rs.

(** The path is one string. *)
Definition asPathStr (p : BgpPathFields) : string := default "" (head (getFullBgpAsPathAsString p)).

Definition asPathMatch (m : AsPathMatch) (p : BgpPathFields) : bool :=
  if negb (nonempty (asPathRegexs_ m)) then false
  else if isOr (ap_boolean_operator m) then asPathSearchAny (asPathRegexs_ m) (asPathStr p)
  else asPathSearchAll (asPathRegexs_ m) (asPathStr p).

Definition matchPolicy (m : PolicyMatch) (p : BgpPathFields) : bool :=
  match m with
  | MatchCommunity m => communityMatch m p
  | MatchCommunityCount v => CompareNumValue v.1 v.2 (blen (getCommunities p))
  | MatchOrigin o =>
      match policyOrigin o with Some v => getOrigin p =? v | None => false end
  | MatchAsPath m => asPathMatch m p
  | MatchAsPathLen vs => forallb (fun v => CompareNumValue v.1 v.2 (getBgpAsPathLen p)) vs
  | MatchAsPathLenWithConfed vs =>
      forallb (fun v => CompareNumValue v.1 v.2 (getBgpAsPathLenWithConfed p)) vs
  | MatchWeight v => CompareNumValue v.1 v.2 (getWeight p)
  | MatchAlways => true
  end.
End Matches.
#[global] Arguments CommunityMatch {L} : assert.
#[global] Arguments AsPathMatch {L} : assert.
#[global] Arguments PolicyMatch {L} : assert.

(** ** Community lists mean what they say *)

Fixpoint hasColon (s : string) : bool :=
  match s with
  | EmptyString => false
  | String c s => Ascii.eqb c ":"%char || hasColon s
  end.

Lemma colon_split s1 : forall s2 t1 t2,
  hasColon s1 = false -> hasColon s2 = false ->
  s1 +:+ ":" +:+ t1 = s2 +:+ ":" +:+ t2 -> s1 = s2 /\ t1 = t2.
Proof.
  induction s1 as [|c s1 IH]; intros [|c' s2] t1 t2 H1 H2 Heq; simpl in *.
  - by simplify_eq.
  - by simplify_eq/=.
  - by simplify_eq/=.
  - apply orb_false_iff in H1 as [_ H1], H2 as [_ H2]. simplify_eq.
    destruct (IH s2 t1 t2 H1 H2) as [-> ->]; done.
Qed.

Lemma pretty_N_no_colon x : forall s, hasColon s = false -> hasColon (pretty_N_go x s) = false.
Proof.
  induction (N.lt_wf_0 x) as [x _ IH]; intros s Hs.
  assert (x = 0 \/ 0 < x)%N as [->|Hx] by lia; [done|].
  rewrite pretty_N_go_step by done. apply IH; [by apply N.div_lt|].
  simpl. rewrite Hs. unfold pretty_N_char. by repeat case_match.
Qed.

Lemma pretty_Z_no_colon (n : Z) : hasColon (pretty n) = false.
Proof. destruct n; [done|by apply pretty_N_no_colon|simpl; by apply pretty_N_no_colon]. Qed.

#[export] Instance communityStr_inj : Inj (=) (=) communityStr.
Proof.
  intros [a1 v1] [a2 v2] Heq. apply colon_split in Heq as [Ha Hv]; [|apply pretty_Z_no_colon..].
  apply (inj pretty) in Ha, Hv. simpl in *. by subst.
Qed.

Section CommunityValues.
Context `{L : PolicyLibs}.

Lemma in_string_set c cs : communityStr c ∈ communityStringSet cs <-> c ∈ cs.
Proof.
  unfold communityStringSet. rewrite elem_of_list_to_set, list_elem_of_fmap.
  split; [|by exists c]. intros (c' & Heq & Hin). by apply (inj communityStr) in Heq as ->.
Qed.

Lemma exists_in_set (f : string -> bool) cs :
  existsb f (elements (communityStringSet cs)) = true <-> exists c, c ∈ cs /\ f (communityStr c) = true.
Proof.
  rewrite existsb_exists. unfold communityStringSet. split.
  - intros (s & Hin & Hf). apply list_elem_of_In, elem_of_elements, elem_of_list_to_set in Hin.
    apply list_elem_of_fmap in Hin as (c & -> & Hin). eauto.
  - intros (c & Hin & Hf). exists (communityStr c). split; [|done].
    apply list_elem_of_In, elem_of_elements, elem_of_list_to_set, list_elem_of_fmap. eauto.
Qed.

Lemma forall_in_set (f : string -> bool) cs :
  forallb f (elements (communityStringSet cs)) = true <-> forall c, c ∈ cs -> f (communityStr c) = true.
Proof.
  rewrite forallb_forall. unfold communityStringSet. split.
  - intros Hf c Hin. apply Hf. apply list_elem_of_In, elem_of_elements, elem_of_list_to_set,
      list_elem_of_fmap. eauto.
  - intros Hf s Hin. apply list_elem_of_In, elem_of_elements, elem_of_list_to_set in Hin.
    apply list_elem_of_fmap in Hin as (c & -> & Hin). auto.
Qed.

(** A match on listed communities, without regular expressions, decides
    by the communities themselves and not by their text: with OR some listed
    community has to be on the path, with AND all of them, and with an exact match
    the path may have no other. *)
Theorem community_match_values (m : CommunityMatch) (cs : list BgpAttrCommunity) (p : BgpPathFields)
    (Hregex : cm_regexs m = []) (Hnot : communityStringsDoNotMatch_ m = ∅)
    (Hstrings : communityStrings_ m = communityStringSet cs) (Hne : getCommunities p <> []) :
  communityMatch m p = true <->
  (if isOr (cm_boolean_operator m) then exists c, c ∈ cs /\ c ∈ getCommunities p
   else forall c, c ∈ cs -> c ∈ getCommunities p) /\
  (cm_exact_match m = Some true -> forall c, c ∈ getCommunities p -> c ∈ cs).
Proof.
  assert (Hexact : ExactMatch m (communityStringSet (getCommunities p)) = true <->
                   forall c, c ∈ getCommunities p -> c ∈ cs).
  { unfold ExactMatch. rewrite forall_in_set, Hregex, Hstrings. simpl.
    setoid_rewrite orb_false_r. setoid_rewrite bool_decide_eq_true.
    by setoid_rewrite in_string_set. }
  assert (Hany : existsb (fun comm => bool_decide (comm ∈ communityStringSet (getCommunities p)))
                   (elements (communityStringSet cs)) = true <->
                 exists c, c ∈ cs /\ c ∈ getCommunities p).
  { rewrite exists_in_set. setoid_rewrite bool_decide_eq_true. by setoid_rewrite in_string_set. }
  assert (Hall : communityStringSet cs ⊆ communityStringSet (getCommunities p) <->
                 forall c, c ∈ cs -> c ∈ getCommunities p).
  { split.
    - intros Hs c Hc. apply in_string_set, Hs. by apply in_string_set.
    - intros Hs s Hin. unfold communityStringSet in Hin. rewrite elem_of_list_to_set in Hin.
      apply list_elem_of_fmap in Hin as (c & -> & Hin). apply in_string_set. auto. }
  assert (Hempty : existsb (fun comm => existsb (regex_match comm) [])
                     (elements (communityStringSet (getCommunities p))) = false)
    by (induction (elements (communityStringSet (getCommunities p))); done).
  unfold communityMatch. destruct (nonempty (getCommunities p)) eqn:E;
    [|by destruct (getCommunities p)]. cbn [negb].
  destruct (isOr (cm_boolean_operator m)).
  - unfold communityMatchAny. rewrite Hnot, Hregex, Hstrings, elements_empty, Hempty. cbn [existsb].
    rewrite !orb_false_r, <- Hany, <- Hexact.
    destruct (existsb _ _), (cm_exact_match m) as [[]|]; simpl; naive_solver.
  - unfold communityMatchAll. rewrite Hnot, Hregex, Hstrings, <- Hall, <- Hexact. cbn [forallb].
    rewrite (bool_decide_true (_ ## ∅)) by set_solver. rewrite andb_true_r.
    case_bool_decide; destruct (cm_exact_match m) as [[]|]; simpl; naive_solver.
Qed.
End CommunityValues.

(** ** Samples *)

(** Regular expressions that match the one string they are. *)
Definition literal_libs : PolicyLibs := {|
  regex := string;
  regex_compile s := Some s;
  regex_match s r := bool_decide (s = r);
  regex_search s r := Some (bool_decide (s = r));
  split_u16 s := if decide (s = "65001:1") then Some [65001; 1]
                 else if decide (s = "65001:2") then Some [65001; 2] else None;
  ip_parse s := if decide (s = "10.0.0.1") then Some (IPV4 [10; 0; 0; 1]) else None
|}.

Definition sample_tagged : BgpPathFields :=
  setCommunities [mkCommunity 65001 1; mkCommunity 65001 2] defaultPathFields.

Lemma community_match_values_witness :
  communityMatch (L := literal_libs)
    (mkCommunityMatch BOOL_AND (Some true) (communityStringSet [mkCommunity 65001 2; mkCommunity 65001 1])
       ∅ [] []) sample_tagged = true.
Proof.
  assert (Hg : getCommunities sample_tagged = [mkCommunity 65001 1; mkCommunity 65001 2])
    by (vm_compute; reflexivity).
  apply (proj2 (community_match_values (L := literal_libs) (mkCommunityMatch BOOL_AND (Some true)
    (communityStringSet [mkCommunity 65001 2; mkCommunity 65001 1]) ∅ [] [])
    [mkCommunity 65001 2; mkCommunity 65001 1] sample_tagged
    eq_refl eq_refl eq_refl ltac:(by rewrite Hg))).
  simpl. rewrite Hg. split; [|intros _]; intros c; rewrite !elem_of_cons; tauto.
Defined.

(** With AND and an exact match, a regular expression that no community matches
    is ignored. *)
Lemma exact_match_ignores_regex :
  communityMatch (L := literal_libs)
    (mkCommunityMatch (L := literal_libs) BOOL_AND (Some true) {["65001:1"; "65001:2"]} ∅ ["65001:9"] []) sample_tagged = true
  /\
  communityMatch (L := literal_libs)
    (mkCommunityMatch (L := literal_libs) BOOL_AND (Some false) {["65001:1"; "65001:2"]} ∅ ["65001:9"] []) sample_tagged = false.
Proof. split; vm_compute; reflexivity. Qed.
