(* ===== verification/PolicyEngine.v ===== *)
(** * The policy engine

    policy/base/: a policy is a list of terms, each with matches on the
    attributes and on the prefix, actions on the attributes and a decision on
    what happens next.  [applyPolicy] runs a group of prefixes that share one
    attributes object through the terms, splitting the group where prefixes
    decide differently.  The attributes are objects of a store: a term clones an
    object before it changes it only when the object is published.

    [PolicyClasses] are the virtual functions an instance of the engine
    provides; policy/PolicyTerm.cpp provides them for BGP. *)

From stdpp Require Import gmap fin_maps strings.
From S2P Require Import Prelude.

(** The flow control actions (PolicyActionBase.h); the flag asks for a log line. *)
Inductive FlowAction :=
| DenyAction (enableLog : bool)
| AllowAction (enableLog : bool)
| ContinueAction (enableLog : bool)
| LogContinueAction (enableLog : bool)
| GotoAction (term : string).

(** [PolicyMatchBase::Match], [PolicyAttributesActionBase::applyAction] and
    [PolicyTermBase::hasInvalidAttrsPostAction].  An action may change the
    attributes and the action data it is given, and [None] is a failed [CHECK]. *)
Class PolicyClasses (A D MD P M PM Act : Type) := {
  Match : M -> A -> option MD -> bool;
  MatchPrefix : PM -> P -> bool;
  applyAction : Act -> A -> option D -> option (A * option D);
  hasInvalidAttrsPostAction : option D -> option string
}.

Record PolicyTermBase {M PM Act : Type} := mkTerm {
  termName_ : string;
  attributesMatches_ : list M;
  prefixMatches_ : list PM;
  actions_ : list Act;
  termMissFlowControlAction_ : FlowAction;
  termMatchFlowControlAction_ : FlowAction
}.
Arguments PolicyTermBase : clear implicits.
Arguments mkTerm {M PM Act}.

Record PolicyBase {M PM Act : Type} := mkPolicy {
  policyName_ : string;
  policyTerms_ : list (PolicyTermBase M PM Act);
  defaultAllow_ : bool
}.
Arguments PolicyBase : clear implicits.
Arguments mkPolicy {M PM Act}.

Section Engine.
Context {A D MD P M PM Act : Type} `{Countable P} `{C : PolicyClasses A D MD P M PM Act}.
Notation Term := (PolicyTermBase M PM Act).
Notation Policy := (PolicyBase M PM Act).

(** ** The objects and the entry *)

(** The objects in use by address, each with its published flag. *)
Abbreviation Store := (list (bool * A)).

(** [PolicyEntryBase], with the store and the action data it points to. *)
Record PolicyEntryBase := mkEntry {
  processingEntries_ : list (nat * gset P * option string);
  processedEntries_ : gmap P (option nat * string);
  store : Store;
  policyActionData_ : option D;
  policyMatchData_ : option MD
}.

Definition newEntry (st : Store) (attrs : nat) (prefixes : list P) (data : option D)
    (matchData : option MD) : PolicyEntryBase :=
  mkEntry [(attrs, list_to_set prefixes, None)] ∅ st data matchData.

Definition addPrefixesToProcessingEntries (attr : nat) (prefixes : gset P)
    (gotoTerm : option string) (e : PolicyEntryBase) : PolicyEntryBase :=
  mkEntry (processingEntries_ e ++ [(attr, prefixes, gotoTerm)]) (processedEntries_ e) (store e)
    (policyActionData_ e) (policyMatchData_ e).

(** [CHECK]s that no prefix is there already. *)
Definition addPrefixesToProcessedEntries (attr : option nat) (prefixes : gset P)
    (policyName : string) (e : PolicyEntryBase) : option PolicyEntryBase :=
  if decide (prefixes ## dom (processedEntries_ e)) then
    Some (mkEntry (processingEntries_ e)
            (gset_to_gmap (attr, policyName) prefixes ∪ processedEntries_ e) (store e)
            (policyActionData_ e) (policyMatchData_ e))
  else None.

Definition getAndResetProcessingEntries (e : PolicyEntryBase)
    : list (nat * gset P * option string) * PolicyEntryBase :=
  (processingEntries_ e,
   mkEntry [] (processedEntries_ e) (store e) (policyActionData_ e) (policyMatchData_ e)).

Definition defaultReason (policyName : string) (defaultAllow : bool) : string :=
  "Did not match any policy term in " +:+ policyName +:+ ". " +:+
  (if defaultAllow then "Default allowed" else "Default denied").

(** The body of the loop of [completeProcessing]. *)
Definition completeEntry (policyName : string) (defaultAllow : bool)
    (entry : nat * gset P * option string) (e : PolicyEntryBase) : option PolicyEntryBase :=
  let '(attrs, prefixSet, _) := entry in
  addPrefixesToProcessedEntries (if defaultAllow then Some attrs else None) prefixSet
    (defaultReason policyName defaultAllow) e.

Definition completeProcessing (policyName : string) (defaultAllow : bool) (e : PolicyEntryBase)
    : option PolicyEntryBase :=
  let '(entries, e) := getAndResetProcessingEntries e in
  foldr (fun entry k e => e ← completeEntry policyName defaultAllow entry e; k e) Some entries e.

(** ** A term *)

Section Term.
Variable policyName : string.
Variable t : Term.

Definition shownName : string := if decide (termName_ t = "") then "N/A" else termName_ t.

Definition denyReason (suffix : string) : string :=
  "Denied by " +:+ policyName +:+ " term " +:+ shownName +:+
  (if decide (suffix = "") then "" else " " +:+ suffix).
Definition allowReason : string :=
  "Accepted/Modified by " +:+ policyName +:+ " term " +:+ shownName.

Definition applyDenyAction (prefixes : gset P) (reasonSuffix : string) (e : PolicyEntryBase)
    : option PolicyEntryBase :=
  addPrefixesToProcessedEntries None prefixes (denyReason reasonSuffix) e.

Definition applyAllowAction (attr : nat) (prefixes : gset P) (e : PolicyEntryBase)
    : option PolicyEntryBase :=
  addPrefixesToProcessedEntries (Some attr) prefixes allowReason e.

Definition applyActionsOnMiss (attr : nat) (prefixes : gset P) (e : PolicyEntryBase)
    : option PolicyEntryBase :=
  match termMissFlowControlAction_ t with
  | DenyAction _ => applyDenyAction prefixes "" e
  | AllowAction _ => applyAllowAction attr prefixes e
  | _ => Some (addPrefixesToProcessingEntries attr prefixes None e)
  end.

(** [PolicyTerm::copyAttr]: clones a published object. *)
Definition copyAttr (attr : nat) (e : PolicyEntryBase) : option (nat * PolicyEntryBase) :=
  '(published, a) ← store e !! attr;
  Some (if published : bool
        then (length (store e), mkEntry (processingEntries_ e) (processedEntries_ e)
                                  (store e ++ [(false, a)]) (policyActionData_ e)
                                  (policyMatchData_ e))
        else (attr, e)).

(** Changes an object in place; [None] if it is published. *)
Definition modifyAttr (act : Act) (attr : nat) (e : PolicyEntryBase) : option PolicyEntryBase :=
  '(published, a) ← store e !! attr;
  if published : bool then None
  else
  '(a, data) ← applyAction act a (policyActionData_ e);
  Some (mkEntry (processingEntries_ e) (processedEntries_ e) (<[attr := (false, a)]> (store e))
          data (policyMatchData_ e)).

Definition getMatchGotoTerm : string :=
  match termMatchFlowControlAction_ t with GotoAction n => n | _ => "" end.

Definition applyActions (attr : nat) (prefixes : gset P) (e : PolicyEntryBase)
    : option PolicyEntryBase :=
  match termMatchFlowControlAction_ t with
  | DenyAction _ => applyDenyAction prefixes "" e
  | flow =>
      '(attr, e) ← (match actions_ t with
                     | [] => Some (attr, e)
                     | acts =>
                         '(attr, e) ← copyAttr attr e;
                         e ← foldr (fun act k e => e ← modifyAttr act attr e; k e) Some acts e;
                         Some (attr, e)
                     end);
      match hasInvalidAttrsPostAction (policyActionData_ e) with
      | Some reason => applyDenyAction prefixes reason e
      | None =>
          match flow with
          | AllowAction _ => applyAllowAction attr prefixes e
          | GotoAction _ =>
              Some (addPrefixesToProcessingEntries attr prefixes (Some getMatchGotoTerm) e)
          | _ => Some (addPrefixesToProcessingEntries attr prefixes None e)
          end
      end
  end.

Definition matchesAttrs (a : A) (matchData : option MD) : bool :=
  forallb (fun m => Match m a matchData) (attributesMatches_ t).
Definition matchesPrefix (p : P) : bool := forallb (fun m => MatchPrefix m p) (prefixMatches_ t).

Definition applyPerPrefixMatches (attr : nat) (prefixes : gset P) (e : PolicyEntryBase)
    : option PolicyEntryBase :=
  let matched := filter (fun p => matchesPrefix p = true) prefixes in
  let unmatched := filter (fun p => matchesPrefix p = false) prefixes in
  e ← (if decide (unmatched = ∅) then Some e else applyActionsOnMiss attr unmatched e);
  if decide (matched = ∅) then Some e else applyActions attr matched e.

(** A group that has to jump to another term. *)
Definition skips (gotoTerm : option string) : bool :=
  match gotoTerm with Some n => negb (bool_decide (n = termName_ t)) | None => false end.

(** The body of the loop of [applyTerm]. *)
Definition applyTermTo (entry : nat * gset P * option string) (e : PolicyEntryBase)
    : option PolicyEntryBase :=
  let '(attrs, prefixSet, gotoTerm) := entry in
  if skips gotoTerm then
    Some (addPrefixesToProcessingEntries attrs prefixSet gotoTerm e)
  else
  '(_, a) ← store e !! attrs;
  if negb (matchesAttrs a (policyMatchData_ e)) then applyActionsOnMiss attrs prefixSet e
  else
  match prefixMatches_ t with
  | [] => applyActions attrs prefixSet e
  | _ => applyPerPrefixMatches attrs prefixSet e
  end.

Definition applyTerm (e : PolicyEntryBase) : option PolicyEntryBase :=
  let '(processingEntries, e) := getAndResetProcessingEntries e in
  foldr (fun entry k e => e ← applyTermTo entry e; k e) Some processingEntries e.
End Term.

(** ** A policy *)

Fixpoint applyTerms (policyName : string) (terms : list Term) (e : PolicyEntryBase)
    : option PolicyEntryBase :=
  match terms with
  | [] => Some e
  | t :: terms =>
      e ← applyTerm policyName t e;
      match processingEntries_ e with
      | [] => Some e
      | _ => applyTerms policyName terms e
      end
  end.

(** The verdicts, the objects afterwards and the action data. *)
Definition applyPolicy (policy : Policy) (st : Store) (attrs : nat) (prefixes : list P)
    (data : option D) (matchData : option MD)
    : option (gmap P (option nat * string) * Store * option D) :=
  e ← applyTerms (policyName_ policy) (policyTerms_ policy) (newEntry st attrs prefixes data matchData);
  e ← completeProcessing (policyName_ policy) (defaultAllow_ policy) e;
  Some (processedEntries_ e, store e, policyActionData_ e).

(** ** Validation of a policy *)

Inductive PolicyError := InvalidArgument | LogicError | OutOfRange | BgpErr | CheckFailed.

Fixpoint validateTerms (terms : list Term) (visited gotos : gset string)
    : result PolicyError unit :=
  match terms with
  | [] => if decide (gotos = ∅) then Ok tt else Throw OutOfRange
  | t :: terms =>
      let name := termName_ t in
      let gotos := gotos ∖ {[name]} in
      if decide (name <> "" /\ name ∈ visited) then Throw InvalidArgument
      else
      let visited := if decide (name = "") then visited else {[name]} ∪ visited in
      let goto := getMatchGotoTerm t in
      if decide (goto = "") then validateTerms terms visited gotos
      else if decide (goto ∈ visited) then Throw LogicError
      else validateTerms terms visited ({[goto]} ∪ gotos)
  end.

Definition validatePolicyTerms (policy : Policy) : result PolicyError unit :=
  validateTerms (policyTerms_ policy) ∅ ∅.
End Engine.
Arguments PolicyEntryBase A D MD P {_ _} : assert.
