(* ===== verification/PolicyEngineSpec.v ===== *)
(** * The policy engine: what a policy decides

    The engine of PolicyEngine.v works on groups of prefixes and on objects of a
    store.  [evalPolicy] is what a policy means for one prefix and the value of
    its attributes: no store, no groups.  The theorems relate the two, show that
    every prefix of a group gets exactly one verdict, and that the jumps of a
    validated policy go forward to the one term they name. *)

From stdpp Require Import gmap fin_maps strings.
From S2P Require Import Prelude PolicyEngine.

Local Open Scope nat_scope.

Section Spec.
Context {A D MD P M PM Act : Type} `{Countable P} `{C : PolicyClasses A D MD P M PM Act}.
Notation Term := (PolicyTermBase M PM Act).
Notation Policy := (PolicyBase M PM Act).
Notation Entry := (PolicyEntryBase A D MD P).
Notation Store := (list (bool * A)).

(** ** The meaning of a policy for one prefix *)

Inductive Step :=
| Decided (verdict : option A) (reason : string) (data : option D)
| Pending (goto : option string) (a : A) (data : option D).

Fixpoint runActions (acts : list Act) (a : A) (data : option D) : option (A * option D) :=
  match acts with
  | [] => Some (a, data)
  | act :: acts => '(a, data) ← applyAction act a data; runActions acts a data
  end.

Section OneTerm.
Variable policyName : string.
Variable t : Term.

Definition evalMiss (a : A) (data : option D) : Step :=
  match termMissFlowControlAction_ t with
  | DenyAction _ => Decided None (denyReason policyName t "") data
  | AllowAction _ => Decided (Some a) (allowReason policyName t) data
  | _ => Pending None a data
  end.

Definition evalHit (a : A) (data : option D) : option Step :=
  match termMatchFlowControlAction_ t with
  | DenyAction _ => Some (Decided None (denyReason policyName t "") data)
  | flow =>
      '(a, data) ← runActions (actions_ t) a data;
      Some (match hasInvalidAttrsPostAction data with
            | Some reason => Decided None (denyReason policyName t reason) data
            | None =>
                match flow with
                | AllowAction _ => Decided (Some a) (allowReason policyName t) data
                | GotoAction n => Pending (Some n) a data
                | _ => Pending None a data
                end
            end)
  end.

Definition evalTerm (md : option MD) (p : P) (goto : option string) (a : A) (data : option D)
    : option Step :=
  if skips t goto then Some (Pending goto a data)
  else if matchesAttrs t a md && matchesPrefix t p then evalHit a data
  else Some (evalMiss a data).
End OneTerm.

Fixpoint evalTerms (policyName : string) (md : option MD) (p : P) (terms : list Term)
    (goto : option string) (a : A) (data : option D) : option Step :=
  match terms with
  | [] => Some (Pending goto a data)
  | t :: terms =>
      s ← evalTerm policyName t md p goto a data;
      match s with
      | Decided _ _ _ => Some s
      | Pending goto a data => evalTerms policyName md p terms goto a data
      end
  end.

(** The attributes the prefix is accepted with, or [None]; why; the action data. *)
Definition evalPolicy (policy : Policy) (md : option MD) (p : P) (a : A) (data : option D)
    : option (option A * string * option D) :=
  s ← evalTerms (policyName_ policy) md p (policyTerms_ policy) None a data;
  Some (match s with
        | Decided v r data => (v, r, data)
        | Pending _ a data =>
            ((if defaultAllow_ policy then Some a else None),
             defaultReason (policyName_ policy) (defaultAllow_ policy), data)
        end).

(** ** One prefix: the engine computes the meaning *)

Section OnePrefix.
Variable p : P.
Variable st0 : Store.
Variable attrs0 : nat.
Variable md : option MD.

(** Only the object the caller passed can change, and only if it is not published. *)
Definition frame (st : Store) : Prop :=
  length st0 <= length st /\
  forall i b a, st0 !! i = Some (b, a) ->
    (exists a', st !! i = Some (b, a')) /\
    (i <> attrs0 \/ b = true -> st !! i = Some (b, a)).

Definition verdictOf (st : Store) (x : option nat) (v : option A) : Prop :=
  match x, v with
  | None, None => True
  | Some i, Some a => exists b, st !! i = Some (b, a)
  | _, _ => False
  end.

Definition represents (e : Entry) (s : Step) : Prop :=
  policyMatchData_ e = md /\ frame (store e) /\
  match s with
  | Decided v r data =>
      processingEntries_ e = [] /\ policyActionData_ e = data /\
      exists x, processedEntries_ e = {[p := (x, r)]} /\ verdictOf (store e) x v
  | Pending goto a data =>
      processedEntries_ e = ∅ /\ policyActionData_ e = data /\
      exists attr b, processingEntries_ e = [(attr, {[p]}, goto)] /\
        store e !! attr = Some (b, a) /\ (attr = attrs0 \/ length st0 <= attr)
  end.

(** The engine fails where the meaning fails, and represents it elsewhere. *)
Definition agree (oe : option Entry) (os : option Step) : Prop :=
  match oe, os with
  | Some e, Some s => represents e s
  | None, None => True
  | _, _ => False
  end.

(** The entry while a term works on the group taken out of it. *)
Definition working (e : Entry) (attr : nat) (a : A) (data : option D) : Prop :=
  policyMatchData_ e = md /\ frame (store e) /\ processingEntries_ e = [] /\
  processedEntries_ e = ∅ /\ policyActionData_ e = data /\
  (exists b, store e !! attr = Some (b, a)) /\ (attr = attrs0 \/ length st0 <= attr).

Lemma decide_represents e attr a data x v r :
  working e attr a data -> verdictOf (store e) x v ->
  exists e', addPrefixesToProcessedEntries x {[p]} r e = Some e' /\
    represents e' (Decided v r data).
Proof.
  intros (Hm & Hf & Hp & Hd & Hdata & _) Hv. unfold addPrefixesToProcessedEntries.
  rewrite decide_True by (rewrite Hd; set_solver). eexists; split; [reflexivity|].
  split; [done|]. split; [done|]. split; [done|]. split; [done|]. exists x. split; [|done].
  simpl. rewrite Hd, map_union_empty. apply map_eq; intros q.
  destruct (decide (q = p)) as [->|Hq]; simplify_map_eq.
  - apply lookup_gset_to_gmap_Some. set_solver.
  - apply lookup_gset_to_gmap_None. set_solver.
Qed.

Lemma pending_represents e attr a data goto :
  working e attr a data ->
  represents (addPrefixesToProcessingEntries attr {[p]} goto e) (Pending goto a data).
Proof.
  intros (Hm & Hf & Hp & Hd & Hdata & [b Hb] & Ho).
  split; [done|]. split; [done|]. split; [done|]. split; [done|]. exists attr, b. simpl. by rewrite Hp.
Qed.

Lemma frame_insert st attr a a' :
  frame st -> st !! attr = Some (false, a) -> attr = attrs0 \/ length st0 <= attr ->
  frame (<[attr := (false, a')]> st).
Proof.
  intros [Hl Hf] Hat Ho. split; [by rewrite length_insert|]. intros i b x Hi.
  destruct (Hf i b x Hi) as [[y Hy] Hsame].
  destruct (decide (i = attr)) as [->|Hne].
  - rewrite list_lookup_insert_eq by (eapply lookup_lt_Some; eauto).
    rewrite Hat in Hy. simplify_eq. split; [eauto|]. intros [Hn| [=]].
    destruct Ho as [->|Hlt]; [done|]. apply lookup_lt_Some in Hi. lia.
  - rewrite list_lookup_insert_ne by done. eauto.
Qed.

Lemma frame_app st x : frame st -> frame (st ++ [x]).
Proof.
  intros [Hl Hf]. split; [rewrite length_app; simpl; lia|]. intros i b a Hi.
  destruct (Hf i b a Hi) as [[y Hy] Hsame]. split.
  - exists y. by apply lookup_app_l_Some.
  - intros Hc. apply lookup_app_l_Some. auto.
Qed.

Lemma copyAttr_working e attr a data :
  working e attr a data ->
  exists attr' e', copyAttr attr e = Some (attr', e') /\ working e' attr' a data /\
    store e' !! attr' = Some (false, a).
Proof.
  intros (Hm & Hf & Hp & Hd & Hdata & [b Hb] & Ho). unfold copyAttr. rewrite Hb. simpl.
  destruct b; eexists _, _; (split; [reflexivity|]); simpl.
  - assert (Hl : (store e ++ [(false, a)]) !! length (store e) = Some (false, a))
      by (by rewrite lookup_app_r, Nat.sub_diag by lia).
    split; [|done]. split_and!; simpl; eauto using frame_app. right. apply Hf.
  - split; [|done]. split_and!; eauto.
Qed.

Lemma modifyAttr_eq act attr (e : Entry) a :
  store e !! attr = Some (false, a) ->
  modifyAttr act attr e =
    '(a, data) ← applyAction act a (policyActionData_ e);
    Some (mkEntry (processingEntries_ e) (processedEntries_ e)
            (<[attr := (false, a)]> (store e)) data (policyMatchData_ e)).
Proof. intros Hat. unfold modifyAttr. by rewrite Hat. Qed.

Lemma runActions_working acts : forall e attr a data,
  working e attr a data -> store e !! attr = Some (false, a) ->
  match foldr (fun act k e => e ← modifyAttr act attr e; k e) Some acts e, runActions acts a data with
  | Some e', Some (a', data') => working e' attr a' data'
  | None, None => True
  | _, _ => False
  end.
Proof.
  induction acts as [|act acts IH]; intros e attr a data Hw Hat; simpl; [done|].
  pose proof Hw as (Hm & Hf & Hp & Hd & Hdata & _ & Ho).
  rewrite (modifyAttr_eq act attr e a Hat), Hdata.
  destruct (applyAction act a data) as [[a' data']|]; simpl; [|done].
  assert (Hl : <[attr := (false, a')]> (store e) !! attr = Some (false, a'))
    by (apply list_lookup_insert_eq; eapply lookup_lt_Some; eauto).
  apply IH; [|done]. split_and!; simpl; eauto using frame_insert.
Qed.

Lemma miss_agree policyName t e attr a data :
  working e attr a data ->
  agree (applyActionsOnMiss policyName t attr {[p]} e) (Some (evalMiss policyName t a data)).
Proof.
  intros Hw. unfold applyActionsOnMiss, evalMiss, applyDenyAction, applyAllowAction.
  destruct (termMissFlowControlAction_ t); simpl; try by apply pending_represents.
  - by destruct (decide_represents e attr a data None None (denyReason policyName t "") Hw I)
      as (e' & -> & He').
  - destruct (decide_represents e attr a data (Some attr) (Some a) (allowReason policyName t) Hw)
      as (e' & -> & He'); [|done]. apply Hw.
Qed.

Lemma hit_agree policyName t e attr a data :
  working e attr a data ->
  agree (applyActions policyName t attr {[p]} e) (evalHit policyName t a data).
Proof.
  intros Hw. unfold applyActions, evalHit.
  assert (Hacts : match (match actions_ t with
                     | [] => Some (attr, e)
                     | acts =>
                         '(attr, e) ← copyAttr attr e;
                         e ← foldr (fun act k e => e ← modifyAttr act attr e; k e) Some acts e;
                         Some (attr, e)
                     end), runActions (actions_ t) a data with
                  | Some (attr', e'), Some (a', data') => working e' attr' a' data'
                  | None, None => True
                  | _, _ => False
                  end).
  { destruct (actions_ t) as [|act acts]; [done|].
    destruct (copyAttr_working e attr a data Hw) as (attr' & e' & -> & Hw' & Hat). simpl.
    pose proof (runActions_working (act :: acts) e' attr' a data Hw' Hat) as HR.
    simpl in HR |- *. destruct (e ← modifyAttr act attr' e'; _), ('(_, _) ← applyAction act a data; _) as [[]|];
      simpl in *; try done. }
  unfold getMatchGotoTerm.
  destruct (termMatchFlowControlAction_ t) eqn:Hflow; simpl.
  { unfold applyDenyAction.
    by destruct (decide_represents e attr a data None None (denyReason policyName t "") Hw I)
      as (e' & -> & He'). }
  all: destruct (match actions_ t with [] => _ | _ => _ end) as [[attr' e']|],
         (runActions (actions_ t) a data) as [[a' data']|]; simpl; try done.
  all: pose proof Hacts as (_ & _ & _ & _ & Hdata & _); rewrite Hdata.
  all: destruct (hasInvalidAttrsPostAction data') as [reason|]; simpl.
  all: try (by apply pending_represents); unfold applyDenyAction, applyAllowAction.
  all: try (by destruct (decide_represents e' attr' a' data' None None
      (denyReason policyName t reason) Hacts I) as (e'' & -> & He'')).
  destruct (decide_represents e' attr' a' data' (Some attr') (Some a') (allowReason policyName t)
    Hacts) as (e'' & -> & He''); [apply Hacts|done].
Qed.

Lemma filter_singleton_bool (f : P -> bool) c :
  filter (fun q => f q = c) ({[p]} : gset P) = if Bool.eqb (f p) c then {[p]} else ∅.
Proof.
  apply set_eq; intros q. rewrite elem_of_filter, elem_of_singleton.
  destruct (f p) eqn:Hp, c; simpl; rewrite ?elem_of_singleton, ?elem_of_empty;
    (split; [intros [? ->]; congruence|first [intros ->; by eauto|done]]).
Qed.

Lemma term_agree policyName t e attr goto a data :
  working e attr a data ->
  agree (applyTermTo policyName t (attr, {[p]}, goto) e) (evalTerm policyName t md p goto a data).
Proof.
  intros Hw. unfold applyTermTo, evalTerm.
  destruct (skips t goto); [by apply pending_represents|].
  pose proof Hw as (Hm & _ & _ & _ & _ & [b Hb] & _). rewrite Hb. simpl. rewrite Hm.
  destruct (matchesAttrs t a md); simpl; [|by apply miss_agree].
  assert (Hper : agree (applyPerPrefixMatches policyName t attr {[p]} e)
                   (if matchesPrefix t p then evalHit policyName t a data
                    else Some (evalMiss policyName t a data))).
  { unfold applyPerPrefixMatches. rewrite !filter_singleton_bool.
    destruct (matchesPrefix t p); simpl.
    - rewrite decide_True by done. simpl. rewrite decide_False by set_solver. by apply hit_agree.
    - rewrite decide_False by set_solver. pose proof (miss_agree policyName t e attr a data Hw).
      destruct (applyActionsOnMiss policyName t attr {[p]} e); simpl; [|done].
      by rewrite decide_True by set_solver. }
  unfold matchesPrefix in *. destruct (prefixMatches_ t); [by apply hit_agree|done].
Qed.

Lemma applyTerm_single policyName t (e : Entry) x :
  processingEntries_ e = [x] ->
  applyTerm policyName t e =
    applyTermTo policyName t x
      (mkEntry [] (processedEntries_ e) (store e) (policyActionData_ e) (policyMatchData_ e)).
Proof.
  intros Hp. unfold applyTerm, getAndResetProcessingEntries. rewrite Hp. cbn [foldr].
  by destruct (applyTermTo policyName t x _).
Qed.

Lemma terms_agree policyName terms : forall e goto a data,
  represents e (Pending goto a data) ->
  agree (applyTerms policyName terms e) (evalTerms policyName md p terms goto a data).
Proof.
  induction terms as [|t terms IH]; intros e goto a data He; [done|].
  pose proof He as (Hm & Hf & Hd & Hdata & attr & b & Hp & Hb & Ho).
  cbn [applyTerms evalTerms]. rewrite (applyTerm_single policyName t e _ Hp).
  assert (HT : agree (applyTermTo policyName t (attr, {[p]}, goto)
      (mkEntry [] (processedEntries_ e) (store e) (policyActionData_ e) (policyMatchData_ e)))
      (evalTerm policyName t md p goto a data)) by (apply term_agree; split_and!; eauto).
  destruct (applyTermTo _ _ _ _) as [e'|], (evalTerm _ _ _ _ _ _ _) as [s|]; cbn in *; try done.
  pose proof HT as He'.
  destruct s as [v r data'|goto' a' data']; pose proof He' as (_ & _ & Hx & Hy & Hz).
  - by rewrite Hx.
  - destruct Hz as (attr' & b' & Hp' & _). rewrite Hp'. by apply IH.
Qed.

Lemma complete_agree policyName defaultAllow e s :
  represents e s ->
  exists e', completeProcessing policyName defaultAllow e = Some e' /\
    represents e' (match s with
                   | Decided v r data => Decided v r data
                   | Pending _ a data =>
                       Decided (if defaultAllow then Some a else None)
                         (defaultReason policyName defaultAllow) data
                   end).
Proof.
  intros He. unfold completeProcessing. simpl. destruct s as [v r data|goto a data].
  - destruct He as (Hm & Hf & Hp & Hdata & Hx). rewrite Hp. simpl. by eexists.
  - pose proof He as (Hm & Hf & Hd & Hdata & attr & b & Hp & Hb & Ho). rewrite Hp. simpl.
    destruct (decide_represents
      (mkEntry [] (processedEntries_ e) (store e) (policyActionData_ e) (policyMatchData_ e))
      attr a data (if defaultAllow then Some attr else None)
      (if defaultAllow then Some a else None) (defaultReason policyName defaultAllow))
      as (e' & -> & He'); [by split_and!; eauto| |by eexists].
    destruct defaultAllow; simpl; eauto.
Qed.
End OnePrefix.

Lemma applyPolicy_meaning (policy : Policy) (st : Store) (attrs : nat) (p : P)
    (data : option D) (md : option MD) (published : bool) (a : A)
    (Hattrs : st !! attrs = Some (published, a)) :
  match applyPolicy policy st attrs [p] data md, evalPolicy policy md p a data with
  | Some (verdicts, st', data'), Some (v, reason, data'') =>
      data' = data'' /\ frame st attrs st' /\
      exists x, verdicts = {[p := (x, reason)]} /\ verdictOf st' x v
  | None, None => True
  | _, _ => False
  end.
Proof.
  unfold applyPolicy, evalPolicy.
  assert (H0 : represents p st attrs md (newEntry st attrs [p] data md) (Pending None a data)).
  { split; [done|]. split; [split; [done|]; eauto|]. split_and!; [done..|].
    exists attrs, published. split_and!; [|done|by left]. simpl. by rewrite (right_id_L ∅ (∪)). }
  pose proof (terms_agree p st attrs md (policyName_ policy) (policyTerms_ policy) _ _ _ _ H0) as HT.
  destruct (applyTerms _ _ _) as [e|], (evalTerms _ _ _ _ _ _ _) as [s|]; simpl in *; try done.
  destruct (complete_agree p st attrs md (policyName_ policy) (defaultAllow_ policy) e s HT)
    as (e' & -> & He').
  destruct s; destruct He' as (_ & Hf & _ & Hd & Hx); simpl; by split_and!.
Qed.

(** C23. The engine computes, for a prefix and an attributes object, what the
    policy means: it fails (a [CHECK]) exactly where the meaning does, and
    otherwise returns a verdict for that prefix alone, with the reason, the
    action data and, on acceptance, an object holding the attributes of the
    meaning.  Every other object of the caller, and the one it passed if that is
    published, is left as it was. *)
Theorem applyPolicy_refines (policy : Policy) (st : Store) (attrs : nat) (p : P)
    (data : option D) (md : option MD) (published : bool) (a : A)
    (Hattrs : st !! attrs = Some (published, a)) :
  match applyPolicy policy st attrs [p] data md, evalPolicy policy md p a data with
  | Some (verdicts, st', data'), Some (v, reason, data'') =>
      data' = data'' /\ frame st attrs st' /\
      exists x, verdicts = {[p := (x, reason)]} /\ verdictOf st' x v
  | None, None => True
  | _, _ => False
  end.
Proof. exact (applyPolicy_meaning policy st attrs p data md published a Hattrs). Qed.

(** ** A group: every prefix gets one verdict *)

Section Groups.
Variable X : gset P.
Variable okData : option D -> Prop.
Variable okAttrs : A -> Prop.

Definition okStore (st : Store) : Prop := Forall (fun x => okAttrs (snd x)) st.

Definition held (l : list (nat * gset P * option string)) : list P :=
  l ≫= (fun x => elements (snd (fst x))).

(** The prefixes are exactly those decided, those in the groups still to be
    processed and those the current term holds, each once; the objects exist, and they and the
    action data are in order. *)
Record covers (e : Entry) (extra : list P) : Prop := {
  cov_perm : elements (dom (processedEntries_ e)) ++ held (processingEntries_ e) ++ extra
               ≡ₚ elements X;
  cov_live : Forall (fun x => fst (fst x) < length (store e)) (processingEntries_ e);
  cov_data : okData (policyActionData_ e) /\ okStore (store e)
}.

(** The operation succeeds and leaves the prefixes of [extra] to be placed. *)
Definition places (oe : option Entry) (n : nat) (extra : list P) : Prop :=
  exists e', oe = Some e' /\ covers e' extra /\ n <= length (store e').

Lemma processed_places x S r e extra :
  covers e (elements S ++ extra) ->
  places (addPrefixesToProcessedEntries x S r e) (length (store e)) extra.
Proof.
  intros [Hp Hl Hd]. unfold addPrefixesToProcessedEntries.
  assert (HS : S ## dom (processedEntries_ e)).
  { pose proof (NoDup_elements X) as HN. rewrite <- Hp in HN.
    apply NoDup_app in HN as (_ & HN & _). intros q Hq1 Hq2. apply (HN q).
    - by apply elem_of_elements.
    - rewrite !elem_of_app, elem_of_elements. auto. }
  rewrite decide_True by done. eexists; split; [reflexivity|]. split; [split; simpl|done].
  - rewrite dom_union_L, dom_gset_to_gmap, elements_disj_union by done. rewrite <- Hp.
    solve_Permutation.
  - done.
  - done.
Qed.

Lemma pending_places attr S g (e : Entry) extra :
  attr < length (store e) -> covers e (elements S ++ extra) ->
  places (Some (addPrefixesToProcessingEntries attr S g e)) (length (store e)) extra.
Proof.
  intros Ha [Hp Hl Hd]. eexists; split; [reflexivity|]. split; [split; simpl|done]; [| |done].
  - rewrite <- Hp. unfold held. rewrite bind_app. simpl. rewrite app_nil_r. solve_Permutation.
  - by apply Forall_app; repeat constructor.
Qed.

Lemma miss_places policyName (t : Term) attr S (e : Entry) extra :
  attr < length (store e) -> covers e (elements S ++ extra) ->
  places (applyActionsOnMiss policyName t attr S e) (length (store e)) extra.
Proof.
  intros Ha Hc. unfold applyActionsOnMiss, applyDenyAction, applyAllowAction.
  destruct (termMissFlowControlAction_ t); by (apply processed_places || apply pending_places).
Qed.

Definition okActions (acts : list Act) : Prop :=
  forall act a data, act ∈ acts -> okData data -> okAttrs a ->
    exists a' data', applyAction act a data = Some (a', data') /\ okData data' /\ okAttrs a'.

Lemma actions_places acts attr extra : forall (e : Entry) a,
  okActions acts -> store e !! attr = Some (false, a) -> covers e extra ->
  exists e', foldr (fun act k e => e ← modifyAttr act attr e; k e) Some acts e = Some e' /\
    covers e' extra /\ length (store e') = length (store e).
Proof.
  induction acts as [|act acts IH]; intros e a Hok Hat [Hp Hl [Hd HA]]; simpl; [by eexists|].
  rewrite (modifyAttr_eq act attr e a Hat).
  destruct (Hok act a (policyActionData_ e)) as (a' & data' & -> & Hd' & Ha');
    [left|done|by apply (Forall_lookup_1 _ _ _ _ HA Hat)|]. simpl.
  edestruct IH as (e' & -> & Hc & Hlen).
  - intros act' a'' d'' Hin. apply Hok. by right.
  - simpl. apply list_lookup_insert_eq. eapply lookup_lt_Some, Hat.
  - split; simpl; [done|by rewrite length_insert|]. split; [done|by apply Forall_insert].
  - exists e'. split; [done|]. split; [done|]. rewrite Hlen. simpl. apply length_insert.
Qed.

Lemma hit_places policyName (t : Term) attr S (e : Entry) extra :
  okActions (actions_ t) -> attr < length (store e) -> covers e (elements S ++ extra) ->
  places (applyActions policyName t attr S e) (length (store e)) extra.
Proof.
  intros Hok Ha Hc. unfold applyActions.
  assert (Hacts : exists attr' e', (match actions_ t with
                     | [] => Some (attr, e)
                     | acts =>
                         '(attr, e) ← copyAttr attr e;
                         e ← foldr (fun act k e => e ← modifyAttr act attr e; k e) Some acts e;
                         Some (attr, e)
                     end) = Some (attr', e') /\ covers e' (elements S ++ extra) /\
                    attr' < length (store e') /\ length (store e) <= length (store e')).
  { destruct (actions_ t) as [|act acts]; [by eauto 6|].
    apply lookup_lt_is_Some in Ha as [[b a] Hat]. unfold copyAttr. rewrite Hat. cbn [mbind option_bind].
    destruct b; cbv iota.
    - edestruct (actions_places (act :: acts) (length (store e)) (elements S ++ extra)
        (mkEntry (processingEntries_ e) (processedEntries_ e) (store e ++ [(false, a)])
           (policyActionData_ e) (policyMatchData_ e)) a Hok) as (e' & -> & Hc' & Hlen).
      + simpl. by rewrite lookup_app_r, Nat.sub_diag by lia.
      + destruct Hc as [Hp Hl [Hd HA]]. split; simpl; [done| |split; [done|]].
        2:{ apply Forall_app. split; [done|]. repeat constructor.
            by apply (Forall_lookup_1 _ _ _ _ HA Hat). }
        eapply Forall_impl; [exact Hl|]. intros x Hx. rewrite length_app. simpl in *. lia.
      + simpl in Hlen. rewrite length_app in Hlen. simpl in *. eexists _, e'.
        split; [reflexivity|]. split; [done|]. lia.
    - edestruct (actions_places (act :: acts) attr (elements S ++ extra) e a Hok Hat Hc)
        as (e' & -> & Hc' & Hlen).
      apply lookup_lt_Some in Hat. eexists _, e'. split; [reflexivity|]. split; [done|]. lia. }
  destruct Hacts as (attr' & e' & Heq & Hc' & Ha' & Hlen). unfold applyDenyAction, applyAllowAction.
  destruct (termMatchFlowControlAction_ t); [by apply processed_places|..]; rewrite Heq; simpl;
    destruct (hasInvalidAttrsPostAction (policyActionData_ e')).
  all: match goal with |- places ?o _ _ =>
         assert (HP : places o (length (store e')) extra)
           by first [by apply processed_places|by apply pending_places] end.
  all: destruct HP as (e'' & -> & Hc'' & Hlen''); eexists; split_and!; [done..|lia].
Qed.

#[local] Instance covers_proper (e : Entry) : Proper ((≡ₚ) ==> iff) (covers e).
Proof. intros l l' Hl. split; intros [Hp ? ?]; split; try done; [by rewrite <- Hl|by rewrite Hl]. Qed.

Lemma split_elements (f : P -> bool) (S : gset P) :
  elements S ≡ₚ elements (filter (fun q => f q = false) S) ++ elements (filter (fun q => f q = true) S).
Proof.
  rewrite <- elements_disj_union.
  - f_equiv. intros q. rewrite elem_of_union, !elem_of_filter. destruct (f q); naive_solver.
  - intros q. rewrite !elem_of_filter. intros [] []. congruence.
Qed.

(** A step may be skipped when there is nothing to place. *)
Lemma places_nonempty (S : gset P) (e : Entry) oe extra :
  covers e (elements S ++ extra) -> places oe (length (store e)) extra ->
  places (if decide (S = ∅) then Some e else oe) (length (store e)) extra.
Proof.
  intros Hc Ho. destruct (decide (S = ∅)) as [->|]; [|done].
  exists e. split_and!; [done| |done]. by rewrite elements_empty in Hc.
Qed.

Lemma places_bind oe k n extra extra' :
  places oe n extra ->
  (forall e, n <= length (store e) -> covers e extra -> places (k e) (length (store e)) extra') ->
  places (oe ≫= k) n extra'.
Proof.
  intros (e & -> & Hc & Hn) Hk. destruct (Hk e Hn Hc) as (e' & He & Hc' & Hn'). simpl.
  exists e'. split_and!; [done..|lia].
Qed.

Lemma perPrefix_places policyName (t : Term) attr S (e : Entry) extra :
  okActions (actions_ t) -> attr < length (store e) -> covers e (elements S ++ extra) ->
  places (applyPerPrefixMatches policyName t attr S e) (length (store e)) extra.
Proof.
  intros Hok Ha Hc. unfold applyPerPrefixMatches.
  rewrite (split_elements (matchesPrefix t) S), <- app_assoc in Hc.
  eapply places_bind.
  - apply places_nonempty; [exact Hc|]. by apply miss_places.
  - intros e' Hn Hc'. apply places_nonempty; [done|]. apply hit_places; [done|lia|done].
Qed.

Lemma termTo_places policyName (t : Term) attr S goto (e : Entry) extra :
  okActions (actions_ t) -> attr < length (store e) -> covers e (elements S ++ extra) ->
  places (applyTermTo policyName t (attr, S, goto) e) (length (store e)) extra.
Proof.
  intros Hok Ha Hc. unfold applyTermTo. destruct (skips t goto); [by apply pending_places|].
  pose proof Ha as Ha'. apply lookup_lt_is_Some in Ha' as [[b a] ->]. simpl.
  destruct (matchesAttrs t a _); simpl; [|by apply miss_places].
  destruct (prefixMatches_ t); [by apply hit_places|by apply perPrefix_places].
Qed.

Lemma entries_places (f : nat * gset P * option string -> Entry -> option Entry) l :
  (forall attr S g e extra, attr < length (store e) -> covers e (elements S ++ extra) ->
     places (f (attr, S, g) e) (length (store e)) extra) ->
  forall e, Forall (fun x => fst (fst x) < length (store e)) l -> covers e (held l) ->
  places (foldr (fun x k e => e ← f x e; k e) Some l e) (length (store e)) [].
Proof.
  intros Hf. induction l as [|[[attr S] g] l IH]; intros e Hl Hc; simpl.
  - exists e. by split_and!.
  - inversion Hl as [|? ? Ha Hl']; subst. eapply places_bind; [by apply Hf|].
    intros e' Hn Hc'. apply IH; [|done].
    eapply Forall_impl; [exact Hl'|]. intros x Hx. simpl in *. lia.
Qed.

Lemma reset_covers (e : Entry) :
  covers e [] ->
  covers (mkEntry [] (processedEntries_ e) (store e) (policyActionData_ e) (policyMatchData_ e))
    (held (processingEntries_ e)).
Proof. intros [Hp Hl Hd]. split; simpl in *; [|constructor|done]. by rewrite app_nil_r in Hp. Qed.

Lemma terms_places policyName (terms : list Term) : forall e : Entry,
  Forall (fun t => okActions (actions_ t)) terms -> covers e [] ->
  exists e', applyTerms policyName terms e = Some e' /\ covers e' [].
Proof.
  induction terms as [|t terms IH]; intros e Hok Hc; simpl; [by eexists|].
  inversion Hok as [|? ? Ht Hts]; subst.
  assert (HT : places (applyTerm policyName t e) (length (store e)) []).
  { unfold applyTerm. simpl. apply entries_places with (e := mkEntry _ _ _ _ _);
      [intros; by apply termTo_places|apply Hc|by apply reset_covers]. }
  destruct HT as (e' & -> & Hc' & _). simpl.
  destruct (processingEntries_ e'); [by eexists|by apply IH].
Qed.

Lemma complete_processing policyName defaultAllow l : forall e e' : Entry,
  processingEntries_ e = [] ->
  foldr (fun entry k e => e ← completeEntry policyName defaultAllow entry e; k e) Some l e = Some e' ->
  processingEntries_ e' = [].
Proof.
  induction l as [|[[attrs prefixSet] g] l IH]; intros e e' Hp He; cbn [foldr] in He;
    [by simplify_eq|].
  destruct (completeEntry policyName defaultAllow (attrs, prefixSet, g) e) as [e1|] eqn:E; [|done].
  simpl in He. eapply IH, He. unfold completeEntry, addPrefixesToProcessedEntries in E.
  by case_decide; simplify_eq.
Qed.

Lemma complete_places policyName defaultAllow (e : Entry) :
  covers e [] ->
  exists e', completeProcessing policyName defaultAllow e = Some e' /\
    dom (processedEntries_ e') = X.
Proof.
  intros Hc. unfold completeProcessing. simpl.
  destruct (entries_places (completeEntry policyName defaultAllow) (processingEntries_ e))
    with (e := mkEntry [] (processedEntries_ e) (store e) (policyActionData_ e) (policyMatchData_ e))
    as (e' & He & [Hc' _ _] & _).
  - intros. by apply processed_places.
  - apply Hc.
  - by apply reset_covers.
  - exists e'. split; [done|]. apply complete_processing in He; [|done]. rewrite He in Hc'.
    simpl in Hc'. rewrite app_nil_r in Hc'. apply set_eq. intros q.
    by rewrite <- !elem_of_elements, Hc'.
Qed.
End Groups.

(** C35. Whatever the groups and jumps, if the actions of the policy succeed on
    attributes and action data in order and keep them so, the engine returns, and every prefix passed
    in, and no other, has exactly one verdict: the [CHECK] that a prefix is not
    decided twice never fires. *)
Theorem applyPolicy_decides (okData : option D -> Prop) (okAttrs : A -> Prop) (policy : Policy)
    (st : Store) (attrs : nat) (prefixes : list P) (data : option D) (md : option MD)
    (Hattrs : attrs < length st) (Hdata : okData data) (Hst : okStore okAttrs st)
    (Hacts : Forall (fun t => okActions okData okAttrs (actions_ t)) (policyTerms_ policy)) :
  exists verdicts st' data',
    applyPolicy policy st attrs prefixes data md = Some (verdicts, st', data') /\
    dom verdicts = list_to_set prefixes.
Proof.
  unfold applyPolicy.
  destruct (terms_places (list_to_set prefixes) okData okAttrs (policyName_ policy) (policyTerms_ policy)
    (newEntry st attrs prefixes data md)) as (e & -> & Hc); [done| |].
  - split; simpl; [|by repeat constructor|done]. rewrite dom_empty_L, elements_empty.
    by rewrite !app_nil_r.
  - simpl. destruct (complete_places (list_to_set prefixes) okData okAttrs (policyName_ policy)
      (defaultAllow_ policy) e Hc) as (e' & -> & Hd). simpl. by eauto.
Qed.

(** ** Jumps *)

Lemma validate_visited (terms : list Term) : forall visited gotos n,
  validateTerms terms visited gotos = Ok tt -> n <> "" -> n ∈ visited ->
  n ∉ termName_ <$> terms.
Proof.
  induction terms as [|t terms IH]; intros visited gotos n Hv Hn Hin; [set_solver|].
  simpl in Hv. case_decide as Hdup; [done|]. rewrite fmap_cons, not_elem_of_cons.
  assert (Ht : n <> termName_ t) by (intros ->; tauto). split; [done|].
  repeat case_decide; try done; by (eapply IH; [exact Hv|done|set_solver]).
Qed.

Lemma validate_gotos (terms : list Term) : forall visited gotos n,
  validateTerms terms visited gotos = Ok tt -> n ∈ gotos -> n ∈ termName_ <$> terms.
Proof.
  induction terms as [|t terms IH]; intros visited gotos n Hv Hin; simpl in Hv.
  - case_decide; [set_solver|done].
  - case_decide as Hdup; [done|]. rewrite fmap_cons, elem_of_cons.
    destruct (decide (n = termName_ t)); [by left|right].
    repeat case_decide; try done; by (eapply IH; [exact Hv|set_solver]).
Qed.

Lemma validate_app (pre rest : list Term) : forall visited gotos,
  validateTerms (pre ++ rest) visited gotos = Ok tt ->
  exists visited' gotos', validateTerms rest visited' gotos' = Ok tt /\
    forall n, n <> "" -> n ∈ visited \/ n ∈ termName_ <$> pre -> n ∈ visited'.
Proof.
  induction pre as [|t pre IH]; intros visited gotos Hv.
  - exists visited, gotos. split; [done|]. intros n _ [|Hn]; [done|]. by apply elem_of_nil in Hn.
  - simpl in Hv. case_decide as Hdup; [done|].
    repeat case_decide; try done;
      (destruct (IH _ _ Hv) as (v & g & Hv' & Hall); exists v, g; split; [done|];
       intros n Hn Hin; apply Hall; [done|]; rewrite fmap_cons, elem_of_cons in Hin;
       set_solver).
Qed.

Lemma validate_goto (pre post : list Term) t n :
  validateTerms (pre ++ t :: post) ∅ ∅ = Ok tt -> getMatchGotoTerm t = n -> n <> "" ->
  n ∉ termName_ <$> pre ++ [t] /\
  exists mid t' rest, post = mid ++ t' :: rest /\ termName_ t' = n /\
    n ∉ termName_ <$> mid /\ n ∉ termName_ <$> rest.
Proof.
  intros Hv Hg Hn. destruct (validate_app pre (t :: post) ∅ ∅ Hv) as (v & g & Hv' & Hall).
  simpl in Hv'. case_decide as Hdup; [done|]. rewrite Hg in Hv'.
  rewrite (decide_False (P := n = "")) in Hv' by done.
  case_decide as Hback; [done|].
  split.
  - rewrite fmap_app, elem_of_app. simpl. rewrite list_elem_of_singleton. intros [Hin|Heq].
    + apply Hback. case_decide; set_solver.
    + apply Hback. rewrite decide_False by congruence. set_solver.
  - assert (Hin : n ∈ termName_ <$> post) by (eapply validate_gotos; [exact Hv'|set_solver]).
    apply list_elem_of_split_l in Hin as (l1 & l2 & Hl & Hnot).
    apply fmap_app_inv in Hl as (mid & post' & -> & Hl & ->).
    destruct post' as [|t' rest]; [done|]. simpl in Hl. simplify_eq.
    exists mid, t', rest. split_and!; [done..|].
    replace (mid ++ t' :: rest) with ((mid ++ [t']) ++ rest) in Hv' by (by rewrite <- app_assoc).
    apply validate_app in Hv' as (v' & g' & Hv' & Hall').
    eapply validate_visited; [exact Hv'|congruence|]. apply Hall'; [congruence|right].
    rewrite fmap_app, elem_of_app. right. simpl. rewrite list_elem_of_singleton. congruence.
Qed.

Lemma evalTerms_skip policyName md p (mid rest : list Term) n a data :
  n ∉ termName_ <$> mid ->
  evalTerms policyName md p (mid ++ rest) (Some n) a data =
  evalTerms policyName md p rest (Some n) a data.
Proof.
  induction mid as [|t mid IH]; intros Hn; [done|].
  rewrite fmap_cons, not_elem_of_cons in Hn. destruct Hn as [Ht Hn]. simpl.
  unfold evalTerm at 1. simpl. rewrite bool_decide_false by done. simpl. by apply IH.
Qed.

Lemma evalTerms_land policyName md p t (rest : list Term) a data :
  evalTerms policyName md p (t :: rest) (Some (termName_ t)) a data =
  evalTerms policyName md p (t :: rest) None a data.
Proof. simpl. unfold evalTerm. simpl. by rewrite bool_decide_true. Qed.

(** In a policy that passes validation, a term whose decision is to jump
    names exactly one term of the policy, that term comes later, and the prefixes
    that jump continue there as if it were the next term: none of the terms in
    between touches them. *)
Theorem validated_goto (policy : Policy) (pre post : list Term) (t : Term) (n : string)
    (md : option MD) (p : P) (a : A) (data : option D)
    (Hok : validatePolicyTerms policy = Ok tt)
    (Hterms : policyTerms_ policy = pre ++ t :: post)
    (Hgoto : termMatchFlowControlAction_ t = GotoAction n) (Hn : n <> "") :
  n ∉ termName_ <$> pre ++ [t] /\
  exists mid t' rest,
    post = mid ++ t' :: rest /\ termName_ t' = n /\
    n ∉ termName_ <$> mid /\ n ∉ termName_ <$> rest /\
    evalTerms (policyName_ policy) md p post (Some n) a data =
    evalTerms (policyName_ policy) md p (t' :: rest) None a data.
Proof.
  unfold validatePolicyTerms in Hok. rewrite Hterms in Hok.
  destruct (validate_goto pre post t n Hok) as [Hpre (mid & t' & rest & -> & Ht & Hm & Hr)];
    [by unfold getMatchGotoTerm; rewrite Hgoto|done|].
  split; [done|]. exists mid, t', rest. split_and!; [done..|].
  rewrite evalTerms_skip by done. rewrite <- Ht. apply evalTerms_land.
Qed.
End Spec.
