(* ===== verification/PolicyTerm.v ===== *)
(** * Policies from their configuration

    policy/PolicyTerm.cpp, Policy.cpp and PolicyManager.cpp: how the objects of
    PolicyMatch.v and PolicyAction.v are built and validated from the thrift
    configuration, which attributes a policy may read or change (its mask), and
    the instance of the engine of PolicyEngine.v they make. *)

From stdpp Require Import gmap strings pretty.
From S2P Require Import Prelude BgpException Folly BgpStructs RouteFilter RouteInfo RibEntry Ucmp.
From S2P Require Import PathFields PolicyEncoding PolicyAction PolicyMatch PolicyEngine.
Local Open Scope bgp_scope.

Abbreviation pres := (result PolicyError).
Definition fromOption {X} (o : option X) : pres X :=
  match o with Some x => Ok x | None => Throw BgpErr end.
Definition ensure (b : bool) : pres unit := if b then Ok tt else Throw BgpErr.

Fixpoint mapM_res {X Y} (f : X -> pres Y) (l : list X) : pres (list Y) :=
  match l with
  | [] => Ok []
  | x :: l => let* y := f x in let* ys := mapM_res f l in Ok (y :: ys)
  end.

(** ** The mask *)

(** [PolicyAttributesMask]: a flag for each attribute. *)
Inductive MaskBit :=
| mOrigin | mAsPath | mNexthop | mMed | mLocalPref | mAtomicAggregate | mAggregator
| mCommunities | mOriginatorId | mClusterList | mExtCommunities | mWeight | mBackupAddr
| mPrefix | mCustomizedLbwEnabled.

#[export] Instance MaskBit_eq_dec : EqDecision MaskBit.
Proof. solve_decision. Defined.

Definition PolicyAttributesMask : Type := MaskBit -> bool.
Definition emptyMask : PolicyAttributesMask := fun _ => false.
Definition maskWith (b : MaskBit) (m : PolicyAttributesMask) : PolicyAttributesMask :=
  fun b' => bool_decide (b = b') || m b'.

(** ** Configuration structures *)

Record CommunityList := mkCommunityList {
  cl_name : string;
  cl_communities : option (list string);
  cl_list_names : option (list string);
  cl_boolean_operator : BooleanOperator;
  cl_exact_match : option bool
}.
Record AsPathList := mkAsPathList {
  al_name : string;
  al_as_paths : option (list string);
  al_list_names : option (list string);
  al_boolean_operator : BooleanOperator
}.
Record PrefixListEntry := mkPrefixListEntry {
  base_prefix : string;
  seq_num : option Z;
  prefix_len_ranges : list CompareNumericValue;
  match_logic_equal : bool;
  ple_regex : option string
}.
Record PrefixList := mkPrefixList {
  pl_name : string;
  pl_prefixes : list PrefixListEntry;
  pl_list_names : list string;
  pl_boolean_operator : BooleanOperator;
  pl_compare_operator : option PolicyComparisonOperator
}.

Inductive BgpPolicyAtomicMatchType :=
| MT_AS_PATH_LEN | MT_AS_PATH | MT_COMMUNITY_LIST | MT_ORIGIN | MT_PREFIX_LIST
| MT_COMMUNITY_COUNT | MT_AS_PATH_LEN_WITH_CONFED | MT_ALWAYS | MT_WEIGHT | MT_OTHER.

Record BgpPolicyAtomicMatch := mkAtomicMatch {
  match_type : BgpPolicyAtomicMatchType;
  communities_filter : option CommunityList;
  community_count : option CompareNumericValue;
  match_origin : option Z;
  as_path_filters : option AsPathList;
  as_path_len_filter : option (list CompareNumericValue);
  as_path_len_with_confed_filter : option (list CompareNumericValue);
  match_weight : option CompareNumericValue;
  prefix_filters : option PrefixList
}.

Inductive BgpPolicyActionType :=
| AT_AS_PATH_PREPEND | AT_COMMUNITY_LIST | AT_SET_LOCAL_PREF | AT_ORIGIN | AT_PERMIT | AT_DENY
| AT_CONTINUE | AT_NEXT_HOP | AT_AS_PATH | AT_MED | AT_GOTO | AT_LBW_EXT_COMMUNITY
| AT_AS_PATH_TO_AS_SET | AT_EXT_COMMUNITY_LIST | AT_WEIGHT | AT_ADD_BACKUP_ADDR.

(** [SetNextHop] with the [NextHop] it may hold: interface and prefix. *)
Record SetNextHopConfig := mkSetNextHop {
  set_self : bool;
  next_hop : option (option string * option string)
}.
Record CommunityActionConfig := mkCommunityActionConfig {
  ca_communities : option (list string);
  ca_list_names : option (list string);
  ca_action_type : CommunityActionType
}.
Record LocalPreferenceConfig := mkLocalPreference {
  local_pref : option Z;
  add_value : option Z;
  local_preference_list_names : option (list string)
}.
Record MedActionConfig := mkMedAction { med_value : Z; med_type_set : bool; update_pattern : option string }.
Record WeightActionConfig := mkWeightAction { weight_value : Z; weight_type_set : bool }.
Record LbwActionConfig := mkLbwAction {
  lbw_type : LbwExtCommunityActionType;
  encoding_scheme : option NsfTeWeightEncoding;
  encoding_id : option Z
}.

Record BgpPolicyAction := mkPolicyAction {
  action_type : BgpPolicyActionType;
  set_as_path_prepend : option (Z * Z);
  community_action : option CommunityActionConfig;
  set_local_pref : option LocalPreferenceConfig;
  set_origin : option Z;
  set_nexthop : option SetNextHopConfig;
  med_action : option MedActionConfig;
  weight_action : option WeightActionConfig;
  as_path_overwrite_list : option (list Z);
  lbw_ext_community_action : option LbwActionConfig;
  ext_communities_action : option (ExtCommunityActionType * list BgpAttrExtCommunity);
  add_backup_addr : option string;
  next_policy_id : option string;
  next_term_id : option string
}.

Inductive FlowControlAction :=
| FC_ACCEPT | FC_DENY | FC_NEXT_TERM | FC_NEXT_POLICY | FC_LOG_AND_NEXT_TERM | FC_LOG_AND_ACCEPT
| FC_LOG_AND_DENY.

Record BgpPolicyTerm := mkPolicyTerm {
  term_name : string;
  policy_match_entries : option (BooleanOperator * list BgpPolicyAtomicMatch);
  policy_action_entries : list BgpPolicyAction;
  term_miss_action : FlowControlAction
}.
Record BgpPolicyStatement := mkPolicyStatement {
  ps_name : string;
  policy_entries : list BgpPolicyTerm;
  ps_result : FlowControlAction
}.
Record BgpPolicies := mkPolicies {
  bgp_policy_statements : list BgpPolicyStatement;
  community_lists : list CommunityList;
  aspath_lists : list AsPathList;
  prefix_lists : list PrefixList
}.

Section Build.
Context `{L : PolicyLibs} `{PL : PrefixLibs}.

(** ** Matches *)

(** [parseCommunityStr] and [createBgpAttrCommunitiesC] *)
Definition parseCommunityStr (s : string) : option BgpAttrCommunity :=
  parts ← split_u16 s;
  match parts with [asn; value] => Some (mkCommunity asn value) | _ => None end.
Definition createBgpAttrCommunitiesC (strs : list string) : list BgpAttrCommunity :=
  omap parseCommunityStr strs.

(** [CommunityMatch::PopulateCommunities]: community strings and regular expressions. *)
Fixpoint splitCommunities (strs : list string) : pres (list string * list regex) :=
  match strs with
  | [] => Ok ([], [])
  | s :: strs =>
      match parseCommunityStr s with
      | Some _ => let* '(cs, rs) := splitCommunities strs in Ok (s :: cs, rs)
      | None =>
          let* r := fromOption (regex_compile s) in
          let* '(cs, rs) := splitCommunities strs in Ok (cs, r :: rs)
      end
  end.

Definition populateCommunities (strs : list string) (m : CommunityMatch) : pres CommunityMatch :=
  let* '(cs, rs) := splitCommunities strs in
  Ok (mkCommunityMatch (cm_boolean_operator m) (cm_exact_match m) (communityStrings_ m ∪ list_to_set cs)
        (communityStringsDoNotMatch_ m) (cm_regexs m ++ rs) (cm_listNames m)).

Definition newCommunityMatch (l : CommunityList) : pres CommunityMatch :=
  match cl_communities l with
  | Some ((_ :: _) as strs) =>
      populateCommunities strs
        (mkCommunityMatch (cl_boolean_operator l) (cl_exact_match l) ∅ ∅ []
           (default [] (cl_list_names l)))
  | _ => Throw BgpErr
  end.

Definition newAsPathMatch (l : AsPathList) : pres AsPathMatch :=
  let* rs := mapM_res (fun s => fromOption (regex_compile s)) (default [] (al_as_paths l)) in
  Ok (mkAsPathMatch (al_boolean_operator l) rs (default [] (al_list_names l))).

Definition createPolicyAttributeMatchItem (m : BgpPolicyAtomicMatch) (mask : PolicyAttributesMask)
    : pres (PolicyMatch * PolicyAttributesMask) :=
  match match_type m with
  | MT_COMMUNITY_LIST =>
      let* l := fromOption (communities_filter m) in
      let* c := newCommunityMatch l in Ok (MatchCommunity c, maskWith mCommunities mask)
  | MT_COMMUNITY_COUNT =>
      let* v := fromOption (community_count m) in
      Ok (MatchCommunityCount v, maskWith mCommunities mask)
  | MT_ORIGIN =>
      let* o := fromOption (match_origin m) in Ok (MatchOrigin o, maskWith mOrigin mask)
  | MT_AS_PATH =>
      let* l := fromOption (as_path_filters m) in
      let* a := newAsPathMatch l in Ok (MatchAsPath a, maskWith mAsPath mask)
  | MT_AS_PATH_LEN =>
      let* vs := fromOption (as_path_len_filter m) in
      let* _ := ensure (nonempty vs) in Ok (MatchAsPathLen vs, maskWith mAsPath mask)
  | MT_AS_PATH_LEN_WITH_CONFED =>
      let* vs := fromOption (as_path_len_with_confed_filter m) in
      let* _ := ensure (nonempty vs) in Ok (MatchAsPathLenWithConfed vs, maskWith mAsPath mask)
  | MT_WEIGHT =>
      let* v := fromOption (match_weight m) in Ok (MatchWeight v, maskWith mWeight mask)
  | MT_ALWAYS => Ok (MatchAlways, mask)
  | MT_PREFIX_LIST | MT_OTHER => Throw BgpErr
  end.

(** [PrefixTreeMatch::validateAndCreatePrefixTree] *)
Definition entryComp (e : PrefixListEntry) : PrefixLenOrRegexComp :=
  match prefix_len_ranges e, ple_regex e with
  | [], Some r => if decide (r = "") then PrefixLenRanges [] else PrefixRegex (re2_new r)
  | ranges, _ => PrefixLenRanges ranges
  end.

Fixpoint mergeComp (n : CIDRNetwork) (c : PrefixLenOrRegexComp)
    (l : list (CIDRNetwork * list PrefixLenOrRegexComp))
    : list (CIDRNetwork * list PrefixLenOrRegexComp) :=
  match l with
  | [] => [(n, [c])]
  | (n', cs) :: l => if decide (n = n') then (n', cs ++ [c]) :: l else (n', cs) :: mergeComp n c l
  end.

Fixpoint mergePrefixes (es : list PrefixListEntry)
    (acc : list (CIDRNetwork * list PrefixLenOrRegexComp))
    : pres (list (CIDRNetwork * list PrefixLenOrRegexComp)) :=
  match es with
  | [] => Ok acc
  | e :: es =>
      let* n := fromOption (createNetwork (base_prefix e)) in
      let* _ := ensure (bool_decide (seq_num e = None)) in
      let* _ := ensure (match_logic_equal e) in
      mergePrefixes es (mergeComp n (entryComp e) acc)
  end.

Definition insertAll (l : list (CIDRNetwork * list PrefixLenOrRegexComp))
    (t : tree (list PrefixLenOrRegexComp)) : tree (list PrefixLenOrRegexComp) :=
  fold_left (fun t '(n, cs) => tree_insert n cs t) l t.

Definition validateAndCreatePrefixTree (l : PrefixList) : pres (tree (list PrefixLenOrRegexComp)) :=
  let* _ := ensure (match pl_compare_operator l with None => true | _ => false end) in
  let* _ := ensure (bool_decide (pl_boolean_operator l = BOOL_OR)) in
  let* merged := mergePrefixes (pl_prefixes l) [] in
  Ok (insertAll merged emptyTree).

Definition createPolicyPrefixMatchItem (m : BgpPolicyAtomicMatch) (mask : PolicyAttributesMask)
    : pres (PrefixTree * PolicyAttributesMask) :=
  match match_type m with
  | MT_PREFIX_LIST =>
      let* l := fromOption (prefix_filters m) in
      let* t := validateAndCreatePrefixTree l in
      Ok (mkPrefixTree t [] false (pl_list_names l), maskWith mPrefix mask)
  | _ => Throw BgpErr
  end.

(** ** Actions *)

Definition in_range (v hi : Z) : bool := (0 <=? v) && (v <=? hi).

Definition validateAndGetNexthop (c : SetNextHopConfig) : pres IPAddress :=
  let* _ := ensure (negb (set_self c)) in
  let* '(iface, prefix) := fromOption (next_hop c) in
  let* _ := ensure (bool_decide (iface = None)) in
  let* s := fromOption prefix in
  fromOption (ip_parse s).

Definition validateAndGetBackupAddr (s : string) : pres IPAddress :=
  let* ip := fromOption (ip_parse s) in
  let* _ := ensure (isV6 ip) in Ok ip.

(** [CommunityAction::validateAndSetCommunities] on the action built so far. *)
Definition addActionCommunities (type : CommunityActionType) (strs : list string)
    (cs : list BgpAttrCommunity) (rs : list regex) : pres (list BgpAttrCommunity * list regex) :=
  let* '(strs, rs') := splitCommunities strs in
  let rs := rs ++ rs' in
  let* _ := ensure (match type with COMM_REMOVE => true | _ => negb (nonempty rs) end) in
  Ok (cs ++ createBgpAttrCommunitiesC strs, rs).

Definition validateLocalPreference (c : LocalPreferenceConfig) : pres Z :=
  let* v := fromOption (local_pref c) in
  let* _ := ensure (in_range v (2 ^ 32 - 1)) in
  let* _ := ensure (match add_value c with None => true | _ => false end) in
  let* _ := ensure (negb (nonempty (default [] (local_preference_list_names c)))) in
  Ok v.

(** The constructor of [LbwExtCommunityAction] [XCHECK]s the encoding fields. *)
Definition newLbwAction (c : LbwActionConfig) : pres PolicyAction :=
  let act := LbwExtCommunityAction (lbw_type c) (encoding_scheme c) (encoding_id c) in
  match lbw_type c with
  | LBW_ENCODE_AGGREGATE_RECEIVED_OVERWRITE | LBW_ENCODE_SWITCH_ID | LBW_ENCODE_MULTIPATH =>
      match encoding_scheme c, encoding_id c with
      | Some _, Some _ => Ok act
      | _, _ => Throw CheckFailed
      end
  | _ => Ok act
  end.

Definition createPolicyAttributesActionItem (a : BgpPolicyAction) (mask : PolicyAttributesMask)
    : pres (PolicyAction * PolicyAttributesMask) :=
  match action_type a with
  | AT_AS_PATH_PREPEND =>
      let* '(asn, n) := fromOption (set_as_path_prepend a) in
      let* _ := ensure (in_range asn (2 ^ 32 - 1)) in
      let* _ := ensure ((0 <? n) && (n <=? kMaxAsPathSegmentSize)) in
      Ok (SetAsPathPrependAction asn n, maskWith mAsPath mask)
  | AT_COMMUNITY_LIST =>
      let* c := fromOption (community_action a) in
      let* '(cs, rs) := addActionCommunities (ca_action_type c) (default [] (ca_communities c)) [] [] in
      Ok (CommunityAction (ca_action_type c) cs rs (default [] (ca_list_names c)),
          maskWith mCommunities mask)
  | AT_LBW_EXT_COMMUNITY =>
      let* c := fromOption (lbw_ext_community_action a) in
      let* act := newLbwAction c in
      Ok (act, maskWith mCustomizedLbwEnabled (maskWith mExtCommunities mask))
  | AT_EXT_COMMUNITY_LIST =>
      let* '(type, cs) := fromOption (ext_communities_action a) in
      Ok (ExtCommunityAction type cs, maskWith mExtCommunities mask)
  | AT_SET_LOCAL_PREF =>
      let* c := fromOption (set_local_pref a) in
      let* v := validateLocalPreference c in
      Ok (SetLocalPreference v, maskWith mLocalPref mask)
  | AT_ORIGIN =>
      let* o := fromOption (set_origin a) in Ok (SetOrigin o, maskWith mOrigin mask)
  | AT_NEXT_HOP =>
      let* c := fromOption (set_nexthop a) in
      let* ip := validateAndGetNexthop c in Ok (SetNexthop ip, maskWith mNexthop mask)
  | AT_ADD_BACKUP_ADDR =>
      let* s := fromOption (add_backup_addr a) in
      let* ip := validateAndGetBackupAddr s in Ok (AddBackupAddr ip, maskWith mBackupAddr mask)
  | AT_AS_PATH =>
      let* l := fromOption (as_path_overwrite_list a) in
      let* _ := ensure (forallb (fun asn => in_range asn (2 ^ 32 - 1)) l) in
      Ok (SetAsPath l, maskWith mAsPath mask)
  | AT_MED =>
      let* c := fromOption (med_action a) in
      let* _ := ensure (match update_pattern c with None => true | _ => false end) in
      let* _ := ensure (med_type_set c) in
      let* _ := ensure (in_range (med_value c) (2 ^ 32 - 1)) in
      Ok (SetMed (med_value c), maskWith mMed mask)
  | AT_WEIGHT =>
      let* c := fromOption (weight_action a) in
      let* _ := ensure (weight_type_set c) in
      let* _ := ensure (in_range (weight_value c) (2 ^ 16 - 1)) in
      Ok (SetWeight (weight_value c), maskWith mWeight mask)
  | AT_AS_PATH_TO_AS_SET => Ok (AsPathToAsSet, maskWith mAsPath mask)
  | AT_PERMIT | AT_DENY | AT_CONTINUE | AT_GOTO => Throw BgpErr
  end.

(** ** Terms *)

Definition createMissAction (action : FlowControlAction) : pres FlowAction :=
  match action with
  | FC_NEXT_TERM => Ok (ContinueAction false)
  | FC_DENY => Ok (DenyAction false)
  | FC_LOG_AND_NEXT_TERM => Ok (LogContinueAction true)
  | FC_LOG_AND_DENY => Ok (DenyAction true)
  | FC_LOG_AND_ACCEPT => Ok (AllowAction true)
  | FC_ACCEPT | FC_NEXT_POLICY => Throw BgpErr
  end.

Definition isFlowControlActionType (a : BgpPolicyAction) : bool :=
  match action_type a with
  | AT_GOTO | AT_DENY | AT_PERMIT | AT_CONTINUE => true
  | _ => false
  end.

Definition createPolicyFlowControlActionItem (a : BgpPolicyAction) : pres FlowAction :=
  match action_type a with
  | AT_GOTO => let* n := fromOption (next_term_id a) in Ok (GotoAction n)
  | AT_DENY => Ok (DenyAction false)
  | AT_PERMIT => Ok (AllowAction false)
  | AT_CONTINUE => Ok (ContinueAction false)
  | _ => Throw BgpErr
  end.

Fixpoint createMatches (ms : list BgpPolicyAtomicMatch) (mask : PolicyAttributesMask)
    : pres (list PolicyMatch * list PrefixTree * PolicyAttributesMask) :=
  match ms with
  | [] => Ok ([], [], mask)
  | m :: ms =>
      match match_type m with
      | MT_PREFIX_LIST =>
          let* '(t, mask) := createPolicyPrefixMatchItem m mask in
          let* '(ats, pts, mask) := createMatches ms mask in Ok (ats, t :: pts, mask)
      | _ =>
          let* '(a, mask) := createPolicyAttributeMatchItem m mask in
          let* '(ats, pts, mask) := createMatches ms mask in Ok (a :: ats, pts, mask)
      end
  end.

(** The attribute actions, the flow decisions in order, and the mask. *)
Fixpoint createActions (actions : list BgpPolicyAction) (mask : PolicyAttributesMask)
    : pres (list PolicyAction * list FlowAction * PolicyAttributesMask) :=
  match actions with
  | [] => Ok ([], [], mask)
  | a :: actions =>
      if isFlowControlActionType a then
        let* f := createPolicyFlowControlActionItem a in
        let* '(acts, flows, mask) := createActions actions mask in Ok (acts, f :: flows, mask)
      else
        let* '(act, mask) := createPolicyAttributesActionItem a mask in
        let* '(acts, flows, mask) := createActions actions mask in Ok (act :: acts, flows, mask)
  end.

Abbreviation BgpTerm := (PolicyTermBase PolicyMatch PrefixTree PolicyAction).

Definition newPolicyTerm (t : BgpPolicyTerm) (mask : PolicyAttributesMask)
    : pres (BgpTerm * PolicyAttributesMask) :=
  let* miss := createMissAction (term_miss_action t) in
  let* '(ats, pts, mask) := (match policy_match_entries t with
                             | None => Ok ([], [], mask)
                             | Some (op, ms) =>
                                 let* _ := ensure (bool_decide (op = BOOL_AND) || (blen ms <=? 1)) in
                                 createMatches ms mask
                             end) in
  let* '(acts, flows, mask) := createActions (policy_action_entries t) mask in
  let* _ := ensure (blen flows <=? 1) in
  Ok (mkTerm (term_name t) ats pts acts miss (default (AllowAction false) (head flows)), mask).

(** ** Policies *)

Record Policy := mkBgpPolicy {
  pol_base : PolicyBase PolicyMatch PrefixTree PolicyAction;
  pol_mask : PolicyAttributesMask
}.

Fixpoint populatePolicyTerms (ts : list BgpPolicyTerm) (mask : PolicyAttributesMask)
    : pres (list BgpTerm * PolicyAttributesMask) :=
  match ts with
  | [] => Ok ([], mask)
  | t :: ts =>
      let* '(t, mask) := newPolicyTerm t mask in
      let* '(ts, mask) := populatePolicyTerms ts mask in Ok (t :: ts, mask)
  end.

(** [config] is absent or says whether the default action is enabled. *)
Definition populateDefaultAction (s : BgpPolicyStatement) (enablePolicyDefaultAction : bool)
    : pres bool :=
  if negb enablePolicyDefaultAction then Ok false
  else match ps_result s with
       | FC_ACCEPT => Ok true
       | FC_DENY => Ok false
       | _ => Throw BgpErr
       end.

Definition isExtAction (a : PolicyAction) : bool :=
  match a with ExtCommunityAction _ _ => true | _ => false end.
Definition isLbwAction (a : PolicyAction) : bool :=
  match a with LbwExtCommunityAction _ _ _ => true | _ => false end.

(** [Policy::validatePolicyTerms] *)
Definition validateBgpPolicy (p : PolicyBase PolicyMatch PrefixTree PolicyAction) : pres unit :=
  let* _ := validatePolicyTerms p in
  let acts := policyTerms_ p ≫= actions_ in
  ensure (negb (existsb isExtAction acts && existsb isLbwAction acts)).

Definition newPolicy (s : BgpPolicyStatement) (enablePolicyDefaultAction : bool) : pres Policy :=
  let* '(terms, mask) := populatePolicyTerms (policy_entries s) emptyMask in
  let* defaultAllow := populateDefaultAction s enablePolicyDefaultAction in
  let p := mkPolicy (ps_name s) terms defaultAllow in
  let* _ := validateBgpPolicy p in
  Ok (mkBgpPolicy p mask).

(** ** References to named lists *)

(** [CommunityMatch::PopulateReferences] *)
Definition populateCommunityReferences (lists : gmap string CommunityList) (m : CommunityMatch)
    : pres CommunityMatch :=
  fold_left (fun m name =>
      let* m := m in
      let* l := fromOption (lists !! name) in
      let* _ := ensure (bool_decide (cm_boolean_operator m = cl_boolean_operator l)) in
      populateCommunities (default [] (cl_communities l)) m)
    (cm_listNames m) (Ok m).

(** [AsPathMatch::PopulateReferences] *)
Definition populateAsPathReferences (lists : gmap string AsPathList) (m : AsPathMatch)
    : pres AsPathMatch :=
  fold_left (fun m name =>
      let* m := m in
      let* l := fromOption (lists !! name) in
      let* _ := ensure (bool_decide (ap_boolean_operator m = al_boolean_operator l)) in
      let* rs := mapM_res (fun s => fromOption (regex_compile s)) (default [] (al_as_paths l)) in
      Ok (mkAsPathMatch (ap_boolean_operator m) (asPathRegexs_ m ++ rs) (ap_listNames m)))
    (ap_listNames m) (Ok m).

(** [PrefixTreeMatch::PopulateReferences] *)
Definition populatePrefixReferences (lists : gmap string PrefixList) (t : PrefixTree)
    : pres PrefixTree :=
  fold_left (fun t name =>
      let* t := t in
      let* l := fromOption (lists !! name) in
      let* t' := validateAndCreatePrefixTree l in
      Ok (mkPrefixTree (insertAll (tree_entries t') (radixTree_ t)) (origOrder_ t)
            (needCheckOrder_ t) (prefixListNames_ t)))
    (prefixListNames_ t) (Ok t).

(** [CommunityAction::PopulateReferences] *)
Definition populateActionReferences (lists : gmap string CommunityList) (a : PolicyAction)
    : pres PolicyAction :=
  match a with
  | CommunityAction type cs rs names =>
      let* '(cs, rs) :=
        fold_left (fun acc name =>
            let* '(cs, rs) := acc in
            let* l := fromOption (lists !! name) in
            let* strs := fromOption (cl_communities l) in
            addActionCommunities type strs cs rs)
          names (Ok (cs, rs)) in
      Ok (CommunityAction type cs rs names)
  | a => Ok a
  end.

(** ** The policy manager *)

Record PolicyManager := mkPolicyManager {
  policyMap_ : gmap string Policy;
  policyNameToAttrsMask_ : gmap string PolicyAttributesMask;
  communityListMap_ : gmap string CommunityList;
  asPathListMap_ : gmap string AsPathList;
  prefixListMap_ : gmap string PrefixList
}.

(** Inserts under a name that must not be empty or taken. *)
Definition insertNamed {V} (name : string) (v : V) (m : gmap string V) : pres (gmap string V) :=
  let* _ := ensure (negb (bool_decide (name = ""))) in
  let* _ := ensure (bool_decide (m !! name = None)) in Ok (<[name := v]> m).

Definition populatePolicyDatabase (config : BgpPolicies) (enablePolicyDefaultAction : bool)
    : pres PolicyManager :=
  let* policies :=
    fold_left (fun m s =>
        let* m := m in
        let* _ := ensure (negb (bool_decide (ps_name s = ""))) in
        let* p := newPolicy s enablePolicyDefaultAction in
        insertNamed (ps_name s) p m)
      (bgp_policy_statements config) (Ok ∅) in
  let* cls :=
    fold_left (fun m l =>
        let* m := m in
        let* _ := ensure (negb (bool_decide (cl_name l = ""))) in
        let* _ := ensure (negb (nonempty (default [] (cl_list_names l)))) in
        insertNamed (cl_name l) l m) (community_lists config) (Ok ∅) in
  let* als :=
    fold_left (fun m l =>
        let* m := m in
        let* _ := ensure (negb (bool_decide (al_name l = ""))) in
        let* _ := ensure (negb (nonempty (default [] (al_list_names l)))) in
        insertNamed (al_name l) l m) (aspath_lists config) (Ok ∅) in
  let* pls :=
    fold_left (fun m l =>
        let* m := m in
        let* _ := ensure (negb (bool_decide (pl_name l = ""))) in
        let* _ := ensure (negb (nonempty (pl_list_names l))) in
        insertNamed (pl_name l) l m) (prefix_lists config) (Ok ∅) in
  Ok (mkPolicyManager policies (pol_mask <$> policies) cls als pls).

(** [populateAttrsReferences] on one term. *)
Definition populateTermReferences (m : PolicyManager) (t : BgpTerm) : pres BgpTerm :=
  let* ats := mapM_res (fun a => match a with
                                 | MatchCommunity c =>
                                     let* c := populateCommunityReferences (communityListMap_ m) c in
                                     Ok (MatchCommunity c)
                                 | MatchAsPath c =>
                                     let* c := populateAsPathReferences (asPathListMap_ m) c in
                                     Ok (MatchAsPath c)
                                 | a => Ok a
                                 end) (attributesMatches_ t) in
  let* pts := mapM_res (populatePrefixReferences (prefixListMap_ m)) (prefixMatches_ t) in
  let* acts := mapM_res (populateActionReferences (communityListMap_ m)) (actions_ t) in
  Ok (mkTerm (termName_ t) ats pts acts (termMissFlowControlAction_ t)
        (termMatchFlowControlAction_ t)).

Definition populatePolicyReferences (m : PolicyManager) (p : Policy) : pres Policy :=
  let* ts := mapM_res (populateTermReferences m) (policyTerms_ (pol_base p)) in
  Ok (mkBgpPolicy (mkPolicy (policyName_ (pol_base p)) ts (defaultAllow_ (pol_base p))) (pol_mask p)).

Definition newPolicyManager (config : BgpPolicies) (enablePolicyDefaultAction : bool)
    : pres PolicyManager :=
  let* m := populatePolicyDatabase config enablePolicyDefaultAction in
  let* ps := mapM_res (fun '(n, p) => let* p := populatePolicyReferences m p in Ok (n, p))
               (map_to_list (policyMap_ m)) in
  Ok (mkPolicyManager (list_to_map ps) (policyNameToAttrsMask_ m) (communityListMap_ m)
        (asPathListMap_ m) (prefixListMap_ m)).

Definition getPolicyAttributesMask (m : PolicyManager) (name : string) : option PolicyAttributesMask :=
  policyNameToAttrsMask_ m !! name.

(** ** The instance of the engine *)

Definition kInvalidGarWeightsDenyReason : string := "invalid GAR weights".

#[export] Instance bgpPolicyClasses :
    PolicyClasses BgpPathFields BgpPolicyActionData unit CIDRNetwork PolicyMatch PrefixTree PolicyAction := {|
  Match m a _ := matchPolicy m a;
  MatchPrefix := prefixTreeMatch;
  applyAction := applyPolicyAction;
  hasInvalidAttrsPostAction data :=
    match data with
    | Some d => if isLbwRejected d then Some kInvalidGarWeightsDenyReason else None
    | None => None
    end
|}.
End Build.
