(* ===== verification/SwitchId.v ===== *)
(** * Validation of the switch id encoding

    [validateSwitchIdEncoding] of policy/PolicyUtils.cpp walks the policies a peer
    refers to, and those they refer to in turn, and rejects a configuration in
    which some action would encode a local switch id that does not fit its field.
    The walk is a work list; references may form cycles. *)

From stdpp Require Import gmap strings.
From S2P Require Import Prelude PathFields PolicyEncoding PolicyAction PolicyEngine PolicyTerm.
Local Open Scope bgp_scope.

(** ** One action *)

Definition validateSwitchIdAction (a : LbwActionConfig) (switchId : option Z) : pres unit :=
  let* id := fromOption switchId in
  let* scheme := fromOption (encoding_scheme a) in
  let* encodingId := fromOption (encoding_id a) in
  let fieldWidths := encodingSchemeToVector scheme in
  let* _ := ensure ((0 <=? encodingId) && (encodingId <? blen fieldWidths)) in
  let fieldWidth := nth (Z.to_nat encodingId) fieldWidths 0 in
  ensure (negb ((fieldWidth <? 64) && (2 ^ fieldWidth <=? id))).

Definition isSwitchIdAction (a : LbwActionConfig) : bool :=
  match lbw_type a with LBW_ENCODE_SWITCH_ID => true | _ => false end.

(** One action of a term: the policy it refers to, if any, and its check. *)
Definition checkAction (switchId : option Z) (a : BgpPolicyAction) : pres unit :=
  match lbw_ext_community_action a with
  | Some l => if isSwitchIdAction l then validateSwitchIdAction l switchId else Ok tt
  | None => Ok tt
  end.

Definition policyActions (p : BgpPolicyStatement) : list BgpPolicyAction :=
  policy_entries p ≫= policy_action_entries.
Definition policyReferences (p : BgpPolicyStatement) : list string :=
  omap next_policy_id (policyActions p).

(** The loops over the terms and actions: references are pushed, the first
    failing check throws. *)
Fixpoint checkActions (switchId : option Z) (as_ : list BgpPolicyAction) (todo : list string)
    : pres (list string) :=
  match as_ with
  | [] => Ok todo
  | a :: as_ =>
      let todo := match next_policy_id a with Some n => n :: todo | None => todo end in
      let* _ := checkAction switchId a in
      checkActions switchId as_ todo
  end.

(** ** The walk *)

(** [policiesByName]: [emplace] keeps the first policy of a name. *)
Definition policyNamed (ps : list BgpPolicyStatement) (name : string) : option BgpPolicyStatement :=
  head (filter (fun p => ps_name p = name) ps).

(** The stack is the vector with its back first. *)
Fixpoint validateWalk (fuel : nat) (ps : list BgpPolicyStatement) (switchId : option Z)
    (todo : list string) (checked : gset string) : pres unit :=
  match todo with
  | [] => Ok tt
  | name :: todo =>
      match fuel with
      | O => NoFuel
      | S fuel =>
          if decide (name ∈ checked) then validateWalk fuel ps switchId todo checked
          else
          let checked := {[name]} ∪ checked in
          match policyNamed ps name with
          | None => validateWalk fuel ps switchId todo checked
          | Some p =>
              let* todo := checkActions switchId (policyActions p) todo in
              validateWalk fuel ps switchId todo checked
          end
      end
  end.

Definition referencesLeft (ps : list BgpPolicyStatement) (checked : gset string) : nat :=
  foldr (fun p n => ((if decide (ps_name p ∈ checked) then 0 else length (policyReferences p)) + n)%nat)
    0%nat ps.

(** Every round takes a name off the stack, and a policy pushes its references
    once: this fuel is enough ([validateWalk_total]). *)
Definition validateSwitchIdEncoding (ps : list BgpPolicyStatement) (names : list string)
    (switchId : option Z) : pres unit :=
  validateWalk (length names + referencesLeft ps ∅) ps switchId names ∅.

(** ** Termination *)

Lemma references_mark ps name checked :
  (referencesLeft ps ({[name]} ∪ checked) +
     (if decide (name ∈ checked) then 0
      else match policyNamed ps name with Some p => length (policyReferences p) | None => 0 end)
   <= referencesLeft ps checked)%nat.
Proof.
  destruct (decide (name ∈ checked)) as [Hin|Hout].
  { replace ({[name]} ∪ checked) with checked by set_solver. lia. }
  unfold policyNamed. induction ps as [|p ps IH]; simpl; [lia|].
  rewrite filter_cons. destruct (decide (ps_name p = name)) as [Heq|Hne]; simpl.
  - rewrite decide_True by set_solver. rewrite decide_False by (by rewrite Heq).
    assert (Hmono : (referencesLeft ps ({[name]} ∪ checked) <= referencesLeft ps checked)%nat).
    { clear. induction ps as [|q ps IH]; simpl; [lia|].
      repeat case_decide; try lia. set_solver. }
    unfold referencesLeft in *. lia.
  - destruct (decide (ps_name p ∈ checked)).
    + rewrite decide_True by set_solver. unfold referencesLeft in *. lia.
    + rewrite decide_False by set_solver. unfold referencesLeft in *. lia.
Qed.

Lemma checkActions_spec switchId as_ : forall todo,
  match checkActions switchId as_ todo with
  | Ok todo' => Forall (fun a => checkAction switchId a = Ok tt) as_ /\
      length todo' = (length (omap next_policy_id as_) + length todo)%nat /\
      forall n, n ∈ todo' <-> n ∈ omap next_policy_id as_ \/ n ∈ todo
  | Throw _ => ~ Forall (fun a => checkAction switchId a = Ok tt) as_
  | NoFuel => False
  end.
Proof.
  induction as_ as [|a as_ IH]; intros todo.
  { simpl. split_and!; [constructor|done|]. intros n. set_solver. }
  cbn [checkActions].
  assert (Hc : checkAction switchId a <> NoFuel).
  { unfold checkAction, validateSwitchIdAction, fromOption, ensure. repeat (case_match; simpl; try done). }
  destruct (checkAction switchId a) as [[]|e|] eqn:Ea; cbn [rbind]; [| |done].
  - specialize (IH (match next_policy_id a with Some n => n :: todo | None => todo end)).
    destruct (checkActions switchId as_ _) as [todo'|e|]; [|by rewrite Forall_cons; tauto|done].
    destruct IH as (HF & Hlen & Hin). split; [by constructor|].
    change (omap next_policy_id (a :: as_)) with
      (match next_policy_id a with
       | Some y => y :: omap next_policy_id as_ | None => omap next_policy_id as_ end).
    destruct (next_policy_id a) as [n|]; rewrite ?length_cons in *; (split; [lia|]);
      intros n'; rewrite Hin; set_solver.
  - rewrite Forall_cons. intros [Ha _]. congruence.
Qed.

Lemma validateWalk_total ps switchId fuel : forall todo checked,
  (length todo + referencesLeft ps checked <= fuel)%nat ->
  validateWalk fuel ps switchId todo checked <> NoFuel.
Proof.
  induction fuel as [|fuel IH]; intros [|name todo] checked Hf; simpl in *; try done; [lia|].
  pose proof (references_mark ps name checked) as Hm.
  destruct (decide (name ∈ checked)); [apply IH; lia|].
  destruct (policyNamed ps name) as [p|] eqn:Ep; [|apply IH; lia].
  pose proof (checkActions_spec switchId (policyActions p) todo) as Hs.
  destruct (checkActions switchId (policyActions p) todo) as [todo'|e|]; simpl; [|done|done].
  destruct Hs as (_ & Hlen & _). apply IH. unfold policyReferences in Hm. lia.
Qed.

(** ** What the walk accepts *)

Section Reach.
Variable ps : list BgpPolicyStatement.
Variable switchId : option Z.

(** One policy refers to another by name. *)
Definition refersTo (n n' : string) : Prop :=
  exists p, policyNamed ps n = Some p /\ n' ∈ policyReferences p.

Definition validPolicy (n : string) : Prop :=
  forall p, policyNamed ps n = Some p -> Forall (fun a => checkAction switchId a = Ok tt) (policyActions p).

Lemma validateWalk_sound fuel : forall todo checked,
  validateWalk fuel ps switchId todo checked = Ok tt ->
  (forall n, n ∈ checked -> validPolicy n /\ forall n', refersTo n n' -> n' ∈ checked \/ n' ∈ todo) ->
  exists done_ : gset string, checked ⊆ done_ /\ list_to_set todo ⊆ done_ /\
    forall n, n ∈ done_ -> validPolicy n /\ forall n', refersTo n n' -> n' ∈ done_.
Proof.
  induction fuel as [|fuel IH]; intros [|name todo] checked Hw Hinv; simpl in Hw; try done.
  1,2: exists checked; split_and!; [done|set_solver|]; intros n Hn; destruct (Hinv n Hn) as [Hv Hr];
    split; [done|]; intros n' Hn'; destruct (Hr n' Hn') as [|Hx]; [done|by apply elem_of_nil in Hx].
  destruct (decide (name ∈ checked)) as [Hin|Hout].
  { destruct (IH todo checked Hw) as (d & Hc & Ht & Hd).
    - intros n Hn. destruct (Hinv n Hn) as [Hv Hr]. split; [done|]. intros n' Hn'.
      destruct (Hr n' Hn') as [|Hx]; [by left|]. apply elem_of_cons in Hx as [->|]; auto.
    - exists d. split_and!; [done|set_solver|done]. }
  assert (Hstep : forall todo',
    (forall n, n ∈ todo -> n ∈ todo') -> validPolicy name ->
    (forall n', refersTo name n' -> n' ∈ todo') ->
    validateWalk fuel ps switchId todo' ({[name]} ∪ checked) = Ok tt ->
    exists d : gset string, checked ⊆ d /\ list_to_set (name :: todo) ⊆ d /\
      forall n, n ∈ d -> validPolicy n /\ forall n', refersTo n n' -> n' ∈ d).
  { intros todo' Hsub Hvn Hrn Hw'. destruct (IH _ _ Hw') as (d & Hc & Ht & Hd).
    - intros n [->%elem_of_singleton|Hn]%elem_of_union; [split; [done|]; auto|].
      destruct (Hinv n Hn) as [Hv Hr]. split; [done|]. intros n' Hn'.
      destruct (Hr n' Hn') as [|[->|]%elem_of_cons]; [set_solver|set_solver|auto].
    - exists d. split_and!; [set_solver| |done]. intros n Hn. rewrite elem_of_list_to_set in Hn.
      apply elem_of_cons in Hn as [->|Hn]; [set_solver|]. apply Ht, elem_of_list_to_set. auto. }
  destruct (policyNamed ps name) as [p|] eqn:Ep.
  - pose proof (checkActions_spec switchId (policyActions p) todo) as Hs.
    destruct (checkActions switchId (policyActions p) todo) as [todo'|e|]; simpl in Hw; [|done|done].
    destruct Hs as (HF & _ & Hin). apply (Hstep todo'); [| | |done].
    + intros n Hn. apply Hin. by right.
    + intros p' Hp'. by simplify_eq.
    + intros n' (p' & Hp' & Hr). simplify_eq. apply Hin. by left.
  - apply (Hstep todo); [done| | |done].
    + intros p Hp. congruence.
    + intros n' (p & Hp & _). congruence.
Qed.

Lemma validateWalk_complete fuel (good : string -> Prop) :
  (forall n, good n -> validPolicy n /\ forall n', refersTo n n' -> good n') ->
  forall todo checked e, (forall n, n ∈ todo -> good n) ->
  validateWalk fuel ps switchId todo checked <> Throw e.
Proof.
  intros Hgood. induction fuel as [|fuel IH]; intros [|name todo] checked e Ht; simpl; try done.
  assert (Hname : good name) by (apply Ht; left).
  assert (Ht' : forall n, n ∈ todo -> good n) by (intros n Hn; apply Ht; by right).
  destruct (decide (name ∈ checked)); [by apply IH|].
  destruct (policyNamed ps name) as [p|] eqn:Ep; [|by apply IH].
  pose proof (checkActions_spec switchId (policyActions p) todo) as Hs.
  destruct (checkActions switchId (policyActions p) todo) as [todo'|e'|]; simpl; [| |done].
  - destruct Hs as (_ & _ & Hin). apply IH. intros x Hx. apply Hin in Hx as [Hx|]; [|auto].
    apply (Hgood name Hname). by exists p.
  - destruct Hs. by apply (Hgood name Hname).
Qed.

(** The walk over the policies ends, cycles or not, and accepts exactly
    when every policy that can be reached from the given names by references has
    only switch id actions that pass the check. *)
Theorem switch_id_validation (names : list string) :
  validateSwitchIdEncoding ps names switchId = Ok tt <->
  forall n n', n ∈ names -> rtc refersTo n n' -> validPolicy n'.
Proof.
  unfold validateSwitchIdEncoding. split.
  - intros Hw. apply validateWalk_sound in Hw as (d & _ & Ht & Hd); [|set_solver].
    intros n n' Hn Hr.
    assert (Hin : n ∈ d) by (apply Ht; by apply elem_of_list_to_set).
    assert (Hin' : n' ∈ d).
    { clear -Hr Hin Hd. induction Hr as [|x y z Hxy Hyz IH]; [done|]. apply IH.
      by apply (Hd x). }
    by apply Hd.
  - intros Hall.
    pose proof (validateWalk_total ps switchId _ names ∅ (le_n _)) as Hnf.
    assert (Hgood : forall n', (exists n, n ∈ names /\ rtc refersTo n n') ->
              validPolicy n' /\ forall n'', refersTo n' n'' -> exists n, n ∈ names /\ rtc refersTo n n'').
    { intros n' (n0 & Hn0 & Hr). split; [by apply (Hall n0)|].
      intros n'' Hn'. exists n0. split; [done|]. by eapply rtc_r. }
    pose proof (validateWalk_complete (length names + referencesLeft ps ∅) _ Hgood names ∅) as Hc.
    destruct (validateWalk _ ps switchId names ∅) as [[]|e|]; [done| |done].
    exfalso. apply (Hc e); [|done]. intros n Hn. exists n. split; [done|apply rtc_refl].
Qed.
End Reach.

(** A switch id that passes the check is encoded: with a scheme whose fields
    fit, none of the checks of [encodeValue] fails. *)
Lemma validated_switch_id_encodes (a : LbwActionConfig) (s : NsfTeWeightEncoding) (i : nat) (e id : Z) :
  encoding_scheme a = Some s -> encoding_id a = Some (Z.of_nat i) ->
  fits (widths (scheme_fields s)) -> 0 <= e < 2 ^ 32 -> 0 <= id ->
  Forall (fun w => 0 < w) (widths (scheme_fields s)) ->
  validateSwitchIdAction a (Some id) = Ok tt ->
  exists e', encodeValue e id (Z.of_nat i) (encodingSchemeToVector s) = Some e'.
Proof.
  intros Hs Hi Hf He Hid Hpos Hv. unfold validateSwitchIdAction in Hv. rewrite Hs, Hi in Hv.
  cbn [fromOption rbind] in Hv. rewrite Nat2Z.id in Hv.
  rewrite (scheme_widths s) in * by apply Hf. unfold ensure in Hv.
  destruct ((0 <=? Z.of_nat i) && (Z.of_nat i <? blen (widths (scheme_fields s)))) eqn:Eb; [|done].
  apply andb_true_iff in Eb as [_ Eb]. zbool.
  destruct (lookup_lt_is_Some_2 (widths (scheme_fields s)) i) as [w Hw]; [lia|].
  rewrite (nth_lookup_Some _ _ 0 _ Hw) in Hv. cbn [rbind] in Hv.
  destruct (start_fits _ i w Hf Hw) as (_ & _ & Hw31 & _). rewrite Forall_lookup in Hpos.
  destruct ((w <? 64) && (2 ^ w <=? id)) eqn:E; [done|].
  assert (Hlt : id < 2 ^ w) by (apply andb_false_iff in E as [E|E]; zbool; lia).
  destruct (encodeValue_spec e id i (widths (scheme_fields s)) w) as (e' & He' & _);
    [done|done|done|by apply (Hpos i)|lia|]. by exists e'.
Qed.

(** Two policies that refer to each other; the second encodes a switch id. *)
Definition sample_reference (next : string) (lbw : option LbwActionConfig) : BgpPolicyAction :=
  mkPolicyAction AT_PERMIT None None None None None None None None lbw None None (Some next) None.
Definition sample_policies : list BgpPolicyStatement :=
  [mkPolicyStatement "A" [mkPolicyTerm "t" None [sample_reference "B" None] FC_NEXT_TERM] FC_DENY;
   mkPolicyStatement "B" [mkPolicyTerm "t" None
     [sample_reference "A" (Some (mkLbwAction LBW_ENCODE_SWITCH_ID (Some (fpf_l2_encoding 4 4 8)) (Some 1)))]
     FC_NEXT_TERM] FC_DENY].

Example sample_walk_fits : validateSwitchIdEncoding sample_policies ["A"] (Some 15) = Ok tt.
Proof. reflexivity. Qed.
Example sample_walk_rejects : validateSwitchIdEncoding sample_policies ["A"] (Some 16) = Throw BgpErr.
Proof. reflexivity. Qed.
