(* ===== verification/PolicyMask.v ===== *)
(** * What a policy can see and change

    The mask of a policy names the attributes its matches read and its actions
    change (policy/PolicyAttributesMask.h).  [project] keeps those attributes and
    forgets the rest; evaluation commutes with it, so the outcome of a policy
    depends on the masked attributes only.
    [overridePrePolicyAttributesCommon] (adjrib/AdjRibCommon.cpp) copies the masked
    attributes of an outcome onto a path. *)

From stdpp Require Import gmap strings.
From S2P Require Import Prelude BgpException Folly BgpStructs RouteFilter RouteInfo RibEntry Ucmp.
From S2P Require Import DeDuplicator PathFields PolicyEncoding PolicyAction PolicyMatch.
From S2P Require Import PolicyEngine PolicyEngineSpec PolicyTerm.

Section Mask.
Context `{L : PolicyLibs} `{PL : PrefixLibs} `{RC : RibContext}.
Abbreviation BgpTerm := (PolicyTermBase PolicyMatch PrefixTree PolicyAction).

(** ** Copying the masked attributes *)

Definition when {X} (b : bool) (f : X -> X) (x : X) : X := if b then f x else x.

(** The attributes of [cached] that the mask names, onto [attrs]. *)
Definition overridePrePolicyAttributesCommon (mask : PolicyAttributesMask)
    (cached attrs : BgpPathFields) : BgpPathFields :=
  let p := attrs in
  let p := when (mask mOrigin) (setOrigin (getOrigin cached)) p in
  let p := when (mask mAsPath) (setAsPath (getAsPath cached)) p in
  let p := when (mask mNexthop) (setNexthop (pf_nexthop cached)) p in
  let p := when (mask mMed) (setMed (pf_getMed cached)) p in
  let p := when (mask mWeight) (setWeight (getWeight cached)) p in
  let p := when (mask mBackupAddr) (setBackupAddr (pf_backupAddr cached)) p in
  let p := when (mask mLocalPref) (setLocalPref (ac_localPref (pf_attrs cached))) p in
  let p := when (mask mAtomicAggregate)
             (setAtomicAggregate (ac_atomicAggregate (pf_attrs cached))) p in
  let p := when (mask mAggregator) (setAggregator (ac_aggregator (pf_attrs cached))) p in
  let p := when (mask mCommunities) (setCommunities (getCommunities cached)) p in
  let p := when (mask mOriginatorId) (setOriginatorId (ac_originatorId (pf_attrs cached))) p in
  let p := when (mask mClusterList) (setClusterList (ac_clusterList (pf_attrs cached))) p in
  when (mask mExtCommunities)
    (fun p => setTopologyInfo (pf_topologyInfo cached) (setExtCommunities (getExtCommunities cached) p)) p.

(** ** Projection *)

Definition project (mask : PolicyAttributesMask) (p : BgpPathFields) : BgpPathFields :=
  let a := pf_attrs p in
  let keep {X} (b : MaskBit) (x d : X) : X := if mask b then x else d in
  mkPathFields
    (mkAttributesC (keep mOrigin (ac_origin a) 0) (keep mAsPath (ac_asPath a) [])
       (keep mMed (pf_getMed p) 0) true (keep mLocalPref (ac_localPref a) None)
       (keep mAtomicAggregate (ac_atomicAggregate a) false)
       (keep mAggregator (ac_aggregator a) (0, IPUnset)) (keep mCommunities (ac_communities a) [])
       (keep mOriginatorId (ac_originatorId a) 0) (keep mClusterList (ac_clusterList a) [])
       (keep mExtCommunities (ac_extCommunities a) []) (keep mWeight (ac_weight a) 0))
    (keep mNexthop (pf_nexthop p) IPUnset) (keep mExtCommunities (pf_topologyInfo p) None)
    (keep mBackupAddr (pf_backupAddr p) None).

(** The attributes a match reads and an action reads or changes. *)
Definition matchBits (m : PolicyMatch) : list MaskBit :=
  match m with
  | MatchCommunity _ | MatchCommunityCount _ => [mCommunities]
  | MatchOrigin _ => [mOrigin]
  | MatchAsPath _ | MatchAsPathLen _ | MatchAsPathLenWithConfed _ => [mAsPath]
  | MatchWeight _ => [mWeight]
  | MatchAlways => []
  end.
Definition actionBits (a : PolicyAction) : list MaskBit :=
  match a with
  | SetAsPathPrependAction _ _ | SetAsPath _ | AsPathToAsSet => [mAsPath]
  | CommunityAction _ _ _ _ => [mCommunities]
  | LbwExtCommunityAction _ _ _ => [mExtCommunities; mCustomizedLbwEnabled]
  | ExtCommunityAction _ _ => [mExtCommunities]
  | SetLocalPreference _ => [mLocalPref]
  | SetOrigin _ => [mOrigin]
  | SetNexthop _ => [mNexthop]
  | AddBackupAddr _ => [mBackupAddr]
  | SetMed _ => [mMed]
  | SetWeight _ => [mWeight]
  end.

Definition covers_bits (mask : PolicyAttributesMask) (bits : list MaskBit) : Prop :=
  Forall (fun b => mask b = true) bits.

Definition covers_term (mask : PolicyAttributesMask) (t : BgpTerm) : Prop :=
  Forall (fun m => covers_bits mask (matchBits m)) (attributesMatches_ t) /\
  Forall (fun a => covers_bits mask (actionBits a)) (actions_ t) /\
  (mask mPrefix = true \/ prefixMatches_ t = []).

Definition covers_policy (mask : PolicyAttributesMask) (p : PolicyBase PolicyMatch PrefixTree PolicyAction)
    : Prop := Forall (covers_term mask) (policyTerms_ p).

Lemma project_idem mask p : project mask (project mask p) = project mask p.
Proof.
  unfold project, pf_getMed. simpl. f_equal; [f_equal|..]; by repeat case_match.
Qed.

(** ** Matches *)

Lemma match_project mask m p :
  covers_bits mask (matchBits m) -> matchPolicy m (project mask p) = matchPolicy m p.
Proof.
  intros Hc. destruct m; simpl in *; try done; inversion Hc as [|? ? Hb _]; subst.
  all: unfold communityMatch, communityMatchAny, communityMatchAll, asPathMatch, asPathStr,
    getFullBgpAsPathAsString, getBgpAsPathLen, getBgpAsPathLenWithConfed,
    getCommunities, getOrigin, getAsPath, getWeight; simpl; by rewrite Hb.
Qed.

(** ** Actions *)

Lemma getExt_project mask p :
  mask mExtCommunities = true -> getExtCommunities (project mask p) = getExtCommunities p.
Proof. intros Hb. unfold getExtCommunities. simpl. by rewrite Hb. Qed.

Lemma setExt_project mask v p :
  mask mExtCommunities = true ->
  setExtCommunities v (project mask p) = project mask (setExtCommunities v p).
Proof. intros Hb. unfold setExtCommunities, mapAttrs, project, pf_getMed. simpl. by rewrite !Hb. Qed.

Lemma prune_project mask p :
  mask mExtCommunities = true ->
  pruneNonTransitiveLbwExtCommunity (project mask p) =
  project mask (pruneNonTransitiveLbwExtCommunity p).
Proof.
  intros Hb. unfold pruneNonTransitiveLbwExtCommunity. rewrite getExt_project by done.
  destruct (existsb _ _); [by apply setExt_project|done].
Qed.

Lemma setRaw_project mask asn raw p :
  mask mExtCommunities = true ->
  setNonTransitiveRawLbwExtCommunity asn raw (project mask p) =
  project mask (setNonTransitiveRawLbwExtCommunity asn raw p).
Proof.
  intros Hb. unfold setNonTransitiveRawLbwExtCommunity.
  rewrite prune_project, getExt_project by done. by apply setExt_project.
Qed.

Lemma getRaw_project mask p :
  mask mExtCommunities = true ->
  getNonTransitiveRawLbwValue (project mask p) = getNonTransitiveRawLbwValue p.
Proof.
  intros Hb. unfold getNonTransitiveRawLbwValue, getNonTransitiveLbwExtCommunity.
  by rewrite getExt_project.
Qed.

Lemma setTopology_project mask v p :
  mask mExtCommunities = true ->
  setTopologyInfo v (project mask p) = project mask (setTopologyInfo v p).
Proof. intros Hb. unfold setTopologyInfo, project, pf_getMed. simpl. by rewrite !Hb. Qed.

#[local] Hint Rewrite prune_project setRaw_project getRaw_project setTopology_project setExt_project
  getExt_project using done : project.

Lemma setLbw_project mask asn v p :
  mask mExtCommunities = true ->
  setNonTransitiveLbwExtCommunity asn v (project mask p) =
  project mask (setNonTransitiveLbwExtCommunity asn v p).
Proof. apply setRaw_project. Qed.

Lemma restoreLbw_project mask o p :
  mask mExtCommunities = true -> restoreLbw o (project mask p) = project mask (restoreLbw o p).
Proof.
  intros Hb. destruct o as [[asn v]|]; [by apply setLbw_project|by apply prune_project].
Qed.

Lemma setOrPrune_project mask asn v p :
  mask mExtCommunities = true ->
  setOrPrune asn v (project mask p) = project mask (setOrPrune asn v p).
Proof. intros Hb. destruct v; [by apply setLbw_project|by apply prune_project]. Qed.

Lemma currentRawLbw_project mask o p :
  mask mExtCommunities = true ->
  currentRawLbw o (project mask p) =
  (project mask (currentRawLbw o p).1, (currentRawLbw o p).2).
Proof.
  intros Hb. unfold currentRawLbw. rewrite getRaw_project by done.
  destruct (getNonTransitiveRawLbwValue p); [done|]. destruct o as [[asn v]|]; [|done].
  by rewrite setLbw_project, getRaw_project.
Qed.
#[local] Hint Rewrite setLbw_project restoreLbw_project setOrPrune_project currentRawLbw_project
  using done : project.

(** The outcome of an action, with the path projected. *)
Definition projectOutcome {X} (mask : PolicyAttributesMask) (o : option (BgpPathFields * X))
    : option (BgpPathFields * X) :=
  '(p, x) ← o; Some (project mask p, x).

Lemma encodeInto_project mask lbw scheme id val p d :
  mask mExtCommunities = true ->
  encodeInto lbw scheme id val (project mask p) d =
  projectOutcome mask (encodeInto lbw scheme id val p d).
Proof.
  intros Hb. unfold encodeInto. autorewrite with project.
  destruct scheme; [|done]. destruct id; [|done]. cbn [mbind option_bind fst snd].
  destruct (currentRawLbw (originalAsnLbw lbw) p) as [p' cur]. cbn [mbind option_bind fst snd].
  destruct val; [|done]. cbn [mbind option_bind fst snd]. destruct (encodeValue _ _ _ _); [|done]. cbn [mbind option_bind fst snd].
  by autorewrite with project.
Qed.

Lemma lbwAction_project mask type scheme id lbw p d :
  mask mExtCommunities = true ->
  applyLbwAction type scheme id lbw (project mask p) d =
  projectOutcome mask (applyLbwAction type scheme id lbw p d).
Proof.
  intros Hb. destruct type; cbn [applyLbwAction]; try by apply encodeInto_project.
  all: autorewrite with project; try done.
  - destruct (linkBandwidthBps lbw); [|done]. cbn [mbind option_bind fst snd]. by autorewrite with project.
  - destruct (originalAsnLbw lbw) as [[asn v]|]; [|by autorewrite with project].
    autorewrite with project. destruct (zeroOrMissing _); [done|].
    destruct scheme; [|done]. cbn [mbind option_bind fst snd]. destruct (getNonTransitiveRawLbwValue _); [|done]. cbn [mbind option_bind fst snd].
    destruct (decodeValues _ _); [|done]. cbn [mbind option_bind fst snd]. by autorewrite with project.
  - destruct (aggregateReceivedUcmpWeight lbw); simpl; by autorewrite with project.
  - destruct (aggregateReceivedUcmpWeight lbw); [|by autorewrite with project].
    destruct (f32_eqb _ _); [by autorewrite with project|].
    destruct scheme; [|done]. destruct id; [|done]. cbn [mbind option_bind fst snd].
    destruct (to_unsigned _ _); [|done]. cbn [mbind option_bind fst snd]. destruct (encodeValue _ _ _ _); [|done]. cbn [mbind option_bind fst snd].
    by autorewrite with project.
  - destruct (currentRawLbw (originalAsnLbw lbw) p) as [p' cur]. cbn [mbind option_bind fst snd].
    destruct (match cur with Some _ => _ | None => _ end); [|done]. cbn [mbind option_bind fst snd].
    by autorewrite with project.
Qed.

(** Setters of one field commute with the projection that keeps the field. *)
Ltac project_setter :=
  let Hb := fresh in intros Hb;
  unfold setAsPath, setCommunities, setLocalPref, setOrigin, setMed, setWeight, setNexthop,
    setBackupAddr, mapAttrs, project, pf_getMed; simpl; by rewrite ?Hb.

Lemma setAsPath_project mask v p :
  mask mAsPath = true -> setAsPath v (project mask p) = project mask (setAsPath v p).
Proof. project_setter. Qed.
Lemma setCommunities_project mask v p :
  mask mCommunities = true -> setCommunities v (project mask p) = project mask (setCommunities v p).
Proof. project_setter. Qed.
Lemma setLocalPref_project mask v p :
  mask mLocalPref = true -> setLocalPref v (project mask p) = project mask (setLocalPref v p).
Proof. project_setter. Qed.
Lemma setOrigin_project mask v p :
  mask mOrigin = true -> setOrigin v (project mask p) = project mask (setOrigin v p).
Proof. project_setter. Qed.
Lemma setNexthop_project mask v p :
  mask mNexthop = true -> setNexthop v (project mask p) = project mask (setNexthop v p).
Proof. project_setter. Qed.
Lemma setBackupAddr_project mask v p :
  mask mBackupAddr = true -> setBackupAddr v (project mask p) = project mask (setBackupAddr v p).
Proof. project_setter. Qed.
Lemma setMed_project mask v p :
  mask mMed = true -> setMed v (project mask p) = project mask (setMed v p).
Proof. project_setter. Qed.
Lemma setWeight_project mask v p :
  mask mWeight = true -> setWeight v (project mask p) = project mask (setWeight v p).
Proof. project_setter. Qed.
Lemma getAsPath_project mask p :
  mask mAsPath = true -> getAsPath (project mask p) = getAsPath p.
Proof. intros Hb. unfold getAsPath. simpl. by rewrite Hb. Qed.
Lemma getCommunities_project mask p :
  mask mCommunities = true -> getCommunities (project mask p) = getCommunities p.
Proof. intros Hb. unfold getCommunities. simpl. by rewrite Hb. Qed.
#[local] Hint Rewrite setAsPath_project setCommunities_project setLocalPref_project
  setOrigin_project setNexthop_project setBackupAddr_project setMed_project setWeight_project
  getAsPath_project getCommunities_project using done : project.

Lemma prepend_project mask asn n p :
  mask mAsPath = true ->
  applyAsPathPrepend asn n (project mask p) = project mask <$> applyAsPathPrepend asn n p.
Proof.
  intros Hb. unfold applyAsPathPrepend. autorewrite with project.
  destruct (match getAsPath p with [] => _ | _ :: _ => _ end) as [[path k]|]; [|done]. simpl.
  destruct (if 0 <? k then _ else _); [|done]. simpl. by autorewrite with project.
Qed.

(** An action does the same on the masked attributes alone. *)
Lemma action_project mask act p data :
  covers_bits mask (actionBits act) ->
  applyPolicyAction act (project mask p) data =
  projectOutcome mask (applyPolicyAction act p data).
Proof.
  intros Hc. destruct act; simpl in Hc; inversion Hc as [|? ? Hb Hbs]; subst;
    cbn [applyPolicyAction].
  all: try (simpl; by autorewrite with project).
  - rewrite prepend_project by done. by destruct (applyAsPathPrepend _ _ p).
  - unfold applyCommunityAction. destruct type; simpl; by autorewrite with project.
  - destruct data as [d|]; [|done]. simpl. destruct (lbwActionData d); [|done].
    rewrite lbwAction_project by done. by destruct (applyLbwAction _ _ _ _ p d) as [[]|].
  - unfold applyExtCommunityAction. destruct type; simpl; by autorewrite with project.
  - destruct (policyOrigin _); [|done]. simpl. by autorewrite with project.
  - destruct data; [|done]. simpl. by autorewrite with project.
  - unfold applyAsPathToAsSet. autorewrite with project.
    destruct (compressSegments _ _ _) as [[]|]; [|done]. simpl. by autorewrite with project.
Qed.

(** ** Policies *)

Definition projectStep (mask : PolicyAttributesMask)
    (s : Step (A := BgpPathFields) (D := BgpPolicyActionData)) : Step :=
  match s with
  | Decided v r data => Decided (project mask <$> v) r data
  | Pending goto a data => Pending goto (project mask a) data
  end.

Lemma actions_project mask acts : forall a data,
  Forall (fun act => covers_bits mask (actionBits act)) acts ->
  runActions acts (project mask a) data = projectOutcome mask (runActions acts a data).
Proof.
  induction acts as [|act acts IH]; intros a data Hc; [done|].
  inversion Hc as [|? ? H1 H2]; subst. cbn [runActions]. change (applyAction act) with (applyPolicyAction act).
  rewrite action_project by done.
  destruct (applyPolicyAction act a data) as [[a' data']|]; [|done]. by apply IH.
Qed.

Lemma matchesAttrs_project mask (t : BgpTerm) a md :
  covers_term mask t -> matchesAttrs t (project mask a) md = matchesAttrs t a md.
Proof.
  intros (Hm & _ & _). unfold matchesAttrs. induction Hm as [|m ms Hb _ IH]; [done|].
  cbn [forallb]. rewrite IH. f_equal. by apply match_project.
Qed.

Definition projectVerdict {X Y} (mask : PolicyAttributesMask)
    (o : option (option BgpPathFields * X * Y)) : option (option BgpPathFields * X * Y) :=
  match o with
  | Some (v, x, y) => Some (project mask <$> v, x, y)
  | None => None
  end.

Section TwoPrefixes.
Variable mask : PolicyAttributesMask.
Variables p p' : CIDRNetwork.
Hypothesis Hprefix : mask mPrefix = true -> p = p'.

Lemma matchesPrefix_project (t : BgpTerm) :
  covers_term mask t -> matchesPrefix t p' = matchesPrefix t p.
Proof.
  intros (_ & _ & [Hp|Hp]); [by rewrite (Hprefix Hp)|]. unfold matchesPrefix. by rewrite Hp.
Qed.

Lemma term_project policyName (t : BgpTerm) md goto a data :
  covers_term mask t ->
  evalTerm policyName t md p' goto (project mask a) data =
  projectStep mask <$> evalTerm policyName t md p goto a data.
Proof.
  intros Hc. unfold evalTerm. destruct (skips t goto); [done|].
  rewrite matchesAttrs_project, matchesPrefix_project by done.
  destruct (matchesAttrs t a md && matchesPrefix t p).
  - unfold evalHit. destruct Hc as (_ & Hacts & _). rewrite actions_project by done.
    destruct (termMatchFlowControlAction_ t); simpl;
      try (destruct (runActions (actions_ t) a data) as [[a' data']|]; [|done]; simpl;
           by destruct (match data' with Some _ => _ | None => _ end)).
    done.
  - unfold evalMiss. by destruct (termMissFlowControlAction_ t).
Qed.

Lemma terms_project policyName terms md : forall goto a data,
  Forall (covers_term mask) terms ->
  evalTerms policyName md p' terms goto (project mask a) data =
  projectStep mask <$> evalTerms policyName md p terms goto a data.
Proof.
  induction terms as [|t terms IH]; intros goto a data Hc; [done|].
  inversion Hc as [|? ? Ht Hts]; subst. cbn [evalTerms]. rewrite term_project by done.
  destruct (evalTerm policyName t md p goto a data) as [[]|]; [done| |done].
  simpl. by apply IH.
Qed.

(** The outcome for other attributes and another prefix with the same masked part. *)
Lemma policy_project (policy : PolicyBase PolicyMatch PrefixTree PolicyAction) md a data :
  covers_policy mask policy ->
  evalPolicy policy md p' (project mask a) data =
  projectVerdict mask (evalPolicy policy md p a data).
Proof.
  intros Hc. unfold evalPolicy. rewrite terms_project by done.
  destruct (evalTerms _ _ p _ _ _ _) as [[]|]; [done| |done].
  simpl. by destruct (defaultAllow_ policy).
Qed.
End TwoPrefixes.

Lemma policy_masked mask policy md p p' a a' data :
  covers_policy mask policy -> (mask mPrefix = true -> p = p') ->
  project mask a = project mask a' ->
  projectVerdict mask (evalPolicy policy md p a data) =
  projectVerdict mask (evalPolicy policy md p' a' data).
Proof.
  intros Hc Hp Ha. rewrite <- (policy_project mask p p' Hp policy md a data Hc), Ha.
  by apply (policy_project mask p' p').
Qed.

(** Only the masked attributes of an outcome are copied. *)
Lemma when_cong {X} (b : bool) (f g : X -> X) x y :
  (b = true -> forall z, f z = g z) -> x = y -> when b f x = when b g y.
Proof. intros Hf ->. destruct b; simpl; auto. Qed.

Lemma override_project mask c a :
  overridePrePolicyAttributesCommon mask (project mask c) a =
  overridePrePolicyAttributesCommon mask c a.
Proof.
  unfold overridePrePolicyAttributesCommon, getOrigin, getAsPath, getWeight, getCommunities,
    getExtCommunities, pf_getMed. simpl.
  repeat apply when_cong; try reflexivity; intros Hb z; by rewrite Hb.
Qed.

(** ** The mask of a policy covers what it does *)

Definition mask_le (m m' : PolicyAttributesMask) : Prop := forall b, m b = true -> m' b = true.

#[export] Instance mask_le_preorder : PreOrder mask_le.
Proof. split; [by intros m b|]. intros m1 m2 m3 H1 H2 b Hb. auto. Qed.

Lemma maskWith_le b m : mask_le m (maskWith b m).
Proof. intros b' Hb. unfold maskWith. rewrite Hb. apply orb_true_r. Qed.
Lemma maskWith_on b m : maskWith b m b = true.
Proof. unfold maskWith. by rewrite bool_decide_true. Qed.
Lemma mask_le_refl m : mask_le m m.
Proof. done. Qed.
Lemma maskWith2_le b b' m : mask_le m (maskWith b (maskWith b' m)).
Proof. etransitivity; apply maskWith_le. Qed.
Lemma maskWith_keeps b b' m : m b = true -> maskWith b' m b = true.
Proof. apply maskWith_le. Qed.
#[local] Hint Resolve maskWith_le maskWith2_le maskWith_on maskWith_keeps mask_le_refl : core.

Lemma covers_bits_le m m' bits : mask_le m m' -> covers_bits m bits -> covers_bits m' bits.
Proof. intros Hm Hc. eapply Forall_impl; [exact Hc|]. auto. Qed.

Lemma covers_term_le m m' t : mask_le m m' -> covers_term m t -> covers_term m' t.
Proof.
  intros Hm (H1 & H2 & H3). split_and!.
  - eapply Forall_impl; [exact H1|]. intros x. by apply covers_bits_le.
  - eapply Forall_impl; [exact H2|]. intros x. by apply covers_bits_le.
  - destruct H3; auto.
Qed.


(** [built H] splits a successful construction into its steps. *)
Ltac built H :=
  repeat (inv_ok H; repeat match type of H with
    | (let '(_, _) := ?x in _) = _ => destruct x
    end); simplify_eq.

Lemma matchItem_covers m mask a mask' :
  createPolicyAttributeMatchItem m mask = Ok (a, mask') ->
  mask_le mask mask' /\ covers_bits mask' (matchBits a).
Proof.
  unfold createPolicyAttributeMatchItem. intros Hm. destruct (match_type m); built Hm.
  all: split; auto; repeat constructor; auto.
Qed.

Lemma prefixItem_covers m mask t mask' :
  createPolicyPrefixMatchItem m mask = Ok (t, mask') ->
  mask_le mask mask' /\ mask' mPrefix = true.
Proof. unfold createPolicyPrefixMatchItem. intros Hm. destruct (match_type m); built Hm; auto. Qed.

Lemma newLbwAction_bits c act :
  newLbwAction c = Ok act -> actionBits act = [mExtCommunities; mCustomizedLbwEnabled].
Proof.
  unfold newLbwAction. intros Hc.
  destruct (lbw_type c), (encoding_scheme c), (encoding_id c); by simplify_eq.
Qed.

Lemma actionItem_covers a mask act mask' :
  createPolicyAttributesActionItem a mask = Ok (act, mask') ->
  mask_le mask mask' /\ covers_bits mask' (actionBits act).
Proof.
  unfold createPolicyAttributesActionItem. intros Ha. destruct (action_type a); built Ha.
  all: split; auto; try (by repeat constructor; auto).
  match goal with H : newLbwAction _ = Ok _ |- _ => rewrite (newLbwAction_bits _ _ H) end.
  repeat constructor; auto.
Qed.

Lemma createMatches_covers ms : forall mask ats pts mask',
  createMatches ms mask = Ok (ats, pts, mask') ->
  mask_le mask mask' /\ Forall (fun m => covers_bits mask' (matchBits m)) ats /\
  (mask' mPrefix = true \/ pts = []).
Proof.
  induction ms as [|m ms IH]; intros mask ats pts mask' Hm; cbn [createMatches] in Hm.
  - simplify_eq. split_and!; auto.
  - destruct (match_type m); built Hm.
    all: match goal with H : createMatches _ _ = Ok _ |- _ =>
           apply IH in H as (Hle & Hats & Hpts) end.
    all: match goal with
      | H : createPolicyPrefixMatchItem _ _ = Ok _ |- _ => apply prefixItem_covers in H as [H1 H2]
      | H : createPolicyAttributeMatchItem _ _ = Ok _ |- _ => apply matchItem_covers in H as [H1 H2]
      end.
    all: split_and!; [by etransitivity| |by auto]; try done.
    all: constructor; [by eapply covers_bits_le|done].
Qed.

Lemma createActions_covers actions : forall mask acts flows mask',
  createActions actions mask = Ok (acts, flows, mask') ->
  mask_le mask mask' /\ Forall (fun a => covers_bits mask' (actionBits a)) acts.
Proof.
  induction actions as [|a actions IH]; intros mask acts flows mask' Ha; cbn [createActions] in Ha.
  - simplify_eq. split; auto.
  - destruct (isFlowControlActionType a); built Ha.
    all: match goal with H : createActions _ _ = Ok _ |- _ => apply IH in H as (Hle & Hacts) end.
    { by split. }
    match goal with H : createPolicyAttributesActionItem _ _ = Ok _ |- _ =>
      apply actionItem_covers in H as [H1 H2] end.
    split; [by etransitivity|]. constructor; [by eapply covers_bits_le|done].
Qed.

Lemma entries_covers (o : option (BooleanOperator * list BgpPolicyAtomicMatch)) mask ats pts mask' :
  match o with
  | None => Ok ([], [], mask)
  | Some (op, ms) =>
      rbind (ensure (bool_decide (op = BOOL_AND) || (blen ms <=? 1))) (fun _ => createMatches ms mask)
  end = Ok (ats, pts, mask') ->
  mask_le mask mask' /\ Forall (fun m => covers_bits mask' (matchBits m)) ats /\
  (mask' mPrefix = true \/ pts = []).
Proof.
  destruct o as [[op ms]|]; intros Ho; built Ho; [|by split_and!; auto].
  by eapply createMatches_covers.
Qed.

Lemma newPolicyTerm_covers t mask t' mask' :
  newPolicyTerm t mask = Ok (t', mask') -> mask_le mask mask' /\ covers_term mask' t'.
Proof.
  unfold newPolicyTerm. intros Ht. built Ht.
  match goal with H : createActions _ _ = Ok _ |- _ => apply createActions_covers in H as (Hle & Hacts) end.
  match goal with H : match policy_match_entries t with _ => _ end = Ok _ |- _ =>
    apply entries_covers in H as (H1 & H2 & H3) end.
  split; [by etransitivity|]. split_and!; simpl; [|done|].
  - eapply Forall_impl; [exact H2|]. intros x. by apply covers_bits_le.
  - destruct H3; auto.
Qed.

Lemma populatePolicyTerms_covers ts : forall mask ts' mask',
  populatePolicyTerms ts mask = Ok (ts', mask') ->
  mask_le mask mask' /\ Forall (covers_term mask') ts'.
Proof.
  induction ts as [|t ts IH]; intros mask ts' mask' Ht; cbn [populatePolicyTerms] in Ht.
  - simplify_eq. split; auto.
  - built Ht. match goal with H : newPolicyTerm _ _ = Ok _ |- _ =>
      apply newPolicyTerm_covers in H as [H1 H2] end.
    match goal with H : populatePolicyTerms _ _ = Ok _ |- _ => apply IH in H as [H3 H4] end.
    split; [by etransitivity|]. constructor; [by eapply covers_term_le|done].
Qed.

Lemma newPolicy_covers s en pol :
  newPolicy s en = Ok pol -> covers_policy (pol_mask pol) (pol_base pol).
Proof.
  unfold newPolicy. intros Hs. built Hs.
  match goal with H : populatePolicyTerms _ _ = Ok _ |- _ =>
    by apply populatePolicyTerms_covers in H as [_ H] end.
Qed.

(** ** References keep what is covered *)

Lemma mapM_res_Forall2 {X Y} (f : X -> pres Y) l : forall l',
  mapM_res f l = Ok l' -> Forall2 (fun x y => f x = Ok y) l l'.
Proof.
  induction l as [|x l IH]; intros l' Hl; cbn [mapM_res] in Hl; built Hl; constructor; auto.
Qed.

Lemma mapM_res_bits {X} (bits : X -> list MaskBit) (f : X -> pres X) mask l l' :
  (forall x y, f x = Ok y -> bits y = bits x) -> mapM_res f l = Ok l' ->
  Forall (fun x => covers_bits mask (bits x)) l -> Forall (fun x => covers_bits mask (bits x)) l'.
Proof.
  intros Hf Hl%mapM_res_Forall2 Hc. induction Hl as [|x y l l' Hxy _ IH]; [done|].
  inversion Hc; subst. constructor; [by rewrite (Hf _ _ Hxy)|auto].
Qed.

Lemma termReferences_covers m mask t t' :
  populateTermReferences m t = Ok t' -> covers_term mask t -> covers_term mask t'.
Proof.
  unfold populateTermReferences. intros Ht (H1 & H2 & H3). built Ht.
  split_and!; simpl.
  - eapply (mapM_res_bits matchBits); [|done..]. intros x y Hxy. destruct x; built Hxy; done.
  - eapply (mapM_res_bits actionBits); [|done..]. intros x y Hxy. destruct x; cbn [populateActionReferences] in Hxy; built Hxy; done.
  - destruct H3 as [?|H3]; [by left|right]. rewrite H3 in Hstep0. simpl in Hstep0. by simplify_eq.
Qed.

Lemma policyReferences_covers m p p' :
  populatePolicyReferences m p = Ok p' -> covers_policy (pol_mask p) (pol_base p) ->
  pol_mask p' = pol_mask p /\ covers_policy (pol_mask p') (pol_base p').
Proof.
  unfold populatePolicyReferences. intros Hp Hc. built Hp. split; [done|].
  unfold covers_policy in *. simpl. apply mapM_res_Forall2 in Hstep.
  induction Hstep as [|x y l l' Hxy _ IH]; [done|]. inversion Hc; subst.
  constructor; [by eapply termReferences_covers|auto].
Qed.

(** Every policy of the map covers what it does and is named. *)
Definition coveredMap (ps : gmap string Policy) : Prop :=
  map_Forall (fun _ p => covers_policy (pol_mask p) (pol_base p)) ps.

Lemma fold_throw {X Y} (f : pres X -> Y -> pres X) l e :
  (forall e y, f (Throw e) y = Throw e) -> fold_left f l (Throw e) = Throw e.
Proof. intros Hf. induction l as [|y l IH]; [done|]. simpl. by rewrite Hf. Qed.

Lemma fold_nofuel {X Y} (f : pres X -> Y -> pres X) l :
  (forall y, f NoFuel y = NoFuel) -> fold_left f l NoFuel = NoFuel.
Proof. intros Hf. induction l as [|y l IH]; [done|]. simpl. by rewrite Hf. Qed.

Lemma statements_covered en ss : forall m m',
  coveredMap m ->
  fold_left (fun m s =>
      rbind m (fun m =>
      rbind (ensure (negb (bool_decide (ps_name s = "")))) (fun _ =>
      rbind (newPolicy s en) (fun p => insertNamed (ps_name s) p m)))) ss (Ok m) = Ok m' ->
  coveredMap m'.
Proof.
  induction ss as [|s ss IH]; intros m m' Hm Hf; [by simplify_eq/=|]. cbn [fold_left] in Hf.
  destruct (rbind (Ok m) _) as [m1| |] eqn:E.
  - eapply IH; [|exact Hf]. built E. unfold insertNamed in E. built E.
    apply map_Forall_insert_2; [by eapply newPolicy_covers|done].
  - by rewrite fold_throw in Hf.
  - by rewrite fold_nofuel in Hf.
Qed.

Lemma policyManager_covers config en m name p :
  newPolicyManager config en = Ok m -> policyMap_ m !! name = Some p ->
  getPolicyAttributesMask m name = Some (pol_mask p) /\ covers_policy (pol_mask p) (pol_base p).
Proof.
  unfold newPolicyManager, populatePolicyDatabase. intros Hm Hp. built Hm. simpl in *.
  match goal with H : fold_left _ (bgp_policy_statements _) _ = Ok ?ps |- _ =>
    assert (Hcov : coveredMap ps) by (eapply statements_covered; [|exact H]; apply map_Forall_empty);
    clear H; rename ps into policies end.
  apply elem_of_list_to_map_2 in Hp. match goal with H : mapM_res _ _ = Ok _ |- _ =>
    apply mapM_res_Forall2 in H as HF end.
  apply list_elem_of_lookup in Hp as [i Hi].
  destruct (Forall2_lookup_r _ _ _ _ _ HF Hi) as ([name' p0] & Hi' & Hp0). built Hp0.
  apply list_elem_of_lookup_2, elem_of_map_to_list in Hi'.
  match goal with H : populatePolicyReferences _ _ = Ok _ |- _ =>
    apply policyReferences_covers in H as [H1 H2]; [|by apply (Hcov _ _ Hi')] end.
  split; [|done]. unfold getPolicyAttributesMask. simpl. by rewrite lookup_fmap, Hi', H1.
Qed.
End Mask.
