(* ===== verification/PolicyCache.v ===== *)
(** * The policy cache

    adjrib/AdjRibPolicyCache.cpp keeps outcomes of policy evaluations under the
    part of their input that the mask of the policy names, and
    [getPostPolicyAttributesPolicyTermAndInfo] (adjrib/AdjRib.cpp) evaluates a
    policy only when the cache has no outcome.  The callers copy the masked
    attributes of the outcome onto the path they advertise
    ([overridePrePolicyAttributesCommon]); the theorem is that what they see does
    not depend on the cache. *)

From stdpp Require Import gmap strings.
From Stdlib Require Import SpecFloat.
From S2P Require Import Prelude BgpException Folly BgpStructs RouteFilter RouteInfo RibEntry Ucmp.
From S2P Require Import DeDuplicator PathFields PolicyEncoding PolicyAction PolicyMatch.
From S2P Require Import PolicyEngine PolicyEngineSpec PolicyTerm PolicyMask.

(** ** The cache map (folly::EvictingCacheMap) *)

(** [entries] in the order of iteration; [find] also marks the entry as used. *)
Class EvictingCacheMap (K V : Type) := {
  cache : Type;
  cache_entries : cache -> list (K * V);
  cache_find : K -> cache -> option V * cache;
  cache_set : K -> V -> cache -> cache;
  cache_erase : K -> cache -> cache;
  cache_setMaxSize : Z -> cache -> cache
}.

(** What the code relies on: a value found is stored under an equal key, setting a
    value stores it under that key or an equal one that was there, and nothing
    else adds entries. *)
Class EvictingCacheLaws {K V} (eqb : K -> K -> bool) (C : EvictingCacheMap K V) : Prop := {
  find_value : forall k c v, (cache_find k c).1 = Some v ->
    exists k', (k', v) ∈ cache_entries c /\ eqb k' k = true;
  find_entries : forall k c x, x ∈ cache_entries (cache_find k c).2 -> x ∈ cache_entries c;
  set_entries : forall k v c x, x ∈ cache_entries (cache_set k v c) ->
    x ∈ cache_entries c \/ x = (k, v) \/
    exists k' v', (k', v') ∈ cache_entries c /\ eqb k' k = true /\ x = (k', v);
  erase_entries : forall k c x, x ∈ cache_entries (cache_erase k c) -> x ∈ cache_entries c;
  resize_entries : forall n c x, x ∈ cache_entries (cache_setMaxSize n c) -> x ∈ cache_entries c
}.

(** ** Keys *)

(** The mask is an address inside the policy manager, one per policy name; the
    action data is a pointer. *)
Record PolicyCacheMaskedKey := mkCacheKey {
  key_mask : option string;
  key_prefix : CIDRNetwork;
  key_path : option BgpPathFields;
  key_data : option nat;
  key_isPartialDrain : bool
}.

Record PolicyCacheValue := mkCacheValue {
  attrsAndPolicy : option (option BgpPathFields * string);
  cv_isMedSetByPolicy : bool;
  cv_isNexthopSetByPolicy : bool
}.

(** folly's [operator==] on addresses, which takes 10.0.0.1 and ::ffff:10.0.0.1 for
    the same address. *)
Definition v4mapped (octets : bytes) : bytes := repeat 0 10 ++ [255; 255] ++ octets.
Definition ip_equal (a b : IPAddress) : bool :=
  match a, b with
  | IPUnset, IPUnset => true
  | IPV4 x, IPV4 y | IPV6 x, IPV6 y => bool_decide (x = y)
  | IPV4 x, IPV6 y | IPV6 y, IPV4 x => bool_decide (y = v4mapped x)
  | _, _ => false
  end.

(** [operator==] of [LbwActionData] and [BgpPolicyActionData]: the read-only fields. *)
Definition optEqual {X} (eqb : X -> X -> bool) (a b : option X) : bool :=
  match a, b with
  | Some x, Some y => eqb x y
  | None, None => true
  | _, _ => false
  end.
Definition lbwDataEqual (a b : LbwActionData) : bool :=
  optEqual (fun x y => (x.1 =? y.1) && f32_eqb x.2 y.2) (originalAsnLbw a) (originalAsnLbw b) &&
  (lbw_asn a =? lbw_asn b) && optEqual f32_eqb (linkBandwidthBps a) (linkBandwidthBps b) &&
  optEqual f32_eqb (aggregateReceivedUcmpWeight a) (aggregateReceivedUcmpWeight b) &&
  optEqual f32_eqb (aggregateLocalUcmpWeight a) (aggregateLocalUcmpWeight b) &&
  optEqual f32_eqb (ribPolicyUcmpWeight a) (ribPolicyUcmpWeight b).
Definition actionDataEqual (a b : BgpPolicyActionData) : bool :=
  optEqual Z.eqb (switchId a) (switchId b) && optEqual Z.eqb (multiPathSize a) (multiPathSize b) &&
  optEqual lbwDataEqual (lbwActionData a) (lbwActionData b).

Section Cache.
Context `{L : PolicyLibs} `{PL : PrefixLibs} `{RC : RibContext}.

(** The action data objects by address, as they were created. *)
Variable dataAt : nat -> BgpPolicyActionData.
Variable manager : PolicyManager.

Definition keyDataEqual (a b : option nat) : bool :=
  match a, b with
  | None, None => true
  | Some x, Some y => bool_decide (x = y) || actionDataEqual (dataAt x) (dataAt y)
  | _, _ => false
  end.

(** The masked attributes of two paths are equal. *)
Definition maskedEqual (mask : PolicyAttributesMask) (l r : BgpPathFields) : bool :=
  let same {X} `{EqDecision X} (b : MaskBit) (x y : X) : bool := negb (mask b) || bool_decide (x = y) in
  same mOrigin (getOrigin l) (getOrigin r) &&
  (negb (mask mNexthop) || ip_equal (pf_nexthop l) (pf_nexthop r)) &&
  same mMed (pf_getMed l) (pf_getMed r) && same mWeight (getWeight l) (getWeight r) &&
  (negb (mask mBackupAddr) || optEqual ip_equal (pf_backupAddr l) (pf_backupAddr r)) &&
  same mLocalPref (ac_localPref (pf_attrs l)) (ac_localPref (pf_attrs r)) &&
  same mAtomicAggregate (ac_atomicAggregate (pf_attrs l)) (ac_atomicAggregate (pf_attrs r)) &&
  same mOriginatorId (ac_originatorId (pf_attrs l)) (ac_originatorId (pf_attrs r)) &&
  (negb (mask mAggregator) ||
   ((ac_aggregator (pf_attrs l)).1 =? (ac_aggregator (pf_attrs r)).1) &&
   ip_equal (ac_aggregator (pf_attrs l)).2 (ac_aggregator (pf_attrs r)).2) &&
  same mAsPath (getAsPath l) (getAsPath r) && same mCommunities (getCommunities l) (getCommunities r) &&
  same mClusterList (ac_clusterList (pf_attrs l)) (ac_clusterList (pf_attrs r)) &&
  same mExtCommunities (getExtCommunities l) (getExtCommunities r).

(** [PolicyCacheMaskedKeyEqualTo] *)
Definition keyEqual (lhs rhs : PolicyCacheMaskedKey) : bool :=
  bool_decide (key_mask lhs = key_mask rhs) && keyDataEqual (key_data lhs) (key_data rhs) &&
  Bool.eqb (key_isPartialDrain lhs) (key_isPartialDrain rhs) &&
  match key_mask lhs ≫= getPolicyAttributesMask manager with
  | Some mask =>
      (negb (mask mPrefix) || ip_equal (key_prefix lhs).1 (key_prefix rhs).1 &&
         ((key_prefix lhs).2 =? (key_prefix rhs).2)) &&
      match key_path lhs, key_path rhs with
      | Some l, Some r => maskedEqual mask l r
      | _, _ => true
      end
  | None => true
  end.

Context {ECM : EvictingCacheMap PolicyCacheMaskedKey PolicyCacheValue}.

(** ** The cache *)

Record AdjRibPolicyCache := mkPolicyCache {
  cacheEvictionRunCount_ : Z;
  maxCacheSize_ : Z;
  policyLruCache_ : cache;
  totalHits_ : Z;
  totalMisses_ : Z;
  totalRuns : Z
}.

Definition kPolicyCacheClearSize : nat := 500.

Definition setCacheSize (size : Z) (c : AdjRibPolicyCache) : AdjRibPolicyCache :=
  mkPolicyCache (Z.max 1000 (size / 32)) size (cache_setMaxSize size (policyLruCache_ c))
    (totalHits_ c) (totalMisses_ c) (totalRuns c).

Definition lookupPolicyCache (key : PolicyCacheMaskedKey) (c : AdjRibPolicyCache)
    : option PolicyCacheValue * AdjRibPolicyCache :=
  if maxCacheSize_ c =? 0 then (None, c)
  else
  let '(v, lru) := cache_find key (policyLruCache_ c) in
  (v, match v with
      | None => mkPolicyCache (cacheEvictionRunCount_ c) (maxCacheSize_ c) lru (totalHits_ c)
                  (uint 64 (totalMisses_ c + 1)) (totalRuns c)
      | Some _ => mkPolicyCache (cacheEvictionRunCount_ c) (maxCacheSize_ c) lru
                    (uint 64 (totalHits_ c + 1)) (totalMisses_ c) (totalRuns c)
      end).

(** Nobody else holds the path of the entry, or it is on no Adj-RIB-Out. *)
Variable stale : PolicyCacheMaskedKey -> bool.

Definition evictFromPolicyCache (c : AdjRibPolicyCache) : AdjRibPolicyCache :=
  let evictionList :=
    take kPolicyCacheClearSize
      (List.filter stale ((cache_entries (policyLruCache_ c)).*1)) in
  mkPolicyCache (cacheEvictionRunCount_ c) (maxCacheSize_ c)
    (fold_left (fun lru k => cache_erase k lru) evictionList (policyLruCache_ c))
    (totalHits_ c) (totalMisses_ c) (totalRuns c).

(** [data] is the action data after the evaluation. *)
Definition addToPolicyCache (key : PolicyCacheMaskedKey) (data : option BgpPolicyActionData)
    (outcome : option BgpPathFields * string) (c : AdjRibPolicyCache) : AdjRibPolicyCache :=
  if maxCacheSize_ c =? 0 then c
  else
  let runs := uint 32 (totalRuns c + 1) in
  let c := mkPolicyCache (cacheEvictionRunCount_ c) (maxCacheSize_ c) (policyLruCache_ c)
             (totalHits_ c) (totalMisses_ c) runs in
  let c := if runs mod cacheEvictionRunCount_ c =? 0 then evictFromPolicyCache c else c in
  let flag f := match data with Some d => f d | None => false end in
  let value := mkCacheValue (Some outcome) (flag isMedSetByPolicy) (flag isNexthopSetByPolicy) in
  mkPolicyCache (cacheEvictionRunCount_ c) (maxCacheSize_ c)
    (cache_set key value (policyLruCache_ c)) (totalHits_ c) (totalMisses_ c) (totalRuns c).

(** ** Evaluation through the cache *)

(** [PolicyManager::applyPolicy] on one prefix and a clone of its attributes, and
    the entry of the prefix in the result. *)
Definition applyPolicyTo (name : string) (prefix : CIDRNetwork) (attrs : BgpPathFields)
    (data : option BgpPolicyActionData)
    : option (option BgpPathFields * string * option BgpPolicyActionData) :=
  policy ← policyMap_ manager !! name;
  '(verdicts, st, data) ← applyPolicy (pol_base policy) [(false, attrs)] 0%nat [prefix] data None;
  '(attr, reason) ← verdicts !! prefix;
  a ← (match attr with None => Some None | Some i => '(_, a) ← st !! i; Some (Some a) end);
  Some (a, reason, data).

(** Attributes, term name, and [PostPolicyInfo]: MED and next hop set by policy. *)
Definition PolicyOutcome : Type := option BgpPathFields * string * (bool * bool).

(** [data] is the address of the action data and [content] what it holds at the
    call; its transient fields afterwards are in the result. *)
Definition getPostPolicyAttributesPolicyTermAndInfo (policyCache : option AdjRibPolicyCache)
    (name : string) (prefix : CIDRNetwork) (prePolicyAttrs : BgpPathFields) (data : nat)
    (content : BgpPolicyActionData) (isPartialDrain : bool)
    : option (PolicyOutcome * BgpPolicyActionData * option AdjRibPolicyCache) :=
  let mask := if decide (is_Some (getPolicyAttributesMask manager name)) then Some name else None in
  let key := mkCacheKey mask prefix (Some prePolicyAttrs) (Some data) isPartialDrain in
  let '(cacheResult, policyCache) :=
    match policyCache with
    | Some c => let '(v, c) := lookupPolicyCache key c in (v, Some c)
    | None => (None, None)
    end in
  match cacheResult with
  | Some v =>
      let '(a, term) := default (None, "") (attrsAndPolicy v) in
      Some (a, term, (cv_isMedSetByPolicy v, cv_isNexthopSetByPolicy v), content, policyCache)
  | None =>
      '(a, term, data') ← applyPolicyTo name prefix prePolicyAttrs (Some content);
      d ← data';
      Some (a, term, (isMedSetByPolicy d, isNexthopSetByPolicy d), d,
            addToPolicyCache key data' (a, term) <$> policyCache)
  end.

(** ** Equal keys have equal outcomes *)

Lemma applyPolicyTo_meaning name policy prefix attrs data :
  policyMap_ manager !! name = Some policy ->
  applyPolicyTo name prefix attrs data = evalPolicy (pol_base policy) None prefix attrs data.
Proof.
  intros Hp. unfold applyPolicyTo. rewrite Hp. cbn [mbind option_bind].
  pose proof (applyPolicy_meaning (pol_base policy) [(false, attrs)] 0 prefix data None false attrs
    eq_refl) as HM.
  destruct (applyPolicy _ _ _ _ _ _) as [[[verdicts st] data']|],
    (evalPolicy _ _ _ _ _) as [[[v reason] data'']|]; try done.
  destruct HM as (-> & _ & x & -> & Hx). cbn [mbind option_bind]. rewrite lookup_singleton_eq.
  cbn [mbind option_bind]. destruct x as [i|], v as [a|]; try done.
  simpl in Hx. destruct Hx as [b Hb]. by rewrite Hb.
Qed.

(** Floats without sign and without NaN, for which [==] is equality of the bits. *)
Definition cleanFloat (w : Z) : Prop := 0 <= w < 0x7f800000.

(** The mantissa and exponent of a clean float determine its bits. *)
Definition decodes (w : Z) (x : spec_float) : Prop :=
  match x with
  | S754_zero s => w = 0 /\ s = false
  | S754_finite s m e =>
      s = false /\ ((e = -149 /\ w = Z.pos m) \/
                   (2 ^ 23 <= Z.pos m < 2 ^ 24 /\ w = (e + 149) * 2 ^ 23 + Z.pos m))
  | _ => False
  end.

Lemma f32_decodes w : cleanFloat w -> decodes w (f32_of_bits w).
Proof.
  intros Hw. unfold cleanFloat in Hw. unfold f32_of_bits.
  assert (Hs : Z.testbit w 31 = false) by (apply (Z.bits_above_log2 w 31); [lia|];
    destruct (Z.eq_dec w 0) as [->|]; [simpl; lia|]; apply Z.log2_lt_pow2; lia).
  rewrite Hs. change 0xff with (Z.ones 8). change 0x7fffff with (Z.ones 23).
  rewrite !Z.land_ones, Z.shiftr_div_pow2 by lia. change (Z.ones 8) with 255.
  assert (He : 0 <= w / 2 ^ 23 < 255)
    by (split; [apply Z.div_pos; lia|apply Z.div_lt_upper_bound; lia]).
  rewrite (Z.mod_small (w / 2 ^ 23)) by lia.
  pose proof (Z.mod_pos_bound w (2 ^ 23) ltac:(lia)) as Hm.
  pose proof (Z.div_mod w (2 ^ 23) ltac:(lia)) as Hdm.
  rewrite (proj2 (Z.eqb_neq (w / 2 ^ 23) 255)) by lia.
  destruct (w / 2 ^ 23 =? 0) eqn:E0; zbool.
  - destruct (w mod 2 ^ 23) eqn:Em; unfold decodes; [split; [lia|done]|split; [done|left; lia]|lia].
  - destruct (w mod 2 ^ 23 + 2 ^ 23) eqn:Em; unfold decodes; [lia| |lia].
    split; [done|right]. lia.
Qed.

Lemma f32_eqb_clean a b : cleanFloat a -> cleanFloat b -> f32_eqb a b = true -> a = b.
Proof.
  intros Da%f32_decodes Db%f32_decodes. unfold f32_eqb, SFeqb.
  revert Da Db. generalize (f32_of_bits a) (f32_of_bits b). intros x y.
  destruct x as [sa| | |sa ma ea]; try contradiction;
    destruct y as [sb| | |sb mb eb]; try contradiction; cbn [decodes].
  - lia.
  - intros _ [-> _]. discriminate.
  - intros [-> _] _. discriminate.
  - intros [-> Da] [-> Db]. unfold SFcompare.
    destruct (Z.compare_spec ea eb) as [->| |]; [|discriminate..].
    change (PosDef.Pos.compare_cont Eq ma mb) with (ma ?= mb)%positive.
    destruct (Pos.compare_spec ma mb) as [->| |]; [|discriminate..]. lia.
Qed.

(** Action data as it is created: nothing decided yet, and clean floats. *)
Definition cleanLbw (l : LbwActionData) : Prop :=
  match originalAsnLbw l with Some (_, w) => cleanFloat w | None => True end /\
  Forall (fun o => match o with Some w => cleanFloat w | None => True end)
    [linkBandwidthBps l; aggregateReceivedUcmpWeight l; aggregateLocalUcmpWeight l;
     ribPolicyUcmpWeight l].
Definition freshData (d : BgpPolicyActionData) : Prop :=
  match lbwActionData d with Some l => cleanLbw l | None => True end /\
  isMedSetByPolicy d = false /\ isLbwRejected d = false /\ isNexthopSetByPolicy d = false.

Lemma optEqual_eq {X} (eqb : X -> X -> bool) (P : X -> Prop) (a b : option X) :
  (forall x y, P x -> P y -> eqb x y = true -> x = y) ->
  match a with Some x => P x | None => True end ->
  match b with Some x => P x | None => True end -> optEqual eqb a b = true -> a = b.
Proof. intros He Ha Hb. destruct a, b; simpl; try done. intros Hab. f_equal. by apply He. Qed.

Lemma optEqual_Z (a b : option Z) : optEqual Z.eqb a b = true -> a = b.
Proof. destruct a, b; simpl; try done. intros H. zbool. by subst. Qed.

Lemma lbwDataEqual_eq a b : cleanLbw a -> cleanLbw b -> lbwDataEqual a b = true -> a = b.
Proof.
  intros [Ha Fa] [Hb Fb] He. unfold lbwDataEqual in He. rewrite !andb_true_iff in He.
  destruct He as [[[[[H1 H2] H3] H4] H5] H6].
  repeat match goal with
    | H : Forall _ (_ :: _) |- _ => apply Forall_cons in H as [? H]
    | H : optEqual f32_eqb _ _ = true |- _ =>
        apply (optEqual_eq _ _ _ _ f32_eqb_clean) in H; [|done..]
    end.
  destruct a as [oa aa], b as [ob ab]. simpl in *. zbool. subst. f_equal.
  destruct oa as [[x w]|], ob as [[y w']|]; simpl in H1; try done.
  apply andb_true_iff in H1 as [Hx Hw]. zbool. subst. by rewrite (f32_eqb_clean w w').
Qed.

Lemma actionDataEqual_eq a b :
  freshData a -> freshData b -> actionDataEqual a b = true -> a = b.
Proof.
  intros (Ca & Ma & La & Na) (Cb & Mb & Lb & Nb) He. unfold actionDataEqual in He.
  rewrite !andb_true_iff in He. destruct He as [[H1 H2] H3].
  apply optEqual_Z in H1, H2.
  apply (optEqual_eq _ _ _ _ lbwDataEqual_eq Ca Cb) in H3.
  destruct a, b; simpl in *. by subst.
Qed.

Lemma same_keep {X} `{EqDecision X} (b : bool) (x y d : X) :
  negb b || bool_decide (x = y) = true -> (if b then x else d) = (if b then y else d).
Proof. destruct b; [|done]. simpl. by intros ?%bool_decide_eq_true. Qed.

(** An address that is not an IPv4 address in IPv6 form. *)
Definition nativeIp (ip : IPAddress) : Prop :=
  match ip with IPV6 o => forall x, o <> v4mapped x | _ => True end.

Lemma ip_equal_native a b : nativeIp a -> nativeIp b -> ip_equal a b = true -> a = b.
Proof.
  destruct a, b; simpl; intros Ha Hb; try done; intros H%bool_decide_eq_true; naive_solver.
Qed.

(** A path before policy: no topology, and addresses of their own family. *)
Record prePolicyPath (p : BgpPathFields) : Prop := {
  pp_topology : pf_topologyInfo p = None;
  pp_nexthop : nativeIp (pf_nexthop p);
  pp_backup : match pf_backupAddr p with Some ip => nativeIp ip | None => True end;
  pp_aggregator : nativeIp (ac_aggregator (pf_attrs p)).2
}.

Lemma keep_cong {X} (b t : bool) (x y d : X) :
  (t = true -> x = y) -> negb b || t = true -> (if b then x else d) = (if b then y else d).
Proof. destruct b; [|done]. simpl. auto. Qed.

Lemma maskedEqual_project mask l r :
  prePolicyPath l -> prePolicyPath r -> maskedEqual mask l r = true ->
  project mask l = project mask r.
Proof.
  intros [Tl Nl Bl Al] [Tr Nr Br Ar] He. unfold maskedEqual in He. rewrite !andb_true_iff in He.
  destruct_and! He. unfold project. rewrite Tl, Tr. f_equal; [f_equal|..].
  all: try (by apply same_keep).
  - eapply keep_cong; [|done]. intros [Ha Hi]%andb_true_iff. zbool.
    destruct (ac_aggregator (pf_attrs l)), (ac_aggregator (pf_attrs r)). simpl in *. subst.
    f_equal. by apply ip_equal_native.
  - eapply keep_cong; [|done]. by apply ip_equal_native.
  - eapply keep_cong; [|done]. by apply (optEqual_eq _ _ _ _ ip_equal_native).
Qed.

(** ** The cache does not show *)

Section Transparent.
Variable config : BgpPolicies.
Variable enablePolicyDefaultAction : bool.
Hypothesis Hmanager : newPolicyManager config enablePolicyDefaultAction = Ok manager.
Hypothesis Hfresh : forall d, freshData (dataAt d).
Context {Laws : EvictingCacheLaws keyEqual ECM}.

Definition keyMask (k : PolicyCacheMaskedKey) : PolicyAttributesMask :=
  default emptyMask (key_mask k ≫= getPolicyAttributesMask manager).

(** What the policy of a key means for its input. *)
Definition evalKey (k : PolicyCacheMaskedKey)
    : option (option BgpPathFields * string * option BgpPolicyActionData) :=
  name ← key_mask k;
  policy ← policyMap_ manager !! name;
  path ← key_path k;
  d ← key_data k;
  evalPolicy (pol_base policy) None (key_prefix k) path (Some (dataAt d)).

(** A key that names a policy, with a path before policy and action data. *)
Definition keyOk (k : PolicyCacheMaskedKey) : Prop :=
  exists name policy path d,
    key_mask k = Some name /\ policyMap_ manager !! name = Some policy /\
    key_path k = Some path /\ prePolicyPath path /\ nativeIp (key_prefix k).1 /\ key_data k = Some d.

(** The value is the outcome, as far as the mask sees. *)
Definition valueOk (k : PolicyCacheMaskedKey) (v : PolicyCacheValue) : Prop :=
  exists a reason d,
    v = mkCacheValue (Some (a, reason)) (isMedSetByPolicy d) (isNexthopSetByPolicy d) /\
    projectVerdict (keyMask k) (evalKey k) = Some (project (keyMask k) <$> a, reason, Some d).

Definition cacheOk (lru : cache) : Prop :=
  Forall (fun '(k, v) => keyOk k /\ valueOk k v) (cache_entries lru).

Lemma keyEqual_eval k k' :
  keyOk k -> keyOk k' -> keyEqual k k' = true ->
  keyMask k = keyMask k' /\
  projectVerdict (keyMask k) (evalKey k) = projectVerdict (keyMask k) (evalKey k').
Proof.
  intros (name & policy & path & d & Hn & Hp & Hpath & Ht & Hip & Hd)
    (name' & policy' & path' & d' & Hn' & Hp' & Hpath' & Ht' & Hip' & Hd') He.
  unfold keyEqual in He. rewrite !andb_true_iff in He. destruct He as [[[H1 H2] _] H4].
  apply bool_decide_eq_true in H1.
  assert (name' = name) as -> by congruence. assert (policy' = policy) as -> by congruence.
  destruct (policyManager_covers _ _ _ _ _ Hmanager Hp) as [Hmask Hcov].
  unfold keyMask, evalKey. rewrite H1, Hn', Hpath, Hpath', Hd, Hd'. cbn [mbind option_bind].
  rewrite Hp, Hmask. split; [done|]. cbn [mbind option_bind default].
  rewrite H1, Hn' in H4. cbn [mbind option_bind] in H4. rewrite Hmask, Hpath, Hpath' in H4.
  apply andb_true_iff in H4 as [Hpre Hm].
  assert (HD : dataAt d = dataAt d').
  { rewrite Hd, Hd' in H2. simpl in H2. apply orb_true_iff in H2 as [H2|H2].
    - apply bool_decide_eq_true in H2. by subst.
    - by apply actionDataEqual_eq. }
  rewrite HD. apply policy_masked; [done| |by apply maskedEqual_project].
  intros HP. unfold default, id in HP. rewrite HP in Hpre.
  apply andb_true_iff in Hpre as [Hi Hl]. zbool. destruct (key_prefix k), (key_prefix k'). simpl in *.
  subst. f_equal. by apply ip_equal_native.
Qed.

Lemma valueOk_equal k k' v :
  keyOk k -> keyOk k' -> keyEqual k k' = true -> valueOk k v <-> valueOk k' v.
Proof.
  intros Hk Hk' He. destruct (keyEqual_eval k k' Hk Hk' He) as [HM HE].
  unfold valueOk. by rewrite HE, HM.
Qed.

Lemma cacheOk_subset lru lru' :
  (forall x, x ∈ cache_entries lru' -> x ∈ cache_entries lru) -> cacheOk lru -> cacheOk lru'.
Proof. unfold cacheOk. rewrite !Forall_forall. intros Hs Hc x Hx. by apply Hc, Hs. Qed.

Lemma cacheOk_set k v lru :
  keyOk k -> valueOk k v -> cacheOk lru -> cacheOk (cache_set k v lru).
Proof.
  unfold cacheOk. rewrite !Forall_forall. intros Hk Hv Hc x Hx.
  apply set_entries in Hx as [Hx|[->|(k' & v' & Hx & He & ->)]]; [by apply Hc|done|].
  destruct (Hc _ Hx) as [Hk' _]. split; [done|]. by apply (valueOk_equal k' k).
Qed.

Lemma cacheOk_evict c : cacheOk (policyLruCache_ c) -> cacheOk (policyLruCache_ (evictFromPolicyCache c)).
Proof.
  unfold evictFromPolicyCache. simpl. generalize (take kPolicyCacheClearSize
    (List.filter stale ((cache_entries (policyLruCache_ c)).*1))).
  intros l. generalize (policyLruCache_ c). induction l as [|k l IH]; intros lru Hc; [done|].
  simpl. apply IH. eapply cacheOk_subset; [|exact Hc]. apply erase_entries.
Qed.

Lemma cacheOk_add k data a reason d c :
  keyOk k -> data = Some d ->
  projectVerdict (keyMask k) (evalKey k) = Some (project (keyMask k) <$> a, reason, Some d) ->
  cacheOk (policyLruCache_ c) -> cacheOk (policyLruCache_ (addToPolicyCache k data (a, reason) c)).
Proof.
  intros Hk -> Hv Hc. unfold addToPolicyCache. destruct (maxCacheSize_ c =? 0); [done|]. simpl.
  apply cacheOk_set; [done|by exists a, reason, d|].
  destruct (_ =? 0); [by apply cacheOk_evict|done].
Qed.

Lemma lookup_ok key c :
  keyOk key -> cacheOk (policyLruCache_ c) ->
  ((lookupPolicyCache key c).1 = None /\ cacheOk (policyLruCache_ (lookupPolicyCache key c).2)) \/
  exists v, (lookupPolicyCache key c).1 = Some v /\ valueOk key v /\
    cacheOk (policyLruCache_ (lookupPolicyCache key c).2).
Proof.
  intros Hk Hc. unfold lookupPolicyCache. destruct (maxCacheSize_ c =? 0); [by left|].
  assert (Hf : cacheOk (cache_find key (policyLruCache_ c)).2)
    by (eapply cacheOk_subset; [apply find_entries|done]).
  pose proof (find_value key (policyLruCache_ c)) as Hv.
  destruct (cache_find key (policyLruCache_ c)) as [[v|] lru]; [right|by left].
  destruct (Hv v eq_refl) as (k' & Hin & He).
  unfold cacheOk in Hc. rewrite Forall_forall in Hc. destruct (Hc _ Hin) as [Hk' Hv'].
  exists v. split_and!; [done| |done]. by apply (valueOk_equal k' key).
Qed.

Lemma copied_project mask (a a' : option BgpPathFields) target :
  project mask <$> a = project mask <$> a' ->
  (fun x => overridePrePolicyAttributesCommon mask x target) <$> a =
  (fun x => overridePrePolicyAttributesCommon mask x target) <$> a'.
Proof.
  destruct a as [x|], a' as [y|]; cbn [fmap option_fmap option_map]; intros Hp; try done.
  apply (inj Some) in Hp. f_equal.
  by rewrite <- (override_project mask x), <- (override_project mask y), Hp.
Qed.

(** C21. Evaluating a policy through the cache, for a call whose action data is as
    created (with floats that have no sign), whose path carries no topology, and
    whose addresses are of their own family (no IPv4 address in IPv6 form): with a
    cache whose values are outcomes of such calls for their keys, the call returns
    exactly when an evaluation without a cache does, and then the term name and
    the flags are the same, the route is denied in the same cases, the attributes
    the caller copies onto any path are the same, and the cache it leaves again
    holds outcomes only.  A caller that shares the action data of an UPDATE over
    its prefixes ([shared_data_refuses_next]) and next hops in IPv6 form
    ([mapped_nexthops_share_key]) are outside of it. *)
Theorem cache_transparent (c : AdjRibPolicyCache) (name : string) (policy : Policy)
    (prefix : CIDRNetwork) (pre target : BgpPathFields) (d : nat) (isPartialDrain : bool)
    (Hpolicy : policyMap_ manager !! name = Some policy)
    (Hpre : prePolicyPath pre) (Hprefix : nativeIp prefix.1)
    (Hc : cacheOk (policyLruCache_ c)) :
  let copied a := (fun a => overridePrePolicyAttributesCommon (pol_mask policy) a target) <$> a in
  match
    getPostPolicyAttributesPolicyTermAndInfo (Some c) name prefix pre d (dataAt d) isPartialDrain,
    getPostPolicyAttributesPolicyTermAndInfo None name prefix pre d (dataAt d) isPartialDrain
  with
  | Some (a, term, info, _, c'), Some (a', term', info', _, _) =>
      copied a = copied a' /\ term = term' /\ info = info' /\
      exists c'', c' = Some c'' /\ cacheOk (policyLruCache_ c'')
  | None, None => True
  | _, _ => False
  end.
Proof.
  intros copied. destruct (policyManager_covers _ _ _ _ _ Hmanager Hpolicy) as [Hmask Hcov].
  unfold getPostPolicyAttributesPolicyTermAndInfo. rewrite decide_True by (by rewrite Hmask).
  set (key := mkCacheKey _ _ _ _ _).
  assert (Hkey : keyOk key) by (exists name, policy, pre, d; done).
  assert (HkM : keyMask key = pol_mask policy) by (unfold keyMask; simpl; by rewrite Hmask).
  assert (HE : evalKey key = applyPolicyTo name prefix pre (Some (dataAt d))).
  { rewrite (applyPolicyTo_meaning _ _ _ _ _ Hpolicy). unfold evalKey. simpl. by rewrite Hpolicy. }
  destruct (lookup_ok key c Hkey Hc) as [[HL Hc']|(v & HL & Hv & Hc')].
  - destruct (lookupPolicyCache key c) as [? c1]. simpl in HL, Hc'. subst.
    rewrite <- HE. destruct (evalKey key) as [[[a term] data']|] eqn:Ev; [|done]. cbn [mbind option_bind].
    destruct data' as [d'|]; [|done]. cbn [mbind option_bind]. split_and!; [done..|].
    eexists; split; [reflexivity|]. eapply cacheOk_add; eauto. by rewrite Ev.
  - destruct (lookupPolicyCache key c) as [? c1]. simpl in HL, Hc'. subst.
    destruct Hv as (a & reason & d' & -> & Hv). rewrite HE, HkM in Hv.
    destruct (applyPolicyTo name prefix pre (Some (dataAt d))) as [[[a' term'] data']|]; [|done].
    simpl in Hv. simplify_eq. cbn [mbind option_bind default attrsAndPolicy]. split_and!; [|done..|eauto].
    unfold copied. by apply copied_project.
Qed.
End Transparent.
End Cache.
