(* ===== verification/PolicyExamples.v ===== *)
(** * Policies: samples

    A configuration, the policies it builds, and the theorems of
    PolicyEngineSpec.v and PolicyCache.v applied to them, with the cases where
    sharing one action data object between prefixes shows. *)

From stdpp Require Import gmap strings.
From S2P Require Import Prelude BgpException Folly BgpStructs RouteFilter RouteInfo RibEntry Ucmp.
From S2P Require Import DeDuplicator PathFields PolicyEncoding PolicyAction PolicyMatch.
From S2P Require Import PolicyEngine PolicyEngineSpec PolicyTerm PolicyMask PolicyCache.

(** ** Libraries for the samples *)

(** A tree as an association list that finds a network itself. *)
Definition exact_prefix_libs : PrefixLibs := {|
  re2 := string;
  re2_new s := s;
  FullMatch s r := bool_decide (s = r);
  createNetwork s := if decide (s = "10.0.0.0/8") then Some (IPV4 [10; 0; 0; 0], 8) else None;
  toFullyQualified _ := "";
  tree V := list (CIDRNetwork * V);
  emptyTree _ := [];
  tree_insert _ n v t := (n, v) :: t;
  tree_entries _ t := t;
  longestMatchWithTrail _ t n :=
    match List.filter (fun e => bool_decide (e.1 = n)) t with [] => None | l => Some l end
|}.
#[local] Existing Instance literal_libs.
#[local] Existing Instance exact_prefix_libs.
#[local] Existing Instance sample_context.

(** ** A configuration *)

Definition sample_match (type : BgpPolicyAtomicMatchType) (cl : option CommunityList)
    (pl : option PrefixList) : BgpPolicyAtomicMatch :=
  mkAtomicMatch type cl None None None None None None pl.
Definition sample_action (type : BgpPolicyActionType) (prepend : option (Z * Z))
    (med : option MedActionConfig) (lbw : option LbwActionConfig) (goto : option string)
    : BgpPolicyAction :=
  mkPolicyAction type prepend None None None None med None None lbw None None None goto.

Definition sample_ten : PrefixList :=
  mkPrefixList "TEN" [mkPrefixListEntry "10.0.0.0/8" None [] true None] [] BOOL_OR None.

(** Paths tagged 65001:1 get a MED and skip the refusal; the rest is refused. *)
Definition sample_export : BgpPolicyStatement :=
  mkPolicyStatement "EXPORT"
    [mkPolicyTerm "tagged"
       (Some (BOOL_AND, [sample_match MT_COMMUNITY_LIST
                  (Some (mkCommunityList "" (Some ["65001:1"]) None BOOL_OR None)) None]))
       [sample_action AT_MED None (Some (mkMedAction 50 true None)) None None;
        sample_action AT_GOTO None None None (Some "prepend")] FC_NEXT_TERM;
     mkPolicyTerm "refuse" None [sample_action AT_DENY None None None None] FC_NEXT_TERM;
     mkPolicyTerm "prepend" None
       [sample_action AT_AS_PATH_PREPEND (Some (65010, 2)) None None None;
        sample_action AT_PERMIT None None None None] FC_NEXT_TERM] FC_DENY.

(** Paths to 10.0.0.0/8 must carry weights; all others pass. *)
Definition sample_import : BgpPolicyStatement :=
  mkPolicyStatement "IMPORT"
    [mkPolicyTerm "weights" (Some (BOOL_AND, [sample_match MT_PREFIX_LIST None (Some sample_ten)]))
       [sample_action AT_LBW_EXT_COMMUNITY None None
          (Some (mkLbwAction LBW_DECODE_ALL None None)) None] FC_NEXT_TERM;
     mkPolicyTerm "rest" None [] FC_NEXT_TERM] FC_DENY.

Definition sample_config : BgpPolicies := mkPolicies [sample_export; sample_import] [] [] [].

Definition sample_manager : PolicyManager :=
  match newPolicyManager sample_config false with
  | Ok m => m
  | _ => mkPolicyManager ∅ ∅ ∅ ∅ ∅
  end.
Definition sample_policy (name : string) : Policy :=
  default (mkBgpPolicy (mkPolicy "" [] false) emptyMask) (policyMap_ sample_manager !! name).

Definition isSome {X} (o : option X) : bool := match o with Some _ => true | None => false end.
Definition is_Ok {X} (r : pres X) : bool := match r with Ok _ => true | _ => false end.

Lemma is_Ok_eq {X} (r : pres X) (d : X) :
  is_Ok r = true -> r = Ok (match r with Ok x => x | _ => d end).
Proof. by destruct r. Qed.

Lemma sample_manager_built : newPolicyManager sample_config false = Ok sample_manager.
Proof. apply is_Ok_eq. vm_compute. reflexivity. Qed.

Lemma sample_export_found : policyMap_ sample_manager !! "EXPORT" = Some (sample_policy "EXPORT").
Proof.
  unfold sample_policy. destruct (policyMap_ sample_manager !! "EXPORT") eqn:E; [done|].
  assert (HS : isSome (policyMap_ sample_manager !! "EXPORT") = true) by (vm_compute; reflexivity).
  by rewrite E in HS.
Qed.

Definition sample_net (o : Z) : CIDRNetwork := (IPV4 [o; 0; 0; 0], 8).
Definition sample_data : BgpPolicyActionData :=
  mkActionData None None (Some (mkLbwActionData None 65001 None None None None)) false false false.

(** ** The engine *)

(** The published object of the caller is kept, and its clone carries the outcome. *)
Definition sample_run (name : string) (p : BgpPathFields) (prefixes : list CIDRNetwork) :=
  applyPolicy (pol_base (sample_policy name)) [(true, p)] 0 prefixes (Some sample_data) None.
Definition sample_eval (name : string) (n : CIDRNetwork) (p : BgpPathFields) (d : BgpPolicyActionData) :=
  evalPolicy (pol_base (sample_policy name)) None n p (Some d).

Lemma applyPolicy_refines_witness :
  match sample_run "EXPORT" sample_tagged [sample_net 20],
        sample_eval "EXPORT" (sample_net 20) sample_tagged sample_data with
  | Some (verdicts, st', data'), Some (v, reason, data'') =>
      data' = data'' /\ frame [(true, sample_tagged)] 0 st' /\
      exists x, verdicts = {[sample_net 20 := (x, reason)]} /\ verdictOf st' x v
  | None, None => True
  | _, _ => False
  end /\
  isSome (sample_run "EXPORT" sample_tagged [sample_net 20]) = true.
Proof.
  split; [|vm_compute; reflexivity].
  unfold sample_run, sample_eval.
  pose proof (applyPolicy_refines (pol_base (sample_policy "EXPORT")) [(true, sample_tagged)] 0
    (sample_net 20) (Some sample_data) None true sample_tagged eq_refl) as HR.
  exact HR.
Defined.

(** The actions of the sample succeed on action data and well-formed AS paths. *)
Definition sample_okAttrs (a : BgpPathFields) : Prop := Forall oneKind (getAsPath a).

Lemma sample_actions_ok :
  Forall (fun t => okActions (fun d => isSome d = true) sample_okAttrs (actions_ t))
    (policyTerms_ (pol_base (sample_policy "EXPORT"))).
Proof.
  assert (HA : actions_ <$> policyTerms_ (pol_base (sample_policy "EXPORT")) =
    [[SetMed 50]; []; [SetAsPathPrependAction 65010 2]]) by (vm_compute; reflexivity).
  apply (Forall_fmap actions_ (okActions (fun d => isSome d = true) sample_okAttrs)). rewrite HA.
  rewrite !Forall_cons. split_and!; [..|constructor]; intros act a [d|] Hact Hd Ha; try discriminate Hd.
  - apply list_elem_of_singleton in Hact as ->. exists (setMed (uint 32 50) a), (Some (setMedFlag d)). split_and!; [reflexivity..|exact Ha].
  - destruct (not_elem_of_nil act Hact).
  - apply list_elem_of_singleton in Hact as ->.
    destruct (prepend_spec a 65010 2 ltac:(lia) Ha) as (a' & Hp & _ & _ & Ho & _).
    exists a', (Some d). split; [|split; [reflexivity|exact Ho]]. cbn [applyAction bgpPolicyClasses applyPolicyAction].
    change (uint 32 65010) with 65010. by rewrite Hp.
Qed.

Lemma applyPolicy_decides_witness :
  exists verdicts st' data',
    sample_run "EXPORT" sample_tagged [sample_net 20; sample_net 10] = Some (verdicts, st', data') /\
    dom verdicts = {[sample_net 10; sample_net 20]}.
Proof.
  destruct (applyPolicy_decides (fun d => isSome d = true) sample_okAttrs
    (pol_base (sample_policy "EXPORT")) [(true, sample_tagged)] 0 [sample_net 20; sample_net 10]
    (Some sample_data) None ltac:(simpl; lia) eq_refl ltac:(by repeat constructor) sample_actions_ok)
    as (verdicts & st' & data' & HR & HD).
  exists verdicts, st', data'. split; [exact HR|]. rewrite HD. set_solver.
Defined.

Abbreviation SampleTerm := (PolicyTermBase PolicyMatch PrefixTree PolicyAction).

Lemma sample_first_term (l : list SampleTerm) :
  termMatchFlowControlAction_ <$> l = [GotoAction "prepend"; DenyAction false; AllowAction false] ->
  termName_ <$> l = ["tagged"; "refuse"; "prepend"] ->
  exists t post, l = [] ++ t :: post /\ termMatchFlowControlAction_ t = GotoAction "prepend" /\
    termName_ <$> post = ["refuse"; "prepend"].
Proof.
  destruct l as [|t post]; [discriminate|]. intros H1 H2. exists t, post. split; [done|].
  simpl in *. by simplify_eq.
Qed.

Lemma sample_second_term (post mid rest : list SampleTerm) t :
  post = mid ++ t :: rest -> termName_ <$> post = ["refuse"; "prepend"] -> termName_ t = "prepend" ->
  "prepend" ∉ termName_ <$> mid -> length mid = 1%nat.
Proof.
  intros -> Hn Ht Hm. destruct mid as [|m1 [|m2 mid]]; [| done |].
  - simpl in Hn. simplify_eq. congruence.
  - simpl in Hn. simplify_eq. destruct Hm. set_solver.
Qed.

Lemma validated_goto_witness :
  exists post mid t' rest,
    tail (policyTerms_ (pol_base (sample_policy "EXPORT"))) = post /\ post = mid ++ t' :: rest /\
    termName_ t' = "prepend" /\ length mid = 1%nat.
Proof.
  destruct (sample_first_term (policyTerms_ (pol_base (sample_policy "EXPORT")))
    ltac:(vm_compute; reflexivity) ltac:(vm_compute; reflexivity)) as (t & post & Et & Hg & Hn).
  destruct (validated_goto (D := BgpPolicyActionData) (MD := unit)
    (pol_base (sample_policy "EXPORT")) [] post t "prepend" None (sample_net 20) sample_tagged None
    ltac:(vm_compute; reflexivity) Et Hg ltac:(discriminate))
    as (_ & mid & t' & rest & Hpost & Ht & Hm & _).
  exists post, mid, t', rest. rewrite Et. split; [reflexivity|]. split; [exact Hpost|].
  split; [exact Ht|]. exact (sample_second_term post mid rest t' Hpost Hn Ht Hm).
Defined.

(** ** Sharing the action data *)

(** Whether the path is accepted, and whether the action data then says rejected. *)
Definition sample_verdict (name : string) (n : CIDRNetwork) (d : BgpPolicyActionData)
    : option (bool * bool) :=
  match sample_eval name n sample_tagged d with
  | Some (v, _, Some d) => Some (isSome v, isLbwRejected d)
  | _ => None
  end.

(** The path has no weights, so the prefix that needs them is refused; the refusal
    stays in the action data and the next prefix, which passes alone, is refused
    as well.  All prefixes of an UPDATE are evaluated with one action data. *)
Lemma shared_data_refuses_next :
  sample_verdict "IMPORT" (sample_net 10) sample_data = Some (false, true) /\
  sample_verdict "IMPORT" (sample_net 20) sample_data = Some (true, false) /\
  sample_verdict "IMPORT" (sample_net 20) (rejectLbw sample_data) = Some (false, true).
Proof. split_and!; vm_compute; reflexivity. Qed.

(** ** Groups share a clone *)

(** The group is cloned for a MED, then split: the prefix that misses the second
    term keeps the object that the hit of the other prefix changes afterwards. *)
Definition sample_split : PolicyBase PolicyMatch PrefixTree PolicyAction :=
  mkPolicy "SPLIT"
    [mkTerm "med" [] [] [SetMed 50] (ContinueAction false) (ContinueAction false);
     mkTerm "ten" []
       [mkPrefixTree [(sample_net 10, [PrefixLenRanges []])] [] false []]
       [SetLocalPreference 7] (ContinueAction false) (AllowAction false)] true.

(** The local preference a prefix is accepted with, in the group and alone. *)
Definition group_localPref (n : CIDRNetwork) : option (option Z) :=
  '(verdicts, st, _) ← applyPolicy sample_split [(true, sample_tagged)] 0
                        [sample_net 10; sample_net 20] (Some sample_data) None;
  '(x, _) ← verdicts !! n;
  i ← x;
  '(_, a) ← st !! i;
  Some (ac_localPref (pf_attrs a)).
Definition single_localPref (n : CIDRNetwork) : option (option Z) :=
  '(v, _, _) ← evalPolicy sample_split None n sample_tagged (Some sample_data);
  a ← v;
  Some (ac_localPref (pf_attrs a)).

Lemma group_shares_changes :
  group_localPref (sample_net 20) = Some (Some 7) /\
  single_localPref (sample_net 20) = Some None /\
  group_localPref (sample_net 10) = single_localPref (sample_net 10).
Proof. split_and!; vm_compute; reflexivity. Qed.

(** ** The cache *)

(** An unbounded list of entries, in the order of insertion. *)
Definition list_cache (eqb : PolicyCacheMaskedKey -> PolicyCacheMaskedKey -> bool)
    : EvictingCacheMap PolicyCacheMaskedKey PolicyCacheValue := {|
  cache := list (PolicyCacheMaskedKey * PolicyCacheValue);
  cache_entries c := c;
  cache_find k c := (snd <$> head (List.filter (fun e => eqb e.1 k) c), c);
  cache_set k v c := List.filter (fun e => negb (eqb e.1 k)) c ++ [(k, v)];
  cache_erase k c := List.filter (fun e => negb (eqb e.1 k)) c;
  cache_setMaxSize _ c := c
|}.

Lemma list_cache_laws eqb : EvictingCacheLaws eqb (list_cache eqb).
Proof.
  split; simpl.
  - intros k c v Hv. destruct (List.filter (fun e => eqb e.1 k) c) as [|[k' v'] l] eqn:E; [done|].
    simpl in Hv. simplify_eq. exists k'.
    assert (Hin : List.In (k', v) (List.filter (fun e => eqb e.1 k) c)) by (rewrite E; by left).
    apply filter_In in Hin as [Hin He]. by rewrite list_elem_of_In.
  - done.
  - intros k v c x. rewrite elem_of_app, list_elem_of_singleton, list_elem_of_In, filter_In.
    intros [[Hx _]| ->]; [left; by apply list_elem_of_In|by right; left].
  - intros k c x. rewrite !list_elem_of_In, filter_In. tauto.
  - done.
Qed.
#[local] Existing Instance list_cache_laws.

Definition sample_dataAt (d : nat) : BgpPolicyActionData := sample_data.
Definition sample_keyEqual := keyEqual sample_dataAt sample_manager.
Definition sample_cache : AdjRibPolicyCache (ECM := list_cache sample_keyEqual) :=
  mkPolicyCache (ECM := list_cache sample_keyEqual) 5000 40000 [] 0 0 0.

Definition sample_get (c : option (AdjRibPolicyCache (ECM := list_cache sample_keyEqual))) :=
  getPostPolicyAttributesPolicyTermAndInfo (ECM := list_cache sample_keyEqual)
    sample_manager (fun _ => false) c "EXPORT" (sample_net 20) sample_tagged 3 (sample_dataAt 3) false.
Definition sample_summary (c : option (AdjRibPolicyCache (ECM := list_cache sample_keyEqual))) :=
  match sample_get c with
  | Some (a, term, info, _, c') => (isSome a, term, info, isSome c')
  | None => (false, "", (false, false), false)
  end.

(** The second call is served by the cache the first one left. *)
Definition sample_hit : bool * string * (bool * bool) * Z :=
  match sample_get (Some sample_cache) with
  | Some (_, _, _, _, c) =>
      match sample_get c with
      | Some (a, term, info, _, Some c) =>
          (isSome a, term, info, totalHits_ (ECM := list_cache sample_keyEqual) c)
      | _ => (false, "", (false, false), 0)
      end
  | None => (false, "", (false, false), 0)
  end.

Lemma cache_transparent_witness :
  match sample_get (Some sample_cache), sample_get None with
  | Some (a, term, info, _, c'), Some (a', term', info', _, _) =>
      term = term' /\ info = info'
  | None, None => True
  | _, _ => False
  end /\
  sample_summary (Some sample_cache) =
    (true, "Accepted/Modified by EXPORT term prepend", (true, false), true) /\
  sample_hit = (true, "Accepted/Modified by EXPORT term prepend", (true, false), 1).
Proof.
  split; [|split; vm_compute; reflexivity].
  pose proof (cache_transparent (ECM := list_cache sample_keyEqual) sample_dataAt sample_manager
    (fun _ => false) sample_config false sample_manager_built
    ltac:(intros d; by repeat constructor) (Laws := list_cache_laws sample_keyEqual)
    sample_cache "EXPORT" (sample_policy "EXPORT") (sample_net 20) sample_tagged sample_tagged 3
    false sample_export_found ltac:(by repeat constructor) I ltac:(constructor)) as HT.
  cbv zeta in HT. fold (sample_get (Some sample_cache)) in HT. fold (sample_get None) in HT.
  revert HT. generalize (sample_get (Some sample_cache)) (sample_get None).
  intros [[[[[a term] info] d] c']|] [[[[[a' term'] info'] d'] c'']|] HT; try exact HT.
  destruct HT as (_ & H1 & H2 & _). exact (conj H1 H2).
Defined.

(** Two paths whose next hops are one address in two families share a key. *)
Lemma mapped_nexthops_share_key :
  let path ip := setNexthop ip defaultPathFields in
  maskedEqual (fun _ => true) (path (IPV4 [10; 0; 0; 1])) (path (IPV6 (v4mapped [10; 0; 0; 1]))) = true.
Proof. vm_compute. reflexivity. Qed.
