(* ===== verification/AdjRibCommon.v ===== *)
(** * Attributes towards a peer

    adjrib/AdjRibCommon.cpp: what a route loses and gains on its way out to a
    peer, shared by the per-peer and the update-group Adj-RIB-Out.  adjrib/AdjRibUtil.cpp: the checks on the way
    in.  Attribute pointers are not null. *)

From stdpp Require Import gmap strings.
From S2P Require Import Prelude BgpException Folly BgpStructs Nlri RouteFilter RouteInfo RibEntry Ucmp.
From S2P Require Import DeDuplicator PathFields PolicyEncoding PolicyAction PolicyMatch.
From S2P Require Import PolicyEngine PolicyTerm PolicyMask.

(** ** Peer configuration *)

Inductive AdvertiseLinkBandwidth :=
| ADV_DISABLE | ADV_SET_LINK_BPS | ADV_BEST_PATH | ADV_AGGREGATE_RECEIVED | ADV_AGGREGATE_LOCAL
| ADV_RIB_POLICY_LBW.
Inductive ReceiveLinkBandwidth := RCV_DISABLE | RCV_ACCEPT | RCV_SET_LINK_BPS.

(** [PeeringParams] of config/ConfigStructs.h: the fields the Adj-RIBs use; a [float] is its bits. *)
Record PeeringConfig := mkPeeringConfig {
  globalAs : Z;
  localAs : Z;
  remoteAs : Z;
  localBgpId : Z;
  localClusterId : Z;
  isRrClient : bool;
  isConfedPeer : bool;
  removePrivateAs : bool;
  localConfedAs : option Z;
  asConfedId : option Z;
  advertiseLinkBandwidth : option AdvertiseLinkBandwidth;
  receiveLinkBandwidth : option ReceiveLinkBandwidth;
  params_linkBandwidthBps : option Z;
  enforceFirstAs : bool;
  peerAddr : IPAddress;
  nexthopV4 : IPAddress;
  nexthopV6 : IPAddress;
  nextHopSelf : bool;
  allowLoopbackReflection : bool
}.

(** A route on its way out; the path id the RIB proposes is not used by the
    Adj-RIB-Out of a peer.  Times are in nanoseconds. *)
Record RibOutAnnouncementEntry := mkRibOutEntry {
  out_prefix : CIDRNetwork;
  out_peer : TinyPeerInfo;
  out_attrs : BgpPathFields;
  out_switchId : option Z;
  out_multiPathSize : option Z;
  out_aggregateReceivedUcmpWeight : option Z;
  out_aggregateLocalUcmpWeight : option Z;
  out_ribPolicyUcmpWeight : option Z;
  out_newlyInstalledInLocalRib : bool;
  out_installTimeStamp : Z;
  out_ribVersion : Z;
  out_isPartialDrain : bool
}.

Definition isEBgpPeer (p : PeeringConfig) : bool :=
  negb (localAs p =? remoteAs p) && negb (isConfedPeer p).
Definition isConfedEBgpPeer (p : PeeringConfig) : bool :=
  isConfedPeer p && negb (localAs p =? remoteAs p).
Definition getBgpSessionType (p : PeeringConfig) : BgpSessionType :=
  if isConfedPeer p && negb (localAs p =? remoteAs p) then ConfedEBGP
  else if negb (localAs p =? remoteAs p) then EBGP
  else IBGP.

Definition isAfiNegotiated (prefix : CIDRNetwork) (isAfiIpv4Negotiated isAfiIpv6Negotiated : bool)
    : bool :=
  (isV4 prefix.1 && isAfiIpv4Negotiated) || (isV6 prefix.1 && isAfiIpv6Negotiated).

(** [IPAddress::isZero] *)
Definition ip_isZero (ip : IPAddress) : bool :=
  match ip with
  | IPUnset => true
  | IPV4 o | IPV6 o => forallb (fun b => b =? 0) o
  end.

(** ** Link bandwidth *)

(** [None] is a failed [CHECK]. *)
Definition updateAdvertiseLbwExtCommunityCommon (params : PeeringConfig)
    (update : RibOutAnnouncementEntry) (attrs : BgpPathFields) : option BgpPathFields :=
  match advertiseLinkBandwidth params with
  | None => Some attrs
  | Some mode =>
      let attrs := pruneTransitiveLbwExtCommunity attrs in
      match mode with
      | ADV_DISABLE => Some (pruneNonTransitiveLbwExtCommunity attrs)
      | ADV_SET_LINK_BPS =>
          v ← params_linkBandwidthBps params;
          Some (setNonTransitiveLbwExtCommunity (localAs params) v attrs)
      | ADV_BEST_PATH =>
          Some (match out_aggregateReceivedUcmpWeight update with
                | None => pruneNonTransitiveLbwExtCommunity attrs
                | Some _ => attrs
                end)
      | ADV_AGGREGATE_RECEIVED =>
          Some (setOrPrune (localAs params) (out_aggregateReceivedUcmpWeight update) attrs)
      | ADV_AGGREGATE_LOCAL =>
          Some (setOrPrune (localAs params) (out_aggregateLocalUcmpWeight update) attrs)
      | ADV_RIB_POLICY_LBW =>
          Some (setOrPrune (localAs params) (out_ribPolicyUcmpWeight update) attrs)
      end
  end.

Definition createPolicyActionDataCommon (params : PeeringConfig) (attrs : BgpPathFields)
    (switchId multiPathSize aggregateReceived aggregateLocal ribPolicy : option Z)
    : BgpPolicyActionData :=
  mkActionData switchId multiPathSize
    (Some (mkLbwActionData (getNonTransitiveRawLbw attrs) (localAs params)
             (params_linkBandwidthBps params) aggregateReceived aggregateLocal ribPolicy))
    false false false.

(** ** The AS path *)

Definition isConfedSegment (s : BgpAttrAsPathSegment) : bool :=
  nonempty (asConfedSequence s) || nonempty (asConfedSet s).

Definition BGP_PRIVATE_AS_START : Z := 64512.

(** The elements [checkSegmentAnyAsn] looks at: the first container in use. *)
Definition checkedAsns (s : BgpAttrAsPathSegment) : list Z :=
  if nonempty (asSequence s) then asSequence s
  else if nonempty (asSet s) then asSet s
  else if nonempty (asConfedSequence s) then asConfedSequence s
  else asConfedSet s.
Definition hasPublicAsn (s : BgpAttrAsPathSegment) : bool :=
  existsb (fun a => a <? BGP_PRIVATE_AS_START) (checkedAsns s).
Definition hasAsn (asn : Z) (s : BgpAttrAsPathSegment) : bool :=
  existsb (fun a => a =? asn) (checkedAsns s).

Definition mapSequence (f : list Z -> list Z) (s : BgpAttrAsPathSegment) : BgpAttrAsPathSegment :=
  mkSegment (asSet s) (f (asSequence s)) (asConfedSequence s) (asConfedSet s).
Definition mapConfedSequence (f : list Z -> list Z) (s : BgpAttrAsPathSegment) : BgpAttrAsPathSegment :=
  mkSegment (asSet s) (asSequence s) (f (asConfedSequence s)) (asConfedSet s).

Definition replaceZerosInAsPath (replaceValue : Z) (attrs : BgpPathFields) : BgpPathFields :=
  setAsPath
    (mapSequence (map (fun a => if a =? 0 then replaceValue else a)) <$> getAsPath attrs) attrs.

Definition removeConfedAsPathSegments (asPath : list BgpAttrAsPathSegment)
    : list BgpAttrAsPathSegment :=
  List.filter (fun s => negb (isConfedSegment s)) asPath.

Definition removePrivateAsns (asPath : list BgpAttrAsPathSegment) : list BgpAttrAsPathSegment :=
  if existsb hasPublicAsn asPath then asPath else [].

Definition prependAsPath (localAs : Z) (isConfedPeer : bool) (asPath : list BgpAttrAsPathSegment)
    : list BgpAttrAsPathSegment :=
  if negb isConfedPeer then
    match asPath with
    | first :: rest =>
        if nonempty (asSequence first) then mapSequence (cons localAs) first :: rest
        else mkSegment [] [localAs] [] [] :: asPath
    | [] => [mkSegment [] [localAs] [] []]
    end
  else
    match asPath with
    | first :: rest =>
        if nonempty (asConfedSequence first) then mapConfedSequence (cons localAs) first :: rest
        else mkSegment [] [] [localAs] [] :: asPath
    | [] => [mkSegment [] [] [localAs] []]
    end.

Definition asnToPrepend (params : PeeringConfig) : Z := default (localAs params) (asConfedId params).

Definition updateAsPathAttributesCommon (params : PeeringConfig) (sessionType : BgpSessionType)
    (attrs : BgpPathFields) : BgpPathFields :=
  let attrs := replaceZerosInAsPath (localAs params) attrs in
  match sessionType with
  | EBGP =>
      let newAsPath := removeConfedAsPathSegments (getAsPath attrs) in
      let newAsPath := if removePrivateAs params then removePrivateAsns newAsPath else newAsPath in
      setAsPath (prependAsPath (asnToPrepend params) false newAsPath) attrs
  | ConfedEBGP => setAsPath (prependAsPath (localAs params) true (getAsPath attrs)) attrs
  | IBGP => attrs
  end.

(** ** The other attributes *)

Definition updateLocalPrefCommon (sessionType : BgpSessionType) (attrs : BgpPathFields)
    : BgpPathFields :=
  match sessionType with EBGP => setLocalPref None attrs | _ => attrs end.

Definition updateOriginAndClusterListCommon (params : PeeringConfig) (sessionType : BgpSessionType)
    (update : RibOutAnnouncementEntry) (attrs : BgpPathFields) : BgpPathFields :=
  let attrs := match sessionType with
               | EBGP | ConfedEBGP => setClusterList [] (setOriginatorId 0 attrs)
               | IBGP => attrs
               end in
  if isRrClient params then
    let peer := out_peer update in
    let attrs :=
      if negb (bool_decide (peer_sessionType peer = IBGP)) || ip_isZero (peer_addr peer)
      then setOriginatorId (localBgpId params) attrs
      else if ac_originatorId (pf_attrs attrs) =? 0 then setOriginatorId (peer_routerId peer) attrs
      else attrs in
    setClusterList (localClusterId params :: ac_clusterList (pf_attrs attrs)) attrs
  else attrs.

Definition kDrainCommunity : BgpAttrCommunity := mkCommunity 65446 10.
Definition kLiveCommunity : BgpAttrCommunity := mkCommunity 65446 30.

Definition applyPartialDrainCommunities (attrs : BgpPathFields) : BgpPathFields :=
  let comms := addCommunities (getCommunities attrs) [kDrainCommunity] in
  setCommunities (removeCommunities comms [kLiveCommunity]) attrs.

(** The lowest non-negative bandwidth so far, and whether there is something to prune. *)
Definition lowestLbwStep (acc : Z * bool) (c : BgpAttrExtCommunity) : Z * bool :=
  let '(lowestLbw, shouldPrune) := acc in
  if isLinkBandwidthCommunity c then
    let lbw := secondWord c in
    if f32_ltb lbw 0 then (lowestLbw, true)
    else (if f32_ltb lbw lowestLbw then lbw else lowestLbw,
          shouldPrune || negb (f32_eqb lowestLbw FLT_MAX))
  else acc.

#[global] Arguments lowestLbwStep : simpl never.
#[global] Arguments f32_eqb : simpl never.

Definition pruneLbwExtCommunitiesCommon (communities : list BgpAttrExtCommunity)
    : list BgpAttrExtCommunity :=
  let '(lowestLbw, shouldPrune) := fold_left lowestLbwStep communities (FLT_MAX, false) in
  if negb shouldPrune then communities
  else List.filter (fun c =>
         negb (isLinkBandwidthCommunity c &&
               (f32_ltb lowestLbw (secondWord c) || f32_ltb (secondWord c) 0))) communities.

Definition keepsNonTransitiveLbw (params : PeeringConfig) (mask : option PolicyAttributesMask) : bool :=
  (match mask with Some m => m mCustomizedLbwEnabled | None => false end) ||
  (match advertiseLinkBandwidth params with Some _ => true | None => false end).

Definition updateExtCommunitiesCommon (params : PeeringConfig) (sessionType : BgpSessionType)
    (mask : option PolicyAttributesMask) (attrs : BgpPathFields) : BgpPathFields :=
  let keepNonTransitiveLbw := keepsNonTransitiveLbw params mask in
  let extCommunities := getExtCommunities attrs in
  let newExtCommunities :=
    match sessionType with
    | EBGP =>
        List.filter (fun c => isTransitive c ||
          (keepNonTransitiveLbw && isNonTransitiveLinkBandwidthCommunity c)) extCommunities
    | _ => extCommunities
    end in
  let newExtCommunities := pruneLbwExtCommunitiesCommon newExtCommunities in
  if negb (blen newExtCommunities =? blen extCommunities)
  then setExtCommunities newExtCommunities attrs
  else attrs.

Section Out.
Context `{RC : RibContext}.

(** The flag says whether the policy set the MED. *)
Definition updateMedCommon (sessionType : BgpSessionType) (isMedSetByPolicy : bool)
    (attrs : BgpPathFields) : BgpPathFields :=
  match sessionType with
  | EBGP =>
      if negb (enableMedComparison features) || negb isMedSetByPolicy then unSetMed attrs else attrs
  | _ => attrs
  end.

(** [mask] is that of the egress policy, if one is configured, and [policyResultAttrs]
    its outcome. *)
Definition updateAttributesOutWithoutNexthopCommon (params : PeeringConfig)
    (sessionType : BgpSessionType) (mask : option PolicyAttributesMask)
    (update : RibOutAnnouncementEntry) (policyResultAttrs : BgpPathFields)
    (isMedSetByPolicy : bool) (attrs : BgpPathFields) : BgpPathFields :=
  let attrs := match mask with
               | Some m => overridePrePolicyAttributesCommon m policyResultAttrs attrs
               | None => attrs
               end in
  let attrs := updateAsPathAttributesCommon params sessionType attrs in
  let attrs := updateLocalPrefCommon sessionType attrs in
  let attrs := updateMedCommon sessionType isMedSetByPolicy attrs in
  let attrs := updateOriginAndClusterListCommon params sessionType update attrs in
  updateExtCommunitiesCommon params sessionType mask attrs.
End Out.

(** ** On the way in: adjrib/AdjRibUtil.cpp and AdjRibIn.cpp *)

Definition kDefaultLocalPref : Z := 100.

(** [None] is a failed [CHECK]: a confederation peer without its AS numbers. *)
Definition hasAsPathLoop (params : PeeringConfig) (attrs : BgpPathFields) : option bool :=
  '(ownAs, confedAs) ← (if isConfedPeer params then
                          id ← asConfedId params;
                          confed ← localConfedAs params;
                          Some (id, Some confed)
                        else Some (localAs params, None));
  let contains (asn : Z) (l : list Z) := existsb (fun a => a =? asn) l in
  Some (existsb (fun seg =>
    contains (globalAs params) (asSet seg) || contains ownAs (asSet seg) ||
    contains (globalAs params) (asSequence seg) || contains ownAs (asSequence seg) ||
    match confedAs with
    | Some c => contains c (asConfedSequence seg) || contains c (asConfedSet seg)
    | None => false
    end) (getAsPath attrs)).

Definition hasRRLoop (params : PeeringConfig) (attrs : BgpPathFields) : bool :=
  (ac_originatorId (pf_attrs attrs) =? localBgpId params) ||
  existsb (fun c => c =? localClusterId params) (ac_clusterList (pf_attrs attrs)).

(** Whether the AS path has the segments the session type asks for. *)
Definition validateAsPath (attrs : BgpPathFields) (sessionType : BgpSessionType) : bool :=
  match sessionType with
  | EBGP => negb (existsb isConfedSegment (getAsPath attrs))
  | ConfedEBGP =>
      match getAsPath attrs with [] => false | first :: _ => isConfedSegment first end
  | IBGP => true
  end.

Definition validateEnforceFirstAs (attrs : BgpPathFields) (remoteAs : Z) (isIBgpPeer : bool) : bool :=
  if isIBgpPeer then true
  else
  match getAsPath attrs with
  | [] => false
  | firstSegment :: _ =>
      match asSequence firstSegment, asConfedSequence firstSegment with
      | firstAs :: _, _ => firstAs =? remoteAs
      | [], firstAs :: _ => firstAs =? remoteAs
      | [], [] => true
      end
  end.

(** Why [validateAttributesIn] refuses an update; a malformed AS path is also
    answered with a NOTIFICATION. *)
Inductive InVerdict :=
| AttributesValid | MissingLocalPref | AsPathLoop | RRLoop | MalformedAsPath | WrongFirstAs.

(** The session type and the remote AS are those of the session. *)
Definition validateAttributesIn (params : PeeringConfig) (sessionType : BgpSessionType)
    (sessionRemoteAs : Z) (attrs : BgpPathFields) : option InVerdict :=
  let isIBgp := bool_decide (sessionType = IBGP) in
  if isIBgp && negb (match ac_localPref (pf_attrs attrs) with Some _ => true | None => false end)
  then Some MissingLocalPref
  else
  loop ← hasAsPathLoop params attrs;
  Some (if loop : bool then AsPathLoop
        else if hasRRLoop params attrs then RRLoop
        else if negb (validateAsPath attrs sessionType) then MalformedAsPath
        else if enforceFirstAs params &&
                negb (validateEnforceFirstAs attrs sessionRemoteAs isIBgp) then WrongFirstAs
        else AttributesValid).

Definition updateReceiveLbwExtCommunity (params : PeeringConfig) (attrs : BgpPathFields)
    : option BgpPathFields :=
  match receiveLinkBandwidth params with
  | None | Some RCV_ACCEPT => Some attrs
  | Some RCV_DISABLE => Some (pruneNonTransitiveLbwExtCommunity attrs)
  | Some RCV_SET_LINK_BPS =>
      v ← params_linkBandwidthBps params;
      Some (setNonTransitiveLbwExtCommunity (localAs params) v attrs)
  end.

Definition updateAttributesIn (params : PeeringConfig) (sessionType : BgpSessionType)
    (attrs : BgpPathFields) : option BgpPathFields :=
  attrsLbw ← updateReceiveLbwExtCommunity params attrs;
  Some (match sessionType with
        | IBGP => attrsLbw
        | ConfedEBGP =>
            match ac_localPref (pf_attrs attrsLbw) with
            | Some _ => attrsLbw
            | None => setLocalPref (Some kDefaultLocalPref) attrsLbw
            end
        | EBGP =>
            setClusterList [] (setOriginatorId 0 (setLocalPref (Some kDefaultLocalPref) attrsLbw))
        end).

(** ** What an EBGP peer receives *)

Lemma removeConfed_none path :
  Forall (fun s => isConfedSegment s = false) (removeConfedAsPathSegments path).
Proof.
  apply Forall_forall. intros s Hs. apply list_elem_of_In, filter_In in Hs as [_ Hs].
  by apply negb_true_iff in Hs.
Qed.

Lemma removePrivate_subset (P : BgpAttrAsPathSegment -> Prop) path :
  Forall P path -> Forall P (removePrivateAsns path).
Proof. unfold removePrivateAsns. by destruct (existsb hasPublicAsn path). Qed.

Lemma prepend_none asn path :
  Forall (fun s => isConfedSegment s = false) path ->
  Forall (fun s => isConfedSegment s = false) (prependAsPath asn false path).
Proof.
  intros Hp. unfold prependAsPath. cbn [negb]. destruct Hp as [|s path Hs Hp]; [by repeat constructor|].
  destruct (nonempty (asSequence s)); by repeat constructor.
Qed.

Lemma prepend_first asn path :
  exists s rest, prependAsPath asn false path = s :: rest /\ head (asSequence s) = Some asn.
Proof.
  unfold prependAsPath. cbn [negb]. destruct path as [|s path]; [by eexists _, _|].
  destruct (nonempty (asSequence s)); by eexists _, _.
Qed.

Lemma pruneLbw_sub (P : BgpAttrExtCommunity -> Prop) l :
  Forall P l -> Forall P (pruneLbwExtCommunitiesCommon l).
Proof.
  intros Hl. unfold pruneLbwExtCommunitiesCommon. destruct (fold_left _ _ _) as [low prune].
  destruct prune; cbn [negb]; [|done]. rewrite Forall_forall in *. intros c Hc.
  apply list_elem_of_In, filter_In in Hc as [Hc _]. by apply Hl, list_elem_of_In.
Qed.


Lemma filter_forallb {X} (f : X -> bool) l : Forall (fun x => f x = true) (List.filter f l).
Proof. apply Forall_forall. intros x Hx. by apply list_elem_of_In, filter_In in Hx as [_ Hx]. Qed.

(** When pruning removes nothing the list is unchanged. *)
Lemma filter_full {X} (f : X -> bool) l : length (List.filter f l) = length l -> List.filter f l = l.
Proof.
  induction l as [|x l IH]; [done|]. cbn [List.filter].
  pose proof (filter_length_le f l). destruct (f x); cbn [length]; intros Hl; [|lia].
  f_equal. apply IH. lia.
Qed.

Lemma pruneLbw_filter l : exists f, pruneLbwExtCommunitiesCommon l = List.filter f l.
Proof.
  unfold pruneLbwExtCommunitiesCommon. destruct (fold_left _ _ _) as [low prune].
  destruct prune; cbn [negb]; [by eexists|]. exists (fun _ => true). by rewrite bool_filter_id.
Qed.

(** The extended communities that are left are, up to their order, those the two
    filters keep. *)
Lemma ext_update params sessionType mask attrs :
  getExtCommunities (updateExtCommunitiesCommon params sessionType mask attrs) ≡ₚ
  pruneLbwExtCommunitiesCommon
    (match sessionType with
     | EBGP => List.filter (fun c => isTransitive c ||
         (keepsNonTransitiveLbw params mask && isNonTransitiveLinkBandwidthCommunity c))
         (getExtCommunities attrs)
     | _ => getExtCommunities attrs
     end).
Proof.
  unfold updateExtCommunitiesCommon.
  set (l := match sessionType with EBGP => _ | _ => _ end).
  assert (Hsub : exists f, l = List.filter f (getExtCommunities attrs))
    by (destruct sessionType; subst l; [by eexists|exists (fun _ => true); by rewrite bool_filter_id..]).
  destruct Hsub as [f Hf]. destruct (pruneLbw_filter l) as [g Hg].
  destruct (blen (pruneLbwExtCommunitiesCommon l) =? blen (getExtCommunities attrs)) eqn:E;
    cbn [negb]; [|apply preprocess_perm].
  zbool. rewrite Hg, Hf in *. pose proof (filter_length_le g (List.filter f (getExtCommunities attrs))).
  pose proof (filter_length_le f (getExtCommunities attrs)).
  assert (Hx : List.filter f (getExtCommunities attrs) = getExtCommunities attrs)
    by (apply filter_full; lia).
  rewrite Hx in E |- *. by rewrite filter_full by lia.
Qed.

(** Nothing but the extended communities changes. *)
Lemma ext_keeps params sessionType mask attrs :
  let out := updateExtCommunitiesCommon params sessionType mask attrs in
  ac_localPref (pf_attrs out) = ac_localPref (pf_attrs attrs) /\
  ac_originatorId (pf_attrs out) = ac_originatorId (pf_attrs attrs) /\
  ac_clusterList (pf_attrs out) = ac_clusterList (pf_attrs attrs) /\
  getAsPath out = getAsPath attrs /\ ac_isMedSet (pf_attrs out) = ac_isMedSet (pf_attrs attrs).
Proof.
  intros out. unfold out, updateExtCommunitiesCommon. destruct (negb _); [|done].
  unfold setExtCommunities, mapAttrs, getAsPath. cbn [pf_attrs ac_localPref ac_originatorId
    ac_clusterList ac_asPath ac_isMedSet]. done.
Qed.

Section Exported.
Context `{RC : RibContext}.

Lemma export_clean (params : PeeringConfig) (mask : option PolicyAttributesMask)
    (update : RibOutAnnouncementEntry) (result attrs : BgpPathFields) (isMedSetByPolicy : bool)
    (Hrr : isRrClient params = false) :
  let out := updateAttributesOutWithoutNexthopCommon params EBGP mask update result
               isMedSetByPolicy attrs in
  ac_localPref (pf_attrs out) = None /\
  ac_originatorId (pf_attrs out) = 0 /\ ac_clusterList (pf_attrs out) = [] /\
  Forall (fun s => isConfedSegment s = false) (getAsPath out) /\
  (exists s rest, getAsPath out = s :: rest /\ head (asSequence s) = Some (asnToPrepend params)) /\
  Forall (fun c => isTransitive c ||
            (keepsNonTransitiveLbw params mask && isNonTransitiveLinkBandwidthCommunity c) = true)
    (getExtCommunities out) /\
  (ac_isMedSet (pf_attrs out) = true -> enableMedComparison features = true /\ isMedSetByPolicy = true).
Proof.
  intros out. unfold updateAttributesOutWithoutNexthopCommon in out.
  set (a0 := match mask with Some _ => _ | None => attrs end) in out.
  set (a1 := updateAsPathAttributesCommon params EBGP a0) in out.
  set (a3 := updateMedCommon EBGP isMedSetByPolicy (updateLocalPrefCommon EBGP a1)) in out.
  set (a4 := updateOriginAndClusterListCommon params EBGP update a3) in out.
  assert (H4 : a4 = setClusterList [] (setOriginatorId 0 a3))
    by (unfold a4, updateOriginAndClusterListCommon; by rewrite Hrr).
  destruct (ext_keeps params EBGP mask a4) as (Hl & Ho & Hc & Hp & Hm). fold out in Hl, Ho, Hc, Hp, Hm.
  rewrite Hl, Ho, Hc, Hp, Hm, H4.
  assert (Hpath : getAsPath a3 = getAsPath a1) by (unfold a3, updateMedCommon; by destruct (_ || _)).
  assert (Hlp : ac_localPref (pf_attrs a3) = None) by (unfold a3, updateMedCommon; by destruct (_ || _)).
  assert (Hp1 : exists path, getAsPath a1 = prependAsPath (asnToPrepend params) false path /\
            Forall (fun s => isConfedSegment s = false) path).
  { eexists; split; [reflexivity|]. pose proof (removeConfed_none (getAsPath (replaceZerosInAsPath (localAs params) a0))).
    by destruct (removePrivateAs params); [apply removePrivate_subset|]. }
  destruct Hp1 as (path & Hpa & Hn). split_and!; [done..| | | |].
  - change (getAsPath (setClusterList [] (setOriginatorId 0 a3))) with (getAsPath a3).
    rewrite Hpath, Hpa. by apply prepend_none.
  - change (getAsPath (setClusterList [] (setOriginatorId 0 a3))) with (getAsPath a3).
    rewrite Hpath, Hpa. apply prepend_first.
  - unfold out. rewrite ext_update. apply pruneLbw_sub, filter_forallb.
  - change (ac_isMedSet (pf_attrs (setClusterList [] (setOriginatorId 0 a3))))
      with (ac_isMedSet (pf_attrs a3)). unfold a3, updateMedCommon.
    destruct (enableMedComparison features), isMedSetByPolicy; done.
Qed.

(** What is advertised over an EBGP session: no local preference, no
    originator or cluster list (for a peer that is no route reflector client), an
    AS path without confederation segments that starts with our AS number, only
    transitive extended communities unless link bandwidth is configured for the
    peer or its policy, and a MED only if the policy set it and MEDs are
    compared. *)
Theorem ebgp_export_clean (params : PeeringConfig) (mask : option PolicyAttributesMask)
    (update : RibOutAnnouncementEntry) (result attrs : BgpPathFields) (isMedSetByPolicy : bool)
    (Hrr : isRrClient params = false) :
  let out := updateAttributesOutWithoutNexthopCommon params EBGP mask update result
               isMedSetByPolicy attrs in
  ac_localPref (pf_attrs out) = None /\
  ac_originatorId (pf_attrs out) = 0 /\ ac_clusterList (pf_attrs out) = [] /\
  Forall (fun s => isConfedSegment s = false) (getAsPath out) /\
  (exists s rest, getAsPath out = s :: rest /\ head (asSequence s) = Some (asnToPrepend params)) /\
  Forall (fun c => isTransitive c ||
            (keepsNonTransitiveLbw params mask && isNonTransitiveLinkBandwidthCommunity c) = true)
    (getExtCommunities out) /\
  (ac_isMedSet (pf_attrs out) = true -> enableMedComparison features = true /\ isMedSetByPolicy = true).
Proof. by apply export_clean. Qed.
End Exported.
