(* ===== verification/AdjRibLoop.v ===== *)
(** * Routes do not come back

    A route that crosses several speakers, each with the export of
    AdjRibCommon.v and the import of the next one: the AS number a speaker adds on
    an EBGP session stays in the AS path, so any speaker of that AS refuses the
    route ([validateAttributesIn]).  Within an AS, a reflected route carries the
    cluster it came through. *)

From stdpp Require Import gmap strings.
From S2P Require Import Prelude BgpException Folly BgpStructs RouteFilter RouteInfo RibEntry Ucmp.
From S2P Require Import DeDuplicator PathFields PolicyEncoding PolicyAction PolicyMatch.
From S2P Require Import PolicyEngine PolicyTerm PolicyMask AdjRibCommon.

(** The AS number is in a sequence outside the confederation segments. *)
Definition onPath (asn : Z) (path : list BgpAttrAsPathSegment) : Prop :=
  Exists (fun s => isConfedSegment s = false /\ asn ∈ asSequence s) path.

Lemma onPath_prepend asn path : onPath asn (prependAsPath asn false (removeConfedAsPathSegments path)).
Proof.
  unfold prependAsPath. cbn [negb]. pose proof (removeConfed_none path) as Hn.
  destruct (removeConfedAsPathSegments path) as [|s rest]; [by repeat constructor; simpl; set_solver|].
  inversion Hn as [|? ? Hs _]; subst.
  destruct (nonempty (asSequence s)); left; simpl; [by split; [|left]|split; [done|left]].
Qed.

(** Prepending and removing confederation segments keep what is on the path. *)
Lemma onPath_keeps_prepend asn own confed path :
  onPath asn path -> onPath asn (prependAsPath own confed path).
Proof.
  intros Hp. unfold prependAsPath. destruct confed; cbn [negb]; destruct path as [|s rest];
    try (by inversion Hp).
  - destruct (nonempty (asConfedSequence s)) eqn:E; [|by right].
    inversion Hp as [? ? [Hc _]|]; subst; [|by right]. unfold isConfedSegment in Hc. by rewrite E in Hc.
  - destruct (nonempty (asSequence s)); [|by right].
    inversion Hp as [? ? [Hc Hin]|]; subst; [left|by right]. split; [done|]. simpl. by right.
Qed.

Lemma onPath_removeConfed asn path :
  onPath asn path -> onPath asn (removeConfedAsPathSegments path).
Proof.
  unfold onPath. rewrite !Exists_exists. intros (s & Hs & Hc & Hin). exists s. split; [|done].
  apply list_elem_of_In, filter_In. rewrite Hc. split; [by apply list_elem_of_In|done].
Qed.

Lemma onPath_zeros asn own path :
  asn <> 0 -> onPath asn path ->
  onPath asn (mapSequence (map (fun a => if a =? 0 then own else a)) <$> path).
Proof.
  unfold onPath. rewrite Exists_fmap. intros Hz Hp. eapply Exists_impl; [exact Hp|]. intros s [Hc Hin]. split; [done|].
  simpl. apply list_elem_of_In, in_map_iff. exists asn.
  rewrite (proj2 (Z.eqb_neq asn 0) Hz). split; [done|]. by apply list_elem_of_In.
Qed.

Section Chain.
Context `{RC : RibContext}.

(** One step of a route: the session of the sender, its policy mask and outcome,
    and the session of the receiver. *)
Record Hop := mkHop {
  hop_params : PeeringConfig;
  hop_mask : option PolicyAttributesMask;
  hop_update : RibOutAnnouncementEntry;
  hop_result : BgpPathFields;
  hop_isMedSetByPolicy : bool;
  hop_receiver : PeeringConfig
}.

Definition crossHop (h : Hop) (attrs : BgpPathFields) : option BgpPathFields :=
  updateAttributesIn (hop_receiver h) (getBgpSessionType (hop_receiver h))
    (updateAttributesOutWithoutNexthopCommon (hop_params h) (getBgpSessionType (hop_params h))
       (hop_mask h) (hop_update h) (hop_result h) (hop_isMedSetByPolicy h) attrs).

Fixpoint travel (hops : list Hop) (attrs : BgpPathFields) : option BgpPathFields :=
  match hops with
  | [] => Some attrs
  | h :: hops => attrs ← crossHop h attrs; travel hops attrs
  end.

(** A hop that does not take AS numbers off the path: no private AS removal, and
    no policy that changes AS paths. *)
Definition keepsAsPath (h : Hop) : Prop :=
  removePrivateAs (hop_params h) = false /\
  match hop_mask h with Some m => m mAsPath = false | None => True end.

Lemma override_asPath mask c a :
  mask mAsPath = false -> getAsPath (overridePrePolicyAttributesCommon mask c a) = getAsPath a.
Proof.
  intros Hm. unfold overridePrePolicyAttributesCommon. rewrite Hm.
  assert (Hw : forall b f p, (forall q, getAsPath (f q) = getAsPath q) -> getAsPath (when b f p) = getAsPath p)
    by (intros [] f p Hf; [apply Hf|done]).
  assert (Hf : forall (f : BgpPathFields -> BgpPathFields) p, when false f p = p) by done.
  rewrite Hf. repeat (rewrite Hw; [|intros ?; reflexivity]). done.
Qed.

(** Everything after the AS path update leaves it alone. *)
Lemma export_asPath params sessionType mask update result med attrs :
  match mask with Some m => m mAsPath = false | None => True end ->
  getAsPath (updateAttributesOutWithoutNexthopCommon params sessionType mask update result med attrs) =
  getAsPath (updateAsPathAttributesCommon params sessionType attrs).
Proof.
  intros Hm. unfold updateAttributesOutWithoutNexthopCommon.
  match goal with |- getAsPath (updateExtCommunitiesCommon _ _ _ ?a) = _ =>
    destruct (ext_keeps params sessionType mask a) as (_ & _ & _ & -> & _) end.
  assert (HO : forall a, getAsPath (updateOriginAndClusterListCommon params sessionType update a) = getAsPath a).
  { intros a. unfold updateOriginAndClusterListCommon.
    destruct sessionType, (isRrClient params); try done;
      destruct (_ || _); try done; by destruct (_ =? 0). }
  rewrite HO.
  assert (HM : forall a, getAsPath (updateMedCommon sessionType med a) = getAsPath a)
    by (intros a; unfold updateMedCommon; destruct sessionType; try done; by destruct (_ || _)).
  rewrite HM.
  assert (HL : forall a, getAsPath (updateLocalPrefCommon sessionType a) = getAsPath a)
    by (intros a; by destruct sessionType).
  rewrite HL. unfold updateAsPathAttributesCommon, replaceZerosInAsPath.
  destruct sessionType; rewrite ?getAsPath_set; by destruct mask; rewrite ?override_asPath.
Qed.

Lemma import_asPath params sessionType attrs attrs' :
  updateAttributesIn params sessionType attrs = Some attrs' -> getAsPath attrs' = getAsPath attrs.
Proof.
  unfold updateAttributesIn, updateReceiveLbwExtCommunity.
  assert (HP : getAsPath (pruneNonTransitiveLbwExtCommunity attrs) = getAsPath attrs)
    by (unfold pruneNonTransitiveLbwExtCommunity; by destruct (existsb _ _)).
  assert (HS : forall asn v, getAsPath (setNonTransitiveLbwExtCommunity asn v attrs) = getAsPath attrs).
  { intros asn v. unfold setNonTransitiveLbwExtCommunity, setNonTransitiveRawLbwExtCommunity.
    change (getAsPath (setExtCommunities ?c ?p)) with (getAsPath p). exact HP. }
  intros H. destruct (match receiveLinkBandwidth params with None => _ | _ => _ end) as [a|] eqn:E;
    [|done].
  assert (Ha : getAsPath a = getAsPath attrs).
  { destruct (receiveLinkBandwidth params) as [[]|]; simplify_eq; try done.
    destruct (params_linkBandwidthBps params); [|done]. cbn [mbind option_bind] in E. simplify_eq.
    apply HS. }
  cbn [mbind option_bind] in H. rewrite <- Ha. destruct sessionType; simplify_eq; try done.
  by destruct (ac_localPref (pf_attrs a)).
Qed.

Lemma hop_keeps h attrs attrs' asn :
  keepsAsPath h -> asn <> 0 -> crossHop h attrs = Some attrs' ->
  onPath asn (getAsPath attrs) -> onPath asn (getAsPath attrs').
Proof.
  intros [Hr Hm] Hz Hc Hp. unfold crossHop in Hc. rewrite (import_asPath _ _ _ _ Hc).
  rewrite export_asPath by done. unfold updateAsPathAttributesCommon. rewrite Hr.
  assert (H0 : onPath asn (getAsPath (replaceZerosInAsPath (localAs (hop_params h)) attrs)))
    by (by apply onPath_zeros).
  destruct (getBgpSessionType (hop_params h)); [|done|].
  - apply onPath_keeps_prepend. by apply onPath_removeConfed.
  - by apply onPath_keeps_prepend.
Qed.

Lemma hop_adds h attrs attrs' :
  keepsAsPath h -> getBgpSessionType (hop_params h) = EBGP -> crossHop h attrs = Some attrs' ->
  onPath (asnToPrepend (hop_params h)) (getAsPath attrs').
Proof.
  intros [Hr Hm] He Hc. unfold crossHop in Hc. rewrite (import_asPath _ _ _ _ Hc).
  rewrite export_asPath by done. unfold updateAsPathAttributesCommon. rewrite Hr, He.
  apply onPath_prepend.
Qed.

Lemma travel_keeps hops : forall attrs attrs' asn,
  Forall keepsAsPath hops -> asn <> 0 -> travel hops attrs = Some attrs' ->
  onPath asn (getAsPath attrs) -> onPath asn (getAsPath attrs').
Proof.
  induction hops as [|h hops IH]; intros attrs attrs' asn Hk Hz Ht Hp; cbn [travel] in Ht;
    [by simplify_eq|].
  inversion Hk; subst. destruct (crossHop h attrs) as [a|] eqn:E; [|done].
  eapply IH; [done..|]. by eapply hop_keeps.
Qed.

(** The AS numbers by which a speaker knows its own AS on a session. *)
Definition ownAsn (params : PeeringConfig) (asn : Z) : Prop :=
  asn = globalAs params \/
  asn = (if isConfedPeer params then default 0 (asConfedId params) else localAs params).

Lemma onPath_loop params attrs asn :
  (isConfedPeer params = true -> is_Some (asConfedId params) /\ is_Some (localConfedAs params)) ->
  ownAsn params asn -> onPath asn (getAsPath attrs) -> hasAsPathLoop params attrs = Some true.
Proof.
  intros Hcfg Hown Hp. unfold hasAsPathLoop.
  assert (HC : exists own confed, (if isConfedPeer params then
                          id ← asConfedId params;
                          confed ← localConfedAs params;
                          Some (id, Some confed)
                        else Some (localAs params, None)) = Some (own, confed) /\
                      (asn = globalAs params \/ asn = own)).
  { unfold ownAsn in Hown. destruct (isConfedPeer params); [|by eauto].
    destruct (Hcfg eq_refl) as [[id Hid] [c Hc]]. rewrite Hid, Hc in *. cbn. eauto. }
  destruct HC as (own & confed & -> & Hasn). cbn [mbind option_bind]. f_equal.
  apply existsb_exists. unfold onPath in Hp. rewrite Exists_exists in Hp.
  destruct Hp as (s & Hs & _ & Hin). exists s. split; [by apply list_elem_of_In|].
  assert (HE : existsb (fun a => a =? asn) (asSequence s) = true).
  { apply existsb_exists. exists asn. split; [by apply list_elem_of_In|apply Z.eqb_refl]. }
  destruct Hasn as [<-| <-]; rewrite HE, !orb_true_r; [|done]. by rewrite ?orb_true_r.
Qed.

(** C22. Loop prevention over any number of speakers: once a route has crossed an
    EBGP session, whatever sessions it crosses afterwards, a speaker that knows
    itself by the AS number the sender added refuses it, as long as no speaker on
    the way removes private AS numbers or changes AS paths by policy. *)
Theorem ebgp_loop_refused (h : Hop) (hops : list Hop) (attrs attrs' : BgpPathFields)
    (params : PeeringConfig) (sessionType : BgpSessionType) (sessionRemoteAs : Z)
    (Hkeep : Forall keepsAsPath (h :: hops))
    (Hebgp : getBgpSessionType (hop_params h) = EBGP)
    (Hasn : asnToPrepend (hop_params h) <> 0)
    (Htravel : travel (h :: hops) attrs = Some attrs')
    (Hcfg : isConfedPeer params = true -> is_Some (asConfedId params) /\ is_Some (localConfedAs params))
    (Hown : ownAsn params (asnToPrepend (hop_params h))) :
  exists v, validateAttributesIn params sessionType sessionRemoteAs attrs' = Some v /\
    v <> AttributesValid.
Proof.
  cbn [travel] in Htravel. destruct (crossHop h attrs) as [a|] eqn:E; [|done].
  inversion Hkeep; subst.
  assert (Hon : onPath (asnToPrepend (hop_params h)) (getAsPath attrs'))
    by (eapply travel_keeps; [done..|by eapply hop_adds]).
  unfold validateAttributesIn. rewrite (onPath_loop params attrs' _ Hcfg Hown Hon).
  destruct (_ && negb _); cbn; by eexists.
Qed.

(** ** Route reflection *)

(** A hop inside the AS that leaves cluster lists to the reflectors. *)
Definition keepsClusters (h : Hop) : Prop :=
  getBgpSessionType (hop_params h) = IBGP /\ getBgpSessionType (hop_receiver h) = IBGP /\
  match hop_mask h with Some m => m mClusterList = false | None => True end.

Definition clusters (attrs : BgpPathFields) : list Z := ac_clusterList (pf_attrs attrs).

Lemma override_clusters mask c a :
  mask mClusterList = false -> clusters (overridePrePolicyAttributesCommon mask c a) = clusters a.
Proof.
  intros Hm. unfold overridePrePolicyAttributesCommon. rewrite Hm.
  assert (Hw : forall b f p, (forall q, clusters (f q) = clusters q) -> clusters (when b f p) = clusters p)
    by (intros [] f p Hf; [apply Hf|done]).
  assert (Hf : forall (f : BgpPathFields -> BgpPathFields) p, when false f p = p) by done.
  rewrite Hf. repeat (rewrite Hw; [|intros ?; reflexivity]). done.
Qed.

Lemma import_clusters params attrs attrs' :
  updateAttributesIn params IBGP attrs = Some attrs' -> clusters attrs' = clusters attrs.
Proof.
  unfold updateAttributesIn, updateReceiveLbwExtCommunity.
  assert (HP : clusters (pruneNonTransitiveLbwExtCommunity attrs) = clusters attrs)
    by (unfold pruneNonTransitiveLbwExtCommunity; by destruct (existsb _ _)).
  intros H. destruct (receiveLinkBandwidth params) as [[]|]; cbn [mbind option_bind] in H;
    simplify_eq; try done.
  destruct (params_linkBandwidthBps params); [|done]. cbn [mbind option_bind] in H. simplify_eq.
  unfold setNonTransitiveLbwExtCommunity, setNonTransitiveRawLbwExtCommunity.
  change (clusters (setExtCommunities ?c ?p)) with (clusters p). exact HP.
Qed.

Lemma hop_clusters h attrs attrs' :
  keepsClusters h -> crossHop h attrs = Some attrs' ->
  clusters attrs' = (if isRrClient (hop_params h) then [localClusterId (hop_params h)] else [])
                    ++ clusters attrs.
Proof.
  intros (Hs & Hr & Hm) Hc. unfold crossHop in Hc. rewrite Hs, Hr in Hc.
  rewrite (import_clusters _ _ _ Hc). unfold updateAttributesOutWithoutNexthopCommon.
  match goal with |- clusters (updateExtCommunitiesCommon _ _ ?m ?a) = _ =>
    pose proof (ext_keeps (hop_params h) IBGP m a) as (_ & _ & HC & _) end.
  unfold clusters at 1. rewrite HC.
  assert (H0 : clusters match hop_mask h with
               | Some m => overridePrePolicyAttributesCommon m (hop_result h) attrs
               | None => attrs end = clusters attrs)
    by (destruct (hop_mask h); [by apply override_clusters|done]).
  unfold updateOriginAndClusterListCommon. destruct (isRrClient (hop_params h)); [|exact H0].
  rewrite <- H0. destruct (_ || _); [|destruct (_ =? 0)]; reflexivity.
Qed.

Lemma travel_clusters hops : forall attrs attrs' c,
  Forall keepsClusters hops -> travel hops attrs = Some attrs' -> c ∈ clusters attrs ->
  c ∈ clusters attrs'.
Proof.
  induction hops as [|h hops IH]; intros attrs attrs' c Hk Ht Hp; cbn [travel] in Ht;
    [by simplify_eq|].
  inversion Hk; subst. destruct (crossHop h attrs) as [a|] eqn:E; [|done].
  eapply IH; [done..|]. rewrite (hop_clusters h attrs a) by done. set_solver.
Qed.

(** A reflected route does not enter its cluster again over IBGP sessions. *)
Lemma reflection_loop_refused h hops attrs attrs' params sessionRemoteAs :
  Forall keepsClusters (h :: hops) -> isRrClient (hop_params h) = true ->
  travel (h :: hops) attrs = Some attrs' -> localClusterId params = localClusterId (hop_params h) ->
  isConfedPeer params = false ->
  exists v, validateAttributesIn params IBGP sessionRemoteAs attrs' = Some v /\ v <> AttributesValid.
Proof.
  intros Hk Hr Ht Hcl Hconf. cbn [travel] in Ht. destruct (crossHop h attrs) as [a|] eqn:E; [|done].
  inversion Hk; subst.
  assert (Hin : localClusterId params ∈ clusters attrs').
  { eapply travel_clusters; [done..|]. rewrite (hop_clusters h attrs a), Hr, Hcl by done. set_solver. }
  assert (HL : hasRRLoop params attrs' = true).
  { unfold hasRRLoop. apply orb_true_iff. right. apply existsb_exists. eexists. split;
      [by apply list_elem_of_In|apply Z.eqb_refl]. }
  unfold validateAttributesIn, hasAsPathLoop. rewrite Hconf, HL.
  destruct (_ && _); cbn; [by eexists|]. destruct (existsb _ _); by eexists.
Qed.
End Chain.

(** ** Samples *)

#[local] Existing Instance sample_context.

Definition sample_params (global local remote : Z) : PeeringConfig :=
  mkPeeringConfig global local remote 1 1 false false false None None None None None true
    (IPV4 [10; 0; 0; 2]) IPUnset IPUnset false false.
Definition sample_out : RibOutAnnouncementEntry :=
  mkRibOutEntry (IPV4 [192; 0; 2; 0], 24) (sample_peer 7 7) defaultPathFields None None None None None
    false 0 0 false.
Definition sample_hop (from to : Z) : Hop :=
  mkHop (sample_params from from to) None sample_out defaultPathFields false
    (sample_params to to from).

Lemma ebgp_export_clean_witness :
  getAsPath (updateAttributesOutWithoutNexthopCommon (sample_params 65001 65001 65002) EBGP None
    sample_out defaultPathFields false
    (setLocalPref (Some 100) (setAsPath [mkSegment [] [] [64600] []; mkSegment [] [65003] [] []]
       defaultPathFields))) = [mkSegment [] [65001; 65003] [] []] /\
  ac_localPref (pf_attrs (updateAttributesOutWithoutNexthopCommon (sample_params 65001 65001 65002)
    EBGP None sample_out defaultPathFields false
    (setLocalPref (Some 100) defaultPathFields))) = None.
Proof.
  split; [vm_compute; reflexivity|].
  apply (ebgp_export_clean (sample_params 65001 65001 65002) None sample_out defaultPathFields
    (setLocalPref (Some 100) defaultPathFields) false eq_refl).
Defined.

Definition sample_traveled : BgpPathFields :=
  default defaultPathFields
    (travel [sample_hop 65001 65002; sample_hop 65002 65003; sample_hop 65003 65004] defaultPathFields).

Lemma ebgp_loop_refused_witness :
  getAsPath sample_traveled = [mkSegment [] [65003; 65002; 65001] [] []] /\
  exists v, validateAttributesIn (sample_params 65001 65001 65004) EBGP 65004 sample_traveled = Some v /\
    v <> AttributesValid.
Proof.
  split; [vm_compute; reflexivity|].
  apply (ebgp_loop_refused (sample_hop 65001 65002) [sample_hop 65002 65003; sample_hop 65003 65004]
    defaultPathFields sample_traveled (sample_params 65001 65001 65004) EBGP 65004).
  - repeat constructor.
  - reflexivity.
  - discriminate.
  - vm_compute. reflexivity.
  - discriminate.
  - left. reflexivity.
Defined.

(** ** Where the code and its documentation part *)

(** AS numbers above 65535 count as private, so a path of public four-byte AS
    numbers is removed as a whole. *)
Lemma four_byte_asns_removed :
  removePrivateAsns [mkSegment [] [200000; 13335000] [] []] = [].
Proof. reflexivity. Qed.

(** Private AS numbers stay when one AS number is public. *)
Lemma private_asns_kept :
  removePrivateAsns [mkSegment [] [65001; 3356] [] []] = [mkSegment [] [65001; 3356] [] []].
Proof. reflexivity. Qed.

(** A path that starts with a set passes the check of the first AS. *)
Lemma first_as_set_accepted :
  validateEnforceFirstAs (setAsPath [mkSegment [64999] [] [] []] defaultPathFields) 65002 false = true.
Proof. reflexivity. Qed.

(** Only the lowest of all link bandwidths is kept, not one of each kind. *)
Lemma lower_kind_kept_only :
  pruneLbwExtCommunitiesCommon
    [mkExtCommunity 0x0004fde9 0x40000000; mkExtCommunity 0x4004fde9 0x3f800000]
  = [mkExtCommunity 0x4004fde9 0x3f800000].
Proof. vm_compute. reflexivity. Qed.
