(* ===== verification/PackingList.v ===== *)
(** * The packing list

    adjrib/AdjRibStructs.h ([AttrToPrefixMap]) and the end of AdjRibCommon.cpp: the
    prefixes that wait to be sent to a peer, grouped by the attributes they are
    announced with (no attributes: a withdrawal), and how they are taken from it.
    Paths kept in Adj-RIB entries are deduplicated (DeDuplicator.v), so the
    pointers in the keys stand for contents.  Addresses of aggregators and backup
    next hops are of their own family. *)

From stdpp Require Import gmap fin_maps strings.
From S2P Require Import Prelude BgpException Folly BgpStructs Nlri RouteFilter RouteInfo RibEntry.
From S2P Require Import DeDuplicator PathFields.

(** ** Keys *)

(** A structure is encoded as the list of its fields. *)
#[export] Instance BgpAttrAsPathSegment_countable : Countable BgpAttrAsPathSegment.
Proof.
  apply (inj_countable
    (fun r => [encode (asSet r); encode (asSequence r); encode (asConfedSequence r); encode
               (asConfedSet r)])
    (fun l => match l with
       | [x0; x1; x2; x3] =>
         x0 ← decode x0; x1 ← decode x1; x2 ← decode x2; x3 ← decode x3;
         Some (mkSegment x0 x1 x2 x3)
       | _ => None
       end)).
  intros []. by repeat (rewrite decode_encode; cbn [mbind option_bind]).
Defined.
#[export] Instance BgpAttrCommunity_countable : Countable BgpAttrCommunity.
Proof.
  apply (inj_countable
    (fun r => [encode (comm_asn r); encode (comm_value r)])
    (fun l => match l with
       | [x0; x1] =>
         x0 ← decode x0; x1 ← decode x1;
         Some (mkCommunity x0 x1)
       | _ => None
       end)).
  intros []. by repeat (rewrite decode_encode; cbn [mbind option_bind]).
Defined.
#[export] Instance BgpAttrExtCommunity_countable : Countable BgpAttrExtCommunity.
Proof.
  apply (inj_countable
    (fun r => [encode (firstWord r); encode (secondWord r)])
    (fun l => match l with
       | [x0; x1] =>
         x0 ← decode x0; x1 ← decode x1;
         Some (mkExtCommunity x0 x1)
       | _ => None
       end)).
  intros []. by repeat (rewrite decode_encode; cbn [mbind option_bind]).
Defined.
#[export] Instance BgpAttributesC_eq_dec : EqDecision BgpAttributesC.
Proof. solve_decision. Defined.
#[export] Instance BgpAttributesC_countable : Countable BgpAttributesC.
Proof.
  apply (inj_countable
    (fun r => [encode (ac_origin r); encode (ac_asPath r); encode (ac_med r); encode (ac_isMedSet r);
               encode (ac_localPref r); encode (ac_atomicAggregate r); encode
               (ac_aggregator r); encode (ac_communities r); encode (ac_originatorId r);
               encode (ac_clusterList r); encode (ac_extCommunities r); encode
               (ac_weight r)])
    (fun l => match l with
       | [x0; x1; x2; x3; x4; x5; x6; x7; x8; x9; x10; x11] =>
         x0 ← decode x0; x1 ← decode x1; x2 ← decode x2; x3 ← decode x3; x4 ← decode x4; x5 ←
         decode x5; x6 ← decode x6; x7 ← decode x7; x8 ← decode x8; x9 ← decode x9; x10
         ← decode x10; x11 ← decode x11;
         Some (mkAttributesC x0 x1 x2 x3 x4 x5 x6 x7 x8 x9 x10 x11)
       | _ => None
       end)).
  intros []. by repeat (rewrite decode_encode; cbn [mbind option_bind]).
Defined.
#[export] Instance BgpPathFields_eq_dec : EqDecision BgpPathFields.
Proof. solve_decision. Defined.
#[export] Instance BgpPathFields_countable : Countable BgpPathFields.
Proof.
  apply (inj_countable
    (fun r => [encode (pf_attrs r); encode (pf_nexthop r); encode (pf_topologyInfo r); encode
               (pf_backupAddr r)])
    (fun l => match l with
       | [x0; x1; x2; x3] =>
         x0 ← decode x0; x1 ← decode x1; x2 ← decode x2; x3 ← decode x3;
         Some (mkPathFields x0 x1 x2 x3)
       | _ => None
       end)).
  intros []. by repeat (rewrite decode_encode; cbn [mbind option_bind]).
Defined.

(** A prefix with the path id it is sent with. *)
Abbreviation PrefixPathId := (CIDRNetwork * Z)%type.

Record BgpPathWithAfi := mkPathWithAfi {
  wa_attrs : option BgpPathFields;
  wa_afi : Z;
  wa_isNexthopSetByPolicy : bool
}.
#[export] Instance BgpPathWithAfi_eq_dec : EqDecision BgpPathWithAfi.
Proof. solve_decision. Defined.
#[export] Instance BgpPathWithAfi_countable : Countable BgpPathWithAfi.
Proof.
  apply (inj_countable
    (fun r => [encode (wa_attrs r); encode (wa_afi r); encode (wa_isNexthopSetByPolicy r)])
    (fun l => match l with
       | [x0; x1; x2] =>
         x0 ← decode x0; x1 ← decode x1; x2 ← decode x2;
         Some (mkPathWithAfi x0 x1 x2)
       | _ => None
       end)).
  intros []. by repeat (rewrite decode_encode; cbn [mbind option_bind]).
Defined.

Abbreviation PrefixSet := (gset PrefixPathId).
Abbreviation AttrToPrefixMap := (gmap BgpPathWithAfi PrefixSet).

Definition afiOf (prefix : CIDRNetwork) : Z := if isV4 prefix.1 then AFI_IPv4 else AFI_IPv6.

(** ** Staging a change *)

(** The lambda [cleanupPrefixAssociationInPackingList]. *)
Definition cleanupPrefixAssociation (pp : PrefixPathId) (oldPath : option BgpPathFields)
    (isNexthopSetByPolicy : bool) (m : AttrToPrefixMap) : AttrToPrefixMap :=
  let oldPathKey := mkPathWithAfi oldPath (afiOf pp.1) isNexthopSetByPolicy in
  match m !! oldPathKey with
  | None => m
  | Some oldPfxSet =>
      let oldPfxSet := oldPfxSet ∖ {[pp]} in
      if decide (oldPfxSet = ∅) then delete oldPathKey m else <[oldPathKey := oldPfxSet]> m
  end.

Definition tryUpdateAttrToPrefixMapImpl (pp : PrefixPathId) (oldPath newPath : option BgpPathFields)
    (isNexthopSetByPolicy : bool) (m : AttrToPrefixMap) : AttrToPrefixMap :=
  let m := cleanupPrefixAssociation pp oldPath true m in
  let m := cleanupPrefixAssociation pp oldPath false m in
  let newPathKey := mkPathWithAfi newPath (afiOf pp.1) isNexthopSetByPolicy in
  match m !! newPathKey with
  | None => <[newPathKey := {[pp]}]> m
  | Some prefixes => <[newPathKey := {[pp]} ∪ prefixes]> m
  end.

(** ** Taking prefixes off *)

Definition kMaxSerializedChainLen : Z := 10.
Definition kApproxSerializedAttrLen : Z := 300.

Definition riggedPrefix (sendAddPath : bool) (pp : PrefixPathId) : RiggedIPPrefix :=
  mkRigged (toIPPrefix pp.1) [] (if sendAddPath then Some pp.2 else None).

(** [order] is the order in which the set is walked. *)
Definition packPrefixesCommon (order : list PrefixPathId) (sendAddPath : bool)
    (prefixPathIds : PrefixSet) : list RiggedIPPrefix * PrefixSet :=
  (riggedPrefix sendAddPath <$> order, ∅).

(** The 32-bit arithmetic of [prefixLimit]. *)
Definition prefixLimit (approximateSerializedAttrLen : Z) (sendAddPath v4 : bool) : Z :=
  uint 32
    (uint 32 (uint 32 (kMaxBgpMsgLen - kBgpMsgHeaderLen - approximateSerializedAttrLen)
              * kMaxSerializedChainLen)
     / getMaxPrefixLen sendAddPath v4).

Definition packPrefixesWithLimitCommon (approximateSerializedAttrLen : Z)
    (order : list PrefixPathId) (sendAddPath : bool) (prefixPathIds : PrefixSet)
    : list RiggedIPPrefix * PrefixSet :=
  match order with
  | [] => ([], prefixPathIds)
  | first :: _ =>
      let limit := prefixLimit approximateSerializedAttrLen sendAddPath (isV4 first.1.1) in
      let packed := take (Z.to_nat limit) order in
      (riggedPrefix sendAddPath <$> packed, prefixPathIds ∖ list_to_set packed)
  end.

(** ** What is pending *)

Definition pending (m : AttrToPrefixMap) (pp : PrefixPathId) (k : BgpPathWithAfi) : Prop :=
  exists s, m !! k = Some s /\ pp ∈ s.

Lemma cleanup_pending pp old f m pp' k :
  pending (cleanupPrefixAssociation pp old f m) pp' k <->
  pending m pp' k /\ ~ (pp' = pp /\ k = mkPathWithAfi old (afiOf pp.1) f).
Proof.
  unfold cleanupPrefixAssociation, pending. set (key := mkPathWithAfi _ _ _).
  destruct (m !! key) as [s|] eqn:E; [|naive_solver].
  destruct (decide (k = key)) as [->|Hk]; case_decide as Hs.
  - rewrite lookup_delete_eq. split; [naive_solver|].
    intros [(s' & ? & ?) ?]; simplify_eq. set_solver.
  - rewrite lookup_insert_eq, E. split; [|naive_solver set_solver].
    intros (s' & ? & ?); simplify_eq. split; [exists s|]; set_solver.
  - rewrite lookup_delete_ne by done. naive_solver.
  - rewrite lookup_insert_ne by done. naive_solver.
Qed.

(** Staging a change moves the prefix from the bucket of its old attributes,
    whatever the flag, into that of the new ones, and nothing else. *)
Lemma tryUpdate_pending pp old new f m pp' k :
  pending (tryUpdateAttrToPrefixMapImpl pp old new f m) pp' k <->
  (pp' = pp /\ k = mkPathWithAfi new (afiOf pp.1) f) \/
  (pending m pp' k /\ ~ (pp' = pp /\ wa_attrs k = old /\ wa_afi k = afiOf pp.1)).
Proof.
  unfold tryUpdateAttrToPrefixMapImpl.
  set (m' := cleanupPrefixAssociation pp old false (cleanupPrefixAssociation pp old true m)).
  assert (Hm : pending m' pp' k <->
      pending m pp' k /\ ~ (pp' = pp /\ wa_attrs k = old /\ wa_afi k = afiOf pp.1)).
  { unfold m'. rewrite !cleanup_pending. destruct k as [a i []]; naive_solver. }
  rewrite <- Hm. set (key := mkPathWithAfi new _ f). unfold pending.
  destruct (m' !! key) as [s|] eqn:E, (decide (k = key)) as [->|Hk].
  - rewrite lookup_insert_eq, E. split.
    + intros (? & [= <-] & [->%elem_of_singleton|?]%elem_of_union); eauto.
    + intros [[-> _]|(? & [= <-] & ?)]; eexists; (split; [done|]); set_solver.
  - rewrite lookup_insert_ne by done. naive_solver.
  - rewrite lookup_insert_eq, E. split.
    + intros (? & [= <-] & ->%elem_of_singleton); eauto.
    + intros [[-> _]|(? & [=] & _)]. eexists; split; [done|]. set_solver.
  - rewrite lookup_insert_ne by done. naive_solver.
Qed.

(** ** The invariant

    [post] says what was last decided for a prefix: every prefix waits in at most
    one bucket, which is that of its latest attributes, and no bucket is empty. *)
Record packingOk (post : PrefixPathId -> option BgpPathFields) (m : AttrToPrefixMap) : Prop := {
  packed_latest pp k : pending m pp k -> wa_attrs k = post pp /\ wa_afi k = afiOf pp.1;
  packed_once pp k k' : pending m pp k -> pending m pp k' -> k = k';
  packed_nonempty k s : m !! k = Some s -> s <> ∅
}.

Lemma packingOk_empty post : packingOk post ∅.
Proof. split; unfold pending; intros *; rewrite ?lookup_empty; naive_solver. Qed.

Lemma cleanup_nonempty pp old f m :
  (forall k s, m !! k = Some s -> s <> ∅) ->
  forall k s, cleanupPrefixAssociation pp old f m !! k = Some s -> s <> ∅.
Proof.
  intros Hm k s. unfold cleanupPrefixAssociation. set (key := mkPathWithAfi _ _ _).
  destruct (m !! key) as [s'|] eqn:E; [|eauto]. case_decide as Hs; intros H.
  - apply lookup_delete_Some in H as [_ H]. eauto.
  - apply lookup_insert_Some in H as [[_ <-]|[_ H]]; eauto.
Qed.

Lemma tryUpdate_nonempty pp old new f m :
  (forall k s, m !! k = Some s -> s <> ∅) ->
  forall k s, tryUpdateAttrToPrefixMapImpl pp old new f m !! k = Some s -> s <> ∅.
Proof.
  intros Hm k s. unfold tryUpdateAttrToPrefixMapImpl.
  set (m' := cleanupPrefixAssociation pp old false _).
  assert (H' : forall k s, m' !! k = Some s -> s <> ∅) by (do 2 apply cleanup_nonempty; done).
  destruct (m' !! _) as [s'|] eqn:E; intros H;
    apply lookup_insert_Some in H as [[_ <-]|[_ H]]; eauto; set_solver.
Qed.

Lemma packingOk_update post pp new f m :
  packingOk post m ->
  packingOk (fun x => if decide (x = pp) then new else post x)
    (tryUpdateAttrToPrefixMapImpl pp (post pp) new f m).
Proof.
  intros [H1 H2 H3]. split.
  - intros x k Hk. apply tryUpdate_pending in Hk as [[-> ->]|[Hk Hn]]; [by rewrite decide_True|].
    destruct (H1 _ _ Hk) as [Ha Hi]. case_decide; naive_solver.
  - intros x k k' Hk Hk'. apply tryUpdate_pending in Hk, Hk'.
    destruct Hk as [[-> ->]|[Hk Hn]], Hk' as [[Hx ->]|[Hk' Hn']]; simplify_eq; eauto.
    + destruct (H1 _ _ Hk'). naive_solver.
    + destruct (H1 _ _ Hk). naive_solver.
  - by apply tryUpdate_nonempty.
Qed.

(** The decisions may be given by any function that agrees with the old one on
    what is pending. *)
Lemma packingOk_ext post post' m :
  (forall pp k, pending m pp k -> post' pp = post pp) -> packingOk post m -> packingOk post' m.
Proof.
  intros He [H1 H2 H3]. split; [|done..]. intros pp k Hk. rewrite (He _ _ Hk). eauto.
Qed.
