(* ===== verification/AdjRibOut.v ===== *)
(** * The Adj-RIB-Out of a peer

    adjrib/AdjRibOut.cpp with PathIdGenerator.cpp, WellKnownCommunityFilter.cpp,
    LegacyV4NlriEncoding.cpp and the route filter of rib/RibPolicy.cpp, for a peer
    that is not in an update group.  Routes arrive from the RIB as announcements,
    withdrawals or changes of the shadow RIB; each is checked, run through the
    egress policy and the common export functions, kept in the entry of its prefix
    and path id, and staged on the packing list.  [sendBgpUpdates] turns buckets of
    the packing list into UPDATE messages.

    [None] is a failed [CHECK].  The order in which hash maps are walked, the clock
    and the paths the other peers account for are arguments; safe mode, logs and
    the coroutine's waiting are left out: between two iterations of the sending
    loop anything else may happen. *)

From stdpp Require Import gmap fin_maps strings.
From S2P Require Import Prelude BgpException Folly BgpStructs Nlri PathAttrs RouteFilter RouteInfo RibEntry Ucmp.
From S2P Require Import DeDuplicator PathFields PolicyEncoding PolicyAction PolicyMatch.
From S2P Require Import PolicyEngine PolicyEngineSpec PolicyTerm PolicyMask PolicyCache AdjRibCommon.
From S2P Require Import PackingList.

(** ** Path ids (PathIdGenerator.cpp) *)

Definition kDefaultPathID : Z := 0.

Record PathIdGenerator := mkPathIdGenerator {
  PathIdCache_ : gmap CIDRNetwork (gmap IPAddress Z);
  pathIdOption_ : gmap CIDRNetwork Z;
  gen_sendAddPath : bool
}.

Definition newPathIdGenerator (sendAddPath : bool) : PathIdGenerator :=
  mkPathIdGenerator ∅ ∅ sendAddPath.

Definition getPathId (prefix : CIDRNetwork) (nextHop : IPAddress) (g : PathIdGenerator)
    : Z * PathIdGenerator :=
  if negb (gen_sendAddPath g) then (kDefaultPathID, g)
  else
  let g := match PathIdCache_ g !! prefix with
           | None => mkPathIdGenerator (<[prefix := ∅]> (PathIdCache_ g))
                       (<[prefix := 0]> (pathIdOption_ g)) (gen_sendAddPath g)
           | Some _ => g
           end in
  let ids := default ∅ (PathIdCache_ g !! prefix) in
  match ids !! nextHop with
  | Some id => (id, g)
  | None =>
      let id := default 0 (pathIdOption_ g !! prefix) in
      (id, mkPathIdGenerator (<[prefix := <[nextHop := id]> ids]> (PathIdCache_ g))
             (<[prefix := uint 32 (id + 1)]> (pathIdOption_ g)) (gen_sendAddPath g))
  end.

Definition findPathId (prefix : CIDRNetwork) (nextHop : IPAddress) (g : PathIdGenerator) : option Z :=
  if negb (gen_sendAddPath g) then Some kDefaultPathID
  else ids ← PathIdCache_ g !! prefix; ids !! nextHop.

(** ** Filters *)

(** [RouteFilter] of rib/RibPolicy.h *)
Record RibRouteFilter `{PL : PrefixLibs} := mkRibRouteFilter {
  prefixTree_ : option PrefixTree;
  permissiveMode_ : option bool
}.

Definition applyFilter `{PL : PrefixLibs} (f : RibRouteFilter) (prefixes : list CIDRNetwork)
    : list CIDRNetwork * list CIDRNetwork :=
  match prefixTree_ f with
  | None => (prefixes, [])
  | Some t =>
      let allowed := List.filter (prefixTreeMatch t) prefixes in
      let rejected := List.filter (fun p => negb (prefixTreeMatch t p)) prefixes in
      if default false (permissiveMode_ f) then (prefixes, rejected) else (allowed, rejected)
  end.

Inductive RFC1997Community := NoAdvertise | NoExport | NoExportSubconfed.

Definition kReservedAsn : Z := 0xFFFF.
Definition kNoExport : Z := 0xFF01.
Definition kNoAdvertise : Z := 0xFF02.
Definition kNoExportSubconfed : Z := 0xFF03.

(** The loop over the communities: [None] is the early return. *)
Fixpoint scanWellKnown (cs : list BgpAttrCommunity) (hasNoExport hasNoExportSubconfed : bool)
    : option (bool * bool) :=
  match cs with
  | [] => Some (hasNoExport, hasNoExportSubconfed)
  | c :: cs =>
      if negb (comm_asn c =? kReservedAsn) then scanWellKnown cs hasNoExport hasNoExportSubconfed
      else if comm_value c =? kNoAdvertise then None
      else if comm_value c =? kNoExport then scanWellKnown cs true hasNoExportSubconfed
      else if comm_value c =? kNoExportSubconfed then scanWellKnown cs hasNoExport true
      else scanWellKnown cs hasNoExport hasNoExportSubconfed
  end.

Definition shouldSuppressByWellKnownCommunity (path : BgpPathFields) (sessionType : BgpSessionType)
    : option RFC1997Community :=
  match scanWellKnown (getCommunities path) false false with
  | None => Some NoAdvertise
  | Some (hasNoExport, hasNoExportSubconfed) =>
      match sessionType with
      | EBGP => if hasNoExportSubconfed then Some NoExportSubconfed
                else if hasNoExport then Some NoExport else None
      | ConfedEBGP => if hasNoExportSubconfed then Some NoExportSubconfed else None
      | IBGP => None
      end
  end.

Inductive V4EncodingDecision := ClassicNlri | DropRoute | MpReach.

Definition v4EncodingDecision (legacyV4NlriEncoding extNhEncodingCapable v4 : bool)
    (newNexthop : IPAddress) : V4EncodingDecision :=
  if negb v4 || negb legacyV4NlriEncoding || extNhEncodingCapable then MpReach
  else if isV6 newNexthop then DropRoute
  else ClassicNlri.

(** [IPAddress::isLoopback] and [IPAddress::empty] *)
Definition ip_isLoopback (ip : IPAddress) : bool :=
  match ip with
  | IPUnset => false
  | IPV4 o => match o with 127 :: _ => true | _ => false end
  | IPV6 o => bool_decide (o = repeat 0 15 ++ [1])
  end.
Definition ip_empty (ip : IPAddress) : bool := match ip with IPUnset => true | _ => false end.

(** ** Counters of a peer (AdjRibStats.cpp) *)

Record PrefixCount := mkPrefixCount { count_all : Z; count_ipv4 : Z; count_ipv6 : Z }.

Definition incrementPrefixCount (isIpv4 : bool) (c : PrefixCount) : PrefixCount :=
  if isIpv4
  then mkPrefixCount (uint 32 (count_all c + 1)) (uint 32 (count_ipv4 c + 1)) (count_ipv6 c)
  else mkPrefixCount (uint 32 (count_all c + 1)) (count_ipv4 c) (uint 32 (count_ipv6 c + 1)).
Definition decrementPrefixCount (isIpv4 : bool) (c : PrefixCount) : PrefixCount :=
  if count_all c =? 0 then c
  else if isIpv4
  then mkPrefixCount (uint 32 (count_all c - 1)) (uint 32 (count_ipv4 c - 1)) (count_ipv6 c)
  else mkPrefixCount (uint 32 (count_all c - 1)) (count_ipv4 c) (uint 32 (count_ipv6 c - 1)).

(** ** Messages *)

Inductive OutMessage :=
| OutBgpUpdate (update : BgpUpdate2)
| OutEndOfRib (afi : Z).

Definition emptyUpdate2 : BgpUpdate2 :=
  mkUpdate2 defaultAttributes (mkNlri 0 0 [] []) (mkNlri 0 0 [] []) [] [] [] [] [].

(** [htonl] on a little-endian host *)
Definition htonl (v : Z) : Z := le_decode (be_encode 4 v).

Section Messages.
Context `{F : FollyOps} `{RC : RibContext}.

(** [BgpPath::getBgpUpdate2] *)
Definition getBgpAttributes (p : BgpPathFields) : BgpAttributes :=
  let a := pf_attrs p in
  let str ip := if ip_empty ip then "" else ip_str ip in
  mkAttributes (ac_origin a) (ac_asPath a) (str (pf_nexthop p)) (pf_getMed p) (ac_localPref a)
    (ac_atomicAggregate a) (mkAggregator (ac_aggregator a).1 (str (ac_aggregator a).2))
    (ac_communities a) (htonl (ac_originatorId a)) (htonl <$> ac_clusterList a)
    (ac_extCommunities a) [] (ac_isMedSet a).
End Messages.

(** ** State *)

(** What a session fixes. *)
Record AdjRibSession `{PL : PrefixLibs} := mkAdjRibSession {
  peeringParams_ : PeeringConfig;
  remoteAs_ : Z;
  isAfiIpv4Negotiated_ : bool;
  isAfiIpv6Negotiated_ : bool;
  isV4OverV6NexthopNegotiated_ : bool;
  sendAddPath_ : bool;
  extNhEncodingCapable_ : bool;
  legacyV4NlriEncoding_ : bool;
  egressPolicyName_ : option string;
  egressFilter_ : option RibRouteFilter;
  sender_suppress_as_loop_ : bool;
  enable_well_known_community_filter : bool;
  outDelay_ : Z;
  total_path_limit : option Z
}.

(** [AdjRibEntry]; its path id is in the key of the entry. *)
Record AdjRibEntry := mkAdjRibEntry {
  preOut : option BgpPathFields;
  postAttr : option BgpPathFields;
  entry_isNexthopSetByPolicy : bool;
  postOutPolicy : string;
  entry_ribVersion : Z
}.
Definition newAdjRibEntry : AdjRibEntry := mkAdjRibEntry None None false "" 0.

Definition setPreOut (v : option BgpPathFields) (e : AdjRibEntry) : AdjRibEntry :=
  mkAdjRibEntry v (postAttr e) (entry_isNexthopSetByPolicy e) (postOutPolicy e) (entry_ribVersion e).
Definition setPostAttr (v : option BgpPathFields) (e : AdjRibEntry) : AdjRibEntry :=
  mkAdjRibEntry (preOut e) v (entry_isNexthopSetByPolicy e) (postOutPolicy e) (entry_ribVersion e).
Definition setNexthopSetByPolicy (v : bool) (e : AdjRibEntry) : AdjRibEntry :=
  mkAdjRibEntry (preOut e) (postAttr e) v (postOutPolicy e) (entry_ribVersion e).
Definition setPostOutPolicy (v : string) (e : AdjRibEntry) : AdjRibEntry :=
  mkAdjRibEntry (preOut e) (postAttr e) (entry_isNexthopSetByPolicy e) v (entry_ribVersion e).
Definition setRibVersion (v : Z) (e : AdjRibEntry) : AdjRibEntry :=
  mkAdjRibEntry (preOut e) (postAttr e) (entry_isNexthopSetByPolicy e) (postOutPolicy e) v.

Section Out.
Context `{F : FollyOps} `{L : PolicyLibs} `{PL : PrefixLibs} `{RC : RibContext}.
Context {ECM : EvictingCacheMap PolicyCacheMaskedKey PolicyCacheValue}.
Variable manager : PolicyManager.
Variable stale : PolicyCacheMaskedKey -> bool.
(** The address at which the action data of an update is created. *)
Variable dataOf : RibOutAnnouncementEntry -> nat.
Variable session : AdjRibSession.
Abbreviation params := (peeringParams_ session).

(** The tables: path ids, entries, packing list, policy cache and counters. *)
Record OutTables := mkOutTables {
  pathIdGenerator_ : PathIdGenerator;
  ribOut_ : gmap PrefixPathId AdjRibEntry;
  attrToPrefixMap_ : AttrToPrefixMap;
  policyCache_ : option AdjRibPolicyCache;
  preOutPrefixCount : PrefixCount;
  postOutPrefixCount : PrefixCount
}.

Definition set_entry (pp : PrefixPathId) (e : AdjRibEntry) (t : OutTables) : OutTables :=
  mkOutTables (pathIdGenerator_ t) (<[pp := e]> (ribOut_ t)) (attrToPrefixMap_ t) (policyCache_ t)
    (preOutPrefixCount t) (postOutPrefixCount t).
Definition set_policyCache (c : option AdjRibPolicyCache) (t : OutTables) : OutTables :=
  mkOutTables (pathIdGenerator_ t) (ribOut_ t) (attrToPrefixMap_ t) c (preOutPrefixCount t)
    (postOutPrefixCount t).
Definition set_pathIds (g : PathIdGenerator) (t : OutTables) : OutTables :=
  mkOutTables g (ribOut_ t) (attrToPrefixMap_ t) (policyCache_ t) (preOutPrefixCount t)
    (postOutPrefixCount t).
Definition set_preOutCount (f : PrefixCount -> PrefixCount) (t : OutTables) : OutTables :=
  mkOutTables (pathIdGenerator_ t) (ribOut_ t) (attrToPrefixMap_ t) (policyCache_ t)
    (f (preOutPrefixCount t)) (postOutPrefixCount t).
Definition set_postOutCount (f : PrefixCount -> PrefixCount) (t : OutTables) : OutTables :=
  mkOutTables (pathIdGenerator_ t) (ribOut_ t) (attrToPrefixMap_ t) (policyCache_ t)
    (preOutPrefixCount t) (f (postOutPrefixCount t)).

(** [tryUpdateAttrToPrefixMap] *)
Definition stage (pp : PrefixPathId) (oldPath newPath : option BgpPathFields)
    (isNexthopSetByPolicy : bool) (t : OutTables) : OutTables :=
  mkOutTables (pathIdGenerator_ t) (ribOut_ t)
    (tryUpdateAttrToPrefixMapImpl pp oldPath newPath isNexthopSetByPolicy (attrToPrefixMap_ t))
    (policyCache_ t) (preOutPrefixCount t) (postOutPrefixCount t).

(** ** Which routes go to the peer *)

(** [AdjRib::getBgpSessionType]: by the AS number of the session. *)
Definition sessionType : BgpSessionType :=
  if isConfedPeer params && negb (localAs params =? remoteAs_ session) then ConfedEBGP
  else if negb (localAs params =? remoteAs_ session) then EBGP
  else IBGP.

Definition canAnnounce (update : RibOutAnnouncementEntry) : bool :=
  let peer := out_peer update in
  if ip_equal (peer_addr peer) (peerAddr params) &&
     (negb (ip_isLoopback (peerAddr params)) || negb (allowLoopbackReflection params))
  then false
  else match sessionType with
       | IBGP =>
           isRrClient params || negb (bool_decide (peer_sessionType peer = IBGP)) ||
           ip_isZero (peer_addr peer) || peer_isRrClient peer
       | _ => true
       end.

Definition suppressLoopedAdvertisements (attrs : BgpPathFields) : bool :=
  match sessionType with
  | IBGP => false
  | _ =>
      existsb (fun seg =>
        if isConfedPeer params
        then existsb (Z.eqb (remoteAs_ session)) (asConfedSequence seg) ||
             existsb (Z.eqb (remoteAs_ session)) (asConfedSet seg)
        else existsb (Z.eqb (remoteAs_ session)) (asSet seg) ||
             existsb (Z.eqb (remoteAs_ session)) (asSequence seg)) (getAsPath attrs)
  end.

Definition canAnnounceEntry (update : RibOutAnnouncementEntry) : bool :=
  canAnnounce update &&
  negb (sender_suppress_as_loop_ session && suppressLoopedAdvertisements (out_attrs update)) &&
  negb (enable_well_known_community_filter session &&
        bool_decide (is_Some (shouldSuppressByWellKnownCommunity (out_attrs update) sessionType))).

Definition afiNegotiated (prefix : CIDRNetwork) : bool :=
  isAfiNegotiated prefix (isAfiIpv4Negotiated_ session) (isAfiIpv6Negotiated_ session).

Definition isNexthopSupported (prefix : CIDRNetwork) (nexthop : IPAddress) : bool :=
  (isV4 prefix.1 && isV4 nexthop) || (isV6 prefix.1 && isV6 nexthop) ||
  (isV4OverV6NexthopNegotiated_ session && isV4 prefix.1 && isV6 nexthop).

(** ** Next hop *)

Definition shouldApplyNexthopSelf (postOutAttrs : BgpPathFields) (isNexthopSetByPolicy : bool) : bool :=
  if ip_isZero (pf_nexthop postOutAttrs) then true
  else if isNexthopSetByPolicy then false
  else bool_decide (sessionType = EBGP) || nextHopSelf params.

Definition getNewNexthopFromAttributesOut (isV4Prefix : bool) (postOutAttrs : BgpPathFields)
    (isNexthopSetByPolicy : bool) : IPAddress :=
  let bgpId := be_encode 4 (localBgpId params) in
  if shouldApplyNexthopSelf postOutAttrs isNexthopSetByPolicy then
    if negb (isV4OverV6NexthopNegotiated_ session) && isV4Prefix
    then if ip_isZero (nexthopV4 params) then IPV4 bgpId else nexthopV4 params
    else if ip_isZero (nexthopV6 params) then IPV6 (v4mapped bgpId) else nexthopV6 params
  else pf_nexthop postOutAttrs.

(** ** Policy *)

Definition blockedByEgressRouteFilter (update : RibOutAnnouncementEntry) : bool :=
  match egressFilter_ session with
  | None => false
  | Some f => negb (nonempty (applyFilter f [out_prefix update]).1)
  end.

(** Attributes, term name if a policy is configured, the flags, and the cache. *)
Definition getPostOutPolicyAttributesAndInfo (update : RibOutAnnouncementEntry)
    (prePolicyAttrs : BgpPathFields) (e : AdjRibEntry) (policyCache : option AdjRibPolicyCache)
    : option (option BgpPathFields * (bool * bool) * AdjRibEntry * option AdjRibPolicyCache) :=
  '(attrs, info, e, policyCache) ←
    (match egressPolicyName_ session with
     | None => Some (Some prePolicyAttrs, (false, false), e, policyCache)
     | Some name =>
         let data := createPolicyActionDataCommon params (out_attrs update) (out_switchId update)
                       (out_multiPathSize update) (out_aggregateReceivedUcmpWeight update)
                       (out_aggregateLocalUcmpWeight update) (out_ribPolicyUcmpWeight update) in
         '(attrs, term, info, _, policyCache) ←
           getPostPolicyAttributesPolicyTermAndInfo manager stale policyCache name
             (out_prefix update) prePolicyAttrs (dataOf update) data (out_isPartialDrain update);
         Some (attrs, info, setPostOutPolicy term e, policyCache)
     end);
  match attrs with
  | Some _ =>
      if blockedByEgressRouteFilter update
      then Some (None, info, setPostOutPolicy "Denied by CRF" e, policyCache)
      else Some (attrs, info, e, policyCache)
  | None => Some (None, info, e, policyCache)
  end.

(** ** Announcements *)

(** [others] are the paths the other peers account for. *)
Definition willExceedEgressSwitchLimit (others : Z) (t : OutTables) : bool :=
  match total_path_limit session with
  | None => false
  | Some limit => limit <? uint 32 (others + count_all (postOutPrefixCount t) + 1)
  end.

Definition isLocalRoute (update : RibOutAnnouncementEntry) : bool := ip_isZero (peer_addr (out_peer update)).

(** The path id of the entry for the update, with a new entry if there was none;
    [None] if the limit refuses it. *)
Definition tryInsertRibOutEntry (others : Z) (update : RibOutAnnouncementEntry) (t : OutTables)
    : option Z * OutTables :=
  let prefix := out_prefix update in
  let nexthop := pf_nexthop (out_attrs update) in
  let resolvedPathId := findPathId prefix nexthop (pathIdGenerator_ t) in
  match resolvedPathId ≫= (fun id => ribOut_ t !! (prefix, id)) with
  | Some _ => (resolvedPathId, t)
  | None =>
      if willExceedEgressSwitchLimit others t && negb (isLocalRoute update) then (None, t)
      else
      let t := set_preOutCount (incrementPrefixCount (isV4 prefix.1)) t in
      let '(pathId, t) :=
        match resolvedPathId with
        | Some id => (id, t)
        | None => let '(id, g) := getPathId prefix nexthop (pathIdGenerator_ t) in (id, set_pathIds g t)
        end in
      (Some pathId, set_entry (prefix, pathId) newAdjRibEntry t)
  end.

(** The prefix is withdrawn from the peer if it was announced; [e] is its entry. *)
Definition tryInsertWithdrawal (pp : PrefixPathId) (e : AdjRibEntry) (t : OutTables) : OutTables :=
  match postAttr e with
  | Some old =>
      let t := set_postOutCount (decrementPrefixCount (isV4 pp.1.1)) t in
      stage pp (Some old) None false (set_entry pp (setPostAttr None e) t)
  | None => set_entry pp e t
  end.

(** The prefix is announced with [postOutAttrsNew], unless it already is. *)
Definition tryInsertAnnouncement (rrDumpInProgress : bool) (pp : PrefixPathId) (e : AdjRibEntry)
    (wasNexthopSetByPolicy : bool) (postOutAttrsNew : BgpPathFields) (t : OutTables) : OutTables :=
  if negb rrDumpInProgress && bool_decide (postAttr e = Some postOutAttrsNew) &&
     Bool.eqb wasNexthopSetByPolicy (entry_isNexthopSetByPolicy e)
  then set_entry pp e t
  else
  let t := match postAttr e with
           | Some _ => t
           | None => set_postOutCount (incrementPrefixCount (isV4 pp.1.1)) t
           end in
  stage pp (postAttr e) (Some postOutAttrsNew) (entry_isNexthopSetByPolicy e)
    (set_entry pp (setPostAttr (Some postOutAttrsNew) e) t).

Definition processRibAnnouncedEntry (rrDumpInProgress : bool) (others : Z)
    (update : RibOutAnnouncementEntry) (t : OutTables) : option OutTables :=
  let prefix := out_prefix update in
  match tryInsertRibOutEntry others update t with
  | (None, t) => Some t
  | (Some pathId, t) =>
      let pp := (prefix, pathId) in
      e ← ribOut_ t !! pp;
      let e := setRibVersion (out_ribVersion update) (setPreOut (Some (out_attrs update)) e) in
      let prePolicyAttrs :=
        if out_isPartialDrain update then applyPartialDrainCommunities (out_attrs update)
        else out_attrs update in
      prePolicyAttrs ← updateAdvertiseLbwExtCommunityCommon params update prePolicyAttrs;
      '(policyCachedAttrs, (isMed, isNexthop), e, policyCache) ←
        getPostOutPolicyAttributesAndInfo update prePolicyAttrs e (policyCache_ t);
      let t := set_policyCache policyCache t in
      let wasNexthopSetByPolicy := entry_isNexthopSetByPolicy e in
      let e := setNexthopSetByPolicy isNexthop e in
      match policyCachedAttrs with
      | None => Some (tryInsertWithdrawal pp e t)
      | Some policyCachedAttrs =>
          let newNexthop := getNewNexthopFromAttributesOut (isV4 prefix.1) policyCachedAttrs isNexthop in
          if negb (ip_empty newNexthop) && negb (isNexthopSupported prefix newNexthop)
          then Some (set_entry pp e t)
          else
          let mask := egressPolicyName_ session ≫= getPolicyAttributesMask manager in
          let postOutAttrsNew :=
            updateAttributesOutWithoutNexthopCommon params sessionType mask update policyCachedAttrs
              isMed prePolicyAttrs in
          Some (tryInsertAnnouncement rrDumpInProgress pp e wasNexthopSetByPolicy postOutAttrsNew t)
      end
  end.

(** ** Withdrawals *)

Definition tryDeleteRibOutEntry (pp : PrefixPathId) (t : OutTables) : OutTables :=
  match ribOut_ t !! pp with
  | Some (mkAdjRibEntry None None _ _ _) =>
      mkOutTables (pathIdGenerator_ t) (delete pp (ribOut_ t)) (attrToPrefixMap_ t)
        (policyCache_ t) (preOutPrefixCount t) (postOutPrefixCount t)
  | _ => t
  end.

(** The part of [processRibWithdraw] on the entry. *)
Definition withdrawEntry (pp : PrefixPathId) (t : OutTables) : OutTables :=
  match ribOut_ t !! pp with
  | Some e =>
      match preOut e with
      | None => t
      | Some _ =>
          let e := setPostOutPolicy "" (setPreOut None e) in
          let t := set_preOutCount (decrementPrefixCount (isV4 pp.1.1)) t in
          tryDeleteRibOutEntry pp (tryInsertWithdrawal pp e t)
      end
  | None => t
  end.

(** ** The Adj-RIB-Out *)

Record AdjRibOut := mkAdjRibOut {
  tables : OutTables;
  deferredUpdates_ : gmap CIDRNetwork RibOutAnnouncementEntry;
  newDeferredPrefixes_ : list CIDRNetwork;
  (** by expiry, the earliest first *)
  outDelayPQ_ : list (Z * list CIDRNetwork);
  egressEoRsSent_ : bool;
  egressEoRPendingV4 : bool;
  egressEoRPendingV6 : bool;
  rrDumpInProgress_ : bool;
  lastSeenRibVersion_ : Z;
  adjRibOutQueue_ : list OutMessage
}.

Definition set_tables (t : OutTables) (a : AdjRibOut) : AdjRibOut :=
  mkAdjRibOut t (deferredUpdates_ a) (newDeferredPrefixes_ a) (outDelayPQ_ a) (egressEoRsSent_ a)
    (egressEoRPendingV4 a) (egressEoRPendingV6 a) (rrDumpInProgress_ a) (lastSeenRibVersion_ a)
    (adjRibOutQueue_ a).
Definition set_deferred (d : gmap CIDRNetwork RibOutAnnouncementEntry) (a : AdjRibOut) : AdjRibOut :=
  mkAdjRibOut (tables a) d (newDeferredPrefixes_ a) (outDelayPQ_ a) (egressEoRsSent_ a)
    (egressEoRPendingV4 a) (egressEoRPendingV6 a) (rrDumpInProgress_ a) (lastSeenRibVersion_ a)
    (adjRibOutQueue_ a).
Definition set_outDelay (new : list CIDRNetwork) (pq : list (Z * list CIDRNetwork)) (a : AdjRibOut)
    : AdjRibOut :=
  mkAdjRibOut (tables a) (deferredUpdates_ a) new pq (egressEoRsSent_ a)
    (egressEoRPendingV4 a) (egressEoRPendingV6 a) (rrDumpInProgress_ a) (lastSeenRibVersion_ a)
    (adjRibOutQueue_ a).
Definition setEgressEoRsPending (v4Pending v6Pending : bool) (a : AdjRibOut) : AdjRibOut :=
  mkAdjRibOut (tables a) (deferredUpdates_ a) (newDeferredPrefixes_ a) (outDelayPQ_ a)
    (egressEoRsSent_ a) v4Pending v6Pending (rrDumpInProgress_ a) (lastSeenRibVersion_ a)
    (adjRibOutQueue_ a).
Definition set_rrDump (b : bool) (a : AdjRibOut) : AdjRibOut :=
  mkAdjRibOut (tables a) (deferredUpdates_ a) (newDeferredPrefixes_ a) (outDelayPQ_ a)
    (egressEoRsSent_ a) (egressEoRPendingV4 a) (egressEoRPendingV6 a) b (lastSeenRibVersion_ a)
    (adjRibOutQueue_ a).
(** The greatest version the peer has consumed. *)
Definition setLastSeenRibVersion (v : Z) (a : AdjRibOut) : AdjRibOut :=
  mkAdjRibOut (tables a) (deferredUpdates_ a) (newDeferredPrefixes_ a) (outDelayPQ_ a)
    (egressEoRsSent_ a) (egressEoRPendingV4 a) (egressEoRPendingV6 a) (rrDumpInProgress_ a)
    (if lastSeenRibVersion_ a <? v then v else lastSeenRibVersion_ a) (adjRibOutQueue_ a).
Definition pushMessage (m : OutMessage) (a : AdjRibOut) : AdjRibOut :=
  mkAdjRibOut (tables a) (deferredUpdates_ a) (newDeferredPrefixes_ a) (outDelayPQ_ a)
    (egressEoRsSent_ a) (egressEoRPendingV4 a) (egressEoRPendingV6 a) (rrDumpInProgress_ a)
    (lastSeenRibVersion_ a) (adjRibOutQueue_ a ++ [m]).

Definition announceEntry (others : Z) (update : RibOutAnnouncementEntry) (a : AdjRibOut)
    : option AdjRibOut :=
  t ← processRibAnnouncedEntry (rrDumpInProgress_ a) others update (tables a);
  Some (set_tables t a).

Definition processRibWithdraw (prefix : CIDRNetwork) (pathId : Z) (a : AdjRibOut) : AdjRibOut :=
  if negb (afiNegotiated prefix) then a
  else
  let a := set_deferred (delete prefix (deferredUpdates_ a)) a in
  set_tables (withdrawEntry (prefix, pathId) (tables a)) a.

(** [handleImplicitWithdrawal]; the other callers of [processRibWithdraw] take the
    path id in the same way. *)
Definition handleImplicitWithdrawal (prefix : CIDRNetwork) (nextHop : IPAddress) (a : AdjRibOut)
    : AdjRibOut :=
  let '(pathId, g) := getPathId prefix nextHop (pathIdGenerator_ (tables a)) in
  processRibWithdraw prefix pathId (set_tables (set_pathIds g (tables a)) a).

(** ** Out-delay *)

(** Whether the update is deferred, and whether its prefix is a new one. *)
Definition processOutDelay (now : Z) (update : RibOutAnnouncementEntry) (a : AdjRibOut)
    : (bool * bool) * AdjRibOut :=
  if outDelay_ session =? 0 then ((false, false), a)
  else match deferredUpdates_ a !! out_prefix update with
       | Some _ => ((true, false), set_deferred (<[out_prefix update := update]> (deferredUpdates_ a)) a)
       | None =>
           if (now - out_installTimeStamp update - outDelay_ session <=? 0) ||
              out_newlyInstalledInLocalRib update
           then ((true, true), set_deferred (<[out_prefix update := update]> (deferredUpdates_ a)) a)
           else ((false, false), a)
       end.

Fixpoint insertDelay (x : Z * list CIDRNetwork) (pq : list (Z * list CIDRNetwork)) :=
  match pq with
  | [] => [x]
  | y :: pq' => if x.1 <? y.1 then x :: pq else y :: insertDelay x pq'
  end.

Definition scheduleOutDelayTimer (now : Z) (a : AdjRibOut) : AdjRibOut :=
  match newDeferredPrefixes_ a with
  | [] => a
  | new => set_outDelay [] (insertDelay (now + outDelay_ session, new) (outDelayPQ_ a)) a
  end.

(** The deferred prefixes of one expired entry. *)
Fixpoint processDeferred (others : Z) (prefixes : list CIDRNetwork) (a : AdjRibOut) : option AdjRibOut :=
  match prefixes with
  | [] => Some a
  | pfx :: prefixes =>
      match deferredUpdates_ a !! pfx with
      | None => processDeferred others prefixes a
      | Some update =>
          a ← announceEntry others update a;
          processDeferred others prefixes (set_deferred (delete pfx (deferredUpdates_ a)) a)
      end
  end.

Definition kMsgBatchSizeToYield : nat := 10.

(** [budget] entries are left of the batch. *)
Fixpoint expireDelays (budget : nat) (now others : Z) (a : AdjRibOut) : option AdjRibOut :=
  match budget, outDelayPQ_ a with
  | S budget, (expiry, prefixes) :: rest =>
      if now <? expiry then Some a
      else
      a ← processDeferred others prefixes a;
      expireDelays budget now others (set_outDelay (newDeferredPrefixes_ a) rest a)
  | _, _ => Some a
  end.
Definition programOutDelayTimer := expireDelays kMsgBatchSizeToYield.

(** ** Messages from the RIB *)

Definition handleRibAnnouncedEntry (now others : Z) (initialDump : bool)
    (entry : RibOutAnnouncementEntry) (a : AdjRibOut) : option AdjRibOut :=
  if negb (afiNegotiated (out_prefix entry)) then Some a
  else if negb (canAnnounceEntry entry)
  then Some (handleImplicitWithdrawal (out_prefix entry) (pf_nexthop (out_attrs entry)) a)
  else
  let '((outDelay, newEntryDeferred), a) :=
    if initialDump then ((false, false), a) else processOutDelay now entry a in
  a ← (if negb outDelay then announceEntry others entry a
       else Some (if newEntryDeferred
                  then set_outDelay (newDeferredPrefixes_ a ++ [out_prefix entry]) (outDelayPQ_ a) a
                  else a));
  Some (setLastSeenRibVersion (out_ribVersion entry) a).

Fixpoint handleRibAnnouncedEntries (now others : Z) (initialDump : bool)
    (entries : list RibOutAnnouncementEntry) (a : AdjRibOut) : option AdjRibOut :=
  match entries with
  | [] => Some a
  | e :: entries =>
      a ← handleRibAnnouncedEntry now others initialDump e a;
      handleRibAnnouncedEntries now others initialDump entries a
  end.

Record RibOutAnnouncement := mkRibOutAnnouncement {
  ann_entries : list RibOutAnnouncementEntry;
  ann_addPathEntries : list RibOutAnnouncementEntry;
  ann_sendWithEoR : bool;
  ann_initialDump : bool;
  ann_routeRefreshAfi : option Z
}.

Definition markEgressEoRsPendingFor (m : RibOutAnnouncement) (a : AdjRibOut) : AdjRibOut :=
  let v4 := isAfiIpv4Negotiated_ session in
  let v6 := isAfiIpv6Negotiated_ session in
  if negb (ann_sendWithEoR m) then a
  else if bool_decide (ann_routeRefreshAfi m = Some AFI_IPv4)
  then setEgressEoRsPending v4 (egressEoRPendingV6 a) a
  else if bool_decide (ann_routeRefreshAfi m = Some AFI_IPv6)
  then setEgressEoRsPending (egressEoRPendingV4 a) v6 a
  else setEgressEoRsPending v4 v6 a.

Definition maybeBeginRrDump (m : RibOutAnnouncement) (a : AdjRibOut) : AdjRibOut :=
  match ann_routeRefreshAfi m with Some _ => set_rrDump true a | None => a end.
(** The run of the change list consumer at the end of a dump is a sequence of
    [processShadowRibEntryChange]. *)
Definition maybeEndRrDump (m : RibOutAnnouncement) (a : AdjRibOut) : AdjRibOut :=
  match ann_routeRefreshAfi m with
  | Some _ => if ann_sendWithEoR m then set_rrDump false a else a
  | None => a
  end.

Definition processRibOutAnnouncement (now others : Z) (m : RibOutAnnouncement) (a : AdjRibOut)
    : option AdjRibOut :=
  if negb (egressEoRsSent_ a) && negb (ann_initialDump m) then Some a
  else
  let a := maybeBeginRrDump m a in
  a ← handleRibAnnouncedEntries now others (ann_initialDump m)
        (if sendAddPath_ session then ann_addPathEntries m else ann_entries m) a;
  let a := markEgressEoRsPendingFor m (scheduleOutDelayTimer now a) in
  Some (maybeEndRrDump m a).

(** [RibOutWithdrawal]; an entry has a prefix, a next hop and a RIB version. *)
Record RibOutWithdrawal := mkRibOutWithdrawal {
  wd_entries : list (CIDRNetwork * option IPAddress * Z);
  wd_addPathEntries : list (CIDRNetwork * option IPAddress * Z)
}.

Definition processRibOutWithdrawal (w : RibOutWithdrawal) (a : AdjRibOut) : AdjRibOut :=
  if negb (egressEoRsSent_ a) then a
  else fold_left (fun a '(prefix, nh, ribVersion) =>
         setLastSeenRibVersion ribVersion
           (handleImplicitWithdrawal prefix (default IPUnset nh) a))
         (if sendAddPath_ session then wd_addPathEntries w else wd_entries w) a.

(** *** Changes of the shadow RIB *)

Record ShadowRibRouteInfo := mkShadowRoute {
  sr_peer : TinyPeerInfo;
  sr_attrs : option BgpPathFields;
  sr_inUpdate : bool;
  sr_inWithdraw : bool;
  sr_isPartialDrain : bool
}.

Record ShadowRibEntry := mkShadowRibEntry {
  sre_prefix : CIDRNetwork;
  sre_bestpath : option ShadowRibRouteInfo;
  sre_multipaths : list ShadowRibRouteInfo;
  sre_switchId : option Z;
  sre_multiPathSize : option Z;
  sre_aggregateReceivedUcmpWeight : option Z;
  sre_aggregateLocalUcmpWeight : option Z;
  sre_ribPolicyUcmpWeight : option Z;
  sre_newlyInstalledInLocalRib : bool;
  sre_installTimeStamp : Z;
  sre_ribVersion : Z
}.

(** The announcement of one path of the entry *)
Definition shadowAnnouncement (s : ShadowRibEntry) (r : ShadowRibRouteInfo) (attrs : BgpPathFields)
    : RibOutAnnouncementEntry :=
  mkRibOutEntry (sre_prefix s) (sr_peer r) attrs (sre_switchId s) (sre_multiPathSize s)
    (sre_aggregateReceivedUcmpWeight s) (sre_aggregateLocalUcmpWeight s)
    (sre_ribPolicyUcmpWeight s) (sre_newlyInstalledInLocalRib s) (sre_installTimeStamp s)
    (sre_ribVersion s) (sr_isPartialDrain r).

(** One path of the entry; a path to announce has attributes. *)
Definition processShadowRibRoute (now others : Z) (s : ShadowRibEntry) (r : ShadowRibRouteInfo)
    (a : AdjRibOut) : option AdjRibOut :=
  if sr_inUpdate r then
    attrs ← sr_attrs r;
    handleRibAnnouncedEntry now others false (shadowAnnouncement s r attrs) a
  else if sr_inWithdraw r then
    Some (match sr_attrs r with
          | Some attrs => handleImplicitWithdrawal (sre_prefix s) (pf_nexthop attrs) a
          | None => a
          end)
  else Some a.

Fixpoint processShadowRibRoutes (now others : Z) (s : ShadowRibEntry) (rs : list ShadowRibRouteInfo)
    (a : AdjRibOut) : option AdjRibOut :=
  match rs with
  | [] => Some a
  | r :: rs => a ← processShadowRibRoute now others s r a; processShadowRibRoutes now others s rs a
  end.

Definition processShadowRibEntryChange (now others : Z) (s : ShadowRibEntry) (a : AdjRibOut)
    : option AdjRibOut :=
  if negb (egressEoRsSent_ a) then Some a
  else
  let a := setLastSeenRibVersion (sre_ribVersion s) a in
  if sendAddPath_ session then processShadowRibRoutes now others s (sre_multipaths s) a
  else match sre_bestpath s with
       | None => Some a
       | Some r => processShadowRibRoute now others s r a
       end.

(** ** Sending *)

Definition announcedUpdate (k : BgpPathWithAfi) (attrs : BgpPathFields) : BgpUpdate2 * IPAddress :=
  let newNexthop :=
    getNewNexthopFromAttributesOut (wa_afi k =? AFI_IPv4) attrs (wa_isNexthopSetByPolicy k) in
  (mkUpdate2 (PathAttrs.set_nexthop (ip_str newNexthop) (getBgpAttributes attrs)) (mkNlri 0 0 [] [])
     (mkNlri 0 0 [] []) [] [] [] [] [], newNexthop).

(** [order] is the order in which the set of prefixes is walked.  The update, if
    one is built, and the prefixes left. *)
Definition buildUpdateWithSizeEstimation (k : BgpPathWithAfi) (order : list PrefixPathId)
    (prefixPathIds : PrefixSet) : option BgpUpdate2 * PrefixSet :=
  if decide (prefixPathIds = ∅) then (None, prefixPathIds)
  else
  let pack len := packPrefixesWithLimitCommon len order (sendAddPath_ session) prefixPathIds in
  match wa_attrs k with
  | Some attrs =>
      let '(u, newNexthop) := announcedUpdate k attrs in
      match v4EncodingDecision (legacyV4NlriEncoding_ session) (extNhEncodingCapable_ session)
              (wa_afi k =? AFI_IPv4) newNexthop with
      | ClassicNlri =>
          let '(ps, rest) := pack kApproxSerializedAttrLen in
          (Some (mkUpdate2 (u_attrs u) (u_mpAnnounced u) (u_mpWithdrawn u) (u_v4Announced u)
                   (u_v4Withdrawn u) (toBinaryAddress newNexthop) ps (u_v4Withdrawn2 u)), rest)
      | DropRoute => (None, ∅)
      | MpReach =>
          let '(ps, rest) := pack kApproxSerializedAttrLen in
          (Some (mkUpdate2 (u_attrs u)
                   (mkNlri (wa_afi k) SAFI_UNICAST ps (toBinaryAddress newNexthop))
                   (u_mpWithdrawn u) (u_v4Announced u) (u_v4Withdrawn u) (u_v4Nexthop u)
                   (u_v4Announced2 u) (u_v4Withdrawn2 u)), rest)
      end
  | None =>
      let u := emptyUpdate2 in
      if wa_afi k =? AFI_IPv4 then
        let '(ps, rest) := pack 0 in
        (Some (mkUpdate2 (u_attrs u) (u_mpAnnounced u) (u_mpWithdrawn u) (u_v4Announced u)
                 (u_v4Withdrawn u) (u_v4Nexthop u) (u_v4Announced2 u) ps), rest)
      else if wa_afi k =? AFI_IPv6 then
        let '(ps, rest) := pack 0 in
        (Some (mkUpdate2 (u_attrs u) (u_mpAnnounced u) (mkNlri AFI_IPv6 SAFI_UNICAST ps [])
                 (u_v4Announced u) (u_v4Withdrawn u) (u_v4Nexthop u) (u_v4Announced2 u)
                 (u_v4Withdrawn2 u)), rest)
      else (Some u, prefixPathIds)
  end.

(** One iteration of the loop of [sendBgpUpdates], on the bucket the packing list
    starts with. *)
Definition sendOneUpdate (k : BgpPathWithAfi) (order : list PrefixPathId) (a : AdjRibOut) : AdjRibOut :=
  let t := tables a in
  match attrToPrefixMap_ t !! k with
  | None => a
  | Some pfxSet =>
      let '(update, pfxSet) := buildUpdateWithSizeEstimation k order pfxSet in
      let a := match update with Some u => pushMessage (OutBgpUpdate u) a | None => a end in
      let m := if decide (pfxSet = ∅) then delete k (attrToPrefixMap_ t)
               else <[k := pfxSet]> (attrToPrefixMap_ t) in
      set_tables (mkOutTables (pathIdGenerator_ t) (ribOut_ t) m (policyCache_ t)
                    (preOutPrefixCount t) (postOutPrefixCount t)) a
  end.

(** [onEgressEoRSent]; the peer manager is told once. *)
Definition onEgressEoRSent (a : AdjRibOut) : AdjRibOut :=
  mkAdjRibOut (tables a) (deferredUpdates_ a) (newDeferredPrefixes_ a) (outDelayPQ_ a) true
    (egressEoRPendingV4 a) (egressEoRPendingV6 a) (rrDumpInProgress_ a) (lastSeenRibVersion_ a)
    (adjRibOutQueue_ a).

Definition sendPendingEoRs (a : AdjRibOut) : AdjRibOut :=
  let a := if egressEoRPendingV4 a
           then setEgressEoRsPending false (egressEoRPendingV6 a) (pushMessage (OutEndOfRib AFI_IPv4) a)
           else a in
  let a := if egressEoRPendingV6 a
           then setEgressEoRsPending (egressEoRPendingV4 a) false (pushMessage (OutEndOfRib AFI_IPv6) a)
           else a in
  onEgressEoRSent a.

(** How the hash containers are walked: the bucket a non-empty map starts with, and
    the order of a set. *)
Class HashOrder := {
  map_begin : AttrToPrefixMap -> option BgpPathWithAfi;
  set_walk : PrefixSet -> list PrefixPathId
}.

(** [sendBgpUpdates] while the queue takes messages. *)
Fixpoint sendLoop `{HashOrder} (fuel : nat) (a : AdjRibOut) : option AdjRibOut :=
  match map_begin (attrToPrefixMap_ (tables a)) with
  | None => Some a
  | Some k =>
      match fuel with
      | O => None
      | S fuel =>
          let order := set_walk (default ∅ (attrToPrefixMap_ (tables a) !! k)) in
          sendLoop fuel (sendOneUpdate k order a)
      end
  end.
Definition sendBgpUpdates `{HashOrder} (fuel : nat) (a : AdjRibOut) : option AdjRibOut :=
  a ← sendLoop fuel a;
  Some (if egressEoRPendingV4 a || egressEoRPendingV6 a then sendPendingEoRs a else a).
End Out.
