(* ===== verification/AdjRibOutInv.v ===== *)
(** * The Adj-RIB-Out and its peer: the invariant

    What the operations of AdjRibOut.v keep, in whatever order messages of the RIB,
    changes of the shadow RIB, timers and the sending of updates happen.  Every
    operation is a sequence of small steps on the tables ([tstep]); the invariant
    [inv] relates the tables to what the peer made of the messages sent
    ([peerView]). *)

From stdpp Require Import gmap fin_maps relations strings.
From S2P Require Import Prelude BgpException Folly BgpStructs Nlri PathAttrs RouteFilter RouteInfo RibEntry Ucmp.
From S2P Require Import DeDuplicator PathFields PolicyEncoding PolicyAction PolicyMatch.
From S2P Require Import PolicyEngine PolicyTerm PolicyMask PolicyCache AdjRibCommon.
From S2P Require Import PackingList AdjRibOut.

(** ** What the peer has *)

(** Family, address, length and path id of a prefix on the wire. *)
Abbreviation PeerKey := (bool * bytes * Z * option Z)%type.
Abbreviation View := (gmap PeerKey (BgpAttributes * bytes)).

Definition rigKey (v4 : bool) (rp : RiggedIPPrefix) : PeerKey :=
  (v4, prefixAddress (rig_prefix rp), prefixLength (rig_prefix rp), rig_pathId rp).

Definition announceAll (keys : list PeerKey) (v : BgpAttributes * bytes)
    (m : View) : View :=
  fold_left (fun m k => <[k := v]> m) keys m.
Definition withdrawAll (keys : list PeerKey) (m : View)
    : View :=
  fold_left (fun m k => delete k m) keys m.

(** An UPDATE withdraws, then announces; a prefix is kept with the attributes and
    the next hop it came with. *)
Definition receive (m : View) (msg : OutMessage)
    : View :=
  match msg with
  | OutEndOfRib _ => m
  | OutBgpUpdate u =>
      let mpKeys n := rigKey (nlri_afi n =? AFI_IPv4) <$> nlri_prefixes n in
      let m := withdrawAll (rigKey true <$> u_v4Withdrawn2 u) m in
      let m := withdrawAll (mpKeys (u_mpWithdrawn u)) m in
      let m := announceAll (rigKey true <$> u_v4Announced2 u) (u_attrs u, u_v4Nexthop u) m in
      announceAll (mpKeys (u_mpAnnounced u)) (u_attrs u, nlri_nexthop (u_mpAnnounced u)) m
  end.
Definition peerView (q : list OutMessage) : View :=
  fold_left receive q ∅.

Lemma announceAll_lookup keys v m k :
  announceAll keys v m !! k = if decide (k ∈ keys) then Some v else m !! k.
Proof.
  unfold announceAll. induction keys as [|k' keys IH] using rev_ind; [done|].
  rewrite fold_left_app. simpl. destruct (decide (k' = k)) as [->|Hk].
  - rewrite lookup_insert_eq, decide_True; [done|]. set_solver.
  - rewrite lookup_insert_ne by done. rewrite IH. repeat case_decide; set_solver.
Qed.

Lemma withdrawAll_lookup keys m k :
  withdrawAll keys m !! k = if decide (k ∈ keys) then None else m !! k.
Proof.
  unfold withdrawAll. induction keys as [|k' keys IH] using rev_ind; [done|].
  rewrite fold_left_app. simpl. destruct (decide (k' = k)) as [->|Hk].
  - rewrite lookup_delete_eq, decide_True; [done|]. set_solver.
  - rewrite lookup_delete_ne by done. rewrite IH. repeat case_decide; set_solver.
Qed.

(** ** Path ids *)

(** Short of 2^32 next hops for a prefix, the ids of a prefix are the numbers below
    the number of its next hops, each for one of them. *)
Definition idsBounded (g : PathIdGenerator) : Prop :=
  forall p ids, PathIdCache_ g !! p = Some ids -> Z.of_nat (size ids) < 2 ^ 32.

Record genOk (g : PathIdGenerator) : Prop := {
  gen_counter p ids : PathIdCache_ g !! p = Some ids -> pathIdOption_ g !! p = Some (Z.of_nat (size ids));
  gen_below p ids nh id : PathIdCache_ g !! p = Some ids -> ids !! nh = Some id ->
    0 <= id < Z.of_nat (size ids);
  gen_distinct p ids nh nh' id : PathIdCache_ g !! p = Some ids -> ids !! nh = Some id ->
    ids !! nh' = Some id -> nh = nh'
}.

(** [g] after its first use for the prefix. *)
Lemma genOk_touch g p :
  genOk g -> PathIdCache_ g !! p = None ->
  genOk (mkPathIdGenerator (<[p := ∅]> (PathIdCache_ g)) (<[p := 0]> (pathIdOption_ g))
           (gen_sendAddPath g)).
Proof.
  intros [H1 H2 H3] Hp. split; simpl; intros q ids.
  - intros [[<- <-]|[Hq ?]]%lookup_insert_Some; [by rewrite lookup_insert_eq|].
    rewrite lookup_insert_ne by done. eauto.
  - intros nh id [[<- <-]|[Hq ?]]%lookup_insert_Some; [by rewrite lookup_empty|]. eauto.
  - intros nh nh' id [[<- <-]|[Hq ?]]%lookup_insert_Some; [by rewrite lookup_empty|]. eauto.
Qed.

Lemma genOk_issue g p ids nh :
  genOk g -> PathIdCache_ g !! p = Some ids -> ids !! nh = None ->
  Z.of_nat (S (size ids)) < 2 ^ 32 ->
  genOk (mkPathIdGenerator (<[p := <[nh := Z.of_nat (size ids)]> ids]> (PathIdCache_ g))
           (<[p := uint 32 (Z.of_nat (size ids) + 1)]> (pathIdOption_ g)) (gen_sendAddPath g)).
Proof.
  intros [H1 H2 H3] Hp Hn Hb.
  assert (Hs : size (<[nh := Z.of_nat (size ids)]> ids) = S (size ids)) by (by apply map_size_insert_None).
  split; simpl; intros q ids'.
  - intros [[<- <-]|[Hq ?]]%lookup_insert_Some.
    + rewrite lookup_insert_eq, Hs. f_equal. rewrite uint_id by lia. lia.
    + rewrite lookup_insert_ne by done. eauto.
  - intros nh' id [[<- <-]|[Hq ?]]%lookup_insert_Some Hi; [|eauto]. rewrite Hs.
    apply lookup_insert_Some in Hi as [[_ <-]|[_ Hi]]; [lia|]. specialize (H2 _ _ _ _ Hp Hi). lia.
  - intros nh1 nh2 id [[<- <-]|[Hq ?]]%lookup_insert_Some Hi1 Hi2; [|eauto].
    apply lookup_insert_Some in Hi1 as [[<- <-]|[_ Hi1]], Hi2 as [[<- Hz]|[_ Hi2]]; [done|..|eauto].
    + specialize (H2 _ _ _ _ Hp Hi2). lia.
    + specialize (H2 _ _ _ _ Hp Hi1). lia.
Qed.

(** [g'] knows what [g] knows. *)
Definition later (g g' : PathIdGenerator) : Prop :=
  gen_sendAddPath g' = gen_sendAddPath g /\
  forall p ids, PathIdCache_ g !! p = Some ids ->
    exists ids', PathIdCache_ g' !! p = Some ids' /\ ids ⊆ ids'.

Lemma later_refl g : later g g.
Proof. split; [done|]. intros p ids Hp. by exists ids. Qed.

Lemma later_trans g1 g2 g3 : later g1 g2 -> later g2 g3 -> later g1 g3.
Proof.
  intros [H1 H2] [H3 H4]. split; [congruence|]. intros p ids Hp.
  destruct (H2 _ _ Hp) as (ids' & Hp' & Hs). destruct (H4 _ _ Hp') as (ids'' & Hp'' & Hs').
  exists ids''. split; [done|]. by etrans.
Qed.

Lemma later_bounded g g' : later g g' -> idsBounded g' -> idsBounded g.
Proof.
  intros [_ Hl] Hb p ids Hp. destruct (Hl _ _ Hp) as (ids' & Hp' & Hs).
  pose proof (map_subseteq_size _ _ Hs). specialize (Hb _ _ Hp'). lia.
Qed.

Lemma later_insert g p ids o :
  default ∅ (PathIdCache_ g !! p) ⊆ ids ->
  later g (mkPathIdGenerator (<[p := ids]> (PathIdCache_ g)) o (gen_sendAddPath g)).
Proof.
  intros Hs. split; [done|]. intros q i Hq. simpl. destruct (decide (p = q)) as [->|Hn].
  - rewrite lookup_insert_eq. exists ids. by rewrite Hq in Hs.
  - rewrite lookup_insert_ne by done. by exists i.
Qed.

Lemma getPathId_later p nh g : later g (getPathId p nh g).2.
Proof.
  unfold getPathId. destruct (negb (gen_sendAddPath g)); [apply later_refl|].
  set (g1 := match PathIdCache_ g !! p with Some _ => g | None => _ end).
  assert (H1 : later g g1).
  { unfold g1. destruct (PathIdCache_ g !! p) eqn:E; [apply later_refl|].
    apply later_insert. by rewrite E. }
  destruct (default ∅ (PathIdCache_ g1 !! p) !! nh) eqn:E; [done|]. simpl.
  eapply later_trans; [done|]. apply later_insert. by apply insert_subseteq.
Qed.

(** The generator as one insertion, whether the prefix is new or not. *)
Lemma getPathId_cases p nh g :
  genOk g -> gen_sendAddPath g = true ->
  let ids := default ∅ (PathIdCache_ g !! p) in
  match ids !! nh with
  | Some id => getPathId p nh g = (id, g)
  | None =>
      findPathId p nh g = None /\
      getPathId p nh g =
        (Z.of_nat (size ids),
         mkPathIdGenerator (<[p := <[nh := Z.of_nat (size ids)]> ids]> (<[p := ids]> (PathIdCache_ g)))
           (<[p := uint 32 (Z.of_nat (size ids) + 1)]> (<[p := Z.of_nat (size ids)]> (pathIdOption_ g)))
           (gen_sendAddPath g))
  end.
Proof.
  intros Hg Ha ids. unfold getPathId, findPathId. rewrite Ha. simpl. unfold ids.
  destruct (PathIdCache_ g !! p) as [i|] eqn:Ep; simpl.
  - rewrite Ep. simpl. destruct (i !! nh) as [id|] eqn:Ei; [done|].
    rewrite (gen_counter g Hg _ _ Ep). simpl. split; [done|].
    by rewrite (insert_id (PathIdCache_ g) p i Ep),
      (insert_id (pathIdOption_ g) p _ (gen_counter g Hg _ _ Ep)), Ha.
  - rewrite lookup_empty, lookup_insert_eq. simpl. by rewrite lookup_empty, lookup_insert_eq, ?Ha.
Qed.

Lemma getPathId_genOk p nh g :
  genOk g -> idsBounded (getPathId p nh g).2 -> genOk (getPathId p nh g).2.
Proof.
  intros Hg Hb. destruct (gen_sendAddPath g) eqn:Ha.
  2: { unfold getPathId. by rewrite Ha. }
  pose proof (getPathId_cases p nh g Hg Ha) as HC. simpl in HC.
  destruct (default ∅ (PathIdCache_ g !! p) !! nh) eqn:E; [by rewrite HC|].
  destruct HC as [_ HC]. rewrite HC in *. simpl in *.
  set (ids := default ∅ (PathIdCache_ g !! p)) in *.
  set (g1 := mkPathIdGenerator (<[p := ids]> (PathIdCache_ g))
               (<[p := Z.of_nat (size ids)]> (pathIdOption_ g)) (gen_sendAddPath g)).
  assert (Hg1 : genOk g1).
  { unfold g1, ids. destruct (PathIdCache_ g !! p) as [i|] eqn:Ep; simpl; [|by apply genOk_touch].
    rewrite (insert_id (PathIdCache_ g) p i Ep),
      (insert_id (pathIdOption_ g) p _ (gen_counter g Hg _ _ Ep)). by destruct g. }
  apply (genOk_issue g1 p ids nh Hg1); [apply lookup_insert_eq|done|].
  specialize (Hb p _ (lookup_insert_eq _ _ _)). by rewrite map_size_insert_None in Hb.
Qed.

(** The id a next hop gets is its own, and a new one if it had none. *)
Lemma getPathId_issued p nh g :
  genOk g -> gen_sendAddPath g = true ->
  exists ids, PathIdCache_ (getPathId p nh g).2 !! p = Some ids /\
    ids !! nh = Some (getPathId p nh g).1 /\
    (findPathId p nh g = None -> forall ids' nh', PathIdCache_ g !! p = Some ids' ->
       ids' !! nh' <> Some (getPathId p nh g).1).
Proof.
  intros Hg Ha. pose proof (getPathId_cases p nh g Hg Ha) as HC. simpl in HC.
  destruct (default ∅ (PathIdCache_ g !! p) !! nh) eqn:E.
  - rewrite HC. simpl. destruct (PathIdCache_ g !! p) as [ids|] eqn:Ep; simpl in E; [|by rewrite lookup_empty in E].
    exists ids. split; [done|]. split; [done|]. unfold findPathId. rewrite Ha, Ep. simpl. by rewrite E.
  - destruct HC as [_ ->]. simpl. eexists. split; [apply lookup_insert_eq|].
    split; [apply lookup_insert_eq|]. intros _ ids' nh' Hp Hi. rewrite Hp in Hi. simpl in Hi.
    pose proof (gen_below g Hg _ _ _ _ Hp Hi). simpl in *. lia.
Qed.

(** ** Steps of the tables *)

Section Spec.
Context `{F : FollyOps} `{L : PolicyLibs} `{PL : PrefixLibs} `{RC : RibContext}.
Context {ECM : EvictingCacheMap PolicyCacheMaskedKey PolicyCacheValue}.
Variable manager : PolicyManager.
Variable stale : PolicyCacheMaskedKey -> bool.
Variable dataOf : RibOutAnnouncementEntry -> nat.
Variable session : AdjRibSession.

(** The attributes last decided for a prefix. *)
Definition postOf (t : OutTables) (pp : PrefixPathId) : option BgpPathFields :=
  ribOut_ t !! pp ≫= postAttr.

(** A prefix of a family, and the default path id without additional paths. *)
Definition validKey (pp : PrefixPathId) : Prop :=
  isV4 pp.1.1 || isV6 pp.1.1 = true /\ (sendAddPath_ session = false -> pp.2 = kDefaultPathID).

(** The entries of the messages of the RIB and of the shadow RIB *)
Variable fromRib : RibOutAnnouncementEntry -> Prop.

(** A route the RIB announced for the prefix and that may go to the peer. *)
Definition allowedUpdate (pp : PrefixPathId) (u : RibOutAnnouncementEntry) : Prop :=
  out_prefix u = pp.1 /\ canAnnounceEntry session u = true /\ fromRib u.

(** What the export functions make of such a route. *)
Definition exported (pp : PrefixPathId) (attrs : BgpPathFields) : Prop :=
  exists u result isMed pre, allowedUpdate pp u /\
    attrs = updateAttributesOutWithoutNexthopCommon (peeringParams_ session) (sessionType session)
              (egressPolicyName_ session ≫= getPolicyAttributesMask manager) u result isMed pre.

Definition entryAllowed (pp : PrefixPathId) (e : AdjRibEntry) : Prop :=
  (forall x, preOut e = Some x -> exists u, allowedUpdate pp u /\ out_attrs u = x) /\
  (forall y, postAttr e = Some y -> exported pp y).

(** The path id of a prefix has been issued. *)
Definition issued (g : PathIdGenerator) (pp : PrefixPathId) : Prop :=
  sendAddPath_ session = false \/
  exists ids nh, PathIdCache_ g !! pp.1 = Some ids /\ ids !! nh = Some pp.2.

(** One change: of the entry of a prefix, staged unless its attributes stay the
    same, or of path ids and policy cache only. *)
Inductive tstep (t t' : OutTables) : Prop :=
| tstep_entry (pp : PrefixPathId) (o : option AdjRibEntry) (f : bool) :
    validKey pp -> (forall e, o = Some e -> entryAllowed pp e /\ issued (pathIdGenerator_ t) pp) ->
    ribOut_ t' = partial_alter (fun _ => o) pp (ribOut_ t) ->
    (attrToPrefixMap_ t' = attrToPrefixMap_ t /\ (o ≫= postAttr) = postOf t pp \/
     attrToPrefixMap_ t' =
       tryUpdateAttrToPrefixMapImpl pp (postOf t pp) (o ≫= postAttr) f (attrToPrefixMap_ t)) ->
    pathIdGenerator_ t' = pathIdGenerator_ t -> tstep t t'
| tstep_other :
    ribOut_ t' = ribOut_ t -> attrToPrefixMap_ t' = attrToPrefixMap_ t ->
    later (pathIdGenerator_ t) (pathIdGenerator_ t') ->
    genOk (pathIdGenerator_ t') -> tstep t t'.

Lemma issued_later g g' pp : later g g' -> issued g pp -> issued g' pp.
Proof.
  intros [_ Hl] [?|(ids & nh & Hp & Hi)]; [by left|right].
  destruct (Hl _ _ Hp) as (ids' & ? & Hs). exists ids', nh. split; [done|].
  by eapply lookup_weaken.
Qed.

Lemma afiNegotiated_family prefix :
  afiNegotiated session prefix = true -> isV4 prefix.1 || isV6 prefix.1 = true.
Proof. unfold afiNegotiated, isAfiNegotiated. destruct (isV4 _), (isV6 _); done. Qed.

(** An entry inserted where one was, with the same attributes. *)
Lemma tstep_same_post t pp e e' :
  validKey pp -> issued (pathIdGenerator_ t) pp -> ribOut_ t !! pp = Some e -> entryAllowed pp e' ->
  postAttr e' = postAttr e ->
  tstep t (set_entry pp e' t).
Proof.
  intros Hv Hi He Ha Hp. apply (tstep_entry t _ pp (Some e') false); simpl; try done.
  - by intros ? [= <-].
  - left. unfold postOf. by rewrite He.
Qed.

Lemma tstep_withdrawal t pp e e' :
  validKey pp -> issued (pathIdGenerator_ t) pp -> ribOut_ t !! pp = Some e -> entryAllowed pp e' ->
  postAttr e' = postAttr e ->
  tstep t (tryInsertWithdrawal pp e' t).
Proof.
  intros Hv Hi He Ha Hp. unfold tryInsertWithdrawal. destruct (postAttr e') as [old|] eqn:E.
  2: { eapply tstep_same_post; [done|done|exact He|done|congruence]. }
  apply (tstep_entry t _ pp (Some (setPostAttr None e')) false); simpl; try done.
  - intros ? [= <-]. split; [|done]. by split; [apply Ha|].
  - right. unfold postOf. rewrite He. simpl. by rewrite <- Hp.
Qed.

Lemma tstep_announcement t pp e e' rr was y :
  validKey pp -> issued (pathIdGenerator_ t) pp -> ribOut_ t !! pp = Some e -> entryAllowed pp e' ->
  postAttr e' = postAttr e -> exported pp y ->
  tstep t (tryInsertAnnouncement rr pp e' was y t).
Proof.
  intros Hv Hi He Ha Hp Hy. unfold tryInsertAnnouncement.
  destruct (negb rr && _ && _); [by eapply tstep_same_post|].
  apply (tstep_entry t _ pp (Some (setPostAttr (Some y) e')) (entry_isNexthopSetByPolicy e')); simpl;
    try by destruct (postAttr e').
  - intros ? [= <-]. split; [|done]. split; [apply Ha|]. by intros ? [= <-].
  - right. unfold postOf. rewrite He. simpl. rewrite <- Hp. by destruct (postAttr e').
Qed.

(** ** The invariant *)

Definition wireKey (pp : PrefixPathId) : PeerKey :=
  rigKey (isV4 pp.1.1) (riggedPrefix (sendAddPath_ session) pp).

Lemma wireKey_inj pp pp' : validKey pp -> validKey pp' -> wireKey pp = wireKey pp' -> pp = pp'.
Proof.
  destruct pp as [[ip len] id], pp' as [[ip' len'] id']. unfold validKey, wireKey, rigKey. simpl.
  intros [Hf Hd] [Hf' Hd'] [= H4 Hb Hl Hi]. destruct (sendAddPath_ session).
  - simplify_eq. destruct ip, ip'; simpl in *; congruence.
  - rewrite Hd, Hd' by done. destruct ip, ip'; simpl in *; congruence.
Qed.

(** What a peer gets for attributes announced under a key. *)
Definition announced (k : BgpPathWithAfi) (attrs : BgpPathFields) : BgpAttributes * bytes :=
  (u_attrs (announcedUpdate session k attrs).1, toBinaryAddress (announcedUpdate session k attrs).2).

(** The peer cannot be told: an IPv4 prefix with an IPv6 next hop. *)
Definition undeliverable (k : BgpPathWithAfi) (attrs : BgpPathFields) : Prop :=
  v4EncodingDecision (legacyV4NlriEncoding_ session) (extNhEncodingCapable_ session)
    (wa_afi k =? AFI_IPv4) (announcedUpdate session k attrs).2 = DropRoute.

Definition peerHas (v : View) (pp : PrefixPathId) (o : option BgpPathFields) : Prop :=
  match o with
  | None => v !! wireKey pp = None
  | Some x => exists f, let k := mkPathWithAfi (Some x) (afiOf pp.1) f in
      undeliverable k x \/ v !! wireKey pp = Some (announced k x)
  end.

Record inv (v : View) (t : OutTables) : Prop := {
  inv_gen : genOk (pathIdGenerator_ t);
  inv_addPath : gen_sendAddPath (pathIdGenerator_ t) = sendAddPath_ session;
  inv_entries pp e : ribOut_ t !! pp = Some e ->
    validKey pp /\ issued (pathIdGenerator_ t) pp /\ entryAllowed pp e;
  inv_packing : packingOk (postOf t) (attrToPrefixMap_ t);
  inv_pending pp k : pending (attrToPrefixMap_ t) pp k -> validKey pp;
  inv_synced pp : validKey pp -> (forall k, ~ pending (attrToPrefixMap_ t) pp k) ->
    peerHas v pp (postOf t pp)
}.

Lemma postOf_alter t t' pp o x :
  ribOut_ t' = partial_alter (fun _ => o) pp (ribOut_ t) ->
  postOf t' x = if decide (x = pp) then o ≫= postAttr else postOf t x.
Proof.
  unfold postOf. intros ->. case_decide as Hx; [subst; by rewrite lookup_partial_alter_eq|].
  by rewrite lookup_partial_alter_ne.
Qed.

Lemma entries_alter v t pp o x e :
  inv v t -> validKey pp -> (forall e, o = Some e -> entryAllowed pp e /\ issued (pathIdGenerator_ t) pp) ->
  partial_alter (fun _ => o) pp (ribOut_ t) !! x = Some e ->
  validKey x /\ issued (pathIdGenerator_ t) x /\ entryAllowed x e.
Proof.
  intros HI Hv Ho. destruct (decide (x = pp)) as [->|Hx].
  - rewrite lookup_partial_alter_eq. intros ->. destruct (Ho e eq_refl). done.
  - rewrite lookup_partial_alter_ne by done. apply (inv_entries v t HI).
Qed.

Lemma tstep_inv v t t' : inv v t -> tstep t t' -> inv v t'.
Proof.
  intros HI [pp o f Hv Ho Hr Hm Hg|Hr Hm Hl Hg].
  - pose proof (fun x => postOf_alter t t' pp o x Hr) as HP.
    split; rewrite ?Hg; [apply HI|apply HI| |..].
    + intros x e. rewrite Hr. by apply (entries_alter v).
    + destruct Hm as [[-> Hp]| ->].
      * apply (packingOk_ext (postOf t)); [|apply HI]. intros x k _. rewrite HP. case_decide; congruence.
      * eapply packingOk_ext; [|apply (packingOk_update (postOf t) pp (o ≫= postAttr) f), HI].
        intros x k _. apply HP.
    + intros x k. destruct Hm as [[-> _]| ->]; [apply HI|].
      intros [[-> _]|[Hk _]]%tryUpdate_pending; [done|]. by apply (inv_pending v t HI x k).
    + intros x Hx Hn. rewrite HP. destruct Hm as [[Hm Hp]|Hm]; rewrite Hm in Hn.
      * pose proof (inv_synced v t HI x Hx Hn). case_decide; congruence.
      * rewrite decide_False.
        -- apply (inv_synced v t HI x Hx). intros k Hk. apply (Hn k), tryUpdate_pending. right.
           split; [done|]. intros [-> _]. eapply Hn, tryUpdate_pending. by left.
        -- intros ->. eapply Hn, tryUpdate_pending. by left.
  - destruct Hl as [Ha Hl]. assert (HP : forall x, postOf t' x = postOf t x) by (unfold postOf; by rewrite Hr).
    split; rewrite ?Hm, ?Hr; [done|rewrite Ha; apply HI| | |apply HI|].
    + intros x e He. destruct (inv_entries v t HI _ _ He) as (? & Hi & ?).
      split_and!; [done| |done]. by eapply issued_later.
    + eapply packingOk_ext; [|apply HI]. by intros x k _.
    + intros x Hx Hn. rewrite HP. by apply (inv_synced v t HI).
Qed.

Lemma tsteps_inv v t t' : inv v t -> rtc tstep t t' -> inv v t'.
Proof. intros HI. induction 1; [done|]. eauto using tstep_inv. Qed.

(** ** Announcements and withdrawals *)

Lemma newEntry_allowed pp : entryAllowed pp newAdjRibEntry.
Proof. by split. Qed.

Lemma tryInsert_later others u t :
  later (pathIdGenerator_ t) (pathIdGenerator_ (tryInsertRibOutEntry session others u t).2).
Proof.
  unfold tryInsertRibOutEntry.
  destruct (_ ≫= _); [apply later_refl|]. destruct (_ && _); [apply later_refl|].
  destruct (findPathId _ _ _); [apply later_refl|].
  pose proof (getPathId_later (out_prefix u) (pf_nexthop (out_attrs u)) (pathIdGenerator_ t)) as H.
  simpl. by destruct (getPathId _ _ _).
Qed.

(** A new entry under an id that was issued or is now. *)
Lemma tstep_new_entry t g pp :
  validKey pp -> issued g pp -> ribOut_ t !! pp = None ->
  let t0 := set_pathIds g t in
  tstep t0 (set_entry pp newAdjRibEntry
              (set_pathIds g (set_preOutCount (incrementPrefixCount (isV4 pp.1.1)) t))).
Proof.
  intros Hv Hi Hn. apply (tstep_entry _ _ pp (Some newAdjRibEntry) false); simpl; try done.
  - intros ? [= <-]. split; [apply newEntry_allowed|done].
  - left. unfold postOf. simpl. by rewrite Hn.
Qed.

Lemma tstep_pathIds t g : later (pathIdGenerator_ t) g -> genOk g -> tstep t (set_pathIds g t).
Proof. intros Hl Hg. by apply tstep_other. Qed.

(** With a new id there is no entry yet. *)
Lemma fresh_no_entry v t p nh :
  inv v t -> findPathId p nh (pathIdGenerator_ t) = None ->
  ribOut_ t !! (p, (getPathId p nh (pathIdGenerator_ t)).1) = None.
Proof.
  intros HI Hf. destruct (gen_sendAddPath (pathIdGenerator_ t)) eqn:Ha.
  2: { unfold findPathId in Hf. by rewrite Ha in Hf. }
  destruct (getPathId_issued p nh _ (inv_gen v t HI) Ha) as (_ & _ & _ & Hnew).
  destruct (ribOut_ t !! _) as [e|] eqn:E; [|done]. exfalso.
  destruct (inv_entries v t HI _ _ E) as (_ & [Hs|(ids & nh' & Hp & Hi)] & _).
  - rewrite (inv_addPath v t HI) in Ha. congruence.
  - by apply (Hnew Hf ids nh').
Qed.

Lemma findPathId_issued v t p nh id :
  inv v t -> isV4 p.1 || isV6 p.1 = true -> findPathId p nh (pathIdGenerator_ t) = Some id ->
  validKey (p, id) /\ issued (pathIdGenerator_ t) (p, id).
Proof.
  intros HI Hf. unfold findPathId. rewrite (inv_addPath v t HI).
  unfold validKey, issued. destruct (sendAddPath_ session); simpl.
  - intros (ids & Hp & Hi)%bind_Some. split; [by split|]. right. eauto.
  - intros [= <-]. split; [by split|by left].
Qed.

Lemma getPathId_valid v t p nh :
  inv v t -> isV4 p.1 || isV6 p.1 = true ->
  let '(id, g) := getPathId p nh (pathIdGenerator_ t) in validKey (p, id) /\ issued g (p, id).
Proof.
  intros HI Hf. destruct (getPathId p nh (pathIdGenerator_ t)) as [id g] eqn:E.
  unfold validKey, issued. destruct (sendAddPath_ session) eqn:Ha.
  - destruct (getPathId_issued p nh _ (inv_gen v t HI)) as (ids & Hp & Hi & _);
      [by rewrite (inv_addPath v t HI)|]. rewrite E in Hp, Hi. split; [by split|]. right. eauto.
  - unfold getPathId in E. rewrite (inv_addPath v t HI), Ha in E. simpl in E. simplify_eq.
    split; [by split|by left].
Qed.

Lemma tryInsert_tsteps v others u t :
  inv v t -> isV4 (out_prefix u).1 || isV6 (out_prefix u).1 = true ->
  let '(r, t') := tryInsertRibOutEntry session others u t in
  idsBounded (pathIdGenerator_ t') ->
  rtc tstep t t' /\ forall id, r = Some id -> is_Some (ribOut_ t' !! (out_prefix u, id)).
Proof.
  intros HI Hf. unfold tryInsertRibOutEntry.
  set (p := out_prefix u) in *. set (nh := pf_nexthop (out_attrs u)).
  destruct (findPathId p nh (pathIdGenerator_ t)) as [id|] eqn:Ef; cbn [mbind option_bind].
  - destruct (ribOut_ t !! (p, id)) as [e|] eqn:Ee.
    { intros _. split; [done|]. intros ? [= <-]. by rewrite Ee. }
    destruct (_ && _); [done|]. intros _. destruct (findPathId_issued v t p nh id HI Hf Ef) as [Hv Hi].
    split.
    + apply rtc_once. pose proof (tstep_new_entry t (pathIdGenerator_ t) (p, id) Hv Hi Ee) as H.
      by destruct t.
    + intros ? [= <-]. simpl. rewrite lookup_insert_eq. by eexists.
  - destruct (_ && _); [done|]. simpl.
    pose proof (getPathId_valid v t p nh HI Hf) as HV.
    pose proof (getPathId_later p nh (pathIdGenerator_ t)) as HL.
    pose proof (getPathId_genOk p nh _ (inv_gen v t HI)) as HG.
    pose proof (fresh_no_entry v t p nh HI Ef) as HN.
    destruct (getPathId p nh (pathIdGenerator_ t)) as [id g]. simpl in *. intros Hb.
    destruct HV as [Hv Hi]. split.
    + eapply rtc_l; [by apply (tstep_pathIds t g); auto|]. apply rtc_once.
      by apply (tstep_new_entry t g (p, id)).
    + intros ? [= <-]. rewrite lookup_insert_eq. by eexists.
Qed.

Lemma getPostOut_entry u pre e c attrs info e' c' :
  getPostOutPolicyAttributesAndInfo manager stale dataOf session u pre e c = Some (attrs, info, e', c') ->
  preOut e' = preOut e /\ postAttr e' = postAttr e.
Proof.
  unfold getPostOutPolicyAttributesAndInfo. intros H.
  apply bind_Some in H as ([[[a i] e1] c1] & H1 & H2).
  assert (H : preOut e1 = preOut e /\ postAttr e1 = postAttr e).
  { destruct (egressPolicyName_ session) as [n|]; [|by simplify_eq].
    apply bind_Some in H1 as ([[[[a0 term] i0] d0] c0] & _ & H1). by simplify_eq. }
  destruct a as [a|]; [destruct (blockedByEgressRouteFilter _ _)|]; simplify_eq; done.
Qed.

(** The entry an announcement leaves: the update's attributes before policy, and
    those after policy that were there. *)
Lemma updated_entry_allowed pp e e' u :
  entryAllowed pp e -> allowedUpdate pp u -> preOut e' = Some (out_attrs u) ->
  postAttr e' = postAttr e -> entryAllowed pp e'.
Proof.
  intros [_ H2] Hu Hpre Hpost. split.
  - rewrite Hpre. intros ? [= <-]. by exists u.
  - rewrite Hpost. apply H2.
Qed.

Lemma announce_entry_tsteps v rr others u t t' :
  inv v t -> isV4 (out_prefix u).1 || isV6 (out_prefix u).1 = true -> canAnnounceEntry session u = true ->
  fromRib u ->
  processRibAnnouncedEntry manager stale dataOf session rr others u t = Some t' ->
  idsBounded (pathIdGenerator_ t') -> rtc tstep t t'.
Proof.
  intros HI Hf Hu Hr. unfold processRibAnnouncedEntry.
  pose proof (tryInsert_tsteps v others u t HI Hf) as HT.
  destruct (tryInsertRibOutEntry session others u t) as [[id|] t1]; [|intros [= <-] Hb; by apply HT].
  intros (e & He & H)%bind_Some Hb. apply bind_Some in H as (pre & _ & H).
  apply bind_Some in H as ([[[attrs [im inh]] e2] c] & H2 & H).
  apply getPostOut_entry in H2 as [Hpre Hpost]. simpl in Hpre, Hpost.
  assert (Hb1 : idsBounded (pathIdGenerator_ t1)).
  { destruct attrs; [|unfold tryInsertWithdrawal in H; destruct (postAttr _)];
      [destruct (_ && _); [|unfold tryInsertAnnouncement in H; destruct (_ && _); [|destruct (postAttr _)]]|..];
      by simplify_eq. }
  destruct (HT Hb1) as [HT1 _]. pose proof (tsteps_inv v t t1 HI HT1) as HI1.
  destruct (inv_entries v t1 HI1 _ _ He) as (Hv & Hi & Ha).
  set (t2 := set_policyCache c t1) in *.
  assert (HT2 : rtc tstep t t2).
  { eapply rtc_r; [done|]. apply tstep_other; simpl; try done; [apply later_refl|apply HI1]. }
  set (e3 := setNexthopSetByPolicy inh e2) in *.
  assert (Ha3 : entryAllowed (out_prefix u, id) e3) by (by eapply updated_entry_allowed; [exact Ha|..]).
  eapply rtc_r; [exact HT2|].
  destruct attrs as [attrs|]; [destruct (_ && _)|]; simplify_eq.
  - by eapply tstep_same_post.
  - eapply tstep_announcement; try done. by eexists _, _, _, _.
  - by eapply tstep_withdrawal.
Qed.

Lemma announce_entry_later rr others u t t' :
  processRibAnnouncedEntry manager stale dataOf session rr others u t = Some t' ->
  later (pathIdGenerator_ t) (pathIdGenerator_ t').
Proof.
  unfold processRibAnnouncedEntry. pose proof (tryInsert_later others u t) as HL.
  destruct (tryInsertRibOutEntry session others u t) as [[id|] t1]; [|by intros [= <-]].
  intros (e & He & H)%bind_Some. apply bind_Some in H as (pre & _ & H).
  apply bind_Some in H as ([[[attrs [im inh]] e2] c] & _ & H). simpl in HL.
  unfold tryInsertAnnouncement, tryInsertWithdrawal in H.
  by repeat (case_match; simplify_eq/=).
Qed.

Lemma withdraw_tstep v pp t : inv v t -> tstep t (withdrawEntry pp t).
Proof.
  intros HI. assert (Hself : tstep t t) by (apply tstep_other; try done; [apply later_refl|apply HI]).
  unfold withdrawEntry. destruct (ribOut_ t !! pp) as [e|] eqn:E; [|done].
  destruct (preOut e) as [x|] eqn:Epre; [|done].
  destruct (inv_entries v t HI _ _ E) as (Hv & Hi & Ha).
  destruct e as [pre post nh pol ver]. simpl in *. subst pre.
  unfold tryInsertWithdrawal, tryDeleteRibOutEntry. simpl.
  destruct post as [old|]; simpl; rewrite lookup_insert_eq; simpl.
  - apply (tstep_entry _ _ pp None false); simpl; try done.
    + by rewrite delete_insert_eq.
    + right. unfold postOf. by rewrite E.
  - apply (tstep_entry _ _ pp None false); simpl; try done.
    + by rewrite delete_insert_eq.
    + left. unfold postOf. by rewrite E.
Qed.

(** ** Sending *)

Lemma pack_spec len order s :
  0 < prefixLimit len (sendAddPath_ session) true -> 0 < prefixLimit len (sendAddPath_ session) false ->
  order <> [] ->
  exists packed, packed <> [] /\ packed ⊆ order /\
    packPrefixesWithLimitCommon len order (sendAddPath_ session) s =
      (riggedPrefix (sendAddPath_ session) <$> packed, s ∖ list_to_set packed).
Proof.
  intros H4 H6 Ho. unfold packPrefixesWithLimitCommon. destruct order as [|first rest]; [done|].
  set (limit := prefixLimit len _ _).
  assert (Hl : 0 < limit) by (unfold limit; by destruct (isV4 _)).
  exists (take (Z.to_nat limit) (first :: rest)). split_and!; [|apply sublist_subseteq, sublist_take|done].
  by destruct (Z.to_nat limit) eqn:E; [lia|].
Qed.

Lemma limit_positive len b v4 : len = 0 \/ len = kApproxSerializedAttrLen -> 0 < prefixLimit len b v4.
Proof. by intros [-> | ->]; destruct b, v4. Qed.

(** The keys on the wire of prefixes of one family. *)
Lemma rigKeys_wire (v4 : bool) (packed : list PrefixPathId) :
  (forall pp : PrefixPathId, pp ∈ packed -> isV4 pp.1.1 = v4) ->
  rigKey v4 <$> (riggedPrefix (sendAddPath_ session) <$> packed) = wireKey <$> packed.
Proof.
  intros H. rewrite <- list_fmap_compose. apply list_fmap_ext. intros i pp Hi. unfold compose, wireKey.
  by rewrite (H pp) by (by eapply list_elem_of_lookup_2).
Qed.

(** What one message does to the peer's view: the packed prefixes get the
    attributes of the key, or go; nothing else changes. *)
Section Build.
Variables (k : BgpPathWithAfi) (s : PrefixSet) (order : list PrefixPathId).
Hypothesis Ho : order ≡ₚ elements s.
Hypothesis Hs : s <> ∅.
Hypothesis Hafi : forall pp, pp ∈ s -> wa_afi k = afiOf pp.1.

Definition tells (r : option BgpUpdate2 * PrefixSet) : Prop :=
  let '(update, rest) := r in
  exists packed, packed <> [] /\ packed ⊆ order /\ rest = s ∖ list_to_set packed /\
    match update with
    | Some u => forall v key, receive v (OutBgpUpdate u) !! key =
        if decide (key ∈ wireKey <$> packed) then announced k <$> wa_attrs k else v !! key
    | None => exists x, wa_attrs k = Some x /\ undeliverable k x
    end.

Lemma order_afi pp : pp ∈ order -> wa_afi k = afiOf pp.1.
Proof. rewrite Ho, elem_of_elements. apply Hafi. Qed.

Lemma packed_v4 packed : packed ⊆ order ->
  forall pp : PrefixPathId, pp ∈ packed -> isV4 pp.1.1 = (wa_afi k =? AFI_IPv4).
Proof. intros Hp pp Hpp. rewrite (order_afi pp) by set_solver. unfold afiOf. by destruct (isV4 _). Qed.

Lemma packs len : len = 0 \/ len = kApproxSerializedAttrLen ->
  exists packed, packed <> [] /\ packed ⊆ order /\
    packPrefixesWithLimitCommon len order (sendAddPath_ session) s =
      (riggedPrefix (sendAddPath_ session) <$> packed, s ∖ list_to_set packed).
Proof.
  intros Hlen. apply pack_spec; [by apply limit_positive..|]. intros ->.
  apply Hs, leibniz_equiv, elements_empty_inv. by apply Permutation_nil_l in Ho.
Qed.

Lemma build_announcement x :
  wa_attrs k = Some x -> tells (buildUpdateWithSizeEstimation session k order s).
Proof.
  intros Ex. unfold buildUpdateWithSizeEstimation. rewrite decide_False, Ex by done.
  destruct (announcedUpdate session k x) as [u nh] eqn:Eu.
  destruct (packs kApproxSerializedAttrLen (or_intror eq_refl)) as (packed & Hn & Hsub & ->).
  pose proof (packed_v4 packed Hsub) as Hv4.
  assert (Hu : u = mkUpdate2 (u_attrs u) (mkNlri 0 0 [] []) (mkNlri 0 0 [] []) [] [] [] [] [])
    by (unfold announcedUpdate in Eu; by simplify_eq).
  unfold tells. rewrite Ex. destruct (v4EncodingDecision _ _ _ _) eqn:Ed.
  - exists packed. split_and!; [done..|]. intros v key.
    assert (H4 : wa_afi k =? AFI_IPv4 = true)
      by (unfold v4EncodingDecision in Ed; destruct (wa_afi k =? AFI_IPv4); done).
    rewrite Hu. simpl. rewrite rigKeys_wire by (by rewrite <- H4).
    rewrite announceAll_lookup. unfold announced. by rewrite Eu.
  - exists order. split_and!; [|done| |].
    + intros Hnil. rewrite Hnil in Hsub. destruct packed; [done|set_solver].
    + symmetry. apply leibniz_equiv, elem_of_equiv_empty. intros pp.
      rewrite elem_of_difference, elem_of_list_to_set, Ho, elem_of_elements. tauto.
    + exists x. split; [done|]. unfold undeliverable. by rewrite Eu.
  - exists packed. split_and!; [done..|]. intros v key.
    rewrite Hu. simpl. rewrite rigKeys_wire by done.
    rewrite announceAll_lookup. unfold announced. by rewrite Eu.
Qed.

Lemma build_withdrawal :
  wa_attrs k = None -> tells (buildUpdateWithSizeEstimation session k order s).
Proof.
  intros Ex. unfold buildUpdateWithSizeEstimation. rewrite decide_False, Ex by done.
  destruct (packs 0 (or_introl eq_refl)) as (packed & Hn & Hsub & ->).
  pose proof (packed_v4 packed Hsub) as Hv4. unfold tells. rewrite Ex.
  destruct (wa_afi k =? AFI_IPv4) eqn:E4; [|destruct (wa_afi k =? AFI_IPv6) eqn:E6].
  1,2: exists packed; split_and!; [done..|]; intros v key; simpl;
    rewrite rigKeys_wire by done; by rewrite withdrawAll_lookup.
  exfalso. destruct packed as [|pp packed]; [done|].
  rewrite (order_afi pp) in E4, E6 by set_solver. unfold afiOf in *. by destruct (isV4 _).
Qed.

Lemma build_tells : tells (buildUpdateWithSizeEstimation session k order s).
Proof. destruct (wa_attrs k) eqn:E; [by eapply build_announcement|by apply build_withdrawal]. Qed.
End Build.

(** The packing list after some prefixes of a bucket were taken off. *)
Definition takeOff (k : BgpPathWithAfi) (rest : PrefixSet) (m : AttrToPrefixMap) : AttrToPrefixMap :=
  if decide (rest = ∅) then delete k m else <[k := rest]> m.

Lemma takeOff_pending (k : BgpPathWithAfi) (s : PrefixSet) (packed : list PrefixPathId) (m : AttrToPrefixMap)
    (pp : PrefixPathId) (k' : BgpPathWithAfi) :
  m !! k = Some s ->
  pending (takeOff k (s ∖ list_to_set packed) m) pp k' <->
  pending m pp k' /\ ~ (k' = k /\ pp ∈ packed).
Proof.
  intros Hk. unfold takeOff, pending. destruct (decide (k' = k)) as [->|Hn]; case_decide as Hs.
  - rewrite lookup_delete_eq, Hk. split; [naive_solver|]. intros [(? & [= <-] & ?) ?]. set_solver.
  - rewrite lookup_insert_eq, Hk. split.
    + intros (? & [= <-] & ?). split; [exists s|]; set_solver.
    + intros [(? & [= <-] & ?) ?]. eexists; split; [done|]. set_solver.
  - rewrite lookup_delete_ne by done. naive_solver.
  - rewrite lookup_insert_ne by done. naive_solver.
Qed.

Lemma takeOff_packingOk (post : PrefixPathId -> option BgpPathFields) (k : BgpPathWithAfi) (s : PrefixSet) (packed : list PrefixPathId) (m : AttrToPrefixMap) :
  m !! k = Some s -> packingOk post m -> packingOk post (takeOff k (s ∖ list_to_set packed) m).
Proof.
  intros Hk [H1 H2 H3]. split.
  - intros pp k' [Hp _]%(takeOff_pending k s packed m); [|done]. eauto.
  - intros pp k1 k2 [Hp1 _]%(takeOff_pending k s packed m) [Hp2 _]%(takeOff_pending k s packed m);
      [|done..]. eauto.
  - intros k' s' H. unfold takeOff in H. case_decide.
    + apply lookup_delete_Some in H as [_ H]. eauto.
    + apply lookup_insert_Some in H as [[_ <-]|[_ H]]; eauto.
Qed.

Definition set_packing (m : AttrToPrefixMap) (t : OutTables) : OutTables :=
  mkOutTables (pathIdGenerator_ t) (ribOut_ t) m (policyCache_ t) (preOutPrefixCount t)
    (postOutPrefixCount t).

(** Taking prefixes off the packing list and telling the peer keeps the invariant. *)
Lemma send_inv (v v' : View) (k : BgpPathWithAfi) (s : PrefixSet) (packed : list PrefixPathId) (t : OutTables) :
  inv v t -> attrToPrefixMap_ t !! k = Some s -> packed ⊆ elements s ->
  (forall pp, validKey pp -> pp ∉ packed -> v' !! wireKey pp = v !! wireKey pp) ->
  (forall pp, pp ∈ packed -> (exists x, wa_attrs k = Some x /\ undeliverable k x) \/
     v' !! wireKey pp = announced k <$> wa_attrs k) ->
  inv v' (set_packing (takeOff k (s ∖ list_to_set packed) (attrToPrefixMap_ t)) t).
Proof.
  intros HI Hk Hsub Hout Hin. split; simpl; try apply HI.
  - by apply takeOff_packingOk, HI.
  - intros pp k' [Hp _]%(takeOff_pending k s packed _ _ _ Hk). by apply (inv_pending v t HI pp k').
  - intros pp Hv Hn. change (postOf (set_packing _ t) pp) with (postOf t pp).
    destruct (decide (pp ∈ packed)) as [Hp|Hp].
    + assert (Hpend : pending (attrToPrefixMap_ t) pp k) by (exists s; split; [done|]; set_solver).
      destruct (packed_latest _ _ (inv_packing v t HI) _ _ Hpend) as [Ha Hi].
      destruct k as [[x|] afi f]; simpl in Ha, Hi; rewrite <- Ha; simpl; subst afi.
      * exists f. destruct (Hin pp Hp) as [(? & [= <-] & Hd)|Hd]; [by left|by right].
      * destruct (Hin pp Hp) as [(? & [=] & _)|Hd]. done.
    + assert (Hs : peerHas v pp (postOf t pp)).
      { apply (inv_synced v t HI pp Hv). intros k' Hk'. apply (Hn k').
        apply takeOff_pending; [done|]. by split; [|intros []]. }
      unfold peerHas in *. rewrite Hout by done. done.
Qed.

(** ** The whole Adj-RIB-Out *)

Definition deferredOk (a : AdjRibOut) : Prop :=
  forall p u, deferredUpdates_ a !! p = Some u ->
    isV4 (out_prefix u).1 || isV6 (out_prefix u).1 = true /\ canAnnounceEntry session u = true /\ fromRib u.

Definition outInv (a : AdjRibOut) : Prop :=
  inv (peerView (adjRibOutQueue_ a)) (tables a) /\ deferredOk a.

Abbreviation gen a := (pathIdGenerator_ (tables a)).

(** Short of 2^32 next hops for a prefix, the invariant is kept. *)
Definition advance (a a' : AdjRibOut) : Prop :=
  later (gen a) (gen a') /\ (idsBounded (gen a') -> outInv a -> outInv a').

Lemma advance_trans a1 a2 a3 : advance a1 a2 -> advance a2 a3 -> advance a1 a3.
Proof.
  intros [H1 H2] [H3 H4]. split; [by eapply later_trans|]. intros Hb Ha. apply H4; [done|].
  apply H2; [|done]. by eapply later_bounded.
Qed.

(** A change of the other fields. *)
Lemma advance_fields a a' :
  tables a' = tables a -> adjRibOutQueue_ a' = adjRibOutQueue_ a ->
  (deferredOk a -> deferredOk a') -> advance a a'.
Proof.
  intros Ht Hq Hd. split; [rewrite Ht; apply later_refl|]. intros _ [H1 H2].
  split; [by rewrite Ht, Hq|auto].
Qed.

Lemma advance_refl a : advance a a.
Proof. by apply advance_fields. Qed.

Lemma advance_tables a t' :
  later (gen a) (pathIdGenerator_ t') ->
  (forall v, idsBounded (pathIdGenerator_ t') -> inv v (tables a) -> rtc tstep (tables a) t') ->
  advance a (set_tables t' a).
Proof.
  intros Hl Hs. split; [done|]. intros Hb [H1 H2]. split; [|done].
  by eapply tsteps_inv; [|eapply Hs].
Qed.

Lemma advance_announce others u a a' :
  isV4 (out_prefix u).1 || isV6 (out_prefix u).1 = true -> canAnnounceEntry session u = true -> fromRib u ->
  announceEntry manager stale dataOf session others u a = Some a' -> advance a a'.
Proof.
  intros Hf Hu Hr (t' & Ht & [= <-])%bind_Some. apply advance_tables.
  - by eapply announce_entry_later.
  - intros v Hb HI. by eapply announce_entry_tsteps.
Qed.

Lemma withdraw_later pp t : pathIdGenerator_ (withdrawEntry pp t) = pathIdGenerator_ t.
Proof.
  unfold withdrawEntry, tryDeleteRibOutEntry, tryInsertWithdrawal.
  by repeat (case_match; simplify_eq/=).
Qed.

Lemma advance_withdraw prefix nh a : advance a (handleImplicitWithdrawal session prefix nh a).
Proof.
  unfold handleImplicitWithdrawal. pose proof (getPathId_later prefix nh (gen a)) as HL.
  pose proof (getPathId_genOk prefix nh (gen a)) as HG.
  destruct (getPathId prefix nh (gen a)) as [id g]. simpl in *.
  apply (advance_trans _ (set_tables (set_pathIds g (tables a)) a)).
  { apply advance_tables; [done|]. intros v Hb HI. apply rtc_once, tstep_pathIds; [done|].
    apply HG; [apply HI|done]. }
  generalize (set_tables (set_pathIds g (tables a)) a). clear. intros a.
  unfold processRibWithdraw. destruct (negb _); [apply advance_refl|].
  eapply advance_trans; [|apply advance_tables; rewrite ?withdraw_later; simpl].
  - apply advance_fields; [done..|]. intros Hd p u. simpl. intros [_ H]%lookup_delete_Some. eauto.
  - apply later_refl.
  - intros v _ HI. by eapply rtc_once, withdraw_tstep.
Qed.

Lemma peerView_push q m : peerView (q ++ [m]) = receive (peerView q) m.
Proof. unfold peerView. by rewrite fold_left_app. Qed.

Lemma advance_send (k : BgpPathWithAfi) (s : PrefixSet) order a :
  attrToPrefixMap_ (tables a) !! k = Some s -> order ≡ₚ elements s ->
  advance a (sendOneUpdate session k order a).
Proof.
  intros Hk Ho. unfold sendOneUpdate. rewrite Hk.
  destruct (buildUpdateWithSizeEstimation session k order s) as [update rest] eqn:EB.
  split; [destruct update; apply later_refl|]. intros _ [HI Hd]. split; [|by destruct update].
  assert (Hs : s <> ∅) by (by eapply (packed_nonempty _ _ (inv_packing _ _ HI))).
  assert (Hafi : forall pp, pp ∈ s -> wa_afi k = afiOf pp.1).
  { intros pp Hpp. apply (packed_latest _ _ (inv_packing _ _ HI) pp k). by exists s. }
  pose proof (build_tells k s order Ho Hs Hafi) as HB. rewrite EB in HB.
  destruct HB as (packed & _ & Hsub & -> & Hu). rewrite Ho in Hsub.
  assert (Hval : forall pp, pp ∈ packed -> validKey pp).
  { intros pp Hpp. apply (inv_pending _ _ HI pp k). exists s. split; [done|].
    apply elem_of_elements. by apply Hsub. }
  destruct update as [u|]; simpl.
  - rewrite peerView_push. apply (send_inv (peerView (adjRibOutQueue_ a))); [done..| |].
    + intros pp Hv Hpp. rewrite Hu, decide_False; [done|]. intros (pp' & He & Hp')%list_elem_of_fmap.
      apply Hpp. by rewrite (wireKey_inj pp pp') by auto.
    + intros pp Hpp. right. rewrite Hu, decide_True; [done|]. apply list_elem_of_fmap. eauto.
  - apply (send_inv (peerView (adjRibOutQueue_ a))); [done..|]. eauto.
Qed.

(** ** What happens to an Adj-RIB-Out *)

Definition newOutTables (c : option AdjRibPolicyCache) : OutTables :=
  mkOutTables (newPathIdGenerator (sendAddPath_ session)) ∅ ∅ c (mkPrefixCount 0 0 0) (mkPrefixCount 0 0 0).
Definition newAdjRibOut (c : option AdjRibPolicyCache) : AdjRibOut :=
  mkAdjRibOut (newOutTables c) ∅ [] [] false false false false 0 [].

(** Messages of the RIB, changes of the shadow RIB, the out-delay timer, and the
    iterations of the sending loop on whatever bucket and in whatever order. *)
Inductive outStep (a a' : AdjRibOut) : Prop :=
| step_announcement now others m :
    Forall fromRib (ann_entries m) -> Forall fromRib (ann_addPathEntries m) ->
    processRibOutAnnouncement manager stale dataOf session now others m a = Some a' -> outStep a a'
| step_withdrawal w : a' = processRibOutWithdrawal session w a -> outStep a a'
| step_shadow now others s :
    (forall r attrs, sre_bestpath s = Some r \/ r ∈ sre_multipaths s -> sr_inUpdate r = true ->
       sr_attrs r = Some attrs -> fromRib (shadowAnnouncement s r attrs)) ->
    processShadowRibEntryChange manager stale dataOf session now others s a = Some a' -> outStep a a'
| step_schedule now : a' = scheduleOutDelayTimer session now a -> outStep a a'
| step_timer now others :
    programOutDelayTimer manager stale dataOf session now others a = Some a' -> outStep a a'
| step_send (k : BgpPathWithAfi) (s : PrefixSet) order :
    attrToPrefixMap_ (tables a) !! k = Some s -> order ≡ₚ elements s ->
    a' = sendOneUpdate session k order a -> outStep a a'
| step_endOfRib : a' = sendPendingEoRs a -> outStep a a'.

Lemma advance_outDelay now u a :
  isV4 (out_prefix u).1 || isV6 (out_prefix u).1 = true -> canAnnounceEntry session u = true -> fromRib u ->
  advance a (processOutDelay session now u a).2.
Proof.
  intros Hf Hu Hr.
  assert (Hd : deferredOk a -> deferredOk (set_deferred (<[out_prefix u := u]> (deferredUpdates_ a)) a)).
  { intros Hd p u'. simpl. intros [[_ <-]|[_ H]]%lookup_insert_Some; [done|eauto]. }
  unfold processOutDelay. destruct (_ =? 0); [apply advance_refl|].
  destruct (deferredUpdates_ a !! _); [by apply advance_fields; [..|exact Hd]|].
  destruct (_ || out_newlyInstalledInLocalRib u);
    [by apply advance_fields; [..|exact Hd]|apply advance_refl].
Qed.

Lemma advance_handle now others initialDump u a a' :
  fromRib u -> handleRibAnnouncedEntry manager stale dataOf session now others initialDump u a = Some a' ->
  advance a a'.
Proof.
  intros Hr. unfold handleRibAnnouncedEntry. destruct (afiNegotiated session (out_prefix u)) eqn:Ef; simpl.
  2: { intros [= <-]. apply advance_refl. }
  apply afiNegotiated_family in Ef.
  destruct (canAnnounceEntry session u) eqn:Eu; simpl; [|intros [= <-]; apply advance_withdraw].
  pose proof (advance_outDelay now u a Ef Eu Hr) as HD.
  destruct (if initialDump then _ else _) as [[d nw] a1] eqn:E1.
  assert (H1 : advance a a1)
    by (destruct initialDump; [simplify_eq; apply advance_refl|by rewrite E1 in HD]).
  intros (a2 & H2 & [= <-])%bind_Some. eapply advance_trans; [exact H1|].
  apply (advance_trans _ a2); [|by apply advance_fields].
  destruct d; simpl in H2; [|by eapply advance_announce].
  destruct nw; simplify_eq; [by apply advance_fields|apply advance_refl].
Qed.

Lemma advance_handles now others initialDump us : Forall fromRib us -> forall a a',
  handleRibAnnouncedEntries manager stale dataOf session now others initialDump us a = Some a' ->
  advance a a'.
Proof.
  induction 1 as [|u us Hu _ IH]; intros a a'; simpl; [intros [= <-]; apply advance_refl|].
  intros (a1 & H1 & H2)%bind_Some. eapply advance_trans; [by eapply advance_handle|eauto].
Qed.

Lemma advance_shadow_route now others s r a a' :
  (forall attrs, sr_inUpdate r = true -> sr_attrs r = Some attrs -> fromRib (shadowAnnouncement s r attrs)) ->
  processShadowRibRoute manager stale dataOf session now others s r a = Some a' -> advance a a'.
Proof.
  intros Hr. unfold processShadowRibRoute. destruct (sr_inUpdate r).
  - intros (x & Hx & H)%bind_Some. by eapply advance_handle; [apply Hr|].
  - destruct (sr_inWithdraw r); intros [= <-]; [|apply advance_refl].
    destruct (sr_attrs r); [apply advance_withdraw|apply advance_refl].
Qed.

Lemma advance_shadow_routes now others s rs :
  (forall r attrs, r ∈ rs -> sr_inUpdate r = true -> sr_attrs r = Some attrs ->
     fromRib (shadowAnnouncement s r attrs)) ->
  forall a a', processShadowRibRoutes manager stale dataOf session now others s rs a = Some a' -> advance a a'.
Proof.
  intros Hr. induction rs as [|r rs IH]; intros a a'; simpl; [intros [= <-]; apply advance_refl|].
  intros (a1 & H1 & H2)%bind_Some. eapply advance_trans.
  - eapply advance_shadow_route; [|exact H1]. intros attrs. apply Hr. left.
  - apply IH; [|exact H2]. intros r' attrs Hin. apply Hr. by right.
Qed.

Lemma advance_withdrawals w a : advance a (processRibOutWithdrawal session w a).
Proof.
  unfold processRibOutWithdrawal. destruct (negb _); [apply advance_refl|].
  generalize (if sendAddPath_ session then wd_addPathEntries w else wd_entries w) as entries.
  intros entries. revert a.
  induction entries as [|[[p nh] ver] entries IH]; intros a; simpl; [apply advance_refl|].
  eapply advance_trans; [apply advance_withdraw|]. eapply advance_trans; [|apply IH].
  by apply advance_fields.
Qed.

(** Processing deferred updates, which passed the checks when they were deferred. *)
Lemma advance_deferred others ps : forall a a',
  processDeferred manager stale dataOf session others ps a = Some a' -> advance a a'.
Proof.
  induction ps as [|p ps IH]; intros a a'; simpl; [intros [= <-]; apply advance_refl|].
  destruct (deferredUpdates_ a !! p) as [u|] eqn:E; [|by apply IH].
  intros (a1 & H1 & H2)%bind_Some. apply IH in H2.
  assert (Hl : later (gen a) (gen a1)).
  { apply bind_Some in H1 as (t' & Ht & [= <-]). by eapply announce_entry_later. }
  assert (H12 : advance a1 (set_deferred (delete p (deferredUpdates_ a1)) a1)).
  { apply advance_fields; [done..|]. intros Hd q u'. simpl. intros [_ H]%lookup_delete_Some. eauto. }
  pose proof (advance_trans _ _ _ H12 H2) as [Hl' H3]. split; [by eapply later_trans|].
  intros Hb Ha. apply H3; [done|]. destruct (proj2 Ha p u E) as (Hf & Hu & Hr).
  apply (advance_announce others u a a1 Hf Hu Hr H1); [|done]. by eapply later_bounded.
Qed.

Lemma advance_timer now others budget : forall a a',
  expireDelays manager stale dataOf session budget now others a = Some a' -> advance a a'.
Proof.
  induction budget as [|budget IH]; intros a a'; simpl; [intros [= <-]; apply advance_refl|].
  destruct (outDelayPQ_ a) as [|[expiry ps] rest]; [intros [= <-]; apply advance_refl|].
  destruct (now <? expiry); [intros [= <-]; apply advance_refl|].
  intros (a1 & H1 & H2)%bind_Some. apply IH in H2.
  eapply advance_trans; [by eapply advance_deferred|]. eapply advance_trans; [|exact H2].
  by apply advance_fields.
Qed.

Lemma advance_schedule now a : advance a (scheduleOutDelayTimer session now a).
Proof.
  unfold scheduleOutDelayTimer. destruct (newDeferredPrefixes_ a); [apply advance_refl|by apply advance_fields].
Qed.

Lemma advance_mark m a : advance a (markEgressEoRsPendingFor session m a).
Proof.
  unfold markEgressEoRsPendingFor. by repeat case_match; apply advance_fields.
Qed.

Lemma advance_endOfRib a : advance a (sendPendingEoRs a).
Proof.
  unfold sendPendingEoRs.
  assert (Hpush : forall m a, (forall v, receive v m = v) -> advance a (pushMessage m a)).
  { intros m b Hm. split; [apply later_refl|]. intros _ [HI Hd]. split; [|done]. simpl.
    by rewrite peerView_push, Hm. }
  set (a1 := if egressEoRPendingV4 a then _ else a).
  assert (H1 : advance a a1).
  { unfold a1. destruct (egressEoRPendingV4 a); [|apply advance_refl].
    eapply advance_trans; [by apply (Hpush (OutEndOfRib AFI_IPv4))|by apply advance_fields]. }
  eapply advance_trans; [exact H1|].
  destruct (egressEoRPendingV6 a1); [|by apply advance_fields].
  eapply advance_trans; [by apply (Hpush (OutEndOfRib AFI_IPv6))|by apply advance_fields].
Qed.

Lemma outStep_advance a a' : outStep a a' -> advance a a'.
Proof.
  intros [now others m He Hp H|es ->|now others s Hs H|now ->|now others H|k s order Hk Ho ->| ->].
  - unfold processRibOutAnnouncement in H. destruct (_ && _); [simplify_eq; apply advance_refl|].
    apply bind_Some in H as (a1 & H1 & [= <-]).
    eapply advance_trans; [|eapply advance_trans; [eapply advance_handles; [|exact H1]; by destruct (sendAddPath_ session)|]].
    + unfold maybeBeginRrDump. destruct (ann_routeRefreshAfi m); by apply advance_fields.
    + eapply advance_trans; [apply advance_schedule|]. eapply advance_trans; [apply advance_mark|].
      unfold maybeEndRrDump. repeat case_match; by apply advance_fields.
  - apply advance_withdrawals.
  - unfold processShadowRibEntryChange in H. destruct (negb _); [simplify_eq; apply advance_refl|].
    eapply advance_trans; [by apply (advance_fields a (setLastSeenRibVersion (sre_ribVersion s) a))|].
    destruct (sendAddPath_ session).
    { eapply advance_shadow_routes; [|exact H]. intros r attrs Hin. apply Hs. by right. }
    destruct (sre_bestpath s) as [r|]; [|simplify_eq; apply advance_refl].
    eapply advance_shadow_route; [|exact H]. intros attrs. apply Hs. by left.
  - apply advance_schedule.
  - by eapply advance_timer.
  - by eapply advance_send.
  - apply advance_endOfRib.
Qed.

Lemma newAdjRibOut_inv c : outInv (newAdjRibOut c).
Proof.
  split; [|by intros p u; simpl; rewrite lookup_empty].
  split; simpl; try (by intros *; rewrite lookup_empty); try done.
  - apply packingOk_empty.
  - intros pp k (s & H & _). by rewrite lookup_empty in H.
Qed.

Lemma out_reachable_inv c a :
  rtc outStep (newAdjRibOut c) a -> idsBounded (gen a) -> outInv a.
Proof.
  intros Hr. assert (H : advance (newAdjRibOut c) a).
  { revert Hr. generalize (newAdjRibOut c). intros a0 Hr.
    induction Hr; [apply advance_refl|]. eapply advance_trans; [by apply outStep_advance|done]. }
  intros Hb. by apply H, newAdjRibOut_inv.
Qed.
End Spec.
