(* ===== verification/AdjRibOutSpec.v ===== *)
(** * The Adj-RIB-Out and its peer

    What holds of an Adj-RIB-Out in every state it can reach: a prefix waits in at
    most one bucket of the packing list, that of its latest attributes, and a
    prefix that does not wait is what the peer has; every route is one that may go
    to the peer; and the sending loop ends with the peer up to date. *)

From stdpp Require Import gmap fin_maps relations strings.
From S2P Require Import Prelude BgpException Folly BgpStructs Nlri PathAttrs RouteFilter RouteInfo RibEntry Ucmp.
From S2P Require Import DeDuplicator PathFields PolicyEncoding PolicyAction PolicyMatch.
From S2P Require Import PolicyEngine PolicyTerm PolicyMask PolicyCache AdjRibCommon.
From S2P Require Import PackingList AdjRibOut AdjRibOutInv.

Section Spec.
Context `{F : FollyOps} `{L : PolicyLibs} `{PL : PrefixLibs} `{RC : RibContext}.
Context {ECM : EvictingCacheMap PolicyCacheMaskedKey PolicyCacheValue}.
Variable manager : PolicyManager.
Variable stale : PolicyCacheMaskedKey -> bool.
Variable dataOf : RibOutAnnouncementEntry -> nat.
Variable session : AdjRibSession.

(** Runs; [fromRib] holds of every entry that the messages of the RIB and the shadow RIB have
    in it. *)
Abbreviation reachableFrom fromRib c a :=
  (rtc (outStep manager stale dataOf session fromRib) (newAdjRibOut session c) a).
Abbreviation reachable c a := (reachableFrom (fun _ => True) c a).
Abbreviation packing a := (attrToPrefixMap_ (tables a)).

(** ** Types *)

(** C8. In every state the Adj-RIB-Out can reach, the keys of its entries are
    prefixes of a family with an issued path id, ids of a prefix are below the
    number of its next hops and distinct, no bucket of the packing list is empty,
    a bucket holds prefixes of its address family only, and no prefix is in two
    buckets. *)
Theorem adj_rib_out_well_formed (c : option AdjRibPolicyCache) (a : AdjRibOut)
    (Hr : reachable c a) (Hb : idsBounded (pathIdGenerator_ (tables a))) :
  (forall pp e, ribOut_ (tables a) !! pp = Some e ->
     validKey session pp /\ issued session (pathIdGenerator_ (tables a)) pp) /\
  (forall p ids nh nh' id, PathIdCache_ (pathIdGenerator_ (tables a)) !! p = Some ids ->
     ids !! nh = Some id -> 0 <= id < Z.of_nat (size ids) /\ (ids !! nh' = Some id -> nh = nh')) /\
  (forall k s, packing a !! k = Some s ->
     s <> ∅ /\ forall pp, pp ∈ s -> wa_afi k = afiOf pp.1 /\
       forall k' s', packing a !! k' = Some s' -> pp ∈ s' -> k' = k).
Proof.
  destruct (out_reachable_inv _ _ _ _ _ _ _ Hr Hb) as [HI _]. split_and!.
  - intros pp e He. by destruct (inv_entries _ _ _ _ _ HI _ _ He) as (? & ? & _).
  - intros p ids nh nh' id Hp Hi. split; [by eapply (gen_below _ (inv_gen _ _ _ _ _ HI))|].
    intros Hi'. by eapply (gen_distinct _ (inv_gen _ _ _ _ _ HI)).
  - intros k s Hk. pose proof (inv_packing _ _ _ _ _ HI) as HP. split; [by eapply packed_nonempty|].
    intros pp Hpp. assert (Hpend : pending (packing a) pp k) by (by exists s).
    split; [by apply (packed_latest _ _ HP pp k)|]. intros k' s' Hk' Hpp'.
    apply (packed_once _ _ HP pp); [by exists s'|done].
Qed.

(** ** The peer *)


(** Split horizon and reflection: the route was not learnt from this peer, or both are the
    loopback address and reflection there is allowed; and to an IBGP peer it is not one of
    another IBGP peer, unless one of the two is a client or it is our own. *)
Definition mayReflect (u : RibOutAnnouncementEntry) : Prop :=
  (ip_equal (peer_addr (out_peer u)) (peerAddr (peeringParams_ session)) = true ->
   ip_isLoopback (peerAddr (peeringParams_ session)) = true /\
   allowLoopbackReflection (peeringParams_ session) = true) /\
  (sessionType session = IBGP ->
   peer_sessionType (out_peer u) <> IBGP \/ ip_isZero (peer_addr (out_peer u)) = true \/
   peer_isRrClient (out_peer u) = true \/ isRrClient (peeringParams_ session) = true).

Lemma canAnnounce_reflects u : canAnnounce session u = true -> mayReflect u.
Proof.
  unfold canAnnounce, mayReflect. intros H. split.
  - intros E. rewrite E in H. destruct (ip_isLoopback _), (allowLoopbackReflection _); done.
  - intros E. rewrite E in H. destruct (_ && _); [done|].
    rewrite !orb_true_iff, negb_true_iff, bool_decide_eq_false in H. tauto.
Qed.

(** C7. Every route in the Adj-RIB-Out is one of the entries the RIB announced in the run,
    for its prefix and with its attributes, and the peer that entry came from allows it to
    go to this peer: it was not learnt from the peer itself (loopback reflection excepted),
    and an IBGP peer gets no route of another IBGP peer without reflection; its AS path does
    not have the AS of the peer and its well-known communities allow it where those filters
    are on.  What is advertised is the export of such an entry, and to an EBGP peer that is
    not configured as a route reflector client it is without local preference, without
    confederation segments and with our AS number in front. *)
Theorem advertised_routes_allowed (heard : list RibOutAnnouncementEntry) (c : option AdjRibPolicyCache)
    (a : AdjRibOut) (pp : PrefixPathId) (e : AdjRibEntry) (Hr : reachableFrom (fun u => u ∈ heard) c a)
    (Hb : idsBounded (pathIdGenerator_ (tables a))) (He : ribOut_ (tables a) !! pp = Some e) :
  let mayGo u :=
    u ∈ heard /\ out_prefix u = pp.1 /\ mayReflect u /\
    (sender_suppress_as_loop_ session = true -> suppressLoopedAdvertisements session (out_attrs u) = false) /\
    (enable_well_known_community_filter session = true ->
     shouldSuppressByWellKnownCommunity (out_attrs u) (sessionType session) = None) in
  (forall x, preOut e = Some x -> exists u, mayGo u /\ out_attrs u = x) /\
  (forall y, postAttr e = Some y ->
     (exists u result isMed pre, mayGo u /\
        y = updateAttributesOutWithoutNexthopCommon (peeringParams_ session) (sessionType session)
              (egressPolicyName_ session ≫= getPolicyAttributesMask manager) u result isMed pre) /\
     (sessionType session = EBGP -> isRrClient (peeringParams_ session) = false ->
      ac_localPref (pf_attrs y) = None /\ Forall (fun s => isConfedSegment s = false) (getAsPath y) /\
      exists s rest, getAsPath y = s :: rest /\
        head (asSequence s) = Some (asnToPrepend (peeringParams_ session)))).
Proof.
  intros mayGo. destruct (out_reachable_inv _ _ _ _ _ _ _ Hr Hb) as [HI _].
  destruct (inv_entries _ _ _ _ _ HI _ _ He) as (_ & _ & Hpre & Hpost).
  assert (Hgo : forall u, allowedUpdate session (fun u => u ∈ heard) pp u -> mayGo u).
  { intros u (Hp & Hu & Hh). unfold canAnnounceEntry in Hu. apply andb_true_iff in Hu as [Hu H3].
    apply andb_true_iff in Hu as [H1 H2]. split_and!; [done|done|by apply canAnnounce_reflects| |].
    - intros Hs. rewrite Hs in H2. by destruct (suppressLoopedAdvertisements session _).
    - intros Hf. rewrite Hf in H3. simpl in H3. apply negb_true_iff, bool_decide_eq_false in H3.
      destruct (shouldSuppressByWellKnownCommunity _ _); [|done]. exfalso. apply H3. by eexists. }
  split.
  - intros x Hx. destruct (Hpre x Hx) as (u & Hu & Ha). exists u. split; [by apply Hgo|done].
  - intros y Hy. destruct (Hpost y Hy) as (u & r & im & pre & Hu & ->).
    split; [exists u, r, im, pre; split; [by apply Hgo|done]|].
    intros Hs Hrr. rewrite Hs.
    destruct (export_clean (peeringParams_ session)
      (egressPolicyName_ session ≫= getPolicyAttributesMask manager) u r pre im Hrr)
      as (H1 & _ & _ & H2 & H3 & _). done.
Qed.

(** ** The sending loop *)

(** The number of prefixes waiting. *)
Definition waiting (m : AttrToPrefixMap) : nat := sum_list_with (fun x => size x.2) (map_to_list m).

Lemma waiting_delete (m : AttrToPrefixMap) (k : BgpPathWithAfi) (s : PrefixSet) :
  m !! k = Some s -> waiting m = (size s + waiting (delete k m))%nat.
Proof.
  intros Hk. unfold waiting. rewrite <- (insert_delete_id m k s Hk) at 1.
  by rewrite (map_to_list_insert _ k s (lookup_delete_eq m k)).
Qed.

Lemma waiting_takeOff (m : AttrToPrefixMap) (k : BgpPathWithAfi) (s rest : PrefixSet) :
  m !! k = Some s -> (size rest < size s)%nat -> (waiting (takeOff k rest m) < waiting m)%nat.
Proof.
  intros Hk Hs. rewrite (waiting_delete m k s Hk). unfold takeOff. case_decide; [lia|].
  rewrite (waiting_delete _ k rest (lookup_insert_eq _ _ _)), delete_insert_eq. lia.
Qed.

(** The order in which the containers are walked is one of their contents. *)
Class HashOrderLaws (H : HashOrder) : Prop := {
  begin_end m : map_begin m = None -> m = ∅;
  begin_in m k : map_begin m = Some k -> is_Some (m !! k);
  walk_elements s : set_walk s ≡ₚ elements s
}.

Context `{HO : HashOrder} {HL : HashOrderLaws HO}.

Lemma sendOne_waiting (v : View) (a : AdjRibOut) (k : BgpPathWithAfi) (s : PrefixSet) (order : list PrefixPathId) :
  inv manager session (fun _ => True) v (tables a) -> packing a !! k = Some s -> order ≡ₚ elements s ->
  (waiting (packing (sendOneUpdate session k order a)) < waiting (packing a))%nat /\
  ribOut_ (tables (sendOneUpdate session k order a)) = ribOut_ (tables a) /\
  pathIdGenerator_ (tables (sendOneUpdate session k order a)) = pathIdGenerator_ (tables a).
Proof.
  intros HI Hk Ho. pose proof (inv_packing _ _ _ _ _ HI) as HP.
  assert (Hs : s <> ∅) by (by eapply packed_nonempty).
  assert (Hafi : forall pp, pp ∈ s -> wa_afi k = afiOf pp.1).
  { intros pp Hpp. apply (packed_latest _ _ HP pp k). by exists s. }
  pose proof (build_tells session k s order Ho Hs Hafi) as HB. unfold sendOneUpdate. rewrite Hk.
  destruct (buildUpdateWithSizeEstimation session k order s) as [update rest].
  destruct HB as (packed & Hn & Hsub & -> & _).
  split; [|by destruct update].
  apply (waiting_takeOff _ k s (s ∖ list_to_set packed) Hk).
  destruct packed as [|pp packed]; [done|]. apply subset_size. split; [set_solver|].
  intros Hss. assert (Hpp : pp ∈ s) by (apply elem_of_elements; rewrite <- Ho; set_solver).
  specialize (Hss pp Hpp). set_solver.
Qed.

(** Only updates are pushed, and the markers wait. *)
Definition sentUpdates (a a' : AdjRibOut) : Prop :=
  (exists us, adjRibOutQueue_ a' = adjRibOutQueue_ a ++ map OutBgpUpdate us) /\
  egressEoRPendingV4 a' = egressEoRPendingV4 a /\ egressEoRPendingV6 a' = egressEoRPendingV6 a.

Lemma sentUpdates_refl a : sentUpdates a a.
Proof. split; [exists []; by rewrite app_nil_r|done]. Qed.
Lemma sentUpdates_trans a1 a2 a3 : sentUpdates a1 a2 -> sentUpdates a2 a3 -> sentUpdates a1 a3.
Proof.
  intros ((us & H1) & H2 & H3) ((us' & G1) & G2 & G3). split; [|by rewrite G2, G3].
  exists (us ++ us'). by rewrite G1, H1, map_app, app_assoc.
Qed.
Lemma sendOne_sent k order a : sentUpdates a (sendOneUpdate session k order a).
Proof.
  unfold sendOneUpdate. destruct (packing a !! k); [|apply sentUpdates_refl].
  destruct (buildUpdateWithSizeEstimation _ _ _ _) as [[u|] rest]; [|by split; [exists []; rewrite app_nil_r|]].
  split; [by exists [u]|done].
Qed.

Lemma sendLoop_drains fuel : forall a : AdjRibOut,
  outInv manager session (fun _ => True) a -> idsBounded (pathIdGenerator_ (tables a)) ->
  (waiting (packing a) <= fuel)%nat ->
  exists a', sendLoop session fuel a = Some a' /\ packing a' = ∅ /\
    ribOut_ (tables a') = ribOut_ (tables a) /\ sentUpdates a a' /\ outInv manager session (fun _ => True) a'.
Proof.
  induction fuel as [|fuel IH]; intros a HI Hb Hf; simpl;
    destruct (map_begin (packing a)) as [k|] eqn:Ek;
    [|exists a; split_and!; [done|by apply begin_end|done|apply sentUpdates_refl|done]
     | |exists a; split_and!; [done|by apply begin_end|done|apply sentUpdates_refl|done]].
  - destruct (begin_in _ _ Ek) as [s Hk]. exfalso. rewrite (waiting_delete _ k s Hk) in Hf.
    assert (Hs : size s = 0%nat) by lia. apply size_empty_inv, leibniz_equiv in Hs.
    by eapply (packed_nonempty _ _ (inv_packing _ _ _ _ _ (proj1 HI))).
  - destruct (begin_in _ _ Ek) as [s Hk]. rewrite Hk. simpl.
    destruct (sendOne_waiting _ a k s _ (proj1 HI) Hk (walk_elements s)) as (Hw & Hr & Hg).
    destruct (IH (sendOneUpdate session k (set_walk s) a)) as (a' & Ha & Hm & Hr' & Hu & HI').
    + apply (advance_send manager session (fun _ => True) k s _ a Hk (walk_elements s)); [by rewrite Hg|done].
    + by rewrite Hg.
    + lia.
    + exists a'. rewrite Hr', Hr. split_and!; [done..| |done]. by eapply sentUpdates_trans; [apply sendOne_sent|].
Qed.

(** The markers that wait *)
Definition pendingEoRs (a : AdjRibOut) : list OutMessage :=
  (if egressEoRPendingV4 a then [OutEndOfRib AFI_IPv4] else []) ++
  (if egressEoRPendingV6 a then [OutEndOfRib AFI_IPv6] else []).

Lemma sendEoRs_spec a :
  let a' := if egressEoRPendingV4 a || egressEoRPendingV6 a then sendPendingEoRs a else a in
  adjRibOutQueue_ a' = adjRibOutQueue_ a ++ pendingEoRs a /\ tables a' = tables a /\
  egressEoRPendingV4 a' = false /\ egressEoRPendingV6 a' = false /\
  (pendingEoRs a <> [] -> egressEoRsSent_ a' = true).
Proof.
  unfold sendPendingEoRs, pendingEoRs.
  destruct (egressEoRPendingV4 a) eqn:E4, (egressEoRPendingV6 a) eqn:E6; simpl; rewrite ?E6, ?E4; simpl;
    rewrite ?E6, <- ?app_assoc, ?app_nil_r; done.
Qed.

Lemma peerView_eors q a : peerView (q ++ pendingEoRs a) = peerView q.
Proof.
  unfold pendingEoRs, peerView. rewrite fold_left_app. by destruct (egressEoRPendingV4 a), (egressEoRPendingV6 a).
Qed.

End Spec.
