(* ===== verification/AdjRibOutExamples.v ===== *)
(** * The Adj-RIB-Out: samples

    A session, routes announced over it, and the theorems of AdjRibOutSpec.v
    applied to the states they lead to, with the cases where what the peer is told
    is not what the RIB decided last. *)

From stdpp Require Import gmap fin_maps relations strings.
From S2P Require Import Prelude BgpException Folly BgpStructs Nlri PathAttrs RouteFilter RouteInfo RibEntry Ucmp.
From S2P Require Import DeDuplicator PathFields PolicyEncoding PolicyAction PolicyMatch.
From S2P Require Import PolicyEngine PolicyTerm PolicyMask PolicyCache PolicyExamples AdjRibCommon AdjRibLoop.
From S2P Require Import PackingList AdjRibOut AdjRibOutInv AdjRibOutSpec.

#[local] Existing Instance literal_libs.
#[local] Existing Instance exact_prefix_libs.
#[local] Existing Instance sample_context.
#[local] Existing Instance folly_model.
#[local] Instance out_cache : EvictingCacheMap PolicyCacheMaskedKey PolicyCacheValue :=
  list_cache sample_keyEqual.

#[local] Instance sorted_order : HashOrder := {|
  map_begin m := fst <$> head (map_to_list m);
  set_walk s := elements s
|}.

#[local] Instance sorted_order_laws : HashOrderLaws sorted_order.
Proof.
  split; simpl.
  - intros m Hm. apply map_to_list_empty_iff. by destruct (map_to_list m).
  - intros m k Hk. destruct (map_to_list m) as [|[k' s] l] eqn:E; [done|]. injection Hk as <-.
    exists s. apply elem_of_map_to_list. rewrite E. by left.
  - done.
Qed.

(** ** A session *)

(** Over EBGP without policy; the second argument is the out-delay. *)
Definition out_session (remote : Z) (addPath : bool) (delay : Z) (legacy : bool) : AdjRibSession :=
  mkAdjRibSession _
    (mkPeeringConfig 65001 65001 remote 1 1 false false false None None None None None true
       (IPV4 [10; 0; 0; 2]) (IPV4 [10; 0; 0; 1]) IPUnset false false)
    remote true true false addPath false legacy None None false true delay None.

Definition out_path (hop : IPAddress) : BgpPathFields := setNexthop hop defaultPathFields.
Definition out_update (net last : Z) (hop : IPAddress) (new : bool) : RibOutAnnouncementEntry :=
  mkRibOutEntry (IPV4 [net; 0; 0; 0], 8) (sample_peer last last) (out_path hop) None None None None None
    new 0 1 false.
Definition out_message (entries : list RibOutAnnouncementEntry) (initial : bool) : RibOutAnnouncement :=
  mkRibOutAnnouncement entries entries true initial None.

Definition out_start (session : AdjRibSession) : AdjRibOut := newAdjRibOut session None.
Definition out_announce (session : AdjRibSession) (now : Z) (m : RibOutAnnouncement) (a : AdjRibOut) :=
  processRibOutAnnouncement sample_manager (fun _ => false) (fun _ => 0%nat) session now 0 m a.

(** ** The theorems at a state *)

(** Two paths to one network and one to another, over a session with additional
    paths, before anything is sent. *)
Definition out_full : AdjRibSession := out_session 65002 true 0 false.
Definition out_dump : RibOutAnnouncement :=
  out_message [out_update 20 7 (IPV4 [10; 0; 0; 7]) true; out_update 20 8 (IPV4 [10; 0; 0; 8]) true;
               out_update 30 7 (IPV4 [10; 0; 0; 7]) true] true.
Definition out_staged : AdjRibOut :=
  default (out_start out_full) (out_announce out_full 0 out_dump (out_start out_full)).

Abbreviation out_reached_from fromRib session a :=
  (rtc (outStep sample_manager (fun _ => false) (fun _ => 0%nat) session fromRib) (newAdjRibOut session None) a).
Abbreviation out_reached session a := (out_reached_from (fun _ => True) session a).

Lemma out_staged_step : out_announce out_full 0 out_dump (out_start out_full) = Some out_staged.
Proof.
  unfold out_staged. destruct (out_announce _ _ _ _) eqn:E; [done|].
  assert (HS : isSome (out_announce out_full 0 out_dump (out_start out_full)) = true)
    by (vm_compute; reflexivity). by rewrite E in HS.
Qed.

Lemma out_staged_reached : out_reached out_full out_staged.
Proof.
  apply rtc_once. refine (step_announcement _ _ _ _ _ _ _ 0 0 out_dump _ _ out_staged_step); by apply Forall_forall.
Qed.
Definition out_heard : list RibOutAnnouncementEntry := ann_entries out_dump ++ ann_addPathEntries out_dump.
Lemma out_staged_from : out_reached_from (fun u => u ∈ out_heard) out_full out_staged.
Proof.
  apply rtc_once. refine (step_announcement _ _ _ _ _ _ _ 0 0 out_dump _ _ out_staged_step);
    apply Forall_forall; intros u Hu; apply elem_of_app; auto.
Qed.

Lemma idsBounded_decide (g : PathIdGenerator) :
  forallb (fun x => Z.of_nat (size x.2) <? 2 ^ 32) (map_to_list (PathIdCache_ g)) = true -> idsBounded g.
Proof.
  intros H p ids Hp. apply elem_of_map_to_list in Hp. rewrite forallb_forall in H.
  apply list_elem_of_In in Hp. specialize (H _ Hp). simpl in H. lia.
Qed.

Lemma out_staged_bounded : idsBounded (pathIdGenerator_ (tables out_staged)).
Proof. apply idsBounded_decide. vm_compute. reflexivity. Qed.

Lemma adj_rib_out_well_formed_witness :
  dom (ribOut_ (tables out_staged)) =
    {[(IPV4 [20; 0; 0; 0], 8, 0); (IPV4 [20; 0; 0; 0], 8, 1); (IPV4 [30; 0; 0; 0], 8, 0)]} /\
  (forall pp e, ribOut_ (tables out_staged) !! pp = Some e ->
     validKey out_full pp /\ issued out_full (pathIdGenerator_ (tables out_staged)) pp).
Proof.
  split; [vm_compute; reflexivity|].
  apply (adj_rib_out_well_formed sample_manager (fun _ => false) (fun _ => 0%nat) out_full None out_staged
    out_staged_reached out_staged_bounded).
Defined.

(** The state after one message. *)
Definition out_key : BgpPathWithAfi :=
  default (mkPathWithAfi None 0 false) (map_begin (attrToPrefixMap_ (tables out_staged))).
Definition out_bucket : PrefixSet := default ∅ (attrToPrefixMap_ (tables out_staged) !! out_key).
Definition out_sent : AdjRibOut := sendOneUpdate out_full out_key (elements out_bucket) out_staged.

Lemma out_sent_reached : out_reached out_full out_sent.
Proof.
  eapply rtc_r; [exact out_staged_reached|].
  apply (step_send _ _ _ _ _ _ _ out_key out_bucket (elements out_bucket)); [|done..].
  unfold out_bucket. destruct (attrToPrefixMap_ (tables out_staged) !! out_key) eqn:E; [done|].
  assert (HS : isSome (attrToPrefixMap_ (tables out_staged) !! out_key) = true)
    by (vm_compute; reflexivity). by rewrite E in HS.
Qed.
Lemma out_sent_bounded : idsBounded (pathIdGenerator_ (tables out_sent)).
Proof. apply idsBounded_decide. vm_compute. reflexivity. Qed.

Definition out_pp : PrefixPathId := (IPV4 [30; 0; 0; 0], 8, 0).


Definition out_entry : AdjRibEntry := default newAdjRibEntry (ribOut_ (tables out_staged) !! out_pp).

Lemma advertised_routes_allowed_witness :
  isSome (postAttr out_entry) = true /\
  (exists u, u ∈ out_heard /\ out_prefix u = out_pp.1 /\ mayReflect out_full u) /\
  (forall y, postAttr out_entry = Some y -> ac_localPref (pf_attrs y) = None /\
     exists s rest, getAsPath y = s :: rest /\
       head (asSequence s) = Some (asnToPrepend (peeringParams_ out_full))).
Proof.
  split; [vm_compute; reflexivity|].
  assert (He : ribOut_ (tables out_staged) !! out_pp = Some out_entry).
  { unfold out_entry. destruct (ribOut_ (tables out_staged) !! out_pp) eqn:E; [done|].
    assert (HS : isSome (ribOut_ (tables out_staged) !! out_pp) = true) by (vm_compute; reflexivity).
    by rewrite E in HS. }
  destruct (advertised_routes_allowed sample_manager (fun _ => false) (fun _ => 0%nat) out_full out_heard None out_staged
    out_pp out_entry out_staged_from out_staged_bounded He) as [_ H].
  split.
  - destruct (postAttr out_entry) as [y|] eqn:E; [|vm_compute in E; discriminate E].
    destruct (H y eq_refl) as [(u & r & im & pre & (H1 & H2 & H3 & _) & _) _]. exists u. split; [exact H1|]. split; [exact H2|exact H3].
  - intros y Hy. destruct (H y Hy) as [_ H0].
    destruct (H0 ltac:(reflexivity) ltac:(reflexivity)) as (H1 & _ & H3). split; [exact H1|exact H3].
Defined.


(** ** Where the peer is not told what the RIB decided *)

(** The table of a session after its initial dump and the messages given, with the
    out-delay timer run at the end. *)
Definition out_run (session : AdjRibSession) (c : option AdjRibPolicyCache)
    (us : list RibOutAnnouncementEntry) : option AdjRibOut :=
  a ← out_announce session 0 (out_message [] true) (newAdjRibOut session c);
  let a := sendPendingEoRs a in
  a ← out_announce session 1 (out_message us false) a;
  programOutDelayTimer sample_manager (fun _ => false) (fun _ => 0%nat) session 100 0 a.

Definition out_summary (a : option AdjRibOut) : option (list (Z * IPAddress * option IPAddress)) :=
  (fun a => (fun '(pp, e) => (pp.2, from_option pf_nexthop IPUnset (preOut e), pf_nexthop <$> postAttr e)) <$>
     map_to_list (ribOut_ (tables a))) <$> a.

Definition hop4 : IPAddress := IPV4 [10; 0; 0; 7].
Definition hop4' : IPAddress := IPV4 [10; 0; 0; 8].
Definition hop6 : IPAddress := IPV6 [32; 1; 13; 184; 0; 0; 0; 0; 0; 0; 0; 0; 0; 0; 0; 7].

(** Updates wait by prefix, without their path: of two paths of a prefix that are
    announced within the out-delay over a session with additional paths, only the
    last is ever announced; without out-delay both are. *)
Lemma out_delay_keeps_one_path :
  let us := [out_update 20 7 hop4 true; out_update 20 8 hop4' true] in
  out_summary (out_run (out_session 65002 true 5 false) None us) = Some [(0, hop4', Some hop4')] /\
  out_summary (out_run (out_session 65002 true 0 false) None us) =
    Some [(0, hop4, Some hop4); (1, hop4', Some hop4')].
Proof. vm_compute. split; reflexivity. Qed.

(** The best path moves to one whose next hop the peer cannot be told: the update
    is ignored, and the peer keeps the path that is gone. *)
Lemma unsupported_next_hop_keeps_old_path :
  out_summary (out_run (out_session 65001 false 0 false) None
    [out_update 20 7 hop4 false; out_update 20 8 hop6 false]) = Some [(0, hop6, Some hop4)].
Proof. vm_compute. reflexivity. Qed.

(** *** The next hop of another route *)

(** Over IBGP with the export policy, whose outcome does not depend on next hops. *)
Definition out_policy_session : AdjRibSession :=
  mkAdjRibSession _
    (mkPeeringConfig 65001 65001 65001 1 1 false false false None None None None None true
       (IPV4 [10; 0; 0; 2]) (IPV4 [10; 0; 0; 1]) IPUnset false false)
    65001 true true false false false false (Some "EXPORT") None false true 0 None.
Definition out_tagged (net last : Z) (hop : IPAddress) : RibOutAnnouncementEntry :=
  mkRibOutEntry (IPV4 [net; 0; 0; 0], 8) (sample_peer last last) (setNexthop hop sample_tagged)
    None None None None None false 0 1 false.
Definition out_hops (a : option AdjRibOut) : option (list (CIDRNetwork * option IPAddress)) :=
  (fun a => (fun '(pp, e) => (pp.1, pf_nexthop <$> postAttr e)) <$>
     map_to_list (ribOut_ (tables a))) <$> a.

(** The check reads the next hop of the policy's outcome, which on a cache hit is
    that of the route that filled the cache: a route whose next hop the session
    cannot carry passes, and one whose next hop it can carry is refused. *)
Lemma cached_next_hop_is_checked :
  out_hops (out_run out_policy_session (Some sample_cache) [out_tagged 20 7 hop4; out_tagged 20 8 hop6]) =
    Some [((IPV4 [20; 0; 0; 0], 8), Some hop6)] /\
  out_hops (out_run out_policy_session None [out_tagged 20 7 hop4; out_tagged 20 8 hop6]) =
    Some [((IPV4 [20; 0; 0; 0], 8), Some hop4)] /\
  out_hops (out_run out_policy_session (Some sample_cache) [out_tagged 20 8 hop6; out_tagged 20 7 hop4]) =
    Some [((IPV4 [20; 0; 0; 0], 8), None)] /\
  out_hops (out_run out_policy_session None [out_tagged 20 8 hop6; out_tagged 20 7 hop4]) =
    Some [((IPV4 [20; 0; 0; 0], 8), Some hop4)].
Proof. vm_compute. split_and!; reflexivity. Qed.
