(* ===== verification/PathConversion.v ===== *)
(** * Paths and the attributes of an UPDATE

    lib/BgpUtil.cpp: an UPDATE's attributes become a path ([bgpAttributesToBgpPathC]),
    the inverse of [BgpPath::getBgpUpdate2].  [None] is an address that does not
    read, an exception that leaves a [noexcept] function. *)

From stdpp Require Import gmap strings sorting.
From S2P Require Import Prelude BgpException Folly BgpStructs PathAttrs PathAttrsSerializer RouteFilter RouteInfo RibEntry.
From S2P Require Import DeDuplicator PathFields PackingList AdjRibOut.

Section Conversion.
Context `{F : FollyOps}.

(** [std::set<uint32_t>] of numbers, and a segment with such numbers *)
Definition asnSet (l : list Z) : list Z := fold_left (fun s x => set_insert x s) (uint 32 <$> l) [].
Definition segmentC (s : BgpAttrAsPathSegment) : BgpAttrAsPathSegment :=
  mkSegment (asnSet (asSet s)) (uint 32 <$> asSequence s) (uint 32 <$> asConfedSequence s)
    (asnSet (asConfedSet s)).

Definition addressC (s : string) : option IPAddress :=
  if decide (s = "") then Some IPUnset
  else match ip_of_str s with Ok ip => Some ip | _ => None end.

(** The weight is copied from the attributes, where neither the parser nor the
    code that builds updates sets it: it is 0. *)
Definition bgpAttributesToBgpPathC (a : BgpAttributes) : option BgpPathFields :=
  nh ← addressC (nexthop a);
  ip ← addressC (agg_ip (aggregator a));
  Some (mkPathFields
    (mkAttributesC (origin a) (segmentC <$> asPath a) (uint 32 (med a)) (isMedSet a)
       (uint 32 <$> localPref a) (atomicAggregate a) (uint 32 (agg_asn (aggregator a)), ip)
       (default [] (preprocessPtr comm_le true
          ((fun c => mkCommunity (uint 16 (comm_asn c)) (uint 16 (comm_value c))) <$> communities a)))
       (htonl (originatorId a)) (htonl <$> clusterList a)
       (default [] (preprocessPtr ext_le true
          ((fun c => mkExtCommunity (uint 32 (firstWord c)) (uint 32 (secondWord c))) <$>
             extCommunities a))) 0)
    nh None None).
End Conversion.

(** ** Round trip *)

(** What the fields of a path are documented to hold. *)
Definition wf_segmentC (s : BgpAttrAsPathSegment) : Prop :=
  Forall u32 (asSequence s) /\ Forall u32 (asConfedSequence s) /\
  Forall u32 (asSet s) /\ StronglySorted Z.lt (asSet s) /\
  Forall u32 (asConfedSet s) /\ StronglySorted Z.lt (asConfedSet s).

Record wf_pathC (p : BgpPathFields) : Prop := {
  wfp_asPath : Forall wf_segmentC (getAsPath p);
  wfp_med : u32 (ac_med (pf_attrs p));
  wfp_localPref v : ac_localPref (pf_attrs p) = Some v -> u32 v;
  wfp_aggregator : u32 (ac_aggregator (pf_attrs p)).1 /\ wf_ip (ac_aggregator (pf_attrs p)).2;
  wfp_communities : Forall (fun c => u16 (comm_asn c) /\ u16 (comm_value c)) (getCommunities p) /\
    StronglySorted comm_le (getCommunities p);
  wfp_extCommunities : Forall (fun c => u32 (firstWord c) /\ u32 (secondWord c)) (getExtCommunities p) /\
    StronglySorted ext_le (getExtCommunities p);
  wfp_originatorId : u32 (ac_originatorId (pf_attrs p));
  wfp_clusterList : Forall u32 (ac_clusterList (pf_attrs p));
  wfp_nexthop : wf_ip (pf_nexthop p)
}.

#[local] Transparent le_decode.
Lemma htonl_involutive v : u32 v -> htonl (htonl v) = v.
Proof.
  intros Hv. unfold htonl, le_decode. set (bs := be_encode 4 v).
  assert (Hl : length (rev bs) = 4%nat) by (rewrite length_rev; apply length_be_encode).
  rewrite <- Hl at 1. rewrite be_encode_decode, rev_involutive.
  - unfold bs. rewrite be_decode_encode. by apply Z.mod_small.
  - apply Forall_rev, wf_be_encode.
Qed.

Lemma map_id_Forall {X} (P : X -> Prop) (f : X -> X) (l : list X) :
  (forall x, P x -> f x = x) -> Forall P l -> f <$> l = l.
Proof. intros Hf. induction 1; csimpl; [done|]. by rewrite Hf, IHForall. Qed.

Lemma uint32_id v : u32 v -> uint 32 v = v.
Proof. intros. by apply uint_id. Qed.

Lemma asnSet_id l : Forall u32 l -> StronglySorted Z.lt l -> asnSet l = l.
Proof.
  intros Hl Hs. unfold asnSet. rewrite (map_id_Forall u32) by (done || apply uint32_id).
  by rewrite fold_set_insert.
Qed.

Lemma preprocess_sorted {X} `{EqDecision X} (R : relation X) `{!RelDecision R} `{!Transitive R}
    `{!AntiSymm (=) R} `{!Total R} (l : list X) :
  StronglySorted R l -> default [] (preprocessPtr R true l) = l.
Proof.
  intros Hs. destruct l as [|x l]; [done|]. simpl. apply (StronglySorted_unique R).
  - apply StronglySorted_merge_sort; apply _.
  - done.
  - apply merge_sort_Permutation.
Qed.
#[local] Opaque le_decode.

Section RoundTrip.
Context `{F : FollyOps} `{L : !FollyLaws F} `{RC : RibContext}.

(** What a peer can know of a path: an unset MED has the value the getter reads, and
    weight, topology and backup address stay here. *)
Definition wireImage (p : BgpPathFields) : BgpPathFields :=
  let a := pf_attrs p in
  mkPathFields
    (mkAttributesC (ac_origin a) (ac_asPath a) (pf_getMed p) (ac_isMedSet a) (ac_localPref a)
       (ac_atomicAggregate a) (ac_aggregator a) (ac_communities a) (ac_originatorId a)
       (ac_clusterList a) (ac_extCommunities a) 0) (pf_nexthop p) None None.

Lemma addressC_str ip : wf_ip ip -> addressC (if ip_empty ip then "" else ip_str ip) = Some ip.
Proof.
  intros Hw. unfold addressC, ip_empty. destruct (decide (ip = IPUnset)) as [->|Hne]; [done|].
  replace (match ip with IPUnset => true | _ => false end) with false by (by destruct ip).
  rewrite decide_False by (by apply ip_str_nonempty). by rewrite ip_of_str_str.
Qed.

Lemma segmentC_id s : wf_segmentC s -> segmentC s = s.
Proof.
  intros (H1 & H2 & H3 & H4 & H5 & H6). unfold segmentC. rewrite !asnSet_id by done.
  rewrite !(map_id_Forall u32) by (done || apply uint32_id). by destruct s.
Qed.

Lemma comms_id l :
  Forall (fun c => u16 (comm_asn c) /\ u16 (comm_value c)) l ->
  (fun c => mkCommunity (uint 16 (comm_asn c)) (uint 16 (comm_value c))) <$> l = l.
Proof. apply map_id_Forall. intros [] [? ?]. simpl in *. by rewrite !uint_id. Qed.
Lemma exts_id l :
  Forall (fun c => u32 (firstWord c) /\ u32 (secondWord c)) l ->
  (fun c => mkExtCommunity (uint 32 (firstWord c)) (uint 32 (secondWord c))) <$> l = l.
Proof. apply map_id_Forall. intros [] [? ?]. simpl in *. by rewrite !uint_id. Qed.

Lemma getMed_u32 p : u32 (ac_med (pf_attrs p)) -> u32 (pf_getMed p).
Proof.
  intros Hm. unfold pf_getMed. destruct (ac_isMedSet _); [done|]. unfold getMedNotSetValue.
  by destruct (enableMedMissingAsWorst features).
Qed.

(** C39. A path becomes the attributes of an UPDATE and is read back by the peer
    as the same path, but for what is not sent: weight, topology, backup address,
    and an unset MED as the value it stands for. *)
Theorem path_conversion_roundtrip (p : BgpPathFields) (Hp : wf_pathC p) :
  bgpAttributesToBgpPathC (getBgpAttributes p) = Some (wireImage p).
Proof.
  destruct Hp as [H1 H2 H3 [H4 H4'] [H5 H5'] [H6 H6'] H7 H8 H9].
  unfold bgpAttributesToBgpPathC, getBgpAttributes. cbn [nexthop aggregator agg_ip agg_asn].
  rewrite !addressC_str by done. cbn [mbind option_bind]. unfold wireImage. f_equal. f_equal.
  cbn [origin asPath med isMedSet localPref atomicAggregate communities originatorId clusterList
       extCommunities].
  rewrite (map_id_Forall wf_segmentC segmentC) by (done || apply segmentC_id).
  rewrite uint32_id by (by apply getMed_u32). rewrite uint32_id by done. rewrite htonl_involutive by done.
  rewrite <- list_fmap_compose. rewrite (map_id_Forall u32 (htonl ∘ htonl)) by (done || apply htonl_involutive).
  rewrite comms_id, exts_id, (preprocess_sorted comm_le), (preprocess_sorted ext_le) by done.
  destruct (ac_localPref (pf_attrs p)) as [v|] eqn:E; simpl; [rewrite uint32_id by (by apply H3)|];
    by destruct (ac_aggregator (pf_attrs p)).
Qed.
End RoundTrip.
