(* ===== verification/AdjRibIn.v ===== *)
(** * The Adj-RIB-In of a peer

    adjrib/AdjRibIn.cpp, the parts of AdjRib.cpp that keep its entries, and the limits
    it checks: the set of unique prefixes and the golden prefix policy of
    rib/RibPolicy.cpp.  UPDATE messages are checked, run through filters and the
    ingress policy, kept per prefix and path id, and passed on to the RIB; at the end
    of a session entries become stale until the peer has announced its routes again.

    [None] is a failed [CHECK] or an exception that leaves a [noexcept] function.
    What all peers share (totals, unique prefixes, safe mode, golden prefix policy) is
    [InGlobals]; other peers change it between two steps.  The order in which groups of
    prefixes are passed on and whether two pointers to equal paths are the same one are
    arguments. *)

From stdpp Require Import gmap fin_maps strings.
From Stdlib Require Import SpecFloat.
From S2P Require Import Prelude BgpException Folly BgpStructs PathAttrs RouteFilter RouteInfo RibEntry Ucmp.
From S2P Require Import DeDuplicator PathFields PolicyEncoding PolicyAction PolicyMatch.
From S2P Require Import PolicyEngine PolicyEngineSpec PolicyTerm PolicyMask PolicyCache AdjRibCommon.
From S2P Require Import PackingList AdjRibOut PathConversion.

(** ** Unique prefixes ([AdjRibPrefixSet]) *)

Record PrefixRef := mkPrefixRef { refCount_ : Z; isGoldenVip_ : bool }.
Record AdjRibPrefixSet := mkPrefixSet {
  uniquePrefixes_ : gmap CIDRNetwork PrefixRef;
  totalGoldenVipPrefixesCount_ : Z
}.

Definition addPrefix (network : CIDRNetwork) (isGoldenVip : bool) (s : AdjRibPrefixSet)
    : AdjRibPrefixSet :=
  let r := default (mkPrefixRef 0 false) (uniquePrefixes_ s !! network) in
  mkPrefixSet
    (<[network := mkPrefixRef (uint 64 (refCount_ r + 1)) (isGoldenVip_ r || isGoldenVip)]>
       (uniquePrefixes_ s))
    (if negb (isGoldenVip_ r) && isGoldenVip
     then uint 64 (totalGoldenVipPrefixesCount_ s + 1) else totalGoldenVipPrefixesCount_ s).

Definition delPrefix (network : CIDRNetwork) (s : AdjRibPrefixSet) : AdjRibPrefixSet :=
  match uniquePrefixes_ s !! network with
  | None => s
  | Some r =>
      let n := uint 64 (refCount_ r - 1) in
      if n <=? 0 then
        mkPrefixSet (delete network (uniquePrefixes_ s))
          (if isGoldenVip_ r
           then (if totalGoldenVipPrefixesCount_ s =? 0 then 0 else totalGoldenVipPrefixesCount_ s - 1)
           else totalGoldenVipPrefixesCount_ s)
      else mkPrefixSet (<[network := mkPrefixRef n (isGoldenVip_ r)]> (uniquePrefixes_ s))
             (totalGoldenVipPrefixesCount_ s)
  end.

Definition markGoldenVip (network : CIDRNetwork) (s : AdjRibPrefixSet) : AdjRibPrefixSet :=
  match uniquePrefixes_ s !! network with
  | Some (mkPrefixRef n false) =>
      mkPrefixSet (<[network := mkPrefixRef n true]> (uniquePrefixes_ s))
        (uint 64 (totalGoldenVipPrefixesCount_ s + 1))
  | _ => s
  end.

Definition isOverPrefixLimit (network : CIDRNetwork) (limit : Z) (s : AdjRibPrefixSet) : bool :=
  let n := Z.of_nat (size (uniquePrefixes_ s)) in
  if limit <? n then true
  else if n =? limit then negb (bool_decide (is_Some (uniquePrefixes_ s !! network)))
  else false.

(** ** The golden prefix policy *)

Record ParentPrefixTreeNode := mkParentNode {
  maxSubnetCount_ : Z;
  golden_communities_ : option (list BgpAttrCommunity);
  subnets_ : gmap CIDRNetwork Z
}.

Section Golden.
Context `{PL : PrefixLibs}.

(** The tree of parents is fixed by the configuration; what changes is kept by parent. *)
Record GoldenPrefixSubnetCountingTree := mkCountingTree {
  parentPrefixRadixTree_ : tree unit;
  parentNodes : gmap CIDRNetwork ParentPrefixTreeNode
}.

(** [longestMatch] *)
Definition goldenParent (prefix : CIDRNetwork) (t : GoldenPrefixSubnetCountingTree)
    : option (CIDRNetwork * ParentPrefixTreeNode) :=
  trail ← longestMatchWithTrail (parentPrefixRadixTree_ t) prefix;
  '(parent, _) ← last trail;
  node ← parentNodes t !! parent;
  Some (parent, node).

Definition treeAllowPrefix (prefix : CIDRNetwork) (attrs : BgpPathFields)
    (t : GoldenPrefixSubnetCountingTree) : bool :=
  match goldenParent prefix t with
  | None => false
  | Some (_, node) =>
      if negb (bool_decide (is_Some (subnets_ node !! prefix)) ||
               (Z.of_nat (size (subnets_ node)) <? uint 64 (maxSubnetCount_ node)))
      then false
      else match golden_communities_ node with
           | None => true
           | Some cs => existsb (fun c => bool_decide (c ∈ cs)) (getCommunities attrs)
           end
  end.

Definition setNode (parent : CIDRNetwork) (node : ParentPrefixTreeNode) (s : gmap CIDRNetwork Z)
    (t : GoldenPrefixSubnetCountingTree) : GoldenPrefixSubnetCountingTree :=
  mkCountingTree (parentPrefixRadixTree_ t)
    (<[parent := mkParentNode (maxSubnetCount_ node) (golden_communities_ node) s]> (parentNodes t)).

Definition treeIncrementSubnet (prefix : CIDRNetwork) (t : GoldenPrefixSubnetCountingTree)
    : GoldenPrefixSubnetCountingTree :=
  match goldenParent prefix t with
  | None => t
  | Some (parent, node) =>
      setNode parent node (<[prefix := default 0 (subnets_ node !! prefix) + 1]> (subnets_ node)) t
  end.

(** [operator[]] inserts 0 for an unknown subnet. *)
Definition treeDecrementSubnet (prefix : CIDRNetwork) (t : GoldenPrefixSubnetCountingTree)
    : GoldenPrefixSubnetCountingTree :=
  match goldenParent prefix t with
  | None => t
  | Some (parent, node) =>
      let n := default 0 (subnets_ node !! prefix) - 1 in
      setNode parent node
        (if n <=? 0 then delete prefix (subnets_ node) else <[prefix := n]> (subnets_ node)) t
  end.

(** Without a prefix list both trees are absent. *)
Record GoldenPrefixPolicy := mkGoldenPrefixPolicy {
  goldenTrees : option (PrefixTree * GoldenPrefixSubnetCountingTree)
}.

Definition allowPrefix (prefix : CIDRNetwork) (attrs : BgpPathFields) (p : GoldenPrefixPolicy) : bool :=
  match goldenTrees p with
  | None => true
  | Some (t, counting) => prefixTreeMatch t prefix && treeAllowPrefix prefix attrs counting
  end.
Definition mapCounting (f : GoldenPrefixSubnetCountingTree -> GoldenPrefixSubnetCountingTree)
    (p : GoldenPrefixPolicy) : GoldenPrefixPolicy :=
  mkGoldenPrefixPolicy ((fun '(t, c) => (t, f c)) <$> goldenTrees p).
Definition incrementSubnet (prefix : CIDRNetwork) : GoldenPrefixPolicy -> GoldenPrefixPolicy :=
  mapCounting (treeIncrementSubnet prefix).
Definition decrementSubnet (prefix : CIDRNetwork) : GoldenPrefixPolicy -> GoldenPrefixPolicy :=
  mapCounting (treeDecrementSubnet prefix).

(** ** Configuration *)

Record RouteLimit := mkRouteLimit { max_routes : Z; warning_only : bool; warning_limit : Z }.

Inductive OverloadProtectionMode := DROP_EXCESS_PREFIXES | APPLY_GOLDEN_PREFIX_POLICY.
Record BgpSwitchLimitConfig := mkSwitchLimit {
  prefix_limit : option Z;
  path_limit : option Z;
  overload_protection_mode : OverloadProtectionMode;
  max_golden_vips : option Z
}.

Record InConfig := mkInConfig {
  in_session : AdjRibSession;
  in_routerId : Z;
  in_isRedistributePeer : bool;
  in_ucmpWeight : option spec_float;
  in_description : string;
  ingressPolicyName_ : option string;
  ingressFilter_ : option RibRouteFilter;
  preRouteLimit : option RouteLimit;
  postRouteLimit : option RouteLimit;
  switchLimitConfig_ : option BgpSwitchLimitConfig;
  enableOptimizedGR_ : bool;
  isRouteRefreshNegotiated_ : bool;
  isEnhancedRouteRefreshNegotiated_ : bool
}.

(** ** State *)

(** The fields of [AdjRibEntry] of a received path. *)
Record RibInEntry := mkRibInEntry {
  in_pathId : Z;
  preIn : option BgpPathFields;
  postIn : option BgpPathFields;
  postInPolicy : string;
  isStale : bool
}.
Definition newRibInEntry (pathId : Z) : RibInEntry := mkRibInEntry pathId None None "" false.
Definition setPreIn (v : option BgpPathFields) (e : RibInEntry) : RibInEntry :=
  mkRibInEntry (in_pathId e) v (postIn e) (postInPolicy e) (isStale e).
Definition setPostIn (v : option BgpPathFields) (e : RibInEntry) : RibInEntry :=
  mkRibInEntry (in_pathId e) (preIn e) v (postInPolicy e) (isStale e).
Definition setPostInPolicy (v : string) (e : RibInEntry) : RibInEntry :=
  mkRibInEntry (in_pathId e) (preIn e) (postIn e) v (isStale e).
Definition setStale (v : bool) (e : RibInEntry) : RibInEntry :=
  mkRibInEntry (in_pathId e) (preIn e) (postIn e) (postInPolicy e) v.

Record InGlobals := mkInGlobals {
  totalRcvdPrefixCount : Z;
  totalAcceptedPrefixCount : Z;
  totalDroppedPrefixCount : Z;
  totalSentPrefixCount : Z;
  prefixSet_ : AdjRibPrefixSet;
  isSafeModeOn : bool;
  goldenPrefixPolicy_ : option GoldenPrefixPolicy
}.

Record InTrees := mkInTrees {
  recAddPath_ : bool;
  adjRibInPathTree_ : gmap PrefixPathId RibInEntry;
  adjRibInLiteTree_ : gmap CIDRNetwork RibInEntry;
  adjRibInStale_ : gmap PrefixPathId RibInEntry;
  staleEntryCount_ : Z
}.

Inductive RibInMessage :=
| RibInAnnouncement (peer : TinyPeerInfo) (pfxPathIds : list PrefixPathId) (attrs : BgpPathFields)
| RibInWithdrawal (peer : TinyPeerInfo) (pfxPathIds : list PrefixPathId).

(** What the peer manager is told. *)
Inductive AdjRibEvent := EvEoR | EvShutdown | EvTriggerSafeMode | EvRouteRefreshReceived (afi : Z).
End Golden.

Section In.
Context `{F : FollyOps} `{L : PolicyLibs} `{PL : PrefixLibs} `{RC : RibContext}.
Context {ECM : EvictingCacheMap PolicyCacheMaskedKey PolicyCacheValue}.

Record AdjRibIn := mkAdjRibIn {
  trees : InTrees;
  preInPrefixCount : PrefixCount;
  postInPrefixCount : PrefixCount;
  in_policyCache_ : option AdjRibPolicyCache;
  globals : InGlobals;
  pendingIngressEoRAfis_ : gset Z;
  stalePathTimer_ : bool;
  remoteGrRestartTimer_ : bool;
  remoteGrRestartTime_ : Z;
  ribInQ_ : list RibInMessage;
  pendingRibInPushes_ : list RibInMessage;   (** the scheduled tasks that have not pushed yet *)
  fromAdjRibQ_ : list AdjRibEvent
}.

Definition set_trees (t : InTrees) (a : AdjRibIn) : AdjRibIn :=
  mkAdjRibIn t (preInPrefixCount a) (postInPrefixCount a) (in_policyCache_ a) (globals a)
    (pendingIngressEoRAfis_ a) (stalePathTimer_ a) (remoteGrRestartTimer_ a) (remoteGrRestartTime_ a)
    (ribInQ_ a) (pendingRibInPushes_ a) (fromAdjRibQ_ a).
Definition set_counts (pre post : PrefixCount) (a : AdjRibIn) : AdjRibIn :=
  mkAdjRibIn (trees a) pre post (in_policyCache_ a) (globals a)
    (pendingIngressEoRAfis_ a) (stalePathTimer_ a) (remoteGrRestartTimer_ a) (remoteGrRestartTime_ a)
    (ribInQ_ a) (pendingRibInPushes_ a) (fromAdjRibQ_ a).
Definition set_inCache (c : option AdjRibPolicyCache) (a : AdjRibIn) : AdjRibIn :=
  mkAdjRibIn (trees a) (preInPrefixCount a) (postInPrefixCount a) c (globals a)
    (pendingIngressEoRAfis_ a) (stalePathTimer_ a) (remoteGrRestartTimer_ a) (remoteGrRestartTime_ a)
    (ribInQ_ a) (pendingRibInPushes_ a) (fromAdjRibQ_ a).
Definition set_globals (g : InGlobals) (a : AdjRibIn) : AdjRibIn :=
  mkAdjRibIn (trees a) (preInPrefixCount a) (postInPrefixCount a) (in_policyCache_ a) g
    (pendingIngressEoRAfis_ a) (stalePathTimer_ a) (remoteGrRestartTimer_ a) (remoteGrRestartTime_ a)
    (ribInQ_ a) (pendingRibInPushes_ a) (fromAdjRibQ_ a).
Definition set_restart (afis : gset Z) (stalePath remoteGr : bool) (time : Z) (a : AdjRibIn) : AdjRibIn :=
  mkAdjRibIn (trees a) (preInPrefixCount a) (postInPrefixCount a) (in_policyCache_ a) (globals a)
    afis stalePath remoteGr time (ribInQ_ a) (pendingRibInPushes_ a) (fromAdjRibQ_ a).
Definition pushRibIn (m : RibInMessage) (a : AdjRibIn) : AdjRibIn :=
  mkAdjRibIn (trees a) (preInPrefixCount a) (postInPrefixCount a) (in_policyCache_ a) (globals a)
    (pendingIngressEoRAfis_ a) (stalePathTimer_ a) (remoteGrRestartTimer_ a) (remoteGrRestartTime_ a)
    (ribInQ_ a ++ [m]) (pendingRibInPushes_ a) (fromAdjRibQ_ a).
Definition pushEvent (ev : AdjRibEvent) (a : AdjRibIn) : AdjRibIn :=
  mkAdjRibIn (trees a) (preInPrefixCount a) (postInPrefixCount a) (in_policyCache_ a) (globals a)
    (pendingIngressEoRAfis_ a) (stalePathTimer_ a) (remoteGrRestartTimer_ a) (remoteGrRestartTime_ a)
    (ribInQ_ a) (pendingRibInPushes_ a) (fromAdjRibQ_ a ++ [ev]).
Definition set_pendingPushes (l : list RibInMessage) (a : AdjRibIn) : AdjRibIn :=
  mkAdjRibIn (trees a) (preInPrefixCount a) (postInPrefixCount a) (in_policyCache_ a) (globals a)
    (pendingIngressEoRAfis_ a) (stalePathTimer_ a) (remoteGrRestartTimer_ a) (remoteGrRestartTime_ a)
    (ribInQ_ a) l (fromAdjRibQ_ a).

(** ** Entries: the tree of the session's add-path mode *)

Definition setPathTree (m : gmap PrefixPathId RibInEntry) (t : InTrees) : InTrees :=
  mkInTrees (recAddPath_ t) m (adjRibInLiteTree_ t) (adjRibInStale_ t) (staleEntryCount_ t).
Definition setLiteTree (m : gmap CIDRNetwork RibInEntry) (t : InTrees) : InTrees :=
  mkInTrees (recAddPath_ t) (adjRibInPathTree_ t) m (adjRibInStale_ t) (staleEntryCount_ t).
Definition setStaleTree (m : gmap PrefixPathId RibInEntry) (t : InTrees) : InTrees :=
  mkInTrees (recAddPath_ t) (adjRibInPathTree_ t) (adjRibInLiteTree_ t) m (staleEntryCount_ t).
Definition setStaleEntryCount (n : Z) (t : InTrees) : InTrees :=
  mkInTrees (recAddPath_ t) (adjRibInPathTree_ t) (adjRibInLiteTree_ t) (adjRibInStale_ t) n.

Definition getRibEntry (pp : PrefixPathId) (t : InTrees) : option RibInEntry :=
  if recAddPath_ t then adjRibInPathTree_ t !! pp else adjRibInLiteTree_ t !! pp.1.

(** A change of an entry through the pointer to it. *)
Definition putRibEntry (pp : PrefixPathId) (e : RibInEntry) (t : InTrees) : InTrees :=
  if recAddPath_ t then setPathTree (<[pp := e]> (adjRibInPathTree_ t)) t
  else setLiteTree (<[pp.1 := e]> (adjRibInLiteTree_ t)) t.

Definition addRibEntry (pp : PrefixPathId) (t : InTrees) : InTrees :=
  if recAddPath_ t then setPathTree (<[pp := newRibInEntry pp.2]> (adjRibInPathTree_ t)) t
  else match adjRibInLiteTree_ t !! pp.1 with
       | Some _ => t
       | None => setLiteTree (<[pp.1 := newRibInEntry pp.2]> (adjRibInLiteTree_ t)) t
       end.

Definition deleteRibEntry (pp : PrefixPathId) (t : InTrees) : InTrees :=
  if recAddPath_ t then setPathTree (delete pp (adjRibInPathTree_ t)) t
  else setLiteTree (delete pp.1 (adjRibInLiteTree_ t)) t.

(** ** Counters *)

Definition decrementCount (isIpv4 : bool) (c : PrefixCount) : PrefixCount :=
  if isIpv4
  then mkPrefixCount (uint 32 (count_all c - 1)) (uint 32 (count_ipv4 c - 1)) (count_ipv6 c)
  else mkPrefixCount (uint 32 (count_all c - 1)) (count_ipv4 c) (uint 32 (count_ipv6 c - 1)).

(** Totals of received and accepted prefixes, and what else a new or withdrawn prefix
    changes for all peers. *)
Definition addReceived (prefix : CIDRNetwork) (isGoldenVip : bool) (g : InGlobals) : InGlobals :=
  mkInGlobals (uint 32 (totalRcvdPrefixCount g + 1)) (totalAcceptedPrefixCount g)
    (totalDroppedPrefixCount g) (totalSentPrefixCount g) (addPrefix prefix isGoldenVip (prefixSet_ g))
    (isSafeModeOn g)
    (if isSafeModeOn g then incrementSubnet prefix <$> goldenPrefixPolicy_ g else goldenPrefixPolicy_ g).
Definition delReceived (prefix : CIDRNetwork) (g : InGlobals) : InGlobals :=
  mkInGlobals (uint 32 (totalRcvdPrefixCount g - 1)) (totalAcceptedPrefixCount g)
    (totalDroppedPrefixCount g) (totalSentPrefixCount g) (delPrefix prefix (prefixSet_ g))
    (isSafeModeOn g)
    (if isSafeModeOn g then decrementSubnet prefix <$> goldenPrefixPolicy_ g else goldenPrefixPolicy_ g).
Definition addAccepted (n : Z) (g : InGlobals) : InGlobals :=
  mkInGlobals (totalRcvdPrefixCount g) (uint 32 (totalAcceptedPrefixCount g + n))
    (totalDroppedPrefixCount g) (totalSentPrefixCount g) (prefixSet_ g) (isSafeModeOn g)
    (goldenPrefixPolicy_ g).

Definition incrementPreInPrefixCount (prefix : CIDRNetwork) (isGoldenVip : bool) (a : AdjRibIn) : AdjRibIn :=
  set_globals (addReceived prefix isGoldenVip (globals a))
    (set_counts (incrementPrefixCount (isV4 prefix.1) (preInPrefixCount a)) (postInPrefixCount a) a).
Definition decrementPreInPrefixCount (prefix : CIDRNetwork) (a : AdjRibIn) : AdjRibIn :=
  set_globals (delReceived prefix (globals a))
    (set_counts (decrementCount (isV4 prefix.1) (preInPrefixCount a)) (postInPrefixCount a) a).
Definition incrementPostInPrefixCount (isIpv4 : bool) (a : AdjRibIn) : AdjRibIn :=
  set_globals (addAccepted 1 (globals a))
    (set_counts (preInPrefixCount a) (incrementPrefixCount isIpv4 (postInPrefixCount a)) a).
Definition decrementPostInPrefixCount (isIpv4 : bool) (a : AdjRibIn) : AdjRibIn :=
  set_globals (addAccepted (-1) (globals a))
    (set_counts (preInPrefixCount a) (decrementCount isIpv4 (postInPrefixCount a)) a).

Definition incrementPrefixesDroppedByLimit (count : Z) (a : AdjRibIn) : AdjRibIn :=
  let g := globals a in
  set_globals (mkInGlobals (totalRcvdPrefixCount g) (totalAcceptedPrefixCount g)
    (uint 32 (totalDroppedPrefixCount g + count)) (totalSentPrefixCount g) (prefixSet_ g)
    (isSafeModeOn g) (goldenPrefixPolicy_ g)) a.

(** ** Limits *)

Section Config.
Variable config : InConfig.
Abbreviation params := (peeringParams_ (in_session config)).
Abbreviation inSessionType := (sessionType (in_session config)).
Abbreviation inRemoteAs := (remoteAs_ (in_session config)).

Definition kGoldenVipCommunity : BgpAttrCommunity := mkCommunity 65446 400.
Definition isGoldenVip (comms : list BgpAttrCommunity) : bool :=
  existsb (fun c => bool_decide (c = kGoldenVipCommunity)) comms.

Definition triggerSafeMode (a : AdjRibIn) : AdjRibIn :=
  let g := globals a in
  if isSafeModeOn g then a
  else pushEvent EvTriggerSafeMode
         (set_globals (mkInGlobals (totalRcvdPrefixCount g) (totalAcceptedPrefixCount g)
            (totalDroppedPrefixCount g) (totalSentPrefixCount g) (prefixSet_ g) true
            (goldenPrefixPolicy_ g)) a).

Definition allowGoldenVip (network : CIDRNetwork) (s : AdjRibPrefixSet) : bool :=
  let goldenVipLimit := default 0 (switchLimitConfig_ config ≫= max_golden_vips) in
  match uniquePrefixes_ s !! network with Some r => isGoldenVip_ r | None => false end ||
  (negb (goldenVipLimit =? 0) && (totalGoldenVipPrefixesCount_ s <=? uint 64 (goldenVipLimit - 1))).

Definition exceededSwitchPrefixLimit (totalPathCount : Z) (network : CIDRNetwork)
    (limit : BgpSwitchLimitConfig) (g : InGlobals) : bool :=
  match path_limit limit with Some l => uint 64 l <? totalPathCount | None => false end ||
  match prefix_limit limit with
  | Some l => isOverPrefixLimit network (uint 64 l) (prefixSet_ g)
  | None => false
  end.

Definition dropPrefixForOverloadProtection (totalPathCount : Z) (network : CIDRNetwork)
    (attrs : BgpPathFields) (a : AdjRibIn) : bool * AdjRibIn :=
  match switchLimitConfig_ config with
  | None => (false, a)
  | Some limit =>
      let exceeded := exceededSwitchPrefixLimit totalPathCount network limit (globals a) in
      match overload_protection_mode limit with
      | DROP_EXCESS_PREFIXES => (exceeded, a)
      | APPLY_GOLDEN_PREFIX_POLICY =>
          let a := if exceeded then triggerSafeMode a else a in
          match goldenPrefixPolicy_ (globals a) with
          | Some policy =>
              if isSafeModeOn (globals a) && negb (allowPrefix network attrs policy) then
                if isGoldenVip (getCommunities attrs)
                then (negb (allowGoldenVip network (prefixSet_ (globals a))), a)
                else (true, a)
              else (exceeded, a)
          | None => (exceeded, a)
          end
      end
  end.

Definition capRoutesPerPeer (routeCnt : Z) (isPrefilter : bool) (a : AdjRibIn) : bool * AdjRibIn :=
  match if isPrefilter then preRouteLimit config else postRouteLimit config with
  | None => (false, a)
  | Some limit =>
      if (max_routes limit =? 0) || (routeCnt <=? uint 64 (max_routes limit)) then (false, a)
      else if warning_only limit then (true, a)
      else (true, pushEvent EvShutdown a)
  end.

Definition canAddRibInEntry (prefix : CIDRNetwork) (attrs : BgpPathFields) (a : AdjRibIn)
    : bool * AdjRibIn :=
  let g := globals a in
  let '(drop, a) := dropPrefixForOverloadProtection
    (uint 32 (totalRcvdPrefixCount g + totalSentPrefixCount g + 1)) prefix attrs a in
  if drop then (false, incrementPrefixesDroppedByLimit 1 a)
  else
  let '(cap, a) := capRoutesPerPeer (uint 32 (count_all (preInPrefixCount a) + 1)) true a in
  if cap then (false, incrementPrefixesDroppedByLimit 1 a) else (true, a).

(** ** Messages to the RIB *)

Definition peerInfo : TinyPeerInfo :=
  mkPeer (peerAddr params) inRemoteAs (in_routerId config) inSessionType (isRrClient params)
    (in_isRedistributePeer config) (in_ucmpWeight config) (in_description config).

Definition sendRibInAnnouncement (pfxPathIds : list PrefixPathId) (attrs : BgpPathFields)
    (a : AdjRibIn) : AdjRibIn :=
  if nonempty pfxPathIds then pushRibIn (RibInAnnouncement peerInfo pfxPathIds attrs) a else a.
Definition sendRibInWithdrawal (pfxPathIds : list PrefixPathId) (a : AdjRibIn) : AdjRibIn :=
  if nonempty pfxPathIds then pushRibIn (RibInWithdrawal peerInfo pfxPathIds) a else a.

(** What was decided of a batch of prefixes: those withdrawn and, by attributes, those
    announced. *)
Record Batch := mkBatch {
  withdrawnPfxPathIds : list PrefixPathId;
  groupAnnouncedPrefixes : gmap BgpPathFields (list PrefixPathId)
}.
Definition emptyBatch : Batch := mkBatch [] ∅.

(** How the hash maps and trees are walked. *)
Class InOrder := {
  group_walk : gmap BgpPathFields (list PrefixPathId) -> list (BgpPathFields * list PrefixPathId);
  entry_walk : gmap PrefixPathId RibInEntry -> list (PrefixPathId * RibInEntry);
  lite_walk : gmap CIDRNetwork RibInEntry -> list (CIDRNetwork * RibInEntry);
  purge_walk : gmap CIDRNetwork Z -> list (CIDRNetwork * Z)
}.
Context `{IO : InOrder}.

Definition sendRibInUpdates (b : Batch) (a : AdjRibIn) : AdjRibIn :=
  fold_left (fun a '(attrs, pps) => sendRibInAnnouncement pps attrs a)
    (group_walk (groupAnnouncedPrefixes b)) (sendRibInWithdrawal (withdrawnPfxPathIds b) a).

(** ** Policy *)

Section Policy.
Variable manager : PolicyManager.
Variable stale : PolicyCacheMaskedKey -> bool.

Definition blockedByIngressRouteFilter (prefix : CIDRNetwork) : bool :=
  match ingressFilter_ config with
  | None => false
  | Some f => negb (nonempty (applyFilter f [prefix]).1)
  end.

(** [d] is the address of the action data, [data] its contents, which are shared by
    the prefixes of a message. *)
Definition getPostInPolicyAttributes (prefix : CIDRNetwork) (prePolicyAttrs : BgpPathFields) (d : nat)
    (data : BgpPolicyActionData) (e : RibInEntry) (cache : option AdjRibPolicyCache)
    : option (option BgpPathFields * BgpPolicyActionData * RibInEntry * option AdjRibPolicyCache) :=
  match ingressPolicyName_ config with
  | Some name =>
      '(policyCachedAttrs, term, _, data, cache) ←
        getPostPolicyAttributesPolicyTermAndInfo manager stale cache name prefix prePolicyAttrs d data
          false;
      let e := setPostInPolicy term e in
      match policyCachedAttrs with
      | Some cached =>
          mask ← getPolicyAttributesMask manager name;
          Some (Some (replaceZerosInAsPath inRemoteAs
                        (overridePrePolicyAttributesCommon mask cached prePolicyAttrs)), data, e, cache)
      | None => Some (None, data, e, cache)
      end
  | None => Some (Some prePolicyAttrs, data, setPostInPolicy "" e, cache)
  end.

Definition getPostInRouteFilterAndPolicyAttributes (prefix : CIDRNetwork)
    (prePolicyAttrs : BgpPathFields) (d : nat) (data : BgpPolicyActionData) (e : RibInEntry)
    (cache : option AdjRibPolicyCache)
    : option (option BgpPathFields * BgpPolicyActionData * RibInEntry * option AdjRibPolicyCache) :=
  if blockedByIngressRouteFilter prefix
  then Some (None, data, setPostInPolicy "Denied by Route Filter Policy" e, cache)
  else getPostInPolicyAttributes prefix prePolicyAttrs d data e cache.

Definition addToGroup (attrs : BgpPathFields) (pp : PrefixPathId)
    (g : gmap BgpPathFields (list PrefixPathId)) : gmap BgpPathFields (list PrefixPathId) :=
  <[attrs := default [] (g !! attrs) ++ [pp]]> g.

(** [same]: the attributes are the very object the entry has.  Returns the number of
    prefixes announced too. *)
Definition maybeAnnouncePrefix (same : bool) (pp : PrefixPathId) (postInAttrs : option BgpPathFields)
    (e : RibInEntry) (b : Batch) (a : AdjRibIn) : RibInEntry * Batch * AdjRibIn * Z :=
  match postInAttrs, postIn e with
  | None, None => (e, b, a, 0)
  | None, Some _ =>
      (setPostIn None e, mkBatch (withdrawnPfxPathIds b ++ [pp]) (groupAnnouncedPrefixes b),
       decrementPostInPrefixCount (isV4 pp.1.1) a, 0)
  | Some attrs, old =>
      if bool_decide (old = Some attrs) && negb same then (e, b, a, 0)
      else
      let '(cap, a) := match old with
                       | Some _ => (false, a)
                       | None => capRoutesPerPeer (uint 32 (count_all (postInPrefixCount a) + 1)) false a
                       end in
      if cap then (e, b, incrementPrefixesDroppedByLimit 1 a, 0)
      else
      let a := match old with
               | Some _ => a
               | None => incrementPostInPrefixCount (isV4 pp.1.1) a
               end in
      (setPostIn (Some attrs) e,
       mkBatch (withdrawnPfxPathIds b) (addToGroup attrs pp (groupAnnouncedPrefixes b)), a, 1)
  end.

Definition processPrefixWithPolicy (same : bool) (pp : PrefixPathId) (postConfigInAttrs : BgpPathFields)
    (d : nat) (data : BgpPolicyActionData) (e : RibInEntry) (b : Batch) (a : AdjRibIn)
    : option (RibInEntry * Batch * BgpPolicyActionData * AdjRibIn * Z) :=
  '(postInAttrs, data, e, cache) ←
    getPostInRouteFilterAndPolicyAttributes pp.1 postConfigInAttrs d data e (in_policyCache_ a);
  let '(e, b, a, n) := maybeAnnouncePrefix same pp postInAttrs e b (set_inCache cache a) in
  Some (e, b, data, a, n).

Definition createPolicyActionData (attrs : BgpPathFields) : BgpPolicyActionData :=
  createPolicyActionDataCommon params attrs None None None None None.

(** ** Stale entries that are heard of again *)

Definition promoteStaleRibInEntryIfExists (pp : PrefixPathId) (t : InTrees) : option InTrees :=
  match adjRibInStale_ t !! pp with
  | None => Some t
  | Some e =>
      if negb (in_pathId e =? pp.2) then None
      else
      let t := if recAddPath_ t then setPathTree (<[pp := e]> (adjRibInPathTree_ t)) t
               else match adjRibInLiteTree_ t !! pp.1 with
                    | Some _ => t
                    | None => setLiteTree (<[pp.1 := e]> (adjRibInLiteTree_ t)) t
                    end in
      Some (setStaleTree (delete pp (adjRibInStale_ t)) t)
  end.

Definition promoteStaleRibInEntryIfExistsInPlace (pp : PrefixPathId) (t : InTrees) : InTrees :=
  match getRibEntry pp t with
  | Some e =>
      if isStale e
      then setStaleEntryCount (if 0 <? staleEntryCount_ t then staleEntryCount_ t - 1
                               else staleEntryCount_ t) (putRibEntry pp (setStale false e) t)
      else t
  | None => t
  end.

Definition promote (pp : PrefixPathId) (t : InTrees) : option InTrees :=
  if enableOptimizedGR_ config then Some (promoteStaleRibInEntryIfExistsInPlace pp t)
  else promoteStaleRibInEntryIfExists pp t.

(** ** Announcements *)

Definition prefixPathIdOf (recAddPath : bool) (rp : RiggedIPPrefix) : option PrefixPathId :=
  match toCIDRNetwork (rig_prefix rp) false with
  | Ok prefix => Some (prefix, if recAddPath then default kDefaultPathID (rig_pathId rp)
                               else kDefaultPathID)
  | _ => None
  end.

(** The entry to update, unless a limit refuses a new path. *)
Definition entryForAnnouncement (pp : PrefixPathId) (attrs : BgpPathFields) (isGoldenVipPrefix : bool)
    (a : AdjRibIn) : option RibInEntry * AdjRibIn :=
  match getRibEntry pp (trees a) with
  | Some (mkRibInEntry _ (Some _) _ _ _) as o => (o, a)
  | o =>
      let '(ok, a) := canAddRibInEntry pp.1 attrs a in
      if negb ok then (None, a)
      else
      let a := incrementPreInPrefixCount pp.1 isGoldenVipPrefix a in
      match o with
      | Some e => (Some e, a)
      | None => let t := addRibEntry pp (trees a) in (getRibEntry pp t, set_trees t a)
      end
  end.

(** The body of the loop of [processPeerAnnounced]. *)
Definition announceOne (same : bool) (pp : PrefixPathId) (attrs postConfigInAttrs : BgpPathFields)
    (isGoldenVipPrefix : bool) (d : nat) (data : BgpPolicyActionData) (b : Batch) (a : AdjRibIn)
    : option (BgpPolicyActionData * Batch * AdjRibIn) :=
  t ← promote pp (trees a);
  match entryForAnnouncement pp attrs isGoldenVipPrefix (set_trees t a) with
  | (None, a) => Some (data, b, a)
  | (Some e, a) =>
      if bool_decide (preIn e = Some attrs) then Some (data, b, a)
      else
      '(e, b, data, a, _) ←
        processPrefixWithPolicy same pp postConfigInAttrs d data (setPreIn (Some attrs) e) b a;
      Some (data, b, set_trees (putRibEntry pp e (trees a)) a)
  end.

Fixpoint announcePrefixes (same : PrefixPathId -> bool) (pps : list PrefixPathId)
    (attrs postConfigInAttrs : BgpPathFields) (isGoldenVipPrefix : bool) (d : nat)
    (data : BgpPolicyActionData) (b : Batch) (a : AdjRibIn) : option (Batch * AdjRibIn) :=
  match pps with
  | [] => Some (b, a)
  | pp :: pps =>
      '(data, b, a) ←
        announceOne (same pp) pp attrs postConfigInAttrs isGoldenVipPrefix d data b a;
      announcePrefixes same pps attrs postConfigInAttrs isGoldenVipPrefix d data b a
  end.

Definition processPeerAnnounced (same : PrefixPathId -> bool) (d : nat) (prefixes : list RiggedIPPrefix)
    (attrs : BgpPathFields) (a : AdjRibIn) : option AdjRibIn :=
  postConfigInAttrs ← updateAttributesIn params inSessionType attrs;
  pps ← mapM (prefixPathIdOf (recAddPath_ (trees a))) prefixes;
  let isGoldenVipPrefix := isSafeModeOn (globals a) &&
    bool_decide (is_Some (goldenPrefixPolicy_ (globals a))) && isGoldenVip (getCommunities attrs) in
  '(b, a) ← announcePrefixes same pps attrs postConfigInAttrs isGoldenVipPrefix d
              (createPolicyActionData attrs) emptyBatch a;
  Some (sendRibInUpdates b a).

(** ** Withdrawals *)

Definition processWithdrawnPrefixRibInEntry (pp : PrefixPathId) (pfxPathIds : list PrefixPathId)
    (a : AdjRibIn) : list PrefixPathId * AdjRibIn :=
  match getRibEntry pp (trees a) with
  | None => (pfxPathIds, a)
  | Some e =>
      let a := decrementPreInPrefixCount pp.1 a in
      let '(pfxPathIds, a) :=
        match postIn e with
        | Some _ => (pfxPathIds ++ [pp], decrementPostInPrefixCount (isV4 pp.1.1) a)
        | None => (pfxPathIds, a)
        end in
      (** [tryDeleteRibInEntry]: nothing is left in the entry *)
      (pfxPathIds, set_trees (deleteRibEntry pp (trees a)) a)
  end.

Fixpoint withdrawPrefixes (pps : list PrefixPathId) (pfxPathIds : list PrefixPathId) (a : AdjRibIn)
    : option (list PrefixPathId * AdjRibIn) :=
  match pps with
  | [] => Some (pfxPathIds, a)
  | pp :: pps =>
      t ← promote pp (trees a);
      let '(pfxPathIds, a) := processWithdrawnPrefixRibInEntry pp pfxPathIds (set_trees t a) in
      withdrawPrefixes pps pfxPathIds a
  end.

Definition processPeerWithdrawn (prefixes : list RiggedIPPrefix) (a : AdjRibIn) : option AdjRibIn :=
  pps ← mapM (prefixPathIdOf (recAddPath_ (trees a))) prefixes;
  '(pfxPathIds, a) ← withdrawPrefixes pps [] a;
  Some (sendRibInWithdrawal pfxPathIds a).

(** ** UPDATE messages *)

(** Announcements with attributes that are not accepted withdraw. *)
Definition processAnnounced (same : PrefixPathId -> bool) (d : nat) (prefixes : list RiggedIPPrefix)
    (attrs : BgpPathFields) (a : AdjRibIn) : option AdjRibIn :=
  verdict ← validateAttributesIn params inSessionType inRemoteAs attrs;
  match verdict with
  | AttributesValid => processPeerAnnounced same d prefixes attrs a
  | _ => processPeerWithdrawn prefixes a
  end.

(** Two announcements of one message have action data of their own: [d4] and [d6]. *)
Definition processPeerUpdate (same : PrefixPathId -> bool) (d4 d6 : nat) (u : BgpUpdate2) (a : AdjRibIn)
    : option AdjRibIn :=
  a ← (if nonempty (u_v4Withdrawn2 u) then processPeerWithdrawn (u_v4Withdrawn2 u) a else Some a);
  a ← (if nonempty (nlri_prefixes (u_mpWithdrawn u))
       then processPeerWithdrawn (nlri_prefixes (u_mpWithdrawn u)) a else Some a);
  a ← (if nonempty (u_v4Announced2 u)
       then attrs ← bgpAttributesToBgpPathC (u_attrs u);
            processAnnounced same d4 (u_v4Announced2 u) attrs a
       else Some a);
  if nonempty (nlri_prefixes (u_mpAnnounced u))
  then attrs ← bgpAttributesToBgpPathC (u_attrs u);
       match toIPAddress (nlri_nexthop (u_mpAnnounced u)) with
       | Ok nh => processAnnounced same d6 (nlri_prefixes (u_mpAnnounced u)) (setNexthop nh attrs) a
       | _ => None
       end
  else Some a.

(** ** Stale routes *)

(** What is withdrawn of the stale entries. *)
Definition dropStale (a : AdjRibIn) (x : PrefixPathId * RibInEntry) : AdjRibIn :=
  let a := decrementPreInPrefixCount x.1.1 a in
  match postIn x.2 with
  | Some _ => decrementPostInPrefixCount (isV4 x.1.1.1) a
  | None => a
  end.

Definition collectStaleRoutes (a : AdjRibIn) : option (option RibInMessage * AdjRibIn) :=
  let entries := entry_walk (adjRibInStale_ (trees a)) in
  if negb (forallb (fun x => in_pathId x.2 =? x.1.2) entries) then None
  else
  let a := fold_left dropStale entries a in
  let a := set_trees (setStaleTree ∅ (trees a)) a in
  Some (if nonempty entries then Some (RibInWithdrawal peerInfo (fst <$> entries)) else None, a).

Definition cleanupStaleRoutes (a : AdjRibIn) : option AdjRibIn :=
  '(withdrawal, a) ← collectStaleRoutes a;
  Some (match withdrawal with Some m => pushRibIn m a | None => a end).

(** Entries without attributes are not kept. *)
Definition learnt (e : RibInEntry) : bool := match preIn e with Some _ => true | None => false end.

Definition markLearntRoutesStale (t : InTrees) : InTrees :=
  if recAddPath_ t then
    mkInTrees true ∅ (adjRibInLiteTree_ t)
      (filter (fun x => learnt x.2 = true) (adjRibInPathTree_ t)) (staleEntryCount_ t)
  else
    mkInTrees false (adjRibInPathTree_ t) ∅
      (list_to_map ((fun x => (x.1, in_pathId x.2, x.2)) <$>
         map_to_list (filter (fun x => learnt x.2 = true) (adjRibInLiteTree_ t)))) (staleEntryCount_ t).

Definition markStale (e : RibInEntry) : RibInEntry :=
  if learnt e && negb (isStale e) then setStale true e else e.
Definition markLearntRoutesStaleInPlace (t : InTrees) : InTrees :=
  let fresh (e : RibInEntry) := learnt e && negb (isStale e) in
  if recAddPath_ t then
    mkInTrees true (markStale <$> adjRibInPathTree_ t) (adjRibInLiteTree_ t) (adjRibInStale_ t)
      (Z.of_nat (size (filter (fun x => fresh x.2 = true) (adjRibInPathTree_ t))))
  else
    mkInTrees false (adjRibInPathTree_ t) (markStale <$> adjRibInLiteTree_ t) (adjRibInStale_ t)
      (Z.of_nat (size (filter (fun x => fresh x.2 = true) (adjRibInLiteTree_ t)))).

(** ** End-of-RIB and Route Refresh *)

Definition processPeerEoR (afi : Z) (a : AdjRibIn) : option AdjRibIn :=
  let pending := pendingIngressEoRAfis_ a ∖ {[afi]} in
  let a' := set_restart pending (stalePathTimer_ a) (remoteGrRestartTimer_ a) (remoteGrRestartTime_ a) a in
  if bool_decide (afi ∈ pendingIngressEoRAfis_ a) && bool_decide (pending = ∅) then
    a' ← cleanupStaleRoutes
           (set_restart pending false (remoteGrRestartTimer_ a) (remoteGrRestartTime_ a) a);
    Some (pushEvent EvEoR a')
  else Some a'.

Definition ROUTE_REFRESH_REQUEST : Z := 0.
Definition triggerOutboundRedump (afi : Z) (a : AdjRibIn) : AdjRibIn :=
  let s := in_session config in
  if (afi =? AFI_IPv4) && isAfiIpv4Negotiated_ s || (afi =? AFI_IPv6) && isAfiIpv6Negotiated_ s
  then pushEvent (EvRouteRefreshReceived afi) a else a.
Definition processPeerRouteRefresh (afi safi subtype : Z) (a : AdjRibIn) : AdjRibIn :=
  if negb (isRouteRefreshNegotiated_ config) then a
  else if negb (safi =? SAFI_UNICAST) then a
  else if isEnhancedRouteRefreshNegotiated_ config && negb (subtype =? ROUTE_REFRESH_REQUEST) then a
  else triggerOutboundRedump afi a.

(** ** Begin and end of a session *)

Definition sessionEstablished (remoteGrRestartTime : option Z) (recAddPath : bool) (a : AdjRibIn) : AdjRibIn :=
  let s := in_session config in
  let t := trees a in
  let afis := pendingIngressEoRAfis_ a ∪ (if isAfiIpv4Negotiated_ s then {[AFI_IPv4]} else ∅)
                ∪ (if isAfiIpv6Negotiated_ s then {[AFI_IPv6]} else ∅) in
  set_trees (mkInTrees recAddPath (adjRibInPathTree_ t) (adjRibInLiteTree_ t) (adjRibInStale_ t)
               (staleEntryCount_ t))
    (set_restart afis (remoteGrRestartTimer_ a || stalePathTimer_ a) false
       (default 0 remoteGrRestartTime) a).

(** The part of [sessionTerminated] on the received routes. *)
Definition sessionTerminated (gracefulRestart : bool) (a : AdjRibIn) : option AdjRibIn :=
  a ← (if stalePathTimer_ a
       then a ← cleanupStaleRoutes a;
            Some (set_restart (pendingIngressEoRAfis_ a) false (remoteGrRestartTimer_ a)
                    (remoteGrRestartTime_ a) a)
       else Some a);
  let a := set_trees (if enableOptimizedGR_ config then markLearntRoutesStaleInPlace (trees a)
                      else markLearntRoutesStale (trees a)) a in
  if negb gracefulRestart || (remoteGrRestartTime_ a =? 0) then cleanupStaleRoutes a
  else if remoteGrRestartTimer_ a then None
  else Some (set_restart (pendingIngressEoRAfis_ a) (stalePathTimer_ a) true (remoteGrRestartTime_ a) a).

(** A timer's callback cannot wait for the queue: the push is a task of its own, and other
    steps may come before it.  Futures that are ready are gone from the list at once here. *)
Definition schedulePendingRibInPush (withdrawal : RibInMessage) (a : AdjRibIn) : AdjRibIn :=
  set_pendingPushes (pendingRibInPushes_ a ++ [withdrawal]) a.
Definition scheduleWithdrawal (withdrawal : option RibInMessage) (a : AdjRibIn) : AdjRibIn :=
  match withdrawal with Some m => schedulePendingRibInPush m a | None => a end.

(** [pushStaleWithdrawal] of the [i]-th task *)
Definition runPendingRibInPush (i : nat) (a : AdjRibIn) : option AdjRibIn :=
  m ← pendingRibInPushes_ a !! i;
  Some (pushRibIn m (set_pendingPushes (delete i (pendingRibInPushes_ a)) a)).

(** The timers expire. *)
Definition stalePathTimerExpired (a : AdjRibIn) : option AdjRibIn :=
  '(withdrawal, a) ← collectStaleRoutes a;
  Some (scheduleWithdrawal withdrawal
          (set_restart (pendingIngressEoRAfis_ a) false (remoteGrRestartTimer_ a) (remoteGrRestartTime_ a) a)).
Definition remoteGrRestartTimerExpired (a : AdjRibIn) : option AdjRibIn :=
  '(withdrawal, a) ← collectStaleRoutes
    (set_restart (pendingIngressEoRAfis_ a) (stalePathTimer_ a) false (remoteGrRestartTime_ a) a);
  Some (scheduleWithdrawal withdrawal a).

(** The peer is removed, or the daemon stops. *)
Definition cleanupGrState (isDaemonShutdown : bool) (a : AdjRibIn) : option AdjRibIn :=
  let cleanup a := if isDaemonShutdown then Some a else cleanupStaleRoutes a in
  a ← (if remoteGrRestartTimer_ a
       then a ← cleanup a;
            Some (set_restart (pendingIngressEoRAfis_ a) (stalePathTimer_ a) false (remoteGrRestartTime_ a) a)
       else Some a);
  if stalePathTimer_ a
  then a ← cleanup a;
       Some (set_restart (pendingIngressEoRAfis_ a) false (remoteGrRestartTimer_ a) (remoteGrRestartTime_ a) a)
  else Some a.

(** [cleanupStaleRoutesInPlace]: the keys of the entries marked stale, then their
    removal. *)
Definition liveEntries (t : InTrees) : list (PrefixPathId * RibInEntry) :=
  if recAddPath_ t then entry_walk (adjRibInPathTree_ t)
  else (fun x => ((x.1, in_pathId x.2), x.2)) <$> lite_walk (adjRibInLiteTree_ t).

Definition dropInPlace (a : AdjRibIn) (pp : PrefixPathId) : AdjRibIn :=
  match getRibEntry pp (trees a) with
  | None => a
  | Some e => let a := dropStale a (pp, e) in set_trees (deleteRibEntry pp (trees a)) a
  end.

Definition cleanupStaleRoutesInPlace (a : AdjRibIn) : option AdjRibIn :=
  if staleEntryCount_ (trees a) =? 0 then Some a
  else
  let entries := List.filter (fun x => isStale x.2 && learnt x.2) (liveEntries (trees a)) in
  if negb (forallb (fun x => in_pathId x.2 =? x.1.2) entries) then None
  else
  let a := fold_left dropInPlace (fst <$> entries) a in
  let a := pushRibIn (RibInWithdrawal peerInfo (fst <$> entries)) a in
  Some (set_trees (setStaleEntryCount 0 (trees a)) a).

(** ** Re-evaluation *)

Definition kPolicyReEvaluationBatchSize : Z := 1000.

(** Entries are changed where they are: among the live ones or the stale ones. *)
Definition putEntry (evaluateStale : bool) (pp : PrefixPathId) (e : RibInEntry) (t : InTrees) : InTrees :=
  if evaluateStale then setStaleTree (<[pp := e]> (adjRibInStale_ t)) t else putRibEntry pp e t.

Fixpoint reEvaluateEntries (same : PrefixPathId -> bool) (dataOf : PrefixPathId -> nat)
    (evaluateStale : bool) (entries : list (PrefixPathId * RibInEntry)) (b : Batch) (announced : Z)
    (a : AdjRibIn) : option (Batch * Z * AdjRibIn) :=
  match entries with
  | [] => Some (b, announced, a)
  | (pp, e) :: entries =>
      match preIn e with
      | None => reEvaluateEntries same dataOf evaluateStale entries b announced a
      | Some attrs =>
          postConfigInAttrs ← updateAttributesIn params inSessionType attrs;
          '(e, b, _, a, n) ← processPrefixWithPolicy (same pp) pp postConfigInAttrs (dataOf pp)
                               (createPolicyActionData attrs) e b a;
          let a := set_trees (putEntry evaluateStale pp e (trees a)) a in
          let announced := uint 32 (announced + n) in
          if kPolicyReEvaluationBatchSize <=? blen (withdrawnPfxPathIds b) + announced
          then reEvaluateEntries same dataOf evaluateStale entries emptyBatch 0 (sendRibInUpdates b a)
          else reEvaluateEntries same dataOf evaluateStale entries b announced a
      end
  end.

Definition reEvaluateAdjRibEntriesWithUpdatedPolicy (same : PrefixPathId -> bool)
    (dataOf : PrefixPathId -> nat) (evaluateStale : bool) (a : AdjRibIn) : option AdjRibIn :=
  let entries := if evaluateStale then entry_walk (adjRibInStale_ (trees a)) else liveEntries (trees a) in
  '(b, announced, a) ← reEvaluateEntries same dataOf evaluateStale entries emptyBatch 0 a;
  Some (if 0 <? blen (withdrawnPfxPathIds b) + announced then sendRibInUpdates b a else a).

Definition processAdjRibReEvaluationForPolicyChange (same : PrefixPathId -> bool)
    (dataOf : PrefixPathId -> nat) (a : AdjRibIn) : option AdjRibIn :=
  a ← reEvaluateAdjRibEntriesWithUpdatedPolicy same dataOf false a;
  reEvaluateAdjRibEntriesWithUpdatedPolicy same dataOf true a.

(** *** Safe mode *)

(** One entry: the golden prefix policy and the prefixes to purge. *)
Definition applyGoldenPrefixPolicy (st : AdjRibIn * gmap CIDRNetwork Z) (x : PrefixPathId * RibInEntry)
    : AdjRibIn * gmap CIDRNetwork Z :=
  let '(a, purge) := st in
  let g := globals a in
  match preIn x.2, goldenPrefixPolicy_ g with
  | Some attrs, Some policy =>
      if allowPrefix x.1.1 attrs policy then
        (set_globals (mkInGlobals (totalRcvdPrefixCount g) (totalAcceptedPrefixCount g)
           (totalDroppedPrefixCount g) (totalSentPrefixCount g) (prefixSet_ g) (isSafeModeOn g)
           (Some (incrementSubnet x.1.1 policy))) a, purge)
      else if isGoldenVip (getCommunities attrs) && allowGoldenVip x.1.1 (prefixSet_ g) then
        (set_globals (mkInGlobals (totalRcvdPrefixCount g) (totalAcceptedPrefixCount g)
           (totalDroppedPrefixCount g) (totalSentPrefixCount g) (markGoldenVip x.1.1 (prefixSet_ g))
           (isSafeModeOn g) (Some policy)) a, purge)
      else (a, match purge !! x.1.1 with
               | Some _ => purge
               | None => <[x.1.1 := in_pathId x.2]> purge
               end)
  | _, _ => st
  end.

Definition processAdjRibReEvaluationForSafeMode (a : AdjRibIn) : AdjRibIn :=
  match goldenPrefixPolicy_ (globals a) with
  | None => a
  | Some _ =>
      let '(a, purge) := fold_left applyGoldenPrefixPolicy (liveEntries (trees a)) (a, ∅) in
      let '(pfxPathIds, a) :=
        fold_left (fun '(l, a) pp => processWithdrawnPrefixRibInEntry pp l a) (purge_walk purge) ([], a) in
      sendRibInWithdrawal pfxPathIds
        (incrementPrefixesDroppedByLimit (Z.of_nat (length pfxPathIds)) a)
  end.
End Policy.
End Config.
End In.
