(* ===== verification/AdjRibInInv.v ===== *)
(** * The Adj-RIB-In: its invariant

    The RIB has of every prefix what the entry of the prefix says, live or stale;
    counters count the entries; and stale entries wait for a timer.  Every operation of
    AdjRibIn.v, outside the optimized graceful restart, keeps this. *)

From stdpp Require Import gmap fin_maps relations strings.
From S2P Require Import Prelude BgpException Folly BgpStructs PathAttrs RouteFilter RouteInfo RibEntry Ucmp.
From S2P Require Import DeDuplicator PathFields PolicyEncoding PolicyAction PolicyMatch.
From S2P Require Import PolicyEngine PolicyTerm PolicyMask PolicyCache AdjRibCommon.
From S2P Require Import PackingList AdjRibOut PathConversion AdjRibIn.

(** ** Counting entries *)

Section Counting.
Context {K V : Type} `{Countable K}.

Definition countBy (P : K -> V -> bool) (m : gmap K V) : Z :=
  Z.of_nat (size (filter (fun x => P x.1 x.2 = true) m)).

Definition holds (P : K -> V -> bool) (k : K) (o : option V) : bool :=
  match o with Some v => P k v | None => false end.

Lemma countBy_delete P (m : gmap K V) k :
  countBy P m = countBy P (delete k m) + Z.b2z (holds P k (m !! k)).
Proof.
  unfold countBy, holds. destruct (m !! k) as [v|] eqn:E.
  - rewrite <- (insert_delete_id m k v E) at 1. destruct (P k v) eqn:EP.
    + rewrite map_filter_insert_True by done. rewrite map_size_insert_None; [simpl; lia|].
      apply map_lookup_filter_None. left. by rewrite lookup_delete_eq.
    + rewrite map_filter_insert_False by (simpl; congruence). rewrite delete_delete_eq. simpl. lia.
  - rewrite delete_id by done. simpl. lia.
Qed.

Lemma countBy_alter P (m : gmap K V) k o :
  countBy P (partial_alter (fun _ => o) k m) =
    countBy P m - Z.b2z (holds P k (m !! k)) + Z.b2z (holds P k o).
Proof.
  rewrite (countBy_delete P (partial_alter _ k m) k), (countBy_delete P m k), lookup_partial_alter_eq.
  replace (delete k (partial_alter (fun _ => o) k m)) with (delete k m); [lia|].
  apply map_eq. intros i. destruct (decide (i = k)) as [->|Hi].
  - by rewrite !lookup_delete_eq.
  - by rewrite !lookup_delete_ne, lookup_partial_alter_ne by done.
Qed.

Lemma countBy_all (m : gmap K V) : countBy (fun _ _ => true) m = Z.of_nat (size m).
Proof. unfold countBy. by rewrite map_filter_id. Qed.
End Counting.

Abbreviation Entries := (gmap PrefixPathId RibInEntry).

(** The counters of the entries that satisfy [P], modulo their width. *)
Definition counts (P : RibInEntry -> bool) (c : PrefixCount) (m : Entries) : Prop :=
  count_all c = uint 32 (countBy (fun (_ : PrefixPathId) e => P e) m) /\
  count_ipv4 c = uint 32 (countBy (fun (pp : PrefixPathId) e => isV4 pp.1.1 && P e) m) /\
  count_ipv6 c = uint 32 (countBy (fun (pp : PrefixPathId) e => negb (isV4 pp.1.1) && P e) m).

Definition recount (v4 before after : bool) (c : PrefixCount) : PrefixCount :=
  match before, after with
  | false, true => incrementPrefixCount v4 c
  | true, false => decrementCount v4 c
  | _, _ => c
  end.

Lemma uint_add w x y : 0 <= w -> uint w (uint w x + y) = uint w (x + y).
Proof. intros. unfold uint. by rewrite Zplus_mod_idemp_l. Qed.
Lemma uint_sub w x y : 0 <= w -> uint w (uint w x - y) = uint w (x - y).
Proof. intros. unfold uint. by rewrite Zminus_mod_idemp_l. Qed.

Lemma counts_alter (P : RibInEntry -> bool) (c : PrefixCount) (m : Entries) (pp : PrefixPathId)
    (o : option RibInEntry) :
  counts P c m ->
  counts P (recount (isV4 pp.1.1) (holds (fun (_ : PrefixPathId) e => P e) pp (m !! pp))
              (holds (fun (_ : PrefixPathId) e => P e) pp o) c) (partial_alter (fun _ => o) pp m).
Proof.
  intros (H1 & H2 & H3). unfold counts. rewrite !countBy_alter.
  unfold holds, recount, incrementPrefixCount, decrementCount. cbn beta.
  destruct (isV4 pp.1.1), (m !! pp) as [e|], o as [e'|]; simpl;
    repeat match goal with |- context [P ?x] => destruct (P x) end; simpl;
    rewrite ?H1, ?H2, ?H3, ?uint_add, ?uint_sub by done; split_and!; f_equal; lia.
Qed.

(** ** Entries *)

Definition liteKey (prefix : CIDRNetwork) : PrefixPathId := (prefix, kDefaultPathID).
#[export] Instance liteKey_inj : Inj (=) (=) liteKey.
Proof. by intros p p' [= ->]. Qed.

(** The live entries by prefix and path id, and with them the stale ones. *)
Definition liveMap (t : InTrees) : Entries :=
  if recAddPath_ t then adjRibInPathTree_ t else kmap liteKey (adjRibInLiteTree_ t).
Definition known (t : InTrees) : Entries := liveMap t ∪ adjRibInStale_ t.

(** The keys of a session. *)
Definition usable (t : InTrees) (pp : PrefixPathId) : Prop :=
  recAddPath_ t = false -> pp.2 = kDefaultPathID.

Lemma getRibEntry_live t pp : usable t pp -> getRibEntry pp t = liveMap t !! pp.
Proof.
  intros Hu. unfold getRibEntry, liveMap. destruct (recAddPath_ t) eqn:E; [done|].
  destruct pp as [p i]. specialize (Hu E). simpl in *. subst i. symmetry. apply (lookup_kmap liteKey).
Qed.

Lemma liveMap_put t pp e : usable t pp -> liveMap (putRibEntry pp e t) = <[pp := e]> (liveMap t).
Proof.
  intros Hu. unfold putRibEntry, liveMap. destruct (recAddPath_ t) eqn:E; simpl; rewrite E; [done|].
  destruct pp as [p i]. specialize (Hu E). simpl in *. subst i. apply (kmap_insert liteKey).
Qed.

Lemma liveMap_delete t pp : usable t pp -> liveMap (deleteRibEntry pp t) = delete pp (liveMap t).
Proof.
  intros Hu. unfold deleteRibEntry, liveMap. destruct (recAddPath_ t) eqn:E; simpl; rewrite E; [done|].
  destruct pp as [p i]. specialize (Hu E). simpl in *. subst i. apply (kmap_delete liteKey).
Qed.

Lemma liveMap_add t pp :
  usable t pp -> liveMap t !! pp = None ->
  addRibEntry pp t = putRibEntry pp (newRibInEntry pp.2) t.
Proof.
  intros Hu Hn. rewrite <- getRibEntry_live in Hn by done. unfold getRibEntry in Hn.
  unfold addRibEntry, putRibEntry. destruct (recAddPath_ t); [done|]. by rewrite Hn.
Qed.

(** The other fields stay. *)
Lemma put_frame t pp e :
  recAddPath_ (putRibEntry pp e t) = recAddPath_ t /\
  adjRibInStale_ (putRibEntry pp e t) = adjRibInStale_ t.
Proof. unfold putRibEntry. by case_match. Qed.
Lemma delete_frame t pp :
  recAddPath_ (deleteRibEntry pp t) = recAddPath_ t /\
  adjRibInStale_ (deleteRibEntry pp t) = adjRibInStale_ t.
Proof. unfold deleteRibEntry. by case_match. Qed.

(** ** What the RIB is told *)

Abbreviation RibView := (gmap PrefixPathId BgpPathFields).

Definition ribReceives (v : RibView) (m : RibInMessage) : RibView :=
  match m with
  | RibInAnnouncement _ pps attrs => fold_left (fun v pp => <[pp := attrs]> v) pps v
  | RibInWithdrawal _ pps => fold_left (fun v pp => delete pp v) pps v
  end.
Definition ribView (q : list RibInMessage) : RibView := fold_left ribReceives q ∅.

Lemma ribView_push q m : ribView (q ++ [m]) = ribReceives (ribView q) m.
Proof. unfold ribView. by rewrite fold_left_app. Qed.

Lemma announced_lookup (pps : list PrefixPathId) (x : BgpPathFields) (v : RibView) (pp : PrefixPathId) :
  fold_left (fun v pp => <[pp := x]> v) pps v !! pp = if decide (pp ∈ pps) then Some x else v !! pp.
Proof.
  revert v. induction pps as [|q pps IH]; intros v; cbn [fold_left].
  { by rewrite decide_False by set_solver. }
  rewrite IH. repeat case_decide; try set_solver.
  - assert (pp = q) as -> by set_solver. by rewrite lookup_insert_eq.
  - rewrite lookup_insert_ne by set_solver. done.
Qed.

Lemma withdrawn_lookup (pps : list PrefixPathId) (v : RibView) (pp : PrefixPathId) :
  fold_left (fun v pp => delete pp v) pps v !! pp = if decide (pp ∈ pps) then None else v !! pp.
Proof.
  revert v. induction pps as [|q pps IH]; intros v; cbn [fold_left].
  { by rewrite decide_False by set_solver. }
  rewrite IH. repeat case_decide; try set_solver.
  - assert (pp = q) as -> by set_solver. by rewrite lookup_delete_eq.
  - rewrite lookup_delete_ne by set_solver. done.
Qed.

(** What a batch says of a prefix. *)
Definition says (b : Batch) (pp : PrefixPathId) (o : option BgpPathFields) : Prop :=
  match o with
  | None => pp ∈ withdrawnPfxPathIds b
  | Some x => pp ∈ default [] (groupAnnouncedPrefixes b !! x)
  end.

Definition tell (pp : PrefixPathId) (o : option BgpPathFields) (b : Batch) : Batch :=
  match o with
  | None => mkBatch (withdrawnPfxPathIds b ++ [pp]) (groupAnnouncedPrefixes b)
  | Some x => mkBatch (withdrawnPfxPathIds b) (addToGroup x pp (groupAnnouncedPrefixes b))
  end.

Lemma says_tell b pp o pp' o' : says (tell pp o b) pp' o' <-> says b pp' o' \/ pp' = pp /\ o' = o.
Proof.
  destruct o as [x|], o' as [x'|]; simpl; [| set_solver| set_solver|set_solver].
  unfold addToGroup. destruct (decide (x' = x)) as [->|Hx].
  - rewrite lookup_insert_eq. simpl. set_solver.
  - rewrite lookup_insert_ne by done. naive_solver.
Qed.

Lemma says_empty pp o : ~ says emptyBatch pp o.
Proof. destruct o; simpl; rewrite ?lookup_empty; set_solver. Qed.

(** ** Messages *)

Definition mentions (m : RibInMessage) (pp : PrefixPathId) (o : option BgpPathFields) : Prop :=
  match m with
  | RibInAnnouncement _ pps x => o = Some x /\ pp ∈ pps
  | RibInWithdrawal _ pps => o = None /\ pp ∈ pps
  end.

Lemma receives_lookup v m pp :
  (exists o, mentions m pp o /\ ribReceives v m !! pp = o) \/
  (forall o, ~ mentions m pp o) /\ ribReceives v m !! pp = v !! pp.
Proof.
  destruct m as [? pps x|? pps]; simpl; rewrite ?announced_lookup, ?withdrawn_lookup;
    case_decide; naive_solver.
Qed.

(** Messages that say the truth make the RIB right on what they mention. *)
Lemma view_agree (f : PrefixPathId -> option BgpPathFields) ms v pp :
  (forall m pp o, m ∈ ms -> mentions m pp o -> f pp = o) ->
  ((forall m o, m ∈ ms -> ~ mentions m pp o) -> v !! pp = f pp) ->
  fold_left ribReceives ms v !! pp = f pp.
Proof.
  revert v. induction ms as [|m ms IH]; intros v HT Hc; simpl.
  { apply Hc. intros m o Hm. set_solver. }
  apply IH; [intros m' pp' o Hm'; apply (HT m'); set_solver|].
  destruct (receives_lookup v m pp) as [(o & Hm & Ho)|[Hm Ho]]; rewrite Ho.
  - intros _. symmetry. apply (HT m); [set_solver|done].
  - intros Hn. apply Hc. intros m' o Hm'. apply elem_of_cons in Hm' as [->|?]; [apply Hm|by apply Hn].
Qed.

(** The order of the walks is free, what they visit is not. *)
Class InOrderLaws `{IO : InOrder} : Prop := {
  group_walk_perm m : group_walk m ≡ₚ map_to_list m;
  entry_walk_perm m : entry_walk m ≡ₚ map_to_list m;
  lite_walk_perm m : lite_walk m ≡ₚ map_to_list m;
  purge_walk_perm m : purge_walk m ≡ₚ map_to_list m
}.

(** ** The invariant *)

Definition accepted (e : RibInEntry) : bool := match postIn e with Some _ => true | None => false end.
Definition postOf (t : InTrees) (pp : PrefixPathId) : option BgpPathFields := known t !! pp ≫= postIn.

(** In the middle of a message: the batch tells the RIB what it does not know yet. *)
Record mid (v : RibView) (b : Batch) (t : InTrees) (pre post : PrefixCount) : Prop := {
  mid_disj : liveMap t ##ₘ adjRibInStale_ t;
  mid_tree : if recAddPath_ t then adjRibInLiteTree_ t = ∅ else adjRibInPathTree_ t = ∅;
  mid_entries pp e : known t !! pp = Some e -> learnt e = true /\ in_pathId e = pp.2;
  mid_pre : counts (fun _ => true) pre (known t);
  mid_post : counts accepted post (known t);
  mid_said pp o : says b pp o -> postOf t pp = o;
  mid_unsaid pp : (forall o, ~ says b pp o) -> v !! pp = postOf t pp
}.

Abbreviation present o := (holds (fun (_ : PrefixPathId) (_ : RibInEntry) => true) o).

(** How one prefix changes. *)
Record change (pp : PrefixPathId) (b b' : Batch) (t t' : InTrees) (pre pre' post post' : PrefixCount)
    (o : option RibInEntry) : Prop := {
  ch_known : known t' = partial_alter (fun _ => o) pp (known t);
  ch_disj : liveMap t' ##ₘ adjRibInStale_ t';
  ch_tree : if recAddPath_ t' then adjRibInLiteTree_ t' = ∅ else adjRibInPathTree_ t' = ∅;
  ch_entry e : o = Some e -> learnt e = true /\ in_pathId e = pp.2;
  ch_pre : pre' = recount (isV4 pp.1.1) (present pp (known t !! pp)) (present pp o) pre;
  ch_post : post' = recount (isV4 pp.1.1) (holds (fun (_ : PrefixPathId) e => accepted e) pp (known t !! pp))
              (holds (fun (_ : PrefixPathId) e => accepted e) pp o) post;
  ch_batch : b' = b /\ (o ≫= postIn) = postOf t pp \/
             b' = tell pp (o ≫= postIn) b /\ forall x, says b pp x -> x = (o ≫= postIn)
}.

Lemma mid_change v b b' t t' pre pre' post post' pp o :
  mid v b t pre post -> change pp b b' t t' pre pre' post post' o -> mid v b' t' pre' post'.
Proof.
  intros [H1 H2 H3 H4 H5 H6 H7] [C1 C2 C3 C4 C5 C6 C7].
  assert (HP : forall x, postOf t' x = if decide (x = pp) then o ≫= postIn else postOf t x).
  { intros x. unfold postOf. rewrite C1. case_decide as E; [subst; by rewrite lookup_partial_alter_eq|].
    by rewrite lookup_partial_alter_ne. }
  split; [done|done| | | | |].
  - intros x e. rewrite C1. destruct (decide (x = pp)) as [->|Hx].
    + rewrite lookup_partial_alter_eq. apply C4.
    + rewrite lookup_partial_alter_ne by done. apply H3.
  - rewrite C1, C5. by apply counts_alter.
  - rewrite C1, C6. by apply counts_alter.
  - intros x y Hy. rewrite HP. destruct C7 as [[-> Hp]|[-> Hs]].
    + specialize (H6 x y Hy). case_decide; congruence.
    + apply says_tell in Hy as [Hy|[-> ->]]; [|by rewrite decide_True].
      case_decide as E; [subst; symmetry; by apply Hs|by apply H6].
  - intros x Hx. rewrite HP. destruct C7 as [[-> Hp]|[-> Hs]].
    + specialize (H7 x Hx). case_decide; congruence.
    + case_decide as E; [subst; exfalso; apply (Hx (o ≫= postIn)), says_tell; by right|].
      apply H7. intros y Hy. apply (Hx y), says_tell. by left.
Qed.

(** Trees that differ in the place of entries only. *)
Lemma mid_same_known v b t t' pre post :
  mid v b t pre post -> known t' = known t -> liveMap t' ##ₘ adjRibInStale_ t' ->
  (if recAddPath_ t' then adjRibInLiteTree_ t' = ∅ else adjRibInPathTree_ t' = ∅) ->
  mid v b t' pre post.
Proof.
  intros [H1 H2 H3 H4 H5 H6 H7] Hk Hd Ht. split; rewrite ?Hk; try done.
  - intros pp o Ho. unfold postOf. rewrite Hk. by apply H6.
  - intros pp Hn. unfold postOf. rewrite Hk. by apply H7.
Qed.

(** ** Changes of a live entry *)

Lemma other_put t pp e :
  (if recAddPath_ t then adjRibInLiteTree_ t = ∅ else adjRibInPathTree_ t = ∅) ->
  if recAddPath_ (putRibEntry pp e t) then adjRibInLiteTree_ (putRibEntry pp e t) = ∅
  else adjRibInPathTree_ (putRibEntry pp e t) = ∅.
Proof. unfold putRibEntry. destruct (recAddPath_ t) eqn:E; simpl; by rewrite E. Qed.
Lemma other_delete t pp :
  (if recAddPath_ t then adjRibInLiteTree_ t = ∅ else adjRibInPathTree_ t = ∅) ->
  if recAddPath_ (deleteRibEntry pp t) then adjRibInLiteTree_ (deleteRibEntry pp t) = ∅
  else adjRibInPathTree_ (deleteRibEntry pp t) = ∅.
Proof. unfold deleteRibEntry. destruct (recAddPath_ t) eqn:E; simpl; by rewrite E. Qed.

Lemma known_put t pp e :
  usable t pp -> known (putRibEntry pp e t) = <[pp := e]> (known t).
Proof.
  intros Hu. unfold known. rewrite liveMap_put, (proj2 (put_frame t pp e)) by done.
  by rewrite insert_union_l.
Qed.
Lemma known_delete t pp :
  usable t pp -> adjRibInStale_ t !! pp = None -> known (deleteRibEntry pp t) = delete pp (known t).
Proof.
  intros Hu Hs. unfold known. rewrite liveMap_delete, (proj2 (delete_frame t pp)) by done.
  rewrite delete_union. by rewrite (delete_id (adjRibInStale_ t)).
Qed.

Lemma disj_put t pp e :
  usable t pp -> liveMap t ##ₘ adjRibInStale_ t -> adjRibInStale_ t !! pp = None ->
  liveMap (putRibEntry pp e t) ##ₘ adjRibInStale_ (putRibEntry pp e t).
Proof.
  intros Hu Hd Hs. rewrite liveMap_put, (proj2 (put_frame t pp e)) by done.
  by apply map_disjoint_insert_l_2.
Qed.
Lemma disj_delete t pp :
  usable t pp -> liveMap t ##ₘ adjRibInStale_ t ->
  liveMap (deleteRibEntry pp t) ##ₘ adjRibInStale_ (deleteRibEntry pp t).
Proof.
  intros Hu Hd. rewrite liveMap_delete, (proj2 (delete_frame t pp)) by done.
  by apply map_disjoint_delete_l.
Qed.

(** ** Announcements *)

Section Operations.
Context `{F : FollyOps} `{L : PolicyLibs} `{PL : PrefixLibs} `{RC : RibContext}.
Context {ECM : EvictingCacheMap PolicyCacheMaskedKey PolicyCacheValue}.

(** What the limits and the totals do not touch. *)
Definition frame (a a' : AdjRibIn) : Prop :=
  trees a' = trees a /\ preInPrefixCount a' = preInPrefixCount a /\
  postInPrefixCount a' = postInPrefixCount a /\ ribInQ_ a' = ribInQ_ a /\
  pendingIngressEoRAfis_ a' = pendingIngressEoRAfis_ a /\ stalePathTimer_ a' = stalePathTimer_ a /\
  remoteGrRestartTimer_ a' = remoteGrRestartTimer_ a /\
  remoteGrRestartTime_ a' = remoteGrRestartTime_ a /\ pendingRibInPushes_ a' = pendingRibInPushes_ a.

Lemma frame_refl a : frame a a.
Proof. by repeat split. Qed.
Lemma frame_trans a1 a2 a3 : frame a1 a2 -> frame a2 a3 -> frame a1 a3.
Proof. unfold frame. intros. naive_solver congruence. Qed.

(** The session goes on: the rest of the fields but counters and queues. *)
Definition sameSession (a a' : AdjRibIn) : Prop :=
  recAddPath_ (trees a') = recAddPath_ (trees a) /\
  pendingIngressEoRAfis_ a' = pendingIngressEoRAfis_ a /\ stalePathTimer_ a' = stalePathTimer_ a /\
  remoteGrRestartTimer_ a' = remoteGrRestartTimer_ a /\
  remoteGrRestartTime_ a' = remoteGrRestartTime_ a /\
  pendingRibInPushes_ a' = pendingRibInPushes_ a /\
  dom (adjRibInStale_ (trees a')) ⊆ dom (adjRibInStale_ (trees a)).

Lemma sameSession_refl a : sameSession a a.
Proof. by repeat split. Qed.
Lemma sameSession_trans a1 a2 a3 : sameSession a1 a2 -> sameSession a2 a3 -> sameSession a1 a3.
Proof.
  intros (H1 & H2 & H3 & H4 & H5 & H6 & H7) (G1 & G2 & G3 & G4 & G5 & G6 & G7).
  split_and!; [congruence..|]. by rewrite G7.
Qed.
Lemma frame_session a a' : frame a a' -> sameSession a a'.
Proof. intros (H & _ & _ & _ & ? & ? & ? & ? & ?). unfold sameSession. by rewrite H. Qed.

Section Config.
Variable config : InConfig.

(** *** Sending *)

Section Sending.
Context `{IOL : InOrderLaws}.

Definition batchMessages (b : Batch) : list RibInMessage :=
  (if nonempty (withdrawnPfxPathIds b) then [RibInWithdrawal (peerInfo config) (withdrawnPfxPathIds b)] else [])
  ++ ((fun '(x, pps) => RibInAnnouncement (peerInfo config) pps x) <$>
        List.filter (fun '(_, pps) => nonempty pps) (group_walk (groupAnnouncedPrefixes b))).

(** Only the queue changes. *)
Definition queued (ms : list RibInMessage) (a a' : AdjRibIn) : Prop :=
  ribInQ_ a' = ribInQ_ a ++ ms /\ trees a' = trees a /\ preInPrefixCount a' = preInPrefixCount a /\
  postInPrefixCount a' = postInPrefixCount a /\ sameSession a a'.

Lemma queued_nil a : queued [] a a.
Proof. unfold queued. rewrite app_nil_r. by repeat split. Qed.
Lemma queued_push m a : queued [m] a (pushRibIn m a).
Proof. by repeat split. Qed.
Lemma queued_trans ms1 ms2 a1 a2 a3 :
  queued ms1 a1 a2 -> queued ms2 a2 a3 -> queued (ms1 ++ ms2) a1 a3.
Proof.
  intros (H1 & H2 & H3 & H4 & H5) (G1 & G2 & G3 & G4 & G5). unfold queued.
  rewrite G1, H1, G2, G3, G4, app_assoc. split_and!; [done..|by eapply sameSession_trans].
Qed.

Lemma sendWithdrawal_queued pps a :
  queued (if nonempty pps then [RibInWithdrawal (peerInfo config) pps] else []) a
    (sendRibInWithdrawal config pps a).
Proof. unfold sendRibInWithdrawal. case_match; [apply queued_push|apply queued_nil]. Qed.

Lemma sendUpdates_queued b a : queued (batchMessages b) a (sendRibInUpdates config b a).
Proof.
  unfold sendRibInUpdates, batchMessages. eapply queued_trans; [apply sendWithdrawal_queued|].
  generalize (sendRibInWithdrawal config (withdrawnPfxPathIds b) a). clear a.
  induction (group_walk (groupAnnouncedPrefixes b)) as [|[x pps] l IH]; intros a; [apply queued_nil|].
  cbn [fold_left List.filter]. unfold sendRibInAnnouncement at 2. destruct (nonempty pps); [|apply IH].
  cbn [fmap list_fmap]. apply (queued_trans [_]) with (2 := IH _). apply queued_push.
Qed.

Lemma nonempty_elem {A} (l : list A) x : x ∈ l -> nonempty l = true.
Proof. destruct l; [by intros ?%elem_of_nil|done]. Qed.

Lemma group_walk_elem g x pps : (x, pps) ∈ group_walk g <-> g !! x = Some pps.
Proof. rewrite group_walk_perm. apply elem_of_map_to_list. Qed.

Lemma batchMessages_says b pp o :
  (exists m, m ∈ batchMessages b /\ mentions m pp o) <-> says b pp o.
Proof.
  unfold batchMessages. split.
  - intros (m & Hm & Hme). apply elem_of_app in Hm as [Hm|Hm].
    + destruct (nonempty _); [|set_solver]. apply list_elem_of_singleton in Hm as ->.
      by destruct Hme as [-> ?].
    + apply list_elem_of_fmap in Hm as ([x pps] & -> & Hx). destruct Hme as [-> Hp].
      apply list_elem_of_In, filter_In in Hx as [Hx _].
      apply list_elem_of_In, group_walk_elem in Hx. simpl. by rewrite Hx.
  - destruct o as [x|]; simpl; intros Hs.
    + destruct (groupAnnouncedPrefixes b !! x) as [pps|] eqn:Ex; simpl in Hs; [|set_solver].
      exists (RibInAnnouncement (peerInfo config) pps x). split; [|done].
      apply elem_of_app. right. apply list_elem_of_fmap. exists (x, pps). split; [done|].
      apply list_elem_of_In, filter_In. split; [|by eapply nonempty_elem].
      by apply list_elem_of_In, group_walk_elem.
    + exists (RibInWithdrawal (peerInfo config) (withdrawnPfxPathIds b)). split; [|done].
      apply elem_of_app. left. rewrite (nonempty_elem _ _ Hs). by apply list_elem_of_singleton.
Qed.

(** What was pending is known to the RIB. *)
Lemma mid_sent v b a a' :
  mid v b (trees a) (preInPrefixCount a) (postInPrefixCount a) -> queued (batchMessages b) a a' ->
  mid (fold_left ribReceives (batchMessages b) v) emptyBatch (trees a') (preInPrefixCount a') (postInPrefixCount a').
Proof.
  intros [H1 H2 H3 H4 H5 H6 H7] (Q1 & -> & -> & -> & _). split; try done.
  { intros pp o Ho. by destruct (says_empty pp o). }
  intros pp _. apply view_agree.
  - intros m x o Hm Hme. apply H6, batchMessages_says. eauto.
  - intros Hn. apply H7. intros o (m & Hm & Ho)%batchMessages_says. by apply (Hn m o).
Qed.

End Sending.

(** *** Limits *)

Lemma capRoutes_frame n pre a : frame a (capRoutesPerPeer config n pre a).2.
Proof. unfold capRoutesPerPeer. by repeat case_match; repeat split. Qed.

Lemma canAdd_frame prefix attrs a : frame a (canAddRibInEntry config prefix attrs a).2.
Proof.
  unfold canAddRibInEntry.
  assert (HD : forall n, frame a (dropPrefixForOverloadProtection config n prefix attrs a).2).
  { intros n. unfold dropPrefixForOverloadProtection, triggerSafeMode.
    by repeat case_match; repeat split. }
  specialize (HD (uint 32 (totalRcvdPrefixCount (globals a) + totalSentPrefixCount (globals a) + 1))).
  destruct (dropPrefixForOverloadProtection _ _ _ _ _) as [[] a1]; simpl in HD; [done|].
  pose proof (capRoutes_frame (uint 32 (count_all (preInPrefixCount a1) + 1)) true a1) as HC.
  destruct (capRoutesPerPeer _ _ _ _) as [[] a2]; simpl in HC; by eapply frame_trans.
Qed.

(** A new path passes the limit of the peer. *)
Lemma canAdd_limit prefix attrs a limit :
  preRouteLimit config = Some limit -> (canAddRibInEntry config prefix attrs a).1 = true ->
  max_routes limit = 0 \/ uint 32 (count_all (preInPrefixCount a) + 1) <= uint 64 (max_routes limit).
Proof.
  intros HL. unfold canAddRibInEntry.
  assert (HD : forall n, preInPrefixCount (dropPrefixForOverloadProtection config n prefix attrs a).2 =
    preInPrefixCount a).
  { intros n. unfold dropPrefixForOverloadProtection, triggerSafeMode. by repeat case_match. }
  specialize (HD (uint 32 (totalRcvdPrefixCount (globals a) + totalSentPrefixCount (globals a) + 1))).
  destruct (dropPrefixForOverloadProtection _ _ _ _ _) as [[] a1]; simpl in HD; [done|].
  unfold capRoutesPerPeer. rewrite HL, HD.
  destruct (max_routes limit =? 0) eqn:E0; [lia|]. destruct (_ <=? _) eqn:E; [lia|].
  by destruct (warning_only limit).
Qed.

Lemma maybeAnnounce_spec same pp post e b a e' b' a' n :
  maybeAnnouncePrefix config same pp post e b a = (e', b', a', n) ->
  trees a' = trees a /\ preInPrefixCount a' = preInPrefixCount a /\ ribInQ_ a' = ribInQ_ a /\
  sameSession a a' /\
  postInPrefixCount a' = recount (isV4 pp.1.1) (accepted e) (accepted e') (postInPrefixCount a) /\
  preIn e' = preIn e /\ in_pathId e' = in_pathId e /\
  (b' = b /\ postIn e' = postIn e /\ n = 0 \/ b' = tell pp (postIn e') b).
Proof.
  unfold maybeAnnouncePrefix, accepted. destruct post as [x|], (postIn e) as [y|] eqn:Ee.
  - case_match; intros [= <- <- <- <-]; rewrite ?Ee; repeat split; auto.
  - rewrite bool_decide_eq_false_2 by done. cbn [andb].
    pose proof (capRoutes_frame (uint 32 (count_all (postInPrefixCount a) + 1)) false a) as HC.
    destruct (capRoutesPerPeer _ _ _ _) as [[] a1]; simpl in HC; intros [= <- <- <- <-];
      destruct HC as (H1 & H2 & H3 & H4 & H5); simpl; rewrite ?Ee, ?H1, ?H2, ?H3, ?H4;
      repeat split; simpl; rewrite ?H1; try apply H5; auto.
  - intros [= <- <- <- <-]. repeat split; auto.
  - intros [= <- <- <- <-]. rewrite Ee. repeat split; auto.
Qed.

(** A stale entry heard of again becomes a live one; the check never fails. *)
Lemma promote_ok v b t pre post pp :
  mid v b t pre post -> usable t pp ->
  exists t', promoteStaleRibInEntryIfExists pp t = Some t' /\ mid v b t' pre post /\
    known t' = known t /\ recAddPath_ t' = recAddPath_ t /\ adjRibInStale_ t' !! pp = None /\
    dom (adjRibInStale_ t') ⊆ dom (adjRibInStale_ t).
Proof.
  intros HM Hu. unfold promoteStaleRibInEntryIfExists.
  destruct (adjRibInStale_ t !! pp) as [e|] eqn:Es; [|by exists t].
  pose proof (mid_disj _ _ _ _ _ HM) as Hd.
  assert (Hn : liveMap t !! pp = None) by (by eapply map_disjoint_Some_r).
  assert (Hk : known t !! pp = Some e) by (unfold known; by rewrite lookup_union_r).
  destruct (mid_entries _ _ _ _ _ HM _ _ Hk) as [_ Hid]. rewrite Hid, Z.eqb_refl. cbn [negb].
  assert (HT : (if recAddPath_ t then setPathTree (<[pp := e]> (adjRibInPathTree_ t)) t
    else match adjRibInLiteTree_ t !! pp.1 with
         | Some _ => t
         | None => setLiteTree (<[pp.1 := e]> (adjRibInLiteTree_ t)) t
         end) = putRibEntry pp e t).
  { rewrite <- getRibEntry_live in Hn by done. unfold getRibEntry in Hn. unfold putRibEntry.
    destruct (recAddPath_ t); [done|]. by rewrite Hn. }
  rewrite HT. set (t' := setStaleTree _ _).
  assert (Hl : liveMap t' = <[pp := e]> (liveMap t)) by (apply (liveMap_put t pp e Hu)).
  assert (Hst : adjRibInStale_ t' = delete pp (adjRibInStale_ t))
    by (unfold t'; simpl; by rewrite (proj2 (put_frame t pp e))).
  assert (Hkn : known t' = known t).
  { unfold known. rewrite Hl, Hst. apply map_eq. intros x. destruct (decide (x = pp)) as [->|Hx].
    - rewrite (lookup_union_Some_l _ _ _ e) by (by rewrite lookup_insert_eq). by rewrite lookup_union_r.
    - by rewrite !lookup_union, lookup_insert_ne, lookup_delete_ne. }
  exists t'. split_and!; [done| |done|by apply put_frame|by rewrite Hst, lookup_delete_eq|].
  2:{ rewrite Hst, dom_delete_L. set_solver. }
  apply (mid_same_known _ _ t); [done|done| |].
  - rewrite Hl, Hst. apply map_disjoint_insert_l_2; [by rewrite lookup_delete_eq|].
    by apply map_disjoint_delete_r.
  - apply (other_put t pp e), HM.
Qed.

(** The entry changes after [maybeAnnouncePrefix]; there was one or this is a new one. *)
Lemma mid_update v b b' t t' pre a a1 pp e0 e e' same post n :
  mid v b t pre (postInPrefixCount a) ->
  known t' = <[pp := e']> (known t) -> liveMap t' ##ₘ adjRibInStale_ t' ->
  (if recAddPath_ t' then adjRibInLiteTree_ t' = ∅ else adjRibInPathTree_ t' = ∅) ->
  known t !! pp = e0 -> (e0 ≫= postIn) = postIn e ->
  learnt e = true -> in_pathId e = pp.2 -> (forall o, ~ says b pp o) ->
  maybeAnnouncePrefix config same pp post e b a = (e', b', a1, n) ->
  mid v b' t' (recount (isV4 pp.1.1) (present pp e0) true pre) (postInPrefixCount a1).
Proof.
  intros HM Hk Hd Ho He Hp Hle Hid Hsay HA.
  apply maybeAnnounce_spec in HA as (_ & _ & _ & _ & Hpost & Hpi & Hpid & Hb).
  assert (Hpo : postOf t pp = postIn e) by (unfold postOf; by rewrite He).
  apply (mid_change v b b' t _ _ _ _ _ pp (Some e') HM). split; [done..| | | |].
  - intros ? [= <-]. unfold learnt in *. rewrite Hpi, Hpid. by split.
  - by rewrite He.
  - rewrite Hpost, He. f_equal. unfold accepted. destruct e0 as [x|]; simpl in *; by rewrite <- Hp.
  - simpl. destruct Hb as [(-> & Hpe & _)| ->]; [left; split; [done|congruence]|right].
    split; [done|]. intros o Hsaid. by destruct (Hsay o).
Qed.

Section Policy.
Variable manager : PolicyManager.
Variable stale : PolicyCacheMaskedKey -> bool.

Lemma processPrefix_spec same pp pc d data e b a e' b' data' a' n :
  processPrefixWithPolicy config manager stale same pp pc d data e b a = Some (e', b', data', a', n) ->
  exists post c e1, maybeAnnouncePrefix config same pp post e1 b (set_inCache c a) = (e', b', a', n) /\
    preIn e1 = preIn e /\ postIn e1 = postIn e /\ in_pathId e1 = in_pathId e.
Proof.
  unfold processPrefixWithPolicy. intros ([[[post data1] e1] c] & H1 & H)%bind_Some.
  destruct (maybeAnnouncePrefix _ _ _ _ _ _ _) as [[[e2 b2] a2] n2] eqn:HA. simplify_eq.
  exists post, c, e1. split; [done|].
  unfold getPostInRouteFilterAndPolicyAttributes, getPostInPolicyAttributes in H1.
  destruct (blockedByIngressRouteFilter _ _); [by simplify_eq|].
  destruct (ingressPolicyName_ config); [|by simplify_eq].
  apply bind_Some in H1 as ([[[[x term] info] data2] c2] & _ & H1).
  destruct x; [apply bind_Some in H1 as (mask & _ & H1)|]; by simplify_eq.
Qed.

(** Of the prefixes in the batch the entry has the attributes of the message. *)
Definition saidNew (attrs : BgpPathFields) (b : Batch) (t : InTrees) : Prop :=
  forall pp o, says b pp o -> exists e, known t !! pp = Some e /\ preIn e = Some attrs.

Definition withinLimit (a : AdjRibIn) : Prop :=
  forall limit, preRouteLimit config = Some limit -> 0 < max_routes limit < 2 ^ 32 - 1 ->
    Z.of_nat (size (known (trees a))) <= max_routes limit.

Lemma saidNew_update attrs b b' t t' pp e' (Hsay : b' = b \/ exists o, b' = tell pp o b) :
  saidNew attrs b t -> known t' = <[pp := e']> (known t) -> preIn e' = Some attrs ->
  saidNew attrs b' t'.
Proof.
  intros HS Hk Hp x o Ho. rewrite Hk. destruct (decide (x = pp)) as [->|Hx].
  - exists e'. by rewrite lookup_insert_eq.
  - rewrite lookup_insert_ne by done. apply (HS x o).
    destruct Hsay as [->|[y ->]]; [done|]. apply says_tell in Ho as [?|[??]]; done.
Qed.

Lemma usable_trees t t' pp : recAddPath_ t' = recAddPath_ t -> usable t pp -> usable t' pp.
Proof. unfold usable. by intros ->. Qed.

(** With an entry. *)
Lemma announce_existing v attrs b t pre a a1 pp e e' b' same pc d data data' n :
  mid v b t pre (postInPrefixCount a) -> usable t pp -> adjRibInStale_ t !! pp = None ->
  known t !! pp = Some e -> preIn e <> Some attrs -> saidNew attrs b t ->
  processPrefixWithPolicy config manager stale same pp pc d data (setPreIn (Some attrs) e) b a =
    Some (e', b', data', a1, n) ->
  mid v b' (putRibEntry pp e' t) pre (postInPrefixCount a1) /\ saidNew attrs b' (putRibEntry pp e' t).
Proof.
  intros HM Hu Hs He Hne HS HP.
  apply processPrefix_spec in HP as (post & c & e1 & HA & Hpre & Hpost & Hid).
  assert (Hsay : forall o, ~ says b pp o).
  { intros o Ho. destruct (HS pp o Ho) as (x & Hx & Hpx). congruence. }
  destruct (mid_entries _ _ _ _ _ HM _ _ He) as [_ Hide].
  pose proof (maybeAnnounce_spec _ _ _ _ _ _ _ _ _ _ HA) as (_ & _ & _ & _ & _ & Hpi & _ & Hb).
  split.
  - apply (mid_update v b b' t _ pre (set_inCache c a) a1 pp (Some e) e1 e' same post n HM); try done.
    + by apply known_put.
    + apply disj_put; [done|apply HM|done].
    + apply other_put, HM.
    + unfold learnt. by rewrite Hpre.
    + by rewrite Hid.
  - apply (saidNew_update attrs b b' t _ pp e'); [|done|by apply known_put|by rewrite Hpi, Hpre].
    destruct Hb as [[-> _]| ->]; [by left|right; by eexists].
Qed.

(** What the announcement of one path does to the entries; a new path may be refused by
    a limit. *)
Definition limited : Prop := switchLimitConfig_ config <> None \/ preRouteLimit config <> None.
Definition heard (attrs : BgpPathFields) (pp : PrefixPathId) (t t' : InTrees) : Prop :=
  (forall x, x <> pp -> known t' !! x = known t !! x) /\
  match known t' !! pp with
  | Some e => preIn e = Some attrs
  | None => known t !! pp = None /\ limited
  end.

Lemma canAdd_unlimited prefix attrs a :
  (canAddRibInEntry config prefix attrs a).1 = false -> limited.
Proof.
  unfold canAddRibInEntry, dropPrefixForOverloadProtection, capRoutesPerPeer, limited.
  destruct (switchLimitConfig_ config); [by left|]. destruct (preRouteLimit config); [by right|done].
Qed.

Lemma withinLimit_same a a' :
  size (known (trees a')) = size (known (trees a)) -> withinLimit a -> withinLimit a'.
Proof. unfold withinLimit. by intros ->. Qed.

Lemma withinLimit_new prefix attrs a a' :
  count_all (preInPrefixCount a) = uint 32 (Z.of_nat (size (known (trees a)))) ->
  (canAddRibInEntry config prefix attrs a).1 = true ->
  size (known (trees a')) = S (size (known (trees a))) -> withinLimit a -> withinLimit a'.
Proof.
  intros Hc HA Hsz HW limit HL Hm. specialize (HW limit HL Hm).
  pose proof (canAdd_limit prefix attrs a limit HL HA) as [?|Hle]; [lia|].
  rewrite Hc in Hle. unfold uint in Hle.
  rewrite (Z.mod_small (Z.of_nat _)) in Hle by lia. rewrite !Z.mod_small in Hle by lia. lia.
Qed.

(** What one path leaves of the state. *)
Record announced (v : RibView) (attrs : BgpPathFields) (pp : PrefixPathId) (b : Batch)
    (a a' : AdjRibIn) : Prop := {
  an_mid : mid v b (trees a') (preInPrefixCount a') (postInPrefixCount a');
  an_new : saidNew attrs b (trees a');
  an_session : sameSession a a';
  an_queue : ribInQ_ a' = ribInQ_ a;
  an_limit : withinLimit a -> withinLimit a';
  an_heard : heard attrs pp (trees a) (trees a')
}.

Lemma sameSession_trees t a :
  recAddPath_ t = recAddPath_ (trees a) -> dom (adjRibInStale_ t) ⊆ dom (adjRibInStale_ (trees a)) ->
  sameSession a (set_trees t a).
Proof. by repeat split. Qed.

(** The entry is there. *)
Lemma announce_known v attrs b a pp e same pc d data r :
  mid v b (trees a) (preInPrefixCount a) (postInPrefixCount a) -> usable (trees a) pp ->
  adjRibInStale_ (trees a) !! pp = None -> known (trees a) !! pp = Some e ->
  preIn e <> Some attrs -> saidNew attrs b (trees a) ->
  ('(e, b, data, a, _) ←
     processPrefixWithPolicy config manager stale same pp pc d data (setPreIn (Some attrs) e) b a;
   Some (data, b, set_trees (putRibEntry pp e (trees a)) a)) = Some r ->
  announced v attrs pp r.1.2 a r.2.
Proof.
  intros HM Hu Hs He Hne HS ([[[[e' b'] data'] a1] n] & HP & [= <-])%bind_Some. simpl.
  destruct (announce_existing v attrs b (trees a) _ a a1 pp e e' b' same pc d data data' n
    HM Hu Hs He Hne HS HP) as [HM' HS'].
  apply processPrefix_spec in HP as (post & c & e1 & HA & Hpre & _).
  apply maybeAnnounce_spec in HA as (Ht & Hpr & Hq & Hss & _ & Hpi & _).
  cbn in Ht, Hpr, Hq. assert (Hss' : sameSession a a1) by exact Hss.
  assert (HK : known (putRibEntry pp e' (trees a)) = <[pp := e']> (known (trees a))) by (by apply known_put).
  split; cbn [trees set_trees preInPrefixCount postInPrefixCount]; rewrite ?Ht, ?Hpr; try done.
  - eapply sameSession_trans; [exact Hss'|]. apply sameSession_trees; rewrite Ht; [apply put_frame|]. by rewrite (proj2 (put_frame _ _ _)).
  - intros HW. apply (withinLimit_same a); [|done]. cbn. rewrite HK.
    apply map_size_insert_Some. by eexists.
  - split; rewrite HK.
    + intros x Hx. by apply lookup_insert_ne.
    + rewrite lookup_insert_eq. by rewrite Hpi, Hpre.
Qed.

(** A new path. *)
Lemma announce_fresh v attrs b a a1 pp g same pc d data r :
  mid v b (trees a) (preInPrefixCount a) (postInPrefixCount a) -> usable (trees a) pp ->
  known (trees a) !! pp = None -> saidNew attrs b (trees a) ->
  canAddRibInEntry config pp.1 attrs a = (true, a1) ->
  (let a2 := set_trees (putRibEntry pp (newRibInEntry pp.2) (trees a))
               (incrementPreInPrefixCount pp.1 g a1) in
   '(e, b, data, a3, _) ←
     processPrefixWithPolicy config manager stale same pp pc d data
       (setPreIn (Some attrs) (newRibInEntry pp.2)) b a2;
   Some (data, b, set_trees (putRibEntry pp e (trees a3)) a3)) = Some r ->
  announced v attrs pp r.1.2 a r.2.
Proof.
  intros HM Hu Hn HS HC. pose proof (canAdd_frame pp.1 attrs a) as HF. rewrite HC in HF. simpl in HF.
  destruct HF as (F1 & F2 & F3 & F4 & F5). cbv zeta. set (a2 := set_trees _ _).
  intros ([[[[e' b'] data'] a3] n] & HP & [= <-])%bind_Some. cbn [fst snd].
  apply processPrefix_spec in HP as (post & c & e1 & HA & Hpre & Hpost & Hid).
  pose proof (maybeAnnounce_spec _ _ _ _ _ _ _ _ _ _ HA) as (Ht & Hpr & Hq & Hss & _ & Hpi & _ & Hb).
  apply lookup_union_None in Hn as Hn'. destruct Hn' as [Hl Hst].
  set (t2 := putRibEntry pp (newRibInEntry pp.2) (trees a)) in *.
  assert (Hu2 : usable t2 pp) by (by apply (usable_trees (trees a)); [apply put_frame|]).
  assert (HK : known (putRibEntry pp e' t2) = <[pp := e']> (known (trees a))).
  { unfold t2. rewrite !known_put by done. by rewrite insert_insert_eq. }
  assert (Hsay : forall o, ~ says b pp o).
  { intros o Ho. destruct (HS pp o Ho) as (x & Hx & _). congruence. }
  assert (Ht3 : trees a3 = t2) by exact Ht.
  assert (Hp3 : preInPrefixCount a3 = recount (isV4 pp.1.1) (present pp None) true (preInPrefixCount a))
    by (rewrite Hpr; cbn; by rewrite F2).
  split; cbn [trees set_trees preInPrefixCount postInPrefixCount]; rewrite ?Ht3.
  - rewrite Hp3. apply (mid_update v b b' (trees a) _ _ (set_inCache c a2) a3 pp None e1 e' same post n);
      try done.
    + cbn. by rewrite F3.
    + apply disj_put; [done|unfold t2; apply disj_put; [done|apply HM|done]|].
      unfold t2. by rewrite (proj2 (put_frame _ _ _)).
    + unfold t2. apply other_put, other_put, HM.
    + unfold learnt. by rewrite Hpre.
  - apply (saidNew_update attrs b b' (trees a) _ pp e'); [|done|done|by rewrite Hpi, Hpre].
    destruct Hb as [[-> _]| ->]; [by left|right; by eexists].
  - destruct F5 as (F5 & F6 & F7 & F8 & F9). destruct Hss as (_ & G5 & G6 & G7 & G8 & G9 & _). cbn in *.
    unfold sameSession. cbn. unfold t2. rewrite !(proj1 (put_frame _ _ _)), !(proj2 (put_frame _ _ _)).
    split_and!; [congruence..|done].
  - cbn in Hq |- *. congruence.
  - apply (withinLimit_new pp.1 attrs a).
    + rewrite <- countBy_all. apply HM.
    + by rewrite HC.
    + cbn. rewrite HK. by apply map_size_insert_None.
  - split; rewrite HK.
    + intros x Hx. by apply lookup_insert_ne.
    + rewrite lookup_insert_eq. by rewrite Hpi, Hpre.
Qed.

Hypothesis Hogr : enableOptimizedGR_ config = false.

Lemma heard_trees attrs pp t1 t2 t3 :
  known t2 = known t1 -> heard attrs pp t2 t3 -> heard attrs pp t1 t3.
Proof. unfold heard. by intros ->. Qed.

Lemma announced_frame v attrs pp b a a' :
  mid v b (trees a) (preInPrefixCount a) (postInPrefixCount a) -> saidNew attrs b (trees a) ->
  frame a a' -> heard attrs pp (trees a) (trees a) -> announced v attrs pp b a a'.
Proof.
  intros HM HS HF Hh. pose proof (frame_session _ _ HF). destruct HF as (F1 & F2 & F3 & F4 & _).
  split; rewrite ?F1, ?F2, ?F3; try done. apply withinLimit_same. by rewrite F1.
Qed.

Lemma announceOne_ok v same pp attrs pc g d data b a r :
  mid v b (trees a) (preInPrefixCount a) (postInPrefixCount a) -> usable (trees a) pp ->
  saidNew attrs b (trees a) ->
  announceOne config manager stale same pp attrs pc g d data b a = Some r ->
  announced v attrs pp r.1.2 a r.2.
Proof.
  intros HM Hu HS. unfold announceOne, promote. rewrite Hogr.
  destruct (promote_ok _ _ _ _ _ pp HM Hu) as (t & -> & HM1 & Hk & Hr & Hst & Hds). cbn [mbind option_bind].
  set (a1 := set_trees t a) in *. change (mid v b (trees a1) (preInPrefixCount a1) (postInPrefixCount a1)) in HM1.
  change t with (trees a1) in Hk, Hr, Hst, Hds.
  assert (Hu1 : usable (trees a1) pp) by (by eapply usable_trees).
  assert (HS1 : saidNew attrs b (trees a1)) by (unfold saidNew; by rewrite Hk).
  intros HA. enough (announced v attrs pp r.1.2 a1 r.2) as [A1 A2 A3 A4 A5 A6].
  { split; try done.
    - eapply sameSession_trans; [|exact A3]. by apply sameSession_trees.
    - intros HW. apply A5. revert HW. apply withinLimit_same. by rewrite Hk.
    - eapply heard_trees; [exact Hk|exact A6]. }
  clearbody a1. clear HM Hu HS Hk Hr Hds. unfold entryForAnnouncement in HA.
  rewrite getRibEntry_live in HA by done.
  assert (Hkl : known (trees a1) !! pp = liveMap (trees a1) !! pp).
  { unfold known. rewrite lookup_union, Hst. by destruct (liveMap _ !! _). }
  destruct (liveMap (trees a1) !! pp) as [e|] eqn:El.
  - destruct (mid_entries _ _ _ _ _ HM1 _ _ Hkl) as [Hle _]. unfold learnt in Hle.
    destruct (preIn e) as [x|] eqn:Ep; [|done].
    destruct e as [i p0 q0 pol st]. simpl in Ep. subst p0. cbv beta iota in HA. cbn [preIn] in HA.
    case_bool_decide as Hx.
    + injection HA as <-. apply announced_frame; [done|done|apply frame_refl|].
      split; [done|]. rewrite Hkl. exact Hx.
    + by eapply announce_known.
  - pose proof (canAdd_frame pp.1 attrs a1) as HF.
    destruct (canAddRibInEntry config pp.1 attrs a1) as [[] a2] eqn:HC; simpl in HF, HA.
    + rewrite (proj1 HF) in HA. rewrite liveMap_add in HA by done.
      rewrite getRibEntry_live, liveMap_put, lookup_insert_eq in HA
        by (done || (eapply usable_trees; [apply put_frame|done])).
      rewrite bool_decide_eq_false_2 in HA by done. by eapply announce_fresh.
    + injection HA as <-. apply announced_frame; [done|done|done|].
      split; [done|]. rewrite Hkl. split; [done|]. apply (canAdd_unlimited pp.1 attrs a1). by rewrite HC.
Qed.

(** All paths of a message. *)
Definition heardAll (attrs : BgpPathFields) (pps : list PrefixPathId) (t t' : InTrees) : Prop :=
  (forall x, x ∉ pps -> known t' !! x = known t !! x) /\
  (forall x, x ∈ pps -> match known t' !! x with
                       | Some e => preIn e = Some attrs
                       | None => known t !! x = None /\ limited
                       end).

Lemma heardAll_cons attrs pp pps t1 t2 t3 :
  heard attrs pp t1 t2 -> heardAll attrs pps t2 t3 -> heardAll attrs (pp :: pps) t1 t3.
Proof.
  intros [H1 H2] [H3 H4]. split.
  - intros x Hx. rewrite H3, H1 by set_solver. done.
  - intros x Hx. destruct (decide (x ∈ pps)) as [Hi|Hi].
    + specialize (H4 x Hi). destruct (known t3 !! x); [done|]. destruct H4 as [H4 ?].
      destruct (decide (x = pp)) as [->|Hn]; [by rewrite H4 in H2|by rewrite <- H1].
    + assert (x = pp) as -> by set_solver. by rewrite H3.
Qed.

Record announcedAll (v : RibView) (attrs : BgpPathFields) (pps : list PrefixPathId) (b : Batch)
    (a a' : AdjRibIn) : Prop := {
  aa_mid : mid v b (trees a') (preInPrefixCount a') (postInPrefixCount a');
  aa_session : sameSession a a';
  aa_queue : ribInQ_ a' = ribInQ_ a;
  aa_limit : withinLimit a -> withinLimit a';
  aa_heard : heardAll attrs pps (trees a) (trees a')
}.

Lemma announcePrefixes_ok v same pps attrs pc g d data b a r :
  mid v b (trees a) (preInPrefixCount a) (postInPrefixCount a) -> Forall (usable (trees a)) pps ->
  saidNew attrs b (trees a) ->
  announcePrefixes config manager stale same pps attrs pc g d data b a = Some r ->
  announcedAll v attrs pps r.1 a r.2.
Proof.
  revert data b a. induction pps as [|pp pps IH]; intros data b a HM Hu HS; simpl.
  { intros [= <-]. split; [done|by repeat split|done|done|]. split; [done|set_solver]. }
  apply Forall_cons in Hu as [Hu1 Hu2].
  intros ([[data1 b1] a1] & H1 & H2)%bind_Some. apply announceOne_ok with (v := v) in H1; [|done..].
  destruct H1 as [A1 A2 A3 A4 A5 A6]. cbn [fst snd] in *.
  assert (Hu3 : Forall (usable (trees a1)) pps).
  { eapply Forall_impl; [exact Hu2|]. intros x. apply usable_trees, A3. }
  destruct (IH data1 b1 a1 A1 Hu3 A2 H2) as [B1 B2 B3 B4 B5].
  split; [done|by eapply sameSession_trans|congruence|auto|by eapply heardAll_cons].
Qed.
End Policy.
End Config.
End Operations.
