(* ===== verification/AdjRibInOps.v ===== *)
(** * The Adj-RIB-In: UPDATE messages and withdrawals

    UPDATE messages keep the invariant of AdjRibInInv.v and leave the received
    attributes that RFC 4271 asks for; End-of-RIB, the timers, both ends of a session and
    the re-evaluations keep the invariant too. *)

From stdpp Require Import gmap fin_maps relations strings.
From S2P Require Import Prelude BgpException Folly BgpStructs PathAttrs RouteFilter RouteInfo RibEntry Ucmp.
From S2P Require Import DeDuplicator PathFields PolicyEncoding PolicyAction PolicyMatch.
From S2P Require Import PolicyEngine PolicyTerm PolicyMask PolicyCache AdjRibCommon.
From S2P Require Import PackingList AdjRibOut PathConversion AdjRibIn AdjRibInInv.

Section In.
Context `{F : FollyOps} `{L : PolicyLibs} `{PL : PrefixLibs} `{RC : RibContext}.
Context {ECM : EvictingCacheMap PolicyCacheMaskedKey PolicyCacheValue}.
Context `{IOL : InOrderLaws}.

(** Where an operation starts: the queue to the RIB and the tasks that have not pushed yet,
    and a view of the RIB.  Operations only add to that queue; what they add is judged on
    that view, whatever the queue held before. *)
Record Base := mkBase { b_queue : list RibInMessage; b_view : RibView; b_tasks : list RibInMessage }.

Section Operations.
Variable base : Base.

Definition seen (q : list RibInMessage) : RibView :=
  fold_left ribReceives (drop (length (b_queue base)) q) (b_view base).

Record since (a : AdjRibIn) : Prop := {
  si_queue : b_queue base `prefix_of` ribInQ_ a;
  si_tasks : pendingRibInPushes_ a = b_tasks base
}.

Lemma seen_app a ms : since a -> seen (ribInQ_ a ++ ms) = fold_left ribReceives ms (seen (ribInQ_ a)).
Proof.
  intros [[l Hl] _]. unfold seen. rewrite Hl, <- (app_assoc (b_queue base)), !drop_app_length. by rewrite fold_left_app.
Qed.

Lemma since_same a a' : ribInQ_ a' = ribInQ_ a -> sameSession a a' -> since a -> since a'.
Proof. intros HQ (_ & _ & _ & _ & _ & HT & _) [H1 H2]. split; by rewrite ?HQ, ?HT. Qed.

Lemma since_queued ms a a' : queued ms a a' -> since a -> since a' /\ seen (ribInQ_ a') = fold_left ribReceives ms (seen (ribInQ_ a)).
Proof.
  intros (HQ & _ & _ & _ & (_ & _ & _ & _ & _ & HT & _)) HS. split; [|by rewrite HQ, seen_app].
  destruct HS as [H1 H2]. split; [rewrite HQ; by apply prefix_app_r|by rewrite HT].
Qed.

(** Between two steps nothing is pending. *)
Record inv (a : AdjRibIn) : Prop := {
  inv_since : since a;
  inv_mid :> mid (seen (ribInQ_ a)) emptyBatch (trees a) (preInPrefixCount a) (postInPrefixCount a)
}.

(** Only the state of the restart, the cache, the events and what is shared differ. *)
Definition sameRoutes (a a' : AdjRibIn) : Prop :=
  trees a' = trees a /\ preInPrefixCount a' = preInPrefixCount a /\
  postInPrefixCount a' = postInPrefixCount a /\ ribInQ_ a' = ribInQ_ a /\
  pendingRibInPushes_ a' = pendingRibInPushes_ a.
Lemma inv_same a a' : sameRoutes a a' -> inv a -> inv a'.
Proof. intros (E1 & E2 & E3 & E4 & E5) [[S1 S2] HM]. split; [split|]; by rewrite ?E1, ?E2, ?E3, ?E4, ?E5. Qed.

Lemma inv_moved a a' :
  inv a -> ribInQ_ a' = ribInQ_ a -> pendingRibInPushes_ a' = pendingRibInPushes_ a ->
  mid (seen (ribInQ_ a)) emptyBatch (trees a') (preInPrefixCount a') (postInPrefixCount a') -> inv a'.
Proof. intros [[S1 S2] _] HQ HT HM. split; [split|]; by rewrite ?HQ, ?HT. Qed.

Section Config.
Variable config : InConfig.
Hypothesis Hogr : enableOptimizedGR_ config = false.

(** ** Withdrawals *)

Abbreviation withdrawing l := (mkBatch l ∅).

(** The keys [gone] lose their entries, all others keep theirs. *)
Definition forgets (gone : list PrefixPathId) (t t' : InTrees) : Prop :=
  forall x, known t' !! x = if decide (x ∈ gone) then None else known t !! x.

Lemma forgets_size gone t t' : forgets gone t t' -> (size (known t') <= size (known t))%nat.
Proof.
  intros Hf. apply map_subseteq_size, map_subseteq_spec. intros x e. rewrite Hf. by case_decide.
Qed.

Record dropped (v : RibView) (gone : list PrefixPathId) (l : list PrefixPathId) (a a' : AdjRibIn) : Prop := {
  dr_mid : mid v (withdrawing l) (trees a') (preInPrefixCount a') (postInPrefixCount a');
  dr_session : sameSession a a';
  dr_queue : ribInQ_ a' = ribInQ_ a;
  dr_forgets : forgets gone (trees a) (trees a')
}.

Lemma withdrawOne_ok v l a pp r :
  mid v (withdrawing l) (trees a) (preInPrefixCount a) (postInPrefixCount a) ->
  usable (trees a) pp -> adjRibInStale_ (trees a) !! pp = None ->
  processWithdrawnPrefixRibInEntry pp l a = r -> dropped v [pp] r.1 a r.2.
Proof.
  intros HM Hu Hst <-. unfold processWithdrawnPrefixRibInEntry. rewrite getRibEntry_live by done.
  assert (Hkl : known (trees a) !! pp = liveMap (trees a) !! pp).
  { unfold known. rewrite lookup_union, Hst. by destruct (liveMap _ !! _). }
  assert (Hf : forall t', known t' = delete pp (known (trees a)) -> forgets [pp] (trees a) t').
  { intros t' Ht x. rewrite Ht. case_decide as Hx.
    - apply list_elem_of_singleton in Hx as ->. by rewrite lookup_delete_eq.
    - rewrite lookup_delete_ne; [done|set_solver]. }
  destruct (liveMap (trees a) !! pp) as [e|] eqn:El.
  2:{ split; [done|by repeat split|done|]. apply Hf. by rewrite delete_id. }
  assert (HK : known (deleteRibEntry pp (trees a)) = delete pp (known (trees a))) by (by apply known_delete).
  assert (HC : forall b' post', post' = recount (isV4 pp.1.1) (accepted e) false (postInPrefixCount a) ->
    b' = withdrawing l /\ postIn e = None \/ b' = tell pp None (withdrawing l) ->
    mid v b' (deleteRibEntry pp (trees a)) (decrementCount (isV4 pp.1.1) (preInPrefixCount a)) post').
  { intros b' post' Hp Hb. apply (mid_change _ _ _ _ _ _ _ _ _ pp None HM). split.
    - exact HK.
    - apply disj_delete; [done|apply HM].
    - apply other_delete, HM.
    - done.
    - by rewrite Hkl.
    - by rewrite Hkl.
    - destruct Hb as [[-> Hn]| ->]; [left; split; [done|]; unfold postOf; by rewrite Hkl; simpl|right].
      split; [done|]. intros [x|]; simpl; rewrite ?lookup_empty; set_solver. }
  destruct (delete_frame (trees a) pp) as [HS1 HS2].
  unfold accepted in HC. destruct (postIn e) eqn:Ep; cbn [fst snd]; split; cbn; auto;
    unfold sameSession; cbn; by rewrite HS1, HS2.
Qed.
Lemma forgets_same gone t1 t2 t3 : known t2 = known t1 -> forgets gone t2 t3 -> forgets gone t1 t3.
Proof. unfold forgets. by intros ->. Qed.
Lemma forgets_app gone1 gone2 t1 t2 t3 :
  forgets gone1 t1 t2 -> forgets gone2 t2 t3 -> forgets (gone1 ++ gone2) t1 t3.
Proof. intros H1 H2 x. rewrite H2, H1. repeat case_decide; set_solver. Qed.

Lemma dropped_trans v gone1 gone2 l1 l2 a1 a2 a3 :
  dropped v gone1 l1 a1 a2 -> dropped v gone2 l2 a2 a3 -> dropped v (gone1 ++ gone2) l2 a1 a3.
Proof.
  intros [A1 A2 A3 A4] [B1 B2 B3 B4].
  split; [done|by eapply sameSession_trans|congruence|by eapply forgets_app].
Qed.

(** All withdrawn routes go; no check fails. *)
Lemma withdrawPrefixes_ok v pps l a :
  mid v (withdrawing l) (trees a) (preInPrefixCount a) (postInPrefixCount a) ->
  Forall (usable (trees a)) pps ->
  exists r, withdrawPrefixes config pps l a = Some r /\ dropped v pps r.1 a r.2.
Proof.
  revert l a. induction pps as [|pp pps IH]; intros l a HM Hu; simpl.
  { exists (l, a). split; [done|]. split; [done|by repeat split|done|]. intros x.
    by rewrite decide_False by set_solver. }
  apply Forall_cons in Hu as [Hu1 Hu2]. unfold promote. rewrite Hogr.
  destruct (promote_ok _ _ _ _ _ pp HM Hu1) as (t & -> & HM1 & Hk & Hr & Hst & Hds). cbn [mbind option_bind].
  set (a1 := set_trees t a). assert (Hu1' : usable (trees a1) pp) by (by eapply usable_trees).
  destruct (processWithdrawnPrefixRibInEntry pp l a1) as [l2 a2] eqn:E2.
  pose proof (withdrawOne_ok v l a1 pp _ HM1 Hu1' Hst E2) as HD. cbn [fst snd] in HD.
  assert (HD' : dropped v [pp] l2 a a2).
  { destruct HD as [D1 D2 D3 D4]. split; [done| |done|by eapply forgets_same].
    eapply sameSession_trans; [by apply (sameSession_trees t a)|exact D2]. }
  destruct (IH l2 a2) as (r & -> & HR); [apply HD'| |].
  { eapply Forall_impl; [exact Hu2|]. intros x. apply usable_trees, HD'. }
  exists r. split; [done|]. by apply (dropped_trans v [pp] pps l2 _ a a2).
Qed.

(** The session's keys. *)
Lemma prefixPathIds_usable t prefixes pps :
  mapM (prefixPathIdOf (recAddPath_ t)) prefixes = Some pps -> Forall (usable t) pps.
Proof.
  intros HP. apply mapM_Some_1 in HP. apply Forall_forall. intros x Hx.
  apply list_elem_of_lookup in Hx as [i Hi]. destruct (Forall2_lookup_r _ _ _ _ _ HP Hi) as (p & _ & Hp).
  unfold prefixPathIdOf in Hp. destruct (toCIDRNetwork _ _); simplify_eq. intros ->. done.
Qed.

Lemma batchMessages_withdrawing l :
  batchMessages config (withdrawing l) =
    if nonempty l then [RibInWithdrawal (peerInfo config) l] else [].
Proof.
  unfold batchMessages. simpl. assert (HE : group_walk ∅ = []).
  { apply Permutation_nil. symmetry. by rewrite group_walk_perm, map_to_list_empty. }
  rewrite HE. simpl. apply app_nil_r.
Qed.

Lemma inv_sent b a a' :
  since a -> mid (seen (ribInQ_ a)) b (trees a) (preInPrefixCount a) (postInPrefixCount a) ->
  queued (batchMessages config b) a a' -> inv a'.
Proof.
  intros HS HM HQ. destruct (since_queued _ _ _ HQ HS) as [HS' HV]. split; [done|]. rewrite HV. by eapply mid_sent.
Qed.

Lemma inv_sent_withdrawals gone l a a1 :
  since a -> dropped (seen (ribInQ_ a)) gone l a a1 -> inv (sendRibInWithdrawal config l a1).
Proof.
  intros HS [D1 D2 D3 D4]. apply (inv_sent (withdrawing l) a1); [by eapply since_same|rewrite D3; exact D1|].
  rewrite batchMessages_withdrawing. apply sendWithdrawal_queued.
Qed.

(** After an operation between two steps. *)
Record done_ (a a' : AdjRibIn) : Prop := { do_inv : inv a'; do_session : sameSession a a' }.

Lemma processPeerWithdrawn_ok prefixes pps a :
  inv a -> mapM (prefixPathIdOf (recAddPath_ (trees a))) prefixes = Some pps ->
  exists a', processPeerWithdrawn config prefixes a = Some a' /\ done_ a a' /\
    forgets pps (trees a) (trees a').
Proof.
  intros HI Hp. unfold processPeerWithdrawn. rewrite Hp. cbn [mbind option_bind].
  destruct (withdrawPrefixes_ok _ pps [] a HI (prefixPathIds_usable _ _ _ Hp)) as ([l a1] & -> & HD).
  cbn [mbind option_bind fst snd] in *. eexists. split; [done|].
  pose proof (sendWithdrawal_queued config l a1) as (_ & HT & _ & _ & HS).
  split; [split; [by eapply inv_sent_withdrawals; [apply HI|]|]|].
  - eapply sameSession_trans; [apply HD|exact HS].
  - rewrite HT. apply HD.
Qed.

(** ** Announcements *)

Section Policy.
Variable manager : PolicyManager.
Variable stale : PolicyCacheMaskedKey -> bool.

Lemma processPeerAnnounced_ok same d prefixes attrs a a' :
  inv a -> processPeerAnnounced config manager stale same d prefixes attrs a = Some a' ->
  exists pps, mapM (prefixPathIdOf (recAddPath_ (trees a))) prefixes = Some pps /\ done_ a a' /\
    (withinLimit config a -> withinLimit config a') /\ heardAll config attrs pps (trees a) (trees a').
Proof.
  intros HI. unfold processPeerAnnounced.
  intros (pc & _ & (pps & Hp & ([b a1] & HA & [= <-])%bind_Some)%bind_Some)%bind_Some.
  pose proof (prefixPathIds_usable _ _ _ Hp) as Hu.
  apply announcePrefixes_ok with (v := seen (ribInQ_ a)) in HA; [|done|by apply HI|done|intros ?? []%says_empty].
  destruct HA as [A1 A2 A3 A4 A5]. cbn [fst snd] in *.
  pose proof (sendUpdates_queued config b a1) as HQ. pose proof HQ as (_ & HT & _ & _ & HS).
  exists pps. split; [done|]. split; [split|].
  - apply (inv_sent b a1); [by eapply since_same; [..|apply HI]|rewrite A3; exact A1|exact HQ].
  - by eapply sameSession_trans.
  - split; [|by rewrite HT]. intros HW. apply (withinLimit_same config a1); [by rewrite HT|auto].
Qed.

(** ** UPDATE messages *)

Lemma withinLimit_forgets gone a a' :
  forgets gone (trees a) (trees a') -> withinLimit config a -> withinLimit config a'.
Proof.
  intros Hf HW limit HL Hm. specialize (HW limit HL Hm). pose proof (forgets_size _ _ _ Hf). lia.
Qed.

(** The received attributes by prefix and path id, and what a message makes of them. *)
Definition received (t : InTrees) : RibView := omap preIn (known t).
Definition learnAll (attrs : BgpPathFields) (pps : list PrefixPathId) (v : RibView) : RibView :=
  fold_left (fun v pp => <[pp := attrs]> v) pps v.
Definition forgetAll (pps : list PrefixPathId) (v : RibView) : RibView :=
  fold_left (fun v pp => delete pp v) pps v.

Lemma received_forgets pps t t' : forgets pps t t' -> received t' = forgetAll pps (received t).
Proof.
  intros Hf. apply map_eq. intros x. unfold forgetAll, received.
  rewrite withdrawn_lookup, !lookup_omap, Hf. by case_decide.
Qed.

Lemma received_heard attrs pps t t' :
  heardAll config attrs pps t t' -> ~ limited config -> received t' = learnAll attrs pps (received t).
Proof.
  intros [H1 H2] Hl. apply map_eq. intros x. unfold learnAll, received.
  rewrite announced_lookup, !lookup_omap. case_decide as Hx; [|by rewrite H1].
  specialize (H2 x Hx). destruct (known t' !! x); [done|by destruct H2].
Qed.

(** RFC 4271, with attributes that do not pass treated as a withdrawal. *)
Definition specWithdrawn (addPath : bool) (prefixes : list RiggedIPPrefix) (v : RibView) : option RibView :=
  pps ← mapM (prefixPathIdOf addPath) prefixes; Some (forgetAll pps v).
Definition specAnnounced (addPath : bool) (prefixes : list RiggedIPPrefix) (attrs : BgpPathFields)
    (v : RibView) : option RibView :=
  let s := in_session config in
  verdict ← validateAttributesIn (peeringParams_ s) (sessionType s) (remoteAs_ s) attrs;
  pps ← mapM (prefixPathIdOf addPath) prefixes;
  Some (match verdict with AttributesValid => learnAll attrs pps v | _ => forgetAll pps v end).
Definition specUpdate (addPath : bool) (u : BgpUpdate2) (v : RibView) : option RibView :=
  v ← specWithdrawn addPath (u_v4Withdrawn2 u) v;
  v ← specWithdrawn addPath (nlri_prefixes (u_mpWithdrawn u)) v;
  v ← (if nonempty (u_v4Announced2 u)
       then attrs ← bgpAttributesToBgpPathC (u_attrs u); specAnnounced addPath (u_v4Announced2 u) attrs v
       else Some v);
  if nonempty (nlri_prefixes (u_mpAnnounced u))
  then attrs ← bgpAttributesToBgpPathC (u_attrs u);
       nh ← match toIPAddress (nlri_nexthop (u_mpAnnounced u)) with Ok nh => Some nh | _ => None end;
       specAnnounced addPath (nlri_prefixes (u_mpAnnounced u)) (setNexthop nh attrs) v
  else Some v.

(** What an operation on UPDATE messages does: [sp] is its specification. *)
Record performed (sp : RibView -> option RibView) (a a' : AdjRibIn) : Prop := {
  pf_done : done_ a a';
  pf_limit : withinLimit config a -> withinLimit config a';
  pf_spec : ~ limited config -> sp (received (trees a)) = Some (received (trees a'))
}.

Lemma performed_ret a : inv a -> performed Some a a.
Proof. split; [split; [done|by repeat split]|done|done]. Qed.
Lemma performed_bind sp1 sp2 a1 a2 a3 :
  performed sp1 a1 a2 -> performed sp2 a2 a3 -> performed (fun v => sp1 v ≫= sp2) a1 a3.
Proof.
  intros [A1 A2 A3] [B1 B2 B3]. split; [split; [apply B1|]|auto|].
  - eapply sameSession_trans; [apply A1|apply B1].
  - intros Hl. by rewrite A3; simpl; auto.
Qed.

Lemma withdrawn_performed prefixes a a' :
  inv a -> processPeerWithdrawn config prefixes a = Some a' ->
  performed (specWithdrawn (recAddPath_ (trees a)) prefixes) a a'.
Proof.
  intros HI HW. unfold processPeerWithdrawn in HW. pose proof HW as (pps & Hp & _)%bind_Some.
  destruct (processPeerWithdrawn_ok prefixes pps a HI Hp) as (a1 & HW1 & HD & Hf).
  assert (a1 = a') as -> by (unfold processPeerWithdrawn in HW1; congruence).
  split; [done|by apply (withinLimit_forgets pps)|]. intros _. unfold specWithdrawn. rewrite Hp. simpl.
  by rewrite (received_forgets pps (trees a) (trees a')).
Qed.

Lemma announced_performed same d prefixes attrs a a' :
  inv a -> processAnnounced config manager stale same d prefixes attrs a = Some a' ->
  performed (specAnnounced (recAddPath_ (trees a)) prefixes attrs) a a'.
Proof.
  intros HI (verdict & HV & HA)%bind_Some. unfold specAnnounced. rewrite HV. cbn [mbind option_bind].
  assert (HW : processPeerWithdrawn config prefixes a = Some a' ->
    performed (fun v => pps ← mapM (prefixPathIdOf (recAddPath_ (trees a))) prefixes;
                        Some (forgetAll pps v)) a a') by (by apply withdrawn_performed).
  destruct verdict; [|by apply HW..].
  destruct (processPeerAnnounced_ok _ _ _ _ _ _ HI HA) as (pps & Hp & HD & HL & HH). rewrite Hp.
  split; [done|done|]. intros Hl. simpl. by rewrite (received_heard attrs pps (trees a) (trees a')).
Qed.

Lemma someWithdrawn_performed prefixes a a' :
  inv a -> (if nonempty prefixes then processPeerWithdrawn config prefixes a else Some a) = Some a' ->
  performed (specWithdrawn (recAddPath_ (trees a)) prefixes) a a'.
Proof.
  intros HI. destruct prefixes as [|p ps]; cbn [nonempty]; [|by apply withdrawn_performed].
  intros [= <-]. by apply performed_ret.
Qed.

Lemma performed_keys sp a a' : performed sp a a' -> recAddPath_ (trees a') = recAddPath_ (trees a).
Proof. by intros [[_ [? _]] _ _]. Qed.
Lemma performed_inv sp a a' : performed sp a a' -> inv a'.
Proof. by intros [[? _] _ _]. Qed.

(** A whole UPDATE. *)
Lemma update_performed same d4 d6 u a a' :
  inv a -> processPeerUpdate config manager stale same d4 d6 u a = Some a' ->
  performed (specUpdate (recAddPath_ (trees a)) u) a a'.
Proof.
  intros HI (a1 & H1 & (a2 & H2 & (a3 & H3 & H4)%bind_Some)%bind_Some)%bind_Some. unfold specUpdate.
  apply someWithdrawn_performed in H1; [|done]. pose proof (performed_inv _ _ _ H1) as HI1.
  pose proof (performed_keys _ _ _ H1) as K1. apply (performed_bind _ _ a a1); [done|].
  apply someWithdrawn_performed in H2; [|done]. pose proof (performed_inv _ _ _ H2) as HI2.
  pose proof (performed_keys _ _ _ H2) as K2. rewrite K1 in H2, K2.
  apply (performed_bind _ _ a1 a2); [done|]. apply (performed_bind _ _ a2 a3).
  - destruct (nonempty (u_v4Announced2 u)); [|injection H3 as <-; by apply performed_ret].
    apply bind_Some in H3 as (attrs & -> & H3). apply announced_performed in H3; [|done].
    by rewrite K2 in H3.
  - assert (HI3 : inv a3 /\ recAddPath_ (trees a3) = recAddPath_ (trees a)).
    { destruct (nonempty (u_v4Announced2 u)); [|by injection H3 as <-].
      apply bind_Some in H3 as (attrs & _ & H3). apply announced_performed in H3; [|done].
      split; [by eapply performed_inv|]. by rewrite (performed_keys _ _ _ H3). }
    destruct HI3 as [HI3 K3]. destruct (nonempty (nlri_prefixes (u_mpAnnounced u))); [|injection H4 as <-; by apply performed_ret].
    apply bind_Some in H4 as (attrs & -> & H4). cbn [mbind option_bind].
    destruct (toIPAddress _); [|done..]. apply announced_performed in H4; [|done]. by rewrite K3 in H4.
Qed.
End Policy.

(** ** Stale routes *)

Definition unstale (t : InTrees) (x : PrefixPathId * RibInEntry) : InTrees :=
  setStaleTree (delete x.1 (adjRibInStale_ t)) t.

Lemma liveMap_stale m t : liveMap (setStaleTree m t) = liveMap t.
Proof. done. Qed.

Lemma known_stale_key t pp e :
  liveMap t ##ₘ adjRibInStale_ t -> adjRibInStale_ t !! pp = Some e ->
  liveMap t !! pp = None /\ known t !! pp = Some e.
Proof.
  intros Hd Hs. assert (Hl : liveMap t !! pp = None) by (by eapply map_disjoint_Some_r).
  split; [done|]. unfold known. by rewrite lookup_union_r.
Qed.

Lemma dropStale_ok v l t a x :
  mid v (withdrawing l) t (preInPrefixCount a) (postInPrefixCount a) ->
  adjRibInStale_ t !! x.1 = Some x.2 ->
  mid v (withdrawing (l ++ [x.1])) (unstale t x) (preInPrefixCount (dropStale a x))
    (postInPrefixCount (dropStale a x)).
Proof.
  intros HM Hx. destruct (known_stale_key t x.1 x.2 (mid_disj _ _ _ _ _ HM) Hx) as [Hl Hk].
  apply (mid_change _ _ _ _ _ _ _ _ _ x.1 None HM). split.
  - unfold known, unstale. rewrite liveMap_stale. simpl. apply map_eq. intros y.
    destruct (decide (y = x.1)) as [->|Hy].
    + rewrite lookup_partial_alter_eq. apply lookup_union_None. by rewrite lookup_delete_eq.
    + rewrite lookup_partial_alter_ne, !lookup_union, lookup_delete_ne by done. done.
  - apply map_disjoint_delete_r, HM.
  - apply (mid_tree _ _ _ _ _ HM).
  - done.
  - rewrite Hk. unfold dropStale. by destruct (postIn x.2).
  - rewrite Hk. unfold dropStale, accepted, holds. by destruct (postIn x.2).
  - right. split; [done|]. intros [y|]; simpl; rewrite ?lookup_empty; set_solver.
Qed.

Lemma dropStale_frame l a :
  let a' := fold_left dropStale l a in
  trees a' = trees a /\ ribInQ_ a' = ribInQ_ a /\ sameSession a a'.
Proof.
  revert a. induction l as [|x l IH]; intros a; cbn [fold_left]; [by repeat split|].
  destruct (IH (dropStale a x)) as (H1 & H2 & H3). cbv zeta. rewrite H1, H2.
  assert (HS : trees (dropStale a x) = trees a /\ ribInQ_ (dropStale a x) = ribInQ_ a /\
    sameSession a (dropStale a x)) by (unfold dropStale; case_match; by repeat split).
  destruct HS as (-> & -> & HS). split_and!; [done..|by eapply sameSession_trans].
Qed.

Lemma dropStale_all v w l t a :
  mid v (withdrawing w) t (preInPrefixCount a) (postInPrefixCount a) -> NoDup l.*1 ->
  (forall x, x ∈ l -> adjRibInStale_ t !! x.1 = Some x.2) ->
  mid v (withdrawing (w ++ l.*1)) (fold_left unstale l t) (preInPrefixCount (fold_left dropStale l a))
    (postInPrefixCount (fold_left dropStale l a)).
Proof.
  revert w t a. induction l as [|x l IH]; intros w t a HM Hn Hs; cbn [fold_left fmap list_fmap].
  { by rewrite app_nil_r. }
  apply NoDup_cons in Hn as [Hx Hn]. rewrite (cons_middle x.1), app_assoc. apply IH; [|done|].
  - apply dropStale_ok; [done|]. apply Hs. set_solver.
  - intros y Hy. unfold unstale. simpl. rewrite lookup_delete_ne; [apply Hs; set_solver|].
    intros Heq. apply Hx. rewrite Heq. by apply list_elem_of_fmap_2.
Qed.

Lemma unstale_all l t :
  fold_left unstale l t =
    setStaleTree (fold_left (fun m k => delete k m) l.*1 (adjRibInStale_ t)) t.
Proof.
  revert t. induction l as [|x l IH]; intros t; cbn [fold_left fmap list_fmap]; [by destruct t|].
  rewrite IH. done.
Qed.

Lemma delete_all (l : list PrefixPathId) (m : Entries) x :
  fold_left (fun m k => delete k m) l m !! x = if decide (x ∈ l) then None else m !! x.
Proof.
  revert m. induction l as [|y l IH]; intros m; cbn [fold_left]; [by rewrite decide_False by set_solver|].
  rewrite IH. destruct (decide (x = y)) as [->|Hxy].
  - rewrite lookup_delete_eq. repeat case_decide; set_solver.
  - rewrite lookup_delete_ne by done. repeat case_decide; set_solver.
Qed.

Lemma entry_walk_elem m x : x ∈ entry_walk m <-> m !! x.1 = Some x.2.
Proof. rewrite entry_walk_perm. destruct x. apply elem_of_map_to_list. Qed.
Lemma entry_walk_nodup m : NoDup (entry_walk m).*1.
Proof. rewrite entry_walk_perm. apply NoDup_fst_map_to_list. Qed.

(** Stale routes go; no check fails. *)
Lemma collect_ok v a :
  mid v emptyBatch (trees a) (preInPrefixCount a) (postInPrefixCount a) ->
  let l := (entry_walk (adjRibInStale_ (trees a))).*1 in
  exists a', collectStaleRoutes config a = Some (head (batchMessages config (withdrawing l)), a') /\
    mid v (withdrawing l) (trees a') (preInPrefixCount a') (postInPrefixCount a') /\
    trees a' = setStaleTree ∅ (trees a) /\ ribInQ_ a' = ribInQ_ a /\ sameSession a a'.
Proof.
  intros HI. unfold collectStaleRoutes. set (l := entry_walk _). cbv zeta.
  assert (Hs : forall x, x ∈ l -> adjRibInStale_ (trees a) !! x.1 = Some x.2)
    by (intros x; apply entry_walk_elem).
  assert (Hc : forallb (fun x : PrefixPathId * RibInEntry => in_pathId x.2 =? x.1.2) l = true).
  { apply forallb_forall. intros x Hx%list_elem_of_In%Hs.
    apply known_stale_key in Hx as [_ Hx]; [|apply HI]. apply (mid_entries _ _ _ _ _ HI) in Hx. lia. }
  rewrite Hc. cbn [negb mbind option_bind].
  pose proof (dropStale_all _ [] l (trees a) a HI (entry_walk_nodup _) Hs) as HM.
  rewrite unstale_all in HM. assert (HE : fold_left (fun m k => delete k m) l.*1 (adjRibInStale_ (trees a)) = ∅).
  { apply map_eq. intros x. rewrite delete_all, lookup_empty. case_decide as Hx; [done|].
    destruct (adjRibInStale_ (trees a) !! x) as [e|] eqn:Ex; [|done]. exfalso. apply Hx.
    apply list_elem_of_fmap. exists (x, e). split; [done|]. by apply entry_walk_elem. }
  rewrite HE in HM. clear HE. destruct (dropStale_frame l a) as (HT & HQ & HS).
  set (a1 := fold_left dropStale l a) in *. set (a2 := set_trees (setStaleTree ∅ (trees a1)) a1).
  exists a2. split_and!.
  - rewrite batchMessages_withdrawing. by destruct l.
  - unfold a2. cbn. rewrite HT. exact HM.
  - unfold a2. cbn. by rewrite HT.
  - done.
  - eapply sameSession_trans; [exact HS|]. by apply sameSession_trees.
Qed.

Lemma cleanup_ok a :
  inv a ->
  exists a', cleanupStaleRoutes config a = Some a' /\ done_ a a' /\
    trees a' = setStaleTree ∅ (trees a).
Proof.
  intros HI. destruct (collect_ok _ a HI) as (a2 & HC & HM & HT & HQ & HS). unfold cleanupStaleRoutes. rewrite HC.
  set (l := (entry_walk _).*1) in *. cbn [mbind option_bind]. eexists. split; [done|].
  assert (HQ2 : queued (batchMessages config (withdrawing l)) a2
    (match head (batchMessages config (withdrawing l)) with Some m => pushRibIn m a2 | None => a2 end)).
  { rewrite batchMessages_withdrawing. destruct (nonempty l); [apply queued_push|apply queued_nil]. }
  split; [split|].
  - apply (inv_sent (withdrawing l) a2); [by eapply since_same; [..|apply HI]|by rewrite HQ|exact HQ2].
  - eapply sameSession_trans; [exact HS|apply HQ2].
  - by destruct HQ2 as (_ & -> & _).
Qed.
(** ** Both ends of a session *)

Lemma liveMap_lookup t pp e :
  liveMap t !! pp = Some e <->
  if recAddPath_ t then adjRibInPathTree_ t !! pp = Some e
  else pp.2 = kDefaultPathID /\ adjRibInLiteTree_ t !! pp.1 = Some e.
Proof.
  unfold liveMap. destruct (recAddPath_ t); [done|]. rewrite (lookup_kmap_Some liteKey). destruct pp as [p i].
  split; [by intros (? & [= -> ->] & ?)|]. intros [Hi ?]. simpl in Hi. subst i. by exists p.
Qed.

Lemma markLearnt_stale v b t pre post :
  mid v b t pre post -> adjRibInStale_ t = ∅ ->
  adjRibInStale_ (markLearntRoutesStale t) = liveMap t /\ liveMap (markLearntRoutesStale t) = ∅.
Proof.
  intros HM Hs. assert (HL : forall pp e, liveMap t !! pp = Some e -> learnt e = true /\ in_pathId e = pp.2).
  { intros pp e He. apply (mid_entries _ _ _ _ _ HM). unfold known. by rewrite (lookup_union_Some_l _ _ _ e). }
  pose proof (liveMap_lookup t) as HK. unfold markLearntRoutesStale. destruct (recAddPath_ t) eqn:Er; simpl.
  - split; [|done]. unfold liveMap in *. rewrite Er in *. apply map_filter_id. intros pp e He. by apply (HL pp).
  - split; [|by unfold liveMap; simpl; rewrite kmap_empty].
    assert (Hf : filter (fun x : CIDRNetwork * RibInEntry => learnt x.2 = true) (adjRibInLiteTree_ t) =
      adjRibInLiteTree_ t).
    { apply map_filter_id. intros p e He. apply (HL (p, kDefaultPathID) e). by apply HK. }
    rewrite Hf. unfold liveMap. rewrite Er.
    rewrite (list_fmap_ext _ (fun x => (liteKey x.1, x.2))); [done|].
    intros j [p e] Hj. apply list_elem_of_lookup_2, elem_of_map_to_list in Hj. simpl.
    destruct (HL (p, kDefaultPathID) e) as [_ ->]; [by apply HK|done].
Qed.

Lemma markLearnt_ok v b t pre post :
  mid v b t pre post -> adjRibInStale_ t = ∅ -> mid v b (markLearntRoutesStale t) pre post /\
    known (markLearntRoutesStale t) = known t.
Proof.
  intros HM Hs. destruct (markLearnt_stale _ _ _ _ _ HM Hs) as [H1 H2].
  assert (HK : known (markLearntRoutesStale t) = known t).
  { unfold known. rewrite H1, H2, Hs. by rewrite (left_id_L ∅ (∪)), (right_id_L ∅ (∪)). }
  split; [|done]. apply (mid_same_known _ _ t); [done|done| |].
  - rewrite H2. apply map_disjoint_empty_l.
  - pose proof (mid_tree _ _ _ _ _ HM) as HT. unfold markLearntRoutesStale.
    by destruct (recAddPath_ t).
Qed.

(** The invariant with the state of the session. *)
Record ok (up : bool) (a : AdjRibIn) : Prop := {
  ok_inv : inv a;
  ok_up : up = true -> remoteGrRestartTimer_ a = false;
  ok_down : up = false -> liveMap (trees a) = ∅ /\ stalePathTimer_ a = false;
  ok_wait : adjRibInStale_ (trees a) <> ∅ ->
            (if up then stalePathTimer_ a else remoteGrRestartTimer_ a) = true
}.

Lemma live_empty v b t pre post :
  mid v b t pre post -> liveMap t = ∅ -> adjRibInPathTree_ t = ∅ /\ adjRibInLiteTree_ t = ∅.
Proof.
  intros HM Hl. pose proof (mid_tree _ _ _ _ _ HM) as HT. unfold liveMap in Hl.
  destruct (recAddPath_ t); [done|]. split; [done|]. by apply (kmap_empty_iff liteKey) in Hl.
Qed.

Lemma mid_resession v b t pre post addPath :
  mid v b t pre post -> liveMap t = ∅ ->
  let t' := mkInTrees addPath (adjRibInPathTree_ t) (adjRibInLiteTree_ t) (adjRibInStale_ t)
              (staleEntryCount_ t) in
  mid v b t' pre post /\ known t' = known t.
Proof.
  intros HM Hl t'. destruct (live_empty _ _ _ _ _ HM Hl) as [H1 H2].
  assert (Hl' : liveMap t' = ∅).
  { unfold liveMap. simpl. destruct addPath; [done|]. by rewrite H2, kmap_empty. }
  assert (HK : known t' = known t) by (unfold known; by rewrite Hl, Hl').
  split; [|done]. apply (mid_same_known _ _ t); [done|done| |].
  - rewrite Hl'. apply map_disjoint_empty_l.
  - simpl. by destruct addPath.
Qed.

Lemma established_ok restart addPath a :
  ok false a -> ok true (sessionEstablished config restart addPath a) /\
    known (trees (sessionEstablished config restart addPath a)) = known (trees a).
Proof.
  intros [H1 H2 H3 H4]. destruct (H3 eq_refl) as [H5 H6].
  destruct (mid_resession _ _ _ _ _ addPath H1 H5) as [HM HK]. split; [|exact HK].
  split; [by apply (inv_moved a)|done|done|]. simpl. intros Hs. by rewrite H4.
Qed.

Lemma terminated_ok gr a :
  ok true a ->
  exists a', sessionTerminated config gr a = Some a' /\ ok false a' /\
    known (trees a') ⊆ known (trees a).
Proof.
  intros [H1 H2 H3 H4]. specialize (H2 eq_refl).
  assert (HC : exists a1, (if stalePathTimer_ a
       then a ← cleanupStaleRoutes config a;
            Some (set_restart (pendingIngressEoRAfis_ a) false (remoteGrRestartTimer_ a)
                    (remoteGrRestartTime_ a) a)
       else Some a) = Some a1 /\ inv a1 /\ adjRibInStale_ (trees a1) = ∅ /\
       stalePathTimer_ a1 = false /\ remoteGrRestartTimer_ a1 = false /\
       known (trees a1) ⊆ known (trees a)).
  { destruct (stalePathTimer_ a) eqn:Es.
    - destruct (cleanup_ok a H1) as (a1 & -> & [D1 (D2 & D3 & D4 & D5 & D6)] & HT). simpl.
      eexists. split; [done|].
      split_and!; [by apply (inv_same a1)|by simpl; rewrite HT|done|simpl; congruence|].
      simpl. rewrite HT. unfold known. simpl. rewrite (right_id_L ∅ (∪)). apply map_union_subseteq_l.
    - exists a. split_and!; [done|done| |done|done|done].
      destruct (decide (adjRibInStale_ (trees a) = ∅)) as [|Hn]; [done|]. by specialize (H4 Hn). }
  destruct HC as (a1 & HC & HI & Hs & Ht1 & Ht2 & Hsub). unfold sessionTerminated. rewrite HC.
  cbn [mbind option_bind]. rewrite Hogr.
  destruct (markLearnt_ok _ _ _ _ _ HI Hs) as [HM HK]. set (a2 := set_trees _ a1).
  destruct (markLearnt_stale _ _ _ _ _ HI Hs) as [_ HL2].
  assert (HI2 : inv a2) by (by apply (inv_moved a1)). assert (HK2 : known (trees a2) = known (trees a1)) by exact HK.
  assert (HL3 : liveMap (trees a2) = ∅) by exact HL2.
  destruct (_ || _).
  - destruct (cleanup_ok a2 HI2) as (a3 & -> & [D1 (D2 & D3 & D4 & D5 & D6)] & HT).
    exists a3. split; [done|]. split.
    + split; [exact D1|done| |by rewrite HT].
      intros _. rewrite HT, liveMap_stale, D4. by split.
    + rewrite HT, <- Hsub, <- HK2. unfold known. simpl. rewrite (right_id_L ∅ (∪)).
      apply map_union_subseteq_l.
  - unfold a2 at 1. simpl. rewrite Ht2. eexists. split; [done|]. split.
    + split; [by apply (inv_same a2)|done|by intros _|done].
    + simpl. change (known (trees a2) ⊆ known (trees a)). by rewrite HK2.
Qed.

(** ** End-of-RIB and timers *)

(** After the cleanup: the live routes are there, and no others. *)
Definition cleaned (a a' : AdjRibIn) : Prop :=
  adjRibInStale_ (trees a') = ∅ /\ liveMap (trees a') = liveMap (trees a).

Lemma cleaned_known a a' : cleaned a a' -> known (trees a') = liveMap (trees a).
Proof. intros [H1 H2]. unfold known. by rewrite H1, H2, (right_id_L ∅ (∪)). Qed.
Lemma known_live t : liveMap t ⊆ known t.
Proof. apply map_union_subseteq_l. Qed.

Lemma cleanup_cleaned a :
  inv a -> exists a', cleanupStaleRoutes config a = Some a' /\ inv a' /\ sameSession a a' /\ cleaned a a'.
Proof.
  intros HI. destruct (cleanup_ok a HI) as (a' & H1 & [H2 H3] & H4). exists a'.
  split_and!; [done|done|done|]. unfold cleaned. by rewrite H4.
Qed.

Lemma eor_ok afi a :
  ok true a ->
  exists a', processPeerEoR config afi a = Some a' /\ ok true a' /\ known (trees a') ⊆ known (trees a) /\
    pendingIngressEoRAfis_ a' = pendingIngressEoRAfis_ a ∖ {[afi]} /\
    liveMap (trees a') = liveMap (trees a) /\
    (afi ∈ pendingIngressEoRAfis_ a -> pendingIngressEoRAfis_ a' = ∅ -> cleaned a a').
Proof.
  intros [H1 H2 H3 H4]. unfold processPeerEoR. destruct (_ && _) eqn:E.
  - set (a1 := set_restart _ _ _ _ a). assert (HI : inv a1) by (by apply (inv_same a)).
    destruct (cleanup_cleaned a1 HI) as (a2 & -> & HI2 & (S1 & S2 & S3 & S4 & S5) & HC).
    cbn [mbind option_bind]. eexists. split; [done|]. split; [split|].
    + by apply (inv_same a2).
    + intros _. simpl. rewrite S4. by apply H2.
    + done.
    + simpl. by rewrite (proj1 HC).
    + simpl. rewrite (cleaned_known _ _ HC), S2, (proj2 HC). split_and!; [apply known_live|done..].
  - eexists. split; [done|]. split; [split; [by apply (inv_same a)|done..]|]. simpl. split_and!; [done..|]. intros Ha Hp.
    by rewrite !bool_decide_eq_true_2 in E.
Qed.

(** The peer is removed: whatever timer runs, no stale route is left. *)
Lemma grState_ok up a :
  ok up a -> exists a', cleanupGrState config false a = Some a' /\ ok up a' /\
    known (trees a') ⊆ known (trees a) /\ adjRibInStale_ (trees a') = ∅.
Proof.
  intros HO. unfold cleanupGrState. destruct up.
  - rewrite (ok_up _ _ HO eq_refl). cbn [mbind option_bind]. destruct (stalePathTimer_ a) eqn:Es.
    + destruct (cleanup_cleaned a (ok_inv _ _ HO)) as (a1 & -> & HI & (S1 & S2 & S3 & S4 & S5 & S6) & HC).
      cbn [mbind option_bind]. eexists. split; [done|]. simpl. rewrite (cleaned_known _ _ HC), (proj1 HC).
      split_and!; [|apply known_live|done]. split; simpl; [by apply (inv_same a1)| |done|].
      * intros _. rewrite S4. by apply (ok_up _ _ HO).
      * by rewrite (proj1 HC).
    + exists a. split_and!; [done..|]. destruct (decide (adjRibInStale_ (trees a) = ∅)) as [|Hn]; [done|].
      pose proof (ok_wait _ _ HO Hn). simpl in *. congruence.
  - destruct (remoteGrRestartTimer_ a) eqn:Er.
    + destruct (cleanup_cleaned a (ok_inv _ _ HO)) as (a1 & -> & HI & (S1 & S2 & S3 & S4 & S5 & S6) & HC).
      cbn [mbind option_bind]. destruct (ok_down _ _ HO eq_refl) as [HL Hp].
      assert (Hs : stalePathTimer_ a1 = false) by congruence. cbn [stalePathTimer_ set_restart]. rewrite Hs.
      eexists. split; [done|]. simpl. rewrite (cleaned_known _ _ HC), (proj1 HC).
      split_and!; [|apply known_live|done]. split; simpl; [by apply (inv_same a1)|done| |].
      * intros _. by rewrite (proj2 HC).
      * by rewrite (proj1 HC).
    + cbn [mbind option_bind]. rewrite (proj2 (ok_down _ _ HO eq_refl)). exists a. split_and!; [done..|].
      destruct (decide (adjRibInStale_ (trees a) = ∅)) as [|Hn]; [done|].
      pose proof (ok_wait _ _ HO Hn). simpl in *. congruence.
Qed.

(** ** Re-evaluation *)

Section Policy.
Variable manager : PolicyManager.
Variable stale : PolicyCacheMaskedKey -> bool.

Definition placed (evaluateStale : bool) (t : InTrees) : Entries :=
  if evaluateStale then adjRibInStale_ t else liveMap t.

Lemma liveMap_usable t pp e : liveMap t !! pp = Some e -> usable t pp.
Proof. rewrite liveMap_lookup. intros Hl Hr. rewrite Hr in Hl. apply Hl. Qed.

Lemma placed_known es t pp e :
  liveMap t ##ₘ adjRibInStale_ t -> placed es t !! pp = Some e -> known t !! pp = Some e.
Proof.
  destruct es; simpl; intros Hd He; [by apply known_stale_key|].
  unfold known. by rewrite (lookup_union_Some_l _ _ _ e).
Qed.

(** A changed entry stays where it is. *)
Lemma putEntry_ok es t pp e e' :
  liveMap t ##ₘ adjRibInStale_ t -> placed es t !! pp = Some e ->
  (if recAddPath_ t then adjRibInLiteTree_ t = ∅ else adjRibInPathTree_ t = ∅) ->
  let t' := putEntry es pp e' t in
  known t' = <[pp := e']> (known t) /\ liveMap t' ##ₘ adjRibInStale_ t' /\
  (if recAddPath_ t' then adjRibInLiteTree_ t' = ∅ else adjRibInPathTree_ t' = ∅) /\
  recAddPath_ t' = recAddPath_ t /\ placed es t' = <[pp := e']> (placed es t) /\
  placed (negb es) t' = placed (negb es) t.
Proof.
  destruct es; simpl; intros Hd He Ho.
  - destruct (known_stale_key _ _ _ Hd He) as [Hl _]. unfold known. rewrite liveMap_stale. simpl.
    split_and!; [by rewrite insert_union_r| |done..].
    by apply map_disjoint_insert_r_2.
  - pose proof (liveMap_usable _ _ _ He) as Hu. pose proof (put_frame t pp e') as [H1 H2].
    split_and!; [by apply known_put| |by apply other_put|done|by apply liveMap_put|done].
    apply disj_put; [done|done|]. by eapply map_disjoint_Some_l.
Qed.

(** Nothing announced when the count is zero. *)
Definition counted (b : Batch) (n : Z) : Prop :=
  0 <= n < kPolicyReEvaluationBatchSize /\ (n = 0 -> forall pp x, ~ says b pp (Some x)).

Lemma counted_empty : counted emptyBatch 0.
Proof. split; [done|]. intros _ pp x. apply says_empty. Qed.

Lemma maybeAnnounce_count same pp post e b a e' b' a' n :
  maybeAnnouncePrefix config same pp post e b a = (e', b', a', n) ->
  0 <= n <= 1 /\ (n = 0 -> forall x y, says b' x (Some y) -> says b x (Some y)).
Proof.
  unfold maybeAnnouncePrefix.
  destruct post, (postIn e); repeat case_match; intros; simplify_eq; by (split; [lia|]).
Qed.

(** What the re-evaluation leaves: the received routes, in their places. *)
Record reevaluated (a a' : AdjRibIn) : Prop := {
  re_session : sameSession a a';
  re_live : dom (liveMap (trees a')) = dom (liveMap (trees a));
  re_stale : dom (adjRibInStale_ (trees a')) = dom (adjRibInStale_ (trees a));
  re_received : received (trees a') = received (trees a)
}.
Lemma reevaluated_refl a : reevaluated a a.
Proof. split; [by repeat split|done..]. Qed.
Lemma reevaluated_trans a1 a2 a3 : reevaluated a1 a2 -> reevaluated a2 a3 -> reevaluated a1 a3.
Proof. intros [] []. split; [by eapply sameSession_trans|congruence..]. Qed.

Lemma reevaluateOne_ok es v same pp pc d data b a e e' b' data' a1 n :
  mid v b (trees a) (preInPrefixCount a) (postInPrefixCount a) ->
  placed es (trees a) !! pp = Some e -> (forall o, ~ says b pp o) ->
  processPrefixWithPolicy config manager stale same pp pc d data e b a = Some (e', b', data', a1, n) ->
  let a' := set_trees (putEntry es pp e' (trees a1)) a1 in
  mid v b' (trees a') (preInPrefixCount a') (postInPrefixCount a') /\ reevaluated a a' /\
  ribInQ_ a' = ribInQ_ a /\ placed es (trees a') = <[pp := e']> (placed es (trees a)) /\
  (forall x o, x <> pp -> says b' x o -> says b x o) /\
  0 <= n <= 1 /\ (n = 0 -> forall x y, says b' x (Some y) -> says b x (Some y)).
Proof.
  intros HM He Hsay HP. apply processPrefix_spec in HP as (post & c & e1 & HA & Hpre & Hpost & Hid).
  pose proof (maybeAnnounce_spec _ _ _ _ _ _ _ _ _ _ _ HA) as (Ht & Hpr & Hq & Hss & _ & Hpi & _ & Hb).
  pose proof (maybeAnnounce_count _ _ _ _ _ _ _ _ _ _ HA) as Hn. cbn in Ht, Hpr, Hq. cbv zeta. cbn.
  rewrite Ht, Hpr.
  pose proof (placed_known es (trees a) pp e (mid_disj _ _ _ _ _ HM) He) as Hk.
  destruct (putEntry_ok es (trees a) pp e e' (mid_disj _ _ _ _ _ HM) He (mid_tree _ _ _ _ _ HM))
    as (K1 & K2 & K3 & K4 & K5 & K6).
  destruct (mid_entries _ _ _ _ _ HM _ _ Hk) as [Hle Hide].
  split_and!; [| |done|done| |apply Hn..].
  - change (preInPrefixCount a) with (recount (isV4 pp.1.1) (present pp (Some e)) true (preInPrefixCount a)).
    apply (mid_update config v b b' (trees a) _ _ (set_inCache c a) a1 pp (Some e) e1 e' same post n HM);
      try done.
    + unfold learnt in *. by rewrite Hpre.
    + by rewrite Hid.
  - assert (HD : dom (placed es (putEntry es pp e' (trees a))) = dom (placed es (trees a))).
    { rewrite K5. apply dom_insert_lookup_L. by eexists. }
    assert (HD' : dom (placed (negb es) (putEntry es pp e' (trees a))) = dom (placed (negb es) (trees a)))
      by (by rewrite K6).
    assert (HR : received (putEntry es pp e' (trees a)) = received (trees a)).
    { unfold received. apply map_eq. intros x. rewrite !lookup_omap, K1.
      destruct (decide (x = pp)) as [->|Hx]; [|by rewrite lookup_insert_ne].
      rewrite lookup_insert_eq, Hk. simpl. congruence. }
    assert (HS : sameSession a (set_trees (putEntry es pp e' (trees a)) a1)).
    { assert (HDs : dom (adjRibInStale_ (putEntry es pp e' (trees a))) = dom (adjRibInStale_ (trees a)))
        by (destruct es; [exact HD|exact HD']).
      destruct Hss as (_ & ? & ? & ? & ? & ? & _). split_and!; [done..|]. cbn [trees set_trees]. by rewrite HDs. }
    by destruct es; simpl in HD, HD'; split.
  - intros x o Hx. destruct Hb as [[-> _]| ->]; [done|]. rewrite says_tell. intros [?|[??]]; done.
Qed.

Lemma reevaluated_queued ms a a' : queued ms a a' -> reevaluated a a'.
Proof. intros (_ & HT & _ & _ & HS). split; rewrite ?HT; done. Qed.

Lemma reEvaluateEntries_ok es same dataOf l b n a r :
  since a -> mid (seen (ribInQ_ a)) b (trees a) (preInPrefixCount a) (postInPrefixCount a) ->
  (forall pp e, (pp, e) ∈ l -> placed es (trees a) !! pp = Some e) -> NoDup l.*1 ->
  (forall pp o, pp ∈ l.*1 -> ~ says b pp o) -> counted b n ->
  reEvaluateEntries config manager stale same dataOf es l b n a = Some r ->
  since r.2 /\ mid (seen (ribInQ_ r.2)) r.1.1 (trees r.2) (preInPrefixCount r.2) (postInPrefixCount r.2) /\
  reevaluated a r.2 /\ counted r.1.1 r.1.2.
Proof.
  revert b n a. induction l as [|[pp e] l IH]; intros b n a HB HM Hl Hn Hs Hc; cbn [reEvaluateEntries].
  { intros [= <-]. split_and!; [done|done|apply reevaluated_refl|done..]. }
  apply NoDup_cons in Hn as [Hpp Hn]. simpl in Hpp.
  assert (Hkeep : forall b', (forall x o, x <> pp -> says b' x o -> says b x o) ->
    forall x o, x ∈ l.*1 -> ~ says b' x o).
  { intros b' Hb' x o Hx Ho. assert (x <> pp) by (by intros ->). apply (Hs x o); [simpl; set_solver|auto]. }
  destruct (preIn e) as [attrs|] eqn:Ep; [|apply IH; [done|done|intros; apply Hl; set_solver|done| |done]].
  2:{ apply Hkeep. auto. }
  intros (pc & _ & ([[[[e' b'] data'] a1] m] & HP & H)%bind_Some)%bind_Some.
  apply (reevaluateOne_ok es (seen (ribInQ_ a))) in HP;
    [|done|apply Hl; set_solver|intros o; apply Hs; simpl; set_solver].
  cbv zeta in HP. set (a2 := set_trees _ a1) in *. destruct HP as (M & R & Q & P & Sy & Hm & Hz).
  rewrite <- Q in M. assert (HB2 : since a2) by (by eapply since_same; [exact Q|apply R|]). assert (Hl2 : forall x y, (x, y) ∈ l -> placed es (trees a2) !! x = Some y).
  { intros x y Hx. rewrite P, lookup_insert_ne; [apply Hl; set_solver|]. intros <-. apply Hpp.
    apply list_elem_of_fmap. by exists (pp, y). }
  destruct Hc as [Hc1 Hc2]. unfold kPolicyReEvaluationBatchSize in Hc1.
  assert (Hu : uint 32 (n + m) = n + m) by (unfold uint; apply Z.mod_small; lia).
  assert (Hw : 0 <= blen (withdrawnPfxPathIds b')) by lia.
  destruct (_ <=? _) eqn:Ef.
  - pose proof (sendUpdates_queued config b' a2) as HQ. pose proof HQ as (_ & HT & _).
    destruct (inv_sent b' a2 _ HB2 M HQ) as [HB3 HM3].
    apply IH in H; [|done|done|by rewrite HT|done|intros ?? _; apply says_empty|apply counted_empty].
    destruct H as (H0 & H1 & H2 & H3). split_and!; [done|done| |done..].
    eapply reevaluated_trans; [exact R|]. eapply reevaluated_trans; [by eapply reevaluated_queued|done].
  - apply IH in H; [|done|done|done|done|by apply Hkeep|].
    + destruct H as (H0 & H1 & H2 & H3). split_and!; [done|done|by eapply reevaluated_trans|done..].
    + rewrite Hu in *. unfold counted, kPolicyReEvaluationBatchSize in *. split; [lia|].
      intros H0 x y Hy. apply (Hc2 ltac:(lia) x y), Hz; [lia|done].
Qed.

Lemma liveEntries_ok v b t pre post :
  mid v b t pre post ->
  NoDup (liveEntries t).*1 /\ (forall pp e, (pp, e) ∈ liveEntries t -> liveMap t !! pp = Some e).
Proof.
  intros HM. assert (HL : forall pp e, liveMap t !! pp = Some e -> in_pathId e = pp.2).
  { intros pp e He. apply (mid_entries _ _ _ _ _ HM). unfold known. by rewrite (lookup_union_Some_l _ _ _ e). }
  pose proof (liveMap_lookup t) as HK. unfold liveEntries. destruct (recAddPath_ t) eqn:Er.
  - split; [apply entry_walk_nodup|]. intros pp e He. apply HK. by apply entry_walk_elem in He.
  - assert (HW : forall p e, (p, e) ∈ lite_walk (adjRibInLiteTree_ t) ->
      in_pathId e = kDefaultPathID /\ adjRibInLiteTree_ t !! p = Some e).
    { intros p e. rewrite lite_walk_perm. intros He%elem_of_map_to_list.
      split; [|done]. apply (HL (p, kDefaultPathID)). by apply HK. }
    assert (HE : (fun x : CIDRNetwork * RibInEntry => ((x.1, in_pathId x.2), x.2)) <$> lite_walk (adjRibInLiteTree_ t)
      = (fun x => (liteKey x.1, x.2)) <$> lite_walk (adjRibInLiteTree_ t)).
    { apply list_fmap_ext. intros j [p e] Hj. apply list_elem_of_lookup_2, HW in Hj as [Hj _]. simpl.
      by rewrite Hj. }
    rewrite HE. split.
    + replace ((fun x : CIDRNetwork * RibInEntry => (liteKey x.1, x.2)) <$> lite_walk (adjRibInLiteTree_ t)).*1
        with (liteKey <$> (lite_walk (adjRibInLiteTree_ t)).*1) by (by rewrite <- !list_fmap_compose).
      apply (NoDup_fmap_2 liteKey).
      rewrite lite_walk_perm. apply NoDup_fst_map_to_list.
    + intros pp e He. apply list_elem_of_fmap in He as ([p e'] & [= -> ->] & He).
      apply HK. split; [done|]. by apply HW.
Qed.

Lemma reEvaluate_ok es same dataOf a a' :
  inv a -> reEvaluateAdjRibEntriesWithUpdatedPolicy config manager stale same dataOf es a = Some a' ->
  inv a' /\ reevaluated a a'.
Proof.
  intros HI ([[b n] a1] & HE & [= <-])%bind_Some. apply reEvaluateEntries_ok in HE; cbn [fst snd] in *.
  - destruct HE as (HB & HM & HR & [Hc1 Hc2]). destruct (0 <? _) eqn:E.
    + pose proof (sendUpdates_queued config b a1) as HQ. split; [by apply (inv_sent b a1)|].
      eapply reevaluated_trans; [done|by eapply reevaluated_queued].
    + split; [|done]. assert (Hw : withdrawnPfxPathIds b = [] /\ n = 0).
      { apply Z.ltb_ge in E. destruct (withdrawnPfxPathIds b); cbn [length] in E; [|exfalso; lia].
        split; [done|]. simpl in E. lia. }
      destruct Hw as [Hw ->]. split; [done|]. destruct HM as [M1 M2 M3 M4 M5 M6 M7]. split; try done.
      * intros pp o Ho. by destruct (says_empty pp o).
      * intros pp _. apply M7. intros [x|]; [by apply Hc2|]. simpl. rewrite Hw. set_solver.
  - apply HI.
  - apply HI.
  - intros pp e. destruct es; [apply entry_walk_elem|by eapply liveEntries_ok; apply HI].
  - destruct es; [apply entry_walk_nodup|by eapply liveEntries_ok; apply HI].
  - intros. apply says_empty.
  - apply counted_empty.
Qed.
End Policy.

(** ** Safe mode *)

Lemma golden_fold l a purge :
  let r := fold_left (applyGoldenPrefixPolicy config) l (a, purge) in
  sameRoutes a r.1 /\ sameSession a r.1 /\
  (forall p i, r.2 !! p = Some i -> purge !! p = Some i \/ exists e, ((p, e.1), e.2) ∈ l /\ i = in_pathId e.2).
Proof.
  revert a purge. induction l as [|x l IH]; intros a purge; cbn [fold_left].
  { split_and!; [by repeat split..|]. auto. }
  destruct (applyGoldenPrefixPolicy config (a, purge) x) as [a1 purge1] eqn:E1.
  assert (H1 : sameRoutes a a1 /\ sameSession a a1 /\
    (forall p i, purge1 !! p = Some i -> purge !! p = Some i \/ p = x.1.1 /\ i = in_pathId x.2)).
  { unfold applyGoldenPrefixPolicy in E1.
    destruct (preIn x.2), (goldenPrefixPolicy_ (globals a)); simplify_eq; try by (split_and!; [by repeat split..|]; auto).
    repeat case_match; simplify_eq; split_and!; try (by repeat split); auto.
    intros p i. destruct (decide (p = x.1.1)) as [->|Hp].
    - rewrite lookup_insert_eq. intros [= <-]. auto.
    - rewrite lookup_insert_ne by done. auto. }
  destruct H1 as (S1 & S2 & P1). destruct (IH a1 purge1) as ((T1 & T2 & T3 & T4 & T6) & T5 & P2).
  destruct S1 as (U1 & U2 & U3 & U4 & U5). cbv zeta. split_and!.
  - unfold sameRoutes. split_and!; congruence.
  - by eapply sameSession_trans.
  - intros p i Hi. destruct (P2 p i Hi) as [Hp|(e & He & ->)]; [|right; exists e; set_solver].
    destruct (P1 p i Hp) as [?|[-> ->]]; [by left|]. right. exists (x.1.2, x.2).
    destruct x as [[??]?]. set_solver.
Qed.

Lemma purge_fold v pps l a :
  mid v (withdrawing l) (trees a) (preInPrefixCount a) (postInPrefixCount a) ->
  Forall (fun pp => usable (trees a) pp /\ adjRibInStale_ (trees a) !! pp = None) pps ->
  let r := fold_left (fun '(l, a) pp => processWithdrawnPrefixRibInEntry pp l a) pps (l, a) in
  dropped v pps r.1 a r.2.
Proof.
  revert l a. induction pps as [|pp pps IH]; intros l a HM Hu; cbn [fold_left].
  { split; [done|by repeat split|done|]. intros x. by rewrite decide_False by set_solver. }
  apply Forall_cons in Hu as [[Hu Hs] Hus].
  destruct (processWithdrawnPrefixRibInEntry pp l a) as [l1 a1] eqn:E1.
  pose proof (withdrawOne_ok v l a pp _ HM Hu Hs E1) as HD. cbn [fst snd] in HD.
  apply (dropped_trans v [pp] pps l1 _ a a1); [done|]. apply IH; [apply HD|].
  eapply Forall_impl; [exact Hus|]. intros x [Hx Hsx]. destruct HD as [_ (R & _ & _ & _ & _ & _ & HD) _ _].
  split; [by eapply usable_trees|]. apply not_elem_of_dom. apply not_elem_of_dom in Hsx. set_solver.
Qed.

Lemma safeMode_ok a :
  inv a ->
  exists gone, done_ a (processAdjRibReEvaluationForSafeMode config a) /\
    forgets gone (trees a) (trees (processAdjRibReEvaluationForSafeMode config a)) /\
    Forall (fun pp => is_Some (liveMap (trees a) !! pp)) gone.
Proof.
  intros HI. unfold processAdjRibReEvaluationForSafeMode.
  destruct (goldenPrefixPolicy_ (globals a)) as [policy|].
  2:{ exists []. split_and!; [split; [done|by repeat split]| |done]. intros x. by rewrite decide_False by set_solver. }
  pose proof (golden_fold (liveEntries (trees a)) a ∅) as HG.
  destruct (fold_left (applyGoldenPrefixPolicy config) _ _) as [a1 purge]. cbn [fst snd] in HG.
  destruct HG as (HR & HS & HP). pose proof (inv_same _ _ HR HI) as HI1. destruct HR as (HT & _ & _ & HQ & _).
  assert (HL : Forall (fun pp => is_Some (liveMap (trees a) !! pp)) (purge_walk purge)).
  { apply Forall_forall. intros [p i]. rewrite purge_walk_perm. intros Hi%elem_of_map_to_list.
    destruct (HP p i Hi) as [?|(e & He & ->)]; [by rewrite lookup_empty in *|].
    apply (liveEntries_ok _ _ _ _ _ HI) in He. rewrite (proj2 (mid_entries _ _ _ _ _ HI (p, e.1) e.2
      (placed_known false _ _ _ (mid_disj _ _ _ _ _ HI) He))). by eexists. }
  pose proof (purge_fold _ (purge_walk purge) [] a1 (inv_mid _ HI1)) as HF.
  destruct (fold_left _ (purge_walk purge) ([], a1)) as [l a2]. cbn [fst snd] in HF.
  assert (HD : dropped (seen (ribInQ_ a1)) (purge_walk purge) l a1 a2).
  { apply HF. eapply Forall_impl; [exact HL|]. intros pp [e He]. rewrite HT.
    split; [by eapply liveMap_usable|]. eapply map_disjoint_Some_l; [apply HI|done]. }
  exists (purge_walk purge). set (a3 := incrementPrefixesDroppedByLimit _ a2).
  assert (HD3 : dropped (seen (ribInQ_ a1)) (purge_walk purge) l a1 a3) by (by destruct HD; split).
  pose proof (sendWithdrawal_queued config l a3) as (_ & HT3 & _ & _ & HS3). split_and!; [split|..].
  - by eapply inv_sent_withdrawals; [apply HI1|].
  - eapply sameSession_trans; [exact HS|]. eapply sameSession_trans; [apply HD3|exact HS3].
  - rewrite HT3. destruct HD3 as [_ _ _ HD3]. by rewrite HT in HD3.
  - done.
Qed.
Lemma purge_live pps l a :
  Forall (usable (trees a)) pps ->
  liveMap (trees (fold_left (fun '(l, a) pp => processWithdrawnPrefixRibInEntry pp l a) pps (l, a)).2)
    ⊆ liveMap (trees a).
Proof.
  revert l a. induction pps as [|pp pps IH]; intros l a Hu; cbn [fold_left]; [done|].
  apply Forall_cons in Hu as [Hu Hus].
  destruct (processWithdrawnPrefixRibInEntry pp l a) as [l1 a1] eqn:E1.
  assert (H1 : liveMap (trees a1) ⊆ liveMap (trees a) /\ recAddPath_ (trees a1) = recAddPath_ (trees a)).
  { unfold processWithdrawnPrefixRibInEntry in E1. destruct (getRibEntry pp (trees a)) as [e|]; [|by simplify_eq].
    assert (trees a1 = deleteRibEntry pp (trees a)) as -> by (destruct (postIn e); by simplify_eq).
    rewrite liveMap_delete by done. split; [apply delete_subseteq|apply delete_frame]. }
  destruct H1 as [H1 H2]. etrans; [|exact H1]. apply IH.
  eapply Forall_impl; [exact Hus|]. intros x. by apply usable_trees.
Qed.

Lemma safeMode_live a :
  inv a -> liveMap (trees (processAdjRibReEvaluationForSafeMode config a)) ⊆ liveMap (trees a).
Proof.
  intros HI. unfold processAdjRibReEvaluationForSafeMode.
  destruct (goldenPrefixPolicy_ (globals a)) as [policy|]; [|done].
  pose proof (golden_fold (liveEntries (trees a)) a ∅) as HG.
  destruct (fold_left (applyGoldenPrefixPolicy config) _ _) as [a1 purge]. cbn [fst snd] in HG.
  destruct HG as ((HT & _) & _ & HP).
  pose proof (purge_live (purge_walk purge) [] a1) as HL.
  destruct (fold_left _ (purge_walk purge) ([], a1)) as [l a2]. cbn [fst snd] in HL.
  pose proof (sendWithdrawal_queued config l (incrementPrefixesDroppedByLimit (Z.of_nat (length l)) a2))
    as (_ & -> & _). cbn. rewrite HT in HL. apply HL. apply Forall_forall.
  intros [p i]. rewrite purge_walk_perm. intros Hi%elem_of_map_to_list.
  destruct (HP p i Hi) as [?|(e & He & ->)]; [by rewrite lookup_empty in *|].
  apply (liveEntries_ok _ _ _ _ _ HI) in He. pose proof (liveMap_usable _ _ _ He) as Hu.
  by rewrite (proj2 (mid_entries _ _ _ _ _ HI (p, e.1) e.2
    (placed_known false _ _ _ (mid_disj _ _ _ _ _ HI) He))).
Qed.

(** An operation within a session state. *)
Lemma ok_done up a a' :
  ok up a -> done_ a a' -> (up = false -> liveMap (trees a') = ∅) -> ok up a'.
Proof.
  clear Hogr config. intros [H1 H2 H3 H4] [D1 (D2 & D3 & D4 & D5 & D6 & _ & D7)] HL. split; [done|..].
  - rewrite D5. done.
  - intros Hu. rewrite D4. split; [auto|]. by apply H3.
  - intros Hs. rewrite D4, D5. apply H4. intros HE. apply Hs. rewrite HE, dom_empty_L in D7.
    apply dom_empty_iff_L. set_solver.
Qed.

Section Totality.
Variable manager : PolicyManager.
Variable stale : PolicyCacheMaskedKey -> bool.

(** Neither the policy nor the receive settings fail. *)
Hypothesis policy_returns : forall prefix attrs d data e cache,
  getPostInRouteFilterAndPolicyAttributes config manager stale prefix attrs d data e cache <> None.
Hypothesis settings_return : forall attrs,
  updateAttributesIn (peeringParams_ (in_session config)) (sessionType (in_session config)) attrs <> None.

Lemma announcePrefixes_total v same pps attrs pc g d data b a :
  mid v b (trees a) (preInPrefixCount a) (postInPrefixCount a) -> Forall (usable (trees a)) pps ->
  saidNew attrs b (trees a) ->
  is_Some (announcePrefixes config manager stale same pps attrs pc g d data b a).
Proof.
  revert data b a. induction pps as [|pp pps IH]; intros data b a HM Hu HS; simpl; [by eexists|].
  apply Forall_cons in Hu as [Hu1 Hu2].
  destruct (announceOne config manager stale (same pp) pp attrs pc g d data b a) as [[[data1 b1] a1]|] eqn:E.
  - apply announceOne_ok with (v := v) in E; [|done..]. destruct E as [A1 A2 A3 A4 A5 A6]. simpl in *.
    apply IH; [done| |done]. eapply Forall_impl; [exact Hu2|]. intros x. apply usable_trees, A3.
  - exfalso. revert E. unfold announceOne, promote. rewrite Hogr.
    destruct (promote_ok _ _ _ _ _ pp HM Hu1) as (t & -> & _). cbn [mbind option_bind].
    destruct (entryForAnnouncement _ _ _ _ _) as [[e|] a1]; [|done]. case_bool_decide; [done|].
    unfold processPrefixWithPolicy.
    destruct (getPostInRouteFilterAndPolicyAttributes _ _ _ _ _ _ _ _ _) as [[[[??]?]?]|] eqn:E2;
      [|by apply policy_returns in E2].
    cbn [mbind option_bind]. by destruct (maybeAnnouncePrefix _ _ _ _ _ _ _) as [[[??]?]?].
Qed.

Lemma announced_total same d prefixes attrs a :
  inv a -> is_Some (specAnnounced (recAddPath_ (trees a)) prefixes attrs (received (trees a))) ->
  is_Some (processAnnounced config manager stale same d prefixes attrs a).
Proof.
  intros HI [v' (verdict & HV & (pps & Hp & _)%bind_Some)%bind_Some]. unfold processAnnounced.
  rewrite HV. cbn [mbind option_bind].
  assert (HW : is_Some (processPeerWithdrawn config prefixes a)).
  { destruct (processPeerWithdrawn_ok prefixes pps a HI Hp) as (a' & -> & _). by eexists. }
  destruct verdict; try exact HW. unfold processPeerAnnounced.
  destruct (updateAttributesIn _ _ attrs) as [pc|] eqn:E; [|by apply settings_return in E].
  rewrite Hp. cbn [mbind option_bind].
  destruct (announcePrefixes_total (seen (ribInQ_ a)) same pps attrs pc
    (isSafeModeOn (globals a) && bool_decide (is_Some (goldenPrefixPolicy_ (globals a))) &&
       isGoldenVip (getCommunities attrs)) d (createPolicyActionData config attrs) emptyBatch a)
    as [[b a1] ->]; [apply HI|by eapply prefixPathIds_usable|intros ?? []%says_empty|by eexists].
Qed.

(** What the specification asks for is done. *)
Lemma update_total same d4 d6 u a v :
  inv a -> ~ limited config ->
  specUpdate (recAddPath_ (trees a)) u (received (trees a)) = Some v ->
  is_Some (processPeerUpdate config manager stale same d4 d6 u a).
Proof.
  intros HI Hl (v1 & V1 & (v2 & V2 & (v3 & V3 & V4)%bind_Some)%bind_Some)%bind_Some.
  assert (HW : forall prefixes a v', inv a ->
    specWithdrawn (recAddPath_ (trees a)) prefixes (received (trees a)) = Some v' ->
    exists a', (if nonempty prefixes then processPeerWithdrawn config prefixes a else Some a) = Some a' /\
      inv a' /\ recAddPath_ (trees a') = recAddPath_ (trees a) /\ received (trees a') = v').
  { clear -Hogr Hl IOL. intros prefixes a v' HI HV. pose proof HV as (pps & Hp & _)%bind_Some.
    assert (HE : exists a', (if nonempty prefixes then processPeerWithdrawn config prefixes a else Some a) = Some a').
    { destruct (nonempty prefixes); [|by eexists].
      destruct (processPeerWithdrawn_ok prefixes pps a HI Hp) as (a' & -> & _). by eexists. }
    destruct HE as [a' HE]. exists a'. split; [done|].
    pose proof (someWithdrawn_performed prefixes a a' HI HE) as HP.
    split_and!; [by eapply performed_inv|by eapply performed_keys|].
    pose proof (pf_spec _ _ _ HP Hl). congruence. }
  unfold processPeerUpdate.
  destruct (HW _ _ _ HI V1) as (a1 & -> & I1 & K1 & <-). rewrite <- K1 in V2, V3, V4. cbn [mbind option_bind].
  destruct (HW _ _ _ I1 V2) as (a2 & -> & I2 & K2 & <-). rewrite <- K2 in V3, V4. cbn [mbind option_bind].
  assert (HE : exists a3, (if nonempty (u_v4Announced2 u)
       then attrs ← bgpAttributesToBgpPathC (u_attrs u);
            processAnnounced config manager stale same d4 (u_v4Announced2 u) attrs a2
       else Some a2) = Some a3 /\ inv a3 /\ recAddPath_ (trees a3) = recAddPath_ (trees a2) /\
       received (trees a3) = v3).
  { destruct (nonempty (u_v4Announced2 u)); [|injection V3 as <-; by exists a2].
    apply bind_Some in V3 as (attrs & -> & V3). cbn [mbind option_bind].
    destruct (announced_total same d4 (u_v4Announced2 u) attrs a2 I2 ltac:(by eexists)) as [a3 HA].
    exists a3. split; [done|]. apply announced_performed in HA; [|done].
    split_and!; [by eapply performed_inv|by eapply performed_keys|].
    pose proof (pf_spec _ _ _ HA Hl). congruence. }
  destruct HE as (a3 & -> & I3 & K3 & <-). cbn [mbind option_bind]. rewrite <- K3 in V4.
  destruct (nonempty (nlri_prefixes (u_mpAnnounced u))); [|by eexists].
  apply bind_Some in V4 as (attrs & -> & V4). cbn [mbind option_bind].
  destruct (toIPAddress _); [|done..]. eapply announced_total; [done|by eexists].
Qed.
End Totality.
End Config.
End Operations.

(** ** Timers *)

Section Timers.
Variable config : InConfig.
Hypothesis Hogr : enableOptimizedGR_ config = false.

(** A timer expired: the stale routes are gone from the Adj-RIB-In, and the withdrawal of
    them is a task; the view is that of a RIB that has read it. *)
Record expired (base : Base) (up : bool) (a a' : AdjRibIn) (l : list PrefixPathId) : Prop := {
  ex_ok : ok (mkBase (ribInQ_ a') (fold_left ribReceives (batchMessages config (mkBatch l ∅)) (seen base (ribInQ_ a)))
                (pendingRibInPushes_ a')) up a';
  ex_cleaned : cleaned a a';
  ex_queue : ribInQ_ a' = ribInQ_ a;
  ex_tasks : pendingRibInPushes_ a' = pendingRibInPushes_ a ++ batchMessages config (mkBatch l ∅);
  ex_stale : forall pp, pp ∈ l <-> is_Some (adjRibInStale_ (trees a) !! pp)
}.

Lemma schedule_spec l a :
  let a' := scheduleWithdrawal (head (batchMessages config (mkBatch l ∅))) a in
  pendingRibInPushes_ a' = pendingRibInPushes_ a ++ batchMessages config (mkBatch l ∅) /\
  ribInQ_ a' = ribInQ_ a /\ trees a' = trees a /\ preInPrefixCount a' = preInPrefixCount a /\
  postInPrefixCount a' = postInPrefixCount a /\ stalePathTimer_ a' = stalePathTimer_ a /\
  remoteGrRestartTimer_ a' = remoteGrRestartTimer_ a.
Proof. rewrite batchMessages_withdrawing. destruct (nonempty l); simpl; by rewrite ?app_nil_r. Qed.

Lemma expired_ok base up a a1 a' :
  let l := (entry_walk (adjRibInStale_ (trees a))).*1 in
  ok base up a ->
  mid (seen base (ribInQ_ a)) (mkBatch l ∅) (trees a1) (preInPrefixCount a1) (postInPrefixCount a1) ->
  trees a1 = setStaleTree ∅ (trees a) -> ribInQ_ a1 = ribInQ_ a -> pendingRibInPushes_ a1 = pendingRibInPushes_ a ->
  (up = true -> remoteGrRestartTimer_ a1 = false) -> (up = false -> stalePathTimer_ a1 = false) ->
  a' = scheduleWithdrawal (head (batchMessages config (mkBatch l ∅))) a1 -> expired base up a a' l.
Proof.
  intros l [H1 H2 H3 H4] HM HT HQ HP Hu Hd ->. destruct (schedule_spec l a1) as (P1 & Q1 & T1 & C1 & C2 & R1 & R2).
  cbv zeta in *. set (a' := scheduleWithdrawal _ a1) in *.
  assert (HC : cleaned a a') by (unfold cleaned; by rewrite T1, HT).
  split; [|done|congruence|congruence|].
  - split; [split; [by split|]| | |].
    + unfold seen. cbn [b_queue b_view]. rewrite drop_all. cbn [fold_left]. rewrite T1, C1, C2.
      set (a2 := mkAdjRibIn (trees a1) (preInPrefixCount a1) (postInPrefixCount a1) (in_policyCache_ a1) (globals a1)
        (pendingIngressEoRAfis_ a1) (stalePathTimer_ a1) (remoteGrRestartTimer_ a1) (remoteGrRestartTime_ a1)
        (ribInQ_ a1 ++ batchMessages config (mkBatch l ∅)) (pendingRibInPushes_ a1) (fromAdjRibQ_ a1)).
      apply (mid_sent config _ (mkBatch l ∅) a1 a2); [done|]. by repeat split.
    + intros E. rewrite R2. by apply Hu.
    + intros E. rewrite R1, (proj2 HC). split; [by apply H3|by apply Hd].
    + by rewrite (proj1 HC).
  - intros pp. unfold l. rewrite list_elem_of_fmap. split.
    + intros ([q e] & -> & Hin). apply entry_walk_elem in Hin. by eexists.
    + intros [e He]. exists (pp, e). split; [done|]. by apply entry_walk_elem.
Qed.

Lemma staleTimer_ok base a :
  ok base true a -> exists a' l, stalePathTimerExpired config a = Some a' /\ expired base true a a' l.
Proof.
  intros HO. pose proof HO as [H1 H2 H3 H4]. unfold stalePathTimerExpired.
  destruct (collect_ok config Hogr _ a (inv_mid _ _ H1)) as (a1 & -> & HM & HT & HQ & (S1 & S2 & S3 & S4 & S5 & S6 & S7)).
  cbn [mbind option_bind]. eexists _, _. split; [done|].
  refine (expired_ok base true a (set_restart _ _ _ _ a1) _ HO HM HT HQ S6 _ _ eq_refl); [|done].
  simpl. intros _. rewrite S4. by apply H2.
Qed.

Lemma restartTimer_ok base a :
  ok base false a -> exists a' l, remoteGrRestartTimerExpired config a = Some a' /\ expired base false a a' l.
Proof.
  intros HO. pose proof HO as [H1 H2 H3 H4]. unfold remoteGrRestartTimerExpired. set (a0 := set_restart _ _ _ _ a).
  destruct (collect_ok config Hogr (seen base (ribInQ_ a)) a0 (inv_mid _ _ H1))
    as (a1 & -> & HM & HT & HQ & (S1 & S2 & S3 & S4 & S5 & S6 & S7)).
  cbn [mbind option_bind]. eexists _, _. split; [done|]. refine (expired_ok base false a a1 _ HO HM HT HQ S6 _ _ eq_refl); [done|].
  intros _. rewrite S3. by apply H3.
Qed.
End Timers.
End In.
