(* ===== verification/AdjRibInSpec.v ===== *)
(** * The Adj-RIB-In and the RIB

    What holds of an Adj-RIB-In in every state it can reach without the optimized graceful
    restart, over any sequence of sessions, UPDATE and End-of-RIB messages, timers, the
    tasks the timers schedule, policy changes and steps of other peers: the RIB has exactly
    the accepted routes but those a late task withdrew, counters and the route limit hold,
    UPDATE messages do what RFC 4271 asks for, and stale routes go. *)

From stdpp Require Import gmap fin_maps relations strings.
From S2P Require Import Prelude BgpException Folly BgpStructs PathAttrs RouteFilter RouteInfo RibEntry Ucmp.
From S2P Require Import DeDuplicator PathFields PolicyEncoding PolicyAction PolicyMatch.
From S2P Require Import PolicyEngine PolicyTerm PolicyMask PolicyCache AdjRibCommon.
From S2P Require Import PackingList AdjRibOut PathConversion AdjRibIn AdjRibInInv AdjRibInOps.

Section Spec.
Context `{F : FollyOps} `{L : PolicyLibs} `{PL : PrefixLibs} `{RC : RibContext}.
Context {ECM : EvictingCacheMap PolicyCacheMaskedKey PolicyCacheValue}.
Context `{IOL : InOrderLaws}.

Definition newAdjRibIn (cache : option AdjRibPolicyCache) (g : InGlobals) : AdjRibIn :=
  mkAdjRibIn (mkInTrees false ∅ ∅ ∅ 0) (mkPrefixCount 0 0 0) (mkPrefixCount 0 0 0) cache g ∅ false false 0
    [] [] [].

(** The limit of received routes stays the same; the rest of the configuration, the
    policies and the negotiated capabilities may differ from step to step. *)
Variable limit : option RouteLimit.
Definition configured (config : InConfig) : Prop :=
  enableOptimizedGR_ config = false /\ preRouteLimit config = limit.

(** The steps but those of the scheduled tasks; the flag tells whether the session is up. *)
Inductive inStep : bool * AdjRibIn -> bool * AdjRibIn -> Prop :=
| in_step_update config manager stale same d4 d6 u a a' :
    configured config -> processPeerUpdate config manager stale same d4 d6 u a = Some a' ->
    inStep (true, a) (true, a')
| in_step_eor config afi a a' :
    configured config -> processPeerEoR config afi a = Some a' -> inStep (true, a) (true, a')
| in_step_refresh config afi safi subtype a :
    inStep (true, a) (true, processPeerRouteRefresh config afi safi subtype a)
| in_step_established config restart addPath a :
    inStep (false, a) (true, sessionEstablished config restart addPath a)
| in_step_terminated config gr a a' :
    configured config -> sessionTerminated config gr a = Some a' -> inStep (true, a) (false, a')
| in_step_staleTimer config a a' :
    configured config -> stalePathTimer_ a = true -> stalePathTimerExpired config a = Some a' ->
    inStep (true, a) (true, a')
| in_step_restartTimer config a a' :
    configured config -> remoteGrRestartTimer_ a = true -> remoteGrRestartTimerExpired config a = Some a' ->
    inStep (false, a) (false, a')
| in_step_removed config up a a' :
    configured config -> cleanupGrState config false a = Some a' -> inStep (up, a) (up, a')
| in_step_policy config manager stale same dataOf up a a' :
    configured config -> processAdjRibReEvaluationForPolicyChange config manager stale same dataOf a = Some a' ->
    inStep (up, a) (up, a')
| in_step_safeMode config up a :
    configured config -> inStep (up, a) (up, processAdjRibReEvaluationForSafeMode config a)
| in_step_others g up a : inStep (up, a) (up, set_globals g a).

(** The routes that messages name *)
Definition names (m : RibInMessage) : list PrefixPathId :=
  match m with RibInAnnouncement _ pps _ | RibInWithdrawal _ pps => pps end.
Definition named (ms : list RibInMessage) : gset PrefixPathId := list_to_set (concat (names <$> ms)).

(** The routes of a scheduled withdrawal that are accepted again when it is pushed *)
Definition overtaken (m : RibInMessage) (t : InTrees) : gset PrefixPathId :=
  filter (fun pp => is_Some (known t !! pp ≫= postIn)) (list_to_set (names m)).

(** Runs.  Beside the state: the routes that a late withdrawal of a timer took from the RIB
    and that no message named since. *)
Inductive inRun : bool * gset PrefixPathId * AdjRibIn -> bool * gset PrefixPathId * AdjRibIn -> Prop :=
| in_run_step up up' late a a' :
    inStep (up, a) (up', a') ->
    inRun (up, late, a) (up', late ∖ named (drop (length (ribInQ_ a)) (ribInQ_ a')), a')
| in_run_push up late i m a a' :
    pendingRibInPushes_ a !! i = Some m -> runPendingRibInPush i a = Some a' ->
    inRun (up, late, a) (up, late ∖ named [m] ∪ overtaken m (trees a), a').

Abbreviation inReachable cache g up late a := (rtc inRun (false, ∅, newAdjRibIn cache g) (up, late, a)).

(** ** The invariant is kept *)

Definition withinRoutes (a : AdjRibIn) : Prop :=
  forall l, limit = Some l -> 0 < max_routes l < 2 ^ 32 - 1 ->
    Z.of_nat (size (known (trees a))) <= max_routes l.

Lemma withinRoutes_limit config a : configured config -> withinRoutes a <-> withinLimit config a.
Proof. intros [_ HL]. unfold withinRoutes, withinLimit. by rewrite HL. Qed.
Lemma withinRoutes_size a a' :
  (size (known (trees a')) <= size (known (trees a)))%nat -> withinRoutes a -> withinRoutes a'.
Proof. intros Hs HW l HL Hm. specialize (HW l HL Hm). lia. Qed.
Lemma withinRoutes_subset a a' :
  known (trees a') ⊆ known (trees a) -> withinRoutes a -> withinRoutes a'.
Proof. intros. apply (withinRoutes_size a); [by apply map_subseteq_size|done]. Qed.

Lemma received_size base a :
  inv base a -> dom (received (trees a)) = dom (known (trees a)).
Proof.
  intros HI. apply set_eq. intros x. rewrite !elem_of_dom. unfold received. rewrite lookup_omap.
  destruct (known (trees a) !! x) as [e|] eqn:E; [|by split; intros [? ?]].
  destruct (mid_entries _ _ _ _ _ HI x e E) as [Hl _]. unfold learnt in Hl. simpl.
  destruct (preIn e); [|done]. by split; intros _; eexists.
Qed.

(** The state taken as the start of the next step, with the RIB as it should be *)
Definition posts (t : InTrees) : RibView := omap postIn (known t).
Definition baseOf (a : AdjRibIn) : Base := mkBase (ribInQ_ a) (posts (trees a)) (pendingRibInPushes_ a).

Lemma posts_lookup t pp : posts t !! pp = postOf t pp.
Proof. unfold posts, postOf. by rewrite lookup_omap. Qed.

Lemma seen_base a : seen (baseOf a) (ribInQ_ a) = posts (trees a).
Proof. unfold seen. simpl. by rewrite drop_all. Qed.

Lemma ok_rebase base up a : ok base up a -> ok (baseOf a) up a.
Proof.
  intros [[_ [M1 M2 M3 M4 M5 M6 M7]] H2 H3 H4]. split; [|done..]. split; [by split|]. rewrite seen_base.
  split; try done. intros pp _. apply posts_lookup.
Qed.

Lemma ok_frame base up a a' :
  ok base up a -> sameRoutes a a' -> stalePathTimer_ a' = stalePathTimer_ a ->
  remoteGrRestartTimer_ a' = remoteGrRestartTimer_ a -> ok base up a'.
Proof.
  intros [H1 H2 H3 H4] HR HS HG. pose proof (inv_same _ _ _ HR H1). destruct HR as (HT & _).
  split; rewrite ?HT, ?HS, ?HG; done.
Qed.

Lemma reevaluated_ok base up a a' : ok base up a -> inv base a' -> reevaluated a a' -> ok base up a'.
Proof.
  intros HO HI [R1 R2 R3 R4]. apply (ok_done base up a); [done|by split|].
  intros Hu. apply dom_empty_iff_L. rewrite R2. apply dom_empty_iff_L. by apply HO.
Qed.

Lemma withinRoutes_cleaned a a' : cleaned a a' -> withinRoutes a -> withinRoutes a'.
Proof. intros HC. apply withinRoutes_subset. rewrite (cleaned_known _ _ HC). apply known_live. Qed.

(** A step: the messages it pushes are right about what they name, or a timer expired. *)
Definition stepped (s s' : bool * AdjRibIn) : Prop :=
  ok (baseOf s.2) s'.1 s'.2 \/
  exists config l, configured config /\ s'.1 = s.1 /\ expired config (baseOf s.2) s.1 s.2 s'.2 l.

Lemma policyChange_ok base config manager stale same dataOf up a a' :
  configured config -> ok base up a ->
  processAdjRibReEvaluationForPolicyChange config manager stale same dataOf a = Some a' ->
  ok base up a' /\ (withinRoutes a -> withinRoutes a').
Proof.
  intros Hc HO (a1 & E1 & E2)%bind_Some.
  destruct (reEvaluate_ok base config (proj1 Hc) _ _ _ _ _ _ _ (ok_inv _ _ _ HO) E1) as [I1 R1].
  destruct (reEvaluate_ok base config (proj1 Hc) _ _ _ _ _ _ _ I1 E2) as [I2 R2].
  pose proof (reevaluated_trans _ _ _ R1 R2) as R. split; [by eapply reevaluated_ok|].
  apply withinRoutes_size.
  rewrite <- !size_dom, <- (received_size base a) by apply HO. rewrite <- (received_size base a') by done.
  by rewrite (re_received _ _ R).
Qed.

Lemma safeModeStep_ok base config up a :
  configured config -> ok base up a ->
  ok base up (processAdjRibReEvaluationForSafeMode config a) /\
  (withinRoutes a -> withinRoutes (processAdjRibReEvaluationForSafeMode config a)).
Proof.
  intros Hc HO. destruct (safeMode_ok base config (proj1 Hc) a (ok_inv _ _ _ HO)) as (gone & D & Hf & _). split.
  - apply (ok_done base up a); [done|done|]. intros Hu.
    pose proof (safeMode_live base config (proj1 Hc) a (ok_inv _ _ _ HO)) as HL.
    rewrite (proj1 (ok_down _ _ _ HO Hu)) in HL. by apply (anti_symm (⊆)); [done|apply map_empty_subseteq].
  - apply withinRoutes_size. by eapply forgets_size.
Qed.

Lemma inStep_ok s s' :
  ok (baseOf s.2) s.1 s.2 -> inStep s s' -> stepped s s' /\ (withinRoutes s.2 -> withinRoutes s'.2).
Proof.
  intros HO HS. unfold stepped. destruct HS; simpl in *.
  - destruct (update_performed _ config (proj1 H) _ _ _ _ _ _ _ _ (ok_inv _ _ _ HO) H0) as [P1 P2 _].
    split; [left; by apply (ok_done _ true a)|]. intros HW. apply (withinRoutes_limit config); [done|]. apply P2.
    by apply (withinRoutes_limit config).
  - destruct (eor_ok _ config (proj1 H) afi a HO) as (a1 & H1 & H2 & H3 & _). assert (a1 = a') as -> by congruence.
    split; [by left|]. by apply withinRoutes_subset.
  - split; [left|unfold processPeerRouteRefresh, triggerOutboundRedump; by repeat case_match].
    apply (ok_frame _ true a); unfold processPeerRouteRefresh, triggerOutboundRedump; by repeat case_match.
  - destruct (established_ok _ config restart addPath a HO) as [H1 H2]. split; [by left|].
    apply withinRoutes_size. by rewrite H2.
  - destruct (terminated_ok _ config (proj1 H) gr a HO) as (a1 & H1 & H2 & H3).
    assert (a1 = a') as -> by congruence. split; [by left|]. by apply withinRoutes_subset.
  - destruct (staleTimer_ok config (proj1 H) _ a HO) as (a1 & l & H2 & H3). assert (a1 = a') as -> by congruence.
    split; [right; by exists config, l|]. apply withinRoutes_cleaned, H3.
  - destruct (restartTimer_ok config (proj1 H) _ a HO) as (a1 & l & H2 & H3). assert (a1 = a') as -> by congruence.
    split; [right; by exists config, l|]. apply withinRoutes_cleaned, H3.
  - destruct (grState_ok _ config (proj1 H) up a HO) as (a1 & H1 & H2 & H3 & _). assert (a1 = a') as -> by congruence.
    split; [by left|]. by apply withinRoutes_subset.
  - destruct (policyChange_ok _ _ _ _ _ _ _ _ _ H HO H0). split; [by left|done].
  - destruct (safeModeStep_ok _ _ _ _ H HO). split; [by left|done].
  - split; [left; by apply (ok_frame _ up a)|done].
Qed.

(** ** What the RIB makes of the messages *)

Lemma named_nil : named [] = ∅.
Proof. done. Qed.
Lemma elem_named ms pp : pp ∈ named ms <-> exists m, m ∈ ms /\ pp ∈ names m.
Proof.
  unfold named. rewrite elem_of_list_to_set, list_elem_of_In, in_concat. split.
  - intros (l & Hl & Hp). apply in_map_iff in Hl as (m & <- & Hm). exists m. split; by apply list_elem_of_In.
  - intros (m & Hm & Hp). exists (names m). split; [|by apply list_elem_of_In]. by apply in_map, list_elem_of_In.
Qed.

Lemma receives_names v m pp : pp ∉ names m -> ribReceives v m !! pp = v !! pp.
Proof.
  intros Hn. destruct (receives_lookup v m pp) as [(o & Hm & _)|[_ ->]]; [|done].
  destruct m; simpl in *; tauto.
Qed.
Lemma receives_named v v' m pp : pp ∈ names m -> ribReceives v m !! pp = ribReceives v' m !! pp.
Proof.
  intros Hn. destruct m as [? pps x|? pps]; simpl in *; rewrite ?announced_lookup, ?withdrawn_lookup; by rewrite !decide_True.
Qed.

(** Two views read the same messages. *)
Lemma views_agree ms v v' pp :
  (pp ∉ named ms -> v !! pp = v' !! pp) ->
  fold_left ribReceives ms v !! pp = fold_left ribReceives ms v' !! pp.
Proof.
  revert v v'. induction ms as [|m ms IH]; intros v v' Hn; cbn [fold_left]; [apply Hn; by rewrite named_nil|].
  apply IH. intros Hms. destruct (decide (pp ∈ names m)) as [Hm|Hm]; [by apply receives_named|].
  rewrite !receives_names by done. apply Hn. rewrite elem_named. intros (m' & [->|Hm']%elem_of_cons & Hp); [done|].
  apply Hms, elem_named. by exists m'.
Qed.
Lemma view_unnamed ms v pp : pp ∉ named ms -> fold_left ribReceives ms v !! pp = v !! pp.
Proof.
  revert v. induction ms as [|m ms IH]; intros v Hn; cbn [fold_left]; [done|].
  rewrite IH, receives_names; [done|..]; rewrite ?elem_named in *; [|naive_solver set_solver].
  intros Hp. apply Hn. exists m. set_solver.
Qed.

(** Timers only withdraw. *)
Definition isWithdrawal (m : RibInMessage) : Prop := exists peer pps, m = RibInWithdrawal peer pps.

(** The RIB is right on the routes that are not [late] and that no task names. *)
Record good (s : bool * gset PrefixPathId * AdjRibIn) : Prop := {
  gd_ok : ok (baseOf s.2) s.1.1 s.2;
  gd_limit : withinRoutes s.2;
  gd_right : forall pp, pp ∉ s.1.2 -> pp ∉ named (pendingRibInPushes_ s.2) ->
    ribView (ribInQ_ s.2) !! pp = postOf (trees s.2) pp;
  gd_late : forall pp, pp ∈ s.1.2 -> ribView (ribInQ_ s.2) !! pp = None;
  gd_tasks : Forall isWithdrawal (pendingRibInPushes_ s.2)
}.

Lemma ribView_app q ms : ribView (q ++ ms) = fold_left ribReceives ms (ribView q).
Proof. unfold ribView. apply fold_left_app. Qed.

(** A step that is no timer *)
Lemma stepped_good up up' late a a' :
  good (up, late, a) -> ok (baseOf a) up' a' -> withinRoutes a' ->
  good (up', late ∖ named (drop (length (ribInQ_ a)) (ribInQ_ a')), a').
Proof.
  intros [G1 G2 G3 G4 G5] HO HW. destruct (inv_since _ _ (ok_inv _ _ _ HO)) as [[ms HQ] HT]. cbn [b_queue b_tasks baseOf] in HQ, HT.
  rewrite HQ, drop_app_length.
  assert (HS : forall pp, fold_left ribReceives ms (posts (trees a)) !! pp = postOf (trees a') pp).
  { intros pp. pose proof (mid_unsaid _ _ _ _ _ (inv_mid _ _ (ok_inv _ _ _ HO)) pp (says_empty pp)) as HV.
    rewrite <- HV. unfold seen. cbn [b_queue b_view baseOf]. by rewrite HQ, drop_app_length. }
  split; cbn [fst snd] in *; [by eapply ok_rebase|done|..].
  - intros pp Hl Hp. rewrite HT in Hp. rewrite HQ, ribView_app, <- HS. apply views_agree. intros Hn.
    rewrite posts_lookup. apply G3; set_solver.
  - intros pp [Hl Hn]%elem_of_difference. rewrite HQ, ribView_app, view_unnamed by done. by apply G4.
  - by rewrite HT.
Qed.

Lemma batchMessages_named config l pp : pp ∈ named (batchMessages config (mkBatch l ∅)) <-> pp ∈ l.
Proof.
  rewrite batchMessages_withdrawing, elem_named. destruct l as [|x l]; simpl.
  - split; [intros (m & ?%elem_of_nil & _); done|by intros ?%elem_of_nil].
  - split; [by intros (m & ->%list_elem_of_singleton & Hp)|]. intros Hp. eexists. by rewrite list_elem_of_singleton.
Qed.

(** A timer *)
Lemma expired_good config l up late a a' :
  good (up, late, a) -> expired config (baseOf a) up a a' l -> withinRoutes a' ->
  good (up, late ∖ named (drop (length (ribInQ_ a)) (ribInQ_ a')), a').
Proof.
  intros [G1 G2 G3 G4 G5] [E1 E2 E3 E4 E5] HW. cbn [fst snd] in *. rewrite E3, drop_all, named_nil, difference_empty_L.
  split; cbn [fst snd]; [by eapply ok_rebase|done|..]; rewrite ?E3; [|done|]; cycle 1.
  { rewrite E4, Forall_app, batchMessages_withdrawing. split; [done|]. destruct (nonempty l); [|done].
    repeat constructor. by eexists _, _. }
  intros pp Hl Hp.
  assert (Hq : pp ∉ named (pendingRibInPushes_ a) /\ pp ∉ l).
  { rewrite E4 in Hp. split; intros Hn; apply Hp, elem_named.
    - apply elem_named in Hn as (m & Hm & Hn). exists m. split; [set_solver|done].
    - apply (batchMessages_named config), elem_named in Hn as (m & Hm & Hn). exists m. split; [set_solver|done]. }
  destruct Hq as [Hq Hn]. rewrite (G3 pp Hl Hq). unfold postOf. rewrite (cleaned_known _ _ E2). unfold known.
  rewrite lookup_union. rewrite E5, <- eq_None_not_Some in Hn. rewrite Hn. by destruct (liveMap _ !! pp).
Qed.

(** A task *)
Lemma push_good i m up late a a' :
  good (up, late, a) -> pendingRibInPushes_ a !! i = Some m -> runPendingRibInPush i a = Some a' ->
  good (up, late ∖ named [m] ∪ overtaken m (trees a), a').
Proof.
  intros [G1 G2 G3 G4 G5] Hi Ha. cbn [fst snd] in *.
  destruct (proj1 (Forall_lookup _ _) G5 i m Hi) as (peer & pps & ->). unfold runPendingRibInPush in Ha. rewrite Hi in Ha.
  injection Ha as <-. set (m := RibInWithdrawal peer pps) in *. cbn [fst snd] in *.
  assert (Hnm : forall pp, pp ∈ named [m] <-> pp ∈ names m).
  { intros pp. rewrite elem_named. split; [by intros (x & ->%list_elem_of_singleton & Hp)|].
    intros Hp. exists m. by rewrite list_elem_of_singleton. }
  assert (Hov : forall pp, pp ∈ overtaken m (trees a) <-> is_Some (postOf (trees a) pp) /\ pp ∈ names m).
  { intros pp. unfold overtaken. rewrite elem_of_filter, elem_of_list_to_set. done. }
  split; cbn [fst snd]; [|done|..]; cbn [ribInQ_ pushRibIn set_pendingPushes trees pendingRibInPushes_].
  - destruct G1 as [[_ HM] H2 H3 H4]. split; [split; [by split|]|done..]. rewrite seen_base in *. exact HM.
  - intros pp Hl Hp. rewrite ribView_push. destruct (decide (pp ∈ names m)) as [Hn|Hn].
    + simpl. rewrite withdrawn_lookup, decide_True by done. symmetry. rewrite eq_None_not_Some. intros Hs.
      apply Hl, elem_of_union. right. by apply Hov.
    + rewrite receives_names by done. apply G3; [intros Hx; apply Hl, elem_of_union; left; by rewrite elem_of_difference, Hnm|].
      intros (x & Hx & Hpx)%elem_named. apply Hp, elem_named. exists x. split; [|done].
      apply list_elem_of_lookup in Hx as [j Hj]. destruct (decide (i = j)) as [->|Hij]; [congruence|].
      apply list_elem_of_lookup. destruct (decide (j < i)%nat).
      * exists j. by rewrite list_lookup_delete_lt.
      * exists (j - 1)%nat. rewrite list_lookup_delete_ge by lia. by replace (S (j - 1)) with j by lia.
  - intros pp Hl. rewrite ribView_push. destruct (decide (pp ∈ names m)) as [Hn|Hn].
    + simpl. by rewrite withdrawn_lookup, decide_True.
    + rewrite receives_names by done. apply G4. rewrite elem_of_union, elem_of_difference, Hov in Hl. tauto.
  - rewrite Forall_forall in G5 |- *. intros x Hx%list_elem_of_delete_inv. by apply G5.
Qed.

Lemma new_good cache g : good (false, ∅, newAdjRibIn cache g).
Proof.
  assert (HK : known (trees (newAdjRibIn cache g)) = ∅).
  { unfold known, liveMap. simpl. by rewrite kmap_empty, (left_id_L ∅ (∪)). }
  assert (HL : liveMap (trees (newAdjRibIn cache g)) = ∅) by (unfold liveMap; simpl; apply kmap_empty).
  assert (HV : seen (baseOf (newAdjRibIn cache g)) (ribInQ_ (newAdjRibIn cache g)) = ∅).
  { rewrite seen_base. unfold posts. by rewrite HK, omap_empty. }
  split; cbn [fst snd]; [split|..].
  - split; [by split|]. rewrite HV. split.
    + rewrite HL. apply map_disjoint_empty_l.
    + done.
    + intros pp e. by rewrite HK, lookup_empty.
    + unfold counts, countBy. rewrite HK, map_filter_empty, map_size_empty. by rewrite !map_filter_empty.
    + unfold counts, countBy. rewrite HK, map_filter_empty, map_size_empty. by rewrite !map_filter_empty.
    + intros pp o Ho. by destruct (says_empty pp o).
    + intros pp _. unfold postOf. by rewrite HK, lookup_empty.
  - done.
  - by rewrite HL.
  - done.
  - intros l HL' Hm. rewrite HK, map_size_empty. lia.
  - intros pp _ _. unfold postOf. by rewrite HK, lookup_empty.
  - by intros pp ?%elem_of_empty.
  - done.
Qed.

Lemma inRun_good s s' : good s -> inRun s s' -> good s'.
Proof.
  intros HG HR. destruct HR as [up up' late a a' HS|up late i m a a' Hi Ha].
  - destruct (inStep_ok (up, a) (up', a') (gd_ok _ HG) HS) as [HT HW]. cbn [fst snd] in *.
    specialize (HW (gd_limit _ HG)). destruct HT as [HO|(config & l & Hc & Hup & HE)]; cbn [fst snd] in *; [|subst up'].
    + by apply (stepped_good up).
    + by eapply expired_good.
  - by eapply push_good.
Qed.

Lemma in_reachable_good cache g up late a : inReachable cache g up late a -> good (up, late, a).
Proof.
  intros Hr. apply (rtc_ind_r (R := inRun) good (false, ∅, newAdjRibIn cache g)); [apply new_good| |done].
  intros s s' _ HS HG. by eapply inRun_good.
Qed.

(** ** The RIB *)


(** C12. In every state a run without the optimized graceful restart reaches, the counters
    of received and accepted routes are the numbers of entries and of accepted entries, at
    32 bits and by address family, and a limit on the received routes of the peer is never
    exceeded. *)
Theorem received_routes_counted (cache : option AdjRibPolicyCache) (g : InGlobals) (up : bool)
    (late : gset PrefixPathId) (a : AdjRibIn) (Hr : inReachable cache g up late a) :
  counts (fun _ => true) (preInPrefixCount a) (known (trees a)) /\
  counts accepted (postInPrefixCount a) (known (trees a)) /\
  (forall l, limit = Some l -> 0 < max_routes l < 2 ^ 32 - 1 ->
     Z.of_nat (size (known (trees a))) <= max_routes l /\
     count_all (preInPrefixCount a) = Z.of_nat (size (known (trees a)))).
Proof.
  destruct (in_reachable_good _ _ _ _ _ Hr) as [HO HW _ _ _]. simpl in *.
  pose proof (mid_pre _ _ _ _ _ (inv_mid _ _ (ok_inv _ _ _ HO))) as HP.
  split_and!; [done|apply (inv_mid _ _ (ok_inv _ _ _ HO))|].
  intros l HL Hm. specialize (HW l HL Hm). split; [done|]. rewrite (proj1 HP), countBy_all.
  unfold uint. apply Z.mod_small. lia.
Qed.

(** C10. Without limits, and with a policy and receive settings that do not fail, every
    UPDATE that can be read is processed to its end, and leaves exactly the received
    attributes RFC 4271 asks for: withdrawn routes are gone, announced ones have the
    attributes of the message, or are gone if the attributes do not pass validation,
    and all others are as they were. *)
Theorem update_applied (cache : option AdjRibPolicyCache) (g : InGlobals) (late : gset PrefixPathId)
    (a : AdjRibIn) (Hr : inReachable cache g true late a) (config : InConfig) (Hc : configured config)
    (Hl : ~ limited config) (manager : PolicyManager) (stale : PolicyCacheMaskedKey -> bool)
    (Hp : forall prefix attrs d data e cache,
       getPostInRouteFilterAndPolicyAttributes config manager stale prefix attrs d data e cache <> None)
    (Hs : forall attrs, updateAttributesIn (peeringParams_ (in_session config))
            (sessionType (in_session config)) attrs <> None)
    (same : PrefixPathId -> bool) (d4 d6 : nat) (u : BgpUpdate2) (v : RibView)
    (Hu : specUpdate config (recAddPath_ (trees a)) u (received (trees a)) = Some v) :
  exists a', processPeerUpdate config manager stale same d4 d6 u a = Some a' /\ received (trees a') = v.
Proof.
  pose proof (gd_ok _ (in_reachable_good _ _ _ _ _ Hr)) as HO. cbn [fst snd] in HO.
  destruct (update_total _ config (proj1 Hc) manager stale Hp Hs same d4 d6 u a v (ok_inv _ _ _ HO) Hl Hu)
    as [a' Ha]. exists a'. split; [done|].
  pose proof (pf_spec _ _ _ _ _ (update_performed _ config (proj1 Hc) _ _ _ _ _ _ _ _ (ok_inv _ _ _ HO) Ha) Hl) as HV.
  congruence.
Qed.

(** The queue once the tasks are pushed that were scheduled since the state [a] *)
Definition queuedSince (a a' : AdjRibIn) : list RibInMessage :=
  ribInQ_ a' ++ drop (length (pendingRibInPushes_ a)) (pendingRibInPushes_ a').

(** The stale routes are gone from the Adj-RIB-In, and from the RIB when what was scheduled
    for it is pushed; routes that an earlier task still names or took too late apart. *)
Definition purged (late : gset PrefixPathId) (a a' : AdjRibIn) : Prop :=
  adjRibInStale_ (trees a') = ∅ /\ liveMap (trees a') = liveMap (trees a) /\
  forall pp, pp ∉ late -> pp ∉ named (pendingRibInPushes_ a) ->
    ribView (queuedSince a a') !! pp = liveMap (trees a) !! pp ≫= postIn.

Lemma expired_purged config l up late a a' :
  good (up, late, a) -> expired config (baseOf a) up a a' l -> purged late a a'.
Proof.
  intros [G1 G2 G3 G4 G5] [E1 E2 E3 E4 E5]. cbn [fst snd] in *. split; [apply E2|]. split; [apply E2|]. intros pp Hl Hp.
  unfold queuedSince. rewrite E3, E4, drop_app_length, ribView_app.
  pose proof (mid_unsaid _ _ _ _ _ (inv_mid _ _ (ok_inv _ _ _ E1)) pp (says_empty pp)) as HV.
  unfold seen at 1 in HV. cbn [b_queue b_view] in HV. rewrite drop_all in HV. cbn [fold_left] in HV.
  unfold postOf in HV. rewrite (cleaned_known _ _ E2) in HV. rewrite <- HV. apply views_agree. intros _.
  rewrite seen_base, posts_lookup. by apply G3.
Qed.

Lemma cleaned_purged up late a a' :
  good (up, late, a) -> ok (baseOf a) up a' -> cleaned a a' -> purged late a a'.
Proof.
  intros HG HO HC. pose proof (inv_since _ _ (ok_inv _ _ _ HO)) as [_ HT]. cbn [b_tasks baseOf] in HT.
  split; [apply HC|]. split; [apply HC|]. intros pp Hl Hp. unfold queuedSince. rewrite HT, drop_all, app_nil_r.
  assert (HW : forall x : AdjRibIn, known (trees x) = known (trees a') -> postOf (trees x) pp = liveMap (trees a) !! pp ≫= postIn).
  { intros x Hx. unfold postOf. by rewrite Hx, (cleaned_known _ _ HC). }
  rewrite <- (HW a' eq_refl). destruct HG as [G1 G2 G3 G4 G5]. cbn [fst snd] in *.
  destruct (inv_since _ _ (ok_inv _ _ _ HO)) as [[ms HQ] _]. cbn [b_queue baseOf] in HQ.
  pose proof (mid_unsaid _ _ _ _ _ (inv_mid _ _ (ok_inv _ _ _ HO)) pp (says_empty pp)) as HV.
  rewrite <- HV. unfold seen. cbn [b_queue b_view baseOf]. rewrite HQ, drop_app_length, ribView_app.
  apply views_agree. intros _. rewrite posts_lookup. by apply G3.
Qed.

End Spec.
