(* ===== verification/AdjRibInExamples.v ===== *)
(** * The Adj-RIB-In: samples

    A peer over two sessions with a graceful restart between them, the theorems of
    AdjRibInSpec.v applied to the states it goes through, and the cases where the code
    leaves routes behind. *)

From stdpp Require Import gmap fin_maps relations strings.
From S2P Require Import Prelude BgpException Folly BgpStructs PathAttrs RouteFilter RouteInfo RibEntry Ucmp.
From S2P Require Import DeDuplicator PathFields PolicyEncoding PolicyAction PolicyMatch.
From S2P Require Import PolicyEngine PolicyTerm PolicyMask PolicyCache PolicyExamples AdjRibCommon AdjRibLoop.
From S2P Require Import PackingList AdjRibOut PathConversion AdjRibIn AdjRibInInv AdjRibInOps AdjRibInSpec.

#[local] Existing Instance literal_libs.
#[local] Existing Instance exact_prefix_libs.
#[local] Existing Instance sample_context.
#[local] Existing Instance folly_model.
#[local] Instance in_cache : EvictingCacheMap PolicyCacheMaskedKey PolicyCacheValue :=
  list_cache sample_keyEqual.

#[local] Instance sorted_walks : InOrder := {|
  group_walk := map_to_list; entry_walk := map_to_list; lite_walk := map_to_list; purge_walk := map_to_list
|}.
#[local] Instance sorted_walks_laws : InOrderLaws.
Proof. by split. Qed.

(** ** A peer *)

(** Over EBGP, IPv4, without policy. *)
Definition in_session4 : AdjRibSession :=
  mkAdjRibSession _
    (mkPeeringConfig 65001 65001 65002 1 1 false false false None None None None None true
       (IPV4 [10; 0; 0; 2]) (IPV4 [10; 0; 0; 1]) IPUnset false false)
    65002 true false false false false false None None false true 0 None.
Definition in_config (optimized : bool) (pre post : option RouteLimit)
    (switch : option BgpSwitchLimitConfig) : InConfig :=
  mkInConfig in_session4 7 false None "" None None pre post switch optimized false false.
Definition in_globals (policy : option GoldenPrefixPolicy) : InGlobals :=
  mkInGlobals 0 0 0 0 (mkPrefixSet ∅ 0) false policy.

Definition in_path (asn : Z) (community : list BgpAttrCommunity) : BgpPathFields :=
  mkPathFields
    (mkAttributesC 0 [mkSegment [] [65002; asn] [] []] 0 false None false (0, IPUnset) community 0 [] [] 0)
    (IPV4 [10; 0; 0; 2]) None None.
Definition in_nlri (nets : list Z) : list RiggedIPPrefix :=
  (fun n => mkRigged (mkIPPrefix [n; 0; 0; 0] 8) [] None) <$> nets.
(** Networks withdrawn, networks announced and the AS they come from. *)
Definition in_update (withdrawn announced : list Z) (asn : Z) : BgpUpdate2 :=
  mkUpdate2 (getBgpAttributes (in_path asn [])) (mkNlri 0 0 [] []) (mkNlri 0 0 [] []) [] [] []
    (in_nlri announced) (in_nlri withdrawn).
Definition in_receive (config : InConfig) (u : BgpUpdate2) (a : AdjRibIn) : option AdjRibIn :=
  processPeerUpdate config sample_manager (fun _ => false) (fun _ => false) 0 1 u a.

(** Networks known, with the origin AS of what was received and of what was accepted. *)
Definition in_summary (a : AdjRibIn) : list (IPAddress * Z * list Z * list Z) :=
  let origins (o : option BgpPathFields) := default [] (from_option asSequence [] ∘ head ∘ getAsPath <$> o) in
  (fun '(pp, e) => (pp.1.1, pp.2, origins (preIn e), origins (postIn e))) <$> map_to_list (known (trees a)).

Definition two_routes : RouteLimit := mkRouteLimit 2 true 0.
Definition in_start : AdjRibIn :=
  sessionEstablished (in_config false None None None) (Some 120) false (newAdjRibIn None (in_globals None)).

(** ** The theorems at states of a run *)

Lemma some_default {A} (o : option A) (x : A) : isSome o = true -> o = Some (default x o).
Proof. by destruct o. Qed.

Abbreviation plain := (in_config false None None None).
Abbreviation capped := (in_config false (Some two_routes) None None).

(** Three networks are announced, of which the limit lets two in; the session ends with
    a graceful restart, comes back, and one network is announced again with other
    attributes. *)
Definition in_first (config : InConfig) : AdjRibIn :=
  default in_start (in_receive config (in_update [] [20; 30; 40] 65100) in_start).
Definition in_down (config : InConfig) : AdjRibIn :=
  default in_start (sessionTerminated config true (in_first config)).
Definition in_again (config : InConfig) : AdjRibIn :=
  sessionEstablished config (Some 120) false (in_down config).
Definition in_back (config : InConfig) : AdjRibIn :=
  default in_start (in_receive config (in_update [] [20] 65101) (in_again config)).

Lemma in_received limit (config : InConfig) (u : BgpUpdate2) (a : AdjRibIn) :
  configured limit config -> isSome (in_receive config u a) = true ->
  inStep limit (true, a) (true, default in_start (in_receive config u a)).
Proof.
  intros HC HS. apply (in_step_update _ config sample_manager (fun _ => false) (fun _ => false) 0 1 u);
    [done|]. by apply some_default.
Qed.

Abbreviation in_run limit up late a :=
  (rtc (inRun limit) (false, ∅, newAdjRibIn None (in_globals None)) (up, late, a)).

(** Steps while no withdrawal came late *)
Lemma in_step_run limit up up' a a' :
  in_run limit up ∅ a -> inStep limit (up, a) (up', a') -> in_run limit up' ∅ a'.
Proof.
  intros HR HS. eapply rtc_r; [exact HR|]. pose proof (in_run_step limit up up' ∅ a a' HS) as HN.
  replace (∅ ∖ _) with (∅ : gset PrefixPathId) in HN by set_solver. exact HN.
Qed.

Lemma in_first_run (config : InConfig) :
  isSome (in_receive config (in_update [] [20; 30; 40] 65100) in_start) = true ->
  configured (preRouteLimit config) config -> in_run (preRouteLimit config) true ∅ (in_first config).
Proof.
  intros HS HC. eapply in_step_run; [eapply in_step_run; [apply rtc_refl|]|].
  - apply (in_step_established _ plain (Some 120) false).
  - by apply (in_received _ _ _ _ HC).
Qed.

Lemma plain_configured : configured None plain.
Proof. by split. Qed.
Lemma plain_first : in_run None true ∅ (in_first plain).
Proof. apply (in_first_run plain); [vm_compute; reflexivity|by split]. Qed.
Lemma plain_down : in_run None false ∅ (in_down plain).
Proof.
  apply (in_step_run None true false (in_first plain) _ plain_first).
  apply (in_step_terminated None plain true (in_first plain) (in_down plain) plain_configured).
  apply (some_default (sessionTerminated plain true (in_first plain))). vm_compute. reflexivity.
Qed.
Lemma plain_again : in_run None true ∅ (in_again plain).
Proof.
  exact (in_step_run None false true (in_down plain) _ plain_down
           (in_step_established None plain (Some 120) false (in_down plain))).
Qed.
Lemma plain_back : in_run None true ∅ (in_back plain).
Proof.
  apply (in_step_run None true true (in_again plain) _ plain_again).
  apply (in_received None plain (in_update [] [20] 65101) (in_again plain) plain_configured). vm_compute. reflexivity.
Qed.
Lemma capped_first : in_run (Some two_routes) true ∅ (in_first capped).
Proof. apply (in_first_run capped); [vm_compute; reflexivity|by split]. Qed.

(** The timer expires instead, one network is announced again, and the withdrawal is pushed
    after that. *)
Definition in_expired : AdjRibIn := default in_start (stalePathTimerExpired plain (in_again plain)).
Definition in_raced : AdjRibIn := default in_start (in_receive plain (in_update [] [20] 65101) in_expired).
Definition in_late : AdjRibIn := default in_start (runPendingRibInPush 0 in_raced).
Definition in_task : RibInMessage :=
  default (RibInWithdrawal (peerInfo plain) []) (head (pendingRibInPushes_ in_raced)).
Definition late_routes : gset PrefixPathId := ∅ ∖ named [in_task] ∪ overtaken in_task (trees in_raced).

Lemma plain_late : in_run None true late_routes in_late.
Proof.
  assert (H1 : in_run None true ∅ in_expired).
  { apply (in_step_run None true true (in_again plain) _ plain_again).
    apply (in_step_staleTimer None plain (in_again plain) in_expired plain_configured); [vm_compute; reflexivity|].
    apply (some_default (stalePathTimerExpired plain (in_again plain))). vm_compute. reflexivity. }
  assert (H2 : in_run None true ∅ in_raced).
  { apply (in_step_run None true true in_expired _ H1).
    apply (in_received None plain (in_update [] [20] 65101) in_expired plain_configured). vm_compute. reflexivity. }
  apply (rtc_r _ _ _ H2). apply (in_run_push None true ∅ 0 in_task in_raced in_late).
  - vm_compute. reflexivity.
  - apply (some_default (runPendingRibInPush 0 in_raced)). vm_compute. reflexivity.
Qed.


Lemma received_routes_counted_witness :
  in_summary (in_first capped) =
    [(IPV4 [30; 0; 0; 0], 0, [65002; 65100], [65002; 65100]);
     (IPV4 [20; 0; 0; 0], 0, [65002; 65100], [65002; 65100])] /\
  counts accepted (postInPrefixCount (in_first capped)) (known (trees (in_first capped))) /\
  count_all (preInPrefixCount (in_first capped)) = Z.of_nat (size (known (trees (in_first capped)))).
Proof.
  split; [vm_compute; reflexivity|].
  destruct (received_routes_counted (Some two_routes) None (in_globals None) true ∅ (in_first capped) capped_first)
    as (_ & H1 & H2).
  split; [exact H1|]. apply (H2 two_routes); [reflexivity|simpl; lia].
Defined.

Definition in_change : BgpUpdate2 := in_update [30] [20; 50] 65101.
Definition in_changed : RibView :=
  default ∅ (specUpdate plain false in_change (received (trees (in_first plain)))).

Lemma update_applied_witness :
  size in_changed = 3%nat /\
  exists a', in_receive plain in_change (in_first plain) = Some a' /\ received (trees a') = in_changed.
Proof.
  split; [vm_compute; reflexivity|].
  apply (update_applied None None (in_globals None) ∅ (in_first plain) plain_first plain plain_configured).
  - intros [H|H]; apply H; reflexivity.
  - intros prefix attrs d data e cache. discriminate.
  - intros attrs. discriminate.
  - change (recAddPath_ (trees (in_first plain))) with false. apply some_default. vm_compute. reflexivity.
Defined.


Lemma path_conversion_roundtrip_witness :
  getBgpAttributes (in_path 65100 [mkCommunity 65001 7]) <> defaultAttributes /\
  bgpAttributesToBgpPathC (getBgpAttributes (in_path 65100 [mkCommunity 65001 7])) =
    Some (wireImage (in_path 65100 [mkCommunity 65001 7])).
Proof.
  split; [discriminate|]. apply path_conversion_roundtrip.
  split; unfold wf_ip, wf_bytes, getCommunities, getExtCommunities, getAsPath; simpl;
    repeat split; try discriminate;
    repeat first [apply Forall_nil|apply Forall_cons; split|constructor]; easy.
Defined.

(** ** Routes left behind *)

Definition in_origins (o : option AdjRibIn) : option (list (IPAddress * Z * list Z * list Z)) :=
  in_summary <$> o.

(** With the optimized graceful restart nothing removes stale routes: not the
    End-of-RIB of the next session, and not a session that ends for good. *)
Abbreviation optimized := (in_config true None None None).
Definition in_optimized (gracefulRestart : bool) : option AdjRibIn :=
  a ← in_receive optimized (in_update [] [20; 30] 65100) in_start;
  a ← sessionTerminated optimized gracefulRestart a;
  if gracefulRestart
  then a ← in_receive optimized (in_update [] [20] 65101)
             (sessionEstablished optimized (Some 120) false a);
       processPeerEoR optimized AFI_IPv4 a
  else Some a.

Lemma optimized_restart_keeps_stale :
  (fun a => (size (known (trees a)), size (ribView (ribInQ_ a)), stalePathTimer_ a,
             staleEntryCount_ (trees a))) <$> in_optimized true = Some (2%nat, 2%nat, false, 1) /\
  (fun a => (size (known (trees a)), size (ribView (ribInQ_ a)), remoteGrRestartTimer_ a))
    <$> in_optimized false = Some (2%nat, 2%nat, false).
Proof. vm_compute. split; reflexivity. Qed.

(** A family whose End-of-RIB did not come in a session is waited for in the next one,
    where it is not negotiated: the stale routes stay until the timer expires. *)
Definition in_session46 : AdjRibSession :=
  mkAdjRibSession _ (peeringParams_ in_session4) 65002 true true false false false false None None false true
    0 None.
Definition both_families : InConfig :=
  mkInConfig in_session46 7 false None "" None None None None None false false false.

Lemma end_of_rib_of_old_session_awaited :
  (a ← in_receive both_families (in_update [] [20; 30] 65100)
         (sessionEstablished both_families (Some 120) false (newAdjRibIn None (in_globals None)));
   a ← sessionTerminated both_families true a;
   a ← processPeerEoR plain AFI_IPv4 (sessionEstablished plain (Some 120) false a);
   Some (elements (pendingIngressEoRAfis_ a), size (adjRibInStale_ (trees a)))) =
  Some ([AFI_IPv6], 2%nat).
Proof. vm_compute. reflexivity. Qed.

(** A route over the limit on accepted routes stays out after there is room for it:
    announced again with the same attributes it is ignored. *)
Definition one_accepted : InConfig :=
  in_config false None (Some (mkRouteLimit 1 true 0)) None.

Lemma capped_route_stays_out :
  in_origins (a ← in_receive one_accepted (in_update [] [20; 30] 65100) in_start;
              a ← in_receive one_accepted (in_update [20] [] 65100) a;
              in_receive one_accepted (in_update [] [30] 65100) a) =
    Some [(IPV4 [30; 0; 0; 0], 0, [65002; 65100], [])].
Proof. vm_compute. reflexivity. Qed.

(** In safe mode one path of a prefix is purged, the others stay. *)
Definition deny_all : GoldenPrefixPolicy :=
  mkGoldenPrefixPolicy (Some (mkPrefixTree [] [] false [], mkCountingTree [] ∅)).
Definition in_paths : BgpUpdate2 :=
  mkUpdate2 (getBgpAttributes (in_path 65100 [])) (mkNlri 0 0 [] []) (mkNlri 0 0 [] []) [] [] []
    ((fun i => mkRigged (mkIPPrefix [20; 0; 0; 0] 8) [] (Some i)) <$> [1; 2]) [].

Lemma safe_mode_purges_one_path :
  in_origins (a ← in_receive plain in_paths
                    (sessionEstablished plain None true (newAdjRibIn None (in_globals (Some deny_all))));
              Some (processAdjRibReEvaluationForSafeMode plain a)) =
    Some [(IPV4 [20; 0; 0; 0], 2, [65002; 65100], [65002; 65100])].
Proof. vm_compute. reflexivity. Qed.

(** The withdrawal a timer schedules is pushed by a task of its own: if a route it names
    is announced before the task runs, the RIB loses a route that is here. *)
Lemma late_stale_withdrawal_loses_route :
  (a ← stalePathTimerExpired plain (in_again plain);
   a ← in_receive plain (in_update [] [20] 65101) a;
   a ← runPendingRibInPush 0 a;
   Some (in_summary a, pendingRibInPushes_ a, size (ribView (ribInQ_ a)))) =
  Some ([(IPV4 [20; 0; 0; 0], 0, [65002; 65101], [65002; 65101])], [], 0%nat).
Proof. vm_compute. reflexivity. Qed.
