(* ===== verification/MapSum.v ===== *)
(** * Sums over finite maps

    What the counters of the RIB, of its next hops and of the interfaces are compared
    with: the sum of a function over the entries of a map. *)

From stdpp Require Import gmap.
From S2P Require Import Prelude.

Section MapSum.
Context {K A : Type} `{Countable K}.
Implicit Types (m : gmap K A) (f g : K -> A -> Z).

Definition map_sum f m : Z := map_fold (fun k a n => f k a + n) 0 m.

Lemma map_sum_empty f : map_sum f ∅ = 0.
Proof. apply map_fold_empty. Qed.

Lemma map_sum_insert_None f m k a : m !! k = None -> map_sum f (<[k := a]> m) = f k a + map_sum f m.
Proof. intros E. unfold map_sum. rewrite map_fold_insert_L; [done| |done]. intros. lia. Qed.

Lemma map_sum_delete f m k a : m !! k = Some a -> map_sum f m = f k a + map_sum f (delete k m).
Proof.
  intros E. rewrite <- (insert_delete_id m k a E) at 1. apply map_sum_insert_None. apply lookup_delete_eq.
Qed.

Lemma map_sum_insert f m k a : map_sum f (<[k := a]> m) = f k a + map_sum f (delete k m).
Proof. rewrite (map_sum_delete _ _ k a) by apply lookup_insert_eq. by rewrite delete_insert_eq. Qed.

(** The effect of a write or a removal on the sum *)
Lemma map_sum_update f m k a :
  map_sum f (<[k := a]> m) = map_sum f m + f k a - from_option (f k) 0 (m !! k).
Proof.
  rewrite map_sum_insert. destruct (m !! k) as [b|] eqn:E; simpl.
  - rewrite (map_sum_delete f m k b E). lia.
  - rewrite delete_id by done. lia.
Qed.

Lemma map_sum_remove f m k : map_sum f (delete k m) = map_sum f m - from_option (f k) 0 (m !! k).
Proof.
  destruct (m !! k) as [b|] eqn:E; simpl.
  - rewrite (map_sum_delete f m k b E). lia.
  - rewrite delete_id by done. lia.
Qed.

Lemma map_sum_ext f g m : (forall k a, m !! k = Some a -> f k a = g k a) -> map_sum f m = map_sum g m.
Proof.
  induction m as [|k a m E IH] using map_ind; intros Hfg; [by rewrite !map_sum_empty|].
  rewrite !map_sum_insert_None by done. rewrite (Hfg k a) by apply lookup_insert_eq.
  rewrite IH; [done|]. intros k' a' E'. apply Hfg. rewrite lookup_insert_ne; [done|]. congruence.
Qed.

Lemma map_sum_nonneg f m : (forall k a, m !! k = Some a -> 0 <= f k a) -> 0 <= map_sum f m.
Proof.
  induction m as [|k a m E IH] using map_ind; intros Hf; [by rewrite map_sum_empty|].
  rewrite map_sum_insert_None by done. pose proof (Hf k a (lookup_insert_eq _ _ _)) as H1.
  enough (0 <= map_sum f m) by lia. apply IH.
  intros k' a' E'. apply Hf. rewrite lookup_insert_ne; [done|]. congruence.
Qed.

(** One entry is at most the sum of all. *)
Lemma map_sum_ge f m k a :
  (forall k a, m !! k = Some a -> 0 <= f k a) -> m !! k = Some a -> f k a <= map_sum f m.
Proof.
  intros Hf E. rewrite (map_sum_delete f m k a E).
  enough (0 <= map_sum f (delete k m)) by lia. apply map_sum_nonneg.
  intros k' a' [_ E']%lookup_delete_Some. by apply Hf.
Qed.

Lemma map_sum_zero f m k a :
  (forall k a, m !! k = Some a -> 0 <= f k a) -> map_sum f m = 0 -> m !! k = Some a -> f k a = 0.
Proof. intros Hf Hs E. pose proof (map_sum_ge f m k a Hf E). specialize (Hf k a E). lia. Qed.

(** Two maps that differ at one key *)
Lemma map_sum_change f m m' k :
  (forall k', k' <> k -> m' !! k' = m !! k') ->
  map_sum f m' = map_sum f m - from_option (f k) 0 (m !! k) + from_option (f k) 0 (m' !! k).
Proof.
  intros Hk. assert (m' = match m' !! k with Some a => <[k := a]> m | None => delete k m end) as ->.
  { apply map_eq. intros k'. destruct (decide (k' = k)) as [->|Hne].
    - destruct (m' !! k) eqn:E; [by rewrite lookup_insert_eq|by rewrite lookup_delete_eq].
    - rewrite Hk by done. destruct (m' !! k); [by rewrite lookup_insert_ne|by rewrite lookup_delete_ne]. }
  destruct (m' !! k) as [a|] eqn:E.
  - rewrite map_sum_update, lookup_insert_eq. simpl. lia.
  - rewrite map_sum_remove, lookup_delete_eq. simpl. lia.
Qed.

Lemma map_sum_pos f m : 0 < map_sum f m -> exists k a, m !! k = Some a /\ 0 < f k a.
Proof.
  induction m as [|k a m E IH] using map_ind; intros Hp; [by rewrite map_sum_empty in Hp|].
  rewrite map_sum_insert_None in Hp by done. destruct (Z.lt_ge_cases 0 (f k a)) as [Hf|Hf].
  - exists k, a. by rewrite lookup_insert_eq.
  - destruct IH as (k' & a' & E' & Hf'); [lia|]. exists k', a'.
    rewrite lookup_insert_ne; [done|]. congruence.
Qed.

Lemma map_sum_const m : map_sum (fun _ _ => 1) m = Z.of_nat (size m).
Proof.
  induction m as [|k a m E IH] using map_ind; [by rewrite map_sum_empty, map_size_empty|].
  rewrite map_sum_insert_None, map_size_insert_None by done. lia.
Qed.

Lemma map_sum_le f g m :
  (forall k a, m !! k = Some a -> f k a <= g k a) -> map_sum f m <= map_sum g m.
Proof.
  induction m as [|k a m E IH] using map_ind; intros Hfg; [by rewrite !map_sum_empty|].
  rewrite !map_sum_insert_None by done. pose proof (Hfg k a (lookup_insert_eq _ _ _)) as H1.
  enough (map_sum f m <= map_sum g m) by lia. apply IH.
  intros k' a' E'. apply Hfg. rewrite lookup_insert_ne; [done|]. congruence.
Qed.
End MapSum.

(** Arithmetic modulo the width, as counters do it *)
Lemma uint_add_l w a b : uint w (uint w a + b) = uint w (a + b).
Proof. unfold uint. by rewrite Zplus_mod_idemp_l. Qed.
Lemma uint_sub_l w a b : uint w (uint w a - b) = uint w (a - b).
Proof. unfold uint. by rewrite Zminus_mod_idemp_l. Qed.
