(* ===== verification/NexthopCache.v ===== *)
(** * The next hop cache

    nexthopTracker/NexthopStatus.h, NexthopCache.h, NexthopCache.cpp and Utils.h:
    what is known of each next hop, written by the threads that watch interfaces,
    neighbours and the FIB, and read by the RIB, which registers the next hops of its
    routes.  Every operation runs under the lock of the map, so each is one step; the
    statistics are not kept. *)

From stdpp Require Import gmap strings.
From S2P Require Import Prelude BgpException Folly BgpStructs RouteFilter RouteInfo RibEntry.

(** ** NexthopStatus *)

(** The fields path selection reads, the interface and the epoch *)
Record CachedStatus := mkCachedStatus {
  cs_status :> NexthopStatus;
  cs_ifName : option string;
  cs_epoch : Z                         (** uint64_t; 0: not from the cache *)
}.

#[export] Instance NexthopStatus_eq_dec : EqDecision NexthopStatus.
Proof. solve_decision. Defined.
#[export] Instance CachedStatus_eq_dec : EqDecision CachedStatus.
Proof. solve_decision. Defined.

(** The constructor *)
Definition newCachedStatus (nexthop : IPAddress) (isReachable : bool) (igpCost : option Z)
    (isConnected : option bool) (excludeNexthopWithoutCost : bool) (ifName : option string)
    : CachedStatus :=
  mkCachedStatus (newNexthopStatus nexthop isReachable igpCost isConnected excludeNexthopWithoutCost)
    ifName 0.

(** A cost is only kept for a reachable next hop. *)
Definition status_wf (s : NexthopStatus) : Prop := ns_isReachable s = false -> ns_igpCost s = None.

Lemma newCachedStatus_wf n r c k x i : status_wf (newCachedStatus n r c k x i).
Proof. unfold status_wf. simpl. by intros ->. Qed.

(** What a writer compares: the reachability, the cost and the eligibility *)
Definition sameStatus (a b : NexthopStatus) : bool :=
  Bool.eqb (ns_isReachable a) (ns_isReachable b) &&
  bool_decide (ns_igpCost a = ns_igpCost b) &&
  Bool.eqb (ns_isResolvedForSelection a) (ns_isResolvedForSelection b).

Definition isConnectedTrue (s : NexthopStatus) : bool := bool_decide (ns_isConnected s = Some true).

(** ** NexthopCache *)

Record NexthopCache := mkCache {
  nexthopStatusMap_ : gmap IPAddress (CachedStatus * bool);   (** status, registered from the RIB *)
  lastEpoch_ : Z                                              (** uint64_t *)
}.

Definition newNexthopCache : NexthopCache := mkCache ∅ 0.

Definition setStatusMap (m : gmap IPAddress (CachedStatus * bool)) (c : NexthopCache) : NexthopCache :=
  mkCache m (lastEpoch_ c).

Definition findStatus (nexthopIp : IPAddress) (c : NexthopCache) : option (CachedStatus * bool) :=
  nexthopStatusMap_ c !! nexthopIp.

Definition withNextEpoch (status : CachedStatus) (c : NexthopCache) : CachedStatus * NexthopCache :=
  let epoch := uint 64 (lastEpoch_ c + 1) in
  (mkCachedStatus (cs_status status) (cs_ifName status) epoch, mkCache (nexthopStatusMap_ c) epoch).

(** One status of the list: the cache, and the status to push to the RIB *)
Definition addOrUpdateOne (nexthopStatus : CachedStatus) (c : NexthopCache)
    : option CachedStatus * NexthopCache :=
  let nexthopIp := ns_nexthop nexthopStatus in
  match findStatus nexthopIp c with
  | Some (currentStatus, isRegisteredFromRib) =>
      if isConnectedTrue currentStatus && negb (isConnectedTrue nexthopStatus) then (None, c)
      else if sameStatus currentStatus nexthopStatus then (None, c)
      else
      let '(status, c) := withNextEpoch nexthopStatus c in
      (if isRegisteredFromRib then Some status else None,
       setStatusMap (<[nexthopIp := (status, isRegisteredFromRib)]> (nexthopStatusMap_ c)) c)
  | None =>
      let '(status, c) := withNextEpoch nexthopStatus c in
      (None, setStatusMap (<[nexthopIp := (status, false)]> (nexthopStatusMap_ c)) c)
  end.

Fixpoint addOrUpdateNextHopStatus (nexthopStatusList : list CachedStatus) (c : NexthopCache)
    : list CachedStatus * NexthopCache :=
  match nexthopStatusList with
  | [] => ([], c)
  | s :: rest =>
      let '(pushed, c) := addOrUpdateOne s c in
      let '(statusesToPush, c) := addOrUpdateNextHopStatus rest c in
      (option_list pushed ++ statusesToPush, c)
  end.

(** The status, and whether [onNexthopRegistered_] is called *)
Definition registerAndGetNexthopStatus (nexthopIp : IPAddress) (c : NexthopCache)
    : CachedStatus * bool * NexthopCache :=
  match findStatus nexthopIp c with
  | Some (entryStatus, _) =>
      let needsResolution := negb (ns_isReachable entryStatus)
                             || bool_decide (ns_igpCost entryStatus = None) in
      (entryStatus, needsResolution,
       setStatusMap (<[nexthopIp := (entryStatus, true)]> (nexthopStatusMap_ c)) c)
  | None =>
      let '(defaultStatus, c) :=
        withNextEpoch (newCachedStatus nexthopIp false None None true None) c in
      (defaultStatus, true,
       setStatusMap (<[nexthopIp := (defaultStatus, true)]> (nexthopStatusMap_ c)) c)
  end.

Definition cacheIsRegistered (nexthopIp : IPAddress) (c : NexthopCache) : bool :=
  match findStatus nexthopIp c with Some (_, registered) => registered | None => false end.

Definition getNexthopStatus (nexthopIp : IPAddress) (c : NexthopCache) : option CachedStatus :=
  fst <$> findStatus nexthopIp c.

Definition clearConnectedStatus (nexthopIp : IPAddress) (c : NexthopCache)
    : option CachedStatus * NexthopCache :=
  match findStatus nexthopIp c with
  | None => (None, c)
  | Some (status, isRegisteredFromRib) =>
      if negb (isConnectedTrue status) then (None, c)
      else
      let '(status, c) := withNextEpoch (newCachedStatus nexthopIp false None None true None) c in
      (if isRegisteredFromRib then Some status else None,
       setStatusMap (<[nexthopIp := (status, isRegisteredFromRib)]> (nexthopStatusMap_ c)) c)
  end.

Definition unregisterAndRemoveNexthopStatus (nexthopIp : IPAddress) (c : NexthopCache)
    : bool * NexthopCache :=
  match findStatus nexthopIp c with
  | Some (status, _) =>
      if negb (ns_isReachable status)
      then (true, setStatusMap (delete nexthopIp (nexthopStatusMap_ c)) c)
      else (false, setStatusMap (<[nexthopIp := (status, false)]> (nexthopStatusMap_ c)) c)
  | None => (false, c)
  end.

(** *** Walking the map *)

(** [IPAddress::inSubnet] *)
Class SubnetOps := { inSubnet : IPAddress -> IPAddress -> Z -> bool }.

(** The hash map is read in the order of [map_to_list]. *)
Definition getRegisteredNexthopsInSubnet `{SubnetOps} (prefix : CIDRNetwork) (c : NexthopCache)
    : list IPAddress :=
  omap (fun '(ip, (_, registered)) =>
          if registered && Bool.eqb (isV4 ip) (isV4 prefix.1) && inSubnet ip prefix.1 prefix.2
          then Some ip else None)
    (map_to_list (nexthopStatusMap_ c)).

(** *** The statuses of the FIB agent (Utils.h) *)

Section FibAgent.
(** [openr::toIPAddress] of a binary string *)
Variable toIPAddress : string -> IPAddress.

(** A [std::map] of the agent's answers: reachability and cost by binary address, in the
    order of the keys *)
Definition convertFibAgentStatusToNexthopStatus
    (fibAgentStatusMap : list (string * (bool * option Z))) : list CachedStatus :=
  map (fun '(binaryIp, (isReachable, igpCost)) =>
         newCachedStatus (toIPAddress binaryIp) isReachable igpCost (Some false) true None)
    fibAgentStatusMap.

(** [NexthopHandler::co_processUpdates]: the message for the RIB, if there is one *)
Definition processUpdates (response : list (string * (bool * option Z))) (c : NexthopCache)
    : option (list CachedStatus) * NexthopCache :=
  let '(statuses, c) :=
    addOrUpdateNextHopStatus (convertFibAgentStatusToNexthopStatus response) c in
  (match statuses with [] => None | _ => Some statuses end, c).
End FibAgent.

(** ** What the cache promises *)

Record cache_ok (c : NexthopCache) : Prop := {
  co_last : 0 <= lastEpoch_ c < 2 ^ 64;
  co_keyed : forall ip s r, findStatus ip c = Some (s, r) -> ns_nexthop s = ip;
  co_epoch : forall ip s r, findStatus ip c = Some (s, r) -> 0 < cs_epoch s <= lastEpoch_ c;
  co_wf : forall ip s r, findStatus ip c = Some (s, r) -> status_wf s
}.

Lemma newNexthopCache_ok : cache_ok newNexthopCache.
Proof. split; [done|..]; intros ip s r; unfold findStatus; simpl; by rewrite lookup_empty. Qed.

(** A writer takes the cache from [c] to [c'] and returns [pushed]: no entry disappears,
    no registration changes, an entry that changes is stamped later than everything
    before, and the new status of a registered entry is returned for the RIB. *)
Record publishes (pushed : list CachedStatus) (c c' : NexthopCache) : Prop := {
  pb_last : lastEpoch_ c <= lastEpoch_ c';
  pb_kept : forall ip s r, findStatus ip c = Some (s, r) ->
    exists s', findStatus ip c' = Some (s', r) /\
      (s' = s \/ lastEpoch_ c < cs_epoch s' /\ (r = true -> s' ∈ pushed));
  pb_new : forall ip s r, findStatus ip c = None -> findStatus ip c' = Some (s, r) -> r = false;
  pb_pushed : forall s, s ∈ pushed -> lastEpoch_ c < cs_epoch s
}.

Lemma publishes_refl c : publishes [] c c.
Proof.
  split; [lia|eauto|congruence|]. by intros s ?%elem_of_nil.
Qed.

Lemma publishes_trans l l' c c' c'' :
  publishes l c c' -> publishes l' c' c'' -> publishes (l ++ l') c c''.
Proof.
  intros [L1 K1 N1 P1] [L2 K2 N2 P2]. split.
  - lia.
  - intros ip s r E. apply K1 in E as (s' & E' & H1). apply K2 in E' as (s'' & E'' & H2).
    exists s''. split; [done|]. destruct H2 as [->|[H2 H2']].
    + destruct H1 as [->|[H1 H1']]; [by left|right]. split; [done|].
      intros. apply elem_of_app. auto.
    + right. split; [lia|]. intros. apply elem_of_app. auto.
  - intros ip s r E E''. destruct (findStatus ip c') as [[s' r']|] eqn:E'.
    + pose proof (N1 _ _ _ E E') as ->. apply K2 in E' as (t & Et & _). congruence.
    + eauto.
  - intros s [Hs|Hs]%elem_of_app; [auto|]. specialize (P2 s Hs). lia.
Qed.

Lemma findStatus_insert ip ip' x c :
  findStatus ip (setStatusMap (<[ip' := x]> (nexthopStatusMap_ c)) c) =
  if decide (ip' = ip) then Some x else findStatus ip c.
Proof. unfold findStatus. simpl. by rewrite lookup_insert. Qed.

Lemma findStatus_delete ip ip' c :
  findStatus ip (setStatusMap (delete ip' (nexthopStatusMap_ c)) c) =
  if decide (ip' = ip) then None else findStatus ip c.
Proof. unfold findStatus. simpl. by rewrite lookup_delete. Qed.

(** Storing a new status: the write shared by the operations *)
Section Store.
Variables (c : NexthopCache) (s : CachedStatus) (r : bool).

Definition storeStatus : CachedStatus * NexthopCache :=
  let '(s, c) := withNextEpoch s c in
  (s, setStatusMap (<[ns_nexthop s := (s, r)]> (nexthopStatusMap_ c)) c).

Lemma storeStatus_lookup ip :
  findStatus ip storeStatus.2 = if decide (ns_nexthop s = ip) then Some (storeStatus.1, r) else findStatus ip c.
Proof. unfold storeStatus, findStatus. simpl. by rewrite lookup_insert. Qed.

Hypothesis room : lastEpoch_ c + 1 < 2 ^ 64.

Lemma storeStatus_epoch : cache_ok c -> cs_epoch storeStatus.1 = lastEpoch_ c + 1 /\ lastEpoch_ storeStatus.2 = lastEpoch_ c + 1.
Proof. intros [[? ?] ? ?]. simpl. rewrite uint_id; lia. Qed.

Lemma storeStatus_ok : cache_ok c -> status_wf s -> cache_ok storeStatus.2.
Proof.
  intros Hc Hs. pose proof (storeStatus_epoch Hc) as [Es Ec]. destruct Hc as [L K E W]. split.
  - rewrite Ec. lia.
  - intros ip t q. rewrite storeStatus_lookup. case_decide; [intros [= <- <-]; done|eauto].
  - intros ip t q. rewrite storeStatus_lookup, Ec. case_decide; [intros [= <- <-]; simpl; rewrite uint_id; lia|].
    intros Hf. apply E in Hf. lia.
  - intros ip t q. rewrite storeStatus_lookup. case_decide; [intros [= <- <-]; done|eauto].
Qed.

(** A write that keeps the registration and returns the status if registered *)
Lemma storeStatus_publishes :
  cache_ok c ->
  match findStatus (ns_nexthop s) c with Some (_, q) => q = r | None => r = false end ->
  publishes (if r then [storeStatus.1] else []) c storeStatus.2.
Proof.
  intros Hc Hr. pose proof (storeStatus_epoch Hc) as [Es Ec]. split.
  - lia.
  - intros ip t q Ht. rewrite storeStatus_lookup. case_decide as D; [|eauto].
    subst ip. rewrite Ht in Hr. subst q. eexists. split; [done|]. right. split; [lia|].
    intros ->. by left.
  - intros ip t q E. rewrite storeStatus_lookup. case_decide as D; [|congruence].
    subst ip. rewrite E in Hr. by intros [= _ <-].
  - intros t. destruct r; intros Ht; [|by apply elem_of_nil in Ht].
    apply list_elem_of_singleton in Ht as ->. lia.
Qed.
End Store.

Lemma addOrUpdateOne_publishes (s : CachedStatus) c :
  cache_ok c -> status_wf s -> lastEpoch_ c + 1 < 2 ^ 64 ->
  publishes (option_list (addOrUpdateOne s c).1) c (addOrUpdateOne s c).2 /\
  cache_ok (addOrUpdateOne s c).2 /\ lastEpoch_ (addOrUpdateOne s c).2 <= lastEpoch_ c + 1.
Proof.
  intros Hc Hs Hl.
  assert (Hkeep : publishes (option_list None) c c /\ cache_ok c /\ lastEpoch_ c <= lastEpoch_ c + 1)
    by (split_and!; [apply publishes_refl|done|lia]).
  assert (Hst : forall r, match findStatus (ns_nexthop s) c with Some (_, q) => q = r | None => r = false end ->
    publishes (option_list (if r then Some (storeStatus c s r).1 else None)) c (storeStatus c s r).2 /\
    cache_ok (storeStatus c s r).2 /\ lastEpoch_ (storeStatus c s r).2 <= lastEpoch_ c + 1).
  { intros r Hr. split_and!.
    - pose proof (storeStatus_publishes c s r Hl Hc Hr). by destruct r.
    - by apply storeStatus_ok.
    - destruct (storeStatus_epoch c s r Hl Hc). lia. }
  unfold addOrUpdateOne. destruct (findStatus (ns_nexthop s) c) as [[cur r]|] eqn:E.
  - destruct (isConnectedTrue cur && _); [done|]. destruct (sameStatus cur s); [done|].
    apply (Hst r eq_refl).
  - apply (Hst false eq_refl).
Qed.

Lemma addOrUpdate_publishes l c :
  cache_ok c -> Forall (fun s : CachedStatus => status_wf s) l ->
  lastEpoch_ c + Z.of_nat (length l) < 2 ^ 64 ->
  publishes (addOrUpdateNextHopStatus l c).1 c (addOrUpdateNextHopStatus l c).2 /\
  cache_ok (addOrUpdateNextHopStatus l c).2.
Proof.
  revert c. induction l as [|s l IH]; intros c Hc Hl Hn; simpl.
  - split; [apply publishes_refl|done].
  - apply Forall_cons in Hl as [Hs Hl]. simpl length in Hn.
    destruct (addOrUpdateOne_publishes s c Hc Hs) as (P1 & Hc1 & L1); [lia|].
    destruct (addOrUpdateOne s c) as [p c1]. simpl in *.
    destruct (IH c1 Hc1 Hl) as [P2 Hc2]; [lia|].
    destruct (addOrUpdateNextHopStatus l c1) as [q c2]. simpl in *.
    split; [by eapply publishes_trans|done].
Qed.

Lemma clearConnected_publishes ip c :
  cache_ok c -> lastEpoch_ c + 1 < 2 ^ 64 ->
  publishes (option_list (clearConnectedStatus ip c).1) c (clearConnectedStatus ip c).2 /\
  cache_ok (clearConnectedStatus ip c).2.
Proof.
  intros Hc Hl. unfold clearConnectedStatus. destruct (findStatus ip c) as [[s r]|] eqn:E;
    [|split; [apply publishes_refl|done]].
  destruct (negb _); [split; [apply publishes_refl|done]|].
  set (d := newCachedStatus ip false None None true None).
  change (publishes (option_list (if r then Some (storeStatus c d r).1 else None)) c (storeStatus c d r).2 /\
          cache_ok (storeStatus c d r).2).
  split.
  - pose proof (storeStatus_publishes c d r Hl Hc) as P. change (ns_nexthop d) with ip in P. rewrite E in P. specialize (P eq_refl).
    by destruct r.
  - apply storeStatus_ok; [done..|]. apply newCachedStatus_wf.
Qed.

(** The RIB's own operations leave the other entries alone. *)
Lemma register_lookup ip c ip' :
  findStatus ip' (registerAndGetNexthopStatus ip c).2 =
  if decide (ip = ip') then Some ((registerAndGetNexthopStatus ip c).1.1, true) else findStatus ip' c.
Proof.
  unfold registerAndGetNexthopStatus. destruct (findStatus ip c) as [[s r]|] eqn:E; cbn;
    unfold findStatus; simpl; by rewrite lookup_insert.
Qed.

Lemma cache_register_ok ip c :
  cache_ok c -> lastEpoch_ c + 1 < 2 ^ 64 -> cache_ok (registerAndGetNexthopStatus ip c).2.
Proof.
  intros Hc Hl. unfold registerAndGetNexthopStatus. destruct (findStatus ip c) as [[s r]|] eqn:E.
  - destruct Hc as [L K P W]. split; [done|..]; intros ip' t q; simpl; rewrite findStatus_insert;
      case_decide; subst; try (intros [= <- <-]); eauto.
  - apply (storeStatus_ok c (newCachedStatus ip false None None true None) true Hl Hc).
    apply newCachedStatus_wf.
Qed.

Lemma register_last ip c :
  cache_ok c -> lastEpoch_ c + 1 < 2 ^ 64 -> lastEpoch_ c <= lastEpoch_ (registerAndGetNexthopStatus ip c).2.
Proof.
  intros Hc Hl. unfold registerAndGetNexthopStatus. destruct (findStatus ip c) as [[s r]|]; simpl; [lia|].
  destruct Hc as [[? ?] _ _ _]. rewrite uint_id; lia.
Qed.

Lemma unregister_lookup ip c ip' :
  ip <> ip' -> findStatus ip' (unregisterAndRemoveNexthopStatus ip c).2 = findStatus ip' c.
Proof.
  intros. unfold unregisterAndRemoveNexthopStatus. destruct (findStatus ip c) as [[s r]|]; [|done].
  destruct (negb _); simpl; rewrite ?findStatus_insert, ?findStatus_delete; by rewrite decide_False.
Qed.

Lemma unregister_ok ip c : cache_ok c -> cache_ok (unregisterAndRemoveNexthopStatus ip c).2.
Proof.
  intros [L K P W]. unfold unregisterAndRemoveNexthopStatus.
  destruct (findStatus ip c) as [[s r]|] eqn:E; [|by split].
  destruct (negb _); split; try done; intros ip' t q; simpl;
    rewrite ?findStatus_insert, ?findStatus_delete; case_decide; subst; try done;
    try (intros [= <- <-]); eauto.
Qed.

Lemma unregister_last ip c : lastEpoch_ (unregisterAndRemoveNexthopStatus ip c).2 = lastEpoch_ c.
Proof.
  unfold unregisterAndRemoveNexthopStatus. destruct (findStatus ip c) as [[s r]|]; [|done].
  by destruct (negb _).
Qed.

(** ** One next hop at a time *)

(** The rule a writer's status is taken by: a connected next hop listens to connected
    sources only, and a status that changes neither reachability, cost nor eligibility
    is dropped, with its other fields. *)
Definition accepts (cur : option NexthopStatus) (s : NexthopStatus) : option NexthopStatus :=
  match cur with
  | None => Some s
  | Some t => if isConnectedTrue t && negb (isConnectedTrue s) then cur
              else if sameStatus t s then cur else Some s
  end.

Definition statusOf (ip : IPAddress) (c : NexthopCache) : option NexthopStatus :=
  cs_status <$> getNexthopStatus ip c.

Lemma statusOf_storeStatus ip s r c :
  statusOf ip (storeStatus c s r).2 = if decide (ns_nexthop s = ip) then Some (cs_status s) else statusOf ip c.
Proof. unfold statusOf, getNexthopStatus. rewrite storeStatus_lookup. by case_decide. Qed.

Lemma statusOf_one ip (s : CachedStatus) c :
  statusOf ip (addOrUpdateOne s c).2 =
  if decide (ns_nexthop s = ip) then accepts (statusOf ip c) s else statusOf ip c.
Proof.
  unfold addOrUpdateOne. destruct (findStatus (ns_nexthop s) c) as [[cur r]|] eqn:E.
  - assert (Ec : ns_nexthop s = ip -> statusOf ip c = Some (cs_status cur)).
    { intros <-. unfold statusOf, getNexthopStatus. by rewrite E. }
    case_decide as D; [rewrite (Ec D); simpl|];
      (destruct (isConnectedTrue cur && _); [by try apply Ec|];
       destruct (sameStatus cur s); [by try apply Ec|];
       change (statusOf ip (storeStatus c s r).2 = Some (cs_status s)) ||
       change (statusOf ip (storeStatus c s r).2 = statusOf ip c);
       rewrite statusOf_storeStatus; by case_decide).
  - change (statusOf ip (storeStatus c s false).2 =
      if decide (ns_nexthop s = ip) then accepts (statusOf ip c) s else statusOf ip c).
    rewrite statusOf_storeStatus. case_decide as D; [|done].
    unfold statusOf at 1, getNexthopStatus. by rewrite <- D, E.
Qed.

(** A batch acts on each next hop through its own statuses, in order. *)
Lemma statusOf_updates ip l c :
  statusOf ip (addOrUpdateNextHopStatus l c).2 =
  fold_left (fun cur (s : CachedStatus) => accepts cur s)
    (filter (fun s : CachedStatus => ns_nexthop s = ip) l) (statusOf ip c).
Proof.
  revert c. induction l as [|s l IH]; intros c; [done|]. cbn [addOrUpdateNextHopStatus].
  pose proof (statusOf_one ip s c) as H1. destruct (addOrUpdateOne s c) as [p c1]. simpl in H1.
  specialize (IH c1). destruct (addOrUpdateNextHopStatus l c1) as [q c2]. simpl in IH |- *.
  rewrite IH, H1, filter_cons. by case_decide.
Qed.

(** Whatever was accepted last, the next hop is as reachable as the status says. *)
Lemma accepts_connected cur (s : NexthopStatus) :
  isConnectedTrue s = true ->
  exists t, accepts cur s = Some t /\ ns_isReachable t = ns_isReachable s /\ ns_igpCost t = ns_igpCost s.
Proof.
  intros Hs. destruct cur as [t|]; simpl; [|eauto]. rewrite Hs. rewrite andb_false_r.
  destruct (sameStatus t s) eqn:E; [|eauto]. exists t. split; [done|].
  apply andb_true_iff in E as [[E1%Bool.eqb_prop E2%bool_decide_eq_true]%andb_true_iff _]. done.
Qed.

Lemma accepts_unconnected (t s : NexthopStatus) :
  isConnectedTrue t = true -> isConnectedTrue s = false -> accepts (Some t) s = Some t.
Proof. intros Ht Hs. simpl. by rewrite Ht, Hs. Qed.

(** Sources that do not watch the interfaces cannot change a connected next hop. *)
Lemma connected_status_kept ip t l c :
  statusOf ip c = Some t -> isConnectedTrue t = true ->
  Forall (fun s : CachedStatus => ns_nexthop s = ip -> isConnectedTrue s = false) l ->
  statusOf ip (addOrUpdateNextHopStatus l c).2 = Some t.
Proof.
  intros E Ht Hl. rewrite statusOf_updates, E. induction Hl as [|s l Hs _ IH]; [done|].
  rewrite filter_cons. case_decide as D; [|done]. cbn [fold_left].
  by rewrite accepts_unconnected by auto.
Qed.
