(* ===== verification/InterfaceEntry.v ===== *)
(** * Interfaces and their prefixes

    nexthopTracker/InterfaceEntry.h, InterfaceEntry.cpp and InterfacePrefixTable.h, with
    [listAllIPsInCIDR] of common/Utils.cpp: what is tracked of one interface, the hold
    after a link flap, and the table of the prefixes of all interfaces.  Time points and
    durations are counted in nanoseconds; a duration of milliseconds is kept as such. *)

From stdpp Require Import gmap strings fin_sets.
From S2P Require Import Prelude BgpException Folly BgpStructs RouteFilter RouteInfo RibEntry MapSum.

(** ** The addresses of a prefix *)

Definition kDefaultMaxIPsInCIDR : Z := 2.

(** The loop over the bytes from the last one; the list is reversed. *)
Fixpoint addWithCarry (bytes : list Z) (carry : Z) : list Z :=
  match bytes with
  | [] => []
  | b :: rest =>
      if 0 <? carry
      then let sum := b + carry in Z.land sum 0xFF :: addWithCarry rest (Z.shiftr sum 8)
      else bytes
  end.

Section ListAllIPs.
Context `{FollyOps}.

(** The length of the prefix is at most the width of its address. *)
Definition listAllIPsInCIDR (prefix : CIDRNetwork) (maxIPs : Z) : list IPAddress :=
  let prefixLen := prefix.2 in
  let baseIP := ip_mask prefix.1 prefixLen in
  if isV4 baseIP then
    let numIPs := Z.shiftl 1 (32 - prefixLen) in
    if maxIPs <? numIPs then []
    else
    let baseAddr := be_decode (ip_bytes baseIP) in
    map (fun i => ip_fromLongHBO (uint 32 (baseAddr + Z.of_nat i))) (seq 0 (Z.to_nat numIPs))
  else if prefixLen <=? 64 then []
  else
    let numIPs := Z.shiftl 1 (128 - prefixLen) in
    if maxIPs <? numIPs then []
    else
    map (fun i => IPV6 (rev (addWithCarry (rev (ip_bytes baseIP)) (Z.of_nat i))))
      (seq 0 (Z.to_nat numIPs)).
End ListAllIPs.

(** ** InterfaceEntry *)

Record InterfaceEntry := mkInterface {
  ifName_ : string;
  ifIndex_ : Z;
  ipReachabilityMap_ : gmap IPAddress bool;
  reachableNeighborCount_ : Z;         (** size_t *)
  isUp_ : bool;
  holdEndTime_ : option Z;
  lastDownTime_ : option Z;
  holdTime_ : Z;                       (** milliseconds *)
  prefixes_ : gset CIDRNetwork
}.

Definition newInterfaceEntry (ifName : string) : InterfaceEntry :=
  mkInterface ifName (-1) ∅ 0 false None None 0 ∅.

Definition set_reachability (m : gmap IPAddress bool) (count : Z) (e : InterfaceEntry) : InterfaceEntry :=
  mkInterface (ifName_ e) (ifIndex_ e) m count (isUp_ e) (holdEndTime_ e) (lastDownTime_ e)
    (holdTime_ e) (prefixes_ e).
Definition set_hold (hold down : option Z) (time : Z) (e : InterfaceEntry) : InterfaceEntry :=
  mkInterface (ifName_ e) (ifIndex_ e) (ipReachabilityMap_ e) (reachableNeighborCount_ e) (isUp_ e)
    hold down time (prefixes_ e).
Definition set_prefixes (s : gset CIDRNetwork) (e : InterfaceEntry) : InterfaceEntry :=
  mkInterface (ifName_ e) (ifIndex_ e) (ipReachabilityMap_ e) (reachableNeighborCount_ e) (isUp_ e)
    (holdEndTime_ e) (lastDownTime_ e) (holdTime_ e) s.

(** Add or clear one address of the prefix *)
Definition seedIP (isValid : bool) (acc : bool * InterfaceEntry) (ip : IPAddress)
    : bool * InterfaceEntry :=
  let '(isUpdated, e) := acc in
  let found : option bool := ipReachabilityMap_ e !! ip in
  if isValid then
    match found with
    | Some _ => acc
    | None => (true, set_reachability (<[ip := false]> (ipReachabilityMap_ e))
                       (reachableNeighborCount_ e) e)
    end
  else
    match found with
    | None => acc
    | Some reachable =>
        (true, set_reachability (delete ip (ipReachabilityMap_ e))
                 (if reachable then uint 64 (reachableNeighborCount_ e - 1)
                  else reachableNeighborCount_ e) e)
    end.

Definition updateAddr `{FollyOps} (addr : CIDRNetwork) (isValid : bool) (e : InterfaceEntry)
    : bool * InterfaceEntry :=
  fold_left (seedIP isValid) (listAllIPsInCIDR addr kDefaultMaxIPsInCIDR) (false, e).

Definition updateIfIndex (ifIndex : Z) (e : InterfaceEntry) : bool * InterfaceEntry :=
  if negb (ifIndex_ e =? ifIndex) then
    (true, mkInterface (ifName_ e) ifIndex (ipReachabilityMap_ e) (reachableNeighborCount_ e)
             (isUp_ e) (holdEndTime_ e) (lastDownTime_ e) (holdTime_ e) (prefixes_ e))
  else (false, e).

Definition updateReachability (ip : IPAddress) (reachability : bool) (e : InterfaceEntry)
    : bool * InterfaceEntry :=
  match ipReachabilityMap_ e !! ip with
  | None => (false, e)
  | Some old =>
      if xorb old reachability then
        (true, set_reachability (<[ip := reachability]> (ipReachabilityMap_ e))
                 (uint 64 (reachableNeighborCount_ e + if reachability then 1 else -1)) e)
      else (false, e)
  end.

Definition setUp (isUp : bool) (e : InterfaceEntry) : bool * InterfaceEntry :=
  if xorb (isUp_ e) isUp then
    (true, mkInterface (ifName_ e) (ifIndex_ e) (ipReachabilityMap_ e) (reachableNeighborCount_ e)
             isUp (holdEndTime_ e) (lastDownTime_ e) (holdTime_ e) (prefixes_ e))
  else (false, e).

Definition canUseLink (now : Z) (e : InterfaceEntry) : bool :=
  isUp_ e && match holdEndTime_ e with None => true | Some t => t <=? now end.

Definition entryIsReachable (ip : IPAddress) (now : Z) (e : InterfaceEntry) : bool :=
  match ipReachabilityMap_ e !! ip with
  | None => false
  | Some neighborReachable => neighborReachable && canUseLink now e
  end.

Definition hasReachableNeighbor (e : InterfaceEntry) : bool := 0 <? reachableNeighborCount_ e.

(** The pairs [fn] is called with, in an order the code does not choose *)
Definition forEachPublishedReachability (now : Z) (e : InterfaceEntry) : list (IPAddress * bool) :=
  let linkUsable := canUseLink now e in
  map (fun '(ip, neighborReachable) => (ip, neighborReachable && linkUsable))
    (map_to_list (ipReachabilityMap_ e)).

Definition ms (n : Z) : Z := n * 1000000.

Definition recordLinkDown (now initialHoldDownTime maxHoldDownTime : Z) (e : InterfaceEntry)
    : InterfaceEntry :=
  let isRepeatFlap := match lastDownTime_ e with
                      | Some t => now - t <? ms maxHoldDownTime
                      | None => false
                      end in
  set_hold None (Some now)
    (if isRepeatFlap then Z.min (holdTime_ e * 2) maxHoldDownTime else initialHoldDownTime) e.

Definition startLinkUpHold (now : Z) (e : InterfaceEntry) : bool * InterfaceEntry :=
  match lastDownTime_ e with
  | None => (false, e)
  | Some t =>
      let endTime := t + ms (holdTime_ e) in
      if endTime <=? now then (false, e)
      else (true, set_hold (Some endTime) (lastDownTime_ e) (holdTime_ e) e)
  end.

Definition isHoldEnded (now : Z) (e : InterfaceEntry) : bool :=
  match holdEndTime_ e with None => false | Some t => t <=? now end.

Definition removeHold (e : InterfaceEntry) : InterfaceEntry :=
  set_hold None (lastDownTime_ e) (holdTime_ e) e.

Definition entryAddPrefix (prefix : CIDRNetwork) (e : InterfaceEntry) : bool * InterfaceEntry :=
  (negb (bool_decide (prefix ∈ prefixes_ e)), set_prefixes ({[prefix]} ∪ prefixes_ e) e).

Definition entryRemovePrefix (prefix : CIDRNetwork) (e : InterfaceEntry) : bool * InterfaceEntry :=
  (bool_decide (prefix ∈ prefixes_ e), set_prefixes (prefixes_ e ∖ {[prefix]}) e).

(** ** InterfacePrefixTable *)

(** facebook::network::RadixTree, keyed by a network whose address the tree masks.
    [rt_set] writes the value of a node through its iterator, or inserts the node. *)
Class RadixOps := {
  rtree : Type -> Type;
  rt_empty : forall {V}, rtree V;
  exactMatch : forall {V}, rtree V -> CIDRNetwork -> option V;
  rt_set : forall {V}, CIDRNetwork -> V -> rtree V -> rtree V;
  rt_erase : forall {V}, CIDRNetwork -> rtree V -> rtree V;
  (** the value of the longest prefix that covers the network *)
  longestMatch : forall {V}, rtree V -> CIDRNetwork -> option V
}.

Definition same_node `{FollyOps} (a b : CIDRNetwork) : Prop :=
  a.2 = b.2 /\ ip_mask a.1 a.2 = ip_mask b.1 b.2.
#[export] Instance same_node_dec `{FollyOps} a b : Decision (same_node a b).
Proof. unfold same_node. apply _. Defined.

(** Lookups after updates, and the longest match as the longest length with a node *)
Class RadixLaws (F : FollyOps) (R : RadixOps) : Prop := {
  exactMatch_empty {V} n : exactMatch (rt_empty (V := V)) n = None;
  exactMatch_node {V} (t : rtree V) n n' : same_node n n' -> exactMatch t n = exactMatch t n';
  exactMatch_set {V} (t : rtree V) n n' v :
    exactMatch (rt_set n v t) n' = if decide (same_node n n') then Some v else exactMatch t n';
  exactMatch_erase {V} (t : rtree V) n n' :
    exactMatch (rt_erase n t) n' = if decide (same_node n n') then None else exactMatch t n';
  longestMatch_some {V} (t : rtree V) a n v :
    longestMatch t (a, n) = Some v ->
    exists m, 0 <= m <= n /\ exactMatch t (a, m) = Some v /\
      forall m', m < m' <= n -> exactMatch t (a, m') = None;
  longestMatch_none {V} (t : rtree V) a n m :
    longestMatch t (a, n) = None -> 0 <= m <= n -> exactMatch t (a, m) = None
}.

Definition bitCount (ip : IPAddress) : Z := 8 * blen (ip_bytes ip).

Section PrefixTable.
Context `{FollyOps, RadixOps}.

(** The interface index by contributing address *)
Definition InterfacePrefixTable : Type := rtree (gmap IPAddress Z).

Definition tableAddPrefix (addr : CIDRNetwork) (ifIndex : Z) (t : InterfacePrefixTable)
    : bool * InterfacePrefixTable :=
  let found := exactMatch t addr in
  (match found with Some _ => false | None => true end,
   rt_set addr (<[addr.1 := ifIndex]> (default ∅ found)) t).

Definition tableRemovePrefix (addr : CIDRNetwork) (t : InterfacePrefixTable)
    : bool * InterfacePrefixTable :=
  match exactMatch t addr with
  | None => (false, t)
  | Some contributors =>
      let contributors := delete addr.1 contributors in
      if bool_decide (contributors = ∅) then (true, rt_erase addr t)
      else (false, rt_set addr contributors t)
  end.

Definition isDirectlyConnected (ip : IPAddress) (t : InterfacePrefixTable) : bool :=
  match longestMatch t (ip, uint 8 (bitCount ip)) with Some _ => true | None => false end.

(** The first contributor in the order of [map_to_list], an order the code does not
    choose.  A node has at least one contributor. *)
Definition coveringIfIndex (ip : IPAddress) (t : InterfacePrefixTable) : option Z :=
  contributors ← longestMatch t (ip, uint 8 (bitCount ip));
  snd <$> head (map_to_list contributors).
End PrefixTable.

(** ** The neighbours of an interface *)

Section Neighbors.
Implicit Types (m : gmap IPAddress bool).

Definition trueCount m : Z := map_sum (fun _ b => Z.b2z b) m.

Lemma trueCount_range m : 0 <= trueCount m <= Z.of_nat (size m).
Proof.
  split; [apply map_sum_nonneg; by intros ? []|]. rewrite <- map_sum_const.
  apply map_sum_le. by intros ? [].
Qed.
End Neighbors.

(** The counter follows the map. *)
Definition neighbors_ok (e : InterfaceEntry) : Prop :=
  reachableNeighborCount_ e = uint 64 (trueCount (ipReachabilityMap_ e)).

Lemma seedIP_ok isValid acc ip : neighbors_ok acc.2 -> neighbors_ok (seedIP isValid acc ip).2.
Proof.
  destruct acc as [u e]. unfold neighbors_ok, trueCount. simpl. intros Hn.
  destruct isValid, (ipReachabilityMap_ e !! ip) as [b|] eqn:E; simpl; try done.
  - rewrite map_sum_update, E, Hn. simpl. f_equal. lia.
  - rewrite map_sum_remove, E, Hn. destruct b; simpl; [by rewrite uint_sub_l|f_equal; lia].
Qed.

Lemma updateAddr_ok `{FollyOps} addr isValid e : neighbors_ok e -> neighbors_ok (updateAddr addr isValid e).2.
Proof.
  unfold updateAddr. generalize (listAllIPsInCIDR addr kDefaultMaxIPsInCIDR). intros l.
  change (neighbors_ok e) with (neighbors_ok (false, e).2). generalize (false, e).
  induction l as [|ip l IH]; intros acc Ha; [done|]. by apply IH, seedIP_ok.
Qed.

Lemma updateReachability_ok ip r e : neighbors_ok e -> neighbors_ok (updateReachability ip r e).2.
Proof.
  unfold updateReachability, neighbors_ok. intros Hn.
  destruct (ipReachabilityMap_ e !! ip) as [old|] eqn:E; [|done].
  destruct (xorb old r) eqn:X; [|done]. simpl. rewrite Hn, uint_add_l.
  unfold trueCount. rewrite map_sum_update, E. simpl. f_equal. destruct old, r; simpl in *; (lia || done).
Qed.

(** ** What a link event may change *)

Lemma hasReachableNeighbor_spec e :
  neighbors_ok e -> Z.of_nat (size (ipReachabilityMap_ e)) < 2 ^ 64 ->
  hasReachableNeighbor e = true <-> exists ip, ipReachabilityMap_ e !! ip = Some true.
Proof.
  intros Hn Hs. unfold hasReachableNeighbor. rewrite Hn.
  pose proof (trueCount_range (ipReachabilityMap_ e)) as Hr. rewrite uint_id by lia.
  rewrite Z.ltb_lt. split.
  - intros (ip & [] & E & Hb)%map_sum_pos; [eauto|done].
  - intros [ip E]. pose proof (map_sum_ge (fun _ b => Z.b2z b) (ipReachabilityMap_ e) ip true) as Hge.
    simpl in Hge. enough (1 <= trueCount (ipReachabilityMap_ e)) by lia. apply Hge; [by intros ? []|done].
Qed.

(** Without a reachable neighbour the published values do not depend on the link. *)
Lemma published_without_neighbor now now' e e' :
  neighbors_ok e -> Z.of_nat (size (ipReachabilityMap_ e)) < 2 ^ 64 ->
  hasReachableNeighbor e = false -> ipReachabilityMap_ e' = ipReachabilityMap_ e ->
  forEachPublishedReachability now' e' = forEachPublishedReachability now e.
Proof.
  intros Hn Hs Hh E. unfold forEachPublishedReachability. rewrite E.
  apply list_fmap_ext. intros i [ip b] Hi. apply list_elem_of_lookup_2, elem_of_map_to_list in Hi.
  destruct b; [|done]. exfalso.
  assert (hasReachableNeighbor e = true) by (apply hasReachableNeighbor_spec; eauto). congruence.
Qed.

(** ** The link-up hold *)

(** The hold runs from the last link-down, for the current length of the ladder. *)
Definition hold_ok (limit : Z) (e : InterfaceEntry) : Prop :=
  0 <= holdTime_ e <= limit /\
  match holdEndTime_ e with
  | None => True
  | Some t => exists d, lastDownTime_ e = Some d /\ t = d + ms (holdTime_ e)
  end.

Lemma newInterfaceEntry_hold name limit : 0 <= limit -> hold_ok limit (newInterfaceEntry name).
Proof. unfold hold_ok. simpl. lia. Qed.

Lemma recordLinkDown_hold now initial limit e :
  0 <= initial <= limit -> hold_ok limit e -> hold_ok limit (recordLinkDown now initial limit e).
Proof.
  intros Hi [Ht _]. unfold recordLinkDown, hold_ok. simpl. split; [|done].
  destruct (match lastDownTime_ e with Some t => _ | None => _ end); lia.
Qed.

Lemma startLinkUpHold_hold now limit e : hold_ok limit e -> hold_ok limit (startLinkUpHold now e).2.
Proof.
  unfold startLinkUpHold. intros Hh. destruct (lastDownTime_ e) as [d|] eqn:E; [|done].
  destruct (_ <=? now); simpl; [done|]. destruct Hh as [Ht _]. split; [done|]. simpl. eauto.
Qed.

Lemma removeHold_hold limit e : hold_ok limit e -> hold_ok limit (removeHold e).
Proof. by intros [? _]. Qed.

(** A link that is up can be used again at the latest [limit] after the last link-down. *)
Lemma hold_expires limit e d now :
  hold_ok limit e -> lastDownTime_ e = Some d -> d + ms limit <= now -> canUseLink now e = isUp_ e.
Proof.
  intros [Ht Hh] Hd Hn. unfold canUseLink. destruct (holdEndTime_ e) as [t|]; [|by rewrite andb_true_r].
  destruct Hh as (d' & Hd' & ->). assert (d' = d) as -> by congruence. unfold ms in *.
  rewrite (proj2 (Z.leb_le _ _)) by lia. by rewrite andb_true_r.
Qed.

(** The length of the hold after link-downs at the given times, each sooner than the
    longest hold after the one before *)
Fixpoint flap (initial limit : Z) (times : list Z) (e : InterfaceEntry) : InterfaceEntry :=
  match times with
  | [] => e
  | t :: rest => flap initial limit rest (recordLinkDown t initial limit e)
  end.

Fixpoint rapid (limit : Z) (last : Z) (times : list Z) : Prop :=
  match times with
  | [] => True
  | t :: rest => t - last < ms limit /\ rapid limit t rest
  end.

Lemma flap_doubles initial limit times : forall e d k,
  0 < initial <= limit -> lastDownTime_ e = Some d ->
  holdTime_ e = Z.min (initial * 2 ^ Z.of_nat k) limit -> rapid limit d times ->
  holdTime_ (flap initial limit times e) =
  Z.min (initial * 2 ^ Z.of_nat (k + length times)) limit.
Proof.
  induction times as [|t rest IH]; intros e d k Hi Hd Hk Hr; simpl.
  - by rewrite Nat.add_0_r.
  - destruct Hr as [Ht Hr]. rewrite <- Nat.add_succ_comm. apply (IH _ t); [done|done| |done].
    simpl. rewrite Hd, (proj2 (Z.ltb_lt _ _) Ht), Hk, Nat2Z.inj_succ, Z.pow_succ_r by lia. nia.
Qed.
