(* ===== verification/NetlinkWrapper.v ===== *)
(** * Next hops from the interfaces

    nexthopTracker/NetlinkWrapper.h and NetlinkWrapper.cpp: the events of the kernel keep
    the interfaces, and what they say of the next hops goes to the cache, to the RIB and
    to the FIB agent.  With [resolve_from_interface_state] a next hop is as reachable as
    the interface whose prefix covers it; without it, as the neighbour table of the
    kernel and the link say.  The events are handled by one fiber, and [publishLock_]
    keeps a publication together, so each handler is one step; the release of ended holds
    is split where its fiber can suspend between the publication and the removal. *)

From stdpp Require Import gmap strings fin_sets.
From S2P Require Import Prelude BgpException Folly BgpStructs RouteFilter RouteInfo RibEntry.
From S2P Require Import NexthopCache InterfaceEntry.

(** ** Events of the kernel *)

Record Link := mkLink { link_name : string; link_ifIndex : Z; link_isUp : bool }.
Record IfAddress := mkIfAddress {
  addr_ifIndex : Z; addr_prefix : option CIDRNetwork; addr_isValid : bool }.
Record Neighbor := mkNeighbor {
  nbr_ifIndex : Z; nbr_destination : IPAddress; nbr_isReachable : bool }.

(** [openr::thrift::ConnectedNextHopStatus] *)
Record ConnectedNextHopStatus := mkConnected {
  remoteAddress : IPAddress; interfaceName : string; connected_isReachable : bool }.

Definition kDirectlyConnectedNexthopWeight : Z := 1.
Definition kNetlinkSyncRetries : nat := 5.

Definition netlinkNexthopStatus (nexthop : IPAddress) (isReachable : bool) (igpCost : option Z)
    (ifName : option string) : CachedStatus :=
  newCachedStatus nexthop isReachable igpCost (Some true) true ifName.

Definition publishedStatus (p : IPAddress * bool) : CachedStatus :=
  netlinkNexthopStatus p.1 p.2 (Some kDirectlyConnectedNexthopWeight) None.

(** [appendPublishedStatuses] *)
Definition appendPublishedStatuses (now : Z) (interface : InterfaceEntry)
    (acc : list CachedStatus * list ConnectedNextHopStatus)
    : list CachedStatus * list ConnectedNextHopStatus :=
  let published := forEachPublishedReachability now interface in
  (acc.1 ++ map publishedStatus published,
   acc.2 ++ map (fun p => mkConnected p.1 (ifName_ interface) p.2) published).

(** ** The state *)

Class NetlinkConfig := {
  (** the flag bgp_resolve_nexthops_from_interface_state *)
  resolve_from_interface_state : bool;
  (** BgpSettingConfig.enable_netlink_dampening *)
  configured_dampening : bool;
  (** a match against the set of regular expressions *)
  isIfNameRegexMatch : string -> bool
}.

Section Netlink.
Context `{FollyOps, RadixOps, SubnetOps, NetlinkConfig}.

(** The constructor turns the hold off on the interface-state path. *)
Definition enableNetlinkDampening_ : bool := configured_dampening && negb resolve_from_interface_state.

Record NetlinkWrapper := mkNetlink {
  ifIndexToName_ : gmap Z string;
  interfaces_ : gmap string InterfaceEntry;
  prefixTable_ : InterfacePrefixTable;
  nexthopCache_ : NexthopCache;
  netlinkRibInQ_ : list (list CachedStatus);                    (** [RibInNexthopUpdate]s pushed *)
  pendingFibOpenrUpdates_ : list (list ConnectedNextHopStatus);
  interfaceHoldCount_ : Z;                               (** int64_t *)
  holdTimes_ : Z * Z;                                    (** first and longest hold *)
  holdReleaseTimer_ : option Z                           (** milliseconds until it fires *)
}.

Definition set_interfaces (m : gmap string InterfaceEntry) (s : NetlinkWrapper) : NetlinkWrapper :=
  mkNetlink (ifIndexToName_ s) m (prefixTable_ s) (nexthopCache_ s) (netlinkRibInQ_ s)
    (pendingFibOpenrUpdates_ s) (interfaceHoldCount_ s) (holdTimes_ s) (holdReleaseTimer_ s).
Definition put_interface (name : string) (e : InterfaceEntry) (s : NetlinkWrapper) : NetlinkWrapper :=
  set_interfaces (<[name := e]> (interfaces_ s)) s.
Definition put_ifName (ifIndex : Z) (name : string) (s : NetlinkWrapper) : NetlinkWrapper :=
  mkNetlink (<[ifIndex := name]> (ifIndexToName_ s)) (interfaces_ s) (prefixTable_ s)
    (nexthopCache_ s) (netlinkRibInQ_ s) (pendingFibOpenrUpdates_ s) (interfaceHoldCount_ s)
    (holdTimes_ s) (holdReleaseTimer_ s).
Definition set_prefixTable (t : InterfacePrefixTable) (s : NetlinkWrapper) : NetlinkWrapper :=
  mkNetlink (ifIndexToName_ s) (interfaces_ s) t (nexthopCache_ s) (netlinkRibInQ_ s)
    (pendingFibOpenrUpdates_ s) (interfaceHoldCount_ s) (holdTimes_ s) (holdReleaseTimer_ s).
Definition set_cache (c : NexthopCache) (q : list (list CachedStatus)) (s : NetlinkWrapper)
    : NetlinkWrapper :=
  mkNetlink (ifIndexToName_ s) (interfaces_ s) (prefixTable_ s) c q
    (pendingFibOpenrUpdates_ s) (interfaceHoldCount_ s) (holdTimes_ s) (holdReleaseTimer_ s).
Definition enqueueConnectedNextHopStatus (request : list ConnectedNextHopStatus)
    (s : NetlinkWrapper) : NetlinkWrapper :=
  mkNetlink (ifIndexToName_ s) (interfaces_ s) (prefixTable_ s) (nexthopCache_ s) (netlinkRibInQ_ s)
    (pendingFibOpenrUpdates_ s ++ [request]) (interfaceHoldCount_ s) (holdTimes_ s)
    (holdReleaseTimer_ s).
Definition set_holdCount (n : Z) (s : NetlinkWrapper) : NetlinkWrapper :=
  mkNetlink (ifIndexToName_ s) (interfaces_ s) (prefixTable_ s) (nexthopCache_ s) (netlinkRibInQ_ s)
    (pendingFibOpenrUpdates_ s) n (holdTimes_ s) (holdReleaseTimer_ s).
Definition setLinkUpHoldTimes (initial max : Z) (s : NetlinkWrapper) : NetlinkWrapper :=
  mkNetlink (ifIndexToName_ s) (interfaces_ s) (prefixTable_ s) (nexthopCache_ s) (netlinkRibInQ_ s)
    (pendingFibOpenrUpdates_ s) (interfaceHoldCount_ s) (initial, max) (holdReleaseTimer_ s).
Definition scheduleRelease (timeout : Z) (s : NetlinkWrapper) : NetlinkWrapper :=
  mkNetlink (ifIndexToName_ s) (interfaces_ s) (prefixTable_ s) (nexthopCache_ s) (netlinkRibInQ_ s)
    (pendingFibOpenrUpdates_ s) (interfaceHoldCount_ s) (holdTimes_ s) (Some timeout).

(** ** Publication *)

Definition updateCacheAndNotifyRib (updates : list CachedStatus) (s : NetlinkWrapper)
    : NetlinkWrapper :=
  let '(statuses, c) := addOrUpdateNextHopStatus updates (nexthopCache_ s) in
  set_cache c (if nonempty statuses then netlinkRibInQ_ s ++ [statuses] else netlinkRibInQ_ s) s.

Definition publishStatusesWithFiberContext (vec : list CachedStatus)
    (thriftStatuses : list ConnectedNextHopStatus) (s : NetlinkWrapper) : NetlinkWrapper :=
  if negb (nonempty vec) then s
  else enqueueConnectedNextHopStatus thriftStatuses (updateCacheAndNotifyRib vec s).

(** [NetlinkWrapper::addOrUpdateNextHopStatus] *)
Definition publishInterface (interface : InterfaceEntry) (now : Z) (s : NetlinkWrapper)
    : NetlinkWrapper :=
  let '(vec, thriftNextHopStatuses) := appendPublishedStatuses now interface ([], []) in
  publishStatusesWithFiberContext vec thriftNextHopStatuses s.

Definition getOrCreateInterfaceEntry (ifName : string) (s : NetlinkWrapper) : InterfaceEntry :=
  default (newInterfaceEntry ifName) (interfaces_ s !! ifName).

Definition ifNameForIndex (ifIndex : Z) (s : NetlinkWrapper) : option string :=
  ifIndexToName_ s !! ifIndex.

Definition isInterfaceUp (ifName : string) (s : NetlinkWrapper) : bool :=
  match interfaces_ s !! ifName with Some e => isUp_ e | None => false end.

Definition evaluateNexthop (nexthopIp : IPAddress) (s : NetlinkWrapper) : bool * NetlinkWrapper :=
  match coveringIfIndex nexthopIp (prefixTable_ s) with
  | None => (false, s)
  | Some ifIndex =>
      let ifName := ifNameForIndex ifIndex s in
      let reachable := match ifName with Some name => isInterfaceUp name s | None => false end in
      (true, updateCacheAndNotifyRib
               [netlinkNexthopStatus nexthopIp reachable (Some kDirectlyConnectedNexthopWeight) ifName] s)
  end.

(** The task of [onNexthopRegistered_] *)
Definition evaluateAll (nexthops : list IPAddress) (s : NetlinkWrapper) : NetlinkWrapper :=
  fold_left (fun s ip => (evaluateNexthop ip s).2) nexthops s.

(** The registered next hops below each prefix, one prefix after the other; registration
    is not touched by the evaluations in between. *)
Definition evaluatePrefixes (prefixes : list CIDRNetwork) (s : NetlinkWrapper) : NetlinkWrapper :=
  fold_left (fun s prefix =>
               evaluateAll (getRegisteredNexthopsInSubnet prefix (nexthopCache_ s)) s) prefixes s.

(** ** Holds *)

Record LinkHoldState := mkLinkHoldState {
  ifNamesToRelease : list string; nextEndTime : option Z; heldCount : Z }.

Definition holdStep (now : Z) (st : LinkHoldState) (kv : string * InterfaceEntry) : LinkHoldState :=
  match holdEndTime_ kv.2 with
  | None => st
  | Some endTime =>
      let heldCount := heldCount st + 1 in
      if endTime <=? now
      then mkLinkHoldState (ifNamesToRelease st ++ [kv.1]) (nextEndTime st) heldCount
      else mkLinkHoldState (ifNamesToRelease st)
             (match nextEndTime st with
              | None => Some endTime
              | Some t => if endTime <? t then Some endTime else Some t
              end) heldCount
  end.

Definition getLinkHoldState (now : Z) (s : NetlinkWrapper) : LinkHoldState :=
  fold_left (holdStep now) (map_to_list (interfaces_ s)) (mkLinkHoldState [] None 0).

(** The first half of [releaseEndedHolds], up to the publication *)
Definition publishEndedHolds (now : Z) (s : NetlinkWrapper) : LinkHoldState * NetlinkWrapper :=
  let state := getLinkHoldState now s in
  let s := set_holdCount (heldCount state) s in
  if nonempty (ifNamesToRelease state) then
    let '(vec, thriftStatuses) :=
      fold_left (fun acc ifName =>
                   match interfaces_ s !! ifName with
                   | None => acc
                   | Some e =>
                       let published := forEachPublishedReachability now e in
                       (acc.1 ++ map publishedStatus published,
                        acc.2 ++ map (fun p => mkConnected p.1 ifName p.2) published)
                   end) (ifNamesToRelease state) ([], []) in
    (state, publishStatusesWithFiberContext vec thriftStatuses s)
  else (state, s).

(** The second half: the holds found before are removed *)
Definition removeEndedHolds (state : LinkHoldState) (s : NetlinkWrapper) : NetlinkWrapper :=
  if nonempty (ifNamesToRelease state) then
    let s := fold_left (fun s ifName =>
                          match interfaces_ s !! ifName with
                          | None => s
                          | Some e => put_interface ifName (removeHold e) s
                          end) (ifNamesToRelease state) s in
    set_holdCount (heldCount state - Z.of_nat (length (ifNamesToRelease state))) s
  else s.

Definition releaseEndedHolds (now : Z) (s : NetlinkWrapper) : option Z * NetlinkWrapper :=
  let '(state, s) := publishEndedHolds now s in
  (nextEndTime state, removeEndedHolds state s).

(** [now] and [later] are the two readings of the clock. *)
Definition releaseAndReschedule (now later : Z) (s : NetlinkWrapper) : NetlinkWrapper :=
  let '(next, s) := releaseEndedHolds now s in
  match next with
  | None => s
  | Some t => scheduleRelease (Z.max (- ((later - t) / 1000000)) 0) s
  end.

(** ** Events *)

(** The clock is read at the start of the event, and twice more when a hold starts. *)
Record Clock := mkClock { clk_now : Z; clk_release : Z; clk_schedule : Z }.

Definition processLinkEvent (link : Link) (clk : Clock) (s : NetlinkWrapper) : NetlinkWrapper :=
  let ifName := link_name link in
  let isUp := link_isUp link in
  if negb (isIfNameRegexMatch ifName) then s
  else
  let s := put_ifName (link_ifIndex link) ifName s in
  let e := (updateIfIndex (link_ifIndex link) (getOrCreateInterfaceEntry ifName s)).2 in
  let '(linkChanged, e) := setUp isUp e in
  if resolve_from_interface_state then
    let s := put_interface ifName e s in
    if linkChanged then evaluatePrefixes (elements (prefixes_ e)) s else s
  else
  let now := clk_now clk in
  if negb linkChanged then put_interface ifName e s
  else
  let publish e s :=
    let s := put_interface ifName e s in
    if hasReachableNeighbor e then publishInterface e now s else s in
  if enableNetlinkDampening_ then
    if negb isUp
    then publish (recordLinkDown now (fst (holdTimes_ s)) (snd (holdTimes_ s)) e) s
    else
      let '(held, e) := startLinkUpHold now e in
      if held then releaseAndReschedule (clk_release clk) (clk_schedule clk) (put_interface ifName e s)
      else publish e s
  else publish e s.

(** [nbrs]: the answer of the kernel, [None] on an error *)
Definition readNeighborsForInterface (nbrs : option (list Neighbor)) (e : InterfaceEntry)
    : InterfaceEntry :=
  match nbrs with
  | None => e
  | Some l =>
      fold_left (fun e nbr =>
        if negb (nbr_ifIndex nbr =? ifIndex_ e) then e
        else
        let e := if nbr_isReachable nbr then (setUp true e).2 else e in
        (updateReachability (nbr_destination nbr) (nbr_isReachable nbr) e).2) l e
  end.

(** A next hop below a prefix that was added or removed *)
Definition reevaluate (isValid : bool) (s : NetlinkWrapper) (nexthopIp : IPAddress) : NetlinkWrapper :=
  let '(connected, s) := evaluateNexthop nexthopIp s in
  if isValid || connected then s
  else
  let '(cleared, c) := clearConnectedStatus nexthopIp (nexthopCache_ s) in
  set_cache c (netlinkRibInQ_ s ++ option_list ((fun st => [st]) <$> cleared)) s.

Definition processIfAddressEvent (addr : IfAddress) (nbrs : option (list Neighbor)) (now : Z)
    (s : NetlinkWrapper) : NetlinkWrapper :=
  let isValid := addr_isValid addr in
  match ifNameForIndex (addr_ifIndex addr) s, addr_prefix addr with
  | Some name, Some prefix =>
      let e := getOrCreateInterfaceEntry name s in
      if negb resolve_from_interface_state then
        let '(changed, e) := updateAddr prefix isValid e in
        if changed then
          let e := if isValid then readNeighborsForInterface nbrs e else e in
          publishInterface e now (put_interface name e s)
        else put_interface name e s
      else
      let e := if isValid then (entryAddPrefix prefix e).2 else (entryRemovePrefix prefix e).2 in
      let '(coverageChanged, t) :=
        if isValid then tableAddPrefix prefix (addr_ifIndex addr) (prefixTable_ s)
        else tableRemovePrefix prefix (prefixTable_ s) in
      let s := set_prefixTable t (put_interface name e s) in
      if negb coverageChanged then s
      else
      fold_left (reevaluate isValid) (getRegisteredNexthopsInSubnet prefix (nexthopCache_ s)) s
  | _, _ => s
  end.

Definition processNeighborEvent (nbr : Neighbor) (now : Z) (s : NetlinkWrapper) : NetlinkWrapper :=
  if resolve_from_interface_state then s
  else
  match ifNameForIndex (nbr_ifIndex nbr) s with
  | None => s
  | Some name =>
      let e := getOrCreateInterfaceEntry name s in
      let '(wentUp, e) := if nbr_isReachable nbr then setUp true e else (false, e) in
      let '(changed, e) := updateReachability (nbr_destination nbr) (nbr_isReachable nbr) e in
      let s := put_interface name e s in
      if wentUp || changed then publishInterface e now s else s
  end.

(** ** Synchronization *)

Definition linkEntry (result : gmap Z InterfaceEntry) (link : Link) : gmap Z InterfaceEntry :=
  if negb (isIfNameRegexMatch (link_name link)) then result
  else
  match result !! link_ifIndex link with
  | Some _ => result                               (** [emplace] *)
  | None =>
      let e := (updateIfIndex (link_ifIndex link) (newInterfaceEntry (link_name link))).2 in
      <[link_ifIndex link := (setUp (link_isUp link) e).2]> result
  end.

(** The prefix table and the interfaces; [None] on an exception, with the table as the
    exception leaves it. *)
Definition getAllInterfaces (links : option (list Link)) (addrs : option (list IfAddress))
    (nbrs : option (list Neighbor)) (t : InterfacePrefixTable)
    : InterfacePrefixTable * option (gmap Z InterfaceEntry) :=
  match links, addrs with
  | Some links, Some addrs =>
      let result := fold_left linkEntry links ∅ in
      if resolve_from_interface_state then
        let '(t, result) :=
          fold_left (fun '(t, result) addr =>
            match (result : gmap Z InterfaceEntry) !! addr_ifIndex addr, addr_prefix addr with
            | Some e, Some prefix =>
                if negb (addr_isValid addr) then (t, result)
                else ((tableAddPrefix prefix (addr_ifIndex addr) t).2,
                      <[addr_ifIndex addr := (entryAddPrefix prefix e).2]> result)
            | _, _ => (t, result)
            end) addrs (rt_empty, result) in
        (t, Some result)
      else
      let result :=
        fold_left (fun (result : gmap Z InterfaceEntry) addr =>
          match result !! addr_ifIndex addr, addr_prefix addr with
          | Some e, Some prefix =>
              <[addr_ifIndex addr := (updateAddr prefix (addr_isValid addr) e).2]> result
          | _, _ => result
          end) addrs result in
      (t, nbrs ← nbrs;
          Some (fold_left (fun (result : gmap Z InterfaceEntry) nbr =>
            match result !! nbr_ifIndex nbr with
            | None => result
            | Some e =>
                <[nbr_ifIndex nbr :=
                    (updateReachability (nbr_destination nbr) (nbr_isReachable nbr) e).2]> result
            end) nbrs result))
  | _, _ => (t, None)
  end.

Definition syncInterfaces (links : option (list Link)) (addrs : option (list IfAddress))
    (nbrs : option (list Neighbor)) (now : Z) (s : NetlinkWrapper) : bool * NetlinkWrapper :=
  let '(t, found) := getAllInterfaces links addrs nbrs (prefixTable_ s) in
  let s := set_prefixTable t s in
  match found with
  | None => (false, s)
  | Some interfaces =>
      let all := map_to_list interfaces in
      if negb (nonempty all) then (false, s)
      else
      let record s (kv : Z * InterfaceEntry) :=
        put_interface (ifName_ kv.2) kv.2 (put_ifName kv.1 (ifName_ kv.2) s) in
      if resolve_from_interface_state then
        let s := fold_left record all s in
        (true, fold_left (fun s kv => evaluatePrefixes (elements (prefixes_ kv.2)) s) all s)
      else
      let '(vec, thriftNextHopStatuses) :=
        fold_left (fun acc kv => appendPublishedStatuses now kv.2 acc) all ([], []) in
      let s := fold_left record all s in
      (true, enqueueConnectedNextHopStatus thriftNextHopStatuses (updateCacheAndNotifyRib vec s))
  end.

(** The attempts of [syncInterfaceTask]: what the kernel answers and the time of each; the
    task is not cancelled. *)
Fixpoint syncInterfaceTask (retries : nat)
    (answers : list (option (list Link) * option (list IfAddress) * option (list Neighbor) * Z))
    (s : NetlinkWrapper) : bool * NetlinkWrapper :=
  match retries, answers with
  | S retries, (links, addrs, nbrs, now) :: answers =>
      let '(success, s) := syncInterfaces links addrs nbrs now s in
      if success then (true, s) else syncInterfaceTask retries answers s
  | _, _ => (false, s)
  end.
End Netlink.
