(* ===== verification/NetlinkSpec.v ===== *)
(** * Next hops from the interfaces: proofs

    On the interface-state path a registered next hop stays as reachable as the interface
    that covers it, through every event.  On the other path a publication brings the cache
    in line with the neighbours and the link.  Samples show where the cache is left behind. *)

From stdpp Require Import gmap strings fin_sets.
From S2P Require Import Prelude BgpException Folly BgpStructs RouteFilter RouteInfo RibEntry.
From S2P Require Import NexthopCache InterfaceEntry NetlinkWrapper.

(** ** Registration *)

Lemma registered_one ip (s : CachedStatus) c :
  cacheIsRegistered ip (addOrUpdateOne s c).2 = cacheIsRegistered ip c.
Proof.
  unfold cacheIsRegistered, addOrUpdateOne.
  assert (forall r, findStatus ip (storeStatus c s r).2 =
    if decide (ns_nexthop s = ip) then Some ((storeStatus c s r).1, r) else findStatus ip c) as Hs
    by (intros; apply storeStatus_lookup).
  destruct (findStatus (ns_nexthop s) c) as [[cur r]|] eqn:E.
  - destruct (isConnectedTrue cur && _); [done|]. destruct (sameStatus cur s); [done|].
    specialize (Hs r). simpl in *. rewrite Hs. case_decide as D; [|done]. by rewrite <- D, E.
  - specialize (Hs false). simpl in *. rewrite Hs. case_decide as D; [|done]. by rewrite <- D, E.
Qed.

Lemma registered_updates ip l c :
  cacheIsRegistered ip (addOrUpdateNextHopStatus l c).2 = cacheIsRegistered ip c.
Proof.
  revert c. induction l as [|s l IH]; intros c; [done|]. cbn [addOrUpdateNextHopStatus].
  pose proof (registered_one ip s c) as H1. destruct (addOrUpdateOne s c) as [p c1].
  specialize (IH c1). destruct (addOrUpdateNextHopStatus l c1) as [q c2]. simpl in *. congruence.
Qed.

Lemma registered_clear ip ip' c :
  cacheIsRegistered ip (clearConnectedStatus ip' c).2 = cacheIsRegistered ip c.
Proof.
  unfold clearConnectedStatus, cacheIsRegistered.
  destruct (findStatus ip' c) as [[s r]|] eqn:E; [|done]. destruct (negb _); [done|].
  pose proof (storeStatus_lookup c (newCachedStatus ip' false None None true None) r ip) as Hs.
  simpl in *. rewrite Hs. case_decide as D; [|done]. by rewrite <- D, E.
Qed.

(** What clearing leaves: the next hop is not connected, others are as before. *)
Lemma statusOf_clear ip ip' c :
  (ip <> ip' -> statusOf ip (clearConnectedStatus ip' c).2 = statusOf ip c) /\
  (forall t, statusOf ip' (clearConnectedStatus ip' c).2 = Some t -> isConnectedTrue t = false).
Proof.
  unfold clearConnectedStatus. destruct (findStatus ip' c) as [[s r]|] eqn:E.
  - destruct (negb _) eqn:N.
    + split; [done|]. intros t. unfold statusOf, getNexthopStatus. simpl. rewrite E. simpl.
      intros [= <-]. by apply negb_true_iff.
    + set (d := newCachedStatus ip' false None None true None).
      change ((ip <> ip' -> statusOf ip (storeStatus c d r).2 = statusOf ip c) /\
        forall t, statusOf ip' (storeStatus c d r).2 = Some t -> isConnectedTrue t = false).
      rewrite !statusOf_storeStatus. simpl. split.
      * intros. by rewrite decide_False.
      * rewrite decide_True by done. by intros t [= <-].
  - split; [done|]. intros t. unfold statusOf, getNexthopStatus. simpl. by rewrite E.
Qed.

Section NetlinkSpec.
Context {F : FollyOps} {R : RadixOps} {RL : RadixLaws F R} {SO : SubnetOps} {NC : NetlinkConfig}.

(** What [inSubnet] is for: an address with the network's bits is in it. *)
Class SubnetLaws : Prop :=
  inSubnet_node ip a m : same_node (ip, m) (a, m) -> isV4 ip = isV4 a /\ inSubnet ip a m = true.
Context {SL : SubnetLaws}.

Implicit Types (s : NetlinkWrapper) (t : InterfacePrefixTable).

#[global] Instance same_node_equiv : Equivalence same_node.
Proof.
  split.
  - by intros a.
  - intros a b [? ?]. split; congruence.
  - intros a b c [? ?] [? ?]. split; congruence.
Qed.

(** ** The covering interface *)

(** The contributors of a node: at least one, all of one interface, which has them *)
Record node_ok s (n : CIDRNetwork) (contributors : gmap IPAddress Z) (idx : Z) : Prop := {
  no_nonempty : contributors <> ∅;
  no_index : forall a i, contributors !! a = Some i -> i = idx;
  no_here : forall a i, contributors !! a = Some i -> same_node (a, n.2) n;
  no_interface : exists name e, ifNameForIndex idx s = Some name /\ interfaces_ s !! name = Some e /\
    forall a i, contributors !! a = Some i -> (a, n.2) ∈ prefixes_ e
}.

Definition table_ok s : Prop := forall n contributors,
  exactMatch (prefixTable_ s) n = Some contributors -> exists idx, node_ok s n contributors idx.

Lemma covering_node s ip idx :
  table_ok s -> coveringIfIndex ip (prefixTable_ s) = Some idx ->
  exists m contributors, exactMatch (prefixTable_ s) (ip, m) = Some contributors /\
    node_ok s (ip, m) contributors idx.
Proof.
  intros T. unfold coveringIfIndex.
  destruct (longestMatch _ _) as [cs|] eqn:L; [|done]. simpl.
  apply longestMatch_some in L as (m & _ & Em & _). destruct (T _ _ Em) as [i Hi].
  destruct (map_to_list cs) as [|[a j] l] eqn:E; [done|]. simpl. intros [= ->].
  assert (cs !! a = Some idx) as Ha by (apply elem_of_map_to_list; rewrite E; by left).
  pose proof (no_index _ _ _ _ Hi _ _ Ha) as ->. eauto.
Qed.

Lemma head_index (cs : gmap IPAddress Z) idx :
  cs <> ∅ -> (forall a i, cs !! a = Some i -> i = idx) -> snd <$> head (map_to_list cs) = Some idx.
Proof.
  intros Hne Hi. destruct (map_to_list cs) as [|[a i] l] eqn:E.
  - by apply map_to_list_empty_iff in E.
  - simpl. rewrite (Hi a i); [done|]. apply elem_of_map_to_list. rewrite E. by left.
Qed.

(** Two tables that agree on the nodes of an address, up to contributors of the same
    interface, cover it by the same interface. *)
Lemma covering_same t t' ip :
  (forall m, 0 <= m <= uint 8 (bitCount ip) ->
     (fun cs : gmap IPAddress Z => snd <$> head (map_to_list cs)) <$> exactMatch t' (ip, m) =
     (fun cs : gmap IPAddress Z => snd <$> head (map_to_list cs)) <$> exactMatch t (ip, m)) ->
  coveringIfIndex ip t' = coveringIfIndex ip t.
Proof.
  unfold coveringIfIndex. set (n := uint 8 (bitCount ip)). intros Hs.
  destruct (longestMatch t (ip, n)) as [cs|] eqn:L, (longestMatch t' (ip, n)) as [cs'|] eqn:L'; simpl; [..|done].
  - apply longestMatch_some in L as (m & Hm & Em & Um). apply longestMatch_some in L' as (m' & Hm' & Em' & Um').
    destruct (Z.lt_trichotomy m m') as [Hlt|[<-|Hlt]].
    + specialize (Hs m' Hm'). rewrite Em', Um in Hs by lia. done.
    + specialize (Hs m Hm). rewrite Em, Em' in Hs. by injection Hs.
    + specialize (Hs m Hm). rewrite Em, Um' in Hs by lia. done.
  - apply longestMatch_some in L as (m & Hm & Em & Um). specialize (Hs m Hm).
    by rewrite Em, (longestMatch_none t' ip n m) in Hs.
  - apply longestMatch_some in L' as (m' & Hm' & Em' & Um'). specialize (Hs m' Hm').
    by rewrite Em', (longestMatch_none t ip n m') in Hs.
Qed.

(** ** A next hop that is up to date *)

(** What the interfaces say of the next hop; [None]: no interface covers it. *)
Definition expected (ip : IPAddress) s : option bool :=
  idx ← coveringIfIndex ip (prefixTable_ s);
  Some (match ifNameForIndex idx s with Some name => isInterfaceUp name s | None => false end).

Definition current (ip : IPAddress) s : Prop :=
  match expected ip s with
  | Some up => exists st, statusOf ip (nexthopCache_ s) = Some st /\ ns_isReachable st = up
  | None => forall st, statusOf ip (nexthopCache_ s) = Some st -> isConnectedTrue st = false
  end.

(** Nothing but the cache and the queues of the two states differ. *)
Definition same_interfaces s s' : Prop :=
  ifIndexToName_ s' = ifIndexToName_ s /\ interfaces_ s' = interfaces_ s /\
  prefixTable_ s' = prefixTable_ s /\
  forall ip, cacheIsRegistered ip (nexthopCache_ s') = cacheIsRegistered ip (nexthopCache_ s).

#[global] Instance same_interfaces_preorder : PreOrder same_interfaces.
Proof.
  split; [by intros s|]. intros a b c (?&?&?&?) (?&?&?&?). split_and!; congruence.
Qed.

Lemma same_interfaces_expected ip s s' : same_interfaces s s' -> expected ip s' = expected ip s.
Proof.
  intros (E1 & E2 & E3 & _). unfold expected, ifNameForIndex, isInterfaceUp. by rewrite E1, E2, E3.
Qed.

Lemma updateCache_same updates s : same_interfaces s (updateCacheAndNotifyRib updates s).
Proof.
  unfold updateCacheAndNotifyRib.
  pose proof (fun ip => registered_updates ip updates (nexthopCache_ s)) as Hr.
  by destruct (addOrUpdateNextHopStatus _ _) as [p c].
Qed.

Lemma updateCache_status ip updates s :
  statusOf ip (nexthopCache_ (updateCacheAndNotifyRib updates s)) =
  fold_left (fun cur (x : CachedStatus) => accepts cur x)
    (filter (fun x : CachedStatus => ns_nexthop x = ip) updates) (statusOf ip (nexthopCache_ s)).
Proof.
  unfold updateCacheAndNotifyRib. pose proof (statusOf_updates ip updates (nexthopCache_ s)) as Hr.
  by destruct (addOrUpdateNextHopStatus _ _) as [p c].
Qed.

Lemma evaluate_same ip s : same_interfaces s (evaluateNexthop ip s).2.
Proof. unfold evaluateNexthop. destruct (coveringIfIndex _ _); [apply updateCache_same|done]. Qed.

(** Evaluation brings the next hop up to date if it is covered, and touches no other. *)
Lemma evaluate_current ip s :
  (evaluateNexthop ip s).1 = true -> current ip (evaluateNexthop ip s).2.
Proof.
  intros He. unfold current. rewrite (same_interfaces_expected ip s) by apply evaluate_same.
  unfold expected. unfold evaluateNexthop in *.
  destruct (coveringIfIndex ip (prefixTable_ s)) as [idx|]; [|done]. cbn [fst snd mbind option_bind].
  rewrite updateCache_status. rewrite filter_cons_True by done. rewrite filter_nil. cbn [fold_left].
  edestruct accepts_connected as (t & Et & Er & _); [|exists t; split; [exact Et|exact Er]]. done.
Qed.

Lemma evaluate_covered ip s :
  (evaluateNexthop ip s).1 = bool_decide (is_Some (expected ip s)).
Proof.
  unfold evaluateNexthop, expected. by destruct (coveringIfIndex _ _).
Qed.

Lemma evaluate_other ip ip' s :
  ip <> ip' -> statusOf ip (nexthopCache_ (evaluateNexthop ip' s).2) = statusOf ip (nexthopCache_ s).
Proof.
  intros Hne. unfold evaluateNexthop. destruct (coveringIfIndex _ _); [|done]. cbn [snd].
  rewrite updateCache_status, filter_cons_False by (simpl; congruence). by rewrite filter_nil.
Qed.

Lemma current_same ip s s' :
  same_interfaces s s' -> statusOf ip (nexthopCache_ s') = statusOf ip (nexthopCache_ s) ->
  current ip s -> current ip s'.
Proof. intros Hs E. unfold current. rewrite (same_interfaces_expected ip s s' Hs), E. done. Qed.

Lemma evaluate_keeps ip ip' s : current ip s -> current ip (evaluateNexthop ip' s).2.
Proof.
  intros Hc. destruct (decide (ip = ip')) as [<-|Hne].
  - destruct (evaluateNexthop ip s).1 eqn:E; [by apply evaluate_current|].
    unfold evaluateNexthop in *. by destruct (coveringIfIndex _ _).
  - eapply current_same; [apply evaluate_same|by apply evaluate_other|done].
Qed.

(** A list of evaluations *)
Lemma evaluateAll_same l s : same_interfaces s (evaluateAll l s).
Proof.
  revert s. induction l as [|ip l IH]; intros s; [done|]. simpl.
  etransitivity; [apply (evaluate_same ip)|apply IH].
Qed.

Lemma evaluateAll_keeps ip l s : current ip s -> current ip (evaluateAll l s).
Proof.
  revert s. induction l as [|i l IH]; intros s Hc; [done|]. by apply IH, evaluate_keeps.
Qed.

Lemma evaluateAll_current ip l s :
  ip ∈ l -> is_Some (expected ip s) -> current ip (evaluateAll l s).
Proof.
  revert s. induction l as [|i l IH]; intros s Hi He; [by apply elem_of_nil in Hi|].
  apply elem_of_cons in Hi as [<-|Hi].
  - change (current ip (evaluateAll l (evaluateNexthop ip s).2)).
    apply evaluateAll_keeps, evaluate_current. rewrite evaluate_covered. by apply bool_decide_eq_true_2.
  - apply IH; [done|]. by rewrite (same_interfaces_expected ip s) by apply evaluate_same.
Qed.

Lemma evaluatePrefixes_same l s : same_interfaces s (evaluatePrefixes l s).
Proof.
  revert s. induction l as [|p l IH]; intros s; [done|]. simpl.
  etransitivity; [apply evaluateAll_same|apply IH].
Qed.

Lemma evaluatePrefixes_keeps ip l s : current ip s -> current ip (evaluatePrefixes l s).
Proof.
  revert s. induction l as [|p l IH]; intros s Hc; [done|]. by apply IH, evaluateAll_keeps.
Qed.

(** The registered next hops of a prefix *)
Lemma elem_of_registered ip a m c :
  cacheIsRegistered ip c = true -> same_node (ip, m) (a, m) ->
  ip ∈ getRegisteredNexthopsInSubnet (a, m) c.
Proof.
  unfold cacheIsRegistered, findStatus. intros Hr Hn.
  destruct (nexthopStatusMap_ c !! ip) as [[st r]|] eqn:E; [|done]. subst r.
  unfold getRegisteredNexthopsInSubnet. apply list_elem_of_omap. exists (ip, (st, true)).
  split; [by apply elem_of_map_to_list|]. simpl.
  destruct (inSubnet_node _ _ _ Hn) as [Hv ->]. rewrite Hv. by rewrite Bool.eqb_reflx.
Qed.

Lemma evaluatePrefixes_current ip a m l s :
  (a, m) ∈ l -> cacheIsRegistered ip (nexthopCache_ s) = true -> same_node (ip, m) (a, m) ->
  is_Some (expected ip s) -> current ip (evaluatePrefixes l s).
Proof.
  intros Hin. revert s. induction l as [|p l IH]; intros s Hr Hn He; [by apply elem_of_nil in Hin|].
  apply elem_of_cons in Hin as [<-|Hin]; simpl.
  - change (current ip (evaluatePrefixes l
      (evaluateAll (getRegisteredNexthopsInSubnet (a, m) (nexthopCache_ s)) s))).
    apply evaluatePrefixes_keeps, evaluateAll_current; [|done]. by apply elem_of_registered.
  - pose proof (evaluateAll_same (getRegisteredNexthopsInSubnet p (nexthopCache_ s)) s) as Hs.
    apply IH; [done| |done|].
    + destruct Hs as (_ & _ & _ & Hs). by rewrite Hs.
    + by rewrite (same_interfaces_expected ip s) by apply evaluateAll_same.
Qed.

(** ** Events on the interface-state path *)

Hypothesis from_interfaces : resolve_from_interface_state = true.

(** What is kept of one next hop through the events *)
(** Not marked as connected *)
Definition unconnected (ip : IPAddress) s : Prop :=
  forall st, statusOf ip (nexthopCache_ s) = Some st -> isConnectedTrue st = false.

Lemma unconnected_uncovered ip s : expected ip s = None -> unconnected ip s -> current ip s.
Proof. intros E H. unfold current. by rewrite E. Qed.

Lemma evaluate_unconnected ip ip' s : unconnected ip s ->
  current ip (evaluateNexthop ip' s).2 \/ unconnected ip (evaluateNexthop ip' s).2.
Proof.
  intros Hu. destruct (decide (ip = ip')) as [<-|Hne].
  - destruct (evaluateNexthop ip s).1 eqn:E; [left; by apply evaluate_current|right].
    unfold evaluateNexthop in *. by destruct (coveringIfIndex _ _).
  - right. intros st. rewrite evaluate_other by done. apply Hu.
Qed.

Lemma evaluateAll_unconnected ip l : forall s, unconnected ip s ->
  current ip (evaluateAll l s) \/ unconnected ip (evaluateAll l s).
Proof.
  induction l as [|i l IH]; intros s Hu; [by right|]. simpl.
  destruct (evaluate_unconnected ip i s Hu) as [H|H]; [left; by apply evaluateAll_keeps|by apply IH].
Qed.

Lemma evaluatePrefixes_unconnected ip l : forall s, unconnected ip s ->
  current ip (evaluatePrefixes l s) \/ unconnected ip (evaluatePrefixes l s).
Proof.
  induction l as [|i l IH]; intros s Hu; [by right|]. simpl.
  destruct (evaluateAll_unconnected ip (getRegisteredNexthopsInSubnet i (nexthopCache_ s)) s Hu) as [H|H];
    [left; by apply evaluatePrefixes_keeps|by apply IH].
Qed.

(** What an event of the kernel keeps: the table, the registrations, the registered
    next hops that are up to date, and those not marked as connected unless they get up
    to date. *)
Record carried s s' : Prop := {
  cr_table : table_ok s';
  cr_registered : forall ip,
    cacheIsRegistered ip (nexthopCache_ s') = cacheIsRegistered ip (nexthopCache_ s);
  cr_current : forall ip, cacheIsRegistered ip (nexthopCache_ s) = true -> current ip s -> current ip s';
  cr_unconnected : forall ip, unconnected ip s -> current ip s' \/ unconnected ip s'
}.

Lemma carried_refl s : table_ok s -> carried s s.
Proof. intros T. by split; [| | |right]. Qed.

Lemma table_ok_same s s' : same_interfaces s s' -> table_ok s -> table_ok s'.
Proof.
  intros (E1 & E2 & E3 & _) T n cs. rewrite E3. intros E. destruct (T _ _ E) as [idx [? ? ? ?]].
  exists idx. split; try done. unfold ifNameForIndex. by rewrite E1, E2.
Qed.

(** An interface keeps its name, and a subnet is configured on one interface. *)
Definition link_ok (link : Link) s : Prop := forall name,
  ifNameForIndex (link_ifIndex link) s = Some name -> name = link_name link.
Definition addr_ok (addr : IfAddress) s : Prop := forall prefix cs a i,
  addr_prefix addr = Some prefix -> exactMatch (prefixTable_ s) prefix = Some cs ->
  cs !! a = Some i -> i = addr_ifIndex addr.

(** The interface of a link event, before the evaluations *)
Section LinkEvent.
Variables (link : Link) (s : NetlinkWrapper).
Hypothesis Hlink : link_ok link s.

Let old := getOrCreateInterfaceEntry (link_name link) (put_ifName (link_ifIndex link) (link_name link) s).
Let upd := setUp (link_isUp link) (updateIfIndex (link_ifIndex link) old).2.
Let after := put_interface (link_name link) upd.2
  (put_ifName (link_ifIndex link) (link_name link) s).

Lemma link_entry : prefixes_ upd.2 = prefixes_ old /\ (upd.1 = false -> isUp_ upd.2 = isUp_ old).
Proof.
  unfold upd, setUp, updateIfIndex. destruct (negb _); simpl; destruct (xorb _ _) eqn:X; simpl; done.
Qed.

Lemma link_name_kept idx name :
  ifNameForIndex idx s = Some name -> ifNameForIndex idx after = Some name.
Proof.
  intros E. unfold after, ifNameForIndex. simpl. destruct (decide (link_ifIndex link = idx)) as [<-|].
  - rewrite lookup_insert_eq. f_equal. symmetry. by apply Hlink.
  - by rewrite lookup_insert_ne.
Qed.

Lemma link_table : table_ok s -> table_ok after.
Proof.
  intros T n cs E. destruct (T n cs E) as [idx [N1 N2 N3 (name & e & En & Ee & Hp)]].
  exists idx. split; try done. exists name.
  unfold after at 2. simpl. destruct (decide (link_name link = name)) as [Hn|Hn].
  - exists upd.2. split; [by apply link_name_kept|]. subst name. rewrite lookup_insert_eq.
    split; [done|]. intros a i Ha. rewrite (proj1 link_entry). unfold old, getOrCreateInterfaceEntry.
    simpl. rewrite Ee. simpl. eauto.
  - exists e. split; [by apply link_name_kept|]. by rewrite lookup_insert_ne.
Qed.

Lemma link_event_carried clk : table_ok s -> carried s (processLinkEvent link clk s).
Proof.
  intros T. unfold processLinkEvent. destruct (negb _); [by apply carried_refl|].
  rewrite from_interfaces. fold old. fold upd.
  rewrite (surjective_pairing upd). fold after. pose proof link_table as T'. specialize (T' T).
  assert (Hsame : forall ip, (forall idx name, coveringIfIndex ip (prefixTable_ s) = Some idx ->
      ifNameForIndex idx s = Some name -> name = link_name link -> upd.1 = false) ->
    expected ip after = expected ip s).
  { intros ip Hch. unfold expected. change (prefixTable_ after) with (prefixTable_ s).
    destruct (coveringIfIndex ip (prefixTable_ s)) as [idx|] eqn:Ec; [|done]. simpl.
    destruct (covering_node s ip idx T Ec) as (m & cs & Em & [_ _ _ (name & e & En & Ee & _)]).
    rewrite En, (link_name_kept _ _ En). f_equal. unfold isInterfaceUp, after. simpl.
    destruct (decide (link_name link = name)) as [<-|Hne].
    - rewrite lookup_insert_eq, Ee. rewrite (proj2 link_entry (Hch _ _ eq_refl En eq_refl)).
      unfold old, getOrCreateInterfaceEntry. simpl. by rewrite Ee.
    - by rewrite lookup_insert_ne. }
  assert (Hkeep : forall ip, current ip s -> expected ip after = expected ip s -> current ip after).
  { intros ip Hc E. unfold current. rewrite E. exact Hc. }
  destruct upd.1 eqn:Hch.
  - pose proof (evaluatePrefixes_same (elements (prefixes_ upd.2)) after) as Hs. split.
    + by eapply table_ok_same.
    + destruct Hs as (_ & _ & _ & Hs). done.
    + intros ip Hr Hc. destruct (coveringIfIndex ip (prefixTable_ s)) as [idx|] eqn:Ec;
        [|apply evaluatePrefixes_keeps, Hkeep, Hsame; [done|]; by rewrite Ec].
      destruct (covering_node s ip idx T Ec) as (m & cs & Em & [N1 N2 N3 (name & e & En & Ee & Hp)]).
      destruct (decide (name = link_name link)) as [->|Hne].
      * apply map_choose in N1 as (a & i & Ha).
        apply (evaluatePrefixes_current ip a m); [| |symmetry; by apply (N3 _ _ Ha)|].
        -- apply elem_of_elements. rewrite (proj1 link_entry).
           unfold old, getOrCreateInterfaceEntry. simpl. rewrite Ee. simpl. eauto.
        -- exact Hr.
        -- unfold expected. change (prefixTable_ after) with (prefixTable_ s). rewrite Ec. by eexists.
      * apply evaluatePrefixes_keeps, Hkeep, Hsame; [done|]. intros idx' name' E' En'. congruence.
    + intros ip Hu. by apply evaluatePrefixes_unconnected.
  - split; [done|done| |by right]. intros ip Hr Hc. by apply Hkeep, Hsame.
Qed.
End LinkEvent.

(** A next hop below a changed prefix *)
Lemma reevaluate_same isValid s ip : same_interfaces s (reevaluate isValid s ip).
Proof.
  unfold reevaluate. pose proof (evaluate_same ip s) as Hs.
  destruct (evaluateNexthop ip s) as [connected s1]. simpl in Hs. destruct (isValid || connected); [done|].
  pose proof (fun i => registered_clear i ip (nexthopCache_ s1)) as Hc.
  destruct (clearConnectedStatus ip (nexthopCache_ s1)) as [cl c]. simpl in Hc.
  destruct Hs as (E1 & E2 & E3 & E4). split_and!; try done. intros i. simpl. by rewrite Hc.
Qed.

Lemma reevaluate_covered isValid s ip :
  is_Some (expected ip s) -> reevaluate isValid s ip = (evaluateNexthop ip s).2.
Proof.
  intros He. unfold reevaluate. pose proof (evaluate_covered ip s) as Hc.
  rewrite bool_decide_eq_true_2 in Hc by done. destruct (evaluateNexthop ip s) as [c s1]. simpl in Hc.
  subst c. by rewrite orb_true_r.
Qed.

Lemma reevaluate_current isValid s ip :
  isValid = false \/ is_Some (expected ip s) -> current ip (reevaluate isValid s ip).
Proof.
  intros Hv. destruct (expected ip s) as [b|] eqn:E.
  - rewrite reevaluate_covered by (rewrite E; eauto). apply evaluate_current.
    rewrite evaluate_covered, E. done.
  - destruct Hv as [->|[? ?]]; [|done]. unfold current.
    rewrite (same_interfaces_expected ip s) by apply reevaluate_same. rewrite E.
    unfold reevaluate. pose proof (evaluate_covered ip s) as Hc. rewrite E in Hc.
    destruct (evaluateNexthop ip s) as [connected s1]. simpl in Hc. subst connected. simpl.
    pose proof (proj2 (statusOf_clear ip ip (nexthopCache_ s1))) as Hcl.
    by destruct (clearConnectedStatus ip (nexthopCache_ s1)) as [cl c].
Qed.

Lemma reevaluate_keeps ip isValid s ip' : current ip s -> current ip (reevaluate isValid s ip').
Proof.
  intros Hc. destruct (decide (ip = ip')) as [<-|Hne].
  - destruct (expected ip s) as [b|] eqn:E.
    + apply reevaluate_current. rewrite E. eauto.
    + destruct isValid; [|by apply reevaluate_current; left].
      unfold reevaluate. pose proof (evaluate_keeps ip ip s Hc).
      by destruct (evaluateNexthop ip s).
  - eapply current_same; [apply reevaluate_same| |done]. unfold reevaluate.
    pose proof (evaluate_other ip ip' s Hne) as He. destruct (evaluateNexthop ip' s) as [c s1].
    simpl in He. destruct (isValid || c); [done|].
    pose proof (proj1 (statusOf_clear ip ip' (nexthopCache_ s1)) Hne) as Hcl.
    destruct (clearConnectedStatus ip' (nexthopCache_ s1)) as [cl c1]. simpl in *. congruence.
Qed.

Lemma reevaluate_unconnected ip isValid s ip' : unconnected ip s ->
  current ip (reevaluate isValid s ip') \/ unconnected ip (reevaluate isValid s ip').
Proof.
  intros Hu. unfold reevaluate. pose proof (evaluate_unconnected ip ip' s Hu) as He.
  pose proof (evaluate_covered ip' s) as Hcov. pose proof (evaluate_same ip' s) as Hs.
  destruct (evaluateNexthop ip' s) as [c s1]. simpl in *. destruct (isValid || c) eqn:Eb; [done|].
  pose proof (statusOf_clear ip ip' (nexthopCache_ s1)) as [Hne Heq].
  destruct (clearConnectedStatus ip' (nexthopCache_ s1)) as [cl c1]. simpl in *.
  destruct (decide (ip = ip')) as [->|D].
  - right. intros st Hst. by apply Heq.
  - specialize (Hne D). destruct He as [Hc|Hc]; [left|right; intros st; cbn; rewrite Hne; apply Hc].
    unfold current in *. destruct (expected ip s1) eqn:E.
    + change (expected ip (set_cache _ _ s1)) with (expected ip s1). rewrite E. cbn. by rewrite Hne.
    + change (expected ip (set_cache _ _ s1)) with (expected ip s1). rewrite E. cbn. by rewrite Hne.
Qed.

Lemma reevaluate_all_unconnected ip isValid l : forall s, unconnected ip s ->
  current ip (fold_left (reevaluate isValid) l s) \/ unconnected ip (fold_left (reevaluate isValid) l s).
Proof.
  induction l as [|i l IH]; intros s Hu; [by right|]. simpl.
  destruct (reevaluate_unconnected ip isValid s i Hu) as [H|H]; [left|by apply IH].
  clear IH Hu. revert H. generalize (reevaluate isValid s i). clear s.
  induction l as [|i' l IH]; intros s H; [done|]. simpl. by apply IH, reevaluate_keeps.
Qed.

Lemma reevaluate_all isValid l s :
  same_interfaces s (fold_left (reevaluate isValid) l s) /\
  forall ip, (current ip s \/ ip ∈ l /\ (isValid = false \/ is_Some (expected ip s))) ->
    current ip (fold_left (reevaluate isValid) l s).
Proof.
  revert s. induction l as [|i l IH]; intros s; simpl.
  - split; [done|]. intros ip [Hc|[Hi _]]; [done|by apply elem_of_nil in Hi].
  - destruct (IH (reevaluate isValid s i)) as [IHs IHc]. split.
    + etransitivity; [apply reevaluate_same|done].
    + intros ip Hip. apply IHc. destruct Hip as [Hc|[Hi Hv]]; [left; by apply reevaluate_keeps|].
      apply elem_of_cons in Hi as [<-|Hi]; [left; by apply reevaluate_current|right].
      split; [done|]. by rewrite (same_interfaces_expected ip s) by apply reevaluate_same.
Qed.

(** The prefix and the interface of an address event, before the evaluations *)
Section AddrEvent.
Variables (addr : IfAddress) (prefix : CIDRNetwork) (name : string) (s : NetlinkWrapper).
Hypothesis Hname : ifNameForIndex (addr_ifIndex addr) s = Some name.
Hypothesis Hprefix : addr_prefix addr = Some prefix.
Hypothesis Hok : addr_ok addr s.
Hypothesis Htable : table_ok s.

Let old := getOrCreateInterfaceEntry name s.
Variables (e : InterfaceEntry) (t' : InterfacePrefixTable).
Let after := set_prefixTable t' (put_interface name e s).

(** The interface stays up or down; the nodes and prefixes elsewhere stay as they are. *)
Hypothesis He : isUp_ e = isUp_ old.
Hypothesis elsewhere_node : forall n, ~ same_node prefix n -> exactMatch t' n = exactMatch (prefixTable_ s) n.
Hypothesis elsewhere_prefix : forall p, ~ same_node prefix p -> p ∈ prefixes_ old -> p ∈ prefixes_ e.
Hypothesis here_node : forall cs, exactMatch t' prefix = Some cs ->
  cs <> ∅ /\ forall a i, cs !! a = Some i -> i = addr_ifIndex addr /\ same_node (a, prefix.2) prefix /\
    (a, prefix.2) ∈ prefixes_ e.

Lemma addr_table : table_ok after.
Proof.
  intros n cs E. simpl in E. destruct (decide (same_node prefix n)) as [Hn|Hn].
  - rewrite <- (exactMatch_node t' prefix n Hn) in E. destruct (here_node _ E) as [Hne Hc].
    exists (addr_ifIndex addr). pose proof Hn as [Hlen _]. split; [done|intros a i Ha; by apply (Hc a i)|..].
    + intros a i Ha. rewrite <- Hlen. etransitivity; [|exact Hn]. by apply (Hc a i).
    + exists name, e. split; [exact Hname|]. split; [apply lookup_insert_eq|].
      intros a i Ha. rewrite <- Hlen. by apply (Hc a i).
  - rewrite elsewhere_node in E by done.
    destruct (Htable n cs E) as [idx [N1 N2 N3 (name' & e' & En & Ee & Hp)]].
    exists idx. split; [done..|]. exists name'. destruct (decide (name = name')) as [<-|Hne].
    + exists e. split; [exact En|]. split; [apply lookup_insert_eq|].
      intros a i Ha. apply elsewhere_prefix.
      * intros Hs. apply Hn. etransitivity; [exact Hs|]. by apply (N3 a i).
      * unfold old, getOrCreateInterfaceEntry. rewrite Ee. by apply (Hp a i).
    + exists e'. split; [exact En|]. split; [|done]. simpl. by rewrite lookup_insert_ne.
Qed.

Lemma addr_up n : isInterfaceUp n after = isInterfaceUp n s.
Proof.
  unfold isInterfaceUp, after. simpl. destruct (decide (name = n)) as [<-|Hne].
  - rewrite lookup_insert_eq, He. unfold old, getOrCreateInterfaceEntry. by destruct (interfaces_ s !! name).
  - by rewrite lookup_insert_ne.
Qed.

(** The covering interface changes only below the prefix, and only when a node of the
    table appears or disappears. *)
Lemma addr_expected ip :
  (forall m, 0 <= m <= uint 8 (bitCount ip) -> same_node prefix (ip, m) ->
     is_Some (exactMatch t' prefix) <-> is_Some (exactMatch (prefixTable_ s) prefix)) ->
  expected ip after = expected ip s.
Proof.
  intros Hip. unfold expected. change (prefixTable_ after) with t'.
  rewrite (covering_same (prefixTable_ s) t' ip).
  - destruct (coveringIfIndex ip (prefixTable_ s)) as [idx|]; [|done]. simpl. f_equal.
    change (ifNameForIndex idx after) with (ifNameForIndex idx s).
    destruct (ifNameForIndex idx s) as [n|]; [apply addr_up|done].
  - intros m Hm. destruct (decide (same_node prefix (ip, m))) as [Hn|Hn].
    + specialize (Hip m Hm Hn).
      rewrite <- (exactMatch_node t' _ _ Hn), <- (exactMatch_node (prefixTable_ s) _ _ Hn).
      destruct (exactMatch t' prefix) as [cs'|] eqn:E', (exactMatch (prefixTable_ s) prefix) as [cs|] eqn:E;
        [|by destruct (proj1 Hip ltac:(eauto))|by destruct (proj2 Hip ltac:(eauto))|done].
      destruct (here_node _ eq_refl) as [Hne Hc]. destruct (Htable _ _ E) as [idx [N1 N2 _ _]]. simpl. f_equal.
      rewrite (head_index cs' (addr_ifIndex addr)), (head_index cs (addr_ifIndex addr)); [done|done| |done|].
      * intros a i Ha. by apply (Hok prefix cs a i).
      * intros a i Ha. by apply (Hc a i).
    + by rewrite elsewhere_node.
Qed.

(** A registered next hop after the evaluations below the prefix *)
Lemma addr_evaluated isValid changed :
  (changed = false -> is_Some (exactMatch t' prefix) <-> is_Some (exactMatch (prefixTable_ s) prefix)) ->
  (isValid = true -> changed = true -> is_Some (exactMatch t' prefix)) ->
  carried s (if negb changed then after
              else fold_left (reevaluate isValid) (getRegisteredNexthopsInSubnet prefix (nexthopCache_ after)) after).
Proof.
  intros Hch Hval.
  assert (Hkeep : forall ip, current ip s -> expected ip after = expected ip s -> current ip after).
  { intros ip Hc E. unfold current. rewrite E. exact Hc. }
  destruct changed; simpl.
  - destruct (reevaluate_all isValid (getRegisteredNexthopsInSubnet prefix (nexthopCache_ s)) after)
      as [Hs Hcur]. split.
    + eapply table_ok_same; [exact Hs|apply addr_table].
    + destruct Hs as (_ & _ & _ & Hs). exact Hs.
    + intros ip Hr Hc. apply Hcur.
      destruct (decide (0 <= prefix.2 <= uint 8 (bitCount ip) /\ same_node prefix (ip, prefix.2)))
        as [[Hm Hn]|Hn].
      * right. split.
        -- destruct prefix as [a m]. apply elem_of_registered; [exact Hr|]. by symmetry.
        -- destruct isValid; [right|by left]. destruct (Hval eq_refl eq_refl) as [cs E].
           unfold expected. change (prefixTable_ after) with t'. unfold coveringIfIndex.
           destruct (longestMatch t' _) as [cs'|] eqn:L.
           ++ apply longestMatch_some in L as (m & _ & Em & _).
              destruct (addr_table (ip, m) cs' Em) as [idx [N1 N2 _ _]].
              simpl. rewrite (head_index cs' idx) by done. by eexists.
           ++ rewrite (exactMatch_node t' _ _ Hn), (longestMatch_none t' ip _ _ L Hm) in E. done.
      * left. apply Hkeep, addr_expected; [done|]. intros m Hm Hnode. exfalso. apply Hn.
        pose proof (proj1 Hnode) as Hlen. simpl in Hlen. rewrite Hlen. done.
    + intros ip Hu. by apply reevaluate_all_unconnected.
  - split; [apply addr_table|done| |by right]. intros ip Hr Hc.
    apply Hkeep, addr_expected; [done|]. intros m Hm Hn. by apply Hch.
Qed.
End AddrEvent.

Lemma addr_event_carried addr nbrs now s :
  addr_ok addr s -> table_ok s -> carried s (processIfAddressEvent addr nbrs now s).
Proof.
  intros Hok T. unfold processIfAddressEvent.
  destruct (ifNameForIndex (addr_ifIndex addr) s) as [name|] eqn:Hname; [|by apply carried_refl].
  destruct (addr_prefix addr) as [prefix|] eqn:Hprefix; [|by apply carried_refl].
  rewrite from_interfaces. cbn [negb]. set (old := getOrCreateInterfaceEntry name s).
  destruct (addr_isValid addr).
  - unfold tableAddPrefix. apply (addr_evaluated addr prefix name s); try done.
    + intros n Hn. rewrite exactMatch_set, decide_False by done. done.
    + intros p _ Hp. simpl. set_solver.
    + intros cs. rewrite exactMatch_set, decide_True by done. intros [= <-].
      split; [apply insert_non_empty|]. intros a i Ha. simpl.
      destruct (decide (prefix.1 = a)) as [<-|Hne].
      * rewrite lookup_insert_eq in Ha. injection Ha as <-. destruct prefix. split_and!; [done|done|set_solver].
      * rewrite lookup_insert_ne in Ha by done.
        destruct (exactMatch (prefixTable_ s) prefix) as [cs|] eqn:E; simpl in Ha;
          [|by rewrite lookup_empty in Ha]. destruct (T _ _ E) as [idx [N1 N2 N3 (name' & e' & En & Ee & Hp)]].
        pose proof (Hok _ _ _ _ Hprefix E Ha) as ->. pose proof (N2 _ _ Ha) as <-.
        assert (name' = name) as -> by congruence. split_and!; [done|by apply (N3 _ _ Ha)|].
        apply elem_of_union_r. unfold old, getOrCreateInterfaceEntry. rewrite Ee. by apply (Hp a _ Ha).
    + intros Hch. rewrite exactMatch_set, decide_True by done.
      destruct (exactMatch (prefixTable_ s) prefix); [|done]. split; eauto.
    + intros _ _. rewrite exactMatch_set, decide_True by done. eauto.
  - unfold tableRemovePrefix.
    destruct (exactMatch (prefixTable_ s) prefix) as [cs|] eqn:E;
      [case_bool_decide as Hempty|];
      apply (addr_evaluated addr prefix name s); try done.
    + intros n Hn. rewrite exactMatch_erase, decide_False by done. done.
    + intros p Hn Hp. simpl. apply elem_of_difference. split; [done|].
      rewrite elem_of_singleton. by intros ->.
    + intros cs'. rewrite exactMatch_erase, decide_True by done. done.
    + intros n Hn. rewrite exactMatch_set, decide_False by done. done.
    + intros p Hn Hp. simpl. apply elem_of_difference. split; [done|].
      rewrite elem_of_singleton. by intros ->.
    + intros cs'. rewrite exactMatch_set, decide_True by done. intros [= <-]. split; [done|].
      intros a i [Hne Ha]%lookup_delete_Some.
      destruct (T _ _ E) as [idx [N1 N2 N3 (name' & e' & En & Ee & Hp)]].
      pose proof (Hok _ _ _ _ Hprefix E Ha) as ->. pose proof (N2 _ _ Ha) as <-.
      assert (name' = name) as -> by congruence. split_and!; [done|by apply (N3 _ _ Ha)|].
      simpl. apply elem_of_difference. split.
      * unfold old, getOrCreateInterfaceEntry. rewrite Ee. by apply (Hp a _ Ha).
      * rewrite elem_of_singleton. intros Heq. apply Hne. by rewrite <- Heq.
    + intros _. rewrite exactMatch_set, decide_True by done. rewrite E. split; eauto.
    + intros p Hn Hp. simpl. apply elem_of_difference. split; [done|].
      rewrite elem_of_singleton. by intros ->.
    + intros cs'. rewrite E. done.
Qed.

(** ** Runs *)

(** The RIB's registration of a next hop, and its end, on the shared cache; the first
    says whether the hook [onNexthopRegistered_] is called. *)
Definition registerOn (ip : IPAddress) s : bool * NetlinkWrapper :=
  let '(_, needsResolution, c) := registerAndGetNexthopStatus ip (nexthopCache_ s) in
  (needsResolution, set_cache c (netlinkRibInQ_ s) s).
Definition unregisterOn (ip : IPAddress) s : NetlinkWrapper :=
  set_cache (unregisterAndRemoveNexthopStatus ip (nexthopCache_ s)).2 (netlinkRibInQ_ s) s.

(** The events of the kernel, the calls of the RIB thread, and the tasks the hook puts
    on the fiber *)
Inductive NetlinkEvent :=
| EvLink (link : Link) (clk : Clock)
| EvIfAddress (addr : IfAddress) (nbrs : option (list Neighbor)) (now : Z)
| EvNeighbor (nbr : Neighbor) (now : Z)
| EvRegister (nexthopIp : IPAddress)
| EvUnregister (nexthopIp : IPAddress)
| EvTask.

(** The wrapper and the evaluations the hook has asked for; [tk_kept] records the next
    hops that were registered on a status the cache had kept from before, and that no
    task has found covered by an interface since. *)
Record Tracker := mkTracker {
  tk_wrapper : NetlinkWrapper;
  tk_tasks : list IPAddress;
  tk_kept : gset IPAddress
}.

Definition kernelEvent (ev : NetlinkEvent) s : NetlinkWrapper :=
  match ev with
  | EvLink link clk => processLinkEvent link clk s
  | EvIfAddress addr nbrs now => processIfAddressEvent addr nbrs now s
  | EvNeighbor nbr now => processNeighborEvent nbr now s
  | _ => s
  end.

Definition processEvent (ev : NetlinkEvent) (k : Tracker) : Tracker :=
  let '(mkTracker s tasks kept) := k in
  match ev with
  | EvRegister ip =>
      let '(hook, s') := registerOn ip s in
      mkTracker s' (if hook then tasks ++ [ip] else tasks)
        (match findStatus ip (nexthopCache_ s) with Some (_, false) => {[ip]} ∪ kept | _ => kept end)
  | EvUnregister ip => mkTracker (unregisterOn ip s) tasks (kept ∖ {[ip]})
  | EvTask =>
      match tasks with
      | [] => k
      | ip :: tasks =>
          let '(covered, s') := evaluateNexthop ip s in
          mkTracker s' tasks (if covered then kept ∖ {[ip]} else kept)
      end
  | _ => mkTracker (kernelEvent ev s) tasks kept
  end.

Definition event_ok (ev : NetlinkEvent) s : Prop :=
  match ev with
  | EvLink link _ => link_ok link s
  | EvIfAddress addr _ _ => addr_ok addr s
  | _ => True
  end.

Fixpoint processEvents (evs : list NetlinkEvent) (k : Tracker) : Tracker :=
  match evs with [] => k | ev :: evs => processEvents evs (processEvent ev k) end.

Fixpoint events_ok (evs : list NetlinkEvent) (k : Tracker) : Prop :=
  match evs with
  | [] => True
  | ev :: evs => event_ok ev (tk_wrapper k) /\ events_ok evs (processEvent ev k)
  end.

(** A registered next hop whose status is not a kept one is up to date, or waits for its
    evaluation and is not marked as connected. *)
Definition tracked (ip : IPAddress) (k : Tracker) : Prop :=
  cacheIsRegistered ip (nexthopCache_ (tk_wrapper k)) = true -> ip ∉ tk_kept k ->
  current ip (tk_wrapper k) \/ ip ∈ tk_tasks k /\ unconnected ip (tk_wrapper k).

Lemma kernel_carried ev s : event_ok ev s -> table_ok s -> carried s (kernelEvent ev s).
Proof.
  intros Hok T. destruct ev; simpl.
  - by apply link_event_carried.
  - by apply addr_event_carried.
  - unfold processNeighborEvent. rewrite from_interfaces. by apply carried_refl.
  - by apply carried_refl.
  - by apply carried_refl.
  - by apply carried_refl.
Qed.

Lemma kernel_tracked ip ev s tasks kept : event_ok ev s -> table_ok s -> tracked ip (mkTracker s tasks kept) ->
  tracked ip (mkTracker (kernelEvent ev s) tasks kept).
Proof.
  intros Hok T Htr. destruct (kernel_carried ev s Hok T) as [_ Hr Hc Hu].
  unfold tracked in *. simpl in *. rewrite Hr. intros Hreg Hk.
  destruct (Htr Hreg Hk) as [H|[Ht H]]; [left; by apply Hc|].
  destruct (Hu ip H) as [|]; [by left|by right].
Qed.

(** Only the entry of the next hop itself changes. *)
Lemma register_find ip ip' s : ip <> ip' ->
  findStatus ip (nexthopCache_ (registerOn ip' s).2) = findStatus ip (nexthopCache_ s).
Proof.
  intros Hne. unfold registerOn, registerAndGetNexthopStatus, findStatus.
  destruct (nexthopStatusMap_ _ !! ip') as [[st r]|]; simpl; by rewrite lookup_insert_ne.
Qed.

Lemma unregister_find ip ip' s : ip <> ip' ->
  findStatus ip (nexthopCache_ (unregisterOn ip' s)) = findStatus ip (nexthopCache_ s).
Proof.
  intros Hne. unfold unregisterOn, unregisterAndRemoveNexthopStatus, findStatus.
  destruct (nexthopStatusMap_ _ !! ip') as [[st r]|] eqn:E; [|done]. case_match; simpl.
  - by rewrite lookup_delete_ne.
  - by rewrite lookup_insert_ne.
Qed.

(** What a change of the cache alone leaves of [current] and [unconnected]. *)
Lemma cache_status_same ip c q s : statusOf ip c = statusOf ip (nexthopCache_ s) ->
  (current ip s -> current ip (set_cache c q s)) /\ (unconnected ip s -> unconnected ip (set_cache c q s)).
Proof.
  intros E. unfold current, unconnected. change (expected ip (set_cache c q s)) with (expected ip s).
  change (nexthopCache_ (set_cache c q s)) with c. by rewrite E.
Qed.

Lemma register_tracked ip ip' k : tracked ip k -> tracked ip (processEvent (EvRegister ip') k).
Proof.
  destruct k as [s tasks kept]. unfold tracked. simpl. intros Htr.
  destruct (decide (ip = ip')) as [<-|Hne].
  - unfold registerOn, registerAndGetNexthopStatus, cacheIsRegistered in *.
    destruct (findStatus ip (nexthopCache_ s)) as [[st r]|] eqn:E; simpl.
    + assert (Est : statusOf ip (setStatusMap (<[ip := (st, true)]> (nexthopStatusMap_ (nexthopCache_ s)))
          (nexthopCache_ s)) = statusOf ip (nexthopCache_ s)).
      { unfold statusOf, getNexthopStatus. rewrite E. unfold findStatus. simpl. by rewrite lookup_insert_eq. }
      intros _ Hk. destruct r; [|set_solver].
      destruct (cache_status_same ip _ (netlinkRibInQ_ s) s Est) as [Hc Hu].
      destruct (Htr eq_refl Hk) as [H|[Ht H]]; [left; by apply Hc|right]. split; [|by apply Hu].
      case_match; [apply elem_of_app; by left|done].
    + intros _ _. right. split; [apply elem_of_app; right; by apply list_elem_of_singleton|].
      intros st0. unfold statusOf, getNexthopStatus, findStatus. simpl. rewrite lookup_insert_eq.
      by intros [= <-].
  - pose proof (register_find ip ip' s Hne) as Ef.
    assert (Hk' : forall k0 : gset IPAddress, ip ∉ match findStatus ip' (nexthopCache_ s) with
      | Some (_, false) => {[ip']} ∪ k0 | _ => k0 end -> ip ∉ k0).
    { intros k0. destruct (findStatus ip' _) as [[? []]|]; set_solver. }
    unfold registerOn in *. destruct (registerAndGetNexthopStatus ip' (nexthopCache_ s)) as [[st hook] c].
    simpl in *. unfold cacheIsRegistered in *. rewrite Ef. intros Hreg Hk%Hk'.
    destruct (cache_status_same ip c (netlinkRibInQ_ s) s) as [Hc Hu];
      [unfold statusOf, getNexthopStatus; by rewrite Ef|].
    destruct (Htr Hreg Hk) as [H|[Ht H]]; [left; by apply Hc|right]. split; [|by apply Hu].
    destruct hook; [apply elem_of_app; by left|done].
Qed.

Lemma unregister_tracked ip ip' k : tracked ip k -> tracked ip (processEvent (EvUnregister ip') k).
Proof.
  destruct k as [s tasks kept]. unfold tracked. cbn [processEvent tk_wrapper tk_tasks tk_kept]. intros Htr.
  destruct (decide (ip = ip')) as [<-|Hne].
  - intros Hreg. exfalso. revert Hreg. unfold cacheIsRegistered, unregisterOn, unregisterAndRemoveNexthopStatus.
    destruct (findStatus ip (nexthopCache_ s)) as [[st r]|] eqn:E; [|simpl; by rewrite E].
    destruct (negb (ns_isReachable st)); unfold findStatus; simpl;
      [by rewrite lookup_delete_eq|by rewrite lookup_insert_eq].
  - pose proof (unregister_find ip ip' s Hne) as Ef. unfold cacheIsRegistered in *. rewrite Ef.
    intros Hreg Hk. destruct (cache_status_same ip (unregisterAndRemoveNexthopStatus ip' (nexthopCache_ s)).2
      (netlinkRibInQ_ s) s) as [Hc Hu]; [unfold statusOf, getNexthopStatus; by rewrite <- Ef|].
    destruct (Htr Hreg ltac:(set_solver)) as [H|[Ht H]]; [left; by apply Hc|right; by split; [|apply Hu]].
Qed.

Lemma task_tracked ip k : tracked ip k -> tracked ip (processEvent EvTask k).
Proof.
  destruct k as [s [|ip' tasks] kept]; [done|]. unfold tracked. simpl. intros Htr.
  pose proof (evaluate_same ip' s) as (_ & _ & _ & Hreg). pose proof (evaluate_current ip' s) as Hcur.
  pose proof (evaluate_covered ip' s) as Hcov. pose proof (evaluate_keeps ip ip' s) as Hkeep.
  pose proof (evaluate_unconnected ip ip' s) as Hun. pose proof (evaluate_same ip' s) as Hsame.
  destruct (evaluateNexthop ip' s) as [covered s']. simpl in *. rewrite Hreg. intros Hr Hk.
  destruct (decide (ip = ip')) as [<-|Hne].
  - left. destruct covered; [by apply Hcur|]. symmetry in Hcov. apply bool_decide_eq_false in Hcov.
    assert (En : expected ip s' = None).
    { rewrite (same_interfaces_expected ip s s' Hsame). destruct (expected ip s); [by destruct Hcov|done]. }
    destruct (Htr Hr Hk) as [H|[_ H]]; [by apply Hkeep|].
    destruct (Hun H) as [|]; [done|by apply unconnected_uncovered].
  - destruct (Htr Hr) as [H|[Ht H]]; [destruct covered; set_solver|left; by apply Hkeep|].
    destruct (Hun H) as [|Hu]; [by left|right]. split; [|done]. by apply elem_of_cons in Ht as [|].
Qed.

Lemma event_tracked ev k : event_ok ev (tk_wrapper k) -> table_ok (tk_wrapper k) ->
  (forall ip, tracked ip k) ->
  table_ok (tk_wrapper (processEvent ev k)) /\ forall ip, tracked ip (processEvent ev k).
Proof.
  intros Hok T Htr. pose proof (kernel_carried ev _ Hok T) as [HT _ _ _].
  assert (Hset : forall c q, table_ok (set_cache c q (tk_wrapper k)))
    by (intros c q n cs E; destruct (T n cs E) as [idx [? ? ? ?]]; by exists idx).
  split.
  - destruct k as [s tasks kept], ev; simpl in *; try done.
    + unfold registerOn. destruct (registerAndGetNexthopStatus _ _) as [[? ?] c]. apply Hset.
    + apply Hset.
    + destruct tasks as [|ip tasks]; [done|]. pose proof (evaluate_same ip s) as Hs.
      destruct (evaluateNexthop ip s) as [covered s']. by eapply table_ok_same.
  - intros ip. destruct ev; [| | |by apply register_tracked|by apply unregister_tracked|by apply task_tracked];
      destruct k as [s tasks kept]; by apply (kernel_tracked ip _ s tasks kept).
Qed.

Lemma run_tracked evs : forall k, events_ok evs k -> table_ok (tk_wrapper k) -> (forall ip, tracked ip k) ->
  forall ip, tracked ip (processEvents evs k).
Proof.
  induction evs as [|ev evs IH]; intros k Hok T Htr; [done|]. destruct Hok as [H1 H2].
  destruct (event_tracked ev k H1 T Htr). by apply IH.
Qed.

(** Nothing is registered and no prefix of an interface is known. *)
Definition emptyTracker s : Prop := prefixTable_ s = rt_empty /\ nexthopCache_ s = newNexthopCache.

(** C18. On the interface-state path, from an empty cache and prefix table and through
    every sequence of link, address and neighbour events, registrations and
    unregistrations by the RIB and evaluations asked for by the registration hook, in
    which interfaces keep their names and a subnet is configured on one interface:
    a next hop that is registered, whose evaluations have run, and that was not
    registered on a status kept in the cache from before (unless a task has found it
    covered since), is up to date: while a prefix of an interface covers it the cache says
    that it is reachable exactly when the interface of the longest such prefix is up, and
    while none does it is not marked connected, so that other sources can speak for it. *)
Theorem nexthop_follows_interface ip evs s :
  emptyTracker s -> events_ok evs (mkTracker s [] ∅) ->
  let k := processEvents evs (mkTracker s [] ∅) in
  cacheIsRegistered ip (nexthopCache_ (tk_wrapper k)) = true -> ip ∉ tk_tasks k -> ip ∉ tk_kept k ->
  current ip (tk_wrapper k).
Proof.
  intros [Ht Hc] Hok k Hr Htasks Hkept.
  destruct (run_tracked evs (mkTracker s [] ∅) Hok) with (ip := ip) as [H|[H _]]; try done.
  - intros n cs. simpl. rewrite Ht, exactMatch_empty. done.
  - intros ip'. unfold tracked. simpl. by rewrite Hc.
Qed.
End NetlinkSpec.

(** ** The neighbour path *)

Section Publication.
Context {F : FollyOps} {R : RadixOps} {NC : NetlinkConfig}.

Lemma published_once now e ip b :
  ipReachabilityMap_ e !! ip = Some b ->
  filter (fun x : CachedStatus => ns_nexthop x = ip) (map publishedStatus (forEachPublishedReachability now e)) =
  [publishedStatus (ip, b && canUseLink now e)].
Proof.
  intros E. unfold forEachPublishedReachability.
  assert (Hin : (ip, b) ∈ map_to_list (ipReachabilityMap_ e)) by by apply elem_of_map_to_list.
  pose proof (NoDup_fst_map_to_list (ipReachabilityMap_ e)) as Hnd.
  revert Hin Hnd. generalize (map_to_list (ipReachabilityMap_ e)) as l. clear E.
  induction l as [|[ip' b'] l IH]; intros Hin Hnd; [by apply elem_of_nil in Hin|].
  apply NoDup_cons in Hnd as [Hni Hnd]. simpl map. rewrite filter_cons.
  apply elem_of_cons in Hin as [[= <- <-]|Hin].
  - rewrite decide_True by done. f_equal. apply list_filter_none, Forall_forall. intros x Hx.
    apply list_elem_of_In, in_map_iff in Hx as ([i r] & <- & Hx).
    apply in_map_iff in Hx as ([i' r'] & [= <- <-] & Hx). simpl. intros ->. apply Hni.
    apply list_elem_of_In, in_map_iff. by exists (ip, r').
  - rewrite decide_False; [by apply IH|]. simpl. intros ->. apply Hni.
    apply list_elem_of_In, in_map_iff. exists (ip, b). split; [done|]. by apply list_elem_of_In.
Qed.

(** A publication leaves every address of the interface in the cache as reachable as its
    neighbour, the link and the hold say. *)
Lemma publication_agrees e now s ip :
  is_Some (ipReachabilityMap_ e !! ip) ->
  exists st, statusOf ip (nexthopCache_ (publishInterface e now s)) = Some st /\
    ns_isReachable st = entryIsReachable ip now e.
Proof.
  intros [b E]. unfold publishInterface. simpl.
  pose proof (published_once now e ip b E) as Hp.
  destruct (map publishedStatus (forEachPublishedReachability now e)) as [|x l] eqn:El; [done|].
  unfold publishStatusesWithFiberContext. cbn [nonempty negb].
  change (exists st, statusOf ip (nexthopCache_ (updateCacheAndNotifyRib (x :: l) s)) = Some st /\
    ns_isReachable st = entryIsReachable ip now e).
  rewrite updateCache_status, Hp. cbn [fold_left].
  edestruct accepts_connected as (st & Est & Er & _);
    [|exists st; split; [exact Est|rewrite Er; unfold entryIsReachable; by rewrite E]]. done.
Qed.
End Publication.
