(* ===== verification/NetlinkExamples.v ===== *)
(** * Next hops from the interfaces: samples

    A prefix tree for the samples, the theorems of NetlinkSpec.v applied to an interface
    that goes down, and runs after which the cache says of a next hop what no source
    says any more. *)

From stdpp Require Import gmap strings fin_sets.
From S2P Require Import Prelude BgpException Folly BgpStructs RouteFilter RouteInfo RibEntry.
From S2P Require Import NexthopCache InterfaceEntry NetlinkWrapper NetlinkSpec.

(** ** A prefix tree *)

Definition node_key (n : CIDRNetwork) : CIDRNetwork := (@ip_mask folly_model n.1 n.2, n.2).

Fixpoint longestFrom {V} (t : gmap CIDRNetwork V) (a : IPAddress) (n : nat) : option V :=
  match t !! node_key (a, Z.of_nat n) with
  | Some v => Some v
  | None => match n with O => None | S n => longestFrom t a n end
  end.

#[export] Instance map_radix : RadixOps := {|
  rtree V := gmap CIDRNetwork V;
  rt_empty V := ∅;
  exactMatch V t n := t !! node_key n;
  rt_set V n v t := <[node_key n := v]> t;
  rt_erase V n t := delete (node_key n) t;
  longestMatch V t n := if n.2 <? 0 then None else longestFrom t n.1 (Z.to_nat n.2)
|}.

Lemma same_node_key a b : @same_node folly_model a b <-> node_key a = node_key b.
Proof.
  unfold same_node, node_key. split.
  - intros [E1 E2]. congruence.
  - intros E. by split; [apply (f_equal snd E)|apply (f_equal fst E)].
Qed.

Lemma longestFrom_some {V} (t : gmap CIDRNetwork V) a n v :
  longestFrom t a n = Some v ->
  exists m, 0 <= m <= Z.of_nat n /\ t !! node_key (a, m) = Some v /\
    forall m', m < m' <= Z.of_nat n -> t !! node_key (a, m') = None.
Proof.
  induction n as [|n IH]; cbn [longestFrom]; intros E.
  - destruct (t !! node_key (a, Z.of_nat 0)) as [w|] eqn:Ew; [|done]. injection E as ->.
    exists 0. split_and!; [lia|lia|done|lia].
  - destruct (t !! node_key (a, Z.of_nat (S n))) as [w|] eqn:Ew.
    + injection E as ->. exists (Z.of_nat (S n)). split_and!; [lia|lia|done|lia].
    + destruct (IH E) as (m & Hm & Em & Um). exists m. split_and!; [lia|lia|done|].
      intros m' Hm'. destruct (Z.eq_dec m' (Z.of_nat (S n))) as [->|]; [done|]. apply Um. lia.
Qed.

Lemma longestFrom_none {V} (t : gmap CIDRNetwork V) a n m :
  longestFrom t a n = None -> 0 <= m <= Z.of_nat n -> t !! node_key (a, m) = None.
Proof.
  induction n as [|n IH]; cbn [longestFrom]; intros E Hm.
  - destruct (t !! node_key (a, Z.of_nat 0)) as [w|] eqn:Ew; [done|].
    by replace m with (Z.of_nat 0) by lia.
  - destruct (t !! node_key (a, Z.of_nat (S n))) as [w|] eqn:Ew; [done|].
    destruct (Z.eq_dec m (Z.of_nat (S n))) as [->|]; [done|]. apply IH; [done|lia].
Qed.

#[export] Instance map_radix_laws : RadixLaws folly_model map_radix.
Proof.
  split; intros V.
  - intros n. apply lookup_empty.
  - intros t n n' Hn%same_node_key. simpl. by rewrite Hn.
  - intros t n n' v. simpl. rewrite lookup_insert.
    destruct (decide (same_node n n')) as [Hn%same_node_key|Hn]; [by rewrite decide_True|].
    rewrite decide_False; [done|]. by rewrite <- same_node_key.
  - intros t n n'. simpl. rewrite lookup_delete.
    destruct (decide (same_node n n')) as [Hn%same_node_key|Hn]; [by rewrite decide_True|].
    rewrite decide_False; [done|]. by rewrite <- same_node_key.
  - intros t a n v. simpl. destruct (Z.ltb_spec n 0); [done|]. intros E%longestFrom_some.
    by rewrite Z2Nat.id in E.
  - intros t a n m. simpl. destruct (Z.ltb_spec n 0); [lia|]. intros E Hm.
    eapply longestFrom_none; [done|]. by rewrite Z2Nat.id.
Qed.

#[export] Instance map_subnet : SubnetOps := {|
  inSubnet ip a m := bool_decide (isV4 ip = isV4 a) && bool_decide (node_key (ip, m) = node_key (a, m))
|}.

#[export] Instance map_subnet_laws : @SubnetLaws folly_model map_subnet.
Proof.
  intros ip a m Hn. assert (isV4 ip = isV4 a) as Hv.
  { destruct Hn as [_ Hm]. by destruct ip, a. }
  split; [done|]. simpl. rewrite !bool_decide_eq_true_2; [done|by apply same_node_key|done].
Qed.

(** ** An interface that goes down *)

Definition interface_state_config : NetlinkConfig := {|
  resolve_from_interface_state := true; configured_dampening := false;
  isIfNameRegexMatch name := bool_decide (name = "po1") |}.
Definition neighbor_config : NetlinkConfig := {|
  resolve_from_interface_state := false; configured_dampening := true;
  isIfNameRegexMatch name := bool_decide (name = "po1") |}.

Definition newNetlink : NetlinkWrapper :=
  mkNetlink ∅ ∅ rt_empty newNexthopCache [] [] 0 (200, 1000) None.

Definition ten_host (d : Z) : IPAddress := IPV4 [10; 0; 0; d].
Definition ten_addr (isValid : bool) : IfAddress := mkIfAddress 7 (Some (ten_host 0, 31)) isValid.
Definition po1 (isUp : bool) : Link := mkLink "po1" 7 isUp.
Definition at_ms (n : Z) : Clock := mkClock (ms n) (ms n) (ms n).

Definition reachableIn (ip : IPAddress) (s : NetlinkWrapper) : option bool :=
  ns_isReachable <$> statusOf ip (nexthopCache_ s).

Section InterfaceState.
#[local] Existing Instance interface_state_config.
#[local] Existing Instance folly_model.

(** The interface is up and covers the next hop, which the RIB has registered. *)
Definition po1_up : NetlinkWrapper :=
  processIfAddressEvent (ten_addr true) None 0 (processLinkEvent (po1 true) (at_ms 0) newNetlink).
Definition po1_tracked : NetlinkWrapper := (evaluateNexthop (ten_host 1) (registerOn (ten_host 1) po1_up).2).2.

Example po1_tracked_reachable :
  (registerOn (ten_host 1) po1_up).1 = true /\ reachableIn (ten_host 1) po1_tracked = Some true /\
  reachableIn (ten_host 1) (processLinkEvent (po1 false) (at_ms 1) po1_tracked) = Some false.
Proof. vm_compute. done. Qed.

(** The RIB registers the next hop and the hook asks for its evaluation, which runs
    after the interface has got its address; the link then goes down.  A second next hop
    is registered, unregistered and registered again. *)
Definition po1_events : list NetlinkEvent :=
  [EvLink (po1 true) (at_ms 0); EvRegister (ten_host 1); EvRegister (ten_host 9);
   EvIfAddress (ten_addr true) None 0; EvTask; EvTask; EvUnregister (ten_host 9);
   EvRegister (ten_host 9); EvLink (po1 false) (at_ms 1)].

Lemma nexthop_follows_interface_witness :
  let k := processEvents po1_events (mkTracker newNetlink [] ∅) in
  expected (ten_host 1) (tk_wrapper k) = Some false /\ tk_tasks k = [ten_host 9] /\
  current (ten_host 1) (tk_wrapper k).
Proof.
  split; [by vm_compute|]. split; [by vm_compute|].
  apply (nexthop_follows_interface (NC := interface_state_config) eq_refl (ten_host 1) po1_events newNetlink).
  - done.
  - cbn [events_ok po1_events event_ok]. split_and!; [..|done]; try exact I.
    + intros name E. vm_compute in E. done.
    + intros prefix cs a i _ E. vm_compute in E. done.
    + intros name E. vm_compute in E. by injection E as <-.
  - by vm_compute.
  - apply (bool_decide_unpack _). by vm_compute.
  - apply (bool_decide_unpack _). by vm_compute.
Defined.

(** A next hop that no route uses keeps its status while it is reachable.  The link goes
    down unnoticed, as only registered next hops are evaluated, and the next registration
    is answered from the cache: the next hop is reachable and has a cost, so the hook that
    would evaluate it is not called. *)
Lemma reregistered_nexthop_is_stale :
  let unused := unregisterOn (ten_host 1) po1_tracked in
  let down := processLinkEvent (po1 false) (at_ms 1) unused in
  let '(evaluated, again) := registerOn (ten_host 1) down in
  evaluated = false /\ reachableIn (ten_host 1) again = Some true /\
  expected (ten_host 1) again = Some false.
Proof. vm_compute. done. Qed.
End InterfaceState.

Section NeighborState.
#[local] Existing Instance neighbor_config.
#[local] Existing Instance folly_model.

(** The neighbour is resolved and the link is up. *)
Definition po1_neighbor : NetlinkWrapper :=
  processNeighborEvent (mkNeighbor 7 (ten_host 1) true) (ms 2)
    (processIfAddressEvent (ten_addr true) (Some []) (ms 1) (processLinkEvent (po1 true) (at_ms 0) newNetlink)).

(** After the address is removed from the interface, the next hop is no longer tracked,
    and the last event of its neighbour is dropped: the cache says that it is reachable
    and connected, and so refuses what the FIB says of it. *)
Lemma removed_address_stays_reachable :
  let removed := processIfAddressEvent (ten_addr false) (Some []) (ms 3) po1_neighbor in
  let gone := processNeighborEvent (mkNeighbor 7 (ten_host 1) false) (ms 4) removed in
  let told := updateCacheAndNotifyRib [newCachedStatus (ten_host 1) false None (Some false) true None] gone in
  reachableIn (ten_host 1) po1_neighbor = Some true /\
  (entryIsReachable (ten_host 1) (ms 4) <$> interfaces_ gone !! "po1") = Some false /\
  reachableIn (ten_host 1) gone = Some true /\ reachableIn (ten_host 1) told = Some true.
Proof.
  vm_compute. done.
Qed.

(** A status that only tells the source is dropped: the next hop that the FIB reported
    first does not become a connected one, and the FIB can take it away from the
    interfaces that reach it. *)
Lemma connected_source_not_recorded :
  let from_fib r := newCachedStatus (ten_host 1) r (Some 1) (Some false) true None in
  let c1 := (addOrUpdateNextHopStatus [from_fib true] newNexthopCache).2 in
  let c2 := (addOrUpdateNextHopStatus [publishedStatus (ten_host 1, true)] c1).2 in
  let c3 := (addOrUpdateNextHopStatus [from_fib false] c2).2 in
  ns_isConnected <$> statusOf (ten_host 1) c2 = Some (Some false) /\
  ns_isReachable <$> statusOf (ten_host 1) c3 = Some false.
Proof. vm_compute. done. Qed.

(** While the publication of an ended hold waits for room in a queue, the link can go down
    and come up again.  The release then removes the new hold, which has not ended. *)
Definition po1_held : NetlinkWrapper :=
  processLinkEvent (po1 true) (at_ms 101) (processLinkEvent (po1 false) (at_ms 100)
    (processIfAddressEvent (ten_addr true) (Some []) (ms 1)
       (processLinkEvent (po1 true) (at_ms 0) newNetlink))).

Lemma release_removes_new_hold :
  let '(state, publishing) := publishEndedHolds (ms 300) po1_held in
  let flapped := processLinkEvent (po1 true) (at_ms 302) (processLinkEvent (po1 false) (at_ms 301) publishing) in
  (holdEndTime_ <$> interfaces_ flapped !! "po1") = Some (Some (ms 701)) /\
  (holdEndTime_ <$> interfaces_ (removeEndedHolds state flapped) !! "po1") = Some None.
Proof. vm_compute. done. Qed.
End NeighborState.
