(* ===== verification/RibNexthop.v ===== *)
(** * The next hops of the RIB

    nexthopTracker/NexthopInfo.h and the next hop part of rib/RibBase.cpp: the RIB
    registers each next hop of its routes with the cache, keeps a [NexthopInfo] for it,
    and takes the cache's status again when an update names it.  Writers of the cache run
    in other threads; the theorems are about every interleaving of their writes, of the
    messages on their way and of the RIB's own steps. *)

From stdpp Require Import gmap strings fin_sets.
From S2P Require Import Prelude BgpException Folly BgpStructs RouteFilter RouteInfo RibEntry.
From S2P Require Import AdjRibCommon MapSum NexthopCache.

(** ** NexthopInfo *)

(** The association list of a [NexthopInfo] is [hp_assoc] of the store of routes. *)
Record NexthopInfo := mkNexthopInfo {
  ni_status : CachedStatus;
  ni_lastReachabilityChangeTs : option Z;
  ni_lastIgpCostChangeTs : option Z
}.

Definition newNexthopInfo (now : Z) (status : CachedStatus) : NexthopInfo :=
  mkNexthopInfo status (if ns_isReachable status then Some now else None)
    (match ns_igpCost status with Some _ => Some now | None => None end).

Definition updateStatus (now : Z) (status : CachedStatus) (i : NexthopInfo) : NexthopInfo :=
  mkNexthopInfo status
    (if xorb (ns_isReachable (ni_status i)) (ns_isReachable status) then Some now
     else ni_lastReachabilityChangeTs i)
    (if bool_decide (ns_igpCost (ni_status i) = ns_igpCost status) then ni_lastIgpCostChangeTs i
     else Some now).

(** ** The next hop part of the RIB *)

Record NexthopTable := mkNexthopTable {
  nexthopInfoMap_ : gmap IPAddress ptr;        (** the addresses of the [NexthopInfo]s *)
  nt_infos : ptr -> NexthopInfo;
  nt_next : ptr;                               (** the next one to be allocated *)
  nt_cache : NexthopCache;
  unresolvableNexthops_ : Z;                   (** uint64_t, of [RibCounters] *)
  requestedNexthops_ : gset IPAddress;
  pendingNexthopSubscriptions_ : list IPAddress;
  nt_hooked : list IPAddress                   (** the calls of [onNexthopRegistered_] *)
}.

Definition newNexthopTable (c : NexthopCache) : NexthopTable :=
  mkNexthopTable ∅ (fun _ => newNexthopInfo 0 (newCachedStatus IPUnset false None None true None))
    1%positive c 0 ∅ [] [].

Definition nt_set_cache (c : NexthopCache) (t : NexthopTable) : NexthopTable :=
  mkNexthopTable (nexthopInfoMap_ t) (nt_infos t) (nt_next t) c (unresolvableNexthops_ t)
    (requestedNexthops_ t) (pendingNexthopSubscriptions_ t) (nt_hooked t).

Definition findNexthopInfo (ip : IPAddress) (t : NexthopTable) : option ptr := nexthopInfoMap_ t !! ip.

Definition infoStatus (p : ptr) (t : NexthopTable) : CachedStatus := ni_status (nt_infos t p).

(** [getNexthopInfo]; [requester]: [nexthopSubscribeRequester_] is set *)
Definition getNexthopInfo (requester : bool) (now : Z) (nexthop : IPAddress) (t : NexthopTable)
    : option ptr * NexthopTable :=
  if ip_isZero nexthop then (None, t)
  else
  match findNexthopInfo nexthop t with
  | Some p => (Some p, t)
  | None =>
      let '(nextHopStatus, needsResolution, c) := registerAndGetNexthopStatus nexthop (nt_cache t) in
      let p := nt_next t in
      let first := requester && negb (bool_decide (nexthop ∈ requestedNexthops_ t)) in
      (Some p,
       mkNexthopTable (<[nexthop := p]> (nexthopInfoMap_ t))
         (upd (nt_infos t) p (newNexthopInfo now nextHopStatus)) (Pos.succ p) c
         (if ns_isResolvedForSelection nextHopStatus then unresolvableNexthops_ t
          else uint 64 (unresolvableNexthops_ t + 1))
         (if requester then {[nexthop]} ∪ requestedNexthops_ t else requestedNexthops_ t)
         (if first then pendingNexthopSubscriptions_ t ++ [nexthop] else pendingNexthopSubscriptions_ t)
         (if needsResolution then nt_hooked t ++ [nexthop] else nt_hooked t))
  end.

(** The subscriptions requested, if any *)
Definition maybeFlushNexthopSubscriptions (t : NexthopTable) : list IPAddress * NexthopTable :=
  (pendingNexthopSubscriptions_ t,
   mkNexthopTable (nexthopInfoMap_ t) (nt_infos t) (nt_next t) (nt_cache t) (unresolvableNexthops_ t)
     (requestedNexthops_ t) [] (nt_hooked t)).

Definition deleteNexthopInfo (nexthop : IPAddress) (p : ptr) (t : NexthopTable) : NexthopTable :=
  mkNexthopTable (delete nexthop (nexthopInfoMap_ t)) (nt_infos t) (nt_next t)
    (unregisterAndRemoveNexthopStatus nexthop (nt_cache t)).2
    (if ns_isResolvedForSelection (infoStatus p t) then unresolvableNexthops_ t
     else uint 64 (unresolvableNexthops_ t - 1))
    (requestedNexthops_ t) (pendingNexthopSubscriptions_ t) (nt_hooked t).

(** [isRouteInfoListEmpty] *)
Definition isRouteInfoListEmpty (p : ptr) (w : Heap) : bool := negb (nonempty (hp_assoc w p)).

(** [batching]: [fibBatchList_] is not empty *)
Definition checkAndDeleteNexthopInfo (nexthop : IPAddress) (batching : bool) (w : Heap)
    (t : NexthopTable) : bool * NexthopTable :=
  match findNexthopInfo nexthop t with
  | None => (false, t)
  | Some p =>
      if negb (isRouteInfoListEmpty p w) || batching then (false, t)
      else (true, deleteNexthopInfo nexthop p t)
  end.

Definition deleteUnusedNexthopInfos (w : Heap) (t : NexthopTable) : NexthopTable :=
  fold_left (fun t '(nexthop, p) => if isRouteInfoListEmpty p w then deleteNexthopInfo nexthop p t else t)
    (map_to_list (nexthopInfoMap_ t)) t.

Definition areAllRegisteredNexthopsResolved (t : NexthopTable) : bool :=
  forallb (fun kv => ns_isResolvedForSelection (infoStatus kv.2 t)) (map_to_list (nexthopInfoMap_ t)).

(** One status of a [RibInNexthopUpdate]: the table, and when the entries of the next hop
    have to be selected again, its [NexthopInfo] and whether its eligibility changed. *)
Definition processNexthopStatus (now : Z) (queuedStatus : CachedStatus) (t : NexthopTable)
    : option (ptr * bool) * NexthopTable :=
  let nexthopIp := ns_nexthop queuedStatus in
  match findNexthopInfo nexthopIp t with
  | None => (None, t)
  | Some p =>
      let old := infoStatus p t in
      if negb (cs_epoch queuedStatus =? 0) && (cs_epoch queuedStatus <? cs_epoch old) then (None, t)
      else
      match getNexthopStatus nexthopIp (nt_cache t) with
      | None => (None, t)
      | Some status =>
          let isResolved := ns_isResolvedForSelection status in
          let isIgpCostChanged := negb (bool_decide (ns_igpCost old = ns_igpCost status)) in
          let isResolvabilityChanged := xorb (ns_isResolvedForSelection old) isResolved in
          (if isIgpCostChanged || isResolvabilityChanged then Some (p, isResolvabilityChanged) else None,
           mkNexthopTable (nexthopInfoMap_ t) (upd (nt_infos t) p (updateStatus now status (nt_infos t p)))
             (nt_next t) (nt_cache t)
             (if isResolvabilityChanged
              then uint 64 (unresolvableNexthops_ t + if isResolved then -1 else 1)
              else unresolvableNexthops_ t)
             (requestedNexthops_ t) (pendingNexthopSubscriptions_ t) (nt_hooked t))
      end
  end.

(** ** The RIB and the writers of the cache *)

(** The statuses that were returned to their writers and not yet read by the RIB: in a
    writer that waits for room, in the queue, or in the message the RIB is reading. *)
Record NexthopSystem := mkSystem { sys_table : NexthopTable; sys_pending : list CachedStatus }.

Inductive NexthopStep :=
| WriterUpdates (statuses : list CachedStatus)   (** [addOrUpdateNextHopStatus] *)
| WriterClears (nexthopIp : IPAddress)           (** [clearConnectedStatus] *)
| RibGets (requester : bool) (now : Z) (nexthop : IPAddress)
| RibDeletes (nexthop : IPAddress)               (** [deleteNexthopInfo] of an unused next hop *)
| RibReads (now : Z) (i : nat).                  (** the next status, wherever it was pushed from *)

Definition nexthopStep (st : NexthopStep) (s : NexthopSystem) : NexthopSystem :=
  let t := sys_table s in
  match st with
  | WriterUpdates statuses =>
      let '(pushed, c) := addOrUpdateNextHopStatus statuses (nt_cache t) in
      mkSystem (nt_set_cache c t) (sys_pending s ++ pushed)
  | WriterClears ip =>
      let '(cleared, c) := clearConnectedStatus ip (nt_cache t) in
      mkSystem (nt_set_cache c t) (sys_pending s ++ option_list cleared)
  | RibGets requester now ip => mkSystem (getNexthopInfo requester now ip t).2 (sys_pending s)
  | RibDeletes ip =>
      match findNexthopInfo ip t with
      | Some p => mkSystem (deleteNexthopInfo ip p t) (sys_pending s)
      | None => s
      end
  | RibReads now i =>
      match sys_pending s !! i with
      | Some x => mkSystem (processNexthopStatus now x t).2 (delete i (sys_pending s))
      | None => s
      end
  end.

Fixpoint nexthopSteps (steps : list NexthopStep) (s : NexthopSystem) : NexthopSystem :=
  match steps with [] => s | st :: steps => nexthopSteps steps (nexthopStep st s) end.

(** The epochs do not wrap, and writers build their statuses with the constructor. *)
Definition step_ok (st : NexthopStep) (s : NexthopSystem) : Prop :=
  let last := lastEpoch_ (nt_cache (sys_table s)) in
  match st with
  | WriterUpdates statuses =>
      Forall (fun x : CachedStatus => status_wf x) statuses /\ last + Z.of_nat (length statuses) < 2 ^ 64
  | WriterClears _ | RibGets _ _ _ => last + 1 < 2 ^ 64
  | _ => True
  end.

Fixpoint steps_ok (steps : list NexthopStep) (s : NexthopSystem) : Prop :=
  match steps with [] => True | st :: steps => step_ok st s /\ steps_ok steps (nexthopStep st s) end.

(** ** The invariant *)

(** A [NexthopInfo] against the cache: it is not ahead, it has the cache's status if it
    has its epoch, and otherwise the status is on its way. *)
Record info_ok (pending : list CachedStatus) (ip : IPAddress) (info : CachedStatus)
    (cached : CachedStatus) : Prop := {
  io_behind : cs_epoch info <= cs_epoch cached;
  io_same : cs_epoch info = cs_epoch cached -> info = cached;
  io_pending : cs_epoch info <> cs_epoch cached ->
    exists x : CachedStatus, x ∈ pending /\ ns_nexthop x = ip /\ cs_epoch x = cs_epoch cached
}.

Definition unresolved (t : NexthopTable) : Z :=
  map_sum (fun _ p => Z.b2z (negb (ns_isResolvedForSelection (infoStatus p t)))) (nexthopInfoMap_ t).

Record system_ok (s : NexthopSystem) : Prop := {
  so_cache : cache_ok (nt_cache (sys_table s));
  so_infos : forall ip p, findNexthopInfo ip (sys_table s) = Some p ->
    exists cached, findStatus ip (nt_cache (sys_table s)) = Some (cached, true) /\
      info_ok (sys_pending s) ip (infoStatus p (sys_table s)) cached;
  so_registered : forall ip cached, findStatus ip (nt_cache (sys_table s)) = Some (cached, true) ->
    is_Some (findNexthopInfo ip (sys_table s));
  so_alloc : forall ip p, findNexthopInfo ip (sys_table s) = Some p -> (p < nt_next (sys_table s))%positive;
  so_inj : forall ip ip' p, findNexthopInfo ip (sys_table s) = Some p ->
    findNexthopInfo ip' (sys_table s) = Some p -> ip = ip';
  so_pending : forall x, x ∈ sys_pending s -> cs_epoch x <> 0;
  so_count : unresolvableNexthops_ (sys_table s) = uint 64 (unresolved (sys_table s))
}.

Definition unregistered (c : NexthopCache) : Prop := forall ip s r, findStatus ip c = Some (s, r) -> r = false.

Lemma newSystem_ok c : cache_ok c -> unregistered c -> system_ok (mkSystem (newNexthopTable c) []).
Proof.
  intros Hc Hu. split; try done.
  - intros ip cached E. by pose proof (Hu _ _ _ E).
  - by intros x ?%elem_of_nil.
Qed.

Lemma so_infos_ext pending pending' ip i c :
  info_ok pending ip i c -> (forall x, x ∈ pending -> x ∈ pending') -> info_ok pending' ip i c.
Proof. intros [H1 H2 H3] Hsub. split; [done..|]. intros (x & Hx & E)%H3. eauto. Qed.

(** A write of the cache by another thread *)
Lemma writer_ok s pushed c' :
  system_ok s -> publishes pushed (nt_cache (sys_table s)) c' -> cache_ok c' ->
  system_ok (mkSystem (nt_set_cache c' (sys_table s)) (sys_pending s ++ pushed)).
Proof.
  intros [Sc Si Sr Sa Sj Sp Sn] [L K N P] Hc'. split; try done.
  - intros ip p E. destruct (Si ip p E) as (cached & Ec & Hi).
    destruct (K _ _ _ Ec) as (s' & Es' & Hs'). exists s'. split; [done|].
    change (info_ok (sys_pending s ++ pushed) ip (infoStatus p (sys_table s)) s').
    destruct Hs' as [->|[Hlt Hin]].
    + eapply so_infos_ext; [done|]. intros x Hx. apply elem_of_app. by left.
    + pose proof (co_epoch _ Sc _ _ _ Ec) as He. pose proof (io_behind _ _ _ _ Hi) as Hb.
      split; [lia|lia|]. intros _. exists s'.
      split_and!; [apply elem_of_app; right; by apply Hin| |done].
      by apply (co_keyed _ Hc' _ _ _ Es').
  - intros ip cached E. simpl in *. destruct (findStatus ip (nt_cache (sys_table s))) as [[t r]|] eqn:Et.
    + destruct (K _ _ _ Et) as (s' & Es' & _). assert (r = true) as -> by congruence. eauto.
    + by pose proof (N _ _ _ Et E).
  - intros x [Hx|Hx]%elem_of_app; [auto|]. simpl in *. pose proof (P x Hx). destruct Sc as [[? ?] _ _ _]. lia.
Qed.

(** A next hop the RIB meets for the first time *)
Lemma get_ok requester now ip s :
  system_ok s -> lastEpoch_ (nt_cache (sys_table s)) + 1 < 2 ^ 64 ->
  system_ok (mkSystem (getNexthopInfo requester now ip (sys_table s)).2 (sys_pending s)).
Proof.
  intros Hs Hl. pose proof Hs as [Sc Si Sr Sa Sj Sp Sn]. unfold getNexthopInfo.
  destruct (ip_isZero ip); [by destruct s|]. destruct (findNexthopInfo ip (sys_table s)) as [p|] eqn:E;
    [by destruct s|].
  pose proof (cache_register_ok ip (nt_cache (sys_table s)) Sc Hl) as Hc.
  pose proof (register_lookup ip (nt_cache (sys_table s))) as Hf.
  destruct (registerAndGetNexthopStatus ip (nt_cache (sys_table s))) as [[st need] c]. simpl in Hc, Hf.
  set (t := sys_table s) in *. cbn [snd].
  assert (Hinfo : forall q x, (q < nt_next t)%positive -> upd (nt_infos t) (nt_next t) x q = nt_infos t q).
  { intros q x Hq. apply upd_ne. lia. }
  assert (Hmap : forall ip' p, (<[ip := nt_next t]> (nexthopInfoMap_ t)) !! ip' = Some p ->
    ip' = ip /\ p = nt_next t \/ ip' <> ip /\ findNexthopInfo ip' t = Some p).
  { intros ip' p [[-> ->]|[Hne Hp]]%lookup_insert_Some; [by left|right]. split; [congruence|done]. }
  split; simpl; unfold findNexthopInfo; simpl.
  - done.
  - intros ip' p [[-> ->]|[Hne Hp]]%Hmap.
    + exists st. rewrite Hf, decide_True by done. split; [done|].
      unfold infoStatus. simpl. rewrite upd_eq. by split.
    + destruct (Si ip' p Hp) as (cached & Ec & Hi). exists cached. rewrite Hf, decide_False by congruence.
      split; [done|]. unfold infoStatus. simpl. rewrite Hinfo by by apply Sa in Hp. done.
  - intros ip' cached. rewrite Hf. case_decide as D; [subst; rewrite lookup_insert_eq; eauto|].
    intros Ec. rewrite lookup_insert_ne by done. by apply (Sr ip' cached).
  - intros ip' p [[-> ->]|[Hne Hp]]%Hmap; [lia|]. apply Sa in Hp. lia.
  - intros ip1 ip2 p [[-> ->]|[Hne Hp]]%Hmap [[-> H2]|[Hne2 Hp2]]%Hmap; try done.
    + apply Sa in Hp2. lia.
    + subst p. apply Sa in Hp. lia.
    + by apply (Sj _ _ p).
  - done.
  - unfold unresolved. simpl. rewrite map_sum_insert_None by done.
    rewrite (map_sum_ext _ (fun _ p => Z.b2z (negb (ns_isResolvedForSelection (infoStatus p t))))).
    + unfold infoStatus at 1. simpl. rewrite upd_eq. simpl. rewrite Sn. unfold unresolved.
      destruct (ns_isResolvedForSelection st); simpl; [f_equal; lia|]. rewrite uint_add_l. f_equal. lia.
    + intros k p Hp. unfold infoStatus. simpl. rewrite Hinfo; [done|]. by apply (Sa k).
Qed.

(** The last route of a next hop goes *)
Lemma delete_ok ip p s :
  system_ok s -> findNexthopInfo ip (sys_table s) = Some p ->
  system_ok (mkSystem (deleteNexthopInfo ip p (sys_table s)) (sys_pending s)).
Proof.
  intros [Sc Si Sr Sa Sj Sp Sn] E. set (t := sys_table s) in *.
  assert (Hmap : forall ip' q, delete ip (nexthopInfoMap_ t) !! ip' = Some q -> ip <> ip' /\ findNexthopInfo ip' t = Some q).
  { intros ip' q ?%lookup_delete_Some. done. }
  split; simpl; unfold findNexthopInfo; simpl.
  - by apply unregister_ok.
  - intros ip' q [Hne Hq]%Hmap. rewrite unregister_lookup by done. by apply Si.
  - intros ip' cached Ec. destruct (decide (ip = ip')) as [<-|Hne].
    + exfalso. revert Ec. unfold unregisterAndRemoveNexthopStatus.
      destruct (findStatus ip (nt_cache t)) as [[st r]|] eqn:Es; [|simpl; congruence].
      destruct (negb _); simpl; rewrite ?findStatus_insert, ?findStatus_delete, decide_True by done; done.
    + rewrite unregister_lookup in Ec by done. rewrite lookup_delete_ne by done. by apply (Sr ip' cached).
  - intros ip' q [_ Hq]%Hmap. by apply (Sa ip').
  - intros ip1 ip2 q [_ H1]%Hmap [_ H2]%Hmap. by apply (Sj _ _ q).
  - done.
  - unfold unresolved. simpl. rewrite map_sum_remove. unfold findNexthopInfo in E. rewrite E. simpl.
    rewrite Sn. change (map_sum _ (nexthopInfoMap_ t)) with (unresolved t). unfold infoStatus. simpl.
    destruct (ns_isResolvedForSelection (ni_status (nt_infos t p))); simpl; [f_equal; lia|]. apply uint_sub_l.
Qed.

(** An update is read: it is older than what the [NexthopInfo] has, or the cache's status
    is taken. *)
Lemma read_ok now i x s :
  system_ok s -> sys_pending s !! i = Some x ->
  system_ok (mkSystem (processNexthopStatus now x (sys_table s)).2 (delete i (sys_pending s))).
Proof.
  intros Hs Hx. pose proof Hs as [Sc Si Sr Sa Sj Sp Sn]. set (t := sys_table s) in *.
  assert (Hsub : forall y, y ∈ delete i (sys_pending s) -> y ∈ sys_pending s).
  { intros y. apply elem_of_subseteq. apply sublist_subseteq, sublist_delete. }
  assert (Hother : forall y, y ∈ sys_pending s -> y <> x -> y ∈ delete i (sys_pending s)).
  { intros y Hy Hne. rewrite (delete_Permutation _ _ _ Hx) in Hy.
    by apply elem_of_cons in Hy as [->|Hy]. }
  unfold processNexthopStatus. destruct (findNexthopInfo (ns_nexthop x) t) as [p|] eqn:E.
  - destruct (negb _ && _) eqn:Hstale.
    + (* stale *)
      apply andb_true_iff in Hstale as [_ Hstale%Z.ltb_lt]. split; try done; [|by auto].
      intros ip q Hq. destruct (Si ip q Hq) as (cached & Ec & [I1 I2 I3]). exists cached. split; [done|].
      split; [done..|]. intros Hne. destruct (I3 Hne) as (y & Hy & Ey & Eep). exists y.
      split; [|done]. apply Hother; [done|]. intros ->.
      assert (q = p) as -> by (rewrite Ey in E; simpl in Hq; congruence).
      fold t in I1. lia.
    + destruct (Si _ p E) as (cached & Ec & Hi). unfold getNexthopStatus. rewrite Ec. simpl.
      assert (Hinfo : forall q y, q <> p -> upd (nt_infos t) p y q = nt_infos t q)
        by (intros; by apply upd_ne).
      split; simpl; unfold findNexthopInfo; simpl; try done; [|by auto|].
      * intros ip q Hq. destruct (Si ip q Hq) as (cached' & Ec' & Hi'). exists cached'. split; [done|].
        unfold infoStatus. simpl. destruct (decide (q = p)) as [->|Hne].
        -- assert (ip = ns_nexthop x) as -> by by apply (Sj _ _ p).
           assert (cached' = cached) as -> by congruence. rewrite upd_eq. by split.
        -- rewrite Hinfo by done. destruct Hi' as [I1 I2 I3]. split; [done..|].
           intros Hep. destruct (I3 Hep) as (y & Hy & Ey & Eep). exists y. split; [|done].
           apply Hother; [done|]. intros ->. apply Hne.
           rewrite Ey in E. fold t in Hq. unfold findNexthopInfo in *. congruence.
      * unfold unresolved. simpl.
        rewrite (map_sum_delete _ _ _ _ E).
        rewrite (map_sum_ext _ (fun _ q => Z.b2z (negb (ns_isResolvedForSelection (infoStatus q t))))
          (delete (ns_nexthop x) (nexthopInfoMap_ t))).
        -- match goal with |- context [infoStatus p (mkNexthopTable ?a ?b ?c ?d ?e ?f ?g ?h)] =>
             replace (infoStatus p (mkNexthopTable a b c d e f g h)) with cached
               by (unfold infoStatus; simpl; by rewrite upd_eq) end.
           assert (unresolved t = Z.b2z (negb (ns_isResolvedForSelection (infoStatus p t))) +
             map_sum (fun _ q => Z.b2z (negb (ns_isResolvedForSelection (infoStatus q t))))
               (delete (ns_nexthop x) (nexthopInfoMap_ t))) as Hu
             by exact (map_sum_delete (fun _ q => Z.b2z (negb (ns_isResolvedForSelection (infoStatus q t)))) _ _ _ E).
           rewrite Sn, Hu.
           destruct (ns_isResolvedForSelection (infoStatus p t)), (ns_isResolvedForSelection cached);
             simpl; rewrite ?uint_add_l; f_equal; lia.
        -- intros k q [Hk Hq]%lookup_delete_Some. unfold infoStatus. simpl. rewrite Hinfo; [done|].
           intros ->. apply Hk. symmetry. by apply (Sj _ _ p).
  - (* untracked *)
    split; try done; [|by auto]. intros ip q Hq. destruct (Si ip q Hq) as (cached & Ec & [I1 I2 I3]).
    exists cached. split; [done|]. split; [done..|]. intros Hne. destruct (I3 Hne) as (y & Hy & Ey & Eep).
    exists y. split; [|done]. apply Hother; [done|]. intros ->.
    rewrite Ey in E. simpl in Hq. congruence.
Qed.

Lemma nexthopStep_ok st s : step_ok st s -> system_ok s -> system_ok (nexthopStep st s).
Proof.
  intros Hst Hs. destruct st; simpl in *.
  - destruct Hst as [Hwf Hl].
    destruct (addOrUpdate_publishes statuses _ (so_cache _ Hs) Hwf Hl) as [Hp Hc].
    destruct (addOrUpdateNextHopStatus _ _) as [pushed c]. by apply writer_ok.
  - destruct (clearConnected_publishes nexthopIp _ (so_cache _ Hs) Hst) as [Hp Hc].
    destruct (clearConnectedStatus _ _) as [cleared c]. by apply writer_ok.
  - by apply get_ok.
  - destruct (findNexthopInfo nexthop (sys_table s)) as [p|] eqn:E; [by apply delete_ok|done].
  - destruct (sys_pending s !! i) as [x|] eqn:E; [by apply read_ok|done].
Qed.

Lemma nexthopSteps_ok steps s : steps_ok steps s -> system_ok s -> system_ok (nexthopSteps steps s).
Proof.
  revert s. induction steps as [|st steps IH]; intros s Hok Hs; [done|]. destruct Hok as [H1 H2].
  apply IH; [done|]. by apply nexthopStep_ok.
Qed.

(** ** What the RIB knows *)

(** Reading everything that is pending *)
Definition readAll (now : Z) (s : NexthopSystem) : NexthopSystem :=
  nexthopSteps (replicate (length (sys_pending s)) (RibReads now 0)) s.

Lemma readAll_pending now s : sys_pending (readAll now s) = [].
Proof.
  unfold readAll. remember (length (sys_pending s)) as n eqn:En. revert s En.
  induction n as [|n IH]; intros s En; simpl.
  - symmetry in En. by apply nil_length_inv in En.
  - destruct (sys_pending s) as [|x l] eqn:E; [done|]. simpl. apply IH. simpl in *. lia.
Qed.

Lemma readAll_ok now n s : steps_ok (replicate n (RibReads now 0)) s.
Proof. revert s. induction n as [|n IH]; intros s; [done|]. by split. Qed.

Lemma infos_up_to_date s ip p :
  system_ok s -> findNexthopInfo ip (sys_table s) = Some p ->
  Forall (fun x : CachedStatus => ns_nexthop x <> ip) (sys_pending s) ->
  getNexthopStatus ip (nt_cache (sys_table s)) = Some (infoStatus p (sys_table s)).
Proof.
  intros [Sc Si Sr Sa Sj Sp Sn] E Hp. destruct (Si ip p E) as (cached & Ec & [I1 I2 I3]).
  unfold getNexthopStatus. rewrite Ec. simpl. f_equal. symmetry. apply I2.
  destruct (Z.eq_dec (cs_epoch (infoStatus p (sys_table s))) (cs_epoch cached)) as [|Hne]; [done|].
  destruct (I3 Hne) as (x & Hx & Ex & _). exfalso. rewrite Forall_forall in Hp. by apply (Hp x).
Qed.

(** C19. However writers of the cache, the updates on their way to the RIB and the RIB's
    own steps interleave: the cache has every next hop the RIB keeps a [NexthopInfo] for,
    and has it registered (the RIB never meets a next hop the cache has lost), no other
    next hop is registered, the [NexthopInfo] has the status of the cache unless an update
    that names the next hop is still to be read, the counter of unresolvable next hops
    counts the [NexthopInfo]s that are not eligible, and once the RIB has read what is
    pending it knows what the cache knows. *)
Theorem nexthop_infos_follow_cache c steps s now :
  cache_ok c -> unregistered c -> steps_ok steps (mkSystem (newNexthopTable c) []) ->
  s = nexthopSteps steps (mkSystem (newNexthopTable c) []) ->
  (forall ip, is_Some (findNexthopInfo ip (sys_table s)) <->
     cacheIsRegistered ip (nt_cache (sys_table s)) = true) /\
  (forall ip p, findNexthopInfo ip (sys_table s) = Some p ->
     Forall (fun x : CachedStatus => ns_nexthop x <> ip) (sys_pending s) ->
     getNexthopStatus ip (nt_cache (sys_table s)) = Some (infoStatus p (sys_table s))) /\
  unresolvableNexthops_ (sys_table s) = uint 64 (unresolved (sys_table s)) /\
  (sys_pending (readAll now s) = [] /\
   forall ip p, findNexthopInfo ip (sys_table (readAll now s)) = Some p ->
     getNexthopStatus ip (nt_cache (sys_table (readAll now s))) =
     Some (infoStatus p (sys_table (readAll now s)))).
Proof.
  intros Hc Hu Hok ->. pose proof (nexthopSteps_ok _ _ Hok (newSystem_ok c Hc Hu)) as Hs.
  set (s := nexthopSteps _ _) in *. split_and!.
  - intros ip. unfold cacheIsRegistered. split.
    + intros [p E]. destruct (so_infos _ Hs ip p E) as (cached & Ec & _). by rewrite Ec.
    + destruct (findStatus ip _) as [[cached r]|] eqn:Ec; [|done]. intros ->.
      by apply (so_registered _ Hs ip cached).
  - intros ip p. by apply infos_up_to_date.
  - by apply so_count.
  - apply readAll_pending.
  - intros ip p E. apply infos_up_to_date; [|done|by rewrite readAll_pending].
    by apply nexthopSteps_ok; [apply readAll_ok|].
Qed.

(** ** A sample *)

(** A next hop that goes down while its first status is on its way *)
Definition sample_nexthop : IPAddress := IPV4 [10; 0; 0; 1].
Definition sample_status (r : bool) : CachedStatus :=
  newCachedStatus sample_nexthop r (Some 1) (Some true) true None.
Definition sample_nexthop_steps : list NexthopStep :=
  [RibGets false 0 sample_nexthop; WriterUpdates [sample_status true]; WriterUpdates [sample_status false];
   RibReads 1 1; WriterUpdates [sample_status true]; RibReads 2 0].

Lemma nexthop_infos_follow_cache_witness :
  let s := nexthopSteps sample_nexthop_steps (mkSystem (newNexthopTable newNexthopCache) []) in
  unresolvableNexthops_ (sys_table s) = 1 /\ length (sys_pending s) = 1%nat /\
  sys_pending (readAll 3 s) = [] /\ unresolvableNexthops_ (sys_table (readAll 3 s)) = 0.
Proof.
  assert (cache_ok newNexthopCache /\ unregistered newNexthopCache /\
    steps_ok sample_nexthop_steps (mkSystem (newNexthopTable newNexthopCache) [])) as (H1 & H2 & H3).
  { split_and!; [apply newNexthopCache_ok|by intros ip s r E|].
    cbn [steps_ok sample_nexthop_steps step_ok]. split_and!; try done; by repeat constructor. }
  destruct (nexthop_infos_follow_cache newNexthopCache sample_nexthop_steps _ 3 H1 H2 H3 eq_refl)
    as (_ & _ & _ & Hp & _).
  split_and!; [by vm_compute|by vm_compute|exact Hp|by vm_compute].
Defined.
