(* ===== verification/RibCounters.v ===== *)
(** * Counters of the RIB

    rib/RibCounters.h: prefixes, paths and best paths of each address family.  The
    counter of unresolvable next hops is kept with the next hops (RibNexthop.v), the
    copies for monitoring are not. *)

From S2P Require Import Prelude.

Definition kMaxPrefixLen : Z := 128.

Inductive BgpRouteType := RT_EBGP | RT_IBGP | RT_ConfedEBGP | RT_LOCAL | RT_UNKNOWN.
#[export] Instance BgpRouteType_eq_dec : EqDecision BgpRouteType.
Proof. solve_decision. Defined.

Record AfiCounters := mkAfiCounters {
  totalPrefixes : Z;                   (** uint64_t *)
  totalPaths : Z;                      (** uint64_t *)
  inactivePaths : Z;                   (** int64_t, as the rest *)
  prefixLenCounts : Z -> Z;
  bySource : BgpRouteType -> Z         (** ebgp, ibgp, confedEbgp, local, unknown *)
}.

Record RibCounters := mkRibCounters {
  afi_v4 : AfiCounters;
  afi_v6 : AfiCounters;
  originatedRoutes_ : Z
}.

Definition newAfiCounters : AfiCounters := mkAfiCounters 0 0 0 (fun _ => 0) (fun _ => 0).
Definition newRibCounters : RibCounters := mkRibCounters newAfiCounters newAfiCounters 0.

Definition countersOf (isV4 : bool) (c : RibCounters) : AfiCounters := if isV4 then afi_v4 c else afi_v6 c.
Definition updAfi (isV4 : bool) (f : AfiCounters -> AfiCounters) (c : RibCounters) : RibCounters :=
  if isV4 then mkRibCounters (f (afi_v4 c)) (afi_v6 c) (originatedRoutes_ c)
  else mkRibCounters (afi_v4 c) (f (afi_v6 c)) (originatedRoutes_ c).

Definition bucket (prefixLen : Z) : Z := if kMaxPrefixLen <? prefixLen then kMaxPrefixLen else prefixLen.

Definition addAt {X} `{EqDecision X} (x : X) (delta : Z) (f : X -> Z) : X -> Z :=
  fun y => if decide (y = x) then f y + delta else f y.

Definition onPrefixAdded (isV4 : bool) (prefixLen : Z) : RibCounters -> RibCounters :=
  updAfi isV4 (fun a => mkAfiCounters (uint 64 (totalPrefixes a + 1)) (totalPaths a) (inactivePaths a)
                          (addAt (bucket prefixLen) 1 (prefixLenCounts a)) (bySource a)).

Definition onInactivePathsDelta (isV4 : bool) (delta : Z) : RibCounters -> RibCounters :=
  updAfi isV4 (fun a => mkAfiCounters (totalPrefixes a) (totalPaths a) (inactivePaths a + delta)
                          (prefixLenCounts a) (bySource a)).

Definition onPrefixRemoved (isV4 : bool) (prefixLen inactive : Z) (c : RibCounters) : RibCounters :=
  onInactivePathsDelta isV4 (- inactive)
    (updAfi isV4 (fun a => mkAfiCounters (uint 64 (totalPrefixes a - 1)) (totalPaths a) (inactivePaths a)
                             (addAt (bucket prefixLen) (-1) (prefixLenCounts a)) (bySource a)) c).

Definition onPathsDelta (isV4 : bool) (delta : Z) : RibCounters -> RibCounters :=
  updAfi isV4 (fun a => mkAfiCounters (totalPrefixes a) (uint 64 (totalPaths a + delta)) (inactivePaths a)
                          (prefixLenCounts a) (bySource a)).

Definition setOriginatedRoutes (count : Z) (c : RibCounters) : RibCounters :=
  mkRibCounters (afi_v4 c) (afi_v6 c) count.

Definition adjustSource (src : option BgpRouteType) (delta : Z) (a : AfiCounters) : AfiCounters :=
  match src with
  | None => a
  | Some t => mkAfiCounters (totalPrefixes a) (totalPaths a) (inactivePaths a) (prefixLenCounts a)
                (addAt t delta (bySource a))
  end.

Definition onBestpathSourceChanged (isV4 : bool) (oldSrc newSrc : option BgpRouteType)
    (c : RibCounters) : RibCounters :=
  if bool_decide (oldSrc = newSrc) then c
  else updAfi isV4 (fun a => adjustSource newSrc 1 (adjustSource oldSrc (-1) a)) c.

Definition resetCounters (_ : RibCounters) : RibCounters := newRibCounters.

Definition withBestpath (a : AfiCounters) : Z :=
  bySource a RT_EBGP + bySource a RT_IBGP + bySource a RT_ConfedEBGP + bySource a RT_LOCAL
  + bySource a RT_UNKNOWN.

Definition routesWithUnresolvedNexthops (isV4 : bool) (c : RibCounters) : Z :=
  let a := countersOf isV4 c in
  let total := sint 64 (totalPrefixes a) in
  if withBestpath a <? total then total - withBestpath a else 0.
