(* ===== verification/Rib.v ===== *)
(** * The RIB: routes in

    The part of rib/RibBase.cpp and RibBase.h that takes routes in: announcements and
    withdrawals of peers, the aggregates they support, the next hops they use and the
    counters; with rib/LocalRoute.h, [getMinSupportRoutes] and its companions of
    rib/Utils.cpp and [isSubnet] of common/Utils.cpp.  The RIB runs on one event base, so
    each message is one step. *)

From stdpp Require Import gmap strings fin_sets.
From S2P Require Import Prelude BgpException Folly BgpStructs RouteFilter RouteInfo RibEntry.
From S2P Require Import PathFields AdjRibCommon PackingList AdjRibOut MapSum NexthopCache RibNexthop RibCounters.

(** ** State *)

(** [BgpNetwork] of the configuration, as the getters of rib/Utils.cpp read it, and the
    number of routes within it *)
Record LocalRoute := mkLocalRoute {
  lr_minSupportRoutes : Z;             (** int32_t *)
  lr_installToFib : bool;
  lr_requireNhResolution : bool;
  lr_supportPfxCnt : Z;                (** int: agrees below 2^31 supporting routes *)
  lr_attrs : ptr * BgpPath
}.

Definition set_supportPfxCnt (n : Z) (r : LocalRoute) : LocalRoute :=
  mkLocalRoute (lr_minSupportRoutes r) (lr_installToFib r) (lr_requireNhResolution r) n (lr_attrs r).

(** An entry with the fields of [RibEntry] that its own operations do not touch.  A map of
    next hops is an object: it has an identity besides its contents. *)
Record RibSlot := mkSlot {
  sl_entry : RibEntry;
  sl_hasFibOutState : bool;
  sl_nexthopsId : Z;                                   (** of [weightedNexthops_], if not null *)
  sl_advertisedNexthops : option (Z * gmap IPAddress Z);
  sl_ribVersion : Z;                                   (** uint64_t *)
  sl_resolvabilityPending : bool
}.

Definition newSlot (prefix : CIDRNetwork) : RibSlot := mkSlot (newRibEntry prefix) false 0 None 0 false.

Definition sl_set_entry (e : RibEntry) (s : RibSlot) : RibSlot :=
  mkSlot e (sl_hasFibOutState s) (sl_nexthopsId s) (sl_advertisedNexthops s) (sl_ribVersion s)
    (sl_resolvabilityPending s).

(** The causes RibBase names, and those of other tasks *)
Inductive RibPauseResumeCause := BACKPRESSURE | ROUTE_CHURN | OTHER_CAUSE (n : nat).
#[export] Instance RibPauseResumeCause_eq_dec : EqDecision RibPauseResumeCause.
Proof. solve_decision. Defined.
#[export] Instance RibPauseResumeCause_countable : Countable RibPauseResumeCause.
Proof.
  apply (inj_countable'
    (fun c => match c with BACKPRESSURE => inl true | ROUTE_CHURN => inl false | OTHER_CAUSE n => inr n end)
    (fun x => match x with inl true => BACKPRESSURE | inl false => ROUTE_CHURN | inr n => OTHER_CAUSE n end)).
  by intros [].
Defined.

(** Flags and timers *)
Record RibControl := mkControl {
  ribEoRReceived_ : bool;
  initialEorSent_ : bool;
  pendingInitialPathComputation_ : bool;
  firstNexthopResolutionProcessed_ : bool;
  nexthopResolutionTimer_ : option Z;                  (** milliseconds, while scheduled *)
  fibBatchTimer_ : bool;                               (** scheduled *)
  pauseBestPathAndFibProgramming_ : bool;
  bestPathAndFibProgrammingPausedBy_ : gset RibPauseResumeCause;
  ribPauseTimer_ : bool;                               (** scheduled *)
  fibSyncReqPending_ : bool;
  prefixCountForRouteChurn_ : Z;                       (** uint64_t *)
  routeChurnMonitors : nat                             (** [monitorRouteChurn] tasks started *)
}.

Record Rib := mkRib {
  rib_heap : Heap;
  ribEntries_ : gmap CIDRNetwork RibSlot;
  localRoutes_ : gmap CIDRNetwork LocalRoute;
  rib_nexthops : NexthopTable;
  ribCounters_ : RibCounters;
  fibBatchList_ : list CIDRNetwork;                    (** by prefix: the hook is in the entry *)
  rib_nextId : Z;                                      (** identity of the next map of next hops *)
  ribVersion_ : Z;                                     (** uint64_t *)
  rib_control : RibControl;
  requestedSubscriptions : list (list IPAddress)       (** the calls of [nexthopSubscribeRequester_] *)
}.

Definition rib_set_entries (w : Heap) (m : gmap CIDRNetwork RibSlot) (r : Rib) : Rib :=
  mkRib w m (localRoutes_ r) (rib_nexthops r) (ribCounters_ r) (fibBatchList_ r) (rib_nextId r)
    (ribVersion_ r) (rib_control r) (requestedSubscriptions r).
Definition rib_set_localRoutes (l : gmap CIDRNetwork LocalRoute) (r : Rib) : Rib :=
  mkRib (rib_heap r) (ribEntries_ r) l (rib_nexthops r) (ribCounters_ r) (fibBatchList_ r)
    (rib_nextId r) (ribVersion_ r) (rib_control r) (requestedSubscriptions r).
Definition rib_set_nexthops (t : NexthopTable) (r : Rib) : Rib :=
  mkRib (rib_heap r) (ribEntries_ r) (localRoutes_ r) t (ribCounters_ r) (fibBatchList_ r)
    (rib_nextId r) (ribVersion_ r) (rib_control r) (requestedSubscriptions r).
Definition rib_set_counters (c : RibCounters) (r : Rib) : Rib :=
  mkRib (rib_heap r) (ribEntries_ r) (localRoutes_ r) (rib_nexthops r) c (fibBatchList_ r)
    (rib_nextId r) (ribVersion_ r) (rib_control r) (requestedSubscriptions r).
Definition rib_set_batch (l : list CIDRNetwork) (r : Rib) : Rib :=
  mkRib (rib_heap r) (ribEntries_ r) (localRoutes_ r) (rib_nexthops r) (ribCounters_ r) l
    (rib_nextId r) (ribVersion_ r) (rib_control r) (requestedSubscriptions r).
Definition rib_set_control (c : RibControl) (r : Rib) : Rib :=
  mkRib (rib_heap r) (ribEntries_ r) (localRoutes_ r) (rib_nexthops r) (ribCounters_ r)
    (fibBatchList_ r) (rib_nextId r) (ribVersion_ r) c (requestedSubscriptions r).

Definition findSlot (prefix : CIDRNetwork) (r : Rib) : option RibSlot := ribEntries_ r !! prefix.

(** The local peer *)
Definition kV4LocalPeerInfo : TinyPeerInfo := mkPeer kLocalRoutePeerAddr 0 0 IBGP false false None "".
Definition localPeerId : BgpPeerId := (kLocalRoutePeerAddr, 0).

Class RibConfig := {
  enableNexthopTracking_ : bool;
  hasNexthopRequester : bool           (** [nexthopSubscribeRequester_] is set *)
}.

Section RibIn.
Context `{SubnetOps, RibConfig}.

Definition isSubnet (subPfx parentPfx : CIDRNetwork) : bool :=
  Bool.eqb (isV4 subPfx.1) (isV4 parentPfx.1) && inSubnet subPfx.1 parentPfx.1 parentPfx.2 &&
  (parentPfx.2 <=? subPfx.2).

(** ** Aggregates *)

(** One local route: what it becomes, and the aggregate to announce or withdraw *)
Definition aggregateOne (prefix : CIDRNetwork) (supportingRouteAnnouncement : bool)
    (localPrefix : CIDRNetwork) (localRoute : LocalRoute)
    : option (option (ptr * BgpPath)) * LocalRoute :=
  if negb (isSubnet prefix localPrefix) then (None, localRoute)
  else
  let minSupportRoutes := lr_minSupportRoutes localRoute in
  let cnt := lr_supportPfxCnt localRoute in
  if minSupportRoutes =? 0 then (None, localRoute)
  else if negb supportingRouteAnnouncement && (cnt =? 0) then (None, localRoute)
  else if negb supportingRouteAnnouncement then
    (if cnt - 1 =? minSupportRoutes - 1 then Some None else None, set_supportPfxCnt (cnt - 1) localRoute)
  else
    (if cnt + 1 =? minSupportRoutes then Some (Some (lr_attrs localRoute)) else None,
     set_supportPfxCnt (cnt + 1) localRoute).

(** The hash map is walked in the order of [map_to_list]. *)
Definition aggRoutes (prefix : CIDRNetwork) (supportingRouteAnnouncement : bool)
    (localRoutes : gmap CIDRNetwork LocalRoute) : list (CIDRNetwork * option (ptr * BgpPath)) :=
  omap (fun '(localPrefix, localRoute) =>
          (fun a => (localPrefix, a)) <$>
            (aggregateOne prefix supportingRouteAnnouncement localPrefix localRoute).1)
    (map_to_list localRoutes).

Definition supportedRoutes (prefix : CIDRNetwork) (supportingRouteAnnouncement : bool)
    (localRoutes : gmap CIDRNetwork LocalRoute) : gmap CIDRNetwork LocalRoute :=
  map_imap (fun localPrefix localRoute =>
              Some (aggregateOne prefix supportingRouteAnnouncement localPrefix localRoute).2)
    localRoutes.

Definition aggregateRoute (prefix : CIDRNetwork) (supportingRouteAnnouncement : bool) (r : Rib)
    : list (CIDRNetwork * option (ptr * BgpPath)) * Rib :=
  (aggRoutes prefix supportingRouteAnnouncement (localRoutes_ r),
   rib_set_localRoutes (supportedRoutes prefix supportingRouteAnnouncement (localRoutes_ r)) r).

(** ** One route *)

(** [ribEntries_.erase]: the hook of the entry leaves the batch list. *)
Definition eraseEntry (prefix : CIDRNetwork) (r : Rib) : Rib :=
  rib_set_batch (filter (fun p => p <> prefix) (fibBatchList_ r))
    (rib_set_entries (rib_heap r) (delete prefix (ribEntries_ r)) r).

Definition checkWithdrawalBeforeRouteProgrammed (prefix : CIDRNetwork) (slot : RibSlot) (r : Rib) : Rib :=
  if negb (sl_hasFibOutState slot) && bool_decide (re_routeInfos (sl_entry slot) = ∅) then
    eraseEntry prefix
      (rib_set_counters
         (onPrefixRemoved (isV4 prefix.1) prefix.2 (re_inactivePathCount (sl_entry slot)) (ribCounters_ r)) r)
  else r.

(** [getRibEntry] of a route to be: the entry found, or a new one when a path is announced *)
Definition findOrAddSlot (prefix : CIDRNetwork) (announcement : bool) (r : Rib) : option (RibSlot * Rib) :=
  match findSlot prefix r with
  | Some slot => Some (slot, r)
  | None =>
      if negb announcement then None
      else
      let slot := newSlot prefix in
      Some (slot,
            rib_set_counters (onPrefixAdded (isV4 prefix.1) prefix.2 (ribCounters_ r))
              (rib_set_entries (rib_heap r) (<[prefix := slot]> (ribEntries_ r)) r))
  end.

(** [updatePath] on an entry of the RIB.  The callback [unlinkRouteInfoAndCleanupNexthop]
    unlinks the replaced route and then looks after its next hop; the latter touches the
    next hops only, which [updatePath] does not read, and is done after it. *)
Definition updateSlot (now : Z) (peer : TinyPeerInfo) (attrs : option (ptr * BgpPath))
    (installToFib : bool) (receivedPathId : Z) (slot : RibSlot) (r : Rib) : option (RibSlot * Rib) :=
  let e := sl_entry slot in
  let '(nexthopInfo, t) :=
    match attrs with
    | Some a => if enableNexthopTracking_
                then getNexthopInfo hasNexthopRequester now (path_nexthop a.2) (rib_nexthops r)
                else (None, rib_nexthops r)
    | None => (None, rib_nexthops r)
    end in
  '(changed, w, e') ← updatePath None peer attrs installToFib receivedPathId nexthopInfo (rib_heap r) e;
  let unlinked :=
    match getRouteInfo (peer_addr peer, peer_routerId peer) receivedPathId e with
    | Some old => if changed && is_linked (hp_routes (rib_heap r) old)
                  then Some (path_nexthop (ri_path (hp_routes (rib_heap r) old))) else None
    | None => None
    end in
  let t := match unlinked with
           | Some nexthop => (checkAndDeleteNexthopInfo nexthop (nonempty (fibBatchList_ r)) w t).2
           | None => t
           end in
  let slot := sl_set_entry e' slot in
  Some (slot, rib_set_nexthops t
                (rib_set_entries w (<[re_prefix e := slot]> (ribEntries_ r)) r)).

(** The configured route an update of the local peer is for *)
Definition localRouteOf (peer : TinyPeerInfo) (prefix : CIDRNetwork) (r : Rib) : option LocalRoute :=
  if peer_eqb peer kV4LocalPeerInfo then localRoutes_ r !! prefix else None.

Definition isAggRoute (peer : TinyPeerInfo) (prefix : CIDRNetwork) (r : Rib) : bool :=
  match localRouteOf peer prefix r with Some lr => 0 <? lr_minSupportRoutes lr | None => false end.

(** Whether a supporting route came ([Some true]) or went, from the path counts *)
Definition supportChange (sameAsLocalRoute : bool) (oldAllPathCnt newAllPathCnt : Z) : option bool :=
  let supportingRouteWithdrawn :=
    (negb sameAsLocalRoute && (oldAllPathCnt =? 1) && (newAllPathCnt =? 0))
    || (sameAsLocalRoute && (newAllPathCnt =? uint 32 (oldAllPathCnt - 1))) in
  let supportingRouteAnnouncement :=
    (negb sameAsLocalRoute && (oldAllPathCnt =? 0) && (newAllPathCnt =? 1))
    || (sameAsLocalRoute && (newAllPathCnt =? uint 32 (oldAllPathCnt + 1))) in
  if supportingRouteWithdrawn || supportingRouteAnnouncement
  then Some supportingRouteAnnouncement else None.

(** [None]: a [CHECK] failed. *)
Definition processSingleRibInUpdate (now : Z) (peer : TinyPeerInfo) (attrs : option (ptr * BgpPath))
    (pfxPid : PrefixPathId) (r : Rib) : option (list (CIDRNetwork * option (ptr * BgpPath)) * Rib) :=
  let '(prefix, receivedPathId) := pfxPid in
  let announcement := match attrs with Some _ => true | None => false end in
  match findOrAddSlot prefix announcement r with
  | None => Some ([], r)
  | Some (slot, r) =>
      let oldAllPathCnt := re_allPathsCount (sl_entry slot) in
      if negb announcement && (oldAllPathCnt =? 0) then Some ([], r)
      else
      let installToFib := match localRouteOf peer prefix r with
                          | Some lr => lr_installToFib lr
                          | None => negb (peer_isRedistributePeer peer)
                          end in
      let isAgg := isAggRoute peer prefix r in
      '(slot, r) ← updateSlot now peer attrs installToFib receivedPathId slot r;
      let newAllPathCnt := re_allPathsCount (sl_entry slot) in
      let r := rib_set_counters
                 (onPathsDelta (isV4 prefix.1) (newAllPathCnt - oldAllPathCnt) (ribCounters_ r)) r in
      let r := if announcement then r else checkWithdrawalBeforeRouteProgrammed prefix slot r in
      if isAgg then Some ([], r)
      else
      let sameAsLocalRoute := bool_decide (is_Some (localRoutes_ r !! prefix)) in
      match supportChange sameAsLocalRoute oldAllPathCnt newAllPathCnt with
      | Some supportingRouteAnnouncement => Some (aggregateRoute prefix supportingRouteAnnouncement r)
      | None => Some ([], r)
      end
  end.

(** The aggregates that a route made appear or disappear *)
Fixpoint processAggregates (now : Z) (aggs : list (CIDRNetwork * option (ptr * BgpPath))) (r : Rib)
    : option Rib :=
  match aggs with
  | [] => Some r
  | (network, bgpAttrs) :: aggs =>
      '(_, r) ← processSingleRibInUpdate now kV4LocalPeerInfo bgpAttrs (network, kDefaultPathID) r;
      processAggregates now aggs r
  end.

Fixpoint processPrefixes (now : Z) (peer : TinyPeerInfo) (attrs : option (ptr * BgpPath))
    (pfxPathIds : list PrefixPathId) (r : Rib) : option Rib :=
  match pfxPathIds with
  | [] => Some r
  | pfxPathId :: rest =>
      '(aggs, r) ← processSingleRibInUpdate now peer attrs pfxPathId r;
      r ← processAggregates now aggs r;
      processPrefixes now peer attrs rest r
  end.

(** ** Messages *)

Definition schedulePrepareFibProgrammingTimer (c : RibControl) : RibControl :=
  if pauseBestPathAndFibProgramming_ c || fibBatchTimer_ c then c
  else mkControl (ribEoRReceived_ c) (initialEorSent_ c) (pendingInitialPathComputation_ c)
         (firstNexthopResolutionProcessed_ c) (nexthopResolutionTimer_ c) true
         (pauseBestPathAndFibProgramming_ c) (bestPathAndFibProgrammingPausedBy_ c) (ribPauseTimer_ c)
         (fibSyncReqPending_ c) (prefixCountForRouteChurn_ c) (routeChurnMonitors c).

Definition incrementPrefixCountForRouteChurn (count : Z) (c : RibControl) : RibControl :=
  mkControl (ribEoRReceived_ c) (initialEorSent_ c) (pendingInitialPathComputation_ c)
    (firstNexthopResolutionProcessed_ c) (nexthopResolutionTimer_ c) (fibBatchTimer_ c)
    (pauseBestPathAndFibProgramming_ c) (bestPathAndFibProgrammingPausedBy_ c) (ribPauseTimer_ c)
    (fibSyncReqPending_ c) (uint 64 (prefixCountForRouteChurn_ c + count)) (routeChurnMonitors c).

(** [isRouteChurnDetected]: with the two watermarks and the previous verdict *)
Definition isRouteChurnDetected (high low : Z) (detected : bool) (c : RibControl) : bool :=
  (high <? prefixCountForRouteChurn_ c) || (detected && (low <=? prefixCountForRouteChurn_ c)).

Definition flushSubscriptions (r : Rib) : Rib :=
  let '(requested, t) := maybeFlushNexthopSubscriptions (rib_nexthops r) in
  mkRib (rib_heap r) (ribEntries_ r) (localRoutes_ r) t (ribCounters_ r) (fibBatchList_ r)
    (rib_nextId r) (ribVersion_ r) (rib_control r)
    (if nonempty requested && hasNexthopRequester then requestedSubscriptions r ++ [requested]
     else requestedSubscriptions r).

(** [processRibInAnnouncement] with attributes, [processRibInWithdrawal] without *)
Definition processRibInUpdate (now : Z) (peer : TinyPeerInfo) (attrs : option (ptr * BgpPath))
    (pfxPathIds : list PrefixPathId) (r : Rib) : option Rib :=
  r ← processPrefixes now peer attrs pfxPathIds r;
  let r := flushSubscriptions r in
  Some (if ribEoRReceived_ (rib_control r) then
          rib_set_control
            (schedulePrepareFibProgrammingTimer
               (incrementPrefixCountForRouteChurn (Z.of_nat (length pfxPathIds)) (rib_control r))) r
        else r).

Definition processRibInAnnouncement (now : Z) (peer : TinyPeerInfo) (attrs : ptr * BgpPath)
    : list PrefixPathId -> Rib -> option Rib := processRibInUpdate now peer (Some attrs).
Definition processRibInWithdrawal (now : Z) (peer : TinyPeerInfo)
    : list PrefixPathId -> Rib -> option Rib := processRibInUpdate now peer None.

(** [processLocalRoutesRoutine]: the announcements it pushes to [ribInQ_] *)
Definition localRouteAnnouncements (r : Rib) : list (PrefixPathId * (ptr * BgpPath)) :=
  omap (fun '(prefix, lr) =>
          if (lr_minSupportRoutes lr =? 0) && negb (lr_requireNhResolution lr)
          then Some ((prefix, kDefaultPathID), lr_attrs lr) else None)
    (map_to_list (localRoutes_ r)).
End RibIn.
