(* ===== verification/RibSpec.v ===== *)
(** * The RIB: routes in, proofs

    The paths of the RIB are those of the messages, whatever the aggregates and next hops
    do beside them; the counters count what is there; and an aggregate is in the RIB
    exactly while enough routes support it. *)

From stdpp Require Import gmap strings fin_sets.
From S2P Require Import Prelude BgpException Folly BgpStructs RouteFilter RouteInfo RibEntry.
From S2P Require Import PathFields AdjRibCommon PackingList AdjRibOut MapSum NexthopCache.
From S2P Require Import RibNexthop RibCounters Rib.

(** ** What [updatePath] leaves alone *)

(** The store only grows, and no route that exists changes but for its next hop. *)
Record heap_grows (w w' : Heap) : Prop := {
  hg_next : (hp_next w <= hp_next w')%positive;
  hg_routes : forall q, (q < hp_next w)%positive -> same_route (hp_routes w' q) (hp_routes w q)
}.

#[export] Instance heap_grows_preorder : PreOrder heap_grows.
Proof.
  split.
  - intros w. by split; [lia|].
  - intros a b c [N1 R1] [N2 R2]. split; [lia|]. intros q Hq.
    unfold same_route in *. rewrite R2 by lia. by apply R1.
Qed.

Lemma unlink_grows p w : heap_grows w (unlinkRouteInfoFromNexthop None p w).
Proof.
  destruct (unlinks_default p w) as (H1 & H2 & H3). split; [lia|]. intros q _.
  destruct (decide (q = p)) as [->|Hne]; [|by rewrite H3]. rewrite H2. unfold same_route. by destruct (hp_routes w p).
Qed.

Lemma make_link_grows r n w :
  let '(p, w1) := make_shared r w in heap_grows w (linkRouteInfoToNexthop p n w1).
Proof.
  unfold make_shared. split.
  - unfold linkRouteInfoToNexthop, linkRouteInfo. destruct n; [|simpl; lia].
    destruct (is_linked _); simpl; lia.
  - intros q Hq. unfold linkRouteInfoToNexthop, linkRouteInfo.
    destruct n as [n|]; [destruct (is_linked _)|]; simpl; rewrite ?upd_ne by lia; done.
Qed.

Lemma entry_ok_grows w w' e : heap_grows w w' -> entry_ok w e -> entry_ok w' e.
Proof.
  intros [N R] [H1 H2 H3 H4 H5]. split; try done.
  - intros p Hp. specialize (H4 p Hp). lia.
  - intros k i p Hp. assert (p ∈ getAllPaths e) as Hin.
    { rewrite getAllPaths_paths. apply elem_of_paths. eauto. }
    destruct (same_route_fields _ _ (R p (H4 p Hin))) as (-> & -> & _ & -> & _). by apply H5.
Qed.

(** The fields of an entry besides its paths *)
Definition same_selection (e' e : RibEntry) : Prop :=
  re_prefix e' = re_prefix e /\ re_inactivePathCount e' = re_inactivePathCount e /\
  re_bestpath e' = re_bestpath e /\ re_advertisedBestpath e' = re_advertisedBestpath e /\
  re_multipaths e' = re_multipaths e /\ re_advertisedMultipaths e' = re_advertisedMultipaths e /\
  re_weights e' = re_weights e /\ re_installToFib e' = re_installToFib e.

(** The path count after an update, from the path before and after *)
Definition countAfter (old : option ptr) (announcement : bool) (count : Z) : Z :=
  match old, announcement with
  | Some _, false => uint 32 (count - 1)
  | None, true => uint 32 (count + 1)
  | _, _ => count
  end.

Lemma updatePath_frame peer attrs inst i n w e changed w' e' :
  updatePath None peer attrs inst i n w e = Some (changed, w', e') ->
  heap_grows w w' /\ same_selection e' e /\
  re_allPathsCount e' =
    countAfter (getRouteInfo (peer_addr peer, peer_routerId peer) i e) (bool_decide (is_Some attrs))
      (re_allPathsCount e).
Proof.
  unfold updatePath, getRouteInfo. set (k := (peer_addr peer, peer_routerId peer)). destruct attrs as [a|].
  - rewrite bool_decide_eq_true_2 by eauto. unfold announcePath. fold k.
    destruct (re_routeInfos e !! k ≫= fun m => m !! i) as [old|] eqn:E.
    + destruct (_ && _); [intros [= <- <- <-]; done|]. intros Hu.
      destruct (newRouteInfo _ _ _ _ _ _) as [r|]; [|done]. cbn [mbind option_bind] in Hu.
      pose proof (make_link_grows r n w) as Hg. destruct (make_shared r w) as [p w1].
      injection Hu as <- <- <-. split; [|done]. etransitivity; [exact Hg|apply unlink_grows].
    + intros Hu. destruct (newRouteInfo _ _ _ _ _ _) as [r|]; [|done]. cbn [mbind option_bind] in Hu.
      pose proof (make_link_grows r n w) as Hg. destruct (make_shared r w) as [p w1].
      by injection Hu as <- <- <-.
  - rewrite bool_decide_eq_false_2 by (by intros [? ?]). unfold withdrawPath. fold k.
    destruct (re_routeInfos e !! k) as [x|]; simpl; [|by intros [= <- <- <-]].
    destruct (x !! i) as [p|]; intros [= <- <- <-]; [|done]. split; [apply unlink_grows|done].
Qed.

(** ** Consistency of the RIB *)

Record rib_ok (r : Rib) : Prop := {
  ro_prefix : forall p slot, findSlot p r = Some slot -> re_prefix (sl_entry slot) = p;
  ro_entry : forall p slot, findSlot p r = Some slot -> entry_ok (rib_heap r) (sl_entry slot)
}.

(** Fewer than 2^32 paths for a prefix, with room for two more *)
Definition room (r : Rib) : Prop := forall p slot, findSlot p r = Some slot ->
  Z.of_nat (length (getAllPaths (sl_entry slot))) < 2 ^ 32 - 2.

(** The attributes a peer has announced for a prefix under a path id *)
Definition ribPath (r : Rib) (p : CIDRNetwork) (k : BgpPeerId) (i : Z) : option ptr :=
  slot ← findSlot p r;
  q ← getRouteInfo k i (sl_entry slot);
  Some (fst (ri_attrs (hp_routes (rib_heap r) q))).

Definition pathCount (r : Rib) (p : CIDRNetwork) : Z :=
  match findSlot p r with Some slot => re_allPathsCount (sl_entry slot) | None => 0 end.

Lemma count_exact w e :
  entry_ok w e -> Z.of_nat (length (getAllPaths e)) < 2 ^ 32 ->
  re_allPathsCount e = Z.of_nat (length (getAllPaths e)).
Proof. intros [_ -> _ _ _] Hl. apply uint_id. lia. Qed.

Lemma count_zero w e :
  entry_ok w e -> Z.of_nat (length (getAllPaths e)) < 2 ^ 32 ->
  re_allPathsCount e = 0 <-> re_routeInfos e = ∅.
Proof.
  intros Hok Hl. rewrite (count_exact w e Hok Hl). split.
  - intros Hz. apply map_empty. intros k. destruct (re_routeInfos e !! k) as [x|] eqn:E; [|done].
    pose proof (eo_nonempty _ _ Hok _ _ E) as (i & p & Ei)%map_choose.
    assert (p ∈ getAllPaths e) as Hin.
    { rewrite getAllPaths_paths. apply elem_of_paths. exists k, i. by rewrite E. }
    destruct (getAllPaths e); [by apply elem_of_nil in Hin|simpl in Hz; lia].
  - intros E. rewrite getAllPaths_paths, E. done.
Qed.

(** A path is among those counted. *)
Lemma count_pos w e k i q :
  entry_ok w e -> Z.of_nat (length (getAllPaths e)) < 2 ^ 32 ->
  getRouteInfo k i e = Some q -> 1 <= re_allPathsCount e.
Proof.
  intros Hok Hl Hq. rewrite (count_exact w e Hok Hl).
  assert (q ∈ getAllPaths e) as Hin by (rewrite getAllPaths_paths; apply elem_of_paths; eauto).
  destruct (getAllPaths e); [by apply elem_of_nil in Hin|simpl; lia].
Qed.

Section RibSpec.
Context `{SubnetOps, RibConfig}.

(** ** One update *)

Definition peerKey (peer : TinyPeerInfo) : BgpPeerId := (peer_addr peer, peer_routerId peer).

(** The slots besides that of the prefix, and everything else the update does not touch *)
Record update_spec (peer : TinyPeerInfo) (attrs : option (ptr * BgpPath)) (p : CIDRNetwork) (i : Z)
    (slot : RibSlot) (r : Rib) (slot' : RibSlot) (r' : Rib) : Prop := {
  us_ok : rib_ok r';
  us_slot : findSlot p r' = Some slot';
  us_other : forall p', p' <> p -> findSlot p' r' = findSlot p' r;
  us_heap : heap_grows (rib_heap r) (rib_heap r');
  us_paths : forall k j, (q ← getRouteInfo k j (sl_entry slot'); Some (fst (ri_attrs (hp_routes (rib_heap r') q)))) =
    if bool_decide ((k, j) = (peerKey peer, i)) then fst <$> attrs
    else q ← getRouteInfo k j (sl_entry slot); Some (fst (ri_attrs (hp_routes (rib_heap r) q)));
  us_count : re_allPathsCount (sl_entry slot') =
    countAfter (getRouteInfo (peerKey peer) i (sl_entry slot)) (bool_decide (is_Some attrs))
      (re_allPathsCount (sl_entry slot));
  us_selection : same_selection (sl_entry slot') (sl_entry slot);
  us_fib : sl_hasFibOutState slot' = sl_hasFibOutState slot;
  us_id : sl_nexthopsId slot' = sl_nexthopsId slot;
  us_rest : localRoutes_ r' = localRoutes_ r /\ ribCounters_ r' = ribCounters_ r /\
    fibBatchList_ r' = fibBatchList_ r /\ rib_control r' = rib_control r
}.

Lemma updateSlot_spec now peer attrs inst i p slot r :
  rib_ok r -> findSlot p r = Some slot ->
  match attrs with Some a => path_localPref a.2 <> None | None => True end ->
  exists slot' r', updateSlot now peer attrs inst i slot r = Some (slot', r') /\
    update_spec peer attrs p i slot r slot' r'.
Proof.
  intros [Rp Re] Es Hl. unfold updateSlot.
  destruct (match attrs with Some a => _ | None => _ end) as [n t] eqn:En. clear En.
  pose proof (Rp _ _ Es) as Hpre. pose proof (Re _ _ Es) as Hok.
  destruct (update_path_correct None (rib_heap r) (sl_entry slot) peer attrs inst i n unlinks_default Hok Hl)
    as (changed & w' & e' & Hu & Hok' & _ & Hch & Hother & Hhere).
  destruct (updatePath_frame _ _ _ _ _ _ _ _ _ _ Hu) as (Hg & Hsel & Hcnt).
  rewrite Hu. cbn [mbind option_bind]. eexists _, _. split; [done|]. rewrite Hpre.
  assert (Hfind : forall p', findSlot p' (rib_set_entries w' (<[p := sl_set_entry e' slot]> (ribEntries_ r)) r) =
    if decide (p = p') then Some (sl_set_entry e' slot) else findSlot p' r).
  { intros p'. unfold findSlot. simpl. by rewrite lookup_insert. }
  split; simpl.
  - split; intros p' s'; change (findSlot p' (rib_set_nexthops _ ?x)) with (findSlot p' x); rewrite Hfind;
      case_decide as D; try (intros [= <-]).
    + subst p'. simpl. destruct Hsel as (-> & _). done.
    + by apply Rp.
    + exact Hok'.
    + intros E. simpl. by eapply entry_ok_grows, Re.
  - change (findSlot p (rib_set_nexthops _ ?x)) with (findSlot p x). by rewrite Hfind, decide_True.
  - intros p' Hne. change (findSlot p' (rib_set_nexthops _ ?x)) with (findSlot p' x).
    by rewrite Hfind, decide_False.
  - done.
  - intros k j. clear Hcnt.
    destruct (bool_decide_reflect ((k, j) = (peerKey peer, i))) as [D|D].
    + apply pair_equal_spec in D as [-> ->]. destruct attrs as [a|].
      * destruct Hhere as (q & Hq & Hann). unfold peerKey. rewrite Hq. simpl.
        destruct changed; [by destruct Hann as (_ & -> & _)|].
        destruct Hch as [-> ->], Hann as (Eold & E1 & _). by rewrite E1.
      * destruct Hhere as [Hq _]. unfold peerKey. by rewrite Hq.
    + rewrite Hother by done. destruct (getRouteInfo k j (sl_entry slot)) as [q|] eqn:Eq; [|done]. simpl.
      assert (q ∈ getAllPaths (sl_entry slot)) as Hin by (rewrite getAllPaths_paths; apply elem_of_paths; eauto).
      by destruct (same_route_fields _ _ (hg_routes _ _ Hg q (eo_alloc _ _ Hok q Hin))) as (_ & _ & -> & _).
  - exact Hcnt.
  - exact Hsel.
  - done.
  - done.
  - done.
Qed.

(** ** One route *)

Definition local_pref_set (attrs : option (ptr * BgpPath)) : Prop :=
  match attrs with Some a => path_localPref a.2 <> None | None => True end.

(** The prefix has room for one more path. *)
Definition fits (r : Rib) (p : CIDRNetwork) : Prop := forall slot, findSlot p r = Some slot ->
  Z.of_nat (length (getAllPaths (sl_entry slot))) < 2 ^ 32 - 1.

(** What the aggregation of a route answers and what it makes of the local routes *)
Definition aggregation (peer : TinyPeerInfo) (p : CIDRNetwork) (r : Rib) (newAllPathCnt : Z)
    : list (CIDRNetwork * option (ptr * BgpPath)) * gmap CIDRNetwork LocalRoute :=
  if isAggRoute peer p r then ([], localRoutes_ r)
  else match supportChange (bool_decide (is_Some (localRoutes_ r !! p))) (pathCount r p) newAllPathCnt with
       | Some b => (aggRoutes p b (localRoutes_ r), supportedRoutes p b (localRoutes_ r))
       | None => ([], localRoutes_ r)
       end.

Record single_spec (peer : TinyPeerInfo) (attrs : option (ptr * BgpPath)) (p : CIDRNetwork) (i : Z)
    (r : Rib) (aggs : list (CIDRNetwork * option (ptr * BgpPath))) (r' : Rib) : Prop := {
  ss_ok : rib_ok r';
  ss_other : forall p', p' <> p -> findSlot p' r' = findSlot p' r;
  ss_heap : heap_grows (rib_heap r) (rib_heap r');
  ss_paths : forall k j, ribPath r' p k j =
    if bool_decide ((k, j) = (peerKey peer, i)) then fst <$> attrs else ribPath r p k j;
  ss_count : pathCount r' p =
    countAfter (ribPath r p (peerKey peer) i) (bool_decide (is_Some attrs)) (pathCount r p);
  ss_aggs : (aggs, localRoutes_ r') = aggregation peer p r (pathCount r' p);
  ss_control : rib_control r' = rib_control r
}.

Lemma ribPath_None r p k j : findSlot p r = None -> ribPath r p k j = None.
Proof. unfold ribPath. by intros ->. Qed.

(** A prefix without paths *)
Lemma no_path r p slot k j :
  findSlot p r = Some slot -> re_routeInfos (sl_entry slot) = ∅ -> ribPath r p k j = None.
Proof. unfold ribPath, getRouteInfo. intros -> E. simpl. by rewrite E, lookup_empty. Qed.

Lemma countAfter_iff {o o' : option ptr} a n : (is_Some o <-> is_Some o') -> countAfter o a n = countAfter o' a n.
Proof.
  intros Hi. destruct o as [x|], o' as [y|]; try done; exfalso.
  - by destruct (proj1 Hi (mk_is_Some _ _ eq_refl)).
  - by destruct (proj2 Hi (mk_is_Some _ _ eq_refl)).
Qed.

(** What becomes of the aggregates is decided after the entry. *)
Lemma supportChange_zero b : supportChange b 0 0 = None.
Proof. by destruct b. Qed.

(** A new entry has no paths. *)
Lemma newSlot_ok p w : entry_ok w (sl_entry (newSlot p)).
Proof. apply newRibEntry_ok. Qed.

Lemma findOrAddSlot_spec p a r :
  rib_ok r -> fits r p ->
  match findOrAddSlot p a r with
  | None => findSlot p r = None /\ a = false
  | Some (slot, r1) =>
      rib_ok r1 /\ fits r1 p /\ findSlot p r1 = Some slot /\
      (forall p', p' <> p -> findSlot p' r1 = findSlot p' r) /\
      rib_heap r1 = rib_heap r /\ localRoutes_ r1 = localRoutes_ r /\ rib_control r1 = rib_control r /\
      (forall k j, ribPath r1 p k j = ribPath r p k j) /\ pathCount r1 p = pathCount r p /\ (a = false -> r1 = r)
  end.
Proof.
  intros Hok Hf. unfold findOrAddSlot. destruct (findSlot p r) as [slot|] eqn:Es; [done|].
  destruct a; [|done]. cbn [negb]. destruct Hok as [Rp Re].
  set (r1 := rib_set_counters _ _).
  assert (Hfind : forall p', findSlot p' r1 = if decide (p = p') then Some (newSlot p) else findSlot p' r).
  { intros p'. unfold findSlot. simpl. by rewrite lookup_insert. }
  assert (Hp : findSlot p r1 = Some (newSlot p)) by (by rewrite Hfind, decide_True).
  split_and!; try done.
  - split; intros p' s'; rewrite Hfind; case_decide; try (intros [= <-]); [done|apply Rp|apply newSlot_ok|apply Re].
  - intros s'. rewrite Hp. intros [= <-]. by vm_compute.
  - intros p' Hne. by rewrite Hfind, decide_False.
  - intros k j. rewrite (ribPath_None r) by done. by eapply no_path.
  - unfold pathCount. by rewrite Hp, Es.
Qed.

(** Erasing an entry without paths *)
Lemma checkWithdrawal_spec p slot r :
  rib_ok r -> findSlot p r = Some slot ->
  let r' := checkWithdrawalBeforeRouteProgrammed p slot r in
  rib_ok r' /\ (forall p', p' <> p -> findSlot p' r' = findSlot p' r) /\ rib_heap r' = rib_heap r /\
  localRoutes_ r' = localRoutes_ r /\ rib_control r' = rib_control r /\
  (forall k j, ribPath r' p k j = ribPath r p k j) /\ pathCount r' p = pathCount r p.
Proof.
  intros Hok Es. unfold checkWithdrawalBeforeRouteProgrammed.
  destruct (negb _ && _) eqn:B; [|done]. apply andb_true_iff in B as [_ E%bool_decide_eq_true].
  destruct Hok as [Rp Re]. set (r1 := eraseEntry _ _).
  assert (Hfind : forall p', findSlot p' r1 = if decide (p = p') then None else findSlot p' r).
  { intros p'. unfold findSlot. simpl. by rewrite lookup_delete. }
  assert (Hp : findSlot p r1 = None) by (by rewrite Hfind, decide_True).
  simpl. split_and!; try done.
  - split; intros p' s'; rewrite Hfind; case_decide; try done; [apply Rp|apply Re].
  - intros p' Hne. by rewrite Hfind, decide_False.
  - intros k j. rewrite (ribPath_None r1) by done. symmetry. by eapply no_path.
  - unfold pathCount. rewrite Hp, Es, (eo_count _ _ (Re _ _ Es)), getAllPaths_paths, E. done.
Qed.

Lemma ribPath_slot r p slot k j :
  findSlot p r = Some slot ->
  ribPath r p k j = (q ← getRouteInfo k j (sl_entry slot); Some (fst (ri_attrs (hp_routes (rib_heap r) q)))).
Proof. unfold ribPath. by intros ->. Qed.

(** Aggregation touches nothing but the local routes. *)
Lemma aggregateRoute_entries p b r :
  (aggregateRoute p b r).1 = aggRoutes p b (localRoutes_ r) /\
  localRoutes_ (aggregateRoute p b r).2 = supportedRoutes p b (localRoutes_ r) /\
  ribEntries_ (aggregateRoute p b r).2 = ribEntries_ r /\
  rib_heap (aggregateRoute p b r).2 = rib_heap r /\
  rib_control (aggregateRoute p b r).2 = rib_control r.
Proof. done. Qed.

Lemma no_update_spec peer p i r :
  rib_ok r -> pathCount r p = 0 -> (forall k j, ribPath r p k j = None) ->
  single_spec peer None p i r [] r.
Proof.
  intros Hok Hc Hp. split; try done.
  - intros k j. by case_bool_decide.
  - by rewrite Hp.
  - unfold aggregation. rewrite Hc, supportChange_zero. by destruct (isAggRoute _ _ _).
Qed.

(** The RIB after the entry is updated, before aggregation *)
Lemma updated_spec c peer attrs p i slot r slot' r1 :
  let a := bool_decide (is_Some attrs) in
  update_spec peer attrs p i slot r slot' r1 -> findSlot p r = Some slot ->
  let r2 := rib_set_counters c r1 in
  let r3 := if a then r2 else checkWithdrawalBeforeRouteProgrammed p slot' r2 in
  rib_ok r3 /\ (forall p', p' <> p -> findSlot p' r3 = findSlot p' r) /\
  heap_grows (rib_heap r) (rib_heap r3) /\
  (forall k j, ribPath r3 p k j = if bool_decide ((k, j) = (peerKey peer, i)) then fst <$> attrs else ribPath r p k j) /\
  pathCount r3 p = re_allPathsCount (sl_entry slot') /\
  re_allPathsCount (sl_entry slot') = countAfter (ribPath r p (peerKey peer) i) a (pathCount r p) /\
  localRoutes_ r3 = localRoutes_ r /\ rib_control r3 = rib_control r.
Proof.
  intros a U Es r2 r3. destruct (us_rest _ _ _ _ _ _ _ _ U) as (Hlr & _ & _ & Hcl).
  assert (H2 : rib_ok r2) by (destruct (us_ok _ _ _ _ _ _ _ _ U); split; done).
  assert (Hs2 : findSlot p r2 = Some slot') by apply (us_slot _ _ _ _ _ _ _ _ U).
  assert (Hr3 : rib_ok r3 /\ (forall p', p' <> p -> findSlot p' r3 = findSlot p' r2) /\ rib_heap r3 = rib_heap r2 /\
    localRoutes_ r3 = localRoutes_ r2 /\ rib_control r3 = rib_control r2 /\
    (forall k j, ribPath r3 p k j = ribPath r2 p k j) /\ pathCount r3 p = pathCount r2 p).
  { unfold r3. destruct a; [done|]. by apply checkWithdrawal_spec. }
  destruct Hr3 as (H3 & Ho & Hh & Hl3 & Hc3 & Hp3 & Hn3). split_and!; try done.
  - intros p' Hne. rewrite Ho by done. by apply (us_other _ _ _ _ _ _ _ _ U).
  - rewrite Hh. apply (us_heap _ _ _ _ _ _ _ _ U).
  - intros k j. rewrite Hp3, (ribPath_slot r2 p slot' _ _ Hs2), (ribPath_slot r p slot _ _ Es).
    apply (us_paths _ _ _ _ _ _ _ _ U).
  - rewrite Hn3. unfold pathCount. by rewrite Hs2.
  - rewrite (us_count _ _ _ _ _ _ _ _ U), (ribPath_slot r p slot _ _ Es). unfold pathCount. rewrite Es.
    apply countAfter_iff. by destruct (getRouteInfo _ _ _).
  - by rewrite Hl3.
  - by rewrite Hc3.
Qed.

Lemma isAgg_same peer p r r' : localRoutes_ r' = localRoutes_ r -> isAggRoute peer p r' = isAggRoute peer p r.
Proof. unfold isAggRoute, localRouteOf. by intros ->. Qed.

Lemma is_announcement (attrs : option (ptr * BgpPath)) :
  (match attrs with Some _ => true | None => false end) = bool_decide (is_Some attrs).
Proof.
  symmetry. destruct attrs; [apply bool_decide_eq_true_2; eauto|].
  apply bool_decide_eq_false_2. by intros [? ?].
Qed.

Lemma is_withdrawal (attrs : option (ptr * BgpPath)) : bool_decide (is_Some attrs) = false -> attrs = None.
Proof. rewrite <- is_announcement. by destruct attrs. Qed.

(** Local routes apart, the RIB after aggregation is the one before. *)
Lemma single_of_entries peer attrs p i r r3 aggs r' :
  rib_ok r3 -> (forall p', p' <> p -> findSlot p' r3 = findSlot p' r) ->
  heap_grows (rib_heap r) (rib_heap r3) ->
  (forall k j, ribPath r3 p k j = if bool_decide ((k, j) = (peerKey peer, i)) then fst <$> attrs else ribPath r p k j) ->
  pathCount r3 p = countAfter (ribPath r p (peerKey peer) i) (bool_decide (is_Some attrs)) (pathCount r p) ->
  rib_control r3 = rib_control r ->
  ribEntries_ r' = ribEntries_ r3 -> rib_heap r' = rib_heap r3 -> rib_control r' = rib_control r3 ->
  (aggs, localRoutes_ r') = aggregation peer p r (pathCount r3 p) ->
  single_spec peer attrs p i r aggs r'.
Proof.
  intros [Rp Re] Ho Hh Hp Hn Hc Q1 Q2 Q3 Q4.
  assert (Hs : forall p', findSlot p' r' = findSlot p' r3) by (intros; unfold findSlot; by rewrite Q1).
  split.
  - split; intros p' s'; rewrite Hs; [apply Rp|rewrite Q2; apply Re].
  - intros p' Hne. rewrite Hs. by apply Ho.
  - by rewrite Q2.
  - intros k j. rewrite <- Hp. unfold ribPath. by rewrite Hs, Q2.
  - rewrite <- Hn. unfold pathCount. by rewrite Hs.
  - rewrite Q4. unfold pathCount. by rewrite Hs.
  - by rewrite Q3.
Qed.

(** What one route of a message does to the RIB *)
Lemma processSingle_spec now peer attrs p i r :
  rib_ok r -> fits r p -> local_pref_set attrs ->
  exists aggs r', processSingleRibInUpdate now peer attrs (p, i) r = Some (aggs, r') /\
    single_spec peer attrs p i r aggs r'.
Proof.
  intros Hok Hf Hl. unfold processSingleRibInUpdate. rewrite is_announcement.
  pose proof (findOrAddSlot_spec p (bool_decide (is_Some attrs)) r Hok Hf) as Hadd.
  destruct (findOrAddSlot _ _ r) as [[slot r1]|]; cycle 1.
  { destruct Hadd as [Es ->%is_withdrawal]. eexists _, _. split; [done|].
    apply no_update_spec; [done|by unfold pathCount; rewrite Es|intros; by apply ribPath_None]. }
  destruct Hadd as (H1 & Hf1 & Es & Ho & Hh & Hlr & Hc & Hp & Hn & Hsame).
  assert (Hcnt : re_allPathsCount (sl_entry slot) = pathCount r p) by (rewrite <- Hn; unfold pathCount; by rewrite Es).
  rewrite Hcnt. destruct (negb _ && _) eqn:B.
  { apply andb_true_iff in B as [Hna%negb_true_iff Hz%Z.eqb_eq]. rewrite (Hsame Hna) in *.
    apply is_withdrawal in Hna as ->. eexists _, _. split; [done|]. apply no_update_spec; [done..|].
    intros k j. eapply no_path; [done|]. rewrite Hz in Hcnt. revert Hcnt. eapply count_zero.
    - by apply (ro_entry _ H1 p).
    - specialize (Hf1 _ Es). lia. }
  destruct (updateSlot_spec now peer attrs (match localRouteOf peer p r1 with
      Some lr => lr_installToFib lr | None => negb (peer_isRedistributePeer peer) end) i p slot r1 H1 Es Hl)
    as (slot' & r2 & Hu & U).
  rewrite Hu. cbn [mbind option_bind]. rewrite (isAgg_same _ _ _ _ Hlr).
  set (c := onPathsDelta _ _ _). set (r3 := if bool_decide (is_Some attrs) then _ else _).
  destruct (updated_spec c peer attrs p i slot r1 slot' r2 U Es) as (H3 & Ho3 & Hh3 & Hp3 & Hn3 & Hc3 & Hl3 & Hk3).
  fold r3 in H3, Ho3, Hh3, Hp3, Hn3, Hl3, Hk3.
  rewrite Hp, Hn, <- Hn3 in Hc3. rewrite <- Hn3.
  set (q := if isAggRoute peer p r then _ else _).
  exists (match q with Some (aggs, _) => aggs | None => [] end), (match q with Some (_, r') => r' | None => r3 end).
  assert (Hq : match q with
    | Some (aggs, r') => ribEntries_ r' = ribEntries_ r3 /\ rib_heap r' = rib_heap r3 /\ rib_control r' = rib_control r3 /\
       (aggs, localRoutes_ r') = aggregation peer p r (pathCount r3 p)
    | None => False end).
  { unfold q, aggregation. assert (Hlr3 : localRoutes_ r3 = localRoutes_ r) by (by rewrite Hl3).
    clear q. clearbody r3.
    destruct (isAggRoute _ _ _); cbn; [by rewrite Hlr3|]. rewrite Hlr3.
    destruct (supportChange _ _ _); cbn; by rewrite Hlr3. }
  destruct q as [[aggs r']|]; [|done]. split; [done|]. destruct Hq as (Q1 & Q2 & Q3 & Q4).
  apply (single_of_entries peer attrs p i r r3); try done.
  - intros p' Hne. rewrite Ho3 by done. by apply Ho.
  - by rewrite <- Hh.
  - intros k j. rewrite Hp3. by rewrite Hp.
  - by rewrite Hk3.
Qed.
End RibSpec.
