(* ===== verification/RibPaths.v ===== *)
(** * The RIB: what the messages make of it

    A specification of the intake of routes: a map of the paths the peers have announced
    and not withdrawn.  The RIB holds these paths and, beside them, an aggregate exactly
    while enough of them lie within it. *)

From stdpp Require Import gmap strings fin_sets.
From S2P Require Import Prelude BgpException Folly BgpStructs RouteFilter RouteInfo RibEntry.
From S2P Require Import PathFields AdjRibCommon PackingList AdjRibOut MapSum NexthopCache.
From S2P Require Import RibNexthop RibCounters Rib RibSpec.

(** ** The keys of an entry *)

Definition routeKey (x : RouteInfo) : BgpPeerId * Z :=
  ((peer_addr (ri_peer x), peer_routerId (ri_peer x)), ri_receivedPathId x).

Definition keysOf (w : Heap) (e : RibEntry) : gset (BgpPeerId * Z) :=
  list_to_set (map (fun q => routeKey (hp_routes w q)) (getAllPaths e)).

Lemma elem_of_getAllPaths e q : q ∈ getAllPaths e <-> exists k i, getRouteInfo k i e = Some q.
Proof. rewrite getAllPaths_paths. apply elem_of_paths. Qed.

Lemma routeKey_of w e k i q :
  entry_ok w e -> getRouteInfo k i e = Some q -> routeKey (hp_routes w q) = (k, i).
Proof. intros Hok Hq. unfold routeKey. by destruct (eo_keyed _ _ Hok _ _ _ Hq) as (-> & -> & _). Qed.

Lemma elem_of_keysOf w e k i : entry_ok w e -> (k, i) ∈ keysOf w e <-> is_Some (getRouteInfo k i e).
Proof.
  intros Hok. unfold keysOf. rewrite elem_of_list_to_set, list_elem_of_fmap. split.
  - intros (q & Hk & (k' & i' & Hq)%elem_of_getAllPaths).
    rewrite (routeKey_of _ _ _ _ _ Hok Hq) in Hk. injection Hk as -> ->. eauto.
  - intros [q Hq]. exists q. split; [by rewrite (routeKey_of _ _ _ _ _ Hok Hq)|]. apply elem_of_getAllPaths. eauto.
Qed.

Lemma size_keysOf w e : entry_ok w e -> size (keysOf w e) = length (getAllPaths e).
Proof.
  intros Hok. unfold keysOf. rewrite size_list_to_set; [by rewrite length_map|].
  apply NoDup_fmap_2_strong; [|apply (eo_nodup _ _ Hok)].
  intros q q' (k & i & Hq)%elem_of_getAllPaths (k' & i' & Hq')%elem_of_getAllPaths.
  rewrite (routeKey_of _ _ _ _ _ Hok Hq), (routeKey_of _ _ _ _ _ Hok Hq'). intros [= -> ->]. congruence.
Qed.

(** The keys of a prefix of the RIB *)
Definition ribKeys (r : Rib) (p : CIDRNetwork) : gset (BgpPeerId * Z) :=
  match findSlot p r with Some slot => keysOf (rib_heap r) (sl_entry slot) | None => ∅ end.

Lemma elem_of_ribKeys r p k i : rib_ok r -> (k, i) ∈ ribKeys r p <-> is_Some (ribPath r p k i).
Proof.
  intros Hok. unfold ribKeys, ribPath. destruct (findSlot p r) as [slot|] eqn:Es; simpl.
  - rewrite elem_of_keysOf by (by eapply ro_entry). by destruct (getRouteInfo _ _ _).
  - rewrite elem_of_empty. split; [done|]. by intros [? ?].
Qed.

Lemma fits_keys r p : rib_ok r -> Z.of_nat (size (ribKeys r p)) < 2 ^ 32 - 1 -> fits r p.
Proof.
  intros Hok. unfold ribKeys. intros Hs slot Es. rewrite Es in Hs.
  by rewrite <- (size_keysOf (rib_heap r)) by (by eapply ro_entry).
Qed.

Lemma pathCount_keys r p :
  rib_ok r -> Z.of_nat (size (ribKeys r p)) < 2 ^ 32 -> pathCount r p = Z.of_nat (size (ribKeys r p)).
Proof.
  intros Hok. unfold ribKeys, pathCount. destruct (findSlot p r) as [slot|] eqn:Es; [|by rewrite size_empty].
  pose proof (ro_entry _ Hok _ _ Es) as He. rewrite size_keysOf by done. apply (count_exact _ _ He).
Qed.

Lemma ribPath_other r r' p k j :
  rib_ok r -> heap_grows (rib_heap r) (rib_heap r') -> findSlot p r' = findSlot p r ->
  ribPath r' p k j = ribPath r p k j.
Proof.
  intros Hok Hg Hs. unfold ribPath. rewrite Hs. destruct (findSlot p r) as [slot|] eqn:Es; [|done]. simpl.
  destruct (getRouteInfo k j (sl_entry slot)) as [q|] eqn:Eq; [|done]. simpl.
  assert (Hq : (q < hp_next (rib_heap r))%positive).
  { apply (eo_alloc _ _ (ro_entry _ Hok _ _ Es)), elem_of_getAllPaths. eauto. }
  by destruct (same_route_fields _ _ (hg_routes _ _ Hg q Hq)) as (_ & _ & -> & _).
Qed.

(** ** The specification *)

(** The paths of the peers, by prefix *)
Notation Paths := (gmap CIDRNetwork (gmap (BgpPeerId * Z) ptr)).
Definition at_ (m : Paths) (p : CIDRNetwork) : gmap (BgpPeerId * Z) ptr := default ∅ (m !! p).

(** One route of a message *)
Record Update := mkUpdate {
  u_peer : TinyPeerInfo;
  u_attrs : option (ptr * BgpPath);
  u_prefix : CIDRNetwork;
  u_pathId : Z
}.

Definition learn (u : Update) (m : Paths) : Paths :=
  let key := (peerKey (u_peer u), u_pathId u) in
  <[u_prefix u := match u_attrs u with
                  | Some a => <[key := a.1]> (at_ m (u_prefix u))
                  | None => delete key (at_ m (u_prefix u))
                  end]> m.

Lemma at_learn u m p :
  at_ (learn u m) p =
  if decide (u_prefix u = p)
  then match u_attrs u with
       | Some a => <[(peerKey (u_peer u), u_pathId u) := a.1]> (at_ m p)
       | None => delete (peerKey (u_peer u), u_pathId u) (at_ m p)
       end
  else at_ m p.
Proof. unfold learn, at_. rewrite lookup_insert. by case_decide; subst. Qed.

Lemma lookup_at_learn u m p k j :
  at_ (learn u m) p !! (k, j) =
  if bool_decide (p = u_prefix u /\ (k, j) = (peerKey (u_peer u), u_pathId u)) then fst <$> u_attrs u
  else at_ m p !! (k, j).
Proof.
  rewrite at_learn. destruct (bool_decide_reflect (p = u_prefix u /\ (k, j) = (peerKey (u_peer u), u_pathId u))) as [[-> E]|D].
  - rewrite decide_True, E by done. destruct (u_attrs u); [by rewrite lookup_insert_eq|by rewrite lookup_delete_eq].
  - case_decide as Ep; [|done]. destruct (u_attrs u).
    + rewrite lookup_insert_ne; [done|]. intros E. apply D. by subst.
    + rewrite lookup_delete_ne; [done|]. intros E. apply D. by subst.
Qed.

Section RibPaths.
Context `{SubnetOps, RibConfig}.
Variable cfg : gmap CIDRNetwork LocalRoute.       (** the configured local routes *)

(** What a prefix counts for: its paths when it is a local route itself, else one *)
Definition weight (p : CIDRNetwork) (x : gmap (BgpPeerId * Z) ptr) : Z :=
  let n := Z.of_nat (size x) in
  if bool_decide (is_Some (cfg !! p)) then n else Z.min 1 n.

(** The routes within a local route *)
Definition support (m : Paths) (L : CIDRNetwork) : Z :=
  map_sum (fun p x => if isSubnet p L then weight p x else 0) m.

Definition aggregate (p : CIDRNetwork) : option LocalRoute :=
  lr ← cfg !! p; if 0 <? lr_minSupportRoutes lr then Some lr else None.

Definition localKey : BgpPeerId * Z := (localPeerId, kDefaultPathID).

(** The path of a peer for a prefix; that of the local peer for an aggregate is there while
    enough routes support it. *)
Definition expected (m : Paths) (p : CIDRNetwork) (key : BgpPeerId * Z) : option ptr :=
  match aggregate p with
  | Some lr => if bool_decide (key = localKey)
               then if lr_minSupportRoutes lr <=? support m p then Some (lr_attrs lr).1 else None
               else at_ m p !! key
  | None => at_ m p !! key
  end.

(** The local routes with their counts; a route that needs no support has none. *)
Definition counted (m : Paths) (L : CIDRNetwork) (lr : LocalRoute) : LocalRoute :=
  if lr_minSupportRoutes lr =? 0 then lr else set_supportPfxCnt (support m L) lr.
Definition countedRoutes (m : Paths) : gmap CIDRNetwork LocalRoute :=
  map_imap (fun L lr => Some (counted m L lr)) cfg.

Lemma lookup_counted m L : countedRoutes m !! L = counted m L <$> cfg !! L.
Proof. unfold countedRoutes. rewrite map_lookup_imap. by destruct (cfg !! L). Qed.

(** ** Support *)

Lemma weight_nonneg p x : 0 <= weight p x.
Proof. unfold weight. case_bool_decide; lia. Qed.
Lemma weight_empty p : weight p ∅ = 0.
Proof. unfold weight. rewrite map_size_empty. by case_bool_decide. Qed.

Lemma support_nonneg m L : 0 <= support m L.
Proof. apply map_sum_nonneg. intros p x _. pose proof (weight_nonneg p x). destruct (isSubnet p L); lia. Qed.

(** What a route adds to the support of the local routes it is within *)
Definition gain (u : Update) (m : Paths) : Z :=
  weight (u_prefix u) (at_ (learn u m) (u_prefix u)) - weight (u_prefix u) (at_ m (u_prefix u)).

Lemma support_at m p L : isSubnet p L = true -> weight p (at_ m p) <= support m L.
Proof.
  intros Hs. unfold at_. destruct (m !! p) as [x|] eqn:E; simpl.
  - pose proof (map_sum_ge (fun p x => if isSubnet p L then weight p x else 0) m p x) as Hge.
    cbv beta in Hge. rewrite Hs in Hge. apply Hge; [|done]. intros q y _. pose proof (weight_nonneg q y). destruct (isSubnet q L); lia.
  - rewrite weight_empty. apply support_nonneg.
Qed.

Lemma support_learn u m L :
  support (learn u m) L = support m L + (if isSubnet (u_prefix u) L then gain u m else 0).
Proof.
  unfold support, gain. rewrite at_learn, decide_True by done. unfold learn. rewrite map_sum_update.
  unfold at_. destruct (m !! u_prefix u) as [x|]; simpl; rewrite ?weight_empty; destruct (isSubnet _ _); lia.
Qed.

Lemma size_learn u m :
  let n := Z.of_nat (size (at_ m (u_prefix u))) in
  let n' := Z.of_nat (size (at_ (learn u m) (u_prefix u))) in
  n' = n - 1 \/ n' = n \/ n' = n + 1.
Proof.
  rewrite at_learn, decide_True by done. set (x := at_ m (u_prefix u)). set (key := (_, _)). simpl.
  destruct (u_attrs u).
  - rewrite map_size_insert. destruct (x !! key); simpl; lia.
  - rewrite map_size_delete. destruct (x !! key) eqn:E; simpl; [|lia].
    pose proof (map_size_ne_0_lookup_2 x key) as Hp. rewrite E in Hp. specialize (Hp ltac:(eauto)). lia.
Qed.

(** The counts of the entry tell the gain: [b] is the aggregate's own path. *)
Lemma supportChange_gain u m b :
  (b = 0 \/ b = 1 /\ is_Some (cfg !! u_prefix u)) ->
  let n := Z.of_nat (size (at_ m (u_prefix u))) in
  let n' := Z.of_nat (size (at_ (learn u m) (u_prefix u))) in
  n + b + 1 < 2 ^ 32 ->
  supportChange (bool_decide (is_Some (cfg !! u_prefix u))) (n + b) (n' + b) =
  if gain u m =? 1 then Some true else if gain u m =? -1 then Some false else None.
Proof.
  intros Hb n n' Hbound. assert (0 <= b <= 1) by (destruct Hb as [->|[-> _]]; lia). pose proof (size_learn u m) as Hn. unfold gain, weight, supportChange.
  fold n n' in Hn |- *. cbv zeta in Hn.
  assert (0 <= n /\ 0 <= n') by lia. clearbody n n'. rewrite (uint_id 32 (n + b + 1)) by lia.
  assert (Hm : n + b = 0 /\ uint 32 (n + b - 1) = 2 ^ 32 - 1 \/ uint 32 (n + b - 1) = n + b - 1).
  { destruct (decide (n + b = 0)) as [E|E]; [left; by rewrite E|right; apply uint_id; lia]. }
  destruct (bool_decide_reflect (is_Some (cfg !! u_prefix u))) as [D|D]; cbn [negb andb orb].
  - destruct Hm as [[E ->]| ->]; repeat (match goal with |- context [?x =? ?y] => destruct (Z.eqb_spec x y) end; cbn [negb andb orb]); done || lia.
  - destruct Hb as [->|[_ ?]]; [|done].
    repeat (match goal with |- context [?x =? ?y] => destruct (Z.eqb_spec x y) end; cbn [negb andb orb]); done || lia.
Qed.

(** ** The RIB and its specification *)

(** [pending]: aggregates still to be announced or withdrawn *)
Record tracks (pending : list CIDRNetwork) (m : Paths) (r : Rib) : Prop := {
  tk_ok : rib_ok r;
  tk_paths : forall p k j, ~ (p ∈ pending /\ (k, j) = localKey) -> ribPath r p k j = expected m p (k, j);
  tk_routes : localRoutes_ r = countedRoutes m
}.

(** No peer has announced an aggregate under the key of the local peer. *)
Definition no_local (m : Paths) : Prop := forall p lr, aggregate p = Some lr -> at_ m p !! localKey = None.

Definition small (m : Paths) : Prop := forall p, Z.of_nat (size (at_ m p)) < 2 ^ 32 - 2.

Lemma expected_other m p key : key <> localKey -> expected m p key = at_ m p !! key.
Proof. intros Hne. unfold expected. destruct (aggregate p); [|done]. by rewrite bool_decide_eq_false_2. Qed.

Lemma tracks_fits pending m r p : tracks pending m r -> small m -> fits r p.
Proof.
  intros T Hs. apply fits_keys; [apply (tk_ok _ _ _ T)|].
  enough (size (ribKeys r p) <= S (size (at_ m p)))%nat by (specialize (Hs p); lia).
  rewrite <- size_dom. set (D := dom (at_ m p)).
  transitivity (size ({[localKey]} ∪ D : gset (BgpPeerId * Z))); cycle 1.
  { rewrite size_union_alt, size_singleton. pose proof (subseteq_size (D ∖ {[localKey]}) D ltac:(set_solver)). lia. }
  apply subseteq_size.
  intros [k j] Hk. apply (elem_of_ribKeys r p k j (tk_ok _ _ _ T)) in Hk.
  destruct (decide ((k, j) = localKey)) as [->|Hne]; [set_solver|].
  rewrite (tk_paths _ _ _ T), expected_other in Hk by tauto. apply elem_of_union_r. by apply elem_of_dom.
Qed.

Lemma tracks_path m r p k j : tracks [] m r -> ribPath r p k j = expected m p (k, j).
Proof. intros T. apply (tk_paths _ _ _ T). by intros [[]%elem_of_nil _]. Qed.

(** The aggregate's own path *)
Definition ownPath (m : Paths) (p : CIDRNetwork) : Z :=
  match aggregate p with
  | Some lr => if lr_minSupportRoutes lr <=? support m p then 1 else 0
  | None => 0
  end.

Lemma pathCount_tracks m r p :
  tracks [] m r -> no_local m -> small m -> pathCount r p = Z.of_nat (size (at_ m p)) + ownPath m p.
Proof.
  intros T Hc Hs. pose proof (tk_ok _ _ _ T) as Hok.
  assert (Hkeys : forall k j, (k, j) ∈ ribKeys r p <-> is_Some (expected m p (k, j))).
  { intros k j. rewrite elem_of_ribKeys by done. by rewrite (tracks_path m r _ _ _ T). }
  assert (E : size (ribKeys r p) = (size (at_ m p) + Z.to_nat (ownPath m p))%nat).
  { unfold ownPath. destruct (aggregate p) as [lr|] eqn:Ea; [destruct (_ <=? _) eqn:El|].
    - replace (ribKeys r p) with (({[localKey]} : gset (BgpPeerId * Z)) ∪ dom (at_ m p)).
      + rewrite size_union, size_singleton, size_dom; [lia|]. apply disjoint_singleton_l.
        rewrite elem_of_dom, (Hc _ _ Ea). by intros [? ?].
      + apply set_eq. intros [k j]. rewrite Hkeys. unfold expected. rewrite Ea, El, elem_of_union, elem_of_singleton, elem_of_dom.
        case_bool_decide as D; [naive_solver eauto|naive_solver].
    - replace (ribKeys r p) with (dom (at_ m p)); [rewrite size_dom; lia|].
      apply set_eq. intros [k j]. rewrite Hkeys. unfold expected. rewrite Ea, El, elem_of_dom.
      case_bool_decide as D; [rewrite D, (Hc _ _ Ea)|]; done.
    - replace (ribKeys r p) with (dom (at_ m p)); [rewrite size_dom; lia|].
      apply set_eq. intros [k j]. rewrite Hkeys. unfold expected. by rewrite Ea, elem_of_dom. }
  assert (0 <= ownPath m p <= 1) by (unfold ownPath; destruct (aggregate p); [destruct (_ <=? _)|]; lia).
  specialize (Hs p). rewrite pathCount_keys by (done || lia). lia.
Qed.

(** ** Aggregation *)

(** The support of a local route reaches or leaves what it needs. *)
Definition crosses (u : Update) (m : Paths) (L : CIDRNetwork) (lr : LocalRoute) : bool :=
  negb (Bool.eqb (lr_minSupportRoutes lr <=? support (learn u m) L) (lr_minSupportRoutes lr <=? support m L)).

Lemma crosses_pos u m L lr : crosses u m L lr = true -> 0 < lr_minSupportRoutes lr.
Proof.
  unfold crosses. pose proof (support_nonneg m L). pose proof (support_nonneg (learn u m) L).
  destruct (Z.leb_spec (lr_minSupportRoutes lr) (support (learn u m) L)),
    (Z.leb_spec (lr_minSupportRoutes lr) (support m L)); simpl; done || lia.
Qed.

Lemma aggregateOne_counted u m b L lr :
  gain u m = (if b : bool then 1 else -1) ->
  aggregateOne (u_prefix u) b L (counted m L lr) =
  (if crosses u m L lr then Some (if b then Some (lr_attrs lr) else None) else None, counted (learn u m) L lr).
Proof.
  intros Hg. pose proof (support_nonneg m L) as Hs0. pose proof (support_learn u m L) as Hs. rewrite Hg in Hs.
  unfold aggregateOne, counted, crosses. destruct (isSubnet (u_prefix u) L) eqn:Es; cbn [negb]; cycle 1.
  { rewrite Hs, Z.add_0_r, eqb_reflx. done. }
  destruct (Z.eqb_spec (lr_minSupportRoutes lr) 0) as [E|E].
  { rewrite E, Z.eqb_refl. rewrite (proj2 (Z.leb_le 0 (support m L))) by lia.
    by rewrite (proj2 (Z.leb_le 0 (support (learn u m) L))) by apply support_nonneg. }
  cbn [set_supportPfxCnt lr_minSupportRoutes lr_supportPfxCnt lr_attrs].
  rewrite (proj2 (Z.eqb_neq _ _) E). rewrite Hs. destruct b; cbn [negb andb].
  - destruct (Z.eqb_spec (support m L + 1) (lr_minSupportRoutes lr)),
      (Z.leb_spec (lr_minSupportRoutes lr) (support m L + 1)), (Z.leb_spec (lr_minSupportRoutes lr) (support m L));
      cbn; done || lia.
  - assert (1 <= support m L).
    { pose proof (support_at m _ _ Es). pose proof (weight_nonneg (u_prefix u) (at_ (learn u m) (u_prefix u))).
      unfold gain in Hg. lia. }
    rewrite (proj2 (Z.eqb_neq (support m L) 0)) by lia.
    destruct (Z.eqb_spec (support m L - 1) (lr_minSupportRoutes lr - 1)),
      (Z.leb_spec (lr_minSupportRoutes lr) (support m L + -1)), (Z.leb_spec (lr_minSupportRoutes lr) (support m L));
      cbn; done || lia.
Qed.

Lemma supported_learn u m b :
  gain u m = (if b : bool then 1 else -1) ->
  supportedRoutes (u_prefix u) b (countedRoutes m) = countedRoutes (learn u m).
Proof.
  intros Hg. apply map_eq. intros L. unfold supportedRoutes. rewrite map_lookup_imap, !lookup_counted.
  destruct (cfg !! L) as [lr|]; [|done]. simpl. by rewrite (aggregateOne_counted u m b L lr Hg).
Qed.

Lemma elem_of_aggRoutes u m b L o :
  gain u m = (if b : bool then 1 else -1) ->
  (L, o) ∈ aggRoutes (u_prefix u) b (countedRoutes m) <->
  exists lr, cfg !! L = Some lr /\ crosses u m L lr = true /\ o = if b then Some (lr_attrs lr) else None.
Proof.
  intros Hg. unfold aggRoutes. rewrite list_elem_of_omap. split.
  - intros ([L' lr'] & Hin & Ho). apply elem_of_map_to_list in Hin. rewrite lookup_counted in Hin.
    destruct (cfg !! L') as [lr|] eqn:E; [|done]. injection Hin as <-.
    rewrite (aggregateOne_counted u m b L' lr Hg) in Ho. simpl in Ho.
    destruct (crosses u m L' lr) eqn:Ec; [|done]. injection Ho as <- <-. eauto.
  - intros (lr & E & Ec & ->). exists (L, counted m L lr). split.
    + apply elem_of_map_to_list. by rewrite lookup_counted, E.
    + by rewrite (aggregateOne_counted u m b L lr Hg), Ec.
Qed.

Lemma countedRoutes_same u m : gain u m = 0 -> countedRoutes (learn u m) = countedRoutes m.
Proof.
  intros Hg. apply map_eq. intros L. rewrite !lookup_counted. destruct (cfg !! L) as [lr|]; [|done].
  simpl. unfold counted. rewrite support_learn, Hg. by destruct (isSubnet _ _); rewrite Z.add_0_r.
Qed.

Lemma crosses_same u m L lr : gain u m = 0 -> crosses u m L lr = false.
Proof. intros Hg. unfold crosses. rewrite support_learn, Hg. by destruct (isSubnet _ _); rewrite Z.add_0_r, eqb_reflx. Qed.

(** ** One route *)

(** A message of the local peer is not for an aggregate, which is the RIB's to announce. *)
Definition valid (u : Update) : Prop :=
  (peerKey (u_peer u) = localPeerId -> aggregate (u_prefix u) = None) /\ local_pref_set (u_attrs u).

Lemma expected_learn u m p key :
  valid u ->
  (forall lr, aggregate p = Some lr -> key = localKey -> crosses u m p lr = false) ->
  expected (learn u m) p key =
  if bool_decide (p = u_prefix u /\ key = (peerKey (u_peer u), u_pathId u)) then fst <$> u_attrs u
  else expected m p key.
Proof.
  intros [Hv _] Hc. destruct key as [k j]. unfold expected. rewrite lookup_at_learn.
  destruct (aggregate p) as [lr|] eqn:Ea; [|done].
  destruct (bool_decide_reflect ((k, j) = localKey)) as [Ek|Ek]; [|done].
  rewrite (bool_decide_eq_false_2 (p = u_prefix u /\ _)).
  - specialize (Hc lr eq_refl Ek). unfold crosses in Hc. apply negb_false_iff, eqb_prop in Hc. by rewrite Hc.
  - intros [-> E]. rewrite E in Ek. apply pair_equal_spec in Ek as [Ek _]. by rewrite (Hv Ek) in Ea.
Qed.

Lemma no_local_learn u m : valid u -> no_local m -> no_local (learn u m).
Proof.
  intros [Hv _] Hc p lr Ea. unfold localKey. rewrite lookup_at_learn, bool_decide_eq_false_2; [by eapply Hc|].
  intros [-> E]. apply pair_equal_spec in E as [E _]. by rewrite Hv in Ea.
Qed.

Lemma gain_range u m : gain u m = 1 \/ gain u m = -1 \/ gain u m = 0.
Proof.
  pose proof (size_learn u m) as Hn. cbv zeta in Hn. unfold gain, weight. case_bool_decide; lia.
Qed.

(** The count of the entry follows the specification's. *)
Lemma countAfter_learn u m b :
  0 <= b <= 1 -> small m ->
  countAfter (at_ m (u_prefix u) !! (peerKey (u_peer u), u_pathId u)) (bool_decide (is_Some (u_attrs u)))
    (Z.of_nat (size (at_ m (u_prefix u))) + b)
  = Z.of_nat (size (at_ (learn u m) (u_prefix u))) + b.
Proof.
  intros Hb Hs. specialize (Hs (u_prefix u)). rewrite at_learn, decide_True, <- is_announcement by done.
  set (x := at_ m (u_prefix u)) in *. set (key := (_, _)). unfold countAfter. destruct (u_attrs u) as [a|].
  - rewrite map_size_insert. destruct (x !! key); simpl; [done|]. rewrite uint_id by lia. lia.
  - rewrite map_size_delete. destruct (x !! key) eqn:E; simpl; [|done].
    pose proof (map_size_ne_0_lookup_2 x key ltac:(rewrite E; eauto)). rewrite uint_id by lia. lia.
Qed.

(** An aggregate that a route makes appear or disappear *)
Definition agg_due (m : Paths) (a : CIDRNetwork * option (ptr * BgpPath)) : Prop :=
  is_Some (aggregate a.1) /\ fst <$> a.2 = expected m a.1 localKey /\ local_pref_set a.2.

Definition local_prefs : Prop := forall L lr, cfg !! L = Some lr -> path_localPref (lr_attrs lr).2 <> None.

Lemma aggRoutes_due u m b :
  local_prefs -> gain u m = (if b : bool then 1 else -1) ->
  Forall (agg_due (learn u m)) (aggRoutes (u_prefix u) b (countedRoutes m)).
Proof.
  intros Hl Hg. apply Forall_forall. intros [L o] (lr & E & Ec & ->)%elem_of_aggRoutes; [|done].
  pose proof (crosses_pos _ _ _ _ Ec) as Hpos.
  assert (Ea : aggregate L = Some lr) by (unfold aggregate; rewrite E; simpl; by rewrite (proj2 (Z.ltb_lt _ _) Hpos)).
  split; [eauto|]. split; [|by destruct b; [by eapply Hl|]]. simpl. unfold expected.
  rewrite Ea, bool_decide_eq_true_2 by done. unfold crosses in Ec.
  pose proof (support_learn u m L) as Hs. rewrite Hg in Hs.
  destruct (Z.leb_spec (lr_minSupportRoutes lr) (support (learn u m) L)),
    (Z.leb_spec (lr_minSupportRoutes lr) (support m L)), b, (isSubnet (u_prefix u) L); simpl in *; done || lia.
Qed.

Lemma localRouteOf_other peer p r : peerKey peer <> localPeerId -> localRouteOf peer p r = None.
Proof.
  intros Hne. unfold localRouteOf. destruct (peer_eqb peer kV4LocalPeerInfo) eqn:E; [|done].
  unfold peer_eqb in E. repeat (apply andb_true_iff in E as [E ?]). apply bool_decide_eq_true in E.
  assert (Er : peer_routerId peer = peer_routerId kV4LocalPeerInfo) by (by apply Z.eqb_eq).
  destruct Hne. unfold peerKey. by rewrite E, Er.
Qed.

Lemma not_agg peer p m r :
  localRoutes_ r = countedRoutes m -> (peerKey peer = localPeerId -> aggregate p = None) -> isAggRoute peer p r = false.
Proof.
  intros Hr Hv. unfold isAggRoute. destruct (decide (peerKey peer = localPeerId)) as [E|E]; cycle 1.
  { by rewrite localRouteOf_other. }
  specialize (Hv E). unfold localRouteOf. destruct (peer_eqb _ _); [|done]. rewrite Hr, lookup_counted.
  unfold aggregate in Hv. destruct (cfg !! p) as [lr|]; [|done]. simpl in *. unfold counted.
  destruct (0 <? lr_minSupportRoutes lr) eqn:El; [done|]. by destruct (_ =? 0).
Qed.

(** A route that changes the support *)
Lemma aggregated u m b :
  local_prefs -> gain u m = (if b : bool then 1 else -1) ->
  let aggs := aggRoutes (u_prefix u) b (countedRoutes m) in
  supportedRoutes (u_prefix u) b (countedRoutes m) = countedRoutes (learn u m) /\
  Forall (agg_due (learn u m)) aggs /\
  forall L lr, aggregate L = Some lr -> L ∉ aggs.*1 -> crosses u m L lr = false.
Proof.
  intros Hl Hg aggs. split; [by apply supported_learn|]. split; [by apply aggRoutes_due|].
  intros L lr Ea Hin. destruct (crosses u m L lr) eqn:Ec; [|done]. destruct Hin.
  apply list_elem_of_fmap. exists (L, if b then Some (lr_attrs lr) else None). split; [done|].
  apply (elem_of_aggRoutes u m b); [done|]. exists lr. split; [|done].
  unfold aggregate in Ea. destruct (cfg !! L); [|done]. simpl in Ea. by destruct (0 <? _); [injection Ea as ->|].
Qed.

(** What the aggregation of the route answers, in terms of the specification *)
Lemma aggregation_spec u m r aggs r' :
  local_prefs -> valid u -> tracks [] m r -> no_local m -> small m ->
  single_spec (u_peer u) (u_attrs u) (u_prefix u) (u_pathId u) r aggs r' ->
  localRoutes_ r' = countedRoutes (learn u m) /\ Forall (agg_due (learn u m)) aggs /\
  forall L lr, aggregate L = Some lr -> L ∉ aggs.*1 -> crosses u m L lr = false.
Proof.
  intros Hl [Hv Hlp] T Hc Hs S. pose proof (tk_routes _ _ _ T) as Hr.
  pose proof (ss_aggs _ _ _ _ _ _ _ S) as Ha. unfold aggregation in Ha.
  rewrite (not_agg _ _ _ _ Hr Hv), Hr, (ss_count _ _ _ _ _ _ _ S) in Ha.
  rewrite (tracks_path m r _ _ _ T) in Ha.
  set (p := u_prefix u) in *. set (key := (peerKey (u_peer u), u_pathId u)) in *.
  assert (Hexp : expected m p key = at_ m p !! key).
  { unfold expected. destruct (aggregate p) eqn:Ea; [|done]. rewrite bool_decide_eq_false_2; [done|].
    intros E. apply pair_equal_spec in E as [E _]. by discriminate (Hv E). }
  assert (Hb : ownPath m p = 0 \/ ownPath m p = 1 /\ is_Some (cfg !! p)).
  { unfold ownPath, aggregate. destruct (cfg !! p) as [lr|]; simpl; [|by left].
    destruct (0 <? _); [|by left]. destruct (_ <=? _); eauto. }
  assert (Hb01 : 0 <= ownPath m p <= 1) by (destruct Hb as [->|[-> _]]; lia).
  rewrite Hexp, (pathCount_tracks m r p T Hc Hs) in Ha. unfold p, key in *. clear p key.
  rewrite countAfter_learn in Ha by done.
  replace (bool_decide (is_Some (countedRoutes m !! u_prefix u))) with (bool_decide (is_Some (cfg !! u_prefix u))) in Ha
    by (apply bool_decide_ext; rewrite lookup_counted; by destruct (cfg !! u_prefix u)).
  rewrite (supportChange_gain u m (ownPath m (u_prefix u)) Hb) in Ha
    by (specialize (Hs (u_prefix u)); lia).
  destruct (gain_range u m) as [Hg|[Hg|Hg]]; rewrite Hg in Ha; cbn [Z.eqb Pos.eqb] in Ha;
    apply pair_equal_spec in Ha as [-> ->]; cycle 2.
  { split; [by rewrite countedRoutes_same|]. split; [by apply Forall_nil|]. intros. by apply crosses_same. }
  - by apply (aggregated u m true).
  - by apply (aggregated u m false).
Qed.

Lemma single_tracks now u m r :
  local_prefs -> valid u -> tracks [] m r -> no_local m -> small m ->
  exists aggs r', processSingleRibInUpdate now (u_peer u) (u_attrs u) (u_prefix u, u_pathId u) r = Some (aggs, r') /\
    tracks aggs.*1 (learn u m) r' /\ Forall (agg_due (learn u m)) aggs.
Proof.
  intros Hl Hv T Hc Hs.
  destruct (processSingle_spec now (u_peer u) (u_attrs u) (u_prefix u) (u_pathId u) r (tk_ok _ _ _ T)
              (tracks_fits [] m r _ T Hs) (proj2 Hv)) as (aggs & r' & Hp & S).
  destruct (aggregation_spec u m r aggs r' Hl Hv T Hc Hs S) as (Hr & Hd & Hx).
  exists aggs, r'. split; [done|]. split; [|done]. split; [apply (ss_ok _ _ _ _ _ _ _ S)| |done].
  intros p k j Hnp. rewrite expected_learn; [|done|]; cycle 1.
  { intros lr Ea Ek. apply Hx; [done|]. intros Hin. by apply Hnp. }
  destruct (decide (p = u_prefix u)) as [->|Hne].
  - rewrite (ss_paths _ _ _ _ _ _ _ S), <- (tracks_path _ _ _ _ _ T).
    erewrite bool_decide_ext; [done|]. tauto.
  - rewrite bool_decide_eq_false_2 by tauto. rewrite <- (tracks_path _ _ _ _ _ T).
    apply (ribPath_other r r'); [apply (tk_ok _ _ _ T)|apply (ss_heap _ _ _ _ _ _ _ S)|].
    by apply (ss_other _ _ _ _ _ _ _ S).
Qed.

(** The aggregates due are announced and withdrawn, and change nothing else. *)
Lemma aggregates_tracks now m aggs r :
  tracks aggs.*1 m r -> small m -> Forall (agg_due m) aggs ->
  exists r', processAggregates now aggs r = Some r' /\ tracks [] m r'.
Proof.
  revert r. induction aggs as [|[L o] aggs IH]; intros r T Hs Hd; [by eexists|].
  apply Forall_cons in Hd as [([lr Ea] & Ho & Hl) Hd]. cbn [processAggregates fst snd] in *.
  destruct (processSingle_spec now kV4LocalPeerInfo o L kDefaultPathID r (tk_ok _ _ _ T)
              (tracks_fits _ m r _ T Hs) Hl) as (aggs' & r1 & Hp & S).
  rewrite Hp. cbn [mbind option_bind]. apply IH; [|done..].
  pose proof (ss_aggs _ _ _ _ _ _ _ S) as Ha. unfold aggregation in Ha.
  assert (Hagg : isAggRoute kV4LocalPeerInfo L r = true).
  { unfold isAggRoute, localRouteOf. change (peer_eqb _ _) with true. cbv iota.
    rewrite (tk_routes _ _ _ T), lookup_counted. unfold aggregate in Ea.
    destruct (cfg !! L) as [lr'|]; [|done]. simpl in Ea |- *. unfold counted.
    destruct (0 <? lr_minSupportRoutes lr') eqn:El; [|done]. by destruct (_ =? 0). }
  rewrite Hagg in Ha. apply pair_equal_spec in Ha as [_ Hr].
  split; [apply (ss_ok _ _ _ _ _ _ _ S)| |by rewrite Hr; apply (tk_routes _ _ _ T)].
  intros p k j Hnp. destruct (decide (p = L)) as [->|Hne].
  - rewrite (ss_paths _ _ _ _ _ _ _ S). change (peerKey kV4LocalPeerInfo, kDefaultPathID) with localKey.
    destruct (bool_decide_reflect ((k, j) = localKey)) as [->|Dk]; [done|]. apply (tk_paths _ _ _ T). tauto.
  - rewrite (ribPath_other r r1 _ _ _ (tk_ok _ _ _ T) (ss_heap _ _ _ _ _ _ _ S)) by (by apply (ss_other _ _ _ _ _ _ _ S)).
    apply (tk_paths _ _ _ T). intros [Hin Ek]. apply Hnp. split; [|done]. simpl in Hin. set_solver.
Qed.

(** ** Messages *)

(** A message: when it is taken, its peer, its attributes or none, and the routes *)
Record RibInRoutes := mkRibIn {
  in_time : Z;
  in_peer : TinyPeerInfo;
  in_attrs : option (ptr * BgpPath);
  in_routes : list PrefixPathId
}.

Definition updatesOf (msg : RibInRoutes) : list Update :=
  map (fun x => mkUpdate (in_peer msg) (in_attrs msg) x.1 x.2) (in_routes msg).
Definition allUpdates (msgs : list RibInRoutes) : list Update := concat (map updatesOf msgs).

(** What the peers have announced and not withdrawn *)
Definition learnAll (us : list Update) (m : Paths) : Paths := fold_left (fun m u => learn u m) us m.

Definition processMessage (msg : RibInRoutes) : Rib -> option Rib :=
  processRibInUpdate (in_time msg) (in_peer msg) (in_attrs msg) (in_routes msg).

Fixpoint processMessages (msgs : list RibInRoutes) (r : Rib) : option Rib :=
  match msgs with
  | [] => Some r
  | msg :: msgs => r ← processMessage msg r; processMessages msgs r
  end.

(** The prefixes have room for [n] more paths. *)
Definition sized (n : nat) (m : Paths) : Prop :=
  forall p, Z.of_nat (size (at_ m p)) + Z.of_nat n < 2 ^ 32 - 2.

Lemma sized_small n m : sized n m -> small m.
Proof. intros Hs p. specialize (Hs p). lia. Qed.

Lemma sized_learn n u m : sized (S n) m -> sized n (learn u m).
Proof.
  intros Hs p. specialize (Hs p). pose proof (size_learn u m) as Hl. cbv zeta in Hl.
  destruct (decide (p = u_prefix u)) as [->|Hne]; [lia|]. rewrite at_learn, decide_False by done. lia.
Qed.

Lemma sized_learnAll n us m : sized (length us + n) m -> sized n (learnAll us m).
Proof.
  revert m. induction us as [|u us IH]; intros m Hs; [done|]. apply IH. by apply sized_learn.
Qed.

Lemma no_local_learnAll us m : Forall valid us -> no_local m -> no_local (learnAll us m).
Proof.
  revert m. induction us as [|u us IH]; intros m Hv Hc; [done|]. apply Forall_cons in Hv as [Hu Hv].
  apply IH; [done|]. by apply no_local_learn.
Qed.

Lemma prefixes_track now peer attrs ids m r :
  let us := updatesOf (mkRibIn now peer attrs ids) in
  local_prefs -> Forall valid us -> tracks [] m r -> no_local m -> sized (length ids) m ->
  exists r', processPrefixes now peer attrs ids r = Some r' /\ tracks [] (learnAll us m) r'.
Proof.
  revert m r. induction ids as [|[p i] ids IH]; intros m r us Hl Hv T Hc Hs; [by eexists|].
  unfold us in *. cbn [updatesOf map fst snd in_peer in_attrs in_routes] in *. apply Forall_cons in Hv as [Hu Hv].
  set (u := mkUpdate peer attrs p i) in *.
  destruct (single_tracks now u m r Hl Hu T Hc (sized_small _ _ Hs)) as (aggs & r1 & Hp & T1 & Hd).
  cbn [processPrefixes]. change (processSingleRibInUpdate now peer attrs (p, i) r) with
    (processSingleRibInUpdate now (u_peer u) (u_attrs u) (u_prefix u, u_pathId u) r).
  rewrite Hp. cbn [mbind option_bind]. pose proof (sized_learn _ u m Hs) as Hs1.
  destruct (aggregates_tracks now _ aggs r1 T1 (sized_small _ _ Hs1) Hd) as (r2 & Hp2 & T2).
  rewrite Hp2. cbn [mbind option_bind]. apply (IH (learn u m)); try done. by apply no_local_learn.
Qed.

(** What a message does besides its routes leaves the entries alone. *)
Lemma tracks_same pending m r r' :
  rib_heap r' = rib_heap r -> ribEntries_ r' = ribEntries_ r -> localRoutes_ r' = localRoutes_ r ->
  tracks pending m r -> tracks pending m r'.
Proof.
  intros Hh He Hl [[Rp Re] Hp Hr]. split.
  - split; unfold findSlot; rewrite He, ?Hh; done.
  - intros p k j Hn. rewrite <- Hp by done. unfold ribPath, findSlot. by rewrite He, Hh.
  - by rewrite Hl.
Qed.

Lemma message_tracks msg m r :
  local_prefs -> Forall valid (updatesOf msg) -> tracks [] m r -> no_local m -> sized (length (updatesOf msg)) m ->
  exists r', processMessage msg r = Some r' /\ tracks [] (learnAll (updatesOf msg) m) r'.
Proof.
  destruct msg as [now peer attrs ids]. intros Hl Hv T Hc Hs.
  destruct (prefixes_track now peer attrs ids m r Hl Hv T Hc) as (r1 & Hp & T1).
  { unfold updatesOf in Hs. by rewrite length_map in Hs. }
  unfold processMessage, processRibInUpdate. cbn [in_time in_peer in_attrs in_routes]. rewrite Hp.
  cbn [mbind option_bind]. eexists. split; [done|]. unfold flushSubscriptions.
  destruct (maybeFlushNexthopSubscriptions _) as [requested t].
  destruct (ribEoRReceived_ _); by eapply tracks_same; [..|exact T1].
Qed.

Lemma messages_track msgs m r :
  let us := allUpdates msgs in
  local_prefs -> Forall valid us -> tracks [] m r -> no_local m -> sized (length us) m ->
  exists r', processMessages msgs r = Some r' /\ tracks [] (learnAll us m) r'.
Proof.
  revert m r. induction msgs as [|msg msgs IH]; intros m r us Hl Hv T Hc Hs; [by eexists|].
  unfold us in *. unfold allUpdates in *. cbn [map concat processMessages] in *.
  apply Forall_app in Hv as [Hv1 Hv2]. rewrite length_app in Hs.
  destruct (message_tracks msg m r Hl Hv1 T Hc) as (r1 & Hp & T1); [intros p; specialize (Hs p); lia|].
  rewrite Hp. cbn [mbind option_bind]. unfold learnAll. rewrite fold_left_app. apply IH; try done.
  - by apply no_local_learnAll.
  - by apply sized_learnAll.
Qed.

(** A RIB before its first message *)
Definition initial (r : Rib) : Prop :=
  ribEntries_ r = ∅ /\ localRoutes_ r = cfg /\ forall L lr, cfg !! L = Some lr -> lr_supportPfxCnt lr = 0.

Lemma initial_tracks r : initial r -> tracks [] ∅ r.
Proof.
  intros (He & Hl & Hz). split.
  - split; unfold findSlot; rewrite He; intros p slot E; by rewrite lookup_empty in E.
  - intros p k j _. unfold ribPath, findSlot, expected, at_. rewrite He, !lookup_empty. simpl.
    unfold aggregate. destruct (cfg !! p) as [lr|]; simpl; [|by rewrite lookup_empty].
    destruct (Z.ltb_spec 0 (lr_minSupportRoutes lr)); [|by rewrite lookup_empty].
    unfold support. rewrite map_sum_empty, lookup_empty. case_bool_decide; [|done].
    destruct (Z.leb_spec (lr_minSupportRoutes lr) 0); [lia|done].
  - rewrite Hl. apply map_eq. intros L. rewrite lookup_counted. destruct (cfg !! L) as [lr|] eqn:E; [|done].
    simpl. unfold counted, support. rewrite map_sum_empty. destruct (_ =? 0); [done|].
    specialize (Hz _ _ E). destruct lr. unfold set_supportPfxCnt. simpl in *. by subst.
Qed.

(** What the messages must satisfy: attributes carry a local preference, the local peer
    does not announce an aggregate itself, and the path counts fit their 32 bits. *)
Definition acceptable (msgs : list RibInRoutes) : Prop :=
  local_prefs /\ Forall valid (allUpdates msgs) /\ Z.of_nat (length (allUpdates msgs)) < 2 ^ 32 - 2.

Lemma messages_from_start msgs r0 :
  initial r0 -> acceptable msgs ->
  exists r, processMessages msgs r0 = Some r /\ tracks [] (learnAll (allUpdates msgs) ∅) r.
Proof.
  intros Hi (Hl & Hv & Hn). apply messages_track; try done.
  - by apply initial_tracks.
  - intros p. unfold at_. rewrite lookup_empty. simpl. rewrite map_size_empty. lia.
Qed.

(** C16. From an empty RIB, any sequence of announcements and withdrawals is processed
    (no check fails), and afterwards the RIB holds for every prefix, peer and path id the
    attributes last announced and not withdrawn since, and nothing else: whatever the
    aggregates, the next hops and the counters do meanwhile. *)
Theorem rib_paths_follow_messages msgs r0 :
  initial r0 -> acceptable msgs ->
  exists r, processMessages msgs r0 = Some r /\ rib_ok r /\
    forall p k j, aggregate p = None \/ (k, j) <> localKey ->
      ribPath r p k j = at_ (learnAll (allUpdates msgs) ∅) p !! (k, j).
Proof.
  intros Hi Ha. destruct (messages_from_start msgs r0 Hi Ha) as (r & Hp & T).
  exists r. split; [done|]. split; [apply (tk_ok _ _ _ T)|]. intros p k j Hk. rewrite (tracks_path _ _ _ _ _ T).
  destruct Hk as [E|E]; [unfold expected; by rewrite E|by apply expected_other].
Qed.

(** C17. After the same messages, each aggregate's counter is the number of routes within
    it (the paths of a prefix that is itself a configured route counting one by one), and
    the aggregate is in the RIB, as a path of the local peer with its configured
    attributes, exactly when that number reaches its minimum. *)
Theorem aggregates_follow_support msgs r0 :
  initial r0 -> acceptable msgs ->
  exists r, processMessages msgs r0 = Some r /\
    let m := learnAll (allUpdates msgs) ∅ in
    forall p lr, aggregate p = Some lr ->
      lr_supportPfxCnt <$> localRoutes_ r !! p = Some (support m p) /\
      ribPath r p localPeerId kDefaultPathID =
        if lr_minSupportRoutes lr <=? support m p then Some (lr_attrs lr).1 else None.
Proof.
  intros Hi Ha. destruct (messages_from_start msgs r0 Hi Ha) as (r & Hp & T).
  exists r. split; [done|]. intros m p lr Ea. split.
  - rewrite (tk_routes _ _ _ T), lookup_counted. unfold aggregate in Ea. destruct (cfg !! p) as [lr'|]; [|done].
    simpl in *. destruct (Z.ltb_spec 0 (lr_minSupportRoutes lr')); [|done]. unfold counted.
    by rewrite (proj2 (Z.eqb_neq _ _)) by lia.
  - rewrite (tracks_path _ _ _ _ _ T). unfold expected. by rewrite Ea, bool_decide_eq_true_2.
Qed.
End RibPaths.
