(* ===== verification/FibFboss.v ===== *)
(** * The FIB of the agent

    rib/FibFboss.h and FibFboss.cpp: the RIB stages its routes in a batch, [program] hands
    the batch to the agent and reports it when the agent has taken it, [keepAlive] looks
    after the connection; with the hold-down of rib/FibProgrammingHolddown.h and .cpp.

    A call to the agent suspends the coroutine: [program] is in two parts, before the call
    and after it.  Both coroutines hold the mutex while they wait for the agent, so neither
    starts while the other waits.  The payload retained for queries (FibOut.h) is not
    modelled. *)

From stdpp Require Import gmap strings.
From S2P Require Import Prelude BgpException Folly BgpStructs RouteFilter RouteInfo RibEntry.

(** ** Hold-down *)

(** The last programming calls, newest first *)
Definition max_tracked_events_ : nat := 3.

Definition addEvent (isSuccess : bool) (history : list bool) : list bool :=
  isSuccess :: (if (max_tracked_events_ <=? length history)%nat then take (length history - 1) history else history).

Fixpoint getRecentFailureCount (history : list bool) : Z :=
  match history with
  | false :: history => 1 + getRecentFailureCount history
  | _ => 0
  end.

Record HoldDownState := mkHoldDown { isInHoldDown : bool; ticksLeft : Z (** uint32_t *) }.
Definition newHoldDownState : HoldDownState := mkHoldDown false 0.

Definition kLowBackoffTicks : Z := 5.
Definition kMediumBackoffTicks : Z := 10.
Definition kHighBackoffTicks : Z := 15.

Definition clearHoldDownState (h : HoldDownState) : bool * HoldDownState :=
  if isInHoldDown h then
    let ticks := uint 32 (ticksLeft h - 1) in
    (ticks =? 0, mkHoldDown (negb (ticks =? 0)) ticks)
  else (true, h).

Definition setHoldDownState (numFailures : Z) (h : HoldDownState) : bool * HoldDownState :=
  if numFailures =? 0 then (false, h)
  else (true, mkHoldDown true (if numFailures =? 1 then kLowBackoffTicks
                               else if numFailures =? 2 then kMediumBackoffTicks
                               else kHighBackoffTicks)).

(** ** Routes for the agent *)

Inductive NextHopRole := PRIMARY | BACKUP.

(** [NextHopThrift], with the fields that are set *)
Record NextHopThrift := mkNextHop {
  nht_address : IPAddress;
  nht_weight : Z;
  nht_role : NextHopRole;
  nht_topologyInfo : option (gmap string Z)
}.

(** [UnicastRoute]: its destination, next hops and class; the admin distance is that of EBGP. *)
Record UnicastRoute := mkUnicastRoute {
  ur_dest : CIDRNetwork;
  ur_nextHops : list NextHopThrift;
  ur_classID : option Z
}.

(** A [WeightedNexthopMap] held through a pointer: the identity and the contents *)
Abbreviation NexthopsPtr := (Z * gmap IPAddress Z)%type.

(** [waitForAck]: by attributes and prefix *)
Record FibBatch := mkBatch {
  toAdd : list UnicastRoute;
  toDelete : list CIDRNetwork;
  waitForAck : gmap (option ptr) (gmap CIDRNetwork (option NexthopsPtr))
}.
Definition newBatch : FibBatch := mkBatch [] [] ∅.

Record FibFboss := mkFibFboss {
  client_ : bool;                      (** connected *)
  batch_ : option FibBatch;
  initialFibSynced_ : bool;
  agentAliveSince_ : Z;
  fullSynced_ : bool;
  programmingHistory_ : list bool;
  holdDownState_ : HoldDownState
}.
Definition newFibFboss : FibFboss := mkFibFboss false None false 0 false [] newHoldDownState.

Definition ff_set_batch (b : option FibBatch) (f : FibFboss) : FibFboss :=
  mkFibFboss (client_ f) b (initialFibSynced_ f) (agentAliveSince_ f) (fullSynced_ f)
    (programmingHistory_ f) (holdDownState_ f).

Class AgentTypes := {
  (** the fields of [NetworkTopologyInformation], a generated type *)
  topologyFields : gset string
}.

Section FibFboss.
Context `{AgentTypes}.

(** [None]: the [CHECK] that there is no batch failed. *)
Definition connectAgent (f : FibFboss) : option FibFboss :=
  match batch_ f with
  | Some _ => None
  | None => Some (mkFibFboss true (Some newBatch) (initialFibSynced_ f) (agentAliveSince_ f)
                    (fullSynced_ f) (programmingHistory_ f) (holdDownState_ f))
  end.

Definition disconnectAgent (f : FibFboss) : FibFboss :=
  mkFibFboss false None (initialFibSynced_ f) 0 false (programmingHistory_ f) (holdDownState_ f).

Definition createNetworkTopoInfo (topoInfoMap : gmap string Z) : gmap string Z :=
  filter (fun kv => kv.1 ∈ topologyFields) topoInfoMap.

Definition primaryNextHop (topo : option (gmap IPAddress (gmap string Z))) (nh : IPAddress) (weight : Z)
    : NextHopThrift :=
  mkNextHop nh weight PRIMARY (m ← topo; t ← m !! nh; Some (createNetworkTopoInfo t)).

Definition sameFamily (a b : IPAddress) : bool :=
  match a, b with
  | IPUnset, IPUnset | IPV4 _, IPV4 _ | IPV6 _, IPV6 _ => true
  | _, _ => false
  end.

(** The next hops of a route to add *)
Definition nextHopsOf (prefix : CIDRNetwork) (weightedNexthops : gmap IPAddress Z) (isLocalRouteBest : bool)
    (topo : option (gmap IPAddress (gmap string Z))) (backupAddr : option IPAddress) : list NextHopThrift :=
  if isLocalRouteBest then []
  else map (fun '(nh, weight) => primaryNextHop topo nh weight) (map_to_list weightedNexthops) ++
       match backupAddr with
       | Some b => if sameFamily prefix.1 b then [mkNextHop b 0 BACKUP None] else []
       | None => []
       end.

(** [batch_->waitForAck[attrs][prefix] = weightedNexthops] *)
Definition awaitAck (attrs : option ptr) (prefix : CIDRNetwork) (nexthops : option NexthopsPtr)
    (m : gmap (option ptr) (gmap CIDRNetwork (option NexthopsPtr)))
    : gmap (option ptr) (gmap CIDRNetwork (option NexthopsPtr)) :=
  <[attrs := <[prefix := nexthops]> (default ∅ (m !! attrs))]> m.

Definition updateUnicastRouteWithBackup (prefix : CIDRNetwork) (attrsToBeAdvertised : option ptr)
    (weightedNexthops : option NexthopsPtr) (isLocalRouteBest installToFib : bool) (classId : option Z)
    (topo : option (gmap IPAddress (gmap string Z))) (backupAddr : option IPAddress) (f : FibFboss) : FibFboss :=
  if negb (client_ f) then f
  else
  match batch_ f with
  | None => f                          (** not while connected *)
  | Some b =>
      let w := awaitAck attrsToBeAdvertised prefix weightedNexthops (waitForAck b) in
      match weightedNexthops with
      | Some (_, m) =>
          if bool_decide (m = ∅) || negb installToFib
          then ff_set_batch (Some (mkBatch (toAdd b) (toDelete b ++ [prefix]) w)) f
          else
            ff_set_batch
              (Some (mkBatch (toAdd b ++ [mkUnicastRoute prefix (nextHopsOf prefix m isLocalRouteBest topo backupAddr) classId])
                       (toDelete b) w)) f
      | None => ff_set_batch (Some (mkBatch (toAdd b) (toDelete b ++ [prefix]) w)) f
      end
  end.

Definition updateUnicastRoute (prefix : CIDRNetwork) (attrsToBeAdvertised : option ptr)
    (weightedNexthops : option NexthopsPtr) (isLocalRouteBest installToFib : bool) (classId : option Z)
    (topo : option (gmap IPAddress (gmap string Z))) : FibFboss -> FibFboss :=
  updateUnicastRouteWithBackup prefix attrsToBeAdvertised weightedNexthops isLocalRouteBest installToFib
    classId topo None.

(** ** Programming *)

(** The calls of a batch to the agent, in order *)
Inductive AgentCall :=
| SyncFib (routes : list UnicastRoute)
| DeleteUnicastRoutes (prefixes : list CIDRNetwork)
| AddUnicastRoutes (routes : list UnicastRoute).

Definition programCalls (isSync : bool) (process : FibBatch) : list AgentCall :=
  if isSync then [SyncFib (toAdd process)]
  else (if nonempty (toDelete process) then [DeleteUnicastRoutes (toDelete process)] else []) ++
       (if nonempty (toAdd process) then [AddUnicastRoutes (toAdd process)] else []).

(** [program] up to the first call: the batch to be processed, if connected *)
Definition programStart (f : FibFboss) : option FibBatch * FibFboss :=
  if negb (client_ f) then (None, f)
  else match batch_ f with
       | Some process => (Some process, ff_set_batch (Some newBatch) f)
       | None => (None, f)             (** not while connected *)
       end.

(** After the calls succeeded: the message to the RIB is [waitForAck process] *)
Definition programDone (isSync : bool) (process : FibBatch) (f : FibFboss) : FibFboss :=
  mkFibFboss (client_ f) (batch_ f) (initialFibSynced_ f || isSync) (agentAliveSince_ f)
    (fullSynced_ f || isSync)
    (fold_left (fun h _ => addEvent true h) (programCalls isSync process) (programmingHistory_ f))
    (holdDownState_ f).

(** After a call threw, [done] having succeeded before *)
Definition programFailed (done : nat) (f : FibFboss) : FibFboss :=
  let history := addEvent false (Nat.iter done (addEvent true) (programmingHistory_ f)) in
  disconnectAgent
    (mkFibFboss (client_ f) (batch_ f) (initialFibSynced_ f) (agentAliveSince_ f) (fullSynced_ f) history
       (setHoldDownState (getRecentFailureCount history) (holdDownState_ f)).2).

(** What the agent answers to [aliveSince] and [getSwitchRunState] *)
Inductive AgentStatus :=
| AgentThrows
| AgentAlive (aliveSince : Z) (configured : bool).

(** The result: whether a full synchronization is requested *)
Definition keepAlive (status : AgentStatus) (f : FibFboss) : option (bool * FibFboss) :=
  f ← (if client_ f then Some f else connectAgent f);
  match status with
  | AgentThrows => Some (false, disconnectAgent f)
  | AgentAlive aliveSince configured =>
      if bool_decide (agentAliveSince_ f = aliveSince) || negb configured then Some (false, f)
      else
        let '(cleared, h) := clearHoldDownState (holdDownState_ f) in
        Some (cleared, mkFibFboss (client_ f) (batch_ f) (initialFibSynced_ f)
                         (if cleared then aliveSince else agentAliveSince_ f) (fullSynced_ f)
                         (programmingHistory_ f) h)
  end.

Definition fibIsConnected (f : FibFboss) : bool := client_ f.
Definition fibIsFullSynced (f : FibFboss) : bool := fullSynced_ f.
End FibFboss.

(** ** The agent *)

(** What the documented calls do to the agent's routes of this client *)
Definition addRoutes (routes : list UnicastRoute) (t : gmap CIDRNetwork UnicastRoute)
    : gmap CIDRNetwork UnicastRoute :=
  fold_left (fun t x => <[ur_dest x := x]> t) routes t.

Definition applyCall (c : AgentCall) (t : gmap CIDRNetwork UnicastRoute) : gmap CIDRNetwork UnicastRoute :=
  match c with
  | SyncFib routes => addRoutes routes ∅
  | DeleteUnicastRoutes prefixes => fold_left (fun t p => delete p t) prefixes t
  | AddUnicastRoutes routes => addRoutes routes t
  end.

Definition applyCalls (cs : list AgentCall) (t : gmap CIDRNetwork UnicastRoute)
    : gmap CIDRNetwork UnicastRoute := fold_left (fun t c => applyCall c t) cs t.
