(* ===== verification/RibFib.v ===== *)
(** * The RIB: best paths, FIB and messages out

    The part of rib/RibBase.cpp and RibBase.h that runs path selection on the entries that
    changed, hands the FIB what it has to program ([fibBatchList_]), and tells the peers:
    of a route that goes before the FIB is told, of one that comes once the FIB has it;
    with the pauses of that work and the first path computation.  The class is the base
    class: the hooks of its subclasses do nothing. *)

From stdpp Require Import gmap strings fin_sets.
From Stdlib Require Import SpecFloat.
From S2P Require Import Prelude BgpException Folly BgpStructs RouteFilter RouteInfo RibEntry.
From S2P Require Import RouteSelector Ucmp PathSelection PathFields AdjRibCommon PackingList AdjRibOut MapSum NexthopCache.
From S2P Require Import RibNexthop RibCounters Rib FibFboss.

Definition kRibChunkSize : nat := 160.
Definition kPlaceholderPathID : Z := 0.
Definition kLocalRouteV4Nexthop : IPAddress := IPV4 [0; 0; 0; 0].
Definition kLocalRouteV6Nexthop : IPAddress := IPV6 [0; 0; 0; 0; 0; 0; 0; 0; 0; 0; 0; 0; 0; 0; 0; 0].

(** ** Messages out *)

(** [RibOutAnnouncementEntry] as the RIB fills it; the switch id, a constant, and the time
    of installation are left out. *)
Record RibOutPath := mkRibOutPath {
  ro_prefix : CIDRNetwork;
  ro_pathIdToSend : Z;
  ro_peer : TinyPeerInfo;
  ro_attrs : ptr * BgpPath;
  ro_multiPathSize : Z;
  ro_aggregateReceivedUcmpWeight : spec_float;
  ro_aggregateLocalUcmpWeight : spec_float;
  ro_ribPolicyUcmpWeight : spec_float;
  ro_newlyInstalledInLocalRib : bool;
  ro_ribVersion : Z;                   (** uint64_t *)
  ro_isPartialDrain : bool
}.

(** [RibOutWithdrawalEntry] *)
Record RibOutGone := mkRibOutGone {
  rw_prefix : CIDRNetwork;
  rw_pathIdToSend : Z;
  rw_nh : option IPAddress;
  rw_ribVersion : Z
}.

Inductive RibOutMessage :=
| RibOutAnnouncement (entries : list RibOutPath) (sendWithEoR initialDump : bool)
    (addPathEntries : list RibOutPath)
| RibOutWithdrawal (entries addPathEntries : list RibOutGone)
| RibInitialAnnouncementStart.

(** The RIB with its queues.  [ribOutQ_] holds the messages pushed less those popped. *)
Record RibFib := mkRibFib {
  rf_rib : Rib;
  rf_pushed : list RibOutMessage;      (** all that was pushed on [ribOutQ_], oldest first *)
  rf_popped : nat;
  toFibMessageQ_ : list bool           (** [fullSync] of each [TriggerFibProgMessage] *)
}.

Definition rf_set_rib (r : Rib) (f : RibFib) : RibFib :=
  mkRibFib r (rf_pushed f) (rf_popped f) (toFibMessageQ_ f).
Definition rf_upd_rib (g : Rib -> Rib) (f : RibFib) : RibFib := rf_set_rib (g (rf_rib f)) f.
Definition ribOutQ_size (f : RibFib) : nat := (length (rf_pushed f) - rf_popped f)%nat.
Definition popRibOut (f : RibFib) : RibFib :=
  mkRibFib (rf_rib f) (rf_pushed f) (if (rf_popped f <? length (rf_pushed f))%nat then S (rf_popped f) else rf_popped f)
    (toFibMessageQ_ f).

Class RibBaseConfig := {
  countConfedsInAsPathLen : bool;
  computeUcmpFromLbwComm : bool;
  ucmpWidth_ : Z;
  ucmpQuantizer_ : option BgpUcmpQuantizer;
  bestpathFeatures : BgpBestpathFeatures;
  ribOutQHighWatermark_ : Z;
  highWatermarkForRouteChurn_ : Z;
  lowWatermarkForRouteChurn_ : Z;
  getBackupAddr : ptr -> option IPAddress;   (** of a [BgpPath] object *)
  hasConditionalLocalRoutes : bool
}.

Section RibFib.
Context `{SubnetOps, RibConfig, RibBaseConfig, AgentTypes}.

(** ** Pause and resume *)

Definition set_pause (paused : bool) (by_ : gset RibPauseResumeCause) (batchTimer pauseTimer : bool)
    (c : RibControl) : RibControl :=
  mkControl (ribEoRReceived_ c) (initialEorSent_ c) (pendingInitialPathComputation_ c)
    (firstNexthopResolutionProcessed_ c) (nexthopResolutionTimer_ c) batchTimer paused by_ pauseTimer
    (fibSyncReqPending_ c) (prefixCountForRouteChurn_ c) (routeChurnMonitors c).

Definition set_fibSyncReqPending (b : bool) (c : RibControl) : RibControl :=
  mkControl (ribEoRReceived_ c) (initialEorSent_ c) (pendingInitialPathComputation_ c)
    (firstNexthopResolutionProcessed_ c) (nexthopResolutionTimer_ c) (fibBatchTimer_ c)
    (pauseBestPathAndFibProgramming_ c) (bestPathAndFibProgrammingPausedBy_ c) (ribPauseTimer_ c)
    b (prefixCountForRouteChurn_ c) (routeChurnMonitors c).

Definition processPauseBestPathAndFibProgramming (taskName : RibPauseResumeCause) (c : RibControl)
    : RibControl :=
  if bool_decide (taskName ∈ bestPathAndFibProgrammingPausedBy_ c) then c
  else
  let by_ := {[taskName]} ∪ bestPathAndFibProgrammingPausedBy_ c in
  let batchTimer := if pauseBestPathAndFibProgramming_ c then fibBatchTimer_ c else false in
  set_pause true by_ batchTimer
    (if bool_decide (taskName = BACKPRESSURE) then ribPauseTimer_ c else true) c.

Definition ribOutQPushAndMayPauseBestPathAndFibProgramming (msg : RibOutMessage) (f : RibFib) : RibFib :=
  let f := mkRibFib (rf_rib f) (rf_pushed f ++ [msg]) (rf_popped f) (toFibMessageQ_ f) in
  if ribOutQHighWatermark_ <? Z.of_nat (ribOutQ_size f)
  then rf_upd_rib (fun r => rib_set_control (processPauseBestPathAndFibProgramming BACKPRESSURE (rib_control r)) r) f
  else f.

(** ** Path selection of an entry *)

(** The next hops as the routes see them *)
Definition contextOf (r : Rib) : RibContext :=
  {| features := bestpathFeatures; nexthopInfos := fun n => ni_status (nt_infos (rib_nexthops r) n) |}.

(** The selectors, as the constructor builds them: their rules read the next hops there are
    when they run. *)
Definition multipathSelector_ (r : Rib) : list (RouteFilter RouteInfo) :=
  default [] (@newRouteInfoSelector (contextOf r) (@getBaseRouteFilterConfigsMultiPath (contextOf r) countConfedsInAsPathLen)).
Definition bestpathSelector_ (r : Rib) : list (RouteFilter RouteInfo) :=
  default [] (@newRouteInfoSelector (contextOf r) (getRouteFilterConfigsBestPath countConfedsInAsPathLen)).

Definition getBgpPathType (r : RouteInfo) : BgpRouteType :=
  if getIsRouteLocal r then RT_LOCAL
  else if has_state (ri_status r) EXTERNAL then RT_EBGP
  else if has_state (ri_status r) CONFED_EXTERNAL then RT_ConfedEBGP
  else RT_IBGP.

Definition bestpathSource (w : Heap) (bestpath : option ptr) : option BgpRouteType :=
  (fun p => getBgpPathType (hp_routes w p)) <$> bestpath.

Definition recordBestpathSourceDelta (w : Heap) (prefix : CIDRNetwork) (oldSource : option BgpRouteType)
    (newBestpath : option ptr) : RibCounters -> RibCounters :=
  onBestpathSourceChanged (isV4 prefix.1) oldSource (bestpathSource w newBestpath).

Definition recordInactivePathDelta (prefix : CIDRNetwork) (oldCount : Z) (e : RibEntry)
    : RibCounters -> RibCounters :=
  onInactivePathsDelta (isV4 prefix.1) (re_inactivePathCount e - oldCount).

(** The identity of the map of next hops: a map is built when it differs from the old one. *)
Definition nextNexthopsId (old new : option (gmap IPAddress Z)) (id fresh : Z) : Z * Z :=
  match new with
  | Some _ => if bool_decide (old = new) then (id, fresh) else (fresh, fresh + 1)
  | None => (id, fresh)
  end.

Definition rib_set_nextId (n : Z) (r : Rib) : Rib :=
  mkRib (rib_heap r) (ribEntries_ r) (localRoutes_ r) (rib_nexthops r) (ribCounters_ r) (fibBatchList_ r)
    n (ribVersion_ r) (rib_control r) (requestedSubscriptions r).

Definition setSlot (prefix : CIDRNetwork) (slot : RibSlot) (r : Rib) : Rib :=
  rib_set_entries (rib_heap r) (<[prefix := slot]> (ribEntries_ r)) r.

(** The flags: best path changed, next hops changed.  [None]: a check of the selection failed.
    [consumeNexthopResolvabilityChangePending] follows at its only caller. *)
Definition runBestPathSelection (slot : RibSlot) (r : Rib) : option (bool * bool * RibSlot * Rib) :=
  let e := sl_entry slot in
  let w := rib_heap r in
  '(bestpathChanged, nexthopChanged, w', e') ←
    @selectBestPath (contextOf r) (multipathSelector_ r) (bestpathSelector_ r) computeUcmpFromLbwComm ucmpWidth_
      ucmpQuantizer_ (getAllPaths e) w e;
  let '(id, fresh) := nextNexthopsId (weightedNexthops (re_weights e)) (weightedNexthops (re_weights e'))
                        (sl_nexthopsId slot) (rib_nextId r) in
  let slot := mkSlot e' (sl_hasFibOutState slot) id (sl_advertisedNexthops slot) (sl_ribVersion slot) false in
  let counters :=
    recordInactivePathDelta (re_prefix e) (re_inactivePathCount e) e'
      (recordBestpathSourceDelta w' (re_prefix e) (bestpathSource w (re_bestpath e)) (re_bestpath e')
         (ribCounters_ r)) in
  Some (bestpathChanged, nexthopChanged, slot,
        rib_set_nextId fresh
          (rib_set_counters counters
             (rib_set_entries w' (<[re_prefix e := slot]> (ribEntries_ r)) r))).

(** ** Preparing the FIB's work *)

Definition incrementRibVersion (r : Rib) : Rib :=
  mkRib (rib_heap r) (ribEntries_ r) (localRoutes_ r) (rib_nexthops r) (ribCounters_ r) (fibBatchList_ r)
    (rib_nextId r) (uint 64 (ribVersion_ r + 1)) (rib_control r) (requestedSubscriptions r).

Definition isOnFibBatchList (prefix : CIDRNetwork) (r : Rib) : bool := bool_decide (prefix ∈ fibBatchList_ r).

Definition addToFibBatchList (prefix : CIDRNetwork) (r : Rib) : Rib :=
  if isOnFibBatchList prefix r then r else rib_set_batch (fibBatchList_ r ++ [prefix]) r.

Definition sl_set_ribVersion (v : Z) (s : RibSlot) : RibSlot :=
  mkSlot (sl_entry s) (sl_hasFibOutState s) (sl_nexthopsId s) (sl_advertisedNexthops s) v
    (sl_resolvabilityPending s).

(** The loops fill messages beside the RIB: [pe_entries] those of the best paths, [pe_addPath]
    those of all paths. *)
Record Preparing := mkPreparing {
  pe_fib : RibFib;
  pe_entries : list RibOutGone;
  pe_addPath : list RibOutGone
}.

Definition chunkFull {X} (l : list X) : bool := (length l =? kRibChunkSize)%nat.

(** The version is that of the RIB: the last one given out *)
Fixpoint withdrawPaths (prefix : CIDRNetwork) (nexthops : list IPAddress) (f : RibFib)
    (addPath : list RibOutGone) : RibFib * list RibOutGone :=
  match nexthops with
  | [] => (f, addPath)
  | nh :: nexthops =>
      let '(f, addPath) :=
        if chunkFull addPath
        then (rf_upd_rib incrementRibVersion
                (ribOutQPushAndMayPauseBestPathAndFibProgramming (RibOutWithdrawal [] addPath) f), [])
        else (f, addPath) in
      withdrawPaths prefix nexthops f
        (addPath ++ [mkRibOutGone prefix kPlaceholderPathID (Some nh) (ribVersion_ (rf_rib f))])
  end.

Definition handleFullAddPathWithdrawal (prefix : CIDRNetwork) (slot : RibSlot) (f : RibFib)
    (addPath : list RibOutGone) : RibFib * list RibOutGone :=
  match sl_advertisedNexthops slot with
  | Some (_, m) => withdrawPaths prefix (map fst (map_to_list m)) f addPath
  | None => (f, addPath)
  end.

(** A prefix that goes: the peers are told first. *)
Definition prepareWithdrawal (prefix : CIDRNetwork) (slot : RibSlot) (p : Preparing) : Preparing :=
  let '(f, entries) :=
    if chunkFull (pe_entries p)
    then (ribOutQPushAndMayPauseBestPathAndFibProgramming (RibOutWithdrawal (pe_entries p) []) (pe_fib p), [])
    else (pe_fib p, pe_entries p) in
  let f := rf_upd_rib incrementRibVersion f in
  let '(f, addPath) := handleFullAddPathWithdrawal prefix slot f (pe_addPath p) in
  let version := ribVersion_ (rf_rib f) in
  let slot := sl_set_ribVersion version (sl_set_entry (commitBestpath (sl_entry slot)).2 slot) in
  mkPreparing (rf_upd_rib (setSlot prefix slot) f)
    (entries ++ [mkRibOutGone prefix kDefaultPathID None version]) addPath.

Definition isNone {X} (o : option X) : bool := match o with None => true | Some _ => false end.

Definition prepareEntry (fullSync : bool) (prefix : CIDRNetwork) (p : Preparing) : option Preparing :=
  match findSlot prefix (rf_rib (pe_fib p)) with
  | None => Some p
  | Some slot =>
      if negb fullSync && negb (re_needPathSelection (sl_entry slot)) then Some p
      else
      '(bestpathChanged, nexthopChanged, slot, r) ← runBestPathSelection slot (rf_rib (pe_fib p));
      let r := if fullSync then addToFibBatchList prefix r else r in
      let p := mkPreparing (rf_set_rib r (pe_fib p)) (pe_entries p) (pe_addPath p) in
      if negb bestpathChanged && negb nexthopChanged && multipathChanged (sl_entry slot)
      then Some (mkPreparing (rf_upd_rib (addToFibBatchList prefix) (pe_fib p)) (pe_entries p) (pe_addPath p))
      else
      let e := sl_entry slot in
      let p :=
        if nexthopChanged || bestpathChanged then
          let p := if isNone (weightedNexthops (re_weights e)) || (bestpathChanged && isNone (re_bestpath e))
                   then prepareWithdrawal prefix slot p else p in
          mkPreparing (rf_upd_rib (addToFibBatchList prefix) (pe_fib p)) (pe_entries p) (pe_addPath p)
        else p in
      Some (if (re_allPathsCount e =? 0) && sl_hasFibOutState slot
            then mkPreparing (rf_upd_rib (addToFibBatchList prefix) (pe_fib p)) (pe_entries p) (pe_addPath p)
            else p)
  end.

Fixpoint prepareEntries (fullSync : bool) (prefixes : list CIDRNetwork) (p : Preparing) : option Preparing :=
  match prefixes with
  | [] => Some p
  | prefix :: prefixes => p ← prepareEntry fullSync prefix p; prepareEntries fullSync prefixes p
  end.

(** The entries are walked in the order of [map_to_list]. *)
Definition prepareFibProgramming (fullSync : bool) (f : RibFib) : option RibFib :=
  let f := if fullSync then rf_upd_rib (rib_set_batch []) f else f in
  p ← prepareEntries fullSync (map fst (map_to_list (ribEntries_ (rf_rib f)))) (mkPreparing f [] []);
  let f := if nonempty (pe_entries p) || nonempty (pe_addPath p)
           then ribOutQPushAndMayPauseBestPathAndFibProgramming
                  (RibOutWithdrawal (pe_entries p) (pe_addPath p)) (pe_fib p)
           else pe_fib p in
  Some (if negb (nonempty (fibBatchList_ (rf_rib f))) && negb fullSync then f
        else mkRibFib (rf_rib f) (rf_pushed f) (rf_popped f) (toFibMessageQ_ f ++ [fullSync])).

(** ** The FIB's work *)

(** One entry of [fibBatchList_] *)
Definition stageEntry (prefix : CIDRNetwork) (x : Rib * FibFboss) : Rib * FibFboss :=
  let '(r, fib) := x in
  match findSlot prefix r with
  | None => (r, fib)
  | Some slot =>
      let e := sl_entry slot in
      let bestPath := hp_routes (rib_heap r) <$> re_bestpath e in
      let isLocalRouteBest :=
        match bestPath with
        | Some p => bool_decide (path_nexthop (ri_path p) = kLocalRouteV4Nexthop)
                    || bool_decide (path_nexthop (ri_path p) = kLocalRouteV6Nexthop)
        | None => false
        end in
      let fib :=
        updateUnicastRouteWithBackup prefix ((fun p => (ri_attrs p).1) <$> bestPath)
          ((fun m => (sl_nexthopsId slot, m)) <$> weightedNexthops (re_weights e))
          isLocalRouteBest (re_installToFib e) None (nexthopsAndTopoInfo (re_weights e))
          (bestPath ≫= fun p => getBackupAddr (ri_attrs p).1) fib in
      let slot := mkSlot e true (sl_nexthopsId slot) (sl_advertisedNexthops slot) (sl_ribVersion slot)
                    (sl_resolvabilityPending slot) in
      (setSlot prefix slot r, fib)
  end.

Definition stageEntries (prefixes : list CIDRNetwork) (x : Rib * FibFboss) : Rib * FibFboss :=
  fold_left (fun x prefix => stageEntry prefix x) prefixes x.

(** A turn of [processFibProgrammingMsgLoop] with the messages that are there, up to [program]:
    the result says whether it is called, and with which argument. *)
Definition processFibProgrammingMsgs (f : RibFib) (fib : FibFboss) : option bool * RibFib * FibFboss :=
  let fullSync := existsb id (toFibMessageQ_ f) in
  let f := mkRibFib (rf_rib f) (rf_pushed f) (rf_popped f) [] in
  if negb (fibIsConnected fib) then (None, f, fib)
  else if negb (fibIsFullSynced fib) && negb fullSync then (None, f, fib)
  else
  let batch := fibBatchList_ (rf_rib f) in
  let '(r, fib) := stageEntries batch (rf_rib f, fib) in
  let r := rib_set_batch [] r in
  let r := rib_set_nexthops (deleteUnusedNexthopInfos (rib_heap r) (rib_nexthops r)) r in
  (if fullSync || nonempty batch then Some fullSync else None, rf_set_rib r f, fib).

(** ** What the FIB has done *)

(** The messages being filled *)
Record Acking := mkAcking {
  ak_fib : RibFib;
  ak_entries : list RibOutPath;        (** [announcement.entries] *)
  ak_addPath : list RibOutPath;        (** [announcementAddPath.addPathEntries] *)
  ak_withdrawn : list RibOutGone       (** [withdrawal.addPathEntries] *)
}.

Definition ribOutPathOf (prefix : CIDRNetwork) (pathId : Z) (route : RouteInfo) (e : RibEntry)
    (newlyInstalled : bool) (version : Z) : RibOutPath :=
  let v := re_weights e in
  mkRibOutPath prefix pathId (ri_peer route) (ri_attrs route) (Z.of_nat (size (re_multipaths e)))
    (aggregateReceivedUcmpWeight v) (aggregateLocalUcmpWeight v) (ribPolicyUcmpWeight v)
    newlyInstalled version (isPartialDrain v).

(** [flushAnnouncementChunk] *)
Definition flushAnnouncementChunk (sendWithEoR : bool) (entries addPath : list RibOutPath) (f : RibFib) : RibFib :=
  ribOutQPushAndMayPauseBestPathAndFibProgramming (RibOutAnnouncement entries false sendWithEoR addPath) f.

(** All paths of a prefix, for the peers that take them all.  [XCHECK]s their path ids. *)
Fixpoint announcePaths (sendWithEoR newlyInstalled : bool) (prefix : CIDRNetwork) (e : RibEntry)
    (paths : list ptr) (f : RibFib) (addPath : list RibOutPath) : option (RibFib * list RibOutPath) :=
  match paths with
  | [] => Some (f, addPath)
  | p :: paths =>
      let '(f, addPath) :=
        if chunkFull addPath
        then (rf_upd_rib incrementRibVersion (flushAnnouncementChunk sendWithEoR [] addPath f), [])
        else (f, addPath) in
      let route := hp_routes (rib_heap (rf_rib f)) p in
      pathId ← ri_pathIdToSend route;
      announcePaths sendWithEoR newlyInstalled prefix e paths f
        (addPath ++ [ribOutPathOf prefix pathId route e newlyInstalled (ribVersion_ (rf_rib f))])
  end.

Definition sl_commitNexthops (s : RibSlot) : RibSlot :=
  mkSlot (sl_entry s) (sl_hasFibOutState s) (sl_nexthopsId s)
    ((fun m => (sl_nexthopsId s, m)) <$> weightedNexthops (re_weights (sl_entry s)))
    (sl_ribVersion s) (sl_resolvabilityPending s).

(** The next hops advertised before and no more *)
Definition goneNexthops (old new : option (Z * gmap IPAddress Z)) : list IPAddress :=
  match old, new with
  | Some (_, o), Some (_, n) =>
      if bool_decide (o = n) then []
      else List.filter (fun nh => isNone (n !! nh)) (map fst (map_to_list o))
  | _, _ => []
  end.

(** A prefix the FIB has, with the next hops the entry still has.  [None]: a null best path is
    announced. *)
Definition announceProgrammed (sendWithEoR : bool) (prefix : CIDRNetwork) (slot : RibSlot) (a : Acking)
    : option Acking :=
  let f := rf_upd_rib incrementRibVersion (ak_fib a) in
  let oldAdvMultipathNHs := sl_advertisedNexthops slot in
  let slot := sl_commitNexthops slot in
  let e := sl_entry slot in
  let newlyInstalled := isNone (re_advertisedBestpath e) in
  let '(changed, e) := commitMultipaths e in
  '(f, addPath, withdrawn) ←
    (if changed && negb (isNone (re_bestpath e)) then
       '(f, addPath) ← announcePaths sendWithEoR newlyInstalled prefix e
                         (map snd (map_to_list (re_advertisedMultipaths e))) f (ak_addPath a);
       let '(f, withdrawn) := withdrawPaths prefix (goneNexthops oldAdvMultipathNHs (sl_advertisedNexthops slot))
                                f (ak_withdrawn a) in
       Some (f, addPath, withdrawn)
     else Some (f, ak_addPath a, ak_withdrawn a));
  let version := ribVersion_ (rf_rib f) in
  let '(bestpathChanged, e) := commitBestpath e in
  let slot := sl_set_ribVersion version (sl_set_entry e slot) in
  let f := rf_upd_rib (setSlot prefix slot) f in
  if negb bestpathChanged then Some (mkAcking f (ak_entries a) addPath withdrawn)
  else
  bestpath ← re_advertisedBestpath e;
  let '(f, entries) :=
    if chunkFull (ak_entries a) then (flushAnnouncementChunk sendWithEoR (ak_entries a) [] f, [])
    else (f, ak_entries a) in
  Some (mkAcking f
          (entries ++ [ribOutPathOf prefix kDefaultPathID (hp_routes (rib_heap (rf_rib f)) bestpath) e
                         newlyInstalled version])
          addPath withdrawn).

(** One programmed prefix *)
Definition ackPrefix (sendWithEoR : bool) (prefix : CIDRNetwork) (programmed : option NexthopsPtr) (a : Acking)
    : option Acking :=
  let r := rf_rib (ak_fib a) in
  match findSlot prefix r with
  | None => Some a
  | Some slot =>
      let e := sl_entry slot in
      match programmed with
      | None =>
          Some (if (re_allPathsCount e =? 0) && negb (isOnFibBatchList prefix r)
                then mkAcking
                       (rf_set_rib
                          (eraseEntry prefix
                             (rib_set_counters
                                (onPrefixRemoved (isV4 prefix.1) prefix.2 (re_inactivePathCount e) (ribCounters_ r)) r))
                          (ak_fib a))
                       (ak_entries a) (ak_addPath a) (ak_withdrawn a)
                else a)
      | Some (id, _) =>
          match weightedNexthops (re_weights e) with
          | Some _ => if sl_nexthopsId slot =? id then announceProgrammed sendWithEoR prefix slot a else Some a
          | None => Some a
          end
      end
  end.

Fixpoint ackPrefixes (sendWithEoR : bool) (pfxs : list (CIDRNetwork * option NexthopsPtr)) (a : Acking)
    : option Acking :=
  match pfxs with
  | [] => Some a
  | (prefix, programmed) :: pfxs => a ← ackPrefix sendWithEoR prefix programmed a; ackPrefixes sendWithEoR pfxs a
  end.

(** [FibProgrammedPrefixIterator]: local routes first *)
Definition fibProgrammedPrefixes (r : Rib) (pfxNhs : gmap CIDRNetwork (option NexthopsPtr))
    : list (CIDRNetwork * option NexthopsPtr) :=
  omap (fun '(p, _) => (fun n => (p, n)) <$> pfxNhs !! p) (map_to_list (localRoutes_ r)) ++
  List.filter (fun '(p, _) => isNone (localRoutes_ r !! p)) (map_to_list pfxNhs).

Definition set_initialEorSent (c : RibControl) : RibControl :=
  mkControl (ribEoRReceived_ c) true (pendingInitialPathComputation_ c)
    (firstNexthopResolutionProcessed_ c) (nexthopResolutionTimer_ c) (fibBatchTimer_ c)
    (pauseBestPathAndFibProgramming_ c) (bestPathAndFibProgrammingPausedBy_ c) (ribPauseTimer_ c)
    (fibSyncReqPending_ c) (prefixCountForRouteChurn_ c) (routeChurnMonitors c).

Definition handleFibProgrammedMessage
    (fibProgrammedPfxs : gmap (option ptr) (gmap CIDRNetwork (option NexthopsPtr))) (isSync : bool) (f : RibFib)
    : option RibFib :=
  let sendWithEoR := isSync && negb (initialEorSent_ (rib_control (rf_rib f))) in
  let f := if sendWithEoR
           then mkRibFib (rib_set_control (set_initialEorSent (rib_control (rf_rib f))) (rf_rib f))
                  (rf_pushed f ++ [RibInitialAnnouncementStart]) (rf_popped f) (toFibMessageQ_ f)
           else f in
  let pfxs := concat (map (fun '(_, m) => fibProgrammedPrefixes (rf_rib f) m) (map_to_list fibProgrammedPfxs)) in
  a ← ackPrefixes sendWithEoR pfxs (mkAcking f [] [] []);
  let f := if nonempty (ak_withdrawn a)
           then ribOutQPushAndMayPauseBestPathAndFibProgramming (RibOutWithdrawal [] (ak_withdrawn a)) (ak_fib a)
           else ak_fib a in
  Some (if sendWithEoR || nonempty (ak_entries a) || nonempty (ak_addPath a)
        then ribOutQPushAndMayPauseBestPathAndFibProgramming
               (RibOutAnnouncement (ak_entries a) sendWithEoR sendWithEoR (ak_addPath a)) f
        else f).

Definition handleFibSyncReq (f : RibFib) : option RibFib :=
  let c := rib_control (rf_rib f) in
  if negb (ribEoRReceived_ c) then Some f
  else if pauseBestPathAndFibProgramming_ c
  then Some (rf_upd_rib (rib_set_control (set_fibSyncReqPending true c)) f)
  else prepareFibProgramming true f.

(** ** Resuming *)

Definition requirePathSelection (slot : RibSlot) : RibSlot :=
  sl_set_entry (set_needPathSelection true (sl_entry slot)) slot.

Definition requirePathSelectionForNexthopResolvabilityChange (slot : RibSlot) : RibSlot :=
  mkSlot (set_needPathSelection true (sl_entry slot)) (sl_hasFibOutState slot) (sl_nexthopsId slot)
    (sl_advertisedNexthops slot) (sl_ribVersion slot) true.

Definition requireAll (r : Rib) : Rib :=
  rib_set_entries (rib_heap r) (requirePathSelection <$> ribEntries_ r) r.

(** [cause]: none when the timer ran out *)
Definition mayResumeBestPathAndFibProgramming (cause : option RibPauseResumeCause) (f : RibFib)
    : option RibFib :=
  let c := rib_control (rf_rib f) in
  if negb (pauseBestPathAndFibProgramming_ c) then Some f
  else
  let blocked := isNone cause && bool_decide (BACKPRESSURE ∈ bestPathAndFibProgrammingPausedBy_ c) in
  if blocked
  then Some (rf_upd_rib (rib_set_control (set_pause true {[BACKPRESSURE]} (fibBatchTimer_ c) (ribPauseTimer_ c) c)) f)
  else
  let by_ := if isNone cause then ∅ else bestPathAndFibProgrammingPausedBy_ c in
  let c := set_pause false by_ (fibBatchTimer_ c) (ribPauseTimer_ c) c in
  let f := rf_upd_rib (fun r => requireAll (rib_set_control c r)) f in
  if negb (ribEoRReceived_ c) then Some f
  else
  let fullSync := fibSyncReqPending_ c in
  let f := rf_upd_rib (rib_set_control (set_fibSyncReqPending false c)) f in
  f ← prepareFibProgramming fullSync f;
  Some (rf_upd_rib (fun r => rib_set_control (schedulePrepareFibProgrammingTimer (rib_control r)) r) f).

Definition processResumeBestPathAndFibProgramming (taskName : RibPauseResumeCause) (f : RibFib)
    : option RibFib :=
  let c := rib_control (rf_rib f) in
  let by_ := bestPathAndFibProgrammingPausedBy_ c ∖ {[taskName]} in
  let f := rf_upd_rib (rib_set_control
                         (set_pause (pauseBestPathAndFibProgramming_ c) by_ (fibBatchTimer_ c) (ribPauseTimer_ c) c)) f in
  if negb (bool_decide (by_ = ∅)) then Some f
  else mayResumeBestPathAndFibProgramming (Some taskName) f.

(** The timers *)
Definition onRibPauseTimer (f : RibFib) : option RibFib :=
  let c := rib_control (rf_rib f) in
  mayResumeBestPathAndFibProgramming None
    (rf_upd_rib (rib_set_control
       (set_pause (pauseBestPathAndFibProgramming_ c) (bestPathAndFibProgrammingPausedBy_ c) (fibBatchTimer_ c) false c)) f).

Definition onFibBatchTimer (f : RibFib) : option RibFib :=
  let c := rib_control (rf_rib f) in
  prepareFibProgramming false
    (rf_upd_rib (rib_set_control
       (set_pause (pauseBestPathAndFibProgramming_ c) (bestPathAndFibProgrammingPausedBy_ c) false (ribPauseTimer_ c) c)) f).

Definition set_churnCount (n : Z) (c : RibControl) : RibControl :=
  mkControl (ribEoRReceived_ c) (initialEorSent_ c) (pendingInitialPathComputation_ c)
    (firstNexthopResolutionProcessed_ c) (nexthopResolutionTimer_ c) (fibBatchTimer_ c)
    (pauseBestPathAndFibProgramming_ c) (bestPathAndFibProgrammingPausedBy_ c) (ribPauseTimer_ c)
    (fibSyncReqPending_ c) n (routeChurnMonitors c).

(** A turn of [monitorRouteChurn]: [detected] is the previous verdict. *)
Definition monitorRouteChurn (detected : bool) (f : RibFib) : option (bool * RibFib) :=
  let c := rib_control (rf_rib f) in
  let detected := isRouteChurnDetected highWatermarkForRouteChurn_ lowWatermarkForRouteChurn_ detected c in
  f ← (if detected
       then Some (rf_upd_rib (rib_set_control (processPauseBestPathAndFibProgramming ROUTE_CHURN c)) f)
       else if bool_decide (ROUTE_CHURN ∈ bestPathAndFibProgrammingPausedBy_ c)
       then processResumeBestPathAndFibProgramming ROUTE_CHURN f
       else Some f);
  Some (detected, rf_upd_rib (fun r => rib_set_control (set_churnCount 0 (rib_control r)) r) f).

(** ** The first path computation *)

Definition set_initial (eor pending : bool) (timer : option Z) (monitors : nat) (c : RibControl) : RibControl :=
  mkControl eor (initialEorSent_ c) pending (firstNexthopResolutionProcessed_ c) timer (fibBatchTimer_ c)
    (pauseBestPathAndFibProgramming_ c) (bestPathAndFibProgrammingPausedBy_ c) (ribPauseTimer_ c)
    (fibSyncReqPending_ c) (prefixCountForRouteChurn_ c) monitors.

Definition isInitialPathComputationReady (r : Rib) : bool :=
  areAllRegisteredNexthopsResolved (rib_nexthops r) &&
  (negb hasConditionalLocalRoutes || firstNexthopResolutionProcessed_ (rib_control r)).

(** [CHECK]s that the batch list is empty. *)
Definition runInitialPathComputation (f : RibFib) : option RibFib :=
  let c := rib_control (rf_rib f) in
  if nonempty (fibBatchList_ (rf_rib f)) then None
  else
  f ← prepareFibProgramming true
        (rf_upd_rib (rib_set_control (set_initial true false None (routeChurnMonitors c) c)) f);
  let c := rib_control (rf_rib f) in
  Some (rf_upd_rib (rib_set_control
          (set_initial (ribEoRReceived_ c) (pendingInitialPathComputation_ c) (nexthopResolutionTimer_ c)
             (S (routeChurnMonitors c)) c)) f).

Definition processRibInInitialPathComputation (nexthopResolutionTimeout : Z) (f : RibFib) : option RibFib :=
  let c := rib_control (rf_rib f) in
  if ribEoRReceived_ c then Some f
  else if (0 <? nexthopResolutionTimeout) && negb (isInitialPathComputationReady (rf_rib f))
  then Some (rf_upd_rib (rib_set_control
               (set_initial false true (Some nexthopResolutionTimeout) (routeChurnMonitors c) c)) f)
  else runInitialPathComputation f.

Definition maybeRunPendingInitialPathComputation (f : RibFib) : option RibFib :=
  if negb (pendingInitialPathComputation_ (rib_control (rf_rib f))) then Some f
  else if negb (isInitialPathComputationReady (rf_rib f)) then Some f
  else runInitialPathComputation f.

Definition onNexthopResolutionTimeout (f : RibFib) : option RibFib :=
  if negb (pendingInitialPathComputation_ (rib_control (rf_rib f))) then Some f
  else runInitialPathComputation f.

(** ** Next hop updates *)

(** The entry of a route of a next hop is marked. *)
Definition markRoute (resolvabilityChanged : bool) (r : Rib) (p : ptr) : Rib :=
  let prefix := ri_prefix (hp_routes (rib_heap r) p) in
  match findSlot prefix r with
  | Some slot => setSlot prefix (if resolvabilityChanged
                                 then requirePathSelectionForNexthopResolvabilityChange slot
                                 else requirePathSelection slot) r
  | None => r
  end.

(** One status of the update; the flag: some route needs path selection. *)
Definition processQueuedStatus (now : Z) (x : bool * Rib) (queuedStatus : CachedStatus) : bool * Rib :=
  let '(needPathSelection, r) := x in
  let '(changed, t) := processNexthopStatus now queuedStatus (rib_nexthops r) in
  let r := rib_set_nexthops t r in
  match changed with
  | Some (info, resolvabilityChanged) =>
      if negb (ribEoRReceived_ (rib_control r)) then (needPathSelection, r)
      else
        let routes := hp_assoc (rib_heap r) info in
        (needPathSelection || nonempty routes, fold_left (markRoute resolvabilityChanged) routes r)
  | None => (needPathSelection, r)
  end.

Definition processRibInNexthopUpdate (now : Z) (nexthopStatuses : list CachedStatus) (f : RibFib)
    : option RibFib :=
  if negb enableNexthopTracking_ then Some f
  else
  let '(needPathSelection, r) := fold_left (processQueuedStatus now) nexthopStatuses (false, rf_rib f) in
  let r := if needPathSelection
           then rib_set_control (schedulePrepareFibProgrammingTimer (rib_control r)) r else r in
  maybeRunPendingInitialPathComputation (rf_set_rib r f).
End RibFib.
