(* ===== verification/RibFibSel.v ===== *)
(** * The RIB: what a run of path selection leaves alone

    Whatever the selectors, the weights and the order of the paths: selection touches of a
    route only its path id and its rejection criterion, and the flags it returns tell
    whether the best path and the next hops are still what they were. *)

From stdpp Require Import gmap strings fin_sets.
From Stdlib Require Import SpecFloat.
From S2P Require Import Prelude BgpException Folly BgpStructs RouteFilter RouteInfo RouteSelector RibEntry Ucmp.
From S2P Require Import PathSelection.

Section SelectionFrame.
Context `{RibContext}.

(** ** The store *)

Record same_store (w w' : Heap) : Prop := {
  sst_next : hp_next w' = hp_next w;
  sst_assoc : hp_assoc w' = hp_assoc w;
  sst_core : same_core (hp_routes w') (hp_routes w)
}.

#[export] Instance same_store_preorder : PreOrder same_store.
Proof.
  split.
  - by intros w.
  - intros a b c [N1 A1 C1] [N2 A2 C2]. split; [congruence..|]. by eapply same_core_trans.
Qed.

(** Writing marks through pointers leaves the core of every route. *)
Lemma update_all_core (f : ptr -> RouteInfo -> RouteInfo) ps h :
  (forall p r, core (f p r) = core r) -> same_core (update_all h ps f) h.
Proof.
  intros Hf. revert h. induction ps as [|p ps IH]; intros h; [by intros q|]. unfold update_all. simpl.
  eapply same_core_trans; [apply IH|]. intros q. unfold update. by case_bool_decide.
Qed.

Lemma partition_sub c keep routes ws fm acc rej fm' :
  partitionRoutes c keep routes ws fm = (acc, rej, fm') -> forall p, p ∈ acc -> p ∈ routes.
Proof.
  revert ws fm acc rej fm'. induction routes as [|q routes IH]; intros [|w ws] fm acc rej fm'; simpl;
    try (by intros [= <- _ _] p ?%elem_of_nil).
  destruct (keep w).
  - destruct (partitionRoutes c keep routes ws fm) as [[a r] m] eqn:E. intros [= <- _ _] p [->|Hp]%elem_of_cons; [left|].
    right. by eapply IH.
  - destruct (partitionRoutes c keep routes ws _) as [[a r] m] eqn:E. intros [= <- _ _] p Hp. right. by eapply IH.
Qed.

Lemma flat_filter_sub (h : ptr -> RouteInfo) f prev fm res fm' :
  flat f = true -> filterRoutes h f prev fm = Some (res, fm') -> forall p, p ∈ res.1 -> p ∈ prev.1.
Proof.
  destruct f as [c rule k]. destruct k as [a b|a|a vals|ts]; [| | |done]; intros _; cbn [filterRoutes];
    destruct (mapM _ prev.1) as [ws|]; cbn [mbind option_bind]; try done.
  - intros [= E]. destruct res as [acc rej]. by eapply partition_sub.
  - destruct ws as [|w ws]; [by intros [= <- _] p ?%elem_of_nil|]. intros [= E]. destruct res. by eapply partition_sub.
  - intros [= E]. destruct res. by eapply partition_sub.
Qed.

Lemma runFilters_sub (h : ptr -> RouteInfo) fs routes cur fm res fm' :
  forallb flat fs = true -> runFilters h fs routes cur fm = Some (res, fm') -> forall p, p ∈ res.1 -> p ∈ cur.1.
Proof.
  revert cur fm. induction fs as [|f fs IH]; intros cur fm Hf E p Hp; [by injection E as <- _|].
  apply andb_true_iff in Hf as [Hf Hfs]. simpl in E. destruct routes as [|q routes]; [by injection E as <- _|].
  destruct (filterRoutes h f cur fm) as [[next fm1]|] eqn:E1; [|done]. cbn [mbind option_bind] in E.
  eapply flat_filter_sub; [done..|]. by eapply IH.
Qed.

Lemma selectRouteInfos_frame fs routes w sel w' :
  selectRouteInfos fs routes w = Some (sel, w') ->
  same_store w w' /\ (forallb flat fs = true -> forall p, p ∈ sel -> p ∈ routes).
Proof.
  unfold selectRouteInfos, selectRoutesAndSetRejectionFilter, applyFilters.
  set (h1 := update_all (hp_routes w) routes _).
  destruct (runFilters h1 fs routes (routes, []) (Some ∅)) as [[res fm]|] eqn:E; [|done].
  cbn [mbind option_bind fst]. intros [= <- <-]. split.
  - split; [done..|]. simpl. eapply same_core_trans; apply update_all_core; intros p r.
    + destruct (default ∅ fm !! p); by destruct r.
    + by destruct r.
  - intros Hf p Hp. by eapply runFilters_sub in E.
Qed.

Lemma assign_frame paths w e w' e' :
  assignSendPathIds paths w e = Some (w', e') ->
  same_store w w' /\ exists v, e' = set_freePathIdInterval v e.
Proof.
  revert w e. induction paths as [|p paths IH]; intros w e E; cbn [assignSendPathIds] in E.
  { injection E as <- <-. split; [done|]. exists (re_freePathIdInterval e). by destruct e. }
  unfold getOrAssignSendPathId, getPathIdToSend in E.
  destruct (ri_pathIdToSend (hp_routes w p)) as [i|] eqn:Ei; [by apply IH|].
  destruct (if _ <? _ then _ else _) as [iv|]; [|done]. cbn [mbind option_bind] in E.
  apply IH in E as [Hs [v ->]]. split.
  - etransitivity; [|exact Hs]. split; [done..|]. apply ids_extend_core. by apply ids_extend_assign.
  - exists v. by destruct e.
Qed.

(** ** The entry *)

(** What selection does not touch of an entry *)
Record same_paths (e e' : RibEntry) : Prop := {
  spa_prefix : re_prefix e' = re_prefix e;
  spa_routes : re_routeInfos e' = re_routeInfos e;
  spa_count : re_allPathsCount e' = re_allPathsCount e;
  spa_advBest : re_advertisedBestpath e' = re_advertisedBestpath e;
  spa_advMulti : re_advertisedMultipaths e' = re_advertisedMultipaths e
}.

#[export] Instance same_paths_preorder : PreOrder same_paths.
Proof.
  split; [by intros e; split|]. intros a b c [] []. split; congruence.
Qed.

(** A run of selection *)
Record selected (w : Heap) (e : RibEntry) (bestChanged nhChanged : bool) (w' : Heap) (e' : RibEntry) : Prop := {
  sn_store : same_store w w';
  sn_paths : same_paths e e';
  sn_done : re_needPathSelection e' = false;
  sn_best : bestChanged = false -> re_bestpath e' = re_bestpath e;
  sn_nexthops : nhChanged = false -> weightedNexthops (re_weights e') = weightedNexthops (re_weights e);
  sn_null : re_bestpath e' = None <-> weightedNexthops (re_weights e') = None;
  sn_install : re_installToFib e' =
    match re_bestpath e' with Some p => ri_installToFib (hp_routes w' p) | None => true end
}.

(** The phases that only set fields *)
Lemma accumulate_frame sel old q w e mult topo e' :
  accumulateAggregateWeightsAndTopoInfo sel old q w e = Some (mult, topo, e') ->
  exists v, e' = set_weights v e /\ weightedNexthops v = weightedNexthops (re_weights e).
Proof.
  unfold accumulateAggregateWeightsAndTopoInfo.
  match goal with |- context [mbind _ ?l] => destruct l as [x|] end; cbn [mbind option_bind]; [|done].
  intros [= _ _ <-]. eexists. by split.
Qed.

Lemma build_frame sel cu width mult w e m e' :
  buildAndNormalizeWeightedNexthops sel cu width mult w e = Some (m, e') ->
  exists v mp, e' = set_weights v (set_multipaths mp e) /\ weightedNexthops v = weightedNexthops (re_weights e).
Proof.
  unfold buildAndNormalizeWeightedNexthops. destruct (buildWeightedNexthops _ _ _ _ _) as [b|]; [|done].
  cbn [mbind option_bind]. destruct (_ && _).
  - destruct (normalizeNexthops _ _ _ _) as [x|]; [|done]. cbn [mbind option_bind]. intros [= _ <-].
    by eexists _, _.
  - intros [= _ <-]. by eexists _, _.
Qed.

Lemma changePair_frame input topo m e bc nc e' :
  computeChangePair input topo m e = (bc, nc, e') ->
  oldMultipathWeightedNexthops input = weightedNexthops (re_weights e) ->
  (exists v, e' = set_weights v e) /\ weightedNexthops (re_weights e') = Some m /\
  (bc = false -> re_bestpath e' = oldBestpath input) /\
  (nc = false -> weightedNexthops (re_weights e') = oldMultipathWeightedNexthops input).
Proof.
  unfold computeChangePair. intros E Ho.
  set (changed := negb (bool_decide (oldMultipathWeightedNexthops input = Some m))) in E.
  set (e1 := if changed then _ else e) in E.
  assert (H1 : (exists v, e1 = set_weights v e) /\ weightedNexthops (re_weights e1) = Some m /\
    re_bestpath e1 = re_bestpath e /\ (changed = false -> Some m = oldMultipathWeightedNexthops input)).
  { clear E. unfold e1, changed. case_bool_decide as D; simpl.
    - split; [exists (re_weights e); by destruct e|]. split; [by rewrite <- Ho|]. done.
    - split; [by eexists|]. done. }
  destruct H1 as (Hv & Hm & Hb & Hc).
  assert (He' : e' = e1 /\ nc = changed || topo /\ (bc = false -> re_bestpath e1 = oldBestpath input)).
  { destruct (oldBestpath input) as [p|] eqn:Eo, (re_bestpath e1) as [p'|] eqn:Ep; injection E as <- <- <-;
      (split; [done|]; split; [done|]); try done; intros Hf;
      apply orb_false_iff in Hf as [Hf _]; apply orb_false_iff in Hf as [Hf _];
      apply negb_false_iff, bool_decide_eq_true in Hf; congruence. }
  destruct He' as (-> & -> & Hbc). split; [done|]. split; [done|]. split; [done|].
  intros Hf. apply orb_false_iff in Hf as [Hf _]. rewrite Hm. by apply Hc.
Qed.

Lemma elem_of_list_filter_sub (P : ptr -> bool) l p : p ∈ List.filter P l -> p ∈ l.
Proof. rewrite !list_elem_of_In. by intros [? _]%filter_In. Qed.

Lemma selectBestPath_frame mps bps cu width q it w e bc nc w' e' :
  selectBestPath mps bps cu width q it w e = Some (bc, nc, w', e') ->
  selected w e bc nc w' e' /\
  (forallb flat mps = true -> forallb flat bps = true -> forall p, re_bestpath e' = Some p -> p ∈ it).
Proof.
  unfold selectBestPath, snapshotAndResetForPathSelection, prePathSelectionFiltering.
  set (input := mkInput _ _ _ _ _). set (e1 := set_inactivePathCount _ _).
  assert (He1 : same_paths e e1 /\ weightedNexthops (re_weights e1) = weightedNexthops (re_weights e) /\
                re_needPathSelection e1 = false) by done.
  destruct He1 as (Hp1 & Hw1 & Hn1). clearbody e1.
  destruct (List.filter _ it) as [|r0 routes] eqn:Er.
  { intros [= <- <- <- <-]. split; [|done]. split; try done.
    - etransitivity; [exact Hp1|]. by split.
    - simpl. intros Hb%negb_false_iff%bool_decide_eq_true. by rewrite <- Hb.
    - simpl. intros Hb%negb_false_iff%bool_decide_eq_true. by rewrite <- Hb. }
  rewrite <- Er. clear r0 routes Er. set (routes := List.filter _ it). intros E.
  destruct (multiPathSelection mps routes w e1) as [[[sel w1] e2]|] eqn:Em; [|done]. cbn [mbind option_bind] in E.
  destruct (accumulateAggregateWeightsAndTopoInfo _ _ _ _ _) as [[[mult topo] e3]|] eqn:Ea; [|done].
  cbn [mbind option_bind] in E.
  destruct (bestPathSelection bps sel w1 e3) as [[w2 e4]|] eqn:Eb; [|done]. cbn [mbind option_bind] in E.
  destruct (buildAndNormalizeWeightedNexthops _ _ _ _ _ _) as [[m e5]|] eqn:En; [|done]. cbn [mbind option_bind] in E.
  destruct (computeChangePair input topo m e5) as [[bc' nc'] e6] eqn:Ec. injection E as <- <- <- <-.
  unfold multiPathSelection in Em. destruct (selectRouteInfos mps routes w) as [[sel' w0]|] eqn:Es; [|done].
  cbn [mbind option_bind] in Em. destruct sel' as [|p0 sel']; [done|].
  destruct (assignSendPathIds _ w0 e1) as [[w0' e2']|] eqn:Eas; [|done]. injection Em as <- <- <-.
  destruct (selectRouteInfos_frame _ _ _ _ _ Es) as [S1 Sub1].
  destruct (assign_frame _ _ _ _ _ Eas) as [S2 [v2 ->]].
  destruct (accumulate_frame _ _ _ _ _ _ _ _ Ea) as (v3 & -> & W3).
  unfold bestPathSelection in Eb. destruct (selectRouteInfos bps _ w0') as [[best w2']|] eqn:Es2; [|done].
  cbn [mbind option_bind] in Eb. destruct best as [|p best]; [done|]. injection Eb as <- <-.
  destruct (selectRouteInfos_frame _ _ _ _ _ Es2) as [S3 Sub3].
  destruct (build_frame _ _ _ _ _ _ _ _ En) as (v5 & mp & -> & W5).
  destruct (changePair_frame _ _ _ _ _ _ _ Ec) as ((v6 & ->) & Wm & Hbc & Hnc).
  { simpl in *. congruence. }
  split; [split|].
  - etransitivity; [exact S1|]. by etransitivity.
  - etransitivity; [exact Hp1|]. by split.
  - done.
  - done.
  - done.
  - rewrite Wm. done.
  - done.
  - simpl. intros Hf1 Hf2 p' [= <-]. apply (elem_of_list_filter_sub (fun p => is_candidate (hp_routes w p)) it).
    apply (Sub1 Hf1). apply (Sub3 Hf2). left.
Qed.
End SelectionFrame.
