(* ===== verification/RibFibInv.v ===== *)
(** * The RIB, the FIB and the peers: the invariant

    For each prefix the RIB keeps what it has selected, what it last handed to the FIB and
    what it last told the peers.  The invariant relates the three, and is kept by the
    intake of routes. *)

From stdpp Require Import gmap strings fin_sets.
From Stdlib Require Import SpecFloat.
From S2P Require Import Prelude BgpException Folly BgpStructs RouteFilter RouteInfo RouteSelector RibEntry Ucmp.
From S2P Require Import PathSelection PathFields AdjRibCommon PackingList AdjRibOut MapSum NexthopCache.
From S2P Require Import RibNexthop RibCounters Rib RibSpec FibFboss RibFib RibFibSel.

(** ** Stable stores *)

(** What a route is announced and programmed with does not change. *)
Record stable (w w' : Heap) : Prop := {
  stb_next : (hp_next w <= hp_next w')%positive;
  stb_routes : forall q, (q < hp_next w)%positive ->
    ri_peer (hp_routes w' q) = ri_peer (hp_routes w q) /\ ri_attrs (hp_routes w' q) = ri_attrs (hp_routes w q) /\
    ri_installToFib (hp_routes w' q) = ri_installToFib (hp_routes w q)
}.

#[export] Instance stable_preorder : PreOrder stable.
Proof.
  split; [by split; [lia|]|]. intros a b c [N1 R1] [N2 R2]. split; [lia|]. intros q Hq.
  destruct (R1 q Hq) as (<- & <- & <-). apply R2. lia.
Qed.

Lemma grows_stable w w' : heap_grows w w' -> stable w w'.
Proof.
  intros [N R]. split; [done|]. intros q Hq.
  by destruct (same_route_fields _ _ (R q Hq)) as (_ & -> & -> & _ & _ & _ & ->).
Qed.

Lemma store_stable w w' : same_store w w' -> stable w w'.
Proof.
  intros [N _ C]. split; [rewrite N; lia|]. intros q _.
  by destruct (core_fields _ _ (C q)) as (_ & -> & -> & _ & -> & _).
Qed.

(** ** A prefix at a glance *)

Abbreviation Hops := (list (IPAddress * Z * NextHopRole)).
Abbreviation Told := (TinyPeerInfo * (ptr * BgpPath))%type.

(** The next hops of a route without the topology information *)
Definition hopsOf (x : UnicastRoute) : Hops :=
  map (fun n => (nht_address n, nht_weight n, nht_role n)) (ur_nextHops x).

Section RibFibInv.
Context `{SubnetOps, RibConfig, RibBaseConfig, AgentTypes}.

Definition isLocalBest (w : Heap) (best : option ptr) : bool :=
  match best with
  | Some q => bool_decide (path_nexthop (ri_path (hp_routes w q)) = kLocalRouteV4Nexthop)
              || bool_decide (path_nexthop (ri_path (hp_routes w q)) = kLocalRouteV6Nexthop)
  | None => false
  end.

Definition backupOf (w : Heap) (best : option ptr) : option IPAddress :=
  best ≫= fun q => getBackupAddr (ri_attrs (hp_routes w q)).1.

(** What the FIB should have of an entry *)
Definition wantedHops (w : Heap) (p : CIDRNetwork) (e : RibEntry) : option Hops :=
  m ← weightedNexthops (re_weights e);
  if bool_decide (m = ∅) || negb (re_installToFib e) then None
  else Some (hopsOf (mkUnicastRoute p
               (nextHopsOf p m (isLocalBest w (re_bestpath e)) None (backupOf w (re_bestpath e))) None)).

Definition toldOf (w : Heap) (q : ptr) : Told := (ri_peer (hp_routes w q), ri_attrs (hp_routes w q)).

Record Pic := mkPic {
  pc_wanted : option Hops;
  pc_nexthops : option NexthopsPtr;
  pc_fibOut : bool;
  pc_best : option Told;
  pc_told : option Told                (** the best path last announced, if not withdrawn *)
}.

Definition picOf (w : Heap) (p : CIDRNetwork) (s : RibSlot) : Pic :=
  let e := sl_entry s in
  mkPic (wantedHops w p e) ((fun m => (sl_nexthopsId s, m)) <$> weightedNexthops (re_weights e))
    (sl_hasFibOutState s) (toldOf w <$> re_bestpath e) (toldOf w <$> re_advertisedBestpath e).

Definition pic (r : Rib) (p : CIDRNetwork) : option Pic := picOf (rib_heap r) p <$> findSlot p r.

(** Consistency of an entry *)
Record slot_ok (w : Heap) (s : RibSlot) : Prop := {
  so_null : re_bestpath (sl_entry s) = None <-> weightedNexthops (re_weights (sl_entry s)) = None;
  so_install : re_installToFib (sl_entry s) =
    match re_bestpath (sl_entry s) with Some q => ri_installToFib (hp_routes w q) | None => true end;
  so_best : forall q, re_bestpath (sl_entry s) = Some q -> (q < hp_next w)%positive;
  so_adv : forall q, re_advertisedBestpath (sl_entry s) = Some q -> (q < hp_next w)%positive;
  so_gone : weightedNexthops (re_weights (sl_entry s)) = None -> re_advertisedBestpath (sl_entry s) = None;
  so_fib : sl_hasFibOutState s = false -> re_advertisedBestpath (sl_entry s) = None
}.

(** The fields of a slot the glance is made of *)
Definition same_slot (s s' : RibSlot) : Prop :=
  re_bestpath (sl_entry s') = re_bestpath (sl_entry s) /\
  re_advertisedBestpath (sl_entry s') = re_advertisedBestpath (sl_entry s) /\
  re_installToFib (sl_entry s') = re_installToFib (sl_entry s) /\
  weightedNexthops (re_weights (sl_entry s')) = weightedNexthops (re_weights (sl_entry s)) /\
  sl_nexthopsId s' = sl_nexthopsId s /\ sl_hasFibOutState s' = sl_hasFibOutState s.

Lemma told_stable w w' q : stable w w' -> (q < hp_next w)%positive -> toldOf w' q = toldOf w q.
Proof. intros St Hq. unfold toldOf. by destruct (stb_routes _ _ St q Hq) as (-> & -> & _). Qed.

Lemma best_stable w w' best :
  stable w w' -> (forall q, best = Some q -> (q < hp_next w)%positive) ->
  isLocalBest w' best = isLocalBest w best /\ backupOf w' best = backupOf w best /\
  toldOf w' <$> best = toldOf w <$> best.
Proof.
  intros St Hq. destruct best as [q|]; [|done]. specialize (Hq q eq_refl).
  destruct (stb_routes _ _ St q Hq) as (E1 & E2 & _). unfold isLocalBest, backupOf, toldOf, ri_path. simpl.
  by rewrite E1, E2.
Qed.

Lemma pic_stable w w' p s s' :
  stable w w' -> slot_ok w s -> same_slot s s' -> picOf w' p s' = picOf w p s /\ slot_ok w' s'.
Proof.
  intros St So (E1 & E2 & E3 & E4 & E5 & E6). split.
  - unfold picOf, wantedHops. rewrite E1, E2, E3, E4, E5, E6.
    destruct (best_stable w w' _ St (so_best _ _ So)) as (-> & -> & ->).
    by destruct (best_stable w w' _ St (so_adv _ _ So)) as (_ & _ & ->).
  - split; rewrite ?E1, ?E2, ?E3, ?E4, ?E6; [apply So| | | |apply So|apply So].
    + rewrite (so_install _ _ So). destruct (re_bestpath (sl_entry s)) as [q|] eqn:Eq; [|done].
      by destruct (stb_routes _ _ St q (so_best _ _ So q Eq)) as (_ & _ & ->).
    + intros q Hq. pose proof (so_best _ _ So q Hq). pose proof (stb_next _ _ St). lia.
    + intros q Hq. pose proof (so_adv _ _ So q Hq). pose proof (stb_next _ _ St). lia.
Qed.

(** ** The invariant *)

(** Nothing selected, told or wanted *)
Definition idle (c : option Pic) : Prop :=
  match c with Some c => pc_best c = None /\ pc_told c = None /\ pc_wanted c = None | None => True end.

(** [todo]: entries still to be looked at; [fib]: the routes of the FIB when the batches on
    their way are in, if it is known; [await]: what the batch on its way will be
    acknowledged with; [syncing]: a full synchronization is due; [told]: what the peers
    were told. *)
Record Inv (todo : CIDRNetwork -> Prop) (fib : option (CIDRNetwork -> option Hops))
    (await : CIDRNetwork -> option (option NexthopsPtr)) (syncing : bool)
    (told : CIDRNetwork -> option Told) (r : Rib) : Prop := {
  iv_ok : rib_ok r;
  iv_slots : forall p s, findSlot p r = Some s -> slot_ok (rib_heap r) s;
  iv_batch : forall p, p ∈ fibBatchList_ r -> is_Some (findSlot p r);
  iv_fib : forall T, fib = Some T -> forall p, ~ (p ∈ fibBatchList_ r \/ todo p) -> T p = pic r p ≫= pc_wanted;
  iv_noFib : forall T, fib = Some T -> forall p, (forall c, pic r p = Some c -> pc_fibOut c = false) -> T p = None;
  iv_sync : syncing = true -> forall p, ~ (p ∈ fibBatchList_ r \/ todo p) -> idle (pic r p);
  iv_told : forall p, told p = pic r p ≫= pc_told;
  iv_await : forall p n, await p = Some n -> exists c, pic r p = Some c /\ pc_fibOut c = true /\
    (~ (p ∈ fibBatchList_ r \/ todo p) -> pc_nexthops c = n);
  iv_settled : is_Some fib -> forall p c, ~ (p ∈ fibBatchList_ r \/ todo p) -> await p = None ->
    pic r p = Some c -> pc_told c = pc_best c
}.

Lemma pic_slot r p : is_Some (pic r p) <-> is_Some (findSlot p r).
Proof. unfold pic. by rewrite fmap_is_Some. Qed.

Section Closure.
Variables (todo : CIDRNetwork -> Prop) (fib : option (CIDRNetwork -> option Hops)).
Variables (await : CIDRNetwork -> option (option NexthopsPtr)) (syncing : bool).
Variable told : CIDRNetwork -> option Told.
Abbreviation I := (Inv todo fib await syncing told).

(** Nothing changes at a glance. *)
Lemma inv_same_pic r r' :
  I r -> rib_ok r' -> (forall p s, findSlot p r' = Some s -> slot_ok (rib_heap r') s) ->
  (forall p, pic r' p = pic r p) -> fibBatchList_ r' = fibBatchList_ r -> I r'.
Proof.
  intros [J1 J2 J3 J4 J5 J6 J7 J8 J9] Hok Hs Hp Hb. split; rewrite ?Hb; try done.
  - intros p Hin. apply pic_slot. rewrite Hp. apply pic_slot. by apply J3.
  - intros T HT p Hn. rewrite Hp. by apply J4.
  - intros T HT p Hn. apply (J5 T HT). intros c Hc. apply Hn. by rewrite Hp.
  - intros Hsy p Hn. rewrite Hp. by apply J6.
  - intros p. rewrite Hp. apply J7.
  - intros p n Hn. rewrite Hp. by apply J8.
  - intros Hf p c Hn Ha Hc. rewrite Hp in Hc. by eapply J9.
Qed.

(** What the glance does not see *)
Lemma inv_frame r r' :
  rib_heap r' = rib_heap r -> ribEntries_ r' = ribEntries_ r -> fibBatchList_ r' = fibBatchList_ r -> I r -> I r'.
Proof.
  intros Eh Ee Eb Hi.
  assert (Hf : forall p, findSlot p r' = findSlot p r) by (intros; unfold findSlot; by rewrite Ee).
  apply (inv_same_pic r); try done.
  - destruct (iv_ok _ _ _ _ _ _ Hi) as [A B]. split; intros p s; rewrite Hf, ?Eh; [apply A|apply B].
  - intros p s. rewrite Hf, Eh. apply (iv_slots _ _ _ _ _ _ Hi).
  - intros p. unfold pic. by rewrite Hf, Eh.
Qed.

(** A slot changes in what the glance does not see, and the store is stable. *)
Lemma inv_update r r' p s s' :
  I r -> rib_ok r' -> stable (rib_heap r) (rib_heap r') -> findSlot p r = Some s -> findSlot p r' = Some s' ->
  same_slot s s' -> (forall p', p' <> p -> findSlot p' r' = findSlot p' r) ->
  fibBatchList_ r' = fibBatchList_ r -> I r'.
Proof.
  intros Hi Hok St Es Es' Hss Ho Hb. apply (inv_same_pic r); try done.
  - intros p' x Ex. destruct (decide (p' = p)) as [->|Hne].
    + rewrite Es' in Ex. injection Ex as <-. by eapply (pic_stable _ _ p s); [|eapply (iv_slots _ _ _ _ _ _ Hi)|].
    + rewrite Ho in Ex by done. eapply (pic_stable _ _ p' x); [done|by eapply (iv_slots _ _ _ _ _ _ Hi)|].
      by repeat split.
  - intros p'. unfold pic. destruct (decide (p' = p)) as [->|Hne].
    + rewrite Es, Es'. simpl. f_equal. by eapply pic_stable; [|eapply (iv_slots _ _ _ _ _ _ Hi)|].
    + rewrite Ho by done. destruct (findSlot p' r) as [x|] eqn:Ex; [|done]. simpl. f_equal.
      eapply (pic_stable _ _ p' x x); [done|by eapply (iv_slots _ _ _ _ _ _ Hi)|by repeat split].
Qed.

Lemma pic_other r r' p' :
  rib_heap r' = rib_heap r -> findSlot p' r' = findSlot p' r -> pic r' p' = pic r p'.
Proof. intros Eh Ef. unfold pic. by rewrite Ef, Eh. Qed.

(** A new entry *)
Lemma inv_new r p :
  I r -> findSlot p r = None -> I (rib_set_entries (rib_heap r) (<[p := newSlot p]> (ribEntries_ r)) r).
Proof.
  intros Hi En. set (r' := rib_set_entries _ _ _).
  assert (Hf : forall p', findSlot p' r' = if decide (p = p') then Some (newSlot p) else findSlot p' r).
  { intros p'. unfold findSlot. simpl. by rewrite lookup_insert. }
  assert (Hp : pic r' p = Some (mkPic None None false None None)) by (unfold pic; by rewrite Hf, decide_True).
  assert (Hn : pic r p = None) by (unfold pic; by rewrite En).
  assert (Ho : forall p', p' <> p -> pic r' p' = pic r p').
  { intros p' Hne. apply pic_other; [done|]. by rewrite Hf, decide_False. }
  destruct Hi as [[A B] J2 J3 J4 J5 J6 J7 J8 J9]. split.
  - split; intros p' s'; rewrite Hf; case_decide; try (intros [= <-]); [done|apply A|apply newSlot_ok|apply B].
  - intros p' s'. rewrite Hf. case_decide; [intros [= <-]|apply J2]. by split.
  - intros p' Hin. rewrite Hf. case_decide; [eauto|by apply J3].
  - intros T HT p' Hd. destruct (decide (p' = p)) as [->|Hne]; [|rewrite Ho by done; by apply J4].
    rewrite Hp. simpl. apply (J5 T HT). by rewrite Hn.
  - intros T HT p' Hd. destruct (decide (p' = p)) as [->|Hne].
    + apply (J5 T HT). by rewrite Hn.
    + apply (J5 T HT). intros c Hc. apply Hd. by rewrite Ho.
  - intros Hsy p' Hd. destruct (decide (p' = p)) as [->|Hne]; [by rewrite Hp|rewrite Ho by done; by apply J6].
  - intros p'. destruct (decide (p' = p)) as [->|Hne]; [by rewrite J7, Hp, Hn|rewrite Ho by done; apply J7].
  - intros p' n Ha. destruct (decide (p' = p)) as [->|Hne]; [|rewrite Ho by done; by apply J8].
    destruct (J8 _ _ Ha) as (c & Hc & _). congruence.
  - intros Hfib p' c Hd Ha. destruct (decide (p' = p)) as [->|Hne]; [rewrite Hp; by intros [= <-]|].
    rewrite Ho by done. by apply J9.
Qed.

(** An entry the FIB never had *)
Lemma inv_erase r p s :
  (forall q, ~ todo q) -> I r -> findSlot p r = Some s -> sl_hasFibOutState s = false -> I (eraseEntry p r).
Proof.
  intros Ht Hi Es Hfo. set (r' := eraseEntry p r).
  assert (Hf : forall p', findSlot p' r' = if decide (p = p') then None else findSlot p' r).
  { intros p'. unfold findSlot. simpl. by rewrite lookup_delete. }
  assert (Hp : pic r' p = None) by (unfold pic; by rewrite Hf, decide_True).
  assert (Ho : forall p', p' <> p -> pic r' p' = pic r p').
  { intros p' Hne. apply pic_other; [done|]. by rewrite Hf, decide_False. }
  assert (Hpc : pic r p = Some (picOf (rib_heap r) p s)) by (unfold pic; by rewrite Es).
  assert (Hb : forall p', p' <> p -> p' ∈ fibBatchList_ r' <-> p' ∈ fibBatchList_ r).
  { intros p' Hne. simpl. rewrite list_elem_of_filter. tauto. }
  destruct Hi as [[A B] J2 J3 J4 J5 J6 J7 J8 J9]. split.
  - split; intros p' s'; rewrite Hf; case_decide; try done; [apply A|apply B].
  - intros p' s'. rewrite Hf. case_decide; [done|apply J2].
  - intros p' Hin. simpl in Hin. apply list_elem_of_filter in Hin as [Hne Hin]. rewrite Hf, decide_False by done. by apply J3.
  - intros T HT p' Hd. destruct (decide (p' = p)) as [->|Hne].
    + rewrite Hp. simpl. apply (J5 T HT). rewrite Hpc. by intros c [= <-].
    + rewrite Ho by done. apply (J4 T HT). by rewrite <- Hb.
  - intros T HT p' Hd. destruct (decide (p' = p)) as [->|Hne].
    + apply (J5 T HT). rewrite Hpc. by intros c [= <-].
    + apply (J5 T HT). intros c Hc. apply Hd. by rewrite Ho.
  - intros Hsy p' Hd. destruct (decide (p' = p)) as [->|Hne]; [by rewrite Hp|]. rewrite Ho by done. apply J6; [done|].
    by rewrite <- Hb.
  - intros p'. destruct (decide (p' = p)) as [->|Hne]; [|rewrite Ho by done; apply J7].
    rewrite J7, Hp, Hpc. simpl. by rewrite (so_fib _ _ (J2 _ _ Es) Hfo).
  - intros p' n Ha. destruct (decide (p' = p)) as [->|Hne].
    + destruct (J8 _ _ Ha) as (c & Hc & Hfc & _). rewrite Hpc in Hc. injection Hc as <-. simpl in Hfc. congruence.
    + destruct (J8 _ _ Ha) as (c & Hc & Hfc & Hn). exists c. rewrite Ho by done. split; [done|]. split; [done|].
      by rewrite Hb.
  - intros Hfib p' c Hd Ha. destruct (decide (p' = p)) as [->|Hne]; [by rewrite Hp|]. rewrite Ho by done.
    apply J9; [done| |done]. by rewrite <- Hb.
Qed.
End Closure.

(** ** Routes in *)

Section RoutesIn.
Variables (fib : option (CIDRNetwork -> option Hops)) (await : CIDRNetwork -> option (option NexthopsPtr)).
Variables (syncing : bool) (told : CIDRNetwork -> option Told).
Abbreviation I := (Inv (fun _ => False) fib await syncing told).

Definition local_routes_ok (r : Rib) : Prop :=
  forall L lr, localRoutes_ r !! L = Some lr -> path_localPref (lr_attrs lr).2 <> None.

Lemma aggregateOne_attrs p b L lr :
  lr_attrs (aggregateOne p b L lr).2 = lr_attrs lr /\
  match (aggregateOne p b L lr).1 with Some (Some a) => a = lr_attrs lr | _ => True end.
Proof.
  unfold aggregateOne. destruct (negb _); [done|]. destruct (_ =? 0); [done|]. destruct (_ && _); [done|].
  destruct (negb b); simpl; [by destruct (_ =? _)|by destruct (_ =? _)].
Qed.

Lemma aggregate_local_prefs p b r :
  local_routes_ok r ->
  local_routes_ok (aggregateRoute p b r).2 /\ Forall (fun a => local_pref_set a.2) (aggregateRoute p b r).1.
Proof.
  intros Hl. unfold aggregateRoute. simpl. split.
  - intros L lr'. simpl. unfold supportedRoutes. rewrite map_lookup_imap.
    destruct (localRoutes_ r !! L) as [lr|] eqn:E; simpl; [|done]. intros [= <-].
    rewrite (proj1 (aggregateOne_attrs p b L lr)). by apply (Hl L).
  - apply Forall_forall. intros [L o] Hin. unfold aggRoutes in Hin. apply list_elem_of_omap in Hin as ([L' lr] & Hin & Ho).
    apply elem_of_map_to_list in Hin. pose proof (proj2 (aggregateOne_attrs p b L' lr)) as Ha.
    destruct (aggregateOne p b L' lr).1 as [o'|]; [|done]. injection Ho as <- <-. simpl.
    destruct o' as [a|]; [|done]. simpl. rewrite Ha. by apply (Hl L').
Qed.

Lemma single_inv now peer attrs p i r aggs r' :
  I r -> local_pref_set attrs -> local_routes_ok r ->
  processSingleRibInUpdate now peer attrs (p, i) r = Some (aggs, r') ->
  I r' /\ local_routes_ok r' /\ Forall (fun a => local_pref_set a.2) aggs.
Proof.
  intros Hi Hl Hlr. unfold processSingleRibInUpdate. rewrite is_announcement. set (a := bool_decide (is_Some attrs)).
  assert (Hadd : forall slot r1, findOrAddSlot p a r = Some (slot, r1) ->
    I r1 /\ findSlot p r1 = Some slot /\ localRoutes_ r1 = localRoutes_ r).
  { intros slot r1. unfold findOrAddSlot. destruct (findSlot p r) as [s|] eqn:Es; [by intros [= <- <-]|].
    destruct (negb a); [done|]. intros [= <- <-]. split; [|split; [|done]].
    - eapply (inv_frame _ _ _ _ _ (rib_set_entries (rib_heap r) (<[p := newSlot p]> (ribEntries_ r)) r)); try done.
      by apply inv_new.
    - unfold findSlot. simpl. by rewrite lookup_insert_eq. }
  destruct (findOrAddSlot p a r) as [[slot r1]|]; [|by intros [= <- <-]].
  destruct (Hadd _ _ eq_refl) as (Hi1 & Es & Hlr1). clear Hadd.
  assert (Hl1 : local_routes_ok r1) by (intros L lr; rewrite Hlr1; apply Hlr).
  destruct (negb a && _); [by intros [= <- <-]|].
  match goal with |- context [updateSlot now peer attrs ?inst i slot r1] =>
    destruct (updateSlot_spec now peer attrs inst i p slot r1 (iv_ok _ _ _ _ _ _ Hi1) Es Hl) as (slot' & r2 & -> & U) end.
  cbn [mbind option_bind]. destruct (us_rest _ _ _ _ _ _ _ _ U) as (Hlr2 & _ & Hb2 & _).
  set (r3 := rib_set_counters _ r2).
  assert (Hi3 : I r3).
  { apply (inv_frame _ _ _ _ _ r2); try done.
    eapply (inv_update _ _ _ _ _ r1 r2 p slot slot'); try done.
    - apply (us_ok _ _ _ _ _ _ _ _ U).
    - apply grows_stable, (us_heap _ _ _ _ _ _ _ _ U).
    - apply (us_slot _ _ _ _ _ _ _ _ U).
    - destruct (us_selection _ _ _ _ _ _ _ _ U) as (_ & _ & E1 & E2 & _ & _ & E3 & E4).
      split_and!; [done..|by rewrite E3|apply (us_id _ _ _ _ _ _ _ _ U)|apply (us_fib _ _ _ _ _ _ _ _ U)].
    - apply (us_other _ _ _ _ _ _ _ _ U). }
  assert (Es3 : findSlot p r3 = Some slot') by apply (us_slot _ _ _ _ _ _ _ _ U).
  set (r4 := if a then r3 else _).
  assert (Hi4 : I r4 /\ localRoutes_ r4 = localRoutes_ r).
  { unfold r4. destruct a; [by rewrite <- Hlr1|]. unfold checkWithdrawalBeforeRouteProgrammed.
    destruct (negb (sl_hasFibOutState slot') && _) eqn:B; [|by rewrite <- Hlr1].
    split; [|simpl; congruence]. apply andb_true_iff in B as [B%negb_true_iff _].
    eapply inv_erase; [tauto| |done|done]. by eapply inv_frame; [..|exact Hi3]. }
  destruct Hi4 as [Hi4 Hlr4]. assert (Hl4 : local_routes_ok r4) by (intros L lr; rewrite Hlr4; apply Hlr).
  clearbody r4. destruct (isAggRoute _ _ _); [by intros [= <- <-]|].
  destruct (supportChange _ _ _) as [b|]; [|by intros [= <- <-]]. intros [= <- <-].
  destruct (aggregate_local_prefs p b r4 Hl4). split; [|done]. by eapply inv_frame; [..|exact Hi4].
Qed.

Lemma aggregates_inv now aggs r r' :
  I r -> local_routes_ok r -> Forall (fun a => local_pref_set a.2) aggs ->
  processAggregates now aggs r = Some r' -> I r' /\ local_routes_ok r'.
Proof.
  revert r. induction aggs as [|[L o] aggs IH]; intros r Hi Hl Hf; [by intros [= <-]|].
  apply Forall_cons in Hf as [Ho Hf]. cbn [processAggregates].
  destruct (processSingleRibInUpdate _ _ _ _ _) as [[x r1]|] eqn:E; [|done]. cbn [mbind option_bind].
  destruct (single_inv _ _ _ _ _ _ _ _ Hi Ho Hl E) as (Hi1 & Hl1 & _). by apply IH.
Qed.

Lemma prefixes_inv now peer attrs ids r r' :
  I r -> local_routes_ok r -> local_pref_set attrs ->
  processPrefixes now peer attrs ids r = Some r' -> I r' /\ local_routes_ok r'.
Proof.
  revert r. induction ids as [|[p i] ids IH]; intros r Hi Hl Ha; [by intros [= <-]|]. cbn [processPrefixes].
  destruct (processSingleRibInUpdate _ _ _ _ _) as [[aggs r1]|] eqn:E; [|done]. cbn [mbind option_bind].
  destruct (single_inv _ _ _ _ _ _ _ _ Hi Ha Hl E) as (Hi1 & Hl1 & Hf).
  destruct (processAggregates now aggs r1) as [r2|] eqn:E2; [|done]. cbn [mbind option_bind].
  destruct (aggregates_inv _ _ _ _ Hi1 Hl1 Hf E2). by apply IH.
Qed.

Lemma message_inv now peer attrs ids r r' :
  I r -> local_routes_ok r -> local_pref_set attrs ->
  processRibInUpdate now peer attrs ids r = Some r' -> I r' /\ local_routes_ok r'.
Proof.
  intros Hi Hl Ha. unfold processRibInUpdate. destruct (processPrefixes _ _ _ _ _) as [r1|] eqn:E; [|done].
  cbn [mbind option_bind]. intros [= <-]. destruct (prefixes_inv _ _ _ _ _ _ Hi Hl Ha E) as [Hi1 Hl1].
  unfold flushSubscriptions. destruct (maybeFlushNexthopSubscriptions _) as [req t].
  split; [|by destruct (ribEoRReceived_ _)]. by destruct (ribEoRReceived_ _); apply (inv_frame _ _ _ _ _ r1).
Qed.
End RoutesIn.
End RibFibInv.
