(* ===== verification/RibFibPrepare.v ===== *)
(** * The RIB, the FIB and the peers: path selection

    [prepareFibProgramming] keeps the invariant of RibFibInv.v: an entry whose selection
    changes is on the list for the FIB, and the peers are told of a route that goes. *)

From stdpp Require Import gmap strings fin_sets.
From Stdlib Require Import SpecFloat.
From S2P Require Import Prelude BgpException Folly BgpStructs RouteFilter RouteInfo RouteSelector RibEntry Ucmp.
From S2P Require Import PathSelection PathFields AdjRibCommon PackingList AdjRibOut MapSum NexthopCache.
From S2P Require Import RibNexthop RibCounters Rib RibSpec FibFboss RibFib RibFibSel RibFibInv.

(** ** What the peers are told *)

Definition fnUpd (p : CIDRNetwork) (o : option Told) (v : CIDRNetwork -> option Told) : CIDRNetwork -> option Told :=
  fun q => if decide (q = p) then o else v q.

(** A message of the RIB, as a peer takes it that receives best paths only *)
Definition tell (v : CIDRNetwork -> option Told) (msg : RibOutMessage) : CIDRNetwork -> option Told :=
  match msg with
  | RibOutAnnouncement entries _ _ _ =>
      fold_left (fun v x => fnUpd (ro_prefix x) (Some (ro_peer x, ro_attrs x)) v) entries v
  | RibOutWithdrawal entries _ => fold_left (fun v x => fnUpd (rw_prefix x) None v) entries v
  | RibInitialAnnouncementStart => v
  end.

Definition toldBy (msgs : list RibOutMessage) : CIDRNetwork -> option Told := fold_left tell msgs (fun _ => None).

Lemma toldBy_app a b : toldBy (a ++ b) = fold_left tell b (toldBy a).
Proof. apply fold_left_app. Qed.

(** A message without best paths *)
Definition silent (msg : RibOutMessage) : Prop :=
  match msg with
  | RibOutAnnouncement entries _ _ _ => entries = []
  | RibOutWithdrawal entries _ => entries = []
  | RibInitialAnnouncementStart => True
  end.

Lemma tell_silent v msg : silent msg -> tell v msg = v.
Proof. destruct msg; simpl; intros E; by rewrite ?E. Qed.

Lemma toldBy_silent a l : Forall silent l -> toldBy (a ++ l) = toldBy a.
Proof.
  rewrite toldBy_app. generalize (toldBy a). intros v Hl. induction Hl as [|m l Hm Hl IH]; [done|].
  simpl. by rewrite tell_silent.
Qed.

(** ** Steps that only queue messages *)

Record same_rib (r r' : Rib) : Prop := {
  srb_heap : rib_heap r' = rib_heap r;
  srb_entries : ribEntries_ r' = ribEntries_ r;
  srb_batch : fibBatchList_ r' = fibBatchList_ r;
  srb_local : localRoutes_ r' = localRoutes_ r
}.

#[export] Instance same_rib_preorder : PreOrder same_rib.
Proof. split; [by split|]. intros a b c [] []. split; congruence. Qed.

(** The messages [l] are queued, and otherwise only versions and pauses change. *)
Record queues (l : list RibOutMessage) (f f' : RibFib) : Prop := {
  qu_rib : same_rib (rf_rib f) (rf_rib f');
  qu_pushed : rf_pushed f' = rf_pushed f ++ l;
  qu_fib : toFibMessageQ_ f' = toFibMessageQ_ f
}.

Lemma queues_refl f : queues [] f f.
Proof. split; [done|by rewrite app_nil_r|done]. Qed.

Lemma queues_trans l1 l2 f1 f2 f3 : queues l1 f1 f2 -> queues l2 f2 f3 -> queues (l1 ++ l2) f1 f3.
Proof.
  intros [R1 P1 Q1] [R2 P2 Q2]. split; [by etransitivity| |congruence]. by rewrite P2, P1, (assoc_L (++)).
Qed.

Section Prepare.
Context `{SubnetOps, RibConfig, RibBaseConfig, AgentTypes}.

Lemma push_queues msg f : queues [msg] f (ribOutQPushAndMayPauseBestPathAndFibProgramming msg f).
Proof. unfold ribOutQPushAndMayPauseBestPathAndFibProgramming. by destruct (_ <? _). Qed.

Lemma version_queues f : queues [] f (rf_upd_rib incrementRibVersion f).
Proof. split; [done|by rewrite app_nil_r|done]. Qed.

Lemma withdrawPaths_queues p nhs f ap f' ap' :
  withdrawPaths p nhs f ap = (f', ap') -> exists l, Forall silent l /\ queues l f f'.
Proof.
  revert f ap. induction nhs as [|nh nhs IH]; intros f ap; cbn [withdrawPaths].
  { intros [= <- _]. exists []. split; [done|apply queues_refl]. }
  destruct (chunkFull ap).
  - intros E. apply IH in E as (l & Hl & Hq). exists (RibOutWithdrawal [] ap :: l). split; [by constructor|].
    apply (queues_trans [_] l _ _ _ (push_queues _ f)). by apply (queues_trans [] l _ _ _ (version_queues _)).
  - apply IH.
Qed.

Lemma fullAddPath_queues p slot f ap f' ap' :
  handleFullAddPathWithdrawal p slot f ap = (f', ap') -> exists l, Forall silent l /\ queues l f f'.
Proof.
  unfold handleFullAddPathWithdrawal. destruct (sl_advertisedNexthops slot) as [[id m]|]; [apply withdrawPaths_queues|].
  intros [= <- _]. exists []. split; [done|apply queues_refl].
Qed.

(** ** An entry whose selection may have changed *)

Lemma inv_select todo todo' fib await syncing told told' r r' p s s' :
  Inv todo fib await syncing told r -> rib_ok r' -> stable (rib_heap r) (rib_heap r') ->
  findSlot p r = Some s -> findSlot p r' = Some s' -> slot_ok (rib_heap r') s' ->
  sl_hasFibOutState s' = sl_hasFibOutState s -> (forall q, q <> p -> findSlot q r' = findSlot q r) ->
  (forall q, q ∈ fibBatchList_ r' -> q ∈ fibBatchList_ r \/ q = p) ->
  (forall q, q ∈ fibBatchList_ r \/ todo q -> q ∈ fibBatchList_ r' \/ todo' q) ->
  (p ∈ fibBatchList_ r' \/ pic r' p = pic r p) ->
  (forall q, told' q = if decide (q = p) then pic r' p ≫= pc_told else told q) ->
  Inv todo' fib await syncing told' r'.
Proof.
  intros Hi Hok St Es Es' So Hfo Ho Hsub Hsup Hp Ht.
  assert (Hpo : forall q, q <> p -> pic r' q = pic r q).
  { intros q Hne. unfold pic. rewrite Ho by done. destruct (findSlot q r) as [x|] eqn:Ex; [|done]. simpl. f_equal.
    eapply (pic_stable _ _ q x x); [done|by eapply (iv_slots _ _ _ _ _ _ Hi)|by repeat split]. }
  assert (Hpp : forall q, ~ (q ∈ fibBatchList_ r' \/ todo' q) -> pic r' q = pic r q /\ ~ (q ∈ fibBatchList_ r \/ todo q)).
  { intros q Hn. split; [|intros Hd; by apply Hn, Hsup]. destruct (decide (q = p)) as [->|Hne]; [|by apply Hpo].
    destruct Hp as [Hin|Hp]; [|done]. destruct Hn. by left. }
  assert (Ep : pic r p = Some (picOf (rib_heap r) p s)) by (unfold pic; by rewrite Es).
  assert (Ep' : pic r' p = Some (picOf (rib_heap r') p s')) by (unfold pic; by rewrite Es').
  destruct Hi as [_ J2 J3 J4 J5 J6 J7 J8 J9]. split; [done| | | | | | | |].
  - intros q x Ex. destruct (decide (q = p)) as [->|Hne]; [by rewrite Es' in Ex; injection Ex as <-|].
    rewrite Ho in Ex by done. eapply (pic_stable _ _ q x); [done|by apply (J2 q)|by repeat split].
  - intros q Hin. destruct (decide (q = p)) as [->|Hne]; [by rewrite Es'; eauto|]. rewrite Ho by done.
    destruct (Hsub q Hin) as [Hq|Hq]; [by apply J3|done].
  - intros T HT q Hn. destruct (Hpp q Hn) as [-> Hd]. by apply J4.
  - intros T HT q Hn. apply (J5 T HT). intros c Hc. destruct (decide (q = p)) as [->|Hne].
    + rewrite Ep in Hc. injection Hc as <-. specialize (Hn _ Ep'). simpl in *. congruence.
    + apply Hn. by rewrite Hpo.
  - intros Hsy q Hn. destruct (Hpp q Hn) as [-> Hd]. by apply J6.
  - intros q. rewrite Ht. case_decide as D; [by subst|]. rewrite Hpo by done. apply J7.
  - intros q n Ha. destruct (J8 q n Ha) as (c & Hc & Hfc & Hn). destruct (decide (q = p)) as [->|Hne].
    + eexists. split; [exact Ep'|]. rewrite Ep in Hc. injection Hc as <-. simpl in *. split; [congruence|].
      intros Hd. destruct (Hpp p Hd) as [E Hd']. rewrite Ep, Ep' in E. injection E as _ -> _ _ _. by apply Hn.
    + exists c. rewrite Hpo by done. split; [done|]. split; [done|]. intros Hd. by apply Hn, (Hpp q).
  - intros Hf q c Hn Ha Hc. destruct (Hpp q Hn) as [E Hd]. rewrite E in Hc. by eapply J9.
Qed.

(** ** A run of selection *)

Lemma selectors_flat (r : Rib) : forallb flat (multipathSelector_ r) = true /\ forallb flat (bestpathSelector_ r) = true.
Proof.
  unfold multipathSelector_, bestpathSelector_, getBaseRouteFilterConfigsMultiPath, getRouteFilterConfigsBestPath.
  simpl features. destruct bestpathFeatures as [[] [] [] [] [] []], countConfedsInAsPathLen; split; reflexivity.
Qed.

(** [slot_ok] but for [so_gone] *)
Record run_ok (p : CIDRNetwork) (s : RibSlot) (r : Rib) (bc nc : bool) (s' : RibSlot) (r' : Rib) : Prop := {
  rn_ok : rib_ok r';
  rn_stable : stable (rib_heap r) (rib_heap r');
  rn_slot : findSlot p r' = Some s';
  rn_other : forall q, q <> p -> findSlot q r' = findSlot q r;
  rn_batch : fibBatchList_ r' = fibBatchList_ r;
  rn_local : localRoutes_ r' = localRoutes_ r;
  rn_fib : sl_hasFibOutState s' = sl_hasFibOutState s;
  rn_adv : re_advertisedBestpath (sl_entry s') = re_advertisedBestpath (sl_entry s);
  rn_null : re_bestpath (sl_entry s') = None <-> weightedNexthops (re_weights (sl_entry s')) = None;
  rn_install : re_installToFib (sl_entry s') =
    match re_bestpath (sl_entry s') with Some q => ri_installToFib (hp_routes (rib_heap r') q) | None => true end;
  rn_best : forall q, re_bestpath (sl_entry s') = Some q -> (q < hp_next (rib_heap r'))%positive;
  rn_same : bc = false -> nc = false -> same_slot s s'
}.

Lemma run_spec p s r bc nc s' r' :
  rib_ok r -> findSlot p r = Some s -> slot_ok (rib_heap r) s ->
  runBestPathSelection s r = Some (bc, nc, s', r') -> run_ok p s r bc nc s' r'.
Proof.
  intros [Rp Re] Es So. destruct (selectors_flat r) as [Hf1 Hf2]. unfold runBestPathSelection.
  destruct (selectBestPath _ _ _ _ _ _ _ _) as [[[[bc' nc'] w'] e']|] eqn:E; [|done]. cbn [mbind option_bind].
  destruct (nextNexthopsId _ _ _ _) as [id fresh] eqn:Eid. intros [= <- <- <- <-].
  destruct (selectBestPath_frame _ _ _ _ _ _ _ _ _ _ _ _ E) as [[St Sp Hn Hb Hw Hnull Hinst] Hin].
  pose proof (Rp _ _ Es) as Hpre. pose proof (Re _ _ Es) as Hok.
  set (r' := rib_set_nextId _ _). set (s' := mkSlot _ _ _ _ _ _).
  assert (Hf : forall q, findSlot q r' = if decide (p = q) then Some s' else findSlot q r).
  { intros q. unfold findSlot. simpl. rewrite Hpre. by rewrite lookup_insert. }
  pose proof (sst_next _ _ St) as Hnx.
  split; try done.
  - split; intros q x; rewrite Hf; case_decide as D; try (intros [= <-]).
    + subst q. simpl. by rewrite (spa_prefix _ _ Sp).
    + apply Rp.
    + apply (same_core_entry_ok (rib_heap r) w' (sl_entry s)); try done; [apply (spa_routes _ _ Sp)|
        apply (spa_count _ _ Sp)|apply (spa_prefix _ _ Sp)|apply (sst_core _ _ St)].
    + intros Ex. apply (same_core_entry_ok (rib_heap r) w' (sl_entry x)); try done; [by eapply Re|apply (sst_core _ _ St)].
  - by apply store_stable.
  - by rewrite Hf, decide_True.
  - intros q Hne. by rewrite Hf, decide_False.
  - apply (spa_advBest _ _ Sp).
  - intros q Hq. simpl in Hq |- *. rewrite Hnx. apply (eo_alloc _ _ Hok). by apply Hin.
  - intros Hbc Hnc. specialize (Hb Hbc). specialize (Hw Hnc). split_and!; simpl; try done.
    + apply (spa_advBest _ _ Sp).
    + rewrite Hinst, Hb, (so_install _ _ So). destruct (re_bestpath (sl_entry s)) as [q|]; [|done].
      by destruct (core_fields _ _ (sst_core _ _ St q)) as (_ & _ & _ & _ & -> & _).
    + rewrite Hw in Eid. unfold nextNexthopsId in Eid. destruct (weightedNexthops (re_weights (sl_entry s))) as [m|];
        [rewrite bool_decide_eq_true_2 in Eid by done|]; by injection Eid as <- _.
Qed.

Lemma run_slot_ok p s r bc nc s' r' :
  slot_ok (rib_heap r) s -> run_ok p s r bc nc s' r' ->
  (weightedNexthops (re_weights (sl_entry s')) = None -> re_advertisedBestpath (sl_entry s') = None) ->
  slot_ok (rib_heap r') s'.
Proof.
  intros So R Hg. split; [apply (rn_null _ _ _ _ _ _ _ R)|apply (rn_install _ _ _ _ _ _ _ R)|apply (rn_best _ _ _ _ _ _ _ R)| |done|].
  - intros q. rewrite (rn_adv _ _ _ _ _ _ _ R). intros Hq. pose proof (so_adv _ _ So q Hq).
    pose proof (stb_next _ _ (rn_stable _ _ _ _ _ _ _ R)). lia.
  - rewrite (rn_fib _ _ _ _ _ _ _ R), (rn_adv _ _ _ _ _ _ _ R). apply (so_fib _ _ So).
Qed.

(** ** An entry prepared *)

(** The withdrawals that wait count as told. *)
Definition preparing_told (p : Preparing) : CIDRNetwork -> option Told :=
  tell (toldBy (rf_pushed (pe_fib p))) (RibOutWithdrawal (pe_entries p) []).

Definition todoOf (fullSync : bool) (rest : list CIDRNetwork) (q : CIDRNetwork) : Prop := fullSync = true /\ q ∈ rest.

Lemma add_batch_rib q r : let r' := addToFibBatchList q r in
  rib_heap r' = rib_heap r /\ ribEntries_ r' = ribEntries_ r /\ localRoutes_ r' = localRoutes_ r /\
  (forall x, x ∈ fibBatchList_ r' <-> x ∈ fibBatchList_ r \/ x = q).
Proof.
  unfold addToFibBatchList, isOnFibBatchList. case_bool_decide as D; simpl.
  - split_and!; try done. intros x. split; [by left|]. by intros [?| ->].
  - split_and!; try done. intros x. rewrite elem_of_app, list_elem_of_singleton. done.
Qed.

(** The rest of the RIB when one slot is written *)
Record writes (p : CIDRNetwork) (s : RibSlot) (r r' : Rib) : Prop := {
  wr_heap : rib_heap r' = rib_heap r;
  wr_slot : findSlot p r' = Some s;
  wr_other : forall q, q <> p -> findSlot q r' = findSlot q r;
  wr_local : localRoutes_ r' = localRoutes_ r
}.

Lemma setSlot_writes p s r : writes p s r (setSlot p s r) /\ fibBatchList_ (setSlot p s r) = fibBatchList_ r.
Proof.
  split; [|done]. split; try done.
  - unfold findSlot. simpl. by rewrite lookup_insert_eq.
  - intros q Hne. unfold findSlot. simpl. by rewrite lookup_insert_ne.
Qed.

Lemma same_rib_find r r' q : same_rib r r' -> findSlot q r' = findSlot q r.
Proof. intros S. unfold findSlot. by rewrite (srb_entries _ _ S). Qed.

Lemma commit_gone e : re_bestpath e = None -> re_advertisedBestpath (commitBestpath e).2 = None /\
  re_bestpath (commitBestpath e).2 = None /\
  weightedNexthops (re_weights (commitBestpath e).2) = weightedNexthops (re_weights e) /\
  re_installToFib (commitBestpath e).2 = re_installToFib e /\ re_prefix (commitBestpath e).2 = re_prefix e /\
  re_routeInfos (commitBestpath e).2 = re_routeInfos e /\ re_allPathsCount (commitBestpath e).2 = re_allPathsCount e.
Proof.
  intros E. unfold commitBestpath. cbn [re_advertisedBestpath re_bestpath set_weights]. rewrite E.
  by destruct (re_advertisedBestpath e) eqn:Ea; simpl.
Qed.

Lemma prepareWithdrawal_spec p s st :
  let st' := prepareWithdrawal p s st in
  let s' := sl_set_ribVersion (ribVersion_ (rf_rib (pe_fib st'))) (sl_set_entry (commitBestpath (sl_entry s)).2 s) in
  writes p s' (rf_rib (pe_fib st)) (rf_rib (pe_fib st')) /\
  fibBatchList_ (rf_rib (pe_fib st')) = fibBatchList_ (rf_rib (pe_fib st)) /\
  toFibMessageQ_ (pe_fib st') = toFibMessageQ_ (pe_fib st) /\
  forall q, preparing_told st' q = fnUpd p None (preparing_told st) q.
Proof.
  unfold prepareWithdrawal. set (fe := if chunkFull (pe_entries st) then _ else _).
  assert (Hfe : queues (if chunkFull (pe_entries st) then [RibOutWithdrawal (pe_entries st) []] else []) (pe_fib st) fe.1 /\
                fe.2 = if chunkFull (pe_entries st) then [] else pe_entries st).
  { unfold fe. destruct (chunkFull _); [split; [apply push_queues|done]|split; [apply queues_refl|done]]. }
  destruct fe as [f entries]. simpl in Hfe. destruct Hfe as [Q1 ->].
  destruct (handleFullAddPathWithdrawal p s (rf_upd_rib incrementRibVersion f) (pe_addPath st)) as [f2 ap] eqn:E2.
  destruct (fullAddPath_queues _ _ _ _ _ _ E2) as (l & Hl & Q2).
  pose proof (queues_trans _ _ _ _ _ (version_queues f) Q2) as Q3. pose proof (queues_trans _ _ _ _ _ Q1 Q3) as Q.
  cbn [pe_fib pe_entries rf_upd_rib rf_set_rib rf_rib toFibMessageQ_ rf_pushed].
  set (s' := sl_set_ribVersion _ _). destruct (setSlot_writes p s' (rf_rib f2)) as [W Wb].
  destruct Q as [S P T]. split; [|split; [|split]].
  - split; [rewrite (wr_heap _ _ _ _ W); apply S|apply W| |rewrite (wr_local _ _ _ _ W); apply S].
    intros q Hne. rewrite (wr_other _ _ _ _ W) by done. by apply same_rib_find.
  - rewrite Wb. apply S.
  - done.
  - intros q. unfold preparing_told. cbn [pe_fib rf_pushed pe_entries rf_upd_rib rf_set_rib].
    rewrite P, (assoc_L (++)), toldBy_silent by done.
    assert (Ht : toldBy (rf_pushed (pe_fib st) ++
                   (if chunkFull (pe_entries st) then [RibOutWithdrawal (pe_entries st) []] else []))
                 = if chunkFull (pe_entries st) then preparing_told st else toldBy (rf_pushed (pe_fib st))).
    { rewrite toldBy_app. by destruct (chunkFull _). }
    rewrite Ht. simpl. rewrite fold_left_app. by destruct (chunkFull _).
Qed.

(** Entries that need not be looked at after all *)
Lemma inv_todo todo todo' fib await syncing told r :
  (forall q, todo q -> todo' q \/ q ∈ fibBatchList_ r \/ findSlot q r = None) ->
  Inv todo fib await syncing told r -> Inv todo' fib await syncing told r.
Proof.
  intros Ht [J1 J2 J3 J4 J5 J6 J7 J8 J9].
  assert (Hd : forall q, ~ (q ∈ fibBatchList_ r \/ todo' q) -> ~ (q ∈ fibBatchList_ r \/ todo q) \/ pic r q = None).
  { intros q Hn. destruct (findSlot q r) as [x|] eqn:E; [|right; unfold pic; by rewrite E]. left.
    intros [Hin|Hq]; [apply Hn; by left|]. destruct (Ht q Hq) as [?|[?|?]]; [apply Hn; by right|apply Hn; by left|congruence]. }
  split; try done.
  - intros T HT q Hn. destruct (Hd q Hn) as [Hn'|E]; [by apply J4|]. rewrite E. simpl. apply (J5 T HT). by rewrite E.
  - intros Hsy q Hn. destruct (Hd q Hn) as [Hn'|E]; [by apply J6|by rewrite E].
  - intros q n Ha. destruct (J8 q n Ha) as (c & Hc & Hf & Hn). exists c. split; [done|]. split; [done|].
    intros Hq. destruct (Hd q Hq) as [?|E]; [by apply Hn|congruence].
  - intros Hf q c Hn Ha Hc. destruct (Hd q Hn) as [?|E]; [by eapply J9|congruence].
Qed.

(** The slot after the run, and after a withdrawal *)
Lemma prepared_inv todo todo' fib await syncing told told' p s r bc nc s' r1 sF rF :
  Inv todo fib await syncing told r -> findSlot p r = Some s -> run_ok p s r bc nc s' r1 -> writes p sF r1 rF ->
  (sF = s' /\ (weightedNexthops (re_weights (sl_entry s')) = None -> bc = false /\ nc = false) /\ (forall q, told' q = told q)) \/
  (exists v, re_bestpath (sl_entry s') = None /\ sF = sl_set_ribVersion v (sl_set_entry (commitBestpath (sl_entry s')).2 s') /\
     (forall q, told' q = fnUpd p None told q)) ->
  (p ∈ fibBatchList_ rF \/ bc = false /\ nc = false /\ sF = s') ->
  (forall q, q ∈ fibBatchList_ rF -> q ∈ fibBatchList_ r \/ q = p) ->
  (forall q, q ∈ fibBatchList_ r \/ todo q -> q ∈ fibBatchList_ rF \/ todo' q) ->
  Inv todo' fib await syncing told' rF.
Proof.
  intros Hi Es R W Hcase Hp Hsub Hsup. pose proof (iv_slots _ _ _ _ _ _ Hi _ _ Es) as So.
  assert (Eh : rib_heap rF = rib_heap r1) by apply W.
  assert (HsF : slot_ok (rib_heap rF) sF /\ sl_hasFibOutState sF = sl_hasFibOutState s /\
    re_prefix (sl_entry sF) = re_prefix (sl_entry s') /\ re_routeInfos (sl_entry sF) = re_routeInfos (sl_entry s') /\
    re_allPathsCount (sl_entry sF) = re_allPathsCount (sl_entry s')).
  { rewrite Eh. destruct Hcase as [(-> & Hg & _)|(v & Hb & -> & _)].
    - split; [|by rewrite (rn_fib _ _ _ _ _ _ _ R)]. eapply run_slot_ok; [done..|]. intros Hw.
      destruct (Hg Hw) as [Eb En]. rewrite (rn_adv _ _ _ _ _ _ _ R). apply (so_gone _ _ So).
      destruct (rn_same _ _ _ _ _ _ _ R Eb En) as (_ & _ & _ & <- & _). done.
    - destruct (commit_gone _ Hb) as (C1 & C2 & C3 & C4 & C5 & C6 & C7). simpl. split; [|by rewrite (rn_fib _ _ _ _ _ _ _ R)].
      pose proof (rn_null _ _ _ _ _ _ _ R) as Hn. split; simpl; rewrite ?C1, ?C2, ?C3, ?C4; try done.
      + tauto.
      + rewrite (rn_install _ _ _ _ _ _ _ R), Hb. done. }
  destruct HsF as (HsF & Hfo & Hpre & Hri & Hcnt).
  assert (HokF : rib_ok rF).
  { destruct (rn_ok _ _ _ _ _ _ _ R) as [A B]. pose proof (rn_slot _ _ _ _ _ _ _ R) as Es1.
    split; intros q x Ex; (destruct (decide (q = p)) as [->|Hne]; [rewrite (wr_slot _ _ _ _ W) in Ex; injection Ex as <-|
      rewrite (wr_other _ _ _ _ W) in Ex by done]); rewrite ?Eh.
    - rewrite Hpre. by apply A.
    - by apply A.
    - apply (same_core_entry_ok (rib_heap r1) (rib_heap r1) (sl_entry s')); try done. by apply (B p).
    - by apply (B q). }
  apply (inv_select todo todo' fib await syncing told told' r rF p s sF); try done.
  - rewrite Eh. apply (rn_stable _ _ _ _ _ _ _ R).
  - apply W.
  - intros q Hne. rewrite (wr_other _ _ _ _ W) by done. by apply (rn_other _ _ _ _ _ _ _ R).
  - destruct Hp as [?|(Eb & En & ->)]; [by left|right]. unfold pic. rewrite Es, (wr_slot _ _ _ _ W), Eh. simpl. f_equal.
    apply pic_stable; [apply (rn_stable _ _ _ _ _ _ _ R)|done|by apply (rn_same _ _ _ _ _ _ _ R)].
  - intros q. assert (Ep : pic rF p = Some (picOf (rib_heap rF) p sF)) by (unfold pic; by rewrite (wr_slot _ _ _ _ W)).
    destruct Hcase as [(-> & _ & Ht)|(v & Hb & -> & Ht)].
    + rewrite Ht. case_decide as D; [subst q|done]. rewrite (iv_told _ _ _ _ _ _ Hi), Ep. unfold pic. rewrite Es. simpl.
      rewrite (rn_adv _ _ _ _ _ _ _ R), Eh. symmetry.
      apply (best_stable _ _ _ (rn_stable _ _ _ _ _ _ _ R) (so_adv _ _ So)).
    + rewrite Ht. unfold fnUpd. case_decide as D; [|done]. rewrite Ep. simpl.
      by rewrite (proj1 (commit_gone _ Hb)).
Qed.

(** The prefix may be put on the list. *)
Record adds (p : CIDRNetwork) (r r' : Rib) : Prop := {
  ad_heap : rib_heap r' = rib_heap r;
  ad_entries : ribEntries_ r' = ribEntries_ r;
  ad_local : localRoutes_ r' = localRoutes_ r;
  ad_sub : forall q, q ∈ fibBatchList_ r' -> q ∈ fibBatchList_ r \/ q = p;
  ad_sup : forall q, q ∈ fibBatchList_ r -> q ∈ fibBatchList_ r'
}.

Lemma adds_refl p r : adds p r r.
Proof. split; try done. by left. Qed.

Lemma adds_trans p r1 r2 r3 : adds p r1 r2 -> adds p r2 r3 -> adds p r1 r3.
Proof.
  intros [H1' L1 E1 A1 B1] [H2' L2 E2 A2 B2]. split; try congruence.
  - intros q Hq. destruct (A2 q Hq) as [Hq'| ->]; [by apply A1|by right].
  - intros q Hq. by apply B2, B1.
Qed.

Lemma adds_add p r : adds p r (addToFibBatchList p r) /\ p ∈ fibBatchList_ (addToFibBatchList p r).
Proof.
  destruct (add_batch_rib p r) as (E1 & E2 & E3 & E4). split; [split; try done|]; intros; rewrite ?E4 in *; tauto.
Qed.

Lemma adds_if (b : bool) p r : adds p r (if b then addToFibBatchList p r else r).
Proof. destruct b; [apply adds_add|apply adds_refl]. Qed.

Lemma writes_adds p s r r1 r' : writes p s r r1 -> adds p r1 r' -> writes p s r r'.
Proof.
  intros [W1 W2 W3 W4] A.
  assert (Hf : forall q, findSlot q r' = findSlot q r1) by (intros; unfold findSlot; by rewrite (ad_entries _ _ _ A)).
  split; [rewrite (ad_heap _ _ _ A)|rewrite Hf|intros q; rewrite Hf; apply W3|rewrite (ad_local _ _ _ A)]; done.
Qed.

(** What an entry prepared leaves *)
Record entry_prepared (fullSync : bool) (p : CIDRNetwork) (f f' : RibFib) : Prop := {
  ep_queue : toFibMessageQ_ f' = toFibMessageQ_ f;
  ep_local : localRoutes_ (rf_rib f') = localRoutes_ (rf_rib f);
  ep_slots : forall q, is_Some (findSlot q (rf_rib f')) <-> is_Some (findSlot q (rf_rib f));
  ep_batch : forall q, q ∈ fibBatchList_ (rf_rib f) -> q ∈ fibBatchList_ (rf_rib f');
  ep_full : fullSync = true -> is_Some (findSlot p (rf_rib f)) -> p ∈ fibBatchList_ (rf_rib f')
}.

(** The RIB after the run, with the prefix on the list or not, and with its peers told or not *)
Lemma prepared_entry fullSync p rest fib await syncing st s bc nc s' r1 st' sF :
  let r := rf_rib (pe_fib st) in let rF := rf_rib (pe_fib st') in
  Inv (todoOf fullSync (p :: rest)) fib await syncing (preparing_told st) r ->
  findSlot p r = Some s -> run_ok p s r bc nc s' r1 -> writes p sF r1 rF ->
  (sF = s' /\ (weightedNexthops (re_weights (sl_entry s')) = None -> bc = false /\ nc = false) /\
     (forall q, preparing_told st' q = preparing_told st q)) \/
  (exists v, re_bestpath (sl_entry s') = None /\ sF = sl_set_ribVersion v (sl_set_entry (commitBestpath (sl_entry s')).2 s') /\
     (forall q, preparing_told st' q = fnUpd p None (preparing_told st) q)) ->
  (p ∈ fibBatchList_ rF \/ bc = false /\ nc = false /\ sF = s') ->
  (forall q, q ∈ fibBatchList_ rF -> q ∈ fibBatchList_ r \/ q = p) ->
  (forall q, q ∈ fibBatchList_ r -> q ∈ fibBatchList_ rF) ->
  (fullSync = true -> p ∈ fibBatchList_ rF) ->
  toFibMessageQ_ (pe_fib st') = toFibMessageQ_ (pe_fib st) ->
  Inv (todoOf fullSync rest) fib await syncing (preparing_told st') rF /\ entry_prepared fullSync p (pe_fib st) (pe_fib st').
Proof.
  intros r rF Hi Es R W Hcase Hp Hsub Hsup Hfull Hq. split.
  - eapply prepared_inv; try done. intros q [Hin|[Hf Hin]]; [left; by apply Hsup|].
    apply elem_of_cons in Hin as [->|Hin]; [left; by apply Hfull|right; by split].
  - split; try done.
    + fold rF r. rewrite (wr_local _ _ _ _ W). apply (rn_local _ _ _ _ _ _ _ R).
    + intros q. destruct (decide (q = p)) as [->|Hne].
      * fold r rF. rewrite Es, (wr_slot _ _ _ _ W). split; eauto.
      * fold r rF. by rewrite (wr_other _ _ _ _ W), (rn_other _ _ _ _ _ _ _ R) by done.
    + intros Hf _. by apply Hfull.
Qed.

(** After the run, with the prefix on the list if everything is *)
Section AfterRun.
Variables (fullSync : bool) (p : CIDRNetwork) (rest : list CIDRNetwork).
Variables (fib : option (CIDRNetwork -> option Hops)) (await : CIDRNetwork -> option (option NexthopsPtr)) (syncing : bool).
Variables (st : Preparing) (s : RibSlot) (bc nc : bool) (s' : RibSlot) (r1 : Rib).
Hypothesis Hi : Inv (todoOf fullSync (p :: rest)) fib await syncing (preparing_told st) (rf_rib (pe_fib st)).
Hypothesis Es : findSlot p (rf_rib (pe_fib st)) = Some s.
Hypothesis R : run_ok p s (rf_rib (pe_fib st)) bc nc s' r1.

Let r1a := if fullSync then addToFibBatchList p r1 else r1.
Let stP := mkPreparing (rf_set_rib r1a (pe_fib st)) (pe_entries st) (pe_addPath st).
Let stW := prepareWithdrawal p s' stP.

Abbreviation entry_done st2 :=
  (Inv (todoOf fullSync rest) fib await syncing (preparing_told st2) (rf_rib (pe_fib st2)) /\
   entry_prepared fullSync p (pe_fib st) (pe_fib st2)).

Lemma run_writes : writes p s' r1 r1a.
Proof. eapply writes_adds; [|apply adds_if]. split; try done. apply (rn_slot _ _ _ _ _ _ _ R). Qed.

Lemma run_adds rF : adds p r1a rF ->
  (forall q, q ∈ fibBatchList_ rF -> q ∈ fibBatchList_ (rf_rib (pe_fib st)) \/ q = p) /\
  (forall q, q ∈ fibBatchList_ (rf_rib (pe_fib st)) -> q ∈ fibBatchList_ rF) /\
  (fullSync = true -> p ∈ fibBatchList_ rF).
Proof.
  intros A. pose proof (adds_trans _ _ _ _ (adds_if fullSync p r1) A) as A'. rewrite <- (rn_batch _ _ _ _ _ _ _ R).
  split_and!; [apply A'|apply A'|]. intros Hf. apply (ad_sup _ _ _ A). unfold r1a. rewrite Hf. apply adds_add.
Qed.

(** No message, and the slot of the run *)
Lemma prepared_plain rF : adds p r1a rF -> (p ∈ fibBatchList_ rF \/ bc = false /\ nc = false) ->
  (weightedNexthops (re_weights (sl_entry s')) = None -> bc = false /\ nc = false) ->
  entry_done (mkPreparing (rf_set_rib rF (pe_fib st)) (pe_entries st) (pe_addPath st)).
Proof.
  intros A Hp Hg. set (st2 := mkPreparing _ _ _). destruct (run_adds rF A) as (D1 & D2 & D3).
  apply (prepared_entry fullSync p rest fib await syncing st s bc nc s' r1 st2 s'); try done.
  - eapply writes_adds; [apply run_writes|done].
  - by left.
  - destruct Hp as [?|[? ?]]; [by left|by right].
Qed.

(** A withdrawal *)
Lemma prepared_gone rF :
  re_bestpath (sl_entry s') = None -> adds p (rf_rib (pe_fib stW)) rF -> p ∈ fibBatchList_ rF ->
  entry_done (mkPreparing (rf_set_rib rF (pe_fib stW)) (pe_entries stW) (pe_addPath stW)).
Proof.
  intros Hb A Hp. set (st2 := mkPreparing _ _ _).
  destruct (prepareWithdrawal_spec p s' stP) as (W2 & Wb & Wq & Wt). change (prepareWithdrawal p s' stP) with stW in W2, Wb, Wq, Wt.
  set (sF := sl_set_ribVersion _ _) in W2.
  assert (A' : adds p r1a (rib_set_entries (rib_heap r1a) (ribEntries_ r1a) (rib_set_batch (fibBatchList_ rF) r1a))).
  { split; try done; intros q Hq; simpl in *.
    - destruct (ad_sub _ _ _ A q Hq) as [Hq'|]; [left; by rewrite <- Wb|by right].
    - apply (ad_sup _ _ _ A). by rewrite Wb. }
  destruct (run_adds _ A') as (D1 & D2 & D3). simpl in D1, D2, D3.
  apply (prepared_entry fullSync p rest fib await syncing st s bc nc s' r1 st2 sF); try done.
  - eapply writes_adds; [|exact A]. destruct run_writes as [a1 a2 a3 a4], W2 as [b1 b2 b3 b4].
    split; [by rewrite b1|done| |by rewrite b4]. intros q Hne. rewrite b3 by done. by apply a3.
  - right. eexists. split; [done|]. split; [done|]. intros q. by rewrite <- Wt.
  - by left.
Qed.

(** The entry is added at the end if it is to be deleted. *)
Lemma twice_added r : adds p r (addToFibBatchList p (addToFibBatchList p r)) /\
  p ∈ fibBatchList_ (addToFibBatchList p (addToFibBatchList p r)).
Proof. destruct (adds_add p r) as [A _]. split; [eapply adds_trans; [exact A|]|]; apply adds_add. Qed.

Lemma withdrawn_best :
  isNone (weightedNexthops (re_weights (sl_entry s'))) || (bc && isNone (re_bestpath (sl_entry s'))) = true ->
  re_bestpath (sl_entry s') = None.
Proof.
  intros Bw. apply (rn_null _ _ _ _ _ _ _ R). apply orb_true_iff in Bw as [Bw|Bw].
  - by destruct (weightedNexthops _).
  - apply andb_true_iff in Bw as [_ Bw]. apply (rn_null _ _ _ _ _ _ _ R). by destruct (re_bestpath (sl_entry s')).
Qed.
End AfterRun.

Lemma prepareEntry_inv fullSync p rest fib await syncing st st' :
  Inv (todoOf fullSync (p :: rest)) fib await syncing (preparing_told st) (rf_rib (pe_fib st)) ->
  prepareEntry fullSync p st = Some st' ->
  Inv (todoOf fullSync rest) fib await syncing (preparing_told st') (rf_rib (pe_fib st')) /\
  entry_prepared fullSync p (pe_fib st) (pe_fib st').
Proof.
  intros Hi. unfold prepareEntry. destruct (findSlot p (rf_rib (pe_fib st))) as [s|] eqn:Es; cycle 1.
  { intros [= <-]. split; [|split; try done; rewrite Es; by intros ? [? ?]].
    eapply inv_todo; [|exact Hi]. intros q [Hf [->|Hin]%elem_of_cons]; [by right; right|left; by split]. }
  destruct (negb fullSync && negb (re_needPathSelection (sl_entry s))) eqn:B.
  { apply andb_true_iff in B as [B%negb_true_iff _]. subst fullSync. intros [= <-]. split; [|by split].
    eapply inv_todo; [|exact Hi]. by intros q [? _]. }
  destruct (runBestPathSelection s (rf_rib (pe_fib st))) as [[[[bc nc] s'] r1]|] eqn:Er; [|done].
  cbn [mbind option_bind].
  pose proof (run_spec p s _ _ _ _ _ (iv_ok _ _ _ _ _ _ Hi) Es (iv_slots _ _ _ _ _ _ Hi _ _ Es) Er) as R.
  pose proof (prepared_plain _ _ _ _ _ _ _ _ _ _ _ _ Hi Es R) as Hplain.
  pose proof (prepared_gone _ _ _ _ _ _ _ _ _ _ _ _ Hi Es R) as Hgone. pose proof (withdrawn_best _ _ _ _ _ _ _ R) as Hbest.
  cbv zeta in Hplain, Hgone. set (r1a := if fullSync then _ else r1) in *.
  destruct (negb bc && negb nc && multipathChanged (sl_entry s')) eqn:Bm.
  { apply andb_true_iff in Bm as [Bm _]. apply andb_true_iff in Bm as [Eb%negb_true_iff En%negb_true_iff].
    intros [= <-]. apply (Hplain (addToFibBatchList p r1a)); [apply adds_add|by right|done]. }
  clear Bm. set (gone := (re_allPathsCount (sl_entry s') =? 0) && sl_hasFibOutState s'). destruct (nc || bc) eqn:Bc; cycle 1.
  { apply orb_false_iff in Bc as [En Eb]. intros [= <-].
    destruct gone; [apply (Hplain (addToFibBatchList p r1a)); [apply adds_add|by right|done]|].
    apply (Hplain r1a); [apply adds_refl|by right|done]. }
  destruct (isNone (weightedNexthops _) || _) eqn:Bw; intros [= <-].
  - specialize (Hbest eq_refl). set (rW := rf_rib (pe_fib (prepareWithdrawal p s' _))) in *. destruct gone.
    + by apply (Hgone (addToFibBatchList p (addToFibBatchList p rW))); [|apply twice_added..].
    + by apply (Hgone (addToFibBatchList p rW)); [|apply adds_add..].
  - apply orb_false_iff in Bw as [Bw _].
    assert (Hw : weightedNexthops (re_weights (sl_entry s')) <> None) by (by destruct (weightedNexthops _)).
    destruct gone.
    + by apply (Hplain (addToFibBatchList p (addToFibBatchList p r1a))); [apply twice_added|left; apply twice_added|].
    + by apply (Hplain (addToFibBatchList p r1a)); [apply adds_add|left; apply adds_add|].
Qed.

(** ** All entries *)

Lemma prepareEntries_inv fullSync prefixes fib await syncing st st' :
  Inv (todoOf fullSync prefixes) fib await syncing (preparing_told st) (rf_rib (pe_fib st)) ->
  prepareEntries fullSync prefixes st = Some st' ->
  Inv (fun _ => False) fib await syncing (preparing_told st') (rf_rib (pe_fib st')) /\
  toFibMessageQ_ (pe_fib st') = toFibMessageQ_ (pe_fib st) /\
  localRoutes_ (rf_rib (pe_fib st')) = localRoutes_ (rf_rib (pe_fib st)) /\
  (forall q, is_Some (findSlot q (rf_rib (pe_fib st'))) <-> is_Some (findSlot q (rf_rib (pe_fib st)))) /\
  (forall q, q ∈ fibBatchList_ (rf_rib (pe_fib st)) -> q ∈ fibBatchList_ (rf_rib (pe_fib st'))) /\
  (fullSync = true -> forall q, q ∈ prefixes -> is_Some (findSlot q (rf_rib (pe_fib st))) ->
     q ∈ fibBatchList_ (rf_rib (pe_fib st'))).
Proof.
  revert st. induction prefixes as [|p rest IH]; intros st Hi; cbn [prepareEntries].
  { intros [= <-]. split_and!; try done; [|by intros _ q ?%elem_of_nil].
    eapply inv_todo; [|exact Hi]. by intros q [_ ?%elem_of_nil]. }
  destruct (prepareEntry fullSync p st) as [st1|] eqn:E; [|done]. cbn [mbind option_bind]. intros E2.
  destruct (prepareEntry_inv _ _ _ _ _ _ _ _ Hi E) as [Hi1 P1].
  destruct (IH st1 Hi1 E2) as (Hi2 & Q2 & L2 & S2 & B2 & F2). split_and!; [done| | | | |].
  - rewrite Q2. apply P1.
  - rewrite L2. apply P1.
  - intros q. rewrite S2. apply (ep_slots _ _ _ _ P1).
  - intros q Hq. by apply B2, (ep_batch _ _ _ _ P1).
  - intros Hf q [->|Hin]%elem_of_cons Hs; [by apply B2, (ep_full _ _ _ _ P1)|].
    apply (F2 Hf q Hin). by apply (ep_slots _ _ _ _ P1).
Qed.

(** The list is cleared when everything is to be looked at. *)
Lemma inv_dirty todo todo' fib await syncing told r r' :
  rib_heap r' = rib_heap r -> ribEntries_ r' = ribEntries_ r ->
  (forall q, q ∈ fibBatchList_ r' -> q ∈ fibBatchList_ r) ->
  (forall q, q ∈ fibBatchList_ r \/ todo q -> q ∈ fibBatchList_ r' \/ todo' q) ->
  Inv todo fib await syncing told r -> Inv todo' fib await syncing told r'.
Proof.
  intros Eh Ee Hsub Hsup [[A B] J2 J3 J4 J5 J6 J7 J8 J9].
  assert (Hf : forall q, findSlot q r' = findSlot q r) by (intros; unfold findSlot; by rewrite Ee).
  assert (Hp : forall q, pic r' q = pic r q) by (intros; unfold pic; by rewrite Hf, Eh).
  split.
  - split; intros q s; rewrite Hf, ?Eh; [apply A|apply B].
  - intros q s. rewrite Hf, Eh. apply J2.
  - intros q Hq. rewrite Hf. by apply J3, Hsub.
  - intros T HT q Hn. rewrite Hp. apply (J4 T HT). intros Hd. by apply Hn, Hsup.
  - intros T HT q Hn. apply (J5 T HT). intros c Hc. apply Hn. by rewrite Hp.
  - intros Hsy q Hn. rewrite Hp. apply J6; [done|]. intros Hd. by apply Hn, Hsup.
  - intros q. rewrite Hp. apply J7.
  - intros q n Ha. destruct (J8 q n Ha) as (c & Hc & Hfc & Hn). exists c. rewrite Hp. split; [done|]. split; [done|].
    intros Hd. apply Hn. intros Hd'. by apply Hd, Hsup.
  - intros Hfi q c Hn Ha Hc. rewrite Hp in Hc. eapply J9; try done. intros Hd. by apply Hn, Hsup.
Qed.

Lemma inv_told_ext todo fib await syncing told told' r :
  (forall q, told' q = told q) -> Inv todo fib await syncing told r -> Inv todo fib await syncing told' r.
Proof. intros Ht [J1 J2 J3 J4 J5 J6 J7 J8 J9]. split; try done. intros q. rewrite Ht. apply J7. Qed.

Lemma inv_syncing todo fib await syncing told r :
  (forall q, ~ (q ∈ fibBatchList_ r \/ todo q) -> idle (pic r q)) ->
  Inv todo fib await syncing told r -> Inv todo fib await true told r.
Proof. intros Hs [J1 J2 J3 J4 J5 J6 J7 J8 J9]. by split. Qed.

(** The invariant with the queues of the RIB *)
Definition InvF (fib : option (CIDRNetwork -> option Hops)) (await : CIDRNetwork -> option (option NexthopsPtr))
    (f : RibFib) : Prop :=
  Inv (fun _ => False) fib await (existsb id (toFibMessageQ_ f)) (toldBy (rf_pushed f)) (rf_rib f) /\
  local_routes_ok (rf_rib f).

Lemma local_routes_same r r' : localRoutes_ r' = localRoutes_ r -> local_routes_ok r -> local_routes_ok r'.
Proof. unfold local_routes_ok. by intros ->. Qed.

Lemma invF_queues fib await l f f' : Forall silent l -> queues l f f' -> InvF fib await f -> InvF fib await f'.
Proof.
  intros Hl [S P Q] [Hi Hlr]. split; [|by apply (local_routes_same (rf_rib f)); [apply S|]].
  rewrite P, Q, toldBy_silent by done. apply (inv_frame _ _ _ _ _ (rf_rib f)); try apply S. done.
Qed.

Lemma prepare_inv fib await fullSync f f' :
  InvF fib await f -> prepareFibProgramming fullSync f = Some f' -> InvF fib await f'.
Proof.
  intros [Hi Hlr]. unfold prepareFibProgramming.
  set (f0 := if fullSync then _ else f). set (keys := map fst (map_to_list (ribEntries_ (rf_rib f0)))).
  assert (Hkeys : forall q, is_Some (findSlot q (rf_rib f)) <-> q ∈ keys).
  { intros q. unfold keys. rewrite list_elem_of_fmap. unfold findSlot.
    replace (ribEntries_ (rf_rib f0)) with (ribEntries_ (rf_rib f)) by (unfold f0; by destruct fullSync). split.
    - intros [s Es]. exists (q, s). split; [done|]. by apply elem_of_map_to_list.
    - intros ([q' s] & -> & Hin). apply elem_of_map_to_list in Hin. eauto. }
  assert (Hz : Inv (todoOf fullSync keys) fib await (existsb id (toFibMessageQ_ f)) (preparing_told (mkPreparing f0 [] [])) (rf_rib f0) /\
    toFibMessageQ_ f0 = toFibMessageQ_ f /\ localRoutes_ (rf_rib f0) = localRoutes_ (rf_rib f) /\
    (forall q, findSlot q (rf_rib f0) = findSlot q (rf_rib f))).
  { unfold f0. destruct fullSync; (split; [|done]); eapply inv_dirty; try exact Hi; try done.
    - by intros q ?%elem_of_nil.
    - intros q [Hq|[]]. right. split; [done|]. by apply Hkeys, (iv_batch _ _ _ _ _ _ Hi).
    - intros q [Hq|[]]. by left. }
  destruct Hz as (Hi0 & Q0 & L0 & S0). clearbody f0 keys.
  destruct (prepareEntries fullSync keys (mkPreparing f0 [] [])) as [st|] eqn:E; [|done].
  cbn [mbind option_bind].
  destruct (prepareEntries_inv _ _ _ _ _ _ _ Hi0 E) as (Hi1 & Q1 & L1 & S1 & B1 & F1).
  cbn [pe_fib] in Q1, L1, S1, B1, F1.
  set (f1 := if nonempty (pe_entries st) || _ then _ else _).
  assert (Hf1 : same_rib (rf_rib (pe_fib st)) (rf_rib f1) /\ toFibMessageQ_ f1 = toFibMessageQ_ f /\
                forall q, toldBy (rf_pushed f1) q = preparing_told st q).
  { unfold f1, preparing_told. destruct (pe_entries st) as [|x l] eqn:Ex, (pe_addPath st) as [|y l'] eqn:Ey; cbn [nonempty orb].
    - split; [done|]. by rewrite Q1.
    - destruct (push_queues (RibOutWithdrawal [] (y :: l')) (pe_fib st)) as [S P Q]. split; [done|]. split; [congruence|].
      intros q. by rewrite P, toldBy_app.
    - destruct (push_queues (RibOutWithdrawal (x :: l) []) (pe_fib st)) as [S P Q]. split; [done|]. split; [congruence|].
      intros q. by rewrite P, toldBy_app.
    - destruct (push_queues (RibOutWithdrawal (x :: l) (y :: l')) (pe_fib st)) as [S P Q]. split; [done|]. split; [congruence|].
      intros q. by rewrite P, toldBy_app. }
  destruct Hf1 as (Sr & Qf & Ht). clearbody f1.
  assert (Hi2 : Inv (fun _ => False) fib await (existsb id (toFibMessageQ_ f)) (toldBy (rf_pushed f1)) (rf_rib f1)).
  { eapply inv_told_ext; [exact Ht|]. apply (inv_frame _ _ _ _ _ (rf_rib (pe_fib st))); try apply Sr. done. }
  assert (Hl2 : local_routes_ok (rf_rib f1)).
  { apply (local_routes_same (rf_rib f)); [|done]. rewrite (srb_local _ _ Sr). congruence. }
  destruct (negb _ && negb fullSync); intros [= <-]; (split; [|done]).
  - by rewrite Qf.
  - cbn [toFibMessageQ_ rf_pushed rf_rib]. rewrite Qf, existsb_app. simpl. destruct fullSync; cycle 1.
    { by rewrite !orb_false_r. }
    rewrite orb_true_r. eapply inv_syncing; [|exact Hi2]. intros q Hn.
    destruct (pic (rf_rib f1) q) as [c|] eqn:Ec; [|done]. exfalso. apply Hn. left. rewrite (srb_batch _ _ Sr).
    assert (Hs : is_Some (findSlot q (rf_rib f))).
    { rewrite <- S0, <- S1, <- (same_rib_find _ _ q Sr). apply pic_slot. rewrite Ec. eauto. }
    apply (F1 eq_refl q); [by apply Hkeys|by rewrite S0].
Qed.
End Prepare.
