(* ===== verification/RibFibStage.v ===== *)
(** * The RIB, the FIB and the peers: a batch on its way

    What a turn of the FIB loop stages, what the calls of the batch make of the routes of
    the agent, and that the invariant holds with the batch on its way. *)

From stdpp Require Import gmap strings fin_sets.
From Stdlib Require Import SpecFloat.
From S2P Require Import Prelude BgpException Folly BgpStructs RouteFilter RouteInfo RouteSelector RibEntry Ucmp.
From S2P Require Import PathSelection PathFields AdjRibCommon PackingList AdjRibOut MapSum NexthopCache.
From S2P Require Import RibNexthop RibCounters Rib RibSpec FibFboss RibFib RibFibSel RibFibInv RibFibPrepare.

(** ** The calls of a batch *)

Lemma addRoutes_none rs t p : (forall x, x ∈ rs -> ur_dest x <> p) -> addRoutes rs t !! p = t !! p.
Proof.
  unfold addRoutes. revert t. induction rs as [|x rs IH]; intros t Hn; [done|]. simpl. rewrite IH.
  - rewrite lookup_insert_ne; [done|]. apply Hn. left.
  - intros y Hy. apply Hn. by right.
Qed.

Lemma addRoutes_some rs t p h :
  (exists x, x ∈ rs /\ ur_dest x = p) -> (forall x, x ∈ rs -> ur_dest x = p -> hopsOf x = h) ->
  hopsOf <$> addRoutes rs t !! p = Some h.
Proof.
  unfold addRoutes. revert t. induction rs as [|y rs IH]; intros t (x & Hx & Ex) Hh; [by apply elem_of_nil in Hx|].
  simpl. change (fold_left _ rs ?u) with (addRoutes rs u).
  destruct (decide (Exists (fun z => ur_dest z = p) rs)) as [D|D].
  - apply IH; [by apply Exists_exists in D|]. intros z Hz. apply Hh. by right.
  - rewrite addRoutes_none by (intros z Hz Ez; apply D; apply Exists_exists; by exists z).
    apply elem_of_cons in Hx as [->|Hx]; [|destruct D; apply Exists_exists; by exists x].
    rewrite <- Ex, lookup_insert_eq. simpl. rewrite Hh; [done|by left|done].
Qed.

Lemma deleteRoutes_lookup (ps : list CIDRNetwork) (t : gmap CIDRNetwork UnicastRoute) p :
  fold_left (fun t p => delete p t) ps t !! p = if decide (p ∈ ps) then None else t !! p.
Proof.
  revert t. induction ps as [|q ps IH]; intros t; [by rewrite decide_False by apply not_elem_of_nil|]. simpl. rewrite IH.
  destruct (decide (p ∈ ps)) as [D|D].
  - by rewrite decide_True by (by right).
  - destruct (decide (p = q)) as [->|Hne].
    + by rewrite lookup_delete_eq, decide_True by left.
    + rewrite lookup_delete_ne by done. rewrite decide_False; [done|]. by intros [?|?]%elem_of_cons.
Qed.

(** The routes after the calls *)
Lemma applyCalls_lookup isSync b t p :
  applyCalls (programCalls isSync b) t !! p =
  addRoutes (toAdd b) (if isSync then ∅ else fold_left (fun t p => delete p t) (toDelete b) t) !! p.
Proof.
  unfold applyCalls, programCalls. destruct isSync; [done|]. destruct (toDelete b), (toAdd b); done.
Qed.

Section Stage.
Context `{SubnetOps, RibConfig, RibBaseConfig, AgentTypes}.

(** ** A staged batch *)

Definition ackOf (b : FibBatch) (p : CIDRNetwork) (n : option NexthopsPtr) : Prop :=
  exists a m, waitForAck b !! a = Some m /\ m !! p = Some n.

(** The batch has what is wanted of the prefixes [l]. *)
Record staged (l : list CIDRNetwork) (pc : CIDRNetwork -> option Pic) (b : FibBatch) : Prop := {
  st_add : forall x, x ∈ toAdd b -> ur_dest x ∈ l /\ pc (ur_dest x) ≫= pc_wanted = Some (hopsOf x);
  st_wanted : forall p h, p ∈ l -> pc p ≫= pc_wanted = Some h -> exists x, x ∈ toAdd b /\ ur_dest x = p;
  st_delete : forall p, p ∈ toDelete b -> p ∈ l /\ pc p ≫= pc_wanted = None;
  st_gone : forall p, p ∈ l -> is_Some (pc p) -> pc p ≫= pc_wanted = None -> p ∈ toDelete b;
  st_ack : forall p n, ackOf b p n <-> p ∈ l /\ exists c, pc p = Some c /\ n = pc_nexthops c
}.

(** The routes of the FIB once the batch is in *)
Definition after (isSync : bool) (b : FibBatch) (t : gmap CIDRNetwork UnicastRoute) (p : CIDRNetwork) : option Hops :=
  hopsOf <$> applyCalls (programCalls isSync b) t !! p.

Lemma after_in l pc b isSync t p :
  staged l pc b -> p ∈ l -> is_Some (pc p) -> after isSync b t p = pc p ≫= pc_wanted.
Proof.
  intros S Hp Hs. unfold after. rewrite applyCalls_lookup. destruct (pc p ≫= pc_wanted) as [h|] eqn:E.
  - apply addRoutes_some; [by eapply (st_wanted _ _ _ S)|]. intros x Hx Ex.
    destruct (st_add _ _ _ S x Hx) as [_ Hh]. rewrite Ex, E in Hh. by injection Hh.
  - rewrite addRoutes_none.
    + destruct isSync; [done|]. rewrite deleteRoutes_lookup, decide_True; [done|]. by apply (st_gone _ _ _ S).
    + intros x Hx Ex. destruct (st_add _ _ _ S x Hx) as [_ Hh]. rewrite Ex, E in Hh. done.
Qed.

Lemma after_out l pc b isSync t p :
  staged l pc b -> p ∉ l -> after isSync b t p = if isSync then None else hopsOf <$> t !! p.
Proof.
  intros S Hp. unfold after. rewrite applyCalls_lookup, addRoutes_none.
  - destruct isSync; [done|]. rewrite deleteRoutes_lookup, decide_False; [done|]. by intros [? _]%(st_delete _ _ _ S).
  - intros x Hx <-. by destruct (st_add _ _ _ S x Hx).
Qed.

Lemma newBatch_staged pc : staged [] pc newBatch.
Proof.
  split; try (by intros ? ?%elem_of_nil); try (by intros ? ? ?%elem_of_nil).
  intros p n. split; [|by intros [?%elem_of_nil _]]. intros (a & m & Ha & _). simpl in Ha. by rewrite lookup_empty in Ha.
Qed.

(** ** Staging *)

Lemma ackOf_await attrs p n b add del q k :
  (forall a m x, waitForAck b !! a = Some m -> m !! p = Some x -> x = n) ->
  ackOf (mkBatch add del (awaitAck attrs p n (waitForAck b))) q k <-> (q = p /\ k = n) \/ ackOf b q k.
Proof.
  intros Hu. unfold ackOf, awaitAck. simpl. split.
  - intros (a & m & Ha & Hm). destruct (decide (a = attrs)) as [->|Hne].
    + rewrite lookup_insert_eq in Ha. injection Ha as <-. destruct (decide (q = p)) as [->|Hq].
      * rewrite lookup_insert_eq in Hm. left. by injection Hm.
      * rewrite lookup_insert_ne in Hm by done. right. destruct (waitForAck b !! attrs) as [m0|] eqn:E; [by exists attrs, m0|].
        simpl in Hm. by rewrite lookup_empty in Hm.
    + rewrite lookup_insert_ne in Ha by done. right. by exists a, m.
  - intros [[-> ->]|(a & m & Ha & Hm)].
    + eexists attrs, _. by rewrite !lookup_insert_eq.
    + destruct (decide (a = attrs)) as [->|Hne].
      * eexists attrs, _. rewrite lookup_insert_eq. split; [done|]. rewrite Ha. simpl.
        destruct (decide (q = p)) as [->|Hq]; [|by rewrite lookup_insert_ne].
        rewrite lookup_insert_eq. f_equal. symmetry. by eapply Hu.
      * exists a, m. by rewrite lookup_insert_ne.
Qed.

Lemma hops_topo p m local topo backup cid :
  hopsOf (mkUnicastRoute p (nextHopsOf p m local topo backup) cid) =
  hopsOf (mkUnicastRoute p (nextHopsOf p m local None backup) None).
Proof.
  unfold hopsOf, nextHopsOf. simpl. destruct local; [done|]. rewrite !map_app. f_equal. rewrite !map_map.
  apply map_ext. by intros [nh w].
Qed.

(** One prefix *)
Lemma staged_step l pc b p c attrs add del :
  staged l pc b -> pc p = Some c ->
  match pc_wanted c with
  | Some h => exists x, ur_dest x = p /\ hopsOf x = h /\ add = toAdd b ++ [x] /\ del = toDelete b
  | None => add = toAdd b /\ del = toDelete b ++ [p]
  end ->
  staged (l ++ [p]) pc (mkBatch add del (awaitAck attrs p (pc_nexthops c) (waitForAck b))).
Proof.
  intros S Hc Hw. assert (Hpw : pc p ≫= pc_wanted = pc_wanted c) by (by rewrite Hc).
  assert (Hin : forall q, q ∈ l ++ [p] <-> q ∈ l \/ q = p) by (intros; rewrite elem_of_app, list_elem_of_singleton; done).
  split; simpl.
  - intros x. rewrite Hin. destruct (pc_wanted c) as [h|] eqn:Ew.
    + destruct Hw as (x0 & Ed & Eh & -> & _). rewrite elem_of_app, list_elem_of_singleton.
      intros [Hx| ->]; [destruct (st_add _ _ _ S x Hx); by split; [left|]|]. rewrite Ed, Hpw, Eh. by split; [right|].
    + destruct Hw as [-> _]. intros Hx. destruct (st_add _ _ _ S x Hx). by split; [left|].
  - intros q h. rewrite Hin. intros Hq Hh. destruct (pc_wanted c) as [h'|] eqn:Ew.
    + destruct Hw as (x0 & Ed & Eh & -> & _). destruct Hq as [Hq| ->].
      * destruct (st_wanted _ _ _ S q h Hq Hh) as (x & Hx & Ex). exists x. split; [|done]. apply elem_of_app. by left.
      * exists x0. split; [|done]. apply elem_of_app. right. by apply list_elem_of_singleton.
    + destruct Hw as [-> _]. destruct Hq as [Hq| ->]; [by apply (st_wanted _ _ _ S q h)|]. congruence.
  - intros q. rewrite Hin. destruct (pc_wanted c) as [h|] eqn:Ew.
    + destruct Hw as (x0 & _ & _ & _ & ->). intros Hq. destruct (st_delete _ _ _ S q Hq). by split; [left|].
    + destruct Hw as [_ ->]. rewrite elem_of_app, list_elem_of_singleton. intros [Hq| ->]; [|by split; [right|]].
      destruct (st_delete _ _ _ S q Hq). by split; [left|].
  - intros q. rewrite Hin. intros Hq Hs Hn. destruct (pc_wanted c) as [h|] eqn:Ew.
    + destruct Hw as (x0 & _ & _ & _ & ->). destruct Hq as [Hq| ->]; [by apply (st_gone _ _ _ S)|congruence].
    + destruct Hw as [_ ->]. rewrite elem_of_app, list_elem_of_singleton. destruct Hq as [Hq| ->]; [|by right].
      left. by apply (st_gone _ _ _ S).
  - intros q n. rewrite ackOf_await, (st_ack _ _ _ S), Hin.
    + split; [intros [[-> ->]|[Hq Hx]]; [by split; [right|eauto]|by split; [left|]]|].
      intros [[Hq| ->] Hx]; [by right|left]. destruct Hx as (c' & Hc' & ->). split; [done|]. congruence.
    + intros a m x Ha Hm. assert (Hack : ackOf b p x) by (by exists a, m).
      apply (st_ack _ _ _ S) in Hack as (_ & c' & Hc' & ->). congruence.
Qed.

(** The RIB with the entries [l] marked as handed to the FIB *)
Definition markFib (s : RibSlot) : RibSlot :=
  mkSlot (sl_entry s) true (sl_nexthopsId s) (sl_advertisedNexthops s) (sl_ribVersion s) (sl_resolvabilityPending s).

Record marked (l : list CIDRNetwork) (r r' : Rib) : Prop := {
  mk_heap : rib_heap r' = rib_heap r;
  mk_batch : fibBatchList_ r' = fibBatchList_ r;
  mk_local : localRoutes_ r' = localRoutes_ r;
  mk_slot : forall q, findSlot q r' = if decide (q ∈ l) then markFib <$> findSlot q r else findSlot q r
}.

Lemma stageEntry_spec l p r0 r fib b :
  marked l r0 r -> is_Some (findSlot p r0) -> client_ fib = true -> batch_ fib = Some b -> staged l (pic r0) b ->
  exists r' b', stageEntry p (r, fib) = (r', ff_set_batch (Some b') fib) /\
    marked (l ++ [p]) r0 r' /\ staged (l ++ [p]) (pic r0) b'.
Proof.
  intros M [s Es] Hc Hb S. unfold stageEntry. rewrite (mk_slot _ _ _ M), Es.
  set (s1 := markFib s). set (o := if decide (p ∈ l) then _ else _).
  assert (Ho : exists s2, o = Some s2 /\ sl_entry s2 = sl_entry s /\ sl_nexthopsId s2 = sl_nexthopsId s /\ markFib s2 = s1).
  { unfold o. case_decide; [exists s1|exists s]; done. }
  destruct Ho as (s2 & -> & Ee & Eid & Em). cbn [fmap option_fmap option_map].
  rewrite Ee, Eid, (mk_heap _ _ _ M).
  assert (Hslot : mkSlot (sl_entry s) true (sl_nexthopsId s) (sl_advertisedNexthops s2) (sl_ribVersion s2)
                    (sl_resolvabilityPending s2) = s1) by (rewrite <- Em; unfold markFib; by rewrite Ee, Eid).
  rewrite Hslot.
  assert (Hpc : pic r0 p = Some (picOf (rib_heap r0) p s)) by (unfold pic; by rewrite Es).
  set (e := sl_entry s). set (best := hp_routes (rib_heap r0) <$> re_bestpath e).
  assert (Hm : marked (l ++ [p]) r0 (setSlot p s1 r)).
  { destruct M as [M1 M2 M3 M4]. split; try done. intros q. destruct (setSlot_writes p s1 r) as [W _].
    destruct (decide (q = p)) as [->|Hne].
    - rewrite (wr_slot _ _ _ _ W), decide_True, Es by (apply elem_of_app; right; by apply list_elem_of_singleton). done.
    - rewrite (wr_other _ _ _ _ W), M4 by done. apply decide_ext. rewrite elem_of_app, list_elem_of_singleton. tauto. }
  set (attrs := (fun p0 => (ri_attrs p0).1) <$> best).
  unfold updateUnicastRouteWithBackup. rewrite Hc, Hb. cbn [negb].
  pose proof (fun add del => staged_step l (pic r0) b p _ attrs add del S Hpc) as Hstep.
  destruct (weightedNexthops (re_weights e)) as [m|] eqn:Ew; cbn [fmap option_fmap option_map].
  - destruct (bool_decide (m = ∅) || negb (re_installToFib e)) eqn:Bd.
    + eexists _, _. split; [done|]. split; [done|].
      replace (Some (sl_nexthopsId s, m)) with (pc_nexthops (picOf (rib_heap r0) p s)) by (simpl; fold e; by rewrite Ew).
      apply Hstep. simpl. unfold wantedHops. fold e. rewrite Ew. simpl. by rewrite Bd.
    + eexists _, _. split; [done|]. split; [done|].
      replace (Some (sl_nexthopsId s, m)) with (pc_nexthops (picOf (rib_heap r0) p s)) by (simpl; fold e; by rewrite Ew).
      apply Hstep. simpl. unfold wantedHops. fold e. rewrite Ew. simpl. rewrite Bd. eexists. split_and!; [|..|done|done].
      * done.
      * rewrite hops_topo. unfold isLocalBest, backupOf, best. by destruct (re_bestpath e).
  - eexists _, _. split; [done|]. split; [done|].
    replace None with (pc_nexthops (picOf (rib_heap r0) p s)) by (simpl; fold e; by rewrite Ew).
    apply Hstep. simpl. unfold wantedHops. fold e. by rewrite Ew.
Qed.

Lemma stageEntries_spec l1 l r0 r fib b :
  marked l r0 r -> (forall q, q ∈ l1 -> is_Some (findSlot q r0)) -> client_ fib = true -> batch_ fib = Some b ->
  staged l (pic r0) b ->
  exists r' b', stageEntries l1 (r, fib) = (r', ff_set_batch (Some b') fib) /\
    marked (l ++ l1) r0 r' /\ staged (l ++ l1) (pic r0) b'.
Proof.
  revert l r fib b. induction l1 as [|p l1 IH]; intros l r fib b M Hs Hc Hb S.
  { exists r, b. rewrite app_nil_r. split; [|done]. simpl. f_equal. destruct fib. simpl in *. by subst. }
  destruct (stageEntry_spec l p r0 r fib b M (Hs p ltac:(left)) Hc Hb S) as (r1 & b1 & E1 & M1 & S1).
  destruct (IH (l ++ [p]) r1 (ff_set_batch (Some b1) fib) b1 M1) as (r2 & b2 & E2 & M2 & S2); try done.
  { intros q Hq. apply Hs. by right. }
  exists r2, b2. rewrite (cons_middle p l l1), (assoc_L (++)). split; [|done].
  unfold stageEntries in *. cbn [fold_left]. by rewrite E1.
Qed.

(** ** With the batch on its way *)

Definition awaitFn (b : FibBatch) (p : CIDRNetwork) : option (option NexthopsPtr) :=
  (list_to_map (concat (map (fun am => map_to_list am.2) (map_to_list (waitForAck b))))
     : gmap CIDRNetwork (option NexthopsPtr)) !! p.

Lemma ackOf_elem b p n :
  ackOf b p n <-> (p, n) ∈ concat (map (fun am : option ptr * gmap CIDRNetwork (option NexthopsPtr) => map_to_list am.2) (map_to_list (waitForAck b))).
Proof.
  rewrite list_elem_of_In, in_concat. split.
  - intros (a & m & Ha & Hm). exists (map_to_list m). split.
    + apply in_map_iff. exists (a, m). split; [done|]. by apply list_elem_of_In, elem_of_map_to_list.
    + by apply list_elem_of_In, elem_of_map_to_list.
  - intros (l & Hl & Hin). apply in_map_iff in Hl as ([a m] & <- & Ham). exists a, m.
    split; [by apply list_elem_of_In, elem_of_map_to_list in Ham|by apply list_elem_of_In, elem_of_map_to_list in Hin].
Qed.

Lemma awaitFn_some b p n : awaitFn b p = Some n -> ackOf b p n.
Proof. unfold awaitFn. intros E. apply ackOf_elem. by apply elem_of_list_to_map_2. Qed.

Lemma awaitFn_none b p n : awaitFn b p = None -> ~ ackOf b p n.
Proof.
  unfold awaitFn. intros E Ha. apply ackOf_elem in Ha. apply not_elem_of_list_to_map_2 in E. apply E.
  apply list_elem_of_fmap. by exists (p, n).
Qed.

Lemma pic_marked l r r' q : marked l r r' ->
  pic r' q = if decide (q ∈ l) then (fun c => mkPic (pc_wanted c) (pc_nexthops c) true (pc_best c) (pc_told c)) <$> pic r q
             else pic r q.
Proof.
  intros M. unfold pic. rewrite (mk_slot _ _ _ M), (mk_heap _ _ _ M). case_decide; [|done]. by destruct (findSlot q r).
Qed.

Lemma marked_ok l r r' : marked l r r' -> rib_ok r -> rib_ok r'.
Proof.
  intros M [A B]. split; intros q s; rewrite (mk_slot _ _ _ M), ?(mk_heap _ _ _ M); case_decide; try apply A; try apply B;
    destruct (findSlot q r) as [s0|] eqn:E; try done; intros [= <-]; simpl; [by apply A|by apply (B q)].
Qed.

Lemma marked_slots l r r' :
  marked l r r' -> (forall q s, findSlot q r = Some s -> slot_ok (rib_heap r) s) ->
  forall q s, findSlot q r' = Some s -> slot_ok (rib_heap r') s.
Proof.
  intros M Hs q s. rewrite (mk_slot _ _ _ M), (mk_heap _ _ _ M). case_decide; [|apply Hs].
  destruct (findSlot q r) as [s0|] eqn:E; [|done]. intros [= <-]. destruct (Hs q s0 E). by split.
Qed.

(** The routes of the FIB when the batch is in, from those it has *)
Definition predict (isSync : bool) (b : FibBatch) (agent : option (gmap CIDRNetwork UnicastRoute))
    : option (CIDRNetwork -> option Hops) :=
  if isSync then Some (after true b ∅) else (fun t => after false b t) <$> agent.

Definition known (agent : option (gmap CIDRNetwork UnicastRoute)) : option (CIDRNetwork -> option Hops) :=
  (fun t p => hopsOf <$> t !! p) <$> agent.

Lemma predict_in isSync b agent T l pc p :
  staged l pc b -> predict isSync b agent = Some T -> p ∈ l -> is_Some (pc p) -> T p = pc p ≫= pc_wanted.
Proof.
  intros S HT Hp Hs. unfold predict in HT. destruct isSync; [injection HT as <-; by eapply after_in|].
  destruct agent as [t|]; [|done]. injection HT as <-. by eapply after_in.
Qed.

Lemma predict_out isSync b agent T l pc p :
  staged l pc b -> predict isSync b agent = Some T -> p ∉ l ->
  (isSync = true /\ T p = None) \/ exists T0, isSync = false /\ known agent = Some T0 /\ T p = T0 p.
Proof.
  intros S HT Hp. unfold predict in HT. destruct isSync.
  - left. injection HT as <-. split; [done|]. by rewrite (after_out l pc).
  - right. destruct agent as [t|]; [|done]. injection HT as <-. eexists. split_and!; [done..|].
    by rewrite (after_out l pc).
Qed.

Lemma known_some agent b : is_Some (predict false b agent) -> is_Some (known agent).
Proof. unfold predict, known. by destruct agent; intros [? ?]; eauto. Qed.

(** What is awaited once a batch more is on its way *)
Definition joined (await : CIDRNetwork -> option (option NexthopsPtr)) (b : FibBatch)
    : CIDRNetwork -> option (option NexthopsPtr) :=
  fun p => match await p with Some n => Some n | None => awaitFn b p end.

Lemma staged_inv agent await isSync told r r' b :
  Inv (fun _ => False) (known agent) await isSync told r ->
  (forall q, q ∈ fibBatchList_ r -> await q = None) ->
  marked (fibBatchList_ r) r r' -> staged (fibBatchList_ r) (pic r) b ->
  Inv (fun _ => False) (predict isSync b agent) (joined await b) false told (rib_set_batch [] r').
Proof.
  intros Hi Hnew M S. set (l := fibBatchList_ r) in *. set (r'' := rib_set_batch [] r').
  assert (Hp : forall q, pic r'' q = pic r' q) by done.
  assert (Hl : forall q, q ∈ l -> is_Some (pic r q)) by (intros q Hq; by apply pic_slot, (iv_batch _ _ _ _ _ _ Hi)).
  assert (Hw : forall q, pic r'' q ≫= pc_wanted = pic r q ≫= pc_wanted).
  { intros q. rewrite Hp, (pic_marked _ _ _ q M). case_decide; [|done]. by destruct (pic r q). }
  destruct Hi as [J1 J2 J3 J4 J5 J6 J7 J8 J9]. split.
  - destruct (marked_ok _ _ _ M J1) as [A B]. split; [apply A|apply B].
  - apply (marked_slots _ _ _ M J2).
  - by intros q ?%elem_of_nil.
  - intros T HT q _. rewrite Hw. destruct (decide (q ∈ l)) as [D|D]; [by eapply predict_in; eauto|].
    assert (Hd : ~ (q ∈ l \/ False)) by tauto.
    destruct (predict_out _ _ _ _ _ _ q S HT D) as [[Hs ->]|(T0 & _ & HT0 & ->)]; [|by apply J4].
    specialize (J6 Hs q Hd). destruct (pic r q); [|done]. simpl in *. by destruct J6 as (_ & _ & ->).
  - intros T HT q Hn. rewrite Hp, (pic_marked _ _ _ q M) in Hn. destruct (decide (q ∈ l)) as [D|D].
    { destruct (Hl q D) as [c Hc]. rewrite Hc in Hn. discriminate (Hn _ eq_refl). }
    destruct (predict_out _ _ _ _ _ _ q S HT D) as [[Hs ->]|(T0 & _ & HT0 & ->)]; [done|]. by apply (J5 T0).
  - done.
  - intros q. rewrite J7, Hp, (pic_marked _ _ _ q M). case_decide; [|done]. by destruct (pic r q).
  - intros q n. unfold joined. destruct (await q) as [n0|] eqn:Ea.
    + intros [= <-]. assert (D : q ∉ l) by (intros D; specialize (Hnew q D); congruence).
      destruct (J8 _ _ Ea) as (c & Hc & Hfo & Hn). exists c.
      rewrite Hp, (pic_marked _ _ _ q M), decide_False by done. split_and!; [done..|]. intros _. apply Hn. tauto.
    + intros Ha%awaitFn_some. apply (st_ack _ _ _ S) in Ha as (D & c & Hc & ->).
      rewrite Hp, (pic_marked _ _ _ q M), decide_True, Hc by done. eexists. by split_and!.
  - intros Hk q c _ Hj Hc. unfold joined in Hj. destruct (await q) eqn:Ea; [done|]. assert (D : q ∉ l).
    { intros D. destruct (Hl q D) as [c0 Hc0]. eapply (awaitFn_none b q); [done|]. apply (st_ack _ _ _ S). eauto. }
    rewrite Hp, (pic_marked _ _ _ q M), decide_False in Hc by done. assert (Hd : ~ (q ∈ l \/ False)) by tauto.
    destruct isSync.
    + specialize (J6 eq_refl q Hd). rewrite Hc in J6. simpl in J6. destruct J6 as (-> & -> & _). done.
    + apply (J9 (known_some agent b Hk) q c Hd Ea Hc).
Qed.

Lemma inv_unsync todo fib await syncing told r :
  Inv todo fib await syncing told r -> Inv todo fib await false told r.
Proof. intros [J1 J2 J3 J4 J5 J6 J7 J8 J9]. by split. Qed.

(** ** A turn of the FIB loop *)

(** Between turns the batch is empty. *)
Definition fib_ok (fib : FibFboss) : Prop :=
  if client_ fib then batch_ fib = Some newBatch else batch_ fib = None.

Definition acks_known (b : FibBatch) : Prop := forall p n, ackOf b p n -> awaitFn b p = Some n.

Lemma staged_acks l pc b : staged l pc b -> acks_known b.
Proof.
  intros S p n Ha. destruct (awaitFn b p) as [n'|] eqn:E; [|by destruct (awaitFn_none b p n E)].
  apply awaitFn_some in E. apply (st_ack _ _ _ S) in Ha as (_ & c & Hc & ->), E as (_ & c' & Hc' & ->). congruence.
Qed.

Lemma turn_inv agent await f fib call f' fib' :
  InvF (known agent) await f -> (forall p, p ∈ fibBatchList_ (rf_rib f) -> await p = None) ->
  fib_ok fib -> processFibProgrammingMsgs f fib = (call, f', fib') ->
  match call with
  | None => InvF (known agent) await f' /\ fib_ok fib'
  | Some isSync => exists b, client_ fib' = true /\ batch_ fib' = Some b /\ acks_known b /\
      (forall p n, ackOf b p n -> await p = None) /\ InvF (predict isSync b agent) (joined await b) f'
  end.
Proof.
  intros [Hi Hl] Hnew Hfo. unfold processFibProgrammingMsgs. set (f0 := mkRibFib _ _ _ []).
  set (fullSync := existsb id (toFibMessageQ_ f)) in *.
  assert (Hskip : InvF (known agent) await f0) by (split; [by eapply inv_unsync|done]).
  destruct (negb (fibIsConnected fib)) eqn:Bc; [by intros [= <- <- <-]|].
  destruct (negb (fibIsFullSynced fib) && negb fullSync); [by intros [= <- <- <-]|].
  apply negb_false_iff in Bc. unfold fibIsConnected in Bc. unfold fib_ok in Hfo. rewrite Bc in Hfo.
  assert (M0 : marked [] (rf_rib f) (rf_rib f)) by (split; [done..|]; intros q; by rewrite decide_False by apply not_elem_of_nil).
  destruct (stageEntries_spec (fibBatchList_ (rf_rib f)) [] (rf_rib f) (rf_rib f) fib newBatch M0
              (iv_batch _ _ _ _ _ _ Hi) Bc Hfo (newBatch_staged _)) as (r1 & b & E & M & S).
  change (rf_rib f0) with (rf_rib f). rewrite E. simpl app in M, S.
  assert (Hl1 : forall t, local_routes_ok (rib_set_nexthops t (rib_set_batch [] r1))).
  { intros t. apply (local_routes_same (rf_rib f)); [simpl; apply M|done]. }
  destruct (fullSync || nonempty (fibBatchList_ (rf_rib f))) eqn:Bp; intros [= <- <- <-].
  - exists b. split; [done|]. split; [done|]. split; [by eapply staged_acks|].
    split; [intros p n Ha; apply (st_ack _ _ _ S) in Ha as [Ha _]; by apply Hnew|]. split; [|by apply Hl1].
    pose proof (staged_inv agent await fullSync _ _ _ _ Hi Hnew M S) as Hs. by eapply inv_frame; [..|exact Hs].
  - apply orb_false_iff in Bp as [Bf Bn]. destruct (fibBatchList_ (rf_rib f)) as [|x l] eqn:El; [|done].
    simpl in E. injection E as <- Eb. split.
    + split; [|by apply Hl1]. apply (inv_frame _ _ _ _ _ (rf_rib f)); try done. by eapply inv_unsync.
    + unfold fib_ok. rewrite <- Eb, Bc. done.
Qed.
End Stage.
