(* ===== verification/RibFibAck.v ===== *)
(** * The RIB, the FIB and the peers: a batch that is in

    [handleFibProgrammedMessage] keeps the invariant: the peers are told of the best paths
    the FIB now has, and entries without paths are erased. *)

From stdpp Require Import gmap strings fin_sets.
From Stdlib Require Import SpecFloat.
From S2P Require Import Prelude BgpException Folly BgpStructs RouteFilter RouteInfo RouteSelector RibEntry Ucmp.
From S2P Require Import PathSelection PathFields AdjRibCommon PackingList AdjRibOut MapSum NexthopCache.
From S2P Require Import RibNexthop RibCounters Rib RibSpec FibFboss RibFib RibFibSel RibFibInv RibFibPrepare RibFibStage.

Section Ack.
Context `{SubnetOps, RibConfig, RibBaseConfig, AgentTypes}.

(** ** A best path announced *)

(** The announcements that wait count as told. *)
Definition acking_told (a : Acking) : CIDRNetwork -> option Told :=
  tell (toldBy (rf_pushed (ak_fib a))) (RibOutAnnouncement (ak_entries a) false false []).

Lemma announcePaths_queues sw newly p e paths f ap f' ap' :
  announcePaths sw newly p e paths f ap = Some (f', ap') -> exists l, Forall silent l /\ queues l f f'.
Proof.
  revert f ap. induction paths as [|q paths IH]; intros f ap; cbn [announcePaths].
  { intros [= <- _]. exists []. split; [done|apply queues_refl]. }
  destruct (chunkFull ap).
  - destruct (ri_pathIdToSend _); [|done]. cbn [mbind option_bind]. intros E. apply IH in E as (l & Hl & Hq).
    exists (RibOutAnnouncement [] false sw ap :: l). split; [by constructor|].
    apply (queues_trans [_] l _ _ _ (push_queues _ f)). by apply (queues_trans [] l _ _ _ (version_queues _)).
  - destruct (ri_pathIdToSend _); [|done]. cbn [mbind option_bind]. apply IH.
Qed.

(** [commitBestpath] of an entry with a best path *)
Lemma commit_best e q :
  re_bestpath e = Some q ->
  let '(changed, e') := commitBestpath e in
  re_advertisedBestpath e' = Some q /\ (changed = false -> re_advertisedBestpath e = Some q) /\
  re_bestpath e' = Some q /\ weightedNexthops (re_weights e') = weightedNexthops (re_weights e) /\
  re_installToFib e' = re_installToFib e /\ re_prefix e' = re_prefix e /\
  re_routeInfos e' = re_routeInfos e /\ re_allPathsCount e' = re_allPathsCount e.
Proof.
  intros E. unfold commitBestpath. cbn [re_advertisedBestpath re_bestpath set_weights]. rewrite E.
  destruct (re_advertisedBestpath e) as [q'|]; (split; [done|]; split; [|done]); intros Hf;
    repeat (apply orb_false_iff in Hf as [Hf _]); apply negb_false_iff, bool_decide_eq_true in Hf; congruence.
Qed.

Record announced (p : CIDRNetwork) (s : RibSlot) (q : ptr) (a a' : Acking) : Prop := {
  an_writes : exists sF, writes p sF (rf_rib (ak_fib a)) (rf_rib (ak_fib a')) /\
    re_advertisedBestpath (sl_entry sF) = Some q /\ re_bestpath (sl_entry sF) = Some q /\
    weightedNexthops (re_weights (sl_entry sF)) = weightedNexthops (re_weights (sl_entry s)) /\
    re_installToFib (sl_entry sF) = re_installToFib (sl_entry s) /\ re_prefix (sl_entry sF) = re_prefix (sl_entry s) /\
    re_routeInfos (sl_entry sF) = re_routeInfos (sl_entry s) /\ re_allPathsCount (sl_entry sF) = re_allPathsCount (sl_entry s) /\
    sl_nexthopsId sF = sl_nexthopsId s /\ sl_hasFibOutState sF = sl_hasFibOutState s;
  an_batch : fibBatchList_ (rf_rib (ak_fib a')) = fibBatchList_ (rf_rib (ak_fib a));
  an_queue : toFibMessageQ_ (ak_fib a') = toFibMessageQ_ (ak_fib a);
  an_told : (re_advertisedBestpath (sl_entry s) = Some q /\ forall x, acking_told a' x = acking_told a x) \/
    forall x, acking_told a' x = fnUpd p (Some (toldOf (rib_heap (rf_rib (ak_fib a))) q)) (acking_told a) x
}.

Lemma acking_told_queues (l : list RibOutMessage) f f' entries ap wd :
  Forall silent l -> queues l f f' -> forall x,
  acking_told (mkAcking f' entries ap wd) x = tell (toldBy (rf_pushed f)) (RibOutAnnouncement entries false false []) x.
Proof. intros Hl [_ P _] x. unfold acking_told. simpl. by rewrite P, toldBy_silent. Qed.

Lemma announceProgrammed_spec sw p s q a a' :
  re_bestpath (sl_entry s) = Some q -> announceProgrammed sw p s a = Some a' -> announced p s q a a'.
Proof.
  intros Eq. unfold announceProgrammed. destruct (commitMultipaths (sl_entry (sl_commitNexthops s))) as [changed e1] eqn:Ec.
  assert (He1 : e1 = set_advertisedMultipaths (re_multipaths (sl_entry s)) (sl_entry s)) by (by injection Ec).
  assert (Eb1 : re_bestpath e1 = Some q) by (by rewrite He1).
  match goal with |- context [mbind _ ?l] => set (paths := l) end.
  assert (Hpaths : forall f ap wd, paths = Some (f, ap, wd) -> exists l, Forall silent l /\ queues l (ak_fib a) f).
  { intros f ap wd. unfold paths. destruct (changed && _); cycle 1.
    { intros [= <- _ _]. exists []. split; [done|apply version_queues]. }
    destruct (announcePaths _ _ _ _ _ _ _) as [[f1 ap1]|] eqn:E1; [|done]. cbn [mbind option_bind].
    destruct (withdrawPaths _ _ _ _) as [f2 wd2] eqn:E2. intros [= <- _ _].
    destruct (announcePaths_queues _ _ _ _ _ _ _ _ _ E1) as (l1 & Hl1 & Q1).
    destruct (withdrawPaths_queues _ _ _ _ _ _ E2) as (l2 & Hl2 & Q2). exists (l1 ++ l2).
    split; [by apply Forall_app|]. apply (queues_trans [] _ _ _ _ (version_queues _)). by eapply queues_trans. }
  destruct paths as [[[f1 ap] wd]|]; [|done]. cbn [mbind option_bind].
  destruct (Hpaths _ _ _ eq_refl) as (l & Hl & Q). clear Hpaths.
  pose proof (commit_best e1 q Eb1) as Hcb. destruct (commitBestpath e1) as [bc e2].
  destruct Hcb as (C1 & C2 & C3 & C4 & C5 & C6 & C7 & C8).
  set (sF := sl_set_ribVersion _ _). set (f2 := rf_upd_rib (setSlot p sF) f1).
  destruct (setSlot_writes p sF (rf_rib f1)) as [W Wb]. destruct Q as [S P T].
  assert (WF : writes p sF (rf_rib (ak_fib a)) (rf_rib f2)).
  { change (rf_rib f2) with (setSlot p sF (rf_rib f1)).
    split; [rewrite (wr_heap _ _ _ _ W); apply S|apply W| |rewrite (wr_local _ _ _ _ W); apply S].
    intros x Hne. rewrite (wr_other _ _ _ _ W) by done. by apply same_rib_find. }
  assert (HF : re_advertisedBestpath (sl_entry sF) = Some q /\ re_bestpath (sl_entry sF) = Some q /\
    weightedNexthops (re_weights (sl_entry sF)) = weightedNexthops (re_weights (sl_entry s)) /\
    re_installToFib (sl_entry sF) = re_installToFib (sl_entry s) /\ re_prefix (sl_entry sF) = re_prefix (sl_entry s) /\
    re_routeInfos (sl_entry sF) = re_routeInfos (sl_entry s) /\ re_allPathsCount (sl_entry sF) = re_allPathsCount (sl_entry s) /\
    sl_nexthopsId sF = sl_nexthopsId s /\ sl_hasFibOutState sF = sl_hasFibOutState s).
  { simpl. rewrite C1, C3, C4, C5, C6, C7, C8, He1. done. }
  assert (Htold : forall v, toldBy (rf_pushed f2 ++ v) = toldBy (rf_pushed (ak_fib a) ++ v)).
  { intros v. simpl. by rewrite P, (toldBy_app (_ ++ l) v), toldBy_silent, <- toldBy_app. }
  destruct (negb bc) eqn:Bc.
  { intros [= <-]. split; [by exists sF|by simpl; rewrite (srb_batch _ _ S)|done|]. left. split.
    - apply negb_true_iff in Bc. specialize (C2 Bc). by rewrite He1 in C2.
    - intros x. unfold acking_told. cbn [ak_fib ak_entries]. specialize (Htold []). rewrite !app_nil_r in Htold. by rewrite Htold. }
  rewrite C1. cbn [mbind option_bind].
  destruct (chunkFull (ak_entries a)); intros [= <-].
  - destruct (push_queues (RibOutAnnouncement (ak_entries a) false sw []) f2) as [S2 P2 T2].
    split; cbn [ak_fib ak_entries].
    + exists sF. split; [|done]. destruct WF as [w1 w2 w3 w4]. unfold flushAnnouncementChunk.
      split; [rewrite (srb_heap _ _ S2); done|by rewrite (same_rib_find _ _ _ S2)| |rewrite (srb_local _ _ S2); done].
      intros x Hne. rewrite (same_rib_find _ _ _ S2). by apply w3.
    + unfold flushAnnouncementChunk. rewrite (srb_batch _ _ S2). simpl. by rewrite (srb_batch _ _ S).
    + unfold flushAnnouncementChunk. rewrite T2. done.
    + right. intros x. unfold acking_told, flushAnnouncementChunk. cbn [ak_fib ak_entries]. rewrite P2, Htold, toldBy_app.
      simpl. rewrite (srb_heap _ _ S2), (wr_heap _ _ _ _ WF). done.
  - split; cbn [ak_fib ak_entries]; [by exists sF|simpl; by rewrite (srb_batch _ _ S)|done|].
    right. intros x. unfold acking_told. cbn [ak_fib ak_entries]. specialize (Htold []). rewrite !app_nil_r in Htold.
    rewrite Htold. simpl. rewrite fold_left_app. simpl. by rewrite (srb_heap _ _ S).
Qed.

(** ** One prefix *)

Section OneAck.
Variables (fib : option (CIDRNetwork -> option Hops)) (syncing : bool).
Abbreviation I aw told r := (Inv (fun _ => False) fib aw syncing told r).

Lemma inv_await_ext aw aw' told r : (forall q, aw' q = aw q) -> I aw told r -> I aw' told r.
Proof.
  intros Ha [J1 J2 J3 J4 J5 J6 J7 J8 J9]. split; try done.
  - intros q n. rewrite Ha. apply J8.
  - intros Hf q c Hd. rewrite Ha. by apply J9.
Qed.

Definition except (p : CIDRNetwork) (aw : CIDRNetwork -> option (option NexthopsPtr)) :
  CIDRNetwork -> option (option NexthopsPtr) := fun q => if decide (q = p) then None else aw q.

(** An acknowledgement that changes nothing *)
Lemma inv_acked aw told r p :
  I aw told r -> (forall c, pic r p = Some c -> p ∉ fibBatchList_ r -> pc_told c = pc_best c) ->
  I (except p aw) told r.
Proof.
  intros [J1 J2 J3 J4 J5 J6 J7 J8 J9] Hp. split; try done.
  - intros q n. unfold except. case_decide; [done|apply J8].
  - intros Hf q c Hd Ha Hc. unfold except in Ha. case_decide as D; [subst|by eapply J9]. apply Hp; [done|tauto].
Qed.

(** The best path is told. *)
Lemma inv_announce aw told told' r r' p s q sF :
  I aw told r -> findSlot p r = Some s -> re_bestpath (sl_entry s) = Some q -> sl_hasFibOutState s = true ->
  writes p sF r r' -> fibBatchList_ r' = fibBatchList_ r ->
  re_advertisedBestpath (sl_entry sF) = Some q /\ re_bestpath (sl_entry sF) = Some q /\
    weightedNexthops (re_weights (sl_entry sF)) = weightedNexthops (re_weights (sl_entry s)) /\
    re_installToFib (sl_entry sF) = re_installToFib (sl_entry s) /\ re_prefix (sl_entry sF) = re_prefix (sl_entry s) /\
    re_routeInfos (sl_entry sF) = re_routeInfos (sl_entry s) /\ re_allPathsCount (sl_entry sF) = re_allPathsCount (sl_entry s) /\
    sl_nexthopsId sF = sl_nexthopsId s /\ sl_hasFibOutState sF = sl_hasFibOutState s ->
  (forall x, told' x = fnUpd p (Some (toldOf (rib_heap r) q)) told x) ->
  I (except p aw) told' r' /\
  (forall x, pic r' x = if decide (x = p) then (fun c => mkPic (pc_wanted c) (pc_nexthops c) (pc_fibOut c) (pc_best c) (pc_best c)) <$> pic r x
                        else pic r x).
Proof.
  intros [[A B] J2 J3 J4 J5 J6 J7 J8 J9] Es Eq Hfo [W1 W2 W3 W4] Hb (F1 & F2 & F3 & F4 & F5 & F6 & F7 & F8 & F9) Ht.
  pose proof (J2 _ _ Es) as So.
  assert (Hpic : forall x, pic r' x = if decide (x = p)
    then (fun c => mkPic (pc_wanted c) (pc_nexthops c) (pc_fibOut c) (pc_best c) (pc_best c)) <$> pic r x else pic r x).
  { intros x. unfold pic. rewrite W1. case_decide as D; [subst x|by rewrite W3]. rewrite W2, Es. simpl. f_equal.
    unfold picOf, wantedHops. simpl. by rewrite F1, F2, F3, F4, F8, F9, Eq. }
  split; [|done].
  assert (Hw : forall x, pic r' x ≫= pc_wanted = pic r x ≫= pc_wanted).
  { intros x. rewrite Hpic. case_decide; [|done]. by destruct (pic r x). }
  split.
  - split; intros x sx Ex; (destruct (decide (x = p)) as [->|Hne]; [rewrite W2 in Ex; injection Ex as <-|rewrite W3 in Ex by done]);
      rewrite ?W1.
    + rewrite F5. by apply A.
    + by apply A.
    + apply (same_core_entry_ok (rib_heap r) (rib_heap r) (sl_entry s)); try done. by apply (B p).
    + by apply (B x).
  - intros x sx Ex. rewrite W1. destruct (decide (x = p)) as [->|Hne]; [rewrite W2 in Ex; injection Ex as <-|rewrite W3 in Ex by done; by eapply J2].
    pose proof (so_null _ _ So) as Hn. split; rewrite ?F1, ?F2, ?F3, ?F4, ?F9.
    + rewrite <- Hn. by rewrite Eq.
    + rewrite (so_install _ _ So), Eq. done.
    + intros q' [= <-]. by apply (so_best _ _ So).
    + intros q' [= <-]. by apply (so_best _ _ So).
    + intros Hw0. apply Hn in Hw0. congruence.
    + congruence.
  - intros x Hx. rewrite Hb in Hx. destruct (decide (x = p)) as [->|Hne]; [rewrite W2; eauto|rewrite W3 by done; by apply J3].
  - intros T HT x Hd. rewrite Hw. apply (J4 T HT). by rewrite <- Hb.
  - intros T HT x Hn. apply (J5 T HT). intros c Hc. specialize (Hn). rewrite Hpic in Hn. case_decide; [|by apply Hn].
    rewrite Hc in Hn. specialize (Hn _ eq_refl). done.
  - intros Hsy x Hd. rewrite Hb in Hd. specialize (J6 Hsy x Hd). rewrite Hpic. case_decide; [|done].
    destruct (pic r x); [|done]. simpl in *. naive_solver.
  - intros x. rewrite Ht, Hpic. unfold fnUpd. case_decide as D; [subst x|apply J7]. unfold pic. rewrite Es. simpl. by rewrite Eq.
  - intros x n. unfold except. case_decide as D; [done|]. intros Ha. rewrite Hpic, decide_False, Hb by done. by apply J8.
  - intros Hf x c Hd Ha. unfold except in Ha. rewrite Hpic. case_decide as D.
    + destruct (pic r x); [|done]. by intros [= <-].
    + rewrite Hb in Hd. by apply J9.
Qed.

(** An entry without paths is erased. *)
Lemma inv_eraseAcked aw told r p s :
  I aw told r -> findSlot p r = Some s -> weightedNexthops (re_weights (sl_entry s)) = None ->
  p ∉ fibBatchList_ r -> I (except p aw) told (eraseEntry p r).
Proof.
  intros Hi Es Hw Hnb. set (r' := eraseEntry p r).
  assert (Hf : forall x, findSlot x r' = if decide (p = x) then None else findSlot x r).
  { intros x. unfold findSlot. simpl. by rewrite lookup_delete. }
  assert (Hp : pic r' p = None) by (unfold pic; by rewrite Hf, decide_True).
  assert (Ho : forall x, x <> p -> pic r' x = pic r x).
  { intros x Hne. apply pic_other; [done|]. by rewrite Hf, decide_False. }
  assert (Hb : forall x, x ∈ fibBatchList_ r' <-> x ∈ fibBatchList_ r).
  { intros x. simpl. rewrite list_elem_of_filter. split; [tauto|]. intros Hx. split; [|done]. congruence. }
  destruct Hi as [[A B] J2 J3 J4 J5 J6 J7 J8 J9].
  assert (Hpc : pic r p ≫= pc_wanted = None /\ pic r p ≫= pc_told = None).
  { unfold pic. rewrite Es. simpl. unfold wantedHops. rewrite Hw, (so_gone _ _ (J2 _ _ Es) Hw). done. }
  split.
  - split; intros x sx; rewrite Hf; case_decide; try done; [apply A|apply B].
  - intros x sx. rewrite Hf. case_decide; [done|apply J2].
  - intros x Hx. apply Hb in Hx. rewrite Hf. case_decide; [subst; done|by apply J3].
  - intros T HT x Hd. rewrite Hb in Hd. destruct (decide (x = p)) as [->|Hne]; [|rewrite Ho by done; by apply J4].
    rewrite Hp, (J4 T HT p Hd). by destruct Hpc as [-> _].
  - intros T HT x Hn. destruct (decide (x = p)) as [->|Hne].
    + rewrite (J4 T HT p) by tauto. apply Hpc.
    + apply (J5 T HT). intros c Hc. apply Hn. by rewrite Ho.
  - intros Hsy x Hd. rewrite Hb in Hd. destruct (decide (x = p)) as [->|Hne]; [by rewrite Hp|rewrite Ho by done; by apply J6].
  - intros x. destruct (decide (x = p)) as [->|Hne]; [|rewrite Ho by done; apply J7]. rewrite Hp, J7. apply Hpc.
  - intros x n. unfold except. case_decide; [done|]. intros Ha. destruct (J8 _ _ Ha) as (c & Hc & Hfc & Hn).
    exists c. rewrite Ho, Hb by done. done.
  - intros Hfi x c Hd Ha Hc. rewrite Hb in Hd. destruct (decide (x = p)) as [->|Hne]; [congruence|].
    rewrite Ho in Hc by done. unfold except in Ha. rewrite decide_False in Ha by done. by eapply J9.
Qed.

(** What an acknowledgement of [n] is right about *)
Definition ack_ok (p : CIDRNetwork) (n : option NexthopsPtr) (r : Rib) : Prop :=
  forall c, pic r p = Some c -> pc_fibOut c = true /\ (p ∉ fibBatchList_ r -> pc_nexthops c = n).

Record acked (p : CIDRNetwork) (aw : CIDRNetwork -> option (option NexthopsPtr)) (a a' : Acking) : Prop := {
  ac_inv : I (except p aw) (acking_told a') (rf_rib (ak_fib a'));
  ac_other : forall q m, ack_ok q m (rf_rib (ak_fib a)) -> ack_ok q m (rf_rib (ak_fib a'));
  ac_queue : toFibMessageQ_ (ak_fib a') = toFibMessageQ_ (ak_fib a);
  ac_local : localRoutes_ (rf_rib (ak_fib a')) = localRoutes_ (rf_rib (ak_fib a))
}.

(** Nothing is selected *)
Lemma nothing_selected w p s :
  slot_ok w s -> weightedNexthops (re_weights (sl_entry s)) = None ->
  pc_told (picOf w p s) = pc_best (picOf w p s).
Proof. intros So Hw. simpl. rewrite (so_gone _ _ So Hw). by apply (so_null _ _ So) in Hw as ->. Qed.

Lemma acked_same p aw a :
  I aw (acking_told a) (rf_rib (ak_fib a)) ->
  (forall c, pic (rf_rib (ak_fib a)) p = Some c -> p ∉ fibBatchList_ (rf_rib (ak_fib a)) -> pc_told c = pc_best c) ->
  acked p aw a a.
Proof. intros Hi Hp. split; try done. by apply inv_acked. Qed.

(** The announcement of an acknowledged prefix *)
Lemma acked_announce sw p s aw a a' :
  I aw (acking_told a) (rf_rib (ak_fib a)) -> findSlot p (rf_rib (ak_fib a)) = Some s ->
  weightedNexthops (re_weights (sl_entry s)) <> None -> sl_hasFibOutState s = true ->
  announceProgrammed sw p s a = Some a' -> acked p aw a a'.
Proof.
  intros Hi Es Hw Hfo E. pose proof (iv_slots _ _ _ _ _ _ Hi _ _ Es) as So.
  destruct (re_bestpath (sl_entry s)) as [q|] eqn:Eq; [|by apply (so_null _ _ So) in Eq].
  destruct (announceProgrammed_spec sw p s q a a' Eq E) as [(sF & W & HF) Hb Hq Ht].
  assert (Ht' : forall x, acking_told a' x = fnUpd p (Some (toldOf (rib_heap (rf_rib (ak_fib a))) q)) (acking_told a) x).
  { destruct Ht as [[Ha Ht]|Ht]; [|done]. intros x. rewrite Ht. unfold fnUpd. case_decide; [subst x|done].
    rewrite (iv_told _ _ _ _ _ _ Hi). unfold pic. rewrite Es. simpl. by rewrite Ha. }
  destruct (inv_announce _ _ _ _ _ _ _ _ _ Hi Es Eq Hfo W Hb HF Ht') as [Hi' Hp]. split; [done| |done|apply W].
  intros x m Hx c. rewrite Hp, Hb. case_decide as D; [subst x|by apply Hx].
  destruct (pic (rf_rib (ak_fib a)) p) as [c0|] eqn:Ec; [|done]. intros [= <-]. by apply (Hx _ Ec).
Qed.

Lemma ackPrefix_inv sw p n aw a a' :
  I aw (acking_told a) (rf_rib (ak_fib a)) -> ack_ok p n (rf_rib (ak_fib a)) ->
  ackPrefix sw p n a = Some a' -> acked p aw a a'.
Proof.
  intros Hi Ha. unfold ackPrefix. destruct (findSlot p (rf_rib (ak_fib a))) as [s|] eqn:Es; cycle 1.
  { intros [= <-]. apply acked_same; [done|]. intros c. unfold pic. by rewrite Es. }
  pose proof (iv_slots _ _ _ _ _ _ Hi _ _ Es) as So.
  assert (Hpc : pic (rf_rib (ak_fib a)) p = Some (picOf (rib_heap (rf_rib (ak_fib a))) p s)) by (unfold pic; by rewrite Es).
  destruct (Ha _ Hpc) as [Hfo Hn]. simpl in Hfo, Hn.
  assert (Hnone : (p ∉ fibBatchList_ (rf_rib (ak_fib a)) -> weightedNexthops (re_weights (sl_entry s)) = None) ->
    acked p aw a a).
  { intros Hw. apply acked_same; [done|]. intros c Hc Hd. rewrite Hpc in Hc. injection Hc as <-. by apply nothing_selected, Hw. }
  destruct n as [[id m]|].
  - destruct (weightedNexthops (re_weights (sl_entry s))) as [m0|] eqn:Ew; cycle 1.
    { intros [= <-]. by apply Hnone. }
    destruct (sl_nexthopsId s =? id) eqn:Eid; [|].
    + intros E. apply (acked_announce sw p s); try done. congruence.
    + intros [= <-]. apply Hnone. intros Hd. specialize (Hn Hd). simpl in Hn. apply Z.eqb_neq in Eid. congruence.
  - assert (Hw : p ∉ fibBatchList_ (rf_rib (ak_fib a)) -> weightedNexthops (re_weights (sl_entry s)) = None).
    { intros Hd. specialize (Hn Hd). by destruct (weightedNexthops _). }
    destruct (_ && _) eqn:B; intros [= <-]; [|by apply Hnone].
    apply andb_true_iff in B as [_ B]. unfold isOnFibBatchList in B.
    apply negb_true_iff, bool_decide_eq_false in B.
    set (r1 := rib_set_counters _ _).
    assert (Hi1 : I aw (acking_told a) r1) by (by apply (inv_frame _ _ _ _ _ (rf_rib (ak_fib a)))).
    split; [by apply (inv_eraseAcked _ _ r1 p s); [..|apply Hw|]| |done|done].
    intros x k Hx c Hc. cbn [ak_fib] in *. destruct (decide (x = p)) as [->|Hne].
    { exfalso. revert Hc. unfold pic, findSlot. simpl. by rewrite lookup_delete_eq. }
    assert (Hxc : pic (rf_rib (ak_fib a)) x = Some c).
    { rewrite <- Hc. symmetry. apply pic_other; [done|]. unfold findSlot. simpl. by rewrite lookup_delete_ne. }
    destruct (Hx c Hxc) as [X1 X2]. split; [done|]. simpl. rewrite list_elem_of_filter. intros Hd. apply X2. tauto.
Qed.

Definition exceptAll (l : list CIDRNetwork) (aw : CIDRNetwork -> option (option NexthopsPtr)) :
  CIDRNetwork -> option (option NexthopsPtr) := fun q => if decide (q ∈ l) then None else aw q.

Lemma ackPrefixes_inv sw pfxs aw a a' :
  I aw (acking_told a) (rf_rib (ak_fib a)) -> (forall p n, (p, n) ∈ pfxs -> ack_ok p n (rf_rib (ak_fib a))) ->
  ackPrefixes sw pfxs a = Some a' ->
  I (exceptAll pfxs.*1 aw) (acking_told a') (rf_rib (ak_fib a')) /\
  toFibMessageQ_ (ak_fib a') = toFibMessageQ_ (ak_fib a) /\
  localRoutes_ (rf_rib (ak_fib a')) = localRoutes_ (rf_rib (ak_fib a)).
Proof.
  revert aw a. induction pfxs as [|[p n] pfxs IH]; intros aw a Hi Ha; cbn [ackPrefixes].
  { intros [= <-]. split; [|done]. eapply inv_await_ext; [|exact Hi]. intros q. unfold exceptAll.
    by rewrite decide_False by apply not_elem_of_nil. }
  destruct (ackPrefix sw p n a) as [a1|] eqn:E; [|done]. cbn [mbind option_bind]. intros E2.
  destruct (ackPrefix_inv _ _ _ _ _ _ Hi (Ha p n ltac:(left)) E) as [K1 K2 K3 K4].
  destruct (IH _ _ K1 (fun q m Hq => K2 q m (Ha q m ltac:(by right))) E2) as (L1 & L2 & L3).
  split; [|split; congruence]. eapply inv_await_ext; [|exact L1]. intros q. unfold exceptAll, except.
  destruct (decide (q ∈ pfxs.*1)) as [D|D]; [by rewrite decide_True by (by right)|].
  destruct (decide (q = p)) as [->|Hne]; [by rewrite decide_True by left|].
  rewrite decide_False; [done|]. by intros [?|?]%elem_of_cons.
Qed.
End OneAck.

(** ** The whole acknowledgement *)

Lemma programmed_elem (r : Rib) (m : gmap CIDRNetwork (option NexthopsPtr)) (p : CIDRNetwork) (n : option NexthopsPtr) :
  (p, n) ∈ fibProgrammedPrefixes r m <-> m !! p = Some n.
Proof.
  unfold fibProgrammedPrefixes. rewrite elem_of_app, list_elem_of_omap. split.
  - intros [([L lr] & Hin & Ho)|Hin].
    + destruct (m !! L) eqn:E; [|done]. by injection Ho as -> ->.
    + apply list_elem_of_In, filter_In in Hin as [Hin _]. by apply list_elem_of_In, elem_of_map_to_list in Hin.
  - intros E. destruct (localRoutes_ r !! p) as [lr|] eqn:El.
    + left. exists (p, lr). split; [by apply elem_of_map_to_list|]. simpl. by rewrite E.
    + right. apply list_elem_of_In, filter_In. split; [by apply list_elem_of_In, elem_of_map_to_list|]. by rewrite El.
Qed.

Definition ackList (r : Rib) (b : FibBatch) : list (CIDRNetwork * option NexthopsPtr) :=
  concat (map (fun '(_, m) => fibProgrammedPrefixes r m) (map_to_list (waitForAck b))).

Lemma ackList_elem (r : Rib) (b : FibBatch) (p : CIDRNetwork) (n : option NexthopsPtr) : (p, n) ∈ ackList r b <-> ackOf b p n.
Proof.
  unfold ackList. rewrite list_elem_of_In, in_concat. split.
  - intros (l & Hl & Hin). apply in_map_iff in Hl as ([a m] & <- & Ham). exists a, m.
    apply list_elem_of_In, programmed_elem in Hin. split; [|done]. by apply list_elem_of_In, elem_of_map_to_list in Ham.
  - intros (a & m & Ha & Hm). exists (fibProgrammedPrefixes r m). split; [|by apply list_elem_of_In, programmed_elem].
    apply in_map_iff. exists (a, m). split; [done|]. by apply list_elem_of_In, elem_of_map_to_list.
Qed.

(** The announcements that wait are pushed. *)
Lemma acked_push fib await a eor sw l f :
  Forall silent l -> queues l (ak_fib a) f ->
  Inv (fun _ => False) fib await (existsb id (toFibMessageQ_ (ak_fib a))) (acking_told a) (rf_rib (ak_fib a)) ->
  local_routes_ok (rf_rib (ak_fib a)) ->
  InvF fib await
    (if sw || nonempty (ak_entries a) || nonempty (ak_addPath a)
     then ribOutQPushAndMayPauseBestPathAndFibProgramming (RibOutAnnouncement (ak_entries a) eor sw (ak_addPath a)) f
     else f).
Proof.
  intros Hl [S P Q] Hi Hlr.
  assert (Hgen : forall f', same_rib (rf_rib f) (rf_rib f') -> toFibMessageQ_ f' = toFibMessageQ_ f ->
    (forall q, toldBy (rf_pushed f') q = acking_told a q) -> InvF fib await f').
  { intros f' S' Q' T'. split.
    - rewrite Q', Q. eapply inv_told_ext; [exact T'|]. apply (inv_frame _ _ _ _ _ (rf_rib (ak_fib a))); [..|done].
      + rewrite (srb_heap _ _ S'). apply S.
      + rewrite (srb_entries _ _ S'). apply S.
      + rewrite (srb_batch _ _ S'). apply S.
    - apply (local_routes_same (rf_rib (ak_fib a))); [|done]. rewrite (srb_local _ _ S'). apply S. }
  assert (Ht : toldBy (rf_pushed f) = toldBy (rf_pushed (ak_fib a))) by (rewrite P; by apply toldBy_silent).
  destruct (sw || _ || _) eqn:B.
  - destruct (push_queues (RibOutAnnouncement (ak_entries a) eor sw (ak_addPath a)) f) as [S' P' Q'].
    apply Hgen; [done|done|]. intros q. by rewrite P', toldBy_app, Ht.
  - apply Hgen; [done|done|]. intros q. rewrite Ht. unfold acking_told.
    apply orb_false_iff in B as [B _]. apply orb_false_iff in B as [_ B]. by destruct (ak_entries a).
Qed.

(** [b] is acknowledged: [await] names what it has, [rest] what the others have. *)
Lemma handleFib_inv fib await rest b isSync f f' :
  InvF fib await f -> (forall p n, ackOf b p n -> await p = Some n /\ rest p = None) ->
  (forall p, awaitFn b p = None -> rest p = await p) ->
  handleFibProgrammedMessage (waitForAck b) isSync f = Some f' -> InvF fib rest f'.
Proof.
  intros Hinv Hk Hrest. unfold handleFibProgrammedMessage. set (sw := isSync && _). set (f0 := if sw then _ else f).
  assert (Hq : exists l, Forall silent l /\ queues l f f0).
  { unfold f0. destruct sw; [|exists []; by split; [|apply queues_refl]]. exists [RibInitialAnnouncementStart].
    split; [by repeat constructor|]. by split. }
  destruct Hq as (l & Hl & Hq). destruct (invF_queues _ _ _ _ _ Hl Hq Hinv) as [Hi Hlr]. clearbody f0.
  change (concat _) with (ackList (rf_rib f0) b).
  destruct (ackPrefixes sw _ _) as [a|] eqn:E; [|done]. cbn [mbind option_bind]. intros [= <-].
  apply (ackPrefixes_inv fib (existsb id (toFibMessageQ_ f0)) sw _ await) in E as (Hi1 & Q1 & L1).
  - cbn [ak_fib] in Q1, L1. assert (Hi2 : Inv (fun _ => False) fib rest (existsb id (toFibMessageQ_ (ak_fib a))) (acking_told a) (rf_rib (ak_fib a))).
    { rewrite Q1. eapply inv_await_ext; [|exact Hi1]. intros q. unfold exceptAll. case_decide as D.
      { apply list_elem_of_fmap in D as ([q' n] & -> & Hin). apply ackList_elem in Hin. by destruct (Hk _ _ Hin). }
      destruct (awaitFn b q) as [n|] eqn:Ea; [|by rewrite Hrest]. destruct D. apply list_elem_of_fmap. exists (q, n). split; [done|].
      by apply ackList_elem, awaitFn_some. }
    assert (Hl2 : local_routes_ok (rf_rib (ak_fib a))) by (by apply (local_routes_same (rf_rib f0))).
    destruct (nonempty (ak_withdrawn a)).
    + eapply acked_push; [|apply push_queues|done..]. by repeat constructor.
    + eapply (acked_push _ _ _ _ _ []); [done|apply queues_refl|done..].
  - done.
  - intros p n Hp%ackList_elem c Hc. cbn [ak_fib] in Hc. apply Hk in Hp as [Hp _].
    destruct (iv_await _ _ _ _ _ _ Hi _ _ Hp) as (c' & Hc' & Hfo & Hn). rewrite Hc in Hc'. injection Hc' as <-.
    split; [done|]. cbn [ak_fib]. intros Hd. apply Hn. tauto.
Qed.
End Ack.
