(* ===== verification/RibFibSpec.v ===== *)
(** * The RIB, the FIB and the peers: runs

    The RIB, [FibFboss] and the agent together: routes, next hops and timers come in any
    order, the turns of the FIB loop and what the agent answers between them; the next batch
    may start before the RIB has read the acknowledgement of the last.  As long as no prefix
    is handed over again while an acknowledgement that names it is unread, the routes of the
    agent are those the RIB wants, and the peers were told what the RIB selected. *)

From stdpp Require Import gmap strings fin_sets.
From Stdlib Require Import SpecFloat.
From S2P Require Import Prelude BgpException Folly BgpStructs RouteFilter RouteInfo RouteSelector RibEntry Ucmp.
From S2P Require Import PathSelection PathFields AdjRibCommon PackingList AdjRibOut MapSum NexthopCache.
From S2P Require Import RibNexthop RibCounters Rib RibSpec FibFboss RibFib RibFibSel RibFibInv RibFibPrepare RibFibStage.
From S2P Require Import RibFibAck.

(** ** The parts together *)

Record World := mkWorld {
  w_rib : RibFib;
  w_fib : FibFboss;
  w_programming : option (FibBatch * bool);   (** the batch the agent works on, and [isSync] *)
  (** the [FibProgrammedMessage]s the RIB has not read: their batches, and [isSync] *)
  fromFibMessageQ_ : list (FibBatch * bool);
  (** the routes of the agent; unknown from a failure or a restart to the next [syncFib] *)
  w_agent : option (gmap CIDRNetwork UnicastRoute)
}.

Inductive Event :=
| RoutesIn (now : Z) (peer : TinyPeerInfo) (attrs : option (ptr * BgpPath)) (ids : list PrefixPathId)
| CacheWritten (statuses : list CachedStatus)   (** the shared [NexthopCache], by its writers *)
| NexthopsIn (now : Z) (statuses : list CachedStatus)
| InitialPathComputation (timeout : Z)
| NexthopResolutionTimeout
| PauseWork (cause : RibPauseResumeCause)
| ResumeWork (cause : RibPauseResumeCause)
| PauseTimer
| BatchTimer
| ChurnMonitor (detected : bool)
| PopOut
| FibSyncReq
| FibTurn (keepAlive : option AgentStatus)   (** one that holds the mutex when [program] is called *)
| AgentDone
| AgentFails (done : nat)
| FibProgrammed
| KeepAlive (status : AgentStatus)
| AgentRestarts.

Section World.
Context `{SubnetOps, RibConfig, RibBaseConfig, AgentTypes}.

Definition onRib (g : RibFib -> option RibFib) (w : World) : option World :=
  f ← g (w_rib w); Some (mkWorld f (w_fib w) (w_programming w) (fromFibMessageQ_ w) (w_agent w)).

(** [keepAlive] while no batch is with the agent *)
Definition keepAliveStep (status : AgentStatus) (x : FibFboss * option (gmap CIDRNetwork UnicastRoute))
    : option (FibFboss * option (gmap CIDRNetwork UnicastRoute)) :=
  '(_, fib) ← keepAlive status x.1;
  Some (fib, match status with AgentThrows => None | AgentAlive _ _ => x.2 end).

(** A turn of [processFibProgrammingMsgLoop] up to the call of the agent; acknowledgements may be
    unread.  [None]: the loop still waits for the agent, or no message is there; the other
    events that do not fit give [None] too. *)
Definition fibTurn (status : option AgentStatus) (w : World) : option World :=
  match w_programming w, toFibMessageQ_ (w_rib w) with
  | None, _ :: _ =>
      let '(call, f, fib) := processFibProgrammingMsgs (w_rib w) (w_fib w) in
      match call with
      | None => Some (mkWorld f fib None (fromFibMessageQ_ w) (w_agent w))
      | Some isSync =>
          '(fib, agent) ← (match status with Some s => keepAliveStep s (fib, w_agent w) | None => Some (fib, w_agent w) end);
          match programStart fib with
          | (Some b, fib) => Some (mkWorld f fib (Some (b, isSync)) (fromFibMessageQ_ w) agent)
          | (None, fib) => Some (mkWorld f fib None (fromFibMessageQ_ w) None)
          end
      end
  | _, _ => None
  end.

Definition wstep (e : Event) (w : World) : option World :=
  match e with
  | RoutesIn now peer attrs ids =>
      onRib (fun f => r ← processRibInUpdate now peer attrs ids (rf_rib f); Some (rf_set_rib r f)) w
  | CacheWritten statuses =>
      onRib (fun f => Some (rf_upd_rib (fun r =>
               rib_set_nexthops (nt_set_cache (addOrUpdateNextHopStatus statuses (nt_cache (rib_nexthops r))).2
                                   (rib_nexthops r)) r) f)) w
  | NexthopsIn now statuses => onRib (processRibInNexthopUpdate now statuses) w
  | InitialPathComputation timeout => onRib (processRibInInitialPathComputation timeout) w
  | NexthopResolutionTimeout => onRib onNexthopResolutionTimeout w
  | PauseWork cause =>
      onRib (fun f => Some (rf_upd_rib (fun r =>
               rib_set_control (processPauseBestPathAndFibProgramming cause (rib_control r)) r) f)) w
  | ResumeWork cause => onRib (processResumeBestPathAndFibProgramming cause) w
  | PauseTimer => onRib onRibPauseTimer w
  | BatchTimer => onRib onFibBatchTimer w
  | ChurnMonitor detected => onRib (fun f => '(_, f) ← monitorRouteChurn detected f; Some f) w
  | PopOut => onRib (fun f => Some (popRibOut f)) w
  | FibSyncReq => onRib handleFibSyncReq w
  | FibTurn status => fibTurn status w
  | AgentDone =>
      '(b, isSync) ← w_programming w;
      Some (mkWorld (w_rib w) (programDone isSync b (w_fib w)) None (fromFibMessageQ_ w ++ [(b, isSync)])
              (if isSync then Some (applyCalls (programCalls true b) ∅)
               else applyCalls (programCalls false b) <$> w_agent w))
  | AgentFails done =>
      _ ← w_programming w;
      Some (mkWorld (w_rib w) (programFailed done (w_fib w)) None (fromFibMessageQ_ w) None)
  | FibProgrammed =>
      match fromFibMessageQ_ w with
      | (b, isSync) :: q =>
          f ← handleFibProgrammedMessage (waitForAck b) isSync (w_rib w);
          Some (mkWorld f (w_fib w) (w_programming w) q (w_agent w))
      | [] => None
      end
  | KeepAlive status =>
      if isNone (w_programming w)
      then '(fib, agent) ← keepAliveStep status (w_fib w, w_agent w);
           Some (mkWorld (w_rib w) fib None (fromFibMessageQ_ w) agent)
      else None
  | AgentRestarts =>
      if isNone (w_programming w)
      then Some (mkWorld (w_rib w) (w_fib w) None (fromFibMessageQ_ w) None)
      else None
  end.

Fixpoint wrun (es : list Event) (w : World) : option World :=
  match es with
  | [] => Some w
  | e :: es => w ← wstep e w; wrun es w
  end.

(** The prefixes that unread acknowledgements name *)
Definition ackedPrefixes (b : FibBatch) : list CIDRNetwork :=
  concat (map (fun am => map fst (map_to_list am.2)) (map_to_list (waitForAck b))).
Definition unread (w : World) : list CIDRNetwork := concat (map (fun x => ackedPrefixes x.1) (fromFibMessageQ_ w)).

(** A turn hands over no prefix that an unread acknowledgement names. *)
Definition handsAnew (w : World) : bool :=
  forallb (fun p => negb (bool_decide (p ∈ unread w))) (fibBatchList_ (rf_rib (w_rib w))).
Fixpoint apart (es : list Event) (w : World) : bool :=
  match es with
  | [] => true
  | e :: es =>
      match e with FibTurn _ => handsAnew w | _ => true end &&
      match wstep e w with Some w => apart es w | None => true end
  end.

(** ** Steps of the RIB *)

(** Only flags of entries change. *)
Record flagged (r r' : Rib) : Prop := {
  fl_heap : rib_heap r' = rib_heap r;
  fl_batch : fibBatchList_ r' = fibBatchList_ r;
  fl_local : localRoutes_ r' = localRoutes_ r;
  fl_slots : forall q, findSlot q r' = findSlot q r \/ exists s s', findSlot q r = Some s /\ findSlot q r' = Some s' /\
    same_slot s s' /\ re_prefix (sl_entry s') = re_prefix (sl_entry s) /\
    (entry_ok (rib_heap r) (sl_entry s) -> entry_ok (rib_heap r) (sl_entry s'))
}.

Lemma flagged_inv fib aw sy told r r' :
  flagged r r' -> Inv (fun _ => False) fib aw sy told r -> Inv (fun _ => False) fib aw sy told r'.
Proof.
  intros [F1 F2 F3 F4] Hi. destruct (iv_ok _ _ _ _ _ _ Hi) as [A B]. apply (inv_same_pic _ _ _ _ _ r); try done.
  - split; intros q s' Es'; rewrite ?F1; destruct (F4 q) as [E|(s & s2 & E1 & E2 & Hs & Hp & He)].
    + apply (A q). by rewrite <- E.
    + rewrite E2 in Es'. injection Es' as <-. rewrite Hp. by apply A.
    + apply (B q). by rewrite <- E.
    + rewrite E2 in Es'. injection Es' as <-. by apply He, (B q).
  - intros q s' Es'. rewrite F1. destruct (F4 q) as [E|(s & s2 & E1 & E2 & Hs & _)].
    + apply (iv_slots _ _ _ _ _ _ Hi q). by rewrite <- E.
    + rewrite E2 in Es'. injection Es' as <-. apply (pic_stable (rib_heap r) (rib_heap r) q s s2); [done| |done].
      by apply (iv_slots _ _ _ _ _ _ Hi q).
  - intros q. unfold pic. rewrite F1. destruct (F4 q) as [->|(s & s2 & E1 & E2 & Hs & _)]; [done|]. rewrite E1, E2. simpl.
    f_equal. apply (pic_stable (rib_heap r) (rib_heap r) q s s2); [done| |done]. by apply (iv_slots _ _ _ _ _ _ Hi q).
Qed.

Lemma require_slot w (s : RibSlot) :
  same_slot s (requirePathSelection s) /\ re_prefix (sl_entry (requirePathSelection s)) = re_prefix (sl_entry s) /\
  (entry_ok w (sl_entry s) -> entry_ok w (sl_entry (requirePathSelection s))).
Proof. split; [by repeat split|]. split; [done|]. intros Ho. by apply (same_core_entry_ok w w (sl_entry s)). Qed.

Lemma requireResolved_slot w (s : RibSlot) :
  let s' := requirePathSelectionForNexthopResolvabilityChange s in
  same_slot s s' /\ re_prefix (sl_entry s') = re_prefix (sl_entry s) /\ (entry_ok w (sl_entry s) -> entry_ok w (sl_entry s')).
Proof. split; [by repeat split|]. split; [done|]. intros Ho. by apply (same_core_entry_ok w w (sl_entry s)). Qed.

Lemma requireAll_flagged r : flagged r (requireAll r).
Proof.
  split; [done..|]. intros q. unfold findSlot, requireAll. simpl. rewrite lookup_fmap.
  destruct (ribEntries_ r !! q) as [s|]; [|by left]. right. exists s, (requirePathSelection s).
  split; [done|]. split; [done|]. apply require_slot.
Qed.

Lemma markRoute_flagged b r q : flagged r (markRoute b r q).
Proof.
  unfold markRoute. set (p := ri_prefix _). destruct (findSlot p r) as [s|] eqn:Es; [|by split; [..|by left]].
  set (s' := if b then _ else _). destruct (setSlot_writes p s' r) as [[W1 W2 W3 W4] Wb]. split; [done..|].
  intros x. destruct (decide (x = p)) as [->|Hne]; [|left; by apply W3]. right. exists s, s'. split; [done|]. split; [done|].
  unfold s'. destruct b; [apply requireResolved_slot|apply require_slot].
Qed.

Lemma invF_rib fib aw f r :
  (forall sy told, Inv (fun _ => False) fib aw sy told (rf_rib f) -> Inv (fun _ => False) fib aw sy told r) ->
  localRoutes_ r = localRoutes_ (rf_rib f) -> InvF fib aw f -> InvF fib aw (rf_set_rib r f).
Proof. intros Hr Hl [Hi Hlr]. split; [by apply Hr|]. by apply (local_routes_same (rf_rib f)). Qed.

Lemma invF_control fib aw f g :
  InvF fib aw f -> InvF fib aw (rf_upd_rib (fun r => rib_set_control (g r) r) f).
Proof. apply invF_rib; [|done]. intros sy told. by apply inv_frame. Qed.

Definition keeps (g : RibFib -> option RibFib) : Prop :=
  forall fib aw f f', InvF fib aw f -> g f = Some f' -> InvF fib aw f'.

Lemma keeps_routes now peer attrs ids :
  local_pref_set attrs ->
  keeps (fun f => r ← processRibInUpdate now peer attrs ids (rf_rib f); Some (rf_set_rib r f)).
Proof.
  intros Ha fib aw f f' [Hi Hl]. destruct (processRibInUpdate _ _ _ _ _) as [r|] eqn:E; [|done]. intros [= <-].
  destruct (message_inv _ _ _ _ _ _ _ _ _ _ Hi Hl Ha E). by split.
Qed.

Lemma keeps_prepare fullSync : keeps (prepareFibProgramming fullSync).
Proof. intros fib aw f f'. by apply prepare_inv. Qed.

Lemma keeps_mayResume cause : keeps (mayResumeBestPathAndFibProgramming cause).
Proof.
  intros fib aw f f' Hi. unfold mayResumeBestPathAndFibProgramming. destruct (negb _); [by intros [= <-]|].
  destruct (_ && _); [intros [= <-]; by apply invF_control|]. set (c := set_pause _ _ _ _ _).
  set (f1 := rf_upd_rib (fun r => requireAll (rib_set_control c r)) f).
  assert (Hi1 : InvF fib aw f1).
  { apply invF_rib; [|done|done]. intros sy told Hx. eapply flagged_inv; [apply requireAll_flagged|].
    by apply (inv_frame _ _ _ _ _ (rf_rib f)). }
  destruct (negb _); [by intros [= <-]|].
  destruct (prepareFibProgramming _ _) as [f2|] eqn:E; [|done]. cbn [mbind option_bind]. intros [= <-].
  apply invF_control. eapply keeps_prepare; [|exact E]. by apply invF_control.
Qed.

Lemma keeps_resume cause : keeps (processResumeBestPathAndFibProgramming cause).
Proof.
  intros fib aw f f' Hi. unfold processResumeBestPathAndFibProgramming. set (f1 := rf_upd_rib _ f).
  assert (Hi1 : InvF fib aw f1) by (by apply invF_control).
  destruct (negb _); [by intros [= <-]|by apply keeps_mayResume].
Qed.

Lemma keeps_churn detected : keeps (fun f => '(_, f) ← monitorRouteChurn detected f; Some f).
Proof.
  intros fib aw f f' Hi. unfold monitorRouteChurn. set (g := if isRouteChurnDetected _ _ _ _ then _ else _).
  assert (Hg : forall f1, g = Some f1 -> InvF fib aw f1).
  { intros f1. unfold g. destruct (isRouteChurnDetected _ _ _ _); [intros [= <-]; by apply invF_control|].
    destruct (bool_decide _); [by apply keeps_resume|by intros [= <-]]. }
  destruct g as [f1|]; [|done]. intros [= <-]. apply invF_control. by apply Hg.
Qed.

Lemma keeps_runInitial : keeps runInitialPathComputation.
Proof.
  intros fib aw f f' Hi. unfold runInitialPathComputation. destruct (nonempty _); [done|].
  destruct (prepareFibProgramming _ _) as [f1|] eqn:E; [|done]. cbn [mbind option_bind]. intros [= <-].
  apply invF_control. eapply keeps_prepare; [|exact E]. by apply invF_control.
Qed.

Lemma keeps_initial timeout : keeps (processRibInInitialPathComputation timeout).
Proof.
  intros fib aw f f' Hi. unfold processRibInInitialPathComputation. destruct (ribEoRReceived_ _); [by intros [= <-]|].
  destruct (_ && _); [intros [= <-]; by apply invF_control|by apply keeps_runInitial].
Qed.

Lemma keeps_pending : keeps maybeRunPendingInitialPathComputation.
Proof.
  intros fib aw f f' Hi. unfold maybeRunPendingInitialPathComputation.
  do 2 (destruct (negb _); [by intros [= <-]|]). by apply keeps_runInitial.
Qed.

Lemma keeps_timeout : keeps onNexthopResolutionTimeout.
Proof.
  intros fib aw f f' Hi. unfold onNexthopResolutionTimeout. destruct (negb _); [by intros [= <-]|by apply keeps_runInitial].
Qed.

Lemma keeps_syncReq : keeps handleFibSyncReq.
Proof.
  intros fib aw f f' Hi. unfold handleFibSyncReq. destruct (negb _); [by intros [= <-]|].
  destruct (pauseBestPathAndFibProgramming_ _); [intros [= <-]; by apply invF_control|by apply keeps_prepare].
Qed.

(** Next hops change only the flags of entries. *)
Lemma markRoutes_inv fib aw sy told b routes r :
  Inv (fun _ => False) fib aw sy told r ->
  Inv (fun _ => False) fib aw sy told (fold_left (markRoute b) routes r) /\
  localRoutes_ (fold_left (markRoute b) routes r) = localRoutes_ r.
Proof.
  revert r. induction routes as [|q routes IH]; intros r Hi; [done|]. simpl.
  pose proof (markRoute_flagged b r q) as Hm. destruct (IH (markRoute b r q)) as [I1 L1]; [by eapply flagged_inv|].
  split; [done|]. rewrite L1. apply (fl_local _ _ Hm).
Qed.

Lemma statuses_inv fib aw sy told now l x :
  Inv (fun _ => False) fib aw sy told x.2 ->
  Inv (fun _ => False) fib aw sy told (fold_left (processQueuedStatus now) l x).2 /\
  localRoutes_ (fold_left (processQueuedStatus now) l x).2 = localRoutes_ x.2.
Proof.
  revert x. induction l as [|st l IH]; intros [need r] Hi; [done|]. simpl fold_left.
  assert (Hx : Inv (fun _ => False) fib aw sy told (processQueuedStatus now (need, r) st).2 /\
               localRoutes_ (processQueuedStatus now (need, r) st).2 = localRoutes_ r).
  { unfold processQueuedStatus. destruct (processNexthopStatus _ _ _) as [changed t].
    assert (Hf : Inv (fun _ => False) fib aw sy told (rib_set_nexthops t r)) by (by apply (inv_frame _ _ _ _ _ r)).
    destruct changed as [[info b]|]; [|done]. destruct (negb _); [done|]. by apply (markRoutes_inv _ _ _ _ b _ _ Hf). }
  destruct Hx as [I1 L1]. destruct (IH _ I1) as [I2 L2]. split; [exact I2|]. by etransitivity; [exact L2|].
Qed.

Lemma keeps_nexthops now l : keeps (processRibInNexthopUpdate now l).
Proof.
  intros fib aw f f' Hi. unfold processRibInNexthopUpdate. destruct (negb _); [by intros [= <-]|].
  destruct (fold_left _ _ _) as [need r] eqn:E. apply keeps_pending.
  assert (Hr : InvF fib aw (rf_set_rib r f)).
  { pose proof (fun sy told => statuses_inv fib aw sy told now l (false, rf_rib f)) as Hs. rewrite E in Hs. simpl in Hs.
    destruct Hi as [Hi Hl]. destruct (Hs _ _ Hi) as [I1 L1]. split; [done|]. by apply (local_routes_same (rf_rib f)). }
  destruct need; [|done]. by apply (invF_control _ _ (rf_set_rib r f)).
Qed.

(** ** Steps of all *)

(** What a queue of batches will be acknowledged with *)
Fixpoint awaitAll (l : list (FibBatch * bool)) : CIDRNetwork -> option (option NexthopsPtr) :=
  match l with
  | [] => fun _ => None
  | (b, _) :: l => fun p => match awaitFn b p with Some n => Some n | None => awaitAll l p end
  end.

Fixpoint acks_apart (l : list (FibBatch * bool)) : Prop :=
  match l with
  | [] => True
  | (b, _) :: l => acks_known b /\ (forall p n, ackOf b p n -> awaitAll l p = None) /\ acks_apart l
  end.

(** The batches on their way, oldest first *)
Definition flights (w : World) : list (FibBatch * bool) := fromFibMessageQ_ w ++ option_list (w_programming w).

Definition expected (w : World) : option (CIDRNetwork -> option Hops) :=
  match w_programming w with
  | Some (b, isSync) => predict isSync b (w_agent w)
  | None => known (w_agent w)
  end.

Definition winv (w : World) : Prop :=
  fib_ok (w_fib w) /\ acks_apart (flights w) /\ InvF (expected w) (awaitAll (flights w)) (w_rib w).

Lemma acked_elem b p : p ∈ ackedPrefixes b <-> exists n, ackOf b p n.
Proof.
  unfold ackedPrefixes. rewrite list_elem_of_In, in_concat. split.
  - intros (l & Hl & Hin). apply in_map_iff in Hl as ([a m] & <- & Ham). apply in_map_iff in Hin as ([p' n] & <- & Hm).
    exists n, a, m. split; [by apply list_elem_of_In, elem_of_map_to_list in Ham|by apply list_elem_of_In, elem_of_map_to_list in Hm].
  - intros (n & a & m & Ha & Hm). exists (map fst (map_to_list m)). split.
    + apply in_map_iff. exists (a, m). split; [done|]. by apply list_elem_of_In, elem_of_map_to_list.
    + apply in_map_iff. exists (p, n). split; [done|]. by apply list_elem_of_In, elem_of_map_to_list.
Qed.

Lemma awaitAll_none l p : p ∉ concat (map (fun x => ackedPrefixes x.1) l) -> awaitAll l p = None.
Proof.
  induction l as [|[b y] l IH]; [done|]. cbn [map concat awaitAll]. rewrite not_elem_of_app. intros [Hb Hl].
  destruct (awaitFn b p) as [n|] eqn:E; [|by apply IH]. destruct Hb. apply acked_elem. exists n. by apply awaitFn_some.
Qed.

Lemma awaitAll_app l b y p : awaitAll (l ++ [(b, y)]) p = joined (awaitAll l) b p.
Proof.
  unfold joined. induction l as [|[b' y'] l IH]; cbn [app awaitAll]; [by destruct (awaitFn b p)|].
  by destruct (awaitFn b' p).
Qed.

Lemma apart_app l b y :
  acks_apart l -> acks_known b -> (forall p n, ackOf b p n -> awaitAll l p = None) -> acks_apart (l ++ [(b, y)]).
Proof.
  intros Hl Hk Hb. induction l as [|[b' y'] l IH]; cbn [app acks_apart]; [done|].
  destruct Hl as (K1 & K2 & K3). assert (Hb' : forall p n, ackOf b p n -> awaitFn b' p = None /\ awaitAll l p = None).
  { intros p n Ha. specialize (Hb p n Ha). cbn [awaitAll] in Hb. by destruct (awaitFn b' p). }
  split_and!; [done| |by apply IH; [|intros p n Ha; apply (Hb' p n Ha)]].
  intros p n Ha. rewrite awaitAll_app. unfold joined. rewrite (K2 p n Ha).
  destruct (awaitFn b p) as [m|] eqn:E; [|done]. apply awaitFn_some, Hb' in E as [E _].
  apply K1 in Ha. congruence.
Qed.

Lemma apart_prefix l x : acks_apart (l ++ [x]) -> acks_apart l.
Proof.
  induction l as [|[b y] l IH]; [done|]. cbn [app acks_apart]. intros (K1 & K2 & K3). split_and!; [done| |by apply IH].
  intros p n Ha. specialize (K2 p n Ha). destruct x as [bx yx]. rewrite awaitAll_app in K2. unfold joined in K2.
  by destruct (awaitAll l p).
Qed.

Lemma onRib_winv g w w' : keeps g -> winv w -> onRib g w = Some w' -> winv w'.
Proof.
  intros Hg (Hf & Ha & Hi). unfold onRib. destruct (g (w_rib w)) as [f|] eqn:E; [|done]. cbn [mbind option_bind].
  intros [= <-]. split_and!; [done..|]. by eapply Hg.
Qed.

(** The routes of the agent are no longer known, and a batch on its way is lost. *)
Lemma inv_lost todo fib aw aw' sy told r :
  (forall p n, aw' p = Some n -> aw p = Some n) -> Inv todo fib aw sy told r -> Inv todo None aw' sy told r.
Proof. intros Ha [J1 J2 J3 J4 J5 J6 J7 J8 J9]. split; try done. intros p n Hn. by apply J8, Ha. Qed.

Lemma invF_lost fib aw aw' f :
  (forall p n, aw' p = Some n -> aw p = Some n) -> InvF fib aw f -> InvF None aw' f.
Proof. intros Ha [Hi Hl]. split; [by eapply inv_lost|done]. Qed.

Lemma keepAlive_connected status x y : client_ x.1 = true -> keepAliveStep status x = Some y ->
  (client_ y.1 = true /\ batch_ y.1 = batch_ x.1 /\ y.2 = x.2) \/
  (client_ y.1 = false /\ batch_ y.1 = None /\ y.2 = None).
Proof.
  destruct x as [fib agent]. unfold keepAliveStep, keepAlive. simpl. intros Ec. rewrite Ec. cbn [mbind option_bind].
  destruct status as [|since configured]; [intros [= <-]; by right|]. cbn [mbind option_bind].
  destruct (bool_decide _ || _); [intros [= <-]; by left|].
  destruct (clearHoldDownState _) as [cleared h]. intros [= <-]. by left.
Qed.

Lemma keepAlive_ok status x y : fib_ok x.1 -> keepAliveStep status x = Some y ->
  fib_ok y.1 /\ (y.2 = x.2 \/ y.2 = None).
Proof.
  intros Hf E. destruct (client_ x.1) eqn:Ec.
  { unfold fib_ok in *. rewrite Ec in Hf.
    destruct (keepAlive_connected _ _ _ Ec E) as [(-> & -> & ->)|(-> & -> & ->)]; split; auto. }
  unfold fib_ok in Hf. rewrite Ec in Hf.
  assert (Hs : keepAliveStep status x = keepAliveStep status
    (mkFibFboss true (Some newBatch) (initialFibSynced_ x.1) (agentAliveSince_ x.1) (fullSynced_ x.1)
       (programmingHistory_ x.1) (holdDownState_ x.1), x.2)).
  { unfold keepAliveStep, keepAlive, connectAgent. simpl. by rewrite Ec, Hf. }
  rewrite Hs in E. apply keepAlive_connected in E; [|done]. unfold fib_ok.
  by destruct E as [(-> & -> & ->)|(-> & -> & ->)]; split; auto.
Qed.

Lemma handsAnew_spec w p : handsAnew w = true -> p ∈ fibBatchList_ (rf_rib (w_rib w)) -> p ∉ unread w.
Proof.
  unfold handsAnew. rewrite forallb_forall. intros Hn Hp. specialize (Hn p ltac:(by apply list_elem_of_In)).
  by apply negb_true_iff, bool_decide_eq_false in Hn.
Qed.

Lemma fibTurn_winv status w w' : handsAnew w = true -> winv w -> fibTurn status w = Some w' -> winv w'.
Proof.
  intros Hnew (Hf & Ha & Hi). unfold fibTurn. destruct (w_programming w) as [x|] eqn:Ew; [done|].
  unfold flights, expected in Ha, Hi. rewrite Ew in Ha, Hi. cbn [option_list] in Ha, Hi. rewrite app_nil_r in Ha, Hi.
  destruct (toFibMessageQ_ (w_rib w)) as [|x q]; [done|]. clear x q.
  destruct (processFibProgrammingMsgs (w_rib w) (w_fib w)) as [[call f] fib] eqn:E.
  assert (Hn : forall p, p ∈ fibBatchList_ (rf_rib (w_rib w)) -> awaitAll (fromFibMessageQ_ w) p = None).
  { intros p Hp. by apply awaitAll_none, (handsAnew_spec w p Hnew). }
  pose proof (turn_inv _ _ _ _ _ _ _ Hi Hn Hf E) as Ht. unfold winv, flights, expected. destruct call as [isSync|]; cycle 1.
  { intros [= <-]. destruct Ht. simpl. by rewrite app_nil_r. }
  destruct Ht as (b & Hc & Hb & Hk & Hkn & Hi').
  set (o := match status with Some s => _ | None => _ end).
  assert (Ho : forall y, o = Some y -> (client_ y.1 = true /\ batch_ y.1 = Some b /\ y.2 = w_agent w) \/
                                       (client_ y.1 = false /\ batch_ y.1 = None)).
  { intros y. unfold o. destruct status as [st|]; [|intros [= <-]; by left]. intros Ey.
    destruct (keepAlive_connected st (fib, w_agent w) y Hc Ey) as [(Y1 & Y2 & Y3)|(Y1 & Y2 & Y3)]; [left|by right].
    split; [done|]. split; [by rewrite Y2|done]. }
  destruct o as [[fib1 agent]|]; [|done]. cbn [mbind option_bind]. unfold programStart.
  destruct (Ho _ eq_refl) as [(Y1 & Y2 & Y3)|[Y1 Y2]]; simpl in *; rewrite Y1; cbn [negb]; rewrite ?Y2; intros [= <-].
  - split; [unfold fib_ok; simpl; by rewrite Y1|]. simpl. rewrite Y3. split; [by apply apart_app|].
    destruct Hi' as [Hi' Hl']. split; [|done]. eapply inv_await_ext; [|exact Hi']. intros p. apply awaitAll_app.
  - split; [unfold fib_ok; simpl; by rewrite Y1|]. simpl. rewrite app_nil_r. split; [done|].
    eapply invF_lost; [|exact Hi']. intros p n Hp. unfold joined. by rewrite Hp.
Qed.

(** The attributes of a route carry a local preference. *)
Definition event_ok (e : Event) : Prop :=
  match e with RoutesIn _ _ attrs _ => local_pref_set attrs | _ => True end.

(** The agent answers. *)
Lemma agentDone_winv w w' : winv w -> wstep AgentDone w = Some w' -> winv w'.
Proof.
  intros (Hf & Ha & Hi). cbn [wstep]. unfold winv, flights, expected in *.
  destruct (w_programming w) as [[b isSync]|]; [|done]. intros [= <-]. simpl in *. rewrite app_nil_r.
  split_and!; [done..|]. by destruct isSync, (w_agent w).
Qed.

Lemma agentFails_winv done_ w w' : winv w -> wstep (AgentFails done_) w = Some w' -> winv w'.
Proof.
  intros (Hf & Ha & Hi). cbn [wstep]. unfold winv, flights, expected in *.
  destruct (w_programming w) as [[b isSync]|]; [|done]. intros [= <-]. simpl in *. rewrite app_nil_r.
  split; [done|]. split; [by eapply apart_prefix|]. eapply invF_lost; [|exact Hi].
  intros p n Hp. rewrite awaitAll_app. unfold joined. by rewrite Hp.
Qed.

(** The RIB reads an acknowledgement. *)
Lemma fibProgrammed_winv w w' : winv w -> wstep FibProgrammed w = Some w' -> winv w'.
Proof.
  intros (Hf & Ha & Hi). cbn [wstep]. unfold winv, flights in *.
  destruct (fromFibMessageQ_ w) as [|[b isSync] q]; [done|]. cbn [app acks_apart] in Ha. destruct Ha as (K1 & K2 & K3).
  destruct (handleFibProgrammedMessage _ _ _) as [f|] eqn:E; [|done]. cbn [mbind option_bind]. intros [= <-].
  split_and!; [done..|]. simpl. eapply handleFib_inv; [exact Hi| |intros p Hp; simpl; by rewrite Hp|exact E].
  intros p n Hn. split; [|by eapply K2]. simpl. by rewrite (K1 p n Hn).
Qed.

Lemma keepAlive_winv status w w' : winv w -> wstep (KeepAlive status) w = Some w' -> winv w'.
Proof.
  intros (Hf & Ha & Hi). cbn [wstep]. unfold winv, flights, expected in *.
  destruct (w_programming w) as [x|]; [done|]. simpl in *.
  destruct (keepAliveStep _ _) as [[fib agent]|] eqn:E; [|done].
  destruct (keepAlive_ok _ (w_fib w, w_agent w) _ Hf E) as [Hf' Hag]. intros [= <-]. simpl in *. split_and!; [done..|].
  destruct Hag as [->| ->]; [done|]. by eapply invF_lost.
Qed.

Lemma agentRestarts_winv w w' : winv w -> wstep AgentRestarts w = Some w' -> winv w'.
Proof.
  intros (Hf & Ha & Hi). cbn [wstep]. unfold winv, flights, expected in *.
  destruct (w_programming w) as [x|]; [done|]. simpl in *. intros [= <-]. split_and!; [done..|]. by eapply invF_lost.
Qed.

Lemma wstep_winv e w w' :
  event_ok e -> match e with FibTurn _ => handsAnew w | _ => true end = true ->
  winv w -> wstep e w = Some w' -> winv w'.
Proof.
  intros He Hn Hw.
  destruct e; try exact (agentDone_winv _ _ Hw); try exact (fibProgrammed_winv _ _ Hw); try exact (agentRestarts_winv _ _ Hw);
    try exact (agentFails_winv _ _ _ Hw); try exact (keepAlive_winv _ _ _ Hw); cbn [wstep];
    try (apply onRib_winv; [|done]; by auto using keeps_routes, keeps_nexthops, keeps_initial, keeps_timeout,
           keeps_resume, keeps_churn, keeps_syncReq).
  - apply onRib_winv; [|done]. intros fib aw f f' Hi [= <-]. apply invF_rib; [|done|done].
    intros sy told. by apply inv_frame.
  - apply onRib_winv; [|done]. intros fib aw f f' Hi [= <-]. by apply invF_control.
  - apply onRib_winv; [|done]. intros fib aw f f' Hi. apply keeps_mayResume. by apply invF_control.
  - apply onRib_winv; [|done]. intros fib aw f f' Hi. apply keeps_prepare. by apply invF_control.
  - apply onRib_winv; [|done]. by intros fib aw f f' Hi [= <-].
  - by apply fibTurn_winv.
Qed.

Lemma wrun_winv es w w' : Forall event_ok es -> apart es w = true -> winv w -> wrun es w = Some w' -> winv w'.
Proof.
  intros Hes. revert w. induction Hes as [|e es He Hes IH]; intros w Hap Hw; cbn [wrun]; [by intros [= <-]|].
  cbn [apart] in Hap. apply andb_true_iff in Hap as [Hn Hap].
  destruct (wstep e w) as [w1|] eqn:E; [|done]. cbn [mbind option_bind]. apply IH; [done|]. by eapply wstep_winv.
Qed.

(** ** From the start *)

(** Everything before its first event; the routes the agent has are not known. *)
Definition fresh (w : World) : Prop :=
  ribEntries_ (rf_rib (w_rib w)) = ∅ /\ fibBatchList_ (rf_rib (w_rib w)) = [] /\ rf_pushed (w_rib w) = [] /\
  toFibMessageQ_ (w_rib w) = [] /\ local_routes_ok (rf_rib (w_rib w)) /\ w_fib w = newFibFboss /\
  w_programming w = None /\ fromFibMessageQ_ w = [] /\ w_agent w = None.

Lemma fresh_winv w : fresh w -> winv w.
Proof.
  intros (He & Hb & Hp & Hq & Hl & Hf & Hg & Hu & Ha). unfold winv, flights, expected. rewrite Hf, Hg, Hu, Ha.
  split; [done|]. split; [done|]. split; [|done]. simpl.
  assert (Hn : forall p, findSlot p (rf_rib (w_rib w)) = None) by (intros p; unfold findSlot; by rewrite He, lookup_empty).
  assert (Hc : forall p, pic (rf_rib (w_rib w)) p = None) by (intros p; unfold pic; by rewrite Hn).
  rewrite Hp, Hq. split.
  - split; intros p s; by rewrite Hn.
  - intros p s. by rewrite Hn.
  - rewrite Hb. by intros p ?%elem_of_nil.
  - done.
  - done.
  - done.
  - intros p. by rewrite Hc.
  - done.
  - by intros [? ?].
Qed.

Lemma run_winv es w0 w :
  fresh w0 -> Forall event_ok es -> apart es w0 = true -> wrun es w0 = Some w -> winv w.
Proof. intros Hf He Ha Hr. eapply wrun_winv; [done..| |done]. by apply fresh_winv. Qed.

(** C13. The FIB mirrors the RIB: after any run of route, next hop, timer, pause and agent
    events in which no prefix is handed to the FIB again while an acknowledgement that names
    it is unread, when no batch is with the agent and nothing happened to it since the last
    complete synchronization, the agent has for every prefix that does not wait in
    [fibBatchList_] exactly the next hops, weights and backup the RIB selected for it, and
    no route for a prefix without selected next hops or not to be installed. *)
Theorem fib_mirrors_rib es w0 w t :
  fresh w0 -> Forall event_ok es -> apart es w0 = true -> wrun es w0 = Some w ->
  w_agent w = Some t -> w_programming w = None ->
  let r := rf_rib (w_rib w) in
  forall p, p ∉ fibBatchList_ r ->
    hopsOf <$> t !! p = (s ← findSlot p r; wantedHops (rib_heap r) p (sl_entry s)).
Proof.
  intros Hfresh Hes Hap Hrun Ht Hfl r p Hp. destruct (run_winv _ _ _ Hfresh Hes Hap Hrun) as (_ & _ & Hi & _).
  unfold expected in Hi. rewrite Hfl, Ht in Hi.
  rewrite (iv_fib _ _ _ _ _ _ Hi _ eq_refl p) by tauto. unfold pic. fold r. by destruct (findSlot p r).
Qed.

(** C14. The peers follow the best paths: after a run as in C13 a prefix that the messages
    out announced and did not withdraw since always has an entry that was handed to the FIB
    and has a best path; when no batch is with the agent and its routes are known, what was
    announced is the selected best path of every prefix that neither waits in
    [fibBatchList_] nor is named by an unread acknowledgement, announced if there is one
    and withdrawn if there is none. *)
Theorem peers_follow_best_paths es w0 w :
  fresh w0 -> Forall event_ok es -> apart es w0 = true -> wrun es w0 = Some w ->
  let r := rf_rib (w_rib w) in
  (forall p v, toldBy (rf_pushed (w_rib w)) p = Some v -> exists s, findSlot p r = Some s /\
     sl_hasFibOutState s = true /\ re_bestpath (sl_entry s) <> None) /\
  (w_programming w = None -> w_agent w <> None -> forall p, p ∉ fibBatchList_ r -> p ∉ unread w ->
     toldBy (rf_pushed (w_rib w)) p = (s ← findSlot p r; toldOf (rib_heap r) <$> re_bestpath (sl_entry s))).
Proof.
  intros Hfresh Hes Hap Hrun r. destruct (run_winv _ _ _ Hfresh Hes Hap Hrun) as (_ & _ & Hi & _). split.
  - intros p v. rewrite (iv_told _ _ _ _ _ _ Hi). unfold pic. fold r. destruct (findSlot p r) as [s|] eqn:Es; [|done].
    simpl. intros Ev. exists s. split; [done|]. pose proof (iv_slots _ _ _ _ _ _ Hi _ _ Es) as So.
    destruct (re_advertisedBestpath (sl_entry s)) as [q|] eqn:Ea; [|done]. split.
    + destruct (sl_hasFibOutState s) eqn:Eh; [done|]. rewrite (so_fib _ _ So Eh) in Ea. done.
    + intros Eb. apply (so_null _ _ So), (so_gone _ _ So) in Eb. congruence.
  - intros Hg Ha p Hp Hu. rewrite (iv_told _ _ _ _ _ _ Hi).
    destruct (pic (rf_rib (w_rib w)) p) as [c|] eqn:Ec.
    + simpl. rewrite (iv_settled _ _ _ _ _ _ Hi) with (p := p); [|..|done].
      * revert Ec. unfold pic. fold r. destruct (findSlot p r) as [s|]; [|done]. by intros [= <-].
      * unfold expected. rewrite Hg. by destruct (w_agent w); simpl; eauto.
      * tauto.
      * unfold flights. rewrite Hg, app_nil_r. by apply awaitAll_none.
    + revert Ec. unfold pic. fold r. by destruct (findSlot p r).
Qed.

(** C15. The FIB catches up: in any state a run as in C13 reaches where no batch is with the
    agent and no unread acknowledgement names a waiting prefix, the agent is connected and
    either a full synchronization is asked for or the known routes of the agent need an
    update, one turn of the loop that the agent serves leaves it with exactly the routes
    the RIB wants, for every prefix. *)
Theorem fib_catches_up es w0 w :
  fresh w0 -> Forall event_ok es -> apart es w0 = true -> wrun es w0 = Some w ->
  w_programming w = None -> handsAnew w = true -> client_ (w_fib w) = true -> toFibMessageQ_ (w_rib w) <> [] ->
  true ∈ toFibMessageQ_ (w_rib w) \/
    (fullSynced_ (w_fib w) = true /\ w_agent w <> None /\ fibBatchList_ (rf_rib (w_rib w)) <> []) ->
  exists w' t, wrun [FibTurn None; AgentDone] w = Some w' /\ w_agent w' = Some t /\
    let r := rf_rib (w_rib w') in
    fibBatchList_ r = [] /\
    forall p, hopsOf <$> t !! p = (s ← findSlot p r; wantedHops (rib_heap r) p (sl_entry s)).
Proof.
  intros Hfresh Hes Hap Hrun Hg Hnew Hc Hq Hs. destruct (run_winv _ _ _ Hfresh Hes Hap Hrun) as (Hf & _ & Hi).
  unfold expected, flights in Hi. rewrite Hg, app_nil_r in Hi.
  assert (Hn : forall p, p ∈ fibBatchList_ (rf_rib (w_rib w)) -> awaitAll (fromFibMessageQ_ w) p = None).
  { intros p Hp. by apply awaitAll_none, (handsAnew_spec w p Hnew). }
  destruct (processFibProgrammingMsgs (w_rib w) (w_fib w)) as [[call f] fib] eqn:E.
  pose proof (turn_inv _ _ _ _ _ _ _ Hi Hn Hf E) as Ht.
  assert (Hcall : call = Some (existsb id (toFibMessageQ_ (w_rib w))) /\ fibBatchList_ (rf_rib f) = [] /\
                  (existsb id (toFibMessageQ_ (w_rib w)) = false -> w_agent w <> None)).
  { revert E. unfold processFibProgrammingMsgs, fibIsConnected, fibIsFullSynced. rewrite Hc. cbn [negb].
    set (sy := existsb id _). cbn [rf_rib].
    assert (Hsy : sy = true \/ sy = false /\ fullSynced_ (w_fib w) = true /\ w_agent w <> None /\ fibBatchList_ (rf_rib (w_rib w)) <> []).
    { destruct Hs as [Hs|Hs]; [left; apply existsb_exists; exists true; by split; [apply list_elem_of_In|]|].
      destruct sy; [by left|by right]. }
    destruct (stageEntries _ _) as [r1 fib1].
    destruct Hsy as [->|(-> & -> & Ha & Hb)]; cbn [negb andb orb]; rewrite ?andb_false_r; intros [= <- <- <-].
    - done.
    - split; [|done]. by destruct (fibBatchList_ _). }
  destruct Hcall as (-> & Hb & Hag). set (sy := existsb id _) in *.
  destruct Ht as (b & Hc' & Hb' & Hk & _ & Hi').
  set (w' := mkWorld f (programDone sy b (ff_set_batch (Some newBatch) fib)) None (fromFibMessageQ_ w ++ [(b, sy)])
               (if sy then Some (applyCalls (programCalls true b) ∅) else applyCalls (programCalls false b) <$> w_agent w)).
  assert (Hw' : wrun [FibTurn None; AgentDone] w = Some w').
  { cbn [wrun wstep]. unfold fibTurn. rewrite Hg. destruct (toFibMessageQ_ (w_rib w)); [done|]. rewrite E.
    cbn [mbind option_bind]. unfold programStart. by rewrite Hc', Hb'. }
  assert (Ht : exists t, w_agent w' = Some t).
  { simpl. destruct sy; [eauto|]. destruct (w_agent w); [simpl; eauto|by destruct (Hag eq_refl)]. }
  destruct Ht as [t Ht]. exists w', t. split; [done|]. split; [done|]. split; [done|]. intros p.
  assert (Hv : InvF (known (w_agent w')) (joined (awaitAll (fromFibMessageQ_ w)) b) f) by (simpl; by destruct sy, (w_agent w)).
  destruct Hv as [Hv _]. rewrite Ht in Hv. rewrite (iv_fib _ _ _ _ _ _ Hv _ eq_refl p).
  - unfold pic. simpl. by destruct (findSlot p (rf_rib f)).
  - rewrite Hb. intros [?%elem_of_nil|[]]. done.
Qed.
End World.
