(* ===== verification/RibExamples.v ===== *)
(** * Runs of the RIB and the FIB

    Concrete inputs for the theorems about the RIB, and runs that show what the code does
    in corners the theorems leave out. *)

From stdpp Require Import gmap strings fin_sets.
From Stdlib Require Import SpecFloat.
From S2P Require Import Prelude BgpException Folly BgpStructs RouteFilter RouteInfo RouteSelector RibEntry Ucmp.
From S2P Require Import PathSelection PathFields AdjRibCommon PackingList AdjRibOut MapSum NexthopCache.
From S2P Require Import InterfaceEntry NetlinkWrapper NetlinkExamples.
From S2P Require Import RibNexthop RibCounters Rib RibSpec RibPaths FibFboss RibFib RibFibSel RibFibInv RibFibPrepare.
From S2P Require Import RibFibStage RibFibAck RibFibSpec.

(** ** A RIB with one aggregate *)

#[local] Instance rib_config : RibConfig := {| enableNexthopTracking_ := false; hasNexthopRequester := false |}.
#[local] Instance rib_base_config : RibBaseConfig := {|
  countConfedsInAsPathLen := false;
  computeUcmpFromLbwComm := false;
  ucmpWidth_ := 64;
  ucmpQuantizer_ := None;
  bestpathFeatures := @features sample_context;
  ribOutQHighWatermark_ := 1000;
  highWatermarkForRouteChurn_ := 1000;
  lowWatermarkForRouteChurn_ := 100;
  getBackupAddr _ := None;
  hasConditionalLocalRoutes := false
|}.
#[local] Instance agent_types : AgentTypes := {| topologyFields := ∅ |}.

Definition net8 : CIDRNetwork := (IPV4 [10; 0; 0; 0], 8).
Definition net16 (i : Z) : CIDRNetwork := (IPV4 [10; i; 0; 0], 16).
Definition aggregates : gmap CIDRNetwork LocalRoute :=
  {[ net8 := mkLocalRoute 2 true false 0 (50%positive, sample_path 100 0 []) ]}.

Definition emptyControl : RibControl := mkControl false false false false None false false ∅ false false 0 0.
Definition emptyRib : Rib :=
  mkRib (mkHeap sample_heap 1%positive (fun _ => [])) ∅ aggregates (newNexthopTable newNexthopCache) newRibCounters []
    1 0 emptyControl [].
Definition startWorld : World := mkWorld (mkRibFib emptyRib [] 0 []) newFibFboss None [] None.

(** A path of the peer [n] *)
Definition peerPath (n : positive) (localPref : Z) : option (ptr * BgpPath) :=
  Some (n, mkPath 0 [mkSegment [] [65001; 65002] [] []] (IPV4 [10; 9; 0; Zpos n]) true 0 (Some localPref) 0 [] 0 None None).
Definition announce (n : positive) (localPref : Z) (nets : list Z) : RibInRoutes :=
  mkRibIn 0 (sample_peer (Zpos n) (Zpos n)) (peerPath n localPref) (map (fun i => (net16 i, 0)) nets).
Definition withdraw (n : positive) (nets : list Z) : RibInRoutes :=
  mkRibIn 0 (sample_peer (Zpos n) (Zpos n)) None (map (fun i => (net16 i, 0)) nets).

Definition messages : list RibInRoutes := [announce 1 100 [1; 2]; announce 2 100 [1; 3]; withdraw 1 [1; 2]].

Lemma computed {A} (o : option A) (d : A) : isNone o = false -> o = Some (default d o).
Proof. by destruct o. Qed.

Lemma aggregates_lookup (L : CIDRNetwork) lr : aggregates !! L = Some lr -> lr = mkLocalRoute 2 true false 0 (50%positive, sample_path 100 0 []).
Proof. unfold aggregates. intros E. by apply lookup_singleton_Some in E as [_ <-]. Qed.

Lemma emptyRib_initial : initial aggregates emptyRib.
Proof. split; [done|]. split; [done|]. by intros L lr ->%aggregates_lookup. Qed.

Lemma messages_acceptable : acceptable aggregates messages.
Proof.
  split; [by intros L lr ->%aggregates_lookup|]. split; [|done].
  repeat constructor; simpl; try done; intros E; vm_compute in E; discriminate E.
Qed.

(** The first peer's paths are withdrawn, the second peer's are there, and so is the
    aggregate, with two routes within it. *)
Lemma rib_paths_follow_messages_witness :
  exists r, processMessages messages emptyRib = Some r /\
    ribPath r (net16 1) (IPV4 [192; 0; 2; 2], 2) 0 = Some 2%positive /\
    ribPath r (net16 2) (IPV4 [192; 0; 2; 1], 1) 0 = None.
Proof.
  destruct (rib_paths_follow_messages aggregates messages emptyRib emptyRib_initial messages_acceptable)
    as (r & Hr & _ & Hp).
  exists r. split; [exact Hr|]. split.
  - rewrite Hp; [reflexivity|]. right. discriminate.
  - rewrite Hp; [reflexivity|]. right. discriminate.
Defined.

Lemma aggregates_follow_support_witness :
  exists r, processMessages messages emptyRib = Some r /\
    lr_supportPfxCnt <$> localRoutes_ r !! net8 = Some 2 /\
    ribPath r net8 localPeerId kDefaultPathID = Some 50%positive.
Proof.
  destruct (aggregates_follow_support aggregates messages emptyRib emptyRib_initial messages_acceptable)
    as (r & Hr & Hp).
  exists r. split; [exact Hr|].
  destruct (Hp net8 (mkLocalRoute 2 true false 0 (50%positive, sample_path 100 0 [])) eq_refl) as [H1 H2].
  split; [rewrite H1; reflexivity|rewrite H2; reflexivity].
Defined.

(** ** A first synchronization and an update *)

Definition routesIn (m : RibInRoutes) : Event := RoutesIn (in_time m) (in_peer m) (in_attrs m) (in_routes m).
Definition served : list Event := [FibTurn None; AgentDone; FibProgrammed].
Definition firstSync : list Event :=
  [KeepAlive (AgentAlive 7 true)] ++ map routesIn messages ++ [InitialPathComputation 0] ++ served.
(** The aggregate and one route go. *)
Definition secondUpdate : list Event := [routesIn (withdraw 2 [3]); BatchTimer].
(** Two routes come and go in batches of their own, each started before the acknowledgement of
    the one before is read. *)
Definition overlapping : list Event :=
  [routesIn (announce 2 100 [5]); BatchTimer; FibTurn None; AgentDone;
   routesIn (announce 2 100 [6]); BatchTimer; FibTurn None; FibProgrammed; AgentDone;
   routesIn (withdraw 2 [5]); BatchTimer; FibTurn None; AgentDone; FibProgrammed; FibProgrammed;
   routesIn (withdraw 2 [6]); BatchTimer] ++ served.
Definition toUpdate : list Event := firstSync ++ overlapping ++ secondUpdate.
Definition updated : World := default startWorld (wrun (toUpdate ++ served) startWorld).
Definition updating : World := default startWorld (wrun toUpdate startWorld).

Lemma startWorld_fresh : fresh startWorld.
Proof. repeat split. by intros L lr ->%aggregates_lookup. Qed.

Lemma updated_ok : Forall event_ok (toUpdate ++ served).
Proof. repeat constructor; simpl; done. Qed.

Lemma updating_ok : Forall event_ok toUpdate.
Proof. repeat constructor; simpl; done. Qed.

Lemma updated_apart : apart (toUpdate ++ served) startWorld = true.
Proof. by vm_compute. Qed.

Lemma updating_apart : apart toUpdate startWorld = true.
Proof. by vm_compute. Qed.

Lemma updated_run : wrun (toUpdate ++ served) startWorld = Some updated.
Proof. apply computed. by vm_compute. Qed.

Lemma updating_run : wrun toUpdate startWorld = Some updating.
Proof. apply computed. by vm_compute. Qed.

(** One route is left. *)
Lemma fib_mirrors_rib_witness :
  let r := rf_rib (w_rib updated) in
  exists t, w_agent updated = Some t /\ (hopsOf <$> t !! net16 1) = Some [(IPV4 [10; 9; 0; 2], 0, PRIMARY)] /\
    forall p, hopsOf <$> t !! p = (s ← findSlot p r; wantedHops (rib_heap r) p (sl_entry s)).
Proof.
  intros r. exists (default ∅ (w_agent updated)).
  assert (Ha : w_agent updated = Some (default ∅ (w_agent updated))) by (apply computed; vm_compute; reflexivity).
  split; [exact Ha|]. split; [vm_compute; reflexivity|]. intros p.
  apply (fib_mirrors_rib _ startWorld updated _ startWorld_fresh updated_ok updated_apart updated_run Ha).
  - vm_compute; reflexivity.
  - assert (Hb : fibBatchList_ (rf_rib (w_rib updated)) = []) by (vm_compute; reflexivity). rewrite Hb. apply not_elem_of_nil.
Defined.

Lemma peers_follow_best_paths_witness :
  let r := rf_rib (w_rib updated) in
  toldBy (rf_pushed (w_rib updated)) (net16 1) <> None /\ toldBy (rf_pushed (w_rib updated)) net8 = None /\
  forall p, toldBy (rf_pushed (w_rib updated)) p = (s ← findSlot p r; toldOf (rib_heap r) <$> re_bestpath (sl_entry s)).
Proof.
  intros r. split; [vm_compute; discriminate|]. split; [vm_compute; reflexivity|]. intros p.
  apply (peers_follow_best_paths _ startWorld updated startWorld_fresh updated_ok updated_apart updated_run).
  - vm_compute; reflexivity.
  - vm_compute; discriminate.
  - assert (Hb : fibBatchList_ (rf_rib (w_rib updated)) = []) by (vm_compute; reflexivity). rewrite Hb. apply not_elem_of_nil.
  - assert (Hb : unread updated = []) by (vm_compute; reflexivity). rewrite Hb. apply not_elem_of_nil.
Defined.

Lemma fib_catches_up_witness :
  exists w' t, wrun [FibTurn None; AgentDone] updating = Some w' /\ w_agent w' = Some t /\
    let r := rf_rib (w_rib w') in
    forall p, hopsOf <$> t !! p = (s ← findSlot p r; wantedHops (rib_heap r) p (sl_entry s)).
Proof.
  destruct (fib_catches_up _ startWorld updating startWorld_fresh updating_ok updating_apart updating_run)
    as (w' & t & H1 & H2 & _ & H3).
  - vm_compute; reflexivity.
  - vm_compute; reflexivity.
  - vm_compute; reflexivity.
  - vm_compute; discriminate.
  - right. split; [vm_compute; reflexivity|]. split; vm_compute; discriminate.
  - exists w', t. split; [exact H1|]. split; [exact H2|exact H3].
Defined.

(** ** Corners *)

(** A route selected and withdrawn before its first batch: the entry is erased, but the
    counter of best paths by source keeps it, and exceeds the number of prefixes. *)
Definition v4Counters (w : World) : AfiCounters := afi_v4 (ribCounters_ (rf_rib (w_rib w))).

Lemma erased_entry_stays_counted :
  option_map (fun w => (totalPrefixes (v4Counters w), withBestpath (v4Counters w)))
    (wrun (firstSync ++ [routesIn (announce 2 100 [5]); BatchTimer; routesIn (withdraw 2 [5])]) startWorld)
  = Some (3, 4).
Proof. vm_compute. reflexivity. Qed.

(** A batch that deletes a route is done, the next one, that adds it again, starts before
    the first is acknowledged to the RIB, and the route is withdrawn in between: the first
    acknowledgement erases the entry, the second batch installs the route, and the RIB no
    longer knows of it.  The run hands over a prefix that an unread acknowledgement names. *)
Definition overlappingBatches : list Event :=
  firstSync ++ secondUpdate ++
  [FibTurn None; routesIn (announce 2 100 [3]); BatchTimer; AgentDone; FibTurn None; routesIn (withdraw 2 [3]);
   FibProgrammed; AgentDone; FibProgrammed; BatchTimer].

Lemma overlapping_batches_leave_route :
  apart overlappingBatches startWorld = false /\
  option_map (fun w => (findSlot (net16 3) (rf_rib (w_rib w)) , fibBatchList_ (rf_rib (w_rib w)),
                        (fun t => hopsOf <$> t !! net16 3) <$> w_agent w)) (wrun overlappingBatches startWorld)
  = Some (None, [], Some (Some [(IPV4 [10; 9; 0; 2], 0, PRIMARY)])).
Proof. vm_compute. split; reflexivity. Qed.

(** With next hop tracking: the only next hop goes and comes back. *)
Definition tracking_config : RibConfig := {| enableNexthopTracking_ := true; hasNexthopRequester := false |}.
Definition tracking_base : RibBaseConfig := {|
  countConfedsInAsPathLen := false;
  computeUcmpFromLbwComm := false;
  ucmpWidth_ := 64;
  ucmpQuantizer_ := None;
  bestpathFeatures := mkFeatures true true true true false false;
  ribOutQHighWatermark_ := 1000;
  highWatermarkForRouteChurn_ := 1000;
  lowWatermarkForRouteChurn_ := 100;
  getBackupAddr _ := None;
  hasConditionalLocalRoutes := false
|}.
Definition onlyNexthop (reachable : bool) (epoch : Z) : CachedStatus :=
  mkCachedStatus (newNexthopStatus (IPV4 [10; 9; 0; 2]) reachable (Some 10) None true) None epoch.
Definition trackingWorld : World :=
  mkWorld
    (mkRibFib (mkRib (mkHeap sample_heap 1%positive (fun _ => [])) ∅ ∅
                 (newNexthopTable (mkCache {[ IPV4 [10; 9; 0; 2] := (onlyNexthop true 1, false) ]} 1))
                 newRibCounters [] 1 0 emptyControl []) [] 0 [])
    newFibFboss None [] None.
Definition nexthopGoesAndComes : list Event :=
  [KeepAlive (AgentAlive 7 true); routesIn (announce 2 100 [3]); InitialPathComputation 0] ++ served ++
  [CacheWritten [onlyNexthop false 0]; NexthopsIn 0 [onlyNexthop false 2]; BatchTimer] ++ served ++
  [CacheWritten [onlyNexthop true 0]; NexthopsIn 0 [onlyNexthop true 3]; BatchTimer] ++ served.

(** The messages out, as prefixes with announced or withdrawn *)
Definition heard (msg : RibOutMessage) : list (bool * CIDRNetwork) * list (bool * CIDRNetwork) :=
  match msg with
  | RibOutAnnouncement entries _ _ addPath =>
      (map (fun x => (true, ro_prefix x)) entries, map (fun x => (true, ro_prefix x)) addPath)
  | RibOutWithdrawal entries addPath =>
      (map (fun x => (false, rw_prefix x)) entries, map (fun x => (false, rw_prefix x)) addPath)
  | RibInitialAnnouncementStart => ([], [])
  end.

(** The peers that take one path hear of the route again, those that take all do not. *)
Lemma add_path_not_announced_again :
  option_map (fun w => (concat (map (fun m => (heard m).1) (rf_pushed (w_rib w))),
                        concat (map (fun m => (heard m).2) (rf_pushed (w_rib w)))))
    (@wrun _ tracking_config tracking_base _ nexthopGoesAndComes trackingWorld)
  = Some ([(true, net16 3); (false, net16 3); (true, net16 3)], [(true, net16 3); (false, net16 3)]).
Proof. vm_compute. reflexivity. Qed.

(** Three equal paths with link bandwidths and a width of one: every weight rounds to
    zero, the FIB has no route, and the peers are told of it. *)
Definition narrow_base : RibBaseConfig := {|
  countConfedsInAsPathLen := false;
  computeUcmpFromLbwComm := true;
  ucmpWidth_ := 1;
  ucmpQuantizer_ := None;
  bestpathFeatures := @features sample_context;
  ribOutQHighWatermark_ := 1000;
  highWatermarkForRouteChurn_ := 1000;
  lowWatermarkForRouteChurn_ := 100;
  getBackupAddr _ := None;
  hasConditionalLocalRoutes := false
|}.
Definition weighted (n : positive) : Event :=
  RoutesIn 0 (sample_peer (Zpos n) (Zpos n))
    (Some (n, mkPath 0 [mkSegment [] [65001; 65002] [] []] (IPV4 [10; 9; 0; Zpos n]) true 0 (Some 100) 0 [] 0
                (Some (S754_finite false 1 0)) None)) [(net16 1, 0)].

Lemma all_weights_zero_advertised :
  option_map (fun w => ((fun t => t !! net16 1) <$> w_agent w, bool_decide (is_Some (toldBy (rf_pushed (w_rib w)) (net16 1)))))
    (@wrun _ rib_config narrow_base _
       ([KeepAlive (AgentAlive 7 true); weighted 1; weighted 2; weighted 3; InitialPathComputation 0] ++ served) startWorld)
  = Some (Some None, true).
Proof. vm_compute. reflexivity. Qed.
